(* ===== verification/_CoqProject ===== *)
-Q . S2P
Prelude.v
IpcProto.v
JobTable.v
JobInv.v
JobSpec.v
Demo.v
IpcServer.v
IpcSpec.v
Launchd.v
StoreTypes.v
StoreInv.v
StorePat.v
StoreOps.v
StoreCore.v
StoreValue.v
StoreServer.v
StoreSess.v
StoreNotify.v
StoreLife.v
StoreReq.v
StoreDemux.v
StoreRound.v
StoreDemo.v
StoreSafe.v
StoreSpec.v
LaunchData.v
LaunchWire.v
LaunchPack.v
LaunchUnpack.v
LaunchMsg.v
LaunchStream.v
LaunchSpec.v
KModLoader.v
RouteTypes.v
RouteList.v
RouteInv.v
RouteElect.v
RouteElection.v
RouteTable.v
RouteSpec.v
RouteApply.v
RouteDict.v
RouteMake.v
RouteFill.v
RouteService.v
RouteSafe.v
RouteDemo.v
NwiState.v
NwiInfo.v
NwiRound.v
NwiRep.v
NwiInv.v
NwiList.v
NwiGrow.v
NwiRead.v
NwiPass.v
NwiSpec.v
NwiDemo.v
DnsCreate.v
DnsExpand.v
DnsBuild.v
DnsResolver.v
DnsConfig.v
DnsOpen.v
DnsOpenConfig.v
DnsRead.v
DnsSpec.v
DnsDemo.v
DnsFlat.v
DnsFlatSpec.v
DnsMerge.v
DnsList.v
DnsSet.v
DnsSort.v
DnsEntries.v
DnsOps.v
DnsMergeSpec.v
DnsPublish.v
DnsGlobal.v
DnsSetDemo.v
