(* ===== verification/Prelude.v ===== *)
(** * freebsd-launchd: a verification library

    The repository ports Apple's launchd and configd to FreeBSD. This library models
    the parts that carry its logic and proves what makes them correct. A definition
    bears the name of the C function, type or constant it models; the files under
    [src/] it comes from are named at the head of each file.

    ** The program and its parts

    - launchd ([src/src/src]) is process 1: it reads property lists into a table of
      jobs, spawns them, reaps them and restarts those with KeepAlive, and serves
      requests on a Unix socket. launchctl ([src/src/support]) is the client.
    - liblaunch ([src/src/liblaunch]) is the older client library: the trees of
      [launch_data_t], their wire format, and messages with descriptors over a
      stream socket.
    - kmodloader ([src/kmodloader]) loads kernel modules for the display and for
      what devmatch suggests, once at boot.
    - configd ([src/configd/src/configd.tproj]) keeps the dynamic store: a dictionary
      of values, sessions that watch keys and patterns, and notifications to them.
    - IPMonitor ([src/configd/src/Plugins/IPMonitor]) is the plug-in of configd that
      elects the primary network service and keeps the routing table of the kernel.
      It publishes the interfaces it elects from as the network information state
      ([src/configd/src/nwi]), a block of memory that clients read, and the resolvers of
      all services as the DNS configuration, which the library dnsinfo
      ([src/configd/src/dnsinfo]) flattens into a message and expands in the client.

    They meet at sockets and ports only: launchctl and launchd through the frames of
    [IpcProto], configd and its clients through MIG messages ([StoreServer]), a
    liblaunch client and its peer through the frames of [LaunchStream]. Inside
    configd, IPMonitor is given the dictionaries of the services; they are arguments of
    the model. The entries its election ends with ([nwi_entry]) are what a pass over the
    network information state starts from. The DNS dictionaries [get_dns_changes] keeps,
    the route lists and the network information state are what [dns_configuration_set]
    starts from, and what it stores is what a client expands and reads
    ([dns_configuration_set_publishes]).

    ** The model of C

    Code that threads mutable state and may crash is in the monad [C S A] of this
    file: a state passing function into [option], where [None] is the crash (a NULL or
    dangling dereference, a failed assertion, an access out of bounds). Pure functions
    are Rocq functions. Words have their width written out ([u32], [u64], [i32]); flags
    are tested with [Z.land]. Loops over lists are structural; every other recursion
    has fuel that is proved to be enough:
    - [unpack_fuel] (LaunchWire) is twice the buffer and two: every node read consumes
      at least one word of it, and [launch_data_unpack_total] shows that it never runs
      out;
    - [recv_loop] (LaunchMsg) has the received length and one: every frame is longer
      than nothing;
    - [grow_cap] (IpcServer) may double 64 times, more than a 64-bit size can need;
    - [RouteProcess_add] (RouteList) has the bound of the code, MAX_RECURSE_DEPTH;
    - [set_if_list_from] (NwiState) has both counts: every round takes an ifstate of one
      of them; [walk] (NwiInfo), a reader's loop, is proved to end within the count of
      its family ([nwi_readers]);
    - [count_prefix_bits] (RouteMake) has the 8 digits of a word, 4 bits each round;
    - [reach_loop] (DnsCreate), [expand_attributes] and [expand_config_attributes]
      (DnsExpand) have the length of the attributes and one: no attribute is shorter than
      its header. Running out would be a crash, and [dns_config_roundtrip] and
      [dns_configuration_set_publishes] show that there is none;
    - a socket call that waits for a peer that never answers is [Blocks], not fuel.

    What the code calls but does not define is a class or an argument, used through
    its documented answers only: [Kernel] (fork, kill, clocks, Foundation's plist
    reader), [RegexLib] and [CFOrder] (regex(3) and the enumeration order of the CF
    containers), [MachKernel] (Mach, the kernel and the serializer, in StoreTypes), [Heap]
    and the routing socket in RouteList, [Network] (inet_pton, if_nametoindex) in
    RouteDict, the output of the commands kmodloader runs, digests, what a candidate's
    service says of DNS, reachability and signatures ([candidate_info], in NwiRound),
    [Reachability] (if_indextoname and the reachability of an address) in DnsCreate,
    [CoreFoundation] (comparing, sorting, trimming; inet_aton; the order of destinations)
    in DnsMerge, and [AddressInfo] (getaddrinfo of a numeric address) in DnsFlat. Theorems
    hold for all their instances; Demo, StoreDemo, RouteDemo, NwiDemo, DnsDemo and
    DnsSetDemo are concrete ones on which each theorem with a hypothesis is evaluated
    (its [_witness]).

    ** The files

    launchd:
    - [IpcProto]: ipc_proto.c, ipc.h. [write_all], [read_all], [ipc_send], [ipc_recv]
      over a socket whose answers are a script. A message is received as it was sent
      under every fragmentation ([ipc_roundtrip]); exactly well-formed frames are
      accepted ([ipc_recv_exact]).
    - [JobTable]: core.m, core.h and the SIGCHLD handler of runtime.c. The heap of jobs,
      the linked list, throttled restarts.
    - [JobInv]: the invariant of the table and that every operation keeps it. [JobSpec]:
      the table as a map from labels to jobs.
    - [IpcServer]: ipc.c, one connection from request to reply, and launchctl.c.
      [IpcSpec]: each request refines a transition of the map ([dispatch_refines]); the
      reply to LIST; a launchctl command end to end ([conversation]).
    - [Launchd]: launchd.c, the transition system of events. In every reachable state
      the table is well formed and no event crashes but a LIST request for a row longer
      than its buffer ([launchd_safe], [list_long_row_crashes]). The world of the model
      records every process that is started and when ([spawns]), which the code does not:
      the theorems on throttling and KeepAlive over time are about that record
      ([throttle_respected], [keepalive_respawn]). UNLOAD over time; the requests that
      lose a process.

    configd:
    - [StoreTypes]: the dictionaries and sessions (_SCD.h, session.h), watchers and
      patterns (_SCD.c and pattern.c). [StoreOps]: the operations on the store
      (_configset.c to _notifyviasignal.c). [StoreServer]: session.c, the request
      handlers, notify_server.c, [pushNotifications], the loop of configd_server.c.
    - [StoreInv], [StorePat], [StoreCore]: watcher counts, patterns, and the invariant
      between the operations of a request. [StoreValue], [StoreNotify], [StoreSess],
      [StoreLife], [StoreReq], [StoreDemux]: what each group of operations does to the
      values, the watch lists, the sessions and the rights of a sender, and that the
      invariant is kept. [StoreRound]: posting notifications and the rounds of the
      server loop.
    - [StoreSafe]: every well-formed message is answered and the invariant holds again
      ([configd_safe]), watcher counts are exact ([watch_counts]), values change for
      authorised senders only ([values_authorized]), and the requests configd does not
      survive. [StoreSpec]: what each request does, and sessions over several rounds: a
      change reaches those who watch for it ([change_delivered]).

    liblaunch (liblaunch.c):
    - [LaunchData]: the tree and its operations; dictionaries refine finite maps.
      [LaunchWire]: [launch_data_pack] and [launch_data_unpack] over bytes, and the wire
      format as a relation. [LaunchPack], [LaunchUnpack]: both functions against it.
      [LaunchMsg]: [launchd_msg_send], [launchd_msg_recv]; [LaunchStream]: frames on a
      stream. [LaunchSpec]: the theorems, and the cases in which they fail.

    kmodloader (KMDaemon.m): [KModLoader].

    IPMonitor, routes (ip_plugin.c, and the ranks of
    nwi/network_state_information_priv.h):
    - [RouteTypes]: ranks, routes, the messages to the kernel; IPv4 and IPv6 are the two
      instances of the class [RouteListInfo], as they are of the C table of functions.
      [RouteList]: the operations on route lists. [RouteElection]: candidates, their
      election, and the table that comes of it.
    - [RouteInv]: the order of routes and the invariant of a list. [RouteElect]:
      [RouteListAddRoute] against a reference definition. [RouteTable]: the best routes,
      for any order of adding them, and the loop of [ElectionResultsGetPrimary].
      [RouteSpec]: the table, and the default route of the primary service.
      [RouteApply]: the longest match, and which calls replace one table in the kernel
      by another.
    - [RouteDict]: what is read out of the dictionaries of a service, and its rank.
      [RouteMake]: the functions that make its route list in a zeroed block.
      [RouteFill]: subnet masks, and the stores against a reference list.
      [RouteService]: what is read is well formed. [RouteSafe]: the class [RouteSource],
      that both address families implement it, and the election of services made from
      any dictionaries; the routes a service is kept with.

    The network information state (network_state_information_priv.c and .h,
    network_information.c, and its use in ip_plugin.c):
    - [NwiState]: the block of memory and what changes it, the differences of two states
      and the generations of interfaces; [NwiInfo]: what readers call; [NwiRound]: what
      [IPMonitorProcessChanges] does with it, from one change to the next, and the calls
      to the kernel.
    - [NwiRep]: the block as two lists, one for each family. [NwiInv]: the invariant
      ([nwi_ok]: names once, aliases linked both ways, the last marked). [NwiGrow],
      [NwiList], [NwiRead]: each group of operations against lists.
    - [NwiPass]: one pass, and any number of them. [NwiSpec]: the theorems. [NwiDemo]:
      the states of test_nwi_reference.txt, whose output the definitions reproduce, and
      the cases in which the code fails.

    The DNS configuration, flat (dnsinfo_create.c, dnsinfo_internal.h, with the
    structures of dnsinfo.h and dnsinfo_private.h):
    - [DnsCreate]: the functions that build a resolver and a configuration, each one
      block of bytes that is reallocated as it grows. [DnsExpand]: the expansion of a
      configuration in a client's buffer, with pointers in the padding, and what a client
      finds by following them.
    - [DnsBuild]: blocks made of fields. [DnsResolver]: a call as an operation on the
      block and on the resolver it stands for. [DnsConfig]: reachability, and whole
      configurations. [DnsOpen], [DnsOpenConfig]: the expanded buffer. [DnsRead]: what
      its pointers lead to. [DnsSpec]: what was built is what a client reads
      ([dns_config_roundtrip]), what it refuses ([buffer_create_checks]), when signatures
      are equal. [DnsDemo]: a configuration, and where the code fails.

    The files in /etc/resolver (dnsinfo_flatfile.c): [DnsFlat]: lines, words, keywords,
    numbers and addresses. [DnsFlatSpec]: the calls a file makes, and the resolver that it
    says ([flatfile_create_resolver_reads]).

    IPMonitor, DNS (ip_plugin.c, dns-configuration.c, and three functions of SCDPrivate.c):
    - [DnsMerge]: [get_dns_changes], what the network and the user say merged into the
      dictionary of a service. [DnsList]: the resolvers made of all services, as
      dictionaries, and the search list. [DnsSet]: their order, the block of each, and
      [dns_configuration_set].
    - [DnsSort]: the order of resolvers, and the search list. [DnsEntries]: what the list
      holds. [DnsOps]: the calls that a dictionary makes. [DnsMergeSpec]: the theorems on
      the dictionaries of services. [DnsPublish]: the list of resolvers, and what a client
      reads of what is stored.
    - [DnsGlobal]: the DNS of the primary service from one change to the next: the part of
      [IPMonitorProcessChanges] that concerns DNS ([dns_pass]), the global DNS key,
      resolv.conf and the keys that are written at once ([keyChangeList]), and the
      invariant of all passes ([dns_passes_published]). [DnsSetDemo]: two services, a file
      and two passes, and the cases in which the code fails.

    ** What the theorems cover

    - Safety: no crash and the invariant in every reachable state ([configd_safe],
      [launchd_safe], [services_elect_safe], [nwi_monitor_safe], [dns_passes_published]).
      Types: [get_dns_changes_typed].
    - Function: what each request and operation answers and changes, errors included
      ([buffer_create_checks]).
    - Refinement and equivalence: tables, dictionaries, route lists, network information
      states and lists of resolvers against maps, lists and reference definitions.
    - Round trips: frames, packed trees and DNS configurations. Bounds:
      [launch_data_unpack_total].
    - Liveness: respawning, delivery of changes, temporary values.
    - Where the code does not do what it means to, a theorem says so:
      [start_while_stopping_orphans], [unload_while_stopping_orphans],
      [list_long_row_crashes], [long_interval_not_waited], [configopen_crash],
      [configset_m_crash], [nul_in_name_reads_empty], the last theorems of LaunchSpec,
      [gpuDevices_3d_controller], [RouteProcess_ignores_failure], [primary_tie],
      [excluded_own_interface], the last theorems of NwiDemo, DnsDemo and DnsSetDemo.

    ** What is not modelled

    - Logging, debug dumps, opening and binding of sockets and ports, MIG marshalling,
      the loading of plug-ins: input and output without logic of their own.
    - [malloc] is taken to succeed, but for the routing table, whose code handles it.
    - launchd: times are unbounded integers, but the sums and products that
      [schedule_respawn] makes of them wrap around in 64 bits; theorems on time are for
      intervals up to [MAX_INTERVAL] and times below [MAX_TIME].
    - configd, memory that is read before it is set (the slot of a session that could not
      be added, see [addSession]) is a crash at once.
    - configd: listSessions, file system access checks of a session ([hasPathAccess]);
      values arrive unserialized or as a failure to unserialize.
    - liblaunch: the security session of [launch_msg_internal], connecting.
    - IPMonitor: proxies, NAT64 prefixes, SMB; the patterns it watches, the
      notification of changes in /etc, and the queues it runs on.
      The C type [int] of a list's size is taken not to overflow (hypotheses of the
      theorems bound the number of routes by 2^29, and the services by 2^27).
    - The network information state: its copy for the clients (the server, the XPC
      connection and the cache of a client), and the fields [version] and [ref], which
      no modelled operation reads.
    - dnsinfo: the server and the connection of a client (XPC around one copy of the
      configuration), logging, and freeing memory. A file of /etc/resolver whose last line
      has no newline is taken to end there, where the code reads on for a NUL.
    - SystemConfiguration.framework, scutil, the other plug-ins, libraries and tests. *)

From stdpp Require Export gmap strings list fin_maps pretty.
From Stdlib Require Export ZArith Lia.
From Stdlib Require Export Ascii Strings.Byte.

(** ** Notations

    C code that threads mutable state and may crash (a NULL or dangling
    dereference, a failed [assert]) is embedded in a state monad with failure:
    [None] is the crash. *)

Declare Scope c_scope.
Delimit Scope c_scope with c.

Definition C (S A : Type) : Type := S → option (A * S).

Definition ret {S A} (a : A) : C S A := λ s, Some (a, s).
Definition bind {S A B} (m : C S A) (k : A → C S B) : C S B :=
  λ s, match m s with Some (a, s') => k a s' | None => None end.
Definition crash {S A} : C S A := λ _, None.
Definition get {S} : C S S := λ s, Some (s, s).
Definition gets {S A} (f : S → A) : C S A := λ s, Some (f s, s).
Definition modify {S} (f : S → S) : C S unit := λ s, Some (tt, f s).
(** [assert (e)], and the dereference of a pointer that must not be NULL. *)
Definition c_assert {S} (b : bool) : C S unit := if b then ret tt else crash.
Definition deref {S A} (o : option A) : C S A :=
  match o with Some a => ret a | None => crash end.
(** [when (b) { m }]. *)
Definition when {S} (b : bool) (m : C S unit) : C S unit := if b then m else ret tt.
(** [for (i = 0; i < n; i++) body(l[i])] over a snapshot of the values. *)
Fixpoint for_each {S A} (l : list A) (body : A → C S unit) : C S unit :=
  match l with
  | [] => ret tt
  | x :: l => bind (body x) (λ _, for_each l body)
  end.

Notation "'let*' x := m 'in' k" := (bind m (λ x, k))
  (at level 10, x name, m at level 100, k at level 200) : c_scope.
Notation "'let*' ' p := m 'in' k" := (bind m (λ v, match v with p => k end))
  (at level 10, p strict pattern, m at level 100, k at level 200) : c_scope.
Notation "m ;; k" := (bind m (λ _, k))
  (at level 100, k at level 200, right associativity) : c_scope.

(** ** Total correctness of a command

    [triple P m Q]: from every state in [P] the command does not crash and ends
    in [Q]. *)

Definition triple {S A} (P : S → Prop) (m : C S A) (Q : A → S → Prop) : Prop :=
  ∀ s, P s → ∃ a s', m s = Some (a, s') ∧ Q a s'.

Section triple.
Context {S : Type}.
Implicit Types P : S → Prop.

Lemma triple_ret {A} (a : A) P : triple P (ret a) (λ b s, b = a ∧ P s).
Proof. intros s HP. by exists a, s. Qed.

Lemma triple_bind {A B} (m : C S A) (k : A → C S B) P Q R :
  triple P m Q → (∀ a, triple (Q a) (k a) R) → triple P (bind m k) R.
Proof.
  intros Hm Hk s HP. destruct (Hm s HP) as (a & s' & E & HQ).
  destruct (Hk a s' HQ) as (b & s'' & E' & HR).
  exists b, s''. unfold bind; by rewrite E.
Qed.

Lemma triple_conseq {A} (m : C S A) P P' (Q Q' : A → S → Prop) :
  triple P' m Q' → (∀ s, P s → P' s) → (∀ a s, Q' a s → Q a s) → triple P m Q.
Proof.
  intros Hm HP HQ s Hs. destruct (Hm s (HP s Hs)) as (a & s' & E & H).
  exists a, s'; auto.
Qed.

Lemma triple_for_each {A} (l : list A) (body : A → C S unit)
    (I : list A → S → Prop) :
  (∀ x l', triple (I (x :: l')) (body x) (λ _, I l')) →
  triple (I l) (for_each l body) (λ _, I []).
Proof.
  intros Hb. induction l as [|x l IH]; intros s HI; cbn.
  - by exists tt, s.
  - destruct (Hb x l s HI) as ([] & s' & E & HI').
    destruct (IH s' HI') as ([] & s'' & E' & HI'').
    exists tt, s''. unfold bind; by rewrite E.
Qed.

Lemma triple_for_each_inv {A} (l : list A) (body : A → C S unit) P :
  (∀ x, x ∈ l → triple P (body x) (λ _, P)) →
  triple P (for_each l body) (λ _, P).
Proof.
  induction l as [|x l IH]; intros Hb s HP; cbn; [by exists tt, s|].
  destruct (Hb x ltac:(left) s HP) as ([] & s' & E & HP').
  destruct (IH ltac:(intros; apply Hb; by right) s' HP') as ([] & s'' & E' & HP'').
  exists tt, s''. unfold bind; by rewrite E.
Qed.

Lemma bind_eq {A B} (m : C S A) (k : A → C S B) s a s' :
  m s = Some (a, s') → bind m k s = k a s'.
Proof. intros E. unfold bind. by rewrite E. Qed.

Lemma bind_eq_pair {A B} (m : C S A) (k : A → C S B) s r :
  m s = Some r → bind m k s = k r.1 r.2.
Proof. destruct r. apply bind_eq. Qed.

Lemma bind_get {B} (k : S → C S B) s : bind get k s = k s s.
Proof. done. Qed.
Lemma bind_modify {B} (f : S → S) (k : unit → C S B) s : bind (modify f) k s = k tt (f s).
Proof. done. Qed.

Lemma bind_ret {A B} (a : A) (k : A → C S B) : bind (ret a) k = k a.
Proof. done. Qed.

Lemma bind_inv {A B} (m : C S A) (k : A → C S B) s r :
  bind m k s = Some r → ∃ a s', m s = Some (a, s') ∧ k a s' = Some r.
Proof. unfold bind. destruct (m s) as [[a s']|]; naive_solver. Qed.
End triple.

Lemma for_each_app {S A} (l1 l2 : list A) (body : A → C S unit) s :
  for_each (l1 ++ l2) body s = bind (for_each l1 body) (λ _, for_each l2 body) s.
Proof.
  revert s. induction l1 as [|x l1 IH]; intros s; cbn; [done|].
  unfold bind. destruct (body x s) as [[[] s']|]; [|done]. rewrite IH. done.
Qed.

Lemma for_each_fmap {S A B} (f : A → B) l (body : B → C S unit) s :
  for_each (f <$> l) body s = for_each l (λ x, body (f x)) s.
Proof.
  revert s. induction l as [|x l IH]; intros s; cbn; [done|]. unfold bind.
  destruct (body (f x) s) as [[[] s']|]; [|done]. apply IH.
Qed.

(** ** Machine integers *)

Definition u32 (z : Z) : Z := (z mod 2 ^ 32)%Z.
Definition u64 (z : Z) : Z := (z mod 2 ^ 64)%Z.
Definition i32 (z : Z) : Z := ((z + 2 ^ 31) mod 2 ^ 32 - 2 ^ 31)%Z.

Definition i64 (z : Z) : Z := ((z + 2 ^ 63) mod 2 ^ 64 - 2 ^ 63)%Z.

Lemma i64_small z : (- 2 ^ 63 ≤ z < 2 ^ 63)%Z → i64 z = z.
Proof. intros Hz. unfold i64. rewrite Z.mod_small by lia. lia. Qed.

Lemma i32_small z : (- 2 ^ 31 ≤ z < 2 ^ 31)%Z → i32 z = z.
Proof. intros Hz. unfold i32. rewrite Z.mod_small by lia. lia. Qed.

(** ** Bytes in memory (little-endian, as on amd64) *)

#[export] Instance byte_eq_dec : EqDecision byte := Byte.byte_eq_dec.

Definition byte_of_Z (z : Z) : byte :=
  match Byte.of_N (Z.to_N (z mod 256)) with Some b => b | None => x00 end.
Definition Z_of_byte (b : byte) : Z := Z.of_N (Byte.to_N b).

Fixpoint le_encode (n : nat) (z : Z) : list byte :=
  match n with
  | 0 => []
  | S n => byte_of_Z z :: le_encode n (z / 256)
  end.
Fixpoint le_decode (bs : list byte) : Z :=
  match bs with
  | [] => 0
  | b :: bs => Z_of_byte b + 256 * le_decode bs
  end%Z.

Lemma Z_of_byte_range b : (0 ≤ Z_of_byte b < 256)%Z.
Proof. unfold Z_of_byte. pose proof (Byte.to_N_bounded b). lia. Qed.

Lemma Z_of_byte_of_Z z : Z_of_byte (byte_of_Z z) = (z mod 256)%Z.
Proof.
  unfold Z_of_byte, byte_of_Z. pose proof (Z.mod_pos_bound z 256 eq_refl) as Hb.
  destruct (Byte.of_N (Z.to_N (z mod 256))) as [b|] eqn:E.
  - apply Byte.to_of_N in E. rewrite E. lia.
  - apply Byte.of_N_None_iff in E. lia.
Qed.

Lemma byte_of_Z_of_byte b : byte_of_Z (Z_of_byte b) = b.
Proof. by destruct b. Qed.

Lemma byte_of_Z_mod z : byte_of_Z (z mod 256) = byte_of_Z z.
Proof. unfold byte_of_Z. by rewrite Z.mod_mod. Qed.

Lemma length_le_encode n z : length (le_encode n z) = n.
Proof. revert z. induction n; intros; cbn; auto. Qed.

Lemma pow256_succ n : (256 ^ Z.of_nat (S n) = 256 * 256 ^ Z.of_nat n)%Z.
Proof. rewrite Nat2Z.inj_succ, Z.pow_succ_r; lia. Qed.

Lemma le_decode_encode n z : le_decode (le_encode n z) = (z mod 256 ^ Z.of_nat n)%Z.
Proof.
  revert z. induction n as [|n IH]; intros z; [by rewrite Z.mod_1_r|].
  cbn [le_encode le_decode]. rewrite IH, Z_of_byte_of_Z, pow256_succ, Z.rem_mul_r; lia.
Qed.

Lemma le_decode_range bs : (0 ≤ le_decode bs < 256 ^ Z.of_nat (length bs))%Z.
Proof.
  induction bs as [|b bs IH]; [cbn; lia|].
  cbn [le_decode length]. rewrite pow256_succ. pose proof (Z_of_byte_range b). lia.
Qed.

Lemma le_encode_decode bs : le_encode (length bs) (le_decode bs) = bs.
Proof.
  induction bs as [|b bs IH]; [done|]. cbn [le_decode length le_encode].
  pose proof (Z_of_byte_range b) as Hb. f_equal.
  - rewrite <-byte_of_Z_mod, Z.mul_comm, Z.mod_add, Z.mod_small by lia.
    apply byte_of_Z_of_byte.
  - rewrite Z.add_comm, Z.mul_comm, Z.div_add_l, Z.div_small, Z.add_0_r by lia.
    apply IH.
Qed.

(** ** A block of memory

    Offsets are integers; an access outside the block has no result. *)

Section memory.
Local Open Scope Z_scope.
Implicit Types mem : list byte.

Definition mem_load (mem : list byte) (off n : Z) : option (list byte) :=
  if (0 <=? off) && (0 <=? n) && (off + n <=? Z.of_nat (length mem))
  then Some (take (Z.to_nat n) (drop (Z.to_nat off) mem)) else None.

Definition mem_store (mem : list byte) (off : Z) (bs : list byte) : option (list byte) :=
  if (0 <=? off) && (off + Z.of_nat (length bs) <=? Z.of_nat (length mem))
  then Some (take (Z.to_nat off) mem ++ bs ++ drop (Z.to_nat off + length bs) mem) else None.

Lemma load_mid pre bs post off n :
  off = Z.of_nat (length pre) → n = Z.of_nat (length bs) →
  mem_load (pre ++ bs ++ post) off n = Some bs.
Proof.
  intros -> ->. unfold mem_load. rewrite !length_app, !Nat2Z.inj_add.
  rewrite !(proj2 (Z.leb_le _ _)) by lia. cbn [andb].
  by rewrite !Nat2Z.id, drop_app_length, take_app_length.
Qed.

Lemma store_mid pre old new post off :
  off = Z.of_nat (length pre) → length old = length new →
  mem_store (pre ++ old ++ post) off new = Some (pre ++ new ++ post).
Proof.
  intros -> Hl. unfold mem_store. rewrite !length_app, !Nat2Z.inj_add.
  rewrite !(proj2 (Z.leb_le _ _)) by lia. cbn [andb].
  by rewrite Nat2Z.id, take_app_length, drop_app_add, <-Hl, drop_app_length.
Qed.

Lemma le_decode_8 z : 0 ≤ z < 2 ^ 64 → le_decode (le_encode 8 z) = z.
Proof. intros Hz. rewrite le_decode_encode. by rewrite Z.mod_small. Qed.

End memory.

(** A C string inside a byte buffer ends at the first NUL. *)
Fixpoint c_string (bs : list byte) : string :=
  match bs with
  | [] => EmptyString
  | x00 :: _ => EmptyString
  | b :: bs => String (ascii_of_byte b) (c_string bs)
  end.

(** ** C strings and number formatting *)

(** A C string made from a string that may hold NUL bytes stops at the first. *)
Fixpoint c_trunc (s : string) : string :=
  match s with
  | EmptyString => EmptyString
  | String a s => if Ascii.eqb a zero then EmptyString else String a (c_trunc s)
  end.

(** [strncpy]/[snprintf] truncation to [n] characters. *)
Definition str_take (n : nat) (s : string) : string := String.substring 0 n s.

(** ["%d"]. *)
Definition fmt_d (z : Z) : string := pretty z.

Definition digit_of (a : ascii) : option Z :=
  let n := N_of_ascii a in
  if (48 <=? n)%N && (n <=? 57)%N then Some (Z.of_N n - 48)%Z else None.

(** [isspace] in the C locale. *)
Definition is_space (a : ascii) : bool :=
  let n := N_of_ascii a in (n =? 32)%N || ((9 <=? n)%N && (n <=? 13)%N).

Fixpoint skip_space (s : string) : string :=
  match s with
  | String a s' => if is_space a then skip_space s' else s
  | EmptyString => s
  end.

(** The digits at the head of [s], accumulated onto [acc]; [None] if there are
    none. *)
Fixpoint read_digits (s : string) (acc : Z) (seen : bool) : option (Z * string) :=
  match s with
  | String a s' =>
      match digit_of a with
      | Some d => read_digits s' (10 * acc + d)%Z true
      | None => if seen then Some (acc, s) else None
      end
  | EmptyString => if seen then Some (acc, s) else None
  end.

Definition LONG_MAX : Z := (2 ^ 63 - 1)%Z.
Definition LONG_MIN : Z := (- 2 ^ 63)%Z.

(** [strtol(s, &end, 10)]: the value (clamped on overflow) and [end]. *)
Definition strtol10 (s : string) : Z * string :=
  let s0 := skip_space s in
  let '(neg, s1) :=
    match s0 with
    | String "-" s' => (true, s')
    | String "+" s' => (false, s')
    | _ => (false, s0)
    end in
  match read_digits s1 0 false with
  | None => (0%Z, s)
  | Some (v, rest) =>
      let v := if neg : bool then (- v)%Z else v in
      (Z.max LONG_MIN (Z.min LONG_MAX v), rest)
  end.

(** ** Case, digits and separators *)

Definition lowercase (a : ascii) : ascii :=
  let n := N_of_ascii a in if (65 <=? n)%N && (n <=? 90)%N then ascii_of_N (n + 32) else a.
Fixpoint lowercaseString (s : string) : string :=
  match s with EmptyString => s | String a s => String (lowercase a) (lowercaseString s) end.

Definition hex_digit (a : ascii) : option Z :=
  let n := Z.of_N (N_of_ascii a) in
  (if (48 <=? n) && (n <=? 57) then Some (n - 48)
   else if (97 <=? n) && (n <=? 102) then Some (n - 87)
   else if (65 <=? n) && (n <=? 70) then Some (n - 55) else None)%Z.
Fixpoint read_hex (s : string) (acc : Z) : Z :=
  match s with
  | EmptyString => acc
  | String a s => match hex_digit a with Some d => read_hex s (16 * acc + d)%Z | None => acc end
  end.
(** Without the dots at the end. *)
Fixpoint trim_trailing (s : string) : string :=
  match s with
  | String a s' =>
      match trim_trailing s' with
      | EmptyString => if Ascii.eqb a "."%char then EmptyString else String a EmptyString
      | s' => String a s'
      end
  | EmptyString => EmptyString
  end.

(** [strchr(s, c)]: the string in front of it, and the string behind. *)
Fixpoint split_at (c : ascii) (s : string) : string * option string :=
  match s with
  | EmptyString => (EmptyString, None)
  | String a s =>
      if Ascii.eqb a c then (EmptyString, Some s)
      else let '(front, behind) := split_at c s in (String a front, behind)
  end.

(** [strrchr(s, c)], the string in front of it and the string behind. *)
Fixpoint split_last (c : ascii) (s : string) : option (string * string) :=
  match s with
  | EmptyString => None
  | String a s =>
      match split_last c s with
      | Some (front, behind) => Some (String a front, behind)
      | None => if Ascii.eqb a c then Some (EmptyString, s) else None
      end
  end.
(** [word] and [s] in one, split at each separator. *)
Fixpoint split_from (sep : ascii → bool) (word s : string) : list string :=
  match s with
  | EmptyString => [word]
  | String a s =>
      if sep a then word :: split_from sep EmptyString s
      else split_from sep (word +:+ String a EmptyString)%stdpp s
  end.

(** ** Facts about strings *)

#[global] Arguments String.append !_ _ : simpl nomatch.

Lemma str_app_cons a (s1 s2 : string) : (String a s1 +:+ s2 = String a (s1 +:+ s2))%stdpp.
Proof. done. Qed.

Lemma str_app_assoc (s1 s2 s3 : string) : ((s1 +:+ s2) +:+ s3 = s1 +:+ s2 +:+ s3)%stdpp.
Proof. induction s1 as [|a s1 IH]; [done|]. rewrite !str_app_cons. cbn. by rewrite IH. Qed.

Lemma str_app_nil_r (s : string) : (s +:+ EmptyString = s)%stdpp.
Proof. induction s as [|a s IH]; [done|]. by rewrite str_app_cons, IH. Qed.

Lemma str_length_app (s1 s2 : string) :
  String.length (s1 +:+ s2)%stdpp = (String.length s1 + String.length s2)%nat.
Proof. induction s1 as [|a s1 IH]; [done|]. rewrite !str_app_cons. cbn. by rewrite IH. Qed.

Lemma str_take_all n s : (String.length s ≤ n)%nat → str_take n s = s.
Proof.
  unfold str_take. revert n. induction s as [|a s IH]; intros [|n]; cbn; try done; [lia|].
  intros H. f_equal. apply IH. lia.
Qed.

Lemma str_take_app n s1 s2 :
  (n ≤ String.length s1)%nat → str_take n (s1 +:+ s2)%stdpp = str_take n s1.
Proof.
  unfold str_take. revert n. induction s1 as [|a s1 IH]; intros [|n]; cbn; intros H; try done;
    [by destruct s2|lia|]. f_equal. apply IH. lia.
Qed.

Lemma str_length_take n s : String.length (str_take n s) = Nat.min n (String.length s).
Proof.
  unfold str_take. revert n. induction s as [|a s IH]; intros [|n]; cbn; try done. by rewrite IH.
Qed.

Lemma str_take_app_r n s1 s2 :
  (String.length s1 ≤ n)%nat →
  str_take n (s1 +:+ s2)%stdpp = (s1 +:+ str_take (n - String.length s1) s2)%stdpp.
Proof.
  unfold str_take. revert n. induction s1 as [|a s1 IH]; intros n Hn; cbn; [by rewrite Nat.sub_0_r|].
  destruct n as [|n]; cbn in *; [lia|]. f_equal. apply IH. lia.
Qed.

(** A string without NUL bytes. *)
Fixpoint no_nul (s : string) : bool :=
  match s with
  | EmptyString => true
  | String a s => negb (Ascii.eqb a zero) && no_nul s
  end.

Lemma no_nul_app s1 s2 : no_nul (s1 +:+ s2)%stdpp = no_nul s1 && no_nul s2.
Proof. induction s1 as [|a s1 IH]; cbn; [done|]. by rewrite <-andb_assoc, <-IH. Qed.

Lemma no_nul_take n s : no_nul s → no_nul (str_take n s).
Proof.
  unfold str_take. revert n. induction s as [|a s IH]; intros [|n]; cbn; try done.
  intros [? ?]%andb_prop_elim. apply andb_prop_intro. auto.
Qed.

Lemma c_trunc_no_nul s : no_nul (c_trunc s).
Proof.
  induction s as [|a s IH]; cbn; [done|]. destruct (Ascii.eqb a zero) eqn:E; [done|].
  cbn. by rewrite E.
Qed.

Lemma length_bytes s : length (String.list_byte_of_string s) = String.length s.
Proof. unfold String.list_byte_of_string. rewrite length_map. induction s; cbn; congruence. Qed.

(** A C string read back from memory. *)
Lemma c_string_of_bytes s rest :
  no_nul s → c_string (String.list_byte_of_string s ++ x00 :: rest) = s.
Proof.
  induction s as [|a s IH]; cbn; [done|]. intros [Ha Hs]%andb_prop_elim.
  unfold String.list_byte_of_string in IH. rewrite IH by done.
  pose proof (ascii_of_byte_of_ascii a) as Hab. rewrite Hab.
  destruct (byte_of_ascii a) eqn:Ea; try done. by subst a.
Qed.

(** ** Facts about lists *)

Lemma fmap_alter_id {A B} (f : A → B) (g : A → A) (l : list A) i : (∀ y, f (g y) = f y) → f <$> alter g i l = f <$> l.
Proof.
  intros E. rewrite (list_fmap_alter f g id) by (by apply Forall_forall).
  by apply list_alter_id.
Qed.

Lemma alter_last {A} (f : A → A) (l : list A) (a : A) i : i = length l → alter f i (l ++ [a]) = l ++ [f a].
Proof. intros ->. induction l as [|b l IH]; [done|]. cbn. by rewrite <-IH. Qed.

Lemma filter_eq_on {A} (P Q : A → Prop) `{!∀ y, Decision (P y), !∀ y, Decision (Q y)} (l : list A) :
  (∀ y, y ∈ l → P y ↔ Q y) → filter P l = filter Q l.
Proof.
  induction l as [|y l IH]; intros E; [done|]. rewrite !filter_cons, IH by (intros; apply E; by right).
  pose proof (E y ltac:(left)). repeat case_decide; tauto.
Qed.

(** ** Facts about decimal numbers *)

Lemma digit_of_pretty x : (x < 10)%N → digit_of (pretty_N_char x) = Some (Z.of_N x).
Proof.
  intros Hx. assert (x = 0 ∨ x = 1 ∨ x = 2 ∨ x = 3 ∨ x = 4 ∨ x = 5 ∨ x = 6
    ∨ x = 7 ∨ x = 8 ∨ x = 9)%N as H by lia. by destruct_or! H; subst.
Qed.

(** The digits [pretty_N_go] puts in front of a string. *)
Lemma pretty_N_go_spec x s :
  ∃ k, (∀ acc seen, read_digits (pretty_N_go x s) acc seen =
          read_digits s (acc * 10 ^ Z.of_nat k + Z.of_N x) (seen || (0 <? x)%N))%Z ∧
    String.length (pretty_N_go x s) = (k + String.length s)%nat ∧
    (∀ m, (x < 10 ^ N.of_nat m)%N → (k ≤ m)%nat).
Proof.
  revert s. induction (N.lt_wf_0 x) as [x _ IH]; intros s.
  assert (x = 0 ∨ 0 < x)%N as [->|Hx] by lia.
  { exists 0%nat. rewrite pretty_N_go_0. split_and!; [|done|lia].
    intros acc seen. rewrite orb_false_r. cbn. do 2 f_equal. lia. }
  rewrite pretty_N_go_step by done.
  pose proof (N.mod_lt x 10 ltac:(done)) as Hm.
  destruct (IH (x `div` 10)%N (N.div_lt x 10 Hx eq_refl) (String (pretty_N_char (x `mod` 10)) s))
    as (k & Hr & Hl & Hb).
  exists (S k). split_and!.
  - intros acc seen. rewrite Hr. cbn [read_digits]. rewrite digit_of_pretty by done.
    rewrite (proj2 (N.ltb_lt 0 x)), orb_true_r by done. f_equal.
    rewrite Nat2Z.inj_succ, Z.pow_succ_r by lia. rewrite (N.div_mod x 10) at 3 by done.
    lia.
  - rewrite Hl. cbn. lia.
  - intros [|m] Hlt; [cbn in Hlt; lia|]. apply le_n_S, Hb.
    rewrite Nat2N.inj_succ, N.pow_succ_r in Hlt by lia. apply N.Div0.div_lt_upper_bound. lia.
Qed.


(** What follows a number does not begin with a digit. *)
Definition no_digit (s : string) : bool :=
  match s with String a _ => bool_decide (digit_of a = None) | EmptyString => true end.

Lemma read_digits_stop s acc : no_digit s → read_digits s acc true = Some (acc, s).
Proof. destruct s as [|a s]; cbn; [done|]. by intros ->%bool_decide_unpack. Qed.

Lemma read_fmt_pos p s :
  no_digit s → read_digits (pretty (N.pos p) +:+ s)%stdpp 0 false = Some (Z.pos p, s).
Proof.
  intros Hs. unfold pretty, pretty_N. rewrite decide_False by done.
  assert (Hgo : ∀ x t, pretty_N_go x t = (pretty_N_go x EmptyString +:+ t)%stdpp).
  { intros x. induction (N.lt_wf_0 x) as [x _ IH]; intros t.
    assert (x = 0 ∨ 0 < x)%N as [->|Hx] by lia; [done|].
    rewrite !(pretty_N_go_step x) by done.
    rewrite (IH _ (N.div_lt x 10 Hx eq_refl) (String _ t)).
    rewrite (IH _ (N.div_lt x 10 Hx eq_refl) (String _ EmptyString)).
    by rewrite str_app_assoc. }
  rewrite <-Hgo. destruct (pretty_N_go_spec (N.pos p) s) as (k & Hr & _).
  rewrite Hr. by rewrite read_digits_stop.
Qed.

Lemma fmt_d_length z m :
  (Z.abs z < 10 ^ Z.of_nat m)%Z → (1 ≤ m)%nat → (1 ≤ String.length (fmt_d z) ≤ S m)%nat.
Proof.
  intros Hz Hm. unfold fmt_d, pretty, pretty_Z.
  assert (Hp : ∀ p, (Z.pos p < 10 ^ Z.of_nat m)%Z →
    (1 ≤ String.length (pretty (N.pos p)) ≤ m)%nat).
  { intros p Hp. unfold pretty, pretty_N. rewrite decide_False by done.
    destruct (pretty_N_go_spec (N.pos p) EmptyString) as (k & Hr & Hl & Hb).
    rewrite Hl, Nat.add_0_r. split.
    - destruct k; [|lia].
      pose proof (Hr 0%Z false) as Hr'. destruct (pretty_N_go _ _) eqn:E; [by cbn in Hr'|cbn in Hl; lia].
    - apply Hb. apply N2Z.inj_lt. rewrite N2Z.inj_pow.
      rewrite nat_N_Z. cbn. lia. }
  destruct z as [|p|p]; cbn in Hz.
  - cbn. lia.
  - specialize (Hp p Hz). unfold pretty, pretty_positive. lia.
  - specialize (Hp p Hz). rewrite str_length_app. unfold pretty at 1 2, pretty_positive. cbn. lia.
Qed.

Lemma digit_not_space a d : digit_of a = Some d → is_space a = false.
Proof.
  unfold digit_of, is_space. case_match eqn:E; [|done].
  apply andb_prop in E as [E1 E2]. intros _.
  apply N.leb_le in E1, E2. apply orb_false_iff. split; [by apply N.eqb_neq; lia|].
  apply andb_false_iff. right. apply N.leb_gt. lia.
Qed.

Lemma strtol10_digits t v rest :
  read_digits t 0 false = Some (v, rest) → (0 ≤ v ≤ LONG_MAX)%Z → strtol10 t = (v, rest).
Proof.
  intros Hr Hv. unfold strtol10. destruct t as [|a t]; [done|].
  assert (∃ d, digit_of a = Some d) as [d Hd].
  { cbn in Hr. destruct (digit_of a); [eauto|done]. }
  cbn [skip_space]. rewrite (digit_not_space _ _ Hd).
  assert ((match String a t with String "-" s' => (true, s') | String "+" s' => (false, s')
    | _ => (false, String a t) end) = (false, String a t)) as ->.
  { destruct a as [[] [] [] [] [] [] [] []]; done. }
  rewrite Hr. f_equal. unfold LONG_MIN in *. lia.
Qed.

Lemma strtol10_fmt_d z s :
  (LONG_MIN ≤ z ≤ LONG_MAX)%Z → no_digit s → strtol10 (fmt_d z +:+ s)%stdpp = (z, s).
Proof.
  intros Hz Hs. unfold fmt_d. destruct z as [|p|p].
  - apply strtol10_digits; [|done]. change (read_digits s 0 true = Some (0%Z, s)).
    by apply read_digits_stop.
  - apply strtol10_digits; [by apply (read_fmt_pos p)|lia].
  - change (strtol10 (String "-" (pretty (N.pos p) +:+ s)%stdpp) = (Z.neg p, s)).
    unfold strtol10. cbn [skip_space]. change (is_space "-") with false. cbv iota.
    rewrite read_fmt_pos by done. f_equal. unfold LONG_MIN, LONG_MAX in *. lia.
Qed.
