(* ===== verification/IpcProto.v ===== *)
(** * The framed message protocol between launchd and launchctl

    [src/src/src/ipc_proto.c] and the wire format of [src/src/src/ipc.h].

    A connected socket is a [sock]: the bytes the peer has sent and not yet read
    ([rx]; when they run out the peer has closed), the bytes written so far
    ([tx]), the caller's [errno], and two scripts that say how the kernel will
    answer the coming [read] and [write] calls: how many bytes it moves, or the
    error it fails with.  A script may cut the stream into any fragments and
    interrupt any call, so a theorem about all scripts is a theorem about all
    schedules.  A loop that runs out of script is still blocked in the kernel:
    [Blocks]. *)

From S2P Require Import Prelude.
Local Open Scope Z_scope.

(** ** Constants *)

Definition EINTR : Z := 4.
Definition E2BIG : Z := 7.
Definition ENOMEM : Z := 12.
Definition EPIPE : Z := 32.
Definition EPROTO : Z := 92.

Definition IPC_MAGIC : Z := 0x584E5354.
Definition IPC_VERSION : Z := 1.
Definition IPC_MAX_PAYLOAD : Z := 16 * 1024 * 1024.

Definition IPC_CMD_REPLY : Z := 0.
Definition IPC_CMD_LOAD : Z := 1.
Definition IPC_CMD_UNLOAD : Z := 2.
Definition IPC_CMD_LIST : Z := 3.
Definition IPC_CMD_START : Z := 4.
Definition IPC_CMD_STOP : Z := 5.
Definition IPC_CMD_SHUTDOWN : Z := 6.

(** ** Sockets *)

Inductive wstep := WTake (k : nat) | WFail (e : Z).
Inductive rstep := RTake (k : nat) | RFail (e : Z).

Record sock := Sock {
  rx : list byte;
  rscript : list rstep;
  tx : list byte;
  wscript : list wstep;
  errno : Z;
  malloc_ok : bool;
}.

Inductive io (A : Type) := Blocks | Returns (a : A).
Arguments Blocks {A}.
Arguments Returns {A} a.

(** [while (len > 0) { n = write(fd, p, len); ... }] *)
Fixpoint write_loop (ws : list wstep) (sent buf : list byte) (err : Z)
    : io (Z * (list wstep * list byte * Z)) :=
  match buf with
  | [] => Returns (0, (ws, sent, err))
  | _ =>
    match ws with
    | [] => Blocks
    | WFail e :: ws =>
        if e =? EINTR then write_loop ws sent buf e
        else Returns (-1, (ws, sent, e))
    | WTake k :: ws =>
        let n := Nat.min k (length buf) in
        if (n =? 0)%nat then Returns (-1, (ws, sent, EPIPE))
        else write_loop ws (sent ++ take n buf) (drop n buf) err
    end
  end.

Definition write_all (s : sock) (buf : list byte) : io (Z * sock) :=
  match write_loop (wscript s) (tx s) buf (errno s) with
  | Blocks => Blocks
  | Returns (r, (ws, t, e)) =>
      Returns (r, Sock (rx s) (rscript s) t ws e (malloc_ok s))
  end.

(** [while (total < len) { n = read(fd, p + total, len - total); ... }];
    [got] holds the [total] bytes read so far. *)
Fixpoint read_loop (rs : list rstep) (avail got : list byte) (len : nat) (err : Z)
    : io (Z * (list rstep * list byte * list byte * Z)) :=
  if (len <=? length got)%nat then Returns (0, (rs, avail, got, err)) else
  match rs with
  | [] => Blocks
  | RFail e :: rs =>
      if e =? EINTR then read_loop rs avail got len e
      else Returns (-1, (rs, avail, got, e))
  | RTake k :: rs =>
      let n := Nat.min (S k) (Nat.min (len - length got) (length avail)) in
      if (n =? 0)%nat
      then Returns (if (length got =? 0)%nat then -2 else -1, (rs, avail, got, err))
      else read_loop rs (drop n avail) (got ++ take n avail) len err
  end.

Definition read_all (s : sock) (len : nat) : io (Z * list byte * sock) :=
  match read_loop (rscript s) (rx s) [] len (errno s) with
  | Blocks => Blocks
  | Returns (r, (rs, a, got, e)) =>
      Returns (r, got, Sock a rs (tx s) (wscript s) e (malloc_ok s))
  end.

(** ** Messages *)

Record ipc_msg_hdr := {
  magic : Z;
  version : Z;
  cmd : Z;
  payload_len : Z;
}.

Definition sizeof_ipc_msg_hdr : nat := 16.

Definition hdr_bytes (h : ipc_msg_hdr) : list byte :=
  le_encode 4 (magic h) ++ le_encode 4 (version h) ++
  le_encode 4 (cmd h) ++ le_encode 4 (payload_len h).

Definition bytes_hdr (bs : list byte) : ipc_msg_hdr := {|
  magic := le_decode (take 4 bs);
  version := le_decode (take 4 (drop 4 bs));
  cmd := le_decode (take 4 (drop 8 bs));
  payload_len := le_decode (take 4 (drop 12 bs));
|}.

Definition set_errno (s : sock) (e : Z) : sock :=
  Sock (rx s) (rscript s) (tx s) (wscript s) e (malloc_ok s).

Definition ipc_send (s : sock) (c : Z) (payload : list byte) : io (Z * sock) :=
  let len := Z.of_nat (length payload) in
  if IPC_MAX_PAYLOAD <? len then Returns (-1, set_errno s E2BIG) else
  let hdr := {| magic := IPC_MAGIC; version := IPC_VERSION;
                cmd := u32 c; payload_len := u32 len |} in
  match write_all s (hdr_bytes hdr) with
  | Blocks => Blocks
  | Returns (r, s) =>
      if negb (r =? 0) then Returns (-1, s) else
      if 0 <? len then
        match write_all s payload with
        | Blocks => Blocks
        | Returns (r, s) => Returns (if negb (r =? 0) then -1 else 0, s)
        end
      else Returns (0, s)
  end.

(** The result is the return value, [*hdr_out] and [*payload_out] ([None] is the
    NULL both callers initialise it with). *)
Definition ipc_recv (s : sock)
    : io (Z * ipc_msg_hdr * option (list byte) * sock) :=
  match read_all s sizeof_ipc_msg_hdr with
  | Blocks => Blocks
  | Returns (r, hb, s) =>
      let h := bytes_hdr hb in
      if negb (r =? 0) then Returns (r, h, None, s) else
      if negb (magic h =? IPC_MAGIC) then Returns (-1, h, None, set_errno s EPROTO) else
      if negb (version h =? IPC_VERSION) then Returns (-1, h, None, set_errno s EPROTO) else
      if IPC_MAX_PAYLOAD <? payload_len h then Returns (-1, h, None, set_errno s E2BIG) else
      if payload_len h =? 0 then Returns (0, h, None, s) else
      if negb (malloc_ok s) then Returns (-1, h, None, set_errno s ENOMEM) else
      match read_all s (Z.to_nat (payload_len h)) with
      | Blocks => Blocks
      | Returns (r, p, s) =>
          if negb (r =? 0) then Returns (-1, h, None, s)
          else Returns (0, h, Some (p ++ [x00]), s)
      end
  end.

(** ** The transfer loops *)

(** A kernel that makes progress: it moves at least a byte per call and fails
    only by interruption. *)
Definition wstep_ok (w : wstep) : bool :=
  match w with WTake (S _) => true | WTake O => false | WFail e => e =? EINTR end.
Definition rstep_ok (r : rstep) : bool :=
  match r with RTake _ => true | RFail e => e =? EINTR end.
Fixpoint wtakes (ws : list wstep) : nat :=
  match ws with [] => 0 | WTake _ :: ws => S (wtakes ws) | _ :: ws => wtakes ws end%nat.
Fixpoint rtakes (rs : list rstep) : nat :=
  match rs with [] => 0 | RTake _ :: rs => S (rtakes rs) | _ :: rs => rtakes rs end%nat.

(** Whatever the kernel does, the bytes sent are a prefix of the buffer, the
    whole of it exactly when the call reports success. *)
Lemma write_loop_prefix ws sent buf err r ws' t e :
  write_loop ws sent buf err = Returns (r, (ws', t, e)) →
  ∃ pre rest, buf = pre ++ rest ∧ t = sent ++ pre ∧
    ((r = 0 ∧ rest = []) ∨ (r = -1 ∧ rest ≠ [])).
Proof.
  revert sent buf err. induction ws as [|[k|e'] ws IH]; intros sent buf err;
    (destruct buf as [|b buf]; [intros [= <- <- <- <-]; exists [], []; rewrite !app_nil_r; auto|]);
    cbn [write_loop]; [done| |].
  - destruct (_ =? 0)%nat eqn:E.
    + intros [= <- <- <- <-]. exists [], (b :: buf). rewrite app_nil_r. auto.
    + intros (pre & rest & Hb & -> & Hr)%IH.
      exists (take (k `min` length (b :: buf)) (b :: buf) ++ pre), rest.
      rewrite <-!(assoc_L (++)), <-Hb, take_drop. auto.
  - case_match; [apply IH|]. intros [= <- <- <- <-].
    exists [], (b :: buf). rewrite app_nil_r. auto.
Qed.

Lemma write_loop_ok ws sent buf err :
  forallb wstep_ok ws → (length buf ≤ wtakes ws)%nat →
  ∃ ws' e, write_loop ws sent buf err = Returns (0, (ws', sent ++ buf, e)) ∧
    forallb wstep_ok ws' ∧ (wtakes ws ≤ wtakes ws' + length buf)%nat.
Proof.
  revert sent buf err. induction ws as [|w ws IH]; intros sent buf err Hok Hlen;
    (destruct buf as [|b buf]; [rewrite app_nil_r; eexists _, err; split; [reflexivity|split; [done|lia]]|]);
    cbn in Hlen; [lia|].
  cbn in Hok; apply andb_prop_elim in Hok as [Hw Hok].
  destruct w as [[|k]|e']; [done| |]; cbn [write_loop].
  - set (n := Nat.min _ _). assert (1 ≤ n ≤ length (b :: buf))%nat by (cbn in *; lia).
    rewrite (proj2 (Nat.eqb_neq n 0)) by lia.
    destruct (IH (sent ++ take n (b :: buf)) (drop n (b :: buf)) err) as (ws' & e & E & ? & Hw');
      [done|rewrite length_drop; cbn in *; lia|].
    exists ws', e. rewrite E, <-(assoc_L (++)), take_drop. split_and!; [done..|].
    rewrite length_drop in Hw'. cbn in *; lia.
  - unfold wstep_ok in Hw. apply Is_true_true in Hw as ->. apply IH; [done|cbn in *; lia].
Qed.

Lemma read_loop_prefix rs avail got len err r rs' a g e :
  read_loop rs avail got len err = Returns (r, (rs', a, g, e)) →
  (length got ≤ len)%nat →
  got ++ avail = g ++ a ∧
  ((r = 0 ∧ length g = len) ∨
   (r ≠ 0 ∧ (length g < len)%nat ∧ (r = -2 → g = [] ∧ a = []))).
Proof.
  revert avail got err. induction rs as [|[k|e'] rs IH]; intros avail got err; cbn [read_loop];
    (destruct (_ <=? _)%nat eqn:El;
      [apply Nat.leb_le in El; intros [= <- <- <- <- <-] ?; split; [done|left; lia]
      |apply Nat.leb_gt in El]); [done| |].
  - set (n := Nat.min _ _). destruct (n =? 0)%nat eqn:En.
    + intros [= <- <- <- <- <-] ?. split; [done|right].
      apply Nat.eqb_eq in En. unfold n in En.
      split; [by destruct (_ =? 0)%nat|split; [done|]].
      destruct (length got =? 0)%nat eqn:E0; [intros _|done].
      apply Nat.eqb_eq, nil_length_inv in E0 as ->.
      split; [done|apply nil_length_inv; cbn [length] in *; lia].
    + intros (Ha & Hr)%IH Hg.
      * split; [|done]. by rewrite <-Ha, <-(assoc_L (++)), take_drop.
      * rewrite length_app, length_take. lia.
  - destruct (e' =? EINTR); [apply IH|]. intros [= <- <- <- <- <-] ?.
    split; [done|right; lia].
Qed.

Lemma read_loop_code rs avail got len err r x :
  read_loop rs avail got len err = Returns (r, x) → r = 0 ∨ r = -1 ∨ r = -2.
Proof.
  revert avail got err. induction rs as [|[k|e] rs IH]; intros avail got err; cbn [read_loop];
    (destruct (_ <=? _)%nat; [intros [= <- _]; auto|]); [done| |].
  - destruct (_ =? 0)%nat; [|by apply IH]. destruct (_ =? 0)%nat; intros [= <- _]; auto.
  - destruct (_ =? _); [by apply IH|]. intros [= <- _]. auto.
Qed.

Lemma read_loop_ok rs avail got len err :
  forallb rstep_ok rs → (length got ≤ len)%nat →
  (len - length got ≤ rtakes rs)%nat → (len - length got ≤ length avail)%nat →
  ∃ rs' e, let n := (len - length got)%nat in
    read_loop rs avail got len err =
      Returns (0, (rs', drop n avail, got ++ take n avail, e)) ∧
    forallb rstep_ok rs' ∧ (rtakes rs ≤ rtakes rs' + n)%nat.
Proof.
  revert avail got err. induction rs as [|w rs IH]; intros avail got err Hok Hg Hr Ha;
    cbn [read_loop]; (destruct (_ <=? _)%nat eqn:El;
      [apply Nat.leb_le in El; replace (len - length got)%nat with 0%nat by lia;
       rewrite drop_0, take_0, app_nil_r; eexists _, err; split; [reflexivity|split; [done|lia]]
      |apply Nat.leb_gt in El]); [cbn in Hr; lia|].
  cbn in Hok; apply andb_prop_elim in Hok as [Hw Hok].
  destruct w as [k|e']; cbn [rtakes] in *.
  - set (n := Nat.min _ _).
    assert (1 ≤ n ≤ len - length got)%nat by lia.
    rewrite (proj2 (Nat.eqb_neq n 0)) by lia.
    assert (Hl : (length (got ++ take n avail) = length got + n)%nat)
      by (rewrite length_app, length_take; lia).
    destruct (IH (drop n avail) (got ++ take n avail) err) as (rs' & e & E & ? & Hr');
      rewrite ?Hl, ?length_drop; [done|lia..|].
    rewrite Hl in E, Hr'. exists rs', e. rewrite E. split_and!; [|done|lia].
    rewrite drop_drop, <-(assoc_L (++)), take_take_drop. repeat f_equal; lia.
  - unfold rstep_ok in Hw. apply Is_true_true in Hw as ->. apply IH; done.
Qed.

(** ** Frames *)

Definition valid_hdr (h : ipc_msg_hdr) : Prop :=
  magic h = IPC_MAGIC ∧ version h = IPC_VERSION ∧ 0 ≤ cmd h < 2 ^ 32 ∧
  0 ≤ payload_len h ≤ IPC_MAX_PAYLOAD.

Definition request_hdr (c : Z) (payload : list byte) : ipc_msg_hdr := {|
  magic := IPC_MAGIC; version := IPC_VERSION;
  cmd := u32 c; payload_len := Z.of_nat (length payload) |}.

(** The frame a message occupies on the wire. *)
Definition frame (c : Z) (payload : list byte) : list byte :=
  hdr_bytes (request_hdr c payload) ++ payload.

(** What [ipc_recv] stores through [payload_out]: nothing for an empty payload,
    a NUL-terminated copy otherwise. *)
Definition received (payload : list byte) : option (list byte) :=
  match payload with [] => None | _ => Some (payload ++ [x00]) end.

Lemma length_hdr_bytes h : length (hdr_bytes h) = sizeof_ipc_msg_hdr.
Proof. unfold hdr_bytes. by rewrite !length_app, !length_le_encode. Qed.

Lemma bytes_hdr_bytes h :
  bytes_hdr (hdr_bytes h) =
  {| magic := u32 (magic h); version := u32 (version h);
     cmd := u32 (cmd h); payload_len := u32 (payload_len h) |}.
Proof.
  destruct h as [m v c p]. unfold bytes_hdr. f_equal; exact (le_decode_encode 4 _).
Qed.

Lemma hdr_bytes_hdr bs :
  length bs = sizeof_ipc_msg_hdr → hdr_bytes (bytes_hdr bs) = bs.
Proof.
  intros Hl. unfold hdr_bytes, bytes_hdr; cbn [magic version cmd payload_len].
  do 16 (destruct bs as [|? bs]; [discriminate|]). destruct bs; [|discriminate].
  cbn [take drop]. by rewrite !(le_encode_decode [_; _; _; _] : le_encode 4 _ = _).
Qed.

Lemma u32_small z : 0 ≤ z < 2 ^ 32 → u32 z = z.
Proof. apply Z.mod_small. Qed.

Lemma u32_range z : 0 ≤ u32 z < 2 ^ 32.
Proof. by apply Z.mod_pos_bound. Qed.

Lemma u32_idemp z : u32 (u32 z) = u32 z.
Proof. apply u32_small, u32_range. Qed.

Lemma bytes_hdr_request c payload :
  Z.of_nat (length payload) ≤ IPC_MAX_PAYLOAD →
  bytes_hdr (hdr_bytes (request_hdr c payload)) = request_hdr c payload.
Proof.
  intros Hp. unfold IPC_MAX_PAYLOAD in Hp. rewrite bytes_hdr_bytes.
  unfold request_hdr; cbn [magic version cmd payload_len].
  f_equal; [by vm_compute..|apply u32_idemp|apply u32_small; lia].
Qed.

Lemma bytes_hdr_range bs :
  0 ≤ cmd (bytes_hdr bs) < 2 ^ 32 ∧ 0 ≤ payload_len (bytes_hdr bs) < 2 ^ 32.
Proof.
  unfold bytes_hdr; cbn [cmd payload_len].
  assert (∀ l, 0 ≤ le_decode (take 4 l) < 2 ^ 32) as Hb.
  { intros l. pose proof (le_decode_range (take 4 l)) as H. split; [lia|].
    eapply Z.lt_le_trans; [apply H|]. rewrite length_take.
    transitivity (256 ^ 4); [apply Z.pow_le_mono_r; lia|done]. }
  auto.
Qed.

(** The kernel never fails the coming calls and will move [n] more bytes. *)
Definition will_write (s : sock) (n : nat) : bool :=
  forallb wstep_ok (wscript s) && (n <=? wtakes (wscript s))%nat.
Definition will_read (s : sock) (n : nat) : bool :=
  forallb rstep_ok (rscript s) && (n <=? rtakes (rscript s))%nat.

Lemma write_all_ok s buf m :
  will_write s (length buf + m) →
  ∃ s', write_all s buf = Returns (0, s') ∧ tx s' = tx s ++ buf ∧ will_write s' m ∧
    rx s' = rx s ∧ rscript s' = rscript s.
Proof.
  unfold will_write, write_all. intros [Hok Hn]%andb_prop_elim.
  apply Is_true_true, Nat.leb_le in Hn.
  destruct (write_loop_ok (wscript s) (tx s) buf (errno s)) as (ws' & e & -> & Hok' & Hn');
    [done|lia|].
  eexists; split_and!; [reflexivity|done|done| |done|done]; cbn [wscript].
  apply Is_true_true, Nat.leb_le. lia.
Qed.

Lemma read_all_ok s bs tl m :
  will_read s (length bs + m) → rx s = bs ++ tl →
  ∃ s', read_all s (length bs) = Returns (0, bs, s') ∧ rx s' = tl ∧ will_read s' m ∧
    malloc_ok s' = malloc_ok s ∧ tx s' = tx s ∧ wscript s' = wscript s.
Proof.
  unfold will_read, read_all. intros [Hok Hn]%andb_prop_elim Hrx.
  apply Is_true_true, Nat.leb_le in Hn.
  destruct (read_loop_ok (rscript s) (rx s) [] (length bs) (errno s))
    as (rs' & e & E & Hok' & Hn'); cbn [length]; [done|lia|lia|rewrite Hrx, length_app; lia|].
  cbn [length] in E, Hn'. rewrite Nat.sub_0_r in E, Hn'. rewrite E, Hrx, app_nil_l.
  rewrite take_app_length, drop_app_length.
  eexists; split_and!; [reflexivity|done|done| |done|done|done]; cbn [rscript].
  apply Is_true_true, Nat.leb_le. lia.
Qed.

(** Both ends of a transfer under a kernel that makes progress. *)
Lemma ipc_send_ok s c payload m :
  Z.of_nat (length payload) ≤ IPC_MAX_PAYLOAD →
  will_write s (sizeof_ipc_msg_hdr + length payload + m) →
  ∃ s', ipc_send s c payload = Returns (0, s') ∧ tx s' = tx s ++ frame c payload ∧
    will_write s' m ∧ rx s' = rx s ∧ rscript s' = rscript s.
Proof.
  intros Hlen Hw. unfold ipc_send.
  rewrite (proj2 (Z.ltb_ge IPC_MAX_PAYLOAD _)) by done.
  rewrite (u32_small (Z.of_nat _)) by (unfold IPC_MAX_PAYLOAD in *; lia).
  fold (request_hdr c payload).
  rewrite <-(length_hdr_bytes (request_hdr c payload)), <-Nat.add_assoc in Hw.
  destruct (write_all_ok _ _ _ Hw) as (s1 & -> & Ht1 & Hw1 & Hr1 & Hrs1). cbn [negb Z.eqb].
  destruct payload as [|b payload]; cbn [length Z.of_nat Z.ltb Z.compare].
  - exists s1. unfold frame. by rewrite app_nil_r.
  - destruct (write_all_ok _ _ _ Hw1) as (s2 & -> & Ht2 & Hw2 & Hr2 & Hrs2). cbn [negb Z.eqb].
    exists s2. unfold frame. rewrite Ht2, Ht1, <-(assoc_L (++)).
    split; [done|]. split; [done|]. split; [done|]. split; congruence.
Qed.

Lemma ipc_recv_ok r c payload tail m :
  Z.of_nat (length payload) ≤ IPC_MAX_PAYLOAD →
  will_read r (sizeof_ipc_msg_hdr + length payload + m) → malloc_ok r →
  rx r = frame c payload ++ tail →
  ∃ r', ipc_recv r = Returns (0, request_hdr c payload, received payload, r') ∧
    rx r' = tail ∧ tx r' = tx r ∧ wscript r' = wscript r.
Proof.
  intros Hlen Hr Hm Hrx. unfold ipc_recv.
  rewrite <-(length_hdr_bytes (request_hdr c payload)), <-Nat.add_assoc in Hr.
  unfold frame in Hrx. rewrite <-(assoc_L (++)) in Hrx.
  destruct (read_all_ok _ _ _ _ Hr Hrx) as (r1 & E & Hr1 & Hrr1 & Hm1 & Ht1 & Hws1).
  rewrite length_hdr_bytes in E. rewrite E. cbn [negb Z.eqb].
  rewrite bytes_hdr_request by done.
  cbn [magic version payload_len request_hdr]. rewrite !Z.eqb_refl.
  rewrite (proj2 (Z.ltb_ge _ _)) by lia. cbn [negb].
  destruct payload as [|b payload]; cbn [length Z.of_nat Z.eqb]; [by exists r1|].
  rewrite Hm1. apply Is_true_true in Hm as ->. cbn [negb].
  destruct (read_all_ok _ _ _ _ Hrr1 Hr1) as (r2 & E2 & Hr2 & _ & _ & Ht2 & Hws2).
  replace (Z.to_nat _) with (length (b :: payload)) by (cbn [length]; lia). rewrite E2.
  cbn [negb Z.eqb]. exists r2. split; [done|]. split_and!; congruence.
Qed.

(** C7: whatever way the kernel fragments and interrupts the transfer, a message
    sent by [ipc_send] appears on the wire as one frame after what was already
    there, and [ipc_recv] at the other end returns exactly that command and
    payload (NUL-terminated) and consumes exactly that frame. *)
Theorem ipc_roundtrip (s r : sock) (c : Z) (payload tail : list byte)
    (Hlen : Z.of_nat (length payload) ≤ IPC_MAX_PAYLOAD)
    (Hw : will_write s (sizeof_ipc_msg_hdr + length payload))
    (Hr : will_read r (sizeof_ipc_msg_hdr + length payload))
    (Hm : malloc_ok r) (Hrx : rx r = frame c payload ++ tail) :
  ∃ s' r', ipc_send s c payload = Returns (0, s') ∧ tx s' = tx s ++ frame c payload ∧
    ipc_recv r = Returns (0, request_hdr c payload, received payload, r') ∧ rx r' = tail.
Proof.
  rewrite <-(Nat.add_0_r (_ + _)) in Hw, Hr.
  destruct (ipc_send_ok s c payload 0 Hlen Hw) as (s' & ? & ? & _).
  destruct (ipc_recv_ok r c payload tail 0 Hlen Hr Hm Hrx) as (r' & ? & ? & _).
  eauto 10.
Qed.

Definition quiet_sock (incoming : list byte) : sock :=
  Sock incoming [RFail EINTR; RTake 2; RTake 100; RTake 0; RTake 1; RTake 9; RTake 4;
                 RTake 50; RTake 50; RTake 50; RTake 50; RTake 50; RTake 50; RTake 50;
                 RTake 50; RTake 50; RTake 50; RTake 50; RTake 50]
       [] [WTake 3; WFail EINTR; WTake 40; WTake 1; WTake 100; WTake 1; WTake 1; WTake 1;
           WTake 1; WTake 1; WTake 1; WTake 1; WTake 1; WTake 1; WTake 1; WTake 1; WTake 1;
           WTake 1; WTake 1; WTake 1] 0 true.

Lemma ipc_roundtrip_witness :
  ∃ s' r', ipc_send (quiet_sock []) IPC_CMD_STOP [x68; x69] = Returns (0, s') ∧
    tx s' = [] ++ frame IPC_CMD_STOP [x68; x69] ∧
    ipc_recv (quiet_sock (frame IPC_CMD_STOP [x68; x69] ++ [x01])) =
      Returns (0, request_hdr IPC_CMD_STOP [x68; x69], received [x68; x69], r') ∧
    rx r' = [x01].
Proof.
  apply (ipc_roundtrip (quiet_sock []) (quiet_sock (frame IPC_CMD_STOP [x68; x69] ++ [x01])));
    [by vm_compute|by vm_compute|by vm_compute|by vm_compute|reflexivity].
Defined.

Lemma read_all_prefix s len r got s' :
  read_all s len = Returns (r, got, s') →
  rx s = got ++ rx s' ∧
  ((r = 0 ∧ length got = len) ∨
   (r ≠ 0 ∧ (length got < len)%nat ∧ (r = -2 → got = [] ∧ rx s' = []))).
Proof.
  unfold read_all. destruct (read_loop _ _ _ _ _) as [|[r0 [[[rs a] g] e]]] eqn:E; [done|].
  intros [= <- <- <-]. apply read_loop_prefix in E as [Ha Hr]; [|cbn; lia]. done.
Qed.

Lemma ipc_recv_sound (s s' : sock) (rc : Z) (h : ipc_msg_hdr) (p : option (list byte))
    (Hrc : ipc_recv s = Returns (rc, h, p, s')) :
  (rc = 0 → valid_hdr h ∧ ∃ payload, Z.of_nat (length payload) = payload_len h ∧
     p = received payload ∧ rx s = hdr_bytes h ++ payload ++ rx s') ∧
  (rc = -2 → rx s = []) ∧
  (rc ≠ 0 → p = None).
Proof.
  revert Hrc. unfold ipc_recv.
  destruct (read_all s sizeof_ipc_msg_hdr) as [|[[r hb] s1]] eqn:E1; [done|].
  apply read_all_prefix in E1 as [Hrx1 Hr1].
  destruct (r =? 0) eqn:Er; cbn [negb].
  2:{ intros [= <- <- <- <-]. apply Z.eqb_neq in Er.
      split; [lia|split; [|done]]. intros ->.
      destruct Hr1 as [[? _]|(_ & _ & He)]; [done|].
      destruct (He eq_refl) as [-> Hn]. by rewrite Hrx1, Hn. }
  apply Z.eqb_eq in Er as ->. destruct Hr1 as [[_ Hl]|[? _]]; [|done].
  destruct (magic (bytes_hdr hb) =? IPC_MAGIC) eqn:Em; cbn [negb]; [|by intros [= <- <- <- <-]].
  destruct (version (bytes_hdr hb) =? IPC_VERSION) eqn:Ev; cbn [negb]; [|by intros [= <- <- <- <-]].
  destruct (IPC_MAX_PAYLOAD <? payload_len (bytes_hdr hb)) eqn:Ep; [by intros [= <- <- <- <-]|].
  destruct (bytes_hdr_range hb) as [Hc Hpl].
  assert (Hv : valid_hdr (bytes_hdr hb)) by (unfold valid_hdr; lia).
  rewrite <-(hdr_bytes_hdr hb Hl) in Hrx1.
  destruct (payload_len (bytes_hdr hb) =? 0) eqn:E0.
  { intros [= <- <- <- <-]. split; [|done]. intros _. split; [done|].
    exists []. split_and!; [cbn [length]; lia|done|done]. }
  destruct (malloc_ok s1) eqn:Emal; cbn [negb]; [|by intros [= <- <- <- <-]].
  destruct (read_all s1 _) as [|[[r2 pb] s2]] eqn:E2; [done|].
  apply read_all_prefix in E2 as [Hrx2 Hr2].
  destruct (r2 =? 0) eqn:Er2; cbn [negb]; [|by intros [= <- <- <- <-]].
  apply Z.eqb_eq in Er2 as ->. destruct Hr2 as [[_ Hl2]|[? _]]; [|done].
  intros [= <- <- <- <-]. split; [|done]. intros _. split; [done|].
  exists pb. split_and!; [lia| |by rewrite <-Hrx2].
  destruct pb; [cbn [length] in Hl2; lia|done].
Qed.

(** C34: [ipc_recv] accepts exactly the well-formed frames.  If it returns 0 the
    bytes it took from the stream are one valid header (right magic, right
    version, payload within the cap) followed by as many payload bytes as the
    header announces, which are the bytes it hands out NUL-terminated; a clean
    end of file is reported only when nothing at all was sent; and on any other
    failure no payload is handed out. And it accepts every such frame, with nothing
    taken of what follows, however the transfer is fragmented and interrupted, if the
    kernel goes on to deliver and memory can be had. *)
Theorem ipc_recv_exact (s : sock) :
  (∀ rc h p s', ipc_recv s = Returns (rc, h, p, s') →
     (rc = 0 → valid_hdr h ∧ ∃ payload, Z.of_nat (length payload) = payload_len h ∧
        p = received payload ∧ rx s = hdr_bytes h ++ payload ++ rx s') ∧
     (rc = -2 → rx s = []) ∧ (rc ≠ 0 → p = None)) ∧
  (∀ h payload tail, valid_hdr h → Z.of_nat (length payload) = payload_len h →
     rx s = hdr_bytes h ++ payload ++ tail → will_read s (sizeof_ipc_msg_hdr + length payload) → malloc_ok s →
     ∃ s', ipc_recv s = Returns (0, h, received payload, s') ∧ rx s' = tail).
Proof.
  split; [intros rc h p s'; apply ipc_recv_sound|]. intros h payload tail Hv Hl Hrx Hr Hm.
  assert (h = request_hdr (cmd h) payload) as Eh.
  { destruct h as [m ve c l]. unfold valid_hdr in Hv. cbn [magic version cmd payload_len] in *.
    unfold request_hdr. rewrite u32_small by lia. f_equal; lia. }
  rewrite <-(Nat.add_0_r (_ + _)) in Hr.
  assert (Hcap : Z.of_nat (length payload) ≤ IPC_MAX_PAYLOAD) by (unfold valid_hdr in Hv; lia).
  destruct (ipc_recv_ok s (cmd h) payload tail 0 Hcap Hr Hm) as (s' & E & Ht & _).
  { unfold frame. by rewrite <-app_assoc, <-Eh. }
  exists s'. by rewrite <-Eh in E.
Qed.

Lemma ipc_recv_exact_witness :
  ∃ s', ipc_recv (quiet_sock (frame IPC_CMD_LIST [] ++ [x41])) = Returns (0, request_hdr IPC_CMD_LIST [], None, s') ∧
    rx s' = [x41] ∧ valid_hdr (request_hdr IPC_CMD_LIST []).
Proof.
  destruct (ipc_recv_exact (quiet_sock (frame IPC_CMD_LIST [] ++ [x41]))) as [Hs Hc].
  destruct (Hc (request_hdr IPC_CMD_LIST []) [] [x41]) as (s' & E & Ht);
    [split_and!; by vm_compute|by vm_compute|reflexivity|by vm_compute|by vm_compute|].
  exists s'. split; [exact E|]. split; [exact Ht|]. by apply (Hs _ _ _ _ E).
Defined.
