(* ===== verification/JobTable.v ===== *)
(** * The job table and the life cycle of a job

    [src/src/src/core.m] with the data of [src/src/src/core.h], and the SIGCHLD
    handler of [src/src/src/runtime.c].

    Jobs live in a heap of [calloc]ed objects addressed by pointers; the table
    is the list of pointers reached from [jobs_head].  A freed pointer is never
    handed out again, so that a use after free is always a crash of the model.
    The kernel, libdispatch and the property-list reader are the class
    [Kernel]: any answers they may give.  Log lines are not modelled.  [spawns] and
    [replies] record what a run of the daemon did; no operation reads them. *)

From S2P Require Import Prelude.
Local Open Scope c_scope.
Local Open Scope Z_scope.

Definition ENOENT : Z := 2.
Definition ESRCH : Z := 3.
Definition THROTTLE_DEFAULT : Z := 10.

Inductive JobState :=
  | JOB_STATE_LOADED | JOB_STATE_RUNNING | JOB_STATE_STOPPING | JOB_STATE_REMOVED.
#[export] Instance JobState_eq_dec : EqDecision JobState.
Proof. solve_decision. Defined.

Abbreviation ptr := nat (only parsing).
Abbreviation timer := nat (only parsing).

Record Job := MkJob {
  label : option string;
  plist_path : string;
  program : option string;
  argv : option (list string);
  run_at_load : bool;
  disabled : bool;
  keep_alive : bool;
  state : JobState;
  job_p : Z;
  last_exit_status : Z;
  last_spawn_at : Z;
  pending_unload : bool;
  restart_timer : option timer;
}.

(** Property lists as [NSPropertyListSerialization] returns them.  A number
    carries its [boolValue]. *)
Inductive plist :=
  | PString (s : string)
  | PNumber (truth : bool)
  | PArray (l : list plist)
  | PDict (d : list (string * plist))
  | POther.

Class Kernel := {
  (** [posix_spawn] of a program with its argument vector at a time: 0 or an errno. *)
  k_spawn : Z → string → list string → Z;
  (** The process id a new child gets, given the unreaped children. *)
  k_pid : gset Z → Z;
  k_pid_fresh : ∀ X, k_pid X ∉ X;
  k_pid_pos : ∀ X, 0 < k_pid X;
  (** [kill (pid, SIGTERM)] at a time: 0 or an errno. *)
  k_kill : Z → Z → Z;
  k_kill_errno : ∀ t p, 0 ≤ k_kill t p < 2 ^ 31;
  (** Whether [dispatch_source_create] succeeds at a time. *)
  k_timer_ok : Z → bool;
  (** The parsed contents of a file at a time; [None]: unreadable or malformed. *)
  k_plist : Z → string → option plist;
  (** The entries of a directory; [None]: [opendir] fails. *)
  k_readdir : Z → string → option (list string);
  (** [strerror]. *)
  k_strerror : Z → string;
  (** Whether an allocation of that many bytes succeeds at a time. *)
  k_malloc : Z → Z → bool;
}.

Record world := MkWorld {
  heap : gmap ptr Job;
  jobs_head : list ptr;
  singleton : option ptr;
  singleton_done : bool;
  exit_when_done : bool;
  throttle_cached : Z;                  (** [static long cached] *)
  throttle_env : option string;         (** [$LAUNCHD_THROTTLE_INTERVAL] *)
  timers : gmap timer (ptr * Z);        (** armed one-shot sources: job, due time *)
  next_ptr : ptr;
  next_timer : timer;
  children : gset Z;                    (** children not yet waited for *)
  now : Z;                              (** [time (NULL)] *)
  replies : list string;                (** reply payloads sent, oldest first *)
  shutting_down : bool;
  spawns : list (ptr * Z);              (** processes started: job and time, oldest first *)
}.

Definition empty_world (env : option string) : world :=
  MkWorld ∅ [] None false true (-1) env ∅ 0 0 ∅ 0 [] false [].

(** ** Field updates *)

Definition with_heap (h : gmap ptr Job) (w : world) : world :=
  MkWorld h (jobs_head w) (singleton w) (singleton_done w) (exit_when_done w)
    (throttle_cached w) (throttle_env w) (timers w) (next_ptr w) (next_timer w)
    (children w) (now w) (replies w) (shutting_down w) (spawns w).
Definition with_jobs_head (l : list ptr) (w : world) : world :=
  MkWorld (heap w) l (singleton w) (singleton_done w) (exit_when_done w)
    (throttle_cached w) (throttle_env w) (timers w) (next_ptr w) (next_timer w)
    (children w) (now w) (replies w) (shutting_down w) (spawns w).
Definition with_singleton (s : option ptr) (done : bool) (w : world) : world :=
  MkWorld (heap w) (jobs_head w) s done (exit_when_done w)
    (throttle_cached w) (throttle_env w) (timers w) (next_ptr w) (next_timer w)
    (children w) (now w) (replies w) (shutting_down w) (spawns w).
Definition with_exit_when_done (b : bool) (w : world) : world :=
  MkWorld (heap w) (jobs_head w) (singleton w) (singleton_done w) b
    (throttle_cached w) (throttle_env w) (timers w) (next_ptr w) (next_timer w)
    (children w) (now w) (replies w) (shutting_down w) (spawns w).
Definition with_throttle_cached (v : Z) (w : world) : world :=
  MkWorld (heap w) (jobs_head w) (singleton w) (singleton_done w) (exit_when_done w)
    v (throttle_env w) (timers w) (next_ptr w) (next_timer w)
    (children w) (now w) (replies w) (shutting_down w) (spawns w).
Definition with_timers (t : gmap timer (ptr * Z)) (w : world) : world :=
  MkWorld (heap w) (jobs_head w) (singleton w) (singleton_done w) (exit_when_done w)
    (throttle_cached w) (throttle_env w) t (next_ptr w) (next_timer w)
    (children w) (now w) (replies w) (shutting_down w) (spawns w).
Definition with_next_ptr (n : ptr) (w : world) : world :=
  MkWorld (heap w) (jobs_head w) (singleton w) (singleton_done w) (exit_when_done w)
    (throttle_cached w) (throttle_env w) (timers w) n (next_timer w)
    (children w) (now w) (replies w) (shutting_down w) (spawns w).
Definition with_next_timer (n : timer) (w : world) : world :=
  MkWorld (heap w) (jobs_head w) (singleton w) (singleton_done w) (exit_when_done w)
    (throttle_cached w) (throttle_env w) (timers w) (next_ptr w) n
    (children w) (now w) (replies w) (shutting_down w) (spawns w).
Definition with_children (c : gset Z) (w : world) : world :=
  MkWorld (heap w) (jobs_head w) (singleton w) (singleton_done w) (exit_when_done w)
    (throttle_cached w) (throttle_env w) (timers w) (next_ptr w) (next_timer w)
    c (now w) (replies w) (shutting_down w) (spawns w).
Definition with_now (t : Z) (w : world) : world :=
  MkWorld (heap w) (jobs_head w) (singleton w) (singleton_done w) (exit_when_done w)
    (throttle_cached w) (throttle_env w) (timers w) (next_ptr w) (next_timer w)
    (children w) t (replies w) (shutting_down w) (spawns w).
Definition with_reply (r : string) (w : world) : world :=
  MkWorld (heap w) (jobs_head w) (singleton w) (singleton_done w) (exit_when_done w)
    (throttle_cached w) (throttle_env w) (timers w) (next_ptr w) (next_timer w)
    (children w) (now w) (replies w ++ [r]) (shutting_down w) (spawns w).
Definition with_shutting_down (w : world) : world :=
  MkWorld (heap w) (jobs_head w) (singleton w) (singleton_done w) (exit_when_done w)
    (throttle_cached w) (throttle_env w) (timers w) (next_ptr w) (next_timer w)
    (children w) (now w) (replies w) true (spawns w).
Definition with_spawn (j : ptr) (t : Z) (w : world) : world :=
  MkWorld (heap w) (jobs_head w) (singleton w) (singleton_done w) (exit_when_done w)
    (throttle_cached w) (throttle_env w) (timers w) (next_ptr w) (next_timer w)
    (children w) (now w) (replies w) (shutting_down w) (spawns w ++ [(j, t)]).

Definition job_state (s : JobState) (j : Job) : Job :=
  MkJob (label j) (plist_path j) (program j) (argv j) (run_at_load j) (disabled j)
    (keep_alive j) s (job_p j) (last_exit_status j) (last_spawn_at j)
    (pending_unload j) (restart_timer j).
Definition job_spawned (pid at_time : Z) (j : Job) : Job :=
  MkJob (label j) (plist_path j) (program j) (argv j) (run_at_load j) (disabled j)
    (keep_alive j) JOB_STATE_RUNNING pid (last_exit_status j) at_time
    (pending_unload j) (restart_timer j).
Definition job_reaped (wstatus : Z) (j : Job) : Job :=
  MkJob (label j) (plist_path j) (program j) (argv j) (run_at_load j) (disabled j)
    (keep_alive j) JOB_STATE_LOADED 0 wstatus (last_spawn_at j)
    (pending_unload j) (restart_timer j).
Definition job_pending (j : Job) : Job :=
  MkJob (label j) (plist_path j) (program j) (argv j) (run_at_load j) (disabled j)
    (keep_alive j) (state j) (job_p j) (last_exit_status j) (last_spawn_at j)
    true (restart_timer j).
Definition job_timer (t : option timer) (j : Job) : Job :=
  MkJob (label j) (plist_path j) (program j) (argv j) (run_at_load j) (disabled j)
    (keep_alive j) (state j) (job_p j) (last_exit_status j) (last_spawn_at j)
    (pending_unload j) t.

(** ** Pointers and timers *)

(** [*j]. *)
Definition load (j : ptr) : C world Job :=
  let* h := gets heap in deref (h !! j).
(** An assignment to fields of [*j]. *)
Definition store (j : ptr) (f : Job → Job) : C world unit :=
  let* J := load j in modify (λ w, with_heap (<[j := f J]> (heap w)) w).
Definition calloc_job (J : Job) : C world ptr :=
  let* j := gets next_ptr in
  modify (λ w, with_next_ptr (S j) (with_heap (<[j := J]> (heap w)) w)) ;;
  ret j.
Definition free_ptr (j : ptr) : C world unit :=
  load j ;; modify (λ w, with_heap (delete j (heap w)) w).
Definition dispatch_source_cancel (t : timer) : C world unit :=
  modify (λ w, with_timers (delete t (timers w)) w).

(** ** Throttle interval *)

Definition throttle_interval : C world Z :=
  let* cached := gets throttle_cached in
  if 0 <=? cached then ret cached else
  let* env := gets throttle_env in
  let from_env :=
    match env with
    | Some e =>
        if (e =? EmptyString)%string then None else
        let '(v, endp) := strtol10 e in
        if (endp =? EmptyString)%string && (0 <=? v) then Some v else None
    | None => None
    end in
  let v := default THROTTLE_DEFAULT from_env in
  modify (with_throttle_cached v) ;;
  ret v.

(** ** Table *)

Fixpoint find_in (l : list ptr) (p : Job → bool) : C world (option ptr) :=
  match l with
  | [] => ret None
  | j :: l =>
      let* J := load j in
      if p J then ret (Some j) else find_in l p
  end.

Definition label_is (l : string) (J : Job) : bool :=
  match label J with Some l' => (l' =? l)%string | None => false end.

Definition jobmgr_find_by_label (l : string) : C world (option ptr) :=
  let* jobs := gets jobs_head in find_in jobs (label_is l).

Definition job_find_by_pid (p : Z) : C world (option ptr) :=
  if p <=? 0 then ret None else
  let* jobs := gets jobs_head in find_in jobs (λ J, job_p J =? p).

Definition jobmgr_insert (j : ptr) : C world Z :=
  let* J := load j in
  match label J with
  | None => ret (-1)
  | Some l =>
      let* o := jobmgr_find_by_label l in
      match o with
      | Some _ => ret (-1)
      | None => modify (λ w, with_jobs_head (j :: jobs_head w) w) ;; ret 0
      end
  end.

(** [for (j = jobs_head; j; j = j->next) fn (j, ctx)]: [fn] does not edit the
    table; what it writes through [ctx] is threaded from call to call. *)
Fixpoint foreach_from {Ctx} (l : list ptr) (fn : Job → Ctx → C world Ctx) (ctx : Ctx)
    : C world Ctx :=
  match l with
  | [] => ret ctx
  | j :: l =>
      let* J := load j in
      let* ctx := fn J ctx in
      foreach_from l fn ctx
  end.

Definition jobmgr_foreach {Ctx} (fn : Job → Ctx → C world Ctx) (ctx : Ctx) : C world Ctx :=
  let* jobs := gets jobs_head in foreach_from jobs fn ctx.

Definition jobmgr_any_loaded : C world bool :=
  let* jobs := gets jobs_head in
  ret (match jobs with [] => false | _ => true end).

Definition cancel_restart_timer (j : ptr) : C world unit :=
  let* J := load j in
  match restart_timer J with
  | Some t => dispatch_source_cancel t ;; store j (job_timer None)
  | None => ret tt
  end.

Definition jobmgr_free (j : ptr) : C world unit :=
  cancel_restart_timer j ;; free_ptr j.

(** [*link = target->next] at the first link that points to [target]. *)
Fixpoint unlink (target : ptr) (l : list ptr) : list ptr :=
  match l with
  | [] => []
  | j :: l => if (j =? target)%nat then l else j :: unlink target l
  end.

Definition jobmgr_remove_and_free (target : ptr) : C world unit :=
  modify (λ w, with_jobs_head (unlink target (jobs_head w)) w) ;;
  let* s := gets singleton in
  when (bool_decide (s = Some target)) (modify (with_singleton None true)) ;;
  jobmgr_free target.

Definition jobmgr_set_singleton (j : ptr) : C world unit :=
  modify (with_singleton (Some j) false).
Definition jobmgr_singleton_done : C world bool := gets singleton_done.
Definition jobmgr_set_exit_when_singleton_done (v : bool) : C world unit :=
  modify (with_exit_when_done v).
Definition jobmgr_exit_when_singleton_done : C world bool := gets exit_when_done.

(** ** Property list to job *)

Fixpoint dict_get (d : list (string * plist)) (key : string) : option plist :=
  match d with
  | [] => None
  | (k, v) :: d => if (k =? key)%string then Some v else dict_get d key
  end.

Definition ns_string_to_utf8 (v : plist) : option string :=
  match v with PString s => Some (c_trunc s) | _ => None end.

Definition nsdict_get_string (d : list (string * plist)) (key : string) : option string :=
  match dict_get d key with Some v => ns_string_to_utf8 v | None => None end.

Definition nsdict_get_bool (d : list (string * plist)) (key : string) (dflt : bool) : bool :=
  match dict_get d key with Some (PNumber b) => b | _ => dflt end.

Definition nsdict_get_argv (d : list (string * plist)) (key : string)
    : option (list string) :=
  match dict_get d key with
  | Some (PArray arr) => mapM ns_string_to_utf8 arr
  | _ => None
  end.

Section lifecycle.
Context `{Kernel}.

Definition jobmgr_load_plist_file (path : string) : C world (option ptr) :=
  let* t := gets now in
  match k_plist t path with
  | Some (PDict d) =>
      let* j := calloc_job {|
        label := nsdict_get_string d "Label";
        plist_path := path;
        program := nsdict_get_string d "Program";
        argv := nsdict_get_argv d "ProgramArguments";
        run_at_load := nsdict_get_bool d "RunAtLoad" true;
        disabled := nsdict_get_bool d "Disabled" false;
        keep_alive := nsdict_get_bool d "KeepAlive" false;
        state := JOB_STATE_LOADED;
        job_p := 0; last_exit_status := 0; last_spawn_at := 0;
        pending_unload := false; restart_timer := None |} in
      let* J := load j in
      match label J, program J, argv J with
      | None, _, _ => jobmgr_free j ;; ret None
      | Some _, None, (None | Some []) => jobmgr_free j ;; ret None
      | _, _, _ => ret (Some j)
      end
  | _ => ret None
  end.

(** ** Spawn *)

Definition job_spawn (j : ptr) : C world Z :=
  let* J := load j in
  if disabled J then ret 0 else
  if bool_decide (state J = JOB_STATE_RUNNING) then ret 0 else
  (* program ? program : argv[0] *)
  let* prog :=
    match program J, argv J with
    | Some p, _ => ret p
    | None, Some (a :: _) => ret a
    | None, _ => crash
    end in
  let args :=
    match argv J with
    | None | Some [] => match program J with Some p => [p] | None => [] end
    | Some a => a
    end in
  let* t := gets now in
  if negb (k_spawn t prog args =? 0) then ret (-1) else
  let* live := gets children in
  let newpid := k_pid live in
  modify (λ w, with_spawn j t (with_children ({[newpid]} ∪ live) w)) ;;
  store j (job_spawned newpid t) ;;
  ret 0.

(** ** KeepAlive *)

Definition NSEC_PER_SEC : Z := 10 ^ 9.

(** [time_t], [long] and [int64_t] have 64 bits; a sum or product that leaves them
    wraps around. *)
Definition respawn_delay (last_spawn_at interval now : Z) : Z :=
  let earliest := i64 (last_spawn_at + interval) in
  if now <? earliest then i64 (earliest - now) else 0.

(** When a timer goes off that is set to [dispatch_time(DISPATCH_TIME_NOW, delay *
    NSEC_PER_SEC)]. *)
Definition timer_due (now delay : Z) : Z := now + i64 (delay * NSEC_PER_SEC) / NSEC_PER_SEC.

Definition schedule_respawn (j : ptr) : C world unit :=
  let* t := gets now in
  let* interval := throttle_interval in
  let* J := load j in
  let delay := respawn_delay (last_spawn_at J) interval t in
  if delay <=? 0 then job_spawn j ;; ret tt else
  cancel_restart_timer j ;;
  if negb (k_timer_ok t) then ret tt else
  let* tm := gets next_timer in
  modify (with_next_timer (S tm)) ;;
  store j (job_timer (Some tm)) ;;
  modify (λ w, with_timers (<[tm := (j, timer_due t delay)]> (timers w)) w).

(** The event handler block of a restart timer that captured [j]. *)
Definition restart_timer_fired (j : ptr) : C world unit :=
  cancel_restart_timer j ;;
  let* J := load j in
  if pending_unload J then jobmgr_remove_and_free j
  else job_spawn j ;; ret tt.

(** libdispatch delivers a due one-shot timer: the source fires once. *)
Definition dispatch_timer (t : timer) : C world unit :=
  let* tm := gets (λ w, timers w !! t) in
  match tm with
  | None => ret tt
  | Some (j, _) =>
      modify (λ w, with_timers (delete t (timers w)) w) ;;
      restart_timer_fired j
  end.

(** ** Reap *)

Definition job_reap (j : ptr) (wstatus : Z) : C world unit :=
  store j (job_reaped wstatus) ;;
  let* J := load j in
  if pending_unload J then jobmgr_remove_and_free j else
  if keep_alive J then schedule_respawn j else
  let* s := gets singleton in
  when (bool_decide (s = Some j)) (modify (with_singleton s true)).

(** ** Unload *)

Definition jobmgr_unload (l : string) : C world Z :=
  let* o := jobmgr_find_by_label l in
  match o with
  | None => ret ENOENT
  | Some j =>
      cancel_restart_timer j ;;
      store j job_pending ;;
      let* J := load j in
      if bool_decide (state J = JOB_STATE_RUNNING) && (0 <? job_p J) then
        (* kill (j->p, SIGTERM): a failure is only logged *)
        store j (job_state JOB_STATE_STOPPING) ;; ret 0
      else
        jobmgr_remove_and_free j ;; ret 0
  end.

(** ** Directory scan *)

Definition str_suffix (suffix s : string) : bool :=
  let n := String.length s in let k := String.length suffix in
  (String.substring (n - k) k s =? suffix)%string.

Definition is_plist_name (n : string) : bool :=
  match n with
  | String "." _ => false
  | _ => negb (String.length n <? 7)%nat && str_suffix ".plist" n
  end.

Definition scan_entry (dir n : string) : C world bool :=
  if negb (is_plist_name n) then ret false else
  let path := String.append dir (String.append "/" n) in
  if (1024 <=? String.length path)%nat then ret false else
  let* o := jobmgr_load_plist_file path in
  match o with
  | None => ret false
  | Some j =>
      let* r := jobmgr_insert j in
      if negb (r =? 0) then jobmgr_free j ;; ret false else
      let* J := load j in
      (if run_at_load J && negb (disabled J) then job_spawn j else ret 0) ;;
      ret true
  end.

Fixpoint scan_entries (dir : string) (names : list string) (loaded : nat) : C world nat :=
  match names with
  | [] => ret loaded
  | n :: names =>
      let* ok := scan_entry dir n in
      scan_entries dir names (if ok : bool then S loaded else loaded)
  end.

Definition jobmgr_load_plist_dir (dir : string) : C world nat :=
  let* t := gets now in
  match k_readdir t dir with
  | None => ret 0%nat
  | Some names => scan_entries dir names 0
  end.

(** ** The SIGCHLD handler of runtime.c *)

(** The answers of [waitpid (-1, &status, WNOHANG)]. *)
Inductive wait_result := WPid (p status : Z) | WNone | WFailed.

(** [ipc_server_close] and [launchd_log_close] release descriptors only; then
    [exit (0)]. *)
Definition launchd_shutdown : C world unit := modify with_shutting_down.

(** A process that is not a child of ours ([p ∉ children]) is an orphan that was
    reparented to process 1. *)
Fixpoint sigchld_handler (script : list wait_result) : C world unit :=
  match script with
  | [] | WNone :: _ | WFailed :: _ => ret tt
  | WPid p status :: script =>
      modify (λ w, with_children (children w ∖ {[p]}) w) ;;
      let* o := job_find_by_pid p in
      match o with
      | None => sigchld_handler script
      | Some j =>
          job_reap j status ;;
          let* done := jobmgr_singleton_done in
          let* ex := jobmgr_exit_when_singleton_done in
          if done && ex then launchd_shutdown else sigchld_handler script
      end
  end.

End lifecycle.
