(* ===== verification/JobInv.v ===== *)
(** * The invariant of the job table

    Every operation of [JobTable] keeps the table well formed and never touches
    freed memory. *)

From S2P Require Import Prelude JobTable.
Local Open Scope c_scope.
Local Open Scope Z_scope.

(** ** Symbolic execution *)

Lemma load_eq w j J : heap w !! j = Some J → load j w = Some (J, w).
Proof. intros E. unfold load, bind, gets, deref. by rewrite E. Qed.

Lemma store_eq w j f J :
  heap w !! j = Some J →
  store j f w = Some (tt, with_heap (<[j := f J]> (heap w)) w).
Proof. intros E. unfold store. by rewrite (bind_eq _ _ _ _ _ (load_eq _ _ _ E)). Qed.

(** Resolve the lookup of an updated map in a hypothesis. *)
Ltac simpl_insert H :=
  first [ rewrite lookup_insert_eq in H; injection H as <-
        | rewrite lookup_insert_ne in H by done ].

(** ** The invariant *)

Definition runnable (J : Job) : Prop :=
  is_Some (program J) ∨ ∃ a l, argv J = Some (a :: l).

(** State and process id agree; [ghost] is a child that was waited for and whose
    job has not been told yet. *)
Definition state_ok (live : gset Z) (ghost : option Z) (J : Job) : Prop :=
  match state J with
  | JOB_STATE_LOADED => job_p J = 0
  | JOB_STATE_RUNNING | JOB_STATE_STOPPING =>
      0 < job_p J ∧ (job_p J ∈ live ∨ ghost = Some (job_p J))
  | JOB_STATE_REMOVED => False
  end.

Record job_ok (live : gset Z) (ghost : option Z) (J : Job) : Prop := {
  jo_label : is_Some (label J);
  jo_runnable : runnable J;
  jo_state : state_ok live ghost J;
  jo_pending : pending_unload J = true → 0 < job_p J ∧ restart_timer J = None;
}.

(** [loose]: a job just loaded and not yet inserted. *)
Record InvG (loose : option ptr) (ghost : option Z) (w : world) : Prop := {
  inv_nodup : NoDup (jobs_head w);
  inv_heap : ∀ j, is_Some (heap w !! j) ↔ j ∈ jobs_head w ∨ loose = Some j;
  inv_loose : ∀ j, loose = Some j → j ∉ jobs_head w;
  inv_jobs : ∀ j J, heap w !! j = Some J → job_ok (children w) ghost J;
  inv_labels : ∀ j1 j2 J1 J2, j1 ∈ jobs_head w → j2 ∈ jobs_head w →
    heap w !! j1 = Some J1 → heap w !! j2 = Some J2 → label J1 = label J2 → j1 = j2;
  inv_pids : ∀ j1 j2 J1 J2, heap w !! j1 = Some J1 → heap w !! j2 = Some J2 →
    0 < job_p J1 → job_p J1 = job_p J2 → j1 = j2;
  inv_timer_job : ∀ t j d, timers w !! t = Some (j, d) →
    ∃ J, heap w !! j = Some J ∧ restart_timer J = Some t;
  inv_job_timer : ∀ j J t, heap w !! j = Some J → restart_timer J = Some t →
    ∃ d, timers w !! t = Some (j, d);
  inv_singleton : ∀ j, singleton w = Some j → is_Some (heap w !! j);
  inv_next_ptr : ∀ j, is_Some (heap w !! j) → (j < next_ptr w)%nat;
  inv_next_timer : ∀ t, is_Some (timers w !! t) → (t < next_timer w)%nat;
}.

Definition Inv : world → Prop := InvG None None.

Lemma Inv_empty env : Inv (empty_world env).
Proof.
  split; cbn; try (intros; simplify_map_eq; done).
  - constructor.
  - intros j. split; [intros [? ?]; simplify_map_eq|intros [?%elem_of_nil|]; done].
Qed.

(** A change to the fields of one job, its timer, and the set of children. *)
Lemma inv_store X q q' w w' j J J' :
  InvG X q w → heap w !! j = Some J →
  heap w' = <[j := J']> (heap w) →
  jobs_head w' = jobs_head w → singleton w' = singleton w →
  next_ptr w' = next_ptr w → (next_timer w ≤ next_timer w')%nat →
  label J' = label J → program J' = program J → argv J' = argv J →
  state_ok (children w') q' J' →
  (pending_unload J' = true → 0 < job_p J' ∧ restart_timer J' = None) →
  (∀ p, p ∈ children w ∨ q = Some p → p ≠ job_p J → p ∈ children w' ∨ q' = Some p) →
  (0 < job_p J' → job_p J' = job_p J ∨ ((job_p J' ∉ children w) ∧ q ≠ Some (job_p J'))) →
  (∀ t j0 d, j0 ≠ j → (timers w' !! t = Some (j0, d) ↔ timers w !! t = Some (j0, d))) →
  (∀ t, (∃ d, timers w' !! t = Some (j, d)) ↔ restart_timer J' = Some t) →
  (∀ t, restart_timer J' = Some t → (t < next_timer w')%nat) →
  InvG X q' w'.
Proof.
  intros HI Hj Eh El Es Enp Ent Hl Hp Ha Hst Hpe Hch Hpid Hto Htj Htn.
  assert (Hlive : ∀ p, 0 < p → (∃ j0 J0, heap w !! j0 = Some J0 ∧ job_p J0 = p) →
            p ∈ children w ∨ q = Some p).
  { intros p Hp0 (j0 & J0 & E0 & <-). pose proof (jo_state _ _ _ (inv_jobs _ _ _ HI _ _ E0)) as Hs.
    unfold state_ok in Hs. destruct (state J0); [lia|tauto|tauto|done]. }
  split; rewrite ?Eh, ?El, ?Es, ?Enp; try apply HI.
  - intros j0. rewrite <-(inv_heap _ _ _ HI). destruct (decide (j0 = j)) as [->|];
      simplify_map_eq; [|done]. split; eauto.
  - intros j0 J0. destruct (decide (j0 = j)) as [->|]; simplify_map_eq.
    + intros [= <-]. destruct (inv_jobs _ _ _ HI _ _ Hj) as [H1 H2 _ _].
      split; unfold runnable; rewrite ?Hl, ?Hp, ?Ha; auto.
    + intros E0. destruct (inv_jobs _ _ _ HI _ _ E0) as [H1 H2 H3 H4]. split; [done..| |done].
      unfold state_ok in *. destruct (state J0); [done| | |done].
      all: destruct H3 as [H3 H3']; split; [done|]; apply Hch; [done|].
      all: intros Heq; apply n; by eapply (inv_pids _ _ _ HI); eauto.
  - intros j1 j2 J1 J2 H1 H2 E1 E2 E.
    assert (∀ k K, k ∈ jobs_head w → <[j:=J']> (heap w) !! k = Some K →
      ∃ K0, heap w !! k = Some K0 ∧ label K0 = label K) as Hold.
    { intros k K _ EK. destruct (decide (k = j)) as [->|]; simplify_map_eq; eauto. }
    destruct (Hold _ _ H1 E1) as (K1 & ? & ?), (Hold _ _ H2 E2) as (K2 & ? & ?).
    eapply (inv_labels _ _ _ HI j1 j2 K1 K2); congruence.
  - intros j1 j2 J1 J2 E1 E2 H1 E.
    destruct (decide (j1 = j)) as [->|Hn1], (decide (j2 = j)) as [->|Hn2]; [done|..];
      simpl_insert E1; simpl_insert E2.
    + destruct (Hpid H1) as [Hp'|[Hn Hq]]; [eapply (inv_pids _ _ _ HI); eauto; lia|].
      destruct (Hlive (job_p J')); [done|rewrite E; eauto|done|done].
    + destruct (Hpid ltac:(lia)) as [Hp'|[Hn Hq]]; [eapply (inv_pids _ _ _ HI); eauto; lia|].
      destruct (Hlive (job_p J')); [lia|rewrite <-E; eauto|done|done].
    + eapply (inv_pids _ _ _ HI); eauto.
  - intros t j0 d Ht. destruct (decide (j0 = j)) as [->|].
    + exists J'. simplify_map_eq. split; [done|]. apply Htj. eauto.
    + simplify_map_eq. eapply (inv_timer_job _ _ _ HI). by apply Hto.
  - intros j0 J0 t. destruct (decide (j0 = j)) as [->|]; simplify_map_eq.
    + intros [= <-] ?. by apply Htj.
    + intros E0 Et. destruct (inv_job_timer _ _ _ HI _ _ _ E0 Et) as [d Hd].
      exists d. by apply Hto.
  - intros j0 Hs. destruct (decide (j0 = j)) as [->|]; simplify_map_eq; [eauto|].
    by apply (inv_singleton _ _ _ HI).
  - intros j0 [J0 E0]. destruct (decide (j0 = j)) as [->|]; simplify_map_eq.
    all: apply (inv_next_ptr _ _ _ HI); eauto.
  - intros t [[j0 d] Ht]. destruct (decide (j0 = j)) as [->|].
    + apply Htn, Htj. eauto.
    + apply Hto in Ht; [|done]. eapply Nat.lt_le_trans; [|done].
      apply (inv_next_timer _ _ _ HI). eauto.
Qed.

(** A job leaves the heap, the table and the timers. *)
Lemma inv_free X X' q q' w w' j J :
  InvG X q w → heap w !! j = Some J →
  heap w' = delete j (heap w) →
  NoDup (jobs_head w') →
  (∀ k, k ∈ jobs_head w' ↔ k ∈ jobs_head w ∧ k ≠ j) →
  (∀ k, X' = Some k ↔ X = Some k ∧ k ≠ j) →
  (∀ k, singleton w' = Some k → singleton w = Some k ∧ k ≠ j) →
  (∀ t k d, timers w' !! t = Some (k, d) ↔ timers w !! t = Some (k, d) ∧ k ≠ j) →
  next_ptr w' = next_ptr w → next_timer w' = next_timer w →
  (∀ p, p ∈ children w ∨ q = Some p → p ≠ job_p J → p ∈ children w' ∨ q' = Some p) →
  InvG X' q' w'.
Proof.
  intros HI Hj Eh Hnd El HX Es Et Enp Ent Hch.
  assert (Hdel : ∀ k K, heap w' !! k = Some K → heap w !! k = Some K ∧ k ≠ j).
  { intros k K. rewrite Eh. destruct (decide (k = j)) as [->|];
      [by rewrite lookup_delete_eq|by rewrite lookup_delete_ne]. }
  assert (Hkeep : ∀ k, k ≠ j → heap w' !! k = heap w !! k).
  { intros k Hk. rewrite Eh. by apply lookup_delete_ne. }
  split; [done|..].
  - intros k. rewrite El, HX. destruct (decide (k = j)) as [->|Hk].
    + rewrite Eh, lookup_delete_eq. split; [by intros []|naive_solver].
    + rewrite Hkeep, (inv_heap _ _ _ HI) by done. tauto.
  - intros k [HXk _]%HX [Hk _]%El. by eapply (inv_loose _ _ _ HI).
  - intros k K [EK Hk]%Hdel. destruct (inv_jobs _ _ _ HI _ _ EK) as [H1 H2 H3 H4].
    split; [done|done| |done]. unfold state_ok in *. destruct (state K); [done| | |done].
    all: destruct H3 as [H3 H3']; split; [done|]; apply Hch; [done|].
    all: intros Heq; apply Hk; by eapply (inv_pids _ _ _ HI); eauto.
  - intros j1 j2 J1 J2 [H1 _]%El [H2 _]%El [E1 _]%Hdel [E2 _]%Hdel.
    by apply (inv_labels _ _ _ HI).
  - intros j1 j2 J1 J2 [E1 _]%Hdel [E2 _]%Hdel. by apply (inv_pids _ _ _ HI).
  - intros t k d [Hk Hne]%Et. rewrite Hkeep by done. by eapply (inv_timer_job _ _ _ HI).
  - intros k K t [EK Hne]%Hdel Er. destruct (inv_job_timer _ _ _ HI _ _ _ EK Er) as [d Hd].
    exists d. by apply Et.
  - intros k [Hs Hne]%Es. rewrite Hkeep by done. by apply (inv_singleton _ _ _ HI).
  - intros k [K [EK _]%Hdel]. rewrite Enp. apply (inv_next_ptr _ _ _ HI). eauto.
  - intros t [[k d] [Hk _]%Et]. rewrite Ent. apply (inv_next_timer _ _ _ HI). eauto.
Qed.

(** A freshly loaded job. *)
Lemma inv_alloc q w J :
  InvG None q w → is_Some (label J) → runnable J → state J = JOB_STATE_LOADED →
  job_p J = 0 → pending_unload J = false → restart_timer J = None →
  let j := next_ptr w in
  InvG (Some j) q (with_next_ptr (S j) (with_heap (<[j := J]> (heap w)) w)).
Proof.
  intros HI Hl Hr Hs Hp Hpe Ht j.
  assert (Hfresh : heap w !! j = None).
  { destruct (heap w !! j) eqn:E; [|done].
    pose proof (inv_next_ptr _ _ _ HI j ltac:(eauto)). unfold j in *. lia. }
  assert (Hnotin : j ∉ jobs_head w).
  { intros Hin. assert (is_Some (heap w !! j)) as [? ?] by (apply (inv_heap _ _ _ HI); auto).
    congruence. }
  assert (Hne : ∀ k K, heap w !! k = Some K → j ≠ k) by congruence.
  split; cbn; [apply HI|..].
  - intros k. destruct (decide (j = k)) as [<-|Hk].
    + rewrite lookup_insert_eq. split; eauto.
    + rewrite lookup_insert_ne, (inv_heap _ _ _ HI) by done. naive_solver.
  - by intros k [= <-].
  - intros k K HK. destruct (decide (j = k)) as [<-|Hk]; simpl_insert HK.
    + split; [done|done|by unfold state_ok; rewrite Hs|congruence].
    + by apply (inv_jobs _ _ _ HI _ _ HK).
  - intros j1 j2 J1 J2 H1 H2 E1 E2.
    assert (j ≠ j1 ∧ j ≠ j2) as [? ?] by (split; congruence).
    simpl_insert E1; simpl_insert E2. by apply (inv_labels _ _ _ HI).
  - intros j1 j2 J1 J2 E1 E2 H1 E.
    destruct (decide (j = j1)) as [<-|Hk1], (decide (j = j2)) as [<-|Hk2]; [done|..];
      simpl_insert E1; simpl_insert E2; [lia|lia|by eapply (inv_pids _ _ _ HI)].
  - intros t k d Hk. destruct (inv_timer_job _ _ _ HI _ _ _ Hk) as (K & EK & Er).
    exists K. by rewrite lookup_insert_ne by eauto.
  - intros k K t HK Er. destruct (decide (j = k)) as [<-|Hk]; simpl_insert HK; [congruence|].
    by eapply (inv_job_timer _ _ _ HI).
  - intros k Hk. destruct (decide (j = k)) as [<-|Hne']; [rewrite lookup_insert_eq; eauto|].
    rewrite lookup_insert_ne by done. by apply (inv_singleton _ _ _ HI).
  - intros k. destruct (decide (j = k)) as [<-|Hne']; [lia|].
    rewrite lookup_insert_ne by done. intros Hk. pose proof (inv_next_ptr _ _ _ HI k Hk). lia.
  - apply HI.
Qed.

(** The loaded job enters the table. *)
Lemma inv_insert q w j J :
  InvG (Some j) q w → heap w !! j = Some J →
  (∀ k K, k ∈ jobs_head w → heap w !! k = Some K → label K ≠ label J) →
  InvG None q (with_jobs_head (j :: jobs_head w) w).
Proof.
  intros HI Hj Hlab. pose proof (inv_loose _ _ _ HI j eq_refl) as Hn.
  split; cbn; try apply HI.
  - constructor; [done|apply HI].
  - intros k. rewrite (inv_heap _ _ _ HI), elem_of_cons. naive_solver.
  - done.
  - intros j1 j2 J1 J2 [->|H1]%elem_of_cons [->|H2]%elem_of_cons E1 E2 E; [done|..].
    + destruct (Hlab j2 J2); congruence.
    + destruct (Hlab j1 J1); congruence.
    + by eapply (inv_labels _ _ _ HI).
Qed.

(** ** Operations: what they do and that they keep the invariant *)

Lemma with_heap_id w : with_heap (heap w) w = w.
Proof. by destruct w. Qed.
Lemma with_timers_id w : with_timers (timers w) w = w.
Proof. by destruct w. Qed.
Lemma job_timer_id J t : restart_timer J = t → job_timer t J = J.
Proof. by intros <-; destruct J. Qed.

(** The armed timers without the one of [J]. *)
Definition drop_timer (J : Job) (tm : gmap timer (ptr * Z)) : gmap timer (ptr * Z) :=
  match restart_timer J with Some t => delete t tm | None => tm end.

Definition cancelled (j : ptr) (J : Job) (w : world) : world :=
  with_heap (<[j := job_timer None J]> (heap w)) (with_timers (drop_timer J (timers w)) w).
Definition freed (j : ptr) (J : Job) (w : world) : world :=
  with_heap (delete j (heap w)) (with_timers (drop_timer J (timers w)) w).
Definition removed (j : ptr) (J : Job) (w : world) : world :=
  let w1 := with_jobs_head (unlink j (jobs_head w)) w in
  freed j J (if decide (singleton w = Some j) then with_singleton None true w1 else w1).

Lemma cancel_eq w j J :
  heap w !! j = Some J → cancel_restart_timer j w = Some (tt, cancelled j J w).
Proof.
  intros Hj. unfold cancel_restart_timer, cancelled, drop_timer.
  rewrite (bind_eq _ _ _ _ _ (load_eq _ _ _ Hj)).
  destruct (restart_timer J) as [t|] eqn:Et.
  - erewrite bind_eq by reflexivity. by erewrite store_eq.
  - rewrite job_timer_id, insert_id, with_timers_id, with_heap_id by done. done.
Qed.

Lemma free_eq w j J :
  heap w !! j = Some J → jobmgr_free j w = Some (tt, freed j J w).
Proof.
  intros Hj. unfold jobmgr_free. rewrite (bind_eq _ _ _ _ _ (cancel_eq _ _ _ Hj)).
  unfold free_ptr. erewrite bind_eq by (apply load_eq, lookup_insert_eq).
  unfold modify, cancelled, freed. cbn. by rewrite delete_insert_eq.
Qed.

Lemma remove_eq w j J :
  heap w !! j = Some J → jobmgr_remove_and_free j w = Some (tt, removed j J w).
Proof.
  intros Hj. unfold jobmgr_remove_and_free, removed.
  do 2 (erewrite bind_eq by reflexivity). cbn [singleton with_jobs_head].
  destruct (decide (singleton w = Some j)) as [Hs|Hs].
  - rewrite bool_decide_eq_true_2 by done. erewrite bind_eq by reflexivity. by apply free_eq.
  - rewrite bool_decide_eq_false_2 by done. erewrite bind_eq by reflexivity. by apply free_eq.
Qed.

Lemma unlink_spec j l :
  NoDup l → NoDup (unlink j l) ∧ ∀ k, k ∈ unlink j l ↔ k ∈ l ∧ k ≠ j.
Proof.
  induction 1 as [|x l Hx Hnd IH]; cbn.
  - split; [constructor|]. set_solver.
  - destruct IH as [IHn IHm]. destruct (x =? j)%nat eqn:E.
    + apply Nat.eqb_eq in E as ->. split; [done|]. set_solver.
    + apply Nat.eqb_neq in E. split; [constructor; [|done]|]; set_solver.
Qed.

Lemma unlink_notin j l : j ∉ l → unlink j l = l.
Proof.
  induction l as [|x l IH]; cbn; [done|]. intros Hj.
  rewrite (proj2 (Nat.eqb_neq x j)) by set_solver. f_equal. set_solver.
Qed.

Lemma drop_timer_spec X q w j J t k d :
  InvG X q w → heap w !! j = Some J →
  (drop_timer J (timers w) !! t = Some (k, d) ↔ timers w !! t = Some (k, d) ∧ k ≠ j).
Proof.
  intros HI Hj. unfold drop_timer. destruct (restart_timer J) as [t'|] eqn:Et.
  - destruct (inv_job_timer _ _ _ HI _ _ _ Hj Et) as [d' Hd'].
    destruct (decide (t' = t)) as [->|Hne].
    + rewrite lookup_delete_eq. split; [done|]. intros [? ?]. congruence.
    + rewrite lookup_delete_ne by done. split; [|tauto]. intros Hk. split; [done|].
      intros ->. destruct (inv_timer_job _ _ _ HI _ _ _ Hk) as (J' & ? & ?). congruence.
  - split; [|tauto]. intros Hk. split; [done|]. intros ->.
    destruct (inv_timer_job _ _ _ HI _ _ _ Hk) as (J' & ? & ?). congruence.
Qed.

Lemma freed_inv X X' q w j J :
  InvG X q w → heap w !! j = Some J → j ∉ jobs_head w → singleton w ≠ Some j →
  (∀ k, X' = Some k ↔ X = Some k ∧ k ≠ j) →
  InvG X' q (freed j J w).
Proof.
  intros HI Hj Hn Hs HX. eapply inv_free; try done; cbn.
  - apply HI.
  - intros k. split; [|tauto]. intros Hk. split; [done|]. by intros ->.
  - intros k Hk. split; [done|]. congruence.
  - intros t k d. by eapply drop_timer_spec.
Qed.

Lemma removed_inv q q' w j J :
  InvG None q w → heap w !! j = Some J →
  (∀ p, q = Some p → p ≠ job_p J → q' = Some p) →
  InvG None q' (removed j J w).
Proof.
  intros HI Hj Hq. unfold removed, freed.
  pose proof (unlink_spec j _ (inv_nodup _ _ _ HI)) as [Hnd Hm].
  eapply inv_free; try done; try (destruct (decide _); done);
    cbn; destruct (decide (singleton w = Some j)) as [Hs|Hs]; cbn; try done;
    try (intros t k d; by eapply drop_timer_spec); try (intros p [?|?] ?; eauto; fail).
  - intros k. split; [done|by intros [? _]].
  - intros k. split; [done|by intros [? _]].
  - intros k Hk. split; [done|]. congruence.
Qed.

Lemma removed_gone w j J :
  NoDup (jobs_head w) →
  heap (removed j J w) !! j = None ∧ j ∉ jobs_head (removed j J w) ∧
  (∀ k, k ≠ j → heap (removed j J w) !! k = heap w !! k).
Proof.
  intros Hnd. apply (unlink_spec j) in Hnd as [_ Hm].
  unfold removed, freed. destruct (decide _); cbn; rewrite lookup_delete_eq, Hm.
  all: split_and!; [done|tauto|intros k Hk; by rewrite lookup_delete_ne].
Qed.

(** *** Lookup *)

Lemma find_in_spec w l (p : Job → bool) :
  (∀ j, j ∈ l → is_Some (heap w !! j)) →
  ∃ o, find_in l p w = Some (o, w) ∧
    match o with
    | Some j => ∃ J, j ∈ l ∧ heap w !! j = Some J ∧ p J = true
    | None => ∀ j J, j ∈ l → heap w !! j = Some J → p J = false
    end.
Proof.
  induction l as [|x l IH]; intros Hl; cbn.
  - exists None. split; [done|]. intros j J []%elem_of_nil.
  - destruct (Hl x) as [J HJ]; [left|]. rewrite (bind_eq _ _ _ _ _ (load_eq _ _ _ HJ)).
    destruct (p J) eqn:Ep.
    + exists (Some x). split; [done|]. exists J. split; [left|done].
    + destruct IH as (o & -> & Ho); [intros; apply Hl; by right|].
      exists o. split; [done|]. destruct o as [j|].
      * destruct Ho as (J' & ? & ? & ?). exists J'. split; [by right|done].
      * intros j J' [->|Hj]%elem_of_cons HJ'; [congruence|eauto].
Qed.

Lemma table_allocated X q w j : InvG X q w → j ∈ jobs_head w → is_Some (heap w !! j).
Proof. intros HI Hj. apply (inv_heap _ _ _ HI). auto. Qed.

Lemma label_is_spec l J : label_is l J = true ↔ label J = Some l.
Proof.
  unfold label_is. destruct (label J) as [l'|]; [|done].
  rewrite String.eqb_eq. split; congruence.
Qed.

(** The job that carries a label, if any: unique. *)
Lemma find_by_label_spec X q w l :
  InvG X q w →
  ∃ o, jobmgr_find_by_label l w = Some (o, w) ∧
    match o with
    | Some j => ∃ J, j ∈ jobs_head w ∧ heap w !! j = Some J ∧ label J = Some l
    | None => ∀ j J, j ∈ jobs_head w → heap w !! j = Some J → label J ≠ Some l
    end.
Proof.
  intros HI. unfold jobmgr_find_by_label. erewrite bind_eq by reflexivity.
  destruct (find_in_spec w (jobs_head w) (label_is l)) as (o & -> & Ho).
  { intros j. by eapply table_allocated. }
  exists o. split; [done|]. destruct o as [j|].
  - destruct Ho as (J & ? & ? & ?%label_is_spec). eauto.
  - intros j J Hj HJ Hl%label_is_spec. specialize (Ho j J Hj HJ). congruence.
Qed.

Lemma find_by_pid_spec X q w p :
  InvG X q w →
  ∃ o, job_find_by_pid p w = Some (o, w) ∧
    match o with
    | Some j => ∃ J, j ∈ jobs_head w ∧ heap w !! j = Some J ∧ job_p J = p ∧ 0 < p
    | None => p ≤ 0 ∨ ∀ j J, j ∈ jobs_head w → heap w !! j = Some J → job_p J ≠ p
    end.
Proof.
  intros HI. unfold job_find_by_pid. destruct (p <=? 0) eqn:Ep.
  { exists None. split; [done|]. left. lia. }
  erewrite bind_eq by reflexivity.
  destruct (find_in_spec w (jobs_head w) (λ J, job_p J =? p)) as (o & -> & Ho).
  { intros j. by eapply table_allocated. }
  exists o. split; [done|]. destruct o as [j|].
  - destruct Ho as (J & ? & ? & ?). exists J. split_and!; [done|done|lia|lia].
  - right. intros j J Hj HJ Hp. specialize (Ho j J Hj HJ). lia.
Qed.

(** *** Insertion *)

Lemma insert_spec q w j J :
  InvG (Some j) q w → heap w !! j = Some J →
  (jobmgr_insert j w = Some (0, with_jobs_head (j :: jobs_head w) w) ∧
   InvG None q (with_jobs_head (j :: jobs_head w) w) ∧
   ∀ k K, k ∈ jobs_head w → heap w !! k = Some K → label K ≠ label J) ∨
  (jobmgr_insert j w = Some (-1, w) ∧
   ∃ k K, k ∈ jobs_head w ∧ heap w !! k = Some K ∧ label K = label J).
Proof.
  intros HI Hj. unfold jobmgr_insert. rewrite (bind_eq _ _ _ _ _ (load_eq _ _ _ Hj)).
  destruct (jo_label _ _ _ (inv_jobs _ _ _ HI _ _ Hj)) as [l Hl]. rewrite Hl.
  destruct (find_by_label_spec _ _ _ l HI) as (o & E & Ho).
  rewrite (bind_eq _ _ _ _ _ E). destruct o as [k|].
  - right. split; [done|]. destruct Ho as (K & ? & ? & ?). eauto.
  - left. split; [done|]. split; [|done]. eapply inv_insert; [done..|]. by rewrite Hl.
Qed.

Section lifecycle.
Context `{Kernel}.

(** *** Loading *)

(** The job a property list describes. *)
Definition plist_job (path : string) (d : list (string * plist)) : Job := {|
  label := nsdict_get_string d "Label";
  plist_path := path;
  program := nsdict_get_string d "Program";
  argv := nsdict_get_argv d "ProgramArguments";
  run_at_load := nsdict_get_bool d "RunAtLoad" true;
  disabled := nsdict_get_bool d "Disabled" false;
  keep_alive := nsdict_get_bool d "KeepAlive" false;
  state := JOB_STATE_LOADED;
  job_p := 0; last_exit_status := 0; last_spawn_at := 0;
  pending_unload := false; restart_timer := None |}.

(** A label, and a program or a first argument. *)
Definition complete (J : Job) : bool :=
  match label J, program J, argv J with
  | None, _, _ => false
  | Some _, None, (None | Some []) => false
  | _, _, _ => true
  end.

Definition allocated (w : world) (J : Job) : world :=
  with_next_ptr (S (next_ptr w)) (with_heap (<[next_ptr w := J]> (heap w)) w).

Definition load_result (path : string) (w : world) : option ptr * world :=
  match k_plist (now w) path with
  | Some (PDict d) =>
      if complete (plist_job path d)
      then (Some (next_ptr w), allocated w (plist_job path d))
      else (None, with_next_ptr (S (next_ptr w)) w)
  | _ => (None, w)
  end.

Lemma next_ptr_fresh X q w : InvG X q w → heap w !! next_ptr w = None.
Proof.
  intros HI. destruct (heap w !! next_ptr w) eqn:E; [|done].
  pose proof (inv_next_ptr _ _ _ HI _ (mk_is_Some _ _ E)). lia.
Qed.

Lemma load_file_eq w path :
  Inv w → jobmgr_load_plist_file path w = Some (load_result path w).
Proof.
  intros HI. unfold jobmgr_load_plist_file, load_result. erewrite bind_eq by reflexivity.
  destruct (k_plist (now w) path) as [[| | |d|]|]; try done.
  fold (plist_job path d). set (J := plist_job path d).
  assert (HJ : heap (allocated w J) !! next_ptr w = Some J) by apply lookup_insert_eq.
  erewrite bind_eq by
    (unfold calloc_job; do 2 (erewrite bind_eq by reflexivity); reflexivity).
  fold (allocated w J). rewrite (bind_eq _ _ _ _ _ (load_eq _ _ _ HJ)).
  assert (Hfree : bind (jobmgr_free (next_ptr w)) (λ _, ret (@None ptr)) (allocated w J) =
    Some (None, with_next_ptr (S (next_ptr w)) w)).
  { rewrite (bind_eq _ _ _ _ _ (free_eq _ _ _ HJ)). unfold ret, freed, allocated. cbn.
    rewrite delete_insert_id by (by eapply next_ptr_fresh). by destruct w. }
  unfold complete. destruct (label J), (program J), (argv J) as [[|]|]; done.
Qed.

Lemma complete_ok J : complete J = true → is_Some (label J) ∧ runnable J.
Proof.
  unfold complete, runnable. destruct (label J), (program J), (argv J) as [[|]|]; naive_solver.
Qed.

Lemma allocated_inv w path d :
  Inv w → complete (plist_job path d) = true →
  InvG (Some (next_ptr w)) None (allocated w (plist_job path d)).
Proof. intros HI [? ?]%complete_ok. by apply inv_alloc. Qed.

Lemma load_failed_inv w : Inv w → Inv (with_next_ptr (S (next_ptr w)) w).
Proof.
  intros HI. split; try apply HI.
  intros k Hk. pose proof (inv_next_ptr _ _ _ HI k Hk). cbn. lia.
Qed.

(** Giving up a job that could not be inserted. *)
Lemma discarded_inv w path d :
  Inv w → complete (plist_job path d) = true →
  Inv (freed (next_ptr w) (plist_job path d) (allocated w (plist_job path d))).
Proof.
  intros HI Hc. replace (freed _ _ _) with (with_next_ptr (S (next_ptr w)) w);
    [by apply load_failed_inv|].
  unfold freed, allocated. cbn. rewrite delete_insert_id by (by eapply next_ptr_fresh).
  by destruct w.
Qed.

(** *** Spawning *)

(** The world after a successful [posix_spawn] for [j]. *)
Definition spawned (j : ptr) (J : Job) (w : world) : world :=
  let pid := k_pid (children w) in
  with_heap (<[j := job_spawned pid (now w) J]> (heap w))
    (with_spawn j (now w) (with_children ({[pid]} ∪ children w) w)).

Definition spawn_prog (J : Job) : string :=
  match program J, argv J with
  | Some p, _ => p | None, Some (a :: _) => a | None, _ => EmptyString
  end.
Definition spawn_args (J : Job) : list string :=
  match argv J with
  | None | Some [] => match program J with Some p => [p] | None => [] end
  | Some a => a
  end.

Definition job_spawn_result (j : ptr) (J : Job) (w : world) : Z * world :=
  if disabled J then (0, w) else
  if bool_decide (state J = JOB_STATE_RUNNING) then (0, w) else
  if k_spawn (now w) (spawn_prog J) (spawn_args J) =? 0 then (0, spawned j J w) else (-1, w).

Lemma spawn_eq w j J :
  heap w !! j = Some J → runnable J → job_spawn j w = Some (job_spawn_result j J w).
Proof.
  intros HJ Hr. unfold job_spawn, job_spawn_result.
  rewrite (bind_eq _ _ _ _ _ (load_eq _ _ _ HJ)).
  destruct (disabled J); [done|]. destruct (bool_decide _); [done|].
  assert (E : (match program J, argv J with
    | Some p, _ => ret p | None, Some (a :: _) => ret a | None, _ => crash end) w
    = Some (spawn_prog J, w)).
  { unfold spawn_prog. destruct Hr as [[p ->]|(a & l & Ha)]; [done|].
    rewrite Ha. by destruct (program J). }
  rewrite (bind_eq _ _ _ _ _ E). erewrite bind_eq by reflexivity. fold (spawn_args J).
  destruct (k_spawn _ _ _ =? 0); cbn [negb]; [|done].
  do 2 (erewrite bind_eq by reflexivity).
  erewrite bind_eq by (apply store_eq; exact HJ). done.
Qed.

Lemma spawned_inv X w j J :
  InvG X None w → heap w !! j = Some J → InvG X None (spawned j J w).
Proof.
  intros HI HJ. pose proof (k_pid_fresh (children w)) as Hf.
  pose proof (k_pid_pos (children w)) as Hp. destruct (inv_jobs _ _ _ HI _ _ HJ) as [_ _ _ Hpe].
  unfold spawned. eapply inv_store; try done; cbn.
  - split; [done|]. set_solver.
  - intros Hpend. split; [done|by apply Hpe].
  - intros p [?|?] ?; [set_solver|done].
  - intros _. right. by split.
  - intros t. split.
    + intros [d Hd]. destruct (inv_timer_job _ _ _ HI _ _ _ Hd) as (J' & ? & ?). congruence.
    + by apply (inv_job_timer _ _ _ HI).
  - intros t Ht. apply (inv_next_timer _ _ _ HI).
    destruct (inv_job_timer _ _ _ HI _ _ _ HJ Ht) as [d Hd]. eauto.
Qed.

Lemma spawn_inv X w j J :
  InvG X None w → heap w !! j = Some J → InvG X None (job_spawn_result j J w).2.
Proof.
  intros HI HJ. unfold job_spawn_result.
  repeat case_match; cbn; auto using spawned_inv.
Qed.

Lemma inv_runnable X q w j J : InvG X q w → heap w !! j = Some J → runnable J.
Proof. intros HI HJ. apply (inv_jobs _ _ _ HI _ _ HJ). Qed.

(** *** Cancelling and arming timers *)

Lemma cancelled_inv X q w j J :
  InvG X q w → heap w !! j = Some J → InvG X q (cancelled j J w).
Proof.
  intros HI HJ. destruct (inv_jobs _ _ _ HI _ _ HJ) as [_ _ Hst Hpe].
  unfold cancelled. eapply inv_store; try done; cbn.
  - intros Hpend. split; [by apply Hpe|done].
  - by left.
  - intros t j0 d Hne. rewrite drop_timer_spec by done. tauto.
  - intros t. split; [|done]. intros [d [_ Hd]%(drop_timer_spec _ _ _ _ _ _ _ _ HI HJ)]. done.
Qed.

Definition armed (j : ptr) (J : Job) (due : Z) (w : world) : world :=
  let t := next_timer w in
  with_timers (<[t := (j, due)]> (timers w))
    (with_heap (<[j := job_timer (Some t) J]> (heap w)) (with_next_timer (S t) w)).

Lemma armed_inv X q w j J due :
  InvG X q w → heap w !! j = Some J → restart_timer J = None → pending_unload J = false →
  InvG X q (armed j J due w).
Proof.
  intros HI HJ Ht Hp. destruct (inv_jobs _ _ _ HI _ _ HJ) as [_ _ Hst _].
  assert (Hfresh : timers w !! next_timer w = None).
  { destruct (timers w !! next_timer w) eqn:E; [|done].
    pose proof (inv_next_timer _ _ _ HI _ (mk_is_Some _ _ E)). lia. }
  unfold armed. eapply inv_store; try done; cbn.
  - lia.
  - rewrite Hp. done.
  - by left.
  - intros t j0 d Hne. destruct (decide (next_timer w = t)) as [<-|Hn].
    + rewrite lookup_insert_eq, Hfresh. split; [congruence|done].
    + by rewrite lookup_insert_ne.
  - intros t. destruct (decide (next_timer w = t)) as [<-|Hn].
    + rewrite lookup_insert_eq. split; [done|eauto].
    + rewrite lookup_insert_ne by done. split; [|congruence].
      intros [d Hd]. destruct (inv_timer_job _ _ _ HI _ _ _ Hd) as (J' & ? & ?). congruence.
  - intros t [= <-]. lia.
Qed.

(** Fields the invariant does not read. *)
Lemma InvG_core X q w w' :
  InvG X q w → heap w' = heap w → jobs_head w' = jobs_head w → timers w' = timers w →
  next_ptr w' = next_ptr w → next_timer w' = next_timer w → children w' = children w →
  (∀ k, singleton w' = Some k → is_Some (heap w !! k)) → InvG X q w'.
Proof.
  intros HI Hh Hl Ht Hp Hn Hc Hs.
  split; rewrite ?Hh, ?Hl, ?Ht, ?Hp, ?Hn, ?Hc; try apply HI. done.
Qed.

Definition throttle_value (w : world) : Z :=
  if 0 <=? throttle_cached w then throttle_cached w else
  default THROTTLE_DEFAULT (match throttle_env w with
    | Some e => if (e =? EmptyString)%string then None else
        let '(v, endp) := strtol10 e in
        if (endp =? EmptyString)%string && (0 <=? v) then Some v else None
    | None => None
    end).

Lemma throttle_eq w :
  throttle_interval w = Some (throttle_value w, with_throttle_cached (throttle_value w) w).
Proof.
  unfold throttle_interval, throttle_value. erewrite bind_eq by reflexivity.
  destruct (0 <=? throttle_cached w); [by destruct w|].
  by do 2 (erewrite bind_eq by reflexivity).
Qed.

Lemma throttle_value_nonneg w : 0 ≤ throttle_value w.
Proof.
  unfold throttle_value. destruct (0 <=? throttle_cached w) eqn:E; [lia|].
  destruct (throttle_env w) as [e|]; cbn; [|unfold THROTTLE_DEFAULT; lia].
  destruct (e =? EmptyString)%string; cbn; [unfold THROTTLE_DEFAULT; lia|].
  destruct (strtol10 e) as [v endp].
  destruct (endp =? EmptyString)%string, (0 <=? v) eqn:Ev; cbn; unfold THROTTLE_DEFAULT; lia.
Qed.

Definition respawn_result (j : ptr) (J : Job) (w : world) : world :=
  let v := throttle_value w in
  let w1 := with_throttle_cached v w in
  let delay := respawn_delay (last_spawn_at J) v (now w) in
  if delay <=? 0 then (job_spawn_result j J w1).2
  else if k_timer_ok (now w)
       then armed j (job_timer None J) (timer_due (now w) delay) (cancelled j J w1)
       else cancelled j J w1.

Lemma respawn_eq w j J :
  heap w !! j = Some J → runnable J →
  schedule_respawn j w = Some (tt, respawn_result j J w).
Proof.
  intros HJ Hr. unfold schedule_respawn, respawn_result.
  erewrite bind_eq by reflexivity. rewrite (bind_eq _ _ _ _ _ (throttle_eq w)).
  set (v := throttle_value w). set (w1 := with_throttle_cached v w).
  assert (HJ1 : heap w1 !! j = Some J) by done.
  rewrite (bind_eq _ _ _ _ _ (load_eq _ _ _ HJ1)).
  destruct (respawn_delay _ _ _ <=? 0).
  - by rewrite (bind_eq_pair _ _ _ _ (spawn_eq _ _ _ HJ1 Hr)).
  - rewrite (bind_eq _ _ _ _ _ (cancel_eq _ _ _ HJ1)).
    destruct (k_timer_ok (now w)); cbn [negb]; [|done].
    do 2 (erewrite bind_eq by reflexivity).
    erewrite bind_eq by (apply store_eq; apply lookup_insert_eq).
    done.
Qed.

Lemma respawn_inv w j J :
  Inv w → heap w !! j = Some J → pending_unload J = false →
  Inv (respawn_result j J w).
Proof.
  intros HI HJ Hp. unfold respawn_result.
  set (w1 := with_throttle_cached _ w).
  assert (HI1 : Inv w1) by (eapply InvG_core; [exact HI|done..|apply (inv_singleton _ _ _ HI)]).
  assert (HJ1 : heap w1 !! j = Some J) by done.
  destruct (_ <=? _); [by apply spawn_inv|].
  pose proof (cancelled_inv _ _ _ _ _ HI1 HJ1) as HI2.
  destruct (k_timer_ok _); [|done].
  apply armed_inv; [done|apply lookup_insert_eq|done|done].
Qed.

(** The block of a restart timer. *)
Definition fired_result (j : ptr) (J : Job) (w : world) : world :=
  let w1 := cancelled j J w in
  if pending_unload J then removed j (job_timer None J) w1
  else (job_spawn_result j (job_timer None J) w1).2.

Lemma fired_eq w j J :
  heap w !! j = Some J → runnable J →
  restart_timer_fired j w = Some (tt, fired_result j J w).
Proof.
  intros HJ Hr. unfold restart_timer_fired, fired_result.
  rewrite (bind_eq _ _ _ _ _ (cancel_eq _ _ _ HJ)).
  assert (HJ1 : heap (cancelled j J w) !! j = Some (job_timer None J)) by apply lookup_insert_eq.
  rewrite (bind_eq _ _ _ _ _ (load_eq _ _ _ HJ1)). cbn [pending_unload job_timer].
  destruct (pending_unload J); [by apply remove_eq|].
  by rewrite (bind_eq_pair _ _ _ _ (spawn_eq _ _ _ HJ1 Hr)).
Qed.

Lemma with_timers_inv X q w j J t :
  InvG X q w → heap w !! j = Some J → restart_timer J = Some t →
  InvG X q (cancelled j J (with_timers (delete t (timers w)) w)).
Proof.
  intros HI HJ Ht.
  replace (cancelled j J _) with (cancelled j J w); [by apply cancelled_inv|].
  unfold cancelled, drop_timer. rewrite Ht. cbn. by rewrite delete_delete_eq.
Qed.

Lemma dispatch_timer_spec w t :
  Inv w → ∃ w', dispatch_timer t w = Some (tt, w') ∧ Inv w' ∧
    replies w' = replies w ∧ shutting_down w' = shutting_down w.
Proof.
  intros HI. unfold dispatch_timer. erewrite bind_eq by reflexivity.
  destruct (timers w !! t) as [[j d]|] eqn:Et; [|by exists w].
  destruct (inv_timer_job _ _ _ HI _ _ _ Et) as (J & HJ & Hr).
  erewrite bind_eq by reflexivity. set (w1 := with_timers _ w).
  pose proof (with_timers_inv _ _ _ _ _ _ HI HJ Hr) as HI1. fold w1 in HI1.
  pose proof (inv_runnable _ _ _ _ _ HI HJ) as Hrun.
  rewrite (fired_eq w1 j J) by done. eexists. split; [done|].
  assert (HJ1 : heap (cancelled j J w1) !! j = Some (job_timer None J)) by apply lookup_insert_eq.
  unfold fired_result. destruct (pending_unload J).
  - split; [by eapply removed_inv|]. unfold removed. by destruct (decide _).
  - split; [by apply spawn_inv|]. unfold job_spawn_result. by repeat case_match.
Qed.

(** *** Reaping *)

Definition reaped (j : ptr) (J : Job) (status : Z) (w : world) : world :=
  with_heap (<[j := job_reaped status J]> (heap w)) w.

Definition reap_result (j : ptr) (J : Job) (status : Z) (w : world) : world :=
  let J1 := job_reaped status J in
  let w1 := reaped j J status w in
  if pending_unload J then removed j J1 w1
  else if keep_alive J then respawn_result j J1 w1
  else if decide (singleton w = Some j) then with_singleton (singleton w) true w1 else w1.

Lemma reap_eq w j J status :
  heap w !! j = Some J → runnable J →
  job_reap j status w = Some (tt, reap_result j J status w).
Proof.
  intros HJ Hr. unfold job_reap, reap_result.
  rewrite (bind_eq _ _ _ _ _ (store_eq _ _ (job_reaped status) _ HJ)).
  fold (reaped j J status w).
  assert (HJ1 : heap (reaped j J status w) !! j = Some (job_reaped status J))
    by apply lookup_insert_eq.
  rewrite (bind_eq _ _ _ _ _ (load_eq _ _ _ HJ1)). cbn [pending_unload keep_alive job_reaped].
  destruct (pending_unload J); [by apply remove_eq|].
  destruct (keep_alive J); [by apply respawn_eq|].
  erewrite bind_eq by reflexivity. cbn [singleton reaped with_heap]. unfold when.
  by destruct (decide _); [rewrite bool_decide_eq_true_2|rewrite bool_decide_eq_false_2].
Qed.

(** Removing a job does not depend on what was last written to it. *)
Lemma removed_store w j J J' :
  restart_timer J' = restart_timer J →
  removed j J' (with_heap (<[j := J']> (heap w)) w) = removed j J w.
Proof.
  intros Ht. unfold removed, freed, drop_timer. rewrite Ht. cbn.
  destruct (decide _); cbn; by rewrite delete_insert_eq.
Qed.

Lemma reaped_inv w j J status :
  InvG None (Some (job_p J)) w → heap w !! j = Some J → 0 < job_p J → pending_unload J = false →
  Inv (reaped j J status w).
Proof.
  intros HI HJ Hp Epend. unfold reaped. eapply inv_store; try done; cbn.
  - by rewrite Epend.
  - intros p [?|[= <-]] ?; [by left|done].
  - intros t. split.
    + intros [d Hd]. destruct (inv_timer_job _ _ _ HI _ _ _ Hd) as (J' & ? & ?). congruence.
    + by apply (inv_job_timer _ _ _ HI).
  - intros t Ht. apply (inv_next_timer _ _ _ HI).
    destruct (inv_job_timer _ _ _ HI _ _ _ HJ Ht) as [d Hd]. eauto.
Qed.

Lemma reap_inv w j J status :
  InvG None (Some (job_p J)) w → heap w !! j = Some J → 0 < job_p J →
  Inv (reap_result j J status w).
Proof.
  intros HI HJ Hp. unfold reap_result. destruct (pending_unload J) eqn:Epend.
  { unfold reaped. rewrite (removed_store _ _ J) by done.
    eapply removed_inv; [done..|]. congruence. }
  pose proof (reaped_inv _ _ _ status HI HJ Hp Epend) as HI1.
  assert (HJ1 : heap (reaped j J status w) !! j = Some (job_reaped status J))
    by apply lookup_insert_eq.
  destruct (keep_alive J); [by apply respawn_inv|].
  destruct (decide _) as [Hs|]; [|done].
  eapply InvG_core; try done. intros k Hk. cbn in Hk. by apply (inv_singleton _ _ _ HI1).
Qed.

(** *** Unloading *)

Definition unload_result (j : ptr) (J : Job) (w : world) : world :=
  if bool_decide (state J = JOB_STATE_RUNNING) then
    with_heap (<[j := job_state JOB_STATE_STOPPING (job_pending (job_timer None J))]> (heap w))
      (with_timers (drop_timer J (timers w)) w)
  else removed j J w.

Lemma unload_spec w l :
  Inv w →
  (jobmgr_unload l w = Some (ENOENT, w) ∧
   ∀ j J, j ∈ jobs_head w → heap w !! j = Some J → label J ≠ Some l) ∨
  (∃ j J, j ∈ jobs_head w ∧ heap w !! j = Some J ∧ label J = Some l ∧
   jobmgr_unload l w = Some (0, unload_result j J w) ∧ Inv (unload_result j J w)).
Proof.
  intros HI. unfold jobmgr_unload.
  destruct (find_by_label_spec _ _ _ l HI) as (o & E & Ho). rewrite (bind_eq _ _ _ _ _ E).
  destruct o as [j|]; [right|by left]. destruct Ho as (J & Hj & HJ & Hl).
  exists j, J. do 3 (split; [done|]).
  pose proof (jo_state _ _ _ (inv_jobs _ _ _ HI _ _ HJ)) as Hst.
  pose proof (cancelled_inv _ _ _ _ _ HI HJ) as HI1.
  rewrite (bind_eq _ _ _ _ _ (cancel_eq _ _ _ HJ)).
  set (w1 := cancelled j J w) in *. set (J1 := job_timer None J).
  assert (HJ1 : heap w1 !! j = Some J1) by apply lookup_insert_eq.
  rewrite (bind_eq _ _ _ _ _ (store_eq _ _ job_pending _ HJ1)).
  set (w2 := with_heap (<[j := job_pending J1]> (heap w1)) w1).
  assert (HJ2 : heap w2 !! j = Some (job_pending J1)) by apply lookup_insert_eq.
  rewrite (bind_eq _ _ _ _ _ (load_eq _ _ _ HJ2)). unfold unload_result.
  change (state (job_pending J1)) with (state J). change (job_p (job_pending J1)) with (job_p J).
  destruct (bool_decide (state J = JOB_STATE_RUNNING)) eqn:Erun.
  - apply bool_decide_eq_true in Erun. unfold state_ok in Hst. rewrite Erun in Hst.
    rewrite (proj2 (Z.ltb_lt 0 _)) by lia. cbn [andb].
    erewrite bind_eq by (apply store_eq; exact HJ2). split.
    + unfold ret. do 2 f_equal. unfold w2, w1, cancelled. cbn. by rewrite !insert_insert_eq.
    + replace (with_heap _ _) with
        (with_heap (<[j:=job_state JOB_STATE_STOPPING (job_pending J1)]> (heap w1)) w1)
        by (unfold w1, cancelled; cbn; by rewrite insert_insert_eq).
      eapply inv_store; try done; cbn.
      * intros _. split; [apply Hst|done].
      * by left.
      * intros t. split; [|done]. intros [d Hd].
        destruct (inv_timer_job _ _ _ HI1 _ _ _ Hd) as (J' & HJ' & Hr').
        rewrite HJ1 in HJ'. by injection HJ' as <-.
  - cbn [andb]. rewrite (bind_eq _ _ _ _ _ (remove_eq _ _ _ HJ2)).
    assert (Hrm : removed j (job_pending J1) w2 = removed j J w).
    { unfold removed, freed, w2, w1, cancelled, drop_timer. cbn.
      destruct (decide _); cbn; by rewrite !delete_insert_eq. }
    rewrite Hrm. split; [done|]. eapply removed_inv; [done..|]. done.
Qed.

(** *** The SIGCHLD handler *)

Lemma wait_ghost w p :
  Inv w →
  InvG None (Some p) (with_children (children w ∖ {[p]}) w).
Proof.
  intros HI. split; cbn; try apply HI.
  intros j J HJ. destruct (inv_jobs _ _ _ HI _ _ HJ) as [H1 H2 H3 H4].
  split; [done|done| |done]. unfold state_ok in *. destruct (state J); [done| | |done].
  all: destruct H3 as [H3 [Hin|]]; [|done]; split; [done|].
  all: destruct (decide (job_p J = p)) as [->|]; [by right|left; set_solver].
Qed.

Lemma ghost_unknown w p :
  InvG None (Some p) w →
  (∀ j J, j ∈ jobs_head w → heap w !! j = Some J → 0 < job_p J → job_p J ≠ p) → Inv w.
Proof.
  intros HI Hn. split; try apply HI.
  intros j J HJ. destruct (inv_jobs _ _ _ HI _ _ HJ) as [H1 H2 H3 H4].
  assert (Hj : j ∈ jobs_head w).
  { assert (j ∈ jobs_head w ∨ None = Some j) as [|]; [|done|done].
    apply (inv_heap _ _ _ HI). eauto. }
  split; [done|done| |done]. unfold state_ok in *. destruct (state J); [done| | |done].
  all: destruct H3 as [H3 [Hin|[= Heq]]]; [by split; [|left]|].
  all: by destruct (Hn j J Hj HJ).
Qed.

Lemma sigchld_spec script w :
  Inv w → ∃ w', sigchld_handler script w = Some (tt, w') ∧ Inv w'.
Proof.
  revert w. induction script as [|[p st| |] script IH]; intros w HI; cbn [sigchld_handler];
    [by exists w| |by exists w|by exists w].
  erewrite bind_eq by reflexivity.
  pose proof (wait_ghost w p HI) as HI1. set (w1 := with_children _ w) in *.
  destruct (find_by_pid_spec _ _ _ p HI1) as (o & E & Ho). rewrite (bind_eq _ _ _ _ _ E).
  destruct o as [j|].
  - destruct Ho as (J & Hj & HJ & Hpj & Hp). subst p.
    rewrite (bind_eq _ _ _ _ _ (reap_eq _ _ _ st HJ (inv_runnable _ _ _ _ _ HI1 HJ))).
    pose proof (reap_inv _ _ _ st HI1 HJ Hp) as HI2. set (w2 := reap_result _ _ _ _) in *.
    do 2 (erewrite bind_eq by reflexivity).
    destruct (_ && _); [|by apply IH].
    eexists. split; [done|]. eapply InvG_core; try done. apply (inv_singleton _ _ _ HI2).
  - apply IH. eapply ghost_unknown; [done|]. intros j J Hj HJ Hpos. destruct Ho as [?|Ho]; [lia|].
    by eapply Ho.
Qed.

(** *** Scanning a directory *)

Lemma scan_entry_spec dir n w :
  Inv w → ∃ b w', scan_entry dir n w = Some (b, w') ∧ Inv w' ∧ timers w' ⊆ timers w.
Proof.
  intros HI. unfold scan_entry. destruct (is_plist_name n); cbn [negb]; [|by eexists _, _].
  destruct (_ <=? _)%nat; [by eexists _, _|].
  set (path := String.append dir _). rewrite (bind_eq_pair _ _ _ _ (load_file_eq w path HI)).
  unfold load_result. destruct (k_plist (now w) path) as [[| | |d|]|]; try (by eexists _, _).
  destruct (complete (plist_job path d)) eqn:Ec; cbn [fst snd]; [|eexists _, _; split; [done|split; [by apply load_failed_inv|done]]].
  set (j := next_ptr w). pose proof (allocated_inv _ _ _ HI Ec) as HI1.
  assert (HJ : heap (allocated w (plist_job path d)) !! j = Some (plist_job path d))
    by apply lookup_insert_eq.
  destruct (insert_spec _ _ _ _ HI1 HJ) as [(Ei & HI2 & _)|(Ei & _)];
    rewrite (bind_eq _ _ _ _ _ Ei); cbn [negb Z.eqb].
  - set (w2 := with_jobs_head _ _) in *.
    assert (HJ2 : heap w2 !! j = Some (plist_job path d)) by done.
    rewrite (bind_eq _ _ _ _ _ (load_eq _ _ _ HJ2)).
    destruct (_ && _); [|by eexists _, _].
    rewrite (bind_eq_pair _ _ _ _ (spawn_eq _ _ _ HJ2 (inv_runnable _ _ _ _ _ HI2 HJ2))).
    eexists _, _. split; [done|]. split; [by apply spawn_inv|].
    unfold job_spawn_result. by repeat case_match.
  - rewrite (bind_eq _ _ _ _ _ (free_eq _ _ _ HJ)).
    eexists _, _. split; [done|]. split; [by apply discarded_inv|done].
Qed.

Lemma scan_entries_spec dir names n w :
  Inv w → ∃ m w', scan_entries dir names n w = Some (m, w') ∧ Inv w' ∧ timers w' ⊆ timers w.
Proof.
  revert n w. induction names as [|x names IH]; intros n w HI; cbn; [by eexists _, _|].
  destruct (scan_entry_spec dir x w HI) as (b & w1 & E & HI1 & Ht). rewrite (bind_eq _ _ _ _ _ E).
  destruct (IH (if b : bool then S n else n) w1 HI1) as (m & w2 & -> & HI2 & Ht2).
  exists m, w2. split; [done|]. split; [done|by etrans].
Qed.

Lemma load_dir_spec dir w :
  Inv w → ∃ m w', jobmgr_load_plist_dir dir w = Some (m, w') ∧ Inv w' ∧ timers w' ⊆ timers w.
Proof.
  intros HI. unfold jobmgr_load_plist_dir. erewrite bind_eq by reflexivity.
  destruct (k_readdir (now w) dir); [by apply scan_entries_spec|by eexists _, _].
Qed.

End lifecycle.
