(* ===== verification/JobSpec.v ===== *)
(** * The job table as a map from labels to jobs

    The abstract view of the table that [launchctl] users have, and what the
    operations of [JobTable] do to it. *)

From S2P Require Import Prelude JobTable JobInv.
Local Open Scope c_scope.
Local Open Scope Z_scope.

(** ** The view *)

Definition entry (w : world) (j : ptr) : option (string * Job) :=
  J ← heap w !! j; l ← label J; Some (l, J).

Definition table (w : world) : gmap string Job := list_to_map (omap (entry w) (jobs_head w)).

Lemma entry_Some w j l J : entry w j = Some (l, J) ↔ heap w !! j = Some J ∧ label J = Some l.
Proof. unfold entry. destruct (heap w !! j) as [J'|]; cbn; [destruct (label J') eqn:E; cbn|]; naive_solver. Qed.

Lemma table_lookup X q w l J :
  InvG X q w →
  table w !! l = Some J ↔ ∃ j, j ∈ jobs_head w ∧ heap w !! j = Some J ∧ label J = Some l.
Proof.
  intros HI. unfold table. rewrite <-elem_of_list_to_map.
  - rewrite list_elem_of_omap. split; intros (j & Hj & He); exists j.
    + by apply entry_Some in He.
    + split; [done|]. by apply entry_Some.
  - assert (Hl := inv_labels _ _ _ HI). pose proof (inv_nodup _ _ _ HI) as Hnd.
    induction (jobs_head w) as [|j js IH]; [constructor|].
    apply NoDup_cons in Hnd as [Hj Hnd]. cbn.
    assert (IH' : NoDup (omap (entry w) js).*1)
      by (apply IH; [intros; eapply Hl; eauto; by right|done]).
    destruct (entry w j) as [[l' K]|] eqn:E; [|done]. cbn. constructor; [|done].
    intros ([l2 K2] & ? & (k & Hk & E2)%list_elem_of_omap)%list_elem_of_fmap. cbn in *; subst l2.
    apply entry_Some in E as [? ?], E2 as [? ?]. apply Hj.
    replace j with k; [done|]. eapply (Hl k j K2 K); [by right|by left|done|done|congruence].
Qed.

Section updates.
Context (X X' : option ptr) (q q' : option Z) (w w' : world).
Context (HI : InvG X q w) (HI' : InvG X' q' w').

Lemma table_frame :
  jobs_head w' = jobs_head w → (∀ j, j ∈ jobs_head w → heap w' !! j = heap w !! j) →
  table w' = table w.
Proof.
  intros Hl Hh. apply map_eq. intros l. apply option_eq. intros J.
  rewrite (table_lookup _ _ _ _ _ HI), (table_lookup _ _ _ _ _ HI'), Hl.
  split; intros (j & Hj & HJ & ?); exists j; (rewrite Hh in * by done); done.
Qed.

Lemma table_store j J J' l :
  j ∈ jobs_head w → heap w !! j = Some J → label J = Some l → label J' = Some l →
  heap w' = <[j := J']> (heap w) → jobs_head w' = jobs_head w →
  table w' = <[l := J']> (table w).
Proof.
  intros Hj HJ El El' Hh Hl. apply map_eq. intros k. apply option_eq. intros K.
  rewrite (table_lookup _ _ _ _ _ HI'), lookup_insert_Some, (table_lookup _ _ _ _ _ HI), Hh, Hl.
  split.
  - intros (i & Hi & HK & Ek). destruct (decide (j = i)) as [<-|Hne]; simpl_insert HK.
    + left. split; congruence.
    + right. split; [|eauto]. intros <-. apply Hne.
      eapply (inv_labels _ _ _ HI j i J K); eauto. congruence.
  - intros [[<- <-]|[Hne (i & Hi & HK & Ek)]].
    + exists j. by rewrite lookup_insert_eq.
    + exists i. assert (j ≠ i) by (intros <-; congruence). by rewrite lookup_insert_ne.
Qed.

Lemma table_delete j J l :
  j ∈ jobs_head w → heap w !! j = Some J → label J = Some l →
  heap w' = delete j (heap w) → (∀ k, k ∈ jobs_head w' ↔ k ∈ jobs_head w ∧ k ≠ j) →
  table w' = delete l (table w).
Proof.
  intros Hj HJ El Hh Hl. apply map_eq. intros k. apply option_eq. intros K.
  rewrite (table_lookup _ _ _ _ _ HI'), lookup_delete_Some, (table_lookup _ _ _ _ _ HI), Hh.
  split.
  - intros (i & [Hi Hne]%Hl & HK & Ek). rewrite lookup_delete_ne in HK by done.
    split; [|eauto]. intros <-. apply Hne. eapply (inv_labels _ _ _ HI i j K J); eauto. congruence.
  - intros [Hne (i & Hi & HK & Ek)]. exists i. assert (i ≠ j) by (intros ->; congruence).
    rewrite Hl, lookup_delete_ne by done. done.
Qed.

Lemma table_add j J l :
  heap w !! j = Some J → label J = Some l → j ∉ jobs_head w →
  heap w' = heap w → jobs_head w' = j :: jobs_head w →
  table w' = <[l := J]> (table w) ∧ table w !! l = None.
Proof.
  intros HJ El Hj Hh Hl.
  assert (Hnone : table w !! l = None).
  { apply eq_None_not_Some. intros [K (i & Hi & HK & Ek)%(table_lookup _ _ _ _ _ HI)].
    apply Hj. replace j with i; [done|]. apply (inv_labels _ _ _ HI' i j K J);
      rewrite ?Hl, ?Hh; [by right|by left|done|done|congruence]. }
  split; [|done]. apply map_eq. intros k. apply option_eq. intros K.
  rewrite (table_lookup _ _ _ _ _ HI'), lookup_insert_Some, (table_lookup _ _ _ _ _ HI), Hh, Hl.
  split.
  - intros (i & [->|Hi]%elem_of_cons & HK & Ek); [left; split; congruence|].
    right. split; [|eauto]. intros <-.
    assert (table w !! l = Some K) by (apply (table_lookup _ _ _ _ _ HI); eauto). congruence.
  - intros [[<- <-]|[Hne (i & Hi & HK & Ek)]].
    + exists j. split; [by left|done].
    + exists i. split; [by right|done].
Qed.
End updates.

(** ** Operations on the view *)

Lemma find_table X q w l :
  InvG X q w →
  match table w !! l with
  | None => jobmgr_find_by_label l w = Some (None, w)
  | Some J => ∃ j, jobmgr_find_by_label l w = Some (Some j, w) ∧
      j ∈ jobs_head w ∧ heap w !! j = Some J ∧ label J = Some l
  end.
Proof.
  intros HI. destruct (find_by_label_spec _ _ _ l HI) as ([j|] & -> & Ho).
  - destruct Ho as (J & Hj & HJ & Hl).
    rewrite (proj2 (table_lookup _ _ _ l J HI)) by eauto. eauto 10.
  - destruct (table w !! l) as [J|] eqn:E; [|done].
    apply (table_lookup _ _ _ _ _ HI) in E as (j & Hj & HJ & Hl). by destruct (Ho j J Hj HJ).
Qed.

Section ops.
Context `{Kernel}.

Lemma removed_head X q w j J :
  InvG X q w → ∀ k, k ∈ jobs_head (removed j J w) ↔ k ∈ jobs_head w ∧ k ≠ j.
Proof.
  intros HI. pose proof (unlink_spec j _ (inv_nodup _ _ _ HI)) as [_ Hm].
  unfold removed. destruct (decide _); apply Hm.
Qed.

Lemma table_removed q q' w j J J' l :
  InvG None q w → InvG None q' (removed j J' w) →
  j ∈ jobs_head w → heap w !! j = Some J → label J = Some l →
  table (removed j J' w) = delete l (table w).
Proof.
  intros HI HI' Hj HJ Hl. eapply table_delete; try done.
  - by unfold removed; destruct (decide _).
  - by eapply removed_head.
Qed.

(** The abstract effect of [job_spawn]. *)
Definition spec_spawn (J : Job) (w : world) : Z * Job :=
  if disabled J then (0, J) else
  if bool_decide (state J = JOB_STATE_RUNNING) then (0, J) else
  if k_spawn (now w) (spawn_prog J) (spawn_args J) =? 0
  then (0, job_spawned (k_pid (children w)) (now w) J) else (-1, J).

Lemma table_spawn X w j J l :
  InvG X None w → j ∈ jobs_head w → heap w !! j = Some J → label J = Some l →
  (job_spawn_result j J w).1 = (spec_spawn J w).1 ∧
  table (job_spawn_result j J w).2 = <[l := (spec_spawn J w).2]> (table w).
Proof.
  intros HI Hj HJ Hl. pose proof (spawn_inv _ _ _ _ HI HJ) as HI'. revert HI'.
  assert (Hid : <[l := J]> (table w) = table w)
    by (apply insert_id, (table_lookup _ _ _ _ _ HI); eauto).
  unfold job_spawn_result, spec_spawn. destruct (disabled J); [by cbn [fst snd]; rewrite Hid|].
  destruct (bool_decide _); [by cbn [fst snd]; rewrite Hid|].
  destruct (_ =? 0); [|by cbn [fst snd]; rewrite Hid].
  intros HI'. split; [done|]. by eapply table_store.
Qed.

(** The world fields a spawn leaves alone. *)
Lemma spawn_frame j J w :
  let w' := (job_spawn_result j J w).2 in
  replies w' = replies w ∧ shutting_down w' = shutting_down w ∧ now w' = now w ∧
  timers w' = timers w ∧ jobs_head w' = jobs_head w ∧ singleton w' = singleton w ∧
  throttle_value w' = throttle_value w.
Proof. unfold job_spawn_result. by repeat case_match. Qed.

Lemma drop_timer_sub J tm : drop_timer J tm ⊆ tm.
Proof. unfold drop_timer. destruct (restart_timer J); [apply delete_subseteq|done]. Qed.

(** The abstract effect of [jobmgr_unload] on a loaded job. *)
Definition stopping (J : Job) : Job := job_state JOB_STATE_STOPPING J.

Definition spec_unload (l : string) (J : Job) (T : gmap string Job) : gmap string Job :=
  if bool_decide (state J = JOB_STATE_RUNNING)
  then <[l := stopping (job_pending (job_timer None J))]> T
  else delete l T.

Lemma unload_table w l :
  Inv w →
  match table w !! l with
  | None => jobmgr_unload l w = Some (ENOENT, w)
  | Some J => ∃ w', jobmgr_unload l w = Some (0, w') ∧ Inv w' ∧
      table w' = spec_unload l J (table w) ∧
      children w' = children w ∧ replies w' = replies w ∧
      now w' = now w ∧ shutting_down w' = shutting_down w ∧
      timers w' ⊆ timers w ∧ throttle_value w' = throttle_value w
  end.
Proof.
  intros HI. destruct (unload_spec w l HI) as [[E Hno]|(j & J & Hj & HJ & Hl & E & HI')].
  - destruct (table w !! l) as [J|] eqn:ET; [|done].
    apply (table_lookup _ _ _ _ _ HI) in ET as (j & Hj & HJ & Hl). by destruct (Hno j J Hj HJ).
  - rewrite (proj2 (table_lookup _ _ _ l J HI)) by eauto.
    exists (unload_result j J w). split; [done|]. split; [done|].
    unfold spec_unload, unload_result in *. destruct (bool_decide _).
    + split; [by eapply table_store|]. do 4 (split; [done|]). split; [apply drop_timer_sub|done].
    + split; [by eapply table_removed|]. unfold removed, freed.
      destruct (decide _); do 4 (split; [done|]); (split; [apply drop_timer_sub|done]).
Qed.

(** Inserting a job that was just loaded. *)
Lemma insert_loaded w path d l :
  let J := plist_job path d in
  let w1 := allocated w J in
  let w2 := with_jobs_head (next_ptr w :: jobs_head w) w1 in
  Inv w → complete J = true → label J = Some l →
  if decide (is_Some (table w !! l))
  then jobmgr_insert (next_ptr w) w1 = Some (-1, w1)
  else jobmgr_insert (next_ptr w) w1 = Some (0, w2) ∧ Inv w2 ∧ table w2 = <[l := J]> (table w).
Proof.
  intros J w1 w2 HI Hc El. pose proof (allocated_inv _ _ _ HI Hc) as HI1. fold J w1 in HI1.
  assert (HJ : heap w1 !! next_ptr w = Some J) by apply lookup_insert_eq.
  assert (Hold : ∀ k, k ∈ jobs_head w → heap w1 !! k = heap w !! k).
  { intros k Hk. apply lookup_insert_ne. intros <-. by apply (inv_loose _ _ _ HI1 (next_ptr w)). }
  assert (HT1 : table w1 = table w) by (by eapply table_frame).
  destruct (insert_spec _ _ _ _ HI1 HJ) as [(Ei & HI2 & _)|(Ei & k & K & Hk & HK & Hlk)].
  - destruct (table_add _ _ _ _ w1 w2 HI1 HI2 (next_ptr w) J l HJ El) as [HT Hnone];
      [by apply (inv_loose _ _ _ HI1)|done..|].
    rewrite HT1 in *. rewrite decide_False by (rewrite Hnone; by intros []). done.
  - rewrite decide_True; [done|]. exists K. apply (table_lookup _ _ _ _ _ HI). exists k.
    rewrite <-Hold by done. split_and!; [done..|congruence].
Qed.

(** Giving it up leaves the view alone. *)
Lemma table_discarded w path d :
  Inv w → complete (plist_job path d) = true →
  table (freed (next_ptr w) (plist_job path d) (allocated w (plist_job path d))) = table w.
Proof.
  intros HI Hc. eapply table_frame; [done|by apply discarded_inv|done|].
  intros i Hi. cbn. by rewrite delete_insert_id by (by eapply next_ptr_fresh).
Qed.

(** A spawned job keeps its label. *)
Lemma spawn_label j J w l :
  heap w !! j = Some J → label J = Some l →
  ∃ J', heap (job_spawn_result j J w).2 !! j = Some J' ∧ label J' = Some l.
Proof.
  intros HJ El. unfold job_spawn_result. repeat case_match; cbn; eauto.
  eexists. by rewrite lookup_insert_eq.
Qed.

End ops.

(** ** Reaping and timers on the view *)

Section events.
Context `{Kernel}.

(** Fields that the handlers of events leave alone. *)
Record quiet (w w' : world) : Prop := {
  qu_replies : replies w' = replies w;
  qu_now : now w' = now w;
  qu_throttle : throttle_value w' = throttle_value w;
}.

#[export] Instance quiet_preorder : PreOrder quiet.
Proof.
  split; [by intros w; split|]. intros w1 w2 w3 [? ? ?] [? ? ?]. split; congruence.
Qed.

Lemma spawn_quiet j J w : quiet w (job_spawn_result j J w).2.
Proof. destruct (spawn_frame j J w) as (? & ? & ? & ? & ? & ? & ?). by split. Qed.

Lemma throttle_value_cached w : throttle_value (with_throttle_cached (throttle_value w) w) = throttle_value w.
Proof. unfold throttle_value at 1. cbn. pose proof (throttle_value_nonneg w). by rewrite (proj2 (Z.leb_le _ _)). Qed.

Lemma removed_quiet j J w : quiet w (removed j J w) ∧ timers (removed j J w) ⊆ timers w.
Proof. unfold removed, freed. destruct (decide _); (split; [done|apply drop_timer_sub]). Qed.

(** What [schedule_respawn] makes of a job that is not running. *)
Definition spec_respawn (J : Job) (w : world) : Job :=
  if respawn_delay (last_spawn_at J) (throttle_value w) (now w) <=? 0 then (spec_spawn J w).2
  else if k_timer_ok (now w) then job_timer (Some (next_timer w)) J else job_timer None J.

(** The timers it may leave armed. *)
Definition respawn_timers (j : ptr) (J : Job) (w : world) : gmap timer (ptr * Z) :=
  <[next_timer w := (j, timer_due (now w) (respawn_delay (last_spawn_at J) (throttle_value w) (now w)))]> (timers w).

Lemma table_respawn w j J l :
  Inv w → j ∈ jobs_head w → heap w !! j = Some J → label J = Some l → pending_unload J = false →
  table (respawn_result j J w) = <[l := spec_respawn J w]> (table w) ∧
  quiet w (respawn_result j J w) ∧ timers (respawn_result j J w) ⊆ respawn_timers j J w.
Proof.
  intros HI Hj HJ Hl Hp. pose proof (respawn_inv _ _ _ HI HJ Hp) as HI'. revert HI'.
  assert (Hsub : timers w ⊆ respawn_timers j J w).
  { apply insert_subseteq. destruct (timers w !! next_timer w) eqn:E; [|done].
    pose proof (inv_next_timer _ _ _ HI _ (mk_is_Some _ _ E)). lia. }
  unfold respawn_result, spec_respawn. set (w1 := with_throttle_cached (throttle_value w) w).
  assert (HI1 : Inv w1) by (eapply InvG_core; [exact HI|done..|apply (inv_singleton _ _ _ HI)]).
  assert (Hq1 : quiet w w1) by (split; [done|done|apply throttle_value_cached]).
  destruct (_ <=? _).
  - intros _. destruct (table_spawn _ _ _ _ _ HI1 Hj HJ Hl) as [_ HT]. split; [done|].
    split; [etrans; [done|apply spawn_quiet]|].
    destruct (spawn_frame j J w1) as (_ & _ & _ & -> & _). done.
  - destruct (k_timer_ok (now w)); intros HI'.
    + split; [|split; [split; [done|done|apply Hq1]|]].
      * eapply table_store; try done. cbn. by rewrite insert_insert_eq.
      * cbn. apply insert_mono, drop_timer_sub.
    + split; [by eapply table_store|]. split; [split; [done|done|apply Hq1]|]. cbn.
      etrans; [apply drop_timer_sub|done].
Qed.

(** What reaping makes of the table. *)
Definition spec_reap (l : string) (J : Job) (status : Z) (w : world) : gmap string Job :=
  if pending_unload J then delete l (table w) else
  <[l := if keep_alive J then spec_respawn (job_reaped status J) w else job_reaped status J]>
    (table w).

Lemma table_reap w j J l status :
  InvG None (Some (job_p J)) w → j ∈ jobs_head w → heap w !! j = Some J → label J = Some l →
  0 < job_p J →
  table (reap_result j J status w) = spec_reap l J status w ∧
  quiet w (reap_result j J status w) ∧
  timers (reap_result j J status w) ⊆ respawn_timers j J w.
Proof.
  intros HI Hj HJ Hl Hp. pose proof (reap_inv _ _ _ status HI HJ Hp) as HI'. revert HI'.
  assert (Hsub : timers w ⊆ respawn_timers j J w).
  { apply insert_subseteq. destruct (timers w !! next_timer w) eqn:E; [|done].
    pose proof (inv_next_timer _ _ _ HI _ (mk_is_Some _ _ E)). lia. }
  unfold reap_result, spec_reap. destruct (pending_unload J) eqn:Epend.
  { unfold reaped. rewrite (removed_store w j J) by done. intros HI'.
    destruct (removed_quiet j J w) as [Hq Ht].
    split; [by eapply table_removed|]. split; [done|]. by etrans. }
  pose proof (reaped_inv w j J status HI HJ Hp Epend) as HI1.
  assert (HJ1 : heap (reaped j J status w) !! j = Some (job_reaped status J)) by apply lookup_insert_eq.
  assert (HT1 : table (reaped j J status w) = <[l := job_reaped status J]> (table w))
    by (by eapply table_store).
  destruct (keep_alive J).
  - intros HI'. destruct (table_respawn (reaped j J status w) j (job_reaped status J) l) as (HT & Hq & Ht);
      [done..|]. split; [rewrite HT, HT1; by rewrite insert_insert_eq|].
    split; [by destruct Hq; split|done].
  - intros HI'. split; [|by destruct (decide _)].
    rewrite <-HT1. destruct (decide _); [|done]. by eapply table_frame.
Qed.

(** A due restart timer. *)
Lemma table_timer w t j d J l :
  Inv w → timers w !! t = Some (j, d) → heap w !! j = Some J → label J = Some l →
  j ∈ jobs_head w →
  ∃ w', dispatch_timer t w = Some (tt, w') ∧ Inv w' ∧ quiet w w' ∧ timers w' ⊆ timers w ∧
    table w' = <[l := (spec_spawn (job_timer None J) w).2]> (table w).
Proof.
  intros HI Ht HJ Hl Hj. destruct (dispatch_timer_spec w t HI) as (w' & E & HI' & Hr & _).
  exists w'. split; [done|]. split; [done|].
  unfold dispatch_timer in E. erewrite bind_eq in E by reflexivity. rewrite Ht in E.
  destruct (inv_timer_job _ _ _ HI _ _ _ Ht) as (J' & HJ' & Hrt). simplify_eq.
  erewrite bind_eq in E by reflexivity.
  pose proof (inv_runnable _ _ _ _ _ HI HJ) as Hrun.
  rewrite (fired_eq _ j J) in E by done. injection E as <-.
  pose proof (jo_pending _ _ _ (inv_jobs _ _ _ HI _ _ HJ)) as Hpe.
  unfold fired_result in *. destruct (pending_unload J);
    [destruct (Hpe eq_refl); congruence|].
  set (w1 := cancelled j J (with_timers _ w)) in *.
  assert (HI1 : Inv w1) by (by apply with_timers_inv).
  assert (HJ1 : heap w1 !! j = Some (job_timer None J)) by apply lookup_insert_eq.
  destruct (table_spawn _ _ _ _ _ HI1 Hj HJ1 Hl) as [_ HT].
  assert (HT1 : table w1 = <[l := job_timer None J]> (table w)) by (by eapply table_store).
  split; [|split].
  - etrans; [|apply spawn_quiet]. done.
  - destruct (spawn_frame j (job_timer None J) w1) as (_ & _ & _ & -> & _).
    cbn. etrans; [apply drop_timer_sub|apply delete_subseteq].
  - rewrite HT, HT1. by rewrite insert_insert_eq.
Qed.

End events.

(** ** One round of the SIGCHLD loop *)

Section reaps.
Context `{Kernel}.

(** A process of the table is a child that is still to be waited for. *)
Lemma process_is_child w l J :
  Inv w → table w !! l = Some J → 0 < job_p J → job_p J ∈ children w.
Proof.
  intros HI (j & _ & HKj & _)%(table_lookup _ _ _ _ _ HI) Hp.
  pose proof (jo_state _ _ _ (inv_jobs _ _ _ HI _ _ HKj)) as Hst.
  unfold state_ok in Hst. destruct (state J); naive_solver lia.
Qed.

(** The world after the kernel has handed over child [p]. *)
Definition waited (p : Z) (w : world) : world := with_children (children w ∖ {[p]}) w.

(** A round either reaps a child that is nobody's process, or tells its job. *)
Inductive reap1 (w : world) (status : Z) : Z → world → Prop :=
  | reap1_other p w' :
      (∀ l J, table w !! l = Some J → 0 < job_p J → job_p J ≠ p) →
      Inv w' → table w' = table w → quiet w w' → timers w' = timers w →
      children w' = children w ∖ {[p]} → reap1 w status p w'
  | reap1_job j J l w' :
      job_p J ∈ children w → 0 < job_p J →
      j ∈ jobs_head w → heap w !! j = Some J → table w !! l = Some J →
      Inv w' → table w' = spec_reap l J status (waited (job_p J) w) → quiet w w' →
      timers w' ⊆ respawn_timers j J w → reap1 w status (job_p J) w'.

Lemma reap1_inv w status p w' : reap1 w status p w' → Inv w'.
Proof. by intros [| ]. Qed.

(** The end of the loop: nothing the view shows. *)
Record ends (w w' : world) : Prop := {
  en_inv : Inv w'; en_table : table w' = table w; en_quiet : quiet w w';
  en_timers : timers w' = timers w;
}.

Lemma ends_refl w : Inv w → ends w w.
Proof. by split. Qed.

Lemma sigchld_round p st script w w' :
  Inv w → sigchld_handler (WPid p st :: script) w = Some (tt, w') →
  ∃ w1, reap1 w st p w1 ∧ (ends w1 w' ∨ sigchld_handler script w1 = Some (tt, w')).
Proof.
  intros HI. cbn [sigchld_handler]. erewrite bind_eq by reflexivity.
  pose proof (wait_ghost w p HI) as HI1. fold (waited p w) in *.
  destruct (find_by_pid_spec _ _ _ p HI1) as (o & E & Ho). rewrite (bind_eq _ _ _ _ _ E).
  destruct o as [j|].
  - destruct Ho as (J & Hj & HJ & Hpj & Hp). subst p.
    destruct (jo_label _ _ _ (inv_jobs _ _ _ HI1 _ _ HJ)) as [l Hl].
    rewrite (bind_eq _ _ _ _ _ (reap_eq _ _ _ st HJ (inv_runnable _ _ _ _ _ HI1 HJ))).
    pose proof (reap_inv _ _ _ st HI1 HJ Hp) as HI2.
    destruct (table_reap _ _ _ l st HI1 Hj HJ Hl Hp) as (HT & Hq & Ht).
    set (w2 := reap_result _ _ _ _) in *.
    assert (Hstep : reap1 w st (job_p J) w2).
    { assert (HTJ : table w !! l = Some J) by (apply (table_lookup _ _ _ _ _ HI); eauto).
      eapply reap1_job; eauto using process_is_child. by destruct Hq; split. }
    do 2 (erewrite bind_eq by reflexivity). intros E2. exists w2. split; [done|].
    destruct (_ && _) in E2; [left|by right]. injection E2 as <-. split; try done.
    eapply InvG_core; try done. apply (inv_singleton _ _ _ HI2).
  - assert (Hno : ∀ l J, table w !! l = Some J → 0 < job_p J → job_p J ≠ p).
    { intros l J (j & Hj & HJ & _)%(table_lookup _ _ _ _ _ HI) Hp.
      destruct Ho as [?|Ho]; [lia|by eapply Ho]. }
    intros E2. exists (waited p w). split; [|by right]. apply reap1_other; try done.
    eapply ghost_unknown; [done|]. intros j J Hj HJ Hp.
    destruct (jo_label _ _ _ (inv_jobs _ _ _ HI _ _ HJ)) as [l Hl].
    apply (Hno l J); [|done]. apply (table_lookup _ _ _ _ _ HI). eauto.
Qed.

(** A property of worlds that every round keeps holds after the handler. *)
Lemma sigchld_preserves (P : world → Prop) script w w' :
  Inv w → sigchld_handler script w = Some (tt, w') →
  (∀ w1 w2 st p, Inv w1 → reap1 w1 st p w2 → P w1 → P w2) →
  (∀ w1 w2, ends w1 w2 → P w1 → P w2) → P w → P w'.
Proof.
  intros HI E Hround Hend. revert w HI E. induction script as [|[p st| |] script IH]; intros w HI E HP;
    try (injection E as <-; done).
  destruct (sigchld_round _ _ _ _ _ HI E) as (w1 & Hr & [He|E1]); [by eauto|].
  apply (IH w1); eauto using reap1_inv.
Qed.

End reaps.
