(* ===== verification/Demo.v ===== *)
(** * A concrete machine

    An instance of [Kernel] and worlds reached with it, on which the theorems
    about launchd are evaluated. *)

From S2P Require Import Prelude JobTable.
Local Open Scope c_scope.
Local Open Scope Z_scope.

Definition demo_pid (X : gset Z) : Z := 100 + foldr Z.max 0 (elements X).

Lemma demo_pid_above X x : x ∈ X → x < demo_pid X.
Proof.
  intros Hx. unfold demo_pid. apply elem_of_elements in Hx.
  induction (elements X) as [|y l IH]; cbn; [by apply elem_of_nil in Hx|].
  apply elem_of_cons in Hx as [->|Hx]; [lia|]. specialize (IH Hx). lia.
Qed.

Lemma demo_pid_fresh X : demo_pid X ∉ X.
Proof. intros Hx%demo_pid_above. lia. Qed.

Lemma demo_pid_pos X : 0 < demo_pid X.
Proof.
  unfold demo_pid. assert (0 ≤ foldr Z.max 0 (elements X)); [|lia].
  induction (elements X); cbn; lia.
Qed.

(** Two property lists: [/a.plist], a KeepAlive job [a], and [/b.plist], a job [b]
    that is not started when loaded. *)
Definition demo_plist (path : string) : option plist :=
  if (path =? "/a.plist")%string then
    Some (PDict [("Label", PString "a"); ("Program", PString "/bin/a"); ("KeepAlive", PNumber true)]%string)
  else if (path =? "/b.plist")%string then
    Some (PDict [("Label", PString "b"); ("ProgramArguments", PArray [PString "/bin/b"]);
                 ("RunAtLoad", PNumber false)]%string)
  else None.

#[export] Instance demo_kernel : Kernel := {|
  k_spawn _ _ _ := 0;
  k_pid := demo_pid; k_pid_fresh := demo_pid_fresh; k_pid_pos := demo_pid_pos;
  k_kill _ _ := 0; k_kill_errno _ _ := conj (Z.le_refl 0) eq_refl;
  k_timer_ok _ := true;
  k_plist _ := demo_plist;
  k_readdir _ _ := None;
  k_strerror _ := "error"%string;
  k_malloc _ _ := true;
|}.

(** The final world of a command that does not crash. *)
Definition run {A} (m : C world A) (w : world) : world :=
  match m w with Some (_, w') => w' | None => w end.
