(* ===== verification/IpcServer.v ===== *)
(** * The request server of launchd and its client launchctl

    [src/src/src/ipc.c] (one request per connection, one reply) and
    [src/src/support/launchctl.c].

    A handler's replies are the payloads it hands to [ipc_send] with
    [IPC_CMD_REPLY], appended to [replies]; [handle_connection] puts them on the
    connection through [IpcProto.ipc_send]. *)

From S2P Require Import Prelude IpcProto JobTable.
Local Open Scope c_scope.
Local Open Scope Z_scope.

Definition EIO : Z := 5.
Definition EEXIST : Z := 17.
Definition EINVAL : Z := 22.
Definition EALREADY : Z := 37.

Local Infix "+++" := String.append (at level 60, right associativity).
Definition newline : string := String "010"%char EmptyString.
Definition tab : string := String "009"%char EmptyString.

(** ** Replies *)

Definition reply_text (err : Z) (msg : string) : string :=
  str_take 1023 (fmt_d err +++ " " +++ msg +++ newline).

(** [ipc_send (fd, IPC_CMD_REPLY, buf, n)]. *)
Definition push_reply (payload : string) : C world unit := modify (with_reply payload).

Definition send_reply (err : Z) (msg : string) : C world unit :=
  push_reply (reply_text err msg).

(** [!s || s[0] == '\0']. *)
Definition missing (s : option string) : bool :=
  match s with None => true | Some s => (s =? EmptyString)%string end.

(** ** The list body *)

Definition WIFEXITED (s : Z) : bool := Z.land s 127 =? 0.
Definition WEXITSTATUS (s : Z) : Z := Z.land (Z.shiftr s 8) 255.

Definition list_line (J : Job) : string :=
  default EmptyString (label J) +++ tab +++ fmt_d (job_p J) +++ tab +++
  fmt_d (if WIFEXITED (last_exit_status J) then WEXITSTATUS (last_exit_status J) else -1)
  +++ newline.

Record list_ctx := ListCtx { buf : string; cap : Z; len : Z }.

(** [while (newcap < need) newcap *= 2]. *)
Fixpoint grow_cap (fuel : nat) (newcap need : Z) : Z :=
  match fuel with
  | O => newcap
  | S fuel => if newcap <? need then grow_cap fuel (newcap * 2) need else newcap
  end.

(** [char line[512]]: [snprintf] stores at most 511 characters and the NUL but
    returns the length it would have needed, and [memcpy] copies that many. *)
Definition line_buffer (s : string) : string := str_take 511 s +++ String zero EmptyString.

Section server.
Context `{Kernel}.

Definition list_append (J : Job) (c : list_ctx) : C world list_ctx :=
  let n := Z.of_nat (String.length (list_line J)) in
  let* t := gets now in
  let need := len c + n + 1 in
  let newcap := grow_cap 64 (if cap c =? 0 then 1024 else cap c * 2) need in
  if (cap c <? need) && negb (k_malloc t newcap) then ret c else
  let cap' := if cap c <? need then newcap else cap c in
  (* memcpy (c->buf + c->len, line, n) reads [line] and writes [c->buf] *)
  c_assert ((n <=? 512) && (need <=? cap')) ;;
  ret (ListCtx (buf c +++ str_take (Z.to_nat n) (line_buffer (list_line J))) cap' (len c + n)).

Definition list_count (J : Job) (count : nat) : C world nat := ret (S count).

Definition handle_list : C world unit :=
  let* count := jobmgr_foreach list_count 0%nat in
  let header := str_take 63 ("0 " +++ fmt_d (Z.of_nat count) +++ " jobs" +++ newline) in
  let* c := jobmgr_foreach list_append (ListCtx EmptyString 0 0) in
  let total := Z.of_nat (String.length header) + len c in
  let* t := gets now in
  if negb (k_malloc t (total + 1)) then send_reply ENOMEM "out of memory" else
  push_reply (header +++ buf c).

(** ** Handlers *)

Definition handle_load (path : option string) : C world unit :=
  if missing path then send_reply EINVAL "missing plist path" else
  let* o := jobmgr_load_plist_file (default EmptyString path) in
  match o with
  | None => send_reply EINVAL "plist load failed (see launchd log)"
  | Some j =>
      let* r := jobmgr_insert j in
      if negb (r =? 0) then
        let* J := load j in
        let* l := deref (label J) in
        let msg := str_take 255 (l +++ " already loaded") in
        jobmgr_free j ;;
        send_reply EEXIST msg
      else
        let* J := load j in
        let* r := (if run_at_load J && negb (disabled J) then job_spawn j else ret 0) in
        if negb (r =? 0) then send_reply EIO "spawn failed" else
        let* J := load j in
        let* l := deref (label J) in
        send_reply 0 l
  end.

Definition handle_unload (l : option string) : C world unit :=
  if missing l then send_reply EINVAL "missing label" else
  let l := default EmptyString l in
  let* err := jobmgr_unload l in
  if err =? ENOENT then send_reply ENOENT "no such job" else
  if negb (err =? 0) then send_reply err (k_strerror err) else
  send_reply 0 l.

Definition handle_start (l : option string) : C world unit :=
  if missing l then send_reply EINVAL "missing label" else
  let l := default EmptyString l in
  let* o := jobmgr_find_by_label l in
  match o with
  | None => send_reply ENOENT "no such job"
  | Some j =>
      let* J := load j in
      if bool_decide (state J = JOB_STATE_RUNNING) then send_reply EALREADY "already running" else
      let* r := job_spawn j in
      if negb (r =? 0) then send_reply EIO "spawn failed" else
      send_reply 0 l
  end.

Definition handle_stop (l : option string) : C world unit :=
  if missing l then send_reply EINVAL "missing label" else
  let l := default EmptyString l in
  let* o := jobmgr_find_by_label l in
  match o with
  | None => send_reply ENOENT "no such job"
  | Some j =>
      let* J := load j in
      if negb (bool_decide (state J = JOB_STATE_RUNNING)) || (job_p J <=? 0)
      then send_reply ESRCH "not running" else
      let* t := gets now in
      let e := k_kill t (job_p J) in
      if negb (e =? 0) then send_reply e (k_strerror e) else
      store j (job_state JOB_STATE_STOPPING) ;;
      send_reply 0 l
  end.

Definition handle_shutdown : C world unit :=
  send_reply 0 "shutting down" ;; launchd_shutdown.

Definition dispatch_msg (hdr : ipc_msg_hdr) (payload : option (list byte)) : C world unit :=
  let arg := c_string <$> payload in
  if cmd hdr =? IPC_CMD_LOAD then handle_load arg else
  if cmd hdr =? IPC_CMD_UNLOAD then handle_unload arg else
  if cmd hdr =? IPC_CMD_LIST then handle_list else
  if cmd hdr =? IPC_CMD_START then handle_start arg else
  if cmd hdr =? IPC_CMD_STOP then handle_stop arg else
  if cmd hdr =? IPC_CMD_SHUTDOWN then handle_shutdown else
  send_reply EINVAL "unknown command".

Fixpoint send_payloads (s : sock) (l : list string) : io sock :=
  match l with
  | [] => Returns s
  | p :: l =>
      match ipc_send s IPC_CMD_REPLY (String.list_byte_of_string p) with
      | Blocks => Blocks
      | Returns (_, s) => send_payloads s l      (* the result is not looked at *)
      end
  end.

(** What the connection holds when it is closed. *)
Definition handle_connection (s : sock) : C world (io sock) :=
  match ipc_recv s with
  | Blocks => ret Blocks
  | Returns (r, hdr, payload, s) =>
      let* n := gets (λ w, length (replies w)) in
      (if r =? -2 then ret tt else
       if r <? 0 then send_reply (if errno s =? 0 then EPROTO else errno s) "protocol error"
       else dispatch_msg hdr payload) ;;
      let* sent := gets (λ w, drop n (replies w)) in
      ret (send_payloads s sent)
  end.

End server.

(** ** launchctl *)

(** The text printed on standard output and the exit status of [do_cmd], given
    its connected socket ([None]: [client_connect] failed). *)
Definition do_cmd_send (c : Z) (payload : option string) (s : sock) : io (Z * sock) :=
  ipc_send s c (default [] (String.list_byte_of_string <$> payload)).

Definition reply_status (reply : option (list byte)) : Z :=
  match reply with Some p => i32 (strtol10 (c_string p)).1 | None => 0 end.

Definition do_cmd_recv (s : sock) : io (string * Z) :=
  match ipc_recv s with
  | Blocks => Blocks
  | Returns (r, hdr, reply, _) =>
      if negb (r =? 0) then Returns (EmptyString, 1) else
      if negb (cmd hdr =? IPC_CMD_REPLY) then Returns (EmptyString, 1) else
      Returns (default EmptyString (c_string <$> reply),
               if reply_status reply =? 0 then 0 else 1)
  end.

Definition do_cmd (c : Z) (payload : option string) (conn : option sock) : io (string * Z) :=
  match conn with
  | None => Returns (EmptyString, 1)
  | Some s =>
      match do_cmd_send c payload s with
      | Blocks => Blocks
      | Returns (r, s) => if negb (r =? 0) then Returns (EmptyString, 1) else do_cmd_recv s
      end
  end.

(** The decision [main] takes on its argument vector. *)
Inductive action := Usage (status : Z) | Request (c : Z) (payload : option string).

Definition launchctl_main (argv : list string) : action :=
  match argv with
  | [] | [_] => Usage 2
  | _ :: sub :: args =>
      if ((sub =? "help") || (sub =? "-h") || (sub =? "--help"))%string then Usage 0 else
      let one c := match args with [a] => Request c (Some a) | _ => Usage 2 end in
      let zero c := match args with [] => Request c None | _ => Usage 2 end in
      if (sub =? "load")%string then one IPC_CMD_LOAD else
      if (sub =? "unload")%string then one IPC_CMD_UNLOAD else
      if (sub =? "list")%string then zero IPC_CMD_LIST else
      if (sub =? "start")%string then one IPC_CMD_START else
      if (sub =? "stop")%string then one IPC_CMD_STOP else
      if (sub =? "shutdown")%string then zero IPC_CMD_SHUTDOWN else
      Usage 2
  end.
