(* ===== verification/IpcSpec.v ===== *)
(** * What the requests do

    Each handler of [IpcServer] as a function on the table of jobs, and the
    conversation between launchctl and launchd. *)

From S2P Require Import Prelude IpcProto JobTable JobInv JobSpec Demo IpcServer.
Local Open Scope c_scope.
Local Open Scope Z_scope.

(** [w'] is reached from [w] with one reply, and the table is [T]. *)
Record answered (w w' : world) (T : gmap string Job) (r : string) : Prop := {
  an_inv : Inv w';
  an_table : table w' = T;
  an_reply : replies w' = replies w ++ [r];
  an_now : now w' = now w;
  an_running : shutting_down w' = shutting_down w;
  an_timers : timers w' ⊆ timers w;
  an_throttle : throttle_value w' = throttle_value w;
}.

Lemma with_reply_inv X q r w : InvG X q w → InvG X q (with_reply r w).
Proof. intros HI. eapply InvG_core; try done. apply (inv_singleton _ _ _ HI). Qed.

(** An operation that leaves the replies alone, and then the reply. *)
Lemma answered_reply w w1 T r :
  Inv w1 → table w1 = T → replies w1 = replies w → now w1 = now w →
  shutting_down w1 = shutting_down w → timers w1 ⊆ timers w →
  throttle_value w1 = throttle_value w → answered w (with_reply r w1) T r.
Proof.
  intros HI HT Hr Hn Hs Ht Hv. split; try done; [by apply with_reply_inv|cbn; by rewrite Hr].
Qed.

Lemma answered_here w r : Inv w → answered w (with_reply r w) (table w) r.
Proof. intros HI. by apply answered_reply. Qed.

(** ** The list buffer *)

Lemma grow_cap_enough fuel c need :
  1 ≤ c → need ≤ c * 2 ^ Z.of_nat fuel → c ≤ grow_cap fuel c need ∧ need ≤ grow_cap fuel c need.
Proof.
  revert c. induction fuel as [|fuel IH]; intros c Hc Hn.
  - cbn in *. lia.
  - cbn [grow_cap]. rewrite Nat2Z.inj_succ, Z.pow_succ_r in Hn by lia.
    destruct (c <? need) eqn:E; [|lia]. pose proof (IH (c * 2) ltac:(lia) ltac:(lia)). lia.
Qed.

(** The text of the buffer has length [len] and, with its NUL, fits [cap]. *)
Definition ctx_ok (c : list_ctx) : Prop :=
  0 ≤ cap c ∧ len c = Z.of_nat (String.length (buf c)) ∧ (cap c = 0 → len c = 0) ∧
  (0 < cap c → len c < cap c).

(** The table is one LIST can show: no line is longer than the line buffer. *)
Definition lines_fit (w : world) : Prop :=
  Z.of_nat (length (jobs_head w)) < 2 ^ 32 ∧
  ∀ j J, heap w !! j = Some J → (String.length (list_line J) ≤ 511)%nat.

Section requests.
Context `{Kernel}.

Lemma list_append_spec J c w :
  ctx_ok c → (String.length (list_line J) ≤ 511)%nat → len c < 2 ^ 60 →
  ∃ c', list_append J c w = Some (c', w) ∧ ctx_ok c' ∧
    len c' ≤ len c + 512 ∧
    ((∀ n, k_malloc (now w) n = true) → buf c' = buf c +:+ list_line J).
Proof.
  intros (Hc0 & Hl & Hz & Hlt) Hn Hb. unfold list_append. erewrite bind_eq by reflexivity.
  set (n := Z.of_nat _). set (need := len c + n + 1).
  set (start := if cap c =? 0 then 1024 else cap c * 2).
  destruct (grow_cap_enough 64 start need) as [Hg1 Hg2].
  { unfold start. destruct (cap c =? 0) eqn:?; lia. }
  { unfold start, need. destruct (cap c =? 0) eqn:?; lia. }
  assert (Hlb : str_take (Z.to_nat n) (line_buffer (list_line J)) = list_line J).
  { unfold line_buffer, n. rewrite Nat2Z.id, (str_take_all 511) by done.
    rewrite str_take_app by done. by apply str_take_all. }
  assert (Hok : ∀ cp, 0 ≤ cp → need ≤ cp → ctx_ok (ListCtx (buf c +:+ list_line J) cp (len c + n))).
  { intros cp ? ?. unfold ctx_ok. cbn [cap len buf]. rewrite str_length_app. lia. }
  destruct (cap c <? need) eqn:Ec; cbn [andb].
  - destruct (k_malloc (now w) _) eqn:Em; cbn [negb].
    + rewrite (proj2 (andb_true_iff _ _)) by (split; lia).
      erewrite bind_eq by reflexivity. eexists. split; [done|]. rewrite Hlb.
      split; [apply Hok; unfold start in *; destruct (cap c =? 0) eqn:?; lia|]. cbn. split; [lia|done].
    + exists c. split; [done|]. split; [done|]. split; [lia|]. intros Hall. by rewrite Hall in Em.
  - rewrite (proj2 (andb_true_iff _ _)) by (split; lia).
    erewrite bind_eq by reflexivity. eexists. split; [done|]. rewrite Hlb.
    split; [apply Hok; lia|]. cbn. split; [lia|done].
Qed.

(** The rows of the jobs at some pointers. *)
Definition list_rows (w : world) (l : list ptr) : string :=
  foldr (λ j s, (default EmptyString (list_line <$> heap w !! j) +:+ s)) EmptyString l.

Lemma list_body_spec w l c :
  (∀ j, j ∈ l → is_Some (heap w !! j)) →
  (∀ j J, heap w !! j = Some J → (String.length (list_line J) ≤ 511)%nat) →
  ctx_ok c → len c + 512 * Z.of_nat (length l) < 2 ^ 60 →
  ∃ c', foreach_from l list_append c w = Some (c', w) ∧ ctx_ok c' ∧
    ((∀ n, k_malloc (now w) n = true) → buf c' = buf c +:+ list_rows w l).
Proof.
  intros Hl Hfit. revert c. induction l as [|j l IH]; intros c Hc Hb; cbn [foreach_from].
  { exists c. split; [done|]. split; [done|]. intros _. by rewrite str_app_nil_r. }
  destruct (Hl j ltac:(left)) as [J HJ]. rewrite (bind_eq _ _ _ _ _ (load_eq _ _ _ HJ)).
  cbn [length] in Hb.
  destruct (list_append_spec J c w Hc (Hfit _ _ HJ) ltac:(lia)) as (c1 & E & Hc1 & Hl1 & Hb1).
  rewrite (bind_eq _ _ _ _ _ E).
  destruct (IH ltac:(intros; apply Hl; by right) c1 Hc1 ltac:(lia)) as (c2 & E2 & Hc2 & Hb2).
  exists c2. split; [done|]. split; [done|]. intros Hall.
  rewrite Hb2, Hb1 by done. cbn [list_rows foldr]. rewrite HJ. cbn. by rewrite str_app_assoc.
Qed.

Lemma list_count_spec w l n :
  (∀ j, j ∈ l → is_Some (heap w !! j)) →
  foreach_from l list_count n w = Some ((n + length l)%nat, w).
Proof.
  revert n. induction l as [|j l IH]; intros n Hl; cbn [foreach_from length]; [by rewrite Nat.add_0_r|].
  destruct (Hl j ltac:(left)) as [J HJ]. rewrite (bind_eq _ _ _ _ _ (load_eq _ _ _ HJ)).
  erewrite bind_eq by reflexivity. rewrite IH by (intros; apply Hl; by right). do 2 f_equal. lia.
Qed.

(** The first line of a LIST reply. *)
Definition list_header (count : nat) : string :=
  "0 " +:+ fmt_d (Z.of_nat count) +:+ " jobs" +:+ newline.

Lemma handle_list_spec w :
  Inv w → lines_fit w →
  ∃ r, handle_list w = Some (tt, with_reply r w) ∧
    ((∃ body, r = list_header (length (jobs_head w)) +:+ body) ∨
     r = reply_text ENOMEM "out of memory") ∧
    ((∀ n, k_malloc (now w) n = true) →
     r = list_header (length (jobs_head w)) +:+ list_rows w (jobs_head w)).
Proof.
  intros HI [Hn Hfit]. unfold handle_list, jobmgr_foreach.
  assert (Hl : ∀ j, j ∈ jobs_head w → is_Some (heap w !! j)) by (intros; by eapply table_allocated).
  assert (Hh : str_take 63 (list_header (length (jobs_head w))) = list_header (length (jobs_head w))).
  { apply str_take_all. unfold list_header, newline. rewrite !str_length_app.
    pose proof (fmt_d_length (Z.of_nat (length (jobs_head w))) 20 ltac:(lia) ltac:(lia)).
    cbn [String.length]. lia. }
  erewrite bind_eq; [|erewrite bind_eq by reflexivity; by apply list_count_spec].
  cbn [Nat.add]. fold (list_header (length (jobs_head w))). rewrite Hh.
  destruct (list_body_spec w (jobs_head w) (ListCtx EmptyString 0 0) Hl Hfit) as (c & E & Hc & Hb);
    [by unfold ctx_ok; cbn|cbn; lia|].
  erewrite bind_eq; [|erewrite bind_eq by reflexivity; exact E].
  erewrite bind_eq by reflexivity.
  destruct (k_malloc (now w) _) eqn:Em; cbn [negb].
  - eexists. split; [done|]. split; [left; eauto|]. intros Hall. by rewrite Hb.
  - eexists. split; [done|]. split; [by right|]. intros Hall. by rewrite Hall in Em.
Qed.

(** A LIST reply is the number of loaded jobs and then one row for each job,
    in table order, with its label, process id and last exit code. *)
Theorem handle_list_reply w :
  Inv w → lines_fit w → (∀ n, k_malloc (now w) n = true) →
  handle_list w = Some (tt, with_reply
    (list_header (length (jobs_head w)) +:+ list_rows w (jobs_head w)) w).
Proof.
  intros HI Hfit Hm. destruct (handle_list_spec w HI Hfit) as (r & -> & _ & Hr). by rewrite Hr.
Qed.

(** What a LOAD request finds at a path. *)
Definition parsed (path : string) (w : world) : option Job :=
  match k_plist (now w) path with
  | Some (PDict d) => let J := plist_job path d in if complete J then Some J else None
  | _ => None
  end.

Definition started_at_load (J : Job) (w : world) : Z * Job :=
  if run_at_load J && negb (disabled J) then spec_spawn J w else (0, J).

Definition spec_load (path : string) (w : world) : gmap string Job * string :=
  match parsed path w with
  | None => (table w, reply_text EINVAL "plist load failed (see launchd log)")
  | Some J =>
      let l := default EmptyString (label J) in
      if decide (is_Some (table w !! l))
      then (table w, reply_text EEXIST (str_take 255 (l +:+ " already loaded")))
      else let '(r, J) := started_at_load J w in
           (<[l := J]> (table w), if r =? 0 then reply_text 0 l else reply_text EIO "spawn failed")
  end.

(** LOAD of a plist adds exactly its job to the table, started when RunAtLoad
    says so; the label of a loaded job is refused with EEXIST and nothing
    changes; an unreadable or incomplete plist is refused with EINVAL. *)
Lemma handle_load_spec w path :
  Inv w → path ≠ EmptyString →
  ∃ w', handle_load (Some path) w = Some (tt, w') ∧
    answered w w' (spec_load path w).1 (spec_load path w).2.
Proof.
  intros HI Hp. unfold handle_load, spec_load, parsed. cbn [missing default from_option id].
  rewrite (proj2 (String.eqb_neq _ _) Hp), (bind_eq_pair _ _ _ _ (load_file_eq w path HI)).
  unfold load_result. destruct (k_plist (now w) path) as [[| | |d|]|];
    try (eexists; split; [done|by apply answered_here]).
  set (J := plist_job path d). destruct (complete J) eqn:Ec; cbn [fst snd];
    [|eexists; split; [done|apply answered_reply; by try apply load_failed_inv]].
  destruct (complete_ok _ Ec) as [[l El] Hrun]. rewrite El. cbn [default from_option id].
  assert (HJ : heap (allocated w J) !! next_ptr w = Some J) by apply lookup_insert_eq.
  pose proof (insert_loaded w path d l HI Ec El) as Hins. fold J in Hins.
  destruct (decide (is_Some (table w !! l))); cbn [fst snd].
  - rewrite (bind_eq _ _ _ _ _ Hins). cbn [negb Z.eqb].
    rewrite (bind_eq _ _ _ _ _ (load_eq _ _ _ HJ)), El.
    erewrite bind_eq by reflexivity. rewrite (bind_eq _ _ _ _ _ (free_eq _ _ _ HJ)).
    eexists. split; [done|].
    apply answered_reply; [by apply discarded_inv|by apply table_discarded|done..].
  - destruct Hins as (Ei & HI2 & HT). rewrite (bind_eq _ _ _ _ _ Ei). cbn [negb Z.eqb].
    set (w2 := with_jobs_head _ _) in *.
    assert (HJ2 : heap w2 !! next_ptr w = Some J) by done.
    rewrite (bind_eq _ _ _ _ _ (load_eq _ _ _ HJ2)). unfold started_at_load.
    destruct (run_at_load J && negb (disabled J)).
    + rewrite (bind_eq_pair _ _ _ _ (spawn_eq _ _ _ HJ2 Hrun)).
      destruct (table_spawn _ _ _ _ _ HI2 ltac:(left) HJ2 El) as [Er HT2].
      destruct (spawn_frame (next_ptr w) J w2) as (Hr & Hsd & Hn & Ht & _ & _ & Hv).
      destruct (spawn_label _ _ w2 _ HJ2 El) as (J3 & HJ3 & El3).
      pose proof (spawn_inv _ _ _ _ HI2 HJ2) as HI3. apply (reflexive_eq (R:=(⊆))) in Ht. rewrite Er.
      change (spec_spawn J w2) with (spec_spawn J w) in *. rewrite HT, insert_insert_eq in HT2.
      destruct (spec_spawn J w) as [r J']. cbn [fst snd] in *.
      destruct (r =? 0); cbn [negb]; [|eexists; split; [done|by apply answered_reply]].
      rewrite (bind_eq _ _ _ _ _ (load_eq _ _ _ HJ3)), El3.
      eexists. split; [done|by apply answered_reply].
    + erewrite bind_eq by reflexivity. cbn [negb Z.eqb].
      rewrite (bind_eq _ _ _ _ _ (load_eq _ _ _ HJ2)), El.
      eexists. split; [done|by apply answered_reply].
Qed.

Definition spec_unload_reply (l : string) (w : world) : gmap string Job * string :=
  match table w !! l with
  | None => (table w, reply_text ENOENT "no such job")
  | Some J => (spec_unload l J (table w), reply_text 0 l)
  end.

(** UNLOAD of a label removes its job from the table at once unless it is
    running; a running job stays, marked for removal and stopping, with its
    restart timer cancelled; no other job changes. *)
Lemma handle_unload_spec w l :
  Inv w → l ≠ EmptyString →
  ∃ w', handle_unload (Some l) w = Some (tt, w') ∧ children w' = children w ∧
    answered w w' (spec_unload_reply l w).1 (spec_unload_reply l w).2.
Proof.
  intros HI Hl. unfold handle_unload, spec_unload_reply. cbn [missing default from_option id].
  rewrite (proj2 (String.eqb_neq _ _) Hl). pose proof (unload_table w l HI) as Hu.
  destruct (table w !! l) as [J|]; cbn [fst snd].
  - destruct Hu as (w1 & E & HI1 & HT & Hc & Hr & Hn & Hs & Ht & Hv). rewrite (bind_eq _ _ _ _ _ E).
    eexists. do 2 (split; [done|]). by apply answered_reply.
  - rewrite (bind_eq _ _ _ _ _ Hu). eexists. do 2 (split; [done|]). by apply answered_here.
Qed.

Definition spec_start (l : string) (w : world) : gmap string Job * string :=
  match table w !! l with
  | None => (table w, reply_text ENOENT "no such job")
  | Some J =>
      if bool_decide (state J = JOB_STATE_RUNNING)
      then (table w, reply_text EALREADY "already running")
      else let '(r, J) := spec_spawn J w in
           (<[l := J]> (table w), if r =? 0 then reply_text 0 l else reply_text EIO "spawn failed")
  end.

(** START of a label spawns its job, unless it is already running, disabled
    (which is not an error) or the spawn fails; no other job changes. *)
Lemma handle_start_spec w l :
  Inv w → l ≠ EmptyString →
  ∃ w', handle_start (Some l) w = Some (tt, w') ∧
    answered w w' (spec_start l w).1 (spec_start l w).2.
Proof.
  intros HI Hl. unfold handle_start, spec_start. cbn [missing default from_option id].
  rewrite (proj2 (String.eqb_neq _ _) Hl). pose proof (find_table _ _ _ l HI) as Hf.
  destruct (table w !! l) as [J|]; cbn [fst snd].
  2:{ rewrite (bind_eq _ _ _ _ _ Hf). eexists. split; [done|]. by apply answered_here. }
  destruct Hf as (j & E & Hj & HJ & El). rewrite (bind_eq _ _ _ _ _ E).
  rewrite (bind_eq _ _ _ _ _ (load_eq _ _ _ HJ)).
  destruct (bool_decide _); [eexists; split; [done|by apply answered_here]|].
  rewrite (bind_eq_pair _ _ _ _ (spawn_eq _ _ _ HJ (inv_runnable _ _ _ _ _ HI HJ))).
  destruct (table_spawn _ _ _ _ _ HI Hj HJ El) as [-> HT].
  destruct (spawn_frame j J w) as (Hr & Hs & Hn & Ht & _ & _ & Hv).
  pose proof (spawn_inv _ _ _ _ HI HJ) as HI1. apply (reflexive_eq (R:=(⊆))) in Ht.
  destruct (spec_spawn J w) as [r J']. cbn [fst snd] in *.
  destruct (r =? 0); cbn [negb]; eexists; (split; [done|by apply answered_reply]).
Qed.

Definition spec_stop (l : string) (w : world) : gmap string Job * string :=
  match table w !! l with
  | None => (table w, reply_text ENOENT "no such job")
  | Some J =>
      if bool_decide (state J = JOB_STATE_RUNNING)
      then let e := k_kill (now w) (job_p J) in
           if e =? 0 then (<[l := stopping J]> (table w), reply_text 0 l)
           else (table w, reply_text e (k_strerror e))
      else (table w, reply_text ESRCH "not running")
  end.

(** STOP of a label signals its job if it is running and marks it stopping;
    a job that is not running is refused with ESRCH and a failed kill is
    reported; no other job changes. *)
Lemma handle_stop_spec w l :
  Inv w → l ≠ EmptyString →
  ∃ w', handle_stop (Some l) w = Some (tt, w') ∧ children w' = children w ∧
    answered w w' (spec_stop l w).1 (spec_stop l w).2.
Proof.
  intros HI Hl. unfold handle_stop, spec_stop. cbn [missing default from_option id].
  rewrite (proj2 (String.eqb_neq _ _) Hl). pose proof (find_table _ _ _ l HI) as Hf.
  destruct (table w !! l) as [J|]; cbn [fst snd].
  2:{ rewrite (bind_eq _ _ _ _ _ Hf). eexists. do 2 (split; [done|]). by apply answered_here. }
  destruct Hf as (j & E & Hj & HJ & El). rewrite (bind_eq _ _ _ _ _ E).
  rewrite (bind_eq _ _ _ _ _ (load_eq _ _ _ HJ)).
  destruct (inv_jobs _ _ _ HI _ _ HJ) as [_ _ Hst Hpe].
  destruct (bool_decide _) eqn:Er; cbn [negb orb].
  2:{ eexists. do 2 (split; [done|]). by apply answered_here. }
  apply bool_decide_eq_true in Er. unfold state_ok in Hst. rewrite Er in Hst.
  rewrite (proj2 (Z.leb_gt _ _)) by lia. erewrite bind_eq by reflexivity.
  destruct (k_kill (now w) (job_p J) =? 0); cbn [negb fst snd].
  2:{ eexists. do 2 (split; [done|]). by apply answered_here. }
  rewrite (bind_eq _ _ _ _ _ (store_eq _ _ _ _ HJ)).
  assert (HI1 : Inv (with_heap (<[j := stopping J]> (heap w)) w)).
  { eapply inv_store; try done; cbn.
    - by left.
    - intros t. split.
      + intros [d Hd]. destruct (inv_timer_job _ _ _ HI _ _ _ Hd) as (J' & ? & ?). congruence.
      + by apply (inv_job_timer _ _ _ HI).
    - intros t Ht. apply (inv_next_timer _ _ _ HI).
      destruct (inv_job_timer _ _ _ HI _ _ _ HJ Ht) as [d Hd]. eauto. }
  eexists. do 2 (split; [done|]). apply answered_reply; try done. by eapply table_store.
Qed.

(** ** Every request is answered once *)

(** A reply that starts with the decimal [e] and a space. *)
Definition says (r : string) (e : Z) : Prop := ∃ rest, r = fmt_d e +:+ " " +:+ rest.

Lemma reply_text_says e msg : - 2 ^ 31 ≤ e < 2 ^ 31 → says (reply_text e msg) e.
Proof.
  intros He. unfold says, reply_text.
  pose proof (fmt_d_length e 10 ltac:(lia) ltac:(lia)) as Hl.
  rewrite str_take_app_r by lia.
  destruct (1023 - String.length (fmt_d e))%nat as [|n] eqn:En; [lia|].
  rewrite (str_take_app_r (S n)) by (cbn; lia). cbn [String.length].
  eexists. reflexivity.
Qed.

Lemma says_length_reply e msg : (String.length (reply_text e msg) ≤ 1023)%nat.
Proof. unfold reply_text. rewrite str_length_take. lia. Qed.

(** What every request leaves behind. *)
Definition replied (w w' : world) : Prop :=
  Inv w' ∧ now w' = now w ∧
  ∃ r e, replies w' = replies w ++ [r] ∧ says r e ∧ - 2 ^ 31 ≤ e < 2 ^ 31.

Lemma replied_text w w1 e msg :
  Inv w1 → replies w1 = replies w → now w1 = now w → - 2 ^ 31 ≤ e < 2 ^ 31 →
  replied w (with_reply (reply_text e msg) w1).
Proof.
  intros HI Hr Hn He. split; [by apply with_reply_inv|]. split; [done|].
  eexists _, e. split; [cbn; by rewrite Hr|]. by split; [apply reply_text_says|].
Qed.

Lemma replied_answered w w' T e msg :
  answered w w' T (reply_text e msg) → - 2 ^ 31 ≤ e < 2 ^ 31 → replied w w'.
Proof. intros [? _ ? ? _ _ _] ?. unfold replied. eauto 10 using reply_text_says. Qed.

Lemma spec_load_says path w :
  ∃ e msg, (spec_load path w).2 = reply_text e msg ∧ - 2 ^ 31 ≤ e < 2 ^ 31.
Proof.
  unfold spec_load. destruct (parsed path w) as [J|]; [|by eexists _, _].
  destruct (decide _); [by eexists _, _|]. destruct (started_at_load J w) as [r J'].
  cbn [snd]. destruct (r =? 0); by eexists _, _.
Qed.

Lemma spec_start_says l w :
  ∃ e msg, (spec_start l w).2 = reply_text e msg ∧ - 2 ^ 31 ≤ e < 2 ^ 31.
Proof.
  unfold spec_start. destruct (table w !! l) as [J|]; [|by eexists _, _].
  destruct (bool_decide _); [by eexists _, _|]. destruct (spec_spawn J w) as [r J'].
  cbn [snd]. destruct (r =? 0); by eexists _, _.
Qed.

Lemma spec_stop_says l w :
  ∃ e msg, (spec_stop l w).2 = reply_text e msg ∧ - 2 ^ 31 ≤ e < 2 ^ 31.
Proof.
  unfold spec_stop. destruct (table w !! l) as [J|]; [|by eexists _, _].
  destruct (bool_decide _); [|by eexists _, _].
  pose proof (k_kill_errno (now w) (job_p J)). destruct (_ =? 0); eexists _, _; (split; [reflexivity|lia]).
Qed.

Lemma spec_unload_says l w :
  ∃ e msg, (spec_unload_reply l w).2 = reply_text e msg ∧ - 2 ^ 31 ≤ e < 2 ^ 31.
Proof. unfold spec_unload_reply. destruct (table w !! l); by eexists _, _. Qed.

Lemma missing_spec (arg : option string) :
  (missing arg = true) ∨ ∃ s, arg = Some s ∧ s ≠ EmptyString.
Proof.
  destruct arg as [s|]; [|by left]. cbn. destruct (s =? EmptyString)%string eqn:E; [by left|].
  right. exists s. split; [done|]. by apply String.eqb_neq.
Qed.

Lemma handle_list_replied w :
  Inv w → lines_fit w → ∃ w', handle_list w = Some (tt, w') ∧ replied w w'.
Proof.
  intros HI Hfit. destruct (handle_list_spec w HI Hfit) as (r & -> & Hr & _).
  eexists. split; [done|]. destruct Hr as [[body ->]| ->]; [|by apply replied_text].
  split; [by apply with_reply_inv|]. split; [done|]. eexists _, 0. split; [done|]. split; [|done].
  unfold list_header. exists (fmt_d (Z.of_nat (length (jobs_head w))) +:+ " jobs" +:+ newline +:+ body).
  change (fmt_d 0 +:+ " " +:+ ?x) with ("0 " +:+ x). by rewrite !str_app_assoc.
Qed.

(** The table and the reply every request but LIST leaves. *)
Definition with_arg (arg : option string) (what : string)
    (spec : string → world → gmap string Job * string) (w : world) : gmap string Job * string :=
  match arg with
  | Some s => if decide (s = EmptyString) then (table w, reply_text EINVAL what) else spec s w
  | None => (table w, reply_text EINVAL what)
  end.

Definition spec_request (c : Z) (arg : option string) (w : world) : gmap string Job * string :=
  if c =? IPC_CMD_LOAD then with_arg arg "missing plist path" spec_load w else
  if c =? IPC_CMD_UNLOAD then with_arg arg "missing label" spec_unload_reply w else
  if c =? IPC_CMD_START then with_arg arg "missing label" spec_start w else
  if c =? IPC_CMD_STOP then with_arg arg "missing label" spec_stop w else
  if c =? IPC_CMD_SHUTDOWN then (table w, reply_text 0 "shutting down") else
  (table w, reply_text EINVAL "unknown command").

Lemma handler_answers (f : option string → C world unit) spec what w arg :
  Inv w → (∀ a, missing a = true → f a = send_reply EINVAL what) →
  (∀ s, s ≠ EmptyString → ∃ w', f (Some s) w = Some (tt, w') ∧
     answered w w' (spec s w).1 (spec s w).2) →
  ∃ w', f arg w = Some (tt, w') ∧
    answered w w' (with_arg arg what spec w).1 (with_arg arg what spec w).2.
Proof.
  intros HI Hm Hf. destruct arg as [s|]; cbn [with_arg].
  - destruct (decide (s = EmptyString)) as [->|Hne]; [|by apply Hf].
    rewrite Hm by done. eexists. split; [done|by apply answered_here].
  - rewrite Hm by done. eexists. split; [done|by apply answered_here].
Qed.

Lemma dispatch_answers w hdr payload :
  Inv w → cmd hdr ≠ IPC_CMD_LIST → cmd hdr ≠ IPC_CMD_SHUTDOWN →
  ∃ w', dispatch_msg hdr payload w = Some (tt, w') ∧
    answered w w' (spec_request (cmd hdr) (c_string <$> payload) w).1
                  (spec_request (cmd hdr) (c_string <$> payload) w).2.
Proof.
  intros HI Hnl Hns. unfold dispatch_msg, spec_request. set (arg := c_string <$> payload).
  rewrite (proj2 (Z.eqb_neq _ _) Hnl), (proj2 (Z.eqb_neq _ _) Hns).
  destruct (cmd hdr =? IPC_CMD_LOAD).
  { apply handler_answers; [done| |by intros; apply handle_load_spec].
    intros a Hm. unfold handle_load. by rewrite Hm. }
  destruct (cmd hdr =? IPC_CMD_UNLOAD).
  { apply handler_answers; [done| |].
    - intros a Hm. unfold handle_unload. by rewrite Hm.
    - intros s Hs. destruct (handle_unload_spec w s HI Hs) as (w' & ? & _ & ?). eauto. }
  destruct (cmd hdr =? IPC_CMD_START).
  { apply handler_answers; [done| |by intros; apply handle_start_spec].
    intros a Hm. unfold handle_start. by rewrite Hm. }
  destruct (cmd hdr =? IPC_CMD_STOP).
  { apply handler_answers; [done| |].
    - intros a Hm. unfold handle_stop. by rewrite Hm.
    - intros s Hs. destruct (handle_stop_spec w s HI Hs) as (w' & ? & _ & ?). eauto. }
  eexists. split; [done|by apply answered_here].
Qed.

Lemma shutdown_answers w :
  Inv w → ∃ w', handle_shutdown w = Some (tt, w') ∧
    answered (with_shutting_down w) w' (table w) (reply_text 0 "shutting down").
Proof.
  intros HI. eexists. split; [done|]. split; try done.
  apply (InvG_core None None w); try done. apply (inv_singleton _ _ _ HI).
Qed.

(** C5: a request is a function of its command, its argument and the table of
    jobs.  LOAD adds exactly the job of its plist, started when RunAtLoad says so,
    and refuses a label already loaded (EEXIST) or a plist it cannot use (EINVAL);
    UNLOAD removes a job that is not running and marks a running one stopping and
    pending, its restart timer cancelled; START spawns a job that is not running;
    STOP signals a running job and marks it stopping; unknown labels are refused
    with ENOENT; no other job changes; there is exactly one reply; and only
    SHUTDOWN stops the daemon. *)
Theorem dispatch_refines w hdr payload :
  Inv w → cmd hdr ≠ IPC_CMD_LIST →
  ∃ w', dispatch_msg hdr payload w = Some (tt, w') ∧
    answered (if cmd hdr =? IPC_CMD_SHUTDOWN then with_shutting_down w else w) w'
      (spec_request (cmd hdr) (c_string <$> payload) w).1
      (spec_request (cmd hdr) (c_string <$> payload) w).2.
Proof.
  intros HI Hnl. destruct (cmd hdr =? IPC_CMD_SHUTDOWN) eqn:E;
    [|apply dispatch_answers; [done|done|lia]].
  destruct (shutdown_answers w HI) as (w' & Ew & Ha). exists w'.
  apply Z.eqb_eq in E. unfold dispatch_msg, spec_request. rewrite E. by split.
Qed.

Lemma spec_request_says c arg w :
  ∃ e msg, (spec_request c arg w).2 = reply_text e msg ∧ - 2 ^ 31 ≤ e < 2 ^ 31.
Proof.
  assert (Hw : ∀ what spec, (∀ s, ∃ e msg, (spec s w).2 = reply_text e msg ∧ - 2 ^ 31 ≤ e < 2 ^ 31) →
    ∃ e msg, (with_arg arg what spec w).2 = reply_text e msg ∧ - 2 ^ 31 ≤ e < 2 ^ 31).
  { intros what spec Hs. destruct arg as [s|]; cbn [with_arg]; [|by eexists _, _].
    destruct (decide _); [by eexists _, _|apply Hs]. }
  unfold spec_request. repeat (destruct (c =? _); [try (apply Hw; intros s)|]);
    auto using spec_load_says, spec_unload_says, spec_start_says, spec_stop_says; by eexists _, _.
Qed.

(** Every request is answered with exactly one reply, which starts with an errno,
    and no request makes the server touch freed memory or breaks the table; LIST
    needs the labels to fit its line buffer. *)
Lemma dispatch_replies_once w hdr payload :
  Inv w → (cmd hdr = IPC_CMD_LIST → lines_fit w) →
  ∃ w', dispatch_msg hdr payload w = Some (tt, w') ∧ replied w w'.
Proof.
  intros HI Hfit. destruct (decide (cmd hdr = IPC_CMD_LIST)) as [El|Hnl].
  { destruct (handle_list_replied w HI (Hfit El)) as (w' & E & Hr). exists w'.
    unfold dispatch_msg. rewrite El. by split. }
  destruct (decide (cmd hdr = IPC_CMD_SHUTDOWN)) as [Es|Hns].
  { destruct (shutdown_answers w HI) as (w' & E & Ha). exists w'.
    unfold dispatch_msg. rewrite Es. split; [exact E|]. by apply replied_answered in Ha. }
  destruct (dispatch_answers w hdr payload HI Hnl Hns) as (w' & -> & Ha). exists w'. split; [done|].
  destruct (spec_request_says (cmd hdr) (c_string <$> payload) w) as (e & msg & Er & He).
  rewrite Er in Ha. by eapply replied_answered.
Qed.

(** ** What a connection does, when it returns *)

Lemma dispatch_list hdr p : cmd hdr = IPC_CMD_LIST → dispatch_msg hdr p = handle_list.
Proof. intros E. unfold dispatch_msg. by rewrite E. Qed.

Lemma dispatch_shutdown hdr p : cmd hdr = IPC_CMD_SHUTDOWN → dispatch_msg hdr p = handle_shutdown.
Proof. intros E. unfold dispatch_msg. by rewrite E. Qed.

Lemma list_append_state J c w c' w' : list_append J c w = Some (c', w') → w' = w.
Proof.
  unfold list_append. erewrite bind_eq by reflexivity.
  generalize (grow_cap 64). intros grow. cbv zeta.
  destruct (_ && _); [by intros [= _ <-]|]. unfold c_assert.
  destruct (_ && _); [|done]. intros E. by injection E as _ <-.
Qed.

Lemma foreach_state {Ctx} (fn : Job → Ctx → C world Ctx) l c w c' w' :
  (∀ J c w c' w', fn J c w = Some (c', w') → w' = w) →
  foreach_from l fn c w = Some (c', w') → w' = w.
Proof.
  intros Hfn. revert c. induction l as [|j l IH]; intros c; cbn [foreach_from]; [by intros [= _ ->]|].
  intros (J & w1 & E & (c1 & w2 & E1 & E2)%bind_inv)%bind_inv.
  unfold load in E. apply bind_inv in E as (h & w0 & E & E0). injection E as <- <-.
  destruct (heap w !! j); [|done]. injection E0 as <- <-.
  apply Hfn in E1 as ->. by apply IH in E2.
Qed.

Lemma handle_list_state w w' : handle_list w = Some (tt, w') → ∃ r, w' = with_reply r w.
Proof.
  unfold handle_list, jobmgr_foreach. intros (n & w1 & E & (c & w2 & E2 & E3)%bind_inv)%bind_inv.
  apply bind_inv in E as (l & w0 & E0 & E). injection E0 as <- <-.
  apply foreach_state in E as ->; [|by intros ????? [= _ ->]].
  apply bind_inv in E2 as (l & w0 & E0 & E2). injection E0 as <- <-.
  apply foreach_state in E2 as ->; [|apply list_append_state].
  apply bind_inv in E3 as (t & w3 & E0 & E3). injection E0 as <- <-.
  destruct (negb _) in E3; injection E3 as <-; eauto.
Qed.

(** The request a connection carries. *)
Definition request_of (s : sock) : option (Z * option string) :=
  match ipc_recv s with
  | Returns (r, hdr, payload, _) => if r =? 0 then Some (cmd hdr, c_string <$> payload) else None
  | Blocks => None
  end.

Definition spec_connection (s : sock) (w : world) : gmap string Job :=
  match request_of s with
  | Some (c, arg) => if c =? IPC_CMD_LIST then table w else (spec_request c arg w).1
  | None => table w
  end.

Record handled (w w' : world) (T : gmap string Job) : Prop := {
  ha_inv : Inv w';
  ha_table : table w' = T;
  ha_now : now w' = now w;
  ha_timers : timers w' ⊆ timers w;
  ha_throttle : throttle_value w' = throttle_value w;
}.

Lemma handled_reply w r : Inv w → handled w (with_reply r w) (table w).
Proof. intros HI. split; try done. by apply with_reply_inv. Qed.

Lemma handled_answered w w' T r : answered w w' T r → handled w w' T.
Proof. intros []. by split. Qed.

Lemma handled_here w : Inv w → handled w w (table w).
Proof. by split. Qed.

Lemma ipc_recv_code s r hdr payload s' :
  ipc_recv s = Returns (r, hdr, payload, s') → r = 0 ∨ r = -1 ∨ r = -2.
Proof.
  unfold ipc_recv. destruct (read_all s _) as [|[[r0 hb] s1]] eqn:E; [done|].
  assert (r0 = 0 ∨ r0 = -1 ∨ r0 = -2) as Hr0.
  { unfold read_all in E. destruct (read_loop _ _ _ _ _) as [|[rr [[[? ?] ?] ?]]] eqn:El; [done|].
    injection E as <- _ _. by apply read_loop_code in El. }
  repeat case_match; naive_solver.
Qed.

Lemma connection_effect s w o w' :
  Inv w → handle_connection s w = Some (o, w') → handled w w' (spec_connection s w).
Proof.
  intros HI. unfold handle_connection, spec_connection, request_of.
  destruct (ipc_recv s) as [|[[[r hdr] payload] s1]] eqn:Er.
  { intros [= _ <-]. by apply handled_here. }
  intros Hc. erewrite bind_eq in Hc by reflexivity.
  apply bind_inv in Hc as ([] & w1 & Ec & E1). injection E1 as _ ->.
  destruct (ipc_recv_code _ _ _ _ _ Er) as [->|[->| ->]]; cbn [Z.eqb Z.ltb Z.compare] in *.
  - destruct (cmd hdr =? IPC_CMD_LIST) eqn:El.
    + rewrite dispatch_list in Ec by lia.
      destruct (handle_list_state _ _ Ec) as [r' ->]. by apply handled_reply.
    + destruct (decide (cmd hdr = IPC_CMD_SHUTDOWN)) as [Es|Hns].
      * destruct (shutdown_answers w HI) as (w2 & E2 & Ha). rewrite dispatch_shutdown in Ec by done.
        rewrite Es. assert (w' = w2) as -> by congruence.
        apply handled_answered in Ha. destruct Ha. by split.
      * destruct (dispatch_answers w hdr payload HI ltac:(lia) Hns) as (w2 & E2 & Ha).
        assert (w' = w2) as -> by congruence. by eapply handled_answered.
  - injection Ec as <-. by apply handled_reply.
  - injection Ec as <-. by apply handled_here.
Qed.

Definition asks_list (s : sock) : Prop := ∃ arg, request_of s = Some (IPC_CMD_LIST, arg).

(** A connection never crashes the daemon while LIST fits its line buffer. *)
Lemma connection_total s w :
  Inv w → (asks_list s → lines_fit w) → ∃ o w', handle_connection s w = Some (o, w').
Proof.
  intros HI Hfit. unfold handle_connection, asks_list, request_of in *.
  destruct (ipc_recv s) as [|[[[r hdr] payload] s1]] eqn:Er; [by eauto|].
  erewrite bind_eq by reflexivity.
  destruct (ipc_recv_code _ _ _ _ _ Er) as [->|[->| ->]]; cbn [Z.eqb Z.ltb Z.compare] in *;
    [|by erewrite bind_eq by reflexivity; eauto..].
  destruct (dispatch_replies_once w hdr payload HI) as (w' & E & _);
    [intros El; apply Hfit; rewrite El; eauto|].
  rewrite (bind_eq _ _ _ _ _ E). by eauto.
Qed.

(** A row that is too long for the line buffer and its NUL: the copy reads beyond it. *)
Lemma list_append_long J c w :
  (512 < String.length (list_line J))%nat → (∀ n, k_malloc (now w) n = true) → list_append J c w = None.
Proof.
  intros Hn Hm. unfold list_append. erewrite bind_eq by reflexivity. rewrite Hm. cbn [negb].
  rewrite andb_false_r. rewrite (proj2 (Z.leb_gt _ 512)) by lia. done.
Qed.

Lemma list_body_long w l j J c :
  j ∈ l → heap w !! j = Some J → (512 < String.length (list_line J))%nat →
  (∀ n, k_malloc (now w) n = true) → foreach_from l list_append c w = None.
Proof.
  intros Hj HJ Hn Hm. revert c. induction l as [|i l IH]; intros c; [by apply elem_of_nil in Hj|].
  cbn [foreach_from]. destruct (decide (j = i)) as [<-|Hne].
  { rewrite (bind_eq _ _ _ _ _ (load_eq _ _ _ HJ)). unfold bind. by rewrite list_append_long. }
  apply elem_of_cons in Hj as [?|Hj]; [done|]. unfold bind.
  destruct (load i w) as [[K w1]|] eqn:El; [|done].
  assert (w1 = w) as ->.
  { unfold load, bind, gets, deref in El. destruct (heap w !! i); [|done]. by injection El. }
  destruct (list_append K c w) as [[c1 w1]|] eqn:Ea; [|done].
  apply list_append_state in Ea as ->. by apply IH.
Qed.

(** LIST crashes the daemon if the row of a loaded job, that is in effect its label, is
    too long for the line buffer. *)
Theorem list_long_row_crashes w s j J :
  Inv w → asks_list s → j ∈ jobs_head w → heap w !! j = Some J →
  (512 < String.length (list_line J))%nat → (∀ n, k_malloc (now w) n = true) →
  handle_connection s w = None.
Proof.
  intros HI (arg & Hs) Hj HJ Hn Hm. unfold handle_connection, request_of in *.
  destruct (ipc_recv s) as [|[[[r hdr] payload] s1]]; [done|].
  destruct (r =? 0) eqn:Er; [|done]. apply Z.eqb_eq in Er as ->. injection Hs as Hc _.
  erewrite bind_eq by reflexivity. cbn [Z.eqb Z.ltb Z.compare]. rewrite dispatch_list by done.
  unfold bind at 1, handle_list, jobmgr_foreach.
  erewrite bind_eq; [|erewrite bind_eq by reflexivity; apply list_count_spec; intros; by eapply table_allocated].
  unfold bind at 1 2. unfold gets at 1. by rewrite (list_body_long w _ j J).
Qed.

(** ** The conversation *)

Lemma c_string_trunc s rest :
  c_string (String.list_byte_of_string s ++ x00 :: rest) = c_trunc s.
Proof.
  induction s as [|a s IH]; [done|]. unfold String.list_byte_of_string in *.
  cbn [String.list_ascii_of_string map app c_trunc].
  pose proof (ascii_of_byte_of_ascii a) as Hab. cbn [c_string].
  destruct (Ascii.eqb_spec a zero) as [->|Hne]; [done|].
  destruct (byte_of_ascii a) eqn:Ea; cbn [c_string]; rewrite ?IH;
    first [by rewrite <-Hab | by destruct Hne].
Qed.

Lemma c_trunc_app s t : no_nul s → c_trunc (s +:+ t) = s +:+ c_trunc t.
Proof.
  induction s as [|a s IH]; [done|]. rewrite !str_app_cons. cbn [no_nul c_trunc].
  intros [Ha Hs]%andb_prop_elim. destruct (Ascii.eqb a zero); [done|]. by rewrite IH.
Qed.

Lemma no_nul_fmt_d z : no_nul (fmt_d z).
Proof.
  assert (Hgo : ∀ x t, no_nul t → no_nul (pretty_N_go x t)).
  { intros x. induction (N.lt_wf_0 x) as [x _ IH]; intros t Ht.
    assert (x = 0 ∨ 0 < x)%N as [->|Hx] by lia; [done|]. rewrite pretty_N_go_step by done.
    apply IH; [by apply N.div_lt|]. cbn. apply andb_prop_intro. split; [|done].
    by unfold pretty_N_char; repeat case_match. }
  unfold fmt_d, pretty, pretty_Z, pretty, pretty_positive, pretty, pretty_N.
  destruct z as [|p|p]; [done|rewrite decide_False by done; by apply Hgo|].
  rewrite decide_False by done. rewrite str_app_cons. cbn. by apply Hgo.
Qed.

(** launchctl reads back the errno the reply starts with. *)
Lemma reply_status_says r e :
  says r e → - 2 ^ 31 ≤ e < 2 ^ 31 →
  reply_status (Some (String.list_byte_of_string r ++ [x00])) = e.
Proof.
  intros [rest ->] He. unfold reply_status. rewrite c_string_trunc.
  rewrite c_trunc_app by apply no_nul_fmt_d. rewrite c_trunc_app by done.
  rewrite strtol10_fmt_d; [|unfold LONG_MIN, LONG_MAX; lia|done]. cbn [fst].
  unfold i32. rewrite Z.mod_small by lia. lia.
Qed.

Lemma do_cmd_recv_says k r e tail m :
  says r e → - 2 ^ 31 ≤ e < 2 ^ 31 → Z.of_nat (String.length r) ≤ IPC_MAX_PAYLOAD →
  will_read k (sizeof_ipc_msg_hdr + String.length r + m) → malloc_ok k →
  rx k = frame IPC_CMD_REPLY (String.list_byte_of_string r) ++ tail →
  do_cmd_recv k = Returns (c_trunc r, if e =? 0 then 0 else 1).
Proof.
  intros Hs He Hlen Hr Hm Hrx. unfold do_cmd_recv.
  rewrite <-length_bytes in Hlen, Hr.
  destruct (ipc_recv_ok k _ _ _ m Hlen Hr Hm Hrx) as (k' & -> & _). cbn [negb Z.eqb cmd request_hdr].
  assert (Hrec : received (String.list_byte_of_string r) =
    Some (String.list_byte_of_string r ++ [x00])).
  { destruct Hs as [rest ->]. pose proof (fmt_d_length e 10 ltac:(lia) ltac:(lia)).
    by destruct (fmt_d e). }
  rewrite Hrec, (reply_status_says r e) by done. cbn [fmap option_fmap option_map default from_option id].
  by rewrite c_string_trunc.
Qed.

Definition payload_bytes (payload : option string) : list byte :=
  default [] (String.list_byte_of_string <$> payload).

(** C35: a whole launchctl command. For every command and argument of at most the maximal
    size (LIST: while no row of the list is longer than its buffer) the client sends its
    request, the server answers it with one reply [r] that names an errno [e], and, if the
    reply is not longer than the maximal size either, the client prints it up to its first
    NUL and exits with 0 exactly when [e] is 0, and with 1 otherwise, whichever errno it
    is, however the kernel fragments the transfers, as long as it goes on to deliver and
    memory can be had. *)
Theorem conversation w c payload :
  Inv w → (u32 c = IPC_CMD_LIST → lines_fit w) →
  Z.of_nat (length (payload_bytes payload)) ≤ IPC_MAX_PAYLOAD →
  ∃ w' r e,
    dispatch_msg (request_hdr c (payload_bytes payload)) (received (payload_bytes payload)) w =
      Some (tt, w') ∧
    replies w' = replies w ++ [r] ∧ Inv w' ∧ says r e ∧
    ∀ cli, tx cli = [] → will_write cli (sizeof_ipc_msg_hdr + length (payload_bytes payload)) →
    ∃ cli1, do_cmd_send c payload cli = Returns (0, cli1) ∧
    ∀ srv, rx srv = tx cli1 → tx srv = [] → malloc_ok srv →
      will_read srv (sizeof_ipc_msg_hdr + length (payload_bytes payload)) →
      Z.of_nat (String.length r) ≤ IPC_MAX_PAYLOAD →
      will_write srv (sizeof_ipc_msg_hdr + String.length r) →
    ∃ srv1, handle_connection srv w = Some (Returns srv1, w') ∧
    ∀ k, rx k = tx srv1 → malloc_ok k → will_read k (sizeof_ipc_msg_hdr + String.length r) →
      do_cmd_recv k = Returns (c_trunc r, if e =? 0 then 0 else 1).
Proof.
  intros HI Hfit Hlen. set (p := payload_bytes payload) in *.
  destruct (dispatch_replies_once w (request_hdr c p) (received p) HI Hfit)
    as (w' & Ed & HI' & Hn & r & e & Hr & Hs & He).
  exists w', r, e. do 4 (split; [done|]). intros cli Htx Hw.
  rewrite <-(Nat.add_0_r (_ + _)) in Hw.
  destruct (ipc_send_ok cli c p 0 Hlen Hw) as (cli1 & Es & Ht & _). exists cli1.
  split; [exact Es|]. intros srv Hrx Htx' Hm Hrd Hrl Hwr.
  rewrite Htx, app_nil_l in Ht. rewrite Ht in Hrx. rewrite <-(app_nil_r (frame _ _)) in Hrx.
  rewrite <-(Nat.add_0_r (_ + _)) in Hrd. rewrite <-(Nat.add_0_r (_ + _)) in Hwr.
  destruct (ipc_recv_ok srv c p [] 0 Hlen Hrd Hm Hrx) as (srv' & Er & _ & Htx1 & Hws).
  assert (Hbl : length (String.list_byte_of_string r) = String.length r) by apply length_bytes.
  rewrite <-Hbl in Hrl, Hwr.
  assert (Hwr' : will_write srv' (sizeof_ipc_msg_hdr + length (String.list_byte_of_string r) + 0))
    by (unfold will_write in *; by rewrite Hws).
  destruct (ipc_send_ok srv' IPC_CMD_REPLY _ 0 Hrl Hwr') as (srv1 & Es1 & Ht1 & _).
  exists srv1. split.
  - unfold handle_connection. rewrite Er. erewrite bind_eq by reflexivity. cbn [Z.eqb Z.ltb Z.compare].
    rewrite (bind_eq _ _ _ _ _ Ed). erewrite bind_eq by reflexivity.
    rewrite Hr, drop_app_length. cbn [send_payloads]. by rewrite Es1.
  - intros k Hk Hmk Hrk. rewrite Ht1, Htx1, Htx', app_nil_l in Hk.
    rewrite <-(app_nil_r (frame _ _)) in Hk. rewrite <-(Nat.add_0_r (_ + _)) in Hrk.
    rewrite Hbl in Hrl. eapply do_cmd_recv_says; try done.
Qed.

End requests.

(** ** Witnesses *)

(** The demo machine after loading both of its jobs. *)
Definition demo_loaded : world :=
  run (handle_load (Some "/a.plist") ;; handle_load (Some "/b.plist"))%string (empty_world None).

Lemma demo_loaded_inv : Inv demo_loaded.
Proof.
  destruct (handle_load_spec (empty_world None) "/a.plist" (Inv_empty None)) as (w1 & E1 & Ha1); [done|].
  destruct (handle_load_spec w1 "/b.plist" (an_inv _ _ _ _ Ha1)) as (w2 & E2 & Ha2); [done|].
  unfold demo_loaded, run. rewrite (bind_eq _ _ _ _ _ E1), E2. apply (an_inv _ _ _ _ Ha2).
Qed.

Lemma demo_loaded_fit : lines_fit demo_loaded.
Proof.
  split; [by vm_compute|].
  assert (H : map_Forall (λ _ J, (String.length (list_line J) <=? 511)%nat = true) (heap demo_loaded))
    by (apply (bool_decide_unpack _); by vm_compute).
  intros j J HJ. apply Nat.leb_le, (H j J HJ).
Qed.

Definition demo_hdr (c : Z) : ipc_msg_hdr := request_hdr c (String.list_byte_of_string "b").

Lemma dispatch_refines_witness :
  ∃ w', dispatch_msg (demo_hdr IPC_CMD_START) (received (String.list_byte_of_string "b")) demo_loaded
      = Some (tt, w') ∧
    state <$> table w' !! "b"%string = Some JOB_STATE_RUNNING ∧
    replies w' = replies demo_loaded ++ [reply_text 0 "b"].
Proof.
  destruct (dispatch_refines demo_loaded (demo_hdr IPC_CMD_START)
    (received (String.list_byte_of_string "b")) demo_loaded_inv) as (w' & E & Ha); [by vm_compute|].
  exists w'. split; [exact E|]. destruct Ha as [_ HT Hr _ _ _ _].
  rewrite HT. split; [by vm_compute|]. rewrite Hr. by vm_compute.
Defined.

Lemma handle_list_reply_witness :
  handle_list demo_loaded = Some (tt, with_reply
    (list_header 2 +:+ ("b" +:+ tab +:+ "0" +:+ tab +:+ "0" +:+ newline +:+
                        "a" +:+ tab +:+ "100" +:+ tab +:+ "0" +:+ newline)) demo_loaded).
Proof.
  rewrite (handle_list_reply (H := demo_kernel) demo_loaded demo_loaded_inv demo_loaded_fit (λ _, eq_refl)).
  do 3 f_equal; by vm_compute.
Defined.

(** A socket whose kernel moves one byte per call. *)
Definition byte_sock (incoming : list byte) : sock :=
  Sock incoming (repeat (RTake 0) 200) [] (repeat (WTake 1) 200) 0 true.

Lemma conversation_witness :
  ∃ w' cli1 srv1 e,
    do_cmd_send IPC_CMD_STOP (Some "zz"%string) (byte_sock []) = Returns (0, cli1) ∧
    handle_connection (byte_sock (tx cli1)) demo_loaded = Some (Returns srv1, w') ∧
    says (reply_text ENOENT "no such job") e ∧
    do_cmd_recv (byte_sock (tx srv1)) =
      Returns (reply_text ENOENT "no such job", if e =? 0 then 0 else 1).
Proof.
  destruct (conversation demo_loaded IPC_CMD_STOP (Some "zz"%string) demo_loaded_inv)
    as (w' & r & e & Hd & Hr & _ & Hs & Hcli); [by vm_compute|by vm_compute|].
  assert (Er : r = reply_text ENOENT "no such job").
  { assert (Hrep : option_map (λ p, replies p.2) (Some (tt, w')) =
      Some (replies demo_loaded ++ [reply_text ENOENT "no such job"])).
    { rewrite <-Hd. by vm_compute. }
    injection Hrep as Hrep. rewrite Hr in Hrep. by apply app_inj_tail in Hrep as [_ ?]. }
  subst r. destruct (Hcli (byte_sock [])) as (cli1 & Esend & Hsrv); [done|by vm_compute|].
  assert (Etx : tx cli1 = frame IPC_CMD_STOP (String.list_byte_of_string "zz")).
  { pose proof Esend as E1. vm_compute in E1. injection E1 as <-. by vm_compute. }
  destruct (Hsrv (byte_sock (tx cli1))) as (srv1 & Eh & Hk);
    [done|done|done|by vm_compute|by vm_compute|by vm_compute|].
  exists w', cli1, srv1, e. do 3 (split; [done|]).
  apply (Hk (byte_sock (tx srv1))); [done|done|by vm_compute].
Defined.
