(* ===== verification/Launchd.v ===== *)
(** * The daemon: startup, events and reachable states

    [main] of [src/src/src/launchd.c] and the dispatch loop of [runtime.c]: the
    main queue runs one handler at a time, so the daemon is a transition system
    whose steps are the connections, the batches of reaped children and the due
    timers, in any order, with time passing in between. *)

From S2P Require Import Prelude IpcProto JobTable JobInv JobSpec Demo IpcServer IpcSpec.
Local Open Scope c_scope.
Local Open Scope Z_scope.

(** ** Startup *)

Definition MAX_SCAN_DIRS : nat := 8.
Definition default_scan_dirs : list string :=
  ["/System/Library/LaunchDaemons"; "/Local/Library/LaunchDaemons"]%string.

Record options := Options {
  foreground : bool;
  daemon_mode : bool;
  plist_arg : option string;
  scan_dirs : list string;
}.

(** The answers of [getopt] ([optarg] beside the letter); [inl] is the status
    [main] returns. *)
Fixpoint parse_options (l : list (ascii * string)) (o : options) : Z + options :=
  match l with
  | [] => inr o
  | (ch, optarg) :: l =>
      if Ascii.eqb ch "f" then
        parse_options l (Options true (daemon_mode o) (plist_arg o) (scan_dirs o))
      else if Ascii.eqb ch "d" then
        parse_options l (Options (foreground o) true (plist_arg o) (scan_dirs o))
      else if Ascii.eqb ch "p" then
        parse_options l (Options (foreground o) (daemon_mode o) (Some optarg) (scan_dirs o))
      else if Ascii.eqb ch "S" then
        if (MAX_SCAN_DIRS <=? length (scan_dirs o))%nat then inl 2 else
        parse_options l (Options (foreground o) (daemon_mode o) (plist_arg o)
                           (scan_dirs o ++ [optarg]))
      else inl (if Ascii.eqb ch "h" then 0 else 2)
  end.

(** The options in force: [argc == 1] is the mode of process 1. *)
Definition effective_options (argc : nat) (l : list (ascii * string)) : Z + options :=
  match parse_options l (Options false false None []) with
  | inl status => inl status
  | inr o =>
      let o := if (argc =? 1)%nat
               then Options true true (plist_arg o)
                      (scan_dirs o ++ take (MAX_SCAN_DIRS - length (scan_dirs o)) default_scan_dirs)
               else o in
      if negb (foreground o) then inl 2 else
      if negb (daemon_mode o) && match plist_arg o with None => true | Some _ => false end
      then inl 2 else inr o
  end.

Section daemon.
Context `{Kernel}.

(** [-p plist]: [Some status] when [main] returns. *)
Definition load_singleton (path : string) : C world (option Z) :=
  let* o := jobmgr_load_plist_file path in
  match o with
  | None => ret (Some 1)
  | Some j =>
      let* r := jobmgr_insert j in
      if negb (r =? 0) then jobmgr_free j ;; ret (Some 1) else
      jobmgr_set_singleton j ;;
      let* J := load j in
      let* r := (if run_at_load J && negb (disabled J) then job_spawn j else ret 0) in
      ret (if negb (r =? 0) then Some 1 else None)
  end.

Fixpoint scan_all (dirs : list string) (total : nat) : C world nat :=
  match dirs with
  | [] => ret total
  | d :: dirs =>
      let* n := jobmgr_load_plist_dir d in
      scan_all dirs (total + n)
  end.

(** [main]: [Some status] is a return, [None] the dispatch loop.  [ipc_ok]:
    whether [ipc_server_init] succeeds. *)
Definition launchd_main (argc : nat) (opts : list (ascii * string)) (ipc_ok : bool)
    : C world (option Z) :=
  match effective_options argc opts with
  | inl status => ret (Some status)
  | inr o =>
      let* failed :=
        match plist_arg o with Some p => load_singleton p | None => ret None end in
      match failed with
      | Some status => ret (Some status)
      | None =>
          scan_all (scan_dirs o) 0 ;;
          if daemon_mode o then
            jobmgr_set_exit_when_singleton_done false ;;
            ret (if ipc_ok then None else Some 1)
          else ret None
      end
  end.

(** ** Events *)

Inductive event :=
  | EvConnection (s : sock)
  | EvChildren (script : list wait_result)
  | EvTimer (t : timer)
  | EvClock (t : Z).

Inductive step (w : world) : event → world → Prop :=
  | step_connection s o w' :
      handle_connection s w = Some (o, w') → step w (EvConnection s) w'
  | step_children script w' :
      sigchld_handler script w = Some (tt, w') → step w (EvChildren script) w'
  | step_timer t j d w' :
      timers w !! t = Some (j, d) → d ≤ now w →
      dispatch_timer t w = Some (tt, w') → step w (EvTimer t) w'
  | step_clock t :
      now w ≤ t → step w (EvClock t) (with_now t w).

(** The states reached by events in [allowed]. *)
Inductive reachable_by (allowed : event → Prop) (env : option string) : world → Prop :=
  | reach_start argc opts ipc_ok w :
      launchd_main argc opts ipc_ok (empty_world env) = Some (None, w) →
      reachable_by allowed env w
  | reach_step w ev w' :
      reachable_by allowed env w → shutting_down w = false → allowed ev → step w ev w' →
      reachable_by allowed env w'.

Definition reachable : option string → world → Prop := reachable_by (λ _, True).

(** ** The table is well formed in every reachable state *)

Lemma set_singleton_inv w j J :
  Inv w → heap w !! j = Some J → Inv (with_singleton (Some j) false w).
Proof. intros HI HJ. eapply InvG_core; try done. intros k [= <-]. eauto. Qed.

Lemma load_singleton_spec w path :
  Inv w → ∃ o w', load_singleton path w = Some (o, w') ∧ Inv w' ∧ timers w' ⊆ timers w.
Proof.
  intros HI. unfold load_singleton. rewrite (bind_eq_pair _ _ _ _ (load_file_eq w path HI)).
  unfold load_result. destruct (k_plist (now w) path) as [[| | |d|]|]; try (by eexists _, _).
  destruct (complete (plist_job path d)) eqn:Ec; cbn [fst snd]; [|eexists _, _; split; [done|split; [by apply load_failed_inv|done]]].
  pose proof (allocated_inv _ _ _ HI Ec) as HI1.
  assert (HJ : heap (allocated w (plist_job path d)) !! next_ptr w = Some (plist_job path d))
    by apply lookup_insert_eq.
  destruct (insert_spec _ _ _ _ HI1 HJ) as [(Ei & HI2 & _)|(Ei & _)];
    rewrite (bind_eq _ _ _ _ _ Ei); cbn [negb Z.eqb].
  2:{ rewrite (bind_eq _ _ _ _ _ (free_eq _ _ _ HJ)). eexists _, _. split; [done|].
      split; [by apply discarded_inv|done]. }
  erewrite bind_eq by reflexivity. set (w2 := with_singleton _ _ _).
  assert (HI3 : Inv w2) by (by eapply set_singleton_inv).
  assert (HJ3 : heap w2 !! next_ptr w = Some (plist_job path d)) by done.
  rewrite (bind_eq _ _ _ _ _ (load_eq _ _ _ HJ3)).
  destruct (_ && _); [|by erewrite bind_eq by reflexivity; eexists _, _].
  rewrite (bind_eq_pair _ _ _ _ (spawn_eq _ _ _ HJ3 (inv_runnable _ _ _ _ _ HI3 HJ3))).
  eexists _, _. split; [done|]. split; [by apply spawn_inv|].
  destruct (spawn_frame (next_ptr w) (plist_job path d) w2) as (_ & _ & _ & -> & _). done.
Qed.

Lemma scan_all_spec dirs n w :
  Inv w → ∃ m w', scan_all dirs n w = Some (m, w') ∧ Inv w' ∧ timers w' ⊆ timers w.
Proof.
  revert n w. induction dirs as [|d dirs IH]; intros n w HI; cbn; [by eexists _, _|].
  destruct (load_dir_spec d w HI) as (m & w1 & E & HI1 & Ht). rewrite (bind_eq _ _ _ _ _ E).
  destruct (IH (n + m)%nat w1 HI1) as (k & w2 & -> & HI2 & Ht2).
  exists k, w2. split; [done|]. split; [done|by etrans].
Qed.

(** Startup never crashes, whatever the options and the files. *)
Lemma launchd_main_spec argc opts ok w :
  Inv w → ∃ o w', launchd_main argc opts ok w = Some (o, w') ∧ Inv w' ∧ timers w' ⊆ timers w.
Proof.
  intros HI. unfold launchd_main. destruct (effective_options argc opts) as [st|o]; [by eexists _, _|].
  assert (Hp : ∃ f w1, (match plist_arg o with Some p => load_singleton p | None => ret None end) w
    = Some (f, w1) ∧ Inv w1 ∧ timers w1 ⊆ timers w).
  { destruct (plist_arg o); [by apply load_singleton_spec|by eexists _, _]. }
  destruct Hp as (f & w1 & E & HI1 & Ht1). rewrite (bind_eq _ _ _ _ _ E).
  destruct f as [st|]; [by eexists _, _|].
  destruct (scan_all_spec (scan_dirs o) 0 w1 HI1) as (m & w2 & E2 & HI2 & Ht2).
  rewrite (bind_eq _ _ _ _ _ E2). assert (timers w2 ⊆ timers w) by (by etrans).
  destruct (daemon_mode o); [|by eexists _, _].
  erewrite bind_eq by reflexivity. eexists _, _. split; [done|]. split; [|done].
  eapply InvG_core; try done. apply (inv_singleton _ _ _ HI2).
Qed.

Lemma with_now_inv X q t w : InvG X q w → InvG X q (with_now t w).
Proof. intros HI. eapply InvG_core; try done. apply (inv_singleton _ _ _ HI). Qed.

Lemma step_inv w ev w' : Inv w → step w ev w' → Inv w'.
Proof.
  intros HI [s o w1 E|script w1 E|t j d w1 Ht Hd E|t Ht].
  - by apply (connection_effect _ _ _ _ HI) in E as [].
  - destruct (sigchld_spec script w HI) as (w2 & E2 & ?). by replace w1 with w2 by congruence.
  - destruct (dispatch_timer_spec w t HI) as (w2 & E2 & ? & _). by replace w1 with w2 by congruence.
  - by apply with_now_inv.
Qed.

Lemma reachable_inv allowed env w : reachable_by allowed env w → Inv w.
Proof.
  induction 1 as [argc opts ok w E|]; [|by eapply step_inv].
  destruct (launchd_main_spec argc opts ok _ (Inv_empty env)) as (o & w1 & E1 & ? & _).
  by replace w with w1 by congruence.
Qed.

(** C2: in every state the daemon can reach, from any command line, any files and any
    sequence of connections, child exits, timers and clock ticks, the job table is well
    formed (labels and process ids are unique, the state of a job agrees with its process,
    timers and jobs point at each other, nothing points at freed memory), and no event
    crashes the daemon, with one exception: a request for the list of jobs does not crash
    it while no row of the list, that is in effect no label, is longer than the 511
    characters of the line buffer; with a longer one it does (see [list_long_row_crashes]
    in IpcSpec). *)
Theorem launchd_safe env w :
  reachable env w →
  Inv w ∧ (∀ s, (asks_list s → lines_fit w) → ∃ w', step w (EvConnection s) w') ∧
  (∀ script, ∃ w', step w (EvChildren script) w') ∧
  (∀ t j d, timers w !! t = Some (j, d) → d ≤ now w → ∃ w', step w (EvTimer t) w').
Proof.
  intros HI%reachable_inv. split; [done|]. split; [|split].
  - intros s Hfit. destruct (connection_total s w HI Hfit) as (o & w' & E). eexists. by econstructor.
  - intros script. destruct (sigchld_spec script w HI) as (w' & E & _). eexists. by econstructor.
  - intros t j d Ht Hd. destruct (dispatch_timer_spec w t HI) as (w' & E & _). eexists.
    by econstructor.
Qed.

(** ** An unloaded job stays unloaded *)

(** What an event may do to a job that is marked for removal. *)
Definition still_leaving (J : Job) (o : option Job) : Prop :=
  match o with None => True | Some J' => pending_unload J' = true ∧ job_p J' = job_p J end.

Definition is_start (l : string) (ev : event) : Prop :=
  match ev with EvConnection s => request_of s = Some (IPC_CMD_START, Some l) | _ => False end.

Lemma load_other path w l J :
  table w !! l = Some J → (spec_load path w).1 !! l = Some J.
Proof.
  intros HJ. unfold spec_load. destruct (parsed path w) as [K|]; [|done].
  destruct (decide (is_Some _)) as [|Hn]; [done|]. destruct (started_at_load K w) as [r K'].
  cbn. rewrite lookup_insert_ne; [done|]. intros Heq. rewrite Heq in Hn. eauto.
Qed.

Lemma request_leaving c arg w l J :
  table w !! l = Some J → pending_unload J = true →
  ¬ (c = IPC_CMD_START ∧ arg = Some l) →
  still_leaving J ((spec_request c arg w).1 !! l).
Proof.
  intros HJ Hp Hns. assert (Hsame : still_leaving J (table w !! l)) by (by rewrite HJ).
  unfold spec_request, with_arg. destruct arg as [a|];
    [|by repeat case_match]. destruct (decide (a = EmptyString)); [by repeat case_match|].
  destruct (c =? IPC_CMD_LOAD); [by rewrite (load_other _ _ _ _ HJ)|].
  destruct (decide (a = l)) as [->|Hne].
  - destruct (c =? IPC_CMD_UNLOAD); [|destruct (c =? IPC_CMD_START) eqn:Ec;
      [destruct Hns; split; [lia|done]|destruct (c =? IPC_CMD_STOP); [|by case_match]]].
    + unfold spec_unload_reply, spec_unload. rewrite HJ. cbn [fst].
      destruct (bool_decide _); [by rewrite lookup_insert_eq|by rewrite lookup_delete_eq].
    + unfold spec_stop. rewrite HJ. destruct (bool_decide _); [|done].
      destruct (_ =? 0); [by cbn; rewrite lookup_insert_eq|done].
  - unfold spec_unload_reply, spec_start, spec_stop, spec_unload.
    repeat case_match; cbn [fst]; try done; simplify_eq/=;
      first [by rewrite lookup_insert_ne | by rewrite lookup_delete_ne].
Qed.

Lemma reap_leaving w st p w' l J :
  Inv w → reap1 w st p w' → pending_unload J = true → still_leaving J (table w !! l) →
  still_leaving J (table w' !! l) ∧ (∀ K, table w !! l = Some K → p = job_p K → table w' !! l = None).
Proof.
  intros HI [p0 w0 Hno _ HT _ _ _|j K l0 w0 Hc Hp Hj HK HTK _ HT _ _] Hpe Hl; rewrite HT.
  - split; [done|]. intros K HK ->.
    apply (table_lookup _ _ _ _ _ HI) in HK as HK0. destruct HK0 as (j & Hj & HKj & Hlk).
    destruct (decide (0 < job_p K)); [by destruct (Hno _ _ HK)|].
    rewrite HK in Hl. destruct Hl as [HpK _].
    destruct (jo_pending _ _ _ (inv_jobs _ _ _ HI _ _ HKj) HpK). lia.
  - assert (Hw : table (waited (job_p K) w) = table w) by done.
    unfold spec_reap. rewrite Hw. destruct (decide (l0 = l)) as [->|Hne].
    + rewrite HTK in Hl. destruct Hl as [-> _]. rewrite lookup_delete_eq. done.
    + assert (∀ T : gmap string Job, T !! l = table w !! l → still_leaving J (T !! l) ∧
        (∀ K0, table w !! l = Some K0 → job_p K = job_p K0 → T !! l = None)) as Hgo.
      { intros T ->. split; [done|]. intros K0 HK0 Heq.
        apply (table_lookup _ _ _ _ _ HI) in HK0 as (i & Hi & HKi & Hli).
        apply (table_lookup _ _ _ _ _ HI) in HTK as (i2 & Hi2 & HKi2 & Hli2).
        assert (i = i2) as -> by (eapply (inv_pids _ _ _ HI i i2 K0 K); eauto; lia). congruence. }
      destruct (pending_unload K); apply Hgo;
        [by rewrite lookup_delete_ne|by rewrite lookup_insert_ne].
Qed.

Lemma children_leaving script w w' l J :
  Inv w → sigchld_handler script w = Some (tt, w') → pending_unload J = true →
  still_leaving J (table w !! l) → still_leaving J (table w' !! l).
Proof.
  intros HI E Hp. apply (sigchld_preserves (λ w, still_leaving J (table w !! l)) script); try done.
  - intros w1 w2 st p HI1 Hr Hl. by eapply reap_leaving.
  - intros w1 w2 He. by rewrite (en_table _ _ He).
Qed.

Lemma children_absent script w w' l :
  Inv w → sigchld_handler script w = Some (tt, w') → table w !! l = None → table w' !! l = None.
Proof.
  intros HI E. apply (sigchld_preserves (λ w, table w !! l = None) script); try done.
  - intros w1 w2 st p HI1 [p0 w0 _ _ HT _ _ _|j K l0 w0 _ _ _ _ HTK _ HT _ _] Hl; rewrite HT; [done|].
    change (table (waited (job_p K) w1)) with (table w1). unfold spec_reap.
    destruct (decide (l0 = l)) as [->|]; [congruence|].
    destruct (pending_unload K); [by rewrite lookup_delete_ne|by rewrite lookup_insert_ne].
  - intros w1 w2 He. by rewrite (en_table _ _ He).
Qed.

(** What a due timer does, in the view. *)
Lemma timer_effect w t j d w' :
  Inv w → timers w !! t = Some (j, d) → dispatch_timer t w = Some (tt, w') →
  ∃ l J, table w !! l = Some J ∧ heap w !! j = Some J ∧ restart_timer J = Some t ∧
    quiet w w' ∧ timers w' ⊆ timers w ∧
    table w' = <[l := (spec_spawn (job_timer None J) w).2]> (table w).
Proof.
  intros HI Ht E. destruct (inv_timer_job _ _ _ HI _ _ _ Ht) as (J & HJ & Hr).
  assert (Hj : j ∈ jobs_head w) by (destruct (proj1 (inv_heap _ _ _ HI j) (mk_is_Some _ _ HJ)); done).
  destruct (jo_label _ _ _ (inv_jobs _ _ _ HI _ _ HJ)) as [l Hl].
  destruct (table_timer _ _ _ _ _ _ HI Ht HJ Hl Hj) as (w2 & E2 & _ & Hq & Hts & HT).
  assert (w' = w2) as -> by congruence. exists l, J.
  split; [apply (table_lookup _ _ _ _ _ HI); eauto|]. done.
Qed.

(** C13: a job marked for removal by UNLOAD is never started again: no event, START
    of its own label apart, gives it another process or takes the mark away, and
    when its process exits it leaves the table, KeepAlive or not. *)
Theorem unloaded_stays_unloaded env w ev w' l J :
  reachable env w → step w ev w' → table w !! l = Some J → pending_unload J = true →
  ¬ is_start l ev →
  still_leaving J (table w' !! l) ∧
  (∀ st script, ev = EvChildren (WPid (job_p J) st :: script) → table w' !! l = None).
Proof.
  intros HI%reachable_inv Hstep HJ Hp Hns.
  assert (Hl : still_leaving J (table w !! l)) by (by rewrite HJ).
  destruct Hstep as [s o w1 E|script w1 E|t j d w1 Ht Hd E|t Ht]; (split; [|try done]).
  - apply (connection_effect _ _ _ _ HI) in E as [_ -> _ _ _]. unfold spec_connection.
    cbn in Hns. destruct (request_of s) as [[c arg]|]; [|done].
    destruct (c =? IPC_CMD_LIST); [done|]. apply request_leaving; [done..|].
    intros [-> ->]. by apply Hns.
  - by eapply children_leaving.
  - intros st script' [= ->].
    destruct (sigchld_round _ _ _ _ _ HI E) as (w2 & Hr & Hend).
    destruct (reap_leaving _ _ _ _ l J HI Hr Hp Hl) as [_ Hgone].
    specialize (Hgone J HJ eq_refl). destruct Hend as [He|E2]; [by rewrite (en_table _ _ He)|].
    eapply children_absent; [by eapply reap1_inv|done..].
  - destruct (timer_effect _ _ _ _ _ HI Ht E) as (l0 & K & HK & HKj & Hr & _ & _ & ->).
    destruct (decide (l0 = l)) as [->|]; [|by rewrite lookup_insert_ne].
    assert (K = J) as -> by congruence.
    destruct (jo_pending _ _ _ (inv_jobs _ _ _ HI _ _ HKj) Hp). congruence.
  - done.
Qed.

(** ** The times of the processes that are started *)

(** The longest interval whose end and timer can be computed in 64 bits, and the time
    until which they can: some 270 years, and some 10^11. *)
Definition MAX_INTERVAL : Z := 2 ^ 33.
Definition MAX_TIME : Z := 2 ^ 62.

Lemma respawn_delay_exact last v t :
  0 ≤ last → last ≤ t < MAX_TIME → 0 ≤ v ≤ MAX_INTERVAL →
  respawn_delay last v t = Z.max 0 (last + v - t) ∧
  timer_due t (respawn_delay last v t) = Z.max t (last + v).
Proof.
  intros Hl Ht Hv. unfold MAX_TIME, MAX_INTERVAL in *.
  assert (E : respawn_delay last v t = Z.max 0 (last + v - t)).
  { unfold respawn_delay. rewrite i64_small by lia.
    destruct (t <? last + v) eqn:El; [rewrite i64_small by lia|]; lia. }
  split; [done|]. rewrite E. unfold timer_due, NSEC_PER_SEC. rewrite i64_small by lia.
  rewrite Z.div_mul by lia. lia.
Qed.

(** A command that starts nothing: every job was there before with the same last start,
    and with its process if it has one, or is new. *)
Record unspawned (w w' : world) : Prop := {
  fr_spawns : spawns w' = spawns w;
  fr_now : now w' = now w;
  fr_throttle : throttle_value w' = throttle_value w;
  fr_next : (next_ptr w ≤ next_ptr w')%nat;
  fr_timers : timers w' ⊆ timers w;
  fr_heap : ∀ j J', heap w' !! j = Some J' →
    (∃ J, heap w !! j = Some J ∧ last_spawn_at J' = last_spawn_at J ∧ (job_p J' = job_p J ∨ job_p J' = 0)) ∨
    ((next_ptr w ≤ j)%nat ∧ last_spawn_at J' = 0 ∧ job_p J' = 0);
}.

#[export] Instance frame_preorder : PreOrder unspawned.
Proof.
  split; [by intros w; split; eauto 10|]. intros w1 w2 w3 [F1 F2 F3 F4 F5 F6] [K1 K2 K3 K4 K5 K6].
  split; [congruence..|lia|by etrans|]. intros j J3 [(J2 & E2 & El & Ep)|[Hn El]]%K6; [|right; split; [lia|done]].
  destruct (F6 _ _ E2) as [(J1 & E1 & El1 & Ep1)|(Hn & El1 & Ep1)]; [left|right; destruct Ep; split_and!; congruence].
  exists J1. split; [done|]. split; [congruence|]. destruct Ep as [->|]; auto.
Qed.

Definition framed {A} (m : C world A) : Prop := ∀ w a w', m w = Some (a, w') → unspawned w w'.

Lemma framed_bind {A B} (m : C world A) (k : A → C world B) :
  framed m → (∀ a, framed (k a)) → framed (bind m k).
Proof. intros Hm Hk w b w' (a & w1 & E & E')%bind_inv. etrans; [by eapply Hm|by eapply Hk]. Qed.
Lemma framed_ret {A} (a : A) : framed (ret a).
Proof. by intros w b w' [= _ <-]. Qed.
Lemma framed_crash {A} : framed (@crash world A).
Proof. done. Qed.
Lemma framed_gets {A} (f : world → A) : framed (gets f).
Proof. by intros w b w' [= _ <-]. Qed.
Lemma framed_deref {A} (o : option A) : framed (deref o).
Proof. destruct o; [apply framed_ret|apply framed_crash]. Qed.
Lemma framed_modify f : (∀ w, unspawned w (f w)) → framed (modify f).
Proof. intros Hf w b w' [= _ <-]. apply Hf. Qed.

(** Nothing but fields that [unspawned] does not look at. *)
Lemma frame_same w w' :
  spawns w' = spawns w → now w' = now w → throttle_value w' = throttle_value w →
  (next_ptr w ≤ next_ptr w')%nat → timers w' ⊆ timers w → heap w' = heap w → unspawned w w'.
Proof. intros ? ? ? ? ? Eh. split; try done. intros j J. rewrite Eh. eauto 10. Qed.

Lemma framed_store j f :
  (∀ J, last_spawn_at (f J) = last_spawn_at J ∧ (job_p (f J) = job_p J ∨ job_p (f J) = 0)) → framed (store j f).
Proof.
  intros Hf w [] w' E. unfold store, load, bind, gets, deref in E. destruct (heap w !! j) as [J|] eqn:HJ; [|done].
  injection E as <-. split; try done. intros i J'. cbn. destruct (decide (j = i)) as [<-|Hne].
  - rewrite lookup_insert_eq. intros [= <-]. left. exists J. by destruct (Hf J).
  - rewrite lookup_insert_ne by done. eauto 10.
Qed.

Lemma frame_freed w j : unspawned w (with_heap (delete j (heap w)) w).
Proof. split; try done. intros i J'. cbn. intros [_ ?]%lookup_delete_Some. eauto 10. Qed.
Lemma frame_timers w tm : tm ⊆ timers w → unspawned w (with_timers tm w).
Proof. intros. by apply frame_same. Qed.
Lemma frame_interval w : unspawned w (with_throttle_cached (throttle_value w) w).
Proof. by apply frame_same; try apply throttle_value_cached. Qed.

(** The commands that are framed because their parts are. *)
Create HintDb framed.
#[local] Hint Resolve framed_ret framed_crash framed_gets framed_deref : framed.
Ltac framed :=
  repeat first [progress intros | progress cbn beta iota zeta |
    lazymatch goal with
    | |- framed (bind _ _) => apply framed_bind
    | |- framed (store _ _) => apply framed_store; intros; cbn; by auto
    | |- framed (modify _) => first [solve [auto with framed] | apply framed_modify; intros; apply frame_same; cbn; (done || lia)]
    | |- framed (match _ with _ => _ end) => case_match
    | |- framed _ => solve [auto with framed]
    end].

Lemma framed_throttle_interval : framed throttle_interval.
Proof. intros w a w' E. rewrite throttle_eq in E. injection E as _ <-. apply frame_interval. Qed.
Lemma framed_load j : framed (load j).
Proof. unfold load. framed. Qed.
#[local] Hint Resolve framed_throttle_interval framed_load : framed.
Lemma framed_source_cancel t : framed (dispatch_source_cancel t).
Proof. intros w [] w' [= <-]. apply frame_timers, delete_subseteq. Qed.
#[local] Hint Resolve framed_source_cancel : framed.
Lemma framed_cancel j : framed (cancel_restart_timer j).
Proof.
  unfold cancel_restart_timer. framed.
Qed.
#[local] Hint Resolve framed_cancel : framed.
Lemma framed_free j : framed (jobmgr_free j).
Proof. unfold jobmgr_free, free_ptr. framed. apply framed_modify. intros. apply frame_freed. Qed.
#[local] Hint Resolve framed_free : framed.
Lemma framed_find_in l p : framed (find_in l p).
Proof. induction l; cbn; framed. Qed.
#[local] Hint Resolve framed_find_in : framed.
Lemma framed_find_by_label l : framed (jobmgr_find_by_label l).
Proof. unfold jobmgr_find_by_label. framed. Qed.
Lemma framed_find_by_pid p : framed (job_find_by_pid p).
Proof. unfold job_find_by_pid. framed. Qed.
#[local] Hint Resolve framed_find_by_label framed_find_by_pid : framed.
Lemma framed_insert j : framed (jobmgr_insert j).
Proof. unfold jobmgr_insert. framed. Qed.
Lemma framed_remove j : framed (jobmgr_remove_and_free j).
Proof. unfold jobmgr_remove_and_free, when. framed. Qed.
#[local] Hint Resolve framed_insert framed_remove : framed.
Lemma framed_unload l : framed (jobmgr_unload l).
Proof. unfold jobmgr_unload. framed. Qed.
Lemma framed_foreach {Ctx} l (fn : Job → Ctx → C world Ctx) ctx :
  (∀ J ctx, framed (fn J ctx)) → framed (foreach_from l fn ctx).
Proof. intros Hf. revert ctx. induction l; cbn; framed. Qed.
Lemma framed_reply e msg : framed (send_reply e msg).
Proof. unfold send_reply, push_reply. framed. Qed.
#[local] Hint Resolve framed_unload framed_reply : framed.
Lemma framed_handle_list : framed handle_list.
Proof.
  unfold handle_list, jobmgr_foreach, push_reply. framed; apply framed_foreach; intros.
  - unfold list_count. framed.
  - unfold list_append, c_assert. framed.
Qed.
Lemma framed_handle_unload l : framed (handle_unload l).
Proof. unfold handle_unload. framed. Qed.
Lemma framed_handle_stop l : framed (handle_stop l).
Proof. unfold handle_stop. framed. Qed.
Lemma framed_handle_shutdown : framed handle_shutdown.
Proof. unfold handle_shutdown, launchd_shutdown. framed. Qed.
#[local] Hint Resolve framed_handle_list framed_handle_unload framed_handle_stop framed_handle_shutdown : framed.
Lemma framed_calloc J : last_spawn_at J = 0 → job_p J = 0 → framed (calloc_job J).
Proof.
  intros HJ Hp w j w' E. injection E as <- <-. split; cbn; try done; [lia|]. intros i J'.
  destruct (decide (next_ptr w = i)) as [<-|Hne]; [|rewrite lookup_insert_ne by done; eauto 10].
  rewrite lookup_insert_eq. intros [= <-]. by right.
Qed.
Lemma framed_load_file path : framed (jobmgr_load_plist_file path).
Proof. unfold jobmgr_load_plist_file. framed. by apply framed_calloc. Qed.

(** What is known of the processes that were started. [strict]: nobody asked for one to
    be started, and the clock is in range; then the starts of a job are [v] apart, and a
    timer waits until they will be. *)
Record logged (strict : Prop) (v : Z) (w : world) : Prop := {
  lg_throttle : throttle_value w = v;
  lg_now : 0 ≤ now w;
  lg_times : ∀ j J, heap w !! j = Some J → 0 ≤ last_spawn_at J ≤ now w;
  lg_next : ∀ j t, (j, t) ∈ spawns w → (j < next_ptr w)%nat;
  lg_timers : ∀ t j d, timers w !! t = Some (j, d) → (j < next_ptr w)%nat;
  lg_last : ∀ j J t, heap w !! j = Some J → (j, t) ∈ spawns w → t ≤ last_spawn_at J;
  lg_running : ∀ j J, heap w !! j = Some J → 0 < job_p J → (j, last_spawn_at J) ∈ spawns w;
  lg_wait : strict → ∀ t j d J, timers w !! t = Some (j, d) → heap w !! j = Some J →
    job_p J = 0 ∧ last_spawn_at J + v ≤ d;
  lg_spaced : strict → ∀ i k j t1 t2, (i < k)%nat → spawns w !! i = Some (j, t1) →
    spawns w !! k = Some (j, t2) → t1 + v ≤ t2;
}.

(** A job that may be started: it waits for no timer, and for the interval no longer. *)
Definition ready (strict : Prop) (v : Z) (j : ptr) (w : world) : Prop :=
  logged strict v w ∧ (j < next_ptr w)%nat ∧
  (strict → (∀ t i d, timers w !! t = Some (i, d) → i ≠ j) ∧ ∀ t, (j, t) ∈ spawns w → t + v ≤ now w).

Section logged.
Variables (strict : Prop) (v : Z).

Lemma frame_logged w w' : unspawned w w' → logged strict v w → logged strict v w'.
Proof.
  intros [Fs Fn Fv Fp Ft Fh] [L1 L2 L3 L4 L5 L6 L6r L7 L8].
  assert (Ht : ∀ t p, timers w' !! t = Some p → timers w !! t = Some p) by (intros; by eapply lookup_weaken).
  split; rewrite ?Fs, ?Fn; try done; [congruence|..].
  - intros j J' HJ'. destruct (Fh _ _ HJ') as [(J & HJ & -> & _)|(_ & -> & _)]; [by eapply L3|lia].
  - intros j t Hj%L4. lia.
  - intros t j d Hj%Ht%L5. lia.
  - intros j J' t HJ' Hj. destruct (Fh _ _ HJ') as [(J & HJ & -> & _)|[Hn _]]; [by eapply L6|].
    apply L4 in Hj. lia.
  - intros j J' HJ' Hpos. destruct (Fh _ _ HJ') as [(J & HJ & -> & Hp)|(_ & _ & Hp)]; [|lia].
    apply L6r; [done|]. destruct Hp; lia.
  - intros Hst t j d J' Hd%Ht HJ'. destruct (Fh _ _ HJ') as [(J & HJ & -> & Hp)|[Hn _]].
    + destruct (L7 Hst _ _ _ _ Hd HJ) as [Hp0 ?]. split; [destruct Hp; congruence|done].
    + apply L5 in Hd. lia.
Qed.

Lemma frame_ready j w w' : unspawned w w' → ready strict v j w → ready strict v j w'.
Proof.
  intros Hf (Hl & Hn & Hr). split; [by eapply frame_logged|]. destruct Hf as [Fs Fn _ Fp Ft _].
  split; [lia|]. intros Hst. destruct (Hr Hst) as [H1 H2]. rewrite Fs, Fn. split; [|done].
  intros t i d Hd. eapply H1. by eapply lookup_weaken.
Qed.

(** A job that is new is ready. *)
Lemma fresh_ready w w' j : unspawned w w' → logged strict v w → (next_ptr w ≤ j < next_ptr w')%nat → ready strict v j w'.
Proof.
  intros Hf Hl [H1 H2]. split; [by eapply frame_logged|]. split; [done|]. intros _.
  destruct Hf as [Fs _ _ _ Ft _]. split.
  - intros t i d Hd ->. pose proof (lg_timers _ _ _ Hl _ _ _ (lookup_weaken _ _ _ _ Hd Ft)). lia.
  - rewrite Fs. intros t Hj%(lg_next _ _ _ Hl). lia.
Qed.

Lemma started_logged j w J pid X :
  ready strict v j w → heap w !! j = Some J →
  logged strict v (with_heap (<[j := job_spawned pid (now w) J]> (heap w)) (with_spawn j (now w) (with_children X w))).
Proof.
  intros ([L1 L2 L3 L4 L5 L6 L6r L7 L8] & Hn & Hr) HJ. split; cbn; try done.
  - intros i K. destruct (decide (j = i)) as [<-|]; [rewrite lookup_insert_eq; intros [= <-]; cbn; lia|].
    rewrite lookup_insert_ne by done. apply L3.
  - intros i t [Hi|[= -> ->]%list_elem_of_singleton]%elem_of_app; [by eapply L4|done].
  - intros i K t. destruct (decide (j = i)) as [<-|Hne].
    + rewrite lookup_insert_eq. intros [= <-] [Hj|[= ->]%list_elem_of_singleton]%elem_of_app; cbn; [|lia].
      pose proof (L6 _ _ _ HJ Hj). pose proof (L3 _ _ HJ). lia.
    + rewrite lookup_insert_ne by done. intros HK [Hj|[= -> _]%list_elem_of_singleton]%elem_of_app; [by eapply L6|done].
  - intros i K. destruct (decide (j = i)) as [<-|Hne]; [rewrite lookup_insert_eq; intros [= <-] _|].
    + apply elem_of_app. right. by left.
    + rewrite lookup_insert_ne by done. intros HK Hp. apply elem_of_app. left. by apply L6r.
  - intros Hst t i d K Hd. destruct (Hr Hst) as [Ht _]. pose proof (Ht _ _ _ Hd) as Hne.
    rewrite lookup_insert_ne by done. by eapply L7.
  - intros Hst i k j' t1 t2 Hik Hi Hk. destruct (Hr Hst) as [_ Hs].
    apply lookup_app_Some in Hk as [Hk|[Hlen Hk]].
    + rewrite lookup_app_l in Hi by (apply lookup_lt_Some in Hk; lia). by eapply L8.
    + apply list_lookup_singleton_Some in Hk as [Hk [= <- <-]]. rewrite lookup_app_l in Hi by lia.
      apply list_elem_of_lookup_2 in Hi. by apply Hs.
Qed.

Definition leads {A} (P Q : world → Prop) (m : C world A) : Prop := ∀ w a w', P w → m w = Some (a, w') → Q w'.
Definition stable (P : world → Prop) : Prop := ∀ w w', unspawned w w' → P w → P w'.

Lemma leads_bind {A B} P Q R (m : C world A) (k : A → C world B) :
  leads P Q m → (∀ a, leads Q R (k a)) → leads P R (bind m k).
Proof. intros Hm Hk w b w' HP (a & w1 & E & E')%bind_inv. eapply Hk; [|done]. by eapply Hm. Qed.
Lemma leads_framed {A} (P Q : world → Prop) (m : C world A) : framed m → stable P → (∀ w, P w → Q w) → leads P Q m.
Proof. intros Hm HP HQ w a w' Hw E. apply HQ. eapply HP; [by eapply Hm|done]. Qed.

Lemma stable_logged : stable (logged strict v).
Proof. intros w w'. apply frame_logged. Qed.
Lemma stable_ready j : stable (ready strict v j).
Proof. intros w w'. apply frame_ready. Qed.

Lemma framed_logged {A} (m : C world A) : framed m → leads (logged strict v) (logged strict v) m.
Proof. intros Hm. by apply leads_framed; [|apply stable_logged|]. Qed.
Lemma framed_ready {A} j (m : C world A) : framed m → leads (ready strict v j) (ready strict v j) m.
Proof. intros Hm. by apply leads_framed; [|apply stable_ready|]. Qed.
Lemma framed_started {A} j (m : C world A) : framed m → leads (ready strict v j) (logged strict v) m.
Proof. intros Hm. by apply leads_framed; [|apply stable_ready|intros w []]. Qed.

Lemma spawn_leads j : leads (ready strict v j) (logged strict v) (job_spawn j).
Proof.
  intros w r w' Hw E. unfold job_spawn in E. apply bind_inv in E as (J & w1 & El & E).
  unfold load, bind, gets, deref in El. destruct (heap w !! j) as [J0|] eqn:HJ; [|done]. injection El as -> <-.
  destruct (disabled J); [injection E as _ <-; apply Hw|].
  destruct (bool_decide _); [injection E as _ <-; apply Hw|].
  apply bind_inv in E as (prog & w1 & Ep & E). assert (w1 = w) as -> by (unfold ret, crash in Ep; repeat case_match; congruence).
  erewrite bind_eq in E by reflexivity. destruct (negb _); [injection E as _ <-; apply Hw|].
  do 2 (erewrite bind_eq in E by reflexivity). erewrite bind_eq in E by (apply store_eq; exact HJ).
  injection E as _ <-. by apply started_logged.
Qed.
End logged.

(** Nobody asks for a job to be started; START is not throttled. *)
Definition no_start (ev : event) : Prop :=
  match ev with
  | EvConnection s => ∀ arg, request_of s ≠ Some (IPC_CMD_START, arg)
  | _ => True
  end.

Section events.
Variables (strict : Prop) (v : Z).
Notation logged := (logged strict v).
Notation ready := (ready strict v).

(** A job that was just loaded may be started. *)
Lemma load_leads {A} path (k : option ptr → C world A) w a w' :
  Inv w → logged w → leads logged logged (k None) → (∀ j, leads (ready j) logged (k (Some j))) →
  bind (jobmgr_load_plist_file path) k w = Some (a, w') → logged w'.
Proof.
  intros HI Hl Hn Hs E. apply bind_inv in E as (o & w1 & Eo & E).
  pose proof (framed_load_file path w o w1 Eo) as Hf. rewrite load_file_eq in Eo by done.
  assert (Hfl : logged w1) by (by eapply frame_logged).
  destruct o as [j|]; [|by eapply Hn]. eapply (Hs j); [|exact E]. eapply fresh_ready; [done..|].
  unfold load_result in Eo. destruct (k_plist _ _) as [[| | |d|]|]; [done..| |done|done].
  destruct (complete _); [|done]. injection Eo as <- <-. cbn. lia.
Qed.

Lemma start_leads {A} (b : bool) j (k : Z → C world A) : (∀ r, framed (k r)) →
  leads (ready j) logged (bind (if b then job_spawn j else ret 0) k).
Proof.
  intros Hk. destruct b; [eapply leads_bind; [apply spawn_leads|intros; by apply framed_logged]|].
  eapply leads_bind; [by apply framed_ready, framed_ret|intros; by apply framed_started].
Qed.

Lemma scan_entry_logged dir n w b w' : Inv w → logged w → scan_entry dir n w = Some (b, w') → logged w'.
Proof.
  intros HI Hl. unfold scan_entry. destruct (negb _); [by intros [= _ <-]|]. destruct (_ <=? _)%nat; [by intros [= _ <-]|].
  apply load_leads; [done|done|apply framed_logged, framed_ret|]. intros j.
  eapply leads_bind; [apply framed_ready, framed_insert|]. intros r.
  destruct (negb _); [apply framed_started; framed|].
  eapply leads_bind; [apply framed_ready, framed_load|]. intros J. apply start_leads. intros. apply framed_ret.
Qed.

Lemma scan_entries_logged dir names n w m w' :
  Inv w → logged w → scan_entries dir names n w = Some (m, w') → logged w'.
Proof.
  revert n w. induction names as [|x names IH]; intros n w HI Hl; cbn; [by intros [= _ <-]|].
  intros (b & w1 & E & E')%bind_inv. destruct (scan_entry_spec dir x w HI) as (b0 & w0 & E0 & HI1 & _).
  assert (w0 = w1) as -> by congruence. eapply IH; [done| |done]. by eapply (scan_entry_logged _ _ w).
Qed.

Lemma load_dir_logged dir w m w' : Inv w → logged w → jobmgr_load_plist_dir dir w = Some (m, w') → logged w'.
Proof.
  intros HI Hl. unfold jobmgr_load_plist_dir. erewrite bind_eq by reflexivity.
  destruct (k_readdir _ _); [by apply scan_entries_logged|by intros [= _ <-]].
Qed.

Lemma scan_all_logged dirs n w m w' : Inv w → logged w → scan_all dirs n w = Some (m, w') → logged w'.
Proof.
  revert n w. induction dirs as [|d dirs IH]; intros n w HI Hl; cbn; [by intros [= _ <-]|].
  intros (b & w1 & E & E')%bind_inv. destruct (load_dir_spec d w HI) as (b0 & w0 & E0 & HI1 & _).
  assert (w0 = w1) as -> by congruence. eapply IH; [done| |done]. by eapply (load_dir_logged _ w).
Qed.

Lemma load_singleton_logged path w o w' : Inv w → logged w → load_singleton path w = Some (o, w') → logged w'.
Proof.
  intros HI Hl. unfold load_singleton. apply load_leads; [done|done|apply framed_logged, framed_ret|]. intros j.
  eapply leads_bind; [apply framed_ready, framed_insert|]. intros r.
  destruct (negb _); [apply framed_started; framed|].
  eapply leads_bind; [apply framed_ready; unfold jobmgr_set_singleton; framed|]. intros _.
  eapply leads_bind; [apply framed_ready, framed_load|]. intros J. apply start_leads. intros. apply framed_ret.
Qed.

Lemma main_logged argc opts ok w o w' : Inv w → logged w → launchd_main argc opts ok w = Some (o, w') → logged w'.
Proof.
  intros HI Hl. unfold launchd_main. destruct (effective_options argc opts) as [st|op]; [by intros [= _ <-]|].
  intros (f & w1 & E & E')%bind_inv.
  assert (H1 : Inv w1 ∧ logged w1).
  { destruct (plist_arg op) as [path|]; [|by injection E as _ <-].
    destruct (load_singleton_spec w path HI) as (f0 & w0 & E0 & HI1 & _). assert (w0 = w1) as -> by congruence.
    split; [done|]. by eapply (load_singleton_logged _ w). }
  destruct H1 as [HI1 Hl1]. destruct f as [st|]; [by injection E' as _ <-|].
  apply bind_inv in E' as (n & w2 & E2 & E'). apply scan_all_logged in E2; [|done..].
  destruct (daemon_mode op); [|by injection E' as _ <-].
  apply bind_inv in E' as ([] & w3 & [= <-] & E'). injection E' as _ <-.
  eapply frame_logged; [|exact E2]. by apply frame_same.
Qed.

Lemma handle_load_logged path w w' : Inv w → logged w → handle_load path w = Some (tt, w') → logged w'.
Proof.
  intros HI Hl. unfold handle_load. destruct (missing path).
  { intros E. by eapply framed_logged; [apply framed_reply| |exact E]. }
  apply load_leads; [done|done|apply framed_logged, framed_reply|]. intros j.
  eapply leads_bind; [apply framed_ready, framed_insert|]. intros r.
  destruct (negb _); [apply framed_started; framed|].
  eapply leads_bind; [apply framed_ready, framed_load|]. intros J. apply start_leads. intros. framed.
Qed.

Lemma handle_start_logged l w w' : ¬ strict → Inv w → logged w → handle_start l w = Some (tt, w') → logged w'.
Proof.
  intros Hns HI Hl. unfold handle_start. destruct (missing l).
  { intros E. by eapply framed_logged; [apply framed_reply| |exact E]. }
  destruct (find_by_label_spec _ _ _ (default EmptyString l) HI) as (o & E & Ho).
  rewrite (bind_eq _ _ _ _ _ E). destruct o as [j|].
  2:{ intros E'. by eapply framed_logged; [apply framed_reply| |exact E']. }
  destruct Ho as (J & _ & HJ & _). rewrite (bind_eq _ _ _ _ _ (load_eq _ _ _ HJ)).
  destruct (bool_decide _). { intros E'. by eapply framed_logged; [apply framed_reply| |exact E']. }
  intros (r & w1 & E1 & E2)%bind_inv. assert (Hl1 : logged w1).
  { eapply spawn_leads; [|exact E1]. split; [done|]. split; [|done].
    apply (inv_next_ptr _ _ _ HI). eauto. }
  eapply framed_logged; [|exact Hl1|exact E2]. framed.
Qed.

Lemma connection_logged s w o w' :
  Inv w → logged w → (strict → no_start (EvConnection s)) → handle_connection s w = Some (o, w') → logged w'.
Proof.
  intros HI Hl Hns. unfold handle_connection. cbn in Hns. unfold request_of in Hns.
  destruct (ipc_recv s) as [|[[[r hdr] payload] s1]] eqn:Er; [by intros [= _ <-]|].
  intros E. erewrite bind_eq in E by reflexivity. apply bind_inv in E as ([] & w1 & E1 & E2). injection E2 as _ <-.
  destruct (ipc_recv_code _ _ _ _ _ Er) as [->|[->| ->]]; cbn [Z.eqb Z.ltb Z.compare] in *;
    [|by eapply framed_logged; [apply framed_reply| |exact E1]|by injection E1 as <-].
  unfold dispatch_msg in E1. destruct (_ =? IPC_CMD_LOAD); [by eapply handle_load_logged|].
  destruct (_ =? IPC_CMD_UNLOAD); [by eapply framed_logged; [apply framed_handle_unload| |exact E1]|].
  destruct (_ =? IPC_CMD_LIST); [by eapply framed_logged; [apply framed_handle_list| |exact E1]|].
  destruct (cmd hdr =? IPC_CMD_START) eqn:Es.
  { apply Z.eqb_eq in Es. eapply handle_start_logged; [|done..]. intros Hst. by apply (Hns Hst (c_string <$> payload)); rewrite Es. }
  destruct (_ =? IPC_CMD_STOP); [by eapply framed_logged; [apply framed_handle_stop| |exact E1]|].
  destruct (_ =? IPC_CMD_SHUTDOWN); [by eapply framed_logged; [apply framed_handle_shutdown| |exact E1]|].
  by eapply framed_logged; [apply framed_reply| |exact E1].
Qed.
End events.

Section respawns.
Variables (strict : Prop) (v : Z).
Notation logged := (logged strict v).
Notation ready := (ready strict v).

(** What is asked of the clock and the interval for their sums to be exact. *)
Definition in_range (w : world) : Prop := v ≤ MAX_INTERVAL ∧ now w < MAX_TIME.

Lemma cancelled_frame j J w : heap w !! j = Some J → unspawned w (cancelled j J w).
Proof. intros HJ. eapply framed_cancel. by apply cancel_eq. Qed.
Lemma removed_frame j J w : heap w !! j = Some J → unspawned w (removed j J w).
Proof. intros HJ. eapply framed_remove. by apply remove_eq. Qed.
Lemma spawned_logged j J w : ready j w → heap w !! j = Some J → runnable J → logged (job_spawn_result j J w).2.
Proof.
  intros Hr HJ Hrun. pose proof (spawn_eq _ _ _ HJ Hrun) as E. destruct (job_spawn_result j J w) as [r w'].
  cbn [snd]. by eapply (spawn_leads _ _ j w).
Qed.

(** A job without a process and without a timer waits for the end of the interval. *)
Lemma respawn_logged j J w :
  Inv w → logged w → heap w !! j = Some J → job_p J = 0 → (strict → restart_timer J = None) → (strict → in_range w) →
  logged (respawn_result j J w).
Proof.
  intros HI Hl HJ Hp Ht Hb. unfold respawn_result.
  pose proof (frame_interval w) as Hf. set (w1 := with_throttle_cached _ w) in *.
  assert (Hl1 : logged w1) by (by eapply frame_logged). assert (HJ1 : heap w1 !! j = Some J) by done.
  assert (Hj : (j < next_ptr w)%nat) by (apply (inv_next_ptr _ _ _ HI); eauto).
  assert (Hno : strict → ∀ t i d, timers w !! t = Some (i, d) → i ≠ j).
  { intros Hst t i d Hd ->. destruct (inv_timer_job _ _ _ HI _ _ _ Hd) as (K & HK & HtK). specialize (Ht Hst). congruence. }
  assert (Hx : strict → respawn_delay (last_spawn_at J) (throttle_value w) (now w) = Z.max 0 (last_spawn_at J + v - now w) ∧
    timer_due (now w) (respawn_delay (last_spawn_at J) (throttle_value w) (now w)) = Z.max (now w) (last_spawn_at J + v)).
  { intros Hst. destruct (Hb Hst) as [Hv Hn]. pose proof (lg_times _ _ _ Hl _ _ HJ). pose proof (throttle_value_nonneg w) as Hv0.
    rewrite (lg_throttle _ _ _ Hl) in Hv0. rewrite (lg_throttle _ _ _ Hl). apply respawn_delay_exact; lia. }
  destruct (respawn_delay _ _ _ <=? 0) eqn:Ed.
  { apply spawned_logged; [|done|by eapply inv_runnable]. split; [done|]. split; [done|]. intros Hst.
    split; [by apply Hno|]. intros t Hs. pose proof (lg_last _ _ _ Hl _ _ _ HJ Hs). destruct (Hx Hst) as [Hd _].
    change (now w1) with (now w). lia. }
  pose proof (frame_logged _ _ _ _ (cancelled_frame _ _ _ HJ1) Hl1) as Hl2.
  destruct (k_timer_ok _); [|done]. destruct Hl2 as [L1 L2 L3 L4 L5 L6 L6r L7 L8].
  assert (HJ2 : heap (cancelled j J w1) !! j = Some (job_timer None J)) by apply lookup_insert_eq.
  unfold armed. set (w2 := cancelled j J w1) in *. split; cbn [now throttle_value spawns]; try done.
  - intros i K. cbn [heap with_timers with_heap]. destruct (decide (j = i)) as [<-|]; [|rewrite lookup_insert_ne by done; apply L3].
    rewrite lookup_insert_eq. intros [= <-]. exact (L3 _ _ HJ2).
  - intros t i d. cbn. intros [[_ [= <- _]]|[_ Hd]]%lookup_insert_Some; [done|by eapply L5].
  - intros i K t. cbn [heap with_timers with_heap]. destruct (decide (j = i)) as [<-|]; [|rewrite lookup_insert_ne by done; apply L6].
    rewrite lookup_insert_eq. intros [= <-]. exact (L6 _ _ _ HJ2).
  - intros i K. cbn [heap with_timers with_heap]. destruct (decide (j = i)) as [<-|]; [|rewrite lookup_insert_ne by done; apply L6r].
    rewrite lookup_insert_eq. intros [= <-]. exact (L6r _ _ HJ2).
  - intros Hst t i d K. cbn [heap timers with_timers with_heap].
    intros [[_ [= <- <-]]|[_ Hd]]%lookup_insert_Some.
    + rewrite lookup_insert_eq. intros [= <-]. split; [done|]. cbn [last_spawn_at job_timer].
      destruct (Hx Hst) as [_ ->]. lia.
    + assert (Hd' : timers w !! t = Some (i, d)).
      { change (timers w2) with (drop_timer J (timers w)) in Hd. eapply lookup_weaken; [exact Hd|apply drop_timer_sub]. }
      rewrite lookup_insert_ne by (intros <-; by apply (Hno Hst _ _ _ Hd')). by eapply L7.
Qed.

(** A child that was waited for, whose job is told. *)
Lemma reap_logged j J st w :
  InvG None (Some (job_p J)) w → logged w → heap w !! j = Some J → 0 < job_p J → (strict → in_range w) →
  logged (reap_result j J st w).
Proof.
  intros HI Hl HJ Hp Hb. unfold reap_result.
  assert (Hf : unspawned w (reaped j J st w)).
  { eapply (framed_store j (job_reaped st)); [intros; cbn; auto|by apply store_eq]. }
  pose proof (frame_logged _ _ _ _ Hf Hl) as Hl1.
  assert (HJ1 : heap (reaped j J st w) !! j = Some (job_reaped st J)) by apply lookup_insert_eq.
  destruct (pending_unload J) eqn:Epe; [by eapply frame_logged; [apply removed_frame|]|].
  destruct (keep_alive J).
  2:{ destruct (decide _); [|done]. eapply frame_logged; [|exact Hl1]. by apply frame_same. }
  pose proof (reaped_inv _ _ _ st HI HJ Hp Epe) as HI1.
  apply respawn_logged; try done. intros Hst. cbn [restart_timer job_reaped].
  destruct (restart_timer J) as [t|] eqn:Et; [|done].
  destruct (inv_job_timer _ _ _ HI _ _ _ HJ Et) as [d Hd]. destruct (lg_wait _ _ _ Hl Hst _ _ _ _ Hd HJ). lia.
Qed.

Lemma sigchld_logged script w w' :
  Inv w → logged w → (strict → in_range w) → sigchld_handler script w = Some (tt, w') → logged w'.
Proof.
  revert w. induction script as [|[p st| |] script IH]; intros w HI Hl Hb; cbn [sigchld_handler];
    [by intros [= <-]| |by intros [= <-]..].
  intros E. erewrite bind_eq in E by reflexivity. pose proof (wait_ghost w p HI) as HI1. set (w1 := with_children _ w) in *.
  assert (Hl1 : logged w1) by (eapply frame_logged; [|exact Hl]; by apply frame_same).
  destruct (find_by_pid_spec _ _ _ p HI1) as (o & Eo & Ho). rewrite (bind_eq _ _ _ _ _ Eo) in E. destruct o as [j|].
  - destruct Ho as (J & Hj & HJ & Hpj & Hp). subst p.
    pose proof (reap_eq _ _ _ st HJ (inv_runnable _ _ _ _ _ HI1 HJ)) as Er. rewrite (bind_eq _ _ _ _ _ Er) in E.
    pose proof (reap_inv _ _ _ st HI1 HJ Hp) as HI2. pose proof (reap_logged j J st w1 HI1 Hl1 HJ Hp Hb) as Hl2.
    assert (Hq : quiet w1 (reap_result j J st w1)).
    { destruct (jo_label _ _ _ (inv_jobs _ _ _ HI1 _ _ HJ)) as [l Hlab]. by destruct (table_reap _ _ _ l st HI1 Hj HJ Hlab Hp) as (_ & ? & _). }
    do 2 (erewrite bind_eq in E by reflexivity). destruct (_ && _) in E.
    + injection E as <-. eapply frame_logged; [|exact Hl2]. by apply frame_same.
    + apply (IH _ HI2 Hl2); [|done]. intros Hst. destruct (Hb Hst). split; [done|]. by rewrite (qu_now _ _ Hq).
  - apply (IH w1); [|done..]. eapply ghost_unknown; [done|]. intros j J Hj HJ Hpos. destruct Ho as [?|Ho]; [lia|by eapply Ho].
Qed.

Lemma timer_logged t j d w w' :
  Inv w → logged w → timers w !! t = Some (j, d) → d ≤ now w → dispatch_timer t w = Some (tt, w') → logged w'.
Proof.
  intros HI Hl Ht Hd. unfold dispatch_timer. intros E. erewrite bind_eq in E by reflexivity. rewrite Ht in E.
  destruct (inv_timer_job _ _ _ HI _ _ _ Ht) as (J & HJ & Hr).
  erewrite bind_eq in E by reflexivity. set (w1 := with_timers _ w) in *.
  rewrite (fired_eq w1 j J) in E by (try apply (inv_runnable _ _ _ _ _ HI HJ); done). injection E as <-.
  assert (HJ1 : heap w1 !! j = Some J) by done.
  assert (Hf : unspawned w (cancelled j J w1)) by (etrans; [by apply frame_timers, delete_subseteq|by apply cancelled_frame]).
  assert (HJ2 : heap (cancelled j J w1) !! j = Some (job_timer None J)) by apply lookup_insert_eq.
  unfold fired_result. destruct (pending_unload J).
  { eapply frame_logged; [|exact Hl]. etrans; [exact Hf|by apply removed_frame]. }
  apply spawned_logged; [|done|apply (inv_runnable _ _ _ _ _ HI HJ)]. split; [by eapply frame_logged|].
  split; [apply (inv_next_ptr _ _ _ HI); eauto|]. intros Hst. split.
  - intros t' i d' Hd' ->. change (timers (cancelled j J w1)) with (drop_timer J (delete t (timers w))) in Hd'.
    unfold drop_timer in Hd'. rewrite Hr, delete_delete_eq in Hd'. apply lookup_delete_Some in Hd' as [Hne Hd'].
    destruct (inv_timer_job _ _ _ HI _ _ _ Hd') as (K & HK & HrK). congruence.
  - intros t' Hs. change (spawns (cancelled j J w1)) with (spawns w) in Hs. change (now (cancelled j J w1)) with (now w).
    destruct (lg_wait _ _ _ Hl Hst _ _ _ _ Ht HJ). pose proof (lg_last _ _ _ Hl _ _ _ HJ Hs). lia.
Qed.

Lemma step_logged w ev w' :
  Inv w → logged w → (strict → no_start ev ∧ in_range w) → step w ev w' → logged w'.
Proof.
  intros HI Hl Hs Hstep. revert Hs. destruct Hstep as [s o w1 E|script w1 E|t j d w1 Ht Hd E|t Ht]; intros Hs.
  - eapply (connection_logged _ _ s w); [done..| |done]. intros Hst. by apply Hs.
  - eapply (sigchld_logged script w); [done..| |done]. intros Hst. by apply Hs.
  - by eapply (timer_logged t j d w).
  - destruct Hl as [L1 L2 L3 L4 L5 L6 L6r L7 L8]. split; cbn; try done; [lia|]. intros j J HJ. specialize (L3 _ _ HJ). lia.
Qed.
End respawns.

(** The clock only goes on, and the interval stays. *)
Lemma step_clock_interval w ev w' : Inv w → step w ev w' → now w ≤ now w' ∧ throttle_value w' = throttle_value w.
Proof.
  intros HI [s o w1 E|script w1 E|t j d w1 Ht Hd E|t Ht].
  - apply (connection_effect _ _ _ _ HI) in E as [_ _ Hn _ Hv]. split; [lia|done].
  - apply (sigchld_preserves (λ w1, now w ≤ now w1 ∧ throttle_value w1 = throttle_value w) script w w1); try done.
    + intros w2 w3 st p _ Hr [H1 H2]. assert (Hq : quiet w2 w3) by (by inversion Hr; subst).
      destruct Hq as [_ Hn Hv]. split; [lia|congruence].
    + intros w2 w3 [_ _ [_ Hn Hv] _] [H1 H2]. split; [lia|congruence].
  - destruct (timer_effect _ _ _ _ _ HI Ht E) as (l & J & _ & _ & _ & [_ Hn Hv] & _). split; [lia|done].
  - done.
Qed.

Lemma reachable_logged strict allowed env w :
  (strict → ∀ ev, allowed ev → no_start ev) → (strict → in_range (throttle_value w) w) →
  reachable_by allowed env w → logged strict (throttle_value w) w.
Proof.
  intros Ha Hb Hr. induction Hr as [argc opts ok w E|w ev w' Hr IH _ Hev Hstep].
  - assert (H0 : logged strict (throttle_value (empty_world env)) (empty_world env)).
    { split; cbn; try done; try (by intros ? ? ?%lookup_empty_Some); try (by intros ? ? ?%elem_of_nil);
        try (by intros _ ? ? ? ? ?%lookup_empty_Some). }
    pose proof (main_logged _ _ _ _ _ _ _ _ (Inv_empty env) H0 E) as Hl.
    by rewrite (lg_throttle _ _ _ Hl).
  - pose proof (reachable_inv _ _ _ Hr) as HI. destruct (step_clock_interval _ _ _ HI Hstep) as [Hn Hv].
    rewrite Hv in Hb |- *. assert (Hb0 : strict → in_range (throttle_value w) w).
    { intros Hst. destruct (Hb Hst). split; [done|]. lia. }
    eapply (step_logged _ _ w ev); [done|by apply IH| |done]. intros Hst. split; [by apply Ha|by apply Hb0].
Qed.

Lemma reachable_in_time allowed env w l J :
  reachable_by allowed env w → table w !! l = Some J → 0 ≤ last_spawn_at J ≤ now w.
Proof.
  intros Hr HJ. pose proof (reachable_inv _ _ _ Hr) as HI.
  apply (table_lookup _ _ _ _ _ HI) in HJ as (j & _ & HJ & _).
  assert (Hl : logged False (throttle_value w) w) by (by apply (reachable_logged False allowed env)).
  by eapply (lg_times _ _ _ Hl).
Qed.

(** C12: KeepAlive and RunAtLoad never start a job more than once per throttle
    interval.  Whatever happens, and while nobody issues START, any two processes that
    were started for one loaded job were started at least the interval apart, for any
    interval up to [MAX_INTERVAL] (some 270 years; a longer one makes the arithmetic of
    the timer overflow). Every process that runs is among those that were started, at
    the time its job was stamped with. *)
Theorem throttle_respected env w :
  reachable_by no_start env w → throttle_value w ≤ MAX_INTERVAL → now w < MAX_TIME →
  (∀ j J, heap w !! j = Some J → 0 < job_p J → (j, last_spawn_at J) ∈ spawns w) ∧
  (∀ i k j t1 t2, (i < k)%nat → spawns w !! i = Some (j, t1) → spawns w !! k = Some (j, t2) →
     t1 + throttle_value w ≤ t2).
Proof.
  intros Hr Hv Hn. assert (Hl : logged True (throttle_value w) w) by (by apply (reachable_logged True no_start env)).
  split; [apply Hl|]. by apply (lg_spaced _ _ _ Hl).
Qed.

(** ** KeepAlive *)

(** A KeepAlive job whose process exits, in the view. *)
Lemma child_exit w w' l J st :
  Inv w → table w !! l = Some J → 0 < job_p J →
  sigchld_handler [WPid (job_p J) st] w = Some (tt, w') →
  ∃ j, heap w !! j = Some J ∧ Inv w' ∧ quiet w w' ∧
    table w' = spec_reap l J st (waited (job_p J) w) ∧ timers w' ⊆ respawn_timers j J w.
Proof.
  intros HI HJ Hpos E.
  apply (table_lookup _ _ _ _ _ HI) in HJ as HJ0. destruct HJ0 as (j & Hj & HKj & Hlk).
  destruct (sigchld_round _ _ _ _ _ HI E) as (w1 & Hr & Hend).
  assert (He : ends w1 w').
  { destruct Hend as [He|E2]; [done|]. injection E2 as ->. apply ends_refl. by eapply reap1_inv. }
  destruct He as [HI' HT' Hq' Hts']. exists j. split; [done|]. split; [done|].
  inversion Hr as [p0 w0 Hno|i K l0 w0 _ _ Hi HKi HTK _ HT Hq Hts Heq]; subst; [by destruct (Hno _ _ HJ)|].
  assert (i = j) as -> by (eapply (inv_pids _ _ _ HI i j K J); eauto; lia).
  assert (K = J) as -> by congruence.
  apply (table_lookup _ _ _ _ _ HI) in HTK as (i & Hi' & HKi' & Hl').
  assert (l0 = l) as -> by (assert (i = j) as -> by (eapply (inv_pids _ _ _ HI i j J J); eauto); congruence).
  rewrite HT', Hts', HT. split; [by etrans|done].
Qed.

(** A job that waits for a timer is started when the timer goes off. *)
Lemma waiting_started w l J t n :
  Inv w → table w !! l = Some J → restart_timer J = Some t →
  ∃ j d, heap w !! j = Some J ∧ timers w !! t = Some (j, d) ∧
    (d ≤ n → ∃ w2, step (with_now n w) (EvTimer t) w2 ∧
      table w2 !! l = Some (spec_spawn (job_timer None J) (with_now n w)).2).
Proof.
  intros HI HJ Ht. apply (table_lookup _ _ _ _ _ HI) in HJ as (j & Hj & HKj & Hl).
  destruct (inv_job_timer _ _ _ HI _ _ t HKj Ht) as [d Hd]. exists j, d. split; [done|]. split; [done|].
  intros Hn. assert (HIn : Inv (with_now n w)) by by apply with_now_inv.
  destruct (dispatch_timer_spec (with_now n w) t HIn) as (w2 & E2 & HI2 & _).
  destruct (timer_effect _ _ _ _ _ HIn Hd E2) as (l2 & K & HK & HKj2 & _ & _ & _ & HT2).
  change (heap (with_now n w)) with (heap w) in HKj2. assert (K = J) as -> by congruence.
  assert (l2 = l) as ->.
  { apply (table_lookup _ _ _ _ _ HIn) in HK as (i & Hi & HKi & Hli). congruence. }
  exists w2. split; [by eapply step_timer|]. by rewrite HT2, lookup_insert_eq.
Qed.


(** An interval that is too long is not waited for at all: the time to wait, in
    nanoseconds, overflows, and the timer goes off at once. *)
Example long_interval_not_waited :
  respawn_delay 100 (2 ^ 34) 100 = 2 ^ 34 ∧ timer_due 100 (2 ^ 34) < 100.
Proof. by vm_compute. Qed.

(** ** Orphans *)

Definition nobody (p : Z) (w : world) : Prop := ∀ l J, table w !! l = Some J → job_p J ≠ p.

(** START of a job that is stopping starts a second process and forgets the
    first: the reply is success, the old process is still a child of the daemon and
    no job of the table has it any more. *)
Theorem start_while_stopping_orphans env w l J :
  reachable env w → l ≠ EmptyString → table w !! l = Some J →
  state J = JOB_STATE_STOPPING → disabled J = false →
  k_spawn (now w) (spawn_prog J) (spawn_args J) = 0 →
  ∃ w', handle_start (Some l) w = Some (tt, w') ∧ replies w' = replies w ++ [reply_text 0 l] ∧
    job_p J ∈ children w' ∧ nobody (job_p J) w'.
Proof.
  intros HI%reachable_inv Hl HJ Hst Hd Hk.
  pose proof HJ as HJ0. apply (table_lookup _ _ _ _ _ HI) in HJ0 as (j & Hj & HKj & Hlk).
  pose proof (jo_state _ _ _ (inv_jobs _ _ _ HI _ _ HKj)) as Hs. unfold state_ok in Hs.
  rewrite Hst in Hs. destruct Hs as [Hpos _].
  pose proof (process_is_child _ _ _ HI HJ Hpos) as Hc.
  assert (E : handle_start (Some l) w = Some (tt, with_reply (reply_text 0 l) (spawned j J w))).
  { unfold handle_start. cbn [missing default from_option id].
    rewrite (proj2 (String.eqb_neq _ _) Hl). pose proof (find_table _ _ _ l HI) as Hf.
    rewrite HJ in Hf. destruct Hf as (i & Ef & Hi & HKi & _).
    assert (i = j) as -> by (eapply (inv_labels _ _ _ HI i j J J); eauto).
    rewrite (bind_eq _ _ _ _ _ Ef), (bind_eq _ _ _ _ _ (load_eq _ _ _ HKj)).
    rewrite bool_decide_eq_false_2 by congruence.
    rewrite (bind_eq_pair _ _ _ _ (spawn_eq _ _ _ HKj (inv_runnable _ _ _ _ _ HI HKj))).
    unfold job_spawn_result. rewrite Hd, bool_decide_eq_false_2, Hk by congruence. done. }
  eexists. split; [exact E|]. split; [done|]. split; [cbn; set_solver|].
  pose proof (spawned_inv _ _ _ _ HI HKj) as HI'.
  assert (HT : table (spawned j J w) = <[l := job_spawned (k_pid (children w)) (now w) J]> (table w))
    by (by eapply table_store).
  intros l2 J2. change (table (with_reply _ ?x)) with (table x). rewrite HT.
  intros [[<- <-]|[Hne HJ2]]%lookup_insert_Some.
  - cbn. intros Heq. pose proof (k_pid_fresh (children w)). congruence.
  - intros Heq. apply (table_lookup _ _ _ _ _ HI) in HJ2 as (i & _ & HKi & Hli).
    assert (i = j) as -> by (eapply (inv_pids _ _ _ HI i j J2 J); eauto; lia). congruence.
Qed.

(** UNLOAD of a job that is stopping forgets its process at once: the label is
    free for another LOAD while the old process is still running. *)
Theorem unload_while_stopping_orphans env w l J :
  reachable env w → l ≠ EmptyString → table w !! l = Some J → state J = JOB_STATE_STOPPING →
  ∃ w', handle_unload (Some l) w = Some (tt, w') ∧ table w' !! l = None ∧
    job_p J ∈ children w' ∧ nobody (job_p J) w'.
Proof.
  intros HI%reachable_inv Hl HJ Hst.
  destruct (handle_unload_spec w l HI Hl) as (w' & E & Hc & Ha). exists w'. split; [done|].
  unfold spec_unload_reply, spec_unload in Ha. rewrite HJ, bool_decide_eq_false_2 in Ha by congruence.
  destruct Ha as [_ HT _ _ _ _ _]. cbn in HT. rewrite HT, Hc.
  pose proof HJ as HJ0. apply (table_lookup _ _ _ _ _ HI) in HJ0 as (j & Hj & HKj & Hlk).
  pose proof (jo_state _ _ _ (inv_jobs _ _ _ HI _ _ HKj)) as Hs. unfold state_ok in Hs.
  rewrite Hst in Hs. destruct Hs as [Hpos _].
  split; [by rewrite lookup_delete_eq|]. split; [by eapply process_is_child|].
  intros l2 J2. rewrite HT. intros [Hne HJ2]%lookup_delete_Some Heq.
  apply (table_lookup _ _ _ _ _ HI) in HJ2 as (i & _ & HKi & Hli).
  assert (i = j) as -> by (eapply (inv_pids _ _ _ HI i j J2 J); eauto; lia). congruence.
Qed.
End daemon.

(** ** Witnesses *)

(** The demo machine booted as a daemon with the KeepAlive job [a]. *)
Definition demo_boot : world :=
  run (launchd_main 4 [("f"%char, EmptyString); ("d"%char, EmptyString); ("p"%char, "/a.plist"%string)] true)
    (empty_world None).

Lemma demo_boot_reachable allowed : reachable_by allowed None demo_boot.
Proof.
  apply (reach_start _ _ 4 [("f"%char, EmptyString); ("d"%char, EmptyString); ("p"%char, "/a.plist"%string)]
    true). by vm_compute.
Qed.

Lemma demo_boot_fit : lines_fit demo_boot.
Proof.
  split; [by vm_compute|].
  assert (H : map_Forall (λ _ J, (String.length (list_line J) <=? 511)%nat = true) (heap demo_boot))
    by (apply (bool_decide_unpack _); by vm_compute).
  intros j J HJ. apply Nat.leb_le, (H j J HJ).
Qed.

Lemma launchd_safe_witness :
  Inv demo_boot ∧ ∃ w', step demo_boot (EvChildren [WPid 100 0]) w'.
Proof.
  destruct (launchd_safe None demo_boot (demo_boot_reachable _)) as (HI & _ & Hc & _).
  split; [exact HI|apply Hc].
Defined.

Definition demo_job : Job :=
  default (MkJob None EmptyString None None false false false JOB_STATE_LOADED 0 0 0 false None)
    (table demo_boot !! "a"%string).

(** The child dies at once: the job is throttled. *)
Definition demo_exit : world := run (sigchld_handler [WPid 100 0]) demo_boot.

Lemma demo_exit_step : step demo_boot (EvChildren [WPid (job_p demo_job) 0]) demo_exit.
Proof. apply step_children. by vm_compute. Qed.


(** And is started when the timer goes off. *)
Definition demo_fired : world := run (dispatch_timer 0%nat) (with_now 12 demo_exit).

Lemma demo_fired_reachable : reachable_by no_start None demo_fired.
Proof.
  apply (reach_step _ _ (with_now 12 demo_exit) (EvTimer 0%nat)); [|by vm_compute|done|].
  - apply (reach_step _ _ demo_exit (EvClock 12)); [|by vm_compute|done|by apply step_clock; vm_compute].
    apply (reach_step _ _ demo_boot (EvChildren [WPid (job_p demo_job) 0]));
      [apply demo_boot_reachable|by vm_compute|done|exact demo_exit_step].
  - by apply (step_timer _ _ 0%nat 10); vm_compute.
Qed.

Lemma throttle_respected_witness :
  spawns demo_fired = [(0%nat, 0); (0%nat, 12)] ∧ 0 + throttle_value demo_fired ≤ 12.
Proof.
  split; [by vm_compute|].
  destruct (throttle_respected None demo_fired demo_fired_reachable) as [_ Hs]; [by vm_compute|by vm_compute|].
  by apply (Hs 0%nat 1%nat 0%nat 0 12); [lia|vm_compute..].
Defined.

(** [a] is unloaded while it runs. *)
Definition demo_unloaded : world :=
  run (handle_connection (byte_sock (frame IPC_CMD_UNLOAD (String.list_byte_of_string "a")))) demo_boot.

Lemma demo_unloaded_reachable : reachable None demo_unloaded.
Proof.
  set (s := byte_sock (frame IPC_CMD_UNLOAD (String.list_byte_of_string "a"))).
  destruct (connection_total s demo_boot (reachable_inv _ _ _ (demo_boot_reachable (λ _, True)))
    (λ _, demo_boot_fit)) as (o & w' & E).
  apply (reach_step _ _ demo_boot (EvConnection s)); [apply demo_boot_reachable|by vm_compute|done|].
  apply (step_connection _ _ o). unfold demo_unloaded, run. fold s. by rewrite E.
Qed.

Definition demo_leaving : Job :=
  default demo_job (table demo_unloaded !! "a"%string).

Lemma unloaded_stays_unloaded_witness :
  let w' := run (sigchld_handler [WPid 100 0]) demo_unloaded in
  still_leaving demo_leaving (table w' !! "a"%string) ∧ table w' !! "a"%string = None.
Proof.
  intros w'. destruct (unloaded_stays_unloaded None demo_unloaded (EvChildren [WPid (job_p demo_leaving) 0])
    w' "a" demo_leaving demo_unloaded_reachable) as [H1 H2];
    [apply step_children; by vm_compute|by vm_compute|by vm_compute|by vm_compute|].
  split; [exact H1|by eapply H2].
Defined.

Lemma start_while_stopping_orphans_witness :
  ∃ w', handle_start (Some "a"%string) demo_unloaded = Some (tt, w') ∧
    100 ∈ children w' ∧ nobody 100 w'.
Proof.
  destruct (start_while_stopping_orphans None demo_unloaded "a" demo_leaving demo_unloaded_reachable)
    as (w' & E & _ & Hc & Hn); [done|by vm_compute|by vm_compute|by vm_compute|done|].
  exists w'. by split_and!.
Defined.

Lemma unload_while_stopping_orphans_witness :
  ∃ w', handle_unload (Some "a"%string) demo_unloaded = Some (tt, w') ∧
    table w' !! "a"%string = None ∧ 100 ∈ children w' ∧ nobody 100 w'.
Proof.
  destruct (unload_while_stopping_orphans None demo_unloaded "a" demo_leaving demo_unloaded_reachable)
    as (w' & E & ? & Hc & Hn); [done|by vm_compute|by vm_compute|].
  exists w'. by split_and!.
Defined.
