(* ===== verification/StoreTypes.v ===== *)
(** * The dynamic store of configd: data

    The dictionaries of [src/configd/src/configd.tproj/_SCD.h], the per-session
    objects of [session.h] and [SCDynamicStoreInternal.h], and what configd gets
    from CoreFoundation, regex(3), Mach and Security as classes.

    A CFString is the string of its UTF-8 bytes.  The CF containers are maps and
    sets; the order CF enumerates them in is the class [CFOrder]. *)

From S2P Require Import Prelude.
Local Open Scope c_scope.
Local Open Scope Z_scope.

Definition kSCStatusOK : Z := 0.
Definition kSCStatusFailed : Z := 1001.
Definition kSCStatusInvalidArgument : Z := 1002.
Definition kSCStatusAccessError : Z := 1003.
Definition kSCStatusNoKey : Z := 1004.
Definition kSCStatusKeyExists : Z := 1005.
Definition kSCStatusNoStoreSession : Z := 2001.
Definition kSCStatusNotifierActive : Z := 2003.

Definition MACH_PORT_NULL : Z := 0.
Definition TASK_NULL : Z := 0.
Definition NSIG : Z := 32.

(** ** Environment *)

(** Property-list values as [_SCUnserialize] returns them. *)
Inductive cftype :=
  | CFString (s : string)
  | CFData (d : list byte)
  | CFBoolean (b : bool)
  | CFArray (l : list cftype)
  | CFDictionary (d : list (string * cftype))
  | CFOther.

(** [regcomp (REG_EXTENDED)] ([None]: an error) and whether [regexec] finds a
    match.  Both get C strings. *)
Class RegexLib := {
  regex_t : Type;
  regcomp : string → option regex_t;
  regexec : regex_t → string → bool;
}.

(** The order in which CF enumerates the keys of a set or a dictionary. *)
Class CFOrder := {
  cf_order : list string → list string;
  cf_order_perm : ∀ l, cf_order l ≡ₚ l;
  cf_order_num : list Z → list Z;
  cf_order_num_perm : ∀ l, cf_order_num l ≡ₚ l;
}.

(** Mach, the kernel and the serializer.  The first argument of the answers is
    how many notifications were posted before. *)
Class MachKernel := {
  (** [mach_port_construct], given the names in use: a name that is not, or [None]
      when it fails for good. *)
  m_port : gset Z → option Z;
  m_port_fresh : ∀ X p, m_port X = Some p → p ∉ X;
  m_port_range : ∀ X p, m_port X = Some p → 0 < p < 2 ^ 32;
  (** [pid_for_task]: [None] is a failure. *)
  m_pid_for_task : nat → Z → option Z;
  (** [write] of a notification: the count written, or the errno. *)
  m_write : nat → Z → Z + Z;
  (** The non-zero number [random] comes up with in the end. *)
  m_random : nat → Z;
  m_getpid : Z;
  (** [_SCSerialize (kCFBooleanTrue)]. *)
  m_true_data : list byte;
}.

(** What the audit token of a message says of its sender: [audit_token_to_euid],
    [audit_token_to_pid], and the value of the write entitlement of its task. *)
Record audit_token := AuditToken {
  at_euid : Z;
  at_pid : Z;
  at_entitlement : option cftype;
}.

(** ** The store *)

Record entry := Entry {
  e_data : option (list byte);          (** kSCDData *)
  e_watchers : option (list Z);         (** kSCDWatchers *)
  e_watcherRefs : option (list Z);      (** kSCDWatcherRefs *)
  e_session : option string;            (** kSCDSession *)
}.
Definition empty_entry : entry := Entry None None None None.

Record sessInfo := SessInfo {
  i_name : option string;               (** kSCDName *)
  i_changedKeys : option (list string); (** kSCDChangedKeys *)
  i_sessionKeys : option (list string); (** kSCDSessionKeys *)
}.
Definition empty_info : sessInfo := SessInfo None None None.

Inductive notifyStatus_t :=
  | NotifierNotRegistered
  | Using_NotifierInformViaMachPort
  | Using_NotifierInformViaFD
  | Using_NotifierInformViaSignal.
#[export] Instance notifyStatus_eq_dec : EqDecision notifyStatus_t.
Proof. solve_decision. Defined.

(** The server side of an [SCDynamicStorePrivate]. *)
Record SCDynamicStorePrivate := Store {
  st_name : option string;
  st_server : Z;
  st_useSessionKeys : bool;
  st_keys : option (list string);
  st_patterns : option (list string);
  st_notifyStatus : notifyStatus_t;
  st_notifyPort : Z;
  st_notifyPortIdentifier : Z;
  st_notifyFile : Z;
  st_notifyFileIdentifier : Z;
  st_notifySignal : Z;
  st_notifySignalTask : Z;
}.

Inductive lazyBoolean := NO | YES | UNKNOWN.
#[export] Instance lazyBoolean_eq_dec : EqDecision lazyBoolean.
Proof. solve_decision. Defined.

Abbreviation ptr := nat (only parsing).

(** [callerWriteEntitlement]: [None] is kCFNull (unknown), [Some None] is NULL. *)
Record serverSession := Session {
  s_key : Z;
  s_store : option ptr;
  s_callerEUID : Z;
  s_auditToken : option audit_token;
  s_callerRootAccess : lazyBoolean;
  s_callerWriteEntitlement : option (option cftype);
}.

Inductive note :=
  | NotePort (port identifier : Z)
  | NoteFD (fd identifier : Z)
  | NoteSignal (pid signal : Z).

(** CFMutableArray [pInfo]: the compiled expression, the sessions watching the
    pattern, and the store keys that match it. *)
Record pInfo `{RL : RegexLib} := PInfo {
  p_regex : regex_t;
  p_sessions : list Z;
  p_keys : list string;
}.
Arguments PInfo {RL} _ _ _.

(** Where a session structure lives: a slot of the table, or [temp_session]. *)
Inductive sessionRef := Slot (i : nat) | Temp.

Record dynstore `{RL : RegexLib} := DS {
  storeData : gmap string entry;
  sessionData : gmap string sessInfo;
  patternData : gmap string pInfo;
  changedKeys : gset string;
  deferredRemovals : gset string;
  removedSessionKeys : gset string;
  needsNotification : option (gset Z);
  stores : gmap ptr SCDynamicStorePrivate;
  next_store : ptr;
  sessions : list (option serverSession);
  temp_session : option serverSession;
  posted : list note;
}.
Arguments DS {RL} _ _ _ _ _ _ _ _ _ _ _ _.

Section setters.
Context {RL : RegexLib}.

Definition set_storeData (m : gmap string entry) (s : dynstore) : dynstore :=
  DS m (sessionData s) (patternData s) (changedKeys s) (deferredRemovals s) (removedSessionKeys s)
    (needsNotification s) (stores s) (next_store s) (sessions s) (temp_session s) (posted s).
Definition set_sessionData (m : gmap string sessInfo) (s : dynstore) : dynstore :=
  DS (storeData s) m (patternData s) (changedKeys s) (deferredRemovals s) (removedSessionKeys s)
    (needsNotification s) (stores s) (next_store s) (sessions s) (temp_session s) (posted s).
Definition set_patternData (m : gmap string pInfo) (s : dynstore) : dynstore :=
  DS (storeData s) (sessionData s) m (changedKeys s) (deferredRemovals s) (removedSessionKeys s)
    (needsNotification s) (stores s) (next_store s) (sessions s) (temp_session s) (posted s).
Definition set_changedKeys (x : gset string) (s : dynstore) : dynstore :=
  DS (storeData s) (sessionData s) (patternData s) x (deferredRemovals s) (removedSessionKeys s)
    (needsNotification s) (stores s) (next_store s) (sessions s) (temp_session s) (posted s).
Definition set_deferredRemovals (x : gset string) (s : dynstore) : dynstore :=
  DS (storeData s) (sessionData s) (patternData s) (changedKeys s) x (removedSessionKeys s)
    (needsNotification s) (stores s) (next_store s) (sessions s) (temp_session s) (posted s).
Definition set_removedSessionKeys (x : gset string) (s : dynstore) : dynstore :=
  DS (storeData s) (sessionData s) (patternData s) (changedKeys s) (deferredRemovals s) x
    (needsNotification s) (stores s) (next_store s) (sessions s) (temp_session s) (posted s).
Definition set_needsNotification (x : option (gset Z)) (s : dynstore) : dynstore :=
  DS (storeData s) (sessionData s) (patternData s) (changedKeys s) (deferredRemovals s)
    (removedSessionKeys s) x (stores s) (next_store s) (sessions s) (temp_session s) (posted s).
Definition set_stores (m : gmap ptr SCDynamicStorePrivate) (n : ptr) (s : dynstore) : dynstore :=
  DS (storeData s) (sessionData s) (patternData s) (changedKeys s) (deferredRemovals s)
    (removedSessionKeys s) (needsNotification s) m n (sessions s) (temp_session s) (posted s).
Definition set_sessions (l : list (option serverSession)) (s : dynstore) : dynstore :=
  DS (storeData s) (sessionData s) (patternData s) (changedKeys s) (deferredRemovals s)
    (removedSessionKeys s) (needsNotification s) (stores s) (next_store s) l (temp_session s) (posted s).
Definition set_temp_session (x : option serverSession) (s : dynstore) : dynstore :=
  DS (storeData s) (sessionData s) (patternData s) (changedKeys s) (deferredRemovals s)
    (removedSessionKeys s) (needsNotification s) (stores s) (next_store s) (sessions s) x (posted s).
Definition post (n : note) (s : dynstore) : dynstore :=
  DS (storeData s) (sessionData s) (patternData s) (changedKeys s) (deferredRemovals s)
    (removedSessionKeys s) (needsNotification s) (stores s) (next_store s) (sessions s) (temp_session s)
    (posted s ++ [n]).
End setters.

Definition with_data (d : option (list byte)) (e : entry) : entry :=
  Entry d (e_watchers e) (e_watcherRefs e) (e_session e).
Definition with_watchers (w r : option (list Z)) (e : entry) : entry :=
  Entry (e_data e) w r (e_session e).
Definition with_session (x : option string) (e : entry) : entry :=
  Entry (e_data e) (e_watchers e) (e_watcherRefs e) x.

Definition is_some {A} (o : option A) : bool := match o with Some _ => true | None => false end.

(** [CFDictionaryGetCount]. *)
Definition entry_count (e : entry) : nat :=
  (Nat.b2n (is_some (e_data e)) + Nat.b2n (is_some (e_watchers e)) +
   Nat.b2n (is_some (e_watcherRefs e)) + Nat.b2n (is_some (e_session e)))%nat.
Definition info_count (i : sessInfo) : nat :=
  (Nat.b2n (is_some (i_name i)) + Nat.b2n (is_some (i_changedKeys i)) +
   Nat.b2n (is_some (i_sessionKeys i)))%nat.

Definition info_changed (x : option (list string)) (i : sessInfo) : sessInfo :=
  SessInfo (i_name i) x (i_sessionKeys i).
Definition info_sessionKeys (x : option (list string)) (i : sessInfo) : sessInfo :=
  SessInfo (i_name i) (i_changedKeys i) x.
Definition info_name (x : option string) (i : sessInfo) : sessInfo :=
  SessInfo x (i_changedKeys i) (i_sessionKeys i).

Definition st_with_keys (k p : option (list string)) (S : SCDynamicStorePrivate) :=
  Store (st_name S) (st_server S) (st_useSessionKeys S) k p (st_notifyStatus S) (st_notifyPort S)
    (st_notifyPortIdentifier S) (st_notifyFile S) (st_notifyFileIdentifier S) (st_notifySignal S)
    (st_notifySignalTask S).
Definition st_with_session (server : Z) (use : bool) (S : SCDynamicStorePrivate) :=
  Store (st_name S) server use (st_keys S) (st_patterns S) (st_notifyStatus S) (st_notifyPort S)
    (st_notifyPortIdentifier S) (st_notifyFile S) (st_notifyFileIdentifier S) (st_notifySignal S)
    (st_notifySignalTask S).
Definition st_with_name (n : option string) (S : SCDynamicStorePrivate) :=
  Store n (st_server S) (st_useSessionKeys S) (st_keys S) (st_patterns S) (st_notifyStatus S)
    (st_notifyPort S) (st_notifyPortIdentifier S) (st_notifyFile S) (st_notifyFileIdentifier S)
    (st_notifySignal S) (st_notifySignalTask S).
Definition st_with_status (x : notifyStatus_t) (S : SCDynamicStorePrivate) :=
  Store (st_name S) (st_server S) (st_useSessionKeys S) (st_keys S) (st_patterns S) x
    (st_notifyPort S) (st_notifyPortIdentifier S) (st_notifyFile S) (st_notifyFileIdentifier S)
    (st_notifySignal S) (st_notifySignalTask S).
Definition st_with_port (port identifier : Z) (S : SCDynamicStorePrivate) :=
  Store (st_name S) (st_server S) (st_useSessionKeys S) (st_keys S) (st_patterns S)
    (st_notifyStatus S) port identifier (st_notifyFile S) (st_notifyFileIdentifier S)
    (st_notifySignal S) (st_notifySignalTask S).
Definition st_with_file (fd identifier : Z) (S : SCDynamicStorePrivate) :=
  Store (st_name S) (st_server S) (st_useSessionKeys S) (st_keys S) (st_patterns S)
    (st_notifyStatus S) (st_notifyPort S) (st_notifyPortIdentifier S) fd identifier
    (st_notifySignal S) (st_notifySignalTask S).
Definition st_with_signal (sig task : Z) (S : SCDynamicStorePrivate) :=
  Store (st_name S) (st_server S) (st_useSessionKeys S) (st_keys S) (st_patterns S)
    (st_notifyStatus S) (st_notifyPort S) (st_notifyPortIdentifier S) (st_notifyFile S)
    (st_notifyFileIdentifier S) sig task.

(** ** Common steps *)

(** [CFNumberCreate (kCFNumberIntType, &server)] and ["%d"]. *)
Definition session_num (server : Z) : Z := i32 server.
Definition session_key (server : Z) : string := fmt_d (i32 server).

(** [CFArrayGetFirstIndexOfValue]. *)
Definition first_index {A} `{EqDecision A} (x : A) (l : list A) : option nat :=
  fst <$> list_find (λ y, y = x) l.

(** The C string of a CFString: only ASCII converts. *)
Fixpoint is_ascii (s : string) : bool :=
  match s with
  | EmptyString => true
  | String a s => (N_of_ascii a <? 128)%N && is_ascii s
  end.
Definition cstring_of (s : string) : option string :=
  if is_ascii s then Some (c_trunc s) else None.

Section access.
Context {RL : RegexLib}.

Definition load_store (st : ptr) : C dynstore SCDynamicStorePrivate :=
  let* m := gets stores in deref (m !! st).
Definition upd_store (st : ptr) (f : SCDynamicStorePrivate → SCDynamicStorePrivate) : C dynstore unit :=
  let* S := load_store st in
  modify (λ s, set_stores (<[st := f S]> (stores s)) (next_store s) s).
Definition put_entry (k : string) (e : entry) : C dynstore unit :=
  modify (λ s, set_storeData (<[k := e]> (storeData s)) s).
Definition del_entry (k : string) : C dynstore unit :=
  modify (λ s, set_storeData (delete k (storeData s)) s).
Definition put_info (k : string) (i : sessInfo) : C dynstore unit :=
  modify (λ s, set_sessionData (<[k := i]> (sessionData s)) s).
Definition put_pattern (p : string) (i : pInfo) : C dynstore unit :=
  modify (λ s, set_patternData (<[p := i]> (patternData s)) s).

(** The keys of a map, as CF enumerates them. *)
Definition cf_keys `{CFOrder} {A} (m : gmap string A) : list string := cf_order (map_to_list m).*1.
Definition cf_elements `{CFOrder} (X : gset string) : list string := cf_order (elements X).
End access.

(** ** Watchers and patterns of the dynamic store

    [_addWatcher] and [_removeWatcher] of [_SCD.c], and [pattern.c]. *)

Section watch.
Context {RL : RegexLib} {CO : CFOrder}.

(** ** Watchers of a key *)

Definition _addWatcher (sessionNum : Z) (watchedKey : string) : C dynstore unit :=
  let* d := gets storeData in
  let newDict := default empty_entry (d !! watchedKey) in
  let* ' (ws, rs) :=
    match e_watchers newDict with
    | Some ws => let* rs := deref (e_watcherRefs newDict) in ret (ws, rs)
    | None => ret ([], [])
    end in
  let* ' (ws, rs) :=
    match first_index sessionNum ws with
    | None => ret (ws ++ [sessionNum], rs ++ [1])
    | Some i => let* refCnt := deref (rs !! i) in ret (ws, <[i := refCnt + 1]> rs)
    end in
  put_entry watchedKey (with_watchers (Some ws) (Some rs) newDict).

Definition _removeWatcher (sessionNum : Z) (watchedKey : string) : C dynstore unit :=
  let* d := gets storeData in
  match d !! watchedKey with
  | None => ret tt
  | Some dict =>
      match e_watchers dict with
      | None => ret tt
      | Some ws =>
          let* rs := deref (e_watcherRefs dict) in
          match first_index sessionNum ws with
          | None => ret tt
          | Some i =>
              let* refCnt := deref (rs !! i) in
              let '(ws, rs) :=
                if 0 <? refCnt - 1 then (ws, <[i := refCnt - 1]> rs)
                else (delete i ws, delete i rs) in
              let newDict :=
                match ws with
                | [] => with_watchers None None dict
                | _ => with_watchers (Some ws) (Some rs) dict
                end in
              if (0 <? entry_count newDict)%nat then put_entry watchedKey newDict
              else del_entry watchedKey
          end
      end
  end.

(** ** Compiling and matching *)

Definition keyMatchesPattern (k : string) (re : regex_t) : bool :=
  match cstring_of k with None => false | Some str => regexec re str end.

Definition has_prefix (pre s : string) : bool := String.prefix pre s.
Definition has_suffix (suf s : string) : bool :=
  let n := String.length s in let k := String.length suf in
  (k <=? n)%nat && (String.substring (n - k) k s =? suf)%string.

(** The text handed to [regcomp]: the pattern bounded at both ends. *)
Definition bounded_pattern (pattern : string) : string :=
  let insert := negb (has_prefix "^" pattern) in
  let append := negb (has_suffix "$" pattern) || has_suffix "\$" pattern in
  String.append (if insert then "^" else EmptyString)
    (String.append pattern (if append then "$" else EmptyString)).

Definition patternCompile (pattern : string) : option regex_t :=
  str ← cstring_of (bounded_pattern pattern); regcomp str.

(** ** Pattern information *)

Definition identifyKeyForPattern (re : regex_t) (k : string) (value : entry) : bool :=
  is_some (e_data value) && keyMatchesPattern k re.

Definition patternCopy (pattern : string) : C dynstore (option pInfo) :=
  gets (λ s, patternData s !! pattern).

Definition patternNew (pattern : string) : C dynstore (option pInfo) :=
  let* d := gets storeData in
  ret (re ← patternCompile pattern;
       Some (PInfo re []
         (filter (λ k, Is_true (match d !! k with
                       | Some e => identifyKeyForPattern re k e | None => false end))
            (cf_keys d)))).

Definition patternCopyMatches (pattern : string) : C dynstore (option (list string)) :=
  let* o := patternCopy pattern in
  let* o := match o with Some p => ret (Some p) | None => patternNew pattern end in
  ret (p_keys <$> o).

Definition patternKeyMatches (pattern k : string) : C dynstore bool :=
  let* o := patternCopy pattern in
  match o with
  | Some p => if decide (k ∈ p_keys p) then ret true else ret (keyMatchesPattern k (p_regex p))
  | None =>
      let* o := patternNew pattern in
      match o with
      | None => ret false
      | Some p => ret (keyMatchesPattern k (p_regex p))
      end
  end.

Definition patternAddSession (pattern : string) (sessionNum : Z) : C dynstore bool :=
  let* o := patternCopy pattern in
  let* o := match o with Some p => ret (Some p) | None => patternNew pattern end in
  match o with
  | None => ret false
  | Some p =>
      put_pattern pattern (PInfo (p_regex p) (p_sessions p ++ [sessionNum]) (p_keys p)) ;;
      for_each (p_keys p) (_addWatcher sessionNum) ;;
      ret true
  end.

Definition patternRemoveSession (pattern : string) (sessionNum : Z) : C dynstore unit :=
  let* o := patternCopy pattern in
  let* p := deref o in                                        (* assert (pInfo != NULL) *)
  for_each (p_keys p) (_removeWatcher sessionNum) ;;
  if (1 <? length (p_sessions p))%nat then
    (* CFArrayRemoveValueAtIndex with kCFNotFound is out of range *)
    let* i := deref (first_index sessionNum (p_sessions p)) in
    put_pattern pattern (PInfo (p_regex p) (delete i (p_sessions p)) (p_keys p))
  else
    modify (λ s, set_patternData (delete pattern (patternData s)) s).

Definition addKeyForPattern (storeKey pattern : string) (p : pInfo) : C dynstore unit :=
  if keyMatchesPattern storeKey (p_regex p) then
    for_each (p_sessions p) (λ sessionNum, _addWatcher sessionNum storeKey) ;;
    put_pattern pattern (PInfo (p_regex p) (p_sessions p) (p_keys p ++ [storeKey]))
  else ret tt.

(** [my_CFDictionaryApplyFunction (patternData, ...)]: over a copy. *)
Definition apply_patterns (body : string → pInfo → C dynstore unit) : C dynstore unit :=
  let* d := gets patternData in
  for_each (cf_keys d) (λ pattern, match d !! pattern with Some p => body pattern p | None => ret tt end).

Definition patternAddKey (k : string) : C dynstore unit := apply_patterns (addKeyForPattern k).

Definition removeKeyFromPattern (storeKey pattern : string) (p : pInfo) : C dynstore unit :=
  match first_index storeKey (p_keys p) with
  | None => ret tt
  | Some i =>
      for_each (p_sessions p) (λ sessionNum, _removeWatcher sessionNum storeKey) ;;
      put_pattern pattern (PInfo (p_regex p) (p_sessions p) (delete i (p_keys p)))
  end.

Definition patternRemoveKey (k : string) : C dynstore unit := apply_patterns (removeKeyFromPattern k).

End watch.
