(* ===== verification/StoreInv.v ===== *)
(** * Watcher counts of the dynamic store

    An entry of the store counts, for every session, why it watches the key.
    This file says what [_addWatcher] and [_removeWatcher] do to these counts. *)

From S2P Require Import Prelude StoreTypes.
Local Open Scope c_scope.
Local Open Scope Z_scope.

(** ** Views of the store *)

Definition data_of (d : gmap string entry) (k : string) : option (list byte) := d !! k ≫= e_data.
Definition owner_of (d : gmap string entry) (k : string) : option string := d !! k ≫= e_session.

(** How often session [n] is counted among the watchers of an entry. *)
Definition entry_refs (e : entry) (n : Z) : Z :=
  match e_watchers e, e_watcherRefs e with
  | Some ws, Some rs => match first_index n ws with Some i => default 0 (rs !! i) | None => 0 end
  | _, _ => 0
  end.
Definition refs (d : gmap string entry) (k : string) (n : Z) : Z :=
  match d !! k with Some e => entry_refs e n | None => 0 end.

(** An entry is never empty, and its two watcher arrays are parallel. *)
Record entry_ok (e : entry) : Prop := {
  eo_count : (0 < entry_count e)%nat;
  eo_refs : match e_watchers e, e_watcherRefs e with
            | None, None => True
            | Some ws, Some rs =>
                length ws = length rs ∧ NoDup ws ∧ ws ≠ [] ∧ Forall (λ r, 0 < r) rs
            | _, _ => False
            end;
}.

Lemma entry_count_pos e :
  (0 < entry_count e)%nat ↔
  is_some (e_data e) || is_some (e_watchers e) || is_some (e_watcherRefs e) || is_some (e_session e) = true.
Proof.
  unfold entry_count. destruct e as [[] [] [] []]; cbn; split; intros; try done; lia.
Qed.

Definition entries_ok (d : gmap string entry) : Prop := map_Forall (λ _, entry_ok) d.

(** [d'] is [d] with the watcher counts changed by [f]. *)
Record shifted (f : string → Z → Z) (d d' : gmap string entry) : Prop := {
  sh_ok : entries_ok d';
  sh_data : ∀ k, data_of d' k = data_of d k;
  sh_owner : ∀ k, owner_of d' k = owner_of d k;
  sh_refs : ∀ k n, refs d' k n = refs d k n + f k n;
}.

Lemma shifted_refl d : entries_ok d → shifted (λ _ _, 0) d d.
Proof. intros Hd. split; [done..|]. intros. lia. Qed.

Lemma shifted_trans f g d1 d2 d3 :
  shifted f d1 d2 → shifted g d2 d3 → shifted (λ k n, f k n + g k n) d1 d3.
Proof.
  intros [? Hd Ho Hr] [? Hd' Ho' Hr']. split; [done|..]; intros.
  - by rewrite Hd', Hd.
  - by rewrite Ho', Ho.
  - rewrite Hr', Hr. lia.
Qed.

Lemma shifted_ext f g d d' :
  (∀ k n, f k n = g k n) → shifted f d d' → shifted g d d'.
Proof. intros Hfg [? ? ? Hr]. split; [done..|]. intros. by rewrite Hr, Hfg. Qed.

(** ** First indices *)

Lemma first_index_Some {A} `{EqDecision A} (x : A) l i :
  first_index x l = Some i → l !! i = Some x ∧ ∀ j, (j < i)%nat → l !! j ≠ Some x.
Proof.
  unfold first_index. destruct (list_find _ l) as [[j y]|] eqn:E; cbn; [|done].
  intros [= <-]. apply list_find_Some in E as (Hj & -> & Hn). split; [done|].
  intros k Hk Hx. by destruct (Hn k x Hx Hk).
Qed.

Lemma first_index_None {A} `{EqDecision A} (x : A) l : first_index x l = None ↔ x ∉ l.
Proof.
  unfold first_index. rewrite fmap_None, list_find_None, Forall_forall. split.
  - intros H Hx. by apply (H x).
  - intros H y Hy ->. done.
Qed.

Lemma first_index_elem {A} `{EqDecision A} (x : A) l : x ∈ l → ∃ i, first_index x l = Some i.
Proof.
  intros Hx. destruct (first_index x l) eqn:E; [eauto|]. by apply first_index_None in E.
Qed.

Lemma first_index_app {A} `{EqDecision A} (x : A) l : x ∉ l → first_index x (l ++ [x]) = Some (length l).
Proof.
  intros Hx. destruct (first_index_elem x (l ++ [x])) as [i Hi]; [set_solver|].
  rewrite Hi. f_equal. apply first_index_Some in Hi as [Hi _].
  apply lookup_app_Some in Hi as [Hi|[Hle Hi]]; [destruct Hx; by eapply list_elem_of_lookup_2|].
  destruct (i - length l)%nat eqn:E; [lia|done].
Qed.

Lemma first_index_app_l {A} `{EqDecision A} (x y : A) l :
  x ≠ y → first_index x (l ++ [y]) = first_index x l.
Proof.
  intros Hne. destruct (first_index x l) as [i|] eqn:Ei.
  - unfold first_index in *. destruct (list_find _ l) as [[j z]|] eqn:E; [|done].
    cbn in Ei. injection Ei as ->. by rewrite (list_find_app_l _ _ _ _ _ E).
  - apply first_index_None. apply first_index_None in Ei. set_solver.
Qed.

Lemma NoDup_delete {A} (l : list A) i : NoDup l → NoDup (delete i l).
Proof. intros. eapply sublist_NoDup; [done|apply sublist_delete]. Qed.

Lemma NoDup_delete_notin {A} (l : list A) i x : NoDup l → l !! i = Some x → x ∉ delete i l.
Proof.
  intros Hnd Hi. rewrite delete_take_drop. intros [Hx|Hx]%elem_of_app.
  - apply list_elem_of_lookup_1 in Hx as [j Hj]. apply lookup_take_Some in Hj as [Hj Hlt].
    pose proof (NoDup_lookup _ _ _ _ Hnd Hj Hi). lia.
  - apply list_elem_of_lookup_1 in Hx as [j Hj]. rewrite lookup_drop in Hj.
    pose proof (NoDup_lookup _ _ _ _ Hnd Hj Hi). lia.
Qed.

Lemma elem_of_delete {A} (l : list A) i x y :
  NoDup l → l !! i = Some x → y ∈ delete i l ↔ y ∈ l ∧ y ≠ x.
Proof.
  intros Hnd Hi. split.
  - intros Hy. split; [eapply elem_of_sublist; [done|apply sublist_delete]|].
    intros ->. by eapply NoDup_delete_notin.
  - intros [Hy Hne]. rewrite (delete_Permutation _ _ _ Hi) in Hy. set_solver.
Qed.

Lemma first_index_delete {A} `{EqDecision A} (x y : A) l i :
  NoDup l → l !! i = Some y → x ≠ y →
  first_index x (delete i l) = (λ j, if decide (j < i)%nat then j else pred j) <$> first_index x l.
Proof.
  intros Hnd Hi Hne. destruct (first_index x l) as [j|] eqn:Ej; cbn.
  - destruct (first_index_Some _ _ _ Ej) as [Hj _].
    destruct (first_index_elem x (delete i l)) as [j' Ej'].
    { apply (elem_of_delete _ _ _ _ Hnd Hi). split; [by eapply list_elem_of_lookup_2|done]. }
    rewrite Ej'. f_equal. destruct (first_index_Some _ _ _ Ej') as [Hj' _].
    destruct (decide (j' < i)%nat) as [Hlt|Hge].
    + rewrite list_lookup_delete_lt in Hj' by done.
      pose proof (NoDup_lookup _ _ _ _ Hnd Hj Hj') as ->. by rewrite decide_True.
    + rewrite list_lookup_delete_ge in Hj' by lia.
      pose proof (NoDup_lookup _ _ _ _ Hnd Hj Hj') as ->. rewrite decide_False by lia. done.
  - apply first_index_None in Ej. apply first_index_None.
    intros Hx. apply Ej. eapply elem_of_sublist; [done|apply sublist_delete].
Qed.

(** ** Adding and removing one reference *)

Section watchers.
Context {RL : RegexLib} {CO : CFOrder}.

Definition one (k0 : string) (n0 : Z) (k : string) (n : Z) : Z :=
  if decide (k = k0 ∧ n = n0) then 1 else 0.

Lemma refs_nonneg d k n : entries_ok d → 0 ≤ refs d k n.
Proof.
  intros Hd. unfold refs. destruct (d !! k) as [e|] eqn:E; [|done].
  destruct (Hd _ _ E) as [_ Hr]. unfold entry_refs.
  destruct (e_watchers e) as [ws|], (e_watcherRefs e) as [rs|]; try done.
  destruct Hr as (_ & _ & _ & Hpos). destruct (first_index n ws) as [i|]; [|done].
  destruct (rs !! i) as [r|] eqn:Er; [|done]. cbn.
  apply (Forall_lookup_1 _ _ _ _ Hpos) in Er. lia.
Qed.

(** Replacing one entry. *)
Lemma shifted_put d k e' f :
  entries_ok d → entry_ok e' →
  e_data e' = data_of d k → e_session e' = owner_of d k →
  (∀ n, entry_refs e' n = refs d k n + f k n) → (∀ k' n, k' ≠ k → f k' n = 0) →
  shifted f d (<[k := e']> d).
Proof.
  intros Hd He Hdata Hown Hrefs Hf. split.
  - by apply map_Forall_insert_2.
  - intros k'. unfold data_of at 1. destruct (decide (k' = k)) as [->|];
      [by rewrite lookup_insert_eq|by rewrite lookup_insert_ne].
  - intros k'. unfold owner_of at 1. destruct (decide (k' = k)) as [->|];
      [by rewrite lookup_insert_eq|by rewrite lookup_insert_ne].
  - intros k' n. unfold refs at 1. destruct (decide (k' = k)) as [->|];
      [by rewrite lookup_insert_eq|rewrite lookup_insert_ne by done]. rewrite Hf by done.
    unfold refs. lia.
Qed.

(** Dropping an entry that has become empty. *)
Lemma shifted_del d k e' f :
  entries_ok d → (entry_count e' ≤ 0)%nat →
  e_data e' = data_of d k → e_session e' = owner_of d k →
  (∀ n, entry_refs e' n = refs d k n + f k n) → (∀ k' n, k' ≠ k → f k' n = 0) →
  shifted f d (delete k d).
Proof.
  intros Hd He Hdata Hown Hrefs Hf.
  assert (e_data e' = None ∧ e_watchers e' = None ∧ e_session e' = None) as (H1 & H2 & H3).
  { unfold entry_count in He. destruct e' as [[] [] [] []]; cbn in He; try lia; done. }
  split.
  - by apply map_Forall_delete.
  - intros k'. destruct (decide (k' = k)) as [->|].
    + rewrite <-Hdata, H1. unfold data_of. by rewrite lookup_delete_eq.
    + unfold data_of. by rewrite lookup_delete_ne.
  - intros k'. destruct (decide (k' = k)) as [->|].
    + rewrite <-Hown, H3. unfold owner_of. by rewrite lookup_delete_eq.
    + unfold owner_of. by rewrite lookup_delete_ne.
  - intros k' n. destruct (decide (k' = k)) as [->|].
    + rewrite <-Hrefs. unfold refs. rewrite lookup_delete_eq. unfold entry_refs. by rewrite H2.
    + rewrite Hf by done. unfold refs. rewrite lookup_delete_ne by done. lia.
Qed.

Lemma entry_refs_arrays e ws rs n :
  e_watchers e = Some ws → e_watcherRefs e = Some rs →
  entry_refs e n = match first_index n ws with Some i => default 0 (rs !! i) | None => 0 end.
Proof. unfold entry_refs. by intros -> ->. Qed.

(** The arrays after one more reference. *)
Lemma arrays_add (ws rs : list Z) n :
  length ws = length rs → NoDup ws → Forall (λ r, 0 < r) rs →
  ∃ ws' rs',
    (∀ S (s : S), (match first_index n ws with
       | None => ret (ws ++ [n], rs ++ [1])
       | Some i => let* refCnt := deref (rs !! i) in ret (ws, <[i := refCnt + 1]> rs)
       end) s = Some ((ws', rs'), s)) ∧
    length ws' = length rs' ∧ NoDup ws' ∧ ws' ≠ [] ∧ Forall (λ r, 0 < r) rs' ∧
    ∀ m, match first_index m ws' with Some i => default 0 (rs' !! i) | None => 0 end =
         match first_index m ws with Some i => default 0 (rs !! i) | None => 0 end +
         (if decide (m = n) then 1 else 0).
Proof.
  intros Hl Hnd Hpos. destruct (first_index n ws) as [i|] eqn:Ei.
  - destruct (first_index_Some _ _ _ Ei) as [Hi _].
    destruct (lookup_lt_is_Some_2 rs i) as [r Hr]; [rewrite <-Hl; by eapply lookup_lt_Some|].
    exists ws, (<[i := r + 1]> rs). split; [intros; by rewrite Hr|].
    split; [by rewrite length_insert|]. split; [done|]. split; [by intros ->|].
    pose proof (Forall_lookup_1 _ _ _ _ Hpos Hr) as Hr0. cbn in Hr0.
    split; [apply Forall_insert; [done|lia]|].
    intros m. destruct (decide (m = n)) as [->|Hne].
    + rewrite Ei. rewrite list_lookup_insert_eq by (by eapply lookup_lt_Some). rewrite Hr. cbn. lia.
    + destruct (first_index m ws) as [j|] eqn:Ej; [|lia].
      destruct (first_index_Some _ _ _ Ej) as [Hj _].
      rewrite list_lookup_insert_ne by (intros ->; congruence). lia.
  - apply first_index_None in Ei. exists (ws ++ [n]), (rs ++ [1]). split; [done|].
    split; [rewrite !length_app; cbn; lia|]. split; [apply NoDup_app; split_and!; [done|set_solver|apply NoDup_singleton]|].
    split; [by destruct ws|]. split; [apply Forall_app; split; [done|by repeat constructor]|].
    intros m. destruct (decide (m = n)) as [->|Hne].
    + rewrite first_index_app by done. rewrite (proj2 (first_index_None n ws)) by done.
      rewrite Hl, lookup_app_r, Nat.sub_diag by lia. done.
    + rewrite first_index_app_l by done. destruct (first_index m ws) as [j|] eqn:Ej; [|lia].
      destruct (first_index_Some _ _ _ Ej) as [Hj _]. apply lookup_lt_Some in Hj.
      rewrite lookup_app_l by lia. lia.
Qed.

Lemma addWatcher_spec n k (s : dynstore) :
  entries_ok (storeData s) →
  ∃ d', _addWatcher n k s = Some (tt, set_storeData d' s) ∧ shifted (one k n) (storeData s) d'.
Proof.
  intros Hd. unfold _addWatcher. unfold bind at 1, gets at 1.
  set (e := default empty_entry (storeData s !! k)).
  assert (Hwr : ∃ ws rs, (∀ S (s : S), (match e_watchers e with
      | Some ws => let* rs := deref (e_watcherRefs e) in ret (ws, rs) | None => ret ([], []) end) s
      = Some ((ws, rs), s)) ∧ length ws = length rs ∧ NoDup ws ∧ Forall (λ r, 0 < r) rs ∧
      ∀ m, refs (storeData s) k m =
        match first_index m ws with Some i => default 0 (rs !! i) | None => 0 end).
  { unfold e, refs. destruct (storeData s !! k) as [e0|] eqn:E; cbn.
    - destruct (Hd _ _ E) as [_ Hr].
      destruct (e_watchers e0) as [ws|] eqn:Ew, (e_watcherRefs e0) as [rs|] eqn:Er; try done.
      + destruct Hr as (? & ? & _ & ?). exists ws, rs. split_and!; try done.
        intros m. by apply entry_refs_arrays.
      + exists [], []. split_and!; try done; [constructor|].
        intros m. unfold entry_refs. by rewrite Ew.
    - exists [], []. by split_and!; try constructor. }
  destruct Hwr as (ws & rs & E1 & Hl & Hnd & Hpos & Hrefs).
  destruct (arrays_add ws rs n Hl Hnd Hpos) as (ws' & rs' & E2 & Hl' & Hnd' & Hne' & Hpos' & Hr').
  unfold bind at 1. rewrite E1. unfold bind at 1. rewrite E2.
  eexists. split; [reflexivity|]. apply shifted_put; try done.
  - split; [apply entry_count_pos; cbn; by rewrite orb_true_r|]. cbn. by split_and!.
  - cbn. unfold e, data_of. by destruct (storeData s !! k).
  - cbn. unfold e, owner_of. by destruct (storeData s !! k).
  - intros m. rewrite Hrefs. cbn. rewrite Hr'. unfold one.
    repeat case_decide; naive_solver.
  - intros k' m Hk. unfold one. rewrite decide_False; naive_solver.
Qed.

(** The arrays after one reference less. *)
Lemma arrays_remove (ws rs : list Z) n i r ws' rs' :
  length ws = length rs → NoDup ws → Forall (λ r, 0 < r) rs →
  first_index n ws = Some i → rs !! i = Some r →
  (ws', rs') = (if 0 <? r - 1 then (ws, <[i := r - 1]> rs) else (delete i ws, delete i rs)) →
  length ws' = length rs' ∧ NoDup ws' ∧ Forall (λ r, 0 < r) rs' ∧
  ∀ m, match first_index m ws' with Some i => default 0 (rs' !! i) | None => 0 end =
       match first_index m ws with Some i => default 0 (rs !! i) | None => 0 end -
       (if decide (m = n) then 1 else 0).
Proof.
  intros Hl Hnd Hpos Ei Hr. destruct (first_index_Some _ _ _ Ei) as [Hi _].
  pose proof (Forall_lookup_1 _ _ _ _ Hpos Hr) as Hr0. cbn in Hr0.
  destruct (Z.ltb_spec 0 (r - 1)) as [Hlt|Hle]; intros [= -> ->].
  - split; [by rewrite length_insert|]. split; [done|]. split; [by apply Forall_insert|].
    intros m. destruct (decide (m = n)) as [->|Hne].
    + rewrite Ei, list_lookup_insert_eq by (by eapply lookup_lt_Some). rewrite Hr. done.
    + destruct (first_index m ws) as [j|] eqn:Ej; [|lia].
      destruct (first_index_Some _ _ _ Ej) as [Hj _].
      rewrite list_lookup_insert_ne by (intros ->; congruence). lia.
  - pose proof (lookup_lt_Some _ _ _ Hi). assert (r = 1) as -> by lia.
    split; [rewrite !length_delete by (eexists; eauto); lia|].
    split; [by apply NoDup_delete|]. split; [by apply Forall_delete|].
    intros m. destruct (decide (m = n)) as [->|Hne].
    + rewrite Ei, Hr. cbn. rewrite (proj2 (first_index_None n _)); [done|].
      by eapply NoDup_delete_notin.
    + rewrite (first_index_delete m n) by done.
      rewrite Z.sub_0_r.
      destruct (first_index m ws) as [j|] eqn:Ej; [|done]. cbn.
      destruct (first_index_Some _ _ _ Ej) as [Hj _]. destruct (decide (j < i)%nat).
      * by rewrite list_lookup_delete_lt.
      * destruct (decide (j = i)) as [->|]; [congruence|].
        rewrite list_lookup_delete_ge by lia. do 2 f_equal. lia.
Qed.

Lemma removeWatcher_spec n k (s : dynstore) :
  entries_ok (storeData s) → 0 < refs (storeData s) k n →
  ∃ d', _removeWatcher n k s = Some (tt, set_storeData d' s) ∧
        shifted (λ k' n', - one k n k' n') (storeData s) d'.
Proof.
  intros Hd Hpos. unfold _removeWatcher. unfold bind at 1, gets at 1.
  unfold refs in Hpos. destruct (storeData s !! k) as [e|] eqn:E; [|done].
  destruct (Hd _ _ E) as [Hc Hr]. pose proof (entry_refs_arrays e) as Hrefs.
  unfold entry_refs in Hpos.
  destruct (e_watchers e) as [ws|] eqn:Ew, (e_watcherRefs e) as [rs|] eqn:Er; try done.
  assert (Hrefs1 := λ m, Hrefs ws rs m eq_refl eq_refl). clear Hrefs. rename Hrefs1 into Hrefs.
  destruct Hr as (Hl & Hnd & Hne & Hrs). cbn [deref]. rewrite bind_ret.
  destruct (first_index n ws) as [i|] eqn:Ei; [|done].
  destruct (rs !! i) as [r|] eqn:Eri; [|done]. cbn [deref]. rewrite bind_ret.
  destruct (if 0 <? r - 1 then _ else _) as [ws' rs'] eqn:Ewr.
  destruct (arrays_remove ws rs n i r ws' rs') as (Hl' & Hnd' & Hrs' & Hr'); try done.
  set (e' := match ws' with [] => with_watchers None None e | _ => with_watchers (Some ws') (Some rs') e end).
  assert (Hrefs' : ∀ m, entry_refs e' m = entry_refs e m - (if decide (m = n) then 1 else 0)).
  { intros m. rewrite Hrefs. rewrite <-Hr'. unfold e'. destruct ws' as [|w ws']; [done|].
    by apply entry_refs_arrays. }
  assert (Hf : ∀ k' m, k' ≠ k → - one k n k' m = 0).
  { intros k' m Hk. unfold one. rewrite decide_False; naive_solver. }
  assert (Hn : ∀ m, entry_refs e' m = refs (storeData s) k m + - one k n k m).
  { intros m. rewrite Hrefs'. unfold refs, one. rewrite E. repeat case_decide; naive_solver. }
  destruct (Nat.ltb_spec 0 (entry_count e')) as [Hlt|Hge].
  - eexists. split; [reflexivity|]. apply shifted_put; try done.
    + split; [done|]. unfold e'. destruct ws' as [|w ws']; cbn; [done|]. by split_and!.
    + unfold data_of. rewrite E. unfold e'. by destruct ws'.
    + unfold owner_of. rewrite E. unfold e'. by destruct ws'.
  - eexists. split; [reflexivity|]. apply (shifted_del _ _ e'); try done.
    + unfold data_of. rewrite E. unfold e'. by destruct ws'.
    + unfold owner_of. rewrite E. unfold e'. by destruct ws'.
Qed.

(** ** Adding and removing several references *)

Definition ind (P : Prop) `{Decision P} : Z := if decide P then 1 else 0.

Lemma ind_true (P : Prop) `{Decision P} : P → ind P = 1.
Proof. intros. unfold ind. by rewrite decide_True. Qed.
Lemma ind_false (P : Prop) `{Decision P} : ¬ P → ind P = 0.
Proof. intros. unfold ind. by rewrite decide_False. Qed.
Lemma ind_iff (P Q : Prop) `{Decision P, Decision Q} : (P ↔ Q) → ind P = ind Q.
Proof. intros. unfold ind. repeat case_decide; naive_solver. Qed.
Lemma ind_range (P : Prop) `{Decision P} : 0 ≤ ind P ≤ 1.
Proof. unfold ind. case_decide; lia. Qed.

(** How often the pairs [(f x, g x)] of a list name session [n] and key [k]. *)
Fixpoint tally {X} (f : X → Z) (g : X → string) (l : list X) (k : string) (n : Z) : Z :=
  match l with [] => 0 | x :: l => one (g x) (f x) k n + tally f g l k n end.

Lemma tally_nonneg {X} (f : X → Z) g l k n : 0 ≤ tally f g l k n.
Proof. induction l as [|x l IH]; cbn; [done|]. unfold one. case_decide; lia. Qed.

Lemma tally_sessions (ss : list Z) k0 k n :
  NoDup ss → tally id (λ _, k0) ss k n = ind (k = k0 ∧ n ∈ ss).
Proof.
  induction 1 as [|m ss Hm Hnd IH]; cbn; [by rewrite ind_false by set_solver|].
  rewrite IH. unfold one, ind. repeat case_decide; set_solver.
Qed.

Lemma tally_keys (ks : list string) n0 k n :
  NoDup ks → tally (λ _, n0) id ks k n = ind (n = n0 ∧ k ∈ ks).
Proof.
  induction 1 as [|m ss Hm Hnd IH]; cbn; [by rewrite ind_false by set_solver|].
  rewrite IH. unfold one, ind. repeat case_decide; set_solver.
Qed.

Lemma addWatchers_spec {X} (f : X → Z) (g : X → string) l (s : dynstore) :
  entries_ok (storeData s) →
  ∃ d', for_each l (λ x, _addWatcher (f x) (g x)) s = Some (tt, set_storeData d' s) ∧
        shifted (tally f g l) (storeData s) d'.
Proof.
  revert s. induction l as [|x l IH]; intros s Hs; cbn.
  - exists (storeData s). split; [by destruct s|]. by apply shifted_refl.
  - destruct (addWatcher_spec (f x) (g x) s Hs) as (d1 & E1 & H1).
    destruct (IH (set_storeData d1 s) (sh_ok _ _ _ H1)) as (d2 & E2 & H2).
    exists d2. unfold bind at 1. rewrite E1. split; [by rewrite E2|]. by eapply shifted_trans.
Qed.

Lemma removeWatchers_spec {X} (f : X → Z) (g : X → string) l (s : dynstore) :
  entries_ok (storeData s) → (∀ k n, tally f g l k n ≤ refs (storeData s) k n) →
  ∃ d', for_each l (λ x, _removeWatcher (f x) (g x)) s = Some (tt, set_storeData d' s) ∧
        shifted (λ k n, - tally f g l k n) (storeData s) d'.
Proof.
  revert s. induction l as [|x l IH]; intros s Hs Hle; cbn.
  - exists (storeData s). split; [by destruct s|]. by apply shifted_refl.
  - destruct (removeWatcher_spec (f x) (g x) s Hs) as (d1 & E1 & H1).
    { specialize (Hle (g x) (f x)). cbn in Hle. unfold one in Hle. rewrite decide_True in Hle by done.
      pose proof (tally_nonneg f g l (g x) (f x)). lia. }
    destruct (IH (set_storeData d1 s) (sh_ok _ _ _ H1)) as (d2 & E2 & H2).
    { intros k n. cbn. rewrite (sh_refs _ _ _ H1). specialize (Hle k n). cbn in Hle. lia. }
    exists d2. unfold bind at 1. rewrite E1. split; [by rewrite E2|].
    eapply shifted_ext; [|by eapply shifted_trans]. intros k n. cbn. lia.
Qed.
End watchers.
