(* ===== verification/StorePat.v ===== *)
(** * Watchers and patterns: the invariant

    [WI]: the watcher counts of the store agree with the key and pattern lists of
    the sessions.  [KI]: the key list of a pattern holds the keys that match it.
    Both are kept by the operations of [pattern.c]. *)

From S2P Require Import Prelude StoreTypes StoreInv.
Local Open Scope c_scope.
Local Open Scope Z_scope.

Definition keys_of (P : SCDynamicStorePrivate) : list string := default [] (st_keys P).
Definition pats_of (P : SCDynamicStorePrivate) : list string := default [] (st_patterns P).
Definition num_of (P : SCDynamicStorePrivate) : Z := session_num (st_server P).

Section inv.
Context {RL : RegexLib} {CO : CFOrder}.

(** Key [k] is in the key list of pattern [pat]. *)
Definition listed (pd : gmap string pInfo) (k pat : string) : Prop :=
  match pd !! pat with Some p => k ∈ p_keys p | None => False end.
#[export] Instance listed_dec pd k pat : Decision (listed pd k pat).
Proof. unfold listed. destruct (pd !! pat); apply _. Defined.

(** For how many reasons a session watches [k]. *)
Definition reasons (pd : gmap string pInfo) (P : SCDynamicStorePrivate) (k : string) : Z :=
  ind (k ∈ keys_of P) + Z.of_nat (length (filter (listed pd k) (pats_of P))).

Record WI (d : gmap string entry) (pd : gmap string pInfo) (sts : gmap ptr SCDynamicStorePrivate)
    : Prop := {
  w_entries : entries_ok d;
  w_refs : ∀ st P k, sts !! st = Some P → refs d k (num_of P) = reasons pd P k;
  w_none : ∀ n k, (∀ st P, sts !! st = Some P → num_of P ≠ n) → refs d k n = 0;
  w_inj : ∀ st P st' P', sts !! st = Some P → sts !! st' = Some P' → num_of P = num_of P' → st = st';
  w_lists : ∀ st P, sts !! st = Some P → NoDup (keys_of P) ∧ NoDup (pats_of P);
  w_pats : ∀ pat p, pd !! pat = Some p → NoDup (p_sessions p) ∧ p_sessions p ≠ [] ∧ NoDup (p_keys p);
  w_link : ∀ pat p n, pd !! pat = Some p →
    n ∈ p_sessions p ↔ ∃ st P, sts !! st = Some P ∧ num_of P = n ∧ pat ∈ pats_of P;
  w_known : ∀ st P pat, sts !! st = Some P → pat ∈ pats_of P → is_Some (pd !! pat);
}.

Record KI (D : gset string) (d : gmap string entry) (pd : gmap string pInfo) : Prop := {
  k_regex : ∀ pat p, pd !! pat = Some p → patternCompile pat = Some (p_regex p);
  k_keys : ∀ pat p k, pd !! pat = Some p →
    k ∈ p_keys p ↔ (is_Some (data_of d k) ∨ k ∈ D) ∧ keyMatchesPattern k (p_regex p);
}.

(** ** Counting *)

Lemma length_filter_change (Q Q' : string → Prop) `{!∀ x, Decision (Q x), !∀ x, Decision (Q' x)} a l :
  NoDup l → (∀ x, x ≠ a → Q x ↔ Q' x) →
  Z.of_nat (length (filter Q' l)) = Z.of_nat (length (filter Q l)) + ind (a ∈ l) * (ind (Q' a) - ind (Q a)).
Proof.
  intros Hnd HQ. induction Hnd as [|x l Hx Hnd IH]; [cbn; rewrite ind_false by set_solver; lia|].
  rewrite !filter_cons. destruct (decide (x = a)) as [->|Hne].
  - rewrite (ind_true (a ∈ a :: l)) by set_solver. rewrite (ind_false (a ∈ l)) in IH by done.
    unfold ind. repeat case_decide; cbn [length]; lia.
  - rewrite (ind_iff (a ∈ x :: l) (a ∈ l)) by set_solver. specialize (HQ x Hne).
    repeat case_decide; cbn [length]; try tauto; lia.
Qed.

Lemma reasons_keys pd P pat p re ss ks k :
  NoDup (pats_of P) → pd !! pat = Some p →
  reasons (<[pat := PInfo re ss ks]> pd) P k =
  reasons pd P k + ind (pat ∈ pats_of P) * (ind (k ∈ ks) - ind (k ∈ p_keys p)).
Proof.
  intros Hnd Hp. unfold reasons.
  rewrite (length_filter_change (listed pd k) _ pat) by
    (done || (intros x Hx; unfold listed; by rewrite lookup_insert_ne)).
  rewrite (ind_iff (listed pd k pat) (k ∈ p_keys p)) by (unfold listed; by rewrite Hp).
  rewrite (ind_iff (listed (<[pat := _]> pd) k pat) (k ∈ ks)) by (unfold listed; by rewrite lookup_insert_eq).
  lia.
Qed.

Lemma filter_local {A} (Q Q' : A → Prop) `{!∀ x, Decision (Q x), !∀ x, Decision (Q' x)} (l : list A) :
  (∀ x, x ∈ l → Q x ↔ Q' x) → filter Q l = filter Q' l.
Proof.
  induction l as [|x l IH]; intros HQ; [done|]. rewrite !filter_cons.
  rewrite IH by (intros; apply HQ; by right). specialize (HQ x ltac:(left)).
  repeat case_decide; tauto.
Qed.

Lemma reasons_frame pd pd' P P' k :
  keys_of P' = keys_of P → pats_of P' = pats_of P →
  (∀ pat, pat ∈ pats_of P → listed pd' k pat ↔ listed pd k pat) → reasons pd' P' k = reasons pd P k.
Proof. intros Hk Hp H. unfold reasons. rewrite Hk, Hp. by rewrite (filter_local _ _ _ H). Qed.

Lemma reasons_pos pd P k :
  0 < reasons pd P k ↔ k ∈ keys_of P ∨ ∃ pat, pat ∈ pats_of P ∧ listed pd k pat.
Proof.
  unfold reasons. set (l := filter _ _). split.
  - intros Hpos. destruct (decide (k ∈ keys_of P)) as [|Hk]; [by left|]. right.
    rewrite ind_false in Hpos by done. destruct l as [|x l'] eqn:El; [cbn in Hpos; lia|].
    exists x. assert (x ∈ filter (listed pd k) (pats_of P)) as Hx by (unfold l in El; rewrite El; left).
    apply list_elem_of_filter in Hx. tauto.
  - pose proof (ind_range (k ∈ keys_of P)). intros [Hk|(x & Hx & Hl)].
    + rewrite ind_true by done. lia.
    + assert (x ∈ l) as Hin by (by apply list_elem_of_filter). destruct l; [by apply not_elem_of_nil in Hin|].
      cbn [length]. lia.
Qed.

(** ** Steps that keep [WI] *)

Section steps.
Context (d : gmap string entry) (pd : gmap string pInfo) (sts : gmap ptr SCDynamicStorePrivate).
Context (HW : WI d pd sts).

Lemma link_iff pat p st P :
  pd !! pat = Some p → sts !! st = Some P → num_of P ∈ p_sessions p ↔ pat ∈ pats_of P.
Proof.
  intros Hp Hst. rewrite (w_link _ _ _ HW _ _ _ Hp). split; [|naive_solver].
  intros (st' & P' & Hst' & Hn & Hpat).
  pose proof (w_inj _ _ _ HW _ _ _ _ Hst' Hst Hn) as ->. congruence.
Qed.

Lemma refs_pos st P k :
  sts !! st = Some P →
  0 < refs d k (num_of P) ↔ k ∈ keys_of P ∨ ∃ pat, pat ∈ pats_of P ∧ listed pd k pat.
Proof. intros Hst. rewrite (w_refs _ _ _ HW _ _ _ Hst). apply reasons_pos. Qed.

Lemma refs_some k n : 0 < refs d k n → ∃ st P, sts !! st = Some P ∧ num_of P = n.
Proof.
  intros Hpos. destruct (decide (map_Forall (λ _ P, num_of P ≠ n) sts)) as [Hall|Hex].
  - rewrite (w_none _ _ _ HW) in Hpos; [done|]. intros st P Hst. by apply (Hall st).
  - apply map_not_Forall in Hex as (st & P & Hst & Hn); [|apply _].
    exists st, P. split; [done|]. by apply dec_stable.
Qed.

(** The entries changed, but not the counts. *)
Lemma WI_entries d' :
  entries_ok d' → (∀ k n, refs d' k n = refs d k n) → WI d' pd sts.
Proof.
  intros Hd Hr. destruct HW. split; try done.
  - intros. rewrite Hr. eauto.
  - intros. rewrite Hr. eauto.
Qed.

(** The key list of a pattern changed. *)
Lemma WI_key_list pat p ks d' :
  pd !! pat = Some p → NoDup ks →
  shifted (λ k n, ind (n ∈ p_sessions p) * (ind (k ∈ ks) - ind (k ∈ p_keys p))) d d' →
  WI d' (<[pat := PInfo (p_regex p) (p_sessions p) ks]> pd) sts.
Proof.
  intros Hp Hnd [Hd' _ _ Hr]. pose proof link_iff as Hlink. destruct HW. split; try done.
  - intros st P k Hst. rewrite Hr, (w_refs0 _ _ _ Hst).
    rewrite (reasons_keys pd P pat p) by (done || by eapply w_lists0).
    by rewrite (ind_iff _ _ (Hlink _ _ _ _ Hp Hst)).
  - intros n k Hn. rewrite Hr, w_none0 by done. rewrite ind_false; [done|].
    intros Hin. apply (w_link0 _ _ _ Hp) in Hin as (st & P & Hst & HP & _). by eapply Hn.
  - intros pat' p' [[<- <-]|[Hne Hp']]%lookup_insert_Some; [|eauto].
    destruct (w_pats0 _ _ Hp) as (? & ? & ?). done.
  - intros pat' p' n [[<- <-]|[Hne Hp']]%lookup_insert_Some; [|eauto]. cbn. eauto.
  - intros st P pat' Hst Hpat. rewrite lookup_insert_is_Some'. right. eauto.
Qed.

Lemma inj_insert st P P' st1 P1 st2 P2 :
  sts !! st = Some P → num_of P' = num_of P →
  <[st := P']> sts !! st1 = Some P1 → <[st := P']> sts !! st2 = Some P2 →
  num_of P1 = num_of P2 → st1 = st2.
Proof.
  intros Hst Hnum. destruct HW.
  intros [[<- <-]|[? ?]]%lookup_insert_Some [[<- <-]|[? ?]]%lookup_insert_Some Heq;
    rewrite ?Hnum in Heq; try done; by eapply w_inj0.
Qed.

Lemma others_insert st P P' n :
  sts !! st = Some P → num_of P' = num_of P →
  (∀ st1 P1, <[st := P']> sts !! st1 = Some P1 → num_of P1 ≠ n) →
  num_of P ≠ n ∧ ∀ st1 P1, sts !! st1 = Some P1 → num_of P1 ≠ n.
Proof.
  intros Hst Hnum Hn.
  assert (num_of P ≠ n) as HP by (rewrite <-Hnum; apply (Hn st); by rewrite lookup_insert_eq).
  split; [done|]. intros st1 P1 Hst1. destruct (decide (st1 = st)) as [->|Hne].
  - by replace P1 with P by congruence.
  - apply (Hn st1). by rewrite lookup_insert_ne.
Qed.

(** The sessions of a pattern, when the only one to change is [P]. *)
Lemma link_insert st P P' pat n :
  sts !! st = Some P → num_of P' = num_of P →
  (∃ st1 P1, <[st := P']> sts !! st1 = Some P1 ∧ num_of P1 = n ∧ pat ∈ pats_of P1) ↔
  (n = num_of P ∧ pat ∈ pats_of P') ∨
  (n ≠ num_of P ∧ ∃ st1 P1, sts !! st1 = Some P1 ∧ num_of P1 = n ∧ pat ∈ pats_of P1).
Proof.
  intros Hst Hnum. split.
  - intros (st1 & P1 & [[<- <-]|[Hne Hst1]]%lookup_insert_Some & Hn & Hpat).
    + left. by rewrite <-Hn.
    + right. split; [|eauto]. intros ->. by eapply Hne, (w_inj _ _ _ HW).
  - intros [[-> Hpat]|(Hn & st1 & P1 & Hst1 & HP1 & Hpat)].
    + exists st, P'. by rewrite lookup_insert_eq.
    + exists st1, P1. rewrite lookup_insert_ne; [done|]. intros ->. congruence.
Qed.

(** A session changed its own keys. *)
Lemma WI_watch st P P' d' :
  sts !! st = Some P → st_server P' = st_server P → pats_of P' = pats_of P → NoDup (keys_of P') →
  shifted (λ k n, ind (n = num_of P) * (ind (k ∈ keys_of P') - ind (k ∈ keys_of P))) d d' →
  WI d' pd (<[st := P']> sts).
Proof.
  intros Hst Hsrv Hpats Hnd [Hd' _ _ Hr]. destruct HW.
  assert (Hnum : num_of P' = num_of P) by (unfold num_of; by rewrite Hsrv).
  split; try done.
  - intros st1 P1 k [[<- <-]|[Hne Hst1]]%lookup_insert_Some.
    + rewrite Hr, Hnum, (w_refs0 _ _ _ Hst), ind_true by done. unfold reasons. rewrite Hpats. lia.
    + rewrite Hr, (w_refs0 _ _ _ Hst1), ind_false; [lia|]. intros Heq. by eapply Hne, w_inj0.
  - intros n k [Hne Hn]%(others_insert _ _ _ _ Hst Hnum). rewrite Hr, w_none0 by done.
    by rewrite ind_false by congruence.
  - intros ????. by apply (inj_insert _ _ _ _ _ _ _ Hst Hnum).
  - intros st1 P1 [[<- <-]|[? ?]]%lookup_insert_Some; [|eauto].
    split; [done|]. rewrite Hpats. by eapply w_lists0.
  - intros pat p n Hp. rewrite (link_insert _ _ _ _ _ Hst Hnum), Hpats, (w_link0 _ _ _ Hp).
    split; [|naive_solver]. intros (st1 & P1 & Hst1 & <- & Hpat).
    destruct (decide (num_of P1 = num_of P)) as [Heq|Hne]; [left|right; naive_solver].
    pose proof (w_inj0 _ _ _ _ Hst1 Hst Heq) as ->. by replace P with P1 by congruence.
  - intros st1 P1 pat [[<- <-]|[? ?]]%lookup_insert_Some Hpat; [|eauto].
    rewrite Hpats in Hpat. eauto.
Qed.

(** A session joined a pattern, which may be new. *)
Lemma WI_join st P P' pat re ss ks d' :
  sts !! st = Some P → st_server P' = st_server P → keys_of P' = keys_of P →
  pats_of P' = pats_of P ++ [pat] → pat ∉ pats_of P → NoDup ks →
  pd !! pat = Some (PInfo re ss ks) ∨ pd !! pat = None ∧ ss = [] →
  shifted (λ k n, ind (n = num_of P ∧ k ∈ ks)) d d' →
  WI d' (<[pat := PInfo re (ss ++ [num_of P]) ks]> pd) (<[st := P']> sts).
Proof.
  intros Hst Hsrv Hkeys Hpats Hpat Hnd Hpd [Hd' _ _ Hr]. pose proof link_iff as Hlink. destruct HW.
  assert (Hnum : num_of P' = num_of P) by (unfold num_of; by rewrite Hsrv).
  set (pd' := <[pat := _]> pd).
  assert (Hold : ∀ Q stq k q, sts !! stq = Some Q → q ∈ pats_of Q → listed pd' k q ↔ listed pd k q).
  { intros Q stq k q HQ Hq. unfold listed, pd'. destruct (decide (q = pat)) as [->|Hne].
    - rewrite lookup_insert_eq. destruct Hpd as [->|[Hp _]]; [done|].
      destruct (w_known0 _ _ _ HQ Hq). congruence.
    - by rewrite lookup_insert_ne. }
  assert (Hss : NoDup ss ∧ num_of P ∉ ss ∧ ∀ n, n ∈ ss ↔
      ∃ st P, sts !! st = Some P ∧ num_of P = n ∧ pat ∈ pats_of P).
  { destruct Hpd as [Hp|[Hp ->]].
    - destruct (w_pats0 _ _ Hp) as (? & _ & _). split; [done|]. split; [|exact (λ n, w_link0 _ _ n Hp)].
      intros Hin. apply Hpat. by apply (Hlink _ _ _ _ Hp Hst).
    - split; [constructor|]. split; [set_solver|]. intros n. split; [set_solver|].
      intros (st1 & P1 & Hst1 & _ & Hin). destruct (w_known0 _ _ _ Hst1 Hin). congruence. }
  destruct Hss as (Hss & Hnss & Hlss). split; try done.
  - intros st1 P1 k [[<- <-]|[Hne Hst1]]%lookup_insert_Some.
    + rewrite Hr, Hnum, (w_refs0 _ _ _ Hst). unfold reasons. rewrite Hkeys, Hpats, filter_app, length_app.
      rewrite (filter_local (listed pd' k) (listed pd k) (pats_of P)) by eauto.
      rewrite filter_cons, filter_nil.
      assert (Hl : listed pd' k pat ↔ k ∈ ks) by (unfold listed, pd'; by rewrite lookup_insert_eq).
      rewrite (ind_iff (num_of P = num_of P ∧ k ∈ ks) (k ∈ ks)) by tauto.
      unfold ind at 2. repeat case_decide; try tauto; cbn [length]; lia.
    + rewrite Hr, (w_refs0 _ _ _ Hst1), ind_false; [|intros [Heq ?]; apply Hne; by eapply w_inj0].
      rewrite Z.add_0_r. symmetry. apply reasons_frame; eauto.
  - intros n k [Hne Hn]%(others_insert _ _ _ _ Hst Hnum). rewrite Hr, w_none0 by done.
    rewrite ind_false; [done|]. intros [-> _]. done.
  - intros ????. by apply (inj_insert _ _ _ _ _ _ _ Hst Hnum).
  - intros st1 P1 [[<- <-]|[? ?]]%lookup_insert_Some; [|eauto]. rewrite Hkeys, Hpats.
    destruct (w_lists0 _ _ Hst). split; [done|]. apply NoDup_app. split; [done|].
    split; [set_solver|apply NoDup_singleton].
  - intros pat1 p1 [[<- <-]|[? ?]]%lookup_insert_Some; [|eauto]. cbn. split; [|split; [by destruct ss|done]].
    apply NoDup_app. split; [done|]. split; [set_solver|apply NoDup_singleton].
  - intros pat1 p1 n Hp1. rewrite (link_insert _ _ _ _ _ Hst Hnum), Hpats.
    destruct (decide (pat1 = pat)) as [->|Hne].
    + unfold pd' in Hp1. rewrite lookup_insert_eq in Hp1. injection Hp1 as <-. cbn.
      rewrite elem_of_app, list_elem_of_singleton, Hlss. rewrite elem_of_app, list_elem_of_singleton.
      split; [|naive_solver].
      intros [Hex| ->]; [|left; auto]. destruct (decide (n = num_of P)); [left; auto|by right].
    + unfold pd' in Hp1. rewrite lookup_insert_ne in Hp1 by done. rewrite (w_link0 _ _ _ Hp1).
      rewrite elem_of_app, list_elem_of_singleton. split; [|naive_solver].
      intros (st1 & P1 & Hst1 & <- & Hin).
      destruct (decide (num_of P1 = num_of P)) as [Heq|]; [left|right; naive_solver].
      pose proof (w_inj0 _ _ _ _ Hst1 Hst Heq) as ->. replace P with P1 by congruence. auto.
  - intros st1 P1 pat1 [[<- <-]|[? ?]]%lookup_insert_Some Hin; apply lookup_insert_is_Some'; [|eauto].
    rewrite Hpats in Hin. apply elem_of_app in Hin as [Hin|Hin]; [eauto|set_solver].
Qed.

(** A session left a pattern, which goes with its last session. *)
Lemma WI_leave st P P' pat p i j pd' d' :
  sts !! st = Some P → st_server P' = st_server P → keys_of P' = keys_of P →
  pats_of P' = delete i (pats_of P) → pats_of P !! i = Some pat →
  pd !! pat = Some p → p_sessions p !! j = Some (num_of P) →
  pd' = (if (1 <? length (p_sessions p))%nat
         then <[pat := PInfo (p_regex p) (delete j (p_sessions p)) (p_keys p)]> pd else delete pat pd) →
  shifted (λ k n, - ind (n = num_of P ∧ k ∈ p_keys p)) d d' →
  WI d' pd' (<[st := P']> sts).
Proof.
  intros Hst Hsrv Hkeys Hpats Hi Hp Hj Hpd' [Hd' _ _ Hr]. pose proof link_iff as Hlink. destruct HW.
  assert (Hnum : num_of P' = num_of P) by (unfold num_of; by rewrite Hsrv).
  destruct (w_lists0 _ _ Hst) as [Hndk Hndp]. destruct (w_pats0 _ _ Hp) as (Hss & _ & Hks).
  assert (Hin : ∀ q, q ∈ pats_of P' ↔ q ∈ pats_of P ∧ q ≠ pat).
  { intros q. rewrite Hpats. by apply elem_of_delete. }
  assert (Hother : ∀ q, q ≠ pat → pd' !! q = pd !! q).
  { intros q Hq. rewrite Hpd'. case_match; [by rewrite lookup_insert_ne|by rewrite lookup_delete_ne]. }
  assert (Hdel : ∀ n, n ∈ delete j (p_sessions p) ↔ n ∈ p_sessions p ∧ n ≠ num_of P).
  { intros n. by apply elem_of_delete. }
  assert (Hsame : ∀ p', pd' !! pat = Some p' → p_keys p' = p_keys p ∧
    p_sessions p' = delete j (p_sessions p) ∧ delete j (p_sessions p) ≠ []).
  { intros p' Hp'. rewrite Hpd' in Hp'. destruct (Nat.ltb_spec 1 (length (p_sessions p))) as [Hlt|].
    - rewrite lookup_insert_eq in Hp'. injection Hp' as <-. cbn. split; [done|]. split; [done|].
      intros Hnil. apply (f_equal length) in Hnil. rewrite length_delete in Hnil by eauto. cbn in Hnil. lia.
    - by rewrite lookup_delete_eq in Hp'. }
  assert (Hgone : pd' !! pat = None → ∀ n, n ∈ p_sessions p → n = num_of P).
  { intros Hp' n Hn. rewrite Hpd' in Hp'. destruct (Nat.ltb_spec 1 (length (p_sessions p))) as [Hlt|Hge].
    - by rewrite lookup_insert_eq in Hp'.
    - destruct (p_sessions p) as [|m [|? ?]]; [set_solver| |cbn in Hge; lia].
      apply list_elem_of_singleton in Hn as ->. destruct j; [by injection Hj|done]. }
  assert (Hold : ∀ Q stq k q, sts !! stq = Some Q → stq ≠ st → q ∈ pats_of Q →
    listed pd' k q ↔ listed pd k q).
  { intros Q stq k q HQ Hne Hq. unfold listed. destruct (decide (q = pat)) as [->|Hqp].
    - rewrite Hp. destruct (pd' !! pat) as [p'|] eqn:Ep'; [by destruct (Hsame _ eq_refl) as [-> _]|].
      apply (Hlink _ _ _ _ Hp HQ), (Hgone eq_refl) in Hq. destruct Hne. by eapply w_inj0.
    - by rewrite Hother. }
  split; try done.
  - intros st1 P1 k [[<- <-]|[Hne Hst1]]%lookup_insert_Some.
    + rewrite Hr, Hnum, (w_refs0 _ _ _ Hst). unfold reasons. rewrite Hkeys.
      rewrite (filter_local (listed pd' k) (listed pd k) (pats_of P')).
      2:{ intros q [_ Hq]%Hin. unfold listed. by rewrite Hother. }
      rewrite Hpats. rewrite (delete_Permutation _ _ _ Hi) at 1. rewrite filter_cons.
      assert (Hl : listed pd k pat ↔ k ∈ p_keys p) by (unfold listed; by rewrite Hp).
      rewrite (ind_iff (num_of P = num_of P ∧ k ∈ p_keys p) (k ∈ p_keys p)) by tauto.
      unfold ind at 2. repeat case_decide; try tauto; cbn [length]; lia.
    + rewrite Hr, (w_refs0 _ _ _ Hst1), ind_false; [|intros [Heq ?]; by eapply Hne, w_inj0].
      rewrite Z.add_0_r. symmetry. apply reasons_frame; eauto.
  - intros n k [Hne Hn]%(others_insert _ _ _ _ Hst Hnum). rewrite Hr, w_none0 by done.
    rewrite ind_false; [done|]. intros [-> _]. done.
  - intros ????. by apply (inj_insert _ _ _ _ _ _ _ Hst Hnum).
  - intros st1 P1 [[<- <-]|[? ?]]%lookup_insert_Some; [|eauto]. rewrite Hkeys, Hpats.
    split; [done|]. by apply NoDup_delete.
  - intros pat1 p1 Hp1. destruct (decide (pat1 = pat)) as [->|Hne].
    + destruct (Hsame _ Hp1) as (-> & -> & ?). split; [|done].
      by apply NoDup_delete.
    + rewrite Hother in Hp1 by done. eauto.
  - intros pat1 p1 n Hp1. rewrite (link_insert _ _ _ _ _ Hst Hnum), Hin.
    destruct (decide (pat1 = pat)) as [->|Hne].
    + destruct (Hsame _ Hp1) as (_ & -> & _). rewrite Hdel, (w_link0 _ _ _ Hp). naive_solver.
    + rewrite Hother in Hp1 by done. rewrite (w_link0 _ _ _ Hp1). split; [|naive_solver].
      intros (st1 & P1 & Hst1 & <- & Hpat1).
      destruct (decide (num_of P1 = num_of P)) as [Heq|]; [left|right; naive_solver].
      pose proof (w_inj0 _ _ _ _ Hst1 Hst Heq) as ->. replace P with P1 by congruence. auto.
  - intros st1 P1 pat1 [[<- <-]|[Hne Hst1]]%lookup_insert_Some Hpat1.
    + apply Hin in Hpat1 as [? ?]. rewrite Hother by done. eauto.
    + destruct (decide (pat1 = pat)) as [->|]; [|rewrite Hother by done; eauto].
      destruct (pd' !! pat) eqn:Ep'; [eauto|]. destruct Hne.
      apply (Hlink _ _ _ _ Hp Hst1), (Hgone eq_refl) in Hpat1. by eapply w_inj0.
Qed.

(** A new session, which watches nothing. *)
Lemma WI_open st P :
  sts !! st = None → keys_of P = [] → pats_of P = [] →
  (∀ st1 P1, sts !! st1 = Some P1 → num_of P1 ≠ num_of P) →
  WI d pd (<[st := P]> sts).
Proof.
  intros Hst Hk Hp Hnew. destruct HW. split; try done.
  - intros st1 P1 k [[<- <-]|[? ?]]%lookup_insert_Some; [|eauto].
    rewrite w_none0 by done. unfold reasons. by rewrite Hk, Hp, ind_false by set_solver.
  - intros n k Hn. apply w_none0. intros st1 P1 Hst1. apply (Hn st1). rewrite lookup_insert_ne by congruence.
    done.
  - intros st1 P1 st2 P2 [[<- <-]|[? ?]]%lookup_insert_Some [[<- <-]|[? ?]]%lookup_insert_Some Heq;
      try done; [by destruct (Hnew st2 P2)|by destruct (Hnew st1 P1)|by eapply w_inj0].
  - intros st1 P1 [[<- <-]|[? ?]]%lookup_insert_Some; [|eauto]. rewrite Hk, Hp. split; constructor.
  - intros pat p n Hpd. rewrite (w_link0 _ _ _ Hpd). split.
    + intros (st1 & P1 & ? & ?). exists st1, P1. rewrite lookup_insert_ne by congruence. done.
    + intros (st1 & P1 & [[<- <-]|[? ?]]%lookup_insert_Some & Hn & Hin); [|eauto].
      rewrite Hp in Hin. set_solver.
  - intros st1 P1 pat [[<- <-]|[? ?]]%lookup_insert_Some Hin; [|eauto]. rewrite Hp in Hin. set_solver.
Qed.

(** A session that watches nothing is gone. *)
Lemma WI_close st P :
  sts !! st = Some P → keys_of P = [] → pats_of P = [] → WI d pd (delete st sts).
Proof.
  intros Hst Hk Hp. destruct HW. split; try done.
  - intros st1 P1 k [? ?]%lookup_delete_Some. eauto.
  - intros n k Hn. destruct (decide (num_of P = n)) as [<-|Hne].
    + rewrite (w_refs0 _ _ _ Hst). unfold reasons. by rewrite Hk, Hp, ind_false by set_solver.
    + apply w_none0. intros st1 P1 Hst1. destruct (decide (st1 = st)) as [->|]; [congruence|].
      apply (Hn st1). by rewrite lookup_delete_ne.
  - intros st1 P1 st2 P2 [? ?]%lookup_delete_Some [? ?]%lookup_delete_Some. eauto.
  - intros st1 P1 [? ?]%lookup_delete_Some. eauto.
  - intros pat p n Hpd. rewrite (w_link0 _ _ _ Hpd). split.
    + intros (st1 & P1 & Hst1 & Hn & Hin). destruct (decide (st1 = st)) as [->|].
      * replace P1 with P in Hin by congruence. rewrite Hp in Hin. set_solver.
      * exists st1, P1. by rewrite lookup_delete_ne.
    + intros (st1 & P1 & [? ?]%lookup_delete_Some & ?). eauto.
  - intros st1 P1 pat [? ?]%lookup_delete_Some. eauto.
Qed.

(** A session changed something else. *)
Lemma WI_same st P P' :
  sts !! st = Some P → st_server P' = st_server P → keys_of P' = keys_of P → pats_of P' = pats_of P →
  WI d pd (<[st := P']> sts).
Proof.
  intros Hst Hsrv Hk Hp. apply (WI_watch st P); try done.
  - rewrite Hk. by eapply (w_lists _ _ _ HW).
  - eapply shifted_ext; [|apply shifted_refl, HW]. intros k n. cbn. rewrite Hk. lia.
Qed.
End steps.

(** ** Keys enter and leave patterns *)

Lemma cf_keys_elem {A} (m : gmap string A) k : k ∈ cf_keys m ↔ is_Some (m !! k).
Proof.
  unfold cf_keys. rewrite (cf_order_perm _). rewrite list_elem_of_fmap. split.
  - intros ([k' x] & -> & Hin%elem_of_map_to_list). eauto.
  - intros [x Hx]. exists (k, x). by rewrite elem_of_map_to_list.
Qed.

Lemma cf_keys_NoDup {A} (m : gmap string A) : NoDup (cf_keys m).
Proof. unfold cf_keys. rewrite (cf_order_perm _). apply NoDup_fst_map_to_list. Qed.

(** A pass over the patterns that replaces each one by [g] of it. *)
Lemma apply_patterns_spec body (g : pInfo → pInfo)
    (I : gmap string entry → gmap string pInfo → Prop) (s : dynstore) :
  (∀ s' pat p, I (storeData s') (patternData s') → patternData s !! pat = Some p →
     patternData s' !! pat = Some p →
     ∃ d', body pat p s' = Some (tt, set_storeData d' (set_patternData (<[pat := g p]> (patternData s')) s'))
           ∧ I d' (<[pat := g p]> (patternData s'))) →
  I (storeData s) (patternData s) →
  ∃ d', apply_patterns body s = Some (tt, set_storeData d' (set_patternData (g <$> patternData s) s)) ∧
        I d' (g <$> patternData s).
Proof.
  intros Hbody HI. unfold apply_patterns. unfold bind at 1, gets at 1.
  assert (Hloop : ∀ l s', NoDup l → (∀ pat, pat ∈ l → patternData s' !! pat = patternData s !! pat) →
    I (storeData s') (patternData s') →
    ∃ d' pd', for_each l (λ pattern, match patternData s !! pattern with
        Some p => body pattern p | None => ret tt end) s'
      = Some (tt, set_storeData d' (set_patternData pd' s')) ∧ I d' pd' ∧
      ∀ pat, pd' !! pat = if decide (pat ∈ l) then g <$> patternData s !! pat else patternData s' !! pat).
  { induction l as [|pat l IH]; intros s' Hnd Hl HI'; cbn [for_each].
    - exists (storeData s'), (patternData s'). split; [by destruct s'|]. done.
    - apply NoDup_cons in Hnd as [Hpat Hnd]. destruct (patternData s !! pat) as [p|] eqn:Ep.
      + assert (patternData s' !! pat = Some p) as Ep' by (rewrite Hl by left; done).
        destruct (Hbody s' pat p HI' Ep Ep') as (d1 & E1 & H1). unfold bind at 1. rewrite E1.
        destruct (IH (set_storeData d1 (set_patternData (<[pat := g p]> (patternData s')) s')))
          as (d2 & pd2 & E2 & H2 & Hpd2); [done| |done|].
        { intros q Hq. cbn. rewrite lookup_insert_ne by set_solver. apply Hl. by right. }
        exists d2, pd2. split; [by rewrite E2|]. split; [done|]. intros q. rewrite Hpd2. cbn.
        destruct (decide (q = pat)) as [->|Hne].
        * rewrite decide_False, decide_True by (done || left). by rewrite Ep, lookup_insert_eq.
        * rewrite lookup_insert_ne by done. repeat case_decide; set_solver.
      + unfold bind at 1, ret at 1. destruct (IH s') as (d2 & pd2 & E2 & H2 & Hpd2); [done| |done|].
        { intros q Hq. apply Hl. by right. }
        exists d2, pd2. split; [done|]. split; [done|]. intros q. rewrite Hpd2.
        destruct (decide (q = pat)) as [->|Hne].
        * rewrite decide_False, decide_True by (done || left). rewrite Ep. by rewrite Hl, Ep by left.
        * repeat case_decide; set_solver. }
  destruct (Hloop (cf_keys (patternData s)) s) as (d' & pd' & E & HI' & Hpd');
    [apply cf_keys_NoDup|done|done|].
  assert (pd' = g <$> patternData s) as ->.
  { apply map_eq. intros q. rewrite Hpd', lookup_fmap. case_decide as Hq; [done|].
    rewrite cf_keys_elem in Hq. by rewrite <-eq_None_not_Some in Hq; rewrite Hq. }
  exists d'. done.
Qed.

(** The watcher entries changed by a pattern operation: same values and owners. *)
Definition same_values (d d' : gmap string entry) : Prop :=
  (∀ k, data_of d' k = data_of d k) ∧ (∀ k, owner_of d' k = owner_of d k).

Lemma shifted_values f d d' : shifted f d d' → same_values d d'.
Proof. by intros [? ? ? ?]. Qed.

Lemma same_values_refl d : same_values d d.
Proof. done. Qed.

Lemma same_values_trans d1 d2 d3 : same_values d1 d2 → same_values d2 d3 → same_values d1 d3.
Proof. intros [H1 H1'] [H2 H2']. split; intros; [by rewrite H2, H1|by rewrite H2', H1']. Qed.

Definition with_key (k : string) (p : pInfo) : pInfo :=
  if keyMatchesPattern k (p_regex p) then PInfo (p_regex p) (p_sessions p) (p_keys p ++ [k]) else p.
Definition without_key (k : string) (p : pInfo) : pInfo :=
  match first_index k (p_keys p) with
  | Some i => PInfo (p_regex p) (p_sessions p) (delete i (p_keys p))
  | None => p
  end.

Lemma set_same (s : dynstore) pat p :
  patternData s !! pat = Some p →
  s = set_storeData (storeData s) (set_patternData (<[pat := p]> (patternData s)) s).
Proof. intros Hp. rewrite insert_id by done. by destruct s. Qed.

Lemma patternAddKey_spec k (s : dynstore) :
  WI (storeData s) (patternData s) (stores s) →
  (∀ pat p, patternData s !! pat = Some p → k ∉ p_keys p) →
  ∃ d', patternAddKey k s =
          Some (tt, set_storeData d' (set_patternData (with_key k <$> patternData s) s)) ∧
        WI d' (with_key k <$> patternData s) (stores s) ∧ same_values (storeData s) d'.
Proof.
  intros HW Hk.
  apply (apply_patterns_spec _ (with_key k) (λ d pd, WI d pd (stores s) ∧ same_values (storeData s) d));
    [|done].
  intros s' pat p [HW' Hsv] Hp Hp'. unfold addKeyForPattern, with_key.
  destruct (keyMatchesPattern k (p_regex p)); [|eexists; split; [by rewrite <-set_same|by rewrite insert_id]].
  destruct (addWatchers_spec id (λ _, k) (p_sessions p) s' (w_entries _ _ _ HW')) as (d' & E & Hsh).
  exists d'. unfold bind at 1. unfold id in E. rewrite E. split; [done|].
  destruct (w_pats _ _ _ HW' _ _ Hp') as (Hnd & _ & Hndk).
  split; [|by eapply same_values_trans, shifted_values].
  apply (WI_key_list _ _ _ HW' _ p); [done|apply NoDup_app; split; [done|]|].
  - split; [|apply NoDup_singleton]. specialize (Hk _ _ Hp). set_solver.
  - eapply shifted_ext, Hsh. intros k' n. rewrite tally_sessions by done. specialize (Hk _ _ Hp).
    destruct (decide (k' = k)) as [->|Hne].
    + rewrite (ind_true (k ∈ p_keys p ++ [k])), (ind_false (k ∈ p_keys p)) by set_solver.
      rewrite (ind_iff (k = k ∧ n ∈ p_sessions p) (n ∈ p_sessions p)) by tauto. lia.
    + rewrite (ind_iff (k' ∈ p_keys p ++ [k]) (k' ∈ p_keys p)) by set_solver.
      rewrite ind_false by tauto. lia.
Qed.

Lemma patternRemoveKey_spec k (s : dynstore) :
  WI (storeData s) (patternData s) (stores s) →
  ∃ d', patternRemoveKey k s =
          Some (tt, set_storeData d' (set_patternData (without_key k <$> patternData s) s)) ∧
        WI d' (without_key k <$> patternData s) (stores s) ∧ same_values (storeData s) d'.
Proof.
  intros HW.
  apply (apply_patterns_spec _ (without_key k) (λ d pd, WI d pd (stores s) ∧ same_values (storeData s) d));
    [|done].
  intros s' pat p [HW' Hsv] Hp Hp'. unfold removeKeyFromPattern, without_key.
  destruct (first_index k (p_keys p)) as [i|] eqn:Ei;
    [|eexists; split; [by rewrite <-set_same|by rewrite insert_id]].
  destruct (first_index_Some _ _ _ Ei) as [Hi _].
  assert (Hin : k ∈ p_keys p) by (by eapply list_elem_of_lookup_2).
  destruct (w_pats _ _ _ HW' _ _ Hp') as (Hnd & _ & Hndk).
  destruct (removeWatchers_spec id (λ _, k) (p_sessions p) s' (w_entries _ _ _ HW')) as (d' & E & Hsh).
  { intros k' n. rewrite tally_sessions by done. unfold ind. case_decide as Hc.
    - destruct Hc as [-> Hn]. apply (w_link _ _ _ HW' _ _ _ Hp') in Hn as (st & P & Hst & <- & Hpat).
      enough (0 < refs (storeData s') k (num_of P)) by lia.
      apply (refs_pos _ _ _ HW' _ _ _ Hst). right. exists pat. unfold listed. by rewrite Hp'.
    - apply refs_nonneg, HW'. }
  exists d'. unfold bind at 1. unfold id in E. rewrite E. split; [done|].
  split; [|by eapply same_values_trans, shifted_values].
  apply (WI_key_list _ _ _ HW' _ p); [done|by apply NoDup_delete|].
  eapply shifted_ext, Hsh. intros k' n. cbn. rewrite tally_sessions by done.
  rewrite (ind_iff (k' ∈ delete i (p_keys p)) (k' ∈ p_keys p ∧ k' ≠ k)) by (by apply elem_of_delete).
  unfold ind. repeat case_decide; try lia; naive_solver.
Qed.

(** ** The key lists stay exact *)

Lemma KI_same D d pd D' d' :
  KI D d pd →
  (∀ k, is_Some (data_of d' k) ∨ k ∈ D' ↔ is_Some (data_of d k) ∨ k ∈ D) → KI D' d' pd.
Proof. intros [Hr Hk] Heq. split; [done|]. intros pat p k Hp. rewrite Heq. by apply (Hk pat). Qed.

Lemma KI_values D d pd d' : KI D d pd → same_values d d' → KI D d' pd.
Proof. intros HK [Hv _]. apply (KI_same _ _ _ _ _ HK). intros k. by rewrite Hv. Qed.

Lemma KI_add D d pd d' k :
  KI D d pd → data_of d k = None → k ∉ D → is_Some (data_of d' k) →
  (∀ k', k' ≠ k → data_of d' k' = data_of d k') → KI D d' (with_key k <$> pd).
Proof.
  intros [Hr Hk] Hd HD Hd' Hother. split; intros pat p.
  - rewrite lookup_fmap. destruct (pd !! pat) as [q|] eqn:Eq; [|done]. intros [= <-].
    unfold with_key. destruct (keyMatchesPattern _ _); exact (Hr _ _ Eq).
  - intros k'. rewrite lookup_fmap. destruct (pd !! pat) as [q|] eqn:Eq; [|done]. intros [= <-].
    specialize (Hk _ _ k' Eq). unfold with_key. destruct (decide (k' = k)) as [->|Hne].
    + destruct (keyMatchesPattern k (p_regex q)) eqn:Em; cbn; rewrite ?Em;
        [set_solver|rewrite Hk; naive_solver].
    + case_match; cbn; rewrite ?elem_of_app, ?list_elem_of_singleton, Hk, Hother by done; naive_solver.
Qed.

Lemma KI_flush D d pd d' k :
  KI D d pd → data_of d k = None → same_values d d' →
  (∀ pat p, pd !! pat = Some p → NoDup (p_keys p)) →
  KI (D ∖ {[k]}) d' (without_key k <$> pd).
Proof.
  intros [Hr Hk] Hd [Hv _] Hnd. split; intros pat p.
  - rewrite lookup_fmap. destruct (pd !! pat) as [q|] eqn:Eq; [|done]. intros [= <-].
    unfold without_key. destruct (first_index _ _); exact (Hr _ _ Eq).
  - intros k'. rewrite lookup_fmap. destruct (pd !! pat) as [q|] eqn:Eq; [|done]. intros [= <-].
    specialize (Hk _ _ k' Eq). unfold without_key. rewrite Hv.
    assert (is_Some (data_of d k') → k' ≠ k) by (intros [? ?] ->; congruence).
    rewrite elem_of_difference, elem_of_singleton.
    destruct (first_index k (p_keys q)) as [i|] eqn:Ei; cbn.
    + destruct (first_index_Some _ _ _ Ei) as [Hi _].
      rewrite (elem_of_delete _ _ _ _ (Hnd _ _ Eq) Hi), Hk. tauto.
    + apply first_index_None in Ei. destruct (decide (k' = k)) as [->|Hne]; [tauto|]. rewrite Hk. tauto.
Qed.

End inv.
