(* ===== verification/StoreOps.v ===== *)
(** * Operations on the dynamic store

    [_configset.c], [_configadd.c], [_configget.c], [_configremove.c],
    [_confignotify.c], [_configlist.c], [_configunlock.c], [_notifyadd.c],
    [_notifyremove.c], [_notifychanges.c], [_notifycancel.c] and the three
    [_notifyvia*.c]: the functions [__SCDynamicStore...] that act for a session. *)

From S2P Require Import Prelude StoreTypes.
Local Open Scope c_scope.
Local Open Scope Z_scope.

Section ops.
Context {RL : RegexLib} {CO : CFOrder} {MK : MachKernel}.

(** ** Pushing changes *)

(** The body of the inner loop of [_notifyWatchers]. *)
Definition notifyWatcher (k : string) (watcher : Z) : C dynstore unit :=
  let sessionKey := fmt_d watcher in
  let* sd := gets sessionData in
  let newInfo := default empty_info (sd !! sessionKey) in
  let changes := default [] (i_changedKeys newInfo) in
  let newChanges := if decide (k ∈ changes) then changes else changes ++ [k] in
  put_info sessionKey (info_changed (Some newChanges) newInfo) ;;
  modify (λ s, set_needsNotification (Some ({[watcher]} ∪ default ∅ (needsNotification s))) s).

Definition _notifyWatchers : C dynstore unit :=
  let* changed := gets changedKeys in
  if decide (changed = ∅) then ret tt else
  for_each (rev (cf_elements changed)) (λ k,
    let* d := gets storeData in
    match d !! k with
    | None => ret tt
    | Some dict =>
        match e_watchers dict with
        | None => ret tt
        | Some ws => for_each (rev ws) (notifyWatcher k)
        end
    end) ;;
  modify (set_changedKeys ∅).

Definition _processDeferredRemovals : C dynstore unit :=
  let* removals := gets deferredRemovals in
  if decide (removals = ∅) then ret tt else
  for_each (rev (cf_elements removals)) patternRemoveKey ;;
  modify (set_deferredRemovals ∅).

(** [CFStringFind (removedKey, ":")]: what is before and after the first colon.
    Without one the ranges are meaningless; such an entry is never made. *)
Fixpoint split_colon (s : string) : option (string * string) :=
  match s with
  | EmptyString => None
  | String a s =>
      if Ascii.eqb a ":" then Some (EmptyString, s)
      else '(x, y) ← split_colon s; Some (String a x, y)
  end.

Definition _cleanupRemovedSessionKeys (removedKey : string) : C dynstore unit :=
  let* ' (sessionKey, k) := deref (split_colon removedKey) in
  let* sd := gets sessionData in
  match sd !! sessionKey with
  | None => ret tt
  | Some sessionDict =>
      match i_sessionKeys sessionDict with
      | None => ret tt
      | Some sessionKeys =>
          match first_index k sessionKeys with
          | None => ret tt
          | Some i =>
              put_info sessionKey (info_sessionKeys
                (if (length sessionKeys =? 1)%nat then None else Some (delete i sessionKeys))
                sessionDict)
          end
      end
  end.

Definition __SCDynamicStorePush : C dynstore Z :=
  _notifyWatchers ;;
  _processDeferredRemovals ;;
  let* removed := gets removedSessionKeys in
  for_each (cf_elements removed) _cleanupRemovedSessionKeys ;;
  modify (set_removedSessionKeys ∅) ;;
  ret kSCStatusOK.

Definition push_unless (internal : bool) : C dynstore unit :=
  if internal then ret tt else __SCDynamicStorePush ;; ret tt.

(** ["%@:%@"] *)
Definition removed_key (sessionKey k : string) : string :=
  String.append sessionKey (String.append ":" k).

(** ** Values *)

Definition __SCDynamicStoreCopyValue (st : ptr) (k : string) : C dynstore (Z * option (list byte)) :=
  let* d := gets storeData in
  ret (match d !! k with
       | Some dict => match e_data dict with
                      | Some value => (kSCStatusOK, Some value)
                      | None => (kSCStatusNoKey, None)
                      end
       | None => (kSCStatusNoKey, None)
       end).

(** The entry to be stored by a SetValue, or [None] for kSCStatusKeyExists. *)
Definition set_session_mark (st : ptr) (k : string) (newEntry : bool) (newDict : entry)
    : C dynstore (option entry) :=
  let* S := load_store st in
  let sessionKey := session_key (st_server S) in
  if st_useSessionKeys S then
    if newEntry then
      let* sd := gets sessionData in
      let* session := deref (sd !! sessionKey) in
      let keys := default [] (i_sessionKeys session) in
      when (negb (bool_decide (k ∈ keys)))
        (put_info sessionKey (info_sessionKeys (Some (keys ++ [k])) session)) ;;
      ret (Some (with_session (Some sessionKey) newDict))
    else
      ret (if decide (e_session newDict = Some sessionKey) then Some newDict else None)
  else
    match e_session newDict with
    | Some storeSessionKey =>
        if negb newEntry && negb (storeSessionKey =? sessionKey)%string then
          modify (λ s, set_removedSessionKeys
            ({[removed_key storeSessionKey k]} ∪ removedSessionKeys s) s) ;;
          ret (Some (with_session None newDict))
        else ret (Some newDict)
    | None => ret (Some newDict)
    end.

Definition __SCDynamicStoreSetValue (st : ptr) (k : string) (value : list byte) (internal : bool)
    : C dynstore Z :=
  let* d := gets storeData in
  let dict := default empty_entry (d !! k) in
  let newEntry := negb (is_some (e_data dict)) in
  let* o := set_session_mark st k newEntry (with_data (Some value) dict) in
  match o with
  | None => push_unless internal ;; ret kSCStatusKeyExists
  | Some newDict =>
      put_entry k newDict ;;
      (if newEntry then
         let* removals := gets deferredRemovals in
         if decide (k ∈ removals)
         then modify (λ s, set_deferredRemovals (deferredRemovals s ∖ {[k]}) s)
         else patternAddKey k
       else ret tt) ;;
      modify (λ s, set_changedKeys ({[k]} ∪ changedKeys s) s) ;;
      push_unless internal ;;
      ret kSCStatusOK
  end.

Definition __SCDynamicStoreRemoveValue (st : ptr) (k : string) (internal : bool) : C dynstore Z :=
  let* d := gets storeData in
  match d !! k with
  | None => ret kSCStatusNoKey
  | Some dict =>
      if negb (is_some (e_data dict)) then ret kSCStatusNoKey else
      modify (λ s, set_changedKeys ({[k]} ∪ changedKeys s) s) ;;
      modify (λ s, set_deferredRemovals ({[k]} ∪ deferredRemovals s) s) ;;
      match e_session dict with
      | Some sessionKey =>
          modify (λ s, set_removedSessionKeys
            ({[removed_key sessionKey k]} ∪ removedSessionKeys s) s)
      | None => ret tt
      end ;;
      let newDict := with_data None (with_session None dict) in
      (if (0 <? entry_count newDict)%nat then put_entry k newDict else del_entry k) ;;
      push_unless internal ;;
      ret kSCStatusOK
  end.

Definition __SCDynamicStoreAddValue (st : ptr) (k : string) (value : list byte) : C dynstore Z :=
  let* ' (sc_status, _) := __SCDynamicStoreCopyValue st k in
  if sc_status =? kSCStatusOK then ret kSCStatusKeyExists else
  if negb (sc_status =? kSCStatusNoKey) then ret sc_status else
  let* sc_status := __SCDynamicStoreSetValue st k value true in
  __SCDynamicStorePush ;;
  ret sc_status.

Definition __SCDynamicStoreNotifyValue (st : ptr) (k : string) (internal : bool) : C dynstore Z :=
  let* d := gets storeData in
  match d !! k ≫= e_data with
  | Some value =>
      __SCDynamicStoreSetValue st k value true ;;
      push_unless internal ;;
      ret kSCStatusOK
  | None =>
      __SCDynamicStoreSetValue st k m_true_data true ;;
      __SCDynamicStoreRemoveValue st k true ;;
      push_unless internal ;;
      ret kSCStatusOK
  end.

(** [CFDictionaryApplyFunction (keysToSet, setSpecificKey)]: [keysToSet] in the
    order CF enumerates it. *)
Definition setSpecificKey (st : ptr) (kv : string * cftype) : C dynstore unit :=
  match kv with
  | (k, CFData v) => __SCDynamicStoreSetValue st k v true ;; ret tt
  | _ => ret tt
  end.
Definition removeSpecificKey (st : ptr) (value : cftype) : C dynstore unit :=
  match value with
  | CFString k => __SCDynamicStoreRemoveValue st k true ;; ret tt
  | _ => ret tt
  end.
Definition notifySpecificKey (st : ptr) (value : cftype) : C dynstore unit :=
  match value with
  | CFString k => __SCDynamicStoreNotifyValue st k true ;; ret tt
  | _ => ret tt
  end.

Definition __SCDynamicStoreSetMultiple (st : ptr) (keysToSet : option (list (string * cftype)))
    (keysToRemove keysToNotify : option (list cftype)) : C dynstore Z :=
  for_each (default [] keysToSet) (setSpecificKey st) ;;
  for_each (default [] keysToRemove) (removeSpecificKey st) ;;
  for_each (default [] keysToNotify) (notifySpecificKey st) ;;
  __SCDynamicStorePush ;;
  ret kSCStatusOK.

Definition __SCDynamicStoreCopyKeyList (st : ptr) (k : string) (isRegex : bool)
    : C dynstore (Z * list string) :=
  if isRegex then
    let* o := patternCopyMatches k in
    ret (match o with Some l => (kSCStatusOK, l) | None => (kSCStatusFailed, []) end)
  else
    let* d := gets storeData in
    ret (kSCStatusOK,
         filter (λ x, Is_true (((k =? EmptyString)%string || has_prefix k x) &&
                      match d !! x with Some e => is_some (e_data e) | None => false end))
           (cf_keys d)).

Definition addSpecificKey (st : ptr) (value : cftype) (dict : gmap string (list byte))
    : C dynstore (gmap string (list byte)) :=
  match value with
  | CFString k =>
      let* ' (_, o) := __SCDynamicStoreCopyValue st k in
      ret (match o with
           | Some data => if decide (is_Some (dict !! k)) then dict else <[k := data]> dict
           | None => dict
           end)
  | _ => ret dict
  end.

Fixpoint addSpecificKeys (st : ptr) (l : list cftype) (dict : gmap string (list byte))
    : C dynstore (gmap string (list byte)) :=
  match l with
  | [] => ret dict
  | v :: l => let* dict := addSpecificKey st v dict in addSpecificKeys st l dict
  end.

Definition addSpecificPattern (st : ptr) (value : cftype) (dict : gmap string (list byte))
    : C dynstore (gmap string (list byte)) :=
  match value with
  | CFString pattern =>
      let* ' (sc_status, keys) := __SCDynamicStoreCopyKeyList st pattern true in
      if sc_status =? kSCStatusOK then addSpecificKeys st (CFString <$> keys) dict else ret dict
  | _ => ret dict
  end.

Fixpoint addSpecificPatterns (st : ptr) (l : list cftype) (dict : gmap string (list byte))
    : C dynstore (gmap string (list byte)) :=
  match l with
  | [] => ret dict
  | v :: l => let* dict := addSpecificPattern st v dict in addSpecificPatterns st l dict
  end.

Definition __SCDynamicStoreCopyMultiple (st : ptr) (keys patterns : option (list cftype))
    : C dynstore (Z * gmap string (list byte)) :=
  let* dict := addSpecificKeys st (default [] keys) ∅ in
  let* dict := addSpecificPatterns st (default [] patterns) dict in
  ret (kSCStatusOK, dict).

(** ** Watching *)

Definition hasKey (keys : option (list string)) (k : string) : Z :=
  match keys with
  | Some l => if decide (k ∈ l) then kSCStatusKeyExists else kSCStatusOK
  | None => kSCStatusOK
  end.

Definition addKey (keys : option (list string)) (k : string) : option (list string) :=
  Some (default [] keys ++ [k]).

Definition __SCDynamicStoreAddWatchedKey (st : ptr) (k : string) (isRegex : bool) : C dynstore Z :=
  let* S := load_store st in
  let sessionNum := session_num (st_server S) in
  if isRegex then
    let sc_status := hasKey (st_patterns S) k in
    if negb (sc_status =? kSCStatusOK) then ret sc_status else
    let* ok := patternAddSession k sessionNum in
    if negb ok then ret kSCStatusInvalidArgument else
    upd_store st (λ S, st_with_keys (st_keys S) (addKey (st_patterns S) k) S) ;;
    ret kSCStatusOK
  else
    let sc_status := hasKey (st_keys S) k in
    if negb (sc_status =? kSCStatusOK) then ret sc_status else
    _addWatcher sessionNum k ;;
    upd_store st (λ S, st_with_keys (addKey (st_keys S) k) (st_patterns S) S) ;;
    ret kSCStatusOK.

Definition removeKey (keys : option (list string)) (k : string) : option (list string) :=
  match keys with
  | None => None
  | Some l => match first_index k l with Some i => Some (delete i l) | None => None end
  end.

Definition __SCDynamicStoreRemoveWatchedKey (st : ptr) (k : string) (isRegex : bool)
    : C dynstore Z :=
  let* S := load_store st in
  let sessionNum := session_num (st_server S) in
  if isRegex then
    match removeKey (st_patterns S) k with
    | None => ret kSCStatusNoKey
    | Some l =>
        upd_store st (λ S, st_with_keys (st_keys S) (Some l) S) ;;
        patternRemoveSession k sessionNum ;;
        ret kSCStatusOK
    end
  else
    match removeKey (st_keys S) k with
    | None => ret kSCStatusNoKey
    | Some l =>
        upd_store st (λ S, st_with_keys (Some l) (st_patterns S) S) ;;
        _removeWatcher sessionNum k ;;
        ret kSCStatusOK
    end.

(** [sc_status] is threaded through the calls. *)
Fixpoint removeOldKeys (st : ptr) (isRegex : bool) (newKeys : option (list string))
    (l : list string) (sc_status : Z) : C dynstore Z :=
  match l with
  | [] => ret sc_status
  | oldKey :: l =>
      let* sc_status :=
        if negb (sc_status =? kSCStatusOK) then ret sc_status else
        if decide (oldKey ∈ default [] newKeys) then ret sc_status
        else __SCDynamicStoreRemoveWatchedKey st oldKey isRegex in
      removeOldKeys st isRegex newKeys l sc_status
  end.

Fixpoint addNewKeys (st : ptr) (isRegex : bool) (oldKeys : option (list string))
    (l : list string) (sc_status : Z) : C dynstore Z :=
  match l with
  | [] => ret sc_status
  | newKey :: l =>
      let* sc_status :=
        if negb (sc_status =? kSCStatusOK) then ret sc_status else
        if decide (newKey ∈ default [] oldKeys) then ret sc_status
        else __SCDynamicStoreAddWatchedKey st newKey isRegex in
      addNewKeys st isRegex oldKeys l sc_status
  end.

(** One half of SetNotificationKeys. *)
Definition updateKeys (st : ptr) (isRegex : bool) (new : option (list string)) (sc_status : Z)
    : C dynstore Z :=
  let* S := load_store st in
  let old := if isRegex then st_patterns S else st_keys S in
  let* sc_status := removeOldKeys st isRegex new (default [] old) sc_status in
  addNewKeys st isRegex old (default [] new) sc_status.

Definition __SCDynamicStoreSetNotificationKeys (st : ptr) (keys patterns : option (list string))
    : C dynstore Z :=
  let* sc_status := updateKeys st false keys kSCStatusOK in
  updateKeys st true patterns sc_status.

Definition __SCDynamicStoreCopyNotifiedKeys (st : ptr) : C dynstore (Z * list string) :=
  let* S := load_store st in
  let sessionKey := session_key (st_server S) in
  let* sd := gets sessionData in
  match sd !! sessionKey with
  | None => ret (kSCStatusOK, [])
  | Some info =>
      match i_changedKeys info with
      | None => ret (kSCStatusOK, [])
      | Some changes =>
          let newInfo := info_changed None info in
          (if (0 <? info_count newInfo)%nat then put_info sessionKey newInfo
           else modify (λ s, set_sessionData (delete sessionKey (sessionData s)) s)) ;;
          ret (kSCStatusOK, changes)
      end
  end.

Definition __SCDynamicStoreNotifyCancel (st : ptr) : C dynstore Z :=
  let* S := load_store st in
  when (negb (st_notifyPort S =? MACH_PORT_NULL))
    (upd_store st (λ S, st_with_port MACH_PORT_NULL (st_notifyPortIdentifier S) S)) ;;
  when (negb (st_notifyFile S =? -1))
    (upd_store st (λ S, st_with_file (-1) (st_notifyFileIdentifier S) S)) ;;
  when (0 <? st_notifySignal S) (upd_store st (st_with_signal 0 TASK_NULL)) ;;
  modify (λ s,
    match needsNotification s with
    | None => s
    | Some X =>
        let X := X ∖ {[session_num (st_server S)]} in
        set_needsNotification (if decide (X = ∅) then None else Some X) s
    end) ;;
  upd_store st (st_with_status NotifierNotRegistered) ;;
  ret kSCStatusOK.

(** "push out a notification if any changes are pending" *)
Definition kick_if_pending (S : SCDynamicStorePrivate) : C dynstore unit :=
  let* sd := gets sessionData in
  match sd !! session_key (st_server S) ≫= i_changedKeys with
  | None => ret tt
  | Some _ =>
      modify (λ s, set_needsNotification
        (Some ({[session_num (st_server S)]} ∪ default ∅ (needsNotification s))) s)
  end.

Definition __SCDynamicStoreNotifyMachPort (st : ptr) (identifier port : Z) : C dynstore Z :=
  let* S := load_store st in
  if negb (bool_decide (st_notifyStatus S = NotifierNotRegistered)) then ret kSCStatusNotifierActive else
  if negb (identifier =? 0) then ret kSCStatusInvalidArgument else
  if port =? MACH_PORT_NULL then ret kSCStatusInvalidArgument else
  kick_if_pending S ;;
  ret kSCStatusOK.

Definition __SCDynamicStoreNotifyFileDescriptor (st : ptr) : C dynstore Z :=
  let* S := load_store st in
  if negb (bool_decide (st_notifyStatus S = NotifierNotRegistered)) then ret kSCStatusNotifierActive else
  kick_if_pending S ;;
  ret kSCStatusOK.

Definition __SCDynamicStoreNotifySignal (st : ptr) (pid sig : Z) : C dynstore Z :=
  let* S := load_store st in
  if negb (bool_decide (st_notifyStatus S = NotifierNotRegistered)) then ret kSCStatusNotifierActive else
  if pid =? m_getpid then ret kSCStatusInvalidArgument else
  if (sig <=? 0) || (NSIG <? sig) then ret kSCStatusInvalidArgument else
  kick_if_pending S ;;
  ret kSCStatusOK.

End ops.
