(* ===== verification/StoreCore.v ===== *)
(** * The invariant of the dynamic store, and what a push does

    [Core]: what holds of the dictionaries in the middle of a request; a push
    ([__SCDynamicStorePush]) turns the recorded changes into notifications. *)

From S2P Require Import Prelude StoreTypes StoreInv StorePat StoreOps.
Local Open Scope c_scope.
Local Open Scope Z_scope.

(** ** Session names *)

Fixpoint no_colon (s : string) : bool :=
  match s with EmptyString => true | String a s => negb (Ascii.eqb a ":") && no_colon s end.

Lemma split_removed_key x k : no_colon x = true → split_colon (removed_key x k) = Some (x, k).
Proof.
  unfold removed_key. induction x as [|a x IH]; [done|]. cbn [no_colon]. intros [Ha Hx]%andb_prop.
  rewrite str_app_cons. cbn [split_colon]. rewrite IH by done. by destruct (Ascii.eqb a ":").
Qed.

Lemma no_colon_app x y : no_colon (x +:+ y)%stdpp = no_colon x && no_colon y.
Proof. induction x as [|a x IH]; [done|]. rewrite str_app_cons. cbn. by rewrite IH, andb_assoc. Qed.

Lemma no_colon_pretty_N (n : N) : no_colon (pretty n) = true.
Proof.
  unfold pretty, pretty_N. case_decide; [done|].
  assert (Hgo : ∀ x s, no_colon s = true → no_colon (pretty_N_go x s) = true).
  { intros x. induction (N.lt_wf_0 x) as [x _ IH]; intros s Hs.
    assert (x = 0 ∨ 0 < x)%N as [->|Hx] by lia; [by rewrite pretty_N_go_0|].
    rewrite pretty_N_go_step by done. apply IH; [by apply N.div_lt|]. cbn. rewrite Hs, andb_true_r.
    unfold pretty_N_char. by repeat case_match. }
  by apply Hgo.
Qed.

Lemma no_colon_fmt_d z : no_colon (fmt_d z) = true.
Proof.
  unfold fmt_d, pretty, pretty_Z. destruct z as [|p|p]; [done|apply (no_colon_pretty_N (N.pos p))|].
  rewrite no_colon_app. apply (no_colon_pretty_N (N.pos p)).
Qed.

Lemma fmt_d_inj x y : fmt_d x = fmt_d y → x = y.
Proof. unfold fmt_d. apply (inj pretty). Qed.

Section core.
Context {RL : RegexLib} {CO : CFOrder} {MK : MachKernel}.

(** [n] is the number of an open session. *)
Definition opened (sts : gmap ptr SCDynamicStorePrivate) (n : Z) : Prop :=
  ∃ st P, sts !! st = Some P ∧ st_server P ≠ 0 ∧ num_of P = n.

(** The session dictionary. *)
Record II (sd : gmap string sessInfo) (own : string → option string) (R : gset string)
    (sts : gmap ptr SCDynamicStorePrivate) : Prop := {
  i_open : ∀ n, opened sts n → ∃ i, sd !! fmt_d n = Some i ∧ is_Some (i_name i);
  i_only : ∀ x i, sd !! x = Some i → ∃ n, opened sts n ∧ x = fmt_d n;
  i_keys : ∀ x i k, sd !! x = Some i →
    k ∈ default [] (i_sessionKeys i) ↔ own k = Some x ∨ removed_key x k ∈ R;
  i_nodup : ∀ x i, sd !! x = Some i →
    NoDup (default [] (i_sessionKeys i)) ∧ NoDup (default [] (i_changedKeys i)) ∧ i_changedKeys i ≠ Some [];
  i_owner : ∀ k x, own k = Some x → ∃ n, opened sts n ∧ x = fmt_d n;
  i_removed : ∀ r, r ∈ R → ∃ n k, opened sts n ∧ r = removed_key (fmt_d n) k;
}.

(** The keys a session was told to have changed. *)
Definition changes (sd : gmap string sessInfo) (n : Z) : list string :=
  default [] (sd !! fmt_d n ≫= i_changedKeys).
Definition pending (s : dynstore) : gset Z := default ∅ (needsNotification s).

Record Core (s : dynstore) : Prop := {
  c_W : WI (storeData s) (patternData s) (stores s);
  c_K : KI (deferredRemovals s) (storeData s) (patternData s);
  c_D : ∀ k, k ∈ deferredRemovals s → data_of (storeData s) k = None;
  c_C : ∀ k, k ∈ changedKeys s → is_Some (data_of (storeData s) k) ∨ k ∈ deferredRemovals s;
  c_O : ∀ k, is_Some (owner_of (storeData s) k) → is_Some (data_of (storeData s) k);
  c_I : II (sessionData s) (owner_of (storeData s)) (removedSessionKeys s) (stores s);
  c_N : ∀ n, n ∈ pending s → opened (stores s) n;
  c_N' : needsNotification s ≠ Some ∅;
  c_use : ∀ st P, stores s !! st = Some P → st_useSessionKeys P = true → st_server P ≠ 0;
  c_zero : ∀ st P, stores s !! st = Some P → st_server P = 0 → keys_of P = [] ∧ pats_of P = [];
}.

(** No change waits to be pushed. *)
Record quiet (s : dynstore) : Prop := {
  q_C : changedKeys s = ∅;
  q_D : deferredRemovals s = ∅;
  q_R : removedSessionKeys s = ∅;
}.

(** What the operations on values leave alone. *)
Record frame (s s' : dynstore) : Prop := {
  f_stores : stores s' = stores s;
  f_next : next_store s' = next_store s;
  f_sessions : sessions s' = sessions s;
  f_temp : temp_session s' = temp_session s;
  f_posted : posted s' = posted s;
}.
#[export] Instance frame_refl : Reflexive frame.
Proof. by intros s. Qed.
#[export] Instance frame_trans : Transitive frame.
Proof. intros s1 s2 s3 [????] [????]. split; congruence. Qed.

(** A session removed a key it still owns again. *)
Definition clean (s : dynstore) : Prop :=
  ∀ k x, owner_of (storeData s) k = Some x → removed_key x k ∉ removedSessionKeys s.

Lemma watcher_open s k n : Core s → 0 < refs (storeData s) k n → opened (stores s) n.
Proof.
  intros HC Hpos. destruct (refs_some _ _ _ (c_W _ HC) _ _ Hpos) as (st & P & Hst & <-).
  exists st, P. split; [done|]. split; [|done]. intros H0.
  apply (refs_pos _ _ _ (c_W _ HC) _ _ _ Hst) in Hpos.
  destruct (c_zero _ HC _ _ Hst H0) as [Hk Hp]. rewrite Hk, Hp in Hpos. set_solver.
Qed.

(** ** Notifying the watchers *)

Lemma rev_elem {A} (x : A) l : x ∈ rev l ↔ x ∈ l.
Proof. rewrite rev_alt. apply elem_of_reverse. Qed.

(** Whom to tell which keys. *)
Definition notices (d : gmap string entry) (keys : list string) : list (string * Z) :=
  keys ≫= λ k, match d !! k with
               | Some e => match e_watchers e with Some ws => (k,.) <$> rev ws | None => [] end
               | None => []
               end.

Lemma entry_watchers e n : entry_ok e → n ∈ default [] (e_watchers e) ↔ 0 < entry_refs e n.
Proof.
  intros [_ Hr]. unfold entry_refs. destruct (e_watchers e) as [ws|], (e_watcherRefs e) as [rs|];
    try done; [|cbn; split; [set_solver|lia]].
  destruct Hr as (Hl & _ & _ & Hpos). cbn. split.
  - intros Hn. destruct (first_index_elem _ _ Hn) as [i Hi]. rewrite Hi.
    destruct (first_index_Some _ _ _ Hi) as [Hw _].
    destruct (lookup_lt_is_Some_2 rs i) as [r Hr]; [rewrite <-Hl; by eapply lookup_lt_Some|].
    rewrite Hr. by apply (Forall_lookup_1 _ _ _ _ Hpos) in Hr.
  - destruct (first_index n ws) as [i|] eqn:Ei; [|done]. intros _.
    destruct (first_index_Some _ _ _ Ei) as [Hw _]. by eapply list_elem_of_lookup_2.
Qed.

Lemma notices_elem d keys k n : entries_ok d → (k, n) ∈ notices d keys ↔ k ∈ keys ∧ 0 < refs d k n.
Proof.
  intros Hd. unfold notices. rewrite list_elem_of_bind. split.
  - intros (k' & Hin & Hk'). unfold refs. destruct (d !! k') as [e|] eqn:E; [|set_solver].
    destruct (e_watchers e) as [ws|] eqn:Ew; [|set_solver].
    apply list_elem_of_fmap in Hin as (m & [= <- <-] & Hm). rewrite rev_elem in Hm.
    split; [done|]. rewrite E. apply entry_watchers; [by eapply Hd|]. by rewrite Ew.
  - intros [Hk Hpos]. exists k. split; [|done]. unfold refs in Hpos.
    destruct (d !! k) as [e|] eqn:E; [|done].
    apply (entry_watchers e n) in Hpos; [|by eapply Hd]. destruct (e_watchers e) as [ws|]; [|set_solver].
    apply list_elem_of_fmap. exists n. split; [done|]. by rewrite rev_elem.
Qed.

Lemma notify_loop keys (s : dynstore) :
  for_each keys (λ k,
    let* d := gets storeData in
    match d !! k with
    | None => ret tt
    | Some dict =>
        match e_watchers dict with
        | None => ret tt
        | Some ws => for_each (rev ws) (notifyWatcher k)
        end
    end) s = for_each (notices (storeData s) keys) (λ kn, notifyWatcher kn.1 kn.2) s.
Proof.
  assert (Hsame : ∀ l (s s' : dynstore),
    for_each l (λ kn, notifyWatcher kn.1 kn.2) s = Some (tt, s') → storeData s' = storeData s).
  { induction l as [|[k n] l IH]; intros s1 s2; cbn [for_each fst snd]; [by intros [= ->]|].
    unfold bind at 1. intros H. apply IH in H. by rewrite H. }
  revert s. induction keys as [|k keys IH]; intros s; [done|].
  cbn [for_each notices mbind list_bind]. rewrite for_each_app.
  unfold bind at 1. unfold bind at 1, gets at 1. unfold bind.
  destruct (storeData s !! k) as [e|] eqn:E; [|apply IH].
  destruct (e_watchers e) as [ws|]; [|apply IH]. rewrite for_each_fmap. cbn [fst snd].
  destruct (for_each (rev ws) (notifyWatcher k) s) as [[[] s']|] eqn:E1; [|done].
  rewrite IH. rewrite (Hsame ((k,.) <$> rev ws) s s'); [done|]. by rewrite for_each_fmap.
Qed.

(** Only what sessions were told changed. *)
Definition sd_like (sd sd' : gmap string sessInfo) : Prop :=
  ∀ x, (λ i, (i_name i, i_sessionKeys i)) <$> sd' !! x = (λ i, (i_name i, i_sessionKeys i)) <$> sd !! x.
Definition infos_ok (sd : gmap string sessInfo) : Prop :=
  ∀ x i, sd !! x = Some i → NoDup (default [] (i_changedKeys i)) ∧ i_changedKeys i ≠ Some [].

Lemma II_like sd sd' own R sts :
  II sd own R sts → sd_like sd sd' → infos_ok sd' → II sd' own R sts.
Proof.
  intros HI Hlike Hok. destruct HI. split; try done.
  - intros n (i & Hi & Hn)%i_open0. specialize (Hlike (fmt_d n)). rewrite Hi in Hlike.
    destruct (sd' !! fmt_d n) as [i'|]; [|done]. injection Hlike as Hname _. exists i'. by rewrite Hname.
  - intros x i' Hi'. specialize (Hlike x). rewrite Hi' in Hlike.
    destruct (sd !! x) eqn:Hi; [|done]. eauto.
  - intros x i' k Hi'. specialize (Hlike x). rewrite Hi' in Hlike.
    destruct (sd !! x) eqn:Hi; [|done]. injection Hlike as _ ->. eauto.
  - intros x i' Hi'. destruct (Hok _ _ Hi') as [? ?]. specialize (Hlike x). rewrite Hi' in Hlike.
    destruct (sd !! x) eqn:Hi; [|done]. injection Hlike as _ ->. split; [|done]. by eapply i_nodup0.
Qed.

Record noted (l : list (string * Z)) (s s' : dynstore) : Prop := {
  n_state : s' = set_needsNotification (needsNotification s') (set_sessionData (sessionData s') s);
  n_like : sd_like (sessionData s) (sessionData s');
  n_ok : infos_ok (sessionData s');
  n_changes : ∀ n k, k ∈ changes (sessionData s') n ↔ k ∈ changes (sessionData s) n ∨ (k, n) ∈ l;
  n_pending : ∀ n, n ∈ pending s' ↔ n ∈ pending s ∨ n ∈ l.*2;
  n_some : needsNotification s ≠ Some ∅ → needsNotification s' ≠ Some ∅;
}.

Lemma notifyWatcher_spec k n (s : dynstore) :
  is_Some (sessionData s !! fmt_d n) → infos_ok (sessionData s) →
  ∃ s', notifyWatcher k n s = Some (tt, s') ∧ noted [(k, n)] s s'.
Proof.
  intros [i Hi] Hok. destruct (Hok _ _ Hi) as [Hnd Hne].
  set (i' := info_changed (Some (if decide (k ∈ default [] (i_changedKeys i)) then default [] (i_changedKeys i)
               else default [] (i_changedKeys i) ++ [k])) i).
  exists (set_needsNotification (Some ({[n]} ∪ pending s)) (set_sessionData (<[fmt_d n := i']> (sessionData s)) s)).
  split; [unfold notifyWatcher; unfold bind at 1, gets at 1; by rewrite Hi|].
  assert (Hi' : ∀ k', k' ∈ default [] (i_changedKeys i') ↔ k' ∈ default [] (i_changedKeys i) ∨ k' = k).
  { intros k'. unfold i'. cbn. case_decide; set_solver. }
  split; cbn.
  - done.
  - intros x. destruct (decide (x = fmt_d n)) as [->|Hx]; [|by rewrite lookup_insert_ne].
    rewrite lookup_insert_eq. unfold i'. by rewrite Hi.
  - intros x j [[<- <-]|[_ Hj]]%lookup_insert_Some; [|by eapply Hok].
    unfold i'. cbn. case_decide as Hk; cbn.
    + split; [done|]. intros [= Hnil]. rewrite Hnil in Hk. set_solver.
    + split; [|by destruct (default [] (i_changedKeys i))]. apply NoDup_app.
      split; [done|]. split; [set_solver|apply NoDup_singleton].
  - intros m k'. unfold changes. destruct (decide (m = n)) as [->|Hm].
    + rewrite lookup_insert_eq, Hi. cbn [mbind option_bind]. rewrite Hi'. set_solver.
    + rewrite lookup_insert_ne by (by intros ?%fmt_d_inj). set_solver.
  - intros m. unfold pending. cbn. set_solver.
  - intros _ [= H]. set_solver.
Qed.

Lemma notifyWatchers_loop l (s : dynstore) :
  (∀ k n, (k, n) ∈ l → is_Some (sessionData s !! fmt_d n)) → infos_ok (sessionData s) →
  ∃ s', for_each l (λ kn, notifyWatcher kn.1 kn.2) s = Some (tt, s') ∧ noted l s s'.
Proof.
  revert s. induction l as [|[k n] l IH]; intros s Hl Hok; cbn [for_each].
  - exists s. split; [done|]. split; try done; try set_solver. by destruct s.
  - destruct (notifyWatcher_spec k n s) as (s1 & E1 & H1); [by eapply Hl; left|done|].
    destruct (IH s1) as (s2 & E2 & H2).
    { intros k' n' Hin. destruct (Hl k' n') as [i Hi]; [by right|].
      pose proof (n_like _ _ _ H1 (fmt_d n')) as Hlike. rewrite Hi in Hlike.
      destruct (sessionData s1 !! fmt_d n'); [eauto|done]. }
    { apply H1. }
    exists s2. unfold bind at 1. cbn [fst snd]. rewrite E1. split; [done|].
    destruct H1, H2. split.
    + rewrite n_state1, n_state0 at 1. done.
    + intros x. by rewrite n_like1, n_like0.
    + done.
    + intros m k'. rewrite n_changes1, n_changes0. set_solver.
    + intros m. rewrite n_pending1, n_pending0. cbn. set_solver.
    + auto.
Qed.

Lemma II_infos sd own R sts : II sd own R sts → infos_ok sd.
Proof. intros HI x i Hi. by apply (i_nodup _ _ _ _ HI) in Hi as (_ & ? & ?). Qed.

Lemma notifyWatchers_spec (s : dynstore) :
  Core s →
  ∃ s', _notifyWatchers s = Some (tt, set_changedKeys ∅ s') ∧ set_changedKeys (changedKeys s) s' = s' ∧
    ∃ l, noted l s s' ∧ ∀ k n, (k, n) ∈ l ↔ k ∈ changedKeys s ∧ 0 < refs (storeData s) k n.
Proof.
  intros HC. pose proof (w_entries _ _ _ (c_W _ HC)) as Hd. unfold _notifyWatchers.
  unfold bind at 1, gets at 1. case_decide as Hempty.
  - exists s. split; [f_equal; f_equal; rewrite <-Hempty; by destruct s|]. split; [by destruct s|].
    exists []. split; [|rewrite Hempty; set_solver].
    split; try done; try set_solver; [by destruct s|by eapply II_infos, HC].
  - unfold bind at 1. rewrite notify_loop.
    set (l := notices _ _).
    assert (Hl : ∀ k n, (k, n) ∈ l ↔ k ∈ changedKeys s ∧ 0 < refs (storeData s) k n).
    { intros k n. unfold l. rewrite notices_elem by done. rewrite rev_elem. unfold cf_elements.
      by rewrite (cf_order_perm _), elem_of_elements. }
    destruct (notifyWatchers_loop l s) as (s' & E & Hn).
    { intros k n [_ Hpos]%Hl. apply watcher_open in Hpos; [|done].
      destruct (i_open _ _ _ _ (c_I _ HC) _ Hpos) as (i & Hi & _). eauto. }
    { by eapply II_infos, HC. }
    exists s'. rewrite E. split; [done|]. split; [|by exists l].
    rewrite (n_state _ _ _ Hn). done.
Qed.

(** ** Deferred removals *)

Lemma deferred_loop l (s : dynstore) D :
  WI (storeData s) (patternData s) (stores s) → KI D (storeData s) (patternData s) →
  (∀ k, k ∈ l → data_of (storeData s) k = None) →
  ∃ d' pd', for_each l patternRemoveKey s = Some (tt, set_storeData d' (set_patternData pd' s)) ∧
    WI d' pd' (stores s) ∧ KI (D ∖ list_to_set l) d' pd' ∧ same_values (storeData s) d'.
Proof.
  revert s D. induction l as [|k l IH]; intros s D HW HK Hl; cbn [for_each].
  - exists (storeData s), (patternData s). split; [by destruct s|]. split; [done|].
    split; [|done]. by replace (D ∖ list_to_set []) with D by set_solver.
  - destruct (patternRemoveKey_spec k s HW) as (d1 & E1 & HW1 & Hv1).
    assert (HK1 : KI (D ∖ {[k]}) d1 (without_key k <$> patternData s)).
    { apply (KI_flush _ _ _ _ _ HK); [apply Hl; left|done|]. intros pat p Hp. by destruct (w_pats _ _ _ HW _ _ Hp) as (_ & _ & ?). }
    destruct (IH (set_storeData d1 (set_patternData (without_key k <$> patternData s) s)) (D ∖ {[k]}))
      as (d2 & pd2 & E2 & HW2 & HK2 & Hv2); [done|done| |].
    { intros k' Hk'. cbn. rewrite (proj1 Hv1). apply Hl. by right. }
    exists d2, pd2. unfold bind at 1. rewrite E1, E2. split; [done|]. split; [done|].
    split; [|by eapply same_values_trans].
    cbn [list_to_set]. by replace (D ∖ ({[k]} ∪ list_to_set l)) with (D ∖ {[k]} ∖ list_to_set l) by set_solver.
Qed.

Lemma deferred_spec (s : dynstore) :
  WI (storeData s) (patternData s) (stores s) →
  KI (deferredRemovals s) (storeData s) (patternData s) →
  (∀ k, k ∈ deferredRemovals s → data_of (storeData s) k = None) →
  ∃ d' pd', _processDeferredRemovals s =
      Some (tt, set_deferredRemovals ∅ (set_storeData d' (set_patternData pd' s))) ∧
    WI d' pd' (stores s) ∧ KI ∅ d' pd' ∧ same_values (storeData s) d'.
Proof.
  intros HW HK HD. unfold _processDeferredRemovals. unfold bind at 1, gets at 1.
  case_decide as Hempty.
  - exists (storeData s), (patternData s). split; [rewrite <-Hempty; by destruct s|].
    rewrite Hempty in HK. done.
  - set (l := rev (cf_elements (deferredRemovals s))).
    assert (Hl : ∀ k, k ∈ l ↔ k ∈ deferredRemovals s).
    { intros k. unfold l, cf_elements. by rewrite rev_elem, (cf_order_perm _), elem_of_elements. }
    destruct (deferred_loop l s (deferredRemovals s)) as (d' & pd' & E & HW' & HK' & Hv); [done|done| |].
    { intros k Hk. by apply HD, Hl. }
    exists d', pd'. unfold bind at 1. rewrite E. split; [done|]. split; [done|]. split; [|done].
    replace (deferredRemovals s ∖ list_to_set l) with (∅ : gset string) in HK'; [done|].
    apply set_eq. intros k. rewrite elem_of_difference, elem_of_list_to_set, Hl. set_solver.
Qed.

(** ** Keys a session no longer owns *)

Lemma removed_key_inj n k n' k' :
  removed_key (fmt_d n) k = removed_key (fmt_d n') k' → fmt_d n = fmt_d n' ∧ k = k'.
Proof.
  intros H. pose proof (split_removed_key (fmt_d n) k (no_colon_fmt_d n)) as H1.
  rewrite H, split_removed_key in H1 by apply no_colon_fmt_d. by injection H1 as -> ->.
Qed.

(** One removed key leaves its session's list. *)
Lemma cleanup_spec r (s : dynstore) own R :
  II (sessionData s) own ({[r]} ∪ R) (stores s) → r ∉ R →
  (∀ k x, own k = Some x → removed_key x k ≠ r) →
  ∃ sd', _cleanupRemovedSessionKeys r s = Some (tt, set_sessionData sd' s) ∧
    II sd' own R (stores s) ∧ ∀ n, changes sd' n = changes (sessionData s) n.
Proof.
  intros HI Hr Hown. destruct (i_removed _ _ _ _ HI r) as (n & k & Hn & ->); [set_solver|].
  destruct (i_open _ _ _ _ HI _ Hn) as (i & Hi & Hname).
  pose proof (i_keys _ _ _ _ HI _ _ k Hi) as Hk.
  destruct (i_sessionKeys i) as [l|] eqn:El; cbn in Hk; [|set_solver].
  assert (Hin : k ∈ l) by set_solver. destruct (first_index_elem _ _ Hin) as [j Hj].
  destruct (first_index_Some _ _ _ Hj) as [Hlj _].
  destruct (i_nodup _ _ _ _ HI _ _ Hi) as (Hnd & Hndc & Hne). rewrite El in Hnd. cbn in Hnd.
  unfold _cleanupRemovedSessionKeys. rewrite split_removed_key by apply no_colon_fmt_d.
  cbn [deref]. rewrite bind_ret. unfold bind at 1, gets at 1. rewrite Hi, El, Hj.
  set (ks := if (length l =? 1)%nat then None else Some (delete j l)).
  assert (Hks : ∀ k', k' ∈ default [] ks ↔ k' ∈ l ∧ k' ≠ k).
  { intros k'. rewrite <-(elem_of_delete _ _ _ _ Hnd Hlj). unfold ks.
    destruct (Nat.eqb_spec (length l) 1) as [H1|]; [|done]. cbn.
    destruct l as [|y [|? ?]]; [done| |done]. destruct j; [|done]. set_solver. }
  assert (Hndk : NoDup (default [] ks)).
  { unfold ks. case_match; cbn; [constructor|by apply NoDup_delete]. }
  eexists. split; [reflexivity|]. split.
  - destruct HI. split.
    + intros m Hm. destruct (decide (m = n)) as [->|Hmn].
      * exists (info_sessionKeys ks i). by rewrite lookup_insert_eq.
      * rewrite lookup_insert_ne by (by intros ?%fmt_d_inj). eauto.
    + intros x i1 [[<- <-]|[_ Hi1]]%lookup_insert_Some; eauto.
    + intros x i1 k' [[<- <-]|[Hx Hi1]]%lookup_insert_Some.
      * cbn [i_sessionKeys info_sessionKeys]. rewrite Hks.
        specialize (i_keys0 _ _ k' Hi). rewrite El in i_keys0. cbn in i_keys0. rewrite i_keys0.
        rewrite elem_of_union, elem_of_singleton. split.
        -- intros [[?|[Heq|?]] Hne']; [by left| |by right]. by apply removed_key_inj in Heq as [_ ->].
        -- intros [Ho|Hin']; (split; [tauto|]).
           ++ intros ->. by eapply Hown.
           ++ by intros ->.
      * rewrite (i_keys0 _ _ k' Hi1), elem_of_union, elem_of_singleton. split; [|tauto].
        intros [?|[Heq|?]]; [tauto| |tauto].
        destruct (i_only0 _ _ Hi1) as (m & _ & ->). apply removed_key_inj in Heq as [Heq _].
        by destruct Hx.
    + intros x i1 [[<- <-]|[_ Hi1]]%lookup_insert_Some; [|eauto]. done.
    + done.
    + intros r Hr'. apply i_removed0. set_solver.
  - intros m. unfold changes. destruct (decide (m = n)) as [->|Hmn].
    + by rewrite lookup_insert_eq, Hi.
    + by rewrite lookup_insert_ne by (by intros ?%fmt_d_inj).
Qed.

Lemma cleanup_loop l (s : dynstore) own :
  II (sessionData s) own (list_to_set l) (stores s) → NoDup l →
  (∀ k x, own k = Some x → removed_key x k ∉ l) →
  ∃ sd', for_each l _cleanupRemovedSessionKeys s = Some (tt, set_sessionData sd' s) ∧
    II sd' own ∅ (stores s) ∧ ∀ n, changes sd' n = changes (sessionData s) n.
Proof.
  revert s. induction l as [|r l IH]; intros s HI Hnd Hown; cbn [for_each].
  - exists (sessionData s). split; [by destruct s|]. done.
  - apply NoDup_cons in Hnd as [Hr Hnd].
    destruct (cleanup_spec r s own (list_to_set l)) as (sd1 & E1 & H1 & Hc1); [done|set_solver| |].
    { intros k x Ho Heq. apply (Hown _ _ Ho). rewrite Heq. left. }
    destruct (IH (set_sessionData sd1 s)) as (sd2 & E2 & H2 & Hc2); [done|done| |].
    { intros k x Ho Hin. apply (Hown _ _ Ho). by right. }
    exists sd2. unfold bind at 1. rewrite E1, E2. split; [done|]. split; [done|].
    intros n. by rewrite Hc2, <-Hc1.
Qed.

(** ** A push *)

Lemma II_values sd d d' R sts :
  II sd (owner_of d) R sts → same_values d d' → II sd (owner_of d') R sts.
Proof.
  intros [] [_ Ho]. split; try done.
  - intros. rewrite Ho. eauto.
  - intros k x. rewrite Ho. eauto.
Qed.

(** What a push does: every watcher is told of the keys that changed. *)
Record pushed (s s' : dynstore) : Prop := {
  p_core : Core s';
  p_quiet : quiet s';
  p_frame : frame s s';
  p_values : same_values (storeData s) (storeData s');
  p_changes : ∀ n k, k ∈ changes (sessionData s') n ↔
    k ∈ changes (sessionData s) n ∨ k ∈ changedKeys s ∧ 0 < refs (storeData s) k n;
  p_pending : ∀ n, n ∈ pending s' ↔
    n ∈ pending s ∨ ∃ k, k ∈ changedKeys s ∧ 0 < refs (storeData s) k n;
}.

Lemma push_spec (s : dynstore) :
  Core s → clean s → ∃ s', __SCDynamicStorePush s = Some (kSCStatusOK, s') ∧ pushed s s'.
Proof.
  intros HC Hclean. unfold __SCDynamicStorePush.
  destruct (notifyWatchers_spec s HC) as (s1 & E1 & Hck & l & Hn & Hl).
  unfold bind at 1. rewrite E1. pose proof (n_state _ _ _ Hn) as Hs1.
  destruct (deferred_spec (set_changedKeys ∅ s1)) as (d' & pd' & E2 & HW & HK & Hv).
  { rewrite Hs1. apply HC. }
  { rewrite Hs1. apply HC. }
  { rewrite Hs1. apply HC. }
  unfold bind at 1. rewrite E2. clear E1 E2.
  set (s2 := set_deferredRemovals ∅ _).
  assert (Hv' : same_values (storeData s) d') by (rewrite Hs1 in Hv; done).
  assert (HI : II (sessionData s2) (owner_of (storeData s2)) (removedSessionKeys s) (stores s2)).
  { cbn. apply (II_values _ (storeData s)); [|done]. rewrite Hs1. cbn.
    apply (II_like (sessionData s)); [apply HC|apply Hn..]. }
  unfold bind at 1, gets at 1.
  assert (Hrs : removedSessionKeys s2 = removedSessionKeys s) by (cbn; by rewrite Hs1).
  rewrite Hrs. set (rl := cf_elements (removedSessionKeys s)).
  assert (Hrl : ∀ r, r ∈ rl ↔ r ∈ removedSessionKeys s).
  { intros r. unfold rl, cf_elements. by rewrite (cf_order_perm _), elem_of_elements. }
  destruct (cleanup_loop rl s2 (owner_of (storeData s2))) as (sd' & E3 & HI' & Hc).
  { replace (list_to_set rl : gset string) with (removedSessionKeys s); [done|].
    apply set_eq. intros r. by rewrite elem_of_list_to_set. }
  { unfold rl, cf_elements. rewrite (cf_order_perm _). apply NoDup_elements. }
  { intros k x Ho. rewrite Hrl. apply Hclean. cbn in Ho. by rewrite (proj2 Hv') in Ho. }
  unfold bind at 1. rewrite E3. eexists. split; [reflexivity|].
  assert (Hsts : stores s1 = stores s) by (by rewrite Hs1).
  split; [split| | | | |]; cbn.
  - done.
  - done.
  - intros k Hk. set_solver.
  - intros k Hk. set_solver.
  - intros k. rewrite (proj1 Hv'), (proj2 Hv'). apply HC.
  - done.
  - intros n Hp. rewrite Hsts. change (n ∈ pending s1) in Hp. apply Hn in Hp as [Hp|Hp]; [by apply HC|].
    apply list_elem_of_fmap in Hp as ([k m] & -> & Hin). apply Hl in Hin as [_ Hpos].
    by eapply watcher_open.
  - apply Hn, HC.
  - rewrite Hsts. apply HC.
  - rewrite Hsts. apply HC.
  - done.
  - unfold s2. by rewrite Hs1.
  - done.
  - intros n k. rewrite Hc. cbn. rewrite (n_changes _ _ _ Hn), Hl. done.
  - intros n. fold (pending s1). rewrite (n_pending _ _ _ Hn), list_elem_of_fmap. split.
    + intros [?|([k m] & -> & Hin%Hl)]; [by left|]. right. by exists k.
    + intros [?|(k & Hk)]; [by left|]. right. exists (k, n). split; [done|]. by apply Hl.
Qed.

End core.
