(* ===== verification/StoreValue.v ===== *)
(** * Setting and removing values

    What [__SCDynamicStoreSetValue], [RemoveValue], [NotifyValue], [AddValue] and
    [SetMultiple] do to the values and their owners, as functions on a [view] of
    the store, and that they keep the invariant. *)

From S2P Require Import Prelude StoreTypes StoreInv StorePat StoreOps StoreCore.
Local Open Scope c_scope.
Local Open Scope Z_scope.

(** ** The abstract store: a value and an owner per key *)

Definition view : Type := string → option (list byte) * option string.

(** The session key of a store, and whether it makes session keys. *)
Record who := Who { w_key : string; w_use : bool }.
Definition who_of (P : SCDynamicStorePrivate) : who :=
  Who (session_key (st_server P)) (st_useSessionKeys P).

(** A session that makes session keys does not overwrite what it does not own. *)
Definition denied (w : who) (k : string) (V : view) : bool :=
  w_use w && is_some (V k).1 && negb (bool_decide ((V k).2 = Some (w_key w))).

(** Who owns [k] after [w] set it: another session's claim is dropped. *)
Definition new_owner (w : who) (o : option string) : option string :=
  if w_use w then Some (w_key w)
  else match o with Some x => if decide (x = w_key w) then Some x else None | None => None end.

Definition spec_set (w : who) (k : string) (v : list byte) (V : view) : view :=
  if denied w k V then V
  else λ k', if decide (k' = k) then (Some v, new_owner w (V k).2) else V k'.
Definition spec_remove (k : string) (V : view) : view :=
  λ k', if decide (k' = k) then (None, None) else V k'.
Definition spec_notify `{MachKernel} (w : who) (k : string) (V : view) : view :=
  match (V k).1 with
  | Some v => spec_set w k v V
  | None => spec_remove k (spec_set w k m_true_data V)
  end.

(** Views are compared point by point. *)
#[export] Instance view_equiv : Equiv view := λ V V', ∀ k, V k = V' k.
#[export] Instance view_equivalence : Equivalence (≡@{view}).
Proof. split; [by intros V k|by intros V V' H k|intros V1 V2 V3 H H' k; by rewrite H]. Qed.

#[export] Instance denied_proper w k : Proper ((≡) ==> (=)) (denied w k).
Proof. intros V V' H. unfold denied. by rewrite (H k). Qed.
#[export] Instance spec_set_proper w k v : Proper ((≡) ==> (≡)) (spec_set w k v).
Proof.
  intros V V' H k'. unfold spec_set. rewrite (denied_proper w k V V' H), (H k).
  case_match; [apply H|]. case_decide; [done|apply H].
Qed.
#[export] Instance spec_remove_proper k : Proper ((≡) ==> (≡)) (spec_remove k).
Proof. intros V V' H k'. unfold spec_remove. case_decide; [done|apply H]. Qed.
#[export] Instance spec_notify_proper `{MachKernel} w k : Proper ((≡) ==> (≡)) (spec_notify w k).
Proof.
  intros V V' HV. unfold spec_notify. rewrite (HV k).
  case_match; [by apply spec_set_proper|by apply spec_remove_proper, spec_set_proper].
Qed.

Section value.
Context {RL : RegexLib} {CO : CFOrder} {MK : MachKernel}.

Definition view_of (d : gmap string entry) : view := λ k, (data_of d k, owner_of d k).

(** ** Changing an entry *)

(** A new entry with the watchers of the old one. *)
Lemma put_value_spec d k e :
  entries_ok d → (0 < entry_count e)%nat →
  e_watchers e = e_watchers (default empty_entry (d !! k)) →
  e_watcherRefs e = e_watcherRefs (default empty_entry (d !! k)) →
  entries_ok (<[k := e]> d) ∧ (∀ k' n, refs (<[k := e]> d) k' n = refs d k' n) ∧
  ∀ k', view_of (<[k := e]> d) k' = if decide (k' = k) then (e_data e, e_session e) else view_of d k'.
Proof.
  intros Hd Hc Hw Hr. split; [|split].
  - apply map_Forall_insert_2; [|done]. split; [done|]. rewrite Hw, Hr.
    destruct (d !! k) as [e0|] eqn:E; [|done]. by destruct (Hd _ _ E).
  - intros k' n. unfold refs. destruct (decide (k' = k)) as [->|];
      [|by rewrite lookup_insert_ne]. rewrite lookup_insert_eq. unfold entry_refs. rewrite Hw, Hr.
    by destruct (d !! k).
  - intros k'. unfold view_of, data_of, owner_of. case_decide as Hk.
    + subst k'. by rewrite lookup_insert_eq.
    + by rewrite lookup_insert_ne.
Qed.

(** The session dictionary when key [k] changes hands. *)
Lemma II_set_owner sd own R sts k o :
  II sd own R sts → (∀ x, own k = Some x → o = Some x ∨ removed_key x k ∈ R) →
  (∀ x, o = Some x → own k = Some x ∨ removed_key x k ∈ R ∧ ∃ n, opened sts n ∧ x = fmt_d n) →
  II sd (λ k', if decide (k' = k) then o else own k') R sts.
Proof.
  intros HI H1 H2. destruct HI as [i_open0 i_only0 i_keys0 i_nodup0 i_owner0 i_removed0]. split; try done.
  - intros x i k' Hi. rewrite (i_keys0 _ _ _ Hi). case_decide as Hk; [subst k'|done]. split.
    + intros [Ho|?]; [|by right]. by apply H1.
    + intros [Ho|?]; [|by right]. apply H2 in Ho as [?|[? _]]; [by left|by right].
  - intros k' x. case_decide as Hk; [subst k'|apply i_owner0].
    intros Ho. destruct (H2 _ Ho) as [?|[_ ?]]; [by apply (i_owner0 k)|done].
Qed.

(** A key is added to the list of an open session that comes to own it. *)
Lemma II_take sd own R sts n i k :
  II sd own R sts → opened sts n → sd !! fmt_d n = Some i →
  (∀ x, own k = Some x → x = fmt_d n ∨ removed_key x k ∈ R) →
  let keys := default [] (i_sessionKeys i) in
  II (if decide (k ∈ keys) then sd else <[fmt_d n := info_sessionKeys (Some (keys ++ [k])) i]> sd)
     (λ k', if decide (k' = k) then Some (fmt_d n) else own k') R sts.
Proof.
  intros HI Hn Hi Hown keys. destruct HI as [i_open0 i_only0 i_keys0 i_nodup0 i_owner0 i_removed0].
  set (sd' := if decide _ then _ else _).
  assert (Hsd' : ∀ x, sd' !! x = if decide (x = fmt_d n) then
      Some (if decide (k ∈ keys) then i else info_sessionKeys (Some (keys ++ [k])) i) else sd !! x).
  { intros x. unfold sd'. repeat case_decide; subst; try done; [by rewrite lookup_insert_eq|].
    by rewrite lookup_insert_ne. }
  assert (Hkeys : ∀ k', k' ∈ default [] (i_sessionKeys
      (if decide (k ∈ keys) then i else info_sessionKeys (Some (keys ++ [k])) i)) ↔ k' = k ∨ k' ∈ keys).
  { intros k'. case_decide; cbn; [fold keys; naive_solver|]. rewrite elem_of_app, list_elem_of_singleton. tauto. }
  destruct (i_nodup0 _ _ Hi) as (Hnd & Hc & Hne).
  set (i' := if decide (k ∈ keys) then i else _) in Hsd', Hkeys.
  assert (Hi' : i_name i' = i_name i ∧ i_changedKeys i' = i_changedKeys i ∧ NoDup (default [] (i_sessionKeys i'))).
  { unfold i'. case_decide; [done|]. split; [done|]. split; [done|]. cbn. apply NoDup_app.
    split; [done|]. split; [set_solver|apply NoDup_singleton]. }
  destruct Hi' as (Hname & Hch & Hndk). clearbody sd' i'. split.
  - intros m Hm. rewrite Hsd'. case_decide as Hx; [|by apply i_open0].
    destruct (i_open0 _ Hm) as (j & Hj & ?). rewrite Hx, Hi in Hj. injection Hj as <-.
    exists i'. by rewrite Hname.
  - intros x j. rewrite Hsd'. case_decide as Hx; [|apply i_only0]. intros _. subst x. eauto.
  - intros x j k'. rewrite Hsd'. case_decide as Hx.
    + intros [= <-]. subst x. rewrite Hkeys. specialize (i_keys0 _ _ k' Hi). fold keys in i_keys0.
      case_decide; [naive_solver|]. rewrite i_keys0. naive_solver.
    + intros Hj. rewrite (i_keys0 _ _ k' Hj). case_decide as Hk; [subst k'|done]. split; [|naive_solver].
      intros [Ho|?]; [|by right]. destruct (Hown _ Ho); [done|by right].
  - intros x j. rewrite Hsd'. case_decide as Hx; [|by apply i_nodup0]. intros [= <-]. by rewrite Hch.
  - intros k' x. case_decide; [intros [= <-]; eauto|apply i_owner0].
  - done.
Qed.

Lemma II_release sd own R sts k x :
  II sd own R sts → own k = Some x → II sd own ({[removed_key x k]} ∪ R) sts.
Proof.
  intros HI Ho. destruct HI as [i_open0 i_only0 i_keys0 i_nodup0 i_owner0 i_removed0].
  destruct (i_owner0 _ _ Ho) as (n & Hn & ->). split; try done.
  - intros y i k' Hi. rewrite (i_keys0 _ _ _ Hi), elem_of_union, elem_of_singleton. split; [naive_solver|].
    intros [?|[Heq|?]]; [by left| |by right].
    destruct (i_only0 _ _ Hi) as (m & _ & ->). apply removed_key_inj in Heq as [-> ->]. by left.
  - intros r [->%elem_of_singleton|Hr]%elem_of_union; eauto.
Qed.

(** ** SetValue *)

Lemma with_session_id e o x : e_session e = o → with_data x e = with_session o (with_data x e).
Proof. by intros <-. Qed.

(** What the removal of a claim leaves to be cleaned up. *)
Definition released (w : who) (k : string) (o : option string) : gset string :=
  match o with
  | Some x => if w_use w then ∅ else if decide (x = w_key w) then ∅ else {[removed_key x k]}
  | None => ∅
  end.

Definition owner_update (k : string) (o : option string) (own : string → option string) (k' : string) :=
  if decide (k' = k) then o else own k'.

(** What setting a value does to the session dictionary and to the claims on the key. *)
Definition marks (st : ptr) (P : SCDynamicStorePrivate) (k : string) (v : list byte) (s : dynstore) : Prop :=
  let e := default empty_entry (storeData s !! k) in
  let own := owner_of (storeData s) in
  ∃ r sd R,
    set_session_mark st k (negb (is_some (e_data e))) (with_data (Some v) e) s =
      Some (r, set_sessionData sd (set_removedSessionKeys R s)) ∧
    (∀ n, changes sd n = changes (sessionData s) n) ∧
    if denied (who_of P) k (view_of (storeData s))
    then r = None ∧ sd = sessionData s ∧ R = removedSessionKeys s
    else r = Some (with_session (new_owner (who_of P) (own k)) (with_data (Some v) e)) ∧
         R = released (who_of P) k (own k) ∪ removedSessionKeys s ∧
         II sd (owner_update k (new_owner (who_of P) (own k)) own) R (stores s).

Lemma mark_session_key st P k v (s : dynstore) :
  Core s → stores s !! st = Some P → w_use (who_of P) = true → marks st P k v s.
Proof.
  intros HC Hst Euse. unfold marks. set (e := default empty_entry _). set (own := owner_of _). pose proof (c_I _ HC) as HI.
  assert (He : e_data e = data_of (storeData s) k ∧ e_session e = own k).
  { unfold e, own, data_of, owner_of. by destruct (storeData s !! k). }
  destruct He as [Hed Hes].
  unfold set_session_mark, load_store. unfold bind at 1, gets at 1. unfold bind at 1. rewrite Hst.
  cbn [deref ret]. change (session_key (st_server P)) with (w_key (who_of P)).
  change (st_useSessionKeys P) with (w_use (who_of P)).
  unfold denied, new_owner, released, view_of. cbn [fst snd]. fold own. rewrite <-Hed.
  rewrite Euse. cbn [andb].
  assert (Hn : opened (stores s) (num_of P)).
  { exists st, P. split; [done|]. split; [|done]. by apply (c_use _ HC _ _ Hst). }
  change (w_key (who_of P)) with (fmt_d (num_of P)).
  destruct (is_some (e_data e)) eqn:Enew; cbn [negb andb].
  - exists (if decide (own k = Some (fmt_d (num_of P))) then Some (with_data (Some v) e) else None).
    exists (sessionData s), (removedSessionKeys s).
    split; [f_equal; cbn; rewrite Hes; by destruct s|]. split; [done|].
    case_decide as Ho; [rewrite bool_decide_true by done|by rewrite bool_decide_false].
    cbn [negb]. split; [|split].
    + f_equal. apply with_session_id. congruence.
    + rewrite Ho. set_solver.
    + apply II_set_owner; [done|by rewrite Ho; left|intros x; rewrite <-Ho; by left].
  - assert (Hno : own k = None).
    { destruct (own k) as [x|] eqn:Ex; [|done]. destruct (c_O _ HC k) as [d Hd]; [by exists x|].
      rewrite <-Hed in Hd. by rewrite Hd in Enew. }
    destruct (i_open _ _ _ _ HI _ Hn) as (i & Hi & _).
    unfold bind at 1, gets at 1. unfold bind at 1. rewrite Hi. cbn [deref ret].
    set (keys := default [] (i_sessionKeys i)).
    exists (Some (with_session (Some (fmt_d (num_of P))) (with_data (Some v) e))).
    exists (if decide (k ∈ keys) then sessionData s
            else <[fmt_d (num_of P) := info_sessionKeys (Some (keys ++ [k])) i]> (sessionData s)).
    exists (removedSessionKeys s).
    split; [|split; [|split; [done|split]]].
    + unfold bind at 1, when. case_decide; [rewrite bool_decide_true by done|by rewrite bool_decide_false].
      by destruct s.
    + intros n. case_decide; [done|]. unfold changes. destruct (decide (n = num_of P)) as [->|Hne].
      * by rewrite lookup_insert_eq, Hi.
      * by rewrite lookup_insert_ne by (by intros ?%fmt_d_inj).
    + rewrite Hno. set_solver.
    + apply II_take; [done..|]. by rewrite Hno.
Qed.

Lemma mark_plain st P k v (s : dynstore) :
  Core s → stores s !! st = Some P → w_use (who_of P) = false → marks st P k v s.
Proof.
  intros HC Hst Euse. unfold marks. set (e := default empty_entry _). set (own := owner_of _). pose proof (c_I _ HC) as HI.
  assert (He : e_data e = data_of (storeData s) k ∧ e_session e = own k).
  { unfold e, own, data_of, owner_of. by destruct (storeData s !! k). }
  destruct He as [Hed Hes].
  unfold set_session_mark, load_store. unfold bind at 1, gets at 1. unfold bind at 1. rewrite Hst.
  cbn [deref ret]. change (session_key (st_server P)) with (w_key (who_of P)).
  change (st_useSessionKeys P) with (w_use (who_of P)).
  unfold denied, new_owner, released, view_of. cbn [fst snd]. fold own. rewrite <-Hed.
  rewrite Euse. cbn [andb].
  destruct (own k) as [x|] eqn:Ex.
  - assert (Hd : is_some (e_data e) = true).
    { destruct (c_O _ HC k) as [d Hd]; [by exists x|]. rewrite <-Hed in Hd. by rewrite Hd. }
    cbn [e_session with_data]. rewrite Hd, Hes. cbn [negb andb].
    destruct (decide (x = w_key (who_of P))) as [Hx|Hx].
    + rewrite Hx, String.eqb_refl. cbn [negb].
      eexists _, (sessionData s), (removedSessionKeys s). split; [by destruct s|]. split; [done|].
      split; [f_equal; apply with_session_id; congruence|]. split; [set_solver|].
      apply II_set_owner; [done|intros y; fold own; rewrite Ex; left; congruence|].
      intros y [= <-]. left. fold own. by rewrite Ex, Hx.
    + rewrite (proj2 (String.eqb_neq _ _)) by done. cbn [negb].
      exists (Some (with_session None (with_data (Some v) e))), (sessionData s),
        ({[removed_key x k]} ∪ removedSessionKeys s).
      split; [by destruct s|]. split; [done|].
      split; [done|]. split; [done|]. apply II_set_owner; [by apply II_release| |done].
      intros y. fold own. rewrite Ex. intros [= <-]. right. set_solver.
  - eexists _, (sessionData s), (removedSessionKeys s).
    split; [cbn [e_session with_data]; rewrite Hes; by destruct s|]. split; [done|].
    split; [f_equal; by apply with_session_id|]. split; [set_solver|].
    apply II_set_owner; [done| |done]. intros y. fold own. by rewrite Ex.
Qed.

Lemma set_session_mark_spec st P k v (s : dynstore) :
  Core s → stores s !! st = Some P → marks st P k v s.
Proof.
  intros HC Hst. destruct (w_use (who_of P)) eqn:E; [by apply mark_session_key|by apply mark_plain].
Qed.

(** What a change of values, not yet pushed, comes to: the new view, the keys
    recorded as changed and the claims released. *)
Record changed (V : view) (ck : gset string) (rel : gset string) (s s' : dynstore) : Prop := {
  ch_core : Core s';
  ch_frame : frame s s';
  ch_view : view_of (storeData s') ≡ V;
  ch_ck : changedKeys s' = ck ∪ changedKeys s;
  ch_rel : removedSessionKeys s' = rel ∪ removedSessionKeys s;
  ch_changes : ∀ n, changes (sessionData s') n = changes (sessionData s) n;
  ch_needs : needsNotification s' = needsNotification s;
}.

(** A key that had no value is added to the patterns it matches, unless it waits there to
    be taken out. *)
Lemma enters_patterns k v d1 sd R (s : dynstore) :
  Core s → WI d1 (patternData s) (stores s) →
  (∀ k', data_of d1 k' = if decide (k' = k) then Some v else data_of (storeData s) k') →
  let s1 := set_storeData d1 (set_sessionData sd (set_removedSessionKeys R s)) in
  ∃ d' pd' D',
  (if negb (is_some (data_of (storeData s) k))
   then let* removals := gets deferredRemovals in
        if decide (k ∈ removals)
        then modify (λ s, set_deferredRemovals (deferredRemovals s ∖ {[k]}) s) else patternAddKey k
   else ret tt) s1 = Some (tt, set_deferredRemovals D' (set_storeData d' (set_patternData pd' s1))) ∧
  WI d' pd' (stores s) ∧ KI D' d' pd' ∧ same_values d1 d' ∧
  D' ∖ {[k]} = deferredRemovals s ∖ {[k]} ∧ k ∉ D'.
Proof.
  intros HC HW1 Hd1 s1.
  destruct (data_of (storeData s) k) as [v0|] eqn:Ev0; cbn [is_some negb].
  - exists d1, (patternData s), (deferredRemovals s). split; [by destruct s|]. split; [done|].
    assert (k ∉ deferredRemovals s) by (intros Hk; apply (c_D _ HC) in Hk; congruence).
    split; [|done]. apply (KI_same (deferredRemovals s) (storeData s)); [apply HC|].
    intros k'. rewrite Hd1. case_decide; [subst k'; rewrite Ev0; naive_solver|done].
  - unfold bind at 1, gets at 1. change (deferredRemovals s1) with (deferredRemovals s). case_decide as HkD.
    + exists d1, (patternData s), (deferredRemovals s ∖ {[k]}). split; [by destruct s|].
      split; [done|]. split; [|split; [done|set_solver]].
      apply (KI_same (deferredRemovals s) (storeData s)); [apply HC|].
      intros k'. rewrite Hd1, elem_of_difference, elem_of_singleton.
      case_decide; [subst k'; split; [by right|by left; eauto]|naive_solver].
    + destruct (patternAddKey_spec k s1) as (d' & E1 & HW' & Hv); [done| |].
      { intros pat p Hp Hin. apply (k_keys _ _ _ (c_K _ HC) _ _ _ Hp) in Hin as [[[? ?]|?] _]; congruence. }
      exists d', (with_key k <$> patternData s), (deferredRemovals s). rewrite E1.
      split; [by destruct s|]. split; [done|]. split; [|done].
      apply (KI_add _ (storeData s)); [apply HC|done|done| |]; intros; rewrite (proj1 Hv); cbn; rewrite Hd1.
      * rewrite decide_True by done. eauto.
      * by rewrite decide_False.
Qed.

Lemma setValue_spec st P k v (s : dynstore) :
  Core s → stores s !! st = Some P →
  ∃ s', __SCDynamicStoreSetValue st k v true s =
      Some (if denied (who_of P) k (view_of (storeData s)) then kSCStatusKeyExists else kSCStatusOK, s') ∧
    changed (spec_set (who_of P) k v (view_of (storeData s)))
      (if denied (who_of P) k (view_of (storeData s)) then ∅ else {[k]})
      (if denied (who_of P) k (view_of (storeData s)) then ∅
       else released (who_of P) k (owner_of (storeData s) k)) s s'.
Proof.
  intros HC Hst. pose proof (w_entries _ _ _ (c_W _ HC)) as Hents.
  destruct (set_session_mark_spec st P k v s HC Hst) as (r & sd & R & E & Hch & Hr).
  set (e := default empty_entry (storeData s !! k)) in *.
  set (V := view_of (storeData s)) in *.
  unfold __SCDynamicStoreSetValue. unfold bind at 1, gets at 1. fold e. unfold bind at 1. rewrite E.
  unfold spec_set. destruct (denied (who_of P) k V).
  { destruct Hr as (-> & -> & ->). exists s.
    split; [cbn; by destruct s|]. split; try done; set_solver. }
  destruct Hr as (-> & HR & HI).
  set (e' := with_session _ _) in *. set (o := new_owner _ _) in *.
  destruct (put_value_spec (storeData s) k e' Hents) as (Hok & Hrefs & Hview);
    [by apply entry_count_pos|done|done|].
  set (d1 := <[k := e']> (storeData s)) in *.
  assert (HW1 : WI d1 (patternData s) (stores s)) by (by eapply WI_entries, Hrefs; [apply HC|]).
  assert (Hd1 : ∀ k', data_of d1 k' = if decide (k' = k) then Some v else data_of (storeData s) k').
  { intros k'. change (data_of d1 k') with (view_of d1 k').1. rewrite Hview. by case_decide. }
  assert (Ho1 : ∀ k', owner_of d1 k' = owner_update k o (owner_of (storeData s)) k').
  { intros k'. change (owner_of d1 k') with (view_of d1 k').2. rewrite Hview. unfold owner_update. by case_decide. }
  set (s1 := set_storeData d1 (set_sessionData sd (set_removedSessionKeys R s))).
  assert (Hed : e_data e = data_of (storeData s) k).
  { unfold e, data_of. by destruct (storeData s !! k). }
  destruct (enters_patterns k v d1 sd R s HC HW1 Hd1) as (d' & pd' & D' & E1 & HW' & HK' & Hv & HD' & HkD).
  fold s1 in E1. rewrite <-Hed in E1.
  unfold bind at 1. unfold put_entry at 1, modify at 1. cbn [fst snd].
  change (set_storeData _ _) with s1. unfold bind at 1. rewrite E1.
  eexists. split; [reflexivity|].
  assert (Hdat : ∀ k', data_of d' k' = if decide (k' = k) then Some v else data_of (storeData s) k').
  { intros k'. by rewrite (proj1 Hv). }
  assert (Hown : ∀ k', owner_of d' k' = owner_update k o (owner_of (storeData s)) k').
  { intros k'. by rewrite (proj2 Hv). }
  split; cbn; try done; [split; cbn; try apply HC|..].
  - done.
  - done.
  - intros k' Hk'. rewrite Hdat, decide_False by congruence. apply (c_D _ HC). set_solver.
  - intros k' [->%elem_of_singleton|Hk']%elem_of_union; rewrite Hdat.
    + rewrite decide_True by done. left. eauto.
    + case_decide; [left; eauto|]. destruct (c_C _ HC _ Hk'); [by left|right; set_solver].
  - intros k'. rewrite Hdat, Hown. unfold owner_update. case_decide; [eauto|apply HC].
  - destruct HI as [i_open0 i_only0 i_keys0 i_nodup0 i_owner0 i_removed0]. split; try done.
    + intros. rewrite Hown. eauto.
    + intros k' x. rewrite Hown. eauto.
  - intros k'. unfold view_of. rewrite Hdat, Hown. unfold owner_update. by case_decide.
Qed.

(** The entry of a key without its value; it goes if nobody watches the key. *)
Lemma take_value_spec k e (s s1 : dynstore) :
  entries_ok (storeData s) → storeData s !! k = Some e → storeData s1 = storeData s →
  let e' := with_data None (with_session None e) in
  ∃ d', (if (0 <? entry_count e')%nat then put_entry k e' else del_entry k) s1
      = Some (tt, set_storeData d' s1) ∧ entries_ok d' ∧
      (∀ k' n, refs d' k' n = refs (storeData s) k' n) ∧
      ∀ k', view_of d' k' = spec_remove k (view_of (storeData s)) k'.
Proof.
  intros Hents Ee Es e'.
  destruct (Nat.ltb_spec 0 (entry_count e')) as [Hlt|Hge].
  - destruct (put_value_spec (storeData s) k e' Hents) as (Hok & Hrefs & Hview);
      [done|by rewrite Ee..|]. exists (<[k := e']> (storeData s)).
    split; [|done]. unfold put_entry, modify. by rewrite Es.
  - assert (e_watchers e = None ∧ e_watcherRefs e = None) as [Hw Hr].
    { unfold entry_count in Hge. destruct e as [? [] [] ?]; cbn in Hge; try lia; done. }
    exists (delete k (storeData s)).
    split; [unfold del_entry, modify; by rewrite Es|]. split; [by apply map_Forall_delete|]. split.
    + intros k' n. unfold refs. destruct (decide (k' = k)) as [->|]; [|by rewrite lookup_delete_ne].
      rewrite lookup_delete_eq, Ee. unfold entry_refs. by rewrite Hw.
    + intros k'. unfold view_of, spec_remove, data_of, owner_of. case_decide as Hk.
      * subst k'. by rewrite lookup_delete_eq.
      * by rewrite lookup_delete_ne.
Qed.

(** The sessions when the value of [k] is gone: its owner has a key less. *)
Lemma II_removed k (own own' : string → option string) sd R sts :
  II sd own R sts → (∀ k', own' k' = if decide (k' = k) then None else own k') →
  II sd own' (match own k with Some x => {[removed_key x k]} | None => ∅ end ∪ R) sts.
Proof.
  intros HI Hown. set (rel := match own k with Some x => {[removed_key x k]} | None => ∅ end : gset string).
  assert (HI1 : II sd own (rel ∪ R) sts).
  { unfold rel. destruct (own k) eqn:Ex; [by apply II_release|]. by replace (∅ ∪ R) with R by set_solver. }
  assert (HI2 : II sd (λ k', if decide (k' = k) then None else own k') (rel ∪ R) sts).
  { apply II_set_owner; [done| |done]. intros x Hx. right. unfold rel. rewrite Hx. set_solver. }
  destruct HI2 as [i_open0 i_only0 i_keys0 i_nodup0 i_owner0 i_removed0]. split; try done.
  - intros. rewrite Hown. eauto.
  - intros k' x. rewrite Hown. eauto.
Qed.

Lemma removeValue_spec st k (s : dynstore) :
  Core s →
  ∃ s', __SCDynamicStoreRemoveValue st k true s =
      Some (if is_some (data_of (storeData s) k) then kSCStatusOK else kSCStatusNoKey, s') ∧
    changed (spec_remove k (view_of (storeData s)))
      (if is_some (data_of (storeData s) k) then {[k]} else ∅)
      (match owner_of (storeData s) k with Some x => {[removed_key x k]} | None => ∅ end) s s'.
Proof.
  intros HC. pose proof (w_entries _ _ _ (c_W _ HC)) as Hents.
  assert (Hnone : data_of (storeData s) k = None → owner_of (storeData s) k = None).
  { intros Hd. destruct (owner_of (storeData s) k) as [x|] eqn:Ex; [|done].
    destruct (c_O _ HC k); [by exists x|congruence]. }
  assert (Hsame : data_of (storeData s) k = None →
    changed (spec_remove k (view_of (storeData s))) ∅
      (match owner_of (storeData s) k with Some x => {[removed_key x k]} | None => ∅ end) s s).
  { intros Hd. rewrite (Hnone Hd). split; try done; try set_solver. intros k'. unfold spec_remove, view_of.
    case_decide; [subst k'; by rewrite Hd, (Hnone Hd)|done]. }
  unfold __SCDynamicStoreRemoveValue. unfold bind at 1, gets at 1.
  destruct (data_of (storeData s) k) as [v|] eqn:Ed.
  2:{ exists s. split; [|by apply Hsame]. unfold data_of in Ed.
      destruct (storeData s !! k) as [e|]; [|done]. cbn in Ed. by rewrite Ed. }
  clear Hsame Hnone. cbn [is_some].
  destruct (storeData s !! k) as [e|] eqn:Ee; [|by unfold data_of in Ed; rewrite Ee in Ed].
  assert (e_data e = Some v) as Hed by (unfold data_of in Ed; by rewrite Ee in Ed).
  assert (e_session e = owner_of (storeData s) k) as Hes by (unfold owner_of; by rewrite Ee).
  rewrite Hed. cbn [is_some negb].
  set (rel := match owner_of (storeData s) k with Some x => {[removed_key x k]} | None => ∅ end : gset string).
  set (s1 := set_removedSessionKeys (rel ∪ removedSessionKeys s)
    (set_deferredRemovals ({[k]} ∪ deferredRemovals s) (set_changedKeys ({[k]} ∪ changedKeys s) s))).
  set (e' := with_data None (with_session None e)).
  destruct (take_value_spec k e s s1 Hents Ee eq_refl) as (d' & Ed' & Hok & Hrefs & Hview). fold e' in Ed'.
  exists (set_storeData d' s1). split.
  { assert (Hrel : match e_session e with
      | Some x => modify (λ s, set_removedSessionKeys ({[removed_key x k]} ∪ removedSessionKeys s) s)
      | None => ret tt
      end (set_deferredRemovals ({[k]} ∪ deferredRemovals s) (set_changedKeys ({[k]} ∪ changedKeys s) s))
      = Some (tt, s1)).
    { unfold s1, rel. rewrite Hes. destruct (owner_of (storeData s) k); [done|]. unfold ret. f_equal. f_equal.
      replace (∅ ∪ removedSessionKeys s) with (removedSessionKeys s) by set_solver. by destruct s. }
    do 2 (erewrite bind_eq by reflexivity). rewrite (bind_eq _ _ _ _ _ Hrel).
    by rewrite (bind_eq _ _ _ _ _ Ed'). }
  assert (Hdat : ∀ k', data_of d' k' = if decide (k' = k) then None else data_of (storeData s) k').
  { intros k'. change (data_of d' k') with (view_of d' k').1. rewrite Hview. unfold spec_remove. by case_decide. }
  assert (Hown : ∀ k', owner_of d' k' = if decide (k' = k) then None else owner_of (storeData s) k').
  { intros k'. change (owner_of d' k') with (view_of d' k').2. rewrite Hview. unfold spec_remove. by case_decide. }
  split; cbn; try done; [split; cbn; try apply HC|..].
  - eapply WI_entries; [apply HC|done|done].
  - apply (KI_same (deferredRemovals s) (storeData s)); [apply HC|]. intros k'.
    rewrite Hdat, elem_of_union, elem_of_singleton. case_decide; [subst k'; rewrite Ed; naive_solver|tauto].
  - intros k' Hk'. rewrite Hdat. case_decide; [done|]. apply (c_D _ HC). set_solver.
  - intros k' Hk'. rewrite Hdat. case_decide; [right; set_solver|].
    destruct (c_C _ HC k') as [?|?]; [set_solver|by left|right; set_solver].
  - intros k'. rewrite Hdat, Hown. case_decide; [done|apply HC].
  - apply II_removed; [apply HC|done].
Qed.

(** ** Several changes, one push *)

Lemma changed_trans V1 ck1 rel1 V2 ck2 rel2 s s1 s2 :
  changed V1 ck1 rel1 s s1 → changed V2 ck2 rel2 s1 s2 → changed V2 (ck2 ∪ ck1) (rel2 ∪ rel1) s s2.
Proof.
  intros [] []. split; try done.
  - by etrans.
  - rewrite ch_ck1, ch_ck0. set_solver.
  - rewrite ch_rel1, ch_rel0. set_solver.
  - intros n. by rewrite ch_changes1.
  - congruence.
Qed.

Lemma changed_refl (s : dynstore) : Core s → changed (view_of (storeData s)) ∅ ∅ s s.
Proof. intros HC. split; try done; set_solver. Qed.

(** Session [n] watches [k]: by name, or by a pattern that matches it. *)
Definition watches (P : SCDynamicStorePrivate) (k : string) : Prop :=
  k ∈ keys_of P ∨
  ∃ pat re, pat ∈ pats_of P ∧ patternCompile pat = Some re ∧ keyMatchesPattern k re = true.
Definition watched (sts : gmap ptr SCDynamicStorePrivate) (n : Z) (k : string) : Prop :=
  ∃ st P, sts !! st = Some P ∧ num_of P = n ∧ watches P k.

Lemma watched_iff s k n :
  Core s → is_Some (data_of (storeData s) k) ∨ k ∈ deferredRemovals s →
  0 < refs (storeData s) k n ↔ watched (stores s) n k.
Proof.
  intros HC Hk. pose proof (c_W _ HC) as HW. pose proof (c_K _ HC) as HK.
  assert (Hl : ∀ st P, stores s !! st = Some P →
    (k ∈ keys_of P ∨ ∃ pat, pat ∈ pats_of P ∧ listed (patternData s) k pat) ↔ watches P k).
  { intros st P Hst. unfold watches. apply or_iff_compat_l. split.
    - intros (pat & Hpat & Hl). unfold listed in Hl.
      destruct (patternData s !! pat) as [p|] eqn:Ep; [|done]. exists pat, (p_regex p).
      apply (k_keys _ _ _ HK _ _ _ Ep) in Hl as [_ Hm]. split; [done|]. split; [|by apply Is_true_true].
      by apply (k_regex _ _ _ HK).
    - intros (pat & re & Hpat & Hre & Hm). exists pat. split; [done|]. unfold listed.
      destruct (w_known _ _ _ HW _ _ _ Hst Hpat) as [p Ep]. rewrite Ep.
      apply (k_keys _ _ _ HK _ _ _ Ep). split; [done|].
      pose proof (k_regex _ _ _ HK _ _ Ep) as Hp. rewrite Hre in Hp. injection Hp as <-. by rewrite Hm. }
  split.
  - intros Hpos. destruct (refs_some _ _ _ HW _ _ Hpos) as (st & P & Hst & <-).
    exists st, P. split; [done|]. split; [done|]. apply (Hl _ _ Hst). by apply (refs_pos _ _ _ HW _ _ _ Hst).
  - intros (st & P & Hst & <- & Hw). apply (refs_pos _ _ _ HW _ _ _ Hst). by apply (Hl _ _ Hst).
Qed.

(** What a request that changed values leaves: the new view, and every session
    that watches a changed key told so. *)
Record committed (V : view) (ck : gset string) (s s' : dynstore) : Prop := {
  cm_core : Core s';
  cm_quiet : quiet s';
  cm_frame : frame s s';
  cm_view : view_of (storeData s') ≡ V;
  cm_changes : ∀ n k, k ∈ changes (sessionData s') n ↔
    k ∈ changes (sessionData s) n ∨ k ∈ ck ∧ watched (stores s) n k;
  cm_pending : ∀ n, n ∈ pending s' ↔ n ∈ pending s ∨ ∃ k, k ∈ ck ∧ watched (stores s) n k;
}.

Lemma push_commits V ck rel s s1 :
  quiet s → changed V ck rel s s1 → clean s1 →
  ∃ s2, __SCDynamicStorePush s1 = Some (kSCStatusOK, s2) ∧ committed V ck s s2.
Proof.
  intros [Hq _ _] [HC Hf HV Hck _ Hch Hn] Hcl.
  destruct (push_spec s1 HC Hcl) as (s2 & E & [HC2 Hq2 Hf2 Hv2 Hch2 Hp2]). exists s2. split; [done|].
  rewrite Hq in Hck. replace (ck ∪ ∅) with ck in Hck by set_solver. rewrite Hck in Hch2, Hp2.
  assert (Hw : ∀ k n, k ∈ ck → 0 < refs (storeData s1) k n ↔ watched (stores s) n k).
  { intros k n Hk. rewrite <-(f_stores _ _ Hf). apply watched_iff; [done|]. apply (c_C _ HC). by rewrite Hck. }
  split; [done|done|by etrans| | |].
  - intros k. rewrite <-(HV k). unfold view_of. by rewrite (proj1 Hv2), (proj2 Hv2).
  - intros n k. rewrite Hch2, Hch. split; (intros [?|[? ?]]; [by left|right; split; [done|]]); by apply Hw.
  - intros n. rewrite Hp2. unfold pending. rewrite Hn.
    split; (intros [?|(k & ? & ?)]; [by left|right; exists k; split; [done|]]); by apply Hw.
Qed.

(** ** Claims released before the push *)

Definition clean_but (k : string) (s : dynstore) : Prop :=
  ∀ k' x, k' ≠ k → owner_of (storeData s) k' = Some x → removed_key x k' ∉ removedSessionKeys s.

Lemma clean_split k s :
  clean s ↔ clean_but k s ∧
    ∀ x, owner_of (storeData s) k = Some x → removed_key x k ∉ removedSessionKeys s.
Proof.
  split; [intros H; split; [intros k' x _|intros x]; apply H|]. intros [H1 H2] k' x Ho.
  destruct (decide (k' = k)) as [->|]; auto.
Qed.

Lemma owner_key_inj s k k' x x' :
  Core s → owner_of (storeData s) k = Some x → owner_of (storeData s) k' = Some x' →
  removed_key x k = removed_key x' k' → k = k'.
Proof.
  intros HC Ho Ho' Heq. destruct (i_owner _ _ _ _ (c_I _ HC) _ _ Ho) as (n & _ & ->).
  destruct (i_owner _ _ _ _ (c_I _ HC) _ _ Ho') as (n' & _ & ->). by apply removed_key_inj in Heq as [_ ?].
Qed.

Lemma changed_owner V ck rel s s' k :
  changed V ck rel s s' → owner_of (storeData s') k = (V k).2.
Proof. intros [_ _ Hv _ _ _ _]. by rewrite <-(Hv k). Qed.

(** Only claims on [k] itself are released, so the other claims stay clean. *)
Lemma clean_but_step V ck rel s s' k :
  Core s → changed V ck rel s s' →
  (∀ k', k' ≠ k → (V k').2 = owner_of (storeData s) k') →
  (∀ r, r ∈ rel → ∃ x, owner_of (storeData s) k = Some x ∧ r = removed_key x k) →
  clean_but k s → clean_but k s'.
Proof.
  intros HC Hch HV Hrel Hcl k' x Hk. rewrite (changed_owner _ _ _ _ _ _ Hch), HV by done.
  intros Ho. rewrite (ch_rel _ _ _ _ _ Hch). intros [Hr|Hr]%elem_of_union; [|by eapply Hcl].
  destruct (Hrel _ Hr) as (y & Hy & Heq). by eapply Hk, owner_key_inj.
Qed.

Lemma spec_set_other w k v V k' : k' ≠ k → spec_set w k v V k' = V k'.
Proof. intros Hk. unfold spec_set. case_match; [done|by rewrite decide_False]. Qed.

Lemma released_elem w k o r : r ∈ released w k o → ∃ x, o = Some x ∧ r = removed_key x k ∧ w_use w = false ∧ x ≠ w_key w.
Proof.
  unfold released. destruct o as [x|]; [|set_solver]. destruct (w_use w); [set_solver|].
  case_decide; [set_solver|]. intros ->%elem_of_singleton. by exists x.
Qed.

Abbreviation set_changed w k v s s' :=
  (changed (spec_set w k v (view_of (storeData s)))
    (if denied w k (view_of (storeData s)) then ∅ else {[k]})
    (if denied w k (view_of (storeData s)) then ∅ else released w k (owner_of (storeData s) k)) s s').
Abbreviation remove_changed k s s' :=
  (changed (spec_remove k (view_of (storeData s)))
    (if is_some (data_of (storeData s) k) then {[k]} else ∅)
    (match owner_of (storeData s) k with Some x => {[removed_key x k]} | None => ∅ end) s s').

Lemma clean_but_set w k v s s' :
  Core s → set_changed w k v s s' → clean_but k s → clean_but k s'.
Proof.
  intros HC Hch. apply (clean_but_step _ _ _ _ _ _ HC Hch).
  - intros k' Hk. by rewrite spec_set_other.
  - intros r. case_match; [set_solver|]. intros (x & Ho & -> & _)%released_elem. eauto.
Qed.

Lemma clean_set w k v s s' :
  Core s → set_changed w k v s s' → clean s →
  (w_use w = true → data_of (storeData s) k = None →
   removed_key (w_key w) k ∉ removedSessionKeys s) → clean s'.
Proof.
  intros HC Hch Hcl Huse. apply (clean_split k) in Hcl as [Hb Hk]. apply (clean_split k).
  split; [by eapply clean_but_set|]. intros x.
  rewrite (changed_owner _ _ _ _ _ _ Hch), (ch_rel _ _ _ _ _ Hch). unfold spec_set.
  destruct (denied w k (view_of (storeData s))) eqn:Eden; [cbn; intros Ho; specialize (Hk _ Ho); set_solver|].
  rewrite decide_True by done. cbn [snd view_of]. unfold new_owner, released.
  destruct (w_use w) eqn:Euse.
  - intros [= <-]. assert (removed_key (w_key w) k ∉ removedSessionKeys s).
    { destruct (data_of (storeData s) k) as [v0|] eqn:Ed; [|by auto]. apply Hk.
      unfold denied, view_of in Eden. cbn in Eden. rewrite Ed, Euse in Eden. cbn in Eden.
      apply negb_false_iff, bool_decide_eq_true in Eden. done. }
    destruct (owner_of (storeData s) k); set_solver.
  - destruct (owner_of (storeData s) k) as [y|]; [|done]. case_decide; [|done]. intros [= <-].
    specialize (Hk _ eq_refl). set_solver.
Qed.

Lemma clean_remove k s s' : Core s → remove_changed k s s' → clean_but k s → clean s'.
Proof.
  intros HC Hch Hb. apply (clean_split k). split.
  - apply (clean_but_step _ _ _ _ _ _ HC Hch); [| |done].
    + intros k' Hk. unfold spec_remove. by rewrite decide_False.
    + intros r. destruct (owner_of (storeData s) k) as [x|]; [|set_solver]. intros ->%elem_of_singleton. eauto.
  - intros x. rewrite (changed_owner _ _ _ _ _ _ Hch). unfold spec_remove. by rewrite decide_True.
Qed.

(** ** NotifyValue *)

Definition notify_ck (w : who) (k : string) (V : view) : gset string :=
  if denied w k V then ∅ else {[k]}.

Lemma notifyValue_spec st P k (s : dynstore) :
  Core s → clean s → stores s !! st = Some P →
  ∃ s' rel, __SCDynamicStoreNotifyValue st k true s = Some (kSCStatusOK, s') ∧
    changed (spec_notify (who_of P) k (view_of (storeData s)))
      (notify_ck (who_of P) k (view_of (storeData s))) rel s s' ∧ clean s'.
Proof.
  intros HC Hcl Hst. unfold __SCDynamicStoreNotifyValue. unfold bind at 1, gets at 1.
  change (storeData s !! k ≫= e_data) with (data_of (storeData s) k).
  unfold spec_notify, notify_ck. change (view_of (storeData s) k).1 with (data_of (storeData s) k).
  destruct (data_of (storeData s) k) as [v|] eqn:Ed.
  - destruct (setValue_spec st P k v s HC Hst) as (s' & E & Hch). rewrite (bind_eq _ _ _ _ _ E).
    exists s'. eexists. split; [done|]. split; [done|]. eapply clean_set; [done..|]. by rewrite Ed.
  - destruct (setValue_spec st P k m_true_data s HC Hst) as (s1 & E1 & Hch1).
    rewrite (bind_eq _ _ _ _ _ E1).
    destruct (removeValue_spec st k s1 (ch_core _ _ _ _ _ Hch1)) as (s2 & E2 & Hch2).
    rewrite (bind_eq _ _ _ _ _ E2).
    assert (Hden : denied (who_of P) k (view_of (storeData s)) = false).
    { unfold denied, view_of. cbn. rewrite Ed. cbn. by rewrite andb_false_r. }
    exists s2. eexists. split; [done|]. split.
    + pose proof (changed_trans _ _ _ _ _ _ _ _ _ Hch1 Hch2) as Hch.
      pose proof (ch_view _ _ _ _ _ Hch1) as HV.
      assert (is_some (data_of (storeData s1) k) = true) as Hsome.
      { change (data_of (storeData s1) k) with (view_of (storeData s1) k).1. rewrite (HV k).
        unfold spec_set. rewrite Hden. by rewrite decide_True. }
      rewrite Hsome, Hden in Hch. rewrite Hden. replace ({[k]} ∪ {[k]}) with ({[k]} : gset string) in Hch by set_solver.
      destruct Hch as [? ? HV2 ? ? ? ?]. split; try done. by rewrite HV2, HV.
    + eapply clean_remove; [apply Hch1|done|]. eapply clean_but_set; [done..|].
      by apply (clean_split k) in Hcl as [? _].
Qed.

(** ** SetMultiple *)

(** A view, and the keys changed so far. *)
Definition draft : Type := view * gset string.

Definition draft_set (w : who) (d : draft) (kv : string * cftype) : draft :=
  match kv with
  | (k, CFData v) => (spec_set w k v d.1, (if denied w k d.1 then ∅ else {[k]}) ∪ d.2)
  | _ => d
  end.
Definition draft_remove (d : draft) (value : cftype) : draft :=
  match value with
  | CFString k => (spec_remove k d.1, (if is_some (d.1 k).1 then {[k]} else ∅) ∪ d.2)
  | _ => d
  end.
Definition draft_notify (w : who) (d : draft) (value : cftype) : draft :=
  match value with
  | CFString k => (spec_notify w k d.1, notify_ck w k d.1 ∪ d.2)
  | _ => d
  end.

Definition drafted (s : dynstore) (d : draft) (s' : dynstore) : Prop :=
  ∃ rel, changed d.1 d.2 rel s s'.

Lemma drafted_step s d s1 V ck rel s2 d' :
  drafted s d s1 → changed V ck rel s1 s2 → d'.1 ≡ V → d'.2 = ck ∪ d.2 → drafted s d' s2.
Proof.
  intros [rel1 H1] H2 HV Hck. pose proof (changed_trans _ _ _ _ _ _ _ _ _ H1 H2) as [].
  exists (rel ∪ rel1). rewrite Hck. split; try done. by rewrite HV.
Qed.

(** A pass over a list of changes. *)
Lemma drafted_pass {X} (step : draft → X → draft) (body : X → C dynstore unit) (J : dynstore → Prop)
    (s : dynstore) l d s1 :
  (∀ x d s1, drafted s d s1 → J s1 →
     ∃ s2, body x s1 = Some (tt, s2) ∧ drafted s (step d x) s2 ∧ J s2) →
  drafted s d s1 → J s1 →
  ∃ s2, for_each l body s1 = Some (tt, s2) ∧ drafted s (foldl step d l) s2 ∧ J s2.
Proof.
  intros Hstep. revert d s1. induction l as [|x l IH]; intros d s1 Hd HJ; cbn [for_each foldl]; [by exists s1|].
  destruct (Hstep x _ _ Hd HJ) as (s2 & E & Hd2 & HJ2). rewrite (bind_eq _ _ _ _ _ E). by apply IH.
Qed.

Definition spec_multiple (w : who) (kvs : list (string * cftype)) (rem notif : list cftype) (V : view) : draft :=
  foldl (draft_notify w) (foldl draft_remove (foldl (draft_set w) (V, ∅) kvs) rem) notif.

Lemma is_some_view (d : gmap string entry) k : (view_of d k).1 = data_of d k.
Proof. done. Qed.

Lemma setMultiple_spec st P kvs rem notif (s : dynstore) :
  Core s → quiet s → stores s !! st = Some P →
  let d := spec_multiple (who_of P) (default [] kvs) (default [] rem) (default [] notif)
             (view_of (storeData s)) in
  ∃ s', __SCDynamicStoreSetMultiple st kvs rem notif s = Some (kSCStatusOK, s') ∧ committed d.1 d.2 s s'.
Proof.
  intros HC Hq Hst d. unfold __SCDynamicStoreSetMultiple. set (w := who_of P) in *.
  assert (Hpt : ∀ d0 s1, drafted s d0 s1 → stores s1 !! st = Some P).
  { intros d0 s1 [rel H]. by rewrite (f_stores _ _ (ch_frame _ _ _ _ _ H)). }
  destruct (drafted_pass (draft_set w) (setSpecificKey st)
    (λ s1, clean s1 ∧ (w_use w = true → removedSessionKeys s1 = ∅)) s (default [] kvs)
    (view_of (storeData s), ∅) s) as (s1 & E1 & Hd1 & Hcl1 & _).
  { intros [k v] d0 s1 Hd [Hcl Hu]. cbn [setSpecificKey draft_set].
    destruct v; try by exists s1. pose proof Hd as [rel0 Hch0].
    destruct (setValue_spec st P k d1 s1 (ch_core _ _ _ _ _ Hch0) (Hpt _ _ Hd)) as (s2 & E2 & Hch2).
    rewrite (bind_eq _ _ _ _ _ E2). exists s2. split; [done|]. pose proof (ch_view _ _ _ _ _ Hch0) as HV.
    split; [|split].
    - eapply drafted_step; [exact Hd|exact Hch2|..]; cbn; by rewrite HV.
    - eapply clean_set; [apply Hch0|done|done|]. intros Huse _. rewrite (Hu Huse). set_solver.
    - intros Huse. rewrite (ch_rel _ _ _ _ _ Hch2), (Hu Huse). unfold released. fold w. rewrite Huse.
      rewrite (right_id_L ∅ (∪)). by destruct (denied w k _), (owner_of (storeData s1) k). }
  { exists ∅. by apply changed_refl. }
  { destruct Hq as [_ _ HR]. split; [|done]. intros k x _. rewrite HR. set_solver. }
  rewrite (bind_eq _ _ _ _ _ E1).
  set (dr1 := foldl (draft_set w) _ _) in Hd1.
  destruct (drafted_pass draft_remove (removeSpecificKey st) clean s (default [] rem) dr1 s1)
    as (s2 & E2 & Hd2 & Hcl2); [|done|done|].
  { intros v d0 s3 Hd Hcl. destruct v; try by exists s3. cbn [removeSpecificKey draft_remove].
    pose proof Hd as [rel0 Hch0].
    destruct (removeValue_spec st s0 s3 (ch_core _ _ _ _ _ Hch0)) as (s4 & E4 & Hch4).
    rewrite (bind_eq _ _ _ _ _ E4). exists s4. split; [done|]. pose proof (ch_view _ _ _ _ _ Hch0) as HV.
    split.
    - eapply drafted_step; [exact Hd|exact Hch4|..]; cbn; [by rewrite HV|]. by rewrite <-(HV s0).
    - eapply clean_remove; [apply Hch0|done|]. by apply (clean_split s0) in Hcl as [? _]. }
  rewrite (bind_eq _ _ _ _ _ E2).
  set (dr2 := foldl draft_remove _ _) in Hd2.
  destruct (drafted_pass (draft_notify w) (notifySpecificKey st) clean s (default [] notif) dr2 s2)
    as (s3 & E3 & Hd3 & Hcl3); [|done|done|].
  { intros v d0 s4 Hd Hcl. destruct v; try by exists s4. cbn [notifySpecificKey draft_notify].
    pose proof Hd as [rel0 Hch0].
    destruct (notifyValue_spec st P s0 s4 (ch_core _ _ _ _ _ Hch0) Hcl (Hpt _ _ Hd)) as (s5 & rel & E5 & Hch5 & Hcl5).
    rewrite (bind_eq _ _ _ _ _ E5). exists s5. split; [done|]. split; [|done].
    pose proof (ch_view _ _ _ _ _ Hch0) as HV.
    eapply drafted_step; [exact Hd|exact Hch5|..]; cbn; [by rewrite HV|]. unfold notify_ck. by rewrite HV. }
  rewrite (bind_eq _ _ _ _ _ E3). destruct Hd3 as [rel Hch].
  destruct (push_commits _ _ _ _ _ Hq Hch Hcl3) as (s' & E & Hcm).
  rewrite (bind_eq _ _ _ _ _ E). exists s'. done.
Qed.

(** ** One change and a push *)

(** An operation with the push at its end. *)
Lemma setValue_push st k v (s : dynstore) r s1 :
  __SCDynamicStoreSetValue st k v true s = Some (r, s1) →
  __SCDynamicStoreSetValue st k v false s = bind __SCDynamicStorePush (λ _, ret r) s1.
Proof.
  unfold __SCDynamicStoreSetValue, push_unless, put_entry, bind, gets, modify, ret.
  destruct (set_session_mark _ _ _ _ _) as [[[e'|] s']|]; [| |done].
  - destruct (negb _); [case_decide; [|destruct (patternAddKey _ _) as [[[] ?]|]; [|done]]|];
      intros [= <- <-]; by destruct (__SCDynamicStorePush _) as [[? ?]|].
  - intros [= <- <-]. by destruct (__SCDynamicStorePush _) as [[? ?]|].
Qed.

Lemma removeValue_push st k (s : dynstore) r s1 :
  __SCDynamicStoreRemoveValue st k true s = Some (r, s1) →
  __SCDynamicStoreRemoveValue st k false s =
    (if is_some (data_of (storeData s) k) then bind __SCDynamicStorePush (λ _, ret r) s1 else Some (r, s1)).
Proof.
  unfold __SCDynamicStoreRemoveValue, data_of, push_unless, put_entry, del_entry, bind, gets, modify, ret.
  destruct (storeData s !! k) as [e|]; cbn [mbind option_bind is_some]; [|done].
  destruct (is_some (e_data e)); cbn [negb]; [|done].
  destruct (e_session e); (destruct (0 <? _)%nat; intros [= <- <-];
    by destruct (__SCDynamicStorePush _) as [[? ?]|]).
Qed.

Lemma notifyValue_push st k (s : dynstore) r s1 :
  __SCDynamicStoreNotifyValue st k true s = Some (r, s1) →
  __SCDynamicStoreNotifyValue st k false s = bind __SCDynamicStorePush (λ _, ret r) s1.
Proof.
  unfold __SCDynamicStoreNotifyValue, push_unless, bind, gets, ret.
  destruct (storeData s !! k ≫= e_data).
  - destruct (__SCDynamicStoreSetValue _ _ _ _ s) as [[? ?]|]; [|done].
    intros [= <- <-]. by destruct (__SCDynamicStorePush _) as [[? ?]|].
  - destruct (__SCDynamicStoreSetValue _ _ _ _ s) as [[? s2]|]; [|done].
    destruct (__SCDynamicStoreRemoveValue _ _ _ s2) as [[? ?]|]; [|done].
    intros [= <- <-]. by destruct (__SCDynamicStorePush _) as [[? ?]|].
Qed.

Lemma quiet_clean s : quiet s → clean s.
Proof. intros [_ _ HR] k x _. rewrite HR. set_solver. Qed.

Lemma setValue_commits st P k v (s : dynstore) :
  Core s → quiet s → stores s !! st = Some P →
  let V := view_of (storeData s) in let w := who_of P in
  ∃ s', __SCDynamicStoreSetValue st k v false s =
      Some (if denied w k V then kSCStatusKeyExists else kSCStatusOK, s') ∧
    committed (spec_set w k v V) (if denied w k V then ∅ else {[k]}) s s'.
Proof.
  intros HC Hq Hst V w. destruct (setValue_spec st P k v s HC Hst) as (s1 & E & Hch).
  assert (Hcl : clean s1).
  { eapply clean_set; [done..|by apply quiet_clean|]. intros _ _. rewrite (q_R _ Hq). set_solver. }
  destruct (push_commits _ _ _ _ _ Hq Hch Hcl) as (s2 & E2 & Hcm). exists s2. split; [|done].
  rewrite (setValue_push _ _ _ _ _ _ E). by rewrite (bind_eq _ _ _ _ _ E2).
Qed.

Lemma committed_refl s : Core s → quiet s → committed (view_of (storeData s)) ∅ s s.
Proof. intros HC Hq. split; try done; set_solver. Qed.

Lemma committed_view V V' ck s s' : committed V ck s s' → V ≡ V' → committed V' ck s s'.
Proof. intros [] HV. split; try done. by rewrite <-HV. Qed.

Lemma removeValue_commits st k (s : dynstore) :
  Core s → quiet s →
  let V := view_of (storeData s) in
  ∃ s', __SCDynamicStoreRemoveValue st k false s =
      Some (if is_some (V k).1 then kSCStatusOK else kSCStatusNoKey, s') ∧
    committed (spec_remove k V) (if is_some (V k).1 then {[k]} else ∅) s s'.
Proof.
  intros HC Hq V. destruct (removeValue_spec st k s HC) as (s1 & E & Hch).
  rewrite (removeValue_push _ _ _ _ _ E). cbn [V view_of fst].
  destruct (data_of (storeData s) k) as [v|] eqn:Ed; cbn [is_some] in *.
  - assert (Hcl : clean s1).
    { eapply (clean_remove k s); [done|by rewrite Ed|]. by apply (clean_split k), quiet_clean. }
    destruct (push_commits _ _ _ _ _ Hq Hch Hcl) as (s2 & E2 & Hcm). exists s2.
    by rewrite (bind_eq _ _ _ _ _ E2).
  - assert (owner_of (storeData s) k = None) as Ho.
    { destruct (owner_of (storeData s) k) eqn:Eo; [|done]. destruct (c_O _ HC k); [eauto|congruence]. }
    exists s1. split; [done|]. unfold __SCDynamicStoreRemoveValue in E.
    assert (s1 = s) as ->.
    { unfold bind at 1, gets at 1 in E. unfold data_of in Ed.
      destruct (storeData s !! k) as [e|]; [|by injection E]. cbn in Ed. rewrite Ed in E. by injection E. }
    eapply committed_view; [by apply committed_refl|]. intros k'. unfold spec_remove, view_of.
    case_decide; [subst k'; by rewrite Ed, Ho|done].
Qed.

Lemma notifyValue_commits st P k (s : dynstore) :
  Core s → quiet s → stores s !! st = Some P →
  let V := view_of (storeData s) in let w := who_of P in
  ∃ s', __SCDynamicStoreNotifyValue st k false s = Some (kSCStatusOK, s') ∧
    committed (spec_notify w k V) (notify_ck w k V) s s'.
Proof.
  intros HC Hq Hst V w.
  destruct (notifyValue_spec st P k s HC (quiet_clean _ Hq) Hst) as (s1 & rel & E & Hch & Hcl).
  destruct (push_commits _ _ _ _ _ Hq Hch Hcl) as (s2 & E2 & Hcm). exists s2. split; [|done].
  rewrite (notifyValue_push _ _ _ _ _ E). by rewrite (bind_eq _ _ _ _ _ E2).
Qed.

Lemma copyValue_spec st k (s : dynstore) :
  __SCDynamicStoreCopyValue st k s =
  Some (match data_of (storeData s) k with
        | Some v => (kSCStatusOK, Some v) | None => (kSCStatusNoKey, None) end, s).
Proof.
  unfold __SCDynamicStoreCopyValue, bind, gets, ret, data_of.
  destruct (storeData s !! k) as [e|]; [|done]. cbn. by destruct (e_data e).
Qed.

Lemma addValue_commits st P k v (s : dynstore) :
  Core s → quiet s → stores s !! st = Some P →
  let V := view_of (storeData s) in let w := who_of P in
  ∃ s', __SCDynamicStoreAddValue st k v s =
      Some (if is_some (V k).1 then kSCStatusKeyExists else kSCStatusOK, s') ∧
    committed (if is_some (V k).1 then V else spec_set w k v V) (if is_some (V k).1 then ∅ else {[k]}) s s'.
Proof.
  intros HC Hq Hst V w. unfold __SCDynamicStoreAddValue. rewrite (bind_eq _ _ _ _ _ (copyValue_spec st k s)).
  cbn [V view_of fst]. destruct (data_of (storeData s) k) as [v0|] eqn:Ed; cbn [is_some].
  - exists s. split; [done|]. by apply committed_refl.
  - destruct (setValue_spec st P k v s HC Hst) as (s1 & E & Hch).
    assert (Hden : denied w k (view_of (storeData s)) = false).
    { unfold denied, view_of. cbn. rewrite Ed. cbn. by rewrite andb_false_r. }
    assert (Hcl : clean s1).
    { eapply clean_set; [done..|by apply quiet_clean|]. intros _ _. rewrite (q_R _ Hq). set_solver. }
    destruct (push_commits _ _ _ _ _ Hq Hch Hcl) as (s2 & E2 & Hcm). fold w in E, Hcm.
    rewrite Hden in E, Hcm. exists s2. change (kSCStatusNoKey =? kSCStatusOK) with false. cbv iota.
    change (negb (kSCStatusNoKey =? kSCStatusNoKey)) with false. cbv iota.
    rewrite (bind_eq _ _ _ _ _ E). by rewrite (bind_eq _ _ _ _ _ E2).
Qed.

End value.
