(* ===== verification/StoreServer.v ===== *)
(** * Sessions, access control and requests of configd

    [session.c], the request handlers [_config*] and [_notify*] of the MIG
    interface, [notify_server.c], [pushNotifications] of [_SCD.c] and the loop of
    [configd_server.c]. *)

From S2P Require Import Prelude StoreTypes StoreOps.
Local Open Scope c_scope.
Local Open Scope Z_scope.

Definition EWOULDBLOCK : Z := 35.

Section server.
Context {RL : RegexLib} {CO : CFOrder} {MK : MachKernel}.

(** ** The session table *)

Definition load_session (r : sessionRef) : C dynstore serverSession :=
  match r with
  | Slot i => let* l := gets sessions in deref (mjoin (l !! i))
  | Temp => let* o := gets temp_session in deref o
  end.

Definition put_session (r : sessionRef) (S : serverSession) : C dynstore unit :=
  match r with
  | Slot i => modify (λ s, set_sessions (<[i := Some S]> (sessions s)) s)
  | Temp => modify (set_temp_session (Some S))
  end.

(** [mySession->store]. *)
Definition session_store (r : sessionRef) : C dynstore ptr :=
  let* S := load_session r in deref (s_store S).

(** The loop of [getSession], also the search of [addSession] for a duplicate. *)
Fixpoint find_session (l : list (option serverSession)) (i : nat) (server : Z)
    : C dynstore (option nat) :=
  match l with
  | [] => ret None
  | None :: l => find_session l (S i) server
  | Some this :: l =>
      if s_key this =? server then ret (Some i) else
      match s_store this with
      | None => find_session l (S i) server
      | Some st =>
          let* P := load_store st in
          if st_notifySignalTask P =? server then ret (Some i)
          else find_session l (S i) server
      end
  end.

Definition getSession (server : Z) : C dynstore (option nat) :=
  if server =? MACH_PORT_NULL then ret None else
  let* l := gets sessions in
  find_session (drop 1 l) 1 server.

Definition new_store (name : option string) : SCDynamicStorePrivate :=
  Store name 0 false None None NotifierNotRegistered 0 0 (-1) 0 0 0.

(** The dictionaries exist from the start; see the header. *)
Definition __SCDynamicStoreOpen (name : option string) : C dynstore ptr :=
  let* p := gets next_store in
  modify (λ s, set_stores (<[p := new_store name]> (stores s)) (S p) s) ;;
  ret p.

Definition tempSession (server : Z) (name : string) (token : audit_token)
    : C dynstore (option sessionRef) :=
  let* t := gets temp_session in
  (* dispatch_once *)
  let* temp :=
    match t with
    | Some T => ret T
    | None =>
        let* S0 := load_session (Slot 0) in
        let* st := __SCDynamicStoreOpen None in
        let T := Session (s_key S0) (Some st) (s_callerEUID S0) (s_auditToken S0)
                   (s_callerRootAccess S0) (s_callerWriteEntitlement S0) in
        put_session Temp T ;;
        ret T
    end in
  if negb (s_key temp =? server) then ret None else
  put_session Temp (Session (s_key temp) (s_store temp) 1 (Some token) UNKNOWN None) ;;
  let* st := deref (s_store temp) in
  upd_store st (st_with_name (Some name)) ;;
  ret (Some Temp).

(** Port names the server holds. *)
Definition ports_in_use (s : dynstore) : gset Z :=
  list_to_set (omap (fmap s_key) (sessions s)) ∪
  list_to_set ((map_to_list (stores s)).*2 ≫= λ P, [st_notifyPort P; st_notifySignalTask P]).

Definition fresh_session (port : Z) : serverSession := Session port None 1 None UNKNOWN None.

(** The first empty slot from 1 on. *)
Fixpoint empty_slot (l : list (option serverSession)) (i : nat) : option nat :=
  match l with
  | [] => None
  | None :: _ => Some i
  | Some _ :: l => empty_slot l (S i)
  end.

(** [insert_ok]: whether [mach_port_insert_right] succeeds for the new port. If it does
    not, an empty slot stays as it is. But the entry behind the last one, which is counted
    by then, is memory that nobody has set, and every later search reads it: undefined, a
    crash. (Entries once used are not dropped from the list of the model, so this is an
    entry that never was.) *)
Definition addSession (server : Z) (insert_ok : bool) : C dynstore (option nat) :=
  let* l := gets sessions in
  match l with
  | [] =>
      modify (set_sessions [Some (fresh_session server)]) ;;
      ret (Some O)
  | _ =>
      let* dup := find_session (drop 1 l) 1 server in
      match dup with
      | Some _ => ret None
      | None =>
          let* used := gets ports_in_use in
          let* mp := deref (m_port used) in            (* retried, then _SC_crash *)
          let S := fresh_session mp in
          match empty_slot (drop 1 l) 1 with
          | Some n =>
              if negb insert_ok then ret None
              else put_session (Slot n) S ;; ret (Some n)
          | None =>
              if negb insert_ok then crash
              else modify (set_sessions (l ++ [Some S])) ;; ret (Some (length l))
          end
      end
  end.

(** ** Closing *)

Definition isMySessionKey (sessionKey k : string) : C dynstore bool :=
  let* d := gets storeData in
  ret (match d !! k ≫= e_session with
       | Some storeSessionKey => (sessionKey =? storeSessionKey)%string
       | None => false
       end).

Definition removeAllKeys (st : ptr) (isRegex : bool) : C dynstore unit :=
  let* P := load_store st in
  for_each (default [] (if isRegex then st_patterns P else st_keys P))
    (λ k, __SCDynamicStoreRemoveWatchedKey st k isRegex ;; ret tt).

(** Removes my session keys among [l]; whether there was one. *)
Fixpoint removeSessionKeys (st : ptr) (sessionKey : string) (l : list string) (push : bool)
    : C dynstore bool :=
  match l with
  | [] => ret push
  | k :: l =>
      let* mine := isMySessionKey sessionKey k in
      if mine then
        __SCDynamicStoreRemoveValue st k true ;;
        removeSessionKeys st sessionKey l true
      else removeSessionKeys st sessionKey l push
  end.

Definition __SCDynamicStoreClose (st : ptr) : C dynstore Z :=
  removeAllKeys st false ;;
  removeAllKeys st true ;;
  __SCDynamicStoreNotifyCancel st ;;
  let* P := load_store st in
  let sessionKey := session_key (st_server P) in
  let* sd := gets sessionData in
  let* dict := deref (sd !! sessionKey) in
  match i_sessionKeys dict with
  | Some ((_ :: _) as l) =>
      let* push := removeSessionKeys st sessionKey l false in
      when push (__SCDynamicStorePush ;; ret tt)
  | _ => ret tt
  end ;;
  let* mySession := getSession (st_server P) in
  deref mySession ;;                                      (* assert (mySession != NULL) *)
  modify (λ s, set_stores (delete st (stores s)) (next_store s) s) ;;
  ret kSCStatusOK.

(** [while (--lastSession > 0)]: the slots up to the last one in use, slot 0 kept. *)
Fixpoint drop_empty (l : list (option serverSession)) : list (option serverSession) :=
  match l with
  | [] => []
  | x :: l => match x, drop_empty l with None, [] => [] | _, l => x :: l end
  end.

(** The slot, from 1 on, whose key is [server]. *)
Definition slot_of (l : list (option serverSession)) (server : Z) : option nat :=
  fst <$> list_find (λ o, (s_key <$> o) = Some server) (drop 1 l).

Definition cleanupSession (server : Z) : C dynstore unit :=
  let* l := gets sessions in
  match slot_of l server with
  | None => ret tt
  | Some n =>
      let i := S n in
      let* st := session_store (Slot i) in
      __SCDynamicStoreClose st ;;
      modify (λ s, set_sessionData (delete (session_key server) (sessionData s)) s) ;;
      modify (λ s, set_sessions
        (let l := <[i := None]> (sessions s) in
         if (S i =? length l)%nat then take 1 l ++ drop_empty (drop 1 l) else l) s)
  end.

(** ** Access control *)

Definition hasRootAccess (r : sessionRef) : C dynstore bool :=
  let* S := load_session r in
  let* S :=
    match s_callerRootAccess S with
    | UNKNOWN =>
        let* token := deref (s_auditToken S) in
        let S := Session (s_key S) (s_store S) (at_euid token) (s_auditToken S)
                   (if at_euid token =? 0 then YES else NO) (s_callerWriteEntitlement S) in
        put_session r S ;;
        ret S
    | _ => ret S
    end in
  ret (bool_decide (s_callerRootAccess S = YES)).

Definition dict_lookup (d : list (string * cftype)) (k : string) : option cftype :=
  snd <$> (snd <$> list_find (λ kv, kv.1 = k) d).

Fixpoint anyPatternMatches (patterns : list cftype) (k : string) : C dynstore bool :=
  match patterns with
  | [] => ret false
  | CFString pattern :: patterns =>
      let* m := patternKeyMatches pattern k in
      if m then ret true else anyPatternMatches patterns k
  | _ :: patterns => anyPatternMatches patterns k
  end.

(** [CFArrayContainsValue (keys, key)]. *)
Definition contains_string (l : list cftype) (k : string) : bool :=
  existsb (λ v, match v with CFString s => (s =? k)%string | _ => false end) l.

(** [CFStringHasPrefix] of a value that is not a string is undefined: a crash. *)
Definition hasWriteAccess (r : sessionRef) (key : cftype) : C dynstore bool :=
  match key with
  | CFString k =>
      let* root := hasRootAccess r in
      if root then ret true else
      let* S := load_session r in
      let* entitlement :=
        match s_callerWriteEntitlement S with
        | Some e => ret e
        | None =>
            let* token := deref (s_auditToken S) in
            let e := at_entitlement token in
            put_session r (Session (s_key S) (s_store S) (s_callerEUID S) (s_auditToken S)
                             (s_callerRootAccess S) (Some e)) ;;
            ret e
        end in
      match entitlement with
      | None => ret false
      | Some (CFBoolean b) => ret b
      | Some (CFDictionary d) =>
          if match dict_lookup d "keys" with Some (CFArray l) => contains_string l k | _ => false end
          then ret true else
          match dict_lookup d "patterns" with
          | Some (CFArray l) => anyPatternMatches l k
          | _ => ret false
          end
      | Some _ => ret false
      end
  | _ => crash
  end.

Fixpoint hasWriteAccessAll (r : sessionRef) (keys : list cftype) : C dynstore bool :=
  match keys with
  | [] => ret true
  | k :: keys =>
      let* ok := hasWriteAccess r k in
      if ok then hasWriteAccessAll r keys else ret false
  end.

(** ** Requests

    [server] is the port a request arrived on; a serialized argument is [None]
    when it does not unserialize, and an absent optional argument is [Some None]. *)

Definition anySession (server : Z) (name : string) (token : audit_token)
    : C dynstore (option sessionRef) :=
  let* o := getSession server in
  match o with
  | Some i => ret (Some (Slot i))
  | None => tempSession server name token
  end.

Definition _configset (server : Z) (key : option cftype) (data : option (list byte))
    (token : audit_token) : C dynstore Z :=
  match key, data with
  | Some key, Some data =>
      match key with
      | CFString k =>
          let* o := anySession server "SCDynamicStoreSetValue" token in
          match o with
          | None => ret kSCStatusNoStoreSession
          | Some r =>
              let* ok := hasWriteAccess r key in
              if negb ok then ret kSCStatusAccessError else
              let* st := session_store r in
              __SCDynamicStoreSetValue st k data false
          end
      | _ => ret kSCStatusInvalidArgument
      end
  | _, _ => ret kSCStatusFailed
  end.

Definition _configadd (server : Z) (key : option cftype) (data : option (list byte))
    (token : audit_token) : C dynstore Z :=
  match key, data with
  | Some key, Some data =>
      match key with
      | CFString k =>
          let* o := anySession server "SCDynamicStoreAddValue" token in
          match o with
          | None => ret kSCStatusNoStoreSession
          | Some r =>
              let* ok := hasWriteAccess r key in
              if negb ok then ret kSCStatusAccessError else
              let* st := session_store r in
              __SCDynamicStoreAddValue st k data
          end
      | _ => ret kSCStatusInvalidArgument
      end
  | _, _ => ret kSCStatusFailed
  end.

Definition _configadd_s (server : Z) (key : option cftype) (data : option (list byte))
    : C dynstore Z :=
  match key, data with
  | Some key, Some data =>
      match key with
      | CFString k =>
          let* o := getSession server in
          match o with
          | None => ret kSCStatusNoStoreSession
          | Some i =>
              let r := Slot i in
              let* ok := hasWriteAccess r key in
              if negb ok then ret kSCStatusAccessError else
              let* st := session_store r in
              let* P := load_store st in
              let use := st_useSessionKeys P in
              upd_store st (λ P, st_with_session (st_server P) true P) ;;
              let* sc_status := __SCDynamicStoreAddValue st k data in
              upd_store st (λ P, st_with_session (st_server P) use P) ;;
              ret sc_status
          end
      | _ => ret kSCStatusInvalidArgument
      end
  | _, _ => ret kSCStatusFailed
  end.

Definition _configget (server : Z) (key : option cftype) (token : audit_token)
    : C dynstore (Z * option (list byte)) :=
  match key with
  | None => ret (kSCStatusFailed, None)
  | Some (CFString k) =>
      let* o := anySession server "SCDynamicStoreCopyValue" token in
      match o with
      | None => ret (kSCStatusNoStoreSession, None)
      | Some r => let* st := session_store r in __SCDynamicStoreCopyValue st k
      end
  | Some _ => ret (kSCStatusInvalidArgument, None)
  end.

Definition _configremove (server : Z) (key : option cftype) (token : audit_token) : C dynstore Z :=
  match key with
  | None => ret kSCStatusFailed
  | Some (CFString k) =>
      let* o := anySession server "SCDynamicStoreRemoveValue" token in
      match o with
      | None => ret kSCStatusNoStoreSession
      | Some r =>
          let* ok := hasWriteAccess r (CFString k) in
          if negb ok then ret kSCStatusAccessError else
          let* st := session_store r in
          __SCDynamicStoreRemoveValue st k false
      end
  | Some _ => ret kSCStatusInvalidArgument
  end.

Definition _confignotify (server : Z) (key : option cftype) (token : audit_token) : C dynstore Z :=
  match key with
  | None => ret kSCStatusFailed
  | Some (CFString k) =>
      let* o := anySession server "SCDynamicStoreNotifyValue" token in
      match o with
      | None => ret kSCStatusNoStoreSession
      | Some r =>
          let* ok := hasWriteAccess r (CFString k) in
          if negb ok then ret kSCStatusAccessError else
          let* st := session_store r in
          __SCDynamicStoreNotifyValue st k false
      end
  | Some _ => ret kSCStatusInvalidArgument
  end.

Definition _configlist (server : Z) (key : option cftype) (isRegex : bool) (token : audit_token)
    : C dynstore (Z * list string) :=
  match key with
  | None => ret (kSCStatusFailed, [])
  | Some (CFString k) =>
      let* o := anySession server "SCDynamicStoreCopyKeyList" token in
      match o with
      | None => ret (kSCStatusNoStoreSession, [])
      | Some r => let* st := session_store r in __SCDynamicStoreCopyKeyList st k isRegex
      end
  | Some _ => ret (kSCStatusInvalidArgument, [])
  end.

(** An optional argument that must be an array; [inl] is the status of a bad one. *)
Definition array_arg (a : option (option cftype)) : Z + option (list cftype) :=
  match a with
  | None => inl kSCStatusFailed
  | Some None => inr None
  | Some (Some (CFArray l)) => inr (Some l)
  | Some (Some _) => inl kSCStatusInvalidArgument
  end.
Definition dict_arg (a : option (option cftype)) : Z + option (list (string * cftype)) :=
  match a with
  | None => inl kSCStatusFailed
  | Some None => inr None
  | Some (Some (CFDictionary d)) => inr (Some d)
  | Some (Some _) => inl kSCStatusInvalidArgument
  end.
(** An argument that does not unserialize is reported before one of a wrong type. *)
Definition bad_args (l : list Z) : Z :=
  if decide (kSCStatusFailed ∈ l) then kSCStatusFailed else kSCStatusInvalidArgument.
Definition arg_error {A} (a : Z + A) : list Z := match a with inl e => [e] | inr _ => [] end.

Definition _configset_m (server : Z) (dict remove notify : option (option cftype))
    (token : audit_token) : C dynstore Z :=
  match dict_arg dict, array_arg remove, array_arg notify with
  | inr dict, inr remove, inr notify =>
      let* o := anySession server "SCDynamicStoreSetMultiple" token in
      match o with
      | None => ret kSCStatusNoStoreSession
      | Some r =>
          let* ok1 := hasWriteAccessAll r ((λ kv, CFString kv.1) <$> default [] dict) in
          if negb ok1 then ret kSCStatusAccessError else
          let* ok2 := hasWriteAccessAll r (default [] remove) in
          if negb ok2 then ret kSCStatusAccessError else
          let* ok3 := hasWriteAccessAll r (default [] notify) in
          if negb ok3 then ret kSCStatusAccessError else
          let* st := session_store r in
          __SCDynamicStoreSetMultiple st dict remove notify
      end
  | a, b, c => ret (bad_args (arg_error a ++ arg_error b ++ arg_error c))
  end.

Definition _configget_m (server : Z) (keys patterns : option (option cftype)) (token : audit_token)
    : C dynstore (Z * gmap string (list byte)) :=
  match array_arg keys, array_arg patterns with
  | inr keys, inr patterns =>
      let* o := anySession server "SCDynamicStoreCopyMultiple" token in
      match o with
      | None => ret (kSCStatusNoStoreSession, ∅)
      | Some r => let* st := session_store r in __SCDynamicStoreCopyMultiple st keys patterns
      end
  | a, b => ret (bad_args (arg_error a ++ arg_error b), ∅)
  end.

(** The options of a new session: the value of kSCDynamicStoreUseSessionKeys. *)
Definition useSessionKeys_arg (options : option (option cftype)) : Z + option bool :=
  match options with
  | None => inl kSCStatusFailed
  | Some None => inr None
  | Some (Some (CFDictionary d)) =>
      match dict_lookup d "UseSessionKeys" with
      | None => inr None
      | Some (CFBoolean b) => inr (Some b)
      | Some _ => inl kSCStatusInvalidArgument
      end
  | Some (Some _) => inl kSCStatusInvalidArgument
  end.

(** [insert_ok], [notify_ok]: whether [mach_port_insert_right] and
    [mach_port_request_notification] succeed. *)
Definition _configopen (server : Z) (name : option cftype) (options : option (option cftype))
    (insert_ok notify_ok : bool) (token : audit_token) : C dynstore (Z * Z) :=
  match name with
  | None => ret (kSCStatusFailed, MACH_PORT_NULL)
  | Some name =>
  match options with
  | None => ret (kSCStatusFailed, MACH_PORT_NULL)
  | _ =>
  match name with
  | CFString name =>
  match useSessionKeys_arg options with
  | inl e => ret (e, MACH_PORT_NULL)
  | inr use =>
      let* o := addSession server insert_ok in
      match o with
      | None => ret (kSCStatusFailed, MACH_PORT_NULL)
      | Some i =>
          let* S := load_session (Slot i) in
          let newServer := s_key S in
          let* st := __SCDynamicStoreOpen (Some name) in
          put_session (Slot i) (Session newServer (Some st) (s_callerEUID S) (Some token)
                                  (s_callerRootAccess S) (s_callerWriteEntitlement S)) ;;
          upd_store st (λ P, st_with_session newServer (default (st_useSessionKeys P) use) P) ;;
          if negb notify_ok then
            cleanupSession newServer ;;
            ret (kSCStatusFailed, MACH_PORT_NULL)
          else
            let sessionKey := session_key newServer in
            let* sd := gets sessionData in
            put_info sessionKey (info_name (Some name) (default empty_info (sd !! sessionKey))) ;;
            ret (kSCStatusOK, newServer)
      end
  end
  | _ => ret (kSCStatusInvalidArgument, MACH_PORT_NULL)
  end
  end
  end.

Definition _notifyadd (server : Z) (key : option cftype) (isRegex : bool) : C dynstore Z :=
  match key with
  | None => ret kSCStatusFailed
  | Some (CFString k) =>
      let* o := getSession server in
      match o with
      | None => ret kSCStatusNoStoreSession
      | Some i => let* st := session_store (Slot i) in __SCDynamicStoreAddWatchedKey st k isRegex
      end
  | Some _ => ret kSCStatusInvalidArgument
  end.

Definition _notifyremove (server : Z) (key : option cftype) (isRegex : bool) : C dynstore Z :=
  match key with
  | None => ret kSCStatusFailed
  | Some (CFString k) =>
      let* o := getSession server in
      match o with
      | None => ret kSCStatusNoStoreSession
      | Some i => let* st := session_store (Slot i) in __SCDynamicStoreRemoveWatchedKey st k isRegex
      end
  | Some _ => ret kSCStatusInvalidArgument
  end.

(** A list whose elements are used as strings unchecked. *)
Definition strings_of (l : option (list cftype)) : C dynstore (option (list string)) :=
  match l with
  | None => ret None
  | Some l =>
      let* l := deref (mapM (λ v, match v with CFString s => Some s | _ => None end) l) in
      ret (Some l)
  end.

Definition _notifyset (server : Z) (keys patterns : option (option cftype)) : C dynstore Z :=
  match array_arg keys, array_arg patterns with
  | inr keys, inr patterns =>
      let* o := getSession server in
      match o with
      | None => ret kSCStatusNoStoreSession
      | Some i =>
          let* st := session_store (Slot i) in
          let* keys := strings_of keys in
          let* patterns := strings_of patterns in
          __SCDynamicStoreSetNotificationKeys st keys patterns
      end
  | a, b => ret (bad_args (arg_error a ++ arg_error b))
  end.

Definition _notifychanges (server : Z) : C dynstore (Z * list string) :=
  let* o := getSession server in
  match o with
  | None => ret (kSCStatusNoStoreSession, [])
  | Some i => let* st := session_store (Slot i) in __SCDynamicStoreCopyNotifiedKeys st
  end.

Definition _notifycancel (server : Z) : C dynstore Z :=
  let* o := getSession server in
  match o with
  | None => ret kSCStatusNoStoreSession
  | Some i => let* st := session_store (Slot i) in __SCDynamicStoreNotifyCancel st
  end.

Definition _notifyviaport (server port identifier : Z) : C dynstore Z :=
  let* o := getSession server in
  match o with
  | None => ret kSCStatusNoStoreSession
  | Some i =>
      let* st := session_store (Slot i) in
      let* sc_status := __SCDynamicStoreNotifyMachPort st identifier port in
      if negb (sc_status =? kSCStatusOK) then ret sc_status else
      upd_store st (λ P, st_with_port port (st_notifyPortIdentifier P)
                           (st_with_status Using_NotifierInformViaMachPort P)) ;;
      ret sc_status
  end.

(** [fd]: what [fileport_makefd] and the two [fcntl] calls give; [inl] is the errno. *)
Definition _notifyviafd (server : Z) (fd : Z + Z) (identifier : Z) : C dynstore Z :=
  let* o := getSession server in
  match fd with
  | inl e => ret e
  | inr fd =>
      match o with
      | None => ret kSCStatusNoStoreSession
      | Some i =>
          let* st := session_store (Slot i) in
          let* sc_status := __SCDynamicStoreNotifyFileDescriptor st in
          if negb (sc_status =? kSCStatusOK) then ret sc_status else
          upd_store st (λ P, st_with_file fd identifier
                               (st_with_status Using_NotifierInformViaFD P)) ;;
          ret sc_status
      end
  end.

Definition _notifyviasignal (server task sig : Z) : C dynstore Z :=
  let* o := getSession server in
  match o with
  | None => ret kSCStatusNoStoreSession
  | Some i =>
      let* st := session_store (Slot i) in
      if task =? TASK_NULL then ret kSCStatusInvalidArgument else
      let* n := gets (λ s, length (posted s)) in
      match m_pid_for_task n task with
      | None => ret kSCStatusFailed
      | Some pid =>
          let* sc_status := __SCDynamicStoreNotifySignal st pid sig in
          if negb (sc_status =? kSCStatusOK) then ret sc_status else
          upd_store st (λ P, st_with_signal sig task
                               (st_with_status Using_NotifierInformViaSignal P)) ;;
          ret sc_status
      end
  end.

(** ** Posting notifications *)

Definition pushNotification (num : Z) : C dynstore unit :=
  let* o := getSession (u32 num) in
  let* i := deref o in                                 (* assert (theSession != NULL) *)
  let* st := session_store (Slot i) in
  let* P := load_store st in
  when (bool_decide (st_notifyStatus P = Using_NotifierInformViaMachPort) &&
        negb (st_notifyPort P =? MACH_PORT_NULL))
    (let* n := gets (λ s, length (posted s)) in
     let id := if st_notifyPortIdentifier P =? 0 then m_random n else st_notifyPortIdentifier P in
     upd_store st (λ P, st_with_port (st_notifyPort P) id P) ;;
     modify (post (NotePort (st_notifyPort P) id))) ;;
  when (bool_decide (st_notifyStatus P = Using_NotifierInformViaFD) && (0 <=? st_notifyFile P))
    (let* n := gets (λ s, length (posted s)) in
     match m_write n (st_notifyFile P) with
     | inr e =>
         when (negb (e =? EWOULDBLOCK))
           (upd_store st (λ P, st_with_file (-1) (st_notifyFileIdentifier P) P))
     | inl written =>
         modify (post (NoteFD (st_notifyFile P) (st_notifyFileIdentifier P))) ;;
         when (negb (written =? 4)) (upd_store st (λ P, st_with_file (-1) (st_notifyFileIdentifier P) P))
     end) ;;
  when (bool_decide (st_notifyStatus P = Using_NotifierInformViaSignal) && (0 <? st_notifySignal P))
    (let* n := gets (λ s, length (posted s)) in
     match m_pid_for_task n (st_notifySignalTask P) with
     | Some pid => modify (post (NoteSignal pid (st_notifySignal P)))
     | None => upd_store st (st_with_signal 0 TASK_NULL)
     end).

Definition pushNotifications : C dynstore unit :=
  let* o := gets needsNotification in
  match o with
  | None => ret tt
  | Some X =>
      for_each (rev (cf_order_num (elements X))) pushNotification ;;
      modify (set_needsNotification None)
  end.

(** [notify_server]: the no-senders notification of a session port. *)
Definition notify_server_no_senders (port : Z) : C dynstore unit := cleanupSession port.

(** [server_init]: slot 0 holds the port new sessions are requested on. *)
Definition server_init (service_port : Z) : dynstore :=
  DS ∅ ∅ ∅ ∅ ∅ ∅ None ∅ 0 [Some (fresh_session service_port)] None [].

(** ** The server *)

Inductive message :=
  | ConfigOpen (server : Z) (name : option cftype) (options : option (option cftype)) (insert_ok notify_ok : bool)
      (token : audit_token)
  | ConfigList (server : Z) (key : option cftype) (isRegex : bool) (token : audit_token)
  | ConfigAdd (server : Z) (key : option cftype) (data : option (list byte)) (token : audit_token)
  | ConfigAddS (server : Z) (key : option cftype) (data : option (list byte))
  | ConfigGet (server : Z) (key : option cftype) (token : audit_token)
  | ConfigGetM (server : Z) (keys patterns : option (option cftype)) (token : audit_token)
  | ConfigSet (server : Z) (key : option cftype) (data : option (list byte)) (token : audit_token)
  | ConfigSetM (server : Z) (dict remove notify : option (option cftype)) (token : audit_token)
  | ConfigRemove (server : Z) (key : option cftype) (token : audit_token)
  | ConfigNotify (server : Z) (key : option cftype) (token : audit_token)
  | NotifyAdd (server : Z) (key : option cftype) (isRegex : bool)
  | NotifyRemove (server : Z) (key : option cftype) (isRegex : bool)
  | NotifySet (server : Z) (keys patterns : option (option cftype))
  | NotifyChanges (server : Z)
  | NotifyViaPort (server port identifier : Z)
  | NotifyViaFD (server : Z) (fd : Z + Z) (identifier : Z)
  | NotifyViaSignal (server task sig : Z)
  | NotifyCancel (server : Z)
  | NoSenders (port : Z).

Inductive reply :=
  | Status (sc_status : Z)
  | NewServer (sc_status port : Z)
  | Value (sc_status : Z) (data : option (list byte))
  | Keys (sc_status : Z) (keys : list string)
  | Values (sc_status : Z) (dict : gmap string (list byte))
  | NoReply.

Definition status_reply (m : C dynstore Z) : C dynstore reply := let* r := m in ret (Status r).

(** [config_demux]: a request of the MIG interface, or a notification. *)
Definition config_demux (m : message) : C dynstore reply :=
  match m with
  | ConfigOpen server name options insert_ok notify_ok token =>
      let* ' (r, port) := _configopen server name options insert_ok notify_ok token in ret (NewServer r port)
  | ConfigList server key isRegex token =>
      let* ' (r, l) := _configlist server key isRegex token in ret (Keys r l)
  | ConfigAdd server key data token => status_reply (_configadd server key data token)
  | ConfigAddS server key data => status_reply (_configadd_s server key data)
  | ConfigGet server key token => let* ' (r, v) := _configget server key token in ret (Value r v)
  | ConfigGetM server keys patterns token =>
      let* ' (r, d) := _configget_m server keys patterns token in ret (Values r d)
  | ConfigSet server key data token => status_reply (_configset server key data token)
  | ConfigSetM server dict rem notify token => status_reply (_configset_m server dict rem notify token)
  | ConfigRemove server key token => status_reply (_configremove server key token)
  | ConfigNotify server key token => status_reply (_confignotify server key token)
  | NotifyAdd server key isRegex => status_reply (_notifyadd server key isRegex)
  | NotifyRemove server key isRegex => status_reply (_notifyremove server key isRegex)
  | NotifySet server keys patterns => status_reply (_notifyset server keys patterns)
  | NotifyChanges server => let* ' (r, l) := _notifychanges server in ret (Keys r l)
  | NotifyViaPort server port identifier => status_reply (_notifyviaport server port identifier)
  | NotifyViaFD server fd identifier => status_reply (_notifyviafd server fd identifier)
  | NotifyViaSignal server task sig => status_reply (_notifyviasignal server task sig)
  | NotifyCancel server => status_reply (_notifycancel server)
  | NoSenders port => notify_server_no_senders port ;; ret NoReply
  end.

(** One round of [server_loop]. *)
Definition server_round (m : message) : C dynstore reply :=
  let* r := config_demux m in
  pushNotifications ;;
  ret r.

Fixpoint server_loop (l : list message) : C dynstore (list reply) :=
  match l with
  | [] => ret []
  | m :: l =>
      let* r := server_round m in
      let* rs := server_loop l in
      ret (r :: rs)
  end.

End server.
