(* ===== verification/StoreSess.v ===== *)
(** * Sessions: the invariant of the server

    The session table, the stores of the sessions and their watched keys; what
    the operations on them do.  [Inv] is what holds between two messages. *)

From S2P Require Import Prelude StoreTypes StoreInv StorePat StoreOps StoreCore StoreValue StoreServer.
Local Open Scope c_scope.
Local Open Scope Z_scope.

Section sess.
Context {RL : RegexLib} {CO : CFOrder} {MK : MachKernel}.

(** What a session remembers of its client's rights agrees with the token. *)
Definition auth_ok (S : serverSession) (tok : audit_token) : Prop :=
  s_auditToken S = Some tok ∧
  (s_callerRootAccess S = UNKNOWN ∨ s_callerRootAccess S = if at_euid tok =? 0 then YES else NO) ∧
  (s_callerWriteEntitlement S = None ∨ s_callerWriteEntitlement S = Some (at_entitlement tok)).

(** A session of the table and its store. *)
Definition session_at (s : dynstore) (i : nat) (S : serverSession) (st : ptr)
    (P : SCDynamicStorePrivate) : Prop :=
  sessions s !! i = Some (Some S) ∧ (0 < i)%nat ∧ s_store S = Some st ∧ stores s !! st = Some P ∧
  st_server P = s_key S ∧ 0 < s_key S < 2 ^ 32.

Record SI (s : dynstore) : Prop := {
  s_zero : ∃ S0, sessions s !! 0%nat = Some (Some S0);
  s_slot : ∀ i S, sessions s !! i = Some (Some S) → (0 < i)%nat →
    (∃ st P, session_at s i S st P) ∧ ∃ tok, auth_ok S tok;
  s_temp : ∀ T, temp_session s = Some T →
    ∃ st P, s_store T = Some st ∧ stores s !! st = Some P ∧ st_server P = 0;
  s_owned : ∀ st P, stores s !! st = Some P →
    if decide (st_server P = 0) then ∃ T, temp_session s = Some T ∧ s_store T = Some st
    else ∃ i S, session_at s i S st P;
  s_keys : ∀ i j S S', sessions s !! i = Some (Some S) → sessions s !! j = Some (Some S') →
    (0 < i)%nat → (0 < j)%nat → s_key S = s_key S' → i = j;
  s_fresh : ∀ st P, stores s !! st = Some P → (st < next_store s)%nat;
  s_tasks : ∀ st P i S, stores s !! st = Some P → sessions s !! i = Some (Some S) → (0 < i)%nat →
    st_notifySignalTask P ≠ s_key S;
}.

Record Inv (s : dynstore) : Prop := {
  v_core : Core s;
  v_quiet : quiet s;
  v_sess : SI s;
}.

(** ** Finding a session *)

Lemma load_store_eq st P (s : dynstore) : stores s !! st = Some P → load_store st s = Some (P, s).
Proof. intros Hst. unfold load_store, bind, gets. by rewrite Hst. Qed.

Lemma upd_store_eq st f P (s : dynstore) :
  stores s !! st = Some P →
  upd_store st f s = Some (tt, set_stores (<[st := f P]> (stores s)) (next_store s) s).
Proof. intros Hst. unfold upd_store. by rewrite (bind_eq _ _ _ _ _ (load_store_eq _ _ _ Hst)). Qed.

Lemma find_session_spec (s : dynstore) server l i :
  (∀ j S, l !! j = Some (Some S) → ∃ st P, s_store S = Some st ∧ stores s !! st = Some P) →
  ∃ o, find_session l i server s = Some (o, s) ∧
    match o with
    | None => ∀ j S, l !! j = Some (Some S) → s_key S ≠ server
    | Some n => ∃ j S, n = (i + j)%nat ∧ l !! j = Some (Some S) ∧
        (s_key S = server ∨ ∃ st P, s_store S = Some st ∧ stores s !! st = Some P ∧
                                    st_notifySignalTask P = server)
    end.
Proof.
  revert i. induction l as [|[S|] l IH]; intros i Hl; cbn [find_session].
  - by exists None.
  - destruct (Z.eqb_spec (s_key S) server) as [Hk|Hk].
    { exists (Some i). split; [done|]. exists 0%nat, S. rewrite Nat.add_0_r. auto. }
    destruct (Hl 0%nat S eq_refl) as (st & P & Hst & HP). rewrite Hst.
    rewrite (bind_eq _ _ _ _ _ (load_store_eq _ _ _ HP)).
    destruct (Z.eqb_spec (st_notifySignalTask P) server) as [Ht|Ht].
    { exists (Some i). split; [done|]. exists 0%nat, S. rewrite Nat.add_0_r. split; [done|]. split; [done|]. right. by exists st, P. }
    destruct (IH (Datatypes.S i)) as (o & E & Ho); [intros j S'; apply (Hl (Datatypes.S j))|].
    exists o. split; [done|]. destruct o as [n|].
    + destruct Ho as (j & S' & -> & Hj & Hor). exists (Datatypes.S j), S'. split; [lia|done].
    + intros [|j] S' Hj; [by injection Hj as ->|by apply (Ho j)].
  - destruct (IH (Datatypes.S i)) as (o & E & Ho); [intros j S'; apply (Hl (Datatypes.S j))|].
    exists o. split; [done|]. destruct o as [n|].
    + destruct Ho as (j & S' & -> & Hj & Hor). exists (Datatypes.S j), S'. split; [lia|done].
    + intros [|j] S' Hj; [done|by apply (Ho j)].
Qed.

(** [getSession]: the session of a port, if there is one. *)
Lemma getSession_spec (s : dynstore) server :
  SI s →
  ∃ o, getSession server s = Some (o, s) ∧
    match o with
    | None => ∀ i S st P, session_at s i S st P → s_key S ≠ server
    | Some i => ∃ S st P, session_at s i S st P ∧
        (s_key S = server ∨ ∀ i' S' st' P', session_at s i' S' st' P' → s_key S' ≠ server)
    end.
Proof.
  intros HS. unfold getSession. destruct (Z.eqb_spec server MACH_PORT_NULL) as [->|Hnz].
  { exists None. split; [done|]. intros i S st P (_ & _ & _ & _ & _ & Hr). unfold MACH_PORT_NULL. lia. }
  unfold bind at 1, gets at 1.
  destruct (find_session_spec s server (drop 1 (sessions s)) 1) as (o & E & Ho).
  { intros j S. rewrite lookup_drop. intros Hj.
    destruct (s_slot _ HS _ _ Hj) as [(st & P & (_ & _ & Hst & HP & _)) _]; [lia|]. eauto. }
  exists o. split; [done|]. destruct o as [n|].
  - destruct Ho as (j & S & -> & Hj & Hor). rewrite lookup_drop in Hj.
    destruct (s_slot _ HS _ _ Hj) as [(st & P & Hat) _]; [lia|]. exists S, st, P. split; [done|].
    destruct Hor as [?|(st' & P' & _ & HP' & <-)]; [by left|]. right.
    intros i' S' st1 P1 (Hi' & Hlt & _) Heq. by eapply (s_tasks _ HS st' P').
  - intros i S st P (Hi & Hlt & _). destruct i as [|i]; [lia|]. apply (Ho i S). by rewrite lookup_drop.
Qed.

Lemma session_at_key (s : dynstore) i S st P i' S' st' P' :
  SI s → session_at s i S st P → session_at s i' S' st' P' → s_key S = s_key S' → i' = i ∧ S' = S ∧ st' = st ∧ P' = P.
Proof.
  intros HS (Hi & ? & Hst & HP & _) (Hi' & ? & Hst' & HP' & _) Heq.
  pose proof (s_keys _ HS _ _ _ _ Hi Hi' ltac:(done) ltac:(done) Heq) as <-.
  assert (S' = S) as -> by congruence. assert (st' = st) as -> by congruence. split_and!; congruence.
Qed.

Lemma getSession_own (s : dynstore) i S st P :
  SI s → session_at s i S st P → getSession (s_key S) s = Some (Some i, s).
Proof.
  intros HS Hat. destruct (getSession_spec s (s_key S) HS) as (o & E & Ho). rewrite E. do 2 f_equal.
  destruct o as [j|]; [|by destruct (Ho _ _ _ _ Hat)]. destruct Ho as (S' & st' & P' & Hat' & [Heq|Hno]).
  - by destruct (session_at_key _ _ _ _ _ _ _ _ _ HS Hat Hat') as [-> _].
  - by destruct (Hno _ _ _ _ Hat).
Qed.

Lemma session_store_eq (s : dynstore) i S st :
  sessions s !! i = Some (Some S) → s_store S = Some st → session_store (Slot i) s = Some (st, s).
Proof. intros Hi Hst. unfold session_store, load_session, bind, gets. rewrite Hi. cbn. by rewrite Hst. Qed.

(** Numbers of sessions *)
Lemma session_num_small z : 0 <= z < 2 ^ 32 → session_num z = if z <? 2 ^ 31 then z else z - 2 ^ 32.
Proof.
  intros Hz. unfold session_num, i32. destruct (Z.ltb_spec z (2 ^ 31)).
  - rewrite Z.mod_small; lia.
  - replace (z + 2 ^ 31) with ((z - 2 ^ 31) + 1 * 2 ^ 32) by lia. rewrite Z.mod_add by lia.
    rewrite Z.mod_small; lia.
Qed.

Lemma session_num_inj x y : 0 <= x < 2 ^ 32 → 0 <= y < 2 ^ 32 → session_num x = session_num y → x = y.
Proof. intros Hx Hy. rewrite !session_num_small by done. repeat case_match; lia. Qed.

Lemma u32_session_num z : 0 <= z < 2 ^ 32 → u32 (session_num z) = z.
Proof.
  intros Hz. rewrite session_num_small by done. unfold u32. case_match; [by apply Z.mod_small|].
  replace (z - 2 ^ 32) with (z + -1 * 2 ^ 32) by lia. rewrite Z.mod_add by lia. by apply Z.mod_small.
Qed.

Lemma server_range (s : dynstore) st P : SI s → stores s !! st = Some P → 0 <= st_server P < 2 ^ 32.
Proof.
  intros HS HP. pose proof (s_owned _ HS _ _ HP) as Ho. case_decide as H0; [lia|].
  destruct Ho as (i & S & (_ & _ & _ & _ & -> & ?)). lia.
Qed.

(** ** Changes that the invariant does not see *)

Lemma SI_ext (s s' : dynstore) :
  stores s' = stores s → next_store s' = next_store s → sessions s' = sessions s →
  temp_session s' = temp_session s → SI s → SI s'.
Proof. destruct s, s'; cbn. intros -> -> -> -> []. by split. Qed.

Lemma SI_frame (s s' : dynstore) : frame s s' → SI s → SI s'.
Proof. intros []. by apply SI_ext. Qed.

Lemma committed_Inv V ck s s' : Inv s → committed V ck s s' → Inv s'.
Proof. intros HI []. split; [done|done|]. eapply SI_frame; [done|apply HI]. Qed.

Lemma II_opened sd own R sts sts' :
  II sd own R sts → (∀ n, opened sts' n ↔ opened sts n) → II sd own R sts'.
Proof.
  intros HI Ho. destruct HI as [i_open0 i_only0 i_keys0 i_nodup0 i_owner0 i_removed0]. split; try done.
  - intros n Hn. by apply i_open0, Ho.
  - intros x i Hi. destruct (i_only0 _ _ Hi) as (n & Hn & ->). exists n. by rewrite Ho.
  - intros k x Hx. destruct (i_owner0 _ _ Hx) as (n & Hn & ->). exists n. by rewrite Ho.
  - intros r Hr. destruct (i_removed0 _ Hr) as (n & k & Hn & ->). exists n, k. by rewrite Ho.
Qed.

Lemma Core_stores (s : dynstore) sts' nx d' pd' :
  Core s → WI d' pd' sts' → KI (deferredRemovals s) d' pd' → same_values (storeData s) d' →
  (∀ n, opened sts' n ↔ opened (stores s) n) →
  (∀ st P, sts' !! st = Some P → st_useSessionKeys P = true → st_server P ≠ 0) →
  (∀ st P, sts' !! st = Some P → st_server P = 0 → keys_of P = [] ∧ pats_of P = []) →
  Core (set_storeData d' (set_patternData pd' (set_stores sts' nx s))).
Proof.
  intros HC HW HK [Hv Ho] Hop Huse Hzero. split; cbn; try done.
  - intros k Hk. rewrite Hv. by apply HC.
  - intros k Hk. rewrite Hv. by apply HC.
  - intros k. rewrite Hv, Ho. apply HC.
  - eapply II_values; [|by split]. eapply II_opened; [apply HC|done].
  - intros n Hn. apply Hop, HC, Hn.
  - apply HC.
Qed.

(** The parts of a store the invariant is about. *)
Record neutral (P P' : SCDynamicStorePrivate) : Prop := {
  nt_server : st_server P' = st_server P;
  nt_use : st_useSessionKeys P' = true → st_useSessionKeys P = true ∨ st_server P ≠ 0;
}.

Lemma opened_insert sts st P P' n :
  sts !! st = Some P → st_server P' = st_server P →
  opened (<[st := P']> sts) n ↔ opened sts n.
Proof.
  intros Hst Hsrv. unfold opened. split.
  - intros (st1 & P1 & [[<- <-]|[? ?]]%lookup_insert_Some & Hnz & <-); [|eauto].
    exists st, P. unfold num_of. by rewrite <-Hsrv.
  - intros (st1 & P1 & HP1 & Hnz & <-). destruct (decide (st1 = st)) as [->|Hne].
    + exists st, P'. rewrite lookup_insert_eq. unfold num_of. rewrite Hsrv.
      by replace P with P1 by congruence.
    + exists st1, P1. by rewrite lookup_insert_ne.
Qed.

Lemma Core_insert (s : dynstore) st P P' nx d' pd' :
  Core s → stores s !! st = Some P → neutral P P' →
  WI d' pd' (<[st := P']> (stores s)) → KI (deferredRemovals s) d' pd' → same_values (storeData s) d' →
  (st_server P = 0 → keys_of P' = [] ∧ pats_of P' = []) →
  Core (set_storeData d' (set_patternData pd' (set_stores (<[st := P']> (stores s)) nx s))).
Proof.
  intros HC Hst [Hsrv Huse] HW HK Hv Hzero. apply Core_stores; try done.
  - intros n. by apply (opened_insert _ _ P).
  - intros st1 P1 [[<- <-]|[? ?]]%lookup_insert_Some; [|by apply (c_use _ HC st1)].
    rewrite Hsrv. intros [Hu|?]%Huse; [|done]. by apply (c_use _ HC _ _ Hst).
  - intros st1 P1 [[<- <-]|[? ?]]%lookup_insert_Some; [|by apply (c_zero _ HC st1)]. by rewrite Hsrv.
Qed.

(** A store changed, but not its number nor its keys. *)
Lemma Core_upd (s : dynstore) st P P' nx :
  Core s → stores s !! st = Some P → neutral P P' → keys_of P' = keys_of P → pats_of P' = pats_of P →
  Core (set_stores (<[st := P']> (stores s)) nx s).
Proof.
  intros HC Hst Hn Hk Hp.
  replace (set_stores _ nx s) with (set_storeData (storeData s) (set_patternData (patternData s)
    (set_stores (<[st := P']> (stores s)) nx s))) by by destruct s.
  apply (Core_insert s st P); [done..| |apply HC|done|].
  - apply (WI_same _ _ _ (c_W _ HC) st P); [done|apply Hn|done|done].
  - rewrite Hk, Hp. by apply (c_zero _ HC _ _ Hst).
Qed.

Lemma SI_upd (s : dynstore) st P P' :
  SI s → stores s !! st = Some P → st_server P' = st_server P →
  (∀ i S, sessions s !! i = Some (Some S) → (0 < i)%nat → st_notifySignalTask P' ≠ s_key S) →
  SI (set_stores (<[st := P']> (stores s)) (next_store s) s).
Proof.
  intros HS Hst Hsrv Htask.
  assert (Hat : ∀ i S st1 P1, session_at s i S st1 P1 →
    session_at (set_stores (<[st := P']> (stores s)) (next_store s) s) i S st1 (if decide (st1 = st) then P' else P1)).
  { intros i S st1 P1 (Hi & Hlt & Hs & HP1 & Hk & Hr). unfold session_at. cbn. case_decide as Heq.
    - subst st1. rewrite lookup_insert_eq, Hsrv. replace P with P1 by congruence. done.
    - by rewrite lookup_insert_ne. }
  destruct HS as [Hz Hslot Htemp Howned Hkeys Hfresh Htasks]. split; cbn; try done.
  - intros i S Hi Hlt. destruct (Hslot _ _ Hi Hlt) as [(st1 & P1 & H1) ?]. split; [|done]. eauto.
  - intros T HT. destruct (Htemp _ HT) as (st1 & P1 & Hs & HP1 & H0). exists st1.
    destruct (decide (st1 = st)) as [->|].
    + exists P'. rewrite lookup_insert_eq, Hsrv. by replace P with P1 by congruence.
    + exists P1. by rewrite lookup_insert_ne.
  - intros st1 P1 [[<- <-]|[? HP1]]%lookup_insert_Some.
    + rewrite Hsrv. pose proof (Howned _ _ Hst) as Ho. case_decide; [done|].
      destruct Ho as (i & S & H1). exists i, S. apply Hat in H1. by rewrite decide_True in H1.
    + pose proof (Howned _ _ HP1) as Ho. case_decide; [done|].
      destruct Ho as (i & S & H1). exists i, S. apply Hat in H1. by rewrite decide_False in H1.
  - intros st1 P1 [[<- <-]|[? HP1]]%lookup_insert_Some; [by eapply Hfresh|by eapply Hfresh].
  - intros st1 P1 i S [[<- <-]|[? HP1]]%lookup_insert_Some; [by apply Htask|by apply (Htasks st1)].
Qed.

Lemma session_at_upd (s : dynstore) st P P' i S st1 P1 :
  stores s !! st = Some P → st_server P' = st_server P → session_at s i S st1 P1 →
  session_at (set_stores (<[st := P']> (stores s)) (next_store s) s) i S st1 (if decide (st1 = st) then P' else P1).
Proof.
  intros Hst Hsrv (Hi & Hlt & Hs & HP1 & Hk & Hr). unfold session_at. cbn. case_decide as Heq.
  - subst st1. rewrite lookup_insert_eq, Hsrv. replace P with P1 by congruence. done.
  - by rewrite lookup_insert_ne.
Qed.

(** Everything but the table, the temporary session and the stores is the same. *)
Record same_dicts (s s' : dynstore) : Prop := {
  sd_data : storeData s' = storeData s;
  sd_info : sessionData s' = sessionData s;
  sd_pats : patternData s' = patternData s;
  sd_ck : changedKeys s' = changedKeys s;
  sd_def : deferredRemovals s' = deferredRemovals s;
  sd_rem : removedSessionKeys s' = removedSessionKeys s;
  sd_need : needsNotification s' = needsNotification s;
  sd_posted : posted s' = posted s;
}.
#[export] Instance same_dicts_refl : Reflexive same_dicts.
Proof. by intros s. Qed.
#[export] Instance same_dicts_trans : Transitive same_dicts.
Proof. intros s1 s2 s3 [] []. split; congruence. Qed.

Lemma quiet_dicts s s' : same_dicts s s' → quiet s → quiet s'.
Proof. intros [] []. split; congruence. Qed.

(** The same sessions watch the same keys. *)
Definition same_watch (sts sts' : gmap ptr SCDynamicStorePrivate) : Prop :=
  ∀ n k, watched sts' n k ↔ watched sts n k.

(** ** References to a session *)

(** [r] is a session whose client sent [tok], with store [P]. *)
Record resolves (s : dynstore) (r : sessionRef) (S : serverSession) (tok : audit_token) (st : ptr)
    (P : SCDynamicStorePrivate) : Prop := {
  r_load : load_session r s = Some (S, s);
  r_auth : auth_ok S tok;
  r_store : s_store S = Some st;
  r_priv : stores s !! st = Some P;
  r_slot : match r with
           | Slot i => session_at s i S st P
           | Temp => temp_session s = Some S ∧ st_server P = 0
           end;
}.

Lemma put_session_spec (s : dynstore) r S tok st P S' :
  Inv s → resolves s r S tok st P → s_key S' = s_key S → s_store S' = s_store S → auth_ok S' tok →
  ∃ s', put_session r S' s = Some (tt, s') ∧ Inv s' ∧ resolves s' r S' tok st P ∧
    same_dicts s s' ∧ stores s' = stores s.
Proof.
  intros [HC Hq HS] [Hl Ha Hst HP Hr] Hk Hs Ha'. destruct r as [i|]; cbn [put_session].
  - pose proof Hr as (Hi & Hlt & _ & _ & Hsrv & Hrange).
    assert (Hat' : session_at (set_sessions (<[i := Some S']> (sessions s)) s) i S' st P).
    { unfold session_at. cbn. rewrite list_lookup_insert_eq by (by eapply lookup_lt_Some). rewrite Hs, Hk. done. }
    eexists. split; [reflexivity|]. split; [split|split; [|split; [done|done]]].
    + by destruct HC.
    + by destruct Hq.
    + assert (Hat : ∀ j S1 st1 P1, session_at s j S1 st1 P1 →
        ∃ S2, session_at (set_sessions (<[i := Some S']> (sessions s)) s) j S2 st1 P1 ∧ s_key S2 = s_key S1).
      { intros j S1 st1 P1 H1. destruct (decide (j = i)) as [->|Hne].
        - exists S'. destruct (session_at_key s i S st P i S1 st1 P1) as (_ & -> & -> & ->); try done.
          destruct H1 as (H1 & _). congruence.
        - exists S1. split; [|done]. unfold session_at in *. cbn. by rewrite list_lookup_insert_ne. }
      assert (Hlk : ∀ j S1, (<[i := Some S']> (sessions s)) !! j = Some (Some S1) → (0 < j)%nat →
        ∃ S2, sessions s !! j = Some (Some S2) ∧ s_key S2 = s_key S1).
      { intros j S1 Hj _. destruct (decide (j = i)) as [->|Hne].
        - rewrite list_lookup_insert_eq in Hj by (by eapply lookup_lt_Some). injection Hj as <-. eauto.
        - rewrite list_lookup_insert_ne in Hj by done. eauto. }
      destruct HS as [Hz Hslot Htemp Howned Hkeys Hfresh Htasks]. split; cbn; try done.
      * rewrite list_lookup_insert_ne by lia. done.
      * intros j S1 Hj Hj0. destruct (decide (j = i)) as [->|Hne].
        -- rewrite list_lookup_insert_eq in Hj by (by eapply lookup_lt_Some). injection Hj as <-.
           split; [by exists st, P|by exists tok].
        -- rewrite list_lookup_insert_ne in Hj by done. destruct (Hslot _ _ Hj Hj0) as [(st1 & P1 & H1) ?].
           split; [|done]. exists st1, P1. unfold session_at in *. cbn. by rewrite list_lookup_insert_ne.
      * intros st1 P1 HP1. specialize (Howned _ _ HP1). case_decide; [done|].
        destruct Howned as (j & S1 & H1). destruct (Hat _ _ _ _ H1) as (S2 & H2 & _). eauto.
      * intros j1 j2 S1 S2 H1 H2 Hj1 Hj2 Heq.
        destruct (Hlk _ _ H1 Hj1) as (S1' & ? & ?). destruct (Hlk _ _ H2 Hj2) as (S2' & ? & ?).
        eapply Hkeys; [done..|congruence].
      * intros st1 P1 j S1 HP1 Hj Hj0. destruct (Hlk _ _ Hj Hj0) as (S2 & H2 & <-). by eapply Htasks.
    + split; try done; [|by rewrite Hs].
      unfold load_session, bind, gets. cbn. by rewrite list_lookup_insert_eq by (by eapply lookup_lt_Some).
  - destruct Hr as [HT H0]. eexists. split; [reflexivity|]. split; [split|split; [|split; [done|done]]].
    + by destruct HC.
    + by destruct Hq.
    + destruct HS as [Hz Hslot Htemp Howned Hkeys Hfresh Htasks]. split; cbn; try done.
      * intros T [= <-]. rewrite Hs. eauto.
      * intros st1 P1 HP1. specialize (Howned _ _ HP1). case_decide; [|done].
        destruct Howned as (T & HT1 & HT2). exists S'. split; [done|]. rewrite Hs. congruence.
    + split; try done. by rewrite Hs.
Qed.

End sess.

(** ** Who may write, and for which session

    The access checks of [session.c] decide by the client's token and
    entitlement; a request finds its session by the port it came in on. *)

Section auth.
Context {RL : RegexLib} {CO : CFOrder} {MK : MachKernel}.

(** ** The rights of a client *)

Definition pattern_matches (pattern k : string) : bool :=
  match patternCompile pattern with Some re => keyMatchesPattern k re | None => false end.

Definition entitled (e : option cftype) (k : string) : bool :=
  match e with
  | Some (CFBoolean b) => b
  | Some (CFDictionary d) =>
      match dict_lookup d "keys" with Some (CFArray l) => contains_string l k | _ => false end ||
      match dict_lookup d "patterns" with
      | Some (CFArray l) => existsb (λ v, match v with CFString p => pattern_matches p k | _ => false end) l
      | _ => false
      end
  | _ => false
  end.

(** Root, or a client entitled to write this key. *)
Definition may_write (tok : audit_token) (k : string) : bool :=
  (at_euid tok =? 0) || entitled (at_entitlement tok) k.

Lemma patternKeyMatches_spec pattern k (s : dynstore) :
  Core s → patternKeyMatches pattern k s = Some (pattern_matches pattern k, s).
Proof.
  intros HC. unfold patternKeyMatches, patternCopy, pattern_matches. unfold bind at 1, gets at 1.
  destruct (patternData s !! pattern) as [p|] eqn:Ep.
  - rewrite (k_regex _ _ _ (c_K _ HC) _ _ Ep). case_decide as Hk; [|done].
    apply (k_keys _ _ _ (c_K _ HC) _ _ _ Ep) in Hk as [_ Hm]. apply Is_true_true in Hm. by rewrite Hm.
  - unfold patternNew, bind, gets, ret. by destruct (patternCompile pattern).
Qed.

Lemma anyPatternMatches_spec l k (s : dynstore) :
  Core s →
  anyPatternMatches l k s =
    Some (existsb (λ v, match v with CFString p => pattern_matches p k | _ => false end) l, s).
Proof.
  intros HC. induction l as [|v l IH]; [done|]. destruct v; try done. cbn [anyPatternMatches existsb].
  rewrite (bind_eq _ _ _ _ _ (patternKeyMatches_spec _ _ _ HC)).
  by destruct (pattern_matches s0 k).
Qed.

Lemma hasRootAccess_spec r S tok st P (s : dynstore) :
  Inv s → resolves s r S tok st P →
  ∃ S' s', hasRootAccess r s = Some (at_euid tok =? 0, s') ∧ Inv s' ∧ resolves s' r S' tok st P ∧
    same_dicts s s' ∧ stores s' = stores s ∧ s_key S' = s_key S.
Proof.
  intros HI Hr. unfold hasRootAccess. rewrite (bind_eq _ _ _ _ _ (r_load _ _ _ _ _ _ Hr)).
  destruct (r_auth _ _ _ _ _ _ Hr) as (Htok & Hroot & Hent).
  destruct (s_callerRootAccess S) eqn:Er; cbn [bind].
  1,2: exists S, s; split; [|done]; destruct Hroot as [|Hroot]; [done|]; unfold bind, ret; rewrite Er, Hroot;
    by destruct (at_euid tok =? 0).
  set (S' := Session (s_key S) (s_store S) (at_euid tok) (s_auditToken S)
    (if at_euid tok =? 0 then YES else NO) (s_callerWriteEntitlement S)).
  destruct (put_session_spec s r S tok st P S' HI Hr) as (s' & E & HI' & Hr' & Hd & Hs); [done..| |].
  { split; [done|]. split; [by right|done]. }
  exists S', s'. split; [|done].
  assert (Hm : (let* token := deref (s_auditToken S) in
      put_session r (Session (s_key S) (s_store S) (at_euid token) (s_auditToken S)
        (if at_euid token =? 0 then YES else NO) (s_callerWriteEntitlement S)) ;;
      ret (Session (s_key S) (s_store S) (at_euid token) (s_auditToken S)
        (if at_euid token =? 0 then YES else NO) (s_callerWriteEntitlement S))) s = Some (S', s')).
  { rewrite (bind_eq _ _ s tok s) by (by rewrite Htok). by rewrite (bind_eq _ _ _ _ _ E). }
  rewrite (bind_eq _ _ _ _ _ Hm). unfold ret. cbn. by destruct (at_euid tok =? 0).
Qed.

Lemma hasWriteAccess_spec r S tok st P k (s : dynstore) :
  Inv s → resolves s r S tok st P →
  ∃ S' s', hasWriteAccess r (CFString k) s = Some (may_write tok k, s') ∧ Inv s' ∧ resolves s' r S' tok st P ∧
    same_dicts s s' ∧ stores s' = stores s ∧ s_key S' = s_key S.
Proof.
  intros HI Hr. destruct (hasRootAccess_spec r S tok st P s HI Hr) as (S1 & s1 & E1 & HI1 & Hr1 & Hd1 & Hs1 & Hk1).
  unfold hasWriteAccess, may_write. rewrite (bind_eq _ _ _ _ _ E1).
  destruct (at_euid tok =? 0); [by exists S1, s1|]. cbn [orb].
  rewrite (bind_eq _ _ _ _ _ (r_load _ _ _ _ _ _ Hr1)).
  destruct (r_auth _ _ _ _ _ _ Hr1) as (Htok & Hroot & Hent).
  assert (Hm : ∃ S2 s2, match s_callerWriteEntitlement S1 with
      | Some e => ret e
      | None =>
          let* token := deref (s_auditToken S1) in
          let e := at_entitlement token in
          put_session r (Session (s_key S1) (s_store S1) (s_callerEUID S1) (s_auditToken S1)
                           (s_callerRootAccess S1) (Some e)) ;;
          ret e
      end s1 = Some (at_entitlement tok, s2) ∧ Inv s2 ∧ resolves s2 r S2 tok st P ∧
      same_dicts s s2 ∧ stores s2 = stores s ∧ s_key S2 = s_key S).
  { destruct (s_callerWriteEntitlement S1) as [e|] eqn:Ee.
    - exists S1, s1. destruct Hent as [|Hent]; [done|]. by injection Hent as ->.
    - set (S2 := Session (s_key S1) (s_store S1) (s_callerEUID S1) (s_auditToken S1)
                           (s_callerRootAccess S1) (Some (at_entitlement tok))).
      destruct (put_session_spec s1 r S1 tok st P S2 HI1 Hr1) as (s2 & E2 & HI2 & Hr2 & Hd2 & Hs2); [done..| |].
      { split; [done|]. split; [done|by right]. }
      exists S2, s2. rewrite (bind_eq _ _ s1 tok s1) by (by rewrite Htok).
      rewrite (bind_eq _ _ _ _ _ E2). split; [done|]. split; [done|]. split; [done|].
      split; [by etrans|]. split; [congruence|done]. }
  destruct Hm as (S2 & s2 & E2 & HI2 & Hr2 & Hd2 & Hs2 & Hk2). rewrite (bind_eq _ _ _ _ _ E2).
  exists S2, s2. split; [|done]. unfold entitled.
  destruct (at_entitlement tok) as [[| |b|l|d|]|]; try done.
  destruct (match dict_lookup d "keys" with Some (CFArray l) => contains_string l k | _ => false end); [done|].
  cbn [orb]. destruct (dict_lookup d "patterns") as [[| | |l| |]|]; try done.
  apply anyPatternMatches_spec, HI2.
Qed.

Lemma hasWriteAccessAll_spec r S tok st P ks (s : dynstore) :
  Inv s → resolves s r S tok st P →
  ∃ S' s', hasWriteAccessAll r (CFString <$> ks) s = Some (forallb (may_write tok) ks, s') ∧ Inv s' ∧
    resolves s' r S' tok st P ∧ same_dicts s s' ∧ stores s' = stores s.
Proof.
  revert S s. induction ks as [|k ks IH]; intros S s HI Hr; [by exists S, s|]. cbn [fmap list_fmap hasWriteAccessAll].
  destruct (hasWriteAccess_spec r S tok st P k s HI Hr) as (S1 & s1 & E1 & HI1 & Hr1 & Hd1 & Hs1 & _).
  rewrite (bind_eq _ _ _ _ _ E1). cbn [forallb]. destruct (may_write tok k); [|by exists S1, s1].
  destruct (IH S1 s1 HI1 Hr1) as (S2 & s2 & E2 & HI2 & Hr2 & Hd2 & Hs2). exists S2, s2. split; [done|].
  split; [done|]. split; [done|]. split; [by etrans|congruence].
Qed.

(** ** The session of a request *)

Definition temp_who : who := Who (session_key 0) false.

Lemma watched_open sts st P n k :
  sts !! st = None → keys_of P = [] → pats_of P = [] →
  watched (<[st := P]> sts) n k ↔ watched sts n k.
Proof.
  intros Hst Hk Hp. unfold watched. split.
  - intros (st1 & P1 & [[<- <-]|[? ?]]%lookup_insert_Some & Hn & Hw); [|eauto].
    destruct Hw as [Hw|(pat & re & Hw & _)]; [rewrite Hk in Hw|rewrite Hp in Hw]; set_solver.
  - intros (st1 & P1 & HP1 & Hn & Hw). exists st1, P1. rewrite lookup_insert_ne by congruence. done.
Qed.

Lemma watched_same sts st P P' n k :
  sts !! st = Some P → st_server P' = st_server P → keys_of P' = keys_of P → pats_of P' = pats_of P →
  watched (<[st := P']> sts) n k ↔ watched sts n k.
Proof.
  intros Hst Hsrv Hk Hp. unfold watched, watches. split.
  - intros (st1 & P1 & [[<- <-]|[? ?]]%lookup_insert_Some & Hn & Hw); [|eauto].
    exists st, P. rewrite Hk, Hp in Hw. unfold num_of in *. by rewrite <-Hsrv.
  - intros (st1 & P1 & HP1 & Hn & Hw). destruct (decide (st1 = st)) as [->|Hne].
    + exists st, P'. rewrite lookup_insert_eq. replace P1 with P in * by congruence. unfold num_of in *.
      by rewrite Hsrv, Hk, Hp.
    + exists st1, P1. by rewrite lookup_insert_ne.
Qed.

Lemma store_fresh (s : dynstore) : SI s → stores s !! next_store s = None.
Proof.
  intros HS. destruct (stores s !! next_store s) eqn:E; [|done]. apply (s_fresh _ HS) in E. lia.
Qed.

(** The stores of the sessions are the same, and they watch the same keys. *)
Record same_clients (sts sts' : gmap ptr SCDynamicStorePrivate) : Prop := {
  sc_watched : ∀ n k, watched sts' n k ↔ watched sts n k;
  sc_open : ∀ st P, st_server P ≠ 0 → sts' !! st = Some P ↔ sts !! st = Some P;
}.
#[export] Instance same_clients_refl : Reflexive same_clients.
Proof. by intros sts. Qed.
#[export] Instance same_clients_trans : Transitive same_clients.
Proof.
  intros s1 s2 s3 [H1 H2] [H3 H4]. split; [intros; by rewrite H3, H1|].
  intros st P HP. by rewrite H4, H2 by done.
Qed.

(** Putting a store that is nobody's session. *)
Lemma put_open (sts : gmap ptr SCDynamicStorePrivate) st P' :
  st_server P' = 0 → (∀ P, sts !! st = Some P → st_server P = 0) →
  ∀ st1 P1, st_server P1 ≠ 0 → <[st := P']> sts !! st1 = Some P1 ↔ sts !! st1 = Some P1.
Proof.
  intros H' H st1 P1 H1. destruct (decide (st1 = st)) as [->|Hne]; [|by rewrite lookup_insert_ne].
  rewrite lookup_insert_eq. split; [by intros [= <-]|]. intros HP. by destruct (H1 (H _ HP)).
Qed.

(** The temporary session's store is made on its first use. *)
Lemma temp_open T (s : dynstore) :
  Inv s → temp_session s = None → s_store T = Some (next_store s) →
  Inv (set_temp_session (Some T)
        (set_stores (<[next_store s := new_store None]> (stores s)) (S (next_store s)) s)).
Proof.
  intros [HC Hq HS] HT HsT. pose proof (store_fresh s HS) as Hfr.
  assert (Hzero : ∀ st P, stores s !! st = Some P → 0 < st_server P < 2 ^ 32).
  { intros st P HP. pose proof (s_owned _ HS _ _ HP) as Ho. case_decide; [destruct Ho as (? & ? & _); congruence|].
    destruct Ho as (i & S & (_ & _ & _ & _ & -> & ?)). done. }
  set (sts' := <[next_store s := new_store None]> (stores s)).
  assert (HC' : Core (set_stores sts' (S (next_store s)) s)).
  { replace (set_stores _ _ s) with (set_storeData (storeData s) (set_patternData (patternData s)
      (set_stores sts' (S (next_store s)) s))) by by destruct s.
    apply Core_stores; [done| |apply HC|done| | |].
    - apply WI_open; [apply HC|done|done|done|]. intros st P HP. unfold num_of. cbn.
      specialize (Hzero _ _ HP). intros Heq. apply session_num_inj in Heq; lia.
    - intros n. unfold opened. split.
      + intros (st & P & [[<- <-]|[? ?]]%lookup_insert_Some & Hnz & Hn); [done|eauto].
      + intros (st & P & HP & Hnz & Hn). exists st, P. unfold sts'. rewrite lookup_insert_ne by congruence. done.
    - intros st P [[<- <-]|[? ?]]%lookup_insert_Some; [done|by apply (c_use _ HC st)].
    - intros st P [[<- <-]|[? ?]]%lookup_insert_Some; [done|by apply (c_zero _ HC st)]. }
  split.
  - by destruct HC'.
  - by destruct Hq.
  - destruct HS as [Hz Hslot Htemp Howned Hkeys Hfresh Htasks].
    assert (Hat : ∀ i S st P, session_at s i S st P → session_at (set_temp_session (Some T)
        (set_stores sts' (Datatypes.S (next_store s)) s)) i S st P).
    { intros i S st P (? & ? & ? & HP & ?). unfold session_at. cbn. unfold sts'.
      rewrite lookup_insert_ne by congruence. done. }
    split; cbn; try done.
    + intros i S Hi Hlt. destruct (Hslot _ _ Hi Hlt) as [(st & P & H1) ?]. split; [|done]. eauto.
    + intros T' [= <-]. exists (next_store s), (new_store None). unfold sts'. by rewrite lookup_insert_eq.
    + intros st P [[<- <-]|[? HP]]%lookup_insert_Some.
      * rewrite decide_True by done. eauto.
      * specialize (Hzero _ _ HP). specialize (Howned _ _ HP). case_decide; [lia|].
        destruct Howned as (i & S & ?). eauto.
    + intros st P [[<- <-]|[? HP]]%lookup_insert_Some; [lia|]. specialize (Hfresh _ _ HP). lia.
    + intros st P i S [[<- <-]|[? HP]]%lookup_insert_Some Hi Hlt; [|by eapply Htasks].
      destruct (Hslot _ _ Hi Hlt) as [(st & P & (_ & _ & _ & _ & _ & ?)) _]. cbn. lia.
Qed.

Lemma put_temp T T' (s : dynstore) :
  Inv s → temp_session s = Some T → s_store T' = s_store T → Inv (set_temp_session (Some T') s).
Proof.
  intros [HC Hq HS] HT Hs. split; [by destruct HC|by destruct Hq|].
  destruct HS as [Hz Hslot Htemp Howned Hkeys Hfresh Htasks]. split; cbn; try done.
  - intros ? [= <-]. rewrite Hs. eauto.
  - intros st P HP. specialize (Howned _ _ HP). case_decide; [|done].
    destruct Howned as (? & ? & ?). exists T'. split; [done|]. rewrite Hs. congruence.
Qed.

(** A client without a session, on the server's own port. *)
Lemma tempSession_spec server name tok (s : dynstore) :
  Inv s →
  ∃ o s', tempSession server name tok s = Some (o, s') ∧ Inv s' ∧ same_dicts s s' ∧
    same_clients (stores s) (stores s') ∧
    match o with
    | None => True
    | Some r => ∃ S st P, resolves s' r S tok st P ∧ who_of P = temp_who
    end.
Proof.
  intros HI. set (mk := λ T, Session (s_key T) (s_store T) 1 (Some tok) UNKNOWN None).
  (* the temporary session exists *)
  assert (Hmain : ∀ T s1, Inv s1 → temp_session s1 = Some T →
    ∃ o s', (if negb (s_key T =? server) then ret None else
        put_session Temp (mk T) ;;
        let* st := deref (s_store T) in
        upd_store st (st_with_name (Some name)) ;;
        ret (Some Temp)) s1 = Some (o, s') ∧ Inv s' ∧ same_dicts s1 s' ∧
      same_clients (stores s1) (stores s') ∧
      match o with
      | None => True
      | Some r => ∃ S st P, resolves s' r S tok st P ∧ who_of P = temp_who
      end).
  { intros T s1 HI1 HT. destruct (s_key T =? server); cbn [negb]; [|by exists None, s1].
    destruct (s_temp _ (v_sess _ HI1) _ HT) as (st & P & Hst & HP & H0).
    pose proof (put_temp T (mk T) s1 HI1 HT eq_refl) as HI2.
    set (s2 := set_temp_session (Some (mk T)) s1) in *.
    set (P' := st_with_name (Some name) P).
    set (s3 := set_stores (<[st := P']> (stores s2)) (next_store s2) s2).
    exists (Some Temp), s3. rewrite (bind_eq _ _ s1 tt s2) by done.
    rewrite (bind_eq _ _ s2 st s2) by (by rewrite Hst).
    rewrite (bind_eq _ _ s2 tt s3) by (by apply upd_store_eq).
    split; [done|]. split; [|split; [done|split]].
    - destruct HI2 as [HC2 Hq2 HS2]. split.
      + apply (Core_upd _ _ P); [done|exact HP|split; [done|by left]|done|done].
      + by destruct Hq2.
      + apply (SI_upd _ _ P); [done|done|done|]. intros i S. by apply (s_tasks _ HS2 st P).
    - split; [intros n k; by apply (watched_same _ _ P)|]. apply put_open; [done|].
      intros P1 HP1. by replace P1 with P by congruence.
    - exists (mk T), st, P'. split.
      + split; [done| |done|cbn; by rewrite lookup_insert_eq|done]. split; [done|]. split; [by left|by left].
      + unfold who_of, temp_who. cbn. rewrite H0. f_equal.
        destruct (st_useSessionKeys P) eqn:Eu; [|done]. by destruct (c_use _ (v_core _ HI1) _ _ HP Eu). }
  unfold tempSession. unfold bind at 1, gets at 1. destruct (temp_session s) as [T|] eqn:ET.
  - destruct (Hmain T s HI ET) as (o & s' & E & H). exists o, s'. split; [exact E|done].
  - destruct (s_zero _ (v_sess _ HI)) as [S0 H0].
    set (T := Session (s_key S0) (Some (next_store s)) (s_callerEUID S0) (s_auditToken S0)
                   (s_callerRootAccess S0) (s_callerWriteEntitlement S0)).
    set (s1 := set_temp_session (Some T)
        (set_stores (<[next_store s := new_store None]> (stores s)) (S (next_store s)) s)).
    assert (HI1 : Inv s1) by (by apply temp_open).
    destruct (Hmain T s1 HI1 eq_refl) as (o & s' & E & HI' & Hd & Hw & Hr).
    exists o, s'. split; [|split; [done|split; [|split; [|done]]]].
    + rewrite (bind_eq _ _ s T s1); [exact E|].
      rewrite (bind_eq _ _ s S0 s); [done|]. unfold load_session, bind, gets. by rewrite H0.
    + etrans; [|exact Hd]. done.
    + etrans; [|exact Hw]. pose proof (store_fresh s (v_sess _ HI)) as Hfr. split.
      * intros n k. by apply watched_open.
      * apply put_open; [done|]. intros P1 HP1. cbn in *. congruence.
Qed.

(** A request on a session's own port acts for that session. *)
Lemma anySession_own name tok (s : dynstore) i S st P tok' :
  Inv s → session_at s i S st P → auth_ok S tok' →
  anySession (s_key S) name tok s = Some (Some (Slot i), s) ∧ resolves s (Slot i) S tok' st P.
Proof.
  intros HI Hat Ha. unfold anySession.
  rewrite (bind_eq _ _ _ _ _ (getSession_own _ _ _ _ _ (v_sess _ HI) Hat)). split; [done|].
  pose proof Hat as (Hi & Hlt & Hst & HP & _). split; try done. unfold load_session, bind, gets. by rewrite Hi.
Qed.
End auth.
