(* ===== verification/StoreNotify.v ===== *)
(** * Watching keys and asking for notifications

    [_notifyadd.c], [_notifyremove.c], [_notifychanges.c], [_notifycancel.c] and
    the three [_notifyvia*.c]: what they do to the lists of a session. *)

From S2P Require Import Prelude StoreTypes StoreInv StorePat StoreOps StoreCore StoreValue.
From S2P Require Import StoreServer StoreSess.
Local Open Scope c_scope.
Local Open Scope Z_scope.

Section notify.
Context {RL : RegexLib} {CO : CFOrder} {MK : MachKernel}.

(** ** The lists of a session *)

Definition list_of (isRegex : bool) (P : SCDynamicStorePrivate) : list string :=
  if isRegex then pats_of P else keys_of P.
Definition set_list (isRegex : bool) (l : list string) (P : SCDynamicStorePrivate) : SCDynamicStorePrivate :=
  if isRegex then st_with_keys (st_keys P) (Some l) P else st_with_keys (Some l) (st_patterns P) P.

Definition spec_watch (isRegex : bool) (k : string) (P : SCDynamicStorePrivate) : Z * SCDynamicStorePrivate :=
  if decide (k ∈ list_of isRegex P) then (kSCStatusKeyExists, P)
  else if isRegex && negb (is_some (patternCompile k)) then (kSCStatusInvalidArgument, P)
  else (kSCStatusOK, set_list isRegex (list_of isRegex P ++ [k]) P).
Definition spec_unwatch (isRegex : bool) (k : string) (P : SCDynamicStorePrivate) : Z * SCDynamicStorePrivate :=
  match first_index k (list_of isRegex P) with
  | Some i => (kSCStatusOK, set_list isRegex (delete i (list_of isRegex P)) P)
  | None => (kSCStatusNoKey, P)
  end.

(** Only the lists of store [st] changed, and the counts with them. *)
Record rewatched (st : ptr) (P' : SCDynamicStorePrivate) (s s' : dynstore) : Prop := {
  rw_core : Core s';
  rw_quiet : quiet s';
  rw_stores : stores s' = <[st := P']> (stores s);
  rw_next : next_store s' = next_store s;
  rw_sessions : sessions s' = sessions s;
  rw_temp : temp_session s' = temp_session s;
  rw_posted : posted s' = posted s;
  rw_info : sessionData s' = sessionData s;
  rw_need : needsNotification s' = needsNotification s;
  rw_values : same_values (storeData s) (storeData s');
}.

Lemma rewatched_refl st P s : Core s → quiet s → stores s !! st = Some P → rewatched st P s s.
Proof. intros HC Hq HP. split; try done. by rewrite insert_id. Qed.

Lemma rewatched_trans st P1 P2 s s1 s2 :
  rewatched st P1 s s1 → rewatched st P2 s1 s2 → rewatched st P2 s s2.
Proof.
  intros [] []. split; try done; try congruence; [|by eapply same_values_trans].
  rewrite rw_stores1, rw_stores0. by rewrite insert_insert_eq.
Qed.

Lemma neutral_list isRegex l P : neutral P (set_list isRegex l P).
Proof. destruct isRegex; (split; [done|by left]). Qed.

Lemma rewatched_make (s : dynstore) st P P' d' pd' :
  Core s → quiet s → stores s !! st = Some P → st_server P ≠ 0 → neutral P P' →
  WI d' pd' (<[st := P']> (stores s)) → KI ∅ d' pd' → same_values (storeData s) d' →
  rewatched st P' s (set_storeData d' (set_patternData pd' (set_stores (<[st := P']> (stores s)) (next_store s) s))).
Proof.
  intros HC Hq HP H0 Hn HW HK Hv. split; try done; [|by destruct Hq].
  apply (Core_insert s st P); try done. by rewrite (q_D _ Hq).
Qed.

(** ** Patterns gain and lose sessions *)

Lemma KI_join d pd pat re ss ss' ks :
  KI ∅ d pd →
  pd !! pat = Some (PInfo re ss ks) ∨
    (pd !! pat = None ∧ patternCompile pat = Some re ∧
     ∀ k, k ∈ ks ↔ is_Some (data_of d k) ∧ keyMatchesPattern k re) →
  KI ∅ d (<[pat := PInfo re ss' ks]> pd).
Proof.
  intros [Hr Hk] Hpat. split; intros pat1 p1.
  - intros [[<- <-]|[? ?]]%lookup_insert_Some; [|eauto]. cbn.
    destruct Hpat as [Hp|(_ & Hc & _)]; [apply (Hr _ _ Hp)|done].
  - intros k [[<- <-]|[? ?]]%lookup_insert_Some; [|eauto]. cbn.
    destruct Hpat as [Hp|(_ & _ & Hks)]; [apply (Hk _ _ _ Hp)|]. rewrite Hks. set_solver.
Qed.

Lemma KI_keep D d pd pd' :
  KI D d pd →
  (∀ pat p', pd' !! pat = Some p' → ∃ p, pd !! pat = Some p ∧ p_regex p' = p_regex p ∧ p_keys p' = p_keys p) →
  KI D d pd'.
Proof.
  intros [Hr Hk] Hpd. split; intros pat p'.
  - intros Hp'. destruct (Hpd _ _ Hp') as (p & Hp & -> & _). eauto.
  - intros k Hp'. destruct (Hpd _ _ Hp') as (p & Hp & -> & ->). eauto.
Qed.

Lemma patternNew_spec pat (s : dynstore) :
  patternNew pat s = Some (
    match patternCompile pat with
    | None => None
    | Some re => Some (PInfo re [] (filter (λ k, is_Some (data_of (storeData s) k) ∧ keyMatchesPattern k re)
                          (cf_keys (storeData s))))
    end, s).
Proof.
  unfold patternNew, bind, gets, ret. destruct (patternCompile pat) as [re|]; [|done]. cbn. do 4 f_equal.
  apply list_filter_iff. intros k. unfold identifyKeyForPattern, data_of.
  destruct (storeData s !! k) as [e|]; cbn; [|split; [done|intros [[? [=]] _]]].
  destruct (e_data e); cbn; [|split; [done|intros [[? [=]] _]]]. split; [split; [eauto|done]|by intros [_ ?]].
Qed.

Lemma patternAddSession_spec pat st P P' (s : dynstore) :
  Core s → quiet s → stores s !! st = Some P → st_server P ≠ 0 → pat ∉ pats_of P → 
  P' = set_list true (pats_of P ++ [pat]) P →
  match patternCompile pat with
  | None => patternAddSession pat (num_of P) s = Some (false, s)
  | Some _ => ∃ d' pd', patternAddSession pat (num_of P) s = Some (true, set_storeData d' (set_patternData pd' s)) ∧
      rewatched st P' s (set_storeData d' (set_patternData pd' (set_stores (<[st := P']> (stores s)) (next_store s) s)))
  end.
Proof.
  intros HC Hq HP H0 Hpat ->.
  pose proof (w_entries _ _ _ (c_W _ HC)) as Hents. pose proof (c_K _ HC) as HK. rewrite (q_D _ Hq) in HK.
  assert (Hmain : ∀ re ss ks,
    (patternData s !! pat = Some (PInfo re ss ks)) ∨
      (patternData s !! pat = None ∧ ss = [] ∧ patternCompile pat = Some re ∧
       ∀ k, k ∈ ks ↔ is_Some (data_of (storeData s) k) ∧ keyMatchesPattern k re) →
    NoDup ks →
    ∃ d' pd', (put_pattern pat (PInfo re (ss ++ [num_of P]) ks) ;;
      for_each ks (_addWatcher (num_of P)) ;; ret true) s = Some (true, set_storeData d' (set_patternData pd' s)) ∧
      rewatched st (set_list true (pats_of P ++ [pat]) P) s (set_storeData d' (set_patternData pd'
        (set_stores (<[st := set_list true (pats_of P ++ [pat]) P]> (stores s)) (next_store s) s)))).
  { intros re ss ks Hp Hnd. set (pd' := <[pat := PInfo re (ss ++ [num_of P]) ks]> (patternData s)).
    destruct (addWatchers_spec (λ _, num_of P) id ks (set_patternData pd' s) Hents) as (d' & E & Hsh).
    exists d', pd'. split.
    - rewrite (bind_eq _ _ s tt (set_patternData pd' s)) by done. unfold id in E. by rewrite (bind_eq _ _ _ _ _ E).
    - apply (rewatched_make s st P); [done..|apply neutral_list| | |by eapply shifted_values].
      + apply (WI_join _ _ _ (c_W _ HC) st P); try done.
        * destruct Hp as [Hp|(Hp & -> & _)]; [by left|by right].
        * eapply shifted_ext, Hsh. intros k n. by apply tally_keys.
      + eapply KI_values; [|by eapply shifted_values]. apply (KI_join _ _ _ _ ss); [done|].
        destruct Hp as [Hp|(Hp & _ & Hc & Hks)]; [by left|by right]. }
  destruct (patternData s !! pat) as [[re ss ks]|] eqn:Ep.
  - rewrite (k_regex _ _ _ HK _ _ Ep). unfold patternAddSession, patternCopy.
    unfold bind at 1, gets at 1. rewrite Ep. unfold bind at 1, ret at 1. apply Hmain; [by left|].
    by apply (w_pats _ _ _ (c_W _ HC)) in Ep as (_ & _ & ?).
  - assert (Hnew : ∀ o, patternNew pat s = Some (o, s) →
      patternAddSession pat (num_of P) s = match o with
        | None => Some (false, s)
        | Some p => (put_pattern pat (PInfo (p_regex p) (p_sessions p ++ [num_of P]) (p_keys p)) ;;
                     for_each (p_keys p) (_addWatcher (num_of P)) ;; ret true) s
        end).
    { intros o Ho. unfold patternAddSession, patternCopy. unfold bind at 1, gets at 1. rewrite Ep.
      rewrite (bind_eq _ _ _ _ _ Ho). by destruct o. }
    rewrite (Hnew _ (patternNew_spec pat s)).
    destruct (patternCompile pat) as [re|] eqn:Ec; [|done]. apply Hmain.
    + right. split; [done|]. split; [done|]. split; [done|]. intros k.
      cbn [p_keys p_regex]. rewrite list_elem_of_filter, cf_keys_elem. split; [tauto|]. intros Hk. split; [done|].
      destruct Hk as [[v Hv] _]. unfold data_of in Hv. by destruct (storeData s !! k).
    + apply NoDup_filter, cf_keys_NoDup.
Qed.

Lemma patternRemoveSession_spec pat i st P P' (s : dynstore) :
  Core s → quiet s → stores s !! st = Some P → st_server P ≠ 0 → pats_of P !! i = Some pat →
  P' = set_list true (delete i (pats_of P)) P →
  ∃ s', patternRemoveSession pat (num_of P) (set_stores (<[st := P']> (stores s)) (next_store s) s) = Some (tt, s') ∧
    rewatched st P' s s'.
Proof.
  intros HC Hq HP H0 Hi ->. set (P' := set_list true _ P). pose proof (c_W _ HC) as HW.
  pose proof (w_entries _ _ _ HW) as Hents. pose proof (c_K _ HC) as HK. rewrite (q_D _ Hq) in HK.
  assert (Hpat : pat ∈ pats_of P) by (by eapply list_elem_of_lookup_2).
  destruct (w_known _ _ _ HW _ _ _ HP Hpat) as [p Hp].
  destruct (w_pats _ _ _ HW _ _ Hp) as (Hss & _ & Hks).
  assert (Hin : num_of P ∈ p_sessions p) by (by apply (link_iff _ _ _ HW _ _ _ _ Hp HP)).
  destruct (first_index_elem _ _ Hin) as [j Ej]. destruct (first_index_Some _ _ _ Ej) as [Hj _].
  set (s1 := set_stores (<[st := P']> (stores s)) (next_store s) s).
  destruct (removeWatchers_spec (λ _, num_of P) id (p_keys p) s1 Hents) as (d' & E & Hsh).
  { intros k n. rewrite tally_keys by done. unfold ind. case_decide as Hc.
    - destruct Hc as [-> Hk]. enough (0 < refs (storeData s) k (num_of P)) by (cbn; lia).
      apply (refs_pos _ _ _ HW _ _ _ HP). right. exists pat. unfold listed. by rewrite Hp.
    - apply refs_nonneg, HW. }
  set (pd' := if (1 <? length (p_sessions p))%nat
    then <[pat := PInfo (p_regex p) (delete j (p_sessions p)) (p_keys p)]> (patternData s)
    else delete pat (patternData s)).
  exists (set_storeData d' (set_patternData pd' s1)). split.
  - unfold patternRemoveSession, patternCopy. unfold bind at 1, gets at 1.
    change (patternData s1) with (patternData s). rewrite Hp. unfold bind at 1. cbn [deref ret].
    unfold id in E. rewrite (bind_eq _ _ _ _ _ E). unfold pd'. destruct (1 <? _)%nat; [|done].
    by rewrite Ej.
  - apply (rewatched_make s st P); [done..|apply neutral_list| | |by eapply shifted_values].
    + apply (WI_leave _ _ _ HW st P P' pat p i j); try done.
      eapply shifted_ext, Hsh. intros k n. cbn. by rewrite tally_keys.
    + eapply KI_values; [|by eapply shifted_values]. apply (KI_keep _ _ _ _ HK). intros q p' Hq'.
      destruct (decide (q = pat)) as [->|Hne].
      * exists p. split; [done|]. unfold pd' in Hq'. case_match; [|by rewrite lookup_delete_eq in Hq'].
        rewrite lookup_insert_eq in Hq'. by injection Hq' as <-.
      * exists p'. split; [|done]. unfold pd' in Hq'.
        case_match; [by rewrite lookup_insert_ne in Hq'|by rewrite lookup_delete_ne in Hq'].
Qed.

(** ** AddWatchedKey and RemoveWatchedKey *)

Lemma addWatchedKey_spec st k isRegex P (s : dynstore) :
  Core s → quiet s → stores s !! st = Some P → st_server P ≠ 0 →
  ∃ s', __SCDynamicStoreAddWatchedKey st k isRegex s = Some ((spec_watch isRegex k P).1, s') ∧
    rewatched st (spec_watch isRegex k P).2 s s'.
Proof.
  intros HC Hq HP H0. unfold __SCDynamicStoreAddWatchedKey, spec_watch.
  rewrite (bind_eq _ _ _ _ _ (load_store_eq _ _ _ HP)).
  change (session_num (st_server P)) with (num_of P).
  assert (Hhas : ∀ l, hasKey l k = if decide (k ∈ default [] l) then kSCStatusKeyExists else kSCStatusOK).
  { intros [l|]; cbn; [done|]. by rewrite decide_False by set_solver. }
  destruct isRegex; cbn [list_of andb]; rewrite Hhas.
  - fold (pats_of P). case_decide as Hin; [exists s; split; [done|by apply rewatched_refl]|].
    change (negb (kSCStatusOK =? kSCStatusOK)) with false. cbv iota.
    pose proof (patternAddSession_spec k st P _ s HC Hq HP H0 Hin eq_refl) as Hadd.
    destruct (patternCompile k) as [re|] eqn:Ec; cbn [is_some negb].
    + destruct Hadd as (d' & pd' & E & Hrw). rewrite (bind_eq _ _ _ _ _ E). cbn [negb].
      eexists. split; [|exact Hrw].
      by rewrite (bind_eq _ _ _ _ _ (upd_store_eq st _ P (set_storeData d' (set_patternData pd' s)) HP)).
    + rewrite (bind_eq _ _ _ _ _ Hadd). exists s. split; [done|]. by apply rewatched_refl.
  - fold (keys_of P). case_decide as Hin; [exists s; split; [done|by apply rewatched_refl]|].
    change (negb (kSCStatusOK =? kSCStatusOK)) with false. cbv iota.
    destruct (addWatcher_spec (num_of P) k s (w_entries _ _ _ (c_W _ HC))) as (d' & E & Hsh).
    rewrite (bind_eq _ _ _ _ _ E).
    eexists. split;
      [rewrite (bind_eq _ _ _ _ _ (upd_store_eq st _ P (set_storeData d' s) HP)); reflexivity|].
    change (rewatched st (set_list false (keys_of P ++ [k]) P) s
      (set_storeData d' (set_patternData (patternData s)
        (set_stores (<[st := set_list false (keys_of P ++ [k]) P]> (stores s)) (next_store s) s)))).
    apply (rewatched_make s st P); [done..|apply neutral_list| | |by eapply shifted_values].
    + apply (WI_watch _ _ _ (c_W _ HC) st P); [done|done|done| |].
      * cbn. apply NoDup_app. split; [by destruct (w_lists _ _ _ (c_W _ HC) _ _ HP)|]. split; [set_solver|apply NoDup_singleton].
      * eapply shifted_ext, Hsh. intros k' n. cbn [keys_of set_list st_with_keys st_keys default].
        unfold one, ind. repeat case_decide; try lia; set_solver.
    + eapply KI_values; [|by eapply shifted_values]. rewrite <-(q_D _ Hq). apply HC.
Qed.

Lemma removeKey_spec l k :
  removeKey l k = (λ i, delete i (default [] l)) <$> first_index k (default [] l).
Proof.
  destruct l as [l|]; [|done]. change (default [] (Some l)) with l. unfold removeKey.
  by destruct (first_index k l).
Qed.

Lemma removeWatchedKey_spec st k isRegex P (s : dynstore) :
  Core s → quiet s → stores s !! st = Some P → st_server P ≠ 0 →
  ∃ s', __SCDynamicStoreRemoveWatchedKey st k isRegex s = Some ((spec_unwatch isRegex k P).1, s') ∧
    rewatched st (spec_unwatch isRegex k P).2 s s'.
Proof.
  intros HC Hq HP H0. unfold __SCDynamicStoreRemoveWatchedKey, spec_unwatch.
  rewrite (bind_eq _ _ _ _ _ (load_store_eq _ _ _ HP)).
  change (session_num (st_server P)) with (num_of P).
  destruct isRegex; cbn [list_of]; rewrite removeKey_spec.
  - fold (pats_of P). destruct (first_index k (pats_of P)) as [i|] eqn:Ei; cbn [fmap option_fmap option_map];
      [|exists s; split; [done|by apply rewatched_refl]].
    destruct (first_index_Some _ _ _ Ei) as [Hi _].
    destruct (patternRemoveSession_spec k i st P _ s HC Hq HP H0 Hi eq_refl) as (s' & E & Hrw).
    exists s'. split; [|done]. rewrite (bind_eq _ _ _ _ _ (upd_store_eq _ _ _ _ HP)).
    by rewrite (bind_eq _ _ _ _ _ E).
  - fold (keys_of P). destruct (first_index k (keys_of P)) as [i|] eqn:Ei; cbn [fmap option_fmap option_map];
      [|exists s; split; [done|by apply rewatched_refl]].
    destruct (first_index_Some _ _ _ Ei) as [Hi _].
    assert (Hin : k ∈ keys_of P) by (by eapply list_elem_of_lookup_2).
    set (P' := set_list false (delete i (keys_of P)) P).
    set (s1 := set_stores (<[st := P']> (stores s)) (next_store s) s).
    destruct (removeWatcher_spec (num_of P) k s1 (w_entries _ _ _ (c_W _ HC))) as (d' & E & Hsh).
    { apply (refs_pos _ _ _ (c_W _ HC) _ _ _ HP). by left. }
    exists (set_storeData d' s1). split.
    { rewrite (bind_eq _ _ _ _ _ (upd_store_eq _ _ _ _ HP)). by rewrite (bind_eq _ _ _ _ _ E). }
    change (rewatched st P' s (set_storeData d' (set_patternData (patternData s) s1))).
    destruct (w_lists _ _ _ (c_W _ HC) _ _ HP) as [Hnd _].
    apply (rewatched_make s st P); [done..|apply neutral_list| | |by eapply shifted_values].
    + apply (WI_watch _ _ _ (c_W _ HC) st P); [done|done|done|by apply NoDup_delete|].
      eapply shifted_ext, Hsh. intros k' n. cbn.
      change (keys_of P') with (delete i (keys_of P)).
      rewrite (ind_iff (k' ∈ delete i (keys_of P)) (k' ∈ keys_of P ∧ k' ≠ k)) by (by apply elem_of_delete).
      unfold one, ind. repeat case_decide; try lia; naive_solver.
    + eapply KI_values; [|by eapply shifted_values]. rewrite <-(q_D _ Hq). apply HC.
Qed.

(** ** SetNotificationKeys *)

Lemma rewatched_Inv st P P' (s s' : dynstore) :
  Inv s → stores s !! st = Some P → neutral P P' → st_notifySignalTask P' = st_notifySignalTask P →
  rewatched st P' s s' → Inv s'.
Proof.
  intros [HC Hq HS] HP [Hsrv _] Htask []. split; [done|done|].
  apply (SI_ext (set_stores (<[st := P']> (stores s)) (next_store s) s)); cbn; try done.
  apply (SI_upd s st P); [done..|]. rewrite Htask. intros i S. by apply (s_tasks _ HS st).
Qed.

Definition step_unwatch (isRegex : bool) (new : list string) (rP : Z * SCDynamicStorePrivate) (k : string) :=
  if negb (rP.1 =? kSCStatusOK) then rP
  else if decide (k ∈ new) then rP else spec_unwatch isRegex k rP.2.
Definition step_watch (isRegex : bool) (old : list string) (rP : Z * SCDynamicStorePrivate) (k : string) :=
  if negb (rP.1 =? kSCStatusOK) then rP
  else if decide (k ∈ old) then rP else spec_watch isRegex k rP.2.
Definition spec_update (isRegex : bool) (new : list string) (rP : Z * SCDynamicStorePrivate) :=
  let old := list_of isRegex rP.2 in
  foldl (step_watch isRegex old) (foldl (step_unwatch isRegex new) rP old) new.

(** The parts of a store that its lists do not reach. *)
Definition but_lists (P : SCDynamicStorePrivate) : SCDynamicStorePrivate := st_with_keys None None P.

Lemma but_lists_neutral P P' :
  but_lists P' = but_lists P → neutral P P' ∧ st_notifySignalTask P' = st_notifySignalTask P.
Proof. destruct P, P'. cbn. intros [=]. subst. split; [split; [done|by left]|done]. Qed.

Lemma spec_watch_lists isRegex k P : but_lists (spec_watch isRegex k P).2 = but_lists P.
Proof. unfold spec_watch. repeat case_match; try done; by destruct isRegex. Qed.
Lemma spec_unwatch_lists isRegex k P : but_lists (spec_unwatch isRegex k P).2 = but_lists P.
Proof. unfold spec_unwatch. repeat case_match; try done; by destruct isRegex. Qed.

(** Store [st] was rewatched to [P'], which differs from [P] in its lists only. *)
Definition relisted (st : ptr) (P P' : SCDynamicStorePrivate) (s s' : dynstore) : Prop :=
  rewatched st P' s s' ∧ but_lists P' = but_lists P.

Lemma relisted_step st P P1 P2 (s s1 s2 : dynstore) :
  relisted st P P1 s s1 → relisted st P1 P2 s1 s2 → relisted st P P2 s s2.
Proof. intros [H1 E1] [H2 E2]. split; [by eapply rewatched_trans|congruence]. Qed.

Lemma relisted_stores st P P' (s s' : dynstore) : relisted st P P' s s' → stores s' !! st = Some P'.
Proof. intros [H _]. by rewrite (rw_stores _ _ _ _ H), lookup_insert_eq. Qed.

Lemma relisted_server st P P' (s s' : dynstore) : relisted st P P' s s' → st_server P ≠ 0 → st_server P' ≠ 0.
Proof. intros [_ H]. apply but_lists_neutral in H as [[-> _] _]. done. Qed.

Lemma removeOldKeys_spec st isRegex new l r P (s : dynstore) :
  Core s → quiet s → stores s !! st = Some P → st_server P ≠ 0 →
  let rP := foldl (step_unwatch isRegex (default [] new)) (r, P) l in
  ∃ s', removeOldKeys st isRegex new l r s = Some (rP.1, s') ∧ relisted st P rP.2 s s'.
Proof.
  revert r P s. induction l as [|k l IH]; intros r P s HC Hq HP H0; cbn [removeOldKeys foldl].
  { exists s. split; [done|]. split; [by apply rewatched_refl|done]. }
  assert (Hstep : ∃ s1, (if negb (r =? kSCStatusOK) then ret r
      else if decide (k ∈ default [] new) then ret r
      else __SCDynamicStoreRemoveWatchedKey st k isRegex) s =
      Some ((step_unwatch isRegex (default [] new) (r, P) k).1, s1) ∧
      relisted st P (step_unwatch isRegex (default [] new) (r, P) k).2 s s1).
  { unfold step_unwatch. cbn [fst snd]. destruct (negb (r =? kSCStatusOK));
      [exists s; split; [done|split; [by apply rewatched_refl|done]]|].
    case_decide; [exists s; split; [done|split; [by apply rewatched_refl|done]]|].
    destruct (removeWatchedKey_spec st k isRegex P s HC Hq HP H0) as (s1 & E & H1).
    exists s1. split; [done|]. split; [done|apply spec_unwatch_lists]. }
  destruct Hstep as (s1 & E1 & H1). rewrite (bind_eq _ _ _ _ _ E1).
  destruct (step_unwatch _ _ _ _) as [r1 P1]. cbn [fst snd] in *.
  destruct (IH r1 P1 s1) as (s2 & E2 & H2); try by apply H1.
  { by eapply relisted_stores. }
  { by eapply relisted_server. }
  exists s2. split; [done|]. by eapply relisted_step.
Qed.

Lemma addNewKeys_spec st isRegex old l r P (s : dynstore) :
  Core s → quiet s → stores s !! st = Some P → st_server P ≠ 0 →
  let rP := foldl (step_watch isRegex (default [] old)) (r, P) l in
  ∃ s', addNewKeys st isRegex old l r s = Some (rP.1, s') ∧ relisted st P rP.2 s s'.
Proof.
  revert r P s. induction l as [|k l IH]; intros r P s HC Hq HP H0; cbn [addNewKeys foldl].
  { exists s. split; [done|]. split; [by apply rewatched_refl|done]. }
  assert (Hstep : ∃ s1, (if negb (r =? kSCStatusOK) then ret r
      else if decide (k ∈ default [] old) then ret r
      else __SCDynamicStoreAddWatchedKey st k isRegex) s =
      Some ((step_watch isRegex (default [] old) (r, P) k).1, s1) ∧
      relisted st P (step_watch isRegex (default [] old) (r, P) k).2 s s1).
  { unfold step_watch. cbn [fst snd]. destruct (negb (r =? kSCStatusOK));
      [exists s; split; [done|split; [by apply rewatched_refl|done]]|].
    case_decide; [exists s; split; [done|split; [by apply rewatched_refl|done]]|].
    destruct (addWatchedKey_spec st k isRegex P s HC Hq HP H0) as (s1 & E & H1).
    exists s1. split; [done|]. split; [done|apply spec_watch_lists]. }
  destruct Hstep as (s1 & E1 & H1). rewrite (bind_eq _ _ _ _ _ E1).
  destruct (step_watch _ _ _ _) as [r1 P1]. cbn [fst snd] in *.
  destruct (IH r1 P1 s1) as (s2 & E2 & H2); try by apply H1.
  { by eapply relisted_stores. }
  { by eapply relisted_server. }
  exists s2. split; [done|]. by eapply relisted_step.
Qed.

Lemma updateKeys_spec st isRegex new r P (s : dynstore) :
  Core s → quiet s → stores s !! st = Some P → st_server P ≠ 0 →
  let rP := spec_update isRegex (default [] new) (r, P) in
  ∃ s', updateKeys st isRegex new r s = Some (rP.1, s') ∧ relisted st P rP.2 s s'.
Proof.
  intros HC Hq HP H0. unfold updateKeys, spec_update.
  rewrite (bind_eq _ _ _ _ _ (load_store_eq _ _ _ HP)). cbn [fst snd].
  set (old := if isRegex then st_patterns P else st_keys P).
  assert (Hold : list_of isRegex P = default [] old) by (by destruct isRegex). rewrite Hold.
  destruct (removeOldKeys_spec st isRegex new (default [] old) r P s HC Hq HP H0) as (s1 & E1 & H1).
  rewrite (bind_eq _ _ _ _ _ E1). set (rP1 := foldl _ _ _) in *. destruct rP1 as [r1 P1]. cbn [fst snd] in *.
  destruct (addNewKeys_spec st isRegex old (default [] new) r1 P1 s1) as (s2 & E2 & H2); try by apply H1.
  { by eapply relisted_stores. }
  { by eapply relisted_server. }
  exists s2. split; [done|]. by eapply relisted_step.
Qed.

Definition spec_set_keys (keys patterns : list string) (P : SCDynamicStorePrivate) : Z * SCDynamicStorePrivate :=
  spec_update true patterns (spec_update false keys (kSCStatusOK, P)).

Lemma setNotificationKeys_spec st keys patterns P (s : dynstore) :
  Core s → quiet s → stores s !! st = Some P → st_server P ≠ 0 →
  let rP := spec_set_keys (default [] keys) (default [] patterns) P in
  ∃ s', __SCDynamicStoreSetNotificationKeys st keys patterns s = Some (rP.1, s') ∧ relisted st P rP.2 s s'.
Proof.
  intros HC Hq HP H0. unfold __SCDynamicStoreSetNotificationKeys, spec_set_keys.
  destruct (updateKeys_spec st false keys kSCStatusOK P s HC Hq HP H0) as (s1 & E1 & H1).
  rewrite (bind_eq _ _ _ _ _ E1). destruct (spec_update false _ _) as [r1 P1]. cbn [fst snd] in *.
  destruct (updateKeys_spec st true patterns r1 P1 s1) as (s2 & E2 & H2); try by apply H1.
  { by eapply relisted_stores. }
  { by eapply relisted_server. }
  exists s2. split; [done|]. by eapply relisted_step.
Qed.

(** *** What the new lists are *)

Lemma list_of_set isRegex l P : list_of isRegex (set_list isRegex l P) = l.
Proof. by destruct isRegex. Qed.
Lemma list_of_set_other isRegex l P : list_of (negb isRegex) (set_list isRegex l P) = list_of (negb isRegex) P.
Proof. by destruct isRegex. Qed.

Lemma fold_unwatch isRegex new l P :
  NoDup (list_of isRegex P) → NoDup l → (∀ k, k ∈ l → k ∈ list_of isRegex P) →
  ∃ P', foldl (step_unwatch isRegex new) (kSCStatusOK, P) l = (kSCStatusOK, P') ∧
    (∀ k, k ∈ list_of isRegex P' ↔ k ∈ list_of isRegex P ∧ (k ∈ new ∨ k ∉ l)) ∧
    list_of (negb isRegex) P' = list_of (negb isRegex) P.
Proof.
  revert P. induction l as [|k l IH]; intros P Hnd Hl Hin; cbn [foldl].
  { exists P. split; [done|]. split; [|done]. set_solver. }
  apply NoDup_cons in Hl as [Hk Hl]. unfold step_unwatch at 2. cbn [fst snd].
  change (negb (kSCStatusOK =? kSCStatusOK)) with false. cbv iota. case_decide as Hnew.
  - destruct (IH P) as (P' & E & Hm & Ho); [done|done|intros; apply Hin; by right|].
    exists P'. split; [done|]. split; [|done]. intros k'. rewrite Hm, elem_of_cons.
    destruct (decide (k' = k)) as [->|]; tauto.
  - unfold spec_unwatch. destruct (first_index_elem k (list_of isRegex P)) as [i Ei]; [apply Hin; left|].
    rewrite Ei. destruct (first_index_Some _ _ _ Ei) as [Hi _].
    destruct (IH (set_list isRegex (delete i (list_of isRegex P)) P)) as (P' & E & Hm & Ho); rewrite ?list_of_set.
    + by apply NoDup_delete.
    + done.
    + intros k' Hk'. apply (elem_of_delete _ _ _ _ Hnd Hi). split; [apply Hin; by right|]. by intros ->.
    + exists P'. split; [done|]. split; [|by rewrite Ho, list_of_set_other].
      intros k'. rewrite Hm, list_of_set, (elem_of_delete _ _ _ _ Hnd Hi), elem_of_cons.
      destruct (decide (k' = k)) as [->|]; tauto.
Qed.

Lemma fold_watch isRegex old l P :
  NoDup l → (∀ k, k ∈ l → k ∈ old ∨ k ∉ list_of isRegex P) →
  (isRegex = true → ∀ k, k ∈ l → is_Some (patternCompile k)) →
  ∃ P', foldl (step_watch isRegex old) (kSCStatusOK, P) l = (kSCStatusOK, P') ∧
    (∀ k, k ∈ list_of isRegex P' ↔ k ∈ list_of isRegex P ∨ k ∈ l ∧ k ∉ old) ∧
    list_of (negb isRegex) P' = list_of (negb isRegex) P.
Proof.
  revert P. induction l as [|k l IH]; intros P Hl Hin Hc; cbn [foldl].
  { exists P. split; [done|]. split; [|done]. set_solver. }
  apply NoDup_cons in Hl as [Hk Hl]. unfold step_watch at 2. cbn [fst snd].
  change (negb (kSCStatusOK =? kSCStatusOK)) with false. cbv iota. case_decide as Hold.
  - destruct (IH P) as (P' & E & Hm & Ho); [done|intros; apply Hin; by right|intros; apply Hc; [done|by right]|].
    exists P'. split; [done|]. split; [|done]. intros k'. rewrite Hm, elem_of_cons.
    destruct (decide (k' = k)) as [->|]; tauto.
  - unfold spec_watch. destruct (Hin k) as [?|Hnin]; [left|done|]. rewrite decide_False by done.
    replace (isRegex && negb (is_some (patternCompile k))) with false.
    2:{ destruct isRegex; [|done]. destruct (Hc eq_refl k) as [re ->]; [left|done]. }
    destruct (IH (set_list isRegex (list_of isRegex P ++ [k]) P)) as (P' & E & Hm & Ho); rewrite ?list_of_set.
    + done.
    + intros k' Hk'. destruct (Hin k') as [?|?]; [by right|by left|right].
      rewrite elem_of_app, list_elem_of_singleton. intros [?| ->]; done.
    + intros; apply Hc; [done|by right].
    + exists P'. split; [done|]. split; [|by rewrite Ho, list_of_set_other].
      intros k'. rewrite Hm, list_of_set, elem_of_app, list_elem_of_singleton, elem_of_cons.
      destruct (decide (k' = k)) as [->|]; tauto.
Qed.

Lemma spec_update_ok isRegex new P :
  NoDup (list_of isRegex P) → NoDup new →
  (isRegex = true → ∀ k, k ∈ new → is_Some (patternCompile k)) →
  ∃ P', spec_update isRegex new (kSCStatusOK, P) = (kSCStatusOK, P') ∧
    (∀ k, k ∈ list_of isRegex P' ↔ k ∈ new) ∧ list_of (negb isRegex) P' = list_of (negb isRegex) P.
Proof.
  intros Hnd Hnew Hc. unfold spec_update. cbn [fst snd].
  destruct (fold_unwatch isRegex new (list_of isRegex P) P) as (P1 & E1 & H1 & O1); [done..|].
  rewrite E1. destruct (fold_watch isRegex (list_of isRegex P) new P1) as (P2 & E2 & H2 & O2).
  - done.
  - intros k Hk. rewrite H1. destruct (decide (k ∈ list_of isRegex P)); [by left|]. right. tauto.
  - done.
  - exists P2. split; [done|]. split; [|congruence]. intros k. rewrite H2, H1.
    destruct (decide (k ∈ list_of isRegex P)); tauto.
Qed.

(** ** Asking for changes and for notifications *)

Lemma Core_info (s : dynstore) sd :
  Core s → sd_like (sessionData s) sd → infos_ok sd → Core (set_sessionData sd s).
Proof. intros HC Hl Hok. destruct HC. split; cbn; try done. by eapply II_like. Qed.

Lemma quiet_set_info (s : dynstore) sd : quiet s → quiet (set_sessionData sd s).
Proof. by intros []. Qed.

Lemma SI_set_info (s : dynstore) sd : SI s → SI (set_sessionData sd s).
Proof. by apply SI_ext. Qed.

(** The changes are handed over once. *)
Lemma copyNotifiedKeys_spec st P (s : dynstore) :
  Inv s → stores s !! st = Some P → st_server P ≠ 0 →
  ∃ sd, __SCDynamicStoreCopyNotifiedKeys st s =
      Some ((kSCStatusOK, changes (sessionData s) (num_of P)), set_sessionData sd s) ∧
    Inv (set_sessionData sd s) ∧
    ∀ n, changes sd n = if decide (n = num_of P) then [] else changes (sessionData s) n.
Proof.
  intros [HC Hq HS] HP H0. unfold __SCDynamicStoreCopyNotifiedKeys.
  rewrite (bind_eq _ _ _ _ _ (load_store_eq _ _ _ HP)). change (session_key (st_server P)) with (fmt_d (num_of P)).
  unfold bind at 1, gets at 1.
  assert (Hop : opened (stores s) (num_of P)) by (by exists st, P).
  destruct (i_open _ _ _ _ (c_I _ HC) _ Hop) as (i & Hi & Hname). rewrite Hi.
  unfold changes at 1. rewrite Hi. cbn [mbind option_bind].
  destruct (i_changedKeys i) as [l|] eqn:El.
  - set (i' := info_changed None i).
    assert (Hcount : (0 <? info_count i')%nat = true).
    { unfold info_count. cbn. by destruct Hname as [? ->]. }
    rewrite Hcount. exists (<[fmt_d (num_of P) := i']> (sessionData s)). split; [done|].
    assert (Hl : sd_like (sessionData s) (<[fmt_d (num_of P) := i']> (sessionData s))).
    { intros x. destruct (decide (x = fmt_d (num_of P))) as [->|]; [|by rewrite lookup_insert_ne].
      by rewrite lookup_insert_eq, Hi. }
    split.
    + split; [|by apply quiet_set_info|by apply SI_set_info]. apply Core_info; [done|done|].
      intros x j [[<- <-]|[_ Hj]]%lookup_insert_Some; [|by eapply (II_infos _ _ _ _ (c_I _ HC))].
      split; [constructor|done].
    + intros n. unfold changes. case_decide as Hn.
      * subst n. by rewrite lookup_insert_eq.
      * rewrite lookup_insert_ne; [done|]. by intros ?%fmt_d_inj.
  - exists (sessionData s). split; [by destruct s|]. replace (set_sessionData _ s) with s by by destruct s.
    split; [done|]. intros n. case_decide as Hn; [|done]. subst n. unfold changes. rewrite Hi. cbn. by rewrite El.
Qed.

Lemma pending_need (s : dynstore) X :
  Inv s → (∀ n, n ∈ default ∅ X → opened (stores s) n) → X ≠ Some ∅ → Inv (set_needsNotification X s).
Proof.
  intros [HC Hq HS] HX HX'. split; [|by destruct Hq|by apply (SI_ext s)].
  destruct HC. by split.
Qed.

(** A store changed what it remembers of notifications. *)
Lemma Inv_upd (s : dynstore) st P P' :
  Inv s → stores s !! st = Some P → neutral P P' → keys_of P' = keys_of P → pats_of P' = pats_of P →
  (∀ i S, sessions s !! i = Some (Some S) → (0 < i)%nat → st_notifySignalTask P' ≠ s_key S) →
  Inv (set_stores (<[st := P']> (stores s)) (next_store s) s).
Proof.
  intros [HC Hq HS] HP Hn Hk Hp Ht. split; [by apply (Core_upd _ _ P)|by destruct Hq|].
  apply (SI_upd _ _ P); [done|done|apply Hn|done].
Qed.

Definition cancelled (P : SCDynamicStorePrivate) : SCDynamicStorePrivate :=
  Store (st_name P) (st_server P) (st_useSessionKeys P) (st_keys P) (st_patterns P) NotifierNotRegistered
    MACH_PORT_NULL (st_notifyPortIdentifier P) (-1) (st_notifyFileIdentifier P)
    (if 0 <? st_notifySignal P then 0 else st_notifySignal P)
    (if 0 <? st_notifySignal P then TASK_NULL else st_notifySignalTask P).

Lemma notifyCancel_spec st P (s : dynstore) :
  Inv s → stores s !! st = Some P →
  ∃ s', __SCDynamicStoreNotifyCancel st s = Some (kSCStatusOK, s') ∧ Inv s' ∧
    s' = set_needsNotification (needsNotification s') (set_stores (<[st := cancelled P]> (stores s)) (next_store s) s) ∧
    pending s' = pending s ∖ {[num_of P]}.
Proof.
  intros HI HP. unfold __SCDynamicStoreNotifyCancel.
  rewrite (bind_eq _ _ _ _ _ (load_store_eq _ _ _ HP)).
  set (P1 := if negb (st_notifyPort P =? MACH_PORT_NULL)
             then st_with_port MACH_PORT_NULL (st_notifyPortIdentifier P) P else P).
  set (P2 := if negb (st_notifyFile P =? -1) then st_with_file (-1) (st_notifyFileIdentifier P1) P1 else P1).
  set (P3 := if 0 <? st_notifySignal P then st_with_signal 0 TASK_NULL P2 else P2).
  set (at_ := λ Q, set_stores (<[st := Q]> (stores s)) (next_store s) s).
  assert (Hat : ∀ Q f, upd_store st f (at_ Q) = Some (tt, at_ (f Q))).
  { intros Q f. unfold at_. rewrite (upd_store_eq _ _ Q) by (cbn; by rewrite lookup_insert_eq).
    cbn. by rewrite insert_insert_eq. }
  assert (Hs : at_ P = s) by (unfold at_; rewrite insert_id by done; by destruct s).
  rewrite (bind_eq _ _ s tt (at_ P1)).
  2:{ unfold when, P1. destruct (negb (_ =? _)); [by rewrite (upd_store_eq _ _ P)|by rewrite Hs]. }
  rewrite (bind_eq _ _ _ tt (at_ P2)).
  2:{ unfold when, P2. replace (st_notifyFile P1) with (st_notifyFile P) by (unfold P1; by case_match).
      destruct (negb (st_notifyFile P =? -1)); [exact (Hat P1 (λ S, st_with_file (-1) (st_notifyFileIdentifier S) S))|done]. }
  rewrite (bind_eq _ _ _ tt (at_ P3)).
  2:{ unfold when, P3. destruct (0 <? st_notifySignal P); [exact (Hat P2 (st_with_signal 0 TASK_NULL))|done]. }
  set (X := match needsNotification s with
            | None => None
            | Some X => let X := X ∖ {[num_of P]} in if decide (X = ∅) then None else Some X end).
  rewrite (bind_eq _ _ _ tt (set_needsNotification X (at_ P3))).
  2:{ unfold modify. f_equal. f_equal. unfold X. change (needsNotification (at_ P3)) with (needsNotification s).
      destruct (needsNotification s) eqn:En; [done|]. unfold at_. rewrite <-En. done. }
  assert (HP3 : stores (set_needsNotification X (at_ P3)) !! st = Some P3).
  { unfold at_. cbn. by rewrite lookup_insert_eq. }
  rewrite (bind_eq _ _ _ _ _ (upd_store_eq _ _ _ _ HP3)).
  assert (Hfinal : st_with_status NotifierNotRegistered P3 = cancelled P).
  { clear -P. unfold P3, P2, P1, cancelled. destruct P as [na se us ke pa ns po pi fi fid sg ta]. cbn.
    destruct (Z.eqb_spec po MACH_PORT_NULL), (Z.eqb_spec fi (-1)), (0 <? sg); cbn; by subst. }
  rewrite Hfinal.
  set (s1 := set_stores (<[st := cancelled P]> (stores s)) (next_store s) s).
  exists (set_needsNotification X s1). split.
  { unfold at_, s1. cbn. unfold ret. do 2 f_equal. unfold set_stores, set_needsNotification. cbn.
    by rewrite insert_insert_eq. }
  assert (HX : default ∅ X = pending s ∖ {[num_of P]}).
  { unfold X, pending. destruct (needsNotification s) as [Y|]; cbn; [|set_solver]. case_decide; set_solver. }
  split; [|split; [done|done]].
  assert (HI1 : Inv s1).
  { apply (Inv_upd s st P); [done|done|split; [done|by left]|done|done|].
    intros i S Hi Hlt. cbn. case_match; [|by eapply (s_tasks _ (v_sess _ HI) st P)].
    destruct (s_slot _ (v_sess _ HI) _ _ Hi Hlt) as [(? & ? & (_ & _ & _ & _ & _ & ?)) _]. unfold TASK_NULL. lia. }
  apply pending_need; [done| |].
  - intros n. rewrite HX. intros Hn.
    apply (opened_insert _ _ P); [done|done|]. apply (c_N _ (v_core _ HI)). set_solver.
  - unfold X. destruct (needsNotification s); [|done]. cbn. case_decide; [done|]. congruence.
Qed.

(** Changes that waited are notified as soon as someone asks. *)
Lemma kick_spec st P (s : dynstore) :
  Inv s → stores s !! st = Some P → st_server P ≠ 0 →
  ∃ X, kick_if_pending P s = Some (tt, set_needsNotification X s) ∧ Inv (set_needsNotification X s) ∧
    ∀ n, n ∈ default ∅ X ↔ n ∈ pending s ∨ n = num_of P ∧ changes (sessionData s) (num_of P) ≠ [].
Proof.
  intros HI HP H0. unfold kick_if_pending. unfold bind at 1, gets at 1.
  change (session_key (st_server P)) with (fmt_d (num_of P)). unfold changes.
  assert (Hop : opened (stores s) (num_of P)) by (by exists st, P).
  destruct (sessionData s !! fmt_d (num_of P) ≫= i_changedKeys) as [l|] eqn:El; cbn.
  - exists (Some ({[num_of P]} ∪ pending s)). split; [done|].
    assert (Hl : l ≠ []).
    { destruct (sessionData s !! fmt_d (num_of P)) as [i|] eqn:Ei; [|done]. cbn in El.
      destruct (i_nodup _ _ _ _ (c_I _ (v_core _ HI)) _ _ Ei) as (_ & _ & Hne). congruence. }
    split.
    + apply pending_need; [done| |]; cbn.
      * intros n [->%elem_of_singleton|Hn]%elem_of_union; [done|]. by apply (c_N _ (v_core _ HI)).
      * intros [= H]. set_solver.
    + intros n. cbn. rewrite elem_of_union, elem_of_singleton. tauto.
  - exists (needsNotification s). split; [by destruct s|].
    replace (set_needsNotification (needsNotification s) s) with s by by destruct s. split; [done|].
    intros n. fold (pending s). split; [by left|]. intros [?|[_ []]]; done.
Qed.

End notify.
