(* ===== verification/StoreLife.v ===== *)
(** * Sessions come and go

    [addSession] and [_configopen]; [__SCDynamicStoreClose] and [cleanupSession]:
    a new session starts empty, a closed one leaves nothing behind. *)

From S2P Require Import Prelude StoreTypes StoreInv StorePat StoreOps StoreCore StoreValue.
From S2P Require Import StoreServer StoreSess StoreNotify.
Local Open Scope c_scope.
Local Open Scope Z_scope.

Section life.
Context {RL : RegexLib} {CO : CFOrder} {MK : MachKernel}.

(** ** Opening *)

(** The dictionaries and the table once a session is open. *)
Record opens (i : nat) (S' : serverSession) (st : ptr) (P' : SCDynamicStorePrivate) (nm : string)
    (s s' : dynstore) : Prop := {
  o_slot : (0 < i)%nat;
  o_free : sessions s !! i = Some None ∨ sessions s !! i = None;
  o_sessions : ∀ j, sessions s' !! j = if decide (j = i) then Some (Some S') else sessions s !! j;
  o_stores : stores s' = <[st := P']> (stores s);
  o_store : st = next_store s ∧ next_store s' = S (next_store s);
  o_P : P' = st_with_session (s_key S') (st_useSessionKeys P') (new_store (Some nm));
  o_S : s_store S' = Some st ∧ 0 < s_key S' < 2 ^ 32 ∧ s_key S' ∉ ports_in_use s;
  o_auth : ∃ tok, auth_ok S' tok;
  o_info : sessionData s' = <[session_key (s_key S') := SessInfo (Some nm) None None]> (sessionData s);
  o_rest : storeData s' = storeData s ∧ patternData s' = patternData s ∧ changedKeys s' = changedKeys s ∧
    deferredRemovals s' = deferredRemovals s ∧ removedSessionKeys s' = removedSessionKeys s ∧
    needsNotification s' = needsNotification s ∧ posted s' = posted s ∧ temp_session s' = temp_session s;
}.

(** A new port is not the key of a session, nor the task of one. *)
Lemma port_fresh (s : dynstore) p :
  p ∉ ports_in_use s →
  (∀ i S, sessions s !! i = Some (Some S) → s_key S ≠ p) ∧
  (∀ st P, stores s !! st = Some P → st_notifySignalTask P ≠ p).
Proof.
  intros Hp. split.
  - intros i S Hi <-. apply Hp. unfold ports_in_use. apply elem_of_union_l, elem_of_list_to_set.
    rewrite list_elem_of_omap. exists (Some S). split; [by eapply list_elem_of_lookup_2|done].
  - intros st P HP <-. apply Hp. unfold ports_in_use. apply elem_of_union_r, elem_of_list_to_set.
    apply list_elem_of_bind. exists P. split; [set_solver|]. apply list_elem_of_fmap. exists (st, P).
    by rewrite elem_of_map_to_list.
Qed.

Lemma server_fresh (s : dynstore) p st P :
  SI s → p ∉ ports_in_use s → 0 < p → stores s !! st = Some P → st_server P ≠ p.
Proof.
  intros HS Hp Hpos HP. destruct (port_fresh s p Hp) as [Hk _]. pose proof (s_owned _ HS _ _ HP) as Ho.
  case_decide; [lia|]. destruct Ho as (i & S & (Hi & _ & _ & _ & -> & _)). by eapply Hk.
Qed.

(** The session that is new has a number and a store of its own. *)
Lemma opens_fresh i S' st P' nm (s s' : dynstore) :
  Inv s → opens i S' st P' nm s s' →
  st_server P' = s_key S' ∧ 0 < s_key S' < 2 ^ 32 ∧ stores s !! st = None ∧
  (∀ st1 P1, stores s !! st1 = Some P1 → num_of P1 ≠ num_of P') ∧
  (∀ n, opened (stores s') n ↔ opened (stores s) n ∨ n = num_of P').
Proof.
  intros [HC Hq HS] [Hi0 Hfree Hl Hsts [Hst Hnext] HP' [HsS [Hr Hp]] Hauth Hinfo Hrest].
  assert (Hsrv : st_server P' = s_key S') by (by rewrite HP').
  assert (Hfr : stores s !! st = None) by (rewrite Hst; by apply store_fresh).
  assert (Hnum : ∀ st1 P1, stores s !! st1 = Some P1 → num_of P1 ≠ num_of P').
  { intros st1 P1 HP1 Heq. pose proof (server_range _ _ _ HS HP1). unfold num_of in Heq.
    apply session_num_inj in Heq; [|lia|rewrite Hsrv; lia].
    apply (server_fresh s (s_key S') st1 P1); try done; [lia|congruence]. }
  split_and!; [done|lia|lia|done|done|].
  intros n. rewrite Hsts. unfold opened. split.
  - intros (st1 & P1 & [[<- <-]|[? ?]]%lookup_insert_Some & Hnz & Hn); [by right|left; eauto].
  - intros [(st1 & P1 & HP1 & Hnz & Hn)| ->].
    + exists st1, P1. rewrite lookup_insert_ne by congruence. done.
    + exists st, P'. rewrite lookup_insert_eq, Hsrv. split; [done|]. split; [lia|done].
Qed.

(** Its entry in the session dictionary is the only one that is new. *)
Lemma opens_II i S' st P' nm (s s' : dynstore) :
  Inv s → opens i S' st P' nm s s' →
  II (sessionData s') (owner_of (storeData s')) (removedSessionKeys s') (stores s').
Proof.
  intros HI Ho. destruct (opens_fresh _ _ _ _ _ _ _ HI Ho) as (Hsrv & Hr & Hfr & Hnum & Hop).
  destruct HI as [HC Hq HS]. destruct Ho as [_ _ _ _ _ _ _ _ Hinfo (Ed & _ & _ & _ & ER & _)].
  assert (Hnone : sessionData s !! fmt_d (num_of P') = None).
  { destruct (sessionData s !! fmt_d (num_of P')) eqn:E; [|done].
    destruct (i_only _ _ _ _ (c_I _ HC) _ _ E) as (n & (st1 & P1 & HP1 & _ & Hn) & Heq%fmt_d_inj).
    destruct (Hnum _ _ HP1). congruence. }
  assert (Hkey : session_key (s_key S') = fmt_d (num_of P')) by (unfold num_of; by rewrite Hsrv).
  rewrite Hkey in Hinfo.
  rewrite Ed, ER, Hinfo. pose proof (c_I _ HC) as [i_open0 i_only0 i_keys0 i_nodup0 i_owner0 i_removed0].
  rewrite (q_R _ Hq) in *. split.
  - intros n [Hn| ->]%Hop.
    + rewrite lookup_insert_ne; [by apply i_open0|]. intros Heq%fmt_d_inj. subst n.
       destruct Hn as (st1 & P1 & HP1 & _ & Heq). by destruct (Hnum _ _ HP1).
    + eexists. rewrite lookup_insert_eq. split; [done|]. by eexists.
  - intros x j [[<- <-]|[_ Hj]]%lookup_insert_Some.
    + exists (num_of P'). split; [|done]. apply Hop. by right.
    + destruct (i_only0 _ _ Hj) as (n & Hn & ->). exists n. split; [|done]. apply Hop. by left.
  - intros x j k [[<- <-]|[_ Hj]]%lookup_insert_Some; [|by apply i_keys0]. cbn.
    split; [set_solver|]. intros [Ho|?]; [|set_solver].
    destruct (i_owner0 _ _ Ho) as (n & (st1 & P1 & HP1 & _ & Hn) & Heq%fmt_d_inj).
    destruct (Hnum _ _ HP1). congruence.
  - intros x j [[<- <-]|[_ Hj]]%lookup_insert_Some; [|by apply (i_nodup0 x)].
    split; [constructor|]. split; [constructor|done].
  - intros k x Ho. destruct (i_owner0 _ _ Ho) as (n & Hn & ->). exists n. split; [|done].
    apply Hop. by left.
  - set_solver.
Qed.

Lemma opens_SI i S' st P' nm (s s' : dynstore) :
  Inv s → opens i S' st P' nm s s' → SI s'.
Proof.
  intros HI Ho. destruct (opens_fresh _ _ _ _ _ _ _ HI Ho) as (Hsrv & Hr' & Hfr & _ & _).
  destruct HI as [_ _ HS]. destruct Ho as [Hi0 Hfree Hl Hsts [Hst Hnext] HP' [HsS [Hr Hp]] Hauth _ (_ & _ & _ & _ & _ & _ & _ & Et)].
  assert (Hat : ∀ j S1 st1 P1, session_at s j S1 st1 P1 → session_at s' j S1 st1 P1).
  { intros j S1 st1 P1 (Hj & Hj0 & Hs1 & HP1 & ?). unfold session_at. rewrite Hl, Hsts.
    rewrite decide_False by (intros ->; destruct Hfree; congruence).
    rewrite lookup_insert_ne by congruence. done. }
  assert (Hnew : session_at s' i S' st P').
  { unfold session_at. rewrite Hl, Hsts, decide_True, lookup_insert_eq by done. done. }
  destruct (port_fresh s (s_key S') Hp) as [Hpk Hpt].
  destruct HS as [Hz Hslot Htemp Howned Hkeys Hfresh Htasks]. split.
  - rewrite Hl, decide_False by lia. done.
  - intros j S1 Hj Hj0. rewrite Hl in Hj. case_decide as Hji.
    + subst j. injection Hj as <-. split; [by exists st, P'|done].
    + destruct (Hslot _ _ Hj Hj0) as [(st1 & P1 & H1) ?]. split; [|done]. exists st1, P1. by apply Hat.
  - rewrite Et. intros T HT. destruct (Htemp _ HT) as (st1 & P1 & ? & HP1 & ?). exists st1, P1.
    rewrite Hsts, lookup_insert_ne by congruence. done.
  - rewrite Hsts. intros st1 P1 [[<- <-]|[_ HP1]]%lookup_insert_Some.
    + rewrite decide_False by (rewrite Hsrv; lia). by exists i, S'.
    + specialize (Howned _ _ HP1). rewrite Et. case_decide; [done|].
      destruct Howned as (j & S1 & H1). exists j, S1. by apply Hat.
  - intros j1 j2 S1 S2. rewrite !Hl. repeat case_decide; subst; try done.
    + intros [= <-] H2 _ _ Heq. by destruct (Hpk _ _ H2).
    + intros H1 [= <-] _ _ Heq. by destruct (Hpk _ _ H1).
    + apply Hkeys.
  - rewrite Hsts, Hnext. intros st1 P1 [[<- <-]|[_ HP1]]%lookup_insert_Some; [lia|].
    specialize (Hfresh _ _ HP1). lia.
  - rewrite Hsts. intros st1 P1 j S1 [[<- <-]|[_ HP1]]%lookup_insert_Some; rewrite Hl.
    + rewrite HP'. cbn. case_decide; [intros [= <-]; lia|]. intros Hj Hj0.
      destruct (Hslot _ _ Hj Hj0) as [(? & ? & (_ & _ & _ & _ & _ & ?)) _]. lia.
    + case_decide; [intros [= <-] _; by eapply Hpt|]. intros Hj Hj0. by eapply Htasks.
Qed.

Lemma opens_Inv i S' st P' nm (s s' : dynstore) :
  Inv s → opens i S' st P' nm s s' → Inv s'.
Proof.
  intros HI Ho. destruct (opens_fresh _ _ _ _ _ _ _ HI Ho) as (Hsrv & Hr & Hfr & Hnum & Hop).
  pose proof (opens_II _ _ _ _ _ _ _ HI Ho) as HII. pose proof (opens_SI _ _ _ _ _ _ _ HI Ho) as HSI.
  destruct HI as [HC Hq HS]. destruct Ho as [_ _ _ Hsts _ HP' _ _ _ (Ed & Epd & Eck & EDf & ER & En & Epo & Et)].
  assert (Hlists : keys_of P' = [] ∧ pats_of P' = []) by (by rewrite HP').
  split; [|destruct Hq; split; congruence|done].
  split.
  - rewrite Ed, Epd, Hsts. destruct Hlists. by apply WI_open; [apply HC|..].
  - rewrite EDf, Ed, Epd. apply HC.
  - rewrite EDf, Ed. apply HC.
  - rewrite Eck, EDf, Ed. apply HC.
  - rewrite Ed. apply HC.
  - done.
  - intros n Hn. apply Hop. left. apply HC. unfold pending in *. by rewrite <-En.
  - rewrite En. apply HC.
  - rewrite Hsts. intros st1 P1 [[<- <-]|[_ HP1]]%lookup_insert_Some; [|by apply (c_use _ HC st1)].
    intros _. rewrite Hsrv. lia.
  - rewrite Hsts. intros st1 P1 [[<- <-]|[_ HP1]]%lookup_insert_Some; [done|by apply (c_zero _ HC st1)].
Qed.

Lemma empty_slot_spec l i n :
  empty_slot l i = Some n → ∃ j, n = (i + j)%nat ∧ l !! j = Some None.
Proof.
  revert i. induction l as [|[S|] l IH]; intros i; cbn; [done| |].
  - intros (j & -> & Hj)%IH. exists (Datatypes.S j). split; [lia|done].
  - intros [= <-]. exists 0%nat. split; [lia|done].
Qed.

(** The status of an open request that is refused before a session is made. *)
Definition open_error (name : option cftype) (options : option (option cftype)) : option Z :=
  match name, options with
  | None, _ | _, None => Some kSCStatusFailed
  | Some (CFString _), Some _ =>
      match useSessionKeys_arg options with inl e => Some e | inr _ => None end
  | Some _, Some _ => Some kSCStatusInvalidArgument
  end.

(** A port that is a session's already, or the task a session is signalled by. *)
Definition port_taken (s : dynstore) (server : Z) : Prop :=
  ∃ i S st P, session_at s i S st P ∧ (s_key S = server ∨ st_notifySignalTask P = server).

(** A new session takes the first empty slot, or a new one. *)
Lemma addSession_new server p (s : dynstore) :
  Inv s → m_port (ports_in_use s) = Some p → find_session (drop 1 (sessions s)) 1 server s = Some (None, s) →
  ∃ i l, addSession server true s = Some (Some i, set_sessions l s) ∧ (0 < i)%nat ∧
    (sessions s !! i = Some None ∨ sessions s !! i = None) ∧ (i < length l)%nat ∧
    ∀ j, l !! j = if decide (j = i) then Some (Some (fresh_session p)) else sessions s !! j.
Proof.
  intros HI Ep Edup. destruct (s_zero _ (v_sess _ HI)) as [S0 H0].
  unfold addSession. unfold bind at 1, gets at 1. destruct (sessions s) as [|x l] eqn:El; [done|].
  rewrite (bind_eq _ _ _ _ _ Edup). unfold bind at 1, gets at 1. rewrite Ep. cbn [deref].
  unfold bind at 1, ret at 1. destruct (empty_slot (drop 1 (x :: l)) 1) as [n|] eqn:Ee.
  - destruct (empty_slot_spec _ _ _ Ee) as (j & -> & Hj). cbn in Hj.
    exists (1 + j)%nat, (<[(1 + j)%nat := Some (fresh_session p)]> (x :: l)).
    assert (j < length l)%nat by (by eapply lookup_lt_Some).
    split; [cbn; unfold modify, bind, ret; by rewrite El|]. split; [lia|]. split; [left; done|].
    split; [rewrite length_insert; cbn; lia|]. intros j'. case_decide as Hj'.
    + subst j'. rewrite list_lookup_insert_eq; [done|cbn; lia].
    + by rewrite list_lookup_insert_ne.
  - exists (length (x :: l)), ((x :: l) ++ [Some (fresh_session p)]). split; [done|].
    split; [cbn; lia|]. split; [right; by apply lookup_ge_None|].
    split; [rewrite length_app; cbn; lia|]. intros j'. case_decide as Hj'.
    + subst j'. by rewrite lookup_app_r, Nat.sub_diag by lia.
    + destruct (decide (j' < length (x :: l))%nat); [by rewrite lookup_app_l by lia|].
      rewrite lookup_app_r, (lookup_ge_None_2 (x :: l)) by lia.
      apply lookup_ge_None. cbn [length] in *. lia.
Qed.

(** A session whose send right cannot be inserted is given up if its slot was used before. *)
Definition may_insert (s : dynstore) (insert_ok : bool) : Prop :=
  insert_ok = true ∨ is_Some (empty_slot (drop 1 (sessions s)) 1).

Lemma addSession_given_up server p (s : dynstore) :
  Inv s → m_port (ports_in_use s) = Some p → find_session (drop 1 (sessions s)) 1 server s = Some (None, s) →
  is_Some (empty_slot (drop 1 (sessions s)) 1) → addSession server false s = Some (None, s).
Proof.
  intros HI Ep Edup [n En]. destruct (s_zero _ (v_sess _ HI)) as [S0 H0].
  unfold addSession. unfold bind at 1, gets at 1. destruct (sessions s) as [|x l] eqn:El; [done|].
  rewrite (bind_eq _ _ _ _ _ Edup). unfold bind at 1, gets at 1. rewrite Ep. cbn [deref].
  unfold bind at 1, ret at 1. by rewrite En.
Qed.

Lemma configopen_spec server name options insert_ok tok (s : dynstore) :
  Inv s → is_Some (m_port (ports_in_use s)) → may_insert s insert_ok →
  let open := _configopen server name options insert_ok true tok s in
  match open_error name options with
  | Some e => open = Some ((e, MACH_PORT_NULL), s)
  | None =>
      (port_taken s server ∨ insert_ok = false) ∧ open = Some ((kSCStatusFailed, MACH_PORT_NULL), s) ∨
      insert_ok = true ∧ ¬ (∃ i S st P, session_at s i S st P ∧ s_key S = server) ∧
      ∃ i S st P nm s', open = Some ((kSCStatusOK, s_key S), s') ∧
        opens i S st P nm s s' ∧ s_auditToken S = Some tok ∧ name = Some (CFString nm) ∧
        st_useSessionKeys P = match useSessionKeys_arg options with inr (Some b) => b | _ => false end
  end.
Proof.
  intros HI [p Ep] Hins. cbn zeta. unfold _configopen, open_error.
  destruct name as [name|]; [|done]. destruct options as [options|]; [|by destruct name].
  destruct name as [nm| | | | |]; try done.
  destruct (useSessionKeys_arg (Some options)) as [e|use] eqn:Euse; [done|].
  destruct (s_zero _ (v_sess _ HI)) as [S0 H0].
  destruct (find_session_spec s server (drop 1 (sessions s)) 1) as (dup & Edup & Hdup).
  { intros j S. rewrite lookup_drop. intros Hj.
    destruct (s_slot _ (v_sess _ HI) _ _ Hj) as [(st & P & (_ & _ & Hst & HP & _)) _]; [lia|]. eauto. }
  destruct dup as [d|].
  { left. destruct Hdup as (j & S & -> & Hj & Hor). rewrite lookup_drop in Hj.
    destruct (s_slot _ (v_sess _ HI) _ _ Hj) as [(st & P & Hat) _]; [lia|]. split.
    { left. exists (1 + j)%nat, S, st, P. split; [done|]. destruct Hor as [?|(st1 & P1 & Hst1 & HP1 & ?)]; [by left|right].
      destruct Hat as (_ & _ & Hst & HP & _). by replace P with P1 by congruence. }
    rewrite (bind_eq _ _ s None s); [done|]. unfold addSession. unfold bind at 1, gets at 1.
    destruct (sessions s) as [|x l] eqn:El; [done|]. by rewrite (bind_eq _ _ _ _ _ Edup). }
  destruct insert_ok.
  2:{ left. split; [by right|]. destruct Hins as [|Hslot]; [done|].
      by rewrite (bind_eq _ _ _ _ _ (addSession_given_up server p s HI Ep Edup Hslot)). }
  right. split; [done|]. split.
  { intros (i & S & st & P & (Hi & Hlt & _) & Hk). destruct i as [|i]; [lia|]. eapply (Hdup i S); [|done].
    by rewrite lookup_drop. }
  set (st := next_store s). pose proof (m_port_fresh _ _ Ep) as Hfresh. pose proof (m_port_range _ _ Ep) as Hrange.
  set (S := Session p (Some st) 1 (Some tok) UNKNOWN None).
  set (P := st_with_session p (default false use) (new_store (Some nm))).
  destruct (addSession_new server p s HI Ep Edup) as (i & l & Eadd & Hi0 & Hfree & Hlt & Hl).
  rewrite (bind_eq _ _ _ _ _ Eadd).
  set (s1 := set_sessions l s).
  rewrite (bind_eq _ _ s1 (fresh_session p) s1).
  2:{ unfold load_session, bind, gets. cbn. by rewrite Hl, decide_True. }
  set (s2 := set_stores (<[st := new_store (Some nm)]> (stores s1)) (Datatypes.S st) s1).
  rewrite (bind_eq _ _ s1 st s2) by done.
  set (s3 := set_sessions (<[i := Some S]> l) s2).
  rewrite (bind_eq _ _ s2 tt s3) by done.
  rewrite (bind_eq _ _ _ _ _ (upd_store_eq st _ (new_store (Some nm)) s3 (lookup_insert_eq _ _ _))).
  cbn [negb]. set (s4 := set_stores _ _ s3). unfold bind at 1, gets at 1.
  change (session_key (s_key (fresh_session p))) with (session_key p).
  assert (Hnone : sessionData s !! session_key p = None).
  { destruct (sessionData s !! session_key p) eqn:E; [|done].
    destruct (i_only _ _ _ _ (c_I _ (v_core _ HI)) _ _ E) as (n & (st1 & P1 & HP1 & _ & Hn) & Heq).
    apply fmt_d_inj in Heq. pose proof (server_range _ _ _ (v_sess _ HI) HP1).
    rewrite <-Hn in Heq. unfold num_of in Heq.
    change (i32 p) with (session_num p) in Heq. apply session_num_inj in Heq; [|lia|lia].
    exfalso. eapply (server_fresh s p st1 P1); [apply HI|done|lia|done|done]. }
  change (sessionData s4) with (sessionData s). rewrite Hnone. cbn [default].
  exists i, S, st, P, nm. eexists. split; [reflexivity|]. split; [|split; [done|]].
  2:{ unfold P. cbn. by destruct use as [[]|]. }
  split; cbn; try done.
  - intros j. destruct (decide (j = i)) as [->|Hj].
    + by rewrite list_lookup_insert_eq.
    + rewrite list_lookup_insert_ne by done. by rewrite Hl, decide_False.
  - unfold s4. cbn. by rewrite insert_insert_eq.
  - exists tok. split; [done|]. split; by left.
Qed.

(** ** Closing *)

Lemma removeAll_loop st isRegex l P (s : dynstore) :
  Core s → quiet s → stores s !! st = Some P → st_server P ≠ 0 → list_of isRegex P = l →
  ∃ P' s', for_each l (λ k, __SCDynamicStoreRemoveWatchedKey st k isRegex ;; ret tt) s = Some (tt, s') ∧
    relisted st P P' s s' ∧ list_of isRegex P' = [] ∧ list_of (negb isRegex) P' = list_of (negb isRegex) P.
Proof.
  revert P s. induction l as [|k l IH]; intros P s HC Hq HP H0 Hl; cbn [for_each].
  { exists P, s. split; [done|]. split; [split; [by apply rewatched_refl|done]|done]. }
  destruct (removeWatchedKey_spec st k isRegex P s HC Hq HP H0) as (s1 & E1 & H1).
  rewrite (bind_eq _ _ s tt s1) by (by rewrite (bind_eq _ _ _ _ _ E1)).
  assert (Hfi : first_index k (k :: l) = Some 0%nat) by (unfold first_index; cbn; by rewrite decide_True).
  unfold spec_unwatch in H1. rewrite Hl, Hfi in H1. cbn [snd delete list_delete] in H1.
  set (P1 := set_list isRegex l P) in *.
  assert (Hrel : relisted st P P1 s s1) by (split; [done|by destruct isRegex]).
  destruct (IH P1 s1) as (P2 & s2 & E2 & H2 & Hl2 & Ho2); try apply Hrel.
  { by eapply relisted_stores. }
  { by eapply relisted_server. }
  { apply list_of_set. }
  exists P2, s2. split; [done|]. split; [by eapply relisted_step|]. split; [done|].
  rewrite Ho2. apply list_of_set_other.
Qed.

Lemma removeAllKeys_spec st isRegex P (s : dynstore) :
  Core s → quiet s → stores s !! st = Some P → st_server P ≠ 0 →
  ∃ P' s', removeAllKeys st isRegex s = Some (tt, s') ∧ relisted st P P' s s' ∧
    list_of isRegex P' = [] ∧ list_of (negb isRegex) P' = list_of (negb isRegex) P.
Proof.
  intros HC Hq HP H0. unfold removeAllKeys. rewrite (bind_eq _ _ _ _ _ (load_store_eq _ _ _ HP)).
  apply removeAll_loop; try done. by destruct isRegex.
Qed.

(** The removal of the keys of a session. *)
Definition spec_removes (l : list string) (V : view) : view :=
  λ k, if decide (k ∈ l) then (None, None) else V k.

Lemma removeSessionKeys_spec st x l b (s : dynstore) :
  Core s → clean s → NoDup l → (∀ k, k ∈ l → owner_of (storeData s) k = Some x) →
  ∃ s' rel, removeSessionKeys st x l b s = Some (b || negb (bool_decide (l = [])), s') ∧
    changed (spec_removes l (view_of (storeData s))) (list_to_set l) rel s s' ∧ clean s'.
Proof.
  revert b s. induction l as [|k l IH]; intros b s HC Hcl Hnd Hl; cbn [removeSessionKeys].
  { exists s, ∅. split; [by rewrite orb_false_r|]. split; [|done].
    apply changed_refl in HC. destruct HC as [? ? HV ? ? ? ?]. split; try done. }
  apply NoDup_cons in Hnd as [Hk Hnd]. assert (Hx : owner_of (storeData s) k = Some x) by (apply Hl; left).
  rewrite (bind_eq _ _ s true s).
  2:{ unfold isMySessionKey, bind, gets, ret. change (storeData s !! k ≫= e_session) with (owner_of (storeData s) k).
      rewrite Hx. by rewrite String.eqb_refl. }
  destruct (removeValue_spec st k s HC) as (s1 & E1 & H1). rewrite (bind_eq _ _ _ _ _ E1).
  assert (Hcl1 : clean s1).
  { apply (clean_remove k s); [done|done|]. by apply (clean_split k) in Hcl as [? _]. }
  pose proof (ch_view _ _ _ _ _ H1) as HV1.
  destruct (IH true s1) as (s2 & rel & E2 & H2 & Hcl2); [apply H1|done|done| |].
  { intros k' Hk'. change (owner_of (storeData s1) k') with (view_of (storeData s1) k').2.
    rewrite (HV1 k'). unfold spec_remove. rewrite decide_False by (by intros ->).
    apply (Hl k'). by right. }
  exists s2. eexists. split; [rewrite E2; by rewrite orb_true_r|]. split; [|done].
  pose proof (changed_trans _ _ _ _ _ _ _ _ _ H1 H2) as [? ? HV ck ? ? ?]. split; try done.
  - intros k'. rewrite (HV k'). unfold spec_removes. rewrite (HV1 k'). unfold spec_remove.
    destruct (decide (k' = k)) as [->|Hne].
    + rewrite (decide_True (P := k ∈ k :: l)) by left. by case_decide.
    + rewrite !(decide_ext (k' ∈ k :: l) (k' ∈ l)) by set_solver. done.
  - rewrite ck. destruct (c_O _ HC k) as [v Hv]; [by rewrite Hx|]. rewrite Hv. cbn [is_some list_to_set]. set_solver.
Qed.

(** What is left of a session whose store closed: its table slot and its entry
    of the session dictionary. *)
Record closed (st : ptr) (P : SCDynamicStorePrivate) (s s' : dynstore) : Prop := {
  cl_stores : stores s' = delete st (stores s);
  cl_next : next_store s' = next_store s;
  cl_sessions : sessions s' = sessions s;
  cl_temp : temp_session s' = temp_session s;
  cl_posted : posted s' = posted s;
  cl_quiet : quiet s';
  cl_view : ∀ k, view_of (storeData s') k =
    if decide ((view_of (storeData s) k).2 = Some (fmt_d (num_of P))) then (None, None)
    else view_of (storeData s) k;
  cl_changes : ∀ n k, n ≠ num_of P → k ∈ changes (sessionData s') n ↔ k ∈ changes (sessionData s) n ∨
    owner_of (storeData s) k = Some (fmt_d (num_of P)) ∧ watched (stores s) n k;
  cl_pending : ∀ n, n ∈ pending s' ↔ n ≠ num_of P ∧ (n ∈ pending s ∨
    ∃ k, owner_of (storeData s) k = Some (fmt_d (num_of P)) ∧ watched (stores s) n k);
}.

Lemma close_state (s : dynstore) st P :
  Core s → quiet s → stores s !! st = Some P → st_server P ≠ 0 → keys_of P = [] → pats_of P = [] →
  num_of P ∉ pending s → (∀ k, owner_of (storeData s) k ≠ Some (fmt_d (num_of P))) →
  Core (set_sessionData (delete (fmt_d (num_of P)) (sessionData s))
          (set_stores (delete st (stores s)) (next_store s) s)).
Proof.
  intros HC Hq HP H0 Hk Hp Hpend Hown.
  assert (Hop : ∀ n, opened (delete st (stores s)) n ↔ opened (stores s) n ∧ n ≠ num_of P).
  { intros n. unfold opened. split.
    - intros (st1 & P1 & [? HP1]%lookup_delete_Some & Hnz & Hn). split; [eauto|]. intros ->.
      by pose proof (w_inj _ _ _ (c_W _ HC) _ _ _ _ HP1 HP Hn).
    - intros [(st1 & P1 & HP1 & Hnz & Hn) Hne]. exists st1, P1. split; [|done].
      rewrite lookup_delete_ne; [done|]. intros ->. congruence. }
  destruct HC as [HW HK HD HCk HO HI HN HN' Huse Hzero]. split; cbn; try done.
  - by apply (WI_close _ _ _ HW st P).
  - rewrite (q_R _ Hq) in *. destruct HI as [i_open0 i_only0 i_keys0 i_nodup0 i_owner0 i_removed0]. split.
    + intros n [Hn Hne]%Hop. rewrite lookup_delete_ne by (by intros ?%fmt_d_inj). auto.
    + intros x i [Hx Hi]%lookup_delete_Some. destruct (i_only0 _ _ Hi) as (n & Hn & ->).
      exists n. split; [|done]. apply Hop. split; [done|]. by intros ->.
    + intros x i k [_ Hi]%lookup_delete_Some. by apply i_keys0.
    + intros x i [_ Hi]%lookup_delete_Some. by apply (i_nodup0 x).
    + intros k x Ho. destruct (i_owner0 _ _ Ho) as (n & Hn & ->). exists n. split; [|done].
      apply Hop. split; [done|]. intros ->. by eapply Hown.
    + set_solver.
  - intros n Hn. apply Hop. split; [by apply HN|]. by intros ->.
  - intros st1 P1 [? HP1]%lookup_delete_Some. by apply (Huse st1).
  - intros st1 P1 [? HP1]%lookup_delete_Some. by apply (Hzero st1).
Qed.

(** The keys of the session removed, and pushed if there were any. *)
Lemma drop_keys_spec st P (s : dynstore) :
  Inv s → stores s !! st = Some P → st_server P ≠ 0 →
  ∃ i s' ck, sessionData s !! fmt_d (num_of P) = Some i ∧
    (match i_sessionKeys i with
     | Some ((_ :: _) as l) =>
         let* push := removeSessionKeys st (fmt_d (num_of P)) l false in
         when push (__SCDynamicStorePush ;; ret tt)
     | _ => ret tt
     end) s = Some (tt, s') ∧
    (∀ k, k ∈ ck ↔ owner_of (storeData s) k = Some (fmt_d (num_of P))) ∧
    committed (λ k, if decide ((view_of (storeData s) k).2 = Some (fmt_d (num_of P))) then (None, None)
                    else view_of (storeData s) k) ck s s'.
Proof.
  intros [HC Hq HS] HP H0. assert (Hop : opened (stores s) (num_of P)) by (by exists st, P).
  destruct (i_open _ _ _ _ (c_I _ HC) _ Hop) as (i & Hi & _).
  assert (Hkeys : ∀ k, k ∈ default [] (i_sessionKeys i) ↔ owner_of (storeData s) k = Some (fmt_d (num_of P))).
  { intros k. rewrite (i_keys _ _ _ _ (c_I _ HC) _ _ k Hi), (q_R _ Hq). set_solver. }
  destruct (i_nodup _ _ _ _ (c_I _ HC) _ _ Hi) as (Hnd & _ & _).
  set (l := default [] (i_sessionKeys i)) in *.
  assert (HV : spec_removes l (view_of (storeData s)) ≡
    λ k, if decide ((view_of (storeData s) k).2 = Some (fmt_d (num_of P))) then (None, None)
         else view_of (storeData s) k).
  { intros k. unfold spec_removes. cbn [snd view_of]. pose proof (Hkeys k). repeat case_decide; tauto. }
  destruct (decide (l = [])) as [Hnil|Hcons].
  - exists i, s, ∅. split; [done|]. split.
    { unfold l in Hnil. by destruct (i_sessionKeys i) as [[|? ?]|]. }
    rewrite Hnil in Hkeys, HV. split; [intros k; rewrite <-Hkeys; set_solver|].
    eapply committed_view; [by apply committed_refl|]. rewrite <-HV. intros k. unfold spec_removes.
    by rewrite decide_False by set_solver.
  - destruct (removeSessionKeys_spec st (fmt_d (num_of P)) l false s HC (quiet_clean _ Hq) Hnd) as
      (s1 & rel & E1 & H1 & Hcl1); [by intros k ?%Hkeys|].
    destruct (push_commits _ _ _ _ _ Hq H1 Hcl1) as (s2 & E2 & H2).
    exists i, s2, (list_to_set l). split; [done|]. split; [|split].
    + rewrite bool_decide_false in E1 by done. cbn [negb orb] in E1.
      assert (Hl : i_sessionKeys i = Some l) by (unfold l in *; by destruct (i_sessionKeys i)).
      rewrite Hl. clearbody l. destruct l as [|k ks]; [done|]. rewrite (bind_eq _ _ _ _ _ E1). cbn [when]. by rewrite (bind_eq _ _ _ _ _ E2).
    + intros k. rewrite elem_of_list_to_set. apply Hkeys.
    + by eapply committed_view.
Qed.

Lemma relisted_Inv st P P' (s s' : dynstore) : Inv s → stores s !! st = Some P → relisted st P P' s s' → Inv s'.
Proof. intros HI HP [Hrw Heq]. apply but_lists_neutral in Heq as [Hn Ht]. by eapply rewatched_Inv. Qed.

Lemma relisted_watched st P P' (s s' : dynstore) n k :
  Inv s → stores s !! st = Some P → relisted st P P' s s' → n ≠ num_of P →
  watched (stores s') n k ↔ watched (stores s) n k.
Proof.
  intros HI HP [Hrw Heq] Hn. apply but_lists_neutral in Heq as [[Hsrv _] _].
  rewrite (rw_stores _ _ _ _ Hrw). unfold watched. split.
  - intros (st1 & P1 & [[<- <-]|[? ?]]%lookup_insert_Some & Hn1 & Hw); [|eauto].
    unfold num_of in *. congruence.
  - intros (st1 & P1 & HP1 & Hn1 & Hw). destruct (decide (st1 = st)) as [->|Hne]; [congruence|].
    exists st1, P1. by rewrite lookup_insert_ne.
Qed.

(** What is left of a session that watches nothing any more and is not to be notified. *)
Record silenced (st : ptr) (P P3 : SCDynamicStorePrivate) (s s3 : dynstore) : Prop := {
  si_inv : Inv s3;
  si_server : st_server P3 = st_server P;
  si_watches : keys_of P3 = [] ∧ pats_of P3 = [];
  si_stores : stores s3 = <[st := P3]> (stores s);
  si_next : next_store s3 = next_store s;
  si_sessions : sessions s3 = sessions s;
  si_temp : temp_session s3 = temp_session s;
  si_posted : posted s3 = posted s;
  si_info : sessionData s3 = sessionData s;
  si_values : same_values (storeData s) (storeData s3);
  si_watched : ∀ n k, watched (stores s3) n k ↔ n ≠ num_of P ∧ watched (stores s) n k;
  si_pending : ∀ n, n ∈ pending s3 ↔ n ∈ pending s ∧ n ≠ num_of P;
}.

Lemma silence_spec (s : dynstore) st P :
  Inv s → stores s !! st = Some P → st_server P ≠ 0 →
  ∃ s1 s2 s3 P3, removeAllKeys st false s = Some (tt, s1) ∧ removeAllKeys st true s1 = Some (tt, s2) ∧
    __SCDynamicStoreNotifyCancel st s2 = Some (kSCStatusOK, s3) ∧ silenced st P P3 s s3.
Proof.
  intros HI HP H0.
  destruct (removeAllKeys_spec st false P s) as (P1 & s1 & E1 & H1 & Hk1 & Hp1); try done; try apply HI.
  cbn in Hk1, Hp1. pose proof (relisted_Inv _ _ _ _ _ HI HP H1) as HI1.
  pose proof (relisted_stores _ _ _ _ _ H1) as HP1. pose proof (relisted_server _ _ _ _ _ H1 H0) as H01.
  destruct (removeAllKeys_spec st true P1 s1) as (P2 & s2 & E2 & H2 & Hp2 & Hk2); try done; try apply HI1.
  cbn in Hp2, Hk2. pose proof (relisted_Inv _ _ _ _ _ HI1 HP1 H2) as HI2.
  pose proof (relisted_stores _ _ _ _ _ H2) as HP2. pose proof (relisted_step _ _ _ _ _ _ _ H1 H2) as H12.
  destruct H12 as [Hrw Hbut]. pose proof Hbut as Hbut'. apply but_lists_neutral in Hbut' as [[Hsrv2 _] _].
  assert (Hnum : num_of P2 = num_of P) by (unfold num_of; by rewrite Hsrv2).
  destruct (notifyCancel_spec st P2 s2 HI2 HP2) as (s3 & E3 & HI3 & Hs3 & Hpend3).
  exists s1, s2, s3, (cancelled P2). split_and!; [done..|].
  assert (HP3 : stores s3 !! st = Some (cancelled P2)) by (rewrite Hs3; cbn; by rewrite lookup_insert_eq).
  assert (Hw : keys_of (cancelled P2) = [] ∧ pats_of (cancelled P2) = []).
  { split; [change (keys_of P2 = []); by rewrite Hk2|done]. }
  split; [done|done|done| | | | | | | | |]; try (rewrite Hs3; cbn; by destruct Hrw).
  - rewrite Hs3. cbn. rewrite (rw_stores _ _ _ _ Hrw). apply insert_insert_eq.
  - intros n k. destruct (decide (n = num_of P)) as [->|Hn].
    + split; [|tauto]. intros (st1 & P1' & HP1' & Hn1 & Hwt).
      pose proof (w_inj _ _ _ (c_W _ (v_core _ HI3)) _ _ _ _ HP1' HP3 ltac:(rewrite Hn1; by rewrite <-Hnum)) as ->.
      assert (P1' = cancelled P2) as -> by congruence. unfold watches in Hwt. destruct Hw as [Hw1 Hw2].
      rewrite Hw1, Hw2 in Hwt. set_solver.
    + rewrite Hs3. cbn. rewrite (watched_same _ _ P2) by done.
      rewrite (relisted_watched st P P2 s s2) by (done || by split). tauto.
  - intros n. rewrite Hpend3. unfold pending. rewrite (rw_need _ _ _ _ Hrw). set_solver.
Qed.

Lemma storeClose_spec (s : dynstore) i S st P :
  Inv s → session_at s i S st P →
  ∃ s1, __SCDynamicStoreClose st s = Some (kSCStatusOK, s1) ∧
    let s2 := set_sessionData (delete (fmt_d (num_of P)) (sessionData s1)) s1 in
    Core s2 ∧ closed st P s s2.
Proof.
  intros HI Hat. pose proof Hat as (Hi & Hlt & HsS & HP & Hsrv & Hr).
  assert (H0 : st_server P ≠ 0) by lia. unfold __SCDynamicStoreClose.
  destruct (silence_spec s st P HI HP H0) as (s1 & s2 & s3 & P3 & E1 & E2 & E3 & Hsi).
  rewrite (bind_eq _ _ _ _ _ E1), (bind_eq _ _ _ _ _ E2), (bind_eq _ _ _ _ _ E3).
  destruct Hsi as [HI3 Hsrv3 [Hk3 Hp3] Hst3 Hn3 Hss3 Ht3 Hpo3 Hin3 Hval Hw3 Hpend3].
  assert (HP3 : stores s3 !! st = Some P3) by (by rewrite Hst3, lookup_insert_eq).
  assert (Hnum : num_of P3 = num_of P) by (unfold num_of; by rewrite Hsrv3).
  rewrite (bind_eq _ _ _ _ _ (load_store_eq _ _ _ HP3)).
  change (session_key (st_server P3)) with (fmt_d (num_of P3)).
  assert (H03 : st_server P3 ≠ 0) by (by rewrite Hsrv3).
  destruct (drop_keys_spec st P3 s3 HI3 HP3 H03) as (inf & s4 & ck & Hinf & E4 & Hck & Hcm).
  rewrite Hnum in *. unfold bind at 1, gets at 1. rewrite Hinf. unfold bind at 1. cbn [deref ret].
  rewrite (bind_eq _ _ _ _ _ E4).
  pose proof (committed_Inv _ _ _ _ HI3 Hcm) as HI4. destruct (cm_frame _ _ _ _ Hcm) as [Hst4 Hn4 Hss4 Ht4 Hpo4].
  assert (Hat4 : session_at s4 i S st P3).
  { unfold session_at. rewrite Hss4, Hst4, Hst3, Hss3, Hsrv3. split_and!; (done || lia || apply lookup_insert_eq). }
  assert (Hgs : getSession (st_server P3) s4 = Some (Some i, s4)).
  { rewrite Hsrv3, Hsrv. by apply (getSession_own _ _ _ _ _ (v_sess _ HI4) Hat4). }
  rewrite (bind_eq _ _ _ _ _ Hgs). unfold bind at 1. cbn [deref ret].
  eexists. split; [reflexivity|]. cbv zeta.
  assert (Hview3 : ∀ k, view_of (storeData s3) k = view_of (storeData s) k).
  { intros k. unfold view_of. by rewrite (proj1 Hval), (proj2 Hval). }
  assert (Hck' : ∀ k, k ∈ ck ↔ owner_of (storeData s) k = Some (fmt_d (num_of P))).
  { intros k. rewrite Hck. by rewrite (proj2 Hval). }
  assert (Hpend4 : ∀ n, n ∈ pending s4 ↔ n ≠ num_of P ∧ (n ∈ pending s ∨
    ∃ k, owner_of (storeData s) k = Some (fmt_d (num_of P)) ∧ watched (stores s) n k)).
  { intros n. rewrite (cm_pending _ _ _ _ Hcm), Hpend3. setoid_rewrite Hck'. setoid_rewrite Hw3. naive_solver. }
  split.
  - change (Core (set_sessionData (delete (fmt_d (num_of P)) (sessionData s4))
      (set_stores (delete st (stores s4)) (next_store s4) s4))).
    rewrite <-Hnum. apply close_state; try apply HI4; try done; rewrite ?Hnum, ?Hsrv3.
    + rewrite Hst4. done.
    + rewrite Hpend4. tauto.
    + intros k. change (owner_of (storeData s4) k) with (view_of (storeData s4) k).2.
      rewrite (cm_view _ _ _ _ Hcm k). by case_decide.
  - split; cbn; rewrite ?Hst4, ?Hn4, ?Hss4, ?Ht4, ?Hpo4; try done.
    + rewrite Hst3. apply delete_insert_eq.
    + by destruct (v_quiet _ HI4).
    + intros k. rewrite (cm_view _ _ _ _ Hcm k). by rewrite Hview3.
    + intros n k Hn. unfold changes at 1. rewrite lookup_delete_ne by (by intros ?%fmt_d_inj).
      fold (changes (sessionData s4) n). rewrite (cm_changes _ _ _ _ Hcm), Hck', Hw3, Hin3. tauto.
Qed.

(** *** The session table *)

Lemma drop_empty_lookup l j S : drop_empty l !! j = Some (Some S) ↔ l !! j = Some (Some S).
Proof.
  revert j. induction l as [|x l IH]; intros j; [done|]. cbn [drop_empty].
  destruct j as [|j].
  - destruct x; [by destruct (drop_empty l)|]. by destruct (drop_empty l).
  - specialize (IH j). cbn. rewrite <-IH.
    destruct x; destruct (drop_empty l); done.
Qed.

Definition without_slot (i : nat) (l : list (option serverSession)) : list (option serverSession) :=
  let l := <[i := None]> l in
  if (Datatypes.S i =? length l)%nat then take 1 l ++ drop_empty (drop 1 l) else l.

Lemma without_slot_lookup i l j S :
  (0 < i)%nat → without_slot i l !! j = Some (Some S) ↔ j ≠ i ∧ l !! j = Some (Some S).
Proof.
  intros Hi. unfold without_slot.
  assert (Hins : <[i := None]> l !! j = Some (Some S) ↔ j ≠ i ∧ l !! j = Some (Some S)).
  { destruct (decide (j = i)) as [->|Hne].
    - split; [|tauto]. intros H. destruct (decide (i < length l)%nat).
      + by rewrite list_lookup_insert_eq in H.
      + by rewrite list_insert_ge, lookup_ge_None_2 in H by lia.
    - rewrite list_lookup_insert_ne by done. tauto. }
  rewrite <-Hins. case_match; [|done]. set (l' := <[i := None]> l) in *. clearbody l'.
  destruct l' as [|x l']; [done|]. cbn [take drop app]. destruct j as [|j]; [done|]. cbn.
  change (take 0 l') with (@nil (option serverSession)). cbn. apply drop_empty_lookup.
Qed.

Lemma slot_of_own (s : dynstore) i S st P :
  SI s → session_at s i S st P → slot_of (sessions s) (s_key S) = Some (pred i).
Proof.
  intros HS (Hi & Hlt & _). unfold slot_of. destruct i as [|i]; [lia|]. cbn [pred].
  rewrite (proj2 (list_find_Some _ _ i (Some S))); [done|].
  split; [by rewrite lookup_drop|]. split; [done|].
  intros j y Hy. rewrite lookup_drop in Hy. destruct y as [S'|]; [|done]. cbn. intros Hlt' [= Heq].
  pose proof (s_keys _ HS _ _ _ _ Hy Hi ltac:(lia) ltac:(lia) Heq). lia.
Qed.

Lemma slot_of_none (s : dynstore) server :
  (∀ i S, sessions s !! i = Some (Some S) → (0 < i)%nat → s_key S ≠ server) → slot_of (sessions s) server = None.
Proof.
  intros H. unfold slot_of. rewrite (proj2 (list_find_None _ _)); [done|].
  apply Forall_forall. intros [S|] Hin; [|done]. intros [= Heq].
  apply list_elem_of_lookup_1 in Hin as [j Hj]. rewrite lookup_drop in Hj. by apply (H _ _ Hj); [lia|].
Qed.

(** A closed session: its store, its entry and its slot are gone, and with them
    the keys it owned. *)
Lemma cleanupSession_spec (s : dynstore) i S st P :
  Inv s → session_at s i S st P →
  ∃ s1, cleanupSession (s_key S) s = Some (tt, set_sessions (without_slot i (sessions s)) s1) ∧
    closed st P s s1 ∧ Inv (set_sessions (without_slot i (sessions s)) s1).
Proof.
  intros HI Hat. pose proof Hat as (Hi & Hlt & HsS & HP & Hsrv & Hr).
  destruct (storeClose_spec s i S st P HI Hat) as (s1 & E1 & HC2 & Hcl). cbv zeta in *.
  set (s2 := set_sessionData _ s1) in *.
  assert (Hss : sessions s1 = sessions s) by apply Hcl.
  exists s2. split; [|split; [done|]].
  - unfold cleanupSession. unfold bind at 1, gets at 1.
    rewrite (slot_of_own _ _ _ _ _ (v_sess _ HI) Hat).
    replace (Datatypes.S (pred i)) with i by lia.
    rewrite (bind_eq _ _ _ _ _ (session_store_eq _ _ _ _ Hi HsS)). rewrite (bind_eq _ _ _ _ _ E1).
    replace (session_key (s_key S)) with (fmt_d (num_of P)) by (unfold num_of; by rewrite Hsrv).
    rewrite (bind_eq _ _ s1 tt s2) by done.
    unfold modify. do 2 f_equal. unfold without_slot. change (sessions s2) with (sessions s1). by rewrite Hss.
  - destruct Hcl as [Hsts Hnx _ Htmp Hpo [HqC HqD HqR] Hview _ _].
    assert (Hsame : ∀ j S1 st1 P1, session_at s j S1 st1 P1 → j ≠ i → st1 ≠ st).
    { intros j S1 st1 P1 H1 Hj ->. pose proof H1 as (_ & _ & _ & HP1 & Hsrv1 & _).
      assert (P1 = P) as -> by congruence.
      by destruct (session_at_key _ _ _ _ _ _ _ _ _ (v_sess _ HI) Hat H1 ltac:(congruence)) as [-> _]. }
    assert (Hkeep : ∀ j S1 st1 P1, session_at s j S1 st1 P1 → j ≠ i →
      session_at (set_sessions (without_slot i (sessions s)) s2) j S1 st1 P1).
    { intros j S1 st1 P1 H1 Hj. pose proof (Hsame _ _ _ _ H1 Hj) as Hst1.
      destruct H1 as (Hj1 & Hj0 & Hs1 & HP1 & ?). unfold session_at. cbn.
      split; [by apply without_slot_lookup|]. split; [done|]. split; [done|].
      change (stores s2) with (stores s1) in Hsts. rewrite Hsts, lookup_delete_ne by done. done. }
    split.
    + destruct HC2. by split.
    + by split.
    + destruct HI as [_ _ [Hz Hslot Htemp Howned Hkeys Hfresh Htasks]].
      change (stores s2) with (stores s1) in Hsts. split; cbn.
      * destruct Hz as [S0 H0]. exists S0. apply without_slot_lookup; [done|]. split; [lia|done].
      * intros j S1 [Hj Hj1]%without_slot_lookup Hj0; [|done].
        destruct (Hslot _ _ Hj1 Hj0) as [(st1 & P1 & H1) ?]. split; [|done]. exists st1, P1. by apply Hkeep.
      * change (temp_session s2) with (temp_session s1) in Htmp. rewrite Htmp, Hsts.
        intros T HT. destruct (Htemp _ HT) as (st1 & P1 & ? & HP1 & ?). exists st1, P1.
        rewrite lookup_delete_ne; [done|]. intros ->. assert (P1 = P) by congruence. subst. lia.
      * change (temp_session s2) with (temp_session s1) in Htmp. rewrite Hsts, Htmp.
        intros st1 P1 [Hne HP1]%lookup_delete_Some. specialize (Howned _ _ HP1). case_decide; [done|].
        destruct Howned as (j & S1 & H1). exists j, S1. apply Hkeep; [done|]. intros ->.
        apply Hne. destruct H1 as (? & _ & ? & _). congruence.
      * intros j1 j2 S1 S2 [? ?]%without_slot_lookup [? ?]%without_slot_lookup; [|done..]. by apply Hkeys.
      * change (next_store s2) with (next_store s1) in Hnx. rewrite Hsts, Hnx.
        intros st1 P1 [Hne HP1]%lookup_delete_Some. by eapply Hfresh.
      * rewrite Hsts. intros st1 P1 j S1 [Hne HP1]%lookup_delete_Some [? ?]%without_slot_lookup; [|done].
        by eapply Htasks.
Qed.

Lemma cleanupSession_none (s : dynstore) server :
  SI s → (∀ i S st P, session_at s i S st P → s_key S ≠ server) → cleanupSession server s = Some (tt, s).
Proof.
  intros HS Hno. unfold cleanupSession. unfold bind at 1, gets at 1. rewrite slot_of_none; [done|].
  intros i S Hi Hlt. destruct (s_slot _ HS _ _ Hi Hlt) as [(st & P & H) _]. by eapply Hno.
Qed.

End life.
