(* ===== verification/StoreReq.v ===== *)
(** * Requests to the store

    The handlers [_config*] and [_notify*]: a request is answered, and the invariant
    holds again. *)

From S2P Require Import Prelude StoreTypes StoreInv StorePat StoreOps StoreCore StoreValue.
From S2P Require Import StoreServer StoreSess StoreNotify StoreLife.
Local Open Scope c_scope.
Local Open Scope Z_scope.

Section req.
Context {RL : RegexLib} {CO : CFOrder} {MK : MachKernel}.

(** What the clients can see of a change: the values with their owners, and whom
    it is told to. *)
Record outcome (V : view) (ck : gset string) (s s' : dynstore) : Prop := {
  oc_view : view_of (storeData s') ≡ V;
  oc_changes : ∀ n k, k ∈ changes (sessionData s') n ↔
    k ∈ changes (sessionData s) n ∨ k ∈ ck ∧ watched (stores s) n k;
  oc_pending : ∀ n, n ∈ pending s' ↔ n ∈ pending s ∨ ∃ k, k ∈ ck ∧ watched (stores s) n k;
  oc_open : ∀ st P, st_server P ≠ 0 → stores s' !! st = Some P ↔ stores s !! st = Some P;
  oc_posted : posted s' = posted s;
}.

Lemma outcome_same (s s' : dynstore) :
  same_dicts s s' → same_clients (stores s) (stores s') → outcome (view_of (storeData s)) ∅ s s'.
Proof.
  intros [] []. split; [| | |done|done].
  - by rewrite sd_data.
  - intros n k. rewrite sd_info. set_solver.
  - intros n. unfold pending. rewrite sd_need. set_solver.
Qed.

Lemma outcome_after V ck (s s1 s' : dynstore) :
  same_dicts s s1 → same_clients (stores s) (stores s1) → committed V ck s1 s' → outcome V ck s s'.
Proof.
  intros [] [Hw Ho] [_ _ Hf ? Hch Hp]. split; [done| | | |].
  - intros n k. by rewrite Hch, sd_info, Hw.
  - intros n. rewrite Hp. unfold pending. rewrite sd_need.
    split; (intros [?|(k & ? & ?)]; [by left|right; exists k; by split; [|apply Hw]]).
  - intros st P HP. by rewrite (f_stores _ _ Hf), Ho.
  - by rewrite (f_posted _ _ Hf).
Qed.

Lemma session_store_ref (s : dynstore) r S tok st P :
  resolves s r S tok st P → session_store r s = Some (st, s).
Proof.
  intros []. unfold session_store. rewrite (bind_eq _ _ _ _ _ r_load). by rewrite r_store.
Qed.

(** The session [server] belongs to, and its client. *)
Definition client (s : dynstore) (server : Z) (w : who) (tok : audit_token) : Prop :=
  ∃ i S st P, session_at s i S st P ∧ s_key S = server ∧ auth_ok S tok ∧ w = who_of P.

Lemma client_resolved (s : dynstore) i S tok st P w tok' :
  SI s → session_at s i S st P → auth_ok S tok → client s (s_key S) w tok' → tok' = tok ∧ w = who_of P.
Proof.
  intros HS Hat [Ha _] (i' & S' & st' & P' & Hat' & Hk & [Ha' _] & ->).
  destruct (session_at_key _ _ _ _ _ _ _ _ _ HS Hat Hat' ltac:(by rewrite Hk)) as (_ & -> & _ & ->).
  split; [congruence|done].
Qed.

(** Whom the handlers take for the sender of a request: the client of the session
    of its port, and without a session the sender of the message. *)
Definition sender (s : dynstore) (server : Z) (tok : option audit_token) : option audit_token :=
  match getSession server s with
  | Some (Some i, _) => mjoin (sessions s !! i) ≫= s_auditToken
  | _ => tok
  end.

Lemma sender_session (s : dynstore) server i S st P tok tok' :
  session_at s i S st P → auth_ok S tok' → getSession server s = Some (Some i, s) →
  sender s server tok = Some tok'.
Proof. intros (Hi & _) [Ha _] E. unfold sender. rewrite E, Hi. cbn. by rewrite Ha. Qed.

Lemma anySession_client server name tok (s : dynstore) :
  Inv s →
  ∃ o s', anySession server name tok s = Some (o, s') ∧ Inv s' ∧ same_dicts s s' ∧
    same_clients (stores s) (stores s') ∧
    match o with
    | None => ∀ w tok', ¬ client s server w tok'
    | Some r => ∃ S tok' st P, resolves s' r S tok' st P ∧ sender s server (Some tok) = Some tok' ∧
        ∀ w tok'', client s server w tok'' → tok'' = tok' ∧ w = who_of P
    end.
Proof.
  intros HI. unfold anySession. destruct (getSession_spec s server (v_sess _ HI)) as (o & E & Ho).
  rewrite (bind_eq _ _ _ _ _ E). destruct o as [i|].
  - destruct Ho as (S & st & P & Hat & Hkey). exists (Some (Slot i)), s. split; [done|]. split; [done|].
    split; [done|]. split; [done|]. pose proof Hat as (Hi & Hlt & Hst & HP & _).
    destruct (s_slot _ (v_sess _ HI) _ _ Hi Hlt) as [_ [tok' Ha]]. exists S, tok', st, P. split.
    + split; try done. unfold load_session, bind, gets. by rewrite Hi.
    + split; [by eapply sender_session|]. intros w tok'' Hc. destruct Hkey as [<-|Hno]; [by eapply client_resolved; [apply HI|..]|].
      destruct Hc as (i' & S' & st' & P' & Hat' & Hk & _). by destruct (Hno _ _ _ _ Hat').
  - assert (Hnone : ∀ w tok', ¬ client s server w tok').
    { intros w tok' (i' & S' & st' & P' & Hat' & Hk & _). by destruct (Ho _ _ _ _ Hat'). }
    destruct (tempSession_spec server name tok s HI) as (o & s' & E' & HI' & Hd & Hw & Hr).
    exists o, s'. split; [done|]. split; [done|]. split; [done|]. split; [done|].
    destruct o as [r|]; [|done]. destruct Hr as (S & st & P & Hr & _). exists S, tok, st, P. split; [done|].
    split; [unfold sender; by rewrite E|]. intros w tok'' Hc. by destruct (Hnone _ _ Hc).
Qed.

(** ** Requests that write *)

(** The shape [_configset], [_configadd], [_configremove] and [_confignotify] share. *)
Definition write_request (server : Z) (name k : string) (tok : audit_token) (body : ptr → C dynstore Z)
    : C dynstore Z :=
  let* o := anySession server name tok in
  match o with
  | None => ret kSCStatusNoStoreSession
  | Some r =>
      let* ok := hasWriteAccess r (CFString k) in
      if negb ok then ret kSCStatusAccessError else
      let* st := session_store r in
      body st
  end.

(** A result: the status, the new view and the changed keys. *)
Definition write_spec : Type := who → view → Z * view * gset string.

Definition implements (body : ptr → C dynstore Z) (spec : write_spec) : Prop :=
  ∀ s st P, Core s → quiet s → stores s !! st = Some P →
  ∃ s', body st s = Some ((spec (who_of P) (view_of (storeData s))).1.1, s') ∧
    committed (spec (who_of P) (view_of (storeData s))).1.2 (spec (who_of P) (view_of (storeData s))).2 s s'.

(** Without the right to write, nothing changes. *)
Definition guarded (spec : write_spec) (tok : audit_token) (ks : list string) : write_spec := λ w V,
  if forallb (may_write tok) ks then spec w V else (kSCStatusAccessError, V, ∅).

Definition outcome_of (r : Z) (s s' : dynstore) (x : Z * view * gset string) : Prop :=
  r = x.1.1 ∧ outcome x.1.2 x.2 s s'.

(** A request that may do [spec] to keys [ks]: nothing changes without a session,
    or the sender has the right and [spec] is done; it is for a client. *)
Definition requested (spec : write_spec) (ks : list string) (server : Z) (tok : option audit_token)
    (r : Z) (s s' : dynstore) : Prop :=
  let V := view_of (storeData s) in
  (outcome_of r s s' (kSCStatusNoStoreSession, V, ∅) ∨
   ∃ w tok', sender s server tok = Some tok' ∧ outcome_of r s s' (guarded spec tok' ks w V)) ∧
  ∀ w tok', client s server w tok' → outcome_of r s s' (guarded spec tok' ks w V).

Lemma write_request_spec server name k tok body spec (s : dynstore) :
  implements body spec → Inv s →
  ∃ r s', write_request server name k tok body s = Some (r, s') ∧ Inv s' ∧
    requested spec [k] server (Some tok) r s s'.
Proof.
  intros Hbody HI. unfold write_request.
  (* from a resolved session *)
  assert (Hmain : ∀ rf S tok' st P s1, Inv s1 → resolves s1 rf S tok' st P → same_dicts s s1 →
    same_clients (stores s) (stores s1) →
    ∃ r s', (let* ok := hasWriteAccess rf (CFString k) in
      if negb ok then ret kSCStatusAccessError else let* st := session_store rf in body st) s1 = Some (r, s') ∧
      Inv s' ∧ outcome_of r s s' (guarded spec tok' [k] (who_of P) (view_of (storeData s)))).
  { intros rf S tok' st P s1 HI1 Hr Hd Hw.
    destruct (hasWriteAccess_spec rf S tok' st P k s1 HI1 Hr) as (S2 & s2 & E2 & HI2 & Hr2 & Hd2 & Hs2 & _).
    rewrite (bind_eq _ _ _ _ _ E2). unfold guarded. cbn [forallb]. rewrite andb_true_r.
    destruct (may_write tok' k); cbn [negb].
    - rewrite (bind_eq _ _ _ _ _ (session_store_ref _ _ _ _ _ _ Hr2)).
      destruct (Hbody s2 st P) as (s3 & E3 & Hcm); [apply HI2|apply HI2|apply Hr2|].
      assert (Hdat : storeData s2 = storeData s) by (rewrite (sd_data _ _ Hd2); apply Hd).
      rewrite Hdat in *. eexists _, s3. split; [exact E3|]. split; [by eapply committed_Inv|].
      split; [done|]. eapply outcome_after; [|by rewrite Hs2|exact Hcm]. by etrans.
    - exists kSCStatusAccessError, s2. split; [done|]. split; [done|]. split; [done|]. cbn.
      apply outcome_same; [by etrans|by rewrite Hs2]. }
  destruct (anySession_client server name tok s HI) as (o & s1 & E1 & HI1 & Hd1 & Hw1 & Ho).
  rewrite (bind_eq _ _ _ _ _ E1). destruct o as [rf|].
  - destruct Ho as (S & tok' & st & P & Hr & Hsend & Hc).
    destruct (Hmain rf S tok' st P s1 HI1 Hr Hd1 Hw1) as (r & s' & E & HI' & Hout).
    exists r, s'. split; [done|]. split; [done|]. split; [right; eauto|].
    intros w tok'' Hcl. by destruct (Hc _ _ Hcl) as [-> ->].
  - exists kSCStatusNoStoreSession, s1. split; [done|]. split; [done|].
    split; [left; split; [done|by apply outcome_same]|]. intros w tok' Hcl. by destruct (Ho _ _ Hcl).
Qed.

Definition set_spec (k : string) (v : list byte) : write_spec := λ w V,
  if denied w k V then (kSCStatusKeyExists, V, ∅) else (kSCStatusOK, spec_set w k v V, {[k]}).
Definition add_spec (k : string) (v : list byte) : write_spec := λ w V,
  if is_some (V k).1 then (kSCStatusKeyExists, V, ∅) else (kSCStatusOK, spec_set w k v V, {[k]}).
Definition remove_spec (k : string) : write_spec := λ w V,
  if is_some (V k).1 then (kSCStatusOK, spec_remove k V, {[k]}) else (kSCStatusNoKey, V, ∅).
Definition notify_spec (k : string) : write_spec := λ w V,
  (kSCStatusOK, spec_notify w k V, notify_ck w k V).

Lemma set_implements k v : implements (λ st, __SCDynamicStoreSetValue st k v false) (set_spec k v).
Proof.
  intros s st P HC Hq HP. destruct (setValue_commits st P k v s HC Hq HP) as (s' & E & Hcm).
  exists s'. unfold set_spec. destruct (denied _ _ _) eqn:Eden; cbn; (split; [exact E|]).
  - eapply committed_view; [done|]. unfold spec_set. by rewrite Eden.
  - done.
Qed.

Lemma add_implements k v : implements (λ st, __SCDynamicStoreAddValue st k v) (add_spec k v).
Proof.
  intros s st P HC Hq HP. destruct (addValue_commits st P k v s HC Hq HP) as (s' & E & Hcm).
  exists s'. unfold add_spec. destruct (is_some _); by split.
Qed.

Lemma remove_implements k : implements (λ st, __SCDynamicStoreRemoveValue st k false) (remove_spec k).
Proof.
  intros s st P HC Hq HP. destruct (removeValue_commits st k s HC Hq) as (s' & E & Hcm).
  exists s'. unfold remove_spec. destruct (is_some _) eqn:Es; cbn; (split; [exact E|]); [done|].
  eapply committed_view; [done|]. intros k'. unfold spec_remove. case_decide as Hk; [subst k'|done].
  cbn in Es. unfold view_of. destruct (data_of (storeData s) k) eqn:Ed; [done|].
  destruct (owner_of (storeData s) k) eqn:Eo; [|done]. destruct (c_O _ HC k); [eauto|congruence].
Qed.

Lemma notify_implements k : implements (λ st, __SCDynamicStoreNotifyValue st k false) (notify_spec k).
Proof. intros s st P HC Hq HP. apply (notifyValue_commits st P k s HC Hq HP). Qed.

(** *** SetMultiple *)

Definition strings (l : list cftype) : option (list string) :=
  mapM (λ v, match v with CFString s => Some s | _ => None end) l.

Lemma strings_map l ks : strings l = Some ks → l = CFString <$> ks.
Proof.
  unfold strings. revert ks. induction l as [|v l IH]; intros ks; cbn; [by intros [= <-]|].
  destruct v; try done. cbn. destruct (mapM _ l) as [ks'|]; [|done]. cbn. intros [= <-]. cbn. by rewrite (IH ks').
Qed.

Definition multiple_spec (kvs : list (string * cftype)) (rem notif : list string) : write_spec := λ w V,
  let d := spec_multiple w kvs (CFString <$> rem) (CFString <$> notif) V in (kSCStatusOK, d.1, d.2).

Definition cfstrings (o : option (list string)) : option (list cftype) :=
  match o with Some l => Some (CFString <$> l) | None => None end.

Lemma configset_m_spec server dict rem notif (rks nks : option (list string)) tok (s : dynstore) d :
  Inv s → dict_arg dict = inr d → 
  array_arg rem = inr (cfstrings rks) → array_arg notif = inr (cfstrings nks) →
  ∃ r s', _configset_m server dict rem notif tok s = Some (r, s') ∧ Inv s' ∧
    requested (multiple_spec (default [] d) (default [] rks) (default [] nks))
      ((default [] d).*1 ++ default [] rks ++ default [] nks) server (Some tok) r s s'.
Proof.
  intros HI Hd Hrem Hnot. unfold _configset_m. rewrite Hd, Hrem, Hnot.
  assert (Hdef : ∀ o : option (list string), default [] (cfstrings o) = CFString <$> default [] o).
  { by intros [?|]. }
  destruct (anySession_client server "SCDynamicStoreSetMultiple" tok s HI) as (o & s1 & E1 & HI1 & Hd1 & Hw1 & Ho).
  rewrite (bind_eq _ _ _ _ _ E1). destruct o as [rf|].
  2:{ exists kSCStatusNoStoreSession, s1. split; [done|]. split; [done|].
      split; [left; split; [done|by apply outcome_same]|]. intros w tok' Hcl. by destruct (Ho _ _ Hcl). }
  destruct Ho as (S & tok' & st & P & Hr & Hsend & Hc).
  assert (Hshape : ((λ kv : string * cftype, CFString kv.1) <$> default [] d) = CFString <$> (default [] d).*1).
  { by rewrite <-list_fmap_compose. }
  rewrite Hshape, !Hdef.
  destruct (hasWriteAccessAll_spec rf S tok' st P (default [] d).*1 s1 HI1 Hr)
    as (S2 & s2 & E2 & HI2 & Hr2 & Hd2 & Hs2).
  rewrite (bind_eq _ _ _ _ _ E2).
  assert (Hreq : ∀ r s', outcome_of r s s' (guarded
      (multiple_spec (default [] d) (default [] rks) (default [] nks)) tok'
      ((default [] d).*1 ++ default [] rks ++ default [] nks) (who_of P) (view_of (storeData s))) →
    requested (multiple_spec (default [] d) (default [] rks) (default [] nks))
      ((default [] d).*1 ++ default [] rks ++ default [] nks) server (Some tok) r s s').
  { intros r s' Hout. split; [right; eauto|]. intros w tok'' Hcl. by destruct (Hc _ _ Hcl) as [-> ->]. }
  assert (Hfin : ∀ s3, Inv s3 → same_dicts s s3 → stores s3 = stores s1 →
    forallb (may_write tok') ((default [] d).*1 ++ default [] rks ++ default [] nks) = false →
    ∃ r s', ret kSCStatusAccessError s3 = Some (r, s') ∧ Inv s' ∧
      requested (multiple_spec (default [] d) (default [] rks) (default [] nks))
        ((default [] d).*1 ++ default [] rks ++ default [] nks) server (Some tok) r s s').
  { intros s3 HI3 Hd3 Hst3 Hb. exists kSCStatusAccessError, s3. split; [done|]. split; [done|].
    apply Hreq. unfold guarded. rewrite Hb. split; [done|]. apply outcome_same; [done|by rewrite Hst3]. }
  rewrite !forallb_app in Hfin.
  destruct (forallb (may_write tok') (default [] d).*1) eqn:F1; cbn [negb];
    [|apply (Hfin s2); [done|by etrans|congruence|done]].
  destruct (hasWriteAccessAll_spec rf S2 tok' st P (default [] rks) s2 HI2 Hr2)
    as (S3 & s3 & E3 & HI3 & Hr3 & Hd3 & Hs3).
  rewrite (bind_eq _ _ _ _ _ E3).
  destruct (forallb (may_write tok') (default [] rks)) eqn:F2; cbn [negb];
    [|apply (Hfin s3); [done|by do 2 (etrans; [done|])|congruence|done]].
  destruct (hasWriteAccessAll_spec rf S3 tok' st P (default [] nks) s3 HI3 Hr3)
    as (S4 & s4 & E4 & HI4 & Hr4 & Hd4 & Hs4).
  rewrite (bind_eq _ _ _ _ _ E4).
  assert (Hd14 : same_dicts s s4) by (do 3 (etrans; [done|]); done).
  destruct (forallb (may_write tok') (default [] nks)) eqn:F3; cbn [negb];
    [|apply (Hfin s4); [done|done|congruence|done]].
  rewrite (bind_eq _ _ _ _ _ (session_store_ref _ _ _ _ _ _ Hr4)).
  destruct (setMultiple_spec st P d (cfstrings rks) (cfstrings nks) s4) as (s5 & E5 & Hcm);
    [apply HI4|apply HI4|apply Hr4|].
  exists kSCStatusOK, s5. split; [exact E5|]. split; [by eapply committed_Inv|].
  apply Hreq. unfold guarded. rewrite !forallb_app, F1, F2, F3. cbn [andb].
  split; [done|]. rewrite !Hdef in Hcm. cbn [fst snd multiple_spec]. rewrite (sd_data _ _ Hd14) in Hcm.
  eapply outcome_after; [exact Hd14| |exact Hcm]. by rewrite Hs4, Hs3, Hs2.
Qed.

(** *** AddValue with session keys *)

Lemma configadd_s_spec server k v (s : dynstore) :
  Inv s →
  ∃ r s', _configadd_s server (Some (CFString k)) (Some v) s = Some (r, s') ∧ Inv s' ∧
    requested (λ w, add_spec k v (Who (w_key w) true)) [k] server None r s s'.
Proof.
  intros HI. unfold _configadd_s. destruct (getSession_spec s server (v_sess _ HI)) as (o & E & Ho).
  rewrite (bind_eq _ _ _ _ _ E). destruct o as [i|].
  2:{ exists kSCStatusNoStoreSession, s. split; [done|]. split; [done|].
      split; [left; split; [done|by apply outcome_same]|].
      intros w tok (i' & S' & st' & P' & Hat' & Hk & _). by destruct (Ho _ _ _ _ Hat'). }
  destruct Ho as (S & st & P & Hat & Hkey). pose proof Hat as (Hi & Hlt & Hst & HP & Hsrv & Hrange).
  destruct (s_slot _ (v_sess _ HI) _ _ Hi Hlt) as [_ [tok' Ha]].
  assert (Hcl : ∀ w tok, client s server w tok → tok = tok' ∧ w = who_of P).
  { intros w tok Hc. destruct Hkey as [<-|Hno]; [by eapply client_resolved; [apply HI|..]|].
    destruct Hc as (i' & S' & st' & P' & Hat' & Hk & _). by destruct (Hno _ _ _ _ Hat'). }
  assert (Hr : resolves s (Slot i) S tok' st P).
  { split; try done. unfold load_session, bind, gets. by rewrite Hi. }
  destruct (hasWriteAccess_spec (Slot i) S tok' st P k s HI Hr) as (S1 & s1 & E1 & HI1 & Hr1 & Hd1 & Hs1 & _).
  assert (Hreq : ∀ r s', outcome_of r s s' (guarded (λ w, add_spec k v (Who (w_key w) true)) tok' [k] (who_of P)
      (view_of (storeData s))) → requested (λ w, add_spec k v (Who (w_key w) true)) [k] server None r s s').
  { intros r s' Hout. split; [right; eexists _, _; split; [by eapply sender_session|exact Hout]|].
    intros w tok Hc. by destruct (Hcl _ _ Hc) as [-> ->]. }
  rewrite (bind_eq _ _ _ _ _ E1). unfold guarded in Hreq. cbn [forallb] in Hreq. rewrite andb_true_r in Hreq.
  destruct (may_write tok' k) eqn:Emw; cbn [negb].
  2:{ exists kSCStatusAccessError, s1. split; [done|]. split; [done|]. apply Hreq. split; [done|].
      apply outcome_same; [done|by rewrite Hs1]. }
  rewrite (bind_eq _ _ _ _ _ (session_store_ref _ _ _ _ _ _ Hr1)).
  pose proof (r_priv _ _ _ _ _ _ Hr1) as HP1.
  rewrite (bind_eq _ _ _ _ _ (load_store_eq _ _ _ HP1)).
  set (P1 := st_with_session (st_server P) true P).
  set (s2 := set_stores (<[st := P1]> (stores s1)) (next_store s1) s1).
  rewrite (bind_eq _ _ s1 tt s2) by (by rewrite (upd_store_eq _ _ _ _ HP1)).
  assert (HI2 : Inv s2).
  { apply (Inv_upd s1 st P); [done|done|split; [done|right; lia]|done|done|].
    intros j S2. by apply (s_tasks _ (v_sess _ HI1) st P). }
  assert (HP2 : stores s2 !! st = Some P1) by (cbn; by rewrite lookup_insert_eq).
  destruct (add_implements k v s2 st P1) as (s3 & E3 & Hcm); [apply HI2|apply HI2|done|].
  rewrite (bind_eq _ _ _ _ _ E3). pose proof (committed_Inv _ _ _ _ HI2 Hcm) as HI3.
  assert (HP3 : stores s3 !! st = Some P1) by (by rewrite (f_stores _ _ (cm_frame _ _ _ _ Hcm))).
  rewrite (bind_eq _ _ _ _ _ (upd_store_eq _ _ _ _ HP3)). change (st_server P1) with (st_server P).
  set (P2 := st_with_session _ _ P1). assert (P2 = P) as HP2' by (by destruct P).
  eexists _, _. split; [reflexivity|]. split.
  - apply (Inv_upd s3 st P1); [done|done|split; [done|by left]|done|done|].
    intros j S2. by apply (s_tasks _ (v_sess _ HI3) st P1).
  - apply Hreq.
    change (Who (w_key (who_of P)) true) with (who_of P1).
    assert (Hdat : storeData s2 = storeData s) by apply Hd1. rewrite Hdat in *.
    split; [done|]. destruct Hcm as [_ _ Hf HV Hch Hp].
    assert (Hw2 : ∀ n k', watched (stores s2) n k' ↔ watched (stores s) n k').
    { intros n k'. unfold s2. cbn [stores set_stores]. rewrite (watched_same _ _ P) by done. by rewrite Hs1. }
    split; cbn; [exact HV| | | |].
    + intros n k'. rewrite Hch, Hw2. cbn. by rewrite (sd_info _ _ Hd1).
    + intros n. rewrite Hp. unfold pending. cbn. rewrite (sd_need _ _ Hd1).
      split; (intros [?|(k' & ? & ?)]; [by left|right; exists k'; by split; [|apply Hw2]]).
    + intros st1 P3 _. rewrite (f_stores _ _ Hf). cbn. rewrite HP2', insert_insert_eq, Hs1.
      rewrite Hs1 in HP1. by rewrite insert_id.
    + rewrite (f_posted _ _ Hf). apply Hd1.
Qed.

(** ** Requests that read *)

(** A session's view does not depend on who asks. *)
Lemma read_request server name tok (s : dynstore) {A} (none : A) (body : ptr → C dynstore A) :
  Inv s →
  (∀ st s1, Inv s1 → same_dicts s s1 → ∃ a, body st s1 = Some (a, s1)) →
  ∃ a s', (let* o := anySession server name tok in
     match o with None => ret none | Some r => let* st := session_store r in body st end) s = Some (a, s') ∧
    Inv s' ∧ same_dicts s s' ∧
    ∀ w tok', client s server w tok' → ∃ st s1, same_dicts s s1 ∧ Inv s1 ∧ body st s1 = Some (a, s1).
Proof.
  intros HI Hbody. destruct (anySession_client server name tok s HI) as (o & s1 & E1 & HI1 & Hd1 & _ & Ho).
  rewrite (bind_eq _ _ _ _ _ E1). destruct o as [r|].
  - destruct Ho as (S & tok' & st & P & Hr & _).
    rewrite (bind_eq _ _ _ _ _ (session_store_ref _ _ _ _ _ _ Hr)).
    destruct (Hbody st s1 HI1 Hd1) as [a E]. exists a, s1. rewrite E. split; [done|]. split; [done|].
    split; [done|]. eauto.
  - exists none, s1. split; [done|]. split; [done|]. split; [done|].
    intros w tok' Hcl. by destruct (Ho _ _ Hcl).
Qed.

(** The list a CopyKeyList gives: by prefix or by pattern. *)
Definition list_matches (V : view) (k : string) (isRegex : bool) (x : string) : Prop :=
  is_Some (V x).1 ∧ if isRegex then pattern_matches k x = true else has_prefix k x = true.

Lemma has_prefix_empty x : has_prefix EmptyString x = true.
Proof. by destruct x. Qed.

Lemma copyKeyList_spec st k isRegex (s : dynstore) :
  Core s → quiet s →
  ∃ r l, __SCDynamicStoreCopyKeyList st k isRegex s = Some ((r, l), s) ∧
    if isRegex && negb (is_some (patternCompile k)) then r = kSCStatusFailed ∧ l = []
    else r = kSCStatusOK ∧ NoDup l ∧ ∀ x, x ∈ l ↔ list_matches (view_of (storeData s)) k isRegex x.
Proof.
  intros HC Hq. unfold __SCDynamicStoreCopyKeyList. destruct isRegex; cbn [andb].
  - unfold patternCopyMatches, patternCopy. unfold bind at 1. unfold bind at 1, gets at 1.
    destruct (patternData s !! k) as [p|] eqn:Ep.
    + pose proof (k_regex _ _ _ (c_K _ HC) _ _ Ep) as Hre. exists kSCStatusOK, (p_keys p). split; [done|].
      rewrite Hre. cbn [is_some negb]. split; [done|].
      split; [by destruct (w_pats _ _ _ (c_W _ HC) _ _ Ep) as (_ & _ & ?)|].
      intros x. rewrite (k_keys _ _ _ (c_K _ HC) _ _ _ Ep), (q_D _ Hq). unfold list_matches, pattern_matches.
      rewrite Hre. cbn. rewrite Is_true_true. set_solver.
    + pose proof (patternNew_spec k s) as Hnew. unfold bind at 1. rewrite Hnew.
      destruct (patternCompile k) as [re|] eqn:Ec; cbn.
      * eexists _, _. split; [reflexivity|]. split; [done|].
        split; [apply NoDup_filter, cf_keys_NoDup|]. intros x.
        rewrite list_elem_of_filter, cf_keys_elem. unfold list_matches, pattern_matches. rewrite Ec, Is_true_true. cbn.
        split; [tauto|]. intros [Hd ?]. split; [done|]. destruct Hd as [v Hv]. unfold data_of in Hv.
        by destruct (storeData s !! x).
      * by eexists _, _.
  - unfold bind, gets, ret. eexists _, _. split; [reflexivity|]. split; [done|].
    split; [apply NoDup_filter, cf_keys_NoDup|]. intros x.
    rewrite list_elem_of_filter, cf_keys_elem. unfold list_matches. cbn [view_of fst]. unfold data_of.
    rewrite Is_true_true, andb_true_iff, orb_true_iff, String.eqb_eq.
    destruct (storeData s !! x) as [e|]; cbn.
    + split.
      * intros [[[->|?] He] _]; (split; [destruct (e_data e); [eauto|done]|]); [apply has_prefix_empty|done].
      * intros [[v ->] ?]. eauto.
    + split; [intros [[_ ?] _]; done|intros [[? [=]] _]].
Qed.

(** One key of a CopyMultiple. *)
Definition collect (d : gmap string entry) (m : gmap string (list byte)) (v : cftype) : gmap string (list byte) :=
  match v with
  | CFString k =>
      match data_of d k with
      | Some x => if decide (is_Some (m !! k)) then m else <[k := x]> m
      | None => m
      end
  | _ => m
  end.

Lemma addSpecificKeys_spec st (l : list cftype) dict (s : dynstore) :
  addSpecificKeys st l dict s = Some (foldl (collect (storeData s)) dict l, s).
Proof.
  revert dict. induction l as [|v l IH]; intros dict; [done|]. cbn [addSpecificKeys foldl].
  destruct v; cbn [addSpecificKey]; try (unfold bind at 1, ret at 1; apply IH).
  unfold bind at 1. rewrite (bind_eq _ _ _ _ _ (copyValue_spec st s0 s)). cbn [collect].
  destruct (data_of (storeData s) s0); apply IH.
Qed.

(** A dictionary of current values. *)
Definition current (V : view) (d : gmap string (list byte)) : Prop := ∀ k v, d !! k = Some v → (V k).1 = Some v.

Lemma collect_spec (d : gmap string entry) (l : list cftype) dict :
  current (view_of d) dict →
  current (view_of d) (foldl (collect d) dict l) ∧
  ∀ k, is_Some (foldl (collect d) dict l !! k) ↔ is_Some (dict !! k) ∨ CFString k ∈ l ∧ is_Some (data_of d k).
Proof.
  revert dict. induction l as [|v l IH]; intros dict Hd; cbn [foldl]; [split; [done|set_solver]|].
  assert (Hskip : (∀ k, v ≠ CFString k) → current (view_of d) (foldl (collect d) dict l) ∧
    ∀ k, is_Some (foldl (collect d) dict l !! k) ↔
      is_Some (dict !! k) ∨ CFString k ∈ v :: l ∧ is_Some (data_of d k)).
  { intros Hv. destruct (IH dict Hd) as [H1 H2]. split; [done|]. intros k. rewrite H2, elem_of_cons.
    specialize (Hv k). naive_solver. }
  destruct v as [x| | | | |]; cbn [collect]; try (by apply Hskip). clear Hskip.
  destruct (data_of d x) as [b|] eqn:Ex.
  - set (dict1 := if decide (is_Some (dict !! x)) then dict else <[x := b]> dict).
    assert (H1 : current (view_of d) dict1 ∧ ∀ k, is_Some (dict1 !! k) ↔ is_Some (dict !! k) ∨ k = x).
    { unfold dict1. case_decide as Hx; [split; [done|naive_solver]|]. split.
      - intros k v [[<- <-]|[? ?]]%lookup_insert_Some; [done|by apply Hd].
      - intros k. rewrite lookup_insert_is_Some'. naive_solver. }
    destruct H1 as [Hc H1]. destruct (IH dict1 Hc) as [H2 H3]. split; [done|]. intros k.
    rewrite H3, H1, elem_of_cons. split.
    + intros [[?| ->]|[? ?]]; [by left|right; split; [by left|eauto]|right; split; [by right|done]].
    + intros [?|[[[= ->]|?] ?]]; [by left; left|by left; right|by right].
  - destruct (IH dict Hd) as [H1 H2]. split; [done|]. intros k. rewrite H2, elem_of_cons. split.
    + intros [?|[? ?]]; [by left|right; split; [by right|done]].
    + intros [?|[[[= ->]|?] [? ?]]]; [by left|congruence|right; split; [done|eauto]].
Qed.

Lemma addSpecificPatterns_spec st (l : list cftype) dict (s : dynstore) :
  Core s → quiet s → current (view_of (storeData s)) dict →
  ∃ dict', addSpecificPatterns st l dict s = Some (dict', s) ∧ current (view_of (storeData s)) dict' ∧
    ∀ k, is_Some (dict' !! k) ↔ is_Some (dict !! k) ∨
      ∃ p, CFString p ∈ l ∧ list_matches (view_of (storeData s)) p true k.
Proof.
  intros HC Hq. revert dict. induction l as [|v l IH]; intros dict Hd; cbn [addSpecificPatterns].
  { exists dict. split; [done|]. split; [done|]. intros k. split; [by left|]. intros [?|(p & ? & _)]; set_solver. }
  assert (Hstep : ∃ dict1, addSpecificPattern st v dict s = Some (dict1, s) ∧
    current (view_of (storeData s)) dict1 ∧
    ∀ k, is_Some (dict1 !! k) ↔ is_Some (dict !! k) ∨
      ∃ p, v = CFString p ∧ list_matches (view_of (storeData s)) p true k).
  { destruct v as [p| | | | |]; cbn [addSpecificPattern]; try (exists dict; naive_solver).
    destruct (copyKeyList_spec st p true s HC Hq) as (r & ks & E & Hks). rewrite (bind_eq _ _ _ _ _ E).
    cbn [andb] in Hks. destruct (patternCompile p) as [re|] eqn:Ec; cbn [is_some negb] in Hks.
    - destruct Hks as (-> & _ & Hks). change (kSCStatusOK =? kSCStatusOK) with true. cbv iota.
      rewrite addSpecificKeys_spec. eexists. split; [reflexivity|].
      destruct (collect_spec (storeData s) (CFString <$> ks) dict Hd) as [H1 H2]. split; [done|].
      intros k. rewrite H2, list_elem_of_fmap. split.
      + intros [?|[(k' & [= <-] & Hk%Hks) _]]; [by left|]. right. eauto.
      + intros [?|(p' & [= <-] & Hm)]; [by left|]. right. split; [|apply Hm]. exists k. split; [done|]. by apply Hks.
    - destruct Hks as [-> ->]. exists dict. split; [done|]. split; [done|]. intros k. split; [by left|].
      intros [?|(p' & [= <-] & _ & Hm)]; [done|]. unfold pattern_matches in Hm. by rewrite Ec in Hm. }
  destruct Hstep as (dict1 & E1 & Hd1 & H1). rewrite (bind_eq _ _ _ _ _ E1).
  destruct (IH dict1 Hd1) as (dict2 & E2 & Hd2 & H2). exists dict2. split; [done|]. split; [done|].
  intros k. rewrite H2, H1. split.
  - intros [[?|(p & -> & ?)]|(p & ? & ?)]; [by left|right; exists p; split; [left|done]|].
    right. exists p. split; [by right|done].
  - intros [?|(p & [<-|?]%elem_of_cons & ?)]; [by left; left|left; right; eauto|right; eauto].
Qed.

Lemma copyMultiple_spec st keys patterns (s : dynstore) :
  Core s → quiet s →
  ∃ d, __SCDynamicStoreCopyMultiple st keys patterns s = Some ((kSCStatusOK, d), s) ∧
    ∀ k v, d !! k = Some v ↔ data_of (storeData s) k = Some v ∧
      (CFString k ∈ default [] keys ∨ ∃ p, CFString p ∈ default [] patterns ∧ pattern_matches p k = true).
Proof.
  intros HC Hq. unfold __SCDynamicStoreCopyMultiple. rewrite (bind_eq _ _ _ _ _ (addSpecificKeys_spec st _ _ s)).
  destruct (collect_spec (storeData s) (default [] keys) ∅) as [Hd1 H1]; [by intros k v ?%lookup_empty_Some|].
  destruct (addSpecificPatterns_spec st (default [] patterns) _ s HC Hq Hd1) as (d & E & Hd & H2).
  rewrite (bind_eq _ _ _ _ _ E). exists d. split; [done|]. intros k v.
  assert (Hin : is_Some (d !! k) ↔ is_Some (data_of (storeData s) k) ∧
    (CFString k ∈ default [] keys ∨ ∃ p, CFString p ∈ default [] patterns ∧ pattern_matches p k = true)).
  { rewrite H2, H1, lookup_empty. unfold list_matches. cbn [view_of fst]. split.
    - intros [[[? [=]]|[? ?]]|(p & ? & ? & ?)]; [tauto|]. split; [done|]. eauto.
    - intros [? [?|(p & ? & ?)]]; [by left; right|right; eauto]. }
  split.
  - intros Hk. split; [by apply Hd in Hk|]. apply Hin. eauto.
  - intros [Hv Hk]. destruct (proj2 Hin) as [v' Hv']; [eauto|]. rewrite Hv'. apply Hd in Hv'. cbn in Hv'. congruence.
Qed.

(** ** Requests that watch *)

(** The handlers of a session's own requests start with the session. *)
Lemma own_session server (s : dynstore) {A} (none : A) (body : nat → C dynstore A) :
  Inv s →
  (∀ i S st P, session_at s i S st P → ∃ a s', body i s = Some (a, s') ∧ Inv s') →
  ∃ a s', (let* o := getSession server in match o with None => ret none | Some i => body i end) s = Some (a, s') ∧
    Inv s'.
Proof.
  intros HI Hbody. destruct (getSession_spec s server (v_sess _ HI)) as (o & E & Ho).
  rewrite (bind_eq _ _ _ _ _ E). destruct o as [i|]; [|by exists none, s].
  destruct Ho as (S & st & P & Hat & _). by eapply Hbody.
Qed.

Lemma session_at_store (s : dynstore) i S st P : session_at s i S st P → session_store (Slot i) s = Some (st, s).
Proof. intros (Hi & _ & Hs & _). by apply (session_store_eq _ _ S). Qed.

Lemma session_at_open (s : dynstore) i S st P :
  session_at s i S st P → stores s !! st = Some P ∧ st_server P ≠ 0.
Proof. intros (_ & _ & _ & ? & ? & ?). split; [done|lia]. Qed.

Section one_session.
Context (s : dynstore) (i : nat) (S : serverSession) (st : ptr) (P : SCDynamicStorePrivate).
Context (HI : Inv s) (Hat : session_at s i S st P).

Lemma notifyadd_own k isRegex :
  ∃ s', (let* st := session_store (Slot i) in __SCDynamicStoreAddWatchedKey st k isRegex) s =
      Some ((spec_watch isRegex k P).1, s') ∧ Inv s' ∧ relisted st P (spec_watch isRegex k P).2 s s'.
Proof.
  rewrite (bind_eq _ _ _ _ _ (session_at_store _ _ _ _ _ Hat)).
  destruct (session_at_open _ _ _ _ _ Hat) as [HP H0].
  destruct (addWatchedKey_spec st k isRegex P s) as (s' & E & Hrw); [apply HI|apply HI|done|done|].
  assert (Hrel : relisted st P (spec_watch isRegex k P).2 s s') by (split; [done|apply spec_watch_lists]).
  exists s'. split; [exact E|]. split; [by eapply relisted_Inv|done].
Qed.

Lemma notifyremove_own k isRegex :
  ∃ s', (let* st := session_store (Slot i) in __SCDynamicStoreRemoveWatchedKey st k isRegex) s =
      Some ((spec_unwatch isRegex k P).1, s') ∧ Inv s' ∧ relisted st P (spec_unwatch isRegex k P).2 s s'.
Proof.
  rewrite (bind_eq _ _ _ _ _ (session_at_store _ _ _ _ _ Hat)).
  destruct (session_at_open _ _ _ _ _ Hat) as [HP H0].
  destruct (removeWatchedKey_spec st k isRegex P s) as (s' & E & Hrw); [apply HI|apply HI|done|done|].
  assert (Hrel : relisted st P (spec_unwatch isRegex k P).2 s s') by (split; [done|apply spec_unwatch_lists]).
  exists s'. split; [exact E|]. split; [by eapply relisted_Inv|done].
Qed.

Lemma strings_of_spec l ks : l = cfstrings ks → strings_of l s = Some (ks, s).
Proof.
  intros ->. destruct ks as [ks|]; [|done]. cbn [cfstrings strings_of].
  assert (mapM (λ v, match v with CFString s => Some s | _ => None end) (CFString <$> ks) = Some ks) as ->; [|done].
  induction ks as [|k ks IH]; [done|]. cbn. by rewrite IH.
Qed.

Lemma notifyset_own keys patterns :
  let rP := spec_set_keys (default [] keys) (default [] patterns) P in
  ∃ s', (let* st := session_store (Slot i) in
         let* keys := strings_of (cfstrings keys) in
         let* patterns := strings_of (cfstrings patterns) in
         __SCDynamicStoreSetNotificationKeys st keys patterns) s = Some (rP.1, s') ∧ Inv s' ∧ relisted st P rP.2 s s'.
Proof.
  intros rP. rewrite (bind_eq _ _ _ _ _ (session_at_store _ _ _ _ _ Hat)).
  destruct (session_at_open _ _ _ _ _ Hat) as [HP H0].
  rewrite !(bind_eq _ _ _ _ _ (strings_of_spec _ _ eq_refl)).
  destruct (setNotificationKeys_spec st keys patterns P s) as (s' & E & Hrel); [apply HI|apply HI|done|done|].
  exists s'. split; [exact E|]. split; [by eapply relisted_Inv|done].
Qed.

Lemma notifychanges_own :
  ∃ sd, (let* st := session_store (Slot i) in __SCDynamicStoreCopyNotifiedKeys st) s =
      Some ((kSCStatusOK, changes (sessionData s) (num_of P)), set_sessionData sd s) ∧
    Inv (set_sessionData sd s) ∧
    ∀ n, changes sd n = if decide (n = num_of P) then [] else changes (sessionData s) n.
Proof.
  rewrite (bind_eq _ _ _ _ _ (session_at_store _ _ _ _ _ Hat)).
  destruct (session_at_open _ _ _ _ _ Hat) as [HP H0]. by apply copyNotifiedKeys_spec.
Qed.

Lemma notifycancel_own :
  ∃ s', (let* st := session_store (Slot i) in __SCDynamicStoreNotifyCancel st) s = Some (kSCStatusOK, s') ∧ Inv s' ∧
    s' = set_needsNotification (needsNotification s') (set_stores (<[st := cancelled P]> (stores s)) (next_store s) s) ∧
    pending s' = pending s ∖ {[num_of P]}.
Proof.
  rewrite (bind_eq _ _ _ _ _ (session_at_store _ _ _ _ _ Hat)).
  destruct (session_at_open _ _ _ _ _ Hat) as [HP H0]. by apply notifyCancel_spec.
Qed.

(** Registering for notifications: the store remembers how, and is told at once
    of changes that wait. *)
Lemma register_own P' (b : bool) err (m : ptr → C dynstore Z) f :
  m st s = (if b then (kick_if_pending P ;; ret kSCStatusOK) s else Some (err, s)) → err ≠ kSCStatusOK →
  f P = P' → neutral P P' → keys_of P' = keys_of P → pats_of P' = pats_of P →
  (∀ j S1, sessions s !! j = Some (Some S1) → (0 < j)%nat → st_notifySignalTask P' ≠ s_key S1) →
  ∃ s', (let* sc_status := m st in
         if negb (sc_status =? kSCStatusOK) then ret sc_status else upd_store st f ;; ret sc_status) s
      = Some (if b then kSCStatusOK else err, s') ∧ Inv s' ∧
    if b then
      s' = set_needsNotification (needsNotification s') (set_stores (<[st := P']> (stores s)) (next_store s) s) ∧
      ∀ n, n ∈ pending s' ↔ n ∈ pending s ∨ n = num_of P ∧ changes (sessionData s) (num_of P) ≠ []
    else s' = s.
Proof.
  intros Hm Herr Hf Hn Hk Hp Ht. destruct (session_at_open _ _ _ _ _ Hat) as [HP H0]. destruct b.
  - destruct (kick_spec st P s HI HP H0) as (X & Ek & HIk & HX).
    rewrite (bind_eq _ _ _ _ _ Ek) in Hm. rewrite (bind_eq _ _ _ _ _ Hm).
    change (negb (kSCStatusOK =? kSCStatusOK)) with false. cbv iota.
    rewrite (bind_eq _ _ _ _ _ (upd_store_eq st f P (set_needsNotification X s) HP)), Hf.
    eexists. split; [reflexivity|]. split; [by apply (Inv_upd (set_needsNotification X s) st P)|]. done.
  - rewrite (bind_eq _ _ _ _ _ Hm). rewrite (proj2 (Z.eqb_neq _ _)) by done. by exists s.
Qed.

Lemma registered_values P' (b : bool) (s' : dynstore) :
  (if b then
      s' = set_needsNotification (needsNotification s') (set_stores (<[st := P']> (stores s)) (next_store s) s) ∧
      ∀ n, n ∈ pending s' ↔ n ∈ pending s ∨ n = num_of P ∧ changes (sessionData s) (num_of P) ≠ []
    else s' = s) → storeData s' = storeData s.
Proof. destruct b; [|by intros ->]. intros [H _]. by rewrite H. Qed.

Lemma notifyMachPort_eq identifier port :
  stores s !! st = Some P →
  __SCDynamicStoreNotifyMachPort st identifier port s =
    let err := if negb (bool_decide (st_notifyStatus P = NotifierNotRegistered)) then kSCStatusNotifierActive
               else kSCStatusInvalidArgument in
    if bool_decide (st_notifyStatus P = NotifierNotRegistered) && (identifier =? 0) && negb (port =? MACH_PORT_NULL)
    then (kick_if_pending P ;; ret kSCStatusOK) s else Some (err, s).
Proof.
  intros HP. unfold __SCDynamicStoreNotifyMachPort. rewrite (bind_eq _ _ _ _ _ (load_store_eq _ _ _ HP)).
  destruct (bool_decide _), (identifier =? 0), (port =? MACH_PORT_NULL); done.
Qed.

Lemma notifyFileDescriptor_eq :
  stores s !! st = Some P →
  __SCDynamicStoreNotifyFileDescriptor st s =
    if bool_decide (st_notifyStatus P = NotifierNotRegistered)
    then (kick_if_pending P ;; ret kSCStatusOK) s else Some (kSCStatusNotifierActive, s).
Proof.
  intros HP. unfold __SCDynamicStoreNotifyFileDescriptor. rewrite (bind_eq _ _ _ _ _ (load_store_eq _ _ _ HP)).
  by destruct (bool_decide _).
Qed.

Lemma notifySignal_eq pid sig :
  stores s !! st = Some P →
  __SCDynamicStoreNotifySignal st pid sig s =
    let err := if negb (bool_decide (st_notifyStatus P = NotifierNotRegistered)) then kSCStatusNotifierActive
               else kSCStatusInvalidArgument in
    if bool_decide (st_notifyStatus P = NotifierNotRegistered) && negb (pid =? m_getpid) &&
       negb ((sig <=? 0) || (NSIG <? sig))
    then (kick_if_pending P ;; ret kSCStatusOK) s else Some (err, s).
Proof.
  intros HP. unfold __SCDynamicStoreNotifySignal. rewrite (bind_eq _ _ _ _ _ (load_store_eq _ _ _ HP)).
  destruct (bool_decide _), (pid =? m_getpid), ((sig <=? 0) || (NSIG <? sig)); done.
Qed.

Lemma task_kept : ∀ j S1, sessions s !! j = Some (Some S1) → (0 < j)%nat → st_notifySignalTask P ≠ s_key S1.
Proof.
  intros j S1. destruct (session_at_open _ _ _ _ _ Hat) as [HP _]. by apply (s_tasks _ (v_sess _ HI) st P).
Qed.

Definition via_port (port : Z) (P : SCDynamicStorePrivate) : SCDynamicStorePrivate :=
  st_with_port port (st_notifyPortIdentifier P) (st_with_status Using_NotifierInformViaMachPort P).

Lemma notifyviaport_own port identifier :
  let b := bool_decide (st_notifyStatus P = NotifierNotRegistered) && (identifier =? 0) && negb (port =? MACH_PORT_NULL) in
  ∃ r s', (let* st := session_store (Slot i) in
           let* sc_status := __SCDynamicStoreNotifyMachPort st identifier port in
           if negb (sc_status =? kSCStatusOK) then ret sc_status else
           upd_store st (via_port port) ;; ret sc_status) s = Some (r, s') ∧ Inv s' ∧
    if b then
      r = kSCStatusOK ∧
      s' = set_needsNotification (needsNotification s') (set_stores (<[st := via_port port P]> (stores s)) (next_store s) s) ∧
      ∀ n, n ∈ pending s' ↔ n ∈ pending s ∨ n = num_of P ∧ changes (sessionData s) (num_of P) ≠ []
    else r ≠ kSCStatusOK ∧ s' = s.
Proof.
  intros b. rewrite (bind_eq _ _ _ _ _ (session_at_store _ _ _ _ _ Hat)).
  destruct (session_at_open _ _ _ _ _ Hat) as [HP H0].
  set (err := if negb (bool_decide (st_notifyStatus P = NotifierNotRegistered)) then kSCStatusNotifierActive
               else kSCStatusInvalidArgument).
  destruct (register_own (via_port port P) b err (λ st, __SCDynamicStoreNotifyMachPort st identifier port) (via_port port))
    as (s' & E & HI' & Hs'); [by apply notifyMachPort_eq|unfold err; by case_match|done|split; [done|by left]|done|done|
      apply task_kept|].
  eexists _, s'. split; [exact E|]. split; [done|]. destruct b; [done|]. split; [|done]. unfold err. by case_match.
Qed.

Lemma notifyviafd_own fd identifier :
  ∃ r s', (let* st := session_store (Slot i) in
           let* sc_status := __SCDynamicStoreNotifyFileDescriptor st in
           if negb (sc_status =? kSCStatusOK) then ret sc_status else
           upd_store st (λ P, st_with_file fd identifier (st_with_status Using_NotifierInformViaFD P)) ;;
           ret sc_status) s = Some (r, s') ∧ Inv s' ∧ storeData s' = storeData s.
Proof.
  rewrite (bind_eq _ _ _ _ _ (session_at_store _ _ _ _ _ Hat)).
  destruct (session_at_open _ _ _ _ _ Hat) as [HP H0].
  set (f := λ P, st_with_file fd identifier (st_with_status Using_NotifierInformViaFD P)).
  destruct (register_own (f P) (bool_decide (st_notifyStatus P = NotifierNotRegistered)) kSCStatusNotifierActive
    __SCDynamicStoreNotifyFileDescriptor f)
    as (s' & E & HI' & Hs'); [by apply notifyFileDescriptor_eq|done|done|split; [done|by left]|done|done|apply task_kept|].
  eexists _, s'. split; [exact E|]. split; [done|]. by eapply registered_values.
Qed.

(** A task port that a client sends is not the port of a session. *)
Definition task_ok (task : Z) : Prop :=
  ∀ j S1, sessions s !! j = Some (Some S1) → (0 < j)%nat → task ≠ s_key S1.

Lemma notifyviasignal_own pid task sig :
  task_ok task →
  ∃ r s', (let* sc_status := __SCDynamicStoreNotifySignal st pid sig in
           if negb (sc_status =? kSCStatusOK) then ret sc_status else
           upd_store st (λ P, st_with_signal sig task (st_with_status Using_NotifierInformViaSignal P)) ;;
           ret sc_status) s = Some (r, s') ∧ Inv s' ∧ storeData s' = storeData s.
Proof.
  intros Ht. destruct (session_at_open _ _ _ _ _ Hat) as [HP H0].
  set (f := λ P, st_with_signal sig task (st_with_status Using_NotifierInformViaSignal P)).
  set (b := bool_decide (st_notifyStatus P = NotifierNotRegistered) && negb (pid =? m_getpid) &&
       negb ((sig <=? 0) || (NSIG <? sig))).
  set (err := if negb (bool_decide (st_notifyStatus P = NotifierNotRegistered)) then kSCStatusNotifierActive
               else kSCStatusInvalidArgument).
  destruct (register_own (f P) b err (λ st, __SCDynamicStoreNotifySignal st pid sig) f)
    as (s' & E & HI' & Hs'); [by apply notifySignal_eq|unfold err; by case_match|done|split; [done|by left]|done|done|
      exact Ht|].
  eexists _, s'. split; [exact E|]. split; [done|]. by eapply registered_values.
Qed.

End one_session.

End req.
