(* ===== verification/StoreDemux.v ===== *)
(** * Every message is answered

    For every message of a client there is an answer, the invariant holds again,
    and a value that changed was written by a sender with the right to do so. *)

From S2P Require Import Prelude StoreTypes StoreInv StorePat StoreOps StoreCore StoreValue.
From S2P Require Import StoreServer StoreSess StoreNotify StoreLife StoreReq.
Local Open Scope c_scope.
Local Open Scope Z_scope.

Section demux.
Context {RL : RegexLib} {CO : CFOrder} {MK : MachKernel}.

(** ** What a request may change *)

(** A specification changes the values of the keys it is for. *)
Definition within (spec : write_spec) (ks : list string) : Prop :=
  ∀ w V k, k ∉ ks → (spec w V).1.2 k = V k.

Lemma spec_set_within w k v V k' : k' ≠ k → spec_set w k v V k' = V k'.
Proof. intros. unfold spec_set. case_match; [done|]. by rewrite decide_False. Qed.
Lemma spec_remove_within k V k' : k' ≠ k → spec_remove k V k' = V k'.
Proof. intros. unfold spec_remove. by rewrite decide_False. Qed.
Lemma spec_notify_within w k V k' : k' ≠ k → spec_notify w k V k' = V k'.
Proof.
  intros Hne. unfold spec_notify. case_match; [by apply spec_set_within|].
  by rewrite spec_remove_within, spec_set_within.
Qed.

Lemma set_within k v : within (set_spec k v) [k].
Proof.
  intros w V k' Hk. assert (k' ≠ k) by set_solver. unfold set_spec. case_match; [done|]. by apply spec_set_within.
Qed.
Lemma add_within k v f : within (λ w, add_spec k v (f w)) [k].
Proof.
  intros w V k' Hk. assert (k' ≠ k) by set_solver. unfold add_spec. case_match; [done|]. by apply spec_set_within.
Qed.
Lemma remove_within k : within (remove_spec k) [k].
Proof.
  intros w V k' Hk. assert (k' ≠ k) by set_solver. unfold remove_spec. case_match; [|done]. by apply spec_remove_within.
Qed.
Lemma notify_within k : within (notify_spec k) [k].
Proof. intros w V k' Hk. assert (k' ≠ k) by set_solver. by apply spec_notify_within. Qed.

Lemma draft_within {X} (step : draft → X → draft) (key : X → option string) l (d : draft) k :
  (∀ d x, key x ≠ Some k → (step d x).1 k = d.1 k) → (∀ x, x ∈ l → key x ≠ Some k) →
  (foldl step d l).1 k = d.1 k.
Proof.
  intros Hstep. revert d. induction l as [|x l IH]; intros d Hl; [done|]. cbn [foldl].
  rewrite IH, Hstep; [done|apply Hl; left|]. intros y Hy. apply Hl. by right.
Qed.

Lemma multiple_within kvs rem notif :
  within (multiple_spec kvs rem notif) (kvs.*1 ++ rem ++ notif).
Proof.
  intros w V k Hk. rewrite !elem_of_app in Hk. cbn [multiple_spec fst snd]. unfold spec_multiple.
  set (key := λ v, match v with CFString k => Some k | _ => None end).
  assert (Hkey : ∀ (l : list string) v, k ∉ l → v ∈ CFString <$> l → key v ≠ Some k).
  { intros l v Hl (k' & -> & Hk')%list_elem_of_fmap. cbn. congruence. }
  rewrite (draft_within _ key).
  - rewrite (draft_within _ key).
    + rewrite (draft_within _ (λ kv : string * cftype, Some kv.1)); [done| |].
      * intros d [k' v] Hne. cbn in Hne. destruct v; try done. apply spec_set_within. congruence.
      * intros [k' v] Hkv [= ->]. apply Hk. left. apply list_elem_of_fmap. by exists (k, v).
    + intros d v Hne. destruct v; try done. apply spec_remove_within. cbn in Hne. congruence.
    + intros v. apply Hkey. tauto.
  - intros d v Hne. destruct v; try done. apply spec_notify_within. cbn in Hne. congruence.
  - intros v. apply Hkey. tauto.
Qed.

(** A value that changes was written by a sender with the right to write it. *)
Lemma guarded_change spec tok ks w V (V' : view) k :
  within spec ks → V' ≡ (guarded spec tok ks w V).1.2 → V' k ≠ V k → k ∈ ks ∧ may_write tok k = true.
Proof.
  intros Hw HV Hne. rewrite (HV k) in Hne. unfold guarded in Hne.
  destruct (forallb (may_write tok) ks) eqn:E; [|done].
  assert (Hk : k ∈ ks) by (destruct (decide (k ∈ ks)); [done|by rewrite Hw in Hne]). split; [done|].
  rewrite forallb_forall in E. apply E. by apply list_elem_of_In.
Qed.


(** What the model asks of a message: the arrays of keys hold strings, the task
    port is not one of configd's own, there is a port for a new session, the no-senders
    request for it succeeds, and a send right can be inserted or the session has a slot
    that was used before. *)
Definition well_formed (s : dynstore) (m : message) : Prop :=
  match m with
  | ConfigOpen _ _ _ insert_ok notify_ok _ =>
      notify_ok = true ∧ is_Some (m_port (ports_in_use s)) ∧ may_insert s insert_ok
  | ConfigSetM _ _ rem notif _ =>
      (∀ l, array_arg rem = inr (Some l) → is_Some (strings l)) ∧
      (∀ l, array_arg notif = inr (Some l) → is_Some (strings l))
  | NotifySet _ keys pats =>
      (∀ l, array_arg keys = inr (Some l) → is_Some (strings l)) ∧
      (∀ l, array_arg pats = inr (Some l) → is_Some (strings l))
  | NotifyViaSignal _ task _ => task_ok s task
  | _ => True
  end.

Lemma array_strings a o :
  array_arg a = inr o → (∀ l, array_arg a = inr (Some l) → is_Some (strings l)) → ∃ ks, o = cfstrings ks.
Proof.
  intros Ha Hs. destruct o as [l|]; [|by exists None]. destruct (Hs l Ha) as [ks Hks].
  exists (Some ks). cbn. by rewrite (strings_map _ _ Hks).
Qed.

(** The reasons for a value or its owner to change. *)
Definition may_change (s : dynstore) (m : message) (k : string) : Prop :=
  match m with
  | ConfigSet server _ _ tok | ConfigAdd server _ _ tok | ConfigRemove server _ tok
  | ConfigNotify server _ tok | ConfigSetM server _ _ _ tok =>
      ∃ tok', sender s server (Some tok) = Some tok' ∧ may_write tok' k = true
  | ConfigAddS server _ _ => ∃ tok', sender s server None = Some tok' ∧ may_write tok' k = true
  | NoSenders port => owner_of (storeData s) k = Some (session_key port)
  | _ => False
  end.

(** [m] answers, and changes the values of keys in [J] only. *)
Definition handled {A} (J : string → Prop) (m : C dynstore A) (s : dynstore) : Prop :=
  ∃ a s', m s = Some (a, s') ∧ Inv s' ∧ ∀ k, view_of (storeData s') k ≠ view_of (storeData s) k → J k.

Lemma handled_values {A} J (m : C dynstore A) (s : dynstore) a s' :
  m s = Some (a, s') → Inv s' → view_of (storeData s') ≡ view_of (storeData s) → handled J m s.
Proof. intros E HI HV. exists a, s'. split; [done|]. split; [done|]. intros k Hk. by destruct Hk. Qed.

Lemma handled_ret {A} J (a : A) (s : dynstore) : Inv s → handled J (ret a) s.
Proof. intros HI. by apply (handled_values J _ s a s). Qed.

Lemma handled_map {A B} J (m : C dynstore A) (f : A → B) (s : dynstore) :
  handled J m s → handled J (let* a := m in ret (f a)) s.
Proof. intros (a & s' & E & HI & HJ). exists (f a), s'. by rewrite (bind_eq _ _ _ _ _ E). Qed.

Lemma handled_pair {A B} J (m : C dynstore (Z * A)) (f : Z → A → B) (s : dynstore) :
  handled J m s → handled J (let* ' (r, a) := m in ret (f r a)) s.
Proof. intros ([r a] & s' & E & HI & HJ). exists (f r a), s'. by rewrite (bind_eq _ _ _ _ _ E). Qed.

Lemma handled_own {A} J server (none : A) (body : nat → C dynstore A) (s : dynstore) :
  Inv s → (∀ i S st P, session_at s i S st P → handled J (body i) s) →
  handled J (let* o := getSession server in match o with None => ret none | Some i => body i end) s.
Proof.
  intros HI Hbody. destruct (getSession_spec s server (v_sess _ HI)) as (o & E & Ho).
  unfold handled. rewrite (bind_eq _ _ _ _ _ E). destruct o as [i|]; [|by apply handled_ret].
  destruct Ho as (S & st & P & Hat & _). by eapply Hbody.
Qed.

Lemma handled_requested spec ks server tok (h : C dynstore Z) r (s s' : dynstore) :
  within spec ks → h s = Some (r, s') → Inv s' → requested spec ks server tok r s s' →
  handled (λ k, ∃ tok', sender s server tok = Some tok' ∧ may_write tok' k = true) h s.
Proof.
  intros Hw E HI [Hreq _]. exists r, s'. split; [done|]. split; [done|]. intros k Hne.
  destruct Hreq as [[_ Ho]|(w & tok' & Hs & [_ Ho])]; [destruct Hne; apply (oc_view _ _ _ _ Ho)|].
  exists tok'. split; [done|]. by eapply guarded_change; [|apply (oc_view _ _ _ _ Ho)|].
Qed.

Lemma handled_write server name k tok body spec (s : dynstore) :
  implements body spec → within spec [k] → Inv s →
  handled (λ k, ∃ tok', sender s server (Some tok) = Some tok' ∧ may_write tok' k = true)
    (write_request server name k tok body) s.
Proof.
  intros Hb Hw HI. destruct (write_request_spec server name k tok body spec s Hb HI) as (r & s' & E & HI' & Hr).
  by eapply handled_requested.
Qed.

Lemma handled_read {A} J server name tok (none : A) (body : ptr → C dynstore A) (s : dynstore) :
  Inv s → (∀ st s1, Inv s1 → same_dicts s s1 → ∃ a, body st s1 = Some (a, s1)) →
  handled J (let* o := anySession server name tok in
     match o with None => ret none | Some r => let* st := session_store r in body st end) s.
Proof.
  intros HI Hb. destruct (read_request server name tok s none body HI Hb) as (a & s' & E & HI' & Hd & _).
  eapply handled_values; [done..|]. by rewrite (sd_data _ _ Hd).
Qed.

Lemma relisted_values st P P' (s s' : dynstore) :
  relisted st P P' s s' → view_of (storeData s') ≡ view_of (storeData s).
Proof. intros [Hrw _] k. destruct (rw_values _ _ _ _ Hrw) as [Hd Ho]. unfold view_of. by rewrite Hd, Ho. Qed.

Lemma handled_setm J server dict rem notif tok (s : dynstore) :
  Inv s →
  (∀ l, array_arg rem = inr (Some l) → is_Some (strings l)) →
  (∀ l, array_arg notif = inr (Some l) → is_Some (strings l)) →
  (∀ k, (∃ tok', sender s server (Some tok) = Some tok' ∧ may_write tok' k = true) → J k) →
  handled J (_configset_m server dict rem notif tok) s.
Proof.
  intros HI Hr Hn HJ. destruct (dict_arg dict) as [e|d] eqn:Ed, (array_arg rem) as [e1|o1] eqn:E1,
    (array_arg notif) as [e2|o2] eqn:E2;
    try (unfold _configset_m; rewrite Ed, E1, E2; by apply handled_ret).
  destruct (array_strings _ _ E1) as [ks1 ->]; [by rewrite E1|].
  destruct (array_strings _ _ E2) as [ks2 ->]; [by rewrite E2|].
  destruct (configset_m_spec server dict rem notif ks1 ks2 tok s d HI Ed E1 E2) as (r & s' & E & HI' & Hreq).
  destruct (handled_requested _ _ _ _ _ _ _ _ (multiple_within _ _ _) E HI' Hreq) as (a & s2 & E2' & HI2 & Hk).
  exists a, s2. split; [done|]. split; [done|]. intros k Hne. by apply HJ, Hk.
Qed.

Lemma handled_notifyset J server keys patterns (s : dynstore) :
  Inv s →
  (∀ l, array_arg keys = inr (Some l) → is_Some (strings l)) →
  (∀ l, array_arg patterns = inr (Some l) → is_Some (strings l)) →
  handled J (_notifyset server keys patterns) s.
Proof.
  intros HI Hr Hn. unfold _notifyset. destruct (array_arg keys) as [e1|o1] eqn:E1,
    (array_arg patterns) as [e2|o2] eqn:E2; try by apply handled_ret.
  destruct (array_strings keys o1) as [ks1 ->]; [done|by rewrite E1|].
  destruct (array_strings patterns o2) as [ks2 ->]; [done|by rewrite E2|].
  apply handled_own; [done|]. intros i S st P Hat.
  destruct (notifyset_own s i S st P HI Hat ks1 ks2) as (s' & E & HI' & Hrel).
  eapply handled_values; [done..|]. by eapply relisted_values.
Qed.

Lemma handled_viafd J server fd identifier (s : dynstore) :
  Inv s → handled J (_notifyviafd server fd identifier) s.
Proof.
  intros HI. unfold _notifyviafd. destruct fd as [e|fd].
  - destruct (getSession_spec s server (v_sess _ HI)) as (o & E & _). unfold handled.
    rewrite (bind_eq _ _ _ _ _ E). by apply handled_ret.
  - apply handled_own; [done|]. intros i S st P Hat.
    destruct (notifyviafd_own s i S st P HI Hat fd identifier) as (r & s' & E & HI' & Hd).
    eapply handled_values; [done..|]. by rewrite Hd.
Qed.

Lemma handled_viasignal J server task sig (s : dynstore) :
  Inv s → task_ok s task → handled J (_notifyviasignal server task sig) s.
Proof.
  intros HI Ht. unfold _notifyviasignal. apply handled_own; [done|]. intros i S st P Hat.
  unfold handled. rewrite (bind_eq _ _ _ _ _ (session_at_store _ _ _ _ _ Hat)).
  destruct (task =? TASK_NULL); [by apply handled_ret|]. unfold bind at 1, gets at 1.
  destruct (m_pid_for_task _ task) as [pid|]; [|by apply handled_ret].
  destruct (notifyviasignal_own s i S st P HI Hat pid task sig Ht) as (r & s' & E & HI' & Hd).
  eapply handled_values; [done..|]. by rewrite Hd.
Qed.

Lemma handled_nosenders port (s : dynstore) :
  Inv s → handled (λ k, owner_of (storeData s) k = Some (session_key port)) (notify_server_no_senders port) s.
Proof.
  intros HI. unfold notify_server_no_senders.
  assert (Hnone : (∀ i S st P, session_at s i S st P → s_key S ≠ port) →
    handled (λ k, owner_of (storeData s) k = Some (session_key port)) (cleanupSession port) s).
  { intros Hno. apply (handled_values _ _ s tt s); [|done|done]. apply cleanupSession_none; [apply HI|done]. }
  destruct (getSession_spec s port (v_sess _ HI)) as (o & E & Ho). destruct o as [i|]; [|by apply Hnone].
  destruct Ho as (S & st & P & Hat & [<-|Hno]); [|by apply Hnone].
  destruct (cleanupSession_spec s i S st P HI Hat) as (s1 & E1 & Hcl & HI1).
  eexists tt, _. split; [exact E1|]. split; [done|]. intros k Hne. cbn [set_sessions storeData] in Hne.
  rewrite (cl_view _ _ _ _ Hcl) in Hne. destruct Hat as (_ & _ & _ & _ & Hsrv & _).
  unfold session_key. rewrite <-Hsrv. case_decide as Hk; [exact Hk|done].
Qed.

Lemma config_demux_ok m (s : dynstore) :
  Inv s → well_formed s m → handled (may_change s m) (config_demux m) s.
Proof.
  intros HI Hm.
  assert (Hbad : ∀ J r, handled J (ret r : C dynstore Z) s) by (intros; by apply handled_ret).
  destruct m; cbn [config_demux well_formed may_change] in *; unfold status_reply.
  - destruct Hm as (-> & Hport & Hins). pose proof (configopen_spec server name options insert_ok token s HI Hport Hins) as Ho.
    unfold handled. destruct (open_error name options); [rewrite (bind_eq _ _ _ _ _ Ho); by apply handled_ret|].
    destruct Ho as [[_ E]|(_ & _ & i & S & st & P & nm & s' & E & Ho & _)]; rewrite (bind_eq _ _ _ _ _ E).
    + by apply handled_ret.
    + eexists _, s'. split; [done|]. split; [by eapply opens_Inv|].
      destruct (o_rest _ _ _ _ _ _ _ Ho) as [-> _]. done.
  - apply handled_pair. unfold _configlist. destruct key as [[k| | | | |]|]; try by apply handled_ret.
    apply handled_read; [done|]. intros st s1 HI1 _.
    destruct (copyKeyList_spec st k isRegex s1) as (r & l & E & _); [apply HI1..|]. eauto.
  - apply handled_map. unfold _configadd. destruct key as [[k| | | | |]|], data as [v|]; try apply Hbad.
    apply (handled_write server "SCDynamicStoreAddValue" k token _ (add_spec k v));
      [apply add_implements|apply (add_within k v id)|done].
  - apply handled_map. destruct key as [[k| | | | |]|], data as [v|]; try apply Hbad.
    destruct (configadd_s_spec server k v s HI) as (r & s' & E & HI' & Hreq).
    eapply handled_requested; [|done..]. apply (add_within k v (λ w, Who (w_key w) true)).
  - apply handled_pair. unfold _configget. destruct key as [[k| | | | |]|]; try by apply handled_ret.
    apply handled_read; [done|]. intros st s1 HI1 _. eexists. apply copyValue_spec.
  - apply handled_pair. unfold _configget_m.
    destruct (array_arg keys) as [e1|ks] eqn:E1, (array_arg patterns) as [e2|ps] eqn:E2; try by apply handled_ret.
    apply handled_read; [done|]. intros st s1 HI1 _.
    destruct (copyMultiple_spec st ks ps s1) as (d & E & _); [apply HI1..|]. eauto.
  - apply handled_map. unfold _configset. destruct key as [[k| | | | |]|], data as [v|]; try apply Hbad.
    apply (handled_write server "SCDynamicStoreSetValue" k token _ (set_spec k v));
      [apply set_implements|apply set_within|done].
  - apply handled_map. destruct Hm. by apply handled_setm.
  - apply handled_map. unfold _configremove. destruct key as [[k| | | | |]|]; try apply Hbad.
    apply (handled_write server "SCDynamicStoreRemoveValue" k token _ (remove_spec k));
      [apply remove_implements|apply remove_within|done].
  - apply handled_map. unfold _confignotify. destruct key as [[k| | | | |]|]; try apply Hbad.
    apply (handled_write server "SCDynamicStoreNotifyValue" k token _ (notify_spec k));
      [apply notify_implements|apply notify_within|done].
  - apply handled_map. unfold _notifyadd. destruct key as [[k| | | | |]|]; try apply Hbad.
    apply handled_own; [done|]. intros i S st P Hat.
    destruct (notifyadd_own s i S st P HI Hat k isRegex) as (s' & E & HI' & Hrel).
    eapply handled_values; [done..|]. by eapply relisted_values.
  - apply handled_map. unfold _notifyremove. destruct key as [[k| | | | |]|]; try apply Hbad.
    apply handled_own; [done|]. intros i S st P Hat.
    destruct (notifyremove_own s i S st P HI Hat k isRegex) as (s' & E & HI' & Hrel).
    eapply handled_values; [done..|]. by eapply relisted_values.
  - apply handled_map. destruct Hm. by apply handled_notifyset.
  - apply handled_pair. unfold _notifychanges. apply handled_own; [done|]. intros i S st P Hat.
    destruct (notifychanges_own s i S st P HI Hat) as (sd & E & HI' & _). by eapply handled_values.
  - apply handled_map. apply handled_own; [done|]. intros i S st P Hat.
    destruct (notifyviaport_own s i S st P HI Hat port identifier) as (r & s' & E & HI' & Hs').
    eapply handled_values; [done..|].
    destruct (_ && _ && _); destruct Hs' as (_ & Hs'); [destruct Hs' as [Hs' _]; by rewrite Hs'|by rewrite Hs'].
  - apply handled_map. by apply handled_viafd.
  - apply handled_map. by apply handled_viasignal.
  - apply handled_map. apply handled_own; [done|]. intros i S st P Hat.
    destruct (notifycancel_own s i S st P HI Hat) as (s' & E & HI' & Hs' & _).
    eapply handled_values; [done..|]. by rewrite Hs'.
  - apply (handled_map _ _ (λ _, NoReply)). by apply handled_nosenders.
Qed.

End demux.
