(* ===== verification/StoreRound.v ===== *)
(** * Posting notifications

    [pushNotifications] of [_SCD.c]: every session that has changes to fetch gets
    the notification it asked for.  With it the rounds of [server_loop], and the
    states of configd. *)

From S2P Require Import Prelude StoreTypes StoreInv StorePat StoreOps StoreCore StoreValue StoreServer StoreSess StoreNotify StoreLife StoreReq StoreDemux.
Local Open Scope c_scope.
Local Open Scope Z_scope.

Section post.
Context {RL : RegexLib} {CO : CFOrder} {MK : MachKernel}.

(** What a session is sent, [j] notes having been posted before. *)
Definition notes_for (j : nat) (P : SCDynamicStorePrivate) : list note :=
  match st_notifyStatus P with
  | NotifierNotRegistered => []
  | Using_NotifierInformViaMachPort =>
      if st_notifyPort P =? MACH_PORT_NULL then []
      else [NotePort (st_notifyPort P)
              (if st_notifyPortIdentifier P =? 0 then m_random j else st_notifyPortIdentifier P)]
  | Using_NotifierInformViaFD =>
      if 0 <=? st_notifyFile P then
        match m_write j (st_notifyFile P) with
        | inl _ => [NoteFD (st_notifyFile P) (st_notifyFileIdentifier P)]
        | inr _ => []
        end
      else []
  | Using_NotifierInformViaSignal =>
      if 0 <? st_notifySignal P then
        match m_pid_for_task j (st_notifySignalTask P) with
        | Some pid => [NoteSignal pid (st_notifySignal P)]
        | None => []
        end
      else []
  end.

(** The same store, but for what it remembers of a failed or numbered notification. *)
Record renotified (P P' : SCDynamicStorePrivate) : Prop := {
  rn_server : st_server P' = st_server P;
  rn_use : st_useSessionKeys P' = st_useSessionKeys P;
  rn_keys : st_keys P' = st_keys P;
  rn_patterns : st_patterns P' = st_patterns P;
  rn_status : st_notifyStatus P' = st_notifyStatus P;
  rn_port : st_notifyPort P' = st_notifyPort P;
  rn_task : st_notifySignalTask P' = st_notifySignalTask P ∨ st_notifySignalTask P' = TASK_NULL;
}.
Lemma renotified_refl P : renotified P P.
Proof. split; try done. by left. Qed.
Lemma renotified_trans P1 P2 P3 : renotified P1 P2 → renotified P2 P3 → renotified P1 P3.
Proof. intros [??????[]] [??????[]]; split; try congruence; solve [left; congruence|right; congruence]. Qed.

Definition post_all (l : list note) (s : dynstore) : dynstore :=
  DS (storeData s) (sessionData s) (patternData s) (changedKeys s) (deferredRemovals s)
    (removedSessionKeys s) (needsNotification s) (stores s) (next_store s) (sessions s) (temp_session s)
    (posted s ++ l).

Lemma post_all_Inv l (s : dynstore) : Inv s → Inv (post_all l s).
Proof.
  intros [HC Hq HS]. split; [|by destruct Hq|by apply (SI_ext s)]. destruct HC. by split.
Qed.

Lemma seq_ret_r (m : C dynstore unit) s : (m ;; ret tt) s = m s.
Proof. unfold bind. by destruct (m s) as [[[] ?]|]. Qed.

(** What a session is sent, by the kind of its notifications. *)
Definition notify_by_kind (st : ptr) (P : SCDynamicStorePrivate) : C dynstore unit :=
  when (bool_decide (st_notifyStatus P = Using_NotifierInformViaMachPort) &&
      negb (st_notifyPort P =? MACH_PORT_NULL))
    (let* n := gets (λ s, length (posted s)) in
     let id := if st_notifyPortIdentifier P =? 0 then m_random n else st_notifyPortIdentifier P in
     upd_store st (λ P, st_with_port (st_notifyPort P) id P) ;;
     modify (post (NotePort (st_notifyPort P) id))) ;;
  when (bool_decide (st_notifyStatus P = Using_NotifierInformViaFD) && (0 <=? st_notifyFile P))
    (let* n := gets (λ s, length (posted s)) in
     match m_write n (st_notifyFile P) with
     | inr e =>
         when (negb (e =? EWOULDBLOCK))
           (upd_store st (λ P, st_with_file (-1) (st_notifyFileIdentifier P) P))
     | inl written =>
         modify (post (NoteFD (st_notifyFile P) (st_notifyFileIdentifier P))) ;;
         when (negb (written =? 4)) (upd_store st (λ P, st_with_file (-1) (st_notifyFileIdentifier P) P))
     end) ;;
  when (bool_decide (st_notifyStatus P = Using_NotifierInformViaSignal) && (0 <? st_notifySignal P))
    (let* n := gets (λ s, length (posted s)) in
     match m_pid_for_task n (st_notifySignalTask P) with
     | Some pid => modify (post (NoteSignal pid (st_notifySignal P)))
     | None => upd_store st (st_with_signal 0 TASK_NULL)
     end).

Lemma pushNotification_kind i S st P (s : dynstore) :
  Inv s → session_at s i S st P → pushNotification (num_of P) s = notify_by_kind st P s.
Proof.
  intros HI Hat. pose proof Hat as (_ & _ & _ & HP & Hsrv & Hr).
  unfold pushNotification. unfold num_of. rewrite u32_session_num by lia. rewrite Hsrv.
  rewrite (bind_eq _ _ _ _ _ (getSession_own _ _ _ _ _ (v_sess _ HI) Hat)).
  unfold bind at 1. cbn [deref ret]. rewrite (bind_eq _ _ _ _ _ (session_at_store _ _ _ _ _ Hat)).
  by rewrite (bind_eq _ _ _ _ _ (load_store_eq _ _ _ HP)).
Qed.

Lemma renotified_Inv st P P' (s : dynstore) :
  Inv s → stores s !! st = Some P → st_server P ≠ 0 → renotified P P' →
  Inv (set_stores (<[st := P']> (stores s)) (next_store s) s).
Proof.
  intros HI HP H0 [R1 R2 R3 R4 R5 R6 R7].
  apply (Inv_upd s st P); [done|done|split; [done|]|unfold keys_of; by rewrite R3|unfold pats_of; by rewrite R4|].
  - rewrite R2. by left.
  - intros j S1 Hj Hj0. destruct R7 as [->| ->]; [by apply (s_tasks _ (v_sess _ HI) st P j)|].
    destruct (s_slot _ (v_sess _ HI) _ _ Hj Hj0) as [(? & ? & (_ & _ & _ & _ & _ & ?)) _]. unfold TASK_NULL. lia.
Qed.

Lemma notify_by_kind_spec st P (s : dynstore) :
  stores s !! st = Some P →
  ∃ P', renotified P P' ∧ notify_by_kind st P s =
    Some (tt, post_all (notes_for (length (posted s)) P) (set_stores (<[st := P']> (stores s)) (next_store s) s)).
Proof.
  intros HP. set (at_ := λ Q, set_stores (<[st := Q]> (stores s)) (next_store s) s).
  assert (Hs : at_ P = s) by (unfold at_; rewrite insert_id by done; by destruct s).
  assert (Hnil : ∀ s1, post_all [] s1 = s1) by (intros []; unfold post_all; cbn; by rewrite app_nil_r).
  assert (Hupd : ∀ f, upd_store st f s = Some (tt, at_ (f P))) by (intros f; by apply upd_store_eq).
  assert (Hskip : ∃ P', renotified P P' ∧ Some (tt, s) = Some (tt, post_all [] (at_ P'))).
  { exists P. split; [apply renotified_refl|]. by rewrite Hs, Hnil. }
  change (∃ P', renotified P P' ∧ notify_by_kind st P s =
    Some (tt, post_all (notes_for (length (posted s)) P) (at_ P'))).
  unfold notify_by_kind, notes_for.
  destruct (st_notifyStatus P) eqn:Est;
    repeat first [rewrite bool_decide_false by done|rewrite bool_decide_true by done]; cbn [andb when].
  - done.
  - destruct (st_notifyPort P =? MACH_PORT_NULL) eqn:Eport; cbn [negb]; [done|].
    set (id := if st_notifyPortIdentifier P =? 0 then _ else _).
    exists (st_with_port (st_notifyPort P) id P). split; [split; try done; by left|].
    unfold bind, gets, modify, ret. unfold when. fold id. by rewrite Hupd.
  - destruct (0 <=? st_notifyFile P) eqn:Efile; [|done]. cbn [when].
    rewrite (bind_eq _ _ _ _ _ (eq_refl : ret tt s = Some (tt, s))), seq_ret_r.
    unfold bind at 1, gets at 1.
    destruct (m_write (length (posted s)) (st_notifyFile P)) as [written|e];
      [destruct (written =? 4)|destruct (e =? EWOULDBLOCK)]; cbn [negb when].
    + exists P. split; [apply renotified_refl|]. unfold bind, modify, ret. by rewrite Hs.
    + exists (st_with_file (-1) (st_notifyFileIdentifier P) P). split; [split; try done; by left|].
      unfold bind, modify. by rewrite (upd_store_eq _ _ P) by done.
    + done.
    + exists (st_with_file (-1) (st_notifyFileIdentifier P) P). split; [split; try done; by left|].
      by rewrite Hupd, Hnil.
  - destruct (0 <? st_notifySignal P) eqn:Esig; [|done]. cbn [when].
    unfold bind, gets, ret.
    destruct (m_pid_for_task (length (posted s)) (st_notifySignalTask P)) as [pid|].
    + exists P. split; [apply renotified_refl|]. unfold modify. by rewrite Hs.
    + exists (st_with_signal 0 TASK_NULL P). split; [split; try done; by right|]. by rewrite Hupd, Hnil.
Qed.

(** One notification: its note, and the store of its session. *)
Lemma pushNotification_spec n (s : dynstore) :
  Inv s → opened (stores s) n →
  ∃ st P P', stores s !! st = Some P ∧ num_of P = n ∧ renotified P P' ∧
    pushNotification n s = Some (tt, post_all (notes_for (length (posted s)) P)
      (set_stores (<[st := P']> (stores s)) (next_store s) s)) ∧
    Inv (set_stores (<[st := P']> (stores s)) (next_store s) s).
Proof.
  intros HI (st & P & HP & H0 & <-).
  pose proof (s_owned _ (v_sess _ HI) _ _ HP) as Ho. rewrite decide_False in Ho by done.
  destruct Ho as (i & S & Hat). destruct (notify_by_kind_spec st P s HP) as (P' & Hrn & E).
  exists st, P, P'. rewrite (pushNotification_kind _ _ _ _ _ HI Hat).
  split_and!; [done..|]. by eapply renotified_Inv.
Qed.

(** What posting changes: nothing of the dictionaries, of the table or of the
    watched keys. *)
Record posts (s s' : dynstore) : Prop := {
  po_data : storeData s' = storeData s;
  po_info : sessionData s' = sessionData s;
  po_sessions : sessions s' = sessions s;
  po_stores : ∀ st P, stores s !! st = Some P → ∃ P', stores s' !! st = Some P' ∧ renotified P P';
  po_opened : ∀ n, opened (stores s') n ↔ opened (stores s) n;
}.

Lemma opened_renotified sts st P P' n :
  sts !! st = Some P → renotified P P' → opened (<[st := P']> sts) n ↔ opened sts n.
Proof. intros HP Hrn. apply (opened_insert _ _ P); [done|apply Hrn]. Qed.

Lemma pushNotifications_loop l (s : dynstore) :
  Inv s → NoDup l → (∀ n, n ∈ l → opened (stores s) n) →
  ∃ s' notes, for_each l pushNotification s = Some (tt, s') ∧ Inv s' ∧ posts s s' ∧
    needsNotification s' = needsNotification s ∧ posted s' = posted s ++ notes ∧
    (∀ n st P, n ∈ l → stores s !! st = Some P → num_of P = n → ∃ j, ∀ x, x ∈ notes_for j P → x ∈ notes) ∧
    (∀ x, x ∈ notes → ∃ n st P j, n ∈ l ∧ stores s !! st = Some P ∧ num_of P = n ∧ x ∈ notes_for j P).
Proof.
  revert s. induction l as [|n l IH]; intros s HI Hnd Hop; cbn [for_each].
  { exists s, []. split; [done|]. split; [done|].
    split; [split; try done; intros st P HP; exists P; split; [done|apply renotified_refl]|].
    split; [done|]. split; [by rewrite app_nil_r|]. split; set_solver. }
  apply NoDup_cons in Hnd as [Hn Hnd].
  destruct (pushNotification_spec n s HI) as (st & P & P' & HP & HPn & Hrn & E & HI1); [apply Hop; left|].
  rewrite (bind_eq _ _ _ _ _ E). set (notes1 := notes_for (length (posted s)) P) in *.
  set (s1 := post_all notes1 (set_stores (<[st := P']> (stores s)) (next_store s) s)).
  destruct (IH s1) as (s2 & notes2 & E2 & HI2 & Hpo & Hneed & Hpost & Hall & Hsome).
  { by apply post_all_Inv. }
  { done. }
  { intros m Hm. apply (opened_renotified _ _ P); [done..|]. apply Hop. by right. }
  exists s2, (notes1 ++ notes2). split; [done|]. split; [done|]. split; [|split; [done|split; [|split]]].
  - destruct Hpo as [H1 H2 H3 H4 H5]. split; try done.
    + intros st1 P1 HP1. destruct (decide (st1 = st)) as [->|Hne].
      * destruct (H4 st P') as (P2 & ? & ?); [cbn; by rewrite lookup_insert_eq|].
        exists P2. split; [done|]. replace P1 with P by congruence. by eapply renotified_trans.
      * apply H4. cbn. by rewrite lookup_insert_ne.
    + intros m. rewrite H5. by apply (opened_renotified _ _ P).
  - rewrite Hpost. cbn. by rewrite <-app_assoc.
  - intros m st1 P1 [->|Hm]%elem_of_cons HP1 Hm1.
    + assert (st1 = st) as -> by (eapply (w_inj _ _ _ (c_W _ (v_core _ HI))); [done..|congruence]).
      replace P1 with P by congruence. exists (length (posted s)). intros x Hx. apply elem_of_app. by left.
    + destruct (Hall m st1 P1 Hm) as (j & Hj); [|done|exists j; intros x Hx; apply elem_of_app; right; by apply Hj].
      cbn. rewrite lookup_insert_ne; [done|]. intros ->. assert (P1 = P) by congruence. subst. done.
  - intros x [Hx|Hx]%elem_of_app.
    + exists n, st, P, (length (posted s)). split; [left|done].
    + destruct (Hsome x Hx) as (m & st1 & P1 & j & Hm & HP1 & Hm1 & Hj). exists m, st1, P1, j.
      split; [by right|]. split; [|done]. cbn in HP1.
      rewrite lookup_insert_ne in HP1; [done|]. intros ->. rewrite lookup_insert_eq in HP1. injection HP1 as <-.
      unfold num_of in *. rewrite (rn_server _ _ Hrn) in Hm1. subst. done.
Qed.

(** Every session with changes to fetch gets its note, and no other does. *)
Lemma pushNotifications_spec (s : dynstore) :
  Inv s →
  ∃ s' notes, pushNotifications s = Some (tt, s') ∧ Inv s' ∧ posts s s' ∧
    needsNotification s' = None ∧ posted s' = posted s ++ notes ∧
    (∀ st P, stores s !! st = Some P → num_of P ∈ pending s → ∃ j, ∀ x, x ∈ notes_for j P → x ∈ notes) ∧
    (∀ x, x ∈ notes → ∃ st P j, stores s !! st = Some P ∧ num_of P ∈ pending s ∧ x ∈ notes_for j P).
Proof.
  intros HI. unfold pushNotifications. unfold bind at 1, gets at 1.
  destruct (needsNotification s) as [X|] eqn:EX.
  - set (l := rev (cf_order_num (elements X))).
    assert (Hl : ∀ n, n ∈ l ↔ n ∈ X).
    { intros n. unfold l. by rewrite rev_elem, (cf_order_num_perm _), elem_of_elements. }
    assert (Hnd : NoDup l).
    { unfold l. rewrite rev_alt. change (NoDup (reverse (cf_order_num (elements X)))).
      rewrite reverse_Permutation, (cf_order_num_perm _). apply NoDup_elements. }
    assert (Hpend : pending s = X) by (unfold pending; by rewrite EX).
    destruct (pushNotifications_loop l s HI Hnd) as (s1 & notes & E & HI1 & Hpo & Hneed & Hpost & Hall & Hsome).
    { intros n Hn. apply (c_N _ (v_core _ HI)). rewrite Hpend. by apply Hl. }
    rewrite (bind_eq _ _ _ _ _ E). exists (set_needsNotification None s1), notes. split; [done|].
    split; [apply pending_need; [done|set_solver|done]|]. split; [by destruct Hpo|]. split; [done|]. split; [done|].
    rewrite Hpend. split.
    + intros st P HP Hn. apply (Hall (num_of P) st); [by apply Hl|done|done].
    + intros x Hx. destruct (Hsome x Hx) as (n & st & P & j & Hn & HP & <- & Hj). exists st, P, j.
      split; [done|]. split; [by apply Hl|done].
  - exists s, []. split; [done|]. split; [done|].
    split; [split; try done; intros st P HP; exists P; split; [done|apply renotified_refl]|].
    split; [done|]. split; [by rewrite app_nil_r|]. unfold pending. rewrite EX. split; set_solver.
Qed.

(** ** The states of configd *)

Lemma Inv_init port : Inv (server_init port).
Proof.
  split; [split| |split]; cbn.
  - split; intros; simplify_map_eq; done.
  - split; intros; simplify_map_eq.
  - done.
  - intros k Hk. by apply not_elem_of_empty in Hk.
  - intros k [? H]. unfold owner_of in H. by rewrite lookup_empty in H.
  - split.
    + intros n (st & P & HP & _). by rewrite lookup_empty in HP.
    + intros; simplify_map_eq.
    + intros; simplify_map_eq.
    + intros; simplify_map_eq.
    + intros k x H. unfold owner_of in H. by rewrite lookup_empty in H.
    + intros r Hr. by apply not_elem_of_empty in Hr.
  - intros n Hn. by apply not_elem_of_empty in Hn.
  - done.
  - intros; simplify_map_eq.
  - intros; simplify_map_eq.
  - by split.
  - eauto.
  - intros [|i] S Hi; [lia|]. done.
  - done.
  - intros; simplify_map_eq.
  - intros [|i] [|j] S S' Hi Hj; try lia; done.
  - intros; simplify_map_eq.
  - intros; simplify_map_eq.
Qed.

Lemma server_round_spec m (s : dynstore) :
  Inv s → well_formed s m →
  ∃ r s1 s' notes, config_demux m s = Some (r, s1) ∧ Inv s1 ∧ server_round m s = Some (r, s') ∧ Inv s' ∧
    pushNotifications s1 = Some (tt, s') ∧ posts s1 s' ∧ needsNotification s' = None ∧
    posted s' = posted s1 ++ notes ∧
    (∀ st P, stores s1 !! st = Some P → num_of P ∈ pending s1 → ∃ j, ∀ x, x ∈ notes_for j P → x ∈ notes) ∧
    (∀ x, x ∈ notes → ∃ st P j, stores s1 !! st = Some P ∧ num_of P ∈ pending s1 ∧ x ∈ notes_for j P).
Proof.
  intros HI Hm. destruct (config_demux_ok m s HI Hm) as (r & s1 & E & HI1 & _).
  destruct (pushNotifications_spec s1 HI1) as (s' & notes & E2 & HI2 & Hpo & Hneed & Hpost & Hall & Hsome).
  exists r, s1, s', notes. unfold server_round. rewrite (bind_eq _ _ _ _ _ E), (bind_eq _ _ _ _ _ E2). done.
Qed.

(** The states between the rounds of [server_loop]. *)
Inductive reachable (port : Z) : dynstore → Prop :=
  | reach_init : reachable port (server_init port)
  | reach_round m r s s' :
      reachable port s → well_formed s m → server_round m s = Some (r, s') → reachable port s'.

Lemma reachable_Inv port s : reachable port s → Inv s.
Proof.
  induction 1 as [|m r s s' Hr IH Hm E]; [apply Inv_init|].
  destruct (server_round_spec m s IH Hm) as (r' & s1 & s2 & notes & _ & _ & E' & HI' & _).
  rewrite E in E'. by injection E' as -> ->.
Qed.

End post.

(** ** Rounds of the server loop

    What one round of [server_loop] leaves of a request that writes or reads: the
    values, the changes each session has to fetch, and the notes posted. *)

Section round.
Context {RL : RegexLib} {CO : CFOrder} {MK : MachKernel}.

(** Between rounds no notification waits. *)
Lemma reachable_idle port (s : dynstore) : reachable port s → needsNotification s = None.
Proof.
  destruct 1 as [|m r s s' Hr Hm E]; [done|].
  destruct (server_round_spec m s (reachable_Inv _ _ Hr) Hm) as (r' & s1 & s2 & notes & _ & _ & E' & _ & _ & _ & Hn & _).
  rewrite E in E'. by injection E' as -> ->.
Qed.

(** The notes of a round that changed the keys [ck]: every session that watches
    one of them is sent its note, and nobody else. *)
Definition notified (ck : gset string) (s : dynstore) (notes : list note) : Prop :=
  (∀ st P, stores s !! st = Some P → (∃ k, k ∈ ck ∧ watches P k) →
    ∃ j, ∀ x, x ∈ notes_for j P → x ∈ notes) ∧
  ∀ x, x ∈ notes → ∃ st P j, stores s !! st = Some P ∧ (∃ k, k ∈ ck ∧ watches P k) ∧ x ∈ notes_for j P.

(** The session of a port. *)
Definition session (s : dynstore) (server : Z) (P : SCDynamicStorePrivate) : Prop :=
  ∃ st, stores s !! st = Some P ∧ st_server P = server ∧ server ≠ 0.

(** The sessions are as they were, but for what posting remembers. *)
Definition peers (s s' : dynstore) : Prop :=
  ∀ server P, session s server P → ∃ P', session s' server P' ∧ renotified P P'.

(** A round that leaves the values [V] having changed the keys [ck]. *)
Record round_changed (V : view) (ck : gset string) (s s' : dynstore) : Prop := {
  rd_view : view_of (storeData s') ≡ V;
  rd_changes : ∀ n k, k ∈ changes (sessionData s') n ↔
    k ∈ changes (sessionData s) n ∨ k ∈ ck ∧ watched (stores s) n k;
  rd_notes : ∃ notes, posted s' = posted s ++ notes ∧ notified ck s notes;
  rd_sessions : peers s s';
}.

Lemma posts_peers (s s' : dynstore) : posts s s' → peers s s'.
Proof.
  intros Hpo server P (st & HP & Hs & H0). destruct (po_stores _ _ Hpo _ _ HP) as (P' & HP' & Hrn).
  exists P'. split; [|done]. exists st. split; [done|]. split; [|done]. by rewrite (rn_server _ _ Hrn).
Qed.

Lemma round_of m r V ck (s s1 s' : dynstore) :
  Inv s → needsNotification s = None → Inv s1 → outcome V ck s s1 →
  config_demux m s = Some (r, s1) → pushNotifications s1 = Some (tt, s') →
  server_round m s = Some (r, s') ∧ round_changed V ck s s'.
Proof.
  intros HI Hidle HI1 [HV Hch Hp Hop Hpo] E E2.
  split; [unfold server_round; by rewrite (bind_eq _ _ _ _ _ E), (bind_eq _ _ _ _ _ E2)|].
  destruct (pushNotifications_spec s1 HI1) as (s2 & notes & E' & _ & Hpo1 & _ & Hposted & Hall & Hsome).
  pose proof Hpo1 as [Hd Hi _ _ _].
  rewrite E2 in E'. injection E' as <-.
  assert (Hpend : ∀ n, n ∈ pending s1 ↔ ∃ k, k ∈ ck ∧ watched (stores s) n k).
  { intros n. rewrite Hp. unfold pending. rewrite Hidle. cbn. set_solver. }
  assert (Hwho : ∀ st P k, stores s !! st = Some P → watched (stores s) (num_of P) k ↔ watches P k).
  { intros st P k HP. split; [|by exists st, P]. intros (st' & P' & HP' & Hn & Hw).
    pose proof (w_inj _ _ _ (c_W _ (v_core _ HI)) _ _ _ _ HP HP' (eq_sym Hn)) as <-. congruence. }
  assert (Hnz : ∀ st P, stores s !! st = Some P → (∃ k, k ∈ ck ∧ watches P k) → st_server P ≠ 0).
  { intros st P HP (k & _ & Hw) H0. destruct (c_zero _ (v_core _ HI) _ _ HP H0) as [Hk Hpt].
    destruct Hw as [Hw|(pat & re & Hw & _)]; [rewrite Hk in Hw|rewrite Hpt in Hw]; set_solver. }
  split; [by rewrite Hd|by rewrite Hi| |].
  2:{ intros server P (st & HP & Hs & H0). apply (posts_peers _ _ Hpo1). exists st. split; [|done].
      apply Hop; [congruence|done]. }
  exists notes. rewrite Hposted, Hpo. split; [done|]. split.
  - intros st P HP Hw. apply (Hall st); [by apply Hop, HP; eapply Hnz|]. apply Hpend.
    destruct Hw as (k & ? & ?). exists k. split; [done|]. by apply (Hwho st).
  - intros x Hx. destruct (Hsome x Hx) as (st & P & j & HP & Hn & Hj).
    assert (H0 : st_server P ≠ 0).
    { destruct (c_N _ (v_core _ HI1) _ Hn) as (st' & P' & HP' & ? & Heq).
      pose proof (w_inj _ _ _ (c_W _ (v_core _ HI1)) _ _ _ _ HP' HP Heq) as ->. congruence. }
    apply Hop in HP; [|done]. exists st, P, j. split; [done|]. split; [|done].
    apply Hpend in Hn as (k & ? & ?). exists k. split; [done|]. by apply (Hwho st).
Qed.

(** A round that writes. *)
Definition round_wrote (r : Z) (s s' : dynstore) (x : Z * view * gset string) : Prop :=
  r = x.1.1 ∧ round_changed x.1.2 x.2 s s'.

Lemma status_round m (h : C dynstore Z) r port (s s1 : dynstore) :
  reachable port s → config_demux m = status_reply h → h s = Some (r, s1) → Inv s1 →
  ∃ s', server_round m s = Some (Status r, s') ∧
    ∀ x, outcome_of r s s1 x → round_wrote r s s' x.
Proof.
  intros Hr Hm E HI1. destruct (pushNotifications_spec s1 HI1) as (s' & notes & E2 & _).
  assert (E1 : config_demux m s = Some (Status r, s1)).
  { rewrite Hm. unfold status_reply. by rewrite (bind_eq _ _ _ _ _ E). }
  exists s'. split; [unfold server_round; by rewrite (bind_eq _ _ _ _ _ E1), (bind_eq _ _ _ _ _ E2)|].
  intros x [-> Hout]. split; [done|].
  by destruct (round_of m _ _ _ _ _ _ (reachable_Inv _ _ Hr) (reachable_idle _ _ Hr) HI1 Hout E1 E2).
Qed.

Lemma write_round m h r spec ks server tok port (s s1 : dynstore) :
  reachable port s → config_demux m = status_reply h → h s = Some (r, s1) → Inv s1 →
  requested spec ks server tok r s s1 →
  ∃ s', server_round m s = Some (Status r, s') ∧
    (round_wrote r s s' (kSCStatusNoStoreSession, view_of (storeData s), ∅) ∨
     ∃ w tok', sender s server tok = Some tok' ∧
       round_wrote r s s' (guarded spec tok' ks w (view_of (storeData s)))) ∧
    ∀ w tok', client s server w tok' → round_wrote r s s' (guarded spec tok' ks w (view_of (storeData s))).
Proof.
  intros Hr Hm E HI1 [H1 H2]. destruct (status_round m h r port s s1 Hr Hm E HI1) as (s' & E' & Hx).
  exists s'. split; [done|]. split; [|intros w tok' Hc; by apply Hx, H2].
  destruct H1 as [H1|(w & tok' & Hs & H1)]; [left; by apply Hx|right; exists w, tok'; split; [done|by apply Hx]].
Qed.

(** ** Rounds without changes *)

Lemma idle_push (s : dynstore) : needsNotification s = None → pushNotifications s = Some (tt, s).
Proof. intros H. unfold pushNotifications, bind, gets. by rewrite H. Qed.

(** A request that leaves no notification to send. *)
Lemma idle_round m r (s s1 : dynstore) :
  config_demux m s = Some (r, s1) → needsNotification s1 = None → server_round m s = Some (r, s1).
Proof. intros E Hn. unfold server_round. by rewrite (bind_eq _ _ _ _ _ E), (bind_eq _ _ _ _ _ (idle_push _ Hn)). Qed.

Lemma session_slot (s : dynstore) server P :
  Inv s → session s server P → ∃ i S st, session_at s i S st P ∧ s_key S = server ∧ getSession server s = Some (Some i, s).
Proof.
  intros HI (st & HP & <- & H0). pose proof (s_owned _ (v_sess _ HI) _ _ HP) as Ho.
  rewrite decide_False in Ho by done. destruct Ho as (i & S & Hat). exists i, S, st.
  assert (s_key S = st_server P) as <- by (destruct Hat as (_ & _ & _ & _ & ? & _); congruence).
  split; [done|]. split; [done|]. by eapply getSession_own; [apply HI|].
Qed.

Lemma session_unique (s : dynstore) server P P' : Inv s → session s server P → session s server P' → P' = P.
Proof.
  intros HI (st & HP & <- & _) (st' & HP' & Heq & _).
  assert (st' = st) as ->; [|congruence].
  eapply (w_inj _ _ _ (c_W _ (v_core _ HI))); [done..|]. unfold num_of. by rewrite Heq.
Qed.

Lemma client_session (s : dynstore) server w tok :
  Inv s → client s server w tok → ∃ P, session s server P ∧ w = who_of P.
Proof.
  intros HI (i & S & st & P & Hat & <- & _ & ->). destruct Hat as (_ & _ & _ & HP & <- & ?).
  exists P. split; [|done]. exists st. split; [done|]. split; [done|lia].
Qed.

Lemma session_watched (s : dynstore) server P k :
  Inv s → session s server P → watched (stores s) (session_num server) k ↔ watches P k.
Proof.
  intros HI (st & HP & <- & _). split; [|by exists st, P]. intros (st' & P' & HP' & Hn & Hw).
  pose proof (w_inj _ _ _ (c_W _ (v_core _ HI)) _ _ _ _ HP HP' (eq_sym Hn)) as <-. congruence.
Qed.

(** A session's own request: only its store changes. *)
Lemma own_round m (h : C dynstore Z) server P r P' s1 (s : dynstore) i S st :
  session_at s i S st P → config_demux m = status_reply h → s_key S = server →
  h s = Some (r, s1) → needsNotification s1 = None → stores s1 = <[st := P']> (stores s) → st_server P' = st_server P →
  server_round m s = Some (Status r, s1) ∧ session s1 server P'.
Proof.
  intros (_ & _ & _ & _ & Hsrv & Hr) Hm Hk E Hn Hst HP'. split.
  - apply idle_round; [|done]. rewrite Hm. unfold status_reply. by rewrite (bind_eq _ _ _ _ _ E).
  - exists st. rewrite Hst, lookup_insert_eq. split; [done|]. split; [congruence|lia].
Qed.

End round.
