(* ===== verification/StoreDemo.v ===== *)
(** * A concrete configd

    Instances of the classes of [StoreTypes.v] and a run of the server, on which
    the theorems are evaluated: a small matcher of regular expressions, the
    enumeration order of the maps, and a kernel that hands out the first free
    port name. *)

From S2P Require Import Prelude StoreTypes StoreInv StorePat StoreOps StoreCore StoreValue.
From S2P Require Import StoreServer StoreSess StoreNotify StoreLife StoreReq StoreDemux StoreRound.
Local Open Scope c_scope.
Local Open Scope Z_scope.

Definition demo_char (c a : ascii) : bool := Ascii.eqb c "." || Ascii.eqb c a.

(** A matcher for literals, [.], [*], [^] and [$]. *)
Fixpoint demo_here (fuel : nat) (re s : string) : bool :=
  match fuel with
  | O => false
  | S n =>
      match re with
      | EmptyString => true
      | String "$" EmptyString => match s with EmptyString => true | _ => false end
      | String c (String "*" re') =>
          demo_here n re' s ||
          match s with String a s' => demo_char c a && demo_here n re s' | EmptyString => false end
      | String c re' => match s with String a s' => demo_char c a && demo_here n re' s' | EmptyString => false end
      end
  end.

Fixpoint demo_exec (re s : string) : bool :=
  match re with
  | String "^" re' => demo_here (S (String.length re' + String.length s)) re' s
  | _ => demo_here (S (String.length re + String.length s)) re s || match s with String _ s' => demo_exec re s' | EmptyString => false end
  end.

#[export] Instance demo_regex : RegexLib := {|
  regex_t := string;
  regcomp re := match re with String "^" (String "*" _) => None | _ => Some re end;
  regexec := demo_exec;
|}.

#[export] Instance demo_order : CFOrder.
Proof. refine {| cf_order l := l; cf_order_num l := l |}; by intros. Defined.

Definition demo_port (X : gset Z) : option Z :=
  head (filter (λ p, bool_decide (p ∉ X)) (seqZ 2 1000)).

Lemma demo_port_spec X p : demo_port X = Some p → p ∉ X ∧ 0 < p < 2 ^ 32.
Proof.
  unfold demo_port. intros Hp. assert (p ∈ filter (λ p, bool_decide (p ∉ X)) (seqZ 2 1000)) as Hin.
  { destruct (filter _ _); [done|]. injection Hp as ->. left. }
  apply list_elem_of_filter in Hin as [H1%bool_decide_unpack H2%elem_of_seqZ]. split; [done|lia].
Qed.

#[export] Instance demo_mach : MachKernel := {|
  m_port := demo_port;
  m_port_fresh X p H := proj1 (demo_port_spec X p H);
  m_port_range X p H := proj2 (demo_port_spec X p H);
  m_pid_for_task n task := if task =? 900 then Some 77 else None;
  m_write n fd := inl 4;
  m_random n := 1 + Z.of_nat n;
  m_getpid := 1;
  m_true_data := [Byte.x01];
|}.

(** ** Runs *)

Definition demo_wf (s : dynstore) (m : message) : bool :=
  match m with
  | ConfigOpen _ _ _ insert_ok notify_ok _ =>
      notify_ok && is_some (m_port (ports_in_use s)) && (insert_ok || is_some (empty_slot (drop 1 (sessions s)) 1))
  | ConfigSetM _ _ rem notif _ =>
      match array_arg rem, array_arg notif with
      | inr (Some l), inr (Some l') => is_some (strings l) && is_some (strings l')
      | _, _ => false
      end
  | NotifySet _ keys pats =>
      match array_arg keys, array_arg pats with
      | inr (Some l), inr (Some l') => is_some (strings l) && is_some (strings l')
      | _, _ => false
      end
  | NotifyViaSignal _ _ _ => false
  | _ => true
  end.

Lemma is_some_Some {A} (o : option A) : is_some o = true → is_Some o.
Proof. destruct o; [eauto|done]. Qed.

Lemma demo_arrays a b :
  match array_arg a, array_arg b with
  | inr (Some l), inr (Some l') => is_some (strings l) && is_some (strings l')
  | _, _ => false
  end = true →
  (∀ l, array_arg a = inr (Some l) → is_Some (strings l)) ∧ (∀ l, array_arg b = inr (Some l) → is_Some (strings l)).
Proof.
  destruct (array_arg a) as [|[l|]], (array_arg b) as [|[l'|]]; try done.
  intros [H1 H2]%andb_true_iff. split; intros ? [= <-]; by apply is_some_Some.
Qed.

Lemma demo_wf_ok s m : demo_wf s m = true → well_formed s m.
Proof.
  destruct m; try done; cbn -[demo_port].
  - intros [[-> H]%andb_true_iff Hi%orb_true_iff]%andb_true_iff. split; [done|]. split; [by apply is_some_Some|].
    destruct Hi as [Hi|Hi]; [by left|right; by apply is_some_Some].
  - apply demo_arrays.
  - apply demo_arrays.
Qed.

Fixpoint demo_run (l : list message) (s : dynstore) : option dynstore :=
  match l with
  | [] => Some s
  | m :: l =>
      if demo_wf s m then match server_round m s with Some (_, s') => demo_run l s' | None => None end else None
  end.

Lemma demo_run_reachable l s s' : reachable 1 s → demo_run l s = Some s' → reachable 1 s'.
Proof.
  revert s. induction l as [|m l IH]; intros s Hs; cbn [demo_run]; [by intros [= <-]|].
  destruct (demo_wf s m) eqn:Ewf; [|done]. destruct (server_round m s) as [[r s1]|] eqn:E; [|done].
  apply IH. eapply reach_round; [done|by apply demo_wf_ok|done].
Qed.

Definition demo_from (l : list message) : dynstore :=
  match demo_run l (server_init 1) with Some s => s | None => server_init 1 end.

Lemma demo_reachable l : reachable 1 (demo_from l).
Proof.
  unfold demo_from. destruct (demo_run l _) eqn:E; [|apply reach_init].
  eapply demo_run_reachable; [apply reach_init|done].
Qed.

(** ** A run

    [a] (port 2) runs as root; [b] (port 3) may write the keys under [b/] and makes
    session keys; it watches [k] and the keys under [s/], by port 50. *)

Definition root : audit_token := AuditToken 0 10 None.
Definition user : audit_token :=
  AuditToken 501 11 (Some (CFDictionary [("patterns", CFArray [CFString "b/.*"])]%string)).

Definition demo_open : list message :=
  [ConfigOpen 1 (Some (CFString "a")) (Some None) true true root;
   ConfigOpen 1 (Some (CFString "b"))
     (Some (Some (CFDictionary [("UseSessionKeys", CFBoolean true)]%string))) true true user;
   NotifyAdd 3 (Some (CFString "k")) false;
   NotifyAdd 3 (Some (CFString "s/.*")) true;
   NotifyViaPort 3 50 0].

Definition demo_state : dynstore :=
  demo_from (demo_open ++ [ConfigSet 2 (Some (CFString "s/x")) (Some [Byte.x07]) root;
                           ConfigAdd 3 (Some (CFString "b/y")) (Some [Byte.x08]) user]).

Example demo_values :
  (λ k, view_of (storeData demo_state) k) <$> ["s/x"; "b/y"; "k"]%string =
  [(Some [Byte.x07], None); (Some [Byte.x08], Some "3"%string); (None, None)].
Proof. vm_compute. reflexivity. Qed.

Example demo_told :
  changes (sessionData demo_state) 3 = ["s/x"%string] ∧ posted demo_state = [NotePort 50 1].
Proof. vm_compute. done. Qed.

Lemma demo_state_reachable : reachable 1 demo_state.
Proof. apply demo_reachable. Qed.
#[global] Opaque demo_state.

(** The two clients of the run. *)
Definition demo_Pa : SCDynamicStorePrivate :=
  Store (Some "a"%string) 2 false None None NotifierNotRegistered 0 0 (-1) 0 0 0.
Definition demo_Pb : SCDynamicStorePrivate :=
  Store (Some "b"%string) 3 true (Some ["k"%string]) (Some ["s/.*"%string]) Using_NotifierInformViaMachPort
    50 1 (-1) 0 0 0.
Definition demo_Sa : serverSession := Session 2 (Some 0%nat) 0 (Some root) YES None.
Definition demo_Sb : serverSession := Session 3 (Some 1%nat) 501 (Some user) NO (Some (at_entitlement user)).

Lemma demo_at_a : session_at demo_state 1 demo_Sa 0 demo_Pa.
Proof. split; [vm_compute; reflexivity|]. split; [lia|]. split; [done|]. split; [vm_compute; reflexivity|]. split; [done|cbn; lia]. Qed.
Lemma demo_at_b : session_at demo_state 2 demo_Sb 1 demo_Pb.
Proof. split; [vm_compute; reflexivity|]. split; [lia|]. split; [done|]. split; [vm_compute; reflexivity|]. split; [done|cbn; lia]. Qed.

Lemma demo_client_a : client demo_state 2 (who_of demo_Pa) root.
Proof. exists 1%nat, demo_Sa, 0%nat, demo_Pa. split; [apply demo_at_a|]. split; [done|]. split; [|done]. split; [done|]. split; [by right|by left]. Qed.
Lemma demo_client_b : client demo_state 3 (who_of demo_Pb) user.
Proof. exists 2%nat, demo_Sb, 1%nat, demo_Pb. split; [apply demo_at_b|]. split; [done|]. split; [|done]. split; [done|]. split; by right. Qed.

(** No session of the run has the server's own port, or a task. *)
Lemma demo_port_free : ¬ port_taken demo_state 1.
Proof.
  intros (i & S & st & P & (Hi & Hlt & _ & HP & _) & Hor).
  assert (Ht : st_notifySignalTask P = 0).
  { assert (Hst : map_Forall (λ _ P, st_notifySignalTask P = 0) (stores demo_state)).
    { apply (bool_decide_unpack _). vm_compute. exact I. }
    exact (Hst _ _ HP). }
  clear HP. destruct Hor as [Hk|Hk]; [|congruence].
  assert (Hs : Forall (λ o, s_key <$> o ≠ Some 1) (drop 1 (sessions demo_state))).
  { apply (bool_decide_unpack _). vm_compute. exact I. }
  rewrite Forall_lookup in Hs. apply (Hs (pred i) (Some S)); [|cbn; by rewrite Hk].
  rewrite lookup_drop. by replace (1 + pred i)%nat with i by lia.
Qed.

(** The answer to one more message, and the state after it. *)
Definition demo_reply (m : message) : option reply := fst <$> server_round m demo_state.
Definition demo_after (m : message) : dynstore :=
  match server_round m demo_state with Some (_, s) => s | None => demo_state end.

Lemma demo_round m r : demo_reply m = Some r → server_round m demo_state = Some (r, demo_after m).
Proof. unfold demo_reply, demo_after. destruct (server_round m demo_state) as [[? ?]|]; [|done]. by intros [= ->]. Qed.
