(* ===== verification/StoreSafe.v ===== *)
(** * What configd guarantees in every state

    Every request is answered; the watcher counts agree with the watch lists; a
    value changes for a sender with the right to write it only.  And the requests
    that are not survived. *)

From S2P Require Import Prelude StoreTypes StoreInv StorePat StoreOps StoreCore StoreValue.
From S2P Require Import StoreServer StoreSess StoreNotify StoreLife StoreReq StoreDemux StoreRound.
From S2P Require Import StoreDemo.
Local Open Scope c_scope.
Local Open Scope Z_scope.

Section safe.
Context {RL : RegexLib} {CO : CFOrder} {MK : MachKernel}.

(** A store without an entry in the session dictionary cannot be closed. *)
Lemma close_without_info st p u name (s : dynstore) :
  stores s !! st = Some (st_with_session p u (new_store name)) → sessionData s !! session_key p = None →
  __SCDynamicStoreClose st s = None.
Proof.
  intros HP Hd. set (P := st_with_session p u (new_store name)) in *. unfold __SCDynamicStoreClose, removeAllKeys.
  assert (Hload : load_store st s = Some (P, s)) by (by apply load_store_eq).
  assert (Hall : ∀ b : bool, (let* P := load_store st in
    for_each (default [] (if b then st_patterns P else st_keys P))
      (λ k, __SCDynamicStoreRemoveWatchedKey st k b ;; ret tt)) s = Some (tt, s)).
  { intros b. rewrite (bind_eq _ _ _ _ _ Hload). by destruct b. }
  rewrite (bind_eq _ _ _ _ _ (Hall false)), (bind_eq _ _ _ _ _ (Hall true)).
  assert (Hcancel : ∃ s1 P1, __SCDynamicStoreNotifyCancel st s = Some (kSCStatusOK, s1) ∧
    stores s1 !! st = Some P1 ∧ st_server P1 = p ∧ sessionData s1 = sessionData s).
  { unfold __SCDynamicStoreNotifyCancel. rewrite (bind_eq _ _ _ _ _ Hload). cbn [P st_with_session new_store st_notifyPort st_notifyFile st_notifySignal st_server].
    change (0 =? MACH_PORT_NULL) with true. change (-1 =? -1) with true. change (0 <? 0) with false.
    cbn [negb when]. rewrite !(bind_eq _ _ s tt s) by done. unfold bind at 1, modify at 1.
    set (s1 := match needsNotification s with Some _ => _ | None => s end).
    assert (Hs1 : stores s1 = stores s ∧ sessionData s1 = sessionData s) by (unfold s1; by case_match).
    destruct Hs1 as [E1 E2]. rewrite <-E1 in HP. rewrite (bind_eq _ _ _ _ _ (upd_store_eq st _ P s1 HP)).
    eexists _, _. split; [reflexivity|]. cbn. rewrite lookup_insert_eq. done. }
  destruct Hcancel as (s1 & P1 & E1 & HP1 & Hsrv & Hd1). rewrite (bind_eq _ _ _ _ _ E1).
  rewrite (bind_eq _ _ _ _ _ (load_store_eq st P1 s1 HP1)). unfold bind at 1, gets at 1.
  by rewrite Hd1, Hsrv, Hd.
Qed.

Lemma configopen_unnotified server nm options tok (s : dynstore) :
  Inv s → is_Some (m_port (ports_in_use s)) → open_error (Some (CFString nm)) options = None →
  ¬ port_taken s server →
  _configopen server (Some (CFString nm)) options true false tok s = None.
Proof.
  intros HI [p Ep] Herr Hnt. unfold _configopen. cbn [open_error] in Herr.
  destruct options as [options|]; [|done].
  destruct (useSessionKeys_arg (Some options)) as [e|use] eqn:Euse; [done|].
  destruct (find_session_spec s server (drop 1 (sessions s)) 1) as (dup & Edup & Hdup).
  { intros j S. rewrite lookup_drop. intros Hj.
    destruct (s_slot _ (v_sess _ HI) _ _ Hj) as [(st & P & (_ & _ & Hst & HP & _)) _]; [lia|]. eauto. }
  destruct dup as [d|].
  { destruct Hnt, Hdup as (j & S & -> & Hj & Hor). rewrite lookup_drop in Hj.
    destruct (s_slot _ (v_sess _ HI) _ _ Hj) as [(st & P & Hat) _]; [lia|].
    exists (1 + j)%nat, S, st, P. split; [done|]. destruct Hor as [?|(st1 & P1 & Hst1 & HP1 & ?)]; [by left|right].
    destruct Hat as (_ & _ & Hst & HP & _). by replace P with P1 by congruence. }
  destruct (addSession_new server p s HI Ep Edup) as (i & l & Eadd & Hi0 & Hfree & Hlt & Hl).
  rewrite (bind_eq _ _ _ _ _ Eadd). set (s1 := set_sessions l s). set (st := next_store s).
  rewrite (bind_eq _ _ s1 (fresh_session p) s1).
  2:{ unfold load_session, bind, gets. cbn. by rewrite Hl, decide_True. }
  set (s2 := set_stores (<[st := new_store (Some nm)]> (stores s1)) (Datatypes.S st) s1).
  rewrite (bind_eq _ _ s1 st s2) by done.
  set (S := Session p (Some st) 1 (Some tok) UNKNOWN None). set (s3 := set_sessions (<[i := Some S]> l) s2).
  rewrite (bind_eq _ _ s2 tt s3) by done.
  rewrite (bind_eq _ _ _ _ _ (upd_store_eq st _ (new_store (Some nm)) s3 (lookup_insert_eq _ _ _))).
  cbn [negb]. change (s_key (fresh_session p)) with p.
  set (P := st_with_session p _ _). set (s4 := set_stores _ _ s3).
  assert (Hslot : slot_of (sessions s4) p = Some (pred i)).
  { unfold slot_of. destruct i as [|i]; [lia|]. cbn [pred].
    rewrite (proj2 (list_find_Some _ _ i (Some S))); [done|]. cbn.
    split; [rewrite lookup_drop; by rewrite list_lookup_insert_eq|]. split; [done|].
    intros j y. rewrite lookup_drop. intros Hy Hj [= Heq]. destruct y as [S'|]; [|done]. injection Heq as Heq.
    rewrite list_lookup_insert_ne, Hl, decide_False in Hy by (cbn; lia).
    destruct (port_fresh s p (m_port_fresh _ _ Ep)) as [Hk _]. by apply (Hk _ _ Hy). }
  assert (Hclean : cleanupSession p s4 = None).
  { unfold cleanupSession. unfold bind at 1, gets at 1. rewrite Hslot. replace (Datatypes.S (pred i)) with i by lia.
    rewrite (bind_eq _ _ s4 st s4).
    2:{ apply (session_store_eq _ _ S); [cbn; by rewrite list_lookup_insert_eq|done]. }
    unfold bind at 1. erewrite close_without_info; [done| |].
    - cbn. by rewrite lookup_insert_eq.
    - cbn. destruct (sessionData s !! session_key p) eqn:E; [|done].
      destruct (i_only _ _ _ _ (c_I _ (v_core _ HI)) _ _ E) as (n & (st1 & P1 & HP1 & _ & Hn) & Heq).
      apply fmt_d_inj in Heq. pose proof (server_range _ _ _ (v_sess _ HI) HP1).
      pose proof (m_port_range _ _ Ep). rewrite <-Hn in Heq. unfold num_of in Heq.
      change (i32 p) with (session_num p) in Heq. apply session_num_inj in Heq; [|lia|lia].
      exfalso. eapply (server_fresh s p st1 P1); [apply HI|by apply m_port_fresh|lia|done|done]. }
  unfold bind at 1. by rewrite Hclean.
Qed.

Lemma configset_m_unchecked server x l tok w tok' (s : dynstore) :
  Inv s → client s server w tok' → (∀ k, x ≠ CFString k) →
  _configset_m server (Some None) (Some (Some (CFArray (x :: l)))) (Some None) tok s = None.
Proof.
  intros HI Hc Hx. unfold _configset_m. cbn [dict_arg array_arg].
  destruct (anySession_client server "SCDynamicStoreSetMultiple" tok s HI) as (o & s1 & E1 & HI1 & _ & _ & Ho).
  rewrite (bind_eq _ _ _ _ _ E1). destruct o as [r|]; [|by destruct (Ho _ _ Hc)].
  cbn [default fmap list_fmap hasWriteAccessAll]. unfold bind at 1, ret at 1. cbn [negb].
  cbn [from_option id]. unfold hasWriteAccessAll, bind. destruct x; try done. by destruct (Hx s0).
Qed.

(** ** Safety *)

(** C1: from every state between rounds, the server loop answers every well-formed
    message, and is between rounds again; it does not crash. [well_formed] says what is
    asked of a message: the arrays of keys hold strings, a task port is not one of
    configd's own, and when a session is opened, the kernel has a port for it and accepts
    the no-senders request, and its send right too unless the slot was used before. *)
Theorem configd_safe port m (s : dynstore) :
  reachable port s → well_formed s m → ∃ r s', server_round m s = Some (r, s') ∧ reachable port s'.
Proof.
  intros Hr Hm. destruct (server_round_spec m s (reachable_Inv _ _ Hr) Hm) as (r & s1 & s' & notes & _ & _ & E & _).
  exists r, s'. split; [done|]. by eapply reach_round.
Qed.

(** C3: a value or its owner changes in a round only when the sender of the request
    may write that key, being root or entitled to it, or when the session that owns
    the key is closed. *)
Theorem values_authorized port m r (s s' : dynstore) k :
  reachable port s → well_formed s m → server_round m s = Some (r, s') →
  view_of (storeData s') k ≠ view_of (storeData s) k → may_change s m k.
Proof.
  intros Hr Hm E Hne. pose proof (reachable_Inv _ _ Hr) as HI.
  destruct (config_demux_ok m s HI Hm) as (r1 & s1 & E1 & HI1 & Hk).
  destruct (pushNotifications_spec s1 HI1) as (s2 & notes & E2 & _ & Hpo & _).
  unfold server_round in E. rewrite (bind_eq _ _ _ _ _ E1), (bind_eq _ _ _ _ _ E2) in E. injection E as _ <-.
  apply Hk. by rewrite <-(po_data _ _ Hpo).
Qed.

(** C4: between rounds, the number of times a session is counted as a watcher of a
    key is the number of its reasons to watch it, the key itself and each of its
    patterns that lists it; a pattern in use is compiled, lists exactly the keys with
    a value that match it and exactly the sessions that asked for it; and no entry
    is left empty or with a count of zero. *)
Theorem watch_counts port (s : dynstore) :
  reachable port s →
  (∀ st P k, stores s !! st = Some P → refs (storeData s) k (num_of P) = reasons (patternData s) P k) ∧
  (∀ pat p, patternData s !! pat = Some p →
    patternCompile pat = Some (p_regex p) ∧ p_sessions p ≠ [] ∧
    (∀ k, k ∈ p_keys p ↔ is_Some (data_of (storeData s) k) ∧ keyMatchesPattern k (p_regex p) = true) ∧
    ∀ n, n ∈ p_sessions p ↔ ∃ st P, stores s !! st = Some P ∧ num_of P = n ∧ pat ∈ pats_of P) ∧
  ∀ k e, storeData s !! k = Some e → entry_ok e.
Proof.
  intros Hr. destruct (reachable_Inv _ _ Hr) as [HC Hq _]. split; [apply HC|]. split; [|apply HC].
  intros pat p Hp. split; [by apply (k_regex _ _ _ (c_K _ HC))|].
  destruct (w_pats _ _ _ (c_W _ HC) _ _ Hp) as (_ & Hne & _). split; [done|]. split.
  - intros k. rewrite (k_keys _ _ _ (c_K _ HC) _ _ _ Hp), (q_D _ Hq), Is_true_true. set_solver.
  - intros n. apply (w_link _ _ _ (c_W _ HC) _ _ _ Hp).
Qed.

(** ** Requests that are not survived *)

(** When the no-senders notification of a new session's port cannot be
    requested, configd does not survive the request: the clean-up looks for the
    session keys in a dictionary that is not there yet. *)
Theorem configopen_crash port server nm options tok (s : dynstore) :
  reachable port s → is_Some (m_port (ports_in_use s)) →
  open_error (Some (CFString nm)) options = None → ¬ port_taken s server →
  server_round (ConfigOpen server (Some (CFString nm)) options true false tok) s = None.
Proof.
  intros Hr Hp Ho Ht. unfold server_round. cbn [config_demux]. unfold bind.
  by rewrite (configopen_unnotified server nm options tok s (reachable_Inv _ _ Hr) Hp Ho Ht).
Qed.

(** A client that asks for the removal of something that is not a string takes
    configd down: the elements of the array are used as keys unchecked. *)
Theorem configset_m_crash port server x l tok w tok' (s : dynstore) :
  reachable port s → client s server w tok' → (∀ k, x ≠ CFString k) →
  server_round (ConfigSetM server (Some None) (Some (Some (CFArray (x :: l)))) (Some None) tok) s = None.
Proof.
  intros Hr Hc Hx. unfold server_round. cbn [config_demux]. unfold status_reply, bind.
  by rewrite (configset_m_unchecked server x l tok w tok' s (reachable_Inv _ _ Hr) Hc Hx).
Qed.

End safe.

Lemma configd_safe_witness :
  ∃ r s', server_round (ConfigRemove 2 (Some (CFString "s/x")) root) demo_state = Some (r, s') ∧ reachable 1 s'.
Proof. apply (configd_safe 1); [apply demo_state_reachable|exact I]. Defined.

Lemma values_authorized_witness :
  may_change demo_state (ConfigSet 3 (Some (CFString "b/z")) (Some [Byte.x09]) user) "b/z".
Proof.
  apply (values_authorized 1 _ (Status 0) demo_state
    (demo_after (ConfigSet 3 (Some (CFString "b/z")) (Some [Byte.x09]) user))).
  - apply demo_state_reachable.
  - exact I.
  - apply demo_round. vm_compute. reflexivity.
  - vm_compute. discriminate.
Defined.

Lemma watch_counts_witness : refs (storeData demo_state) "s/x" (num_of demo_Pb) = 1.
Proof.
  rewrite (proj1 (watch_counts 1 demo_state demo_state_reachable) 1%nat demo_Pb "s/x"%string).
  - vm_compute. reflexivity.
  - vm_compute. reflexivity.
Defined.

Lemma configopen_crash_witness :
  server_round (ConfigOpen 1 (Some (CFString "c")) (Some None) true false user) demo_state = None.
Proof.
  apply (configopen_crash 1); [apply demo_state_reachable| |reflexivity|apply demo_port_free].
  exists 4. vm_compute. reflexivity.
Defined.

Lemma configset_m_crash_witness :
  server_round (ConfigSetM 2 (Some None) (Some (Some (CFArray [CFBoolean true]))) (Some None) root) demo_state = None.
Proof.
  apply (configset_m_crash 1 2 (CFBoolean true) [] root (who_of demo_Pa) root);
    [apply demo_state_reachable|apply demo_client_a|discriminate].
Defined.
