(* ===== verification/StoreSpec.v ===== *)
(** * What the requests do

    Per request, for a client of configd: the answer, the values, the changes its
    peers have to fetch and the notes they are sent, at the end of the round of the
    server loop that handles it. *)

From S2P Require Import Prelude StoreTypes StoreInv StorePat StoreOps StoreCore StoreValue StoreServer StoreSess StoreNotify StoreLife StoreReq StoreDemux StoreRound StoreDemo.
Local Open Scope c_scope.
Local Open Scope Z_scope.

Section spec.
Context {RL : RegexLib} {CO : CFOrder} {MK : MachKernel}.

Section client.
Context (port server : Z) (w : who) (tok : audit_token) (s : dynstore).
Context (Hr : reachable port s) (Hc : client s server w tok).

(** ** Requests that write *)

(** What a client's request of [spec] to write [ks] leads to. *)
Definition writes (m : message) (spec : write_spec) (ks : list string) : Prop :=
  ∃ r s', server_round m s = Some (Status r, s') ∧
    round_wrote r s s' (guarded spec tok ks w (view_of (storeData s))).

Lemma client_writes m h spec ks tok' :
  config_demux m = status_reply h →
  (∃ r s1, h s = Some (r, s1) ∧ Inv s1 ∧ requested spec ks server tok' r s s1) → writes m spec ks.
Proof.
  intros Hm (r & s1 & E & HI1 & Hreq).
  destruct (write_round m h r spec ks server tok' port s s1 Hr Hm E HI1 Hreq) as (s' & E' & _ & H).
  exists r, s'. split; [done|]. by apply H.
Qed.

Lemma set_round k v tok' :
  writes (ConfigSet server (Some (CFString k)) (Some v) tok') (set_spec k v) [k].
Proof.
  eapply client_writes; [done|].
  apply (write_request_spec server "SCDynamicStoreSetValue" k tok'); [apply set_implements|by eapply reachable_Inv].
Qed.

Lemma add_s_round k v :
  writes (ConfigAddS server (Some (CFString k)) (Some v)) (λ w, add_spec k v (Who (w_key w) true)) [k].
Proof. eapply client_writes; [done|]. apply configadd_s_spec. by eapply reachable_Inv. Qed.

(** Adding a value fails when the key has one, and sets it otherwise. A temporary
    value is added as by a session that makes session keys, whatever the session was
    opened as; the session owns it. *)
Theorem configadd_round k v tok' :
  writes (ConfigAdd server (Some (CFString k)) (Some v) tok') (add_spec k v) [k] ∧
  writes (ConfigAddS server (Some (CFString k)) (Some v)) (λ w, add_spec k v (Who (w_key w) true)) [k].
Proof.
  split; [|apply add_s_round]. eapply client_writes; [done|].
  apply (write_request_spec server "SCDynamicStoreAddValue" k tok'); [apply add_implements|by eapply reachable_Inv].
Qed.

(** Removing takes value and owner, and fails when there is no value. A
    notification of [k] tells its watchers and leaves its value as it is, also when it
    has none; the owner is treated as by a set. *)
Theorem configremove_notify_round k tok' :
  writes (ConfigRemove server (Some (CFString k)) tok') (remove_spec k) [k] ∧
  writes (ConfigNotify server (Some (CFString k)) tok') (notify_spec k) [k].
Proof.
  split; (eapply client_writes; [done|]).
  - apply (write_request_spec server "SCDynamicStoreRemoveValue" k tok'); [apply remove_implements|by eapply reachable_Inv].
  - apply (write_request_spec server "SCDynamicStoreNotifyValue" k tok'); [apply notify_implements|by eapply reachable_Inv].
Qed.

(** Setting, removing and notifying many keys at once does so in this order, if
    the client may write all of them, and nothing otherwise; the watchers are told
    in one notification. *)
Theorem configset_m_round dict rem notif d (rks nks : option (list string)) tok' :
  dict_arg dict = inr d → array_arg rem = inr (cfstrings rks) → array_arg notif = inr (cfstrings nks) →
  writes (ConfigSetM server dict rem notif tok')
    (multiple_spec (default [] d) (default [] rks) (default [] nks))
    ((default [] d).*1 ++ default [] rks ++ default [] nks).
Proof.
  intros Hd H1 H2. eapply client_writes; [done|]. apply configset_m_spec; [by eapply reachable_Inv|done..].
Qed.

(** ** Requests that read *)

(** A request that reads: the answer, and nothing a client could see has changed. *)
Definition reads (m : message) (r : reply) : Prop :=
  ∃ s', server_round m s = Some (r, s') ∧ same_dicts s s' ∧ peers s s'.

Lemma client_reads {A} m name tok' (none : A) (body : ptr → C dynstore A) (f : A → reply) (g : A → C dynstore reply) (Q : A → Prop) :
  config_demux m = (let* a := (let* o := anySession server name tok' in
     match o with None => ret none | Some r => let* st := session_store r in body st end) in g a) →
  (∀ a, g a = ret (f a)) →
  (∀ st s1, Inv s1 → same_dicts s s1 → ∃ a, body st s1 = Some (a, s1) ∧ Q a) →
  ∃ a, Q a ∧ reads m (f a).
Proof.
  intros Hm Hg Hb. pose proof (reachable_Inv _ _ Hr) as HI.
  destruct (anySession_client server name tok' s HI) as (o & s1 & E1 & HI1 & Hd1 & [_ Hop] & Ho).
  destruct o as [r|]; [|by destruct (Ho _ _ Hc)]. destruct Ho as (S & tok1 & st & P & Hres & _ & _).
  destruct (Hb st s1 HI1 Hd1) as (a & E & Ha). exists a. split; [done|]. exists s1.
  split; [|split; [done|]].
  - apply idle_round; [|rewrite (sd_need _ _ Hd1); by eapply reachable_idle].
    rewrite Hm. rewrite (bind_eq _ _ _ a s1); [by rewrite Hg|].
    rewrite (bind_eq _ _ _ _ _ E1). by rewrite (bind_eq _ _ _ _ _ (session_store_ref _ _ _ _ _ _ Hres)).
  - intros srv P1 (st1 & HP1 & Hs & H0). exists P1. split; [|apply renotified_refl].
    exists st1. split; [|done]. apply Hop; [congruence|done].
Qed.

(** A client gets the value of a key, or the status that it has none. *)
Lemma copy_value_round k tok' :
  reads (ConfigGet server (Some (CFString k)) tok')
    match (view_of (storeData s) k).1 with
    | Some v => Value kSCStatusOK (Some v)
    | None => Value kSCStatusNoKey None
    end.
Proof.
  destruct (client_reads (ConfigGet server (Some (CFString k)) tok') "SCDynamicStoreCopyValue" tok'
    (kSCStatusNoStoreSession, None) (λ st, __SCDynamicStoreCopyValue st k) (λ a, Value a.1 a.2)
    (λ '(r, v), ret (Value r v))
    (λ a, a = match (view_of (storeData s) k).1 with
              | Some v => (kSCStatusOK, Some v) | None => (kSCStatusNoKey, None) end)) as (a & -> & H).
  - done.
  - by intros [].
  - intros st s1 _ Hd. eexists. split; [apply copyValue_spec|]. cbn. by rewrite (sd_data _ _ Hd).
  - cbn [view_of fst] in *. by destruct (data_of (storeData s) k).
Qed.

(** A client gets the keys with a value that start with a prefix, or that match
    a pattern, each once; or the failure of a pattern that does not compile.  The
    keys listed with a pattern in use are those a search would find. *)
Theorem configlist_round k isRegex tok' :
  ∃ r l, reads (ConfigList server (Some (CFString k)) isRegex tok') (Keys r l) ∧
    if isRegex && negb (is_some (patternCompile k)) then r = kSCStatusFailed ∧ l = []
    else r = kSCStatusOK ∧ NoDup l ∧ ∀ x, x ∈ l ↔ list_matches (view_of (storeData s)) k isRegex x.
Proof.
  destruct (client_reads (ConfigList server (Some (CFString k)) isRegex tok') "SCDynamicStoreCopyKeyList" tok'
    (kSCStatusNoStoreSession, []) (λ st, __SCDynamicStoreCopyKeyList st k isRegex) (λ a, Keys a.1 a.2)
    (λ '(r, l), ret (Keys r l))
    (λ a, if isRegex && negb (is_some (patternCompile k)) then a.1 = kSCStatusFailed ∧ a.2 = []
      else a.1 = kSCStatusOK ∧ NoDup a.2 ∧ ∀ x, x ∈ a.2 ↔ list_matches (view_of (storeData s)) k isRegex x))
    as ([r l] & Hrl & H).
  - done.
  - by intros [].
  - intros st s1 HI1 Hd. destruct (copyKeyList_spec st k isRegex s1) as (r & l & E & Hrl); [apply HI1..|].
    rewrite (sd_data _ _ Hd) in Hrl. by exists (r, l).
  - by exists r, l.
Qed.

(** A client gets the values of the keys it names and of those that match one
    of its patterns, and no others. *)
Lemma copy_multiple_round keys patterns (ks ps : option (list cftype)) tok' :
  array_arg keys = inr ks → array_arg patterns = inr ps →
  ∃ d, reads (ConfigGetM server keys patterns tok') (Values kSCStatusOK d) ∧
    ∀ k v, d !! k = Some v ↔ (view_of (storeData s) k).1 = Some v ∧
      (CFString k ∈ default [] ks ∨ ∃ p, CFString p ∈ default [] ps ∧ pattern_matches p k = true).
Proof.
  intros Hk Hp.
  destruct (client_reads (ConfigGetM server keys patterns tok') "SCDynamicStoreCopyMultiple" tok'
    (kSCStatusNoStoreSession, ∅) (λ st, __SCDynamicStoreCopyMultiple st ks ps) (λ a, Values a.1 a.2)
    (λ '(r, d), ret (Values r d))
    (λ a, a.1 = kSCStatusOK ∧ ∀ k v, a.2 !! k = Some v ↔ (view_of (storeData s) k).1 = Some v ∧
      (CFString k ∈ default [] ks ∨ ∃ p, CFString p ∈ default [] ps ∧ pattern_matches p k = true)))
    as ([r d] & [Hrd Hd] & H).
  - cbn [config_demux _configget_m]. unfold _configget_m. rewrite Hk, Hp. done.
  - by intros [].
  - intros st s1 HI1 Hd. destruct (copyMultiple_spec st ks ps s1) as (d & E & Hrl); [apply HI1..|].
    rewrite (sd_data _ _ Hd) in Hrl. by exists (kSCStatusOK, d).
  - cbn in Hrd. subst r. by exists d.
Qed.

(** A client gets the value of a key, or the status that it has none; and the
    values of the keys it names and of those that match one of its patterns, and no
    others. *)
Theorem configget_rounds k keys patterns (ks ps : option (list cftype)) tok' :
  array_arg keys = inr ks → array_arg patterns = inr ps →
  reads (ConfigGet server (Some (CFString k)) tok')
    match (view_of (storeData s) k).1 with
    | Some v => Value kSCStatusOK (Some v)
    | None => Value kSCStatusNoKey None
    end ∧
  ∃ d, reads (ConfigGetM server keys patterns tok') (Values kSCStatusOK d) ∧
    ∀ k' v, d !! k' = Some v ↔ (view_of (storeData s) k').1 = Some v ∧
      (CFString k' ∈ default [] ks ∨ ∃ p, CFString p ∈ default [] ps ∧ pattern_matches p k' = true).
Proof. intros Hk Hp. split; [apply copy_value_round|by apply copy_multiple_round]. Qed.

End client.

(** C32: every SetValue request is answered, and the answer says what was done. A
    request whose key or value does not unserialize, or whose key is no string, fails and
    changes nothing. Any other is that of the client with a session on the port, or else of
    the sender of the message, for whom a session is made for the time of the request if
    one can be made: if he may not write the key he is refused and nothing changes; if he
    may, the value is set, unless he makes session keys and the key is somebody else's, and
    every session that watches the key is told. *)
Theorem configset_round port server key data tok (s : dynstore) :
  reachable port s →
  ∃ r s', server_round (ConfigSet server key data tok) s = Some (Status r, s') ∧
    match key, data with
    | Some (CFString k), Some v =>
        (round_wrote r s s' (kSCStatusNoStoreSession, view_of (storeData s), ∅) ∨
         ∃ w tok', sender s server (Some tok) = Some tok' ∧
           round_wrote r s s' (guarded (set_spec k v) tok' [k] w (view_of (storeData s)))) ∧
        ∀ w tok', client s server w tok' →
          round_wrote r s s' (guarded (set_spec k v) tok' [k] w (view_of (storeData s)))
    | Some _, Some _ => r = kSCStatusInvalidArgument ∧ s' = s
    | _, _ => r = kSCStatusFailed ∧ s' = s
    end.
Proof.
  intros Hr. pose proof (reachable_idle _ _ Hr) as Hidle.
  destruct key as [[k| | | | |]|], data as [v|]; try (do 2 eexists; split; [by apply idle_round|done]).
  destruct (write_request_spec server "SCDynamicStoreSetValue" k tok _ _ s (set_implements k v)) as (r & s1 & E & HI1 & Hq);
    [by eapply reachable_Inv|].
  destruct (write_round (ConfigSet server (Some (CFString k)) (Some v) tok) _ r (set_spec k v) [k] server (Some tok)
    port s s1 Hr ltac:(done) E HI1 Hq) as (s' & E' & H). by exists r, s'.
Qed.

(** ** Requests about what a session watches *)

Lemma watches_pattern (P : SCDynamicStorePrivate) k :
  watches P k ↔ k ∈ keys_of P ∨ ∃ p, p ∈ pats_of P ∧ pattern_matches p k = true.
Proof.
  unfold watches, pattern_matches. split; (intros [?|H]; [by left|right]).
  - destruct H as (p & re & Hp & E & Hm). exists p. by rewrite E.
  - destruct H as (p & Hp & Hm). destruct (patternCompile p) as [re|] eqn:E; [|done]. by exists p, re.
Qed.

Lemma spec_watch_watches isRegex k (P : SCDynamicStorePrivate) k' :
  watches (spec_watch isRegex k P).2 k' ↔ watches P k' ∨
    (spec_watch isRegex k P).1 = kSCStatusOK ∧ (if isRegex then pattern_matches k k' = true else k' = k).
Proof.
  unfold spec_watch. case_decide as Hin; cbn [fst snd]; [split; [by left|by intros [?|[? _]]]|].
  destruct (isRegex && _) eqn:Eb; cbn [fst snd]; [split; [by left|by intros [?|[? _]]]|].
  rewrite !watches_pattern. destruct isRegex; cbn [set_list list_of] in *; unfold keys_of, pats_of; cbn.
  - split; [intros [?|(p & [?| ->%list_elem_of_singleton]%elem_of_app & ?)]; naive_solver|].
    intros [[?|(p & ? & ?)]|[_ ?]]; [by left|right; exists p|right; exists k];
      (split; [apply elem_of_app; rewrite list_elem_of_singleton; tauto|done]).
  - rewrite elem_of_app, list_elem_of_singleton. naive_solver.
Qed.

Lemma spec_unwatch_list isRegex k (P : SCDynamicStorePrivate) :
  NoDup (list_of isRegex P) →
  (spec_unwatch isRegex k P).1 = (if decide (k ∈ list_of isRegex P) then kSCStatusOK else kSCStatusNoKey) ∧
  (∀ k', k' ∈ list_of isRegex (spec_unwatch isRegex k P).2 ↔ k' ∈ list_of isRegex P ∧ k' ≠ k) ∧
  list_of (negb isRegex) (spec_unwatch isRegex k P).2 = list_of (negb isRegex) P.
Proof.
  intros Hnd. unfold spec_unwatch. destruct (first_index k (list_of isRegex P)) as [i|] eqn:E; cbn [fst snd].
  - destruct (first_index_Some _ _ _ E) as [Hi _]. rewrite decide_True by (by eapply list_elem_of_lookup_2).
    split; [done|]. rewrite list_of_set, list_of_set_other. split; [|done]. intros k'.
    by apply elem_of_delete.
  - apply first_index_None in E. rewrite decide_False by done. split; [done|]. split; [|done].
    intros k'. split; [|by intros [? _]]. intros Hk'. split; [done|]. by intros ->.
Qed.

Lemma session_lists (s : dynstore) server P :
  Inv s → session s server P → NoDup (list_of false P) ∧ NoDup (list_of true P).
Proof. intros HI (st & HP & _). apply (w_lists _ _ _ (c_W _ (v_core _ HI)) _ _ HP). Qed.

Section watch.
Context (port server : Z) (P : SCDynamicStorePrivate) (s : dynstore).
Context (Hr : reachable port s) (Hs : session s server P).

(** A request of the session: its store becomes [P'], and nothing else a client
    could see has changed. *)
Record rewatch (P' : SCDynamicStorePrivate) (s' : dynstore) : Prop := {
  wt_session : session s' server P';
  wt_values : view_of (storeData s') ≡ view_of (storeData s);
  wt_changes : sessionData s' = sessionData s;
  wt_posted : posted s' = posted s;
  wt_peers : ∀ server' P1, server' ≠ server → session s server' P1 → session s' server' P1;
}.

Lemma relisted_rewatch st P' (s' : dynstore) :
  stores s !! st = Some P → st_server P = server → relisted st P P' s s' → rewatch P' s'.
Proof.
  intros HP Hsrv Hrel. pose proof Hrel as [Hrw Hbut].
  assert (Hsrv' : st_server P' = server) by (rewrite <-Hsrv; by destruct P, P'; injection Hbut).
  destruct Hs as (st0 & _ & _ & H0). split.
  - exists st. rewrite (rw_stores _ _ _ _ Hrw), lookup_insert_eq. done.
  - by eapply relisted_values.
  - apply Hrw.
  - apply Hrw.
  - intros server' P1 Hne (st1 & HP1 & Hs1 & ?). exists st1. split; [|done].
    rewrite (rw_stores _ _ _ _ Hrw), lookup_insert_ne; [done|]. intros ->. congruence.
Qed.

Lemma own_watch m (h : C dynstore Z) r P' :
  config_demux m = status_reply h →
  (∀ i S st, session_at s i S st P → s_key S = server → getSession server s = Some (Some i, s) →
    ∃ s', h s = Some (r, s') ∧ relisted st P P' s s') →
  ∃ s', server_round m s = Some (Status r, s') ∧ rewatch P' s'.
Proof.
  intros Hm Hh. destruct (session_slot s server P (reachable_Inv _ _ Hr) Hs) as (i & S & st & Hat & Hk & Hget).
  destruct (Hh i S st Hat Hk Hget) as (s' & E & Hrel). exists s'.
  destruct Hat as (_ & _ & _ & HP & Hsrv & _). split; [|apply (relisted_rewatch st); [done|congruence|done]].
  apply idle_round; [|destruct Hrel as [Hrw _]; rewrite (rw_need _ _ _ _ Hrw); by eapply reachable_idle].
  rewrite Hm. unfold status_reply. by rewrite (bind_eq _ _ _ _ _ E).
Qed.

(** A session starts to watch a key or a pattern, unless it does already or the
    pattern does not compile; from then on it watches what it did, and what it
    asked for. *)
Lemma add_watch_round k isRegex :
  ∃ s' P', server_round (NotifyAdd server (Some (CFString k)) isRegex) s = Some (Status (spec_watch isRegex k P).1, s') ∧
    rewatch P' s' ∧ (spec_watch isRegex k P).2 = P' ∧
    ∀ k', watches P' k' ↔ watches P k' ∨
      (spec_watch isRegex k P).1 = kSCStatusOK ∧ (if isRegex then pattern_matches k k' = true else k' = k).
Proof.
  destruct (own_watch (NotifyAdd server (Some (CFString k)) isRegex) (_notifyadd server (Some (CFString k)) isRegex)
    (spec_watch isRegex k P).1 (spec_watch isRegex k P).2) as (s' & E & Hrw); [done| |].
  - intros i S st Hat Hk Hget. unfold _notifyadd. rewrite (bind_eq _ _ _ _ _ Hget).
    destruct (notifyadd_own s i S st P (reachable_Inv _ _ Hr) Hat k isRegex) as (s' & E & _ & Hrel). eauto.
  - exists s', (spec_watch isRegex k P).2. split; [done|]. split; [done|]. split; [done|]. apply spec_watch_watches.
Qed.

(** A session stops to watch a key or a pattern it watched; the rest of what it
    watches stays. *)
Lemma remove_watch_round k isRegex :
  ∃ r s' P', server_round (NotifyRemove server (Some (CFString k)) isRegex) s = Some (Status r, s') ∧
    rewatch P' s' ∧ (r = if decide (k ∈ list_of isRegex P) then kSCStatusOK else kSCStatusNoKey) ∧
    (∀ k', k' ∈ list_of isRegex P' ↔ k' ∈ list_of isRegex P ∧ k' ≠ k) ∧
    list_of (negb isRegex) P' = list_of (negb isRegex) P.
Proof.
  destruct (own_watch (NotifyRemove server (Some (CFString k)) isRegex) (_notifyremove server (Some (CFString k)) isRegex)
    (spec_unwatch isRegex k P).1 (spec_unwatch isRegex k P).2) as (s' & E & Hrw); [done| |].
  - intros i S st Hat Hk Hget. unfold _notifyremove. rewrite (bind_eq _ _ _ _ _ Hget).
    destruct (notifyremove_own s i S st P (reachable_Inv _ _ Hr) Hat k isRegex) as (s' & E & _ & Hrel). eauto.
  - exists (spec_unwatch isRegex k P).1, s', (spec_unwatch isRegex k P).2. split; [done|]. split; [done|].
    destruct (session_lists s server P (reachable_Inv _ _ Hr) Hs) as [Hk Hp].
    apply spec_unwatch_list. by destruct isRegex.
Qed.

(** A session that asks to watch a key or a pattern watches from then on what it
    did and what it asked for, unless it does already or the pattern does not
    compile; one that stops to watch a key or a pattern keeps the rest. *)
Theorem notifyadd_remove_round k isRegex :
  (∃ s' P', server_round (NotifyAdd server (Some (CFString k)) isRegex) s = Some (Status (spec_watch isRegex k P).1, s') ∧
    rewatch P' s' ∧ (spec_watch isRegex k P).2 = P' ∧
    ∀ k', watches P' k' ↔ watches P k' ∨
      (spec_watch isRegex k P).1 = kSCStatusOK ∧ (if isRegex then pattern_matches k k' = true else k' = k)) ∧
  (∃ r s' P', server_round (NotifyRemove server (Some (CFString k)) isRegex) s = Some (Status r, s') ∧
    rewatch P' s' ∧ (r = if decide (k ∈ list_of isRegex P) then kSCStatusOK else kSCStatusNoKey) ∧
    (∀ k', k' ∈ list_of isRegex P' ↔ k' ∈ list_of isRegex P ∧ k' ≠ k) ∧
    list_of (negb isRegex) P' = list_of (negb isRegex) P).
Proof. split; [apply add_watch_round|apply remove_watch_round]. Qed.

(** A session that names all it wants to watch watches just that, whatever it
    watched before. *)
Theorem notifyset_round keys patterns (ks ps : option (list string)) :
  array_arg keys = inr (cfstrings ks) → array_arg patterns = inr (cfstrings ps) →
  NoDup (default [] ks) → NoDup (default [] ps) → (∀ p, p ∈ default [] ps → is_Some (patternCompile p)) →
  ∃ s' P', server_round (NotifySet server keys patterns) s = Some (Status kSCStatusOK, s') ∧ rewatch P' s' ∧
    ∀ k, watches P' k ↔ k ∈ default [] ks ∨ ∃ p, p ∈ default [] ps ∧ pattern_matches p k = true.
Proof.
  intros Hk Hp Hndk Hndp Hc. set (rP := spec_set_keys (default [] ks) (default [] ps) P).
  destruct (session_lists s server P (reachable_Inv _ _ Hr) Hs) as [Hlk Hlp].
  destruct (spec_update_ok false (default [] ks) P Hlk Hndk ltac:(done)) as (P1 & E1 & H1 & O1).
  destruct (spec_update_ok true (default [] ps) P1) as (P2 & E2 & H2 & O2); [by rewrite (O1 : list_of true P1 = list_of true P)|done|by intros _|].
  assert (HrP : rP = (kSCStatusOK, P2)) by (unfold rP, spec_set_keys; by rewrite E1, E2).
  destruct (own_watch (NotifySet server keys patterns) (_notifyset server keys patterns) rP.1 rP.2)
    as (s' & E & Hrw); [done| |].
  - intros i S st Hat Hkey Hget. unfold _notifyset. rewrite Hk, Hp, (bind_eq _ _ _ _ _ Hget).
    destruct (notifyset_own s i S st P (reachable_Inv _ _ Hr) Hat ks ps) as (s' & E & _ & Hrel). eauto.
  - rewrite HrP in E, Hrw. exists s', P2. split; [done|]. split; [done|]. intros k. rewrite watches_pattern.
    change (keys_of P2) with (list_of (negb true) P2). rewrite O2. change (list_of (negb true) P1) with (list_of false P1).
    rewrite H1. change (pats_of P2) with (list_of true P2). split; (intros [?|(p & ? & ?)]; [by left|right]).
    + exists p. split; [by apply H2|done].
    + exists p. split; [by apply H2|done].
Qed.

Lemma fetch_round :
  ∃ s', server_round (NotifyChanges server) s =
      Some (Keys kSCStatusOK (changes (sessionData s) (session_num server)), s') ∧
    changes (sessionData s') (session_num server) = [] ∧
    (∀ n, n ≠ session_num server → changes (sessionData s') n = changes (sessionData s) n) ∧
    storeData s' = storeData s ∧ stores s' = stores s ∧ posted s' = posted s.
Proof.
  destruct (session_slot s server P (reachable_Inv _ _ Hr) Hs) as (i & S & st & Hat & Hk & Hget).
  destruct (notifychanges_own s i S st P (reachable_Inv _ _ Hr) Hat) as (sd & E & _ & Hsd).
  assert (Hnum : num_of P = session_num server) by (destruct Hs as (_ & _ & <- & _); done).
  rewrite Hnum in *. exists (set_sessionData sd s). split; [|split; [|split; [|done]]].
  - apply idle_round; [|by eapply (reachable_idle port s)]. cbn [config_demux].
    rewrite (bind_eq _ _ s (kSCStatusOK, changes (sessionData s) (session_num server)) (set_sessionData sd s)); [done|].
    unfold _notifychanges. by rewrite (bind_eq _ _ _ _ _ Hget).
  - cbn. by rewrite Hsd, decide_True.
  - intros n Hn. cbn. by rewrite Hsd, decide_False.
Qed.

(** A session asks to be notified by Mach messages on a port: it must not be
    registered in some way already.  It is then, and when changes wait for it a note
    is sent to the port at once. *)
Theorem notifyviaport_round q identifier :
  ∃ r s', server_round (NotifyViaPort server q identifier) s = Some (Status r, s') ∧
    if bool_decide (st_notifyStatus P = NotifierNotRegistered) && (identifier =? 0) && negb (q =? MACH_PORT_NULL) then
      r = kSCStatusOK ∧ (∃ P', session s' server P' ∧ renotified (via_port q P) P') ∧
      ∃ notes, posted s' = posted s ++ notes ∧ (∀ x, x ∈ notes → ∃ id, x = NotePort q id) ∧
        (notes = [] ↔ changes (sessionData s) (session_num server) = [])
    else r ≠ kSCStatusOK ∧ s' = s.
Proof.
  pose proof (reachable_Inv _ _ Hr) as HI. pose proof (reachable_idle _ _ Hr) as Hidle.
  destruct (session_slot s server P HI Hs) as (i & S & st & Hat & Hk & Hget).
  pose proof Hat as (_ & _ & _ & HP & Hsrv & Hrange).
  assert (Hnum : num_of P = session_num server) by (unfold num_of; congruence).
  destruct (notifyviaport_own s i S st P HI Hat q identifier) as (r & s1 & E & HI1 & Hs1).
  assert (E1 : config_demux (NotifyViaPort server q identifier) s = Some (Status r, s1)).
  { cbn [config_demux]. unfold status_reply. rewrite (bind_eq _ _ s r s1); [done|].
    unfold _notifyviaport. by rewrite (bind_eq _ _ _ _ _ Hget). }
  exists r. destruct (bool_decide _ && (identifier =? 0) && negb (q =? MACH_PORT_NULL)) eqn:Eb.
  2:{ destruct Hs1 as [Hne ->]. exists s. split; [by apply idle_round|done]. }
  destruct Hs1 as (Hok & Hs1 & Hpend).
  destruct (pushNotifications_spec s1 HI1) as (s2 & notes & E2 & _ & Hpo & _ & Hposted & Hall & Hsome).
  assert (HP1 : stores s1 !! st = Some (via_port q P)) by (rewrite Hs1; cbn; by rewrite lookup_insert_eq).
  assert (Hnone : pending s = ∅) by (unfold pending; by rewrite Hidle). rewrite Hnum in Hpend.
  assert (Hport : ∀ j, ∃ id, notes_for j (via_port q P) = [NotePort q id]).
  { intros j. unfold notes_for. cbn. apply andb_true_iff in Eb as [_ Eq]. apply negb_true_iff in Eq. rewrite Eq. eauto. }
  exists s2. split; [unfold server_round; by rewrite (bind_eq _ _ _ _ _ E1), (bind_eq _ _ _ _ _ E2)|].
  split; [done|]. split.
  { apply (posts_peers _ _ Hpo). exists st. split; [done|]. split; [cbn; congruence|lia]. }
  exists notes. split; [rewrite Hposted; by rewrite Hs1|].
  assert (Hfrom : ∀ x, x ∈ notes → (∃ id, x = NotePort q id) ∧ changes (sessionData s) (session_num server) ≠ []).
  { intros x Hx. destruct (Hsome x Hx) as (st1 & P1 & j & HP1' & Hn & Hj). apply Hpend in Hn as [Hn|[Hn Hne]]; [set_solver|].
    assert (st1 = st) as ->.
    { eapply (w_inj _ _ _ (c_W _ (v_core _ HI1))); [done..|]. rewrite Hn. unfold num_of. cbn. congruence. }
    assert (P1 = via_port q P) as -> by congruence. destruct (Hport j) as [id Ej]. rewrite Ej in Hj.
    apply list_elem_of_singleton in Hj. eauto. }
  split; [intros x Hx; by destruct (Hfrom x Hx)|]. split.
  - intros ->. destruct (decide (changes (sessionData s) (session_num server) = [])) as [|Hne]; [done|].
    destruct (Hall st (via_port q P) HP1) as [j Hj].
    { apply Hpend. right. split; [|done]. unfold num_of. cbn. congruence. }
    destruct (Hport j) as [id Ej]. rewrite Ej in Hj.
    by destruct (not_elem_of_nil (NotePort q id) (Hj _ ltac:(by left))).
  - intros Hch. destruct notes as [|x notes]; [done|]. by destruct (Hfrom x) as [_ []]; [left|].
Qed.

End watch.
End spec.

(** ** The theorems at work *)

Lemma demo_session_a : session demo_state 2 demo_Pa.
Proof. exists 0%nat. split; [apply demo_at_a|done]. Qed.
Lemma demo_session_b : session demo_state 3 demo_Pb.
Proof. exists 1%nat. split; [apply demo_at_b|done]. Qed.

Lemma configset_round_witness :
  (∃ r s', server_round (ConfigSet 3 (Some (CFString "b/z")) (Some [Byte.x09]) user) demo_state = Some (Status r, s') ∧
    round_wrote r demo_state s' (guarded (set_spec "b/z" [Byte.x09]) user ["b/z"%string] (who_of demo_Pb) (view_of (storeData demo_state)))) ∧
  (∃ r s', server_round (ConfigSet 3 (Some CFOther) (Some [Byte.x09]) user) demo_state = Some (Status r, s') ∧
    r = kSCStatusInvalidArgument ∧ s' = demo_state).
Proof.
  split.
  - destruct (configset_round 1 3 (Some (CFString "b/z")) (Some [Byte.x09]) user demo_state demo_state_reachable)
      as (r & s' & E & _ & H). exists r, s'. split; [exact E|apply H; exact demo_client_b].
  - exact (configset_round 1 3 (Some CFOther) (Some [Byte.x09]) user demo_state demo_state_reachable).
Defined.

Lemma configadd_round_witness :
  writes (who_of demo_Pb) user demo_state
    (ConfigAdd 3 (Some (CFString "s/x")) (Some [Byte.x09]) user) (add_spec "s/x" [Byte.x09]) ["s/x"%string] ∧
  writes (who_of demo_Pb) user demo_state (ConfigAddS 3 (Some (CFString "s/x")) (Some [Byte.x09]))
    (λ w, add_spec "s/x" [Byte.x09] (Who (w_key w) true)) ["s/x"%string].
Proof. apply (configadd_round 1 3); [apply demo_state_reachable|apply demo_client_b]. Defined.

Lemma configremove_notify_round_witness :
  writes (who_of demo_Pa) root demo_state (ConfigRemove 2 (Some (CFString "s/x")) root)
    (remove_spec "s/x") ["s/x"%string] ∧
  writes (who_of demo_Pa) root demo_state (ConfigNotify 2 (Some (CFString "s/x")) root)
    (notify_spec "s/x") ["s/x"%string].
Proof. apply (configremove_notify_round 1 2); [apply demo_state_reachable|apply demo_client_a]. Defined.

Lemma configset_m_round_witness :
  writes (who_of demo_Pa) root demo_state
    (ConfigSetM 2 (Some (Some (CFDictionary [("k", CFData [Byte.x01])]%string)))
      (Some (Some (CFArray [CFString "s/x"]))) (Some None) root)
    (multiple_spec [("k"%string, CFData [Byte.x01])] ["s/x"%string] []) ["k"%string; "s/x"%string].
Proof.
  apply (configset_m_round 1 2 (who_of demo_Pa) root demo_state demo_state_reachable demo_client_a _ _ _
    (Some [("k"%string, CFData [Byte.x01])]) (Some ["s/x"%string]) None); reflexivity.
Defined.

Lemma configlist_round_witness :
  ∃ r l, reads demo_state (ConfigList 3 (Some (CFString "s/.*")) true user) (Keys r l) ∧ "s/x"%string ∈ l.
Proof.
  destruct (configlist_round 1 3 _ _ _ demo_state_reachable demo_client_b "s/.*"%string true user) as (r & l & H & Hl).
  exists r, l. split; [exact H|]. apply (proj2 (proj2 Hl)). split; [vm_compute; eauto|vm_compute; reflexivity].
Defined.

Lemma configget_rounds_witness :
  reads demo_state (ConfigGet 3 (Some (CFString "s/x")) user) (Value kSCStatusOK (Some [Byte.x07])) ∧
  ∃ d, reads demo_state (ConfigGetM 3 (Some None) (Some (Some (CFArray [CFString "s/.*"]))) user) (Values kSCStatusOK d) ∧
    d !! "s/x"%string = Some [Byte.x07].
Proof.
  destruct (configget_rounds 1 3 _ _ _ demo_state_reachable demo_client_b "s/x"%string (Some None)
    (Some (Some (CFArray [CFString "s/.*"]))) None (Some [CFString "s/.*"]) user) as (H1 & d & H & Hd); [reflexivity..|].
  split; [exact H1|]. exists d. split; [exact H|]. apply Hd. split; [vm_compute; reflexivity|]. right.
  exists "s/.*"%string. split; [left|vm_compute; reflexivity].
Defined.

Lemma notifyadd_remove_round_witness :
  (∃ s' P', server_round (NotifyAdd 3 (Some (CFString "z")) false) demo_state = Some (Status kSCStatusOK, s') ∧
    rewatch 3 demo_state P' s') ∧
  ∃ s' P', server_round (NotifyRemove 3 (Some (CFString "k")) false) demo_state = Some (Status kSCStatusOK, s') ∧
    rewatch 3 demo_state P' s'.
Proof.
  split.
  - destruct (notifyadd_remove_round 1 3 _ _ demo_state_reachable demo_session_b "z"%string false)
      as [(s' & P' & E & Hrw & _) _]. exists s', P'. split; [exact E|exact Hrw].
  - destruct (notifyadd_remove_round 1 3 _ _ demo_state_reachable demo_session_b "k"%string false)
      as [_ (r & s' & P' & E & Hrw & -> & _)]. exists s', P'. split; [exact E|exact Hrw].
Defined.

Lemma notifyset_round_witness :
  ∃ s' P', server_round (NotifySet 3 (Some (Some (CFArray [CFString "b/y"]))) (Some None)) demo_state =
      Some (Status kSCStatusOK, s') ∧ rewatch 3 demo_state P' s'.
Proof.
  destruct (notifyset_round 1 3 _ _ demo_state_reachable demo_session_b (Some (Some (CFArray [CFString "b/y"]))) (Some None)
    (Some ["b/y"%string]) None) as (s' & P' & E & Hrw & _); [reflexivity|reflexivity| | | |].
  - apply NoDup_singleton.
  - constructor.
  - intros p Hp. by apply elem_of_nil in Hp.
  - exists s', P'. split; [exact E|exact Hrw].
Defined.

Lemma notifyviaport_round_witness :
  ∃ s', server_round (NotifyViaPort 2 60 0) demo_state = Some (Status kSCStatusOK, s') ∧ posted s' = posted demo_state.
Proof.
  destruct (notifyviaport_round 1 2 _ _ demo_state_reachable demo_session_a 60 0) as (r & s' & E & H).
  cbv [demo_Pa st_notifyStatus bool_decide decide] in H. cbn in H.
  destruct H as (-> & _ & notes & Hp & _ & Hn). exists s'. split; [exact E|].
  destruct Hn as [_ Hn].
  rewrite Hp, Hn; [apply app_nil_r|vm_compute; reflexivity].
Defined.

(** ** Sessions and their peers over several rounds

    Opening and closing a session, the delivery of a change to a session that
    watches for it, and the temporary values of a session that goes away. *)

Section live.
Context {RL : RegexLib} {CO : CFOrder} {MK : MachKernel}.

(** ** Opening and closing *)

(** A session as it starts. *)
Definition starts (nm : string) (use : bool) (P : SCDynamicStorePrivate) : Prop :=
  st_name P = Some nm ∧ st_useSessionKeys P = use ∧ keys_of P = [] ∧ pats_of P = [] ∧
  st_notifyStatus P = NotifierNotRegistered.

(** A client that opens a session on the server's port, with a name and options
    that are well-formed, gets a port that was not in use; the session has the
    sender's rights, watches nothing, has no changes to fetch and owns no key. *)
Theorem configopen_round port server nm options tok (s : dynstore) :
  reachable port s → is_Some (m_port (ports_in_use s)) →
  open_error (Some (CFString nm)) options = None → ¬ port_taken s server →
  ∃ p s' P, server_round (ConfigOpen server (Some (CFString nm)) options true true tok) s =
      Some (NewServer kSCStatusOK p, s') ∧
    p ∉ ports_in_use s ∧ session s' p P ∧
    starts nm (match useSessionKeys_arg options with inr (Some b) => b | _ => false end) P ∧
    client s' p (who_of P) tok ∧ changes (sessionData s') (session_num p) = [] ∧
    (∀ k, owner_of (storeData s') k ≠ Some (session_key p)) ∧
    storeData s' = storeData s ∧ posted s' = posted s ∧
    (∀ server' P', session s server' P' → session s' server' P').
Proof.
  intros Hr Hp Herr Hnt. pose proof (reachable_Inv _ _ Hr) as HI.
  pose proof (configopen_spec server (Some (CFString nm)) options true tok s HI Hp ltac:(by left)) as Ho. rewrite Herr in Ho.
  destruct Ho as [[[?|?] _]|(_ & _ & i & S & st & P & nm' & s' & E & Ho & Htok & [= <-] & Huse)]; [done|done|].
  pose proof (opens_Inv _ _ _ _ _ _ _ HI Ho) as HI'.
  destruct Ho as [Hi0 Hfree Hl Hsts [Hst Hnext] HP' [HsS [Hrange Hfresh]] Hauth Hinfo (Ed & _ & _ & _ & _ & En & Epo & _)].
  assert (Hsrv : st_server P = s_key S) by (by rewrite HP').
  assert (Hat : session_at s' i S st P).
  { split; [by rewrite Hl, decide_True|]. split; [done|]. split; [done|]. rewrite Hsts, lookup_insert_eq. done. }
  assert (Hse : session s' (s_key S) P).
  { exists st. rewrite Hsts, lookup_insert_eq. split; [done|]. split; [done|lia]. }
  exists (s_key S), s', P. split.
  { apply idle_round; [|rewrite En; by eapply reachable_idle]. cbn [config_demux]. by rewrite (bind_eq _ _ _ _ _ E). }
  split; [done|]. split; [done|]. split; [rewrite HP' in Huse |- *; by split|]. split; [|split; [|split; [|split; [|split]]]].
  - exists i, S, st, P. split; [done|]. split; [done|]. split; [|done].
    destruct Hauth as [tok' Ha]. pose proof Ha as [Htok' _]. by replace tok with tok' by congruence.
  - unfold changes. rewrite Hinfo. change (fmt_d (session_num (s_key S))) with (session_key (s_key S)).
    by rewrite lookup_insert_eq.
  - intros k Hk. rewrite Ed in Hk. destruct (i_owner _ _ _ _ (c_I _ (v_core _ HI)) _ _ Hk) as (n & (st1 & P1 & HP1 & ? & Hn) & Heq).
    apply fmt_d_inj in Heq. pose proof (server_range _ _ _ (v_sess _ HI) HP1). rewrite <-Hn in Heq. unfold num_of in Heq.
    change (i32 (s_key S)) with (session_num (s_key S)) in Heq. apply session_num_inj in Heq; [|lia|lia].
    eapply (server_fresh s (s_key S) st1 P1); [apply HI|done|lia|done|done].
  - done.
  - done.
  - intros server' P1 (st1 & HP1 & Hs1 & H1). exists st1. rewrite Hsts, lookup_insert_ne; [done|].
    intros <-. pose proof (s_fresh _ (v_sess _ HI) _ _ HP1). lia.
Qed.

(** What the round of a no-senders notification does. *)
Lemma close_round port server P (s : dynstore) :
  reachable port s → session s server P →
  ∃ s', server_round (NoSenders server) s = Some (NoReply, s') ∧
    (∀ P', ¬ session s' server P') ∧
    (∀ k, refs (storeData s') k (session_num server) = 0) ∧
    (∀ k, view_of (storeData s') k =
      if decide ((view_of (storeData s) k).2 = Some (session_key server)) then (None, None)
      else view_of (storeData s) k) ∧
    (∀ server' P', server' ≠ server → session s server' P' → ∃ P'', session s' server' P'' ∧ renotified P' P'') ∧
    ∀ n k, n ≠ session_num server → k ∈ changes (sessionData s') n ↔ k ∈ changes (sessionData s) n ∨
      owner_of (storeData s) k = Some (session_key server) ∧ watched (stores s) n k.
Proof.
  intros Hr Hs. pose proof (reachable_Inv _ _ Hr) as HI.
  destruct (session_slot s server P HI Hs) as (i & S & st & Hat & Hk & Hget).
  pose proof Hat as (Hi & Hlt & HsS & HP & Hsrv & Hrange).
  destruct (cleanupSession_spec s i S st P HI Hat) as (s1 & E1 & Hcl & HI1). set (s2 := set_sessions _ s1) in *.
  destruct (pushNotifications_spec s2 HI1) as (s3 & notes & E3 & HI3 & Hpo & _).
  assert (Hnum : num_of P = session_num server) by (unfold num_of; congruence).
  assert (E2 : config_demux (NoSenders server) s = Some (NoReply, s2)).
  { cbn [config_demux]. unfold notify_server_no_senders. rewrite (bind_eq _ _ s tt s2); [done|]. by rewrite <-Hk. }
  assert (Hgone2 : ∀ st1 P1, stores s2 !! st1 = Some P1 → st_server P1 ≠ server).
  { intros st1 P1 HP1 Heq. cbn in HP1. rewrite (cl_stores _ _ _ _ Hcl) in HP1.
    apply lookup_delete_Some in HP1 as [Hne HP1]. apply Hne.
    eapply (w_inj _ _ _ (c_W _ (v_core _ HI))); [done..|]. unfold num_of. congruence. }
  assert (Hback : ∀ st1 P1, stores s3 !! st1 = Some P1 → st_server P1 ≠ 0 → st_server P1 ≠ server).
  { intros st1 P1 HP1 H1 Heq. assert (Hop : opened (stores s2) (num_of P1)).
    { apply (po_opened _ _ Hpo). by exists st1, P1. }
    destruct Hop as (st2 & P2 & HP2 & H2 & Hn). apply (Hgone2 st2 P2 HP2).
    pose proof (server_range _ _ _ (v_sess _ HI1) HP2). pose proof (server_range _ _ _ (v_sess _ HI3) HP1).
    unfold num_of in Hn. apply session_num_inj in Hn; [congruence|lia..]. }
  exists s3. split; [unfold server_round; by rewrite (bind_eq _ _ _ _ _ E2), (bind_eq _ _ _ _ _ E3)|].
  split; [|split; [|split; [|split]]].
  - intros P' (st' & HP' & Heq & H0). by apply (Hback st' P'); [|congruence|].
  - intros k. rewrite (po_data _ _ Hpo). apply (w_none _ _ _ (c_W _ (v_core _ HI1))).
    intros st1 P1 HP1 Hn. apply (Hgone2 _ _ HP1).
    pose proof (server_range _ _ _ (v_sess _ HI1) HP1). unfold num_of in Hn.
    apply session_num_inj in Hn; [done|lia|lia].
  - intros k. rewrite (po_data _ _ Hpo). unfold s2. cbn [set_sessions storeData]. rewrite (cl_view _ _ _ _ Hcl), Hnum. done.
  - intros server' P' Hne (st' & HP' & Heq & H0). apply (posts_peers _ _ Hpo). exists st'.
    split; [|done]. cbn. rewrite (cl_stores _ _ _ _ Hcl), lookup_delete_ne; [done|]. intros <-. congruence.
  - intros n k Hn. rewrite (po_info _ _ Hpo). unfold s2. cbn [set_sessions sessionData].
    rewrite (cl_changes _ _ _ _ Hcl) by congruence. by rewrite Hnum.
Qed.

(** C33: when the last sender of a session's port is gone the session is closed: it
    watches nothing any more, the keys it owns lose value and owner, and the sessions
    that watch one of those keys are told; the other keys and sessions stay. *)
Theorem session_closed port server P (s : dynstore) :
  reachable port s → session s server P →
  ∃ s', server_round (NoSenders server) s = Some (NoReply, s') ∧
    (∀ P', ¬ session s' server P') ∧
    (∀ k, refs (storeData s') k (session_num server) = 0) ∧
    (∀ k, view_of (storeData s') k =
      if decide ((view_of (storeData s) k).2 = Some (session_key server)) then (None, None)
      else view_of (storeData s) k) ∧
    (∀ server' P', server' ≠ server → session s server' P' → ∃ P'', session s' server' P'' ∧ renotified P' P'') ∧
    ∀ n k, n ≠ session_num server → k ∈ changes (sessionData s') n ↔ k ∈ changes (sessionData s) n ∨
      owner_of (storeData s) k = Some (session_key server) ∧ watched (stores s) n k.
Proof. apply close_round. Qed.

(** ** A change and the session that watches for it *)

(** C6: when a client sets a key that a session watches by a Mach port, the session
    is sent a note to its port in the same round; when it then asks for its changes
    it gets the key, and when it asks again there is nothing more. *)
Theorem change_delivered port server w tok peer P q k v tok' (s : dynstore) :
  reachable port s → client s server w tok → may_write tok k = true → denied w k (view_of (storeData s)) = false →
  session s peer P → watches P k →
  st_notifyStatus P = Using_NotifierInformViaMachPort → st_notifyPort P = q → q ≠ MACH_PORT_NULL →
  ∃ s1 notes id l s2 s3,
    server_round (ConfigSet server (Some (CFString k)) (Some v) tok') s = Some (Status kSCStatusOK, s1) ∧
    posted s1 = posted s ++ notes ∧ NotePort q id ∈ notes ∧
    server_round (NotifyChanges peer) s1 = Some (Keys kSCStatusOK l, s2) ∧ k ∈ l ∧
    server_round (NotifyChanges peer) s2 = Some (Keys kSCStatusOK [], s3).
Proof.
  intros Hr Hc Hmay Hden Hs Hw Hst Hq Hq0. pose proof (reachable_Inv _ _ Hr) as HI.
  destruct (set_round port server w tok s Hr Hc k v tok') as (r & s1 & E & Hok & Hch).
  unfold guarded, set_spec in Hok, Hch. cbn [forallb] in Hok, Hch. rewrite Hmay, Hden in Hok, Hch.
  cbn [fst snd andb] in Hok, Hch. subst r.
  assert (Hr1 : reachable port s1) by (eapply reach_round; [exact Hr| |exact E]; exact I).
  destruct Hch as [_ Hch (notes & Hposted & Hall & _) Hpeers].
  destruct (Hpeers _ _ Hs) as (P1 & Hs1 & _). pose proof Hs as (st & HP & Hsrv & H0).
  destruct (Hall st P HP) as [j Hj]; [exists k; split; [set_solver|done]|].
  assert (Hnote : ∃ id, notes_for j P = [NotePort q id]).
  { unfold notes_for. rewrite Hst, Hq, (proj2 (Z.eqb_neq _ _)) by done. eauto. }
  destruct Hnote as [id Hnote]. rewrite Hnote in Hj.
  destruct (fetch_round port peer P1 s1 Hr1 Hs1) as (s2 & E2 & Hnil & _ & _ & Hst2 & _).
  assert (Hr2 : reachable port s2) by (eapply reach_round; [exact Hr1| |exact E2]; exact I).
  destruct (fetch_round port peer P1 s2 Hr2) as (s3 & E3 & _).
  { destruct Hs1 as (st1 & ? & ?). exists st1. by rewrite Hst2. }
  rewrite Hnil in E3. eexists s1, notes, id, _, s2, s3. split; [done|]. split; [done|]. split; [apply Hj; left|].
  split; [exact E2|]. split; [|done]. apply Hch. right. split; [set_solver|].
  apply (session_watched s peer P); done.
Qed.

(** A temporary value of a client goes with it: it is there once added, owned by
    the client's session, and gone when that session is closed. *)
Theorem temporary_value_removed port server w tok k v (s : dynstore) :
  reachable port s → client s server w tok → may_write tok k = true → (view_of (storeData s) k).1 = None →
  ∃ s1 s2, server_round (ConfigAddS server (Some (CFString k)) (Some v)) s = Some (Status kSCStatusOK, s1) ∧
    view_of (storeData s1) k = (Some v, Some (session_key server)) ∧
    server_round (NoSenders server) s1 = Some (NoReply, s2) ∧ view_of (storeData s2) k = (None, None).
Proof.
  intros Hr Hc Hmay Hnone. pose proof (reachable_Inv _ _ Hr) as HI.
  destruct (client_session s server w tok HI Hc) as (P & Hs & ->).
  destruct (add_s_round port server _ tok s Hr Hc k v) as (r & s1 & E & Hok & Hch).
  unfold guarded, add_spec in Hok, Hch. cbn [forallb] in Hok, Hch. rewrite Hmay, Hnone in Hok, Hch.
  cbn [fst snd andb is_some] in Hok, Hch. subst r.
  assert (Hr1 : reachable port s1) by (eapply reach_round; [exact Hr| |exact E]; exact I).
  destruct Hch as [HV _ _ Hpeers]. destruct (Hpeers _ _ Hs) as (P1 & Hs1 & _).
  assert (Hk : view_of (storeData s1) k = (Some v, Some (session_key server))).
  { rewrite (HV k). unfold spec_set, denied. rewrite Hnone. cbn [w_use is_some andb w_key who_of].
    rewrite decide_True by done. unfold new_owner. cbn [w_use w_key]. by destruct Hs as (_ & _ & <- & _). }
  destruct (close_round port server P1 s1 Hr1 Hs1) as (s2 & E2 & _ & _ & HV2 & _).
  exists s1, s2. split; [done|]. split; [done|]. split; [done|]. by rewrite HV2, Hk, decide_True.
Qed.

End live.

Lemma configopen_round_witness :
  ∃ p s', server_round (ConfigOpen 1 (Some (CFString "c")) (Some None) true true user) demo_state =
    Some (NewServer kSCStatusOK p, s') ∧ changes (sessionData s') (session_num p) = [].
Proof.
  destruct (configopen_round 1 1 "c" (Some None) user demo_state demo_state_reachable) as (p & s' & P & E & _ & _ & _ & _ & H & _).
  - exists 4. vm_compute. reflexivity.
  - reflexivity.
  - apply demo_port_free.
  - exists p, s'. split; [exact E|exact H].
Defined.

Lemma session_closed_witness :
  ∃ s', server_round (NoSenders 3) demo_state = Some (NoReply, s') ∧ view_of (storeData s') "b/y" = (None, None).
Proof.
  destruct (session_closed 1 3 demo_Pb demo_state demo_state_reachable demo_session_b) as (s' & E & _ & _ & HV & _).
  exists s'. split; [exact E|]. rewrite HV. vm_compute. reflexivity.
Defined.

Lemma change_delivered_witness :
  ∃ s1 notes id, server_round (ConfigSet 2 (Some (CFString "k")) (Some [Byte.x05]) root) demo_state =
      Some (Status kSCStatusOK, s1) ∧ posted s1 = posted demo_state ++ notes ∧ NotePort 50 id ∈ notes.
Proof.
  destruct (change_delivered 1 2 (who_of demo_Pa) root 3 demo_Pb 50 "k" [Byte.x05] root demo_state
    demo_state_reachable demo_client_a) as (s1 & notes & id & l & s2 & s3 & E & Hp & Hn & _).
  - reflexivity.
  - reflexivity.
  - apply demo_session_b.
  - left. left.
  - reflexivity.
  - reflexivity.
  - discriminate.
  - exists s1, notes, id. split; [exact E|]. split; [exact Hp|exact Hn].
Defined.

Lemma temporary_value_removed_witness :
  ∃ s1 s2, server_round (ConfigAddS 2 (Some (CFString "k")) (Some [Byte.x05])) demo_state = Some (Status kSCStatusOK, s1) ∧
    server_round (NoSenders 2) s1 = Some (NoReply, s2) ∧ view_of (storeData s2) "k" = (None, None).
Proof.
  destruct (temporary_value_removed 1 2 (who_of demo_Pa) root "k" [Byte.x05] demo_state
    demo_state_reachable demo_client_a) as (s1 & s2 & E & _ & E2 & HV); [reflexivity|vm_compute; reflexivity|].
  exists s1, s2. split; [exact E|]. split; [exact E2|exact HV].
Defined.
