(* ===== verification/LaunchData.v ===== *)
(** * liblaunch: the [launch_data_t] tree (src/src/liblaunch/liblaunch.c)

    The tagged union [struct _launch_data] and the operations that build, read
    and change it. A node owns the blocks and the nodes it points to, so a
    [launch_data_t] is a value of an inductive type: an array block is a list
    of pointers ([None] is NULL), a [char *] is the list of the bytes the
    pointer may read, a scalar is the 64-bit word all scalar members of the
    union share. Reading a member the tag does not select, following NULL and
    leaving a block are crashes ([None]). [malloc] is taken to succeed. The second
    part shows that dictionaries are finite maps. *)

From S2P Require Import Prelude.

Local Open Scope Z_scope.

(** ** The tags *)

Inductive array_type := LAUNCH_DATA_DICTIONARY | LAUNCH_DATA_ARRAY.
Inductive scalar_type :=
  LAUNCH_DATA_FD | LAUNCH_DATA_INTEGER | LAUNCH_DATA_REAL | LAUNCH_DATA_BOOL
| LAUNCH_DATA_ERRNO | LAUNCH_DATA_MACHPORT.
Inductive launch_data_type :=
  TArray (t : array_type) | TScalar (t : scalar_type) | LAUNCH_DATA_STRING | LAUNCH_DATA_OPAQUE.

#[export] Instance array_type_eq_dec : EqDecision array_type.
Proof. solve_decision. Defined.
#[export] Instance scalar_type_eq_dec : EqDecision scalar_type.
Proof. solve_decision. Defined.
#[export] Instance launch_data_type_eq_dec : EqDecision launch_data_type.
Proof. solve_decision. Defined.

(** The values of [enum launch_data_type_t] (launch.h). *)
Definition type_code (t : launch_data_type) : Z :=
  match t with
  | TArray LAUNCH_DATA_DICTIONARY => 1
  | TArray LAUNCH_DATA_ARRAY => 2
  | TScalar LAUNCH_DATA_FD => 3
  | TScalar LAUNCH_DATA_INTEGER => 4
  | TScalar LAUNCH_DATA_REAL => 5
  | TScalar LAUNCH_DATA_BOOL => 6
  | LAUNCH_DATA_STRING => 7
  | LAUNCH_DATA_OPAQUE => 8
  | TScalar LAUNCH_DATA_ERRNO => 9
  | TScalar LAUNCH_DATA_MACHPORT => 10
  end.

Definition type_of_code (z : Z) : option launch_data_type :=
  match z with
  | 1 => Some (TArray LAUNCH_DATA_DICTIONARY)
  | 2 => Some (TArray LAUNCH_DATA_ARRAY)
  | 3 => Some (TScalar LAUNCH_DATA_FD)
  | 4 => Some (TScalar LAUNCH_DATA_INTEGER)
  | 5 => Some (TScalar LAUNCH_DATA_REAL)
  | 6 => Some (TScalar LAUNCH_DATA_BOOL)
  | 7 => Some LAUNCH_DATA_STRING
  | 8 => Some LAUNCH_DATA_OPAQUE
  | 9 => Some (TScalar LAUNCH_DATA_ERRNO)
  | 10 => Some (TScalar LAUNCH_DATA_MACHPORT)
  | _ => None
  end.

(** ** [struct _launch_data] *)

Inductive launch_data :=
| LD_array (t : array_type) (_array : list (option launch_data))
| LD_string (string : option (list byte)) (string_len : Z)
| LD_opaque (opaque : list byte) (opaque_size : Z)
| LD_scalar (t : scalar_type) (word : Z).

(** [sizeof(struct _launch_data)]: the tag, and the two words of the union. *)
Definition sizeof_launch_data : Z := 24.

Section induction.
Variable P : launch_data → Prop.
Hypothesis Harray : ∀ t l, Forall (from_option P True) l → P (LD_array t l).
Hypothesis Hstring : ∀ s n, P (LD_string s n).
Hypothesis Hopaque : ∀ o n, P (LD_opaque o n).
Hypothesis Hscalar : ∀ t w, P (LD_scalar t w).

Fixpoint launch_data_ind' (d : launch_data) : P d :=
  match d with
  | LD_array t l =>
      Harray t l ((fix go (l : list (option launch_data)) : Forall (from_option P True) l :=
        match l with
        | [] => Forall_nil_2 _
        | o :: l' => Forall_cons_2 _ o l'
            (match o return from_option P True o with
             | Some d => launch_data_ind' d
             | None => I
             end) (go l')
        end) l)
  | LD_string s n => Hstring s n
  | LD_opaque o n => Hopaque o n
  | LD_scalar t w => Hscalar t w
  end.
End induction.

(** ** Construction *)

Definition launch_data_alloc (t : launch_data_type) : launch_data :=
  match t with
  | TArray t => LD_array t []
  | LAUNCH_DATA_OPAQUE => LD_opaque [] 0
  | LAUNCH_DATA_STRING => LD_string None 0
  | TScalar t => LD_scalar t 0
  end.

Definition launch_data_get_type (d : launch_data) : launch_data_type :=
  match d with
  | LD_array t _ => TArray t
  | LD_string _ _ => LAUNCH_DATA_STRING
  | LD_opaque _ _ => LAUNCH_DATA_OPAQUE
  | LD_scalar t _ => TScalar t
  end.

(** ** Scalars: every one is stored in the same word *)


Definition set_word (d : launch_data) (w : Z) : option launch_data :=
  match d with LD_scalar t _ => Some (LD_scalar t w) | _ => None end.
Definition get_word (d : launch_data) : option Z :=
  match d with LD_scalar _ w => Some w | _ => None end.

Definition launch_data_set_errno (d : launch_data) (e : Z) := set_word d (u64 e).
Definition launch_data_set_fd (d : launch_data) (fd : Z) := set_word d (u64 fd).
Definition launch_data_set_machport (d : launch_data) (p : Z) := set_word d (u64 p).
Definition launch_data_set_integer (d : launch_data) (n : Z) := set_word d (u64 n).
Definition launch_data_set_bool (d : launch_data) (b : bool) := set_word d (if b then 1 else 0).
(** A [double] is its 64-bit representation. *)
Definition launch_data_set_real (d : launch_data) (bits : Z) := set_word d (u64 bits).

Definition launch_data_get_errno (d : launch_data) : option Z := i32 <$> get_word d.
Definition launch_data_get_fd (d : launch_data) : option Z := i32 <$> get_word d.
Definition launch_data_get_machport (d : launch_data) : option Z := u32 <$> get_word d.
Definition launch_data_get_integer (d : launch_data) : option Z := i64 <$> get_word d.
Definition launch_data_get_bool (d : launch_data) : option bool :=
  (λ w, negb (w =? 0)) <$> get_word d.
Definition launch_data_get_real (d : launch_data) : option Z := get_word d.

(** ** Strings and opaque data *)

(** [s] is a C string: its bytes before the NUL. *)
Definition launch_data_set_string (d : launch_data) (s : list byte) : option launch_data :=
  match d with
  | LD_string _ _ => Some (LD_string (Some (s ++ [x00])) (Z.of_nat (length s)))
  | _ => None
  end.

Definition launch_data_set_opaque (d : launch_data) (o : list byte) : option launch_data :=
  match d with
  | LD_opaque _ _ => Some (LD_opaque o (Z.of_nat (length o)))
  | _ => None
  end.

(** [None] is NULL. *)
Definition launch_data_get_string (d : launch_data) : option (list byte) :=
  match d with LD_string s _ => s | _ => None end.
Definition launch_data_get_opaque (d : launch_data) : option (list byte) :=
  match d with LD_opaque o _ => Some o | _ => None end.
Definition launch_data_get_opaque_size (d : launch_data) : option Z :=
  match d with
  | LD_opaque _ n => Some n
  | LD_string _ n => Some n
  | LD_array _ l => Some (Z.of_nat (length l))
  | LD_scalar _ _ => None
  end.

Definition launch_data_new_errno (e : Z) :=
  launch_data_set_errno (launch_data_alloc (TScalar LAUNCH_DATA_ERRNO)) e.
Definition launch_data_new_fd (fd : Z) :=
  launch_data_set_fd (launch_data_alloc (TScalar LAUNCH_DATA_FD)) fd.
Definition launch_data_new_machport (p : Z) :=
  launch_data_set_machport (launch_data_alloc (TScalar LAUNCH_DATA_MACHPORT)) p.
Definition launch_data_new_integer (n : Z) :=
  launch_data_set_integer (launch_data_alloc (TScalar LAUNCH_DATA_INTEGER)) n.
Definition launch_data_new_bool (b : bool) :=
  launch_data_set_bool (launch_data_alloc (TScalar LAUNCH_DATA_BOOL)) b.
Definition launch_data_new_real (bits : Z) :=
  launch_data_set_real (launch_data_alloc (TScalar LAUNCH_DATA_REAL)) bits.
Definition launch_data_new_string (s : list byte) :=
  launch_data_set_string (launch_data_alloc LAUNCH_DATA_STRING) s.
Definition launch_data_new_opaque (o : list byte) :=
  launch_data_set_opaque (launch_data_alloc LAUNCH_DATA_OPAQUE) o.

(** ** Arrays *)

(** [launch_data_array_set_index]: the array grows, with NULLs, up to [ind]. The
    node that was there is freed. *)
Definition array_set_index (a : list (option launch_data)) (what : option launch_data) (ind : nat)
    : list (option launch_data) :=
  let a := if (length a <=? ind + 1)%nat
           then a ++ replicate (ind + 1 - length a) None else a in
  <[ind := what]> a.

Definition launch_data_array_set_index (d : launch_data) (what : option launch_data) (ind : nat)
    : option launch_data :=
  match d with
  | LD_array t a => Some (LD_array t (array_set_index a what ind))
  | _ => None
  end.

Definition launch_data_array_get_index (d : launch_data) (ind : nat) : option launch_data :=
  match d with
  | LD_array LAUNCH_DATA_ARRAY a => mjoin (a !! ind)
  | _ => None
  end.

Definition launch_data_array_get_count (d : launch_data) : nat :=
  match d with LD_array LAUNCH_DATA_ARRAY a => length a | _ => 0%nat end.

(** The popped pointer and the array after the call. *)
Definition launch_data_array_pop_first (d : launch_data) : option (option launch_data * launch_data) :=
  match d with
  | LD_array t (x :: a) => Some (x, LD_array t a)
  | LD_array t [] => Some (None, d)
  | _ => None
  end.

(** ** Dictionaries: an array of keys and values in turn *)

(** [tolower] in the C locale. *)
Definition tolower (b : byte) : byte :=
  let z := Z_of_byte b in if (65 <=? z) && (z <=? 90) then byte_of_Z (z + 32) else b.

(** [strcasecmp(key, blk) == 0], [key] given by its bytes before the NUL:
    bytes are read up to the first difference. *)
Fixpoint strcaseeq (key blk : list byte) : option bool :=
  match blk with
  | [] => None
  | b :: blk =>
      match key with
      | [] => Some (bool_decide (b = x00))
      | k :: key =>
          if bool_decide (tolower k = tolower b) then strcaseeq key blk else Some false
      end
  end.

(** [strcasecmp(key, p->string)] of a pointer to a node. *)
Definition key_matches (key : list byte) (p : option launch_data) : option bool :=
  match p with
  | Some (LD_string (Some blk) _) => strcaseeq key blk
  | _ => None
  end.

(** [for (i = 0; i < cnt; i += 2) if (!strcasecmp(key, _array[i]->string)) break;]:
    the final [i], and whether a key matched. *)
Fixpoint dict_find (a : list (option launch_data)) (key : list byte) (i : nat) : option (nat * bool) :=
  match a with
  | [] => Some (i, false)
  | p :: rest =>
      b ← key_matches key p;
      if (b : bool) then Some (i, true) else
      match rest with
      | [] => Some (i + 2, false)%nat
      | _ :: rest => dict_find rest key (i + 2)
      end
  end.

Definition launch_data_dict_get_count (d : launch_data) : option nat :=
  match d with LD_array _ a => Some (Nat.div2 (length a)) | _ => None end.

Definition launch_data_dict_insert (d : launch_data) (what : option launch_data) (key : list byte)
    : option launch_data :=
  thekey ← launch_data_set_string (launch_data_alloc LAUNCH_DATA_STRING) key;
  match d with
  | LD_array t a =>
      r ← dict_find a key 0;
      let a := array_set_index a (Some thekey) r.1 in
      Some (LD_array t (array_set_index a what (r.1 + 1)))
  | _ => None
  end.

(** The outer [option] is the crash, the inner one the returned pointer. *)
Definition launch_data_dict_lookup (d : launch_data) (key : list byte)
    : option (option launch_data) :=
  match d with
  | LD_array LAUNCH_DATA_DICTIONARY a =>
      r ← dict_find a key 0;
      if (r.2 : bool) then a !! (r.1 + 1)%nat else Some None
  | _ => Some None
  end.

Definition launch_data_dict_remove (d : launch_data) (key : list byte)
    : option (bool * launch_data) :=
  match d with
  | LD_array t a =>
      r ← dict_find a key 0;
      if bool_decide (r.1 = length a) then Some (false, d) else
      match a !! r.1, a !! (r.1 + 1)%nat with
      | Some (Some _), Some (Some _) =>
          Some (true, LD_array t (take r.1 a ++ drop (r.1 + 2) a))
      | _, _ => None
      end
  | _ => None
  end.

(** The calls [cb(value, key, context)], in order. *)
Fixpoint iterate (a : list (option launch_data))
    : option (list (option launch_data * option (list byte))) :=
  match a with
  | [] => Some []
  | k :: v :: a =>
      match k with
      | Some (LD_string s _) => l ← iterate a; Some ((v, s) :: l)
      | _ => None
      end
  | [_] => None
  end.

Definition launch_data_dict_iterate (d : launch_data) :=
  match d with LD_array LAUNCH_DATA_DICTIONARY a => iterate a | _ => Some [] end.

(** ** Copying *)

(** [strdup]: the block up to and including the first NUL. *)
Fixpoint strdup (blk : list byte) : option (list byte) :=
  match blk with
  | [] => None
  | b :: blk => if bool_decide (b = x00) then Some [b] else cons b <$> strdup blk
  end.

Fixpoint launch_data_copy (o : launch_data) : option launch_data :=
  match o with
  | LD_array t a =>
      LD_array t <$> (fix go (a : list (option launch_data)) :=
        match a with
        | [] => Some []
        | None :: a => cons None <$> go a
        | Some d :: a => d' ← launch_data_copy d; cons (Some d') <$> go a
        end) a
  | LD_string s n => blk ← s; s' ← strdup blk; Some (LD_string (Some s') n)
  | LD_opaque b n =>
      if n <=? Z.of_nat (length b) then Some (LD_opaque (take (Z.to_nat n) b) n) else None
  | LD_scalar t w => Some (LD_scalar t w)
  end.

(** ** liblaunch dictionaries as finite maps

    A dictionary is an array of keys and values in turn whose keys are compared
    with [strcasecmp]. Its contract is a finite map on case-folded keys;
    [is_dict] relates the two and the lemmas show that the operations of
    LaunchData.v implement the map's. *)

Local Close Scope Z_scope.

#[export] Instance byte_countable : Countable byte :=
  inj_countable Byte.to_N Byte.of_N Byte.of_to_N.

(** ** Case-insensitive keys *)

Definition fold_key (k : list byte) : list byte := tolower <$> k.
Definition nul_free (k : list byte) : bool := bool_decide (x00 ∉ k).

(** [strdup]'s node for a key. *)
Definition key_node (k : list byte) : launch_data :=
  LD_string (Some (k ++ [x00])) (Z.of_nat (length k)).

Lemma tolower_nul b : tolower b = x00 ↔ b = x00.
Proof. split; [|by intros ->]. destruct b; vm_compute; congruence. Qed.

Lemma nul_free_cons b k : nul_free (b :: k) → b ≠ x00 ∧ nul_free k.
Proof. unfold nul_free. rewrite !bool_decide_spec. set_solver. Qed.

Lemma fold_key_cons b k : fold_key (b :: k) = tolower b :: fold_key k.
Proof. done. Qed.

Lemma strcaseeq_spec k1 k2 :
  nul_free k1 → nul_free k2 →
  strcaseeq k1 (k2 ++ [x00]) = Some (bool_decide (fold_key k1 = fold_key k2)).
Proof.
  revert k2. induction k1 as [|a k1 IH]; intros [|b k2] H1 H2;
    cbn [strcaseeq app]; rewrite ?fold_key_cons; try done.
  - apply nul_free_cons in H2 as [Hb _].
    rewrite !bool_decide_eq_false_2; [done|by intros ?|done].
  - apply nul_free_cons in H1 as [Ha _].
    rewrite bool_decide_eq_false_2; [by rewrite bool_decide_eq_false_2|].
    change (tolower x00) with x00. by rewrite tolower_nul.
  - apply nul_free_cons in H1 as [_ H1]. apply nul_free_cons in H2 as [_ H2].
    case_bool_decide as E.
    + rewrite IH by done. f_equal. apply bool_decide_ext. rewrite E.
      split; [by intros ->|by intros [= ?]].
    + rewrite bool_decide_eq_false_2; [done|]. by intros [= ?].
Qed.

Lemma key_matches_node k k' :
  nul_free k → nul_free k' →
  key_matches k (Some (key_node k')) = Some (bool_decide (fold_key k = fold_key k')).
Proof. apply strcaseeq_spec. Qed.

(** ** The array of a list of pairs *)

Definition dict_entry := (list byte * option launch_data)%type.

Definition dict_array (ps : list dict_entry) : list (option launch_data) :=
  ps ≫= λ p, [Some (key_node p.1); p.2].

Definition dict_entries_ok (ps : list dict_entry) : Prop :=
  NoDup (fold_key ∘ fst <$> ps) ∧ Forall (λ p, nul_free p.1) ps.

Definition entries_map (ps : list dict_entry) : gmap (list byte) (option launch_data) :=
  list_to_map ((λ p, (fold_key p.1, p.2)) <$> ps).

(** The dictionary [d] holds the map [m]. *)
Definition is_dict (d : launch_data) (m : gmap (list byte) (option launch_data)) : Prop :=
  ∃ ps, d = LD_array LAUNCH_DATA_DICTIONARY (dict_array ps) ∧ dict_entries_ok ps ∧ m = entries_map ps.

Lemma dict_array_app ps1 ps2 : dict_array (ps1 ++ ps2) = dict_array ps1 ++ dict_array ps2.
Proof. apply bind_app. Qed.

Lemma dict_array_cons p ps : dict_array (p :: ps) = Some (key_node p.1) :: p.2 :: dict_array ps.
Proof. done. Qed.

Lemma length_dict_array ps : length (dict_array ps) = 2 * length ps.
Proof. induction ps as [|p ps IH]; [done|]. rewrite dict_array_cons. cbn [length]. lia. Qed.

Lemma entries_map_fst ps : ((λ p : dict_entry, (fold_key p.1, p.2)) <$> ps).*1 = fold_key ∘ fst <$> ps.
Proof. by rewrite <-list_fmap_compose. Qed.

Lemma entries_map_lookup ps1 p ps2 :
  dict_entries_ok (ps1 ++ p :: ps2) →
  entries_map (ps1 ++ p :: ps2) = <[fold_key p.1 := p.2]> (entries_map (ps1 ++ ps2)).
Proof.
  intros [Hnd _]. unfold entries_map.
  change (<[_:=_]> (list_to_map ?l)) with
    (list_to_map ((fold_key p.1, p.2) :: l) : gmap (list byte) (option launch_data)).
  apply list_to_map_proper; [by rewrite entries_map_fst|].
  rewrite !fmap_app, fmap_cons. symmetry. apply Permutation_middle.
Qed.

Lemma entries_map_None ps k :
  (∀ p, p ∈ ps → fold_key p.1 ≠ k) → entries_map ps !! k = None.
Proof.
  intros H. apply not_elem_of_list_to_map. rewrite entries_map_fst.
  intros (p & -> & Hp)%list_elem_of_fmap. by apply (H p).
Qed.

Lemma size_entries_map ps : dict_entries_ok ps → size (entries_map ps) = length ps.
Proof.
  intros [Hnd _]. unfold entries_map. induction ps as [|p ps IH]; cbn; [apply map_size_empty|].
  apply NoDup_cons in Hnd as [Hp Hnd]. rewrite map_size_insert_None, IH; [done..|].
  apply entries_map_None. intros q Hq Hk. apply Hp, list_elem_of_fmap. by exists q.
Qed.

(** ** The search *)

(** Where a key is found: the first entry whose key folds to the same. *)
Lemma dict_find_spec ps key i :
  dict_entries_ok ps → nul_free key →
  (∃ ps1 k v ps2, ps = ps1 ++ (k, v) :: ps2 ∧ fold_key k = fold_key key ∧
     (∀ p, p ∈ ps1 → fold_key p.1 ≠ fold_key key) ∧
     dict_find (dict_array ps) key i = Some (i + length (dict_array ps1), true)%nat) ∨
  ((∀ p, p ∈ ps → fold_key p.1 ≠ fold_key key) ∧
     dict_find (dict_array ps) key i = Some (i + length (dict_array ps), false)%nat).
Proof.
  intros [_ Hok] Hkey. revert i. induction Hok as [|[k v] ps Hk Hps IH]; intros i.
  { right. cbn. split; [set_solver|]. by rewrite Nat.add_0_r. }
  rewrite dict_array_cons. cbn [dict_find fst snd]. rewrite key_matches_node by done. cbn [mbind option_bind].
  case_bool_decide as E.
  { left. exists [], k, v, ps. cbn. rewrite Nat.add_0_r. split_and!; set_solver. }
  destruct (IH (i + 2)%nat) as [(ps1 & k' & v' & ps2 & -> & E' & Hn & Hf)|[Hn Hf]].
  - left. exists ((k, v) :: ps1), k', v', ps2. rewrite Hf. split_and!; [done|done| |].
    + intros p [->|Hp]%elem_of_cons; [by intros ?|by apply Hn].
    + change (dict_array ((k, v) :: ps1)) with (Some (key_node k) :: v :: dict_array ps1).
      cbn [length]. do 2 f_equal. lia.
  - right. rewrite Hf. split.
    + intros p [->|Hp]%elem_of_cons; [by intros ?|by apply Hn].
    + cbn [length]. do 2 f_equal. lia.
Qed.

Lemma entries_map_found ps1 k v ps2 key :
  dict_entries_ok (ps1 ++ (k, v) :: ps2) → fold_key k = fold_key key →
  entries_map (ps1 ++ (k, v) :: ps2) !! fold_key key = Some v.
Proof. intros Hok <-. rewrite entries_map_lookup by done. apply lookup_insert_eq. Qed.

(** ** The operations implement the map's *)

Lemma is_dict_empty : is_dict (launch_data_alloc (TArray LAUNCH_DATA_DICTIONARY)) ∅.
Proof. exists []. split_and!; [done| |done]. split; [apply NoDup_nil_2|done]. Qed.

Lemma is_dict_lookup d m key :
  is_dict d m → nul_free key →
  launch_data_dict_lookup d key = Some (mjoin (m !! fold_key key)).
Proof.
  intros (ps & -> & Hok & ->) Hkey. cbn [launch_data_dict_lookup].
  destruct (dict_find_spec ps key 0 Hok Hkey) as [(ps1 & k & v & ps2 & -> & E & _ & ->)|[Hn ->]];
    cbn [mbind option_bind fst snd].
  - rewrite entries_map_found by done. cbn [mjoin option_join].
    rewrite dict_array_app, lookup_app_r by lia. by replace (_ - _)%nat with 1%nat by lia.
  - by rewrite entries_map_None.
Qed.

Lemma is_dict_count d m : is_dict d m → launch_data_dict_get_count d = Some (size m).
Proof.
  intros (ps & -> & Hok & ->). cbn. by rewrite length_dict_array, Nat.div2_double, size_entries_map.
Qed.

Lemma insert_middle {A} (l1 l2 : list A) x y : <[length l1 := y]> (l1 ++ x :: l2) = l1 ++ y :: l2.
Proof. by rewrite insert_app_r_alt, Nat.sub_diag. Qed.

Lemma array_set_index_in (l1 l2 : list (option launch_data)) x y :
  array_set_index (l1 ++ x :: l2) y (length l1) = l1 ++ y :: l2.
Proof.
  unfold array_set_index. rewrite length_app. cbn [length].
  destruct (Nat.leb_spec (length l1 + S (length l2)) (length l1 + 1)) as [Hl|Hl];
    [|apply insert_middle].
  replace (_ + 1 - _)%nat with 0%nat by lia. cbn [replicate].
  by rewrite app_nil_r, insert_middle.
Qed.

Lemma array_set_index_end (l : list (option launch_data)) y :
  array_set_index l y (length l) = l ++ [y].
Proof.
  unfold array_set_index. rewrite (proj2 (Nat.leb_le _ _)) by lia.
  replace (_ + 1 - _)%nat with 1%nat by lia. apply insert_middle.
Qed.

Lemma set_pair_in (l1 l2 : list (option launch_data)) x y x' y' :
  array_set_index (array_set_index (l1 ++ x :: y :: l2) x' (length l1)) y' (length l1 + 1) =
  l1 ++ x' :: y' :: l2.
Proof.
  rewrite array_set_index_in. pose proof (array_set_index_in (l1 ++ [x']) l2 y y') as H.
  rewrite length_app, <-!app_assoc in H. exact H.
Qed.

Lemma set_pair_end (l : list (option launch_data)) x' y' :
  array_set_index (array_set_index l x' (length l)) y' (length l + 1) = l ++ [x'; y'].
Proof.
  rewrite array_set_index_end. pose proof (array_set_index_end (l ++ [x']) y') as H.
  rewrite length_app, <-!app_assoc in H. exact H.
Qed.

(** An entry replaces the one with the same key, or is added at the end. *)
Lemma entries_replace ps1 k v ps2 key what :
  dict_entries_ok (ps1 ++ (k, v) :: ps2) → fold_key k = fold_key key → nul_free key →
  dict_entries_ok (ps1 ++ (key, what) :: ps2) ∧
  entries_map (ps1 ++ (key, what) :: ps2) =
    <[fold_key key := what]> (entries_map (ps1 ++ (k, v) :: ps2)).
Proof.
  intros Hok E Hkey.
  assert (dict_entries_ok (ps1 ++ (key, what) :: ps2)) as Hok'.
  { destruct Hok as [Hnd Hfree]. split.
    - rewrite fmap_app, fmap_cons in *. unfold compose in *. cbn [fst] in *. by rewrite <-E.
    - apply Forall_app in Hfree as [? Hfree]. apply Forall_cons in Hfree as [? ?].
      by apply Forall_app_2, Forall_cons_2. }
  split; [done|]. rewrite !entries_map_lookup by done. cbn [fst snd].
  by rewrite E, insert_insert_eq.
Qed.

Lemma entries_add ps key what :
  dict_entries_ok ps → nul_free key → (∀ p, p ∈ ps → fold_key p.1 ≠ fold_key key) →
  dict_entries_ok (ps ++ [(key, what)]) ∧
  entries_map (ps ++ [(key, what)]) = <[fold_key key := what]> (entries_map ps).
Proof.
  intros [Hnd Hfree] Hkey Hn.
  assert (dict_entries_ok (ps ++ [(key, what)])) as Hok.
  { split.
    - rewrite fmap_app. apply NoDup_app. split_and!; [done| |apply NoDup_singleton].
      intros k (p & -> & Hp)%list_elem_of_fmap Hk%list_elem_of_singleton. by apply (Hn p).
    - by apply Forall_app_2, Forall_cons_2. }
  split; [done|]. by rewrite entries_map_lookup, app_nil_r by done.
Qed.

Lemma is_dict_insert d m what key :
  is_dict d m → nul_free key →
  ∃ d', launch_data_dict_insert d what key = Some d' ∧ is_dict d' (<[fold_key key := what]> m).
Proof.
  intros (ps & -> & Hok & ->) Hkey.
  cbn [launch_data_dict_insert launch_data_set_string launch_data_alloc mbind option_bind].
  fold (key_node key).
  destruct (dict_find_spec ps key 0 Hok Hkey) as [(ps1 & k & v & ps2 & -> & E & _ & ->)|[Hn ->]];
    cbn [mbind option_bind fst snd]; rewrite Nat.add_0_l; eexists; (split; [reflexivity|]).
  - destruct (entries_replace ps1 k v ps2 key what Hok E Hkey) as [Hok' Hm].
    exists (ps1 ++ (key, what) :: ps2). split_and!; [|done..].
    by rewrite !dict_array_app, !dict_array_cons, set_pair_in.
  - destruct (entries_add ps key what Hok Hkey Hn) as [Hok' Hm].
    exists (ps ++ [(key, what)]). split_and!; [|done..].
    by rewrite set_pair_end, dict_array_app.
Qed.

Lemma entries_drop ps1 k v ps2 :
  dict_entries_ok (ps1 ++ (k, v) :: ps2) →
  dict_entries_ok (ps1 ++ ps2) ∧
  entries_map (ps1 ++ ps2) = delete (fold_key k) (entries_map (ps1 ++ (k, v) :: ps2)).
Proof.
  intros Hok. pose proof Hok as [Hnd Hfree].
  rewrite fmap_app, fmap_cons in Hnd.
  rewrite <-Permutation_middle, <-fmap_app in Hnd. apply NoDup_cons in Hnd as [Hk Hnd].
  split.
  - split; [done|]. apply Forall_app in Hfree as [? Hfree].
    apply Forall_cons in Hfree as [? ?]. by apply Forall_app_2.
  - rewrite entries_map_lookup by done. symmetry. apply delete_insert_id, entries_map_None.
    intros p Hp E. apply Hk, list_elem_of_fmap. by exists p.
Qed.

(** A removed value must not be NULL: it is freed unconditionally. *)
Lemma is_dict_remove d m key :
  is_dict d m → nul_free key → m !! fold_key key ≠ Some None →
  ∃ d', launch_data_dict_remove d key = Some (bool_decide (is_Some (m !! fold_key key)), d') ∧
    is_dict d' (delete (fold_key key) m).
Proof.
  intros (ps & -> & Hok & ->) Hkey. cbn [launch_data_dict_remove].
  destruct (dict_find_spec ps key 0 Hok Hkey) as [(ps1 & k & v & ps2 & -> & E & _ & ->)|[Hn ->]];
    cbn [mbind option_bind fst snd]; rewrite Nat.add_0_l.
  - rewrite entries_map_found by done. intros Hv. destruct v as [v|]; [|done].
    rewrite bool_decide_eq_false_2 by (rewrite dict_array_app, length_app, dict_array_cons; cbn [length]; lia).
    rewrite dict_array_app, dict_array_cons, list_lookup_middle by done.
    rewrite lookup_app_r by lia. replace (_ - _)%nat with 1%nat by lia. cbn [lookup list_lookup].
    rewrite take_app_length, drop_app_add, bool_decide_eq_true_2 by eauto. cbn [drop].
    eexists. split; [done|]. destruct (entries_drop ps1 k (Some v) ps2 Hok) as [Hok' Hm].
    exists (ps1 ++ ps2). rewrite dict_array_app, <-E. done.
  - rewrite entries_map_None by done. intros _. rewrite bool_decide_eq_true_2 by done.
    exists (LD_array LAUNCH_DATA_DICTIONARY (dict_array ps)).
    rewrite bool_decide_eq_false_2 by (by intros [? ?]). split; [done|].
    exists ps. split_and!; [done..|]. apply delete_id, entries_map_None, Hn.
Qed.

(** The callback sees every entry once. *)
Lemma is_dict_iterate d m :
  is_dict d m →
  ∃ ps, launch_data_dict_iterate d = Some ((λ p : dict_entry, (p.2, Some (p.1 ++ [x00]))) <$> ps) ∧
    dict_entries_ok ps ∧ m = entries_map ps.
Proof.
  intros (ps & -> & Hok & ->). exists ps. split_and!; [|done..]. cbn [launch_data_dict_iterate].
  clear Hok. induction ps as [|p ps IH]; [done|].
  rewrite dict_array_cons. cbn [iterate key_node mbind option_bind]. by rewrite IH.
Qed.
