(* ===== verification/LaunchWire.v ===== *)
(** * liblaunch: packing and unpacking (src/src/liblaunch/liblaunch.c)

    [launch_data_pack] writes a tree into a buffer, [launch_data_unpack] turns a
    received buffer back into a tree, in place. Memory is a list of bytes,
    sizes and offsets are 64-bit words with their wrap-around, and every access
    outside the buffer is a crash. On amd64 [host2wire] and [big2wire] are the
    identity.

    The unpacked tree lives in the buffer: its pointers overwrite the [_array],
    [string] and slot words of the nodes, all of which lie inside the node that
    is being read, so that the tree can be given as a value. A pointer stored
    outside the node's own slots is a crash. *)

From S2P Require Import Prelude LaunchData.

Local Open Scope Z_scope.
Local Open Scope c_scope.

Definition load64 (mem : list byte) (off : Z) : option Z := le_decode <$> mem_load mem off 8.

(** [ROUND_TO_64BIT_WORD_SIZE]. *)
Definition ROUND_TO_64BIT_WORD_SIZE (x : Z) : Z := Z.land (u64 (x + 7)) (Z.lnot 7).

(** ** [launch_data_pack]

    The state is the memory [where] points into and the descriptors written to
    [fd_where], an array with room for [fd_room] of them. *)

Definition packer := C (list byte * list Z).

Definition put (off : Z) (bs : list byte) : packer unit := λ s,
  match mem_store s.1 off bs with Some mem => Some (tt, (mem, s.2)) | None => None end.
Definition put64 (off z : Z) : packer unit := put off (le_encode 8 z).

(** [if (fd_where && fd != -1) fd_where[( *fd_cnt)++] = fd;] *)
Definition put_fd (fd_where : option nat) (fd : Z) : packer unit := λ s,
  match fd_where with
  | Some fd_room =>
      if fd =? -1 then Some (tt, s)
      else if (length s.2 <? fd_room)%nat then Some (tt, (s.1, s.2 ++ [i32 fd])) else None
  | None => Some (tt, s)
  end.

Fixpoint launch_data_pack (d : launch_data) (where_ len : Z) (fd_where : option nat) : packer Z :=
  if len <? sizeof_launch_data then ret 0 else
  put64 where_ (type_code (launch_data_get_type d)) ;;
  let body := where_ + sizeof_launch_data in
  match d with
  | LD_scalar LAUNCH_DATA_MACHPORT _ => ret sizeof_launch_data
  | LD_scalar t w =>
      put64 (where_ + 8) w ;;
      when (bool_decide (t = LAUNCH_DATA_FD)) (put_fd fd_where (i64 w)) ;;
      ret sizeof_launch_data
  | LD_string s n =>
      put64 (where_ + 16) n ;;
      let room := ROUND_TO_64BIT_WORD_SIZE (u64 (n + 1)) in
      let node_data_len := u64 (sizeof_launch_data + room) in
      if len <? node_data_len then ret 0 else
      let* bs := deref (s ≫= λ s, mem_load s 0 (u64 (n + 1))) in
      put body bs ;;
      put (body + u64 (n + 1)) (replicate (Z.to_nat (u64 (room - u64 (n + 1)))) x00) ;;
      ret node_data_len
  | LD_opaque o n =>
      put64 (where_ + 16) n ;;
      let room := ROUND_TO_64BIT_WORD_SIZE n in
      let node_data_len := u64 (sizeof_launch_data + room) in
      if len <? node_data_len then ret 0 else
      let* bs := deref (mem_load o 0 n) in
      put body bs ;;
      put (body + n) (replicate (Z.to_nat (u64 (room - n))) x00) ;;
      ret node_data_len
  | LD_array t l =>
      let cnt := Z.of_nat (length l) in
      put64 (where_ + 16) cnt ;;
      let node_data_len := u64 (sizeof_launch_data + u64 (cnt * 8)) in
      if len <? node_data_len then ret 0 else
      (fix go (l : list (option launch_data)) (where_ node_data_len : Z) : packer Z :=
        match l with
        | [] => ret node_data_len
        | p :: l =>
            let room := u64 (len - node_data_len) in
            let* rsz := match p with
                        | Some d => launch_data_pack d where_ room fd_where
                        | None => if room <? sizeof_launch_data then ret 0 else crash
                        end in
            if rsz =? 0 then ret 0 else
            go l (where_ + rsz) (u64 (node_data_len + rsz))
        end) l (body + u64 (cnt * 8)) node_data_len
  end.

(** ** [launch_data_unpack] *)

Inductive result (A : Type) := OutOfFuel | Crash | Done (a : A).
Arguments OutOfFuel {A}.
Arguments Crash {A}.
Arguments Done {A} a.

(** NULL, with the [errno] the call set, or a node. *)
Inductive unpacked (A : Type) := UNull (errno : option Z) | UNode (a : A).
Arguments UNull {A} errno.
Arguments UNode {A} a.

Definition EAGAIN : Z := 35.
Definition EINVAL : Z := 22.

(** The returned pointer, and [*data_offset] and [*fdoffset] after the call. *)
Definition position (A : Type) : Type := unpacked A * Z * Z.

Section unpack.
Variable mem : list byte.
Variable data_size : Z.
Variable fds : list Z.

(** A [FD] node takes the next received descriptor, if there is one. *)
Definition take_fd (w fdoff : Z) : Z * Z :=
  if negb (w =? 2 ^ 64 - 1) then
    match fds !! Z.to_nat fdoff with
    | Some fd => (u64 fd, fdoff + 1)
    | None => (w, fdoff)
    end
  else (w, fdoff).

Definition null_at {A} (e : option Z) (off fdoff : Z) : result (position A) :=
  Done (UNull e, off, fdoff).

Definition bytes_at (off n : Z) : list byte := take (Z.to_nat n) (drop (Z.to_nat off) mem).

(** The node at [r], whose type and words have been read; [elems] unpacks the
    elements of an array. *)
Definition unpack_node (type word cnt off fdoff : Z)
    (elems : Z → Z → Z → result (position (list launch_data))) : result (position launch_data) :=
  let left := u64 (data_size - off) in
  match type_of_code type with
  | Some (TArray t) =>
      if left <? u64 (cnt * 8) then null_at (Some EAGAIN) off fdoff else
      match elems cnt (u64 (off + u64 (cnt * 8))) fdoff with
      | Done (UNode l, off, fdoff) => Done (UNode (LD_array t (Some <$> l)), off, fdoff)
      | Done (UNull e, off, fdoff) => null_at e off fdoff
      | Crash => Crash
      | OutOfFuel => OutOfFuel
      end
  | Some LAUNCH_DATA_STRING =>
      if left <? u64 (cnt + 1) then null_at (Some EAGAIN) off fdoff else
      Done (UNode (LD_string (Some (bytes_at off (u64 (cnt + 1)))) cnt),
            u64 (off + ROUND_TO_64BIT_WORD_SIZE (u64 (cnt + 1))), fdoff)
  | Some LAUNCH_DATA_OPAQUE =>
      if left <? cnt then null_at (Some EAGAIN) off fdoff else
      Done (UNode (LD_opaque (bytes_at off cnt) cnt),
            u64 (off + ROUND_TO_64BIT_WORD_SIZE cnt), fdoff)
  | Some (TScalar LAUNCH_DATA_FD) =>
      let '(w, fdoff) := take_fd word fdoff in
      Done (UNode (LD_scalar LAUNCH_DATA_FD w), off, fdoff)
  | Some (TScalar t) => Done (UNode (LD_scalar t word), off, fdoff)
  | None => null_at (Some EINVAL) off fdoff
  end.

Fixpoint unpack (fuel : nat) (off fdoff : Z) : result (position launch_data) :=
  match fuel with
  | 0%nat => OutOfFuel
  | S fuel =>
      if u64 (data_size - off) <? sizeof_launch_data then null_at None off fdoff else
      match load64 mem off, load64 mem (off + 8), load64 mem (off + 16) with
      | Some type, Some word, Some cnt =>
          unpack_node type word cnt (off + sizeof_launch_data) fdoff
            (λ cnt off fdoff, unpack_elems fuel (u64 (cnt * 8)) cnt 0 off fdoff)
      | _, _, _ => Crash
      end
  end
(** [for (i = 0; i < tmpcnt; i++)], the slots taking [slots] bytes. *)
with unpack_elems (fuel : nat) (slots cnt i off fdoff : Z) : result (position (list launch_data)) :=
  match fuel with
  | 0%nat => OutOfFuel
  | S fuel =>
      if cnt <=? i then Done (UNode [], off, fdoff) else
      match unpack fuel off fdoff with
      | Done (r, off, fdoff) =>
          if slots <? 8 * (i + 1) then Crash else
          match r with
          | UNull e => null_at e off fdoff
          | UNode d =>
              match unpack_elems fuel slots cnt (i + 1) off fdoff with
              | Done (UNode l, off, fdoff) => Done (UNode (d :: l), off, fdoff)
              | r => r
              end
          end
      | Crash => Crash
      | OutOfFuel => OutOfFuel
      end
  end.

(** Every nested call has at least one node, of 24 bytes, less to read. *)
Definition unpack_fuel : nat := 2 * length mem + 2.

Definition launch_data_unpack (off fdoff : Z) : result (position launch_data) :=
  unpack unpack_fuel off fdoff.
End unpack.

(** ** liblaunch: the wire format, and packing produces it

    [image d bs fds] is the wire format: [bs] is the image of the tree [d] and
    [fds] are the descriptors that travel beside it. The words of the union the
    packer does not fill, and the slots of an array, are whatever the buffer
    held. *)


(** ** Memory made of pieces *)

Lemma load64_mid pre w post off :
  off = Z.of_nat (length pre) → length w = 8%nat →
  load64 (pre ++ w ++ post) off = Some (le_decode w).
Proof. intros Hoff Hw. unfold load64. by rewrite load_mid by (done || lia). Qed.

(** ** Sizes *)

Definition padding (n : nat) : nat := (7 - (n + 7) mod 8)%nat.

Lemma padding_spec n : ∃ k, (n + padding n = 8 * k)%nat ∧ (8 * k < n + 8)%nat.
Proof.
  unfold padding. exists ((n + 7) / 8)%nat.
  pose proof (Nat.div_mod_eq (n + 7) 8). pose proof (Nat.mod_upper_bound (n + 7) 8 ltac:(done)). lia.
Qed.

Lemma round_spec n :
  Z.of_nat n < 2 ^ 62 → ROUND_TO_64BIT_WORD_SIZE (Z.of_nat n) = Z.of_nat (n + padding n).
Proof.
  intros Hn. unfold ROUND_TO_64BIT_WORD_SIZE, u64. rewrite Z.mod_small by lia.
  change (Z.lnot 7) with (Z.lnot (Z.ones 3)). rewrite <-Z.ldiff_land, Z.ldiff_ones_r by lia.
  rewrite Z.shiftr_div_pow2, Z.shiftl_mul_pow2 by lia. change (2 ^ 3) with 8.
  unfold padding. pose proof (Nat.div_mod_eq (n + 7) 8) as E.
  pose proof (Nat.mod_upper_bound (n + 7) 8 ltac:(done)).
  assert ((Z.of_nat n + 7) / 8 = Z.of_nat ((n + 7) / 8)) as ->; [|lia].
  rewrite Nat2Z.inj_div. f_equal. lia.
Qed.

Lemma u64_small z : 0 ≤ z < 2 ^ 64 → u64 z = z.
Proof. apply Z.mod_small. Qed.

(** ** Well-formed trees

    What the constructors of LaunchData.v build: no NULL in an array, blocks of
    the size the node records, words of 64 bits. No block is larger than the
    address space. *)

Fixpoint data_ok (d : launch_data) : Prop :=
  match d with
  | LD_array t l =>
      Z.of_nat (length l) < 2 ^ 57 ∧
      (fix go (l : list (option launch_data)) : Prop :=
         match l with
         | [] => True
         | p :: l => match p with Some d => data_ok d | None => False end ∧ go l
         end) l
  | LD_string s n =>
      ∃ k, s = Some (k ++ [x00]) ∧ x00 ∉ k ∧ n = Z.of_nat (length k) ∧ n < 2 ^ 60
  | LD_opaque o n => n = Z.of_nat (length o) ∧ n < 2 ^ 60
  | LD_scalar t w => 0 ≤ w < 2 ^ 64
  end.

Lemma data_ok_array t l :
  data_ok (LD_array t l) ↔
  Z.of_nat (length l) < 2 ^ 57 ∧ ∃ ds, l = Some <$> ds ∧ Forall data_ok ds.
Proof.
  cbn. apply and_iff_compat_l. induction l as [|[d|] l IH].
  - split; [intros _; by exists []|done].
  - rewrite IH. split.
    + intros [Hd (ds & -> & Hds)]. exists (d :: ds). split; [done|by constructor].
    + intros ([|d' ds] & [= -> ->] & [? ?]%Forall_cons); try done. split; [done|by eexists].
  - split; [by intros [[] _]|]. by intros ([|] & [=] & _).
Qed.

(** The size of the image, and the number of descriptors beside it. *)
Fixpoint packed_size (d : launch_data) : nat :=
  match d with
  | LD_array t l => 24 + 8 * length l + sum_list (from_option packed_size 0%nat <$> l)
  | LD_string s n => 24 + (S (Z.to_nat n) + padding (S (Z.to_nat n)))
  | LD_opaque o n => 24 + (Z.to_nat n + padding (Z.to_nat n))
  | LD_scalar t w => 24
  end.

Fixpoint fd_count (d : launch_data) : nat :=
  match d with
  | LD_array t l => sum_list (from_option fd_count 0%nat <$> l)
  | LD_scalar LAUNCH_DATA_FD w => if i64 w =? -1 then 0 else 1
  | _ => 0
  end.

(** ** The wire format *)

Inductive image : launch_data → list byte → list Z → Prop :=
| image_scalar t w junk :
    t ≠ LAUNCH_DATA_FD → t ≠ LAUNCH_DATA_MACHPORT → length junk = 8%nat →
    image (LD_scalar t w) (le_encode 8 (type_code (TScalar t)) ++ le_encode 8 w ++ junk) []
| image_fd w junk :
    length junk = 8%nat →
    image (LD_scalar LAUNCH_DATA_FD w)
      (le_encode 8 (type_code (TScalar LAUNCH_DATA_FD)) ++ le_encode 8 w ++ junk)
      (if i64 w =? -1 then [] else [i32 (i64 w)])
| image_port w junk1 junk2 :
    length junk1 = 8%nat → length junk2 = 8%nat →
    image (LD_scalar LAUNCH_DATA_MACHPORT w)
      (le_encode 8 (type_code (TScalar LAUNCH_DATA_MACHPORT)) ++ junk1 ++ junk2) []
| image_string k junk :
    length junk = 8%nat →
    image (LD_string (Some (k ++ [x00])) (Z.of_nat (length k)))
      (le_encode 8 (type_code LAUNCH_DATA_STRING) ++ junk ++ le_encode 8 (Z.of_nat (length k)) ++
       (k ++ [x00]) ++ replicate (padding (S (length k))) x00) []
| image_opaque o junk :
    length junk = 8%nat →
    image (LD_opaque o (Z.of_nat (length o)))
      (le_encode 8 (type_code LAUNCH_DATA_OPAQUE) ++ junk ++ le_encode 8 (Z.of_nat (length o)) ++
       o ++ replicate (padding (length o)) x00) []
| image_array t ds junk slots bs fds :
    length junk = 8%nat → length slots = (8 * length ds)%nat → images ds bs fds →
    image (LD_array t (Some <$> ds))
      (le_encode 8 (type_code (TArray t)) ++ junk ++ le_encode 8 (Z.of_nat (length ds)) ++
       slots ++ bs) fds
with images : list launch_data → list byte → list Z → Prop :=
| images_nil : images [] [] []
| images_cons d ds bs1 fds1 bs2 fds2 :
    image d bs1 fds1 → images ds bs2 fds2 → images (d :: ds) (bs1 ++ bs2) (fds1 ++ fds2).

Scheme image_mind := Induction for image Sort Prop
  with images_mind := Induction for images Sort Prop.

Lemma sum_present (f : launch_data → nat) ds :
  sum_list (from_option f 0%nat <$> (Some <$> ds)) = sum_list (f <$> ds).
Proof. induction ds as [|d ds IH]; [done|]. cbn in *. by rewrite IH. Qed.

Lemma image_length :
  (∀ d bs fds, image d bs fds → length bs = packed_size d ∧ length fds = fd_count d).
Proof.
  apply (image_mind (λ d bs fds _, length bs = packed_size d ∧ length fds = fd_count d)
    (λ ds bs fds _, length bs = sum_list (packed_size <$> ds) ∧
       length fds = sum_list (fd_count <$> ds))); intros;
    rewrite ?length_app, ?length_le_encode, ?length_replicate; cbn [packed_size fd_count];
    rewrite ?Nat2Z.id; try (split; [cbn [length]; lia|done]).
  - split; [lia|]. by destruct t.
  - split; [lia|]. by destruct (_ =? _).
  - destruct H as [-> ->].
    rewrite length_fmap, !sum_present. lia.
  - done.
  - cbn. destruct H, H0. split; lia.
Qed.
