(* ===== verification/LaunchPack.v ===== *)
(** * liblaunch: [launch_data_pack] writes the image and stays in its budget

    [packs]: what a packer does to the memory it may write. It returns the size
    of the image when the image fits in its budget of [len] bytes, and 0
    otherwise; in both cases no byte outside the budget changes. *)

From S2P Require Import Prelude LaunchData LaunchWire.

Local Open Scope Z_scope.

(** [base] is what the packer adds its size to. *)
Definition packs (m : packer Z) (pre free : list byte) (base len size fd_max : nat)
    (fds : list Z) (img : list byte → list Z → Prop) : Prop :=
  ∃ r free' new,
    m (pre ++ free, fds) = Some (r, (pre ++ free', fds ++ new)) ∧
    length free' = length free ∧ drop len free' = drop len free ∧ (length new ≤ fd_max)%nat ∧
    ((size ≤ len)%nat → r = Z.of_nat (base + size) ∧
       ∃ bs, img bs new ∧ free' = bs ++ drop size free) ∧
    ((len < size)%nat → r = 0).

(** ** Writing the fields of a node *)

Lemma put_eq (off : Z) pre old new post fds mem mem' :
  mem = pre ++ old ++ post → mem' = pre ++ new ++ post →
  off = Z.of_nat (length pre) → length old = length new →
  put off new (mem, fds) = Some (tt, (mem', fds)).
Proof. intros -> -> Hoff Hl. unfold put; cbn. by rewrite store_mid. Qed.

Section node.
Variables (pre a b c : list byte) (off : Z) (fds : list Z).
Hypothesis (Ha : length a = 8%nat) (Hb : length b = 8%nat) (Hc : length c = 8%nat).
Hypothesis Hoff : off = Z.of_nat (length pre).

Lemma put_type z rest :
  put64 off z (pre ++ a ++ b ++ c ++ rest, fds) =
  Some (tt, (pre ++ le_encode 8 z ++ b ++ c ++ rest, fds)).
Proof using All. by apply (put_eq _ pre a _ (b ++ c ++ rest)); rewrite ?length_le_encode. Qed.

Lemma put_word z rest :
  put64 (off + 8) z (pre ++ a ++ b ++ c ++ rest, fds) =
  Some (tt, (pre ++ a ++ le_encode 8 z ++ c ++ rest, fds)).
Proof using All.
  apply (put_eq _ (pre ++ a) b _ (c ++ rest)); rewrite ?length_app, ?length_le_encode;
    by rewrite ?app_assoc || lia.
Qed.

Lemma put_cnt z rest :
  put64 (off + 16) z (pre ++ a ++ b ++ c ++ rest, fds) =
  Some (tt, (pre ++ a ++ b ++ le_encode 8 z ++ rest, fds)).
Proof using All.
  apply (put_eq _ (pre ++ a ++ b) c _ rest); rewrite ?length_app, ?length_le_encode;
    by rewrite <-?app_assoc || lia.
Qed.

Lemma put_body old new rest :
  length old = length new →
  put (off + sizeof_launch_data) new (pre ++ a ++ b ++ c ++ old ++ rest, fds) =
  Some (tt, (pre ++ a ++ b ++ c ++ new ++ rest, fds)).
Proof using All.
  intros Hl. unfold sizeof_launch_data.
  apply (put_eq _ (pre ++ a ++ b ++ c) old _ rest); rewrite ?length_app;
    by rewrite <-?app_assoc || lia.
Qed.

Lemma put_after x n old new rest :
  n = Z.of_nat (length x) → length old = length new →
  put (off + sizeof_launch_data + n) new (pre ++ a ++ b ++ c ++ x ++ old ++ rest, fds) =
  Some (tt, (pre ++ a ++ b ++ c ++ x ++ new ++ rest, fds)).
Proof using All.
  intros Hn Hl. unfold sizeof_launch_data.
  apply (put_eq _ (pre ++ a ++ b ++ c ++ x) old _ rest); rewrite ?length_app;
    by rewrite <-?app_assoc || lia.
Qed.
End node.

(** Splitting a block. *)
Lemma split_block {A} (l : list A) n :
  (n ≤ length l)%nat → ∃ l1 l2, l = l1 ++ l2 ∧ length l1 = n ∧ drop n l = l2.
Proof.
  intros Hn. exists (take n l), (drop n l). by rewrite take_drop, length_take_le.
Qed.

Lemma split_node (l : list byte) :
  (24 ≤ length l)%nat → ∃ a b c rest, l = a ++ b ++ c ++ rest ∧
    length a = 8%nat ∧ length b = 8%nat ∧ length c = 8%nat.
Proof.
  intros Hl. destruct (split_block l 8) as (a & l1 & -> & Ha & _); [lia|].
  rewrite length_app in Hl. destruct (split_block l1 8) as (b & l2 & -> & Hb & _); [lia|].
  rewrite length_app in Hl. destruct (split_block l2 8) as (c & l3 & -> & Hc & _); [lia|].
  by exists a, b, c, l3.
Qed.

(** A block after the three words of a node. *)
Lemma drop_node {A} (a b c : list A) rest n :
  length a = 8%nat → length b = 8%nat → length c = 8%nat →
  drop (24 + n) (a ++ b ++ c ++ rest) = drop n rest.
Proof.
  intros Ha Hb Hc. rewrite (drop_app_ge a), (drop_app_ge b), (drop_app_ge c) by lia.
  f_equal. lia.
Qed.

(** ** The nodes *)

Section pack.
Variable room : nat.

Definition pack_spec (d : launch_data) : Prop :=
  data_ok d → ∀ pre free off len fds,
    off = Z.of_nat (length pre) → (len ≤ length free)%nat → Z.of_nat len < 2 ^ 62 →
    (length fds + fd_count d ≤ room)%nat →
    packs (launch_data_pack d off (Z.of_nat len) (Some room))
      pre free 0 len (packed_size d) (fd_count d) fds (image d).

Lemma packed_size_min d : (24 ≤ packed_size d)%nat.
Proof. destruct d; cbn [packed_size]; lia. Qed.

(** Not even the node fits. *)
Lemma pack_no_room d pre free off len fds :
  (len < 24)%nat →
  packs (launch_data_pack d off (Z.of_nat len) (Some room))
    pre free 0 len (packed_size d) (fd_count d) fds (image d).
Proof.
  intros Hlen. exists 0, free, []. pose proof (packed_size_min d).
  rewrite app_nil_r. split_and!; try done; try (cbn [length]; lia).
  unfold sizeof_launch_data. destruct d; cbn [launch_data_pack];
    unfold sizeof_launch_data; by rewrite (proj2 (Z.ltb_lt _ _)) by lia.
Qed.

(** Only the node's words were written, and [len] covers them. *)
Lemma packs_node (m : packer Z) pre (a b c a' b' c' rest : list byte) len size fd_max fds img :
  length a = 8%nat → length b = 8%nat → length c = 8%nat →
  length a' = 8%nat → length b' = 8%nat → length c' = 8%nat →
  (24 ≤ len)%nat → (len < size)%nat →
  m (pre ++ a ++ b ++ c ++ rest, fds) = Some (0, (pre ++ a' ++ b' ++ c' ++ rest, fds)) →
  packs m pre (a ++ b ++ c ++ rest) 0 len size fd_max fds img.
Proof.
  intros Ha Hb Hc Ha' Hb' Hc' Hlen Hsz Hm. exists 0, (a' ++ b' ++ c' ++ rest), [].
  rewrite app_nil_r. split_and!; try done; try (cbn [length]; lia).
  - rewrite !length_app. lia.
  - replace len with (24 + (len - 24))%nat by lia. by rewrite !drop_node.
Qed.

(** The whole image was written. *)
Lemma packs_image (m : packer Z) pre free old bs rest len d fds new :
  free = old ++ rest → image d bs new → length old = packed_size d →
  (packed_size d ≤ len)%nat → (len ≤ length free)%nat →
  m (pre ++ free, fds) = Some (Z.of_nat (packed_size d), (pre ++ bs ++ rest, fds ++ new)) →
  packs m pre free 0 len (packed_size d) (fd_count d) fds (image d).
Proof.
  intros -> Himg Hold Hsz Hlen Hm. destruct (image_length _ _ _ Himg) as [Hbs Hnew].
  exists (Z.of_nat (packed_size d)), (bs ++ rest), new. split_and!; try done; try lia.
  - rewrite !length_app. lia.
  - rewrite !drop_app_ge by lia. f_equal. lia.
  - intros _. split; [done|]. exists bs. by rewrite <-Hold, drop_app_length.
Qed.

Lemma put_fd_room fd mem fds :
  (length fds + (if (fd =? -1)%Z then 0 else 1) ≤ room)%nat →
  put_fd (Some room) fd (mem, fds) =
  Some (tt, (mem, fds ++ (if fd =? -1 then [] else [i32 fd]))).
Proof.
  unfold put_fd. cbn [fst snd]. destruct (fd =? -1); [by rewrite app_nil_r|].
  intros Hr. by rewrite (proj2 (Nat.ltb_lt _ _)) by lia.
Qed.

Lemma pack_scalar t w : pack_spec (LD_scalar t w).
Proof.
  intros Hok pre free off len fds Hoff Hfree Hlen Hroom.
  destruct (Nat.lt_ge_cases len 24) as [Hs|Hs]; [by apply pack_no_room|].
  destruct (split_node free) as (a & b & c & rest & -> & Ha & Hb & Hc); [lia|].
  set (code := le_encode 8 (type_code (TScalar t))).
  set (new := if bool_decide (t = LAUNCH_DATA_FD) then
        (if i64 w =? -1 then [] else [i32 (i64 w)]) else []).
  set (word := if bool_decide (t = LAUNCH_DATA_MACHPORT) then b else le_encode 8 w).
  apply (packs_image _ _ _ (a ++ b ++ c) (code ++ word ++ c) rest _ _ _ new);
    [by rewrite <-!app_assoc| |rewrite !length_app; cbn [packed_size]; lia|done|done|].
  { subst code new word. destruct t; cbn; by constructor. }
  rewrite <-!app_assoc. subst code new word.
  destruct t; cbn [launch_data_pack launch_data_get_type packed_size]; unfold sizeof_launch_data;
    rewrite (proj2 (Z.ltb_ge _ _)) by lia;
    rewrite (bind_eq _ _ _ _ _ (put_type pre a b c off fds Ha Hb Hc Hoff _ rest));
    try (by rewrite app_nil_r);
    rewrite (bind_eq _ _ _ _ _ (put_word pre _ b c off fds (length_le_encode 8 _) Hb Hc Hoff _ rest));
    try (by rewrite app_nil_r).
  by rewrite (bind_eq _ _ _ _ _ (put_fd_room (i64 w) _ fds Hroom)).
Qed.

(** A node with a block behind it, once its type and its size are written. *)
Lemma pack_block (d : launch_data) code cnt pre a b c rest (off : Z) len fds (block : list byte)
    (m : packer Z) :
  let n := length block in
  length a = 8%nat → length b = 8%nat → length c = 8%nat →
  length code = 8%nat → length cnt = 8%nat → off = Z.of_nat (length pre) →
  (24 ≤ len)%nat → (len ≤ 24 + length rest)%nat → packed_size d = (24 + (n + padding n))%nat →
  image d (code ++ b ++ cnt ++ block ++ replicate (padding n) x00) [] →
  ((packed_size d ≤ len)%nat →
   m (pre ++ a ++ b ++ c ++ rest, fds) =
     (put (off + sizeof_launch_data) block ;;
      put (off + sizeof_launch_data + Z.of_nat n) (replicate (padding n) x00) ;;
      ret (Z.of_nat (packed_size d)))%c (pre ++ code ++ b ++ cnt ++ rest, fds)) →
  ((len < packed_size d)%nat →
   m (pre ++ a ++ b ++ c ++ rest, fds) = Some (0, (pre ++ code ++ b ++ cnt ++ rest, fds))) →
  packs m pre (a ++ b ++ c ++ rest) 0 len (packed_size d) (fd_count d) fds (image d).
Proof.
  intros n Ha Hb Hc Hcode Hcnt Hoff Hmin Hlen Hsize Himg Hbig Hsmall.
  destruct (Nat.lt_ge_cases len (packed_size d)) as [Hs|Hs].
  { apply (packs_node _ _ a b c code b cnt); auto. }
  destruct (split_block rest n) as (old & r1 & -> & Hold & _); [lia|]. rewrite length_app in Hlen.
  destruct (split_block r1 (padding n)) as (pad & r2 & -> & Hpad & _); [lia|].
  apply (packs_image _ _ _ (a ++ b ++ c ++ old ++ pad)
    (code ++ b ++ cnt ++ block ++ replicate (padding n) x00) r2 _ _ _ []);
    [by rewrite <-!app_assoc|done|rewrite !length_app; lia|done
    |rewrite !length_app in *; lia|].
  rewrite Hbig by lia. rewrite <-!app_assoc.
  rewrite (bind_eq _ _ _ _ _ (put_body pre code b cnt off fds Hcode Hb Hcnt Hoff old block
    (pad ++ r2) Hold)).
  rewrite (bind_eq _ _ _ _ _ (put_after pre code b cnt off fds Hcode Hb Hcnt Hoff block (Z.of_nat n)
    pad _ r2 eq_refl ltac:(by rewrite length_replicate))).
  by rewrite app_nil_r.
Qed.

(** The two first stores of a node with a size. *)
Lemma put_header {A} pre a b c rest (off : Z) fds t n (k : packer A) :
  length a = 8%nat → length b = 8%nat → length c = 8%nat → off = Z.of_nat (length pre) →
  (put64 off t ;; put64 (off + 16) n ;; k)%c (pre ++ a ++ b ++ c ++ rest, fds) =
  k (pre ++ le_encode 8 t ++ b ++ le_encode 8 n ++ rest, fds).
Proof.
  intros Ha Hb Hc Hoff.
  rewrite (bind_eq _ _ _ _ _ (put_type pre a b c off fds Ha Hb Hc Hoff t rest)).
  by rewrite (bind_eq _ _ _ _ _ (put_cnt pre _ b c off fds (length_le_encode 8 _) Hb Hc Hoff n rest)).
Qed.

Lemma load_all bs n : n = Z.of_nat (length bs) → mem_load bs 0 n = Some bs.
Proof.
  intros Hn. pose proof (load_mid [] bs [] 0 n eq_refl Hn) as H. by rewrite app_nil_r in H.
Qed.

Lemma pack_string s n : pack_spec (LD_string s n).
Proof.
  intros (k & -> & Hk & -> & Hn) pre free off len fds Hoff Hfree Hlen Hroom.
  destruct (Nat.lt_ge_cases len 24) as [Hs|Hs]; [by apply pack_no_room|].
  destruct (split_node free) as (a & b & c & rest & -> & Ha & Hb & Hc); [lia|].
  assert (u64 (Z.of_nat (length k) + 1) = Z.of_nat (length (k ++ [x00]))) as Hn1.
  { rewrite u64_small by lia. rewrite length_app. cbn [length]. lia. }
  assert (length (k ++ [x00]) = S (length k)) as Hk1 by (rewrite length_app; cbn [length]; lia).
  destruct (padding_spec (S (length k))) as (w & Hw & Hw').
  assert (ROUND_TO_64BIT_WORD_SIZE (Z.of_nat (length (k ++ [x00]))) =
    Z.of_nat (S (length k) + padding (S (length k)))) as Hround by (rewrite Hk1, round_spec by lia; done).
  assert (packed_size (LD_string (Some (k ++ [x00])) (Z.of_nat (length k))) =
    (24 + (S (length k) + padding (S (length k))))%nat) as Hsz by (cbn [packed_size]; by rewrite Nat2Z.id).
  rewrite !length_app in Hfree.
  apply (pack_block _ (le_encode 8 (type_code LAUNCH_DATA_STRING)) (le_encode 8 (Z.of_nat (length k)))
    pre a b c rest off len fds (k ++ [x00]));
    rewrite ?length_le_encode, ?Hk1; try done; try lia; [by apply image_string|..];
    intros Hfit; cbn [launch_data_pack launch_data_get_type]; rewrite Hn1, Hround;
    unfold sizeof_launch_data;
    rewrite (proj2 (Z.ltb_ge _ _)) by lia; rewrite (u64_small (24 + _)) by lia;
    rewrite put_header by done.
  - rewrite (proj2 (Z.ltb_ge _ _)) by lia. cbn [mbind option_bind]. rewrite load_all by done.
    cbn [deref]. rewrite bind_ret, u64_small, Hsz, Hk1, (Nat2Z.inj_add 24) by lia.
    by replace (Z.to_nat _) with (padding (S (length k))) by lia.
  - by rewrite (proj2 (Z.ltb_lt _ _)) by lia.
Qed.

Lemma pack_opaque o n : pack_spec (LD_opaque o n).
Proof.
  intros (-> & Hn) pre free off len fds Hoff Hfree Hlen Hroom.
  destruct (Nat.lt_ge_cases len 24) as [Hs|Hs]; [by apply pack_no_room|].
  destruct (split_node free) as (a & b & c & rest & -> & Ha & Hb & Hc); [lia|].
  destruct (padding_spec (length o)) as (w & Hw & Hw').
  assert (packed_size (LD_opaque o (Z.of_nat (length o))) =
    (24 + (length o + padding (length o)))%nat) as Hsz by (cbn [packed_size]; by rewrite Nat2Z.id).
  rewrite !length_app in Hfree.
  apply (pack_block _ (le_encode 8 (type_code LAUNCH_DATA_OPAQUE)) (le_encode 8 (Z.of_nat (length o)))
    pre a b c rest off len fds o);
    rewrite ?length_le_encode; try done; try lia; [by apply image_opaque|..];
    intros Hfit; cbn [launch_data_pack launch_data_get_type]; rewrite round_spec by lia;
    unfold sizeof_launch_data;
    rewrite (proj2 (Z.ltb_ge _ _)) by lia; rewrite (u64_small (24 + _)) by lia;
    rewrite put_header by done.
  - rewrite (proj2 (Z.ltb_ge _ _)) by lia. rewrite load_all by done.
    cbn [deref]. rewrite bind_ret, u64_small, Hsz, (Nat2Z.inj_add 24) by lia.
    by replace (Z.to_nat _) with (padding (length o)) by lia.
  - by rewrite (proj2 (Z.ltb_lt _ _)) by lia.
Qed.

(** ** Arrays *)

Lemma sum_list_cons x (l : list nat) : sum_list (x :: l) = (x + sum_list l)%nat.
Proof. done. Qed.

(** The loop over the elements. *)
Definition pack_elems (len : Z) :=
  fix go (l : list (option launch_data)) (where_ node_data_len : Z) : packer Z :=
    match l with
    | [] => ret node_data_len
    | p :: l =>
        let left := u64 (len - node_data_len) in
        let* rsz := match p with
                    | Some d => launch_data_pack d where_ left (Some room)
                    | None => if left <? sizeof_launch_data then ret 0 else crash
                    end in
        if rsz =? 0 then ret 0 else
        go l (where_ + rsz) (u64 (node_data_len + rsz))
    end%c.

Lemma drop_written {A} (bs free free2 : list A) (size len : nat) :
  length bs = size → (size ≤ len)%nat →
  drop (len - size) free2 = drop (len - size) (drop size free) →
  drop len (bs ++ free2) = drop len free.
Proof.
  intros Hbs Hsz H. rewrite drop_app_ge, Hbs, H, drop_drop by lia. f_equal. lia.
Qed.

Lemma pack_elems_ok ds (len : nat) :
  Forall pack_spec ds → Forall data_ok ds → Z.of_nat len < 2 ^ 62 →
  ∀ pre free off ndl fds,
    off = Z.of_nat (length pre) → (ndl ≤ len)%nat → (len - ndl ≤ length free)%nat →
    (length fds + sum_list (fd_count <$> ds) ≤ room)%nat →
    packs (pack_elems (Z.of_nat len) (Some <$> ds) off (Z.of_nat ndl)) pre free ndl (len - ndl)
      (sum_list (packed_size <$> ds)) (sum_list (fd_count <$> ds)) fds (images ds).
Proof.
  intros Hspec Hok Hlen. induction Hspec as [|d ds Hd Hds IH];
    intros pre free off ndl fds Hoff Hndl Hfree Hroom.
  { exists (Z.of_nat ndl), free, []. cbn. rewrite app_nil_r.
    split_and!; try done; [|lia]. intros _. split; [f_equal; lia|].
    exists []. split; [constructor|done]. }
  apply Forall_cons in Hok as [Hdok Hok]. specialize (IH Hok).
  rewrite fmap_cons, sum_list_cons in Hroom.
  destruct (Hd Hdok pre free off (len - ndl)%nat fds) as (r1 & free1 & new1 & E1 & Hl1 & Hdr1 & Hn1 & Hfit1 & Hno1);
    [done..|lia|lia|].
  pose proof (packed_size_min d) as Hmin.
  cbn [fmap list_fmap pack_elems]. rewrite !sum_list_cons.
  replace (u64 (Z.of_nat len - Z.of_nat ndl)) with (Z.of_nat (len - ndl))
    by (rewrite u64_small; lia).
  destruct (Nat.lt_ge_cases (len - ndl) (packed_size d)) as [Hs|Hs].
  - rewrite Hno1 in E1 by done. exists 0, free1, new1.
    rewrite (bind_eq _ _ _ _ _ E1). split_and!; try done; lia.
  - destruct (Hfit1 Hs) as (-> & bs1 & Himg1 & ->). clear Hfit1 Hno1. rewrite Nat.add_0_l in E1.
    destruct (image_length _ _ _ Himg1) as [Hbs1 Hfd1].
    destruct (IH (pre ++ bs1) (drop (packed_size d) free) (off + Z.of_nat (packed_size d))
      (ndl + packed_size d)%nat (fds ++ new1)) as (r & free2 & new2 & E2 & Hl2 & Hdr2 & Hn2 & Hfit2 & Hno2);
      [rewrite length_app; lia|lia|rewrite length_drop; lia|rewrite length_app; lia|].
    exists r, (bs1 ++ free2), (new1 ++ new2).
    rewrite (bind_eq _ _ _ _ _ E1), (proj2 (Z.eqb_neq _ _)), u64_small, <-Nat2Z.inj_add by lia.
    rewrite <-!app_assoc in E2. rewrite E2. split_and!.
    + done.
    + rewrite !length_app, Hl2, length_drop. lia.
    + apply (drop_written _ _ _ (packed_size d)); [done|done|].
      by replace (len - ndl - packed_size d)%nat with (len - (ndl + packed_size d))%nat by lia.
    + rewrite length_app. lia.
    + intros Hsz. destruct Hfit2 as (-> & bs2 & Himg2 & ->); [lia|].
      split; [f_equal; lia|]. exists (bs1 ++ bs2). split; [by constructor|].
      by rewrite <-app_assoc, drop_drop.
    + intros Hsz. apply Hno2. lia.
Qed.

(** An array whose slots fit is its header and then the loop. *)
Lemma pack_array_eq t ds pre a b c rest off (len : nat) fds :
  let n := length ds in
  length a = 8%nat → length b = 8%nat → length c = 8%nat → off = Z.of_nat (length pre) →
  (24 ≤ len)%nat → Z.of_nat n < 2 ^ 57 →
  launch_data_pack (LD_array t (Some <$> ds)) off (Z.of_nat len) (Some room)
    (pre ++ a ++ b ++ c ++ rest, fds) =
  (if (len <? 24 + 8 * n)%nat then ret 0 else
   pack_elems (Z.of_nat len) (Some <$> ds) (off + Z.of_nat (24 + 8 * n)) (Z.of_nat (24 + 8 * n)))
  (pre ++ le_encode 8 (type_code (TArray t)) ++ b ++ le_encode 8 (Z.of_nat n) ++ rest, fds).
Proof.
  intros n Ha Hb Hc Hoff Hlen Hn. cbn [launch_data_pack launch_data_get_type].
  unfold sizeof_launch_data. rewrite (proj2 (Z.ltb_ge _ _)), put_header, length_fmap by (done || lia).
  fold n. rewrite (u64_small (Z.of_nat n * 8)), (u64_small (24 + _)) by lia.
  replace (off + 24 + Z.of_nat n * 8) with (off + Z.of_nat (24 + 8 * n)) by lia.
  replace (24 + Z.of_nat n * 8) with (Z.of_nat (24 + 8 * n)) by lia.
  fold (pack_elems (Z.of_nat len)).
  destruct (Nat.ltb_spec len (24 + 8 * n)).
  - by rewrite (proj2 (Z.ltb_lt _ _)) by lia.
  - by rewrite (proj2 (Z.ltb_ge _ _)) by lia.
Qed.

Lemma pack_array t l : Forall (from_option pack_spec True) l → pack_spec (LD_array t l).
Proof.
  intros Hl (Hn & ds & -> & Hds)%data_ok_array pre free off len fds Hoff Hfree Hlen Hroom.
  rewrite length_fmap in Hn.
  destruct (Nat.lt_ge_cases len 24) as [Hs|Hs]; [by apply pack_no_room|].
  destruct (split_node free) as (a & b & c & rest & -> & Ha & Hb & Hc); [lia|].
  assert (Forall pack_spec ds) as Hspec by (by rewrite Forall_fmap in Hl).
  assert (packed_size (LD_array t (Some <$> ds)) = 24 + 8 * length ds + sum_list (packed_size <$> ds))%nat
    as Hsz by (cbn [packed_size]; by rewrite length_fmap, sum_present).
  assert (fd_count (LD_array t (Some <$> ds)) = sum_list (fd_count <$> ds)) as Hfds
    by (cbn [fd_count]; by rewrite sum_present).
  pose proof (pack_array_eq t ds pre a b c rest off len fds Ha Hb Hc Hoff Hs Hn) as E.
  set (code := le_encode 8 (type_code (TArray t))) in *.
  set (cnt := le_encode 8 (Z.of_nat (length ds))) in *.
  destruct (Nat.ltb_spec len (24 + 8 * length ds)) as [Hs1|Hs1].
  { apply (packs_node _ _ a b c code b cnt); rewrite ?length_le_encode; try done. lia. }
  rewrite !length_app in Hfree.
  destruct (split_block rest (8 * length ds)) as (slots & rest' & -> & Hslots & _); [lia|].
  rewrite length_app in Hfree. rewrite Hfds in Hroom.
  destruct (pack_elems_ok ds len Hspec Hds Hlen (pre ++ code ++ b ++ cnt ++ slots) rest'
    (off + Z.of_nat (24 + 8 * length ds)) (24 + 8 * length ds) fds)
    as (r & free2 & new & E2 & Hl2 & Hdr2 & Hn2 & Hfit2 & Hno2); [|lia|lia|lia|].
  { subst code cnt. rewrite !length_app, !length_le_encode. lia. }
  rewrite <-!app_assoc in E2. rewrite E2 in E.
  exists r, (code ++ b ++ cnt ++ slots ++ free2), new. split_and!; rewrite ?Hfds.
  - done.
  - subst code cnt. rewrite !length_app, !length_le_encode. lia.
  - replace len with (24 + (len - 24))%nat by lia. rewrite !drop_node by done.
    rewrite !drop_app_ge by lia. rewrite Hslots.
    by replace (len - 24 - 8 * length ds)%nat with (len - (24 + 8 * length ds))%nat by lia.
  - lia.
  - rewrite Hsz. intros Hfit. destruct Hfit2 as (-> & bs & Himg & ->); [lia|]. split; [f_equal; lia|].
    exists (code ++ b ++ cnt ++ slots ++ bs). split; [by apply image_array|].
    rewrite <-!app_assoc. do 5 f_equal. rewrite <-Nat.add_assoc, drop_node by done.
    by rewrite drop_app_add' by lia.
  - rewrite Hsz. intros Hno. apply Hno2. lia.
Qed.

(** Every well-formed tree, in any budget. *)
Lemma launch_data_pack_ok d : pack_spec d.
Proof.
  induction d using launch_data_ind'; [by apply pack_array|apply pack_string|apply pack_opaque
    |apply pack_scalar].
Qed.
End pack.
