(* ===== verification/LaunchUnpack.v ===== *)
(** * liblaunch: [launch_data_unpack] reads an image back, and its bounds

    Descriptors are renumbered when they cross the socket: [tr] is the number
    the receiver gets for one the sender passed. *)

From S2P Require Import Prelude LaunchData LaunchWire LaunchPack.

Local Open Scope Z_scope.

(** ** What the receiver sees

    A port right is not carried: its word is whatever the sender's buffer held
    there. *)

Section delivered.
Variable tr : Z → Z.

Inductive delivered : launch_data → launch_data → Prop :=
| delivered_scalar t w :
    t ≠ LAUNCH_DATA_FD → t ≠ LAUNCH_DATA_MACHPORT → delivered (LD_scalar t w) (LD_scalar t w)
| delivered_no_fd w :
    i64 w = -1 → delivered (LD_scalar LAUNCH_DATA_FD w) (LD_scalar LAUNCH_DATA_FD w)
| delivered_fd w :
    i64 w ≠ -1 →
    delivered (LD_scalar LAUNCH_DATA_FD w) (LD_scalar LAUNCH_DATA_FD (u64 (tr (i32 (i64 w)))))
| delivered_port w w' :
    delivered (LD_scalar LAUNCH_DATA_MACHPORT w) (LD_scalar LAUNCH_DATA_MACHPORT w')
| delivered_string s n : delivered (LD_string s n) (LD_string s n)
| delivered_opaque o n : delivered (LD_opaque o n) (LD_opaque o n)
| delivered_array t ds ds' :
    Forall2 delivered ds ds' →
    delivered (LD_array t (Some <$> ds)) (LD_array t (Some <$> ds')).
End delivered.

(** ** Copies

    The tree is unpacked in the receive buffer: callbacks keep a copy. *)

Lemma strdup_string k : x00 ∉ k → strdup (k ++ [x00]) = Some (k ++ [x00]).
Proof.
  induction k as [|b k IH]; [done|]. intros [Hb Hk]%not_elem_of_cons. cbn [app strdup].
  by rewrite bool_decide_eq_false_2, IH by congruence.
Qed.

Lemma copy_opaque o n :
  n = Z.of_nat (length o) → launch_data_copy (LD_opaque o n) = Some (LD_opaque o n).
Proof.
  intros ->. cbn [launch_data_copy]. rewrite Z.leb_refl, Nat2Z.id. by rewrite firstn_all.
Qed.

Lemma copy_array t ds :
  Forall (λ d, launch_data_copy d = Some d) ds →
  launch_data_copy (LD_array t (Some <$> ds)) = Some (LD_array t (Some <$> ds)).
Proof.
  intros Hds. cbn [launch_data_copy].
  match goal with |- LD_array t <$> ?go _ = _ => set (copies := go) end.
  enough (copies (Some <$> ds) = Some (Some <$> ds)) as -> by done.
  induction Hds as [|d ds Hd _ IH]; [done|]. rewrite fmap_cons. cbn. by rewrite Hd, IH.
Qed.

Lemma copy_delivered tr d d' : data_ok d → delivered tr d d' → launch_data_copy d' = Some d'.
Proof.
  revert d'. induction d as [t l IH|s n|o n|t w] using launch_data_ind'; intros d' Hok Hd;
    inversion Hd; subst; try done.
  - apply data_ok_array in Hok as (_ & ds0 & Heq & Hok). apply (inj (fmap Some)) in Heq as <-.
    apply copy_array. rewrite Forall_fmap in IH.
    match goal with H : Forall2 _ _ _ |- _ => rename H into Hall end.
    clear Hd. induction Hall as [|d d' ds ds' Hdd Hall IHall]; [constructor|].
    apply Forall_cons in IH as [IHd IH]. apply Forall_cons in Hok as [Hokd Hok].
    constructor; [by apply IHd|by apply IHall].
  - destruct Hok as (k & -> & Hk & -> & _). cbn [launch_data_copy mbind option_bind].
    by rewrite strdup_string.
  - destruct Hok as [-> _]. by apply copy_opaque.
Qed.

Lemma type_of_code_of t : type_of_code (type_code t) = Some t.
Proof. by destruct t as [[]|[]| |]. Qed.

Lemma type_of_code_inv z t : type_of_code z = Some t → z = type_code t.
Proof.
  destruct z as [|p|p]; cbn; try done.
  do 4 (try destruct p as [p|p|]); cbn; by intros [= <-].
Qed.

Lemma type_code_range t : 0 ≤ type_code t < 2 ^ 64.
Proof. by destruct t as [[]|[]| |]. Qed.

Lemma i64_minus_one w : 0 ≤ w < 2 ^ 64 → (w =? 2 ^ 64 - 1) = (i64 w =? -1).
Proof.
  intros Hw. unfold i64. apply eq_true_iff_eq. rewrite !Z.eqb_eq.
  pose proof (Z.div_mod (w + 2 ^ 63) (2 ^ 64) ltac:(lia)).
  pose proof (Z.mod_pos_bound (w + 2 ^ 63) (2 ^ 64) ltac:(lia)). lia.
Qed.

(** ** Reading a node *)

Section read.
Variables (mem : list byte) (data_size : Z) (rfds : list Z).

Lemma bytes_at_mid pre bs post off n :
  mem = pre ++ bs ++ post → off = Z.of_nat (length pre) → n = Z.of_nat (length bs) →
  bytes_at mem off n = bs.
Proof.
  intros -> -> ->. unfold bytes_at. by rewrite !Nat2Z.id, drop_app_length, take_app_length.
Qed.

(** The three words of a node whose image is in the buffer. *)
Lemma unpack_at pre t w n rest off fdoff fuel :
  mem = pre ++ le_encode 8 t ++ w ++ n ++ rest → off = Z.of_nat (length pre) →
  length w = 8%nat → length n = 8%nat → 0 ≤ t < 2 ^ 64 →
  off + 24 ≤ data_size < 2 ^ 62 →
  unpack mem data_size rfds (S fuel) off fdoff =
  unpack_node mem data_size rfds t (le_decode w) (le_decode n) (off + 24) fdoff
    (λ cnt off fdoff, unpack_elems mem data_size rfds fuel (u64 (cnt * 8)) cnt 0 off fdoff).
Proof.
  intros Hmem Hoff Hw Hn Ht Hds. cbn [unpack]. unfold sizeof_launch_data.
  rewrite u64_small, (proj2 (Z.ltb_ge _ _)) by lia.
  assert (load64 mem off = Some t) as ->.
  { rewrite Hmem, (load64_mid pre (le_encode 8 t)) by (done || apply length_le_encode).
    by rewrite le_decode_8. }
  assert (load64 mem (off + 8) = Some (le_decode w)) as ->.
  { rewrite Hmem, app_assoc. apply load64_mid; [|done].
    rewrite length_app, length_le_encode. lia. }
  assert (load64 mem (off + 16) = Some (le_decode n)) as ->; [|done].
  rewrite Hmem, !(app_assoc _ w), app_assoc, app_assoc.
  rewrite <-(app_assoc _ n). apply load64_mid; [|done].
  rewrite !length_app, length_le_encode. lia.
Qed.
End read.

(** One turn of the loop over the elements. *)
Lemma unpack_elems_S mem data_size rfds fuel slots cnt i off fdoff :
  unpack_elems mem data_size rfds (S fuel) slots cnt i off fdoff =
  if cnt <=? i then Done (UNode [], off, fdoff) else
  match unpack mem data_size rfds fuel off fdoff with
  | Done (r, off, fdoff) =>
      if slots <? 8 * (i + 1) then Crash else
      match r with
      | UNull e => null_at e off fdoff
      | UNode d =>
          match unpack_elems mem data_size rfds fuel slots cnt (i + 1) off fdoff with
          | Done (UNode l, off, fdoff) => Done (UNode (d :: l), off, fdoff)
          | r => r
          end
      end
  | Crash => Crash
  | OutOfFuel => OutOfFuel
  end.
Proof. done. Qed.

Lemma unpack_elems_step mem data_size rfds fuel slots cnt i off fdoff d off' fdoff' :
  i < cnt → 8 * (i + 1) ≤ slots →
  unpack mem data_size rfds fuel off fdoff = Done (UNode d, off', fdoff') →
  unpack_elems mem data_size rfds (S fuel) slots cnt i off fdoff =
  match unpack_elems mem data_size rfds fuel slots cnt (i + 1) off' fdoff' with
  | Done (UNode l, off, fdoff) => Done (UNode (d :: l), off, fdoff)
  | r => r
  end.
Proof.
  intros Hi Hs E. rewrite unpack_elems_S.
  by rewrite (proj2 (Z.leb_gt _ _)), E, (proj2 (Z.ltb_ge _ _)) by lia.
Qed.

(** ** Unpacking an image *)

Section image.
Variable tr : Z → Z.
Variables (mem : list byte) (data_size : Z) (rfds : list Z).
Hypothesis Hsize : 0 ≤ data_size < 2 ^ 62.

(** The image [bs] with its descriptors lies at [off], [fdoff]. *)
Definition placed (bs : list byte) (fds : list Z) (off fdoff : Z) : Prop :=
  (∃ pre post, mem = pre ++ bs ++ post ∧ off = Z.of_nat (length pre) ∧
     off + Z.of_nat (length bs) ≤ data_size) ∧
  (∃ fpre fpost, rfds = fpre ++ (tr <$> fds) ++ fpost ∧ fdoff = Z.of_nat (length fpre)).

Definition reads_back (d : launch_data) (bs : list byte) (fds : list Z) : Prop :=
  data_ok d → ∀ off fdoff fuel, placed bs fds off fdoff → (2 * length bs + 1 ≤ fuel)%nat →
  ∃ d', unpack mem data_size rfds fuel off fdoff =
      Done (UNode d', off + Z.of_nat (length bs), fdoff + Z.of_nat (length fds)) ∧
    delivered tr d d'.

Definition reads_back_all (ds : list launch_data) (bs : list byte) (fds : list Z) : Prop :=
  Forall data_ok ds → ∀ off fdoff fuel slots cnt i,
  placed bs fds off fdoff → (2 * length bs + 2 ≤ fuel)%nat →
  0 ≤ i → cnt = i + Z.of_nat (length ds) → 8 * cnt ≤ slots →
  ∃ ds', unpack_elems mem data_size rfds fuel slots cnt i off fdoff =
      Done (UNode ds', off + Z.of_nat (length bs), fdoff + Z.of_nat (length fds)) ∧
    Forall2 (delivered tr) ds ds'.

(** The image of a node whose words and block are at hand. *)
Lemma placed_split bs1 bs2 fds1 fds2 off fdoff :
  placed (bs1 ++ bs2) (fds1 ++ fds2) off fdoff →
  placed bs1 fds1 off fdoff ∧
  placed bs2 fds2 (off + Z.of_nat (length bs1)) (fdoff + Z.of_nat (length fds1)).
Proof.
  intros [(pre & post & Hmem & Hoff & Hds) (fpre & fpost & Hf & Hfd)].
  rewrite length_app in Hds. split; (split; [|]).
  - exists pre, (bs2 ++ post). by rewrite Hmem, <-app_assoc; split_and!; try done; lia.
  - exists fpre, ((tr <$> fds2) ++ fpost). by rewrite Hf, fmap_app, <-app_assoc.
  - exists (pre ++ bs1), post. rewrite Hmem, length_app, <-!app_assoc. split_and!; try done; lia.
  - exists (fpre ++ (tr <$> fds1)), fpost.
    rewrite Hf, fmap_app, length_app, length_fmap, <-!app_assoc. split; [done|lia].
Qed.

Lemma unpack_placed t w n rest fds off fdoff fuel :
  placed (le_encode 8 t ++ w ++ n ++ rest) fds off fdoff →
  length w = 8%nat → length n = 8%nat → 0 ≤ t < 2 ^ 64 →
  unpack mem data_size rfds (S fuel) off fdoff =
  unpack_node mem data_size rfds t (le_decode w) (le_decode n) (off + 24) fdoff
    (λ cnt off fdoff, unpack_elems mem data_size rfds fuel (u64 (cnt * 8)) cnt 0 off fdoff) ∧
  placed rest fds (off + 24) fdoff ∧ 0 ≤ off ∧ off + 24 + Z.of_nat (length rest) ≤ data_size.
Proof.
  intros Hp Hw Hn Ht. pose proof Hp as [(pre & post & Hmem & Hoff & Hds) _].
  rewrite !length_app, length_le_encode in Hds.
  split; [|split; [|lia]].
  - apply (unpack_at mem data_size rfds pre t w n (rest ++ post)); try done; [|lia].
    by rewrite Hmem, <-!app_assoc.
  - destruct (placed_split (le_encode 8 t ++ w ++ n) rest [] fds off fdoff) as [_ Hp'];
      [by rewrite <-!app_assoc|].
    rewrite !length_app, length_le_encode, Hw, Hn, Z.add_0_r in Hp'. exact Hp'.
Qed.

Lemma fuel_S (fuel n : nat) : (n + 1 ≤ fuel)%nat → ∃ f, fuel = S f ∧ (n ≤ f)%nat.
Proof. destruct fuel as [|f]; [lia|]. exists f. lia. Qed.

(** Scalars: 24 bytes, the second word the value. *)
Lemma scalar_reads_back t w w2 junk fds :
  length w2 = 8%nat → length junk = 8%nat →
  (data_ok (LD_scalar t w) → ∀ fpre fpost, rfds = fpre ++ (tr <$> fds) ++ fpost →
   ∃ d', delivered tr (LD_scalar t w) d' ∧ ∀ off elems,
     unpack_node mem data_size rfds (type_code (TScalar t)) (le_decode w2) (le_decode junk)
       off (Z.of_nat (length fpre)) elems =
     Done (UNode d', off, Z.of_nat (length fpre + length fds))) →
  reads_back (LD_scalar t w) (le_encode 8 (type_code (TScalar t)) ++ w2 ++ junk) fds.
Proof.
  intros Hw Hj Hnode Hok off fdoff fuel Hp (f & -> & Hf)%fuel_S.
  pose proof Hp as [_ (fpre & fpost & Hrfds & ->)].
  destruct (Hnode Hok _ _ Hrfds) as (d' & Hd' & Hu). exists d'. split; [|done].
  rewrite <-(app_nil_r junk) in Hp.
  destruct (unpack_placed _ _ _ _ _ _ _ f Hp Hw Hj (type_code_range _)) as (-> & _).
  rewrite Hu, !length_app, length_le_encode, Hw, Hj. do 3 f_equal. lia.
Qed.

Lemma word_reads_back t w junk :
  t ≠ LAUNCH_DATA_FD → t ≠ LAUNCH_DATA_MACHPORT → length junk = 8%nat →
  reads_back (LD_scalar t w) (le_encode 8 (type_code (TScalar t)) ++ le_encode 8 w ++ junk) [].
Proof.
  intros Hfd Hp Hj. apply scalar_reads_back; [by rewrite length_le_encode|done|].
  intros Hok fpre fpost _. exists (LD_scalar t w). split; [by constructor|]. intros off elems.
  unfold unpack_node. rewrite type_of_code_of, le_decode_8 by done. rewrite Nat.add_0_r. by destruct t.
Qed.

Lemma port_reads_back w junk1 junk2 :
  length junk1 = 8%nat → length junk2 = 8%nat →
  reads_back (LD_scalar LAUNCH_DATA_MACHPORT w)
    (le_encode 8 (type_code (TScalar LAUNCH_DATA_MACHPORT)) ++ junk1 ++ junk2) [].
Proof.
  intros H1 H2. apply scalar_reads_back; [done..|].
  intros Hok fpre fpost _. eexists. split; [apply delivered_port|]. intros off elems.
  by rewrite Nat.add_0_r.
Qed.

Lemma fd_reads_back w junk :
  length junk = 8%nat →
  reads_back (LD_scalar LAUNCH_DATA_FD w)
    (le_encode 8 (type_code (TScalar LAUNCH_DATA_FD)) ++ le_encode 8 w ++ junk)
    (if i64 w =? -1 then [] else [i32 (i64 w)]).
Proof.
  intros Hj. apply scalar_reads_back; [by rewrite length_le_encode|done|].
  intros Hok fpre fpost Hrfds. cbn [data_ok] in Hok.
  unfold unpack_node. rewrite type_of_code_of, le_decode_8 by done. unfold take_fd.
  rewrite i64_minus_one by done. destruct (Z.eqb_spec (i64 w) (-1)) as [E|E]; cbn [negb].
  - exists (LD_scalar LAUNCH_DATA_FD w). split; [by constructor|]. by rewrite Nat.add_0_r.
  - exists (LD_scalar LAUNCH_DATA_FD (u64 (tr (i32 (i64 w))))). split; [by constructor|].
    rewrite Nat2Z.id, Hrfds, lookup_app_r, Nat.sub_diag by lia. cbn. intros. do 3 f_equal. lia.
Qed.

(** A block of [n] bytes behind the node, and its padding. *)
Lemma block_read block pad fds off fdoff :
  placed (block ++ pad) fds off fdoff → 0 ≤ off →
  bytes_at mem off (Z.of_nat (length block)) = block ∧
  off + Z.of_nat (length block) ≤ data_size.
Proof.
  intros [(pre & post & Hmem & Hoff & Hds) _] H0. rewrite length_app in Hds. split; [|lia].
  apply (bytes_at_mid mem pre block (pad ++ post)); [|done..]. by rewrite Hmem, <-app_assoc.
Qed.

Lemma string_reads_back k junk :
  length junk = 8%nat →
  reads_back (LD_string (Some (k ++ [x00])) (Z.of_nat (length k)))
    (le_encode 8 (type_code LAUNCH_DATA_STRING) ++ junk ++ le_encode 8 (Z.of_nat (length k)) ++
     (k ++ [x00]) ++ replicate (padding (S (length k))) x00) [].
Proof.
  intros Hj Hok off fdoff fuel Hp (f & -> & Hf)%fuel_S. eexists. split; [|apply delivered_string].
  destruct (unpack_placed _ _ _ _ _ _ _ f Hp Hj (length_le_encode 8 _) (type_code_range _))
    as (-> & Hp' & Hoff & Hds).
  destruct (block_read _ _ _ _ _ Hp') as [Hb Hfit]; [lia|].
  rewrite !length_app, length_replicate in *. cbn [length] in *. rewrite Nat.add_1_r in *.
  unfold unpack_node. rewrite type_of_code_of, le_decode_8 by lia.
  replace (u64 (Z.of_nat (length k) + 1)) with (Z.of_nat (S (length k))) by (rewrite u64_small; lia).
  rewrite (u64_small (data_size - _)), (proj2 (Z.ltb_ge _ _)), Hb, round_spec, u64_small by lia.
  rewrite !length_le_encode, Hj. do 3 f_equal; lia.
Qed.

Lemma opaque_reads_back o junk :
  length junk = 8%nat →
  reads_back (LD_opaque o (Z.of_nat (length o)))
    (le_encode 8 (type_code LAUNCH_DATA_OPAQUE) ++ junk ++ le_encode 8 (Z.of_nat (length o)) ++
     o ++ replicate (padding (length o)) x00) [].
Proof.
  intros Hj Hok off fdoff fuel Hp (f & -> & Hf)%fuel_S. eexists. split; [|apply delivered_opaque].
  destruct (unpack_placed _ _ _ _ _ _ _ f Hp Hj (length_le_encode 8 _) (type_code_range _))
    as (-> & Hp' & Hoff & Hds).
  destruct (block_read _ _ _ _ _ Hp') as [Hb Hfit]; [lia|].
  rewrite !length_app, length_replicate in *. cbn [length].
  unfold unpack_node. rewrite type_of_code_of, le_decode_8 by lia.
  rewrite (u64_small (data_size - _)), (proj2 (Z.ltb_ge _ _)), Hb, round_spec, u64_small by lia.
  rewrite !length_le_encode, Hj. do 3 f_equal; lia.
Qed.

Lemma array_reads_back t ds junk slots bs fds :
  length junk = 8%nat → length slots = (8 * length ds)%nat → reads_back_all ds bs fds →
  reads_back (LD_array t (Some <$> ds))
    (le_encode 8 (type_code (TArray t)) ++ junk ++ le_encode 8 (Z.of_nat (length ds)) ++
     slots ++ bs) fds.
Proof.
  intros Hj Hs Hall (Hn & ds' & Heq & Hok)%data_ok_array off fdoff fuel Hp (f & -> & Hf)%fuel_S.
  apply (inj (fmap Some)) in Heq as <-. rewrite length_fmap in Hn.
  destruct (unpack_placed _ _ _ _ _ _ _ f Hp Hj (length_le_encode 8 _) (type_code_range _))
    as (-> & Hp' & Hoff & Hds).
  destruct (placed_split slots bs [] fds _ _ Hp') as [_ Hp2].
  rewrite !length_app, !length_le_encode in *. rewrite Hs in *.
  destruct (Hall Hok _ _ f (8 * Z.of_nat (length ds)) (Z.of_nat (length ds)) 0 Hp2)
    as (ds' & E & Hd); [lia..|].
  exists (LD_array t (Some <$> ds')). split; [|by constructor].
  unfold unpack_node. rewrite type_of_code_of, le_decode_8 by lia.
  rewrite (u64_small (data_size - _)), (u64_small (Z.of_nat (length ds) * 8)), u64_small by lia.
  rewrite (proj2 (Z.ltb_ge _ _)) by lia.
  replace (Z.of_nat (8 * length ds)) with (Z.of_nat (length ds) * 8) in E by lia.
  rewrite Z.add_0_r, (Z.mul_comm 8) in E. rewrite E, Hj. do 3 f_equal. lia.
Qed.

Lemma images_reads_back d ds bs1 fds1 bs2 fds2 :
  image d bs1 fds1 → reads_back d bs1 fds1 → reads_back_all ds bs2 fds2 →
  reads_back_all (d :: ds) (bs1 ++ bs2) (fds1 ++ fds2).
Proof.
  intros [Hl _]%image_length Hd Hds [Hok1 Hok2]%Forall_cons off fdoff fuel slots cnt i Hp Hf Hi Hcnt Hslots.
  pose proof (packed_size_min d) as Hmin. rewrite length_app in Hf. cbn [length] in Hcnt.
  apply placed_split in Hp as [Hp1 Hp2].
  destruct (fuel_S fuel (2 * (length bs1 + length bs2) + 1)) as (f & -> & Hf'); [lia|].
  destruct (Hd Hok1 _ _ f Hp1) as (d' & E1 & Hd'); [lia|].
  destruct (Hds Hok2 _ _ f slots cnt (i + 1) Hp2) as (ds' & E2 & Hds'); [lia..|].
  exists (d' :: ds'). split; [|by constructor].
  rewrite (unpack_elems_step mem data_size rfds f slots cnt i off fdoff d' _ _ ltac:(lia) ltac:(lia) E1), E2.
  by rewrite !length_app, !Nat2Z.inj_add, !Z.add_assoc.
Qed.

(** Every image of a well-formed tree is read back, wherever it lies. *)
Lemma image_reads_back d bs fds : image d bs fds → reads_back d bs fds.
Proof.
  revert d bs fds. apply (image_mind (λ d bs fds _, reads_back d bs fds)
    (λ ds bs fds _, reads_back_all ds bs fds)); intros.
  - by apply word_reads_back.
  - by apply fd_reads_back.
  - by apply port_reads_back.
  - by apply string_reads_back.
  - by apply opaque_reads_back.
  - by apply array_reads_back.
  - intros _ off fdoff [|f] slots cnt i Hp Hf Hi -> _; [cbn in Hf; lia|]. exists [].
    cbn [unpack_elems length]. change (Z.of_nat 0) with 0. rewrite !Z.add_0_r, Z.leb_refl. by split.
  - by apply images_reads_back.
Qed.
End image.

(** ** Any input

    Whatever the bytes are, unpacking a buffer whose size is a multiple of 8
    ends within it, unless an array announces so many elements that the size
    of its slots wraps around. *)

Section any.
Variables (mem : list byte) (data_size : Z) (rfds : list Z).
Hypothesis Hmem : 0 ≤ data_size ≤ Z.of_nat (length mem).
Hypothesis Hmax : data_size < 2 ^ 62.
Hypothesis Halign : (8 | data_size).

(** A node of the buffer is an array whose slots take 2^64 bytes or more. *)
Definition huge_count : Prop :=
  ∃ o t c, 0 ≤ o ∧ (8 | o) ∧ o + 24 ≤ data_size ∧ load64 mem o = Some (type_code (TArray t)) ∧
    load64 mem (o + 16) = Some c ∧ 2 ^ 64 ≤ 8 * c.

Definition inside {A} (off step : Z) (r : result (position A)) : Prop :=
  match r with
  | Done (UNode _, off', _) => off + step ≤ off' ≤ data_size ∧ (8 | off')
  | Done (UNull _, off', _) => off ≤ off' ≤ data_size ∧ (8 | off')
  | Crash => huge_count
  | OutOfFuel => False
  end.

Lemma inside_weaken {A} lo lo' step step' (r : result (position A)) :
  inside lo step r → lo' ≤ lo → lo' + step' ≤ lo + step → inside lo' step' r.
Proof. destruct r as [| |[[[e|l] off] fd]]; cbn; intuition lia. Qed.

Lemma load64_some off : 0 ≤ off → off + 8 ≤ data_size → ∃ z, load64 mem off = Some z ∧ 0 ≤ z < 2 ^ 64.
Proof.
  intros H0 H8. unfold load64, mem_load. rewrite !(proj2 (Z.leb_le _ _)) by lia. cbn [andb fmap option_fmap option_map].
  eexists. split; [done|].
  pose proof (le_decode_range (take (Z.to_nat 8) (drop (Z.to_nat off) mem))) as Hr.
  rewrite length_take_le in Hr by (rewrite length_drop; lia). exact Hr.
Qed.

(** A block that fits still fits when its size is rounded up. *)
Lemma round_fits off x :
  (8 | off) → 0 ≤ off → 0 ≤ x ≤ data_size - off →
  u64 (off + ROUND_TO_64BIT_WORD_SIZE x) = off + ROUND_TO_64BIT_WORD_SIZE x ∧
  off ≤ off + ROUND_TO_64BIT_WORD_SIZE x ≤ data_size ∧ (8 | off + ROUND_TO_64BIT_WORD_SIZE x).
Proof.
  intros [q ->] Hoff Hx. destruct Halign as [p Hp]. rewrite <-(Z2Nat.id x) in * by lia.
  rewrite round_spec by lia. destruct (padding_spec (Z.to_nat x)) as (k & -> & Hk).
  assert (q * 8 + Z.of_nat (8 * k) = (q + Z.of_nat k) * 8) as -> by lia.
  assert (q + Z.of_nat k ≤ p) by lia.
  rewrite u64_small by lia. split_and!; try lia. by exists (q + Z.of_nat k).
Qed.

Lemma slots_aligned cnt : 0 ≤ u64 (cnt * 8) ∧ (8 | u64 (cnt * 8)).
Proof.
  split; [apply Z.mod_pos_bound; lia|]. unfold u64. change (2 ^ 64) with (2 ^ 61 * 8).
  rewrite Z.mul_mod_distr_r by lia. apply Z.divide_factor_r.
Qed.

Lemma take_fd_inside w fdoff off :
  (8 | off) → off ≤ data_size →
  inside off 0 (let '(w, fdoff) := take_fd rfds w fdoff in
    Done (UNode (LD_scalar LAUNCH_DATA_FD w), off, fdoff)).
Proof. intros H8 Hoff. destruct (take_fd rfds w fdoff). cbn. split; [lia|done]. Qed.

Lemma unpack_node_inside o type word cnt fdoff elems :
  0 ≤ o → (8 | o) → o + 24 ≤ data_size →
  load64 mem o = Some type → load64 mem (o + 16) = Some cnt → 0 ≤ cnt < 2 ^ 64 →
  (∀ off fdoff, o + 24 ≤ off ≤ data_size → (8 | off) → (8 * cnt = u64 (cnt * 8) ∨ huge_count) →
     inside off 0 (elems cnt off fdoff)) →
  inside (o + 24) 0 (unpack_node mem data_size rfds type word cnt (o + 24) fdoff elems).
Proof.
  intros Ho H8 Hds Htype Hcnt Hrange Helems.
  assert ((8 | o + 24)) as H8' by (apply Z.divide_add_r; [done|by exists 3]).
  unfold unpack_node. rewrite (u64_small (data_size - _)) by lia.
  destruct (type_of_code type) as [[t|t| |]|] eqn:Et.
  - apply type_of_code_inv in Et as ->.
    destruct (Z.ltb_spec (data_size - (o + 24)) (u64 (cnt * 8))) as [Hs|Hs]; [by split; [lia|]|].
    destruct (slots_aligned cnt) as [H0 Hs8].
    rewrite (u64_small (o + 24 + _)) by lia.
    assert (inside (o + 24) 0 (elems cnt (o + 24 + u64 (cnt * 8)) fdoff)) as Hin.
    { eapply inside_weaken; [apply Helems|lia..]; [lia|by apply Z.divide_add_r|].
      destruct (Z.lt_ge_cases (8 * cnt) (2 ^ 64)); [left; rewrite u64_small; lia|right].
      by exists o, t, cnt. }
    by destruct (elems cnt _ fdoff) as [| |[[[e|l] off] fd]].
  - destruct t; try (by split; [lia|]). by apply take_fd_inside.
  - destruct (Z.ltb_spec (data_size - (o + 24)) (u64 (cnt + 1))) as [Hs|Hs]; [by split; [lia|]|].
    assert (0 ≤ u64 (cnt + 1)) by (apply Z.mod_pos_bound; lia).
    destruct (round_fits (o + 24) (u64 (cnt + 1))) as (-> & ? & ?); [done|lia..|]. by split; [lia|].
  - destruct (Z.ltb_spec (data_size - (o + 24)) cnt) as [Hs|Hs]; [by split; [lia|]|].
    destruct (round_fits (o + 24) cnt) as (-> & ? & ?); [done|lia..|]. by split; [lia|].
  - by split; [lia|].
Qed.

Definition steps_left (off : Z) : nat := 2 * Z.to_nat (data_size - off).

Lemma unpack_inside fuel :
  (∀ off fdoff, 0 ≤ off ≤ data_size → (8 | off) → (steps_left off + 1 ≤ fuel)%nat →
     inside off 24 (unpack mem data_size rfds fuel off fdoff)) ∧
  (∀ slots cnt i off fdoff, 0 ≤ off ≤ data_size → (8 | off) → (steps_left off + 2 ≤ fuel)%nat →
     (8 * cnt = slots ∨ huge_count) →
     inside off 0 (unpack_elems mem data_size rfds fuel slots cnt i off fdoff)).
Proof.
  induction fuel as [|fuel [IHn IHe]]; [split; intros; lia|]. split.
  - intros off fdoff Hoff H8 Hf. cbn [unpack]. unfold sizeof_launch_data.
    rewrite u64_small by lia. destruct (Z.ltb_spec (data_size - off) 24) as [Hs|Hs]; [by split; [lia|]|].
    destruct (load64_some off) as (type & Et & Ht); [lia..|].
    destruct (load64_some (off + 8)) as (word & Ew & _); [lia..|].
    destruct (load64_some (off + 16)) as (cnt & Ec & Hc); [lia..|].
    rewrite Et, Ew, Ec.
    assert (∀ (r : result (position launch_data)), inside (off + 24) 0 r → inside off 24 r) as Hw
      by (intros r Hr; eapply inside_weaken; [exact Hr|lia..]).
    apply Hw, unpack_node_inside; try done; try lia.
    intros off' fdoff' Hoff' H8' Hcnt. apply IHe; [lia|done|unfold steps_left in *; lia|done].
  - intros slots cnt i off fdoff Hoff H8 Hf Hslots. rewrite unpack_elems_S.
    destruct (Z.leb_spec cnt i) as [Hi|Hi]; [by split; [lia|]|].
    pose proof (IHn off fdoff Hoff H8 ltac:(lia)) as Hn.
    destruct (unpack mem data_size rfds fuel off fdoff) as [| |[[r off'] fdoff']]; [done|done|].
    destruct (Z.ltb_spec slots (8 * (i + 1))) as [Hs|Hs].
    { cbn. destruct Hslots; [lia|done]. }
    destruct r as [e|d]; [done|]. destruct Hn as [Hoff' H8'].
    pose proof (IHe slots cnt (i + 1) off' fdoff' ltac:(lia) H8'
      ltac:(unfold steps_left in *; lia) Hslots) as He.
    destruct (unpack_elems _ _ _ _ _ _ _ _ _) as [| |[[[e|l] off''] fdoff'']]; try done;
      cbn in *; intuition lia.
Qed.
End any.
