(* ===== verification/LaunchMsg.v ===== *)
(** * liblaunch: messages over the socket (src/src/liblaunch/liblaunch.c)

    [launchd_msg_send] and [launchd_msg_recv]: the framing of packed trees, the
    state kept across partial transfers, and what the callers make of them.
    The kernel's answers ([sendmsg], [recvmsg]) are arguments. *)

From S2P Require Import Prelude LaunchData LaunchWire.

Local Open Scope Z_scope.

Definition EPERM : Z := 1.
Definition ENOMEM : Z := 12.
Definition ECONNABORTED : Z := 53.
Definition ECONNRESET : Z := 54.
Definition EBADRPC : Z := 72.

Definition LAUNCH_MSG_HEADER_MAGIC : Z := 0xD2FEA02366B39A41.
(** [sizeof(struct launch_msg_header)]. *)
Definition sizeof_launch_msg_header : Z := 16.

Definition launch_msg_header (len : Z) : list byte :=
  le_encode 8 LAUNCH_MSG_HEADER_MAGIC ++ le_encode 8 len.

(** ** [struct _launch]

    A descriptor array and its count are one list. [recvbuf] and [sendbuf] are
    the whole blocks; only the first [recvlen] and [sendlen] bytes are in use. *)

Record launch := Launch {
  sendbuf : list byte;
  sendfds : list Z;
  recvbuf : list byte;
  recvfds : list Z;
  sendlen : Z;
  recvlen : Z;
  use_checkin_fd : bool;
  cifd : Z;
  fd : Z;
}.

Definition launchd_getfd (l : launch) : Z := if use_checkin_fd l then cifd l else fd l.

Definition launchd_fdopen (fd cifd : Z) : launch := {|
  sendbuf := []; sendfds := []; recvbuf := []; recvfds := []; sendlen := 0; recvlen := 0;
  use_checkin_fd := (fd =? -1) || negb (cifd =? -1); cifd := cifd; fd := fd;
|}.

Definition with_send (l : launch) (buf : list byte) (fds : list Z) (len : Z) : launch :=
  Launch buf fds (recvbuf l) (recvfds l) len (recvlen l) (use_checkin_fd l) (cifd l) (fd l).
Definition with_recv (l : launch) (buf : list byte) (fds : list Z) (len : Z) : launch :=
  Launch (sendbuf l) (sendfds l) buf fds (sendlen l) len (use_checkin_fd l) (cifd l) (fd l).

(** What a call returns: its value, [errno], the handle ([None] once it has
    been freed) and what went out on the socket. *)
Record sent_result := Sent {
  s_ret : Z; s_errno : option Z; s_handle : launch; s_bytes : list byte; s_fds : list Z }.

(** [sendmsg]'s answer: an error, or the number of bytes it took. *)
Inductive sendmsg := SFail (e : Z) | STook (n : Z).
(** [recvmsg]'s answer: an error, or data (none at end of file), descriptors
    and whether [MSG_CTRUNC] is set. *)
Inductive recvmsg := RFail (e : Z) | RGot (bs : list byte) (fds : list Z) (ctrunc : bool).

Definition good_enough_size : Z := 10 * 1024 * 1024.
(** [malloc(4 * 1024)] holds this many [int]s. *)
Definition fd_slots : nat := 1024.

Section messages.
(** The contents of fresh memory, and of a buffer whose nodes an unpacking that
    failed has rewritten in place. *)
Variable heap : nat → list byte.
Variable spoil : list byte → list byte.

(** ** [launchd_msg_send] *)

(** From [sendmsg] on: [iov] is everything to send, of which the first [hdr]
    bytes are the header. *)
Definition send_iov (l : launch) (iov : list byte) (hdr : Z) (answer : sendmsg)
    : option sent_result :=
  match answer with
  | SFail e => Some (Sent (-1) (Some e) l [] [])
  | STook n =>
      let out := take (Z.to_nat n) iov in
      if n =? 0 then Some (Sent (-1) (Some ECONNRESET) l [] []) else
      let r := i32 (n - hdr) in
      let len := u64 (sendlen l - r) in
      if 0 <? len then
        bs ← mem_load (sendbuf l) r len;
        buf ← mem_store (sendbuf l) 0 bs;
        Some (Sent (-1) (Some EAGAIN) (with_send l buf [] len) out (sendfds l))
      else Some (Sent 0 None (with_send l [] [] 0) out (sendfds l))
  end.

Definition launchd_msg_send (l : launch) (d : option launch_data) (answer : sendmsg)
    : option sent_result :=
  if launchd_getfd l =? -1 then Some (Sent (-1) (Some EPERM) l [] []) else
  match d with
  | Some d =>
      if negb (sendlen l =? 0) then None else
      '(len, (buf, fds)) ← launch_data_pack d 0 good_enough_size (Some fd_slots)
                             (heap (Z.to_nat good_enough_size), []);
      if len =? 0
      then Some (Sent (-1) (Some ENOMEM) (with_send l buf (take (length (sendfds l)) fds) 0) [] [])
      else
        let msglen := u64 (len + sizeof_launch_msg_header) in
        send_iov (with_send l buf fds len)
          (launch_msg_header msglen ++ take (Z.to_nat len) buf) sizeof_launch_msg_header answer
  | None =>
      if sendlen l =? 0 then None else
      send_iov l (take (Z.to_nat (sendlen l)) (sendbuf l)) 0 answer
  end.

(** The callers' loop, [do { if (errno != EAGAIN) goto out; } while
    (launchd_msg_send(l, NULL) == -1)], over the kernel's answers; what went
    out is collected. It stops where the answers end. *)
Fixpoint send_again (l : launch) (answers : list sendmsg) (bytes : list byte) (fds : list Z)
    : option sent_result :=
  match answers with
  | [] => Some (Sent (-1) (Some EAGAIN) l bytes fds)
  | a :: answers =>
      r ← launchd_msg_send l None a;
      let bytes := bytes ++ s_bytes r in
      let fds := fds ++ s_fds r in
      if (s_ret r =? -1) && bool_decide (s_errno r = Some EAGAIN)
      then send_again (s_handle r) answers bytes fds
      else Some (Sent (s_ret r) (s_errno r) (s_handle r) bytes fds)
  end.

Definition send_all (l : launch) (d : launch_data) (answer : sendmsg) (answers : list sendmsg)
    : option sent_result :=
  r ← launchd_msg_send l (Some d) answer;
  if (s_ret r =? -1) && bool_decide (s_errno r = Some EAGAIN)
  then send_again (s_handle r) answers (s_bytes r) (s_fds r)
  else Some r.

(** ** [launchd_msg_recv] *)

Context {X : Type}.
(** The callback: the context after it, and whether it closed the handle. *)
Variable cb : launch_data → X → option (X * bool).

(** The value, [errno], the handle and the context. *)
Definition recv_result : Type := Z * option Z * option launch * X.

(** [memmove(buf, buf + off, len)], or a new empty block when [len] is 0. *)
Definition consume (buf : list byte) (off len : Z) : option (list byte) :=
  if 0 <? len then bs ← mem_load buf off len; mem_store buf 0 bs else Some [].

Fixpoint recv_loop (fuel : nat) (l : launch) (context : X) : result recv_result :=
  match fuel with
  | 0%nat => OutOfFuel
  | S fuel =>
      if recvlen l =? 0 then Done (0, None, Some l, context) else
      if recvlen l <? sizeof_launch_msg_header then Done (-1, Some EAGAIN, Some l, context) else
      match load64 (recvbuf l) 0, load64 (recvbuf l) 8 with
      | Some magic, Some tmplen =>
          if negb (magic =? LAUNCH_MSG_HEADER_MAGIC) || (tmplen <=? sizeof_launch_msg_header)
          then Done (-1, Some EBADRPC, Some l, context) else
          if recvlen l <? tmplen then Done (-1, Some EAGAIN, Some l, context) else
          match launch_data_unpack (recvbuf l) (recvlen l) (recvfds l) sizeof_launch_msg_header 0 with
          | Done (UNull _, _, _) =>
              Done (-1, Some EBADRPC,
                Some (with_recv l (spoil (recvbuf l)) (recvfds l) (recvlen l)), context)
          | Done (UNode rmsg, data_offset, fd_offset) =>
              match cb rmsg context with
              | Some (context, true) => Done (0, None, None, context)
              | Some (context, false) =>
                  let len := u64 (recvlen l - data_offset) in
                  match consume (recvbuf l) data_offset len with
                  | Some buf =>
                      recv_loop fuel
                        (with_recv l buf (drop (Z.to_nat fd_offset) (recvfds l)) len) context
                  | None => Crash
                  end
              | None => Crash
              end
          | Crash => Crash
          | OutOfFuel => OutOfFuel
          end
      | _, _ => Crash
      end
  end.

Definition recv_chunk : Z := 8 * 1024.

(** [reallocf]: the block keeps its bytes and grows by fresh ones. *)
Definition reallocf (buf : list byte) (n : nat) : list byte :=
  take n buf ++ heap (n - length buf).

Definition launchd_msg_recv (l : launch) (answer : recvmsg) (context : X) : result recv_result :=
  if launchd_getfd l =? -1 then Done (-1, Some EPERM, Some l, context) else
  let buf := reallocf (recvbuf l) (Z.to_nat (recvlen l + recv_chunk)) in
  let l := with_recv l buf (recvfds l) (recvlen l) in
  match answer with
  | RFail e => Done (-1, Some e, Some l, context)
  | RGot [] _ _ => Done (-1, Some ECONNRESET, Some l, context)
  | RGot bs fds ctrunc =>
      match mem_store buf (recvlen l) bs with
      | None => Crash
      | Some buf =>
          if ctrunc : bool
          then Done (-1, Some ECONNABORTED, Some (with_recv l buf (recvfds l) (recvlen l)), context)
          else
            let len := recvlen l + Z.of_nat (length bs) in
            recv_loop (S (Z.to_nat len)) (with_recv l buf (recvfds l ++ fds) len) context
      end
  end.
End messages.
