(* ===== verification/LaunchStream.v ===== *)
(** * liblaunch: frames on a stream

    [framed d f fds]: [f] is the message [launchd_msg_send] puts on the socket
    for the tree [d]. The lemmas follow the loop of [launchd_msg_recv] over the
    frames its buffer holds. *)

From S2P Require Import Prelude LaunchData LaunchWire LaunchPack LaunchUnpack LaunchMsg.

Local Open Scope Z_scope.

Definition framed (d : launch_data) (f : list byte) (fds : list Z) : Prop :=
  data_ok d ∧ ∃ img, image d img fds ∧ Z.of_nat (length img) < 2 ^ 61 ∧
    f = launch_msg_header (sizeof_launch_msg_header + Z.of_nat (length img)) ++ img.

(** The frames of several messages, one after the other. *)
Inductive frames : list launch_data → list byte → list Z → Prop :=
| frames_nil : frames [] [] []
| frames_cons d ds f fs fds fds' :
    framed d f fds → frames ds fs fds' → frames (d :: ds) (f ++ fs) (fds ++ fds').

(** The beginning of a message whose end has not arrived. *)
Definition incomplete (p : list byte) : Prop :=
  ∃ d f fds rest, framed d f fds ∧ f = p ++ rest ∧ rest ≠ [].

Lemma length_header len : length (launch_msg_header len) = 16%nat.
Proof. unfold launch_msg_header. by rewrite length_app, !length_le_encode. Qed.

Lemma header_words len rest :
  0 ≤ len < 2 ^ 64 →
  load64 (launch_msg_header len ++ rest) 0 = Some LAUNCH_MSG_HEADER_MAGIC ∧
  load64 (launch_msg_header len ++ rest) 8 = Some len.
Proof.
  intros Hlen. unfold launch_msg_header. rewrite <-app_assoc. split.
  - pose proof (load64_mid [] (le_encode 8 LAUNCH_MSG_HEADER_MAGIC) (le_encode 8 len ++ rest) 0
      eq_refl (length_le_encode 8 _)) as H. by rewrite le_decode_8 in H.
  - rewrite (load64_mid _ (le_encode 8 len)); [by rewrite le_decode_8| |by rewrite length_le_encode].
    by rewrite length_le_encode.
Qed.

(** What is left of a buffer once its beginning has been consumed. *)
Lemma consume_mid a content slack :
  ∃ slack', consume (a ++ content ++ slack) (Z.of_nat (length a)) (Z.of_nat (length content)) =
    Some (content ++ slack').
Proof.
  unfold consume. destruct (Z.ltb_spec 0 (Z.of_nat (length content))) as [H|H].
  - rewrite load_mid by done. cbn [mbind option_bind].
    destruct (split_block (a ++ content ++ slack) (length content)) as (old & tl & -> & Hold & _);
      [rewrite !length_app; lia|].
    exists tl. by rewrite (store_mid [] old content tl).
  - destruct content; [|cbn in H; lia]. by exists [].
Qed.

(** ** The loop over complete messages *)

Section loop.
Variables (heap : nat → list byte) (spoil : list byte → list byte) (tr : Z → Z).

(** A callback that keeps what it is given and leaves the handle open. *)
Definition keep_msg (rmsg : launch_data) (got : list launch_data) : option (list launch_data * bool) :=
  Some (got ++ [rmsg], false).

(** The handle holds [content] and the descriptors [fds]. *)
Definition holds (l : launch) (content : list byte) (fds : list Z) : Prop :=
  (∃ slack, recvbuf l = content ++ slack) ∧ recvlen l = Z.of_nat (length content) ∧ recvfds l = fds.

(** The part of the handle that receiving does not touch. *)
Definition same_sender (l l' : launch) : Prop :=
  sendbuf l' = sendbuf l ∧ sendfds l' = sendfds l ∧ sendlen l' = sendlen l ∧
  use_checkin_fd l' = use_checkin_fd l ∧ cifd l' = cifd l ∧ fd l' = fd l.

Lemma recv_loop_stop fuel l p fds got :
  holds l p fds → incomplete p →
  recv_loop spoil keep_msg (S fuel) l got =
  Done (if bool_decide (p = []) then 0 else -1, if bool_decide (p = []) then None else Some EAGAIN,
        Some l, got).
Proof.
  intros [(slack & Hbuf) [Hlen Hfds]] (d & f & fds' & rest & (Hok & img & Himg & Hmax & Hf) & Hp & Hrest).
  cbn [recv_loop]. rewrite Hlen. unfold sizeof_launch_msg_header in *.
  destruct (decide (p = [])) as [->|Hne]; [done|].
  assert (length p ≠ 0)%nat by (by destruct p). rewrite bool_decide_eq_false_2 by done.
  rewrite (proj2 (Z.eqb_neq _ _)) by lia.
  destruct (Z.ltb_spec (Z.of_nat (length p)) 16) as [Hs|Hs]; [done|].
  destruct (split_block p 16) as (h & p' & -> & Hh & _); [lia|].
  rewrite Hf, <-app_assoc in Hp. apply app_inj_1 in Hp as [<- ->]; [|by rewrite length_header].
  assert (length rest ≠ 0)%nat by (by destruct rest). rewrite length_app in Hmax.
  rewrite Hbuf, <-app_assoc.
  destruct (header_words (16 + Z.of_nat (length (p' ++ rest))) (p' ++ slack)) as [-> ->];
    [rewrite length_app; lia|].
  rewrite Z.eqb_refl, (proj2 (Z.leb_gt _ _)) by (rewrite length_app; lia). cbn [negb orb].
  rewrite (proj2 (Z.ltb_lt _ _)) by (rewrite !length_app, length_header; lia). done.
Qed.

Lemma recv_loop_frame fuel l d f fs fds fds' got :
  framed d f fds → holds l (f ++ fs) ((tr <$> fds) ++ fds') →
  Z.of_nat (length (f ++ fs)) < 2 ^ 62 →
  ∃ d' l', delivered tr d d' ∧ holds l' fs fds' ∧ same_sender l l' ∧
    recv_loop spoil keep_msg (S fuel) l got = recv_loop spoil keep_msg fuel l' (got ++ [d']).
Proof.
  intros (Hok & img & Himg & Hmax & ->) [(slack & Hbuf) [Hlen Hfds]] Hsize.
  destruct (image_length _ _ _ Himg) as [Hl1 Hl2]. pose proof (packed_size_min d).
  cbn [recv_loop]. unfold sizeof_launch_msg_header in *.
  set (hdr := launch_msg_header (16 + Z.of_nat (length img))) in *.
  assert (length hdr = 16%nat) as Hhdr by apply length_header.
  rewrite <-app_assoc in Hbuf, Hsize, Hlen. rewrite !length_app, Hhdr in Hlen, Hsize.
  destruct (image_reads_back tr (recvbuf l) (recvlen l) (recvfds l) ltac:(lia) d img fds Himg Hok 16 0
    (unpack_fuel (recvbuf l))) as (d' & E & Hd').
  { split.
    - exists hdr, (fs ++ slack). rewrite Hbuf, <-!app_assoc, Hhdr. split_and!; [done|done|lia].
    - exists [], fds'. by rewrite Hfds. }
  { unfold unpack_fuel. rewrite Hbuf, !length_app. lia. }
  rewrite Hlen in E |- *.
  rewrite (proj2 (Z.eqb_neq _ _)), (proj2 (Z.ltb_ge _ _)) by lia.
  rewrite Hbuf, <-!app_assoc in *.
  destruct (header_words (16 + Z.of_nat (length img)) (img ++ fs ++ slack)) as [E0 E8]; [lia|].
  fold hdr in E0, E8. rewrite E0, E8.
  rewrite Z.eqb_refl, (proj2 (Z.leb_gt _ _)), (proj2 (Z.ltb_ge _ _)) by lia. cbn [negb orb].
  unfold launch_data_unpack. rewrite E. cbn [keep_msg].
  replace (u64 (Z.of_nat (16 + (length img + length fs)) - (16 + Z.of_nat (length img))))
    with (Z.of_nat (length fs)) by (rewrite u64_small; lia).
  destruct (consume_mid (hdr ++ img) fs slack) as (slack' & Hc).
  rewrite <-app_assoc, length_app, Hhdr in Hc.
  replace (16 + Z.of_nat (length img)) with (Z.of_nat (16 + length img)) by lia. rewrite Hc.
  eexists d', _. split; [done|]. split; [|split; [|done]].
  - split; [by exists slack'|]. split; [done|].
    cbn [with_recv recvfds]. rewrite Hfds, Z.add_0_l, Nat2Z.id.
    by rewrite drop_app_length' by (by rewrite length_fmap).
  - done.
Qed.

(** All the complete messages are delivered, in order; the rest stays. *)
Lemma recv_loop_frames ds fs fds fuel l p extra got :
  frames ds fs fds → holds l (fs ++ p) ((tr <$> fds) ++ extra) → incomplete p →
  Z.of_nat (length (fs ++ p)) < 2 ^ 62 → (length fs < fuel)%nat →
  ∃ ds' l', Forall2 (delivered tr) ds ds' ∧ holds l' p extra ∧ same_sender l l' ∧
    recv_loop spoil keep_msg fuel l got =
    Done (if bool_decide (p = []) then 0 else -1, if bool_decide (p = []) then None else Some EAGAIN,
          Some l', got ++ ds').
Proof.
  intros Hfr. revert fuel l got. induction Hfr as [|d ds f fs fds fds' Hd Hfr IH];
    intros fuel l got Hl Hp Hsize Hfuel.
  - destruct fuel as [|fuel]; [cbn in Hfuel; lia|]. exists [], l.
    rewrite app_nil_r. split_and!; [done|done|done|]. by apply (recv_loop_stop _ _ _ extra).
  - destruct fuel as [|fuel]; [lia|]. rewrite fmap_app, <-!app_assoc in Hl.
    destruct (recv_loop_frame fuel l d f (fs ++ p) fds ((tr <$> fds') ++ extra) got Hd)
      as (d' & l1 & Hd' & Hl1 & Hs1 & ->); [done|by rewrite app_assoc|].
    rewrite !length_app in *.
    assert (0 < length f)%nat.
    { destruct Hd as (_ & img & _ & _ & ->). rewrite length_app, length_header. lia. }
    destruct (IH fuel l1 (got ++ [d'])) as (ds' & l2 & Hds' & Hl2 & Hs2 & ->);
      [done|done|lia|lia|].
    exists (d' :: ds'), l2. split_and!; [by constructor|done| |by rewrite <-app_assoc].
    unfold same_sender in *. intuition congruence.
Qed.

(** Data that does not begin with the magic number is refused. *)
Lemma recv_loop_refuses fuel l z rest fds got :
  holds l (le_encode 8 z ++ rest) fds → (8 ≤ length rest)%nat → 0 ≤ z < 2 ^ 64 →
  z ≠ LAUNCH_MSG_HEADER_MAGIC →
  recv_loop spoil keep_msg (S fuel) l got = Done (-1, Some EBADRPC, Some l, got).
Proof.
  intros [(slack & Hbuf) [Hlen _]] Hrest Hz Hmagic. cbn [recv_loop]. unfold sizeof_launch_msg_header.
  rewrite length_app, length_le_encode in Hlen.
  rewrite (proj2 (Z.eqb_neq _ _)), (proj2 (Z.ltb_ge _ _)), Hbuf, <-app_assoc by lia.
  destruct (split_block rest 8) as (w & tl & -> & Hw & _); [lia|]. rewrite <-app_assoc.
  pose proof (load64_mid [] (le_encode 8 z) (w ++ tl ++ slack) 0 eq_refl (length_le_encode 8 _)) as E.
  cbn [app] in E. rewrite le_decode_8 in E by done. rewrite E.
  rewrite (load64_mid (le_encode 8 z) w (tl ++ slack)) by (by rewrite ?length_le_encode).
  by rewrite (proj2 (Z.eqb_neq z _)).
Qed.

(** What [recvmsg] delivers goes behind what the handle holds. *)
Lemma recv_stores l old bs fds :
  (∀ n, length (heap n) = n) → holds l old fds →
  Z.of_nat (length (old ++ bs)) < 2 ^ 62 → Z.of_nat (length bs) ≤ recv_chunk →
  ∃ slack, mem_store (reallocf heap (recvbuf l) (Z.to_nat (recvlen l + recv_chunk))) (recvlen l) bs =
    Some ((old ++ bs) ++ slack).
Proof.
  intros Hheap [(slack & Hbuf) [Hlen _]] Hmax Hchunk. unfold recv_chunk in *.
  rewrite Hlen. set (n := Z.to_nat _). assert (Z.of_nat n = Z.of_nat (length old) + 8192) as Hn by lia.
  assert (∃ room, reallocf heap (recvbuf l) n = old ++ room ∧ (length bs ≤ length room)%nat)
    as (room & -> & Hroom).
  { unfold reallocf. rewrite Hbuf, take_app, (take_ge old) by lia.
    eexists. rewrite <-app_assoc. split; [done|].
    rewrite !length_app, Hheap, length_take. lia. }
  destruct (split_block room (length bs)) as (a & b & -> & Ha & _); [lia|].
  exists b. by rewrite (store_mid old a bs b), <-app_assoc.
Qed.
End loop.

(** ** liblaunch: what [launchd_msg_send] puts on the socket

    [drains n answers]: the kernel takes the [n] bytes left in some pieces,
    possibly answering [EAGAIN] in between. *)

Fixpoint drains (n : Z) (answers : list sendmsg) : Prop :=
  match answers with
  | [] => n = 0
  | SFail e :: answers => e = EAGAIN ∧ 0 < n ∧ drains n answers
  | STook k :: answers => 0 < k ≤ n ∧ drains (n - k) answers
  end.

Lemma drains_zero answers : drains 0 answers → answers = [].
Proof. destruct answers as [|[e|k] a]; cbn; [done|lia|lia]. Qed.

Section send.
Variable heap : nat → list byte.
Hypothesis Hheap : ∀ n, length (heap n) = n.

(** [sendmsg] takes [k] bytes after the header: [out] is sent from [k] on. *)
Lemma send_iov_took l pre out slack hdr k :
  sendbuf l = out ++ slack → sendlen l = Z.of_nat (length out) → Z.of_nat (length out) < 2 ^ 30 →
  0 ≤ hdr ≤ k → 0 < k → hdr = Z.of_nat (length pre) → k ≤ hdr + Z.of_nat (length out) → hdr < 2 ^ 30 →
  let done := Z.to_nat (k - hdr) in
  let rest := drop done out in
  ∃ slack', send_iov l (pre ++ out) hdr (STook k) =
    Some (if bool_decide (rest = [])
          then Sent 0 None (with_send l [] [] 0) (pre ++ out) (sendfds l)
          else Sent (-1) (Some EAGAIN)
                 (with_send l (rest ++ slack') [] (Z.of_nat (length rest)))
                 (pre ++ take done out) (sendfds l)).
Proof.
  intros Hbuf Hlen Hmax Hk Hk0 Hhdr Hfit Hhmax sent rest.
  assert (length rest = (length out - sent)%nat) as Hrest by (subst rest; by rewrite length_drop).
  unfold send_iov. rewrite (proj2 (Z.eqb_neq _ _)), i32_small, Hlen, u64_small by lia.
  rewrite take_app. replace (Z.to_nat k - length pre)%nat with sent by (subst sent; lia).
  rewrite take_ge by lia.
  replace (Z.of_nat (length out) - (k - hdr)) with (Z.of_nat (length rest)) by (subst sent; lia).
  case_bool_decide as Hr.
  - rewrite Hr in *. cbn [length] in *. rewrite (proj2 (Z.ltb_ge _ _)), take_ge by lia. by exists [].
  - assert (length rest ≠ 0)%nat by (by destruct rest).
    rewrite (proj2 (Z.ltb_lt _ _)), Hbuf by lia.
    assert (out ++ slack = take sent out ++ rest ++ slack) as Hsplit
      by (subst rest; by rewrite app_assoc, take_drop).
    rewrite Hsplit, (load_mid (take sent out) rest slack) by (rewrite ?length_take_le; lia).
    cbn [mbind option_bind].
    destruct (split_block (take sent out ++ rest ++ slack) (length rest)) as (old & tl & -> & Hold & _);
      [rewrite !length_app; lia|].
    exists tl. by rewrite (store_mid [] old rest tl).
Qed.

(** The loop of the callers sends everything, and the descriptors once. *)
Lemma send_again_drains answers : ∀ l out slack bytes fds,
  launchd_getfd l ≠ -1 → sendbuf l = out ++ slack → sendlen l = Z.of_nat (length out) →
  out ≠ [] → Z.of_nat (length out) < 2 ^ 30 → drains (Z.of_nat (length out)) answers →
  send_again heap l answers bytes fds =
  Some (Sent 0 None (with_send l [] [] 0) (bytes ++ out) (fds ++ sendfds l)).
Proof.
  induction answers as [|[e|k] answers IH]; intros l out slack bytes fds Hfd Hbuf Hlen Hne Hmax Hdr.
  - cbn in Hdr. destruct out; [done|cbn in Hdr; lia].
  - destruct Hdr as (-> & Hpos & Hdr). cbn [send_again]. unfold launchd_msg_send.
    rewrite (proj2 (Z.eqb_neq _ _)), (proj2 (Z.eqb_neq (sendlen l) 0)) by (done || lia).
    cbn [send_iov mbind option_bind s_ret s_errno s_handle s_bytes s_fds].
    rewrite !app_nil_r. by eapply IH.
  - destruct Hdr as (Hk & Hdr). cbn [send_again]. unfold launchd_msg_send.
    rewrite (proj2 (Z.eqb_neq _ _)), (proj2 (Z.eqb_neq (sendlen l) 0)) by (done || lia).
    rewrite Hlen, Nat2Z.id, Hbuf, take_app_length.
    destruct (send_iov_took l [] out slack 0 k Hbuf Hlen Hmax) as (slack' & E); [lia..|done|lia|lia|].
    rewrite Z.sub_0_r in E. cbn [app] in E. rewrite E. cbn [mbind option_bind].
    case_bool_decide as Hr; cbn [s_ret s_errno s_handle s_bytes s_fds]; [done|].
    rewrite bool_decide_eq_true_2 by done. cbn [Z.eqb Pos.eqb andb].
    assert (Z.of_nat (length (drop (Z.to_nat k) out)) = Z.of_nat (length out) - k) as Hl
      by (rewrite length_drop; lia).
    rewrite (IH (with_send l _ _ _) (drop (Z.to_nat k) out) slack') by (done || by rewrite Hl; try lia).
    cbn [with_send sendfds]. by rewrite app_nil_r, <-app_assoc, take_drop.
Qed.

(** The first call: pack, then send the header and the image together. *)
Lemma send_first l d answer :
  data_ok d → Z.of_nat (packed_size d) ≤ good_enough_size → (fd_count d ≤ fd_slots)%nat →
  launchd_getfd l ≠ -1 → sendlen l = 0 →
  ∃ img fds slack, image d img fds ∧
    launchd_msg_send heap l (Some d) answer =
    send_iov (with_send l (img ++ slack) fds (Z.of_nat (length img)))
      (launch_msg_header (16 + Z.of_nat (length img)) ++ img) 16 answer.
Proof.
  intros Hok Hsize Hfds Hfd Hlen. unfold launchd_msg_send.
  rewrite (proj2 (Z.eqb_neq _ _)), Hlen by done. cbn [Z.eqb negb].
  assert (∃ n, Z.to_nat good_enough_size = n ∧ good_enough_size = Z.of_nat n) as (n & -> & Hn)
    by (eexists; split; [done|]; rewrite Z2Nat.id; [done|discriminate]).
  assert (good_enough_size < 2 ^ 30) as Hbig by reflexivity.
  rewrite Hn in *. unfold sizeof_launch_msg_header.
  destruct (launch_data_pack_ok fd_slots d Hok [] (heap n) 0 n []) as
    (r & free' & new & E & Hl & _ & _ & Hfit & _); [done|by rewrite Hheap|lia|done|].
  cbn [app] in E. rewrite E. cbn [mbind option_bind].
  destruct Hfit as (-> & bs & Himg & ->); [lia|].
  destruct (image_length _ _ _ Himg) as [Hbs Hnew]. pose proof (packed_size_min d).
  rewrite Nat.add_0_l, <-Hbs, (proj2 (Z.eqb_neq _ _)), Nat2Z.id, take_app_length, u64_small by lia.
  exists bs, new, (drop (length bs) (heap n)). split; [done|]. by rewrite Z.add_comm.
Qed.

Section tree.
Variables (l : launch) (d : launch_data).
Hypothesis Hok : data_ok d.
Hypothesis Hsize : Z.of_nat (packed_size d) ≤ good_enough_size.
Hypothesis Hfds : (fd_count d ≤ fd_slots)%nat.
Hypothesis Hfd : launchd_getfd l ≠ -1.
Hypothesis Hidle : sendlen l = 0.

Definition sent_handle : launch := with_send l [] [] 0.

Lemma size_small n : Z.of_nat n ≤ good_enough_size → Z.of_nat n < 2 ^ 30.
Proof. change good_enough_size with 10485760. lia. Qed.

(** The header goes out with the first bytes: a whole frame is sent. *)
Lemma send_all_frame k answers :
  16 ≤ k ≤ 16 + Z.of_nat (packed_size d) → drains (16 + Z.of_nat (packed_size d) - k) answers →
  ∃ f fds, framed d f fds ∧ send_all heap l d (STook k) answers = Some (Sent 0 None sent_handle f fds).
Proof.
  intros Hk Hdr. destruct (send_first l d (STook k) Hok Hsize Hfds Hfd Hidle)
    as (img & fds & slack & Himg & E).
  destruct (image_length _ _ _ Himg) as [Hl Hn]. pose proof (size_small _ Hsize) as Hbig.
  exists (launch_msg_header (16 + Z.of_nat (length img)) ++ img), fds. split.
  { split; [done|]. exists img. split_and!; [done|lia|done]. }
  unfold send_all. rewrite E.
  destruct (send_iov_took (with_send l (img ++ slack) fds (Z.of_nat (length img)))
    (launch_msg_header (16 + Z.of_nat (length img))) img slack 16 k) as (slack' & ->);
    [done..|lia|lia|lia|by rewrite length_header|lia|lia|].
  cbn [mbind option_bind].
  case_bool_decide as Hr; cbn [s_ret s_errno s_handle s_bytes s_fds]; [done|].
  rewrite bool_decide_eq_true_2 by done. cbn [Z.eqb Pos.eqb andb].
  set (rest := drop (Z.to_nat (k - 16)) img) in *.
  assert (Z.of_nat (length rest) = 16 + Z.of_nat (packed_size d) - k) as Hrest
    by (subst rest; rewrite length_drop; lia).
  rewrite (send_again_drains answers _ rest slack');
    [|done|done|done|done|lia|by rewrite Hrest].
  cbn [with_send sendfds]. rewrite app_nil_r, <-app_assoc. subst rest. by rewrite take_drop.
Qed.

(** The first call finds the socket full: the retries send the image alone. *)
Lemma send_all_again answers :
  drains (Z.of_nat (packed_size d)) answers →
  ∃ img fds, image d img fds ∧
    send_all heap l d (SFail EAGAIN) answers = Some (Sent 0 None sent_handle img fds).
Proof.
  intros Hdr. destruct (send_first l d (SFail EAGAIN) Hok Hsize Hfds Hfd Hidle)
    as (img & fds & slack & Himg & E).
  destruct (image_length _ _ _ Himg) as [Hl Hn]. pose proof (size_small _ Hsize) as Hbig.
  pose proof (packed_size_min d). exists img, fds. split; [done|].
  unfold send_all. rewrite E. cbn [send_iov mbind option_bind s_ret s_errno s_handle s_bytes s_fds].
  rewrite bool_decide_eq_true_2 by done. cbn [Z.eqb Pos.eqb andb].
  rewrite (send_again_drains answers _ img slack); try done.
  - by intros ->; cbn in Hl; lia.
  - lia.
  - by rewrite Hl.
Qed.

(** The kernel takes less than the header: the rest is looked for before the
    beginning of the buffer. *)
Lemma send_all_short k answers :
  0 < k < 16 → send_all heap l d (STook k) answers = None.
Proof.
  intros Hk. destruct (send_first l d (STook k) Hok Hsize Hfds Hfd Hidle)
    as (img & fds & slack & Himg & E).
  destruct (image_length _ _ _ Himg) as [Hl Hn]. pose proof (size_small _ Hsize) as Hbig.
  unfold send_all. rewrite E. unfold send_iov. cbn [with_send sendlen sendbuf].
  rewrite (proj2 (Z.eqb_neq _ _)), i32_small, u64_small, (proj2 (Z.ltb_lt _ _)) by lia.
  unfold mem_load. by rewrite (proj2 (Z.leb_gt 0 (k - 16))) by lia.
Qed.
End tree.
End send.
