(* ===== verification/LaunchSpec.v ===== *)
(** * What liblaunch guarantees

    Packing and unpacking are inverse and stay in their buffers, dictionaries
    are finite maps, and messages survive any fragmentation of the stream.  And
    the cases where they do not. *)

From S2P Require Import Prelude LaunchData LaunchWire LaunchPack LaunchUnpack.
From S2P Require Import LaunchMsg LaunchStream.

Local Open Scope Z_scope.

(** ** The trees *)

Definition sample_key : list byte := [x4c; x61].
Definition sample : launch_data :=
  LD_array LAUNCH_DATA_DICTIONARY
    [Some (key_node sample_key); Some (LD_scalar LAUNCH_DATA_FD 5);
     Some (key_node [x70]); Some (LD_array LAUNCH_DATA_ARRAY
       [Some (LD_scalar LAUNCH_DATA_BOOL 1); Some (LD_opaque [x01; x02; x03] 3)])].

Lemma sample_ok : data_ok sample.
Proof.
  cbn. split_and!; try done.
  - exists sample_key. split_and!; try done. set_solver.
  - exists [x70]. split_and!; try done. set_solver.
Defined.

(** C36: packing a tree into a budget of [len] bytes returns the size of its image
    or, when it does not fit, 0; no byte outside the budget changes in either
    case. What was packed is unpacked again, from any buffer that holds it at
    any offset, to the same tree (descriptors renumbered, port rights left
    out), the offsets advanced over exactly its bytes and descriptors; the copy
    a callback takes of it is that tree. *)
Theorem launch_data_roundtrip (d : launch_data) (pre free : list byte) (len room : nat)
    (fds : list Z) (tr : Z → Z) :
  data_ok d → (len ≤ length free)%nat → Z.of_nat len < 2 ^ 60 →
  (length fds + fd_count d ≤ room)%nat →
  ∃ free' new,
    launch_data_pack d (Z.of_nat (length pre)) (Z.of_nat len) (Some room) (pre ++ free, fds) =
      Some (if (packed_size d <=? len)%nat then Z.of_nat (packed_size d) else 0,
            (pre ++ free', fds ++ new)) ∧
    length free' = length free ∧ drop len free' = drop len free ∧
    ((packed_size d ≤ len)%nat →
     ∀ before after fds_before fds_after data_size,
       let mem := before ++ take (packed_size d) free' ++ after in
       Z.of_nat (length before + packed_size d) ≤ data_size < 2 ^ 62 →
       ∃ d', launch_data_unpack mem data_size (fds_before ++ (tr <$> new) ++ fds_after)
               (Z.of_nat (length before)) (Z.of_nat (length fds_before)) =
             Done (UNode d', Z.of_nat (length before + packed_size d),
                   Z.of_nat (length fds_before + length new)) ∧
         delivered tr d d' ∧ launch_data_copy d' = Some d').
Proof.
  intros Hok Hlen Hmax Hroom.
  destruct (launch_data_pack_ok room d Hok pre free _ len fds eq_refl Hlen ltac:(lia) Hroom)
    as (r & free' & new & -> & Hl & Hdr & _ & Hfit & Hno).
  exists free', new. split_and!; [|done|done|].
  { destruct (Nat.leb_spec (packed_size d) len); [|by rewrite Hno by lia].
    by destruct Hfit as [-> _]. }
  intros Hsz. destruct (Hfit Hsz) as (-> & bs & Himg & ->). clear Hfit Hno.
  intros before after fb fa data_size mem Hds.
  destruct (image_length _ _ _ Himg) as [Hbs Hfds]. subst mem.
  rewrite take_app_length' by done.
  destruct (image_reads_back tr (before ++ bs ++ after) data_size (fb ++ (tr <$> new) ++ fa)
    ltac:(lia) d bs new Himg Hok (Z.of_nat (length before)) (Z.of_nat (length fb))
    (unpack_fuel (before ++ bs ++ after))) as (d' & E & Hd').
  - split; [exists before, after; split_and!; [done|done|lia]|by exists fb, fa].
  - unfold unpack_fuel. rewrite !length_app. lia.
  - exists d'. split_and!; [|done|by eapply copy_delivered].
    unfold launch_data_unpack. rewrite E, <-!Nat2Z.inj_add. by rewrite Hbs.
Qed.

Lemma launch_data_roundtrip_witness :
  ∃ free' new,
    launch_data_pack sample 2 300 (Some 4%nat) ([x61; x62] ++ replicate 300 x00, []) =
      Some (Z.of_nat (packed_size sample), ([x61; x62] ++ free', new)) ∧ length free' = 300%nat.
Proof.
  destruct (launch_data_roundtrip sample [x61; x62] (replicate 300 x00) 300 4 [] (λ fd, fd))
    as (free' & new & E & Hl & _); [exact sample_ok|by vm_compute; lia|reflexivity|by vm_compute; lia|].
  exists free', new. split; [exact E|exact Hl].
Defined.

(** C38: unpacking terminates and stays in the buffer on any input whose size is
    a multiple of 8: the offset only moves forward and never past the data, a
    node takes at least its 24 bytes, and the only out-of-bounds access is the
    one of an array whose element count makes the size of its slots wrap
    around. *)
Theorem launch_data_unpack_total (mem : list byte) (data_size : Z) (rfds : list Z) (off fdoff : Z) :
  0 ≤ data_size ≤ Z.of_nat (length mem) → data_size < 2 ^ 62 → (8 | data_size) →
  0 ≤ off ≤ data_size → (8 | off) →
  (∃ d off' fdoff', launch_data_unpack mem data_size rfds off fdoff = Done (UNode d, off', fdoff') ∧
     off + 24 ≤ off' ≤ data_size ∧ (8 | off')) ∨
  (∃ e off' fdoff', launch_data_unpack mem data_size rfds off fdoff = Done (UNull e, off', fdoff') ∧
     off ≤ off' ≤ data_size ∧ (8 | off')) ∨
  (launch_data_unpack mem data_size rfds off fdoff = Crash ∧ huge_count mem data_size).
Proof.
  intros Hmem Hmax Halign Hoff H8. unfold launch_data_unpack.
  destruct (unpack_inside mem data_size rfds Hmem Hmax Halign (unpack_fuel mem)) as [Hn _].
  specialize (Hn off fdoff Hoff H8). unfold steps_left, unpack_fuel in *.
  destruct (unpack _ _ _ _ _ _) as [| |[[[e|d] off'] fdoff']]; cbn [inside] in Hn.
  - exfalso. apply Hn. lia.
  - right; right. split; [done|]. apply Hn. lia.
  - right; left. eexists _, _, _. split; [done|]. apply Hn. lia.
  - left. eexists _, _, _. split; [done|]. apply Hn. lia.
Qed.

(** A string node whose length word is larger than what follows. *)
Definition truncated : list byte :=
  le_encode 8 7 ++ le_encode 8 0 ++ le_encode 8 200 ++ replicate 8 x41.

Lemma launch_data_unpack_total_witness :
  launch_data_unpack truncated 32 [] 0 0 = Done (UNull (Some EAGAIN), 24, 0) ∧ 24 ≤ 32.
Proof.
  destruct (launch_data_unpack_total truncated 32 [] 0 0) as
    [(d & o & f & E & _)|[(e & o & f & E & Ho & _)|[E _]]];
    [done|reflexivity|by exists 4|done|by exists 0| | |]; vm_compute in E; try discriminate.
  split; [reflexivity|]. by injection E as <- <- <-.
Defined.

(** The slots of 2^61 elements take 0 bytes: the first pointer is stored over
    the element itself. *)
Theorem launch_data_unpack_wraps :
  launch_data_unpack
    (le_encode 8 2 ++ le_encode 8 0 ++ le_encode 8 (2 ^ 61) ++
     le_encode 8 6 ++ le_encode 8 1 ++ le_encode 8 0) 48 [] 0 0 = Crash.
Proof. reflexivity. Qed.

(** A dictionary is not required to hold pairs: one that arrives with a key
    and no value makes the search for that key read past the array. *)
Theorem launch_data_dict_lookup_odd :
  ∃ d, launch_data_unpack
      (le_encode 8 1 ++ le_encode 8 0 ++ le_encode 8 1 ++ le_encode 8 0 ++
       le_encode 8 7 ++ le_encode 8 0 ++ le_encode 8 1 ++ [x6b] ++ replicate 7 x00) 64 [] 0 0 =
    Done (UNode d, 64, 0) ∧ launch_data_dict_lookup d [x6b] = None.
Proof. eexists. split; reflexivity. Qed.

(** ** Dictionaries *)

(** A dictionary is a finite map on case-folded keys: looking up, inserting,
    removing, counting and iterating do what the map's operations do, whatever
    the spelling of the key. *)
Theorem launch_data_dict_map (d : launch_data) (m : gmap (list byte) (option launch_data))
    (key : list byte) (what : option launch_data) :
  is_dict d m → nul_free key →
  launch_data_dict_lookup d key = Some (mjoin (m !! fold_key key)) ∧
  launch_data_dict_get_count d = Some (size m) ∧
  (∃ d', launch_data_dict_insert d what key = Some d' ∧ is_dict d' (<[fold_key key := what]> m)) ∧
  (m !! fold_key key ≠ Some None →
   ∃ d', launch_data_dict_remove d key = Some (bool_decide (is_Some (m !! fold_key key)), d') ∧
     is_dict d' (delete (fold_key key) m)) ∧
  (∃ ps, launch_data_dict_iterate d = Some ((λ p : dict_entry, (p.2, Some (p.1 ++ [x00]))) <$> ps) ∧
     dict_entries_ok ps ∧ m = entries_map ps).
Proof.
  intros Hd Hkey. split_and!.
  - by apply is_dict_lookup.
  - by apply is_dict_count.
  - by apply is_dict_insert.
  - by apply is_dict_remove.
  - by apply is_dict_iterate.
Qed.

(** ["La"] and ["lA"] are the same key. *)
Lemma launch_data_dict_map_witness :
  launch_data_dict_lookup
    (LD_array LAUNCH_DATA_DICTIONARY [Some (key_node sample_key); Some (LD_scalar LAUNCH_DATA_BOOL 1)])
    [x6c; x41] = Some (Some (LD_scalar LAUNCH_DATA_BOOL 1)).
Proof.
  set (ps := [(sample_key, Some (LD_scalar LAUNCH_DATA_BOOL 1))] : list dict_entry).
  destruct (launch_data_dict_map (LD_array LAUNCH_DATA_DICTIONARY (dict_array ps)) (entries_map ps)
    [x6c; x41] None) as [E _].
  - exists ps. split_and!; [reflexivity| |reflexivity]. split.
    + apply NoDup_singleton.
    + constructor; [vm_compute; exact I|constructor].
  - vm_compute. exact I.
  - exact E.
Defined.

(** ** Messages *)

Definition fresh (n : nat) : list byte := replicate n x00.
Definition demo_handle : launch := launchd_fdopen 3 (-1).

Lemma length_fresh n : length (fresh n) = n.
Proof. apply length_replicate. Qed.

(** C37: [launchd_msg_send] and the retries of its callers put exactly one frame
    on the socket, and the descriptors once, however the kernel cuts it up and
    however often it answers [EAGAIN], as long as its first answer takes the
    header; the handle is idle again. *)
Theorem launchd_msg_send_frame (heap : nat → list byte) (l : launch) (d : launch_data) (k : Z)
    (answers : list sendmsg) :
  (∀ n, length (heap n) = n) → data_ok d → Z.of_nat (packed_size d) ≤ good_enough_size →
  (fd_count d ≤ fd_slots)%nat → launchd_getfd l ≠ -1 → sendlen l = 0 →
  16 ≤ k ≤ 16 + Z.of_nat (packed_size d) → drains (16 + Z.of_nat (packed_size d) - k) answers →
  ∃ f fds, framed d f fds ∧
    send_all heap l d (STook k) answers = Some (Sent 0 None (with_send l [] [] 0) f fds).
Proof. intros. by apply (send_all_frame heap). Qed.

Lemma launchd_msg_send_frame_witness :
  ∃ f fds, framed sample f fds ∧
    send_all fresh demo_handle sample (STook 40) [SFail EAGAIN; STook 100; SFail EAGAIN; STook 116] =
    Some (Sent 0 None (with_send demo_handle [] [] 0) f fds).
Proof.
  apply (launchd_msg_send_frame fresh demo_handle sample 40);
    [exact length_fresh|exact sample_ok|by vm_compute|apply Nat.leb_le; reflexivity|discriminate|reflexivity
    |by vm_compute|by vm_compute].
Defined.

(** One call of [launchd_msg_recv] delivers, in order, every message the
    data received so far completes, each once and as the sender packed it, and
    keeps the incomplete rest for the next call; it returns 0 when nothing is
    left over and -1 with [EAGAIN] otherwise. What the handle holds to send is
    not touched. *)
Theorem launchd_msg_recv_frames (heap : nat → list byte) (spoil : list byte → list byte) (tr : Z → Z)
    (l : launch) (old p bs : list byte) (rfds fds extra : list Z) (ds : list launch_data)
    (f : list byte) (ffds : list Z) (got : list launch_data) :
  (∀ n, length (heap n) = n) → launchd_getfd l ≠ -1 →
  holds l old rfds → bs ≠ [] → Z.of_nat (length bs) ≤ recv_chunk →
  frames ds f ffds → old ++ bs = f ++ p → rfds ++ fds = (tr <$> ffds) ++ extra → incomplete p →
  Z.of_nat (length (old ++ bs)) < 2 ^ 62 →
  ∃ ds' l', Forall2 (delivered tr) ds ds' ∧ holds l' p extra ∧ same_sender l l' ∧
    launchd_msg_recv heap spoil keep_msg l (RGot bs fds false) got =
    Done (if bool_decide (p = []) then 0 else -1, if bool_decide (p = []) then None else Some EAGAIN,
          Some l', got ++ ds').
Proof.
  intros Hheap Hfd Hl Hbs Hchunk Hfr Hdata Hfds Hp Hmax.
  destruct (recv_stores heap l old bs rfds Hheap Hl) as (slack & E); [lia|lia|].
  unfold launchd_msg_recv. rewrite (proj2 (Z.eqb_neq _ _)) by done.
  destruct bs as [|b bs]; [done|]. cbn [with_recv recvlen]. rewrite E.
  destruct Hl as (_ & Hlen & Hr). rewrite Hlen, <-Nat2Z.inj_add, Nat2Z.id, <-length_app.
  set (l1 := with_recv _ _ _ _).
  destruct (recv_loop_frames heap spoil tr ds f ffds (S (length (old ++ b :: bs))) l1 p extra got)
    as (ds' & l' & Hds & Hl' & Hs & ->); [done| |done|by rewrite <-Hdata| |].
  - subst l1. split; [exists slack; by rewrite <-Hdata|]. cbn. by rewrite Hdata, Hr.
  - rewrite Hdata, length_app. lia.
  - by exists ds', l'.
Qed.

Definition yes : launch_data := LD_scalar LAUNCH_DATA_BOOL 1.
Definition yes_frame : list byte :=
  launch_msg_header 40 ++ le_encode 8 6 ++ le_encode 8 1 ++ replicate 8 x00.

Lemma yes_framed : framed yes yes_frame [].
Proof.
  split; [by vm_compute|]. exists (le_encode 8 6 ++ le_encode 8 1 ++ replicate 8 x00).
  split_and!; [|by vm_compute|reflexivity]. by apply (image_scalar LAUNCH_DATA_BOOL 1).
Qed.

(** The handle already holds 10 bytes of a message; its other 30 and 3 of the
    next one arrive. *)
Lemma launchd_msg_recv_frames_witness :
  ∃ d' l', delivered (λ fd, fd) yes d' ∧ holds l' (take 3 yes_frame) [] ∧
    launchd_msg_recv fresh (λ b, b) keep_msg (with_recv demo_handle (take 10 yes_frame) [] 10)
      (RGot (drop 10 yes_frame ++ take 3 yes_frame) [] false) [] =
    Done (-1, Some EAGAIN, Some l', [d']).
Proof.
  destruct (launchd_msg_recv_frames fresh (λ b, b) (λ fd, fd)
    (with_recv demo_handle (take 10 yes_frame) [] 10) (take 10 yes_frame) (take 3 yes_frame)
    (drop 10 yes_frame ++ take 3 yes_frame) [] [] [] [yes] yes_frame [] [])
    as (ds' & l' & Hds & Hl' & _ & E);
    [exact length_fresh|discriminate| |discriminate|by vm_compute| |reflexivity|reflexivity| |by vm_compute|].
  - split; [by exists []|done].
  - rewrite <-(app_nil_r yes_frame). apply (frames_cons yes [] yes_frame [] [] []);
      [exact yes_framed|constructor].
  - exists yes, yes_frame, [], (drop 3 yes_frame). split_and!; [exact yes_framed|reflexivity|discriminate].
  - inversion Hds as [|? d' ? ? Hd' Hnil]; subst. inversion Hnil; subst.
    exists d', l'. split_and!; [done|done|exact E].
Defined.

(** ** Where messages do not survive *)

(** The first word of an image is a type, never the magic number. *)
Lemma image_no_magic d img fds : image d img fds → ∃ rest t, img = le_encode 8 (type_code t) ++ rest.
Proof. destruct 1; eauto. Qed.

(** When the first [sendmsg] answers [EAGAIN] the header is never sent: the
    retries report success for the image alone, which every receiver refuses. *)
Theorem launchd_msg_send_header_lost (heap : nat → list byte) (spoil : list byte → list byte)
    (l : launch) (d : launch_data) (answers : list sendmsg) (got : list launch_data) :
  (∀ n, length (heap n) = n) → data_ok d → Z.of_nat (packed_size d) ≤ recv_chunk →
  (fd_count d ≤ fd_slots)%nat → launchd_getfd l ≠ -1 → sendlen l = 0 →
  drains (Z.of_nat (packed_size d)) answers →
  ∃ img fds, send_all heap l d (SFail EAGAIN) answers = Some (Sent 0 None (with_send l [] [] 0) img fds) ∧
    ∀ r rfds, launchd_getfd r ≠ -1 → holds r [] [] →
      ∃ r', launchd_msg_recv heap spoil keep_msg r (RGot img rfds false) got =
            Done (-1, Some EBADRPC, Some r', got).
Proof.
  intros Hheap Hok Hsize Hfds Hfd Hidle Hdr.
  destruct (send_all_again heap Hheap l d Hok) with (answers := answers) as (img & fds & Himg & E);
    try done.
  { transitivity recv_chunk; [done|by vm_compute]. }
  exists img, fds. split; [done|]. intros r rfds Hr Hholds.
  destruct (image_length _ _ _ Himg) as [Hl _]. pose proof (packed_size_min d).
  assert (Z.of_nat (length img) < 2 ^ 62) as Hmax by (unfold recv_chunk in *; lia).
  destruct (recv_stores heap r [] img [] Hheap Hholds Hmax) as (slack & Es); [lia|].
  destruct (image_no_magic _ _ _ Himg) as (rest & t & Hi).
  unfold launchd_msg_recv. rewrite (proj2 (Z.eqb_neq _ _)) by done.
  destruct img as [|b bs]; [cbn in Hl; lia|]. cbn [with_recv recvlen]. rewrite Es.
  destruct Hholds as (_ & Hlen & _). cbn [length] in Hlen. rewrite Hlen. eexists.
  apply (recv_loop_refuses spoil _ _ (type_code t) rest (recvfds r ++ rfds)).
  - split; [by exists slack; rewrite <-Hi|]. split; [|done]. cbn [with_recv recvlen]. by rewrite Hi.
  - apply (f_equal length) in Hi. rewrite length_app, length_le_encode in Hi. lia.
  - apply type_code_range.
  - by destruct t as [[]|[]| |].
Qed.

(** When it takes part of the header only, the remainder of the message is
    looked for before the beginning of the buffer. *)
Theorem launchd_msg_send_short_header (heap : nat → list byte) (l : launch) (d : launch_data)
    (k : Z) (answers : list sendmsg) :
  (∀ n, length (heap n) = n) → data_ok d → Z.of_nat (packed_size d) ≤ good_enough_size →
  (fd_count d ≤ fd_slots)%nat → launchd_getfd l ≠ -1 → sendlen l = 0 → 0 < k < 16 →
  send_all heap l d (STook k) answers = None.
Proof. intros. by apply (send_all_short heap). Qed.

(** A message whose last string is not padded moves the end of the data behind
    the end of what was received. *)
Definition unpadded : list byte :=
  launch_msg_header 41 ++ le_encode 8 7 ++ le_encode 8 0 ++ le_encode 8 0 ++ [x00].

Theorem launchd_msg_recv_overrun :
  launchd_msg_recv fresh (λ b, b) keep_msg demo_handle (RGot unpadded [] false) [] = Crash.
Proof. vm_compute. reflexivity. Qed.
