(* ===== verification/KModLoader.v ===== *)
(** * kmodloader (kmodloader/src/KMDaemon.m, RadeonPCIIDs.h)

    The boot-time loader of kernel modules: what pciconf, devmatch and kldstat
    print, the modules that follow from it, and the kldload runs. The commands
    it runs are a trace; what they answer is a parameter. Their output is ASCII
    text. *)

From Stdlib Require Import Strings.String.
From S2P Require Import Prelude.

Local Open Scope string_scope.
Local Open Scope list_scope.
Local Open Scope c_scope.

(** ** Text *)

(** [NSCharacterSet.whitespaceCharacterSet]: no newline. *)
Definition is_blank (a : ascii) : bool := Ascii.eqb a " " || Ascii.eqb a "009".
Definition is_newline (a : ascii) : bool := Ascii.eqb a "010".

(** [componentsSeparatedBy...]: always at least one component. *)
Fixpoint components (sep : ascii → bool) (s : string) : list string :=
  match s with
  | EmptyString => [EmptyString]
  | String a s =>
      if sep a then EmptyString :: components sep s else
      match components sep s with
      | [] => [String a EmptyString]
      | c :: cs => String a c :: cs
      end
  end.

Fixpoint trim_left (s : string) : string :=
  match s with
  | String a s' => if is_blank a then trim_left s' else s
  | EmptyString => s
  end.
Fixpoint trim_right (s : string) : string :=
  match s with
  | EmptyString => EmptyString
  | String a s =>
      match trim_right s with
      | EmptyString => if is_blank a then EmptyString else String a EmptyString
      | t => String a t
      end
  end.
Definition trim (s : string) : string := trim_right (trim_left s).

Definition hasSuffix (suf s : string) : bool :=
  let n := (String.length s - String.length suf)%nat in
  (String.length suf <=? String.length s)%nat && String.eqb (String.substring n (String.length suf) s) suf.

(** [(uint16_t)strtoul(s, NULL, 16)] of a string that begins with "0x" and is
    too short to overflow. *)
Definition device_id (s : string) : Z := (read_hex (String.substring 2 (String.length s - 2) s) 0 mod 2 ^ 16)%Z.

(** [NSMutableOrderedSet addObject:]. *)
Definition addObject (x : string) (l : list string) : list string :=
  if bool_decide (x ∈ l) then l else l ++ [x].
Definition addObjects (xs l : list string) : list string := foldl (λ l x, addObject x l) l xs.

(** ** The devices radeonkms drives *)

Definition kRadeonKMSDeviceIDs : list Z :=
  [
   0x1304; 0x1305; 0x1306; 0x1307; 0x1309; 0x130a; 0x130b; 0x130c; 0x130d; 0x130e; 0x130f; 0x1310;
   0x1311; 0x1312; 0x1313; 0x1315; 0x1316; 0x1317; 0x1318; 0x131b; 0x131c; 0x131d; 0x3150; 0x3151;
   0x3152; 0x3154; 0x3155; 0x3e50; 0x3e54; 0x4136; 0x4137; 0x4144; 0x4145; 0x4146; 0x4147; 0x4148;
   0x4149; 0x414a; 0x414b; 0x4150; 0x4151; 0x4152; 0x4153; 0x4154; 0x4155; 0x4156; 0x4237; 0x4242;
   0x4336; 0x4337; 0x4437; 0x4966; 0x4967; 0x4a48; 0x4a49; 0x4a4a; 0x4a4b; 0x4a4c; 0x4a4d; 0x4a4e;
   0x4a4f; 0x4a50; 0x4a54; 0x4b48; 0x4b49; 0x4b4a; 0x4b4b; 0x4b4c; 0x4c57; 0x4c58; 0x4c59; 0x4c5a;
   0x4c64; 0x4c66; 0x4c67; 0x4e44; 0x4e45; 0x4e46; 0x4e47; 0x4e48; 0x4e49; 0x4e4a; 0x4e4b; 0x4e50;
   0x4e51; 0x4e52; 0x4e53; 0x4e54; 0x4e56; 0x5144; 0x5145; 0x5146; 0x5147; 0x5148; 0x514c; 0x514d;
   0x5157; 0x5158; 0x5159; 0x515a; 0x515e; 0x5460; 0x5462; 0x5464; 0x5548; 0x5549; 0x554a; 0x554b;
   0x554c; 0x554d; 0x554e; 0x554f; 0x5550; 0x5551; 0x5552; 0x5554; 0x564a; 0x564b; 0x564f; 0x5652;
   0x5653; 0x5657; 0x5834; 0x5835; 0x5954; 0x5955; 0x5960; 0x5961; 0x5962; 0x5964; 0x5965; 0x5969;
   0x5974; 0x5975; 0x5a41; 0x5a42; 0x5a61; 0x5a62; 0x5b60; 0x5b62; 0x5b63; 0x5b64; 0x5b65; 0x5c61;
   0x5c63; 0x5d48; 0x5d49; 0x5d4a; 0x5d4c; 0x5d4d; 0x5d4e; 0x5d4f; 0x5d50; 0x5d52; 0x5d57; 0x5e48;
   0x5e4a; 0x5e4b; 0x5e4c; 0x5e4d; 0x5e4f; 0x6600; 0x6601; 0x6602; 0x6603; 0x6604; 0x6605; 0x6606;
   0x6607; 0x6608; 0x6610; 0x6611; 0x6613; 0x6617; 0x6620; 0x6621; 0x6623; 0x6631; 0x6640; 0x6641;
   0x6646; 0x6647; 0x6649; 0x6650; 0x6651; 0x6658; 0x665c; 0x665d; 0x665f; 0x6660; 0x6663; 0x6664;
   0x6665; 0x6667; 0x666f; 0x6700; 0x6701; 0x6702; 0x6703; 0x6704; 0x6705; 0x6706; 0x6707; 0x6708;
   0x6709; 0x6718; 0x6719; 0x671c; 0x671d; 0x671f; 0x6720; 0x6721; 0x6722; 0x6723; 0x6724; 0x6725;
   0x6726; 0x6727; 0x6728; 0x6729; 0x6738; 0x6739; 0x673e; 0x6740; 0x6741; 0x6742; 0x6743; 0x6744;
   0x6745; 0x6746; 0x6747; 0x6748; 0x6749; 0x674a; 0x6750; 0x6751; 0x6758; 0x6759; 0x675b; 0x675d;
   0x675f; 0x6760; 0x6761; 0x6762; 0x6763; 0x6764; 0x6765; 0x6766; 0x6767; 0x6768; 0x6770; 0x6771;
   0x6772; 0x6778; 0x6779; 0x677b; 0x6780; 0x6784; 0x6788; 0x678a; 0x6790; 0x6791; 0x6792; 0x6798;
   0x6799; 0x679a; 0x679b; 0x679e; 0x679f; 0x67a0; 0x67a1; 0x67a2; 0x67a8; 0x67a9; 0x67aa; 0x67b0;
   0x67b1; 0x67b8; 0x67b9; 0x67ba; 0x67be; 0x6800; 0x6801; 0x6802; 0x6806; 0x6808; 0x6809; 0x6810;
   0x6811; 0x6816; 0x6817; 0x6818; 0x6819; 0x6820; 0x6821; 0x6822; 0x6823; 0x6824; 0x6825; 0x6826;
   0x6827; 0x6828; 0x6829; 0x682a; 0x682b; 0x682c; 0x682d; 0x682f; 0x6830; 0x6831; 0x6835; 0x6837;
   0x6838; 0x6839; 0x683b; 0x683d; 0x683f; 0x6840; 0x6841; 0x6842; 0x6843; 0x6849; 0x684c; 0x6850;
   0x6858; 0x6859; 0x6880; 0x6888; 0x6889; 0x688a; 0x688c; 0x688d; 0x6898; 0x6899; 0x689b; 0x689c;
   0x689d; 0x689e; 0x68a0; 0x68a1; 0x68a8; 0x68a9; 0x68b0; 0x68b8; 0x68b9; 0x68ba; 0x68be; 0x68bf;
   0x68c0; 0x68c1; 0x68c7; 0x68c8; 0x68c9; 0x68d8; 0x68d9; 0x68da; 0x68de; 0x68e0; 0x68e1; 0x68e4;
   0x68e5; 0x68e8; 0x68e9; 0x68f1; 0x68f2; 0x68f8; 0x68f9; 0x68fa; 0x68fe; 0x7100; 0x7101; 0x7102;
   0x7103; 0x7104; 0x7105; 0x7106; 0x7108; 0x7109; 0x710a; 0x710b; 0x710c; 0x710e; 0x710f; 0x7140;
   0x7141; 0x7142; 0x7143; 0x7144; 0x7145; 0x7146; 0x7147; 0x7149; 0x714a; 0x714b; 0x714c; 0x714d;
   0x714e; 0x714f; 0x7151; 0x7152; 0x7153; 0x715e; 0x715f; 0x7180; 0x7181; 0x7183; 0x7186; 0x7187;
   0x7188; 0x718a; 0x718b; 0x718c; 0x718d; 0x718f; 0x7193; 0x7196; 0x719b; 0x719f; 0x71c0; 0x71c1;
   0x71c2; 0x71c3; 0x71c4; 0x71c5; 0x71c6; 0x71c7; 0x71cd; 0x71ce; 0x71d2; 0x71d4; 0x71d5; 0x71d6;
   0x71da; 0x71de; 0x7200; 0x7210; 0x7211; 0x7240; 0x7243; 0x7244; 0x7245; 0x7246; 0x7247; 0x7248;
   0x7249; 0x724a; 0x724b; 0x724c; 0x724d; 0x724e; 0x724f; 0x7280; 0x7281; 0x7283; 0x7284; 0x7287;
   0x7288; 0x7289; 0x728b; 0x728c; 0x7290; 0x7291; 0x7293; 0x7297; 0x7834; 0x7835; 0x791e; 0x791f;
   0x793f; 0x7941; 0x7942; 0x796c; 0x796d; 0x796e; 0x796f; 0x9400; 0x9401; 0x9402; 0x9403; 0x9405;
   0x940a; 0x940b; 0x940f; 0x9440; 0x9441; 0x9442; 0x9443; 0x9444; 0x9446; 0x944a; 0x944b; 0x944c;
   0x944e; 0x9450; 0x9452; 0x9456; 0x945a; 0x945b; 0x945e; 0x9460; 0x9462; 0x946a; 0x946b; 0x947a;
   0x947b; 0x9480; 0x9487; 0x9488; 0x9489; 0x948a; 0x948f; 0x9490; 0x9491; 0x9495; 0x9498; 0x949c;
   0x949e; 0x949f; 0x94a0; 0x94a1; 0x94a3; 0x94b1; 0x94b3; 0x94b4; 0x94b5; 0x94b9; 0x94c0; 0x94c1;
   0x94c3; 0x94c4; 0x94c5; 0x94c6; 0x94c7; 0x94c8; 0x94c9; 0x94cb; 0x94cc; 0x94cd; 0x9500; 0x9501;
   0x9504; 0x9505; 0x9506; 0x9507; 0x9508; 0x9509; 0x950f; 0x9511; 0x9515; 0x9517; 0x9519; 0x9540;
   0x9541; 0x9542; 0x954e; 0x954f; 0x9552; 0x9553; 0x9555; 0x9557; 0x955f; 0x9580; 0x9581; 0x9583;
   0x9586; 0x9587; 0x9588; 0x9589; 0x958a; 0x958b; 0x958c; 0x958d; 0x958e; 0x958f; 0x9590; 0x9591;
   0x9593; 0x9595; 0x9596; 0x9597; 0x9598; 0x9599; 0x959b; 0x95c0; 0x95c2; 0x95c4; 0x95c5; 0x95c6;
   0x95c7; 0x95c9; 0x95cc; 0x95cd; 0x95ce; 0x95cf; 0x9610; 0x9611; 0x9612; 0x9613; 0x9614; 0x9615;
   0x9616; 0x9640; 0x9641; 0x9642; 0x9643; 0x9644; 0x9645; 0x9647; 0x9648; 0x9649; 0x964a; 0x964b;
   0x964c; 0x964e; 0x964f; 0x9710; 0x9711; 0x9712; 0x9713; 0x9714; 0x9715; 0x9802; 0x9803; 0x9804;
   0x9805; 0x9806; 0x9807; 0x9808; 0x9809; 0x980a; 0x9830; 0x9831; 0x9832; 0x9833; 0x9834; 0x9835;
   0x9836; 0x9837; 0x9838; 0x9839; 0x983a; 0x983b; 0x983c; 0x983d; 0x983e; 0x983f; 0x9850; 0x9851;
   0x9852; 0x9853; 0x9854; 0x9855; 0x9856; 0x9857; 0x9858; 0x9859; 0x985a; 0x985b; 0x985c; 0x985d;
   0x985e; 0x985f; 0x9900; 0x9901; 0x9903; 0x9904; 0x9905; 0x9906; 0x9907; 0x9908; 0x9909; 0x990a;
   0x990b; 0x990c; 0x990d; 0x990e; 0x990f; 0x9910; 0x9913; 0x9917; 0x9918; 0x9919; 0x9990; 0x9991;
   0x9992; 0x9993; 0x9994; 0x9995; 0x9996; 0x9997; 0x9998; 0x9999; 0x999a; 0x999b; 0x999c; 0x999d;
   0x99a0; 0x99a2; 0x99a4
  ]%Z.

Record device := Device { vendor : string; device_ : string }.

(** ** Running commands *)

Inductive command := pciconf | devmatch | kldstat | kldload_n (kld : string).

(** An exception from [launch], or the exit status and the output ([nil] when
    it is not text). *)
Inductive task_outcome := NotLaunched | Exited (status : Z) (output : option string).

Section KMDaemon.
(** What a command answers may depend on everything run before. *)
Variable answers : list command → command → task_outcome.
(** Foundation's [stringByDeletingPathExtension]. *)
Variable stringByDeletingPathExtension : string → string.

Definition kmod (A : Type) : Type := C (list command) A.

Definition run_task (c : command) : kmod task_outcome := λ tr, Some (answers tr c, tr ++ [c]).

(** [[output componentsSeparatedByString:]], empty when [output] is nil. *)
Definition lines (output : option string) : list string :=
  match output with Some s => components is_newline s | None => [] end.

(** *** gpuDevices *)

Definition field (name line : string) : option string :=
  match String.index 0 name line with
  | None => None
  | Some i =>
      let i := (i + String.length name)%nat in
      if (i + 4 <=? String.length line)%nat
      then Some (lowercaseString (String.substring i 4 line)) else None
  end.

Definition gpu_of_line (line : string) : list device :=
  match String.index 0 "class=0x0300" line with
  | None => []
  | Some _ =>
      match field "vendor=0x" line, field "device=0x" line with
      | Some v, Some d => [Device (String.append "0x" v) (String.append "0x" d)]
      | _, _ => []
      end
  end.

Definition devices_of (r : task_outcome) : list device :=
  match r with
  | NotLaunched => []
  | Exited status output => if (status =? 0)%Z then lines output ≫= gpu_of_line else []
  end.

Definition gpuDevices : kmod (list device) := let* r := run_task pciconf in ret (devices_of r).

(** *** gpuKldsForDevices: *)

Definition isRadeon (devID : Z) : bool := existsb (Z.eqb devID) kRadeonKMSDeviceIDs.

Definition add_kld (r : list string) (dev : device) : list string :=
  if String.eqb (vendor dev) "0x8086" then addObject "i915kms" r
  else if String.eqb (vendor dev) "0x1002" then
    addObject (if isRadeon (device_id (device_ dev)) then "radeonkms" else "amdgpu") r
  else if String.eqb (vendor dev) "0x10de" then addObject "nvidia-drm" r
  else r.

Definition gpuKldsForDevices (devices : list device) : list string := foldl add_kld [] devices.

(** *** kldsFromDevmatch *)

Definition add_line (result : list string) (raw : string) : list string :=
  let line := trim raw in
  if (String.length line =? 0)%nat then result else
  addObject (if hasSuffix ".ko" line then stringByDeletingPathExtension line else line) result.

Definition suggested (r : task_outcome) : list string :=
  match r with
  | NotLaunched => []
  | Exited status output => if (status =? 0)%Z then foldl add_line [] (lines output) else []
  end.

Definition kldsFromDevmatch : kmod (list string) := let* r := run_task devmatch in ret (suggested r).

(** *** loadedKlds *)

Definition names_of (r : task_outcome) : list string :=
  match r with
  | NotLaunched => []
  | Exited _ output =>
      stringByDeletingPathExtension <$>
        filter (λ field, hasSuffix ".ko" field) (lines output ≫= components is_blank)
  end.

Definition loadedKlds : kmod (list string) := let* r := run_task kldstat in ret (names_of r).

(** *** kldload: *)

Definition kldload (kld : string) : kmod bool :=
  let* r := run_task (kldload_n kld) in
  ret (match r with NotLaunched => false | Exited status _ => (status =? 0)%Z end).

(** *** runOneShot *)

Fixpoint load_each (plan loaded : list string) (loadedNow : Z) : kmod Z :=
  match plan with
  | [] => ret loadedNow
  | kld :: plan =>
      if bool_decide (kld ∈ loaded) then load_each plan loaded loadedNow else
      let* ok := kldload kld in
      load_each plan loaded (if ok then loadedNow + 1 else loadedNow)%Z
  end.

Definition runOneShot : kmod Z :=
  let* devices := gpuDevices in
  let gpuKlds := gpuKldsForDevices devices in
  let* devmatchKlds := kldsFromDevmatch in
  let plan := addObjects devmatchKlds (addObjects gpuKlds []) in
  let* loaded := loadedKlds in
  load_each plan loaded 0.
End KMDaemon.

(** ** What kmodloader loads

    The modules a boot loads, against the table of drivers and what devmatch
    suggests. *)

(** ** Ordered sets *)

Lemma NoDup_addObject x l : NoDup l → NoDup (addObject x l).
Proof.
  unfold addObject. case_bool_decide; [done|]. intros Hl. apply NoDup_app.
  split_and!; [done| |apply NoDup_singleton]. set_solver.
Qed.

Lemma elem_of_addObject y x l : y ∈ addObject x l ↔ y = x ∨ y ∈ l.
Proof. unfold addObject. case_bool_decide; set_solver. Qed.

Lemma filter_ext_in {A} (P1 P2 : A → Prop) `{!∀ x, Decision (P1 x), !∀ x, Decision (P2 x)}
    (l : list A) :
  (∀ x, x ∈ l → P1 x ↔ P2 x) → filter P1 l = filter P2 l.
Proof.
  induction l as [|x l IH]; intros Hl; [done|].
  pose proof (Hl x ltac:(left)) as Hx. specialize (IH ltac:(intros; apply Hl; by right)).
  destruct (decide (P1 x)).
  - by rewrite !filter_cons_True, IH by tauto.
  - by rewrite !filter_cons_False, IH by tauto.
Qed.

Lemma filter_all {A} (P : A → Prop) `{!∀ x, Decision (P x)} (l : list A) :
  (∀ x, x ∈ l → P x) → filter P l = l.
Proof.
  induction l as [|x l IH]; intros Hl; [done|].
  rewrite filter_cons_True by (apply Hl; left). f_equal. apply IH. intros y Hy. apply Hl. by right.
Qed.

(** Adding a list without duplicates appends what is new. *)
Lemma addObjects_filter xs l :
  NoDup xs → addObjects xs l = l ++ filter (λ x, x ∉ l) xs.
Proof.
  unfold addObjects. intros Hxs. revert l. induction Hxs as [|x xs Hx _ IH]; intros l; cbn [foldl].
  { by rewrite app_nil_r. }
  rewrite IH. unfold addObject. case_bool_decide as Hl.
  - rewrite filter_cons_False by (by intros ?). done.
  - rewrite filter_cons_True by done. rewrite <-app_assoc. f_equal. cbn. f_equal.
    apply filter_ext_in. intros y Hy. rewrite not_elem_of_app. set_solver.
Qed.

(** ** The drivers *)

(** The module that drives a display controller. *)
Definition driver_for (dev : device) : option string :=
  if decide (vendor dev = "0x8086"%string) then Some "i915kms"%string
  else if decide (vendor dev = "0x1002"%string) then
    Some (if decide (device_id (device_ dev) ∈ kRadeonKMSDeviceIDs) then "radeonkms" else "amdgpu")%string
  else if decide (vendor dev = "0x10de"%string) then Some "nvidia-drm"%string
  else None.

Lemma isRadeon_spec id : isRadeon id = bool_decide (id ∈ kRadeonKMSDeviceIDs).
Proof.
  unfold isRadeon. apply eq_bool_prop_intro. rewrite bool_decide_spec.
  rewrite Is_true_true, existsb_exists, list_elem_of_In. split.
  - intros (x & Hx & ->%Z.eqb_eq). done.
  - intros H. exists id. by rewrite Z.eqb_refl.
Qed.

Lemma add_kld_driver r dev :
  add_kld r dev = match driver_for dev with Some k => addObject k r | None => r end.
Proof.
  unfold add_kld, driver_for. rewrite isRadeon_spec.
  repeat case_decide; repeat case_bool_decide;
    repeat match goal with
    | H : vendor dev = _ |- _ => rewrite H
    | H : vendor dev ≠ _ |- _ => apply String.eqb_neq in H; rewrite H
    end; done.
Qed.

Lemma gpuKlds_spec devices :
  NoDup (gpuKldsForDevices devices) ∧
  ∀ k, k ∈ gpuKldsForDevices devices ↔ ∃ dev, dev ∈ devices ∧ driver_for dev = Some k.
Proof.
  unfold gpuKldsForDevices.
  assert (∀ r, NoDup r → NoDup (foldl add_kld r devices) ∧ ∀ k, k ∈ foldl add_kld r devices ↔
    k ∈ r ∨ ∃ dev, dev ∈ devices ∧ driver_for dev = Some k) as H.
  { induction devices as [|dev devices IH]; intros r Hr; cbn [foldl]; [set_solver|].
    rewrite add_kld_driver. destruct (driver_for dev) as [k'|] eqn:E.
    - destruct (IH _ (NoDup_addObject k' r Hr)) as [Hnd Hin]. split; [done|]. intros k.
      rewrite Hin, elem_of_addObject. set_solver.
    - destruct (IH r Hr) as [Hnd Hin]. split; [done|]. intros k. rewrite Hin. set_solver. }
  destruct (H [] (NoDup_nil_2)) as [Hnd Hin]. split; [done|]. intros k. rewrite Hin. set_solver.
Qed.

Section modules.
Variable answers : list command → command → task_outcome.
Variable delExt : string → string.

(** The module a line of devmatch names. *)
Definition kld_of_line (raw : string) : option string :=
  let line := trim raw in
  if decide (line = EmptyString) then None
  else Some (if hasSuffix ".ko" line then delExt line else line).

Lemma add_line_kld r raw :
  add_line delExt r raw = match kld_of_line raw with Some k => addObject k r | None => r end.
Proof. unfold add_line, kld_of_line. by destruct (trim raw). Qed.

Lemma suggested_spec r :
  NoDup (suggested delExt r) ∧
  ∀ k, k ∈ suggested delExt r ↔
    ∃ output raw, r = Exited 0 output ∧ raw ∈ lines output ∧ kld_of_line raw = Some k.
Proof.
  destruct r as [|status output]; cbn [suggested].
  { split; [apply NoDup_nil_2|]. intros k. split; [set_solver|]. by intros (? & ? & ? & _). }
  destruct (Z.eqb_spec status 0) as [->|Hne].
  2: { split; [apply NoDup_nil_2|]. intros k. split; [set_solver|]. intros (? & ? & [= ? ?] & _). done. }
  assert (∀ ls l, NoDup l → NoDup (foldl (add_line delExt) l ls) ∧
    ∀ k, k ∈ foldl (add_line delExt) l ls ↔ k ∈ l ∨ ∃ raw, raw ∈ ls ∧ kld_of_line raw = Some k) as H.
  { induction ls as [|raw ls IH]; intros l Hl; cbn [foldl]; [set_solver|].
    rewrite add_line_kld. destruct (kld_of_line raw) as [k'|] eqn:E.
    - destruct (IH _ (NoDup_addObject k' l Hl)) as [Hnd Hin]. split; [done|]. intros k.
      rewrite Hin, elem_of_addObject. set_solver.
    - destruct (IH l Hl) as [Hnd Hin]. split; [done|]. intros k. rewrite Hin. set_solver. }
  destruct (H (lines output) [] (NoDup_nil_2)) as [Hnd Hin]. split; [done|].
  intros k. rewrite Hin. split.
  - intros [?|(raw & Hraw & E)]; [set_solver|]. by exists output, raw.
  - intros (o & raw & [= ->] & Hraw & E). right. by exists raw.
Qed.

(** ** The loads *)

(** How many of [ks], loaded one after the other after [tr], succeed. *)
Fixpoint successes (tr : list command) (ks : list string) : Z :=
  match ks with
  | [] => 0
  | k :: ks =>
      (if match answers tr (kldload_n k) with Exited 0 _ => true | _ => false end then 1 else 0) +
      successes (tr ++ [kldload_n k]) ks
  end%Z.

Lemma load_each_spec plan loaded n tr :
  load_each answers plan loaded n tr =
  let todo := filter (λ k, k ∉ loaded) plan in
  Some ((n + successes tr todo)%Z, tr ++ (kldload_n <$> todo)).
Proof.
  revert n tr. induction plan as [|k plan IH]; intros n tr; cbn [load_each].
  { cbn. by rewrite Z.add_0_r, app_nil_r. }
  case_bool_decide as Hk.
  { rewrite filter_cons_False by (by intros ?). apply IH. }
  rewrite filter_cons_True by done. cbn [fmap list_fmap successes].
  unfold kldload, run_task, bind, ret. rewrite IH. cbn zeta. rewrite <-app_assoc.
  destruct (answers tr (kldload_n k)) as [|[|p|p] o]; cbn [Z.eqb]; by rewrite ?Z.add_0_l, ?Z.add_assoc.
Qed.
End modules.

(** ** A boot *)

(** C40: a boot runs pciconf, devmatch and kldstat, each once, and then kldload
    exactly once for every module that is wanted and not yet loaded, the
    modules for the display controllers first; the modules for display
    controllers are those of the table of drivers, the others those devmatch
    names. A command that fails counts as one that prints nothing, and the
    count returned is that of the loads that succeeded. *)
Theorem runOneShot_loads (answers : list command → command → task_outcome) (delExt : string → string)
    (tr : list command) :
  let tr3 := tr ++ [pciconf; devmatch; kldstat] in
  let devices := devices_of (answers tr pciconf) in
  let matched := answers (tr ++ [pciconf]) devmatch in
  let loaded := names_of delExt (answers (tr ++ [pciconf; devmatch]) kldstat) in
  ∃ gpu others,
    runOneShot answers delExt tr =
      Some (successes answers tr3 (gpu ++ others), tr3 ++ (kldload_n <$> gpu ++ others)) ∧
    NoDup (gpu ++ others) ∧
    (∀ k, k ∈ gpu ↔ (∃ dev, dev ∈ devices ∧ driver_for dev = Some k) ∧ k ∉ loaded) ∧
    (∀ k, k ∈ others ↔
       (∃ output raw, matched = Exited 0 output ∧ raw ∈ lines output ∧
          kld_of_line delExt raw = Some k) ∧
       ¬ (∃ dev, dev ∈ devices ∧ driver_for dev = Some k) ∧ k ∉ loaded).
Proof.
  intros tr3 devices matched loaded.
  destruct (gpuKlds_spec devices) as [Hgnd Hgpu]. destruct (suggested_spec delExt matched) as [Hmnd Hm].
  set (gpu := gpuKldsForDevices devices) in *. set (dm := suggested delExt matched) in *.
  exists (filter (λ k, k ∉ loaded) gpu), (filter (λ k, k ∉ loaded) (filter (λ k, k ∉ gpu) dm)).
  split_and!.
  - unfold runOneShot, gpuDevices, kldsFromDevmatch, loadedKlds, run_task, bind, ret.
    fold devices. rewrite <-!app_assoc. cbn [app]. fold matched loaded gpu dm.
    rewrite load_each_spec. cbn zeta. rewrite Z.add_0_l.
    rewrite (addObjects_filter gpu []), (addObjects_filter dm) by done. cbn [app].
    by rewrite (filter_all (λ x, x ∉ []) gpu), filter_app by set_solver.
  - rewrite <-filter_app. apply NoDup_filter, NoDup_app. split_and!; [done| |by apply NoDup_filter].
    intros k Hk [Hn _]%list_elem_of_filter. done.
  - intros k. rewrite list_elem_of_filter, Hgpu. tauto.
  - intros k. rewrite !list_elem_of_filter, Hm, Hgpu. tauto.
Qed.

(** The comment over the scan counts 3D controllers (class 0x030200) among those
    it finds; it does not find them. *)
Theorem gpuDevices_3d_controller :
  gpu_of_line "vgapci0@pci0:1:0:0: class=0x030200 rev=0xa1 hdr=0x00 vendor=0x10de device=0x1c8c" = [] ∧
  gpu_of_line "vgapci0@pci0:1:0:0: class=0x030000 rev=0xa1 hdr=0x00 vendor=0x10de device=0x1c8c" =
    [Device "0x10de" "0x1c8c"].
Proof. split; vm_compute; reflexivity. Qed.
