(* ===== verification/RouteTypes.v ===== *)
(** * IPMonitor: ranks and routes (configd/src/Plugins/IPMonitor/ip_plugin.c)

    The service rank of nwi/network_state_information_priv.h, and the [Route]
    structures. [IPv4Route] and [IPv6Route] share their first fields
    ([ROUTE_COMMON]) and are handled through the table of functions
    [RouteListInfo]: one record with a type parameter for the addresses, and a
    class with its two instances. Addresses are the bytes in memory, in network
    order. *)

From S2P Require Import Prelude.

Local Open Scope Z_scope.

(** ** Ranks *)

(** The top 8 bits hold the assertion, the others the index of the service. *)
Definition RANK_ASSERTION_MAKE (r : Z) : Z := u32 (Z.shiftl r 24).
Definition kRankAssertionFirst : Z := RANK_ASSERTION_MAKE 0.
Definition kRankAssertionDefault : Z := RANK_ASSERTION_MAKE 1.
Definition kRankAssertionLast : Z := RANK_ASSERTION_MAKE 2.
Definition kRankAssertionNever : Z := RANK_ASSERTION_MAKE 3.
Definition kRankAssertionScoped : Z := RANK_ASSERTION_MAKE 4.
Definition RANK_ASSERTION_MASK (r : Z) : Z := Z.land r (RANK_ASSERTION_MAKE 0xff).
Definition RANK_INDEX_MASK (r : Z) : Z := Z.land r 0xffffff.
Definition RankMake (service_index primary_rank : Z) : Z :=
  Z.lor (RANK_INDEX_MASK service_index) (RANK_ASSERTION_MASK primary_rank).

Definition uint32_cmp (a b : Z) : Z := if a =? b then 0 else if a <? b then -1 else 1.
Definition RankCompare (a b : Z) : Z := uint32_cmp a b.

(** ** Flags *)

Definition kRouteFlagsIsScoped : Z := 0x0001.
Definition kRouteFlagsHasGateway : Z := 0x0002.
Definition kRouteFlagsIsHost : Z := 0x0004.
Definition kRouteFlagsIsNULL : Z := 0x0008.
Definition kRouteFlagsKernelManaged : Z := 0x0010.
Definition kControlFlagsProcessed : Z := 0x0001.
Definition kControlFlagsAdded : Z := 0x0002.
Definition kRouteListFlagsExcludeNWI : Z := 0x0001.
Definition kRouteListFlagsHasDefault : Z := 0x0002.
Definition kRouteListFlagsScopedOnly : Z := 0x0004.

(** [(fl & f) != 0] *)
Definition has (fl f : Z) : bool := negb (Z.land fl f =? 0).

(** ** Routes *)

Record Route {A : Type} := MkRoute {
  r_prefix_length : Z;
  r_ifindex : Z;
  r_exclude_ifindex : Z;
  r_rank : Z;
  r_flags : Z;
  r_control_flags : Z;
  r_addrs : A;
}.
Arguments Route A : clear implicits.

Section fields.
Context {A : Type}.
Implicit Types r : Route A.

Definition with_rank (z : Z) r : Route A :=
  MkRoute A (r_prefix_length r) (r_ifindex r) (r_exclude_ifindex r) z (r_flags r)
    (r_control_flags r) (r_addrs r).
Definition with_flags (fl : Z) r : Route A :=
  MkRoute A (r_prefix_length r) (r_ifindex r) (r_exclude_ifindex r) (r_rank r) fl
    (r_control_flags r) (r_addrs r).
Definition with_control (fl : Z) r : Route A :=
  MkRoute A (r_prefix_length r) (r_ifindex r) (r_exclude_ifindex r) (r_rank r) (r_flags r) fl
    (r_addrs r).
Definition with_if (ifx excl : Z) r : Route A :=
  MkRoute A (r_prefix_length r) ifx excl (r_rank r) (r_flags r) (r_control_flags r) (r_addrs r).
Definition with_addrs (a : A) r : Route A :=
  MkRoute A (r_prefix_length r) (r_ifindex r) (r_exclude_ifindex r) (r_rank r) (r_flags r)
    (r_control_flags r) a.
Definition is_scoped r : bool := has (r_flags r) kRouteFlagsIsScoped.
End fields.

(** ** Addresses *)

Definition address := list byte.

(** The sign of [memcmp(a, b, n)]. An object with fewer than [n] bytes does not
    occur. *)
Fixpoint memcmp (a b : address) (n : nat) : Z :=
  match n, a, b with
  | S n, x :: a, y :: b => if Z_of_byte x =? Z_of_byte y then memcmp a b n
                           else if Z_of_byte x <? Z_of_byte y then -1 else 1
  | _, _, _ => 0
  end.

(** ** Messages to the kernel

    A message on the routing socket: the fields of [rt_msghdr] that depend on the
    route, its flags beside [RTF_UP | RTF_STATIC] one by one, and the socket
    addresses behind it in the order of the bits of [rtm_addrs]. The sequence
    number is left out. *)

Definition RTM_ADD : Z := 1.
Definition RTM_DELETE : Z := 2.
Definition ESRCH : Z := 3.
Definition ENXIO : Z := 6.
Definition EBADF : Z := 9.
Definition EEXIST : Z := 17.
Definition EROUTENOTAPPLIED : Z := 1001.

Inductive sockaddr :=
| SockIn (a : address)
| SockLink (ifindex : Z).
Inductive RTA := RTA_DST | RTA_GATEWAY | RTA_NETMASK | RTA_IFP | RTA_IFA.

Record rt_msg := MkRtMsg {
  rtm_type : Z;
  rtf_host : bool;
  rtf_cloning : bool;
  rtf_gateway : bool;
  rtf_ifscope : bool;
  rtm_index : Z;
  rt_addrs : list (RTA * sockaddr);
}.

(** The part [IPv4RouteApply] and [IPv6RouteApply] share: [in_addr a] is the
    address as it is put in a message, [ifa] is [None] for the unspecified
    address. *)
Definition route_message {A} (route : Route A) (cmd : Z) (in_addr : address → address)
    (dest gateway mask : address) (ifa : option address) : rt_msg :=
  let host := has (r_flags route) kRouteFlagsIsHost in
  let gate := has (r_flags route) kRouteFlagsHasGateway in
  let link := SockLink (r_ifindex route) in
  MkRtMsg cmd host (negb host && negb gate) gate (is_scoped route)
    (if is_scoped route then r_ifindex route else 0)
    ([(RTA_DST, SockIn (in_addr dest));
      (RTA_GATEWAY, if gate then SockIn (in_addr gateway) else link)] ++
     (if host then [] else [(RTA_NETMASK, SockIn mask)]) ++
     [(RTA_IFP, link)] ++
     match ifa with Some a => [(RTA_IFA, SockIn a)] | None => [] end).

(** [RouteListInfo]: what the list algorithms need of a protocol. [route_apply_msg]
    is what [route_apply] returns without writing to the socket, or what it writes. *)
Class RouteListInfo (A : Type) := {
  route_destination : A → address;
  route_gateway : A → address;
  route_set_gateway : address → A → A;
  route_equal : Route A → Route A → bool;
  route_same_subnet : Route A → address → bool;
  route_apply_msg : bool → Z → Route A → Z → Z + rt_msg;
  all_bits_set : Z;
  address_size : nat;
}.

(** *** IPv4 *)

Record IPv4Addrs := IPv4 { v4_dest : address; v4_mask : address; v4_gateway : address; v4_ifa : address }.
Definition IPv4Route := Route IPv4Addrs.

Definition IPV4_ROUTE_ALL_BITS_SET : Z := 32.

Definition byte_and (x y : byte) : byte := byte_of_Z (Z.land (Z_of_byte x) (Z_of_byte y)).
(** [addr.s_addr & mask.s_addr] *)
Definition subnet_addr (addr mask : address) : address := zip_with byte_and addr mask.

Definition IPv4RouteIsEqual (scan route : IPv4Route) : bool :=
  bool_decide (v4_dest (r_addrs scan) = v4_dest (r_addrs route)) &&
  bool_decide (v4_mask (r_addrs scan) = v4_mask (r_addrs route)) &&
  (r_ifindex scan =? r_ifindex route) &&
  bool_decide (v4_ifa (r_addrs scan) = v4_ifa (r_addrs route)) &&
  bool_decide (v4_gateway (r_addrs scan) = v4_gateway (r_addrs route)) &&
  (r_flags scan =? r_flags route).

Definition IPv4RouteSetGateway (a : address) (r : IPv4Addrs) : IPv4Addrs :=
  IPv4 (v4_dest r) (v4_mask r) a (v4_ifa r).

Definition IPv4RouteSameSubnet (r : IPv4Route) (a : address) : bool :=
  bool_decide (subnet_addr a (v4_mask (r_addrs r)) = v4_dest (r_addrs r)).

Definition IPv4RouteApply (S_netboot : bool) (sockfd : Z) (route : IPv4Route) (cmd : Z) : Z + rt_msg :=
  let a := r_addrs route in
  if S_netboot && bool_decide (v4_dest a = replicate 4 x00) then inl EROUTENOTAPPLIED
  else if has (r_flags route) kRouteFlagsIsNULL then inl EROUTENOTAPPLIED
  else if r_ifindex route =? 0 then inl ENXIO
  else if sockfd =? -1 then inl EBADF
  else inr (route_message route cmd id (v4_dest a) (v4_gateway a) (v4_mask a)
              (if bool_decide (v4_ifa a = replicate 4 x00) then None else Some (v4_ifa a))).

#[export] Instance IPv4RouteListInfo : RouteListInfo IPv4Addrs := {
  route_destination := v4_dest;
  route_gateway := v4_gateway;
  route_set_gateway := IPv4RouteSetGateway;
  route_equal := IPv4RouteIsEqual;
  route_same_subnet := IPv4RouteSameSubnet;
  route_apply_msg := IPv4RouteApply;
  all_bits_set := IPV4_ROUTE_ALL_BITS_SET;
  address_size := 4;
}.

(** *** IPv6 *)

Record IPv6Addrs := IPv6 { v6_dest : address; v6_gateway : address; v6_ifa : address }.
Definition IPv6Route := Route IPv6Addrs.

Definition IPV6_ROUTE_ALL_BITS_SET : Z := 128.

(** [mask->s6_addr[i]] after [in6_len2mask(mask, len)]. *)
Definition in6_len2mask (len : Z) : address :=
  (λ i : nat, if Z.of_nat i <? len / 8 then xff
              else if (Z.of_nat i =? len / 8) && negb (len mod 8 =? 0)
              then byte_of_Z (Z.land (Z.shiftr 0xff00 (len mod 8)) 0xff) else x00) <$> seq 0 16.
Definition in6_maskaddr (addr mask : address) : address := zip_with byte_and addr mask.
Definition in6_netaddr (addr : address) (len : Z) : address := in6_maskaddr addr (in6_len2mask len).

Definition IPv6RouteIsEqual (route1 route2 : IPv6Route) : bool :=
  (r_prefix_length route1 =? r_prefix_length route2) &&
  (r_ifindex route1 =? r_ifindex route2) &&
  (r_flags route1 =? r_flags route2) &&
  (memcmp (v6_dest (r_addrs route1)) (v6_dest (r_addrs route2)) 16 =? 0) &&
  (memcmp (v6_ifa (r_addrs route1)) (v6_ifa (r_addrs route2)) 16 =? 0) &&
  (memcmp (v6_gateway (r_addrs route1)) (v6_gateway (r_addrs route2)) 16 =? 0).

Definition IPv6RouteSetGateway (a : address) (r : IPv6Addrs) : IPv6Addrs :=
  IPv6 (v6_dest r) a (v6_ifa r).

Definition IPv6RouteSameSubnet (r : IPv6Route) (a : address) : bool :=
  (memcmp (in6_netaddr a (r_prefix_length r)) (v6_dest (r_addrs r)) 16 =? 0).

(** A link-local address fe80::/10 carries the interface in its second word. *)
Definition IN6_IS_ADDR_LINKLOCAL (a : address) : bool :=
  match a with
  | b0 :: b1 :: _ => bool_decide (b0 = xfe) && (Z.land (Z_of_byte b1) 0xc0 =? 0x80)
  | _ => false
  end.
Definition in6_addr_scope_linklocal (ifindex : Z) (a : address) : address :=
  if IN6_IS_ADDR_LINKLOCAL a
  then <[2%nat := byte_of_Z (Z.shiftr ifindex 8)]> (<[3%nat := byte_of_Z ifindex]> a) else a.

Definition IPv6RouteApply (sockfd : Z) (route : IPv6Route) (cmd : Z) : Z + rt_msg :=
  let a := r_addrs route in
  if has (r_flags route) kRouteFlagsKernelManaged then inl EROUTENOTAPPLIED
  else if has (r_flags route) kRouteFlagsIsNULL then inl EROUTENOTAPPLIED
  else if r_ifindex route =? 0 then inl ENXIO
  else if sockfd =? -1 then inl EBADF
  else inr (route_message route cmd (in6_addr_scope_linklocal (r_ifindex route))
              (v6_dest a) (v6_gateway a) (in6_len2mask (r_prefix_length route))
              (if bool_decide (v6_ifa a = replicate 16 x00) then None else Some (v6_ifa a))).

#[export] Instance IPv6RouteListInfo : RouteListInfo IPv6Addrs := {
  route_destination := v6_dest;
  route_gateway := v6_gateway;
  route_set_gateway := IPv6RouteSetGateway;
  route_equal := IPv6RouteIsEqual;
  route_same_subnet := IPv6RouteSameSubnet;
  route_apply_msg := λ _, IPv6RouteApply;
  all_bits_set := IPV6_ROUTE_ALL_BITS_SET;
  address_size := 16;
}.
