(* ===== verification/RouteList.v ===== *)
(** * IPMonitor: the route lists (configd/src/Plugins/IPMonitor/ip_plugin.c)

    The sorted table of routes that IPMonitor builds from the routes of all
    services ([RouteListAddRoute]), the lookup of a route in it
    ([RouteListLookup]), the resolution of excluded routes
    ([RouteListFinalize]), and how a new table replaces the old one in the
    kernel ([RouteListApply]).

    A route list is a block with room for [size] routes whose first [count] are
    the list: it is the list of these and its size, and storing past the size is
    a crash ([None]). Whether an allocation for so many routes succeeds is the
    class [Heap], what a routing socket answers is an argument. Logging is left
    out. *)

From S2P Require Import Prelude RouteTypes.

Local Open Scope Z_scope.

(** [malloc] and [reallocf] of a list of [n] routes succeed. *)
Class Heap := can_alloc : Z → bool.

Record RouteList {A : Type} := MkRouteList {
  rl_size : Z;
  rl_flags : Z;
  rl_list : list (Route A);
}.
Arguments RouteList A : clear implicits.

Section list.
Context {A : Type} `{!RouteListInfo A}.
Implicit Types (routes : RouteList A) (route scan this_route : Route A).

Definition rl_count routes : Z := Z.of_nat (length (rl_list routes)).
Definition with_list (l : list (Route A)) routes : RouteList A :=
  MkRouteList A (rl_size routes) (rl_flags routes) l.

Definition RouteAddressCompare (addr1 addr2 : address) : Z := memcmp addr1 addr2 address_size.

(** The result and [*same_dest]. *)
Definition RouteCompare (a : Route A) (a_rank : Z) (b : Route A) (b_rank : Z) : Z * bool :=
  let cmp := RouteAddressCompare (route_destination (r_addrs a)) (route_destination (r_addrs b)) in
  if negb (cmp =? 0) then (cmp, false) else
  let cmp := i32 (r_prefix_length a - r_prefix_length b) in
  if negb (cmp =? 0) then (cmp, false) else
  let index_cmp := i32 (r_ifindex a - r_ifindex b) in
  if index_cmp =? 0 then (0, false)
  else if ((r_ifindex a =? 0) || (r_ifindex b =? 0)) && negb (is_scoped a) && negb (is_scoped b)
  then (0, false)
  else
    let cmp := RankCompare a_rank b_rank in
    (if cmp =? 0 then index_cmp else cmp, true).

Definition RouteListGetRouteAtIndex routes (where_ : nat) : option (Route A) :=
  rl_list routes !! where_.

(** [where_ = None] is [kCFNotFound]. *)
Definition RouteListAddRouteAtIndex routes this_route (where_ : option nat)
    : option (RouteList A * nat) :=
  let i := match where_ with Some w => w | None => length (rl_list routes) end in
  if rl_count routes <? rl_size routes
  then Some (with_list (take i (rl_list routes) ++ this_route :: drop i (rl_list routes)) routes, i)
  else None.

Definition RouteListRemoveRouteAtIndex (l : list (Route A)) (where_ : nat) : list (Route A) :=
  delete where_ l.

Inductive Scope := kScopeNone | kScopeThis | kScopeNext.

(** How the loop of [RouteListAddRoute] ends: [goto done], or at the insertion. *)
Inductive scan_end :=
| GotoDone (l : list (Route A))
| AddAt (l : list (Route A)) (where_ : option nat) (scope_which : Scope).

(** [scan] after an exact match with a better [this_route]. *)
Definition replaced_route this_route (this_rank : Z) scan : Route A :=
  let ifindex := if negb (r_ifindex scan =? 0) then r_ifindex scan
                 else if negb (r_ifindex this_route =? 0) then r_ifindex this_route else 0 in
  let r := with_if ifindex 0 (with_rank this_rank this_route) in
  if is_scoped scan then with_flags (Z.lor (r_flags r) kRouteFlagsIsScoped) r else r.

Fixpoint add_scan (l : list (Route A)) this_route (this_rank : Z)
    (i : nat) (rest : list (Route A))
    (first_scan : option (Route A)) (where_ : option nat) (scope_which : Scope) : scan_end :=
  match rest with
  | [] => AddAt l where_ scope_which
  | scan :: rest =>
      let '(cmp, same_dest) := RouteCompare this_route this_rank scan (r_rank scan) in
      let first_scan := match first_scan with
                        | Some f => Some f
                        | None => if same_dest then Some scan else None
                        end in
      if cmp <? 0 then
        match where_ with
        | Some _ => add_scan l this_route this_rank (S i) rest first_scan where_ scope_which
        | None =>
            let scope_which :=
              if same_dest && match first_scan with Some f => negb (is_scoped f) | None => false end
              then if is_scoped scan then kScopeThis else kScopeNext
              else scope_which in
            add_scan l this_route this_rank (S i) rest first_scan (Some i) scope_which
        end
      else if cmp =? 0 then
        if match where_ with Some _ => true | None => false end
           && (r_ifindex scan =? r_ifindex this_route)
           && (r_exclude_ifindex scan =? 0) && (r_exclude_ifindex this_route =? 0)
        then AddAt (RouteListRemoveRouteAtIndex l i) where_ scope_which
        else if (r_exclude_ifindex this_route =? 0)
                && (negb (r_exclude_ifindex scan =? 0) || (this_rank <? r_rank scan))
        then GotoDone (<[i := replaced_route this_route this_rank scan]> l)
        else GotoDone l
      else
        let scope_which :=
          if same_dest then match scope_which with kScopeNone => kScopeThis | s => s end
          else scope_which in
        add_scan l this_route this_rank (S i) rest first_scan where_ scope_which
  end.

Definition or_flags (i : nat) (flags : Z) routes : RouteList A :=
  match RouteListGetRouteAtIndex routes i with
  | Some r => if flags =? 0 then routes
              else with_list (<[i := with_flags (Z.lor (r_flags r) flags) r]> (rl_list routes)) routes
  | None => routes
  end.

Context `{Hheap : !Heap}.

(** [Some None] is the return value NULL. *)
Definition RouteListAddRoute (routes : option (RouteList A)) (init_size : Z)
    this_route (this_rank : Z) : option (option (RouteList A)) :=
  (* malloc and bzero *)
  match match routes with
        | Some routes => Some routes
        | None => if can_alloc init_size then Some (MkRouteList A init_size 0 []) else None
        end with
  | None => None
  | Some routes =>
      match add_scan (rl_list routes) this_route this_rank 0 (rl_list routes) None None kScopeNone with
      | GotoDone l => Some (Some (with_list l routes))
      | AddAt l where_ scope_which =>
          let routes := with_list l routes in
          match (if rl_size routes =? rl_count routes then
                   (* double the size *)
                   let how_many := i32 (rl_size routes * 2) in
                   if can_alloc how_many
                   then Some (MkRouteList A how_many (rl_flags routes) (rl_list routes)) else None
                 else Some routes) with
          | None => Some None
          | Some routes =>
              match RouteListAddRouteAtIndex routes (with_rank this_rank this_route) where_ with
              | None => None
              | Some (routes, at_) =>
                  let flags := if RANK_ASSERTION_MASK this_rank =? kRankAssertionNever
                               then kRouteFlagsIsScoped else 0 in
                  Some (Some
                    match scope_which with
                    | kScopeThis => or_flags at_ (Z.lor flags kRouteFlagsIsScoped) routes
                    | kScopeNext => or_flags (S at_) (Z.lor flags kRouteFlagsIsScoped) routes
                    | kScopeNone => or_flags at_ flags routes
                    end)
              end
          end
      end
  end.

(** The rank of the [i]-th route of a service with [rank]. *)
Definition service_route_rank (service_routes : RouteList A) (rank : Z) (i : nat) scan : Z :=
  if Nat.eqb i 0 && has (rl_flags service_routes) kRouteListFlagsHasDefault then rank
  else Z.lor (RANK_INDEX_MASK rank) (RANK_ASSERTION_MASK (r_rank scan)).

Fixpoint add_route_list (routes : option (RouteList A)) (init_size : Z)
    (service_routes : RouteList A) (rank : Z) (i : nat) (rest : list (Route A))
    : option (option (RouteList A)) :=
  match rest with
  | [] => Some routes
  | scan :: rest =>
      match RouteListAddRoute routes init_size scan
              (service_route_rank service_routes rank i scan) with
      | None => None
      | Some routes => add_route_list routes init_size service_routes rank (S i) rest
      end
  end.
Definition RouteListAddRouteList (routes : option (RouteList A)) (init_size : Z)
    (service_routes : RouteList A) (rank : Z) : option (option (RouteList A)) :=
  add_route_list routes init_size service_routes rank 0 (rl_list service_routes).
End list.

(** ** Looking up routes *)

Inductive RouteLookupFlags := kRouteLookupFlagsNone | kRouteLookupFlagsExcludeInterface.

Section apply.
Context {A : Type} `{!RouteListInfo A}.
Implicit Types (routes : list (Route A)) (route scan candidate : Route A).

(** A pointer into a list is the index of the route. *)
Fixpoint RouteListFindRoute routes route : option nat :=
  match routes with
  | [] => None
  | scan :: routes => if route_equal scan route then Some 0%nat
                      else S <$> RouteListFindRoute routes route
  end.

(** The conditions of [RouteListLookup] that [continue] before the address is
    looked at. *)
Definition lookup_skips (address_ : address) (ifindex : Z) (lookup_flags : RouteLookupFlags)
    candidate : bool :=
  ((r_ifindex candidate =? 0) || negb (r_exclude_ifindex candidate =? 0)) ||
  match lookup_flags with
  | kRouteLookupFlagsExcludeInterface => ifindex =? r_ifindex candidate
  | kRouteLookupFlagsNone => negb (ifindex =? r_ifindex candidate)
  end ||
  (has (r_flags candidate) kRouteFlagsHasGateway &&
   (RouteAddressCompare (route_gateway (r_addrs candidate)) address_ =? 0)).

Fixpoint lookup_scan (address_ : address) (n_bits ifindex : Z) (lookup_flags : RouteLookupFlags)
    (i : nat) (rest : list (Route A)) (best_match : option (nat * Route A)) : option (nat * Route A) :=
  match rest with
  | [] => best_match
  | candidate :: rest =>
      let continue := lookup_scan address_ n_bits ifindex lookup_flags (S i) rest in
      if lookup_skips address_ ifindex lookup_flags candidate then continue best_match
      else if has (r_flags candidate) kRouteFlagsIsHost then
        if (n_bits =? all_bits_set) &&
           (RouteAddressCompare (route_destination (r_addrs candidate)) address_ =? 0)
        then Some (i, candidate)
        else continue best_match
      else if negb (route_same_subnet candidate address_) then continue best_match
      else if r_prefix_length candidate =? n_bits then Some (i, candidate)
      else if r_prefix_length candidate >? n_bits then continue best_match
      else
        match best_match with
        | Some (_, best) =>
            if r_prefix_length candidate >? r_prefix_length best then continue (Some (i, candidate))
            else continue best_match
        | None => continue (Some (i, candidate))
        end
  end.
Definition RouteListLookup routes (address_ : address) (n_bits ifindex : Z)
    (lookup_flags : RouteLookupFlags) : option (nat * Route A) :=
  lookup_scan address_ n_bits ifindex lookup_flags 0 routes None.

(** ** Applying a list to the kernel *)

(** A call of [route_apply]: the route, the command and the result. *)
Record call := MkCall { c_route : Route A; c_cmd : Z; c_result : Z }.

(** The new list, the calls made so far, and the messages they wrote. *)
Record apply_state := MkApply {
  ap_routes : list (Route A);
  ap_calls : list call;
  ap_msgs : list rt_msg;
}.

(** What [write] on the routing socket fails with (0 when it succeeds), given the
    messages written before. *)
Variable kernel : list rt_msg → rt_msg → Z.
Variable S_netboot : bool.
Variable sockfd : Z.

Definition route_apply route (cmd : Z) (s : apply_state) : Z * apply_state :=
  match route_apply_msg S_netboot sockfd route cmd with
  | inl e => (e, MkApply (ap_routes s) (ap_calls s ++ [MkCall route cmd e]) (ap_msgs s))
  | inr m => let e := kernel (ap_msgs s) m in
             (e, MkApply (ap_routes s) (ap_calls s ++ [MkCall route cmd e]) (ap_msgs s ++ [m]))
  end.

(** [routes[i]->control_flags |= flag] *)
Definition set_control (i : nat) (flag : Z) (s : apply_state) : apply_state :=
  match ap_routes s !! i with
  | Some r => MkApply (<[i := with_control (Z.lor (r_control_flags r) flag) r]> (ap_routes s))
                (ap_calls s) (ap_msgs s)
  | None => s
  end.

(** [retval == 0 || retval == EROUTENOTAPPLIED] *)
Definition applied (retval : Z) : bool := (retval =? 0) || (retval =? EROUTENOTAPPLIED).

(** The part of [RouteProcess] behind the gateway route. *)
Definition process_apply (i : nat) route (s : apply_state) : apply_state :=
  let '(retval, s) := route_apply route RTM_ADD s in
  let '(retval, s) := if retval =? EEXIST then
                        (* delete and add again *)
                        let '(_, s) := route_apply route RTM_DELETE s in
                        route_apply route RTM_ADD s
                      else (retval, s) in
  if applied retval then set_control i kControlFlagsAdded s else s.

Definition MAX_RECURSE_DEPTH : nat := 10.

(** [RouteProcess(&new_routes[i], kRouteCommandAdd, context)] with
    [context->depth = MAX_RECURSE_DEPTH - levels]. *)
Fixpoint RouteProcess_add (levels : nat) (i : nat) (s : apply_state) : bool * apply_state :=
  match ap_routes s !! i with
  | None => (false, s)
  | Some route =>
      if has (r_control_flags route) kControlFlagsProcessed
      then (has (r_control_flags route) kControlFlagsAdded, s)
      else
        let s := set_control i kControlFlagsProcessed s in
        let route := with_control (Z.lor (r_control_flags route) kControlFlagsProcessed) route in
        if has (r_flags route) kRouteFlagsHasGateway then
          match RouteListLookup (ap_routes s) (route_gateway (r_addrs route)) all_bits_set
                  (r_ifindex route) kRouteLookupFlagsNone with
          | None => (true, process_apply i route s)
          | Some (j, _) =>
              match levels with
              | O => (false, s)  (* routing loop detected, not adding *)
              | S levels =>
                  let '(added, s) := RouteProcess_add levels j s in
                  if added then (true, process_apply i route s) else (false, s)
              end
          end
        else (true, process_apply i route s)
  end.

(** [RouteProcess(route, kRouteCommandRemove, context)] *)
Definition RouteProcess_remove route (s : apply_state) : apply_state :=
  (route_apply route RTM_DELETE s).2.

Definition remove_old (old : list (Route A)) (new : option (list (Route A))) (s : apply_state)
    : apply_state :=
  foldl (λ s scan,
    let new_route := match new with Some l => RouteListFindRoute l scan | None => None end in
    match new_route with
    | Some _ => s
    | None => if has (r_control_flags scan) kControlFlagsAdded then RouteProcess_remove scan s else s
    end) s old.

Definition preserve_control (old : list (Route A)) scan : Route A :=
  match RouteListFindRoute old scan with
  | Some j => match old !! j with
              | Some old_route => with_control (r_control_flags old_route) scan
              | None => scan
              end
  | None => scan
  end.

Definition add_new (s : apply_state) : apply_state :=
  foldl (λ s i,
    match ap_routes s !! i with
    | Some scan => if has (r_control_flags scan) kControlFlagsProcessed then s
                   else (RouteProcess_add MAX_RECURSE_DEPTH i s).2
    | None => s
    end) s (seq 0 (length (ap_routes s))).

(** [None] is a NULL list. The result holds the new list, with its control flags,
    and the calls. The two lists are different objects. *)
Definition RouteListApply (old_routes new_routes : option (list (Route A))) : apply_state :=
  let s := MkApply (default [] new_routes) [] [] in
  match old_routes, new_routes with
  | None, None => s
  | _, _ =>
      let s := match old_routes with Some old => remove_old old new_routes s | None => s end in
      match new_routes with
      | None => s
      | Some _ =>
          let s := match old_routes with
                   | Some old => MkApply (preserve_control old <$> ap_routes s) (ap_calls s) (ap_msgs s)
                   | None => s
                   end in
          add_new s
      end
  end.

(** ** Excluded routes *)

Definition finalize_route routes scan : Route A :=
  if r_exclude_ifindex scan =? 0 then scan else
  let '(ifindex, flags) := if r_ifindex scan =? 0
                           then (r_exclude_ifindex scan, kRouteLookupFlagsExcludeInterface)
                           else (r_ifindex scan, kRouteLookupFlagsNone) in
  match RouteListLookup routes (route_destination (r_addrs scan)) (r_prefix_length scan)
          ifindex flags with
  | None => scan
  | Some (_, route) =>
      let scan := with_if (r_ifindex route) (r_exclude_ifindex scan) scan in
      if has (r_flags route) kRouteFlagsHasGateway then
        let scan := with_addrs (route_set_gateway (route_gateway (r_addrs route)) (r_addrs scan)) scan in
        let fl := Z.lor (r_flags scan) kRouteFlagsHasGateway in
        with_flags (if r_prefix_length scan =? all_bits_set then Z.lor fl kRouteFlagsIsHost else fl) scan
      else
        with_flags (Z.land (r_flags scan)
                      (Z.lnot (Z.lor kRouteFlagsHasGateway kRouteFlagsIsHost))) scan
  end.

Definition RouteListFinalize routes : list (Route A) :=
  foldl (λ routes i, match routes !! i with
                     | Some scan => <[i := finalize_route routes scan]> routes
                     | None => routes
                     end) routes (seq 0 (length routes)).
End apply.
