(* ===== verification/RouteInv.v ===== *)
(** * IPMonitor: the order of the route lists

    The order of the destinations, what [RouteCompare] says in terms of it, and
    the invariant of the lists [RouteListAddRoute] makes. *)

From stdpp Require Import sorting.
From S2P Require Import Prelude RouteTypes RouteList.

Local Open Scope Z_scope.

(** ** The order of addresses *)

Lemma Z_of_byte_inj x y : Z_of_byte x = Z_of_byte y → x = y.
Proof. intros E. by rewrite <-(byte_of_Z_of_byte x), <-(byte_of_Z_of_byte y), E. Qed.

Lemma memcmp_sym a b n : memcmp b a n = - memcmp a b n.
Proof.
  revert a b. induction n as [|n IH]; intros [|x a] [|y b]; cbn; try done.
  rewrite (Z.eqb_sym (Z_of_byte y)), IH. repeat case_match; lia.
Qed.

Lemma memcmp_0 a b n : length a = n → length b = n → memcmp a b n = 0 ↔ a = b.
Proof.
  revert a b. induction n as [|n IH]; intros [|x a] [|y b]; cbn; try done. intros [=] [=].
  destruct (Z.eqb_spec (Z_of_byte x) (Z_of_byte y)) as [E|N].
  - apply Z_of_byte_inj in E as ->. rewrite IH by done. split; [by intros ->|by intros [=]].
  - split; [case_match; lia|]. intros [= -> _]. lia.
Qed.

Lemma memcmp_trans a b c n :
  length b = n → memcmp a b n < 0 → memcmp b c n < 0 → memcmp a c n < 0.
Proof.
  revert a b c. induction n as [|n IH]; intros [|x a] [|y b] [|z c]; cbn; try lia. intros [=].
  destruct (Z.eqb_spec (Z_of_byte x) (Z_of_byte y)) as [->|].
  - destruct (Z.eqb_spec (Z_of_byte y) (Z_of_byte z)); [by apply IH|done].
  - destruct (Z.ltb_spec (Z_of_byte x) (Z_of_byte y)); [|lia].
    destruct (Z.eqb_spec (Z_of_byte y) (Z_of_byte z)) as [<-|].
    + intros _ _. destruct (Z.eqb_spec (Z_of_byte x) (Z_of_byte y)); [lia|].
      destruct (Z.ltb_spec (Z_of_byte x) (Z_of_byte y)); lia.
    + destruct (Z.ltb_spec (Z_of_byte y) (Z_of_byte z)); [|lia].
      destruct (Z.eqb_spec (Z_of_byte x) (Z_of_byte z)); [lia|].
      destruct (Z.ltb_spec (Z_of_byte x) (Z_of_byte z)); lia.
Qed.

(** ** The order of routes *)

Lemma list_insert_middle {B} (p q : list B) (x y : B) : <[length p := y]> (p ++ x :: q) = p ++ y :: q.
Proof. rewrite <-(Nat.add_0_r (length p)). by rewrite insert_app_r. Qed.

Section order.
Context {A : Type} `{!RouteListInfo A}.
Implicit Types (r a b : Route A) (l : list (Route A)).

Definition dest r : address := route_destination (r_addrs r).

(** What the types of the C fields and the code that fills them give. *)
Record route_ok r : Prop := {
  ok_dest : length (dest r) = address_size;
  ok_prefix : 0 ≤ r_prefix_length r ≤ 128;
  ok_ifindex : 0 ≤ r_ifindex r < 2 ^ 31;
  ok_rank : 0 ≤ r_rank r < 2 ^ 32;
}.

(** [a] and [b] have the same destination and mask. *)
Definition same_group a b : Prop := dest a = dest b ∧ r_prefix_length a = r_prefix_length b.
(** The destination of [a] sorts before that of [b]. *)
Definition group_lt a b : Prop :=
  memcmp (dest a) (dest b) address_size < 0 ∨
  dest a = dest b ∧ r_prefix_length a < r_prefix_length b.

(** Routes that count as the same: one interface, or one of them has none and
    neither is scoped. *)
Definition same_slot a b : Prop :=
  r_ifindex a = r_ifindex b ∨
  (r_ifindex a = 0 ∨ r_ifindex b = 0) ∧ is_scoped a = false ∧ is_scoped b = false.
(** The order in a group. *)
Definition rank_lt a (a_rank : Z) b : Prop :=
  a_rank < r_rank b ∨ a_rank = r_rank b ∧ r_ifindex a < r_ifindex b.
Definition rank_gt a (a_rank : Z) b : Prop :=
  r_rank b < a_rank ∨ a_rank = r_rank b ∧ r_ifindex b < r_ifindex a.

#[export] Instance same_group_equiv : Equivalence same_group.
Proof. split; unfold same_group; repeat intro; naive_solver congruence. Qed.
#[export] Instance same_group_dec a b : Decision (same_group a b).
Proof. unfold same_group. apply _. Defined.

Lemma memcmp_refl (x : address) n : memcmp x x n = 0.
Proof. revert n. induction x as [|y x IH]; intros [|n]; cbn; try done. by rewrite Z.eqb_refl. Qed.

Lemma group_lt_irrefl a b : same_group a b → ¬ group_lt a b.
Proof. intros [E ?] [Hlt|[_ Hlt]]; [|lia]. rewrite E, memcmp_refl in Hlt. lia. Qed.

Lemma group_lt_trans a b (c : Route A) : route_ok b → group_lt a b → group_lt b c → group_lt a c.
Proof.
  intros Hb [H1|[E1 H1]] [H2|[E2 H2]]; unfold group_lt; rewrite ?E1, <-?E2; auto.
  - left. eapply memcmp_trans; eauto using ok_dest.
  - right. split; [congruence|lia].
Qed.

#[export] Instance group_lt_proper : Proper (same_group ==> same_group ==> iff) group_lt.
Proof. intros a a' [E1 F1] b b' [E2 F2]. unfold group_lt. by rewrite E1, E2, F1, F2. Qed.

(** What [RouteCompare] returns. *)
Inductive compare_spec a (a_rank : Z) b : Z * bool → Prop :=
| CompareLt c : group_lt a b → c < 0 → compare_spec a a_rank b (c, false)
| CompareGt c : group_lt b a → 0 < c → compare_spec a a_rank b (c, false)
| CompareEq : same_group a b → same_slot a b → compare_spec a a_rank b (0, false)
| CompareBefore c : same_group a b → ¬ same_slot a b → rank_lt a a_rank b → c < 0 →
    compare_spec a a_rank b (c, true)
| CompareAfter c : same_group a b → ¬ same_slot a b → rank_gt a a_rank b → 0 < c →
    compare_spec a a_rank b (c, true).

Lemma RouteCompare_spec a a_rank b :
  route_ok a → route_ok b → compare_spec a a_rank b (RouteCompare a a_rank b (r_rank b)).
Proof.
  intros Ha Hb. pose proof (ok_prefix _ Ha). pose proof (ok_prefix _ Hb).
  pose proof (ok_ifindex _ Ha). pose proof (ok_ifindex _ Hb).
  unfold RouteCompare, RouteAddressCompare. fold (dest a) (dest b).
  destruct (Z.eqb_spec (memcmp (dest a) (dest b) address_size) 0) as [E|N]; cbn [negb].
  2:{ destruct (Z.lt_trichotomy (memcmp (dest a) (dest b) address_size) 0) as [?|[?|?]]; [|done|].
      - apply CompareLt; [by left|done].
      - apply CompareGt; [left|done]. rewrite memcmp_sym. lia. }
  apply memcmp_0 in E; [|by apply ok_dest..].
  rewrite i32_small by lia.
  destruct (Z.eqb_spec (r_prefix_length a - r_prefix_length b) 0) as [P|P]; cbn [negb].
  2:{ destruct (Z.lt_trichotomy (r_prefix_length a - r_prefix_length b) 0) as [?|[?|?]]; [|done|].
      - apply CompareLt; [right; split; [done|lia]|done].
      - apply CompareGt; [right; split; [done|lia]|done]. }
  assert (same_group a b) as G by (split; [done|lia]).
  rewrite i32_small by lia.
  destruct (Z.eqb_spec (r_ifindex a - r_ifindex b) 0) as [I|I]; cbn [negb].
  { apply CompareEq; [done|left; lia]. }
  destruct (((r_ifindex a =? 0) || (r_ifindex b =? 0)) && negb (is_scoped a) && negb (is_scoped b)) eqn:Z0.
  { apply CompareEq; [done|right].
    apply andb_prop in Z0 as [[[?%Z.eqb_eq|?%Z.eqb_eq]%orb_prop ?%negb_true_iff]%andb_prop ?%negb_true_iff];
      auto. }
  assert (¬ same_slot a b) as Ns.
  { intros [?|([?|?] & Sa & Sb)]; [lia|..]; rewrite Sa, Sb in Z0; cbn in Z0;
      rewrite !andb_true_r in Z0; apply orb_false_iff in Z0 as [?%Z.eqb_neq ?%Z.eqb_neq]; lia. }
  unfold RankCompare, uint32_cmp. destruct (Z.eqb_spec a_rank (r_rank b)) as [R|R]; cbn [Z.eqb].
  { destruct (Z.lt_trichotomy (r_ifindex a - r_ifindex b) 0) as [?|[?|?]]; [|done|].
    - apply CompareBefore; [done..|right; split; [done|lia]|done].
    - apply CompareAfter; [done..|right; split; [done|lia]|done]. }
  destruct (Z.ltb_spec a_rank (r_rank b)) as [L|L]; cbn [Z.eqb].
  - apply CompareBefore; [done..|by left|done].
  - apply CompareAfter; [done..|left; lia|done].
Qed.

(** ** The invariant of a list

    Sorted by destination and mask, and of the routes to one destination only
    the first may be unscoped. *)
Definition follows a b : Prop := group_lt a b ∨ same_group a b ∧ is_scoped b = true.
Definition grouped l : Prop := StronglySorted follows l.

Lemma follows_set_scoped a b b' :
  follows a b → same_group b b' → (is_scoped b = true → is_scoped b' = true) → follows a b'.
Proof.
  intros [G|[G S]] E Hs; [left; by rewrite <-E|right]. split; [by rewrite G|auto].
Qed.

Lemma follows_group a a' b : follows a b → same_group a a' → follows a' b.
Proof. intros [G|[G S]] E; [left; by rewrite <-E|right]. split; [by rewrite <-E|done]. Qed.

Lemma follows_trans a b (d : Route A) : route_ok b → follows a b → follows b d → follows a d.
Proof.
  intros Hb [G1|[G1 S1]] [G2|[G2 S2]].
  - left. by apply (group_lt_trans a b d).
  - left. by rewrite <-G2.
  - left. by rewrite G1.
  - right. split; [by rewrite G1|done].
Qed.

(** Replacing a route by one to the same destination. *)
Lemma grouped_replace (p q : list (Route A)) a b :
  grouped (p ++ a :: q) → same_group a b → (is_scoped a = true → is_scoped b = true) →
  grouped (p ++ b :: q).
Proof.
  unfold grouped. rewrite !StronglySorted_app, !StronglySorted_cons, !Forall_forall.
  intros (H1 & H2 & H3 & H4) E Hs. split_and!; [|done| |done].
  - intros x y Hx [->|Hy]%elem_of_cons; [|apply H1; [done|by right]].
    apply (follows_set_scoped x a b); [apply H1; [done|by left]|done..].
  - intros y Hy. eapply follows_group; [by apply H3|done].
Qed.

Lemma grouped_sublist l l' : sublist l' l → grouped l → grouped l'.
Proof.
  unfold grouped. induction 1 as [|x l1 l2 Hs IH|x l1 l2 Hs IH]; [done| |];
    rewrite !StronglySorted_cons; intros [Hf H]; [|by apply IH].
  split; [|by apply IH]. rewrite Forall_forall in Hf |- *. intros y Hy.
  apply Hf. by apply (sublist_subseteq _ _ Hs).
Qed.

Lemma Forall_sublist (P : Route A → Prop) l l' : sublist l' l → Forall P l → Forall P l'.
Proof. rewrite !Forall_forall. intros Hs HP x Hx. apply HP. by apply (sublist_subseteq _ _ Hs). Qed.

(** ** The loop of [RouteListAddRoute] *)

Section scan.
Variables (l : list (Route A)) (this : Route A) (rank : Z).

(** Where the loop puts a new route: in front of [hi], and what of it becomes
    scoped. *)
Definition scope_right (lo hi : list (Route A)) (scope : Scope) : Prop :=
  (scope ≠ kScopeThis → Forall (λ p, ¬ same_group this p) lo) ∧
  match hi with
  | [] => scope ≠ kScopeNext
  | h :: _ => if scope is kScopeNext then same_group this h
              else same_group this h → is_scoped h = true
  end.

Definition goes_at (lo hi : list (Route A)) : Prop :=
  Forall (λ p, group_lt p this ∨ same_group this p) lo ∧
  match hi with [] => True | h :: _ => group_lt this h ∨ same_group this h end.

Definition place (lo hi : list (Route A)) : option nat :=
  match hi with [] => None | _ => Some (length lo) end.

Inductive added : scan_end → Prop :=
| added_same : added (GotoDone l)
| added_over p scan q : l = p ++ scan :: q → same_group this scan →
    added (GotoDone (p ++ replaced_route this rank scan :: q))
| added_at lo hi scope : sublist (lo ++ hi) l → goes_at lo hi → scope_right lo hi scope →
    added (AddAt (lo ++ hi) (place lo hi) scope).

Context (Hl : Forall route_ok l) (Hthis : route_ok this) (Hg : grouped l).

Lemma added_exact p scan q (b : bool) :
  l = p ++ scan :: q → same_group this scan →
  added (if b then GotoDone (<[length p := replaced_route this rank scan]> l) else GotoDone l).
Proof.
  intros E G. destruct b; [|apply added_same].
  rewrite E at 1. rewrite list_insert_middle. by apply (added_over p scan q).
Qed.

(** Behind the insertion point. *)
Lemma add_scan_after rest pre lo h first scope :
  l = lo ++ h :: pre ++ rest → goes_at lo [h] → scope_right lo [h] scope →
  added (add_scan l this rank (length (lo ++ h :: pre)) rest first (Some (length lo)) scope).
Proof.
  revert pre first scope. induction rest as [|scan rest IH]; intros pre first scope E Hgo Hsc.
  { rewrite app_nil_r in E. cbn [add_scan]. rewrite E. by apply (added_at lo (h :: pre)); [rewrite <-E|..]. }
  assert (route_ok scan) as Hscan.
  { rewrite Forall_forall in Hl. apply Hl. rewrite E. set_solver. }
  assert (l = (lo ++ h :: pre) ++ scan :: rest) as E' by (by rewrite <-app_assoc).
  assert (S (length (lo ++ h :: pre)) = length (lo ++ h :: pre ++ [scan])) as EL
    by (rewrite !length_app; cbn; rewrite length_app; cbn; lia).
  assert (l = lo ++ h :: (pre ++ [scan]) ++ rest) as E2 by (by rewrite E, <-app_assoc).
  cbn [add_scan]. destruct (RouteCompare_spec this rank scan Hthis Hscan) as
    [c G Hc|c G Hc|G Hs|c G Hs Hr Hc|c G Hs Hr Hc].
  - rewrite (proj2 (Z.ltb_lt c 0)) by done. rewrite EL. by apply IH.
  - rewrite (proj2 (Z.ltb_ge c 0)), (proj2 (Z.eqb_neq c 0)) by lia. rewrite EL. by apply IH.
  - cbn [Z.ltb Z.eqb Z.compare andb]. case_match.
    + unfold RouteListRemoveRouteAtIndex. rewrite E' at 1. rewrite delete_middle.
      rewrite <-app_assoc. cbn. apply (added_at lo (h :: pre ++ rest)); [|done..].
      rewrite E. apply sublist_app; [done|]. apply sublist_skip, sublist_app; [done|].
      by apply sublist_cons.
    + by apply (added_exact (lo ++ h :: pre) scan rest).
  - rewrite (proj2 (Z.ltb_lt c 0)) by done. rewrite EL. by apply IH.
  - rewrite (proj2 (Z.ltb_ge c 0)), (proj2 (Z.eqb_neq c 0)) by lia. rewrite EL.
    destruct scope; apply IH; try done. destruct Hsc as [H1 H2]. split; [done|exact H2].
Qed.

(** Before the insertion point: [first] is a route to the destination met so far. *)
Definition scanning (pre : list (Route A)) (first : option (Route A)) (scope : Scope) : Prop :=
  Forall (λ p, group_lt p this ∨ same_group this p) pre ∧
  match first with
  | None => scope = kScopeNone ∧ Forall (λ p, ¬ same_group this p) pre
  | Some f => scope = kScopeThis ∧ f ∈ pre ∧ same_group this f
  end.

(** The route at the insertion point in front of a route to the destination. *)
Lemma scope_at pre scan rest first scope :
  l = pre ++ scan :: rest → same_group this scan → scanning pre first scope →
  let f := default scan first in
  scope_right pre [scan]
    (if negb (is_scoped f) then if is_scoped scan then kScopeThis else kScopeNext else scope).
Proof.
  intros E G [Hpre Hf]. destruct first as [f|]; cbn [default from_option].
  - destruct Hf as (-> & Hf & Gf).
    assert (is_scoped scan = true) as S.
    { unfold grouped in Hg. rewrite E, StronglySorted_app in Hg. destruct Hg as [Hfol _].
      destruct (Hfol f scan Hf ltac:(by left)) as [Hlt|[_ Hs]]; [|done].
      destruct (group_lt_irrefl f scan); [by rewrite <-Gf|done]. }
    rewrite S. unfold id.
    destruct (is_scoped f); (split; [by intros []|]); cbn; auto.
  - destruct Hf as (-> & Hf). destruct (is_scoped scan) eqn:S; cbn [negb]; split; done.
Qed.

Lemma add_scan_before rest pre first scope :
  l = pre ++ rest → scanning pre first scope →
  added (add_scan l this rank (length pre) rest first None scope).
Proof.
  revert pre first scope. induction rest as [|scan rest IH]; intros pre first scope E Hsc.
  { rewrite app_nil_r in E. subst pre. cbn [add_scan]. destruct Hsc as [Hpre Hf].
    rewrite <-(app_nil_r l). apply (added_at l []); [by rewrite app_nil_r|done|].
    destruct first; [destruct Hf as (-> & _)|destruct Hf as (-> & Hf)]; done. }
  assert (route_ok scan) as Hscan.
  { rewrite Forall_forall in Hl. apply Hl. rewrite E. set_solver. }
  assert (S (length pre) = length (pre ++ [scan])) as EL by (rewrite length_app; cbn; lia).
  assert (l = (pre ++ [scan]) ++ rest) as E2 by (by rewrite <-app_assoc).
  destruct Hsc as [Hpre Hf].
  cbn [add_scan]. destruct (RouteCompare_spec this rank scan Hthis Hscan) as
    [c G Hc|c G Hc|G Hs|c G Hs Hr Hc|c G Hs Hr Hc].
  - rewrite (proj2 (Z.ltb_lt c 0)) by done. cbn [andb]. rewrite EL.
    apply (add_scan_after rest [] pre scan); [done|by split; [|left]|].
    assert (¬ same_group this scan) by (intros ?; by apply (group_lt_irrefl this scan)).
    destruct first; [destruct Hf as (-> & _)|destruct Hf as (-> & Hf)]; done.
  - rewrite (proj2 (Z.ltb_ge c 0)), (proj2 (Z.eqb_neq c 0)) by lia. rewrite EL.
    apply IH; [done|]. split; [apply Forall_app_2; auto|].
    assert (¬ same_group this scan) by (intros ?; apply (group_lt_irrefl scan this); [by symmetry|done]).
    destruct first; [destruct Hf as (-> & Hf & ?)|destruct Hf as (-> & Hf)].
    + split_and!; [done| |done]. apply elem_of_app. by left.
    + split; [done|]. apply Forall_app_2; auto.
  - cbn [Z.ltb Z.eqb Z.compare andb]. by apply (added_exact pre scan rest).
  - rewrite (proj2 (Z.ltb_lt c 0)) by done. rewrite EL. cbn [andb].
    pose proof (scope_at pre scan rest first scope E G (conj Hpre Hf)) as Hsc.
    apply (add_scan_after rest [] pre scan); [done|by split; [|right]|].
    by destruct first.
  - rewrite (proj2 (Z.ltb_ge c 0)), (proj2 (Z.eqb_neq c 0)) by lia. rewrite EL.
    apply IH; [done|]. split; [apply Forall_app_2; auto|].
    destruct first; [destruct Hf as (-> & Hf & ?)|destruct Hf as (-> & Hf)].
    + split_and!; [done| |done]. apply elem_of_app. by left.
    + split_and!; [done| |done]. apply elem_of_app. right. by left.
Qed.

Lemma add_scan_added : added (add_scan l this rank 0 l None None kScopeNone).
Proof. by apply (add_scan_before l []). Qed.
End scan.

(** ** Adding a route keeps the invariant *)

Lemma grouped_insert (lo hi : list (Route A)) a :
  Forall route_ok hi → grouped (lo ++ hi) → Forall (λ p, follows p a) lo →
  match hi with [] => True | h :: _ => follows a h end → grouped (lo ++ a :: hi).
Proof.
  unfold grouped. rewrite !StronglySorted_app, !StronglySorted_cons.
  intros Hok (H1 & H2 & H3) Hlo Hhi.
  assert (Forall (follows a) hi) as Ha.
  { destruct hi as [|h hi]; [done|]. apply StronglySorted_cons in H3 as [H3 _].
    apply Forall_cons in Hok as [Hh _]. constructor; [done|].
    eapply Forall_impl; [apply H3|]. intros y. by apply follows_trans. }
  split_and!; [|done..]. intros x y Hx [->|Hy]%elem_of_cons; [|by apply H1].
  rewrite Forall_forall in Hlo. by apply Hlo.
Qed.

(** [raise fl r]: [r] with the flags [fl] set. *)
Definition raise (fl : Z) r : Route A := if fl =? 0 then r else with_flags (Z.lor (r_flags r) fl) r.

Lemma raise_group fl r : same_group (raise fl r) r.
Proof. unfold raise. by case_match. Qed.
Lemma raise_ok fl r : route_ok r → route_ok (raise fl r).
Proof. intros []. unfold raise. case_match; by constructor. Qed.
Lemma has_lor x y z : has (Z.lor x y) z = has x z || has y z.
Proof.
  unfold has. rewrite Z.land_lor_distr_l.
  destruct (Z.eqb_spec (Z.land x z) 0) as [->|Hx]; cbn; [by rewrite Z.lor_0_l|].
  apply negb_true_iff, Z.eqb_neq. intros [? _]%Z.lor_eq_0_iff. done.
Qed.
Lemma raise_scoped fl r : is_scoped (raise fl r) = is_scoped r || has fl kRouteFlagsIsScoped.
Proof.
  unfold raise, is_scoped. destruct (Z.eqb_spec fl 0) as [->|]; [by rewrite orb_false_r|].
  cbn. apply has_lor.
Qed.

Lemma or_flags_middle lo r hi fl (rl : RouteList A) :
  or_flags (length lo) fl (with_list (lo ++ r :: hi) rl) = with_list (lo ++ raise fl r :: hi) rl.
Proof.
  unfold or_flags, RouteListGetRouteAtIndex, raise. cbn [rl_list with_list].
  rewrite list_lookup_middle by done. case_match; [done|].
  by rewrite list_insert_middle.
Qed.

(** The list after the insertion of [r] in front of [hi]. *)
Definition inserted (lo hi : list (Route A)) r (scope : Scope) (flags : Z) : list (Route A) :=
  match scope, hi with
  | kScopeThis, _ => lo ++ raise (Z.lor flags kRouteFlagsIsScoped) r :: hi
  | kScopeNext, h :: hi => lo ++ r :: raise (Z.lor flags kRouteFlagsIsScoped) h :: hi
  | kScopeNext, [] => lo ++ [r]
  | kScopeNone, _ => lo ++ raise flags r :: hi
  end.

Lemma or_flags_inserted lo hi r scope flags (rl : RouteList A) :
  (match scope with
   | kScopeThis => or_flags (length lo) (Z.lor flags kRouteFlagsIsScoped)
   | kScopeNext => or_flags (S (length lo)) (Z.lor flags kRouteFlagsIsScoped)
   | kScopeNone => or_flags (length lo) flags
   end) (with_list (lo ++ r :: hi) rl) = with_list (inserted lo hi r scope flags) rl.
Proof.
  destruct scope; [apply or_flags_middle..|].
  destruct hi as [|h hi]; cbn [inserted].
  - unfold or_flags, RouteListGetRouteAtIndex. cbn [rl_list with_list].
    rewrite lookup_ge_None_2; [done|]. rewrite length_app. cbn. lia.
  - pose proof (or_flags_middle (lo ++ [r]) h hi (Z.lor flags kRouteFlagsIsScoped) rl) as E.
    rewrite length_app, Nat.add_1_r, <-!app_assoc in E. exact E.
Qed.

Lemma inserted_grouped this lo hi r scope flags :
  Forall route_ok hi → grouped (lo ++ hi) → goes_at this lo hi → scope_right this lo hi scope →
  same_group this r → grouped (inserted lo hi r scope flags).
Proof.
  intros Hok Hg [Hlo Hhi] [Hs Hh] G.
  assert (∀ a, same_group this a → (scope ≠ kScopeThis ∨ is_scoped a = true) →
    Forall (λ p, follows p a) lo) as Hlo'.
  { intros a Ga Ha. rewrite Forall_forall in Hlo |- *. intros p Hp.
    destruct (Hlo p Hp) as [Hlt|Gp]; [left; by rewrite <-Ga|].
    destruct Ha as [Ha|Ha]; [|right; split; [by rewrite <-Gp|done]].
    specialize (Hs Ha). rewrite Forall_forall in Hs. by destruct (Hs p Hp). }
  assert (∀ a, same_group this a → scope ≠ kScopeNext →
    match hi with [] => True | h :: _ => follows a h end) as Hhi'.
  { intros a Ga Ha. destruct hi as [|h hi]; [done|]. destruct Hhi as [Hlt|Gh]; [left; by rewrite <-Ga|].
    right. split; [by rewrite <-Ga|]. destruct scope; auto. }
  destruct scope; cbn [inserted].
  - apply grouped_insert; [done..| |]; [apply Hlo'|apply Hhi']; auto; by rewrite raise_group.
  - apply grouped_insert; [done..| |]; [apply Hlo'|apply Hhi']; auto; rewrite ?raise_group; auto.
    right. rewrite raise_scoped, has_lor. by rewrite !orb_true_r.
  - destruct hi as [|h hi]; [done|]. apply Forall_cons in Hok as [Hokh Hok].
    assert (is_scoped (raise (Z.lor flags kRouteFlagsIsScoped) h) = true) as Sh
      by (rewrite raise_scoped, has_lor; by rewrite !orb_true_r).
    apply grouped_insert.
    + constructor; [by apply raise_ok|done].
    + apply (grouped_replace lo hi h); [done|by rewrite raise_group|done].
    + apply Hlo'; [done|by left].
    + right. split; [|done]. rewrite raise_group, <-G. exact Hh.
Qed.

(** [n] routes have been added to a list that started with room for [init]. *)
Record list_ok (init n : Z) (rl : RouteList A) : Prop := {
  lo_routes : Forall route_ok (rl_list rl);
  lo_grouped : grouped (rl_list rl);
  lo_room : 0 < rl_size rl ≤ Z.max init (2 * n);
  lo_count : rl_count rl ≤ Z.min n (rl_size rl);
}.

Context `{Hheap : !Heap}.
Implicit Types (this scan : Route A) (lo hi : list (Route A)).

Definition never_flags (rank : Z) : Z :=
  if RANK_ASSERTION_MASK rank =? kRankAssertionNever then kRouteFlagsIsScoped else 0.

(** The size of a list of [n] routes when there is room for one more. *)
Definition grown (size : Z) (n : Z) : Z := if size =? n then size * 2 else size.

Lemma AddRoute_inserts (rl : RouteList A) init this rank lo hi scope :
  add_scan (rl_list rl) this rank 0 (rl_list rl) None None kScopeNone =
    AddAt (lo ++ hi) (place lo hi) scope →
  let n := Z.of_nat (length (lo ++ hi)) in
  n ≤ rl_size rl → 0 < rl_size rl < 2 ^ 30 →
  RouteListAddRoute (Some rl) init this rank =
    Some (if (rl_size rl =? n) && negb (can_alloc (rl_size rl * 2)) then None
          else Some (MkRouteList A (grown (rl_size rl) n) (rl_flags rl)
                       (inserted lo hi (with_rank rank this) scope (never_flags rank)))).
Proof.
  intros E n Hn Hs. unfold RouteListAddRoute. rewrite E.
  unfold rl_count. cbn [with_list rl_list rl_size rl_flags]. fold n. rewrite i32_small by lia.
  assert (∀ size, n < size → ∀ fl,
    RouteListAddRouteAtIndex (MkRouteList A size fl (lo ++ hi)) (with_rank rank this) (place lo hi) =
    Some (with_list (lo ++ with_rank rank this :: hi) (MkRouteList A size fl (lo ++ hi)), length lo)) as Hat.
  { intros size Hsize fl. unfold RouteListAddRouteAtIndex, rl_count. cbn [rl_list rl_size].
    fold n. rewrite (proj2 (Z.ltb_lt _ _) Hsize). destruct hi as [|h hi]; cbn [place].
    - rewrite app_nil_r, firstn_all, drop_all. done.
    - by rewrite take_app_length, drop_app_length. }
  unfold grown, with_list. cbn [rl_size rl_flags rl_list].
  destruct (Z.eqb_spec (rl_size rl) n) as [En|Nn]; cbn [andb].
  - destruct (can_alloc (rl_size rl * 2)); cbn [negb]; [|done].
    rewrite Hat by lia. do 2 f_equal. fold (never_flags rank).
    pose proof (or_flags_inserted lo hi (with_rank rank this) scope (never_flags rank)
      (MkRouteList A (rl_size rl * 2) (rl_flags rl) (lo ++ hi))) as Ho.
    destruct scope; exact Ho.
  - rewrite Hat by lia. do 2 f_equal. fold (never_flags rank).
    pose proof (or_flags_inserted lo hi (with_rank rank this) scope (never_flags rank)
      (MkRouteList A (rl_size rl) (rl_flags rl) (lo ++ hi))) as Ho.
    destruct scope; exact Ho.
Qed.

Lemma AddRoute_done (rl : RouteList A) init this rank l :
  add_scan (rl_list rl) this rank 0 (rl_list rl) None None kScopeNone = GotoDone l →
  RouteListAddRoute (Some rl) init this rank = Some (Some (with_list l rl)).
Proof. intros E. unfold RouteListAddRoute. by rewrite E. Qed.

Lemma AddRoute_new init this rank :
  can_alloc init = true →
  RouteListAddRoute None init this rank =
  RouteListAddRoute (Some (MkRouteList A init 0 [])) init this rank.
Proof. intros E. unfold RouteListAddRoute. by rewrite E. Qed.

Lemma replaced_group this rank scan : same_group (replaced_route this rank scan) this.
Proof. unfold replaced_route. by case_match. Qed.

Lemma replaced_ok this rank scan :
  route_ok this → route_ok scan → 0 ≤ rank < 2 ^ 32 → route_ok (replaced_route this rank scan).
Proof.
  intros [] [] Hr. unfold replaced_route.
  destruct (negb (r_ifindex scan =? 0)), (negb (r_ifindex this =? 0));
    case_match; by constructor.
Qed.

Lemma replaced_scoped this rank scan :
  is_scoped scan = true → is_scoped (replaced_route this rank scan) = true.
Proof.
  intros S. unfold replaced_route. rewrite S. unfold is_scoped. cbn.
  by rewrite has_lor, orb_true_r.
Qed.

Lemma inserted_Forall (P : Route A → Prop) lo hi r scope flags :
  (∀ fl x, P x → P (raise fl x)) → Forall P (lo ++ hi) → P r → Forall P (inserted lo hi r scope flags).
Proof.
  intros HP [Hlo Hhi]%Forall_app Hr.
  destruct scope; cbn [inserted]; [| |destruct hi as [|h hi]; [|apply Forall_cons in Hhi as []]];
    apply Forall_app_2; auto using Forall_cons_2.
Qed.

Lemma length_inserted lo hi r scope flags :
  length (inserted lo hi r scope flags) = S (length (lo ++ hi)).
Proof.
  destruct scope; cbn [inserted]; [| |destruct hi as [|h hi]]; rewrite !length_app; cbn; lia.
Qed.

(** [RouteListAddRoute] does not store out of bounds and keeps the invariant; it
    gives the list up only when memory runs out. *)
Lemma RouteListAddRoute_ok init n rl this rank :
  list_ok init n rl → route_ok this → 0 ≤ rank < 2 ^ 32 → 0 ≤ n → init < 2 ^ 30 → n < 2 ^ 29 →
  ∃ res, RouteListAddRoute (Some rl) init this rank = Some res ∧
    (∀ rl', res = Some rl' → list_ok init (n + 1) rl') ∧
    ((∀ m, can_alloc m = true) → is_Some res).
Proof.
  intros [Hok Hg Hroom Hcount] Hthis Hr Hn Hi Hn'. unfold rl_count in Hcount.
  pose proof (add_scan_added (rl_list rl) this rank Hok Hthis Hg) as Ha.
  destruct (add_scan (rl_list rl) this rank 0 (rl_list rl) None None kScopeNone) eqn:E;
    inversion Ha as [E1|p scan q E1 G E2|lo hi scope Hsub Hgo Hsc E2]; subst.
  - rewrite (AddRoute_done _ _ _ _ _ E). eexists. split; [done|]. split; [|eauto].
    intros rl' [= <-]. constructor; [done..|cbn; lia|unfold rl_count; cbn; lia].
  - rewrite (AddRoute_done _ _ _ _ _ E). eexists. split; [done|]. split; [|eauto].
    rewrite E1 in Hok, Hg, Hcount. apply Forall_app in Hok as [Hp [Hs Hq]%Forall_cons].
    intros rl' [= <-]. constructor; unfold rl_count; cbn [with_list rl_list rl_size].
    + apply Forall_app_2; auto using Forall_cons_2, replaced_ok.
    + eapply grouped_replace; [done| |apply replaced_scoped]. by rewrite replaced_group.
    + lia.
    + rewrite length_app in *. cbn in *. lia.
  - apply sublist_length in Hsub as Hlen.
    rewrite (AddRoute_inserts _ _ _ _ _ _ _ E) by lia. eexists. split; [done|]. split.
    + intros rl'. case_match; [done|]. intros [= <-].
      pose proof (Forall_sublist _ _ _ Hsub Hok) as Hok'.
      constructor; unfold rl_count; cbn [rl_list rl_size].
      * apply inserted_Forall; [apply raise_ok|done|]. by destruct Hthis; constructor.
      * apply (inserted_grouped this); [by apply Forall_app in Hok' as []| |done..].
        by apply (grouped_sublist _ _ Hsub).
      * unfold grown. case_match; lia.
      * rewrite length_inserted. unfold grown. destruct (Z.eqb_spec (rl_size rl) (Z.of_nat (length (lo ++ hi)))); lia.
    + intros Hal. rewrite Hal, andb_false_r. eauto.
Qed.
End order.
