(* ===== verification/RouteElect.v ===== *)
(** * IPMonitor: which route wins

    What [RouteListAddRoute] computes for routes with an interface: of the routes
    to one destination over one interface the one with the best rank, sorted by
    destination and rank, all but the first of a destination scoped. *)

From stdpp Require Import sorting.
From S2P Require Import Prelude RouteTypes RouteList RouteInv.

Local Open Scope Z_scope.

Section elect.
Context {A : Type} `{!RouteListInfo A}.
Implicit Types (r x y p this scan : Route A) (l lo hi s : list (Route A)).

(** ** The reference definition *)

(** Same destination, mask and interface. *)
Definition same_key x y : Prop := same_group x y ∧ r_ifindex x = r_ifindex y.
(** [x] sorts before [y]: by destination and mask, then by rank and interface. *)
Definition ranked x y : Prop := group_lt x y ∨ same_group x y ∧ rank_lt x (r_rank x) y.

#[export] Instance group_lt_dec x y : Decision (group_lt x y).
Proof. unfold group_lt. apply _. Defined.
#[export] Instance same_key_dec x y : Decision (same_key x y).
Proof. unfold same_key. apply _. Defined.
#[export] Instance ranked_dec x y : Decision (ranked x y).
Proof. unfold ranked, rank_lt. apply _. Defined.

Fixpoint insert_ranked r s : list (Route A) :=
  match s with
  | [] => [r]
  | x :: s => if decide (ranked r x) then r :: x :: s else x :: insert_ranked r s
  end.

(** [r] replaces the route with its key unless that has a better rank. *)
Definition better_insert r s : list (Route A) :=
  if decide (Exists (λ x, same_key x r ∧ r_rank x ≤ r_rank r) s) then s
  else insert_ranked r (filter (λ x, ¬ same_key x r) s).

Definition scoped x : Route A := raise kRouteFlagsIsScoped x.

(** [x] behind [prev]. *)
Definition mark1 (prev : option (Route A)) x : Route A :=
  match prev with
  | Some p => if decide (same_group p x) then scoped x else x
  | None => x
  end.
(** All routes but the first of a destination are scoped. *)
Fixpoint mark (prev : option (Route A)) s : list (Route A) :=
  match s with
  | [] => []
  | x :: s => mark1 prev x :: mark (Some x) s
  end.

(** What is stored of a route that is added with a rank. *)
Definition stored this (rank : Z) : Route A := raise (never_flags rank) (with_rank rank this).

(** The routes the reference definition is for. *)
Record plain x : Prop := {
  plain_ok : route_ok x;
  plain_ifindex : r_ifindex x ≠ 0;
  plain_exclude : r_exclude_ifindex x = 0;
  plain_rank : r_rank x < 2 ^ 26;
  plain_never : never_flags (r_rank x) ≠ 0 → is_scoped x = true;
}.

(** Sorted, one route for a key. *)
Definition sorted_table s : Prop := StronglySorted (λ x y, ranked x y ∧ ¬ same_key x y) s.

(** ** Facts about the order *)

#[export] Instance same_key_equiv : Equivalence same_key.
Proof.
  unfold same_key. split; [done|intros ?? [G E]; by split|].
  intros ??? [G1 E1] [G2 E2]. split; [by rewrite G1|congruence].
Qed.

Lemma ranked_trans x y z : route_ok y → ranked x y → ranked y z → ranked x z.
Proof.
  intros Hy [G1|[G1 R1]] [G2|[G2 R2]]; unfold ranked.
  - left. by apply (group_lt_trans x y z).
  - left. by rewrite <-G2.
  - left. by rewrite G1.
  - right. split; [by rewrite G1|]. unfold rank_lt in *. lia.
Qed.

Lemma ranked_irrefl x y : same_group x y → r_rank x = r_rank y → r_ifindex x = r_ifindex y → ¬ ranked x y.
Proof.
  intros G R I [Hlt|[_ Hr]]; [by apply (group_lt_irrefl x y)|]. unfold rank_lt in Hr. lia.
Qed.

Lemma ranked_asym x y : route_ok y → ranked x y → ¬ ranked y x.
Proof. intros Hy H1 H2. by eapply (ranked_irrefl x x), ranked_trans. Qed.

(** A route sorted between two to the same destination. *)
Lemma ranked_between x y z : route_ok y → same_group x z → ranked x y → ranked y z → same_group y z.
Proof.
  intros Hy G [G1|[G1 R1]] [G2|[G2 R2]]; try done.
  - destruct (group_lt_irrefl x z G). by apply (group_lt_trans x y z).
  - destruct (group_lt_irrefl y z); [by rewrite <-G1|done].
Qed.

Lemma group_cases x y : route_ok x → route_ok y → group_lt x y ∨ same_group x y ∨ group_lt y x.
Proof.
  intros Hx Hy. unfold group_lt, same_group.
  destruct (Z.lt_trichotomy (memcmp (dest x) (dest y) address_size) 0) as [?|[E|?]]; [by auto| |].
  - apply memcmp_0 in E; [|by apply ok_dest..].
    destruct (Z.lt_trichotomy (r_prefix_length x) (r_prefix_length y)) as [?|[?|?]]; auto.
  - right. right. left. rewrite memcmp_sym. lia.
Qed.

Lemma ranked_cases x y : route_ok x → route_ok y →
  ranked x y ∧ ¬ same_key x y ∨ same_key x y ∨ ranked y x ∧ ¬ same_key x y.
Proof.
  intros Hx Hy. destruct (decide (same_key x y)) as [K|K]; [by auto|].
  destruct (group_cases x y Hx Hy) as [G|[G|G]]; unfold ranked; [by auto| |by auto].
  assert (r_ifindex x ≠ r_ifindex y) by (intros ?; by apply K).
  assert (same_group y x) by (by symmetry). unfold rank_lt.
  destruct (Z.lt_trichotomy (r_rank x) (r_rank y)) as [?|[?|?]]; [tauto| |tauto].
  destruct (Z.lt_trichotomy (r_ifindex x) (r_ifindex y)) as [?|[?|?]]; [|done|];
    assert (r_rank y = r_rank x) by done; tauto.
Qed.

(** ** Facts about marks *)

Lemma raise_raise f g x : raise f (raise g x) = raise (Z.lor g f) x.
Proof.
  unfold raise. destruct (Z.eqb_spec f 0) as [->|]; [by rewrite Z.lor_0_r|].
  destruct (Z.eqb_spec g 0) as [->|]; cbn; [by rewrite Z.lor_0_l; destruct (Z.eqb_spec f 0)|].
  destruct (Z.eqb_spec (Z.lor g f) 0) as [?%Z.lor_eq_0_iff|]; [naive_solver|].
  by rewrite Z.lor_assoc.
Qed.

Lemma raise_rank f x : r_rank (raise f x) = r_rank x.
Proof. unfold raise. by case_match. Qed.
Lemma raise_ifindex f x : r_ifindex (raise f x) = r_ifindex x.
Proof. unfold raise. by case_match. Qed.
Lemma raise_exclude f x : r_exclude_ifindex (raise f x) = r_exclude_ifindex x.
Proof. unfold raise. by case_match. Qed.

Lemma has_scoped_lor fl : has fl kRouteFlagsIsScoped = true → Z.lor fl kRouteFlagsIsScoped = fl.
Proof.
  intros Hf. apply Z.bits_inj'. intros n Hn. rewrite Z.lor_spec. unfold kRouteFlagsIsScoped in *.
  destruct (Z.eq_dec n 0) as [->|Hn0].
  - unfold has in Hf. change 1 with (Z.ones 1) in Hf. rewrite Z.land_ones in Hf by lia.
    change (2 ^ 1) with 2 in Hf. rewrite Z.bit0_odd, Zodd_mod.
    pose proof (Z.mod_pos_bound fl 2 ltac:(lia)).
    assert (fl mod 2 = 1) as -> by (destruct (Z.eqb_spec (fl mod 2) 0); [done|lia]). done.
  - change 1 with (2 ^ 0) at 1. rewrite Z.pow2_bits_false by lia. by rewrite orb_false_r.
Qed.

Lemma scoped_id x : is_scoped x = true → scoped x = x.
Proof.
  intros S. unfold scoped, raise. cbn [Z.eqb kRouteFlagsIsScoped]. change (1 =? 0) with false.
  cbv iota. rewrite has_scoped_lor by exact S. by destruct x.
Qed.

Lemma scoped_scoped x : is_scoped (scoped x) = true.
Proof. unfold scoped. by rewrite raise_scoped, orb_true_r. Qed.

Lemma mark1_raise prev x : ∃ f, mark1 prev x = raise f x.
Proof.
  unfold mark1. destruct prev as [p|]; [case_decide|]; [by exists kRouteFlagsIsScoped|by exists 0..].
Qed.

Lemma mark_same p q s : same_group p q → mark (Some p) s = mark (Some q) s.
Proof.
  intros G. destruct s as [|x s]; [done|]. cbn. f_equal.
  destruct (decide (same_group p x)) as [H|H]; rewrite G in H;
    [by rewrite decide_True|by rewrite decide_False].
Qed.

(** The route in front of what follows [lo]. *)
Definition prev_of (prev : option (Route A)) lo : option (Route A) :=
  match last lo with Some x => Some x | None => prev end.

Lemma mark_app prev lo hi : mark prev (lo ++ hi) = mark prev lo ++ mark (prev_of prev lo) hi.
Proof.
  revert prev. induction lo as [|x lo IH]; intros prev; [done|]. cbn [app mark]. rewrite IH.
  f_equal. f_equal. f_equal. unfold prev_of. rewrite last_cons. by destruct (last lo).
Qed.

Lemma length_mark prev s : length (mark prev s) = length s.
Proof. revert prev. induction s as [|x s IH]; intros prev; cbn; auto. Qed.

Lemma elem_of_mark prev s y : y ∈ mark prev s → ∃ x f, x ∈ s ∧ y = raise f x.
Proof.
  revert prev. induction s as [|x s IH]; intros prev; cbn; [by intros ?%elem_of_nil|].
  intros [->|Hy]%elem_of_cons.
  - destruct (mark1_raise prev x) as [f ->]. exists x, f. split; [by left|done].
  - destruct (IH _ Hy) as (z & f & Hz & ->). exists z, f. split; [by right|done].
Qed.

(** ** The loop on a marked table *)

Section scan.
Variables (l : list (Route A)) (this : Route A) (rank : Z).
Let r := with_rank rank this.
Context (Hthis : route_ok this) (Hif : r_ifindex this ≠ 0) (Hrank : 0 ≤ rank < 2 ^ 32).

Lemma stored_ok : route_ok r.
Proof. destruct Hthis. by constructor. Qed.

Definition scannable x : Prop := route_ok x ∧ r_ifindex x ≠ 0.
Definition sorts_before x : Prop := scannable x ∧ ranked x r ∧ ¬ same_key x r.
Definition sorts_behind x : Prop := scannable x ∧ ranked r x ∧ ¬ same_key x r.

Inductive plain_compare x : Z * bool → Prop :=
| PlainBefore c : ranked x r → ¬ same_key x r → 0 < c →
    plain_compare x (c, bool_decide (same_group x r))
| PlainBehind c : ranked r x → ¬ same_key x r → c < 0 →
    plain_compare x (c, bool_decide (same_group x r))
| PlainKey : same_key x r → plain_compare x (0, false).

Lemma RouteCompare_plain x f :
  scannable x → plain_compare x (RouteCompare this rank (raise f x) (r_rank (raise f x))).
Proof.
  intros [Hx Hxif]. pose proof (raise_group f x) as Gf.
  assert (same_group this r) as Gt by done.
  assert (same_slot this (raise f x) ↔ r_ifindex x = r_ifindex r) as Hslot.
  { unfold same_slot. rewrite raise_ifindex. cbn [r with_rank r_ifindex].
    split; [|by left]. intros [?|([?|?] & _)]; done. }
  destruct (RouteCompare_spec this rank (raise f x) Hthis (raise_ok f x Hx))
    as [c G Hc|c G Hc|G Hs|c G Hs Hr Hc|c G Hs Hr Hc]; rewrite Gf in G.
  - assert (¬ same_group x r) as N by (intros N; by apply (group_lt_irrefl this x); [rewrite N|]).
    rewrite <-(bool_decide_eq_false_2 _ N). apply PlainBehind; [by left|by intros [? _]|done].
  - assert (¬ same_group x r) as N by (intros N; by apply (group_lt_irrefl x this); [rewrite N|]).
    rewrite <-(bool_decide_eq_false_2 _ N). apply PlainBefore; [by left|by intros [? _]|done].
  - apply PlainKey. split; [by rewrite <-G|by apply Hslot].
  - assert (same_group x r) as N by by rewrite <-G.
    rewrite <-(bool_decide_eq_true_2 _ N). apply PlainBehind; [|intros [_ ?]; tauto|done].
    right. split; [by symmetry|]. unfold rank_lt in *. by rewrite raise_rank, raise_ifindex in Hr.
  - assert (same_group x r) as N by by rewrite <-G.
    rewrite <-(bool_decide_eq_true_2 _ N). apply PlainBefore; [|intros [_ ?]; tauto|done].
    right. split; [done|]. unfold rank_gt, rank_lt in *. rewrite raise_rank, raise_ifindex in Hr.
    cbn. lia.
Qed.

(** Whether a route to the destination has been met. *)
Definition seen (b : bool) (first : option (Route A)) (scope : Scope) : Prop :=
  if b then is_Some first ∧ scope = kScopeThis else first = None ∧ scope = kScopeNone.

Lemma scan_before lo n prev rest b first scope :
  Forall sorts_before lo → seen b first scope →
  ∃ first' scope',
    add_scan l this rank n (mark prev lo ++ rest) first None scope =
    add_scan l this rank (n + length lo) rest first' None scope' ∧
    seen (b || existsb (λ x, bool_decide (same_group x r)) lo) first' scope'.
Proof.
  intros Hlo. revert n prev b first scope. induction Hlo as [|x lo (Hx & Hr & Hk) Hlo IH];
    intros n prev b first scope Hseen; cbn [mark app length existsb].
  { rewrite Nat.add_0_r, orb_false_r. eauto. }
  destruct (mark1_raise prev x) as [f ->]. cbn [add_scan].
  destruct (RouteCompare_plain x f Hx) as [c _ _ Hc|c Hr' _ Hc|K]; [| |done].
  2:{ by destruct (ranked_asym x r stored_ok). }
  rewrite (proj2 (Z.ltb_ge c 0)), (proj2 (Z.eqb_neq c 0)) by lia.
  rewrite Nat.add_succ_r, <-Nat.add_succ_l.
  rewrite orb_assoc. apply IH.
  destruct b; cbn in Hseen |- *; destruct Hseen as [Hf ->].
  - destruct Hf as [? ->]. split; [done|by case_bool_decide].
  - subst first. by case_bool_decide.
Qed.

Lemma scan_behind mid n prev rest first w scope :
  Forall sorts_behind mid →
  ∃ first', add_scan l this rank n (mark prev mid ++ rest) first (Some w) scope =
            add_scan l this rank (n + length mid) rest first' (Some w) scope.
Proof.
  intros Hmid. revert n prev first. induction Hmid as [|x mid (Hx & Hr & Hk) Hmid IH];
    intros n prev first; cbn [mark app length].
  { rewrite Nat.add_0_r. eauto. }
  destruct (mark1_raise prev x) as [f ->]. cbn [add_scan].
  destruct (RouteCompare_plain x f Hx) as [c Hr' _ Hc|c _ _ Hc|K]; [| |done].
  { by destruct (ranked_asym x r stored_ok). }
  rewrite (proj2 (Z.ltb_lt c 0)) by done. rewrite Nat.add_succ_r, <-Nat.add_succ_l. apply IH.
Qed.

Definition meets (lo : list (Route A)) : bool := existsb (λ x, bool_decide (same_group x r)) lo.

(** What becomes scoped when [r] goes between [lo] and [hi]. *)
Definition scope_for (lo hi : list (Route A)) : Scope :=
  if meets lo then kScopeThis
  else match hi with
       | h :: _ => if bool_decide (same_group h r) && negb (is_scoped h) then kScopeNext else kScopeNone
       | [] => kScopeNone
       end.

Lemma meets_last lo : Forall sorts_before lo → sorted_table lo →
  meets lo = match last lo with Some q => bool_decide (same_group q r) | None => false end.
Proof.
  intros Hlo Ht. destruct (last lo) as [q|] eqn:E; [|by apply last_None in E as ->].
  apply last_Some in E as [lo' ->]. unfold meets. rewrite existsb_app. cbn. rewrite orb_false_r.
  case_bool_decide as Hq; [by rewrite orb_true_r|]. rewrite orb_false_r.
  apply not_true_is_false. intros (p & Hp & Gp%bool_decide_eq_true)%existsb_exists.
  apply list_elem_of_In in Hp. destruct Hq.
  apply Forall_app in Hlo as [_ [Hq _]%Forall_cons].
  apply StronglySorted_app in Ht as [Ht _].
  apply (ranked_between p q r); [apply Hq|done|by apply Ht; [|left]|apply Hq].
Qed.

Lemma scan_to lo h mid rest :
  Forall sorts_before lo → sorted_table lo → Forall sorts_behind (h :: mid) →
  ∃ first',
    add_scan l this rank 0 (mark None lo ++ mark (last lo) (h :: mid) ++ rest) None None kScopeNone =
    add_scan l this rank (length (lo ++ h :: mid)) rest first' (Some (length lo)) (scope_for lo (h :: mid)).
Proof.
  intros Hlo Ht [(Hx & Hr & Hk) Hmid]%Forall_cons.
  destruct (scan_before lo 0 None (mark (last lo) (h :: mid) ++ rest) false None kScopeNone Hlo)
    as (first & scope & -> & Hseen); [done|]. fold (meets lo) in Hseen. cbn [orb Nat.add] in Hseen |- *.
  assert (length (lo ++ h :: mid) = (S (length lo) + length mid)%nat) as ->
    by (rewrite length_app; cbn; lia).
  cbn [mark app]. destruct (mark1_raise (last lo) h) as [f Ef]. rewrite Ef. cbn [add_scan].
  destruct (RouteCompare_plain h f Hx) as [c Hr' _ Hc|c _ _ Hc|K]; [| |done].
  { by destruct (ranked_asym h r stored_ok). }
  rewrite (proj2 (Z.ltb_lt c 0)) by done. cbv iota.
  match goal with |- context [add_scan _ _ _ _ _ ?fi (Some _) ?sc] =>
    destruct (scan_behind mid (S (length lo)) (Some h) rest fi (length lo) sc Hmid) as (first' & ->);
    assert (sc = scope_for lo (h :: mid)) as -> end; [|eauto].
  unfold scope_for. rewrite (meets_last lo Hlo Ht) in *. rewrite <-Ef. unfold mark1.
  case_bool_decide as G; cbn [andb].
  - destruct (last lo) as [q|].
    + case_bool_decide as Gq; cbn in Hseen.
      * rewrite decide_True by by rewrite Gq. destruct Hseen as [[g ->] ->].
        rewrite scoped_scoped. by destruct (is_scoped g).
      * rewrite decide_False by by rewrite G. destruct Hseen as [-> ->]. by destruct (is_scoped h).
    + destruct Hseen as [-> ->]. by destruct (is_scoped h).
  - destruct (match last lo with Some q => _ | None => _ end); by destruct Hseen as [_ ->].
Qed.

Lemma inserted_mark lo hi :
  Forall sorts_before lo → sorted_table lo →
  match hi with
  | [] => True
  | h :: _ => sorts_behind h ∧ (same_group h r → is_scoped h = false → never_flags rank = 0)
  end →
  inserted (mark None lo) (mark (last lo) hi) r (scope_for lo hi) (never_flags rank) =
  mark None (lo ++ stored this rank :: hi).
Proof.
  intros Hlo Ht Hhi. rewrite mark_app. cbn [mark].
  assert (prev_of None lo = last lo) as -> by (unfold prev_of; by destruct (last lo)).
  assert (same_group (stored this rank) r) as Gr by apply raise_group.
  unfold scope_for. rewrite (meets_last lo Hlo Ht).
  destruct (match last lo with Some q => _ | None => _ end) eqn:M.
  { destruct (last lo) as [q|]; [|done]. apply bool_decide_eq_true in M. cbn [inserted mark1].
    rewrite decide_True by by rewrite Gr. unfold scoped, stored. rewrite raise_raise. do 2 f_equal.
    apply mark_same. by rewrite Gr. }
  assert (mark1 (last lo) (stored this rank) = stored this rank) as ->.
  { destruct (last lo) as [q|]; cbn; [|done]. apply bool_decide_eq_false in M.
    by rewrite decide_False by by rewrite Gr. }
  destruct hi as [|h hi]; [done|]. destruct Hhi as [(Hx & Hr & Hk) Hnv]. cbn [mark].
  assert (mark1 (last lo) h = h) as ->.
  { unfold mark1. destruct (last lo) as [q|] eqn:E; [|done]. apply bool_decide_eq_false in M.
    apply decide_False. intros G. apply last_Some in E as [lo' ->].
    apply Forall_app in Hlo as [_ [(_ & Hq & _) _]%Forall_cons]. destruct M. rewrite G. symmetry.
    apply (ranked_between q r h stored_ok G Hq Hr). }
  unfold mark1. case_bool_decide as G; cbn [andb].
  - rewrite decide_True by by rewrite G, Gr. destruct (is_scoped h) eqn:S; cbn [negb inserted].
    + by rewrite scoped_id.
    + unfold stored. by rewrite (Hnv G eq_refl).
  - rewrite decide_False; [done|]. intros G'. destruct G. by rewrite <-G', Gr.
Qed.
End scan.

(** ** Tables *)

Lemma never_flags_spec rank : 0 ≤ rank < 2 ^ 26 →
  never_flags rank = if 3 * 2 ^ 24 <=? rank then kRouteFlagsIsScoped else 0.
Proof.
  intros Hr. unfold never_flags, RANK_ASSERTION_MASK.
  change (RANK_ASSERTION_MAKE 255) with (Z.shiftl (Z.ones 8) 24).
  change kRankAssertionNever with (3 * 2 ^ 24).
  assert (Z.land rank (Z.shiftl (Z.ones 8) 24) = rank / 2 ^ 24 * 2 ^ 24) as ->.
  { rewrite <-Z.shiftl_mul_pow2, <-Z.shiftr_div_pow2 by lia.
    apply Z.bits_inj'. intros n Hn. rewrite Z.land_spec, !Z.shiftl_spec by done.
    destruct (Z.ltb_spec n 24).
    - rewrite !(Z.testbit_neg_r _ (n - 24)) by lia. by rewrite andb_false_r.
    - rewrite Z.shiftr_spec by lia. replace (n - 24 + 24) with n by lia.
      rewrite Z.testbit_ones by lia. rewrite (proj2 (Z.leb_le 0 (n - 24))) by lia. cbn [andb].
      destruct (Z.ltb_spec (n - 24) 8); [by rewrite andb_true_r|]. rewrite andb_false_r.
      symmetry. apply Z.bits_above_log2; [lia|].
      destruct (Z.eq_dec rank 0) as [->|]; [cbn; lia|].
      assert (Z.log2 rank < 26) by (apply Z.log2_lt_pow2; lia). lia. }
  assert (0 ≤ rank / 2 ^ 24 < 4) by (split; [apply Z.div_pos; lia|apply Z.div_lt_upper_bound; lia]).
  pose proof (Z.div_mod rank (2 ^ 24) ltac:(lia)). pose proof (Z.mod_pos_bound rank (2 ^ 24) ltac:(lia)).
  destruct (Z.leb_spec (3 * 2 ^ 24) rank) as [Hle|Hlt].
  - rewrite (proj2 (Z.eqb_eq _ _)); [done|]. lia.
  - rewrite (proj2 (Z.eqb_neq _ _)); [done|]. lia.
Qed.

Lemma never_flags_mono a b :
  0 ≤ a ≤ b → b < 2 ^ 26 → never_flags b = 0 → never_flags a = 0.
Proof.
  intros Ha Hb. rewrite !never_flags_spec by lia.
  destruct (Z.leb_spec (3 * 2 ^ 24) b); [done|].
  rewrite (proj2 (Z.leb_gt _ _)); [done|lia].
Qed.

Lemma insert_ranked_at r lo hi :
  Forall (λ x, ¬ ranked r x) lo → match hi with [] => True | h :: _ => ranked r h end →
  insert_ranked r (lo ++ hi) = lo ++ r :: hi.
Proof.
  intros Hlo Hhi. induction Hlo as [|x lo Hx Hlo IH]; cbn.
  - destruct hi as [|h hi]; cbn; [done|]. by rewrite decide_True.
  - rewrite decide_False by done. by rewrite IH.
Qed.

Lemma sorted_table_app lo hi : sorted_table (lo ++ hi) → sorted_table lo ∧ sorted_table hi.
Proof. intros (? & ? & ?)%StronglySorted_app. done. Qed.

(** Where a route belongs in a table. *)
Inductive found r s : Prop :=
| found_none lo hi : s = lo ++ hi → Forall (λ x, ranked x r ∧ ¬ same_key x r) lo →
    Forall (λ x, ranked r x ∧ ¬ same_key x r) hi → found r s
| found_here lo k hi : s = lo ++ k :: hi → Forall (λ x, ranked x r ∧ ¬ same_key x r) lo →
    same_key k r → Forall (λ x, ranked k x ∧ ¬ same_key x r) hi → found r s
| found_behind lo h mid k hi : s = lo ++ h :: mid ++ k :: hi →
    Forall (λ x, ranked x r ∧ ¬ same_key x r) lo →
    Forall (λ x, ranked r x ∧ ¬ same_key x r) (h :: mid ++ hi) →
    same_key k r → r_rank r < r_rank k → same_group h k → found r s.

Lemma sorted_table_found r s : route_ok r → Forall route_ok s → sorted_table s → found r s.
Proof.
  intros Hr Hok Ht. induction s as [|x s IH]; [by apply (found_none r [] [] [])|].
  apply Forall_cons in Hok as [Hx Hok]. apply StronglySorted_cons in Ht as [Hxs Ht].
  destruct (ranked_cases x r Hx Hr) as [[Hlt Nk]|[K|[Hgt Nk]]].
  - destruct (IH Hok Ht) as [lo hi -> Hlo Hhi|lo k hi -> Hlo K Hhi|lo h mid k hi -> Hlo Hhi K Hk G].
    + by apply (found_none r _ (x :: lo) hi); [|constructor|].
    + by apply (found_here r _ (x :: lo) k hi); [|constructor|..].
    + by apply (found_behind r _ (x :: lo) h mid k hi); [|constructor|..].
  - apply (found_here r _ [] x s); [done|done|done|].
    eapply Forall_impl; [apply Hxs|]. intros y [? Ny]. split; [done|]. intros Ky. destruct Ny.
    by rewrite K, Ky.
  - assert (Forall (λ y, ranked r y) s) as Hs.
    { eapply Forall_impl; [apply Hxs|]. intros y [? _]. by apply (ranked_trans r x y). }
    destruct (decide (Exists (λ y, same_key y r) s)) as [He|Hn].
    + apply Exists_exists in He as (k & Hk & K). apply list_elem_of_split in Hk as (mid & hi & ->).
      apply Forall_app in Hs as Hs'. destruct Hs' as [Hmid [Hrk Hhi]%Forall_cons].
      destruct (proj1 (StronglySorted_app _ _ _) Ht) as (Hmk & _ & [Hkh _]%StronglySorted_cons).
      apply (found_behind r _ [] x mid k hi); [done|done| |done| |].
      * constructor; [done|]. apply Forall_app. rewrite !Forall_forall in *. split; intros y Hy.
        -- split; [by apply Hmid|]. intros Ky. destruct (Hmk y k Hy ltac:(by left)) as [_ []].
           by rewrite Ky, K.
        -- split; [by apply Hhi|]. intros Ky. destruct (Hkh y Hy) as [_ []]. by rewrite Ky, K.
      * destruct Hrk as [?|[_ ?]]; [by destruct (group_lt_irrefl r k); [symmetry; apply K|]|].
        destruct K as [_ K]. unfold rank_lt in *. lia.
      * apply Forall_app in Hxs as [_ [[Hxk _] _]%Forall_cons].
        apply (ranked_between r x k); [done|symmetry; apply K|done..].
    + apply (found_none r _ [] (x :: s)); [done|done|]. constructor; [done|].
      rewrite Forall_forall in Hs |- *. intros y Hy. split; [by apply Hs|]. intros Ky.
      apply Hn, Exists_exists. eauto.
Qed.

Lemma better_insert_found r s : route_ok r → Forall route_ok s →
  (∀ lo hi, s = lo ++ hi → Forall (λ x, ranked x r ∧ ¬ same_key x r) lo →
     Forall (λ x, ranked r x ∧ ¬ same_key x r) hi → better_insert r s = lo ++ r :: hi) ∧
  (∀ lo k hi, s = lo ++ k :: hi → Forall (λ x, ranked x r ∧ ¬ same_key x r) lo → same_key k r →
     Forall (λ x, ranked k x ∧ ¬ same_key x r) hi →
     better_insert r s = if r_rank r <? r_rank k then lo ++ r :: hi else s) ∧
  (∀ lo h mid k hi, s = lo ++ h :: mid ++ k :: hi →
     Forall (λ x, ranked x r ∧ ¬ same_key x r) lo →
     Forall (λ x, ranked r x ∧ ¬ same_key x r) (h :: mid ++ hi) →
     same_key k r → r_rank r < r_rank k →
     better_insert r s = lo ++ r :: h :: mid ++ hi).
Proof.
  intros Hr Hok.
  assert (∀ t, Forall (λ x, ¬ same_key x r) t → filter (λ x, ¬ same_key x r) t = t) as Hfilter.
  { intros t Ht. induction Ht as [|x t Hx Ht IH]; [done|]. rewrite filter_cons_True by done. by rewrite IH. }
  assert (∀ lo, Forall route_ok lo → Forall (λ x, ranked x r ∧ ¬ same_key x r) lo →
    Forall (λ x, ¬ ranked r x) lo) as Hnot.
  { intros lo _ Hlo. eapply Forall_impl; [apply Hlo|]. intros x [Hx _]. by apply ranked_asym in Hx. }
  assert (∀ (P : Route A → Prop) t, Forall (λ x, P x ∧ ¬ same_key x r) t →
    Forall (λ x, ¬ same_key x r) t ∧ Forall P t) as Hsplit.
  { intros P t Ht. rewrite !Forall_forall in *. split; intros x Hx; by apply Ht. }
  split_and!.
  - intros lo hi -> Hlo Hhi. apply Forall_app in Hok as [Hoklo _].
    pose proof (Hsplit _ _ Hlo) as [Nlo _]. pose proof (Hsplit _ _ Hhi) as [Nhi Rhi].
    unfold better_insert. rewrite decide_False.
    2:{ rewrite Exists_app, !Exists_exists. rewrite !Forall_forall in *. naive_solver. }
    rewrite filter_app, !Hfilter by done. apply insert_ranked_at; [by apply Hnot|].
    destruct Rhi; done.
  - intros lo k hi -> Hlo K Hhi. apply Forall_app in Hok as [Hoklo [Hk _]%Forall_cons].
    pose proof (Hsplit _ _ Hlo) as [Nlo _]. pose proof (Hsplit _ _ Hhi) as [Nhi Rhi].
    unfold better_insert. destruct (Z.ltb_spec (r_rank r) (r_rank k)) as [Hlt|Hge].
    + rewrite decide_False.
      2:{ rewrite Exists_app, Exists_cons, !Exists_exists. rewrite !Forall_forall in *.
          intros [?|[[_ ?]|?]]; [naive_solver|lia|naive_solver]. }
      rewrite filter_app, filter_cons_False, !Hfilter by tauto. apply insert_ranked_at; [by apply Hnot|].
      destruct Rhi as [|x hi Hx Rhi]; [done|].
      apply (ranked_trans r k x); [done| |done]. right. split; [symmetry; apply K|]. by left.
    + rewrite decide_True; [done|]. apply Exists_app. right. by left.
  - intros lo h mid k hi -> Hlo Hhi K Hlt. apply Forall_app in Hok as [Hoklo _].
    pose proof (Hsplit _ _ Hlo) as [Nlo _]. pose proof (Hsplit _ _ Hhi) as [Nhi Rhi].
    apply Forall_cons in Nhi as [Nh [Nmid Nhi]%Forall_app].
    unfold better_insert. rewrite decide_False.
    2:{ rewrite Exists_app, Exists_cons, Exists_app, Exists_cons, !Exists_exists.
        rewrite !Forall_forall in *. intros [?|[?|[?|[[_ ?]|?]]]]; [naive_solver..|lia|naive_solver]. }
    rewrite filter_app, filter_cons_True, filter_app, filter_cons_False, !Hfilter by tauto.
    apply insert_ranked_at; [by apply Hnot|]. by apply Forall_cons in Rhi as [? _].
Qed.

(** ** [RouteListAddRoute] on a table *)

Lemma entry_alike this rank x :
  (ranked x (stored this rank) ↔ ranked x (with_rank rank this)) ∧
  (ranked (stored this rank) x ↔ ranked (with_rank rank this) x) ∧
  (same_key x (stored this rank) ↔ same_key x (with_rank rank this)).
Proof. unfold stored, raise. by case_match. Qed.

Lemma replaced_mark this rank prev k :
  r_exclude_ifindex this = 0 → r_ifindex k ≠ 0 → same_key k (with_rank rank this) →
  never_flags rank = 0 ∨ is_scoped k = true →
  (is_scoped k = true → is_scoped (stored this rank) = true) →
  replaced_route this rank (mark1 prev k) = mark1 prev (stored this rank).
Proof.
  intros Hex Hif [G I] Hnv Hsc. cbn in I.
  assert (∀ f, replaced_route this rank (raise f k) =
    if is_scoped (raise f k) then scoped (with_rank rank this) else with_rank rank this) as E.
  { intros f. unfold replaced_route. rewrite raise_ifindex, (proj2 (Z.eqb_neq _ _) Hif), I. cbn [negb].
    assert (with_if (r_ifindex this) 0 (with_rank rank this) = with_rank rank this) as ->
      by (rewrite <-Hex; done). done. }
  assert (scoped (stored this rank) = scoped (with_rank rank this)) as Es.
  { unfold scoped, stored. rewrite raise_raise. unfold never_flags. by case_match. }
  assert (same_group (stored this rank) k) as Ge by (rewrite G; apply raise_group).
  unfold mark1. destruct prev as [q|].
  - destruct (decide (same_group q k)) as [Gq|Gq]; rewrite <-Ge in Gq.
    + rewrite decide_True by done. unfold scoped at 1. rewrite E, raise_scoped, orb_true_r. done.
    + rewrite decide_False by done. pose proof (E 0) as E0. change (raise 0 k) with k in E0. rewrite E0.
      destruct (is_scoped k).
      * by rewrite <-Es, scoped_id by auto.
      * destruct Hnv as [Hnv|]; [|done]. unfold stored. by rewrite Hnv.
  - pose proof (E 0) as E0. change (raise 0 k) with k in E0. rewrite E0.
    destruct (is_scoped k).
    + by rewrite <-Es, scoped_id by auto.
    + destruct Hnv as [Hnv|]; [|done]. unfold stored. by rewrite Hnv.
Qed.

Lemma scan_key l this rank n k f rest first where_ scope :
  route_ok this → r_ifindex this ≠ 0 → 0 ≤ rank < 2 ^ 32 → scannable k → same_key k (with_rank rank this) →
  r_exclude_ifindex this = 0 → r_exclude_ifindex k = 0 →
  add_scan l this rank n (raise f k :: rest) first where_ scope =
  match where_ with
  | Some w => AddAt (delete n l) where_ scope
  | None => if rank <? r_rank k then GotoDone (<[n := replaced_route this rank (raise f k)]> l)
            else GotoDone l
  end.
Proof.
  intros Hthis Hif Hrank Hk K Hex Hexk. cbn [add_scan].
  destruct (RouteCompare_plain this rank Hthis Hif Hrank k f Hk) as [c _ N|c _ N|_]; [done..|].
  cbn [Z.ltb Z.eqb Z.compare]. rewrite raise_ifindex, raise_exclude, raise_rank, Hex, Hexk.
  assert (r_ifindex k =? r_ifindex this = true) as -> by by apply Z.eqb_eq, K.
  cbn [Z.eqb andb negb orb].
  by destruct where_.
Qed.

Lemma mark_delete lo h mid k hi prev :
  same_group h k → sorted_table (h :: mid ++ k :: hi) → Forall route_ok (h :: mid ++ k :: hi) →
  mark prev (lo ++ h :: mid ++ hi) =
  delete (length (lo ++ h :: mid)) (mark prev (lo ++ h :: mid ++ k :: hi)).
Proof.
  intros G Ht Hok.
  assert (lo ++ h :: mid ++ hi = (lo ++ h :: mid) ++ hi) as -> by by rewrite <-app_assoc.
  assert (lo ++ h :: mid ++ k :: hi = (lo ++ h :: mid) ++ k :: hi) as -> by by rewrite <-app_assoc.
  rewrite !(mark_app prev (lo ++ h :: mid)). cbn [mark]. rewrite <-(length_mark prev (lo ++ h :: mid)), delete_middle. f_equal.
  unfold prev_of. rewrite last_app, last_cons. apply Forall_cons in Hok as [Hh [Hmid _]%Forall_app].
  destruct (last mid) as [q|] eqn:E; [|by apply mark_same].
  apply last_Some in E as [mid' ->]. apply mark_same.
  apply StronglySorted_cons in Ht as [Hhm Ht].
  destruct (proj1 (StronglySorted_app _ _ _) Ht) as (Hmk & _ & _).
  rewrite Forall_forall in Hhm, Hmid.
  apply (ranked_between h q k); [apply Hmid; set_solver|done| |].
  - apply Hhm. set_solver.
  - apply (Hmk q k); set_solver.
Qed.

Lemma mark_split lo hi : mark None (lo ++ hi) = mark None lo ++ mark (last lo) hi.
Proof. rewrite mark_app. unfold prev_of. by destruct (last lo). Qed.

Section add.
Variables (this : Route A) (rank : Z).
Let e := stored this rank.
Context (Hthis : route_ok this) (He : plain e) (Hex : r_exclude_ifindex this = 0).

Lemma entry_rank : r_rank e = rank.
Proof. unfold e, stored. by rewrite raise_rank. Qed.
Lemma entry_range : 0 ≤ rank < 2 ^ 26.
Proof. rewrite <-entry_rank. split; [apply (ok_rank _ (plain_ok _ He))|apply (plain_rank _ He)]. Qed.
Lemma entry_range32 : 0 ≤ rank < 2 ^ 32.
Proof. pose proof entry_range. lia. Qed.
Lemma entry_ifindex : r_ifindex this ≠ 0.
Proof. pose proof (plain_ifindex _ He) as H. unfold e, stored in H. by rewrite raise_ifindex in H. Qed.

Lemma before_entry lo : Forall plain lo → Forall (λ x, ranked x e ∧ ¬ same_key x e) lo →
  Forall (sorts_before this rank) lo.
Proof.
  rewrite !Forall_forall. intros Hp Hr x Hx. destruct (Hp x Hx), (Hr x Hx) as [R K].
  destruct (entry_alike this rank x) as (A1 & _ & A3). split; [done|]. by rewrite <-A1, <-A3.
Qed.

Lemma behind_entry lo : Forall plain lo → Forall (λ x, ranked e x ∧ ¬ same_key x e) lo →
  Forall (sorts_behind this rank) lo.
Proof.
  rewrite !Forall_forall. intros Hp Hr x Hx. destruct (Hp x Hx), (Hr x Hx) as [R K].
  destruct (entry_alike this rank x) as (_ & A2 & A3). split; [done|]. by rewrite <-A2, <-A3.
Qed.

Lemma unscoped_not_never h :
  plain h → sorts_behind this rank h → same_group h (with_rank rank this) → is_scoped h = false →
  never_flags rank = 0.
Proof.
  intros Hh (_ & Hr & _) G S. destruct Hr as [Hlt|[_ Hr]]; [by destruct (group_lt_irrefl (with_rank rank this) h)|].
  pose proof entry_range. apply (never_flags_mono rank (r_rank h)).
  - unfold rank_lt in Hr. cbn in Hr. lia.
  - apply Hh.
  - destruct (Z.eq_dec (never_flags (r_rank h)) 0) as [|N]; [done|].
    rewrite (plain_never _ Hh N) in S. done.
Qed.

Lemma scan_between l lo hi rest :
  l = mark None lo ++ mark (last lo) hi ++ rest → Forall plain (lo ++ hi) → sorted_table lo →
  Forall (λ x, ranked x e ∧ ¬ same_key x e) lo → Forall (λ x, ranked e x ∧ ¬ same_key x e) hi →
  ∃ first', add_scan l this rank 0 l None None kScopeNone =
    add_scan l this rank (length (lo ++ hi)) rest first' (place lo hi) (scope_for this rank lo hi).
Proof.
  intros E [Hplo Hphi]%Forall_app Ht Hlo%before_entry Hhi%behind_entry; [|done..].
  destruct hi as [|h hi].
  - destruct (scan_before l this rank Hthis entry_ifindex entry_range32 lo 0 None rest false None
      kScopeNone Hlo) as (first & scope & Es & Hseen); [done|].
    exists first. cbn [place]. rewrite app_nil_r. rewrite E at 2. cbn [mark app]. rewrite Es. cbn [Nat.add].
    f_equal. unfold scope_for. fold (meets this rank lo) in Hseen. cbn [orb] in Hseen.
    destruct (meets this rank lo); by destruct Hseen.
  - destruct (scan_to l this rank Hthis entry_ifindex entry_range32 lo h hi rest Hlo Ht Hhi) as (first & Es).
    exists first. rewrite E at 2. exact Es.
Qed.

(** What [add_scan] makes of a marked table. *)
Lemma add_scan_table s :
  let l := mark None s in
  sorted_table s → Forall plain s →
  Forall (λ x, same_key x e → is_scoped x = true → is_scoped e = true) s →
  match add_scan l this rank 0 l None None kScopeNone with
  | GotoDone l' => l' = mark None (better_insert e s)
  | AddAt l' w scope => ∃ lo hi, l' = lo ++ hi ∧ w = place lo hi ∧
      inserted lo hi (with_rank rank this) scope (never_flags rank) = mark None (better_insert e s)
  end.
Proof.
  intros l Ht Hs Hcons. assert (Forall route_ok s) as Hoks by (eapply Forall_impl; [apply Hs|]; by intros ? []).
  pose proof (plain_ok _ He) as Hoke.
  assert (∀ lo hi, place (mark None lo) (mark (last lo) hi) = place lo hi) as Hplace.
  { intros lo [|h hi]; cbn; [done|]. by rewrite length_mark. }
  destruct (better_insert_found e s Hoke Hoks) as (B1 & B2 & B3).
  destruct (sorted_table_found e s Hoke Hoks Ht) as [lo hi E Hlo Hhi|lo k hi E Hlo K Hhi|lo h mid k hi E Hlo Hhi K Hlt G].
  - rewrite (B1 _ _ E Hlo Hhi). subst s. destruct (sorted_table_app _ _ Ht) as [Htlo _].
    destruct (scan_between l lo hi []) as (first & ->); [by rewrite app_nil_r; apply mark_split|done..|].
    cbn [add_scan]. exists (mark None lo), (mark (last lo) hi).
    split_and!; [apply mark_split|by rewrite Hplace|].
    apply Forall_app in Hs as [Hslo Hshi].
    apply inserted_mark; [done|apply entry_range32|by apply before_entry|done|].
    destruct hi as [|h hi]; [done|]. apply behind_entry in Hhi; [|done].
    apply Forall_cons in Hhi as [Hh _]. apply Forall_cons in Hshi as [Hsh _].
    split; [done|]. by apply unscoped_not_never.
  - rewrite (B2 _ _ _ E Hlo K Hhi). subst s. destruct (sorted_table_app _ _ Ht) as [Htlo _].
    apply Forall_app in Hs as [Hslo [Hk Hshi]%Forall_cons].
    apply Forall_app in Hcons as [_ [Hck _]%Forall_cons].
    destruct (scan_between l lo [] (mark (last lo) (k :: hi))) as (first & ->);
      [apply mark_split|by rewrite app_nil_r|done..|].
    cbn [mark place]. rewrite app_nil_r. destruct (mark1_raise (last lo) k) as [f Ef]. rewrite Ef.
    destruct (entry_alike this rank k) as (_ & _ & A3).
    rewrite (scan_key l this rank (length lo) k f _ _ _ _ Hthis entry_ifindex entry_range32
      (conj (plain_ok _ Hk) (plain_ifindex _ Hk)) (proj1 A3 K) Hex (plain_exclude _ Hk)).
    rewrite entry_rank. destruct (Z.ltb_spec rank (r_rank k)) as [Hlt|]; [|done].
    unfold l. rewrite !mark_split. cbn [mark]. rewrite <-(length_mark None lo), list_insert_middle. f_equal.
    rewrite <-Ef. rewrite (replaced_mark this rank (last lo) k);
      [|done|apply Hk|by apply A3| |by apply Hck].
    + f_equal. apply mark_same, K.
    + destruct (Z.eq_dec (never_flags (r_rank k)) 0) as [N|N]; [left|right; by apply Hk].
      apply (never_flags_mono rank (r_rank k)); [pose proof entry_range; lia|apply Hk|done].
  - rewrite (B3 _ _ _ _ _ E Hlo Hhi K Hlt). subst s. destruct (sorted_table_app _ _ Ht) as [Htlo Hthi].
    apply Forall_app in Hs as [Hslo Hshi]. apply Forall_app in Hoks as [_ Hoks].
    pose proof Hshi as [Hsh [Hsmid [Hk Hshi']%Forall_cons]%Forall_app]%Forall_cons.
    pose proof Hhi as [Hh [Hmid Hhi']%Forall_app]%Forall_cons.
    destruct (scan_between l lo (h :: mid) (mark (prev_of (last lo) (h :: mid)) (k :: hi))) as (first & ->);
      [|apply Forall_app_2; [done|by constructor]|done|done|by constructor|].
    { unfold l. rewrite mark_split. f_equal. exact (mark_app (last lo) (h :: mid) (k :: hi)). }
    cbn [mark]. destruct (mark1_raise (prev_of (last lo) (h :: mid)) k) as [f ->].
    destruct (entry_alike this rank k) as (_ & _ & A3).
    rewrite (scan_key l this rank (length (lo ++ h :: mid)) k f _ _ _ _ Hthis entry_ifindex entry_range32
      (conj (plain_ok _ Hk) (plain_ifindex _ Hk)) (proj1 A3 K) Hex (plain_exclude _ Hk)).
    cbn [place]. exists (mark None lo), (mark (last lo) (h :: mid ++ hi)).
    split_and!; [|by rewrite Hplace|].
    + unfold l. rewrite <-(mark_delete lo h mid k hi None G Hthi Hoks). apply mark_split.
    + change (scope_for this rank lo (h :: mid)) with (scope_for this rank lo (h :: mid ++ hi)).
      apply inserted_mark; [done|apply entry_range32|by apply before_entry|done|].
      assert (Forall (sorts_behind this rank) [h]) as [Hbh _]%Forall_cons
        by (apply behind_entry; by constructor).
      split; [done|]. by apply unscoped_not_never.
Qed.
End add.
End elect.
