(* ===== verification/RouteElection.v ===== *)
(** * IPMonitor: electing the primary service (configd/src/Plugins/IPMonitor/ip_plugin.c)

    Every service with routes and an interface becomes a candidate
    ([elect_ip]); the candidates are sorted by rank, the best one that may
    becomes primary, and the routes of all of them make up the routing table
    ([ElectionResultsGetPrimary]).

    Of a candidate the fields that matter to the election are modelled; the
    address, the reachability flags and the signature, which only travel to the
    nwi state, are left out. Interface names are ASCII. *)

From S2P Require Import Prelude RouteTypes RouteList.

Local Open Scope Z_scope.

Record Candidate := MkCandidate {
  cd_serviceID : string;
  cd_if_name : string;
  cd_rank : Z;
  cd_ip_is_coupled : bool;
  cd_ineligible : bool;
}.

(** The first [count] of the [size] slots. *)
Record ElectionResults := MkResults { er_size : Z; er_candidates : list Candidate }.

Definition er_count (r : ElectionResults) : Z := Z.of_nat (length (er_candidates r)).

(** Behind the candidates that rank no worse, in front of the first that does. *)
Fixpoint insert_candidate (candidate : Candidate) (l : list Candidate) : list Candidate :=
  match l with
  | [] => [candidate]
  | this_candidate :: l =>
      if cd_rank candidate <? cd_rank this_candidate then candidate :: this_candidate :: l
      else this_candidate :: insert_candidate candidate l
  end.
Definition ElectionResultsAddCandidate (results : ElectionResults) (candidate : Candidate)
    : ElectionResults :=
  if er_count results =? er_size results then results
  else MkResults (er_size results) (insert_candidate candidate (er_candidates results)).

Definition ElectionResultsCandidateNeedsDemotion (other_candidate : option Candidate)
    (candidate : Candidate) : bool :=
  match other_candidate with
  | None => false
  | Some other =>
      if cd_ineligible other then false
      else if RANK_ASSERTION_MASK (cd_rank other) =? kRankAssertionNever then false
      else if negb (cd_ip_is_coupled candidate) && negb (cd_ip_is_coupled other) then false
      else if String.eqb (cd_if_name other) (cd_if_name candidate) then false
      else if String.prefix "stf" (cd_if_name other) then false
      else if cd_rank candidate <? cd_rank other then false
      else if cd_ip_is_coupled candidate then
        negb (cd_ip_is_coupled other && (cd_rank candidate =? cd_rank other))
      else if cd_ip_is_coupled other then negb (cd_rank candidate =? cd_rank other)
      else false
  end.

(** An entry of the nwi state: the candidate, NWI_IFSTATE_FLAGS_NOT_IN_LIST and
    NWI_IFSTATE_FLAGS_NOT_IN_IFLIST. *)
Record nwi_entry := MkNwi { ni_candidate : Candidate; ni_not_in_list : bool; ni_not_in_iflist : bool }.

Definition add_candidate_to_nwi_state (nwi : list nwi_entry) (candidate : Candidate)
    (not_in_list not_in_iflist : bool) : list nwi_entry :=
  nwi ++ [MkNwi candidate
            (not_in_list || (RANK_ASSERTION_MASK (cd_rank candidate) =? kRankAssertionNever))
            not_in_iflist].

Section election.
Context {A : Type} `{!RouteListInfo A}.

(** What the service dictionary says of a service: the list of routes in its IPv4
    (or IPv6) dictionary, the interface of that service, the ServiceIndex of its
    rank entity, and whether it asks for coupled protocols. *)
Record Service := MkService {
  sv_serviceID : string;
  sv_routelist : option (RouteList A);
  sv_if_name : option string;
  sv_service_index : option Z;
  sv_ip_is_coupled : bool;
}.

Definition kRankIndexMask : Z := 0xffffff.

(** [order] is the service order, entries that are no string are [None].
    [n_order] is only set when there is an order: [unset] is what it holds
    otherwise. *)
Fixpoint order_index (serviceID : string) (i : Z) (order : list (option string)) : Z :=
  match order with
  | [] => kRankIndexMask
  | Some s :: order => if String.eqb serviceID s then i + 1 else order_index serviceID (i + 1) order
  | None :: order => order_index serviceID (i + 1) order
  end.
Definition get_service_index (service_index : option Z) (order : option (list (option string)))
    (unset : Z) (serviceID : string) : Z :=
  match service_index with
  | Some rank => u32 (rank + match order with Some l => Z.of_nat (length l) | None => unset end)
  | None => match order with Some l => order_index serviceID 0 l | None => kRankIndexMask end
  end.

Definition is_ppp (if_name : string) : bool :=
  (String.length if_name <? 16)%nat && String.prefix "ppp" if_name.

Record election := MkElection {
  el_results : ElectionResults;
  el_rank_dict : gmap string Z;
}.

(** Reading the first route of a list without routes is a crash. *)
Definition elect_ip (S_ppp_override_primary : bool) (order : option (list (option string)))
    (unset : Z) (el : election) (service : Service) : option election :=
  match sv_routelist service, sv_if_name service with
  | Some routelist, Some if_name =>
      if String.eqb if_name "lo0" then Some el
      else
        match rl_list routelist with
        | [] => None
        | first :: _ =>
            let index := get_service_index (sv_service_index service) order unset (sv_serviceID service) in
            let primary_rank := RANK_ASSERTION_MASK (r_rank first) in
            let primary_rank := if S_ppp_override_primary && is_ppp if_name
                                then kRankAssertionFirst else primary_rank in
            let candidate := MkCandidate (sv_serviceID service) if_name (RankMake index primary_rank)
                               (sv_ip_is_coupled service)
                               (negb (has (rl_flags routelist) kRouteListFlagsHasDefault)) in
            Some (MkElection (ElectionResultsAddCandidate (el_results el) candidate)
                    (<[sv_serviceID service := cd_rank candidate]> (el_rank_dict el)))
        end
  | _, _ => Some el
  end.

Fixpoint elect_all (S_ppp_override_primary : bool) (order : option (list (option string)))
    (unset : Z) (services : list Service) (el : election) : option election :=
  match services with
  | [] => Some el
  | service :: services =>
      match elect_ip S_ppp_override_primary order unset el service with
      | None => None
      | Some el => elect_all S_ppp_override_primary order unset services el
      end
  end.

(** [services] are the entries of S_service_state_dict in the order
    CFDictionaryApplyFunction visits them. The results are NULL when there is no
    candidate. *)
Definition ElectionResultsCopy (S_ppp_override_primary : bool) (order : option (list (option string)))
    (unset : Z) (services : list Service) (rank_dict : gmap string Z)
    : option (option ElectionResults * gmap string Z) :=
  match services with
  | [] => Some (None, rank_dict)
  | _ =>
      match elect_all S_ppp_override_primary order unset services
              (MkElection (MkResults (Z.of_nat (length services)) []) rank_dict) with
      | None => None
      | Some el => Some (if er_count (el_results el) =? 0 then None else Some (el_results el),
                         el_rank_dict el)
      end
  end.

(** ** The primary service *)

Context `{Hheap : !Heap}.
(** The routes [service_dict_get] and [ipdict_get_routelist] find for a service,
    and IPV4_ROUTES_N_STATIC or IPV6_ROUTES_N_STATIC. *)
Variable routelist_of : string → option (RouteList A).
Variable routes_n_static : Z.
Variable other_candidate : option Candidate.

Record primary_state := MkPrimary {
  ps_primary : option Candidate;
  ps_primary_is_null : bool;
  ps_routes : option (RouteList A);
  ps_deferred : list Candidate;
  ps_nwi : list nwi_entry;
}.

(** The body of the loop over the candidates. *)
Definition consider (initial_size : Z) (st : primary_state) (scan : Candidate) : option primary_state :=
  let may := negb (cd_ineligible scan) &&
             (if ps_primary st then false else true) &&
             negb (RANK_ASSERTION_MASK (cd_rank scan) =? kRankAssertionNever) in
  let demote := may && ElectionResultsCandidateNeedsDemotion other_candidate scan in
  let is_primary := may && negb demote in
  let primary := if is_primary then Some scan else ps_primary st in
  let deferred := if demote then ps_deferred st ++ [scan] else ps_deferred st in
  (* contribute to the routing table *)
  match routelist_of (cd_serviceID scan) with
  | Some service_routes =>
      (* routes are RankNever to prevent becoming primary *)
      let rank := if demote then RankMake (cd_rank scan) kRankAssertionNever else cd_rank scan in
      match RouteListAddRouteList (ps_routes st) initial_size service_routes rank with
      | None => None
      | Some routes =>
          let skip := demote || has (rl_flags service_routes) kRouteListFlagsExcludeNWI in
          let primary_is_null := ps_primary_is_null st || (skip && is_primary) in
          let nwi := if negb skip && negb (cd_ineligible scan)
                     then add_candidate_to_nwi_state (ps_nwi st) scan primary_is_null
                            (has (rl_flags service_routes) kRouteListFlagsScopedOnly)
                     else ps_nwi st in
          Some (MkPrimary primary primary_is_null routes deferred nwi)
      end
  | None =>
      Some (MkPrimary primary (ps_primary_is_null st || is_primary) (ps_routes st) deferred (ps_nwi st))
  end.

Fixpoint consider_all (initial_size : Z) (l : list Candidate) (st : primary_state) : option primary_state :=
  match l with
  | [] => Some st
  | scan :: l => match consider initial_size st scan with
                 | None => None
                 | Some st => consider_all initial_size l st
                 end
  end.

(** The primary candidate, the routing table and the additions to the nwi state. *)
Definition ElectionResultsGetPrimary (results : option ElectionResults) (nwi : list nwi_entry)
    : option (option Candidate * option (RouteList A) * list nwi_entry) :=
  match results with
  | None => Some (None, None, nwi)
  | Some results =>
      match consider_all (i32 (er_count results * routes_n_static)) (er_candidates results)
              (MkPrimary None false None [] nwi) with
      | None => None
      | Some st =>
          let nwi := foldl (λ nwi candidate, add_candidate_to_nwi_state nwi candidate true false)
                       (ps_nwi st) (ps_deferred st) in
          Some (if ps_primary_is_null st then None else ps_primary st, ps_routes st, nwi)
      end
  end.
End election.
Arguments Service A : clear implicits.
