(* ===== verification/RouteTable.v ===== *)
(** * IPMonitor: the table of the best routes

    A list that holds, for every destination and interface among the routes
    added, the route with the best rank ([best_of]), and that adding routes one by
    one yields it. *)

From stdpp Require Import sorting.
From S2P Require Import Prelude RouteTypes RouteList RouteInv RouteElect RouteElection.

Local Open Scope Z_scope.

Section table.
Context {A : Type} `{!RouteListInfo A}.
Implicit Types (r x y e this : Route A) (s rs : list (Route A)).

(** [s] holds the best of [rs], sorted. *)
Definition best_of rs s : Prop :=
  sorted_table s ∧ (∀ x, x ∈ s → x ∈ rs) ∧ ∀ y, y ∈ rs → ∃ x, x ∈ s ∧ same_key x y ∧ r_rank x ≤ r_rank y.

Lemma sorted_table_insert lo hi e :
  sorted_table (lo ++ hi) → Forall (λ x, ranked x e ∧ ¬ same_key x e) lo →
  Forall (λ x, ranked e x ∧ ¬ same_key x e) hi → sorted_table (lo ++ e :: hi).
Proof.
  intros (H1 & H2 & H3)%StronglySorted_app Hlo Hhi.
  apply StronglySorted_app. rewrite StronglySorted_cons. split_and!; [|done| |done].
  - intros x y Hx [->|Hy]%elem_of_cons; [|by apply H1]. rewrite Forall_forall in Hlo. by apply Hlo.
  - eapply Forall_impl; [apply Hhi|]. intros x [? N]. split; [done|]. by intros ?%symmetry.
Qed.

Lemma sorted_table_delete lo k hi : sorted_table (lo ++ k :: hi) → sorted_table (lo ++ hi).
Proof.
  intros (H1 & H2 & [_ H3]%StronglySorted_cons)%StronglySorted_app.
  apply StronglySorted_app. split_and!; [|done..]. intros x y Hx Hy. apply H1; [done|by right].
Qed.

Lemma sorted_table_key_unique s x y : sorted_table s → x ∈ s → y ∈ s → same_key x y → x = y.
Proof.
  intros Ht Hx Hy K. induction s as [|z s IH]; [by apply elem_of_nil in Hx|].
  apply StronglySorted_cons in Ht as [Hz Ht]. rewrite Forall_forall in Hz.
  apply elem_of_cons in Hx as [->|Hx], Hy as [->|Hy]; [done| | |by apply IH].
  - by destruct (Hz y Hy).
  - by destruct (Hz x Hx) as [_ []].
Qed.

(** What an insertion leaves. *)
Lemma better_insert_spec e s : route_ok e → Forall route_ok s → sorted_table s →
  sorted_table (better_insert e s) ∧
  (∀ x, x ∈ better_insert e s → x = e ∨ x ∈ s) ∧
  (∀ y, y = e ∨ y ∈ s → ∃ x, x ∈ better_insert e s ∧ same_key x y ∧ r_rank x ≤ r_rank y).
Proof.
  intros He Hs Ht. destruct (better_insert_found e s He Hs) as (B1 & B2 & B3).
  destruct (sorted_table_found e s He Hs Ht) as [lo hi E Hlo Hhi|lo k hi E Hlo K Hhi|lo h mid k hi E Hlo Hhi K Hlt G].
  - rewrite (B1 _ _ E Hlo Hhi). subst s. split_and!; [by apply sorted_table_insert|set_solver|].
    intros y [->|Hy]; [exists e|exists y]; (split; [set_solver|done]).
  - rewrite (B2 _ _ _ E Hlo K Hhi). subst s. destruct (Z.ltb_spec (r_rank e) (r_rank k)) as [Hlt|Hge].
    + split_and!; [|set_solver|].
      * apply sorted_table_insert; [by apply sorted_table_delete in Ht|done|].
        eapply Forall_impl; [apply Hhi|]. intros x [Hx N]. split; [|done].
        apply Forall_app in Hs as [_ [Hk _]%Forall_cons]. apply (ranked_trans e k x); [done| |done].
        right. split; [symmetry; apply K|by left].
      * intros y [->|Hy]; [exists e; split; [set_solver|done]|].
        apply elem_of_app in Hy as [Hy|[->|Hy]%elem_of_cons];
          [exists y; split; [set_solver|done]| |exists y; split; [set_solver|done]].
        exists e. split; [set_solver|]. split; [by symmetry|lia].
    + split_and!; [done|auto|]. intros y [->|Hy]; [exists k|exists y]; (split; [set_solver|done]).
  - rewrite (B3 _ _ _ _ _ E Hlo Hhi K Hlt). subst s. split_and!; [|set_solver|].
    + apply sorted_table_insert; [|done|done].
      pose proof (sorted_table_delete (lo ++ h :: mid) k hi) as Hd. rewrite <-!app_assoc in Hd. by apply Hd.
    + intros y [->|Hy]; [exists e; split; [set_solver|done]|].
      assert (y = k ∨ y ∈ lo ++ e :: h :: mid ++ hi) as [->|Hin] by set_solver.
      * exists e. split; [set_solver|]. split; [by symmetry|lia].
      * by exists y.
Qed.

Lemma best_of_insert rs s e : route_ok e → Forall route_ok s →
  best_of rs s → best_of (rs ++ [e]) (better_insert e s).
Proof.
  intros He Hs (Ht & Hin & Hbest). destruct (better_insert_spec e s He Hs Ht) as (Ht' & Hin' & Hb').
  split_and!; [done| |].
  - intros x Hx. apply elem_of_app. destruct (Hin' x Hx) as [->|?]; [right; set_solver|left; auto].
  - intros y [Hy| ->%list_elem_of_singleton]%elem_of_app; [|apply Hb'; by left].
    destruct (Hbest y Hy) as (x & Hx & K & R). destruct (Hb' x (or_intror Hx)) as (z & Hz & Kz & Rz).
    exists z. split_and!; [done|by rewrite Kz|lia].
Qed.

Lemma best_of_nil : best_of [] [].
Proof. split_and!; [constructor|done|]. intros y Hy. by apply elem_of_nil in Hy. Qed.

(** No two routes with the same destination and interface have the same rank. *)
Definition untied rs : Prop :=
  ∀ x y, x ∈ rs → y ∈ rs → same_key x y → r_rank x = r_rank y → x = y.

Lemma best_of_iff rs s x : untied rs → best_of rs s →
  x ∈ s ↔ x ∈ rs ∧ ∀ y, y ∈ rs → same_key y x → r_rank x ≤ r_rank y.
Proof.
  intros Hu (Ht & Hin & Hbest). split.
  - intros Hx. split; [by apply Hin|]. intros y Hy K. destruct (Hbest y Hy) as (z & Hz & Kz & R).
    assert (z = x) as -> by (apply (sorted_table_key_unique s); [done..|by rewrite Kz]). done.
  - intros [Hx Hmin]. destruct (Hbest x Hx) as (z & Hz & Kz & R).
    assert (z = x) as <-; [|done]. apply Hu; [by apply Hin|done|done|].
    specialize (Hmin z (Hin z Hz) Kz). lia.
Qed.

Lemma sorted_table_NoDup s : sorted_table s → NoDup s.
Proof.
  induction s as [|x s IH]; [constructor|]. intros [Hx Ht]%StronglySorted_cons.
  constructor; [|by apply IH]. intros H. rewrite Forall_forall in Hx. by destruct (Hx x H).
Qed.

(** The order the routes are added in does not matter. *)
Lemma best_of_unique rs rs' s s' :
  untied rs → Forall route_ok rs → rs ≡ₚ rs' → best_of rs s → best_of rs' s' → s = s'.
Proof.
  intros Hu Hok HP Hb Hb'.
  assert (best_of rs s') as Hb2.
  { destruct Hb' as (? & Hin & Hbest). split_and!; [done|intros x; rewrite HP; apply Hin|].
    intros y. rewrite HP. apply Hbest. }
  assert (∀ x, x ∈ s → route_ok x) as Hoks.
  { intros x Hx. rewrite Forall_forall in Hok. apply Hok. by apply Hb. }
  eapply (StronglySorted_unique_strong (λ x y, ranked x y ∧ ¬ same_key x y)); [|apply Hb|apply Hb2|].
  - intros x y Hx _ [H1 _] [H2 _]. by destruct (ranked_asym y x (Hoks x Hx)).
  - apply NoDup_Permutation; [apply sorted_table_NoDup, Hb|apply sorted_table_NoDup, Hb2|].
    intros x. by rewrite (best_of_iff rs s), (best_of_iff rs s').
Qed.
End table.

(** ** IPMonitor: building the routing table

    The lists of the services added one after the other: [RouteListAddRouteList]
    from the first to the last keeps the invariant of the table, and makes the
    table of the best routes. *)

Section build.
Context {A : Type} `{!RouteListInfo A} `{Hheap : !Heap}.
Implicit Types (r x y e this : Route A) (rl service_routes : RouteList A) (rs : list (Route A)).

(** Routes added with a rank each. *)
Fixpoint add_routes (init : Z) (routes : option (RouteList A)) (l : list (Route A * Z))
    : option (option (RouteList A)) :=
  match l with
  | [] => Some routes
  | (this, rank) :: l => match RouteListAddRoute routes init this rank with
                         | None => None
                         | Some routes => add_routes init routes l
                         end
  end.

(** The routes of a service with the ranks they are added with. *)
Definition ranked_routes service_routes (rank : Z) : list (Route A * Z) :=
  imap (λ i scan, (scan, service_route_rank service_routes rank i scan)) (rl_list service_routes).

Lemma RouteListAddRouteList_eq routes init service_routes rank :
  RouteListAddRouteList routes init service_routes rank =
  add_routes init routes (ranked_routes service_routes rank).
Proof.
  unfold RouteListAddRouteList, ranked_routes.
  assert (∀ l i routes, add_route_list routes init service_routes rank i l =
    add_routes init routes (imap (λ j scan, (scan, service_route_rank service_routes rank (i + j) scan)) l))
    as E; [|by rewrite E].
  clear routes. intros l. induction l as [|scan l IH]; intros i routes; [done|].
  cbn [add_route_list imap add_routes]. rewrite Nat.add_0_r.
  destruct (RouteListAddRoute routes init scan _) as [routes'|]; [|done].
  rewrite IH. f_equal. apply imap_ext. intros j x _. cbn. by rewrite Nat.add_succ_r.
Qed.

Lemma add_routes_app init routes l1 l2 :
  add_routes init routes (l1 ++ l2) =
  match add_routes init routes l1 with Some routes => add_routes init routes l2 | None => None end.
Proof.
  revert routes. induction l1 as [|[this rank] l1 IH]; intros routes; [done|]. cbn.
  by destruct (RouteListAddRoute routes init this rank).
Qed.

(** ** The invariant *)

Definition addable (p : Route A * Z) : Prop := route_ok p.1 ∧ 0 ≤ p.2 < 2 ^ 32.

Definition opened_list (init : Z) (routes : option (RouteList A)) : RouteList A :=
  default (MkRouteList A init 0 []) routes.

Lemma AddRoute_opened init routes this rank :
  can_alloc init = true →
  RouteListAddRoute routes init this rank = RouteListAddRoute (Some (opened_list init routes)) init this rank.
Proof. intros Ha. destruct routes; [done|]. by apply AddRoute_new. Qed.

Lemma list_ok_new init n : 0 < init → 0 ≤ n → list_ok init n (MkRouteList A init 0 []).
Proof. intros. constructor; unfold rl_count; cbn; [constructor|constructor|lia|lia]. Qed.

Lemma list_ok_mono init n m rl : n ≤ m → list_ok init n rl → list_ok init m rl.
Proof. intros ? []. constructor; [done..|lia|lia]. Qed.

Lemma add_routes_ok init n routes l :
  can_alloc init = true → 0 < init < 2 ^ 30 → 0 ≤ n → n + Z.of_nat (length l) < 2 ^ 29 →
  list_ok init n (opened_list init routes) → Forall addable l →
  ∃ res, add_routes init routes l = Some res ∧ list_ok init (n + Z.of_nat (length l)) (opened_list init res).
Proof.
  intros Ha Hi. revert n routes. induction l as [|[this rank] l IH]; intros n routes Hn Hl Hok Hadd;
    cbn [length add_routes] in *.
  { exists routes. by rewrite Z.add_0_r. }
  apply Forall_cons in Hadd as [[Hthis Hrank] Hadd]. cbn in Hthis, Hrank.
  destruct (RouteListAddRoute_ok init n (opened_list init routes) this rank) as (res & E & Hres & _); [done..|lia|lia|].
  rewrite (AddRoute_opened _ _ _ _ Ha), E.
  destruct (IH (n + 1) res) as (res' & E' & Hok'); [lia|lia| |done|].
  { destruct res as [rl|]; [by apply Hres|]. apply list_ok_new; lia. }
  exists res'. split; [done|]. by replace (n + Z.of_nat (S (length l))) with (n + 1 + Z.of_nat (length l)) by lia.
Qed.

(** ** The table of the best routes *)

Definition entry_of (p : Route A * Z) : Route A := stored p.1 p.2.

(** Routes with one key are scoped alike. *)
Definition alike rs : Prop :=
  ∀ x y, x ∈ rs → y ∈ rs → same_key x y → is_scoped x = true → is_scoped y = true.

(** Routes the reference definition is for. *)
Record regular (l : list (Route A * Z)) : Prop := {
  reg_ok : Forall (λ p, route_ok p.1) l;
  reg_plain : Forall plain (entry_of <$> l);
  reg_alike : alike (entry_of <$> l);
}.

(** [rl] is the table of the best routes of [rs]. *)
Definition holds_best rs rl : Prop := ∃ s, rl_list rl = mark None s ∧ best_of rs s.

Lemma regular_app l1 l2 : regular (l1 ++ l2) → regular l1 ∧ regular l2.
Proof.
  intros [[H1 H1']%Forall_app H2 H3]. rewrite fmap_app in H2, H3. apply Forall_app in H2 as [H2 H2'].
  split; constructor; try done; intros x y Hx Hy; apply H3; set_solver.
Qed.

Lemma AddRoute_best init n rs rl this rank :
  (∀ m, can_alloc m = true) → 0 ≤ n < 2 ^ 29 → init < 2 ^ 30 →
  list_ok init n rl → holds_best rs rl → Forall plain (rs ++ [stored this rank]) →
  alike (rs ++ [stored this rank]) → route_ok this →
  ∃ rl', RouteListAddRoute (Some rl) init this rank = Some (Some rl') ∧
    list_ok init (n + 1) rl' ∧ holds_best (rs ++ [stored this rank]) rl'.
Proof.
  intros Hal Hn Hi Hok (s & Es & Hbest) [Hrs [He _]%Forall_cons]%Forall_app Hcons Hthis.
  pose proof (plain_exclude _ He) as Hex. unfold stored in Hex. rewrite raise_exclude in Hex. cbn in Hex.
  pose proof (entry_range this rank He) as Hrank.
  assert (Forall plain s) as Hs.
  { rewrite Forall_forall in Hrs |- *. intros x Hx. by apply Hrs, Hbest. }
  assert (Forall route_ok s) as Hoks by (eapply Forall_impl; [apply Hs|]; by intros ? []).
  destruct (RouteListAddRoute_ok init n rl this rank) as (res & E & Hres & Hsome); [done..|lia|lia|lia|lia|].
  destruct (Hsome Hal) as [rl' ->]. exists rl'. split_and!; [done|by apply Hres|].
  exists (better_insert (stored this rank) s). split; [|apply best_of_insert; [apply He|done..]].
  pose proof (add_scan_table this rank Hthis He Hex s) as Hscan. cbv zeta in Hscan.
  rewrite <-Es in Hscan. specialize (Hscan (proj1 Hbest) Hs).
  destruct Hok as [Hokl Hg Hroom Hcount].
  pose proof (add_scan_added (rl_list rl) this rank Hokl Hthis Hg) as Hadded.
  destruct (add_scan (rl_list rl) this rank 0 (rl_list rl) None None kScopeNone) as [l'|l' w sc] eqn:Ea.
  - rewrite (AddRoute_done _ _ _ _ _ Ea) in E. injection E as <-. cbn. apply Hscan.
    rewrite Forall_forall. intros x Hx K. apply Hcons; [|set_solver|done].
    apply elem_of_app. left. by apply Hbest.
  - destruct Hscan as (lo & hi & -> & -> & Hins).
    { rewrite Forall_forall. intros x Hx K. apply Hcons; [|set_solver|done].
      apply elem_of_app. left. by apply Hbest. }
    assert (Z.of_nat (length (lo ++ hi)) ≤ rl_size rl).
    { inversion Hadded as [| |lo' hi' scope' Hsub _ _ E1]. apply sublist_length in Hsub.
      unfold rl_count in Hcount. lia. }
    rewrite (AddRoute_inserts _ _ _ _ _ _ _ Ea) in E; [|done|lia].
    rewrite Hal, andb_false_r in E. injection E as <-. exact Hins.
Qed.

Lemma add_routes_best init n rs routes l :
  (∀ m, can_alloc m = true) → 0 < init < 2 ^ 30 → 0 ≤ n → n + Z.of_nat (length l) < 2 ^ 29 →
  list_ok init n (opened_list init routes) → holds_best rs (opened_list init routes) →
  Forall plain (rs ++ (entry_of <$> l)) → alike (rs ++ (entry_of <$> l)) → Forall (λ p, route_ok p.1) l →
  ∃ res, add_routes init routes l = Some res ∧ holds_best (rs ++ (entry_of <$> l)) (opened_list init res) ∧
    list_ok init (n + Z.of_nat (length l)) (opened_list init res).
Proof.
  intros Ha Hi. revert n rs routes. induction l as [|[this rank] l IH];
    intros n rs routes Hn Hl Hok Hbest Hplain Halike Hadd; cbn [length add_routes] in *.
  { exists routes. by rewrite Z.add_0_r, app_nil_r. }
  apply Forall_cons in Hadd as [Hthis Hadd].
  assert (rs ++ (entry_of <$> (this, rank) :: l) = (rs ++ [stored this rank]) ++ (entry_of <$> l)) as Eapp
    by (by rewrite <-app_assoc).
  rewrite Eapp in *.
  destruct (AddRoute_best init n rs (opened_list init routes) this rank) as (rl' & E & Hok' & Hbest');
    [done|lia|lia|done|done|by apply Forall_app in Hplain as []| |done|].
  { intros x y Hx Hy. apply Halike; set_solver. }
  rewrite AddRoute_opened, E by apply Ha.
  destruct (IH (n + 1) (rs ++ [stored this rank]) (Some rl')) as (res & E' & Hbest'' & Hok''); [lia|lia|done..|].
  exists res. split_and!; [done..|].
  by replace (n + Z.of_nat (S (length l))) with (n + 1 + Z.of_nat (length l)) by lia.
Qed.
End build.

(** ** IPMonitor: the election

    The loop of [ElectionResultsGetPrimary] taken apart: which candidate it picks,
    and which routes it adds with which ranks. *)

Section primary.
Context {A : Type} `{!RouteListInfo A} `{Hheap : !Heap}.
Variable routelist_of : string → option (RouteList A).
Variable routes_n_static : Z.
Variable other_candidate : option Candidate.
Implicit Types (c : Candidate) (l : list Candidate).

(** May become primary, other protocol apart. *)
Definition may_lead c : bool :=
  negb (cd_ineligible c) && negb (RANK_ASSERTION_MASK (cd_rank c) =? kRankAssertionNever).
Definition needs_demotion c : bool := ElectionResultsCandidateNeedsDemotion other_candidate c.
Definition leads c : bool := may_lead c && negb (needs_demotion c).

(** A primary without routes, or one that is kept out of the nwi state, is none. *)
Definition is_null c : bool :=
  match routelist_of (cd_serviceID c) with
  | Some service_routes => has (rl_flags service_routes) kRouteListFlagsExcludeNWI
  | None => true
  end.

(** The reference: the first candidate that may and need not be demoted. *)
Definition elected l : option Candidate :=
  match List.find leads l with
  | Some c => if is_null c then None else Some c
  | None => None
  end.

(** The rank a candidate's routes are added with; [taken]: there is a primary. *)
Definition used_rank (taken : bool) c : Z :=
  if negb taken && may_lead c && needs_demotion c then RankMake (cd_rank c) kRankAssertionNever
  else cd_rank c.

(** All routes that are added, in order. *)
Fixpoint offered (taken : bool) l : list (Route A * Z) :=
  match l with
  | [] => []
  | c :: l =>
      match routelist_of (cd_serviceID c) with
      | Some service_routes => ranked_routes service_routes (used_rank taken c)
      | None => []
      end ++ offered (taken || leads c) l
  end.

Notation taken st := (if ps_primary st then true else false).

Lemma consider_all_spec init l st :
  match add_routes init (ps_routes st) (offered (taken st) l) with
  | None => consider_all routelist_of other_candidate init l st = None
  | Some routes => ∃ st', consider_all routelist_of other_candidate init l st = Some st' ∧
      ps_routes st' = routes ∧
      ps_primary st' = (if ps_primary st then ps_primary st else List.find leads l) ∧
      ps_primary_is_null st' = ps_primary_is_null st ||
        (if ps_primary st then false
         else match List.find leads l with Some c => is_null c | None => false end)
  end.
Proof.
  revert st. induction l as [|c l IH]; intros st.
  { cbn. exists st. split_and!; [done|done|by destruct (ps_primary st)|].
    by destruct (ps_primary st); rewrite orb_false_r. }
  cbn [offered consider_all]. rewrite add_routes_app. unfold consider.
  fold (needs_demotion c).
  assert (∀ b : bool, negb (cd_ineligible c) && b && negb (RANK_ASSERTION_MASK (cd_rank c) =? kRankAssertionNever)
    = b && may_lead c) as -> by (intros []; unfold may_lead; by destruct (cd_ineligible c)).
  assert ((if ps_primary st then false else true) = negb (taken st)) as -> by by destruct (ps_primary st).
  assert (used_rank (taken st) c = if negb (taken st) && may_lead c && needs_demotion c
    then RankMake (cd_rank c) kRankAssertionNever else cd_rank c) as <- by done.
  set (demote := negb (taken st) && may_lead c && needs_demotion c).
  assert (negb (taken st) && may_lead c && negb demote = negb (taken st) && leads c) as Eprim.
  { unfold demote, leads. by destruct (taken st), (may_lead c), (needs_demotion c). }
  rewrite Eprim.
  set (primary := if negb (taken st) && leads c then Some c else ps_primary st).
  assert ((taken st || leads c) = if primary then true else false) as ->
    by (unfold primary; by destruct (ps_primary st), (leads c)).
  assert (∀ rest : option Candidate, (if primary then primary else rest) =
    if ps_primary st then ps_primary st else if leads c then Some c else rest) as Hprim
    by (intros rest; unfold primary; by destruct (ps_primary st), (leads c)).
  assert (∀ X : bool, (if primary then false else X) = negb (taken st) && negb (leads c) && X) as Hnot
    by (intros X; unfold primary; by destruct (ps_primary st), (leads c)).
  cbn [List.find].
  destruct (routelist_of (cd_serviceID c)) as [R|] eqn:ER.
  - rewrite RouteListAddRouteList_eq.
    destruct (add_routes init (ps_routes st) (ranked_routes R (used_rank (taken st) c))) as [routes|]; [|done].
    match goal with |- context [MkPrimary primary ?nul routes ?d ?w] =>
      specialize (IH (MkPrimary primary nul routes d w)) end.
    cbn [ps_routes ps_primary ps_primary_is_null] in IH.
    destruct (add_routes init routes _) as [routes'|]; [|done].
    destruct IH as (st' & E1 & E2 & E3 & E4). exists st'. rewrite E3, E4. split_and!; [done|done| |].
    + rewrite Hprim. by destruct (ps_primary st), (leads c).
    + rewrite <-orb_assoc. f_equal. rewrite Hnot. generalize (List.find leads l) as found_. intros found_.
      unfold demote, leads.
      destruct (ps_primary st), (may_lead c), (needs_demotion c); cbn; unfold is_null; rewrite ?ER;
        cbn; rewrite ?andb_false_r, ?andb_true_r, ?orb_false_r; done.
  - cbn [add_routes].
    match goal with |- context [MkPrimary primary ?nul ?routes ?d ?w] =>
      specialize (IH (MkPrimary primary nul routes d w)) end.
    cbn [ps_routes ps_primary ps_primary_is_null] in IH.
    destruct (add_routes init (ps_routes st) _) as [routes'|]; [|done].
    destruct IH as (st' & E1 & E2 & E3 & E4). exists st'. rewrite E3, E4. split_and!; [done|done| |].
    + rewrite Hprim. by destruct (ps_primary st), (leads c).
    + rewrite <-orb_assoc. f_equal. rewrite Hnot. generalize (List.find leads l) as found_. intros found_.
      destruct (ps_primary st), (leads c); cbn; unfold is_null; rewrite ?ER;
        cbn; rewrite ?orb_false_r; done.
Qed.
End primary.
