(* ===== verification/RouteSpec.v ===== *)
(** * What IPMonitor guarantees about the routing table

    The candidates of an election, the table of the routes of all services, and
    the default route of the primary one. *)

From stdpp Require Import sorting.
From S2P Require Import Prelude RouteTypes RouteList RouteInv RouteElect RouteTable RouteElection.

Local Open Scope Z_scope.

(** ** The candidates *)

Definition worse_or_equal (c c' : Candidate) : Prop := cd_rank c ≤ cd_rank c'.

Lemma insert_candidate_perm c l : insert_candidate c l ≡ₚ c :: l.
Proof.
  induction l as [|c' l IH]; [done|]. cbn. case_match; [done|]. rewrite IH. apply Permutation_swap.
Qed.

Lemma insert_candidate_sorted c l :
  StronglySorted worse_or_equal l → StronglySorted worse_or_equal (insert_candidate c l).
Proof.
  induction l as [|c' l IH]; intros Hl; cbn; [by repeat constructor|].
  apply StronglySorted_cons in Hl as Hl'. destruct Hl' as [Hc' Hl'].
  destruct (Z.ltb_spec (cd_rank c) (cd_rank c')) as [Hlt|Hge].
  - apply StronglySorted_cons. split; [|done]. constructor; [unfold worse_or_equal; lia|].
    eapply Forall_impl; [apply Hc'|]. unfold worse_or_equal. intros; lia.
  - apply StronglySorted_cons. split; [|by apply IH]. rewrite insert_candidate_perm. by constructor.
Qed.

Section election.
Context {A : Type} `{!RouteListInfo A}.
Variables (S_ppp_override_primary : bool) (order : option (list (option string))) (unset : Z).

(** The candidate a service gives. *)
Definition candidate_of (service : Service A) : option Candidate :=
  match sv_routelist service, sv_if_name service with
  | Some routelist, Some if_name =>
      if String.eqb if_name "lo0" then None else
      first ← head (rl_list routelist);
      Some (MkCandidate (sv_serviceID service) if_name
        (RankMake (get_service_index (sv_service_index service) order unset (sv_serviceID service))
           (if S_ppp_override_primary && is_ppp if_name then kRankAssertionFirst
            else RANK_ASSERTION_MASK (r_rank first)))
        (sv_ip_is_coupled service)
        (negb (has (rl_flags routelist) kRouteListFlagsHasDefault)))
  | _, _ => None
  end.

(** The list of routes of a service holds at least one, unless it is on the loopback
    interface. *)
Definition has_routes (service : Service A) : Prop :=
  match sv_routelist service, sv_if_name service with
  | Some routelist, Some if_name => if_name ≠ "lo0"%string → rl_list routelist ≠ []
  | _, _ => True
  end.

Lemma elect_all_spec services el :
  Forall has_routes services →
  er_count (el_results el) + Z.of_nat (length services) ≤ er_size (el_results el) →
  StronglySorted worse_or_equal (er_candidates (el_results el)) →
  ∃ el', elect_all S_ppp_override_primary order unset services el = Some el' ∧
    er_candidates (el_results el') ≡ₚ er_candidates (el_results el) ++ omap candidate_of services ∧
    StronglySorted worse_or_equal (er_candidates (el_results el')).
Proof.
  intros Hr. revert el. induction Hr as [|service services Hs Hr IH]; intros el Hn Hsort; cbn [elect_all].
  { exists el. cbn. by rewrite app_nil_r. }
  cbn [length] in Hn.
  assert (∃ el', elect_ip S_ppp_override_primary order unset el service = Some el' ∧
    er_size (el_results el') = er_size (el_results el) ∧
    er_candidates (el_results el') ≡ₚ er_candidates (el_results el) ++ option_list (candidate_of service) ∧
    StronglySorted worse_or_equal (er_candidates (el_results el'))) as (el' & E & Esize & Ep & Es).
  { unfold elect_ip, candidate_of. unfold has_routes in Hs.
    destruct (sv_routelist service) as [R|]; [|exists el; cbn; by rewrite app_nil_r].
    destruct (sv_if_name service) as [ifn|]; [|exists el; cbn; by rewrite app_nil_r].
    destruct (String.eqb_spec ifn "lo0"); [exists el; cbn; by rewrite app_nil_r|].
    destruct (rl_list R) as [|first rest]; [by destruct Hs|]. cbn. eexists. split; [done|]. cbn.
    unfold ElectionResultsAddCandidate. rewrite (proj2 (Z.eqb_neq _ _)) by lia. cbn.
    split_and!; [done| |by apply insert_candidate_sorted].
    rewrite insert_candidate_perm. apply Permutation_cons_append. }
  rewrite E. destruct (IH el') as (el'' & E' & Ep' & Es'); [|done|].
  { unfold er_count in *. rewrite Esize, Ep, length_app.
    assert (length (option_list (candidate_of service)) ≤ 1)%nat by (destruct (candidate_of service); cbn; lia).
    lia. }
  exists el''. split_and!; [done| |done]. rewrite Ep', Ep, <-app_assoc. f_equiv.
  cbn. by destruct (candidate_of service).
Qed.

(** The results of an election hold one candidate for every service that has
    routes and an interface other than the loopback, none is dropped, and they are
    sorted by rank; they are NULL when there is none. *)
Lemma ElectionResultsCopy_candidates (services : list (Service A)) (rank_dict : gmap string Z) :
  Forall has_routes services →
  ∃ results rank_dict',
    ElectionResultsCopy S_ppp_override_primary order unset services rank_dict = Some (results, rank_dict') ∧
    match results with
    | None => omap candidate_of services = []
    | Some results =>
        er_candidates results ≡ₚ omap candidate_of services ∧ er_candidates results ≠ [] ∧
        StronglySorted worse_or_equal (er_candidates results)
    end.
Proof.
  intros Hr. unfold ElectionResultsCopy. destruct services as [|service services]; [by eexists _, _|].
  destruct (elect_all_spec (service :: services)
    (MkElection (MkResults (Z.of_nat (length (service :: services))) []) rank_dict))
    as (el & -> & Hp & Hs); [done|unfold er_count; cbn; lia|constructor|].
  eexists _, _. split; [done|]. cbn [el_results er_candidates app] in Hp. unfold er_count.
  destruct (er_candidates (el_results el)) as [|c l] eqn:E; cbn [length Z.of_nat Z.eqb].
  - by apply Permutation_nil_l in Hp.
  - rewrite (proj2 (Z.eqb_neq _ _)) by lia. by rewrite E.
Qed.
End election.

(** ** The routing table *)

Lemma land_range a b : 0 ≤ a → 0 ≤ Z.land b a ≤ a.
Proof.
  intros Ha. split; [apply Z.land_nonneg; by right|]. rewrite Z.land_comm.
  destruct (Z.eq_dec (Z.land a b) 0) as [->|]; [done|].
  apply Z.ldiff_le; [done|]. apply Z.bits_inj'. intros i Hi.
  rewrite Z.ldiff_spec, Z.land_spec, Z.bits_0. by destruct (Z.testbit a i), (Z.testbit b i).
Qed.

Lemma lor_range a b n : 0 ≤ n → 0 ≤ a < 2 ^ n → 0 ≤ b < 2 ^ n → 0 ≤ Z.lor a b < 2 ^ n.
Proof.
  intros Hn Ha Hb. split; [apply Z.lor_nonneg; lia|].
  destruct (Z.eq_dec (Z.lor a b) 0) as [->|]; [lia|].
  assert (0 ≤ Z.lor a b) by (apply Z.lor_nonneg; lia).
  apply Z.log2_lt_pow2; [lia|]. rewrite Z.log2_lor by lia.
  assert (∀ z, 0 ≤ z < 2 ^ n → 0 < n → Z.log2 z < n) as Hlog.
  { intros z Hz Hn'. destruct (Z.eq_dec z 0) as [->|]; [done|]. apply Z.log2_lt_pow2; lia. }
  destruct (Z.eq_dec n 0) as [->|].
  - assert (a = 0 ∧ b = 0) as [-> ->] by lia. done.
  - apply Z.max_lub_lt; apply Hlog; lia.
Qed.

Lemma mix_range a b : 0 ≤ Z.lor (RANK_INDEX_MASK a) (RANK_ASSERTION_MASK b) < 2 ^ 32.
Proof.
  unfold RANK_INDEX_MASK, RANK_ASSERTION_MASK. apply lor_range; [done|..].
  - pose proof (land_range 0xffffff a ltac:(done)). lia.
  - pose proof (land_range (RANK_ASSERTION_MAKE 0xff) b ltac:(done)) as H.
    change (RANK_ASSERTION_MAKE 0xff) with 0xff000000 in *. lia.
Qed.

Section table.
Context {A : Type} `{!RouteListInfo A} `{Hheap : !Heap}.
Variable routelist_of : string → option (RouteList A).
Variable routes_n_static : Z.
Variable other_candidate : option Candidate.
Implicit Types (c : Candidate).

Notation GetPrimary := (ElectionResultsGetPrimary routelist_of routes_n_static other_candidate).
Notation offered := (offered routelist_of other_candidate).
Notation elected := (elected routelist_of other_candidate).

(** The room [RouteListAddRoute] is told to allocate. *)
Definition room (results : ElectionResults) : Z := i32 (er_count results * routes_n_static).

(** The routes of a candidate are as the C types have them. *)
Definition sound c : Prop :=
  0 ≤ cd_rank c < 2 ^ 32 ∧
  match routelist_of (cd_serviceID c) with
  | Some service_routes => Forall route_ok (rl_list service_routes)
  | None => True
  end.

Lemma used_rank_range taken c : 0 ≤ cd_rank c < 2 ^ 32 → 0 ≤ used_rank other_candidate taken c < 2 ^ 32.
Proof. intros Hc. unfold used_rank. case_match; [apply mix_range|done]. Qed.

Lemma offered_addable taken l : Forall sound l → Forall addable (offered taken l).
Proof.
  intros Hl. revert taken. induction Hl as [|c l [Hrank Hc] Hl IH]; intros taken; cbn; [constructor|].
  apply Forall_app. split; [|apply IH].
  destruct (routelist_of (cd_serviceID c)) as [R|] eqn:ER; [|constructor].
  pose proof (proj1 (Forall_forall _ _) Hc) as Hc'. unfold ranked_routes. apply Forall_forall. intros p (i & scan & -> & Hi)%elem_of_lookup_imap.
  split; cbn; [apply Hc'; by eapply list_elem_of_lookup_2|].
  unfold service_route_rank. case_match; [by apply used_rank_range|apply mix_range].
Qed.

Lemma GetPrimary_spec results nwi :
  match add_routes (room results) None (offered false (er_candidates results)) with
  | None => GetPrimary (Some results) nwi = None
  | Some routes => ∃ nwi', GetPrimary (Some results) nwi = Some (elected (er_candidates results), routes, nwi')
  end.
Proof.
  unfold ElectionResultsGetPrimary. fold (room results).
  pose proof (consider_all_spec routelist_of other_candidate (room results) (er_candidates results)
    (MkPrimary None false None [] nwi)) as H. cbn [ps_routes ps_primary ps_primary_is_null] in H.
  destruct (add_routes (room results) None _) as [routes|]; [|by rewrite H].
  destruct H as (st & -> & E1 & E2 & E3). eexists. rewrite E1, E2, E3. unfold elected. cbn [orb].
  destruct (List.find _ _) as [c|]; [|done]. by destruct (is_null _ c).
Qed.

(** ElectionResultsGetPrimary does not crash: no route is stored out of bounds,
    whatever the routes and whenever memory runs out. The primary candidate is the
    first that is eligible, not ranked Never and not to be demoted, or none if it
    has no routes or is kept out of the nwi state. The table is sorted by
    destination and mask, and of the routes to one destination only the first may
    be unscoped. *)
Theorem ElectionResultsGetPrimary_safe results nwi :
  can_alloc (room results) = true → 0 < room results < 2 ^ 30 →
  Forall sound (er_candidates results) →
  Z.of_nat (length (offered false (er_candidates results))) < 2 ^ 29 →
  ∃ routes nwi', GetPrimary (Some results) nwi = Some (elected (er_candidates results), routes, nwi') ∧
    ∀ rl, routes = Some rl → grouped (rl_list rl) ∧ rl_count rl ≤ rl_size rl.
Proof.
  intros Hal Hroom Hs Hn.
  destruct (add_routes_ok (room results) 0 None (offered false (er_candidates results)))
    as (routes & E & Hok); [done|done|lia|lia|apply list_ok_new; lia|by apply offered_addable|].
  pose proof (GetPrimary_spec results nwi) as H. rewrite E in H. destruct H as [nwi' H].
  exists routes, nwi'. split; [done|]. intros rl ->. destruct Hok. cbn in *. split; [done|lia].
Qed.

(** C15: of the routes of all services, if they are [regular] (each for an interface, none
    excluded, ranks in their range and Never only if scoped, those for one destination and
    interface scoped alike) and less than 2^29, the table holds for every destination and
    interface one with the best rank, sorted by destination and rank, and the first of
    each destination alone keeps its scope, all others are scoped. If in addition no two
    routes for one destination and interface have the same rank, the order they were added
    in does not matter. *)
Theorem ElectionResultsGetPrimary_table results nwi :
  (∀ n, can_alloc n = true) → 0 < room results < 2 ^ 30 →
  let routes := offered false (er_candidates results) in
  Z.of_nat (length routes) < 2 ^ 29 → regular routes → routes ≠ [] →
  ∃ rl s nwi', GetPrimary (Some results) nwi =
      Some (elected (er_candidates results), Some rl, nwi') ∧
    rl_list rl = mark None s ∧ best_of (entry_of <$> routes) s ∧
    (untied (entry_of <$> routes) →
     ∀ routes' rl', routes ≡ₚ routes' → add_routes (room results) None routes' = Some (Some rl') →
     rl_list rl' = rl_list rl).
Proof.
  intros Hal Hroom routes Hn [Hok Hplain Halike] Hne.
  assert (∀ l, l ≡ₚ routes → ∃ res, add_routes (room results) None l = Some res ∧
    holds_best (entry_of <$> l) (opened_list (room results) res)) as Hadd.
  { intros l Hl. destruct (add_routes_best (room results) 0 [] None l) as (res & E & Hb & _);
      [done|done|lia|by rewrite Hl|apply list_ok_new; lia|exists []; split; [done|apply best_of_nil]|by rewrite Hl| |by rewrite Hl|].
    - intros x y. cbn. rewrite !Hl. apply Halike.
    - by exists res. }
  destruct (Hadd routes) as (res & E & s & Es & Hbest); [done|].
  pose proof (GetPrimary_spec results nwi) as H. fold routes in H. rewrite E in H. destruct H as [nwi' H].
  destruct res as [rl|].
  2:{ destruct Hbest as (_ & _ & Hb). destruct routes as [|p routes']; [done|].
      destruct (Hb (entry_of p)) as (x & Hx & _); [by left|]. cbn in Es. destruct s; [|done].
      by apply elem_of_nil in Hx. }
  exists rl, s, nwi'. split_and!; [done..|]. intros Hu routes' rl' HP E'.
  destruct (Hadd routes') as (res & E2 & s' & Es' & Hbest'); [done|].
  rewrite E' in E2. injection E2 as <-. cbn in Es, Es'. rewrite Es, Es'. f_equal. symmetry.
  eapply (best_of_unique (entry_of <$> routes)); [done| |by rewrite HP|done..].
  eapply Forall_impl; [apply Hplain|]. by intros ? [].
Qed.
End table.

(** ** The default route *)

Section default.
Context {A : Type} `{!RouteListInfo A} `{Hheap : !Heap}.
Variable routelist_of : string → option (RouteList A).
Variable routes_n_static : Z.
Variable other_candidate : option Candidate.
Implicit Types (c : Candidate) (l : list Candidate) (r x y d : Route A).

Notation offered := (offered routelist_of other_candidate).
Notation leads := (leads other_candidate).

Lemma offered_elem taken l p :
  p ∈ offered taken l ↔ ∃ l1 c l2 R i scan,
    l = l1 ++ c :: l2 ∧ routelist_of (cd_serviceID c) = Some R ∧ rl_list R !! i = Some scan ∧
    p = (scan, service_route_rank R (used_rank other_candidate (taken || existsb leads l1) c) i scan).
Proof.
  revert taken. induction l as [|c l IH]; intros taken; cbn.
  { split; [by intros ?%elem_of_nil|]. by intros ([] & ? & ? & ? & ? & ? & ? & _). }
  rewrite elem_of_app, IH. split.
  - intros [Hp|(l1 & c' & l2 & R & i & scan & -> & ER & Ei & ->)].
    + destruct (routelist_of (cd_serviceID c)) as [R|] eqn:ER; [|by apply elem_of_nil in Hp].
      apply elem_of_lookup_imap in Hp as (i & scan & -> & Ei).
      exists [], c, l, R, i, scan. by rewrite orb_false_r.
    + exists (c :: l1), c', l2, R, i, scan. split_and!; [done..|]. cbn. by rewrite orb_assoc.
  - intros ([|c0 l1] & c' & l2 & R & i & scan & E & ER & Ei & ->); injection E as -> ->.
    + left. rewrite ER, orb_false_r. apply elem_of_lookup_imap. eauto.
    + right. exists l1, c', l2, R, i, scan. split_and!; [done..|]. cbn. by rewrite orb_assoc.
Qed.

Lemma find_split l c : List.find leads l = Some c →
  ∃ l1 l2, l = l1 ++ c :: l2 ∧ existsb leads l1 = false ∧ leads c = true.
Proof.
  induction l as [|c' l IH]; cbn; [done|]. destruct (leads c') eqn:E.
  - intros [= <-]. by exists [], l.
  - intros H. destruct (IH H) as (l1 & l2 & -> & H1 & H2). exists (c' :: l1), l2. cbn. by rewrite E.
Qed.

(** A destination 0/0. *)
Definition is_default r : Prop :=
  route_destination (r_addrs r) = replicate address_size x00 ∧ r_prefix_length r = 0.

Lemma default_group r x : is_default r → is_default x → same_group r x.
Proof. intros [E1 E2] [E3 E4]. unfold same_group, dest. split; congruence. Qed.

(** The best route of its destination is unscoped, all others are not. *)
Lemma best_unscoped s x :
  sorted_table s → Forall route_ok s → x ∈ s → is_scoped x = false →
  (∀ y, y ∈ s → same_group y x → y = x ∨ ranked x y) →
  x ∈ mark None s ∧ ∀ r, r ∈ mark None s → same_group r x → is_scoped r = false → r = x.
Proof.
  intros Ht Hok Hx Hs Hbest. apply list_elem_of_split in Hx as (lo & hi & ->).
  apply Forall_app in Hok as [Hoklo [Hokx Hokhi]%Forall_cons].
  destruct (proj1 (StronglySorted_app _ _ _) Ht) as (Hlo & _ & [Hhi Hthi]%StronglySorted_cons).
  assert (∀ q, q ∈ lo → ¬ same_group q x) as Hno.
  { intros q Hq G. destruct (Hlo q x Hq ltac:(by left)) as [R N].
    destruct (Hbest q) as [->|R']; [set_solver|done|by destruct N|]. by apply (ranked_asym q x). }
  assert (mark1 (last lo) x = x) as Ex.
  { unfold mark1. destruct (last lo) as [q|] eqn:E; [|done]. apply decide_False, Hno.
    apply last_Some in E as [lo' ->]. set_solver. }
  rewrite mark_split. cbn [mark]. rewrite Ex. split; [set_solver|].
  intros r [Hr|[->|Hr]%elem_of_cons]%elem_of_app G Hsr; [|done|].
  - apply elem_of_mark in Hr as (q & f & Hq & ->). destruct (Hno q Hq). by rewrite raise_group in G.
  - exfalso. clear Hlo Hno Ex Ht Hbest.
    assert (∀ p, same_group p x → r ∈ mark (Some p) hi → False) as Hm; [|by apply (Hm x)].
    clear Hr. induction hi as [|h hi IH]; intros p Gp Hr; [by apply elem_of_nil in Hr|].
    apply StronglySorted_cons in Hthi as [Hh Hthi]. apply Forall_cons in Hhi as [[Hxh _] Hhi].
    apply Forall_cons in Hokhi as [Hokh Hokhi]. cbn [mark] in Hr.
    assert (same_group h x) as Gh.
    { apply elem_of_cons in Hr as [->|Hr].
      - destruct (mark1_raise (Some p) h) as [f E]. rewrite E, raise_group in G. done.
      - apply elem_of_mark in Hr as (q & f & Hq & ->). rewrite raise_group in G.
        rewrite Forall_forall in Hh.
        rewrite (ranked_between x h q Hokh); [by symmetry|by symmetry|done|by apply Hh]. }
    apply elem_of_cons in Hr as [->|Hr].
    + unfold mark1 in Hsr. rewrite decide_True in Hsr by (by rewrite Gp). by rewrite scoped_scoped in Hsr.
    + by apply (IH Hokhi Hhi Hthi h).
Qed.

(** The first route of a list with a default route is one, and no other. *)
Definition default_first (R : RouteList A) : Prop :=
  ∀ i r, rl_list R !! i = Some r →
    is_default r ↔ i = 0%nat ∧ has (rl_flags R) kRouteListFlagsHasDefault = true.

Lemma candidate_of_inv ppp order unset (service : Service A) c :
  candidate_of ppp order unset service = Some c →
  ∃ R d, sv_routelist service = Some R ∧ rl_list R !! 0%nat = Some d ∧
    cd_serviceID c = sv_serviceID service ∧
    cd_ineligible c = negb (has (rl_flags R) kRouteListFlagsHasDefault).
Proof.
  unfold candidate_of. destruct (sv_routelist service) as [R|]; [|done].
  destruct (sv_if_name service); [|done]. case_match; [done|].
  destruct (rl_list R) as [|d l] eqn:E; [done|]. intros [= <-]. exists R, d. by rewrite E.
Qed.

Lemma never_lead c : 0 ≤ cd_rank c < 2 ^ 26 →
  (RANK_ASSERTION_MASK (cd_rank c) =? kRankAssertionNever) = (3 * 2 ^ 24 <=? cd_rank c).
Proof.
  intros Hr. pose proof (never_flags_spec (cd_rank c) Hr) as H. unfold never_flags in H.
  by destruct (_ =? _), (3 * 2 ^ 24 <=? cd_rank c).
Qed.

Lemma demoted_rank z : 3 * 2 ^ 24 ≤ RankMake z kRankAssertionNever.
Proof.
  unfold RankMake. change (RANK_ASSERTION_MASK kRankAssertionNever) with (3 * 2 ^ 24).
  unfold RANK_INDEX_MASK. pose proof (land_range 0xffffff z ltac:(done)) as Hz.
  generalize dependent (Z.land z 0xffffff). intros a Ha.
  pose proof (Z.add_lor_land a (3 * 2 ^ 24)) as E.
  assert (0 ≤ Z.land a (3 * 2 ^ 24) ≤ a) by (rewrite Z.land_comm; apply land_range; lia).
  lia.
Qed.

(** A candidate in front of the leader adds its routes with a worse rank. *)
Lemma used_rank_worse l1 c l2 l1' c' l2' :
  StronglySorted worse_or_equal (l1 ++ c :: l2) → NoDup (cd_rank <$> l1 ++ c :: l2) →
  l1 ++ c :: l2 = l1' ++ c' :: l2' → existsb leads l1 = false →
  needs_demotion other_candidate c = false → cd_rank c < 3 * 2 ^ 24 →
  0 ≤ used_rank other_candidate (existsb leads l1') c' < 2 ^ 26 → cd_ineligible c' = false →
  c' = c ∧ used_rank other_candidate (existsb leads l1') c' = cd_rank c ∨
  cd_rank c < used_rank other_candidate (existsb leads l1') c'.
Proof.
  intros Hs Hnd E Hl1 Hdem Hc Hrange Hin.
  destruct (proj1 (StronglySorted_app _ _ _) Hs) as (_ & _ & [Hbehind _]%StronglySorted_cons).
  rewrite fmap_app, fmap_cons in Hnd. apply NoDup_app in Hnd as (_ & Hnd & [Hnd' _]%NoDup_cons).
  unfold used_rank in *.
  destruct (negb (existsb leads l1') && may_lead c' && needs_demotion other_candidate c') eqn:Ed.
  { right. pose proof (demoted_rank (cd_rank c')). lia. }
  assert (c' = c ∨ c' ∈ l2 ∨ ∃ k, l1 = l1' ++ c' :: k) as [->|[Hc'|[k ->]]].
  { apply app_eq_inv in E as [(k & -> & E)|(k & -> & E)]; destruct k as [|c0 k]; cbn in E;
      injection E as -> E; eauto; subst; set_solver. }
  - by left.
  - right. rewrite Forall_forall in Hbehind. pose proof (Hbehind c' Hc') as Hle. unfold worse_or_equal in Hle.
    assert (cd_rank c ≠ cd_rank c'); [|lia].
    intros Er. apply Hnd'. rewrite Er. by apply list_elem_of_fmap_2.
  - exfalso. rewrite existsb_app in Hl1. apply orb_false_iff in Hl1 as [Hl1' Hl1].
    cbn in Hl1. apply orb_false_iff in Hl1 as [Hlead _].
    destruct (proj1 (StronglySorted_app _ _ _) Hs) as (Hle & _ & _).
    specialize (Hle c' c ltac:(set_solver) ltac:(by left)). unfold worse_or_equal in Hle.
    rewrite Hl1' in Ed. cbn [negb andb] in Ed. unfold leads in Hlead.
    destruct (needs_demotion other_candidate c'); [rewrite andb_true_r in Ed|rewrite andb_true_r in Hlead];
      unfold may_lead in *; rewrite Hin, never_lead in * by done; cbn [negb andb] in *.
    + apply negb_false_iff, Z.leb_le in Ed. lia.
    + apply negb_false_iff, Z.leb_le in Hlead. lia.
Qed.

(** The candidates' lists are known, each with a first route and, of all its routes, only
    the first a default one. *)
Definition known (services : list (Service A)) (cs : list Candidate) : Prop :=
  ∀ c, c ∈ cs → ∃ service R d, service ∈ services ∧
    sv_routelist service = Some R ∧ routelist_of (cd_serviceID c) = Some R ∧
    rl_list R !! 0%nat = Some d ∧ cd_ineligible c = negb (has (rl_flags R) kRouteListFlagsHasDefault).

(** No default route ranks better than the one of the leader [c]. *)
Lemma defaults_worse services l1 c l2 R d :
  let cs := l1 ++ c :: l2 in
  StronglySorted worse_or_equal cs → NoDup (cd_rank <$> cs) → known services cs →
  (∀ service R, service ∈ services → sv_routelist service = Some R → default_first R) →
  existsb leads l1 = false → needs_demotion other_candidate c = false → cd_rank c < 3 * 2 ^ 24 →
  routelist_of (cd_serviceID c) = Some R → rl_list R !! 0%nat = Some d →
  Forall plain (entry_of <$> offered false cs) →
  ∀ y, y ∈ entry_of <$> offered false cs → is_default y → y = stored d (cd_rank c) ∨ cd_rank c < r_rank y.
Proof.
  intros cs Hsort Hnd Hcands Hfirst Hl1 Hdem Hnever ER Ed Hplain y Hy Hdef.
  pose proof (proj1 (Forall_forall _ _) Hplain y Hy) as Hply.
  apply list_elem_of_fmap in Hy as (p & -> & (l1' & c' & l2' & R' & i & scan & Ecs' & ER' & Ei & ->)%offered_elem).
  destruct (Hcands c') as (service' & R2 & d' & Hsv' & ERsv' & ER2 & Ed' & Ein'); [rewrite Ecs'; set_solver|].
  rewrite ER' in ER2. injection ER2 as <-.
  assert (is_default scan) as Hscan by (revert Hdef; unfold entry_of, stored, raise; by case_match).
  destruct (proj1 (Hfirst service' R' Hsv' ERsv' i scan Ei) Hscan) as [-> Hhas].
  revert Hply. unfold entry_of, service_route_rank. cbn [fst snd Nat.eqb andb]. rewrite Hhas.
  rewrite entry_rank. intros Hply%entry_range. cbn [orb] in Hply |- *.
  rewrite Hhas in Ein'. cbn [negb] in Ein'.
  destruct (used_rank_worse l1 c l2 l1' c' l2') as [[-> Eu]|Hlt]; [done..| |by right].
  left. rewrite ER in ER'. injection ER' as <-. rewrite Ed in Ei. injection Ei as <-. by rewrite Eu.
Qed.

(** So it is in the table of the best routes, and the only unscoped one there. *)
Lemma default_in_table (s all : list (Route A)) x :
  best_of all s → Forall plain all → is_default x → is_scoped x = false → x ∈ all →
  (∀ y, y ∈ all → is_default y → y = x ∨ r_rank x < r_rank y) →
  x ∈ mark None s ∧ ∀ r, r ∈ mark None s → is_default r → is_scoped r = false → r = x.
Proof.
  intros Hbest Hplain Hd Hxs Hx Hworse. pose proof (proj1 (Forall_forall _ _) Hplain) as Hpl.
  assert (∀ z, same_group z x → is_default z) as Hgroup.
  { intros z [G1 G2]. split; unfold dest in G1; rewrite ?G1, ?G2; apply Hd. }
  assert (x ∈ s) as Hxs'.
  { destruct (proj2 (proj2 Hbest) x Hx) as (z & Hz & [G I] & Rz).
    destruct (Hworse z (proj1 (proj2 Hbest) z Hz) (Hgroup z G)) as [->|]; [done|lia]. }
  destruct (best_unscoped s x) as [Hin Honly]; [apply Hbest| |done|done| |].
  - apply Forall_forall. intros z Hz. apply Hpl, Hbest, Hz.
  - intros y Hy G. destruct (Hworse y) as [->|Hlt]; [by apply Hbest|by apply Hgroup|by left|].
    right. right. split; [by symmetry|left; lia].
  - split; [done|]. intros r Hrin Hdr. apply Honly; [done|]. by apply default_group.
Qed.

(** The candidates' lists, as [ElectionResultsCopy] finds them. *)
Lemma candidates_known ppp order unset (services : list (Service A)) dict results dict' :
  Forall has_routes services →
  ElectionResultsCopy ppp order unset services dict = Some (Some results, dict') →
  (∀ service, service ∈ services → routelist_of (sv_serviceID service) = sv_routelist service) →
  StronglySorted worse_or_equal (er_candidates results) ∧
  known services (er_candidates results).
Proof.
  intros Hr E Hknown. destruct (ElectionResultsCopy_candidates ppp order unset services dict Hr)
    as (res & dict2 & E2 & H). rewrite E in E2. injection E2 as <- <-. destruct H as (Hp & _ & Hs).
  split; [done|]. intros c. rewrite Hp. intros (service & Hin & Hc)%list_elem_of_omap.
  destruct (candidate_of_inv _ _ _ _ _ Hc) as (R & d & ER & Ed & Eid & Ein).
  exists service, R, d. split_and!; [done|done| |done|done]. rewrite Eid, Hknown by done. done.
Qed.

(** C14: the default route of the primary service wins, unless it is itself marked scoped:
    it is in the table, unscoped, and every other default route in the table is scoped.
    The ranks of the candidates have to differ (with equal ranks it need not be so, see
    [primary_tie] in RouteDemo), their routes have to be [regular]: each for an interface,
    none excluded, ranks in their range and Never only if scoped, and those for one
    destination and interface scoped alike; the lists of routes have their default route
    in front, and they are few enough for the sizes computed in 32 bits. *)
Theorem primary_default_route ppp order unset (services : list (Service A)) dict results dict' nwi c rl nwi' :
  Forall has_routes services →
  ElectionResultsCopy ppp order unset services dict = Some (Some results, dict') →
  (∀ service, service ∈ services → routelist_of (sv_serviceID service) = sv_routelist service) →
  (∀ service R, service ∈ services → sv_routelist service = Some R → default_first R) →
  NoDup (cd_rank <$> er_candidates results) →
  (∀ n, can_alloc n = true) → 0 < room routes_n_static results < 2 ^ 30 →
  Z.of_nat (length (offered false (er_candidates results))) < 2 ^ 29 →
  regular (offered false (er_candidates results)) →
  ElectionResultsGetPrimary routelist_of routes_n_static other_candidate (Some results) nwi =
    Some (Some c, Some rl, nwi') →
  ∃ R d, routelist_of (cd_serviceID c) = Some R ∧ rl_list R !! 0%nat = Some d ∧ is_default d ∧
    (is_scoped d = false →
     stored d (cd_rank c) ∈ rl_list rl ∧ is_scoped (stored d (cd_rank c)) = false ∧
     ∀ r, r ∈ rl_list rl → is_default r → is_scoped r = false → r = stored d (cd_rank c)).
Proof.
  intros Hr Ecopy Hknown Hfirst Hnd Hal Hroom Hn Hreg Eprim.
  destruct (candidates_known _ _ _ _ _ _ _ Hr Ecopy Hknown) as [Hsort Hcands].
  set (cs := er_candidates results) in *.
  (* the candidate *)
  pose proof (GetPrimary_spec routelist_of routes_n_static other_candidate results nwi) as Hspec.
  destruct (add_routes_best (room routes_n_static results) 0 [] None (offered false cs))
    as (res & Eadd & (s & Es & Hbest) & _);
    [done|done|lia|done|apply list_ok_new; lia|exists []; split; [done|apply best_of_nil]|apply Hreg..|].
  fold cs in Hspec. rewrite Eadd in Hspec. destruct Hspec as [nwi2 Hspec].
  rewrite Eprim in Hspec. injection Hspec as Hel <- _. cbn in Es, Hbest. symmetry in Hel.
  unfold elected in Hel. destruct (List.find _ cs) as [c'|] eqn:Ef; [|done].
  assert (c' = c) as -> by (destruct (is_null routelist_of c'); by simplify_eq). clear Hel.
  destruct (find_split _ _ Ef) as (l1 & l2 & Ecs & Hl1 & Hlead).
  destruct (Hcands c) as (service & R & d & Hsv & ERsv & ER & Ed & Ein); [rewrite Ecs; set_solver|].
  unfold leads, may_lead in Hlead.
  apply andb_prop in Hlead as [[Hinel%negb_true_iff Hnever%negb_true_iff]%andb_prop Hdem%negb_true_iff].
  rewrite Ein in Hinel. apply negb_false_iff in Hinel.
  assert (is_default d) as Hd by by apply (Hfirst service R Hsv ERsv 0%nat d Ed).
  exists R, d. split_and!; [done..|]. intros Hdsc.
  set (x := stored d (cd_rank c)).
  assert (used_rank other_candidate false c = cd_rank c) as Hused.
  { unfold used_rank. by rewrite Hdem, andb_false_r. }
  assert (x ∈ entry_of <$> offered false cs) as Hx.
  { apply list_elem_of_fmap. exists (d, cd_rank c). split; [done|]. apply offered_elem.
    exists l1, c, l2, R, 0%nat, d. split_and!; [done..|]. rewrite Hl1. cbn [orb]. rewrite Hused.
    unfold service_route_rank. by rewrite Hinel. }
  assert (Forall plain (entry_of <$> offered false cs)) as Hplain by apply Hreg.
  pose proof (proj1 (Forall_forall _ _) Hplain) as Hpl.
  assert (r_rank x = cd_rank c) as Hxr by apply entry_rank.
  pose proof (entry_range d (cd_rank c) (Hpl x Hx)) as Hcr.
  rewrite (never_lead c Hcr) in Hnever. apply Z.leb_gt in Hnever.
  assert (is_scoped x = false) as Hxs.
  { unfold x, stored. rewrite raise_scoped, (never_flags_spec _ Hcr), (proj2 (Z.leb_gt _ _) Hnever).
    change (is_scoped (with_rank (cd_rank c) d)) with (is_scoped d). by rewrite Hdsc. }
  rewrite Es. destruct (default_in_table s (entry_of <$> offered false cs) x) as [Hin Honly];
    [done|done|by unfold x, stored, raise; case_match|done|done| |by split_and!].
  rewrite Hxr. unfold x. rewrite Ecs in *. by apply (defaults_worse services l1 c l2 R d).
Qed.
End default.
