(* ===== verification/RouteApply.v ===== *)
(** * IPMonitor: looking up a route, and applying a table

    [RouteListLookup] finds the longest match: a reference definition of what
    matches how well, and the loop against it. [RouteListApply] turns one table in
    the kernel into another: which calls it makes. *)

From S2P Require Import Prelude RouteTypes RouteList RouteInv.

Local Open Scope Z_scope.

Section lookup.
Context {A : Type} `{!RouteListInfo A}.
Implicit Types (candidate c : Route A) (routes : list (Route A)).
Variables (addr : address) (n_bits ifindex : Z) (lookup_flags : RouteLookupFlags).

(** How many bits of the address a route matches; [None] when it is not to be
    used. A host route only serves the lookup of an address. *)
Definition match_length candidate : option Z :=
  if lookup_skips addr ifindex lookup_flags candidate then None
  else if has (r_flags candidate) kRouteFlagsIsHost then
    if (n_bits =? all_bits_set) &&
       (RouteAddressCompare (route_destination (r_addrs candidate)) addr =? 0)
    then Some n_bits else None
  else if route_same_subnet candidate addr && (r_prefix_length candidate <=? n_bits)
  then Some (r_prefix_length candidate) else None.

(** [found] is the first of the longest matches. *)
Definition longest_match routes (found : option (nat * Route A)) : Prop :=
  match found with
  | None => ∀ c, c ∈ routes → match_length c = None
  | Some (i, c) => routes !! i = Some c ∧ ∃ m, match_length c = Some m ∧
      ∀ j c' m', routes !! j = Some c' → match_length c' = Some m' → m' ≤ m ∧ (m' = m → (i ≤ j)%nat)
  end.

Lemma match_length_le c m : match_length c = Some m → m ≤ n_bits.
Proof.
  unfold match_length. repeat case_match; try done; intros [= <-]; [lia|].
  match goal with H : _ && _ = true |- _ => apply andb_prop in H as [_ ?%Z.leb_le] end. done.
Qed.

Lemma lookup_middle_cases {B} (pre post : list B) (x y : B) j :
  (pre ++ x :: post) !! j = Some y → pre !! j = Some y ∨ j = length pre ∧ y = x ∨ (length pre < j)%nat.
Proof.
  destruct (Nat.lt_trichotomy j (length pre)) as [Hlt|[->|Hgt]]; [|rewrite list_lookup_middle by done|auto].
  - rewrite lookup_app_l by done. auto.
  - intros [= ->]. auto.
Qed.

(** A match as long as can be ends the search. *)
Lemma longest_full pre c post :
  match_length c = Some n_bits → (∀ c' m, c' ∈ pre → match_length c' = Some m → m < n_bits) →
  longest_match (pre ++ c :: post) (Some (length pre, c)).
Proof.
  intros Hc Hpre. split; [by apply list_lookup_middle|]. exists n_bits. split; [done|].
  intros j c' m' Hj Hm. split; [by eapply match_length_le|]. intros ->.
  destruct (lookup_middle_cases _ _ _ _ _ Hj) as [Hj'|[[-> _]|?]]; [|lia|lia].
  specialize (Hpre c' n_bits (list_elem_of_lookup_2 _ _ _ Hj') Hm). lia.
Qed.

Lemma longest_keep pre c found :
  longest_match pre found → match_length c = None → longest_match (pre ++ [c]) found.
Proof.
  destruct found as [[i b]|]; cbn.
  - intros (Hi & m & Hm & Hbest) Hc. split; [by apply lookup_app_l_Some|]. exists m. split; [done|].
    intros j c' m' Hj Hm'. destruct (lookup_middle_cases _ _ _ _ _ Hj) as [Hj'|[[_ ->]|Hlt]].
    + by eapply Hbest.
    + congruence.
    + apply lookup_lt_Some in Hj. rewrite length_app in Hj. cbn in Hj. lia.
  - intros Hpre Hc x [Hx| ->%list_elem_of_singleton]%elem_of_app; auto.
Qed.

Lemma longest_better pre c m found :
  longest_match pre found → match_length c = Some m →
  longest_match (pre ++ [c])
    (match found with
     | Some (_, b) => if default 0 (match_length b) <? m then Some (length pre, c) else found
     | None => Some (length pre, c)
     end).
Proof.
  intros Hf Hc.
  assert (∀ j c' m', (pre ++ [c]) !! j = Some c' → match_length c' = Some m' →
    (pre !! j = Some c' ∨ j = length pre ∧ m' = m)) as Hcase.
  { intros j c' m' Hj Hm'. destruct (lookup_middle_cases _ _ _ _ _ Hj) as [Hj'|[[-> ->]|Hlt]]; [by left| |].
    - right. split; [done|congruence].
    - apply lookup_lt_Some in Hj. rewrite length_app in Hj. cbn in Hj. lia. }
  destruct found as [[i b]|].
  - destruct Hf as (Hi & mb & Hmb & Hbest). rewrite Hmb. cbn [default from_option id].
    apply lookup_lt_Some in Hi as Hlt.
    destruct (Z.ltb_spec mb m) as [Hlt'|Hge].
    + split; [by apply list_lookup_middle|]. exists m. split; [done|]. intros j c' m' Hj Hm'.
      destruct (Hcase j c' m' Hj Hm') as [Hj'|[-> ->]]; [|lia].
      destruct (Hbest j c' m' Hj' Hm'). lia.
    + split; [by apply lookup_app_l_Some|]. exists mb. split; [done|]. intros j c' m' Hj Hm'.
      destruct (Hcase j c' m' Hj Hm') as [Hj'|[-> ->]]; [by eapply Hbest|lia].
  - split; [by apply list_lookup_middle|]. exists m. split; [done|]. intros j c' m' Hj Hm'.
    destruct (Hcase j c' m' Hj Hm') as [Hj'|[-> ->]]; [|lia].
    rewrite (Hf c') in Hm'; [done|by eapply list_elem_of_lookup_2].
Qed.

Lemma lookup_scan_longest rest pre best :
  longest_match pre best →
  (∀ c m, c ∈ pre → match_length c = Some m → m < n_bits) →
  (∀ i b, best = Some (i, b) → match_length b = Some (r_prefix_length b)) →
  longest_match (pre ++ rest) (lookup_scan addr n_bits ifindex lookup_flags (length pre) rest best).
Proof.
  revert pre best. induction rest as [|c rest IH]; intros pre best Hbest Hless Hb.
  { cbn. by rewrite app_nil_r. }
  assert (pre ++ c :: rest = (pre ++ [c]) ++ rest) as E by by rewrite <-app_assoc.
  assert (S (length pre) = length (pre ++ [c])) as EL by (rewrite length_app; cbn; lia).
  assert (match_length c = None → longest_match (pre ++ c :: rest)
    (lookup_scan addr n_bits ifindex lookup_flags (S (length pre)) rest best)) as Hskip.
  { intros Hc. rewrite E, EL. apply IH; [by apply longest_keep| |done].
    intros x m [Hx| ->%list_elem_of_singleton]%elem_of_app Hm; [by eapply Hless|congruence]. }
  cbn [lookup_scan]. unfold match_length in Hskip at 1.
  destruct (lookup_skips addr ifindex lookup_flags c) eqn:S1; [by apply Hskip|].
  destruct (has (r_flags c) kRouteFlagsIsHost) eqn:S2.
  { destruct (_ && _) eqn:S3 in Hskip |- *; [|by apply Hskip].
    apply longest_full; [|done]. unfold match_length. by rewrite S1, S2, S3. }
  destruct (route_same_subnet c addr) eqn:S3; cbn [negb andb] in Hskip |- *; [|by apply Hskip].
  destruct (Z.eqb_spec (r_prefix_length c) n_bits) as [P|P].
  { apply longest_full; [|done]. unfold match_length. rewrite S1, S2, S3, P. by rewrite Z.leb_refl. }
  rewrite Z.gtb_ltb. destruct (Z.ltb_spec n_bits (r_prefix_length c)) as [L|L].
  { apply Hskip. by rewrite (proj2 (Z.leb_gt _ _)). }
  assert (match_length c = Some (r_prefix_length c)) as Hc.
  { unfold match_length. rewrite S1, S2, S3. cbn [andb]. by rewrite (proj2 (Z.leb_le _ _)). }
  pose proof (longest_better pre c _ best Hbest Hc) as Hnew.
  assert (∀ x m, x ∈ pre ++ [c] → match_length x = Some m → m < n_bits) as Hless'.
  { intros x m [Hx| ->%list_elem_of_singleton]%elem_of_app Hm; [by eapply Hless|].
    rewrite Hc in Hm. injection Hm as <-. lia. }
  destruct best as [[i b]|].
  - rewrite (Hb i b eq_refl) in Hnew. cbn [default from_option id] in Hnew. rewrite Z.gtb_ltb.
    destruct (Z.ltb_spec (r_prefix_length b) (r_prefix_length c)); rewrite E, EL; apply IH; try done.
    by intros ? ? [= <- <-].
  - rewrite E, EL. apply IH; [done..|]. by intros ? ? [= <- <-].
Qed.

(** C17: RouteListLookup returns the first of the routes that match the address on the
    most bits, among those over the wanted interface (or over another one) whose
    gateway is not the address itself, and NULL only if none matches. *)
Theorem RouteListLookup_longest routes :
  longest_match routes (RouteListLookup routes addr n_bits ifindex lookup_flags).
Proof.
  unfold RouteListLookup. apply (lookup_scan_longest routes []).
  - intros c Hc. by apply elem_of_nil in Hc.
  - intros c m Hc. by apply elem_of_nil in Hc.
  - done.
Qed.
End lookup.

(** ** IPMonitor: applying a routing table

    [RouteProcess] and [RouteListApply]: which calls of [route_apply] are made, in
    which order, and what the control flags record of them. What the kernel answers
    is arbitrary. *)

(** The control flags do not take part in the comparison with an address. *)
Class RouteListLaws (A : Type) `{!RouteListInfo A} : Prop :=
  same_subnet_control : ∀ fl (r : Route A) a,
    route_same_subnet (with_control fl r) a = route_same_subnet r a.

#[export] Instance IPv4RouteListLaws : RouteListLaws IPv4Addrs.
Proof. done. Qed.
#[export] Instance IPv6RouteListLaws : RouteListLaws IPv6Addrs.
Proof. done. Qed.

Section apply.
Context {A : Type} `{!RouteListInfo A} `{!RouteListLaws A}.
Variable kernel : list rt_msg → rt_msg → Z.
Variable S_netboot : bool.
Variable sockfd : Z.
Implicit Types (r route : Route A) (routes : list (Route A)) (s : apply_state (A := A)).

Notation route_apply := (route_apply kernel S_netboot sockfd).
Notation process_apply := (process_apply kernel S_netboot sockfd).
Notation RouteProcess_add := (RouteProcess_add kernel S_netboot sockfd).

Definition processed r : Prop := has (r_control_flags r) kControlFlagsProcessed = true.
Definition is_added r : Prop := has (r_control_flags r) kControlFlagsAdded = true.

(** The index of the route a route's gateway is reached by. *)
Definition gateway_index routes r : option nat :=
  if has (r_flags r) kRouteFlagsHasGateway
  then fst <$> RouteListLookup routes (route_gateway (r_addrs r)) all_bits_set (r_ifindex r)
                 kRouteLookupFlagsNone
  else None.

(** The calls to add a route: once, or once more after an old one is deleted. *)
Inductive attempt r : list (call (A := A)) → Prop :=
| attempt_once e : e ≠ EEXIST → attempt r [MkCall r RTM_ADD e]
| attempt_again e e' :
    attempt r [MkCall r RTM_ADD EEXIST; MkCall r RTM_DELETE e; MkCall r RTM_ADD e'].

Definition succeeded (cs : list (call (A := A))) : bool :=
  match last cs with Some c => applied (c_result c) | None => false end.

(** ** One route *)

Lemma route_apply_spec route cmd s :
  ∃ e msgs, route_apply route cmd s =
    (e, MkApply (ap_routes s) (ap_calls s ++ [MkCall route cmd e]) msgs).
Proof. unfold RouteList.route_apply. destruct (route_apply_msg _ _ _ _); eauto. Qed.

Lemma process_apply_spec i route s :
  ∃ cs msgs, attempt route cs ∧
    process_apply i route s =
      (let s' := MkApply (ap_routes s) (ap_calls s ++ cs) msgs in
       if succeeded cs then set_control i kControlFlagsAdded s' else s').
Proof.
  unfold RouteList.process_apply.
  destruct (route_apply_spec route RTM_ADD s) as (e & msgs & ->).
  destruct (Z.eqb_spec e EEXIST) as [->|N].
  - destruct (route_apply_spec route RTM_DELETE
      (MkApply (ap_routes s) (ap_calls s ++ [MkCall route RTM_ADD EEXIST]) msgs)) as (e & msgs2 & ->).
    cbn [ap_routes ap_calls].
    destruct (route_apply_spec route RTM_ADD (MkApply (ap_routes s)
      ((ap_calls s ++ [MkCall route RTM_ADD EEXIST]) ++ [MkCall route RTM_DELETE e]) msgs2))
      as (e' & msgs3 & ->).
    cbn [ap_routes ap_calls]. eexists _, msgs3. split; [by apply (attempt_again route e e')|].
    by rewrite <-!app_assoc.
  - eexists _, msgs. split; [by apply (attempt_once route e)|]. done.
Qed.

(** ** The control flags do not matter to the lookup *)

Definition alike_routes routes routes' : Prop :=
  Forall2 (λ r r', ∃ fl, r' = with_control fl r) routes routes'.

Lemma lookup_scan_alike addr n ifx fl rest rest' i b b' :
  alike_routes rest rest' →
  (match b, b' with
   | Some (j, r), Some (j', r') => j = j' ∧ ∃ fl, r' = with_control fl r
   | None, None => True
   | _, _ => False
   end) →
  fst <$> lookup_scan addr n ifx fl i rest b = fst <$> lookup_scan addr n ifx fl i rest' b'.
Proof.
  intros Hr. revert i b b'. induction Hr as [|r r' rest rest' [cf ->] Hr IH]; intros i b b' Hb.
  { cbn. destruct b as [[j r]|], b' as [[j' r']|]; try done. by destruct Hb as [-> _]. }
  cbn [lookup_scan]. rewrite same_subnet_control.
  change (lookup_skips addr ifx fl (with_control cf r)) with (lookup_skips addr ifx fl r).
  cbn [with_control r_flags r_addrs r_prefix_length].
  destruct (lookup_skips addr ifx fl r); [by apply IH|].
  destruct (has (r_flags r) kRouteFlagsIsHost); [by destruct (_ && _); [|apply IH]|].
  destruct (negb (route_same_subnet r addr)); [by apply IH|].
  destruct (r_prefix_length r =? n); [done|]. destruct (r_prefix_length r >? n); [by apply IH|].
  destruct b as [[j q]|], b' as [[j' q']|]; try done.
  - destruct Hb as [<- [cq ->]]. cbn [with_control r_prefix_length].
    destruct (r_prefix_length r >? r_prefix_length q); apply IH; eauto.
  - apply IH. eauto.
Qed.

Lemma gateway_index_alike routes routes' r fl :
  alike_routes routes routes' → gateway_index routes' (with_control fl r) = gateway_index routes r.
Proof.
  intros H. unfold gateway_index. cbn [with_control r_flags r_addrs r_ifindex]. case_match; [|done].
  symmetry. by apply lookup_scan_alike.
Qed.

(** ** Progress through the new list *)

Section progress.
Variables (routes0 : list (Route A)) (calls0 : list (call (A := A))).

(** Where a route stands in comparison with the list at the beginning. *)
Definition stands (att : list (nat * list (call (A := A)))) (i : nat) r r0 : Prop :=
  (∃ fl, r = with_control fl r0) ∧ (processed r0 → r = r0) ∧
  (i ∈ att.*1 → processed r) ∧
  (¬ processed r0 → is_added r ↔ is_added r0 ∨ ∃ cs, (i, cs) ∈ att ∧ succeeded cs = true).

(** A route is attempted after the route of its gateway. *)
Definition in_order (att : list (nat * list (call (A := A)))) : Prop :=
  ∀ k i cs, att !! k = Some (i, cs) → ∃ r0, routes0 !! i = Some r0 ∧ ¬ processed r0 ∧
    (∃ fl, attempt (with_control fl r0) cs) ∧
    ∀ j, gateway_index routes0 r0 = Some j →
      (∃ rj, routes0 !! j = Some rj ∧ processed rj ∧ is_added rj) ∨
      ∃ k' cs', (k' < k)%nat ∧ att !! k' = Some (j, cs').

Record progress (att : list (nat * list (call (A := A)))) s : Prop := {
  pr_calls : ap_calls s = calls0 ++ concat att.*2;
  pr_length : length (ap_routes s) = length routes0;
  pr_stands : ∀ i r0, routes0 !! i = Some r0 → ∃ r, ap_routes s !! i = Some r ∧ stands att i r r0;
  pr_once : NoDup att.*1;
  pr_order : in_order att;
}.

(** A route that needs no other route has been attempted when it is processed;
    [skip] is not looked at. *)
Definition complete_but (skip : option nat) (att : list (nat * list (call (A := A)))) s : Prop :=
  ∀ i r0 r, skip ≠ Some i → routes0 !! i = Some r0 → ap_routes s !! i = Some r →
    ¬ processed r0 → processed r → gateway_index routes0 r0 = None → i ∈ att.*1.
Notation complete := (complete_but None).

Lemma progress_inv att s i r :
  progress att s → ap_routes s !! i = Some r → ∃ r0, routes0 !! i = Some r0 ∧ stands att i r r0.
Proof.
  intros H Hi. apply lookup_lt_Some in Hi as Hlt. rewrite (pr_length _ _ H) in Hlt.
  apply lookup_lt_is_Some in Hlt as [r0 H0]. exists r0. split; [done|].
  destruct (pr_stands _ _ H i r0 H0) as (r' & Hr' & Hst). congruence.
Qed.

Lemma progress_alike att s : progress att s → alike_routes routes0 (ap_routes s).
Proof.
  intros H. apply Forall2_same_length_lookup_2; [symmetry; apply (pr_length _ _ H)|].
  intros i r0 r H0 Hr. destruct (pr_stands _ _ H i r0 H0) as (r' & Hr' & Hst).
  rewrite Hr in Hr'. injection Hr' as <-. apply Hst.
Qed.

Lemma set_control_lookup i f s j :
  ap_routes (set_control i f s) !! j =
  if decide (j = i) then (λ r, with_control (Z.lor (r_control_flags r) f) r) <$> ap_routes s !! i
  else ap_routes s !! j.
Proof.
  unfold set_control. destruct (ap_routes s !! i) as [r|] eqn:E; cbn [ap_routes].
  - case_decide as Ej; [subst j|by rewrite list_lookup_insert_ne].
    rewrite list_lookup_insert, decide_True; [done|]. split; [done|by eapply lookup_lt_Some].
  - by case_decide; subst.
Qed.

Lemma set_control_length i f s : length (ap_routes (set_control i f s)) = length (ap_routes s).
Proof. unfold set_control. case_match; [|done]. cbn. apply length_insert. Qed.

Lemma set_control_calls i f s : ap_calls (set_control i f s) = ap_calls s.
Proof. unfold set_control. by case_match. Qed.

Lemma progress_processed att s i r :
  progress att s → ap_routes s !! i = Some r → ¬ processed r →
  progress att (set_control i kControlFlagsProcessed s).
Proof.
  intros H Hi Hnp. constructor.
  - rewrite set_control_calls. apply H.
  - rewrite set_control_length. apply H.
  - intros j r0 H0. destruct (pr_stands _ _ H j r0 H0) as (r' & Hr' & Hst).
    rewrite set_control_lookup. case_decide as Ej; [|by exists r'].
    subst j. destruct Hst as ([fl ->] & Hp & Hatt & Hadd). rewrite Hi in Hr'. injection Hr' as ->. rewrite Hi. eexists. split; [done|].
    unfold stands. split_and!.
    + by exists (Z.lor fl kControlFlagsProcessed).
    + intros Hp0. destruct Hnp. by rewrite Hp.
    + intros _. unfold processed. cbn. by rewrite has_lor, orb_comm.
    + intros Hn0. rewrite <-(Hadd Hn0). unfold is_added. cbn. by rewrite has_lor, orb_comm.
  - apply H.
  - apply H.
Qed.

Lemma progress_attempted att s i r0 fl :
  progress att s → routes0 !! i = Some r0 → ¬ processed r0 → i ∉ att.*1 →
  (∀ r, ap_routes s !! i = Some r → processed r) →
  (∀ j, gateway_index routes0 r0 = Some j →
    (∃ rj, routes0 !! j = Some rj ∧ processed rj ∧ is_added rj) ∨ j ∈ att.*1) →
  ∃ cs, progress (att ++ [(i, cs)]) (process_apply i (with_control fl r0) s).
Proof.
  intros H H0 Hn0 Hfresh Hproc Hgw.
  destruct (process_apply_spec i (with_control fl r0) s) as (cs & msgs & Hcs & ->). exists cs.
  set (s1 := MkApply (ap_routes s) (ap_calls s ++ cs) msgs). cbv zeta.
  constructor.
  - assert (ap_calls (if succeeded cs then set_control i kControlFlagsAdded s1 else s1) = ap_calls s ++ cs)
      as -> by (case_match; [by rewrite set_control_calls|done]).
    rewrite (pr_calls _ _ H), fmap_app, concat_app, <-app_assoc. cbn. by rewrite app_nil_r.
  - case_match; rewrite ?set_control_length; apply H.
  - intros j rj0 Hj0. destruct (pr_stands _ _ H j rj0 Hj0) as (r' & Hr' & [cf ->] & Hp & Hatt & Hadd).
    destruct (decide (j = i)) as [->|Nj].
    + rewrite H0 in Hj0. injection Hj0 as <-. specialize (Hproc _ Hr').
      assert (∀ cs', (i, cs') ∈ att ++ [(i, cs)] → cs' = cs) as Honly.
      { intros cs' [Hin|[= ->]%list_elem_of_singleton]%elem_of_app; [|done].
        destruct Hfresh. apply list_elem_of_fmap. by exists (i, cs'). }
      destruct (succeeded cs) eqn:Ec.
      * rewrite set_control_lookup, decide_True by done. unfold s1. cbn [ap_routes]. rewrite Hr'.
        eexists. split; [done|]. unfold stands. split_and!; [by eexists|done| |].
        -- intros _. unfold processed in *. cbn in *. by rewrite has_lor, Hproc.
        -- intros _. unfold is_added. cbn. rewrite has_lor, orb_comm. split; [|done]. intros _. right.
           exists cs. split; [apply elem_of_app; right; by left|done].
      * exists (with_control cf r0). split; [done|]. unfold stands. split_and!; [by eexists|done|done|].
        intros _. rewrite (Hadd Hn0). split.
        -- intros [?|(cs' & Hin & Hs)]; [by left|]. right. exists cs'. split; [|done]. apply elem_of_app. by left.
        -- intros [?|(cs' & Hin & Hs)]; [by left|]. rewrite (Honly _ Hin) in Hs. congruence.
    + exists (with_control cf rj0). split.
      { case_match; [|done]. by rewrite set_control_lookup, decide_False. }
      unfold stands. split_and!; [by eexists|done| |].
      * rewrite fmap_app. intros [?|[= ]%list_elem_of_singleton]%elem_of_app; [auto|done].
      * intros Hn. rewrite (Hadd Hn). split.
        -- intros [?|(cs' & Hin & Hs)]; [by left|]. right. exists cs'. split; [|done]. apply elem_of_app. by left.
        -- intros [?|(cs' & [Hin|[= ? ?]%list_elem_of_singleton]%elem_of_app & Hs)]; [by left|eauto|done].
  - rewrite fmap_app. apply NoDup_app. split_and!; [apply H| |apply NoDup_singleton].
    intros j Hj ->%list_elem_of_singleton. done.
  - intros k j cs' Hk. destruct (lookup_middle_cases att [] (i, cs) (j, cs') k Hk) as [Hk'|[[-> [= <- <-]]|Hlt]].
    + destruct (pr_order _ _ H k j cs' Hk') as (rj0 & Hj0 & Hn & Hat & Ho). exists rj0.
      split_and!; [done..|]. intros j' Hj'. destruct (Ho j' Hj') as [?|(k' & cs2 & Hlt & Hk2)]; [by left|].
      right. exists k', cs2. split; [done|]. by apply lookup_app_l_Some.
    + exists r0. split_and!; [done|done|by exists fl|]. intros j' Hj'.
      destruct (Hgw j' Hj') as [?|Hin]; [by left|]. right.
      apply list_elem_of_fmap in Hin as ([j2 cs2] & -> & Hin). apply list_elem_of_lookup_1 in Hin as [k' Hk'].
      exists k', cs2. split; [by eapply lookup_lt_Some|]. by apply lookup_app_l_Some.
    + apply lookup_lt_Some in Hk. rewrite length_app in Hk. cbn in Hk. lia.
Qed.

Lemma process_apply_other i route s j :
  j ≠ i → ap_routes (process_apply i route s) !! j = ap_routes s !! j.
Proof.
  intros N. destruct (process_apply_spec i route s) as (cs & msgs & _ & ->). cbv zeta.
  case_match; [by rewrite set_control_lookup, decide_False|done].
Qed.

Lemma process_apply_processed i route s r r' :
  ap_routes s !! i = Some r → processed r →
  ap_routes (process_apply i route s) !! i = Some r' → processed r'.
Proof.
  intros Hi Hp. destruct (process_apply_spec i route s) as (cs & msgs & _ & ->). cbv zeta.
  case_match; [rewrite set_control_lookup, decide_True by done|]; cbn [ap_routes]; rewrite Hi;
    intros [= <-]; [|done].
  unfold processed in *. cbn [with_control r_control_flags]. by rewrite has_lor, Hp.
Qed.

(** What a call of [RouteProcess] does. *)
Definition step_done att s i (b : bool) s' : Prop :=
  ∃ more, progress (att ++ more) s' ∧ complete (att ++ more) s' ∧
    (∀ j r, ap_routes s !! j = Some r → processed r → ap_routes s' !! j = Some r) ∧
    (∀ j, j ∈ more.*1 → ∃ r, ap_routes s !! j = Some r ∧ ¬ processed r) ∧
    (∀ r', ap_routes s' !! i = Some r' → processed r') ∧
    (b = true → ∃ r0, routes0 !! i = Some r0 ∧ (processed r0 ∧ is_added r0 ∨ i ∈ (att ++ more).*1)).

Context (Hinit : ∀ r0, r0 ∈ routes0 → is_added r0 → processed r0).

Lemma step_nothing att s i b :
  progress att s → complete att s → (∀ r', ap_routes s !! i = Some r' → processed r') →
  (b = true → ∃ r0, routes0 !! i = Some r0 ∧ (processed r0 ∧ is_added r0 ∨ i ∈ att.*1)) →
  step_done att s i b s.
Proof.
  intros H Hc Hp Hb. exists []. rewrite app_nil_r. split_and!; try done.
  cbn. by intros j ?%elem_of_nil.
Qed.

(** The route [i] is marked as processed, others may be processed, and it is tried. *)
Lemma step_attempt att s i r r0 s2 more fl :
  progress att s → ap_routes s !! i = Some r → ¬ processed r → routes0 !! i = Some r0 → ¬ processed r0 →
  let s1 := set_control i kControlFlagsProcessed s in
  progress (att ++ more) s2 → complete_but (Some i) (att ++ more) s2 →
  (∀ j r, ap_routes s1 !! j = Some r → processed r → ap_routes s2 !! j = Some r) →
  (∀ j, j ∈ more.*1 → ∃ r, ap_routes s1 !! j = Some r ∧ ¬ processed r) →
  (∀ j, gateway_index routes0 r0 = Some j →
    (∃ rj, routes0 !! j = Some rj ∧ processed rj ∧ is_added rj) ∨ j ∈ (att ++ more).*1) →
  step_done att s i true (process_apply i (with_control fl r0) s2).
Proof.
  intros H Hi Hnp H0 Hn0 s1 H2 Hc2 Hkeep Hmore Hgw.
  assert (∃ r1, ap_routes s1 !! i = Some r1 ∧ processed r1) as (r1 & Hi1 & Hp1).
  { unfold s1. rewrite set_control_lookup, decide_True, Hi by done. eexists. split; [done|].
    unfold processed. cbn. by rewrite has_lor, orb_comm. }
  assert (i ∉ (att ++ more).*1) as Hfresh.
  { rewrite fmap_app. intros [Hin|Hin]%elem_of_app.
    - destruct (progress_inv _ _ _ _ H Hi) as (r0' & _ & _ & _ & Hatt & _). by apply Hnp, Hatt.
    - destruct (Hmore i Hin) as (r' & Hr' & Hnr'). rewrite Hi1 in Hr'. by injection Hr' as <-. }
  assert (ap_routes s2 !! i = Some r1) as Hi2 by by apply Hkeep.
  destruct (progress_attempted (att ++ more) s2 i r0 fl H2 H0 Hn0 Hfresh) as [cs Hprog]; [|done|].
  { intros r' Hr'. rewrite Hi2 in Hr'. by injection Hr' as <-. }
  exists (more ++ [(i, cs)]). rewrite app_assoc. split_and!; [done| | | | |].
  - intros j rj0 rj _ Hj0 Hj Hnj Hpj Hg. rewrite fmap_app. apply elem_of_app.
    destruct (decide (j = i)) as [->|N]; [right; by left|left].
    rewrite process_apply_other in Hj by done. apply (Hc2 j rj0 rj); congruence.
  - intros j rj Hj Hpj. destruct (decide (j = i)) as [->|N]; [congruence|].
    rewrite process_apply_other by done. apply Hkeep; [|done].
    unfold s1. by rewrite set_control_lookup, decide_False.
  - intros j. rewrite fmap_app. intros [Hj| ->%list_elem_of_singleton]%elem_of_app; [|by exists r].
    destruct (Hmore j Hj) as (rj & Hrj & Hnj). exists rj. split; [|done].
    unfold s1 in Hrj. rewrite set_control_lookup in Hrj. case_decide; [|done]. subst j.
    rewrite fmap_app in Hfresh. destruct Hfresh. apply elem_of_app. by right.
  - intros r'. by apply (process_apply_processed i _ s2 r1).
  - intros _. exists r0. split; [done|]. right. rewrite fmap_app. apply elem_of_app. right. by left.
Qed.

Lemma RouteProcess_add_unfold levels i s :
  RouteProcess_add levels i s =
  match ap_routes s !! i with
  | None => (false, s)
  | Some route =>
      if has (r_control_flags route) kControlFlagsProcessed
      then (has (r_control_flags route) kControlFlagsAdded, s)
      else
        let s1 := set_control i kControlFlagsProcessed s in
        let route1 := with_control (Z.lor (r_control_flags route) kControlFlagsProcessed) route in
        match gateway_index (ap_routes s1) route1, levels with
        | None, _ => (true, process_apply i route1 s1)
        | Some _, O => (false, s1)
        | Some j, S levels =>
            let '(added, s2) := RouteProcess_add levels j s1 in
            if added then (true, process_apply i route1 s2) else (false, s2)
        end
  end.
Proof.
  unfold gateway_index. destruct levels; cbn [RouteList.RouteProcess_add].
  all: destruct (ap_routes s !! i) as [r|]; [|done].
  all: destruct (has (r_control_flags r) kControlFlagsProcessed); [done|].
  all: cbn [with_control r_flags r_addrs r_ifindex].
  all: destruct (has (r_flags r) kRouteFlagsHasGateway); [|done].
  all: by destruct (RouteListLookup _ _ _ _ _) as [[j c]|].
Qed.

Lemma step_processed att s i r r0 :
  progress att s → complete att s → ap_routes s !! i = Some r → routes0 !! i = Some r0 → processed r →
  step_done att s i (has (r_control_flags r) kControlFlagsAdded) s.
Proof.
  intros H Hc Hi H0 Hp. apply step_nothing; [done..|intros r' Hr'; congruence|].
  intros Ha. exists r0. split; [done|].
  destruct (pr_stands _ _ H i r0 H0) as (r' & Hr' & Hst). rewrite Hi in Hr'. injection Hr' as <-.
  destruct Hst as (_ & Hp0 & _ & Hadd).
  destruct (has (r_control_flags r0) kControlFlagsProcessed) eqn:E0.
  - left. assert (processed r0) as Hq by done. split; [done|]. by rewrite <-(Hp0 Hq).
  - assert (¬ processed r0) as Hn0 by (unfold processed; congruence).
    destruct (proj1 (Hadd Hn0) Ha) as [Ha0|(cs & Hin & _)].
    + destruct Hn0. apply Hinit; [|done]. by eapply list_elem_of_lookup_2.
    + right. apply list_elem_of_fmap. by exists (i, cs).
Qed.

(** A route whose gateway is not reached is left out. *)
Lemma step_refused att s i r r0 s2 more j :
  progress att s → ap_routes s !! i = Some r → ¬ processed r → routes0 !! i = Some r0 →
  gateway_index routes0 r0 = Some j →
  let s1 := set_control i kControlFlagsProcessed s in
  progress (att ++ more) s2 → complete (att ++ more) s2 →
  (∀ j r, ap_routes s1 !! j = Some r → processed r → ap_routes s2 !! j = Some r) →
  (∀ j, j ∈ more.*1 → ∃ r, ap_routes s1 !! j = Some r ∧ ¬ processed r) →
  step_done att s i false s2.
Proof.
  intros H Hi Hnp H0 Hg s1 H2 Hc2 Hkeep Hmore.
  assert (∃ r1, ap_routes s1 !! i = Some r1 ∧ processed r1) as (r1 & Hi1 & Hp1).
  { unfold s1. rewrite set_control_lookup, decide_True, Hi by done. eexists. split; [done|].
    unfold processed. cbn. by rewrite has_lor, orb_comm. }
  exists more. split_and!; [done|done| | | |done].
  - intros k rk Hk Hpk. destruct (decide (k = i)) as [->|N].
    + congruence.
    + apply Hkeep; [|done]. unfold s1. by rewrite set_control_lookup, decide_False.
  - intros k Hk. destruct (Hmore k Hk) as (rk & Hrk & Hnk). exists rk. split; [|done].
    unfold s1 in Hrk. rewrite set_control_lookup in Hrk. case_decide; [|done]. subst k.
    rewrite Hi in Hrk. injection Hrk as <-. destruct Hnk. unfold processed. cbn. by rewrite has_lor, orb_comm.
  - intros r' Hr'. rewrite (Hkeep i r1 Hi1 Hp1) in Hr'. by injection Hr' as <-.
Qed.

Lemma RouteProcess_add_spec levels i s att :
  progress att s → complete att s →
  step_done att s i (RouteProcess_add levels i s).1 (RouteProcess_add levels i s).2.
Proof.
  revert i s att. induction (lt_wf levels) as [levels _ IH]. intros i s att H Hc.
  rewrite RouteProcess_add_unfold.
  destruct (ap_routes s !! i) as [r|] eqn:Hi; [|cbn; apply step_nothing; [done|done|congruence|done]].
  destruct (progress_inv _ _ _ _ H Hi) as (r0 & H0 & [cf ->] & Hp0 & Hatt & Hadd).
  destruct (has (r_control_flags (with_control cf r0)) kControlFlagsProcessed) eqn:Ep;
    [by eapply step_processed|].
  assert (¬ processed (with_control cf r0)) as Hnp by (unfold processed; congruence).
  assert (¬ processed r0) as Hn0 by (intros Hp; apply Hnp; by rewrite Hp0).
  pose proof (progress_processed att s i _ H Hi Hnp) as H1.
  set (s1 := set_control i kControlFlagsProcessed s) in *. cbv zeta.
  assert (gateway_index (ap_routes s1)
    (with_control (Z.lor (r_control_flags (with_control cf r0)) kControlFlagsProcessed) (with_control cf r0)) =
    gateway_index routes0 r0) as ->.
  { apply (gateway_index_alike routes0 (ap_routes s1) r0). by apply (progress_alike att). }
  assert (complete_but (Some i) att s1) as Hc1'.
  { intros k rk0 rk N Hk0 Hk. apply (Hc k rk0 rk); [done..|].
    unfold s1 in Hk. rewrite set_control_lookup, decide_False in Hk by congruence. done. }
  destruct (gateway_index routes0 r0) as [j|] eqn:Hg.
  - assert (complete att s1) as Hc1.
    { intros k rk0 rk _ Hk0 Hk Hnk Hpk Hgk. destruct (decide (k = i)) as [->|N]; [congruence|].
      apply (Hc1' k rk0 rk); congruence. }
    destruct levels as [|levels].
    { eapply (step_refused att s i _ r0 s1 [] j); rewrite ?app_nil_r; try done.
      cbn. by intros k ?%elem_of_nil. }
    destruct (IH levels ltac:(lia) j s1 att H1 Hc1) as (more & H2 & Hc2 & Hkeep & Hmore & Hpj & Hb).
    destruct (RouteProcess_add levels j s1) as [added s2]. cbn [fst snd] in *. destruct added.
    + apply (step_attempt att s i (with_control cf r0) r0 s2 more); try done.
      { intros k rk0 rk _. by apply Hc2. }
      rewrite Hg. intros j' [= <-]. destruct (Hb eq_refl) as (rj & Hrj & [[? ?]|?]); eauto.
    + by eapply (step_refused att s i _ r0 s2 more j).
  - apply (step_attempt att s i (with_control cf r0) r0 s1 []); rewrite ?app_nil_r; try done.
    + cbn. by intros k ?%elem_of_nil.
    + by rewrite Hg.
Qed.

(** The loop over the new list. *)
Definition add_step s (i : nat) : apply_state :=
  match ap_routes s !! i with
  | Some scan => if has (r_control_flags scan) kControlFlagsProcessed then s
                 else (RouteProcess_add MAX_RECURSE_DEPTH i s).2
  | None => s
  end.

Lemma add_loop idx s att :
  progress att s → complete att s →
  ∃ att', progress att' (foldl add_step s idx) ∧ complete att' (foldl add_step s idx) ∧
    (∀ j r, ap_routes s !! j = Some r → processed r → ap_routes (foldl add_step s idx) !! j = Some r) ∧
    ∀ j r, j ∈ idx → ap_routes (foldl add_step s idx) !! j = Some r → processed r.
Proof.
  revert s att. induction idx as [|i idx IH]; intros s att H Hc; cbn [foldl].
  { exists att. split_and!; [done..|]. by intros j r ?%elem_of_nil. }
  assert (∃ att', progress att' (add_step s i) ∧ complete att' (add_step s i) ∧
    (∀ j r, ap_routes s !! j = Some r → processed r → ap_routes (add_step s i) !! j = Some r) ∧
    ∀ r, ap_routes (add_step s i) !! i = Some r → processed r) as (att1 & H1 & Hc1 & Hk1 & Hp1).
  { unfold add_step. destruct (ap_routes s !! i) as [r|] eqn:Hi; [|exists att; split_and!; [done|done|done|congruence]].
    destruct (has (r_control_flags r) kControlFlagsProcessed) eqn:Ep;
      [exists att; split_and!; [done|done|done|intros r' E; rewrite Hi in E; by injection E as <-]|].
    destruct (RouteProcess_add_spec MAX_RECURSE_DEPTH i s att H Hc) as (more & ? & ? & ? & _ & ? & _).
    by exists (att ++ more). }
  destruct (IH (add_step s i) att1 H1 Hc1) as (att2 & H2 & Hc2 & Hk2 & Hp2).
  exists att2. split_and!; [done|done|intros j r Hj Hp; by apply Hk2, Hp; apply Hk1|].
  intros j r [->|Hj]%elem_of_cons Hr; [|by eapply Hp2].
  destruct (ap_routes (add_step s i) !! i) as [r'|] eqn:Er'.
  - assert (processed r') as Hpr by by apply Hp1. rewrite (Hk2 i r' Er' Hpr) in Hr. by injection Hr as <-.
  - apply lookup_lt_Some in Hr. apply lookup_ge_None in Er'.
    rewrite (pr_length _ _ H2) in Hr. rewrite (pr_length _ _ H1) in Er'. lia.
Qed.
End progress.

(** ** The whole *)

Notation RouteListApply := (RouteListApply kernel S_netboot sockfd).

(** The old routes that are in the kernel and not wanted any more. *)
Definition stale (old new : list (Route A)) : list (Route A) :=
  filter (λ r, is_added r ∧ RouteListFindRoute new r = None) old.

Lemma remove_old_spec old (new : option (list (Route A))) s :
  ∃ dels msgs, remove_old kernel S_netboot sockfd old new s =
      MkApply (ap_routes s) (ap_calls s ++ dels) msgs ∧
    c_route <$> dels = stale old (default [] new) ∧ Forall (λ c, c_cmd c = RTM_DELETE) dels.
Proof.
  unfold stale. revert s. induction old as [|r old IH]; intros s.
  { exists [], (ap_msgs s). cbn. rewrite app_nil_r. by destruct s. }
  change (remove_old kernel S_netboot sockfd (r :: old) new s) with
    (remove_old kernel S_netboot sockfd old new
      (match (match new with Some l => RouteListFindRoute l r | None => None end) with
       | Some _ => s
       | None => if has (r_control_flags r) kControlFlagsAdded
                 then RouteProcess_remove kernel S_netboot sockfd r s else s
       end)).
  assert ((match new with Some l => RouteListFindRoute l r | None => None end) =
    RouteListFindRoute (default [] new) r) as -> by by destruct new.
  destruct (RouteListFindRoute (default [] new) r) as [j|] eqn:Ef.
  { rewrite filter_cons_False by (intros [_ ?]; congruence). apply IH. }
  destruct (has (r_control_flags r) kControlFlagsAdded) eqn:Ea.
  - rewrite filter_cons_True by done. unfold RouteProcess_remove.
    destruct (route_apply_spec r RTM_DELETE s) as (e & msgs & ->). cbn [snd].
    destruct (IH (MkApply (ap_routes s) (ap_calls s ++ [MkCall r RTM_DELETE e]) msgs))
      as (dels & msgs' & E & Ed & Hd).
    exists (MkCall r RTM_DELETE e :: dels), msgs'. rewrite E. cbn [ap_routes ap_calls].
    rewrite <-app_assoc. split_and!; [done|cbn; by rewrite Ed|by constructor].
  - rewrite filter_cons_False; [apply IH|]. intros [Ha _]. unfold is_added in Ha. congruence.
Qed.

(** The new list with the control flags of the routes that stay. *)
Definition carried_over (old : option (list (Route A))) (new : list (Route A)) : list (Route A) :=
  match old with Some old => preserve_control old <$> new | None => new end.

Lemma find_lookup routes r j : RouteListFindRoute routes r = Some j → ∃ r', routes !! j = Some r'.
Proof.
  revert j. induction routes as [|x routes IH]; intros j; cbn; [done|]. case_match; [intros [= <-]; by exists x|].
  intros (j' & E & ->)%fmap_Some. destruct (IH j' E) as [r' ?]. by exists r'.
Qed.

Lemma carried_added old new :
  (∀ r, r ∈ default [] old → is_added r → processed r) → (∀ r, r ∈ new → r_control_flags r = 0) →
  ∀ r, r ∈ carried_over old new → is_added r → processed r.
Proof.
  intros Hold Hnew r Hr Ha.
  assert (∀ x, r_control_flags x = 0 → ¬ is_added x) as Hzero by (intros x E; unfold is_added; by rewrite E).
  destruct old as [old|]; cbn in *; [|by destruct (Hzero r (Hnew r Hr))].
  apply list_elem_of_fmap in Hr as (x & -> & Hx). unfold preserve_control in *.
  destruct (RouteListFindRoute old x) as [j|]; [|by destruct (Hzero x (Hnew x Hx))].
  destruct (old !! j) as [r'|] eqn:Ej; [|by destruct (Hzero x (Hnew x Hx))].
  apply (Hold r'); [by eapply list_elem_of_lookup_2|done].
Qed.

(** C16: When a new table replaces an old one, exactly the old routes that are in the
    kernel and not in the new table are deleted, first. A route that stays is left
    alone. Of the others each is tried at most once (and once more after an old one
    is deleted, if the kernel has one), never before the route its gateway is
    reached by, and always if it needs no other route. In the end every route is
    processed, and it is marked as added if and only if the kernel took it. *)
Theorem RouteListApply_calls (old new : option (list (Route A))) :
  (∀ r, r ∈ default [] old → is_added r → processed r) →
  (∀ r, r ∈ default [] new → r_control_flags r = 0) →
  let s := RouteListApply old new in
  let start := carried_over old (default [] new) in
  ∃ dels att, ap_calls s = dels ++ concat att.*2 ∧
    c_route <$> dels = stale (default [] old) (default [] new) ∧
    Forall (λ c, c_cmd c = RTM_DELETE) dels ∧
    NoDup att.*1 ∧ in_order start att ∧
    length (ap_routes s) = length start ∧
    ∀ i r0, start !! i = Some r0 → ∃ r, ap_routes s !! i = Some r ∧ stands att i r r0 ∧ processed r ∧
      (¬ processed r0 → gateway_index start r0 = None → i ∈ att.*1).
Proof.
  intros Hold Hnew s start.
  set (s0 := MkApply (default [] new) [] [] : apply_state (A := A)).
  destruct (remove_old_spec (default [] old) new s0) as (dels & msgs & Er & Ed & Hd).
  destruct new as [new|].
  2:{ assert (start = []) as -> by (unfold start, carried_over; by destruct old).
      exists dels, []. cbn [concat fmap list_fmap]. rewrite app_nil_r.
      assert (s = MkApply [] dels msgs) as ->; [|split_and!; [done..|constructor|by intros []|done|by intros []]].
      unfold s, RouteList.RouteListApply. destruct old as [old|]; [exact Er|].
      cbn in Er, Ed. injection Er as <- <-. done. }
  cbn [default from_option id] in *.
  assert (s = add_new kernel S_netboot sockfd (MkApply start dels msgs)) as ->.
  { unfold s, RouteList.RouteListApply, start, carried_over. destruct old as [old|]; cbn [default from_option id] in *.
    - fold s0. rewrite Er. done.
    - cbn in Er. injection Er as <- <-. done. }
  assert (progress start dels [] (MkApply start dels msgs)) as Hprog.
  { constructor; [cbn; by rewrite app_nil_r|done| |constructor|by intros []].
    intros i r0 H0. exists r0. split; [done|]. split_and!.
    - exists (r_control_flags r0). by destruct r0.
    - done.
    - by intros ?%elem_of_nil.
    - intros _. split; [by left|]. intros [?|(cs & ?%elem_of_nil & _)]; done. }
  destruct (add_loop start dels (carried_added old new Hold Hnew) (seq 0 (length start))
    (MkApply start dels msgs) [] Hprog) as (att & H & Hc & _ & Hp).
  { intros i r0 r _ H0 Hr Hn Hpr. cbn in Hr. congruence. }
  fold (add_new kernel S_netboot sockfd (MkApply start dels msgs)) in *.
  exists dels, att. split_and!; [apply H|done|done|apply H|apply H|apply H|].
  intros i r0 H0. destruct (pr_stands _ _ _ _ H i r0 H0) as (r & Hr & Hst).
  exists r. assert (processed r) as Hpr.
  { apply (Hp i r); [|done]. apply elem_of_seq. apply lookup_lt_Some in H0. lia. }
  split_and!; [done..|]. intros Hn Hg. by apply (Hc i r0 r).
Qed.
End apply.
