(* ===== verification/RouteDict.v ===== *)
(** * IPMonitor: property lists, interfaces and ranks of a service

    What [ip_plugin.c] reads out of the dictionaries of a service: strings,
    addresses, numbers and flags, the index of an interface, and the rank a service
    or its interface asserts.

    A CFDictionary with string keys is a [gmap], a CFString its UTF-8 bytes. Of a
    CFNumber what [CFNumberGetValue] passes back for a 32-bit type is modelled, and
    whether that is exact. *)

From S2P Require Import Prelude RouteTypes.

Local Open Scope Z_scope.

Inductive CFType :=
| CFString (s : string)
| CFNumber (value : Z) (exact : bool)
| CFBoolean (b : bool)
| CFArray (l : list CFType)
| CFDictionary (dict : gmap string CFType)
| CFOther.
Notation CFDict := (gmap string CFType).

Inductive family := AF_INET | AF_INET6.
Definition addr_size (af : family) : nat := match af with AF_INET => 4 | AF_INET6 => 16 end.
(** INADDR_ANY, [in6addr_any] *)
Definition any (af : family) : address := replicate (addr_size af) x00.

(** [inet_pton(3)], [None] unless it returns 1, and [if_nametoindex(3)], 0 for no
    interface. *)
Class Network := {
  inet_pton : family → string → option address;
  if_nametoindex : string → Z;
}.
(** What their manual pages promise; an index fits an [int]. *)
Class NetworkLaws `{!Network} : Prop := {
  inet_pton_size af s a : inet_pton af s = Some a → length a = addr_size af;
  if_nametoindex_range s : 0 ≤ if_nametoindex s < 2 ^ 31;
}.

(** ** Interfaces *)

Definition IFNAMSIZ : nat := 16.

Section interfaces.
Context `{!Network}.
(** The list of interfaces kept while there is one: names and indices up to the
    entry with index 0. *)
Variable S_if_nameindex_cache : option (list (string * Z)).

Definition my_if_nametoindex (ifname : string) : Z :=
  match S_if_nameindex_cache with
  | None => if_nametoindex ifname
  | Some cache =>
      match List.find (λ scan, String.eqb scan.1 ifname) cache with
      | Some scan => scan.2
      | None => 0
      end
  end.

(** The state is the static variable [idx]. *)
Definition lo0_ifindex : C Z Z := λ idx,
  let idx := if idx =? 0 then my_if_nametoindex "lo0" else idx in Some (idx, idx).
End interfaces.

(** ** Reading a dictionary *)

Definition is_ascii (s : string) : bool :=
  forallb (λ a, (N_of_ascii a <? 128)%N) (String.list_ascii_of_string s).
(** [_SC_cfstring_to_cstring(str, buf, size, kCFStringEncodingASCII)] with a buffer:
    the string in it afterwards. *)
Definition _SC_cfstring_to_cstring (str : string) (size : nat) : string :=
  if is_ascii str && (String.length str <? size)%nat then c_trunc str else EmptyString.

Definition plist_get_string (dict : CFDict) (prop_name : string) (buf_size : nat)
    : option (string * string) :=
  match dict !! prop_name with
  | Some (CFString val) => if (String.length val <? buf_size)%nat then Some (val, c_trunc val) else None
  | _ => None
  end.

Section read.
Context `{!Network}.

(** Whether there is an address, and what [addr] holds afterwards. *)
Definition cfstring_to_ipvx (af : family) (str : option CFType) : bool * address :=
  match str with
  | Some (CFString str) =>
      match inet_pton af (_SC_cfstring_to_cstring str 128) with
      | Some a => (true, a)
      | None => (false, any af)
      end
  | _ => (false, any af)
  end.

Definition dict_get_ip (af : family) (dict : CFDict) (prop : string) : bool * address :=
  cfstring_to_ipvx af (dict !! prop).
(** [old] is what the address holds before. *)
Definition dict_get_first_ip (af : family) (dict : CFDict) (prop : string) (old : address) : bool * address :=
  match dict !! prop with
  | Some (CFArray (first :: _)) => cfstring_to_ipvx af (Some first)
  | _ => (false, old)
  end.

Definition cfnumber_to_int (num : option CFType) (old : Z) : bool * Z :=
  match num with Some (CFNumber value exact) => (exact, value) | _ => (false, old) end.
Definition dict_get_int (dict : CFDict) (prop : string) (old : Z) : bool * Z :=
  cfnumber_to_int (dict !! prop) old.
Definition dict_get_first_int (dict : CFDict) (prop : string) (old : Z) : bool * Z :=
  match dict !! prop with
  | Some (CFArray (first :: _)) => cfnumber_to_int (Some first) old
  | _ => (false, old)
  end.
End read.

Definition S_dict_get_boolean (dict : CFDict) (key : string) (def_value : bool) : bool :=
  match dict !! key with Some (CFBoolean b) => b | _ => def_value end.

Definition get_override_primary (dict : CFDict) : bool :=
  match dict !! "OverridePrimary" with
  | Some (CFNumber val _) => negb (val =? 0)
  | Some (CFBoolean b) => b
  | _ => false
  end.

Definition confirm_interface_name (dict : CFDict) (ifname : string) : bool :=
  match dict !! "ConfirmedInterfaceName" with
  | Some (CFString confirmed_ifname) => String.eqb confirmed_ifname ifname
  | _ => true
  end.

(** [isA_CFArray(CFDictionaryGetValue(dict, key))] *)
Definition get_array (dict : CFDict) (key : string) : option (list CFType) :=
  match dict !! key with Some (CFArray l) => Some l | _ => None end.

(** ** The rank of a service *)

(** [None] is a rank that is not set. *)
Definition InterfaceRankGetRankAssertion (rank_cf : option (Z * bool)) : option Z :=
  match rank_cf with
  | Some (if_rank, true) =>
      if u32 if_rank =? 0 then None
      else Some (if u32 if_rank =? 1 then kRankAssertionFirst else RANK_ASSERTION_MAKE (u32 if_rank))
  | _ => None
  end.

Definition PrimaryRankGetRankAssertion (rank_str : option string) : option Z :=
  match rank_str with
  | Some s =>
      if String.eqb s "First" then Some kRankAssertionFirst
      else if String.eqb s "Last" then Some kRankAssertionLast
      else if String.eqb s "Never" then Some kRankAssertionNever
      else if String.eqb s "Scoped" then Some kRankAssertionScoped
      else None
  | None => None
  end.

Definition service_rank_entity_get_index (dict : CFDict) : option Z :=
  match dict !! "ServiceIndex" with
  | Some (CFNumber index_val true) => if index_val <=? 0 then None else Some index_val
  | _ => None
  end.

Definition get_string (dict : CFDict) (key : string) : option string :=
  match dict !! key with Some (CFString s) => Some s | _ => None end.

(** The dictionary kept for [kSCEntNetService]. *)
Record service_options := MkOptions {
  so_rank_assertion : option Z;
  so_ip_is_coupled : bool;
  so_service_index : option Z;
}.

(** [is_expensive] and [interface] are what [service_is_expensive] and
    [services_info_get_interface] answer; the result is what is kept, [None] for
    nothing. *)
Definition get_rank_changes (S_if_rank_dict : gmap string (Z * bool)) (is_expensive : bool)
    (interface : option string) (state_options setup_options : option CFDict)
    : option service_options :=
  let coupled o := match o with Some d => S_dict_get_boolean d "IPIsCoupled" false | None => false end in
  let setup_rank := setup_options ≫= (λ d, get_string d "PrimaryRank") in
  let state_rank := state_options ≫= (λ d, get_string d "PrimaryRank") in
  let service_index :=
    match setup_options ≫= service_rank_entity_get_index with
    | Some i => Some i
    | None => state_options ≫= service_rank_entity_get_index
    end in
  let ip_is_coupled := coupled setup_options || coupled state_options || is_expensive in
  let asserted :=
    match PrimaryRankGetRankAssertion setup_rank, PrimaryRankGetRankAssertion state_rank with
    | Some setup, Some state => Some (if state <? setup then setup else state)
    | Some setup, None => Some setup
    | None, state => state
    end in
  let rank_assertion :=
    match interface, asserted with
    | Some interface, None => InterfaceRankGetRankAssertion (S_if_rank_dict !! interface)
    | _, _ => asserted
    end in
  match service_index, rank_assertion, ip_is_coupled with
  | None, None, false => None
  | _, _, _ => Some (MkOptions rank_assertion ip_is_coupled service_index)
  end.
