(* ===== verification/RouteMake.v ===== *)
(** * IPMonitor: the route list of a service

    How [ip_plugin.c] makes the list of routes of a service from its IPv4 or IPv6
    dictionary ([IPv4RouteListCreateWithDictionary] and its IPv6 twin): the routes
    are stored one behind the other into a zeroed block, and routes of the
    dictionary that make no sense are skipped after they were counted.

    The block is the list of all the routes it has room for; a store past its end is
    a crash, and so is an allocation that fails, which the code does not handle. *)

From S2P Require Import Prelude RouteTypes RouteList RouteDict.

Local Open Scope Z_scope.
Local Open Scope c_scope.

(** ** Masks *)

Definition prefix_bits : list Z := [0; -1; -1; -1; -1; -1; -1; -1; 1; -1; -1; -1; 2; -1; 3; 4].
Fixpoint count_prefix_bits (fuel : nat) (n count : Z) : Z :=
  if n =? 0 then count
  else match fuel with
       | O => count
       | S fuel =>
           let nbits := nth (Z.to_nat (Z.land n 0x0f)) prefix_bits (-1) in
           if nbits <? 0 then -1 else count_prefix_bits fuel (Z.shiftr n 4) (count + nbits)
       end.
(** A word of 32 bits has eight nibbles. *)
Definition count_prefix_bits_set (n : Z) : Z := count_prefix_bits 8 n 0.

Definition prefix_to_mask32 (prefix_length : Z) : Z :=
  if (32 <? prefix_length) || (prefix_length =? 0) then 0
  else u32 (Z.shiftl 0xffffffff (32 - prefix_length)).

(** [ntohl] of an address in memory. *)
Definition ntohl (a : address) : Z := le_decode (reverse a).

Definition mask_get_prefix_length (mask : address) : Z :=
  let count := count_prefix_bits_set (le_decode mask) in
  if 0 <=? count then if ntohl mask =? prefix_to_mask32 count then count else -1
  else count.

Definition INADDR_BROADCAST : address := replicate 4 xff.
(** INADDR_UNSPEC_GROUP and IN_CLASSD_NET in network order. *)
Definition INADDR_UNSPEC_GROUP : address := [xe0; x00; x00; x00].
Definition IN_CLASSD_NET : address := [xf0; x00; x00; x00].
Definition PREFIX_LENGTH_IN_CLASSD : Z := 4.

Definition ipv6_prefix_length_is_valid (prefix_length : Z) : bool :=
  negb ((prefix_length <? 0) || (IPV6_ROUTE_ALL_BITS_SET <? prefix_length)).

(** ** The block *)

Definition with_prefix {A} (n : Z) (r : Route A) : Route A :=
  MkRoute A n (r_ifindex r) (r_exclude_ifindex r) (r_rank r) (r_flags r) (r_control_flags r) (r_addrs r).

(** [list] has [size] routes, the first [count] count. *)
Record block {A : Type} := MkBlock {
  bk_size : Z;
  bk_count : Z;
  bk_flags : Z;
  bk_list : list (Route A);
}.
Arguments block A : clear implicits.
(** The block and the pointer [r] into it. *)
Record build {A : Type} := MkBuild { bd_routes : block A; bd_r : nat }.
Arguments build A : clear implicits.

Section build.
Context {A : Type}.

Definition with_routes (l : list (Route A)) (b : block A) : block A :=
  MkBlock A (bk_size b) (bk_count b) (bk_flags b) l.
(** Reading the route [r] points to. *)
Definition load : C (build A) (Route A) := λ b,
  match bk_list (bd_routes b) !! bd_r b with Some r => Some (r, b) | None => None end.
(** Changing it. *)
Definition store (f : Route A → Route A) : C (build A) unit := λ b,
  match bk_list (bd_routes b) !! bd_r b with
  | Some r => Some (tt, MkBuild A (with_routes (<[bd_r b := f r]> (bk_list (bd_routes b))) (bd_routes b)) (bd_r b))
  | None => None
  end.
(** [r++] *)
Definition advance : C (build A) unit := λ b, Some (tt, MkBuild A (bd_routes b) (S (bd_r b))).
(** [count--], through [count_p]. *)
Definition one_less : C (build A) unit := λ b,
  let k := bd_routes b in
  Some (tt, MkBuild A (MkBlock A (bk_size k) (i32 (bk_count k - 1)) (bk_flags k) (bk_list k)) (bd_r b)).
Definition or_list_flags (fl : Z) (b : block A) : block A :=
  MkBlock A (bk_size b) (bk_count b) (Z.lor (bk_flags b) fl) (bk_list b).
Definition set_list_flags (fl : Z) : C (build A) unit := λ b,
  Some (tt, MkBuild A (or_list_flags fl (bd_routes b)) (bd_r b)).

(** The block for [n] routes, all zero: the one passed in, if it is large enough. *)
Definition block_for (Hheap : Heap) (zero : Route A) (routes : option (block A)) (n : Z) : option (block A) :=
  let fresh := if can_alloc n
               then Some (MkBlock A n n 0 (replicate (Z.to_nat n) zero)) else None in
  match routes with
  | None => fresh
  | Some routes =>
      if bk_size routes <? n then fresh
      else Some (MkBlock A (bk_size routes) n (bk_flags routes)
                   (replicate (Z.to_nat n) zero ++ drop (Z.to_nat n) (bk_list routes)))
  end.
End build.

(** [AddIPv4RouteContext], [AddIPv6RouteContext]. *)
Record AddRouteContext := MkContext {
  ctx_addr : option address;
  ctx_ifindex : Z;
  ctx_exclude_ifindex : Z;
  ctx_rank : Z;
}.

(** The local variables of the two functions, when they have read the dictionary.
    [add_subnet] is [add_prefix] for IPv6, which has no [mask]. *)
Record route_locals := MkLocals {
  lc_ifindex : Z;
  lc_allow_additional_routes : bool;
  lc_addr : address;
  lc_mask : address;
  lc_prefix_length : Z;
  lc_add_subnet : bool;
  lc_router : address;
  lc_flags : Z;
  lc_exclude_from_nwi : bool;
  lc_primary_rank : Z;
  lc_rank : Z;
  lc_scoped_only : bool;
}.

(** [switch (primary_rank)]: the ranks, the flags and [scoped_only]. *)
Definition scope_ranks (primary_rank flags : Z) : Z * Z * Z * bool :=
  if primary_rank =? kRankAssertionScoped
  then (kRankAssertionNever, kRankAssertionNever, Z.lor flags kRouteFlagsIsScoped, true)
  else if primary_rank =? kRankAssertionNever
  then (primary_rank, kRankAssertionLast, Z.lor flags kRouteFlagsIsScoped, false)
  else (primary_rank, primary_rank, flags, false).

(** [r->flags |= kRouteFlagsIsNULL] if the service has it. *)
Definition null_flags (flags old : Z) : Z :=
  if has flags kRouteFlagsIsNULL then Z.lor old kRouteFlagsIsNULL else old.

Section create.
Context `{!Network} `{Hheap : !Heap}.
Variable S_if_nameindex_cache : option (list (string * Z)).

Definition add_count (n : Z) (routes : option (list CFType)) : Z :=
  match routes with Some l => i32 (n + Z.of_nat (length l)) | None => n end.

(** ** IPv4 *)

Definition zero4 : IPv4Route :=
  MkRoute IPv4Addrs 0 0 0 0 0 0 (IPv4 (any AF_INET) (any AF_INET) (any AF_INET) (any AF_INET)).

Definition skip {A} : C (build A) unit := one_less.

Definition AddIPv4Route (ctx : AddRouteContext) (value : CFType) : C (build IPv4Addrs) unit :=
  match value with
  | CFDictionary dict =>
      let '(ok, dest) := dict_get_ip AF_INET dict "DestinationAddress" in
      store (λ r, let a := r_addrs r in with_addrs (IPv4 dest (v4_mask a) (v4_gateway a) (v4_ifa a)) r);;
      if negb ok then skip else
      let '(ok, mask) := dict_get_ip AF_INET dict "SubnetMask" in
      store (λ r, let a := r_addrs r in with_addrs (IPv4 (v4_dest a) mask (v4_gateway a) (v4_ifa a)) r);;
      if negb ok then skip else
      let* r := load in
      let length := mask_get_prefix_length (v4_mask (r_addrs r)) in
      if length <? 0 then skip else
      store (with_prefix length);;
      store (λ r, with_if (r_ifindex r) (ctx_exclude_ifindex ctx) (with_rank (ctx_rank ctx) r));;
      if negb (ctx_ifindex ctx =? 0) then
        let* addr := deref (ctx_addr ctx) in
        store (λ r, let a := r_addrs r in
          with_addrs (IPv4 (v4_dest a) (v4_mask a) (v4_gateway a) addr)
            (with_if (ctx_ifindex ctx) (r_exclude_ifindex r) r));;
        when (ctx_exclude_ifindex ctx =? 0)
          (let '(ok, gateway) := dict_get_ip AF_INET dict "GatewayAddress" in
           store (λ r, with_addrs (IPv4RouteSetGateway gateway (r_addrs r)) r);;
           when ok
             (store (λ r, with_flags (Z.lor (r_flags r) kRouteFlagsHasGateway) r);;
              store (λ r, if r_prefix_length r =? IPV4_ROUTE_ALL_BITS_SET
                          then with_flags (Z.lor (r_flags r) kRouteFlagsIsHost) r else r)));;
        advance
      else
        match plist_get_string dict "InterfaceName" IFNAMSIZ with
        | Some (_, ifname) =>
            let ifindex := my_if_nametoindex S_if_nameindex_cache ifname in
            if ifindex =? 0 then skip
            else if ifindex =? ctx_ifindex ctx then skip
            else store (λ r, with_if ifindex (r_exclude_ifindex r) r);; advance
        | None => advance
        end
  | _ => skip
  end.

(** Up to the ranks: [None] is a return of NULL. *)
Definition IPv4RouteListReadDictionary (dict : CFDict) (rank_assertion : option Z) : option route_locals :=
  match plist_get_string dict "InterfaceName" IFNAMSIZ with
  | None => None
  | Some (ifname_cf, ifname) =>
      let ifindex := my_if_nametoindex S_if_nameindex_cache ifname in
      if ifindex =? 0 then None else
      let allow_additional_routes := confirm_interface_name dict ifname_cf in
      let '(ok, router) := dict_get_ip AF_INET dict "Router" in
      let router := if ok then router else (dict_get_first_ip AF_INET dict "DestAddresses" router).2 in
      let '(ok, addr) := dict_get_first_ip AF_INET dict "Addresses" (any AF_INET) in
      let '(ok, mask) := if ok then dict_get_first_ip AF_INET dict "SubnetMasks" (any AF_INET)
                         else (false, any AF_INET) in
      let prefix_length := if ok then mask_get_prefix_length mask else 0 in
      let add_subnet := ok && negb (prefix_length <? 0) in
      if bool_decide (addr = any AF_INET) then None else
      let primary_rank := default kRankAssertionDefault rank_assertion in
      let '(primary_rank, flags) :=
        if bool_decide (router = any AF_INET) then
          (if (primary_rank =? kRankAssertionLast) || (primary_rank =? kRankAssertionNever) ||
              (primary_rank =? kRankAssertionScoped)
           then primary_rank else kRankAssertionLast, 0)
        else
          (if (if rank_assertion then false else true) && get_override_primary dict
           then kRankAssertionFirst else primary_rank,
           if bool_decide (addr = router) && bool_decide (mask ≠ INADDR_BROADCAST)
           then 0 else kRouteFlagsHasGateway) in
      let exclude_from_nwi := S_dict_get_boolean dict "IsNULL" false in
      let flags := if exclude_from_nwi then Z.lor flags kRouteFlagsIsNULL else flags in
      let '(primary_rank, rank, flags, scoped_only) := scope_ranks primary_rank flags in
      Some (MkLocals ifindex allow_additional_routes addr mask prefix_length add_subnet router
              flags exclude_from_nwi primary_rank rank scoped_only)
  end.

(** From [r = routes->list] on. [not_lo0] is [ifindex != lo0_ifindex()]. *)
Definition IPv4RouteListFill (l : route_locals) (not_lo0 : bool)
    (additional_routes excluded_routes : option (list CFType)) : C (build IPv4Addrs) unit :=
  let ifindex := lc_ifindex l in
  let addr := lc_addr l in
  let flags := lc_flags l in
  let put prefix_length gateway dest mask :=
    store (λ r, MkRoute IPv4Addrs prefix_length ifindex (r_exclude_ifindex r) (lc_rank l)
                  (null_flags flags (r_flags r)) (r_control_flags r)
                  (IPv4 dest mask (default (v4_gateway (r_addrs r)) gateway) addr));; advance in
  when (not_lo0 && bool_decide (lc_router l ≠ any AF_INET))
    (set_list_flags kRouteListFlagsHasDefault;;
     store (λ r, MkRoute IPv4Addrs (r_prefix_length r) ifindex (r_exclude_ifindex r) (lc_primary_rank l)
                   flags (r_control_flags r)
                   (IPv4 (v4_dest (r_addrs r)) (v4_mask (r_addrs r))
                      (if has flags kRouteFlagsHasGateway then lc_router l else addr) addr));; advance);;
  when not_lo0
    (put IPV4_ROUTE_ALL_BITS_SET None INADDR_BROADCAST INADDR_BROADCAST;;
     put PREFIX_LENGTH_IN_CLASSD None INADDR_UNSPEC_GROUP IN_CLASSD_NET);;
  when (lc_add_subnet l)
    (put (lc_prefix_length l) (Some addr) (subnet_addr addr (lc_mask l)) (lc_mask l));;
  when (has flags kRouteFlagsHasGateway)
    (put IPV4_ROUTE_ALL_BITS_SET (Some addr) (lc_router l) INADDR_BROADCAST);;
  for_each (default [] additional_routes)
    (AddIPv4Route (MkContext (Some addr) ifindex 0 (lc_rank l)));;
  for_each (default [] excluded_routes)
    (AddIPv4Route (MkContext (Some addr) 0 ifindex (lc_rank l))).

(** What both functions do with the arrays, the block and its flags around that. *)
Definition create_list {A} (zero : Route A) (routes : option (block A)) (l : route_locals) (n : Z)
    (fill : C (build A) unit) : option (block A) :=
  match block_for _ zero routes n with
  | None => None
  | Some routes =>
      let routes := if lc_exclude_from_nwi l then or_list_flags kRouteListFlagsExcludeNWI routes
                    else if lc_scoped_only l then or_list_flags kRouteListFlagsScopedOnly routes
                    else routes in
      match fill (MkBuild A routes 0) with
      | Some (_, b) => Some (bd_routes b)
      | None => None
      end
  end.

Definition bool_Z (b : bool) : Z := if b then 1 else 0.

Definition IPv4RouteListCreateWithDictionary (routes : option (block IPv4Addrs)) (dict : option CFDict)
    (rank_assertion : option Z) : C Z (option (block IPv4Addrs)) :=
  match dict with
  | None => ret None
  | Some dict =>
      match IPv4RouteListReadDictionary dict rank_assertion with
      | None => ret None
      | Some l =>
          let* lo0 := lo0_ifindex S_if_nameindex_cache in
          let not_lo0 := negb (lc_ifindex l =? lo0) in
          let additional_routes := if lc_allow_additional_routes l then get_array dict "AdditionalRoutes" else None in
          let excluded_routes := if lc_allow_additional_routes l then get_array dict "ExcludedRoutes" else None in
          let n := bool_Z (lc_add_subnet l) + bool_Z (has (lc_flags l) kRouteFlagsHasGateway) +
                   (if not_lo0 then bool_Z (bool_decide (lc_router l ≠ any AF_INET)) + 2 else 0) in
          let n := add_count (add_count n additional_routes) excluded_routes in
          let* routes := deref (create_list zero4 routes l n
                                  (IPv4RouteListFill l not_lo0 additional_routes excluded_routes)) in
          ret (Some routes)
      end
  end.

(** [CFDataCreate] copies [count] routes of the block. *)
Definition list_data {A} (routes : block A) : option (RouteList A) :=
  if (0 <=? bk_count routes) && (bk_count routes <=? Z.of_nat (length (bk_list routes)))
  then Some (MkRouteList A (bk_size routes) (bk_flags routes) (take (Z.to_nat (bk_count routes)) (bk_list routes)))
  else None.

Definition IPV4_ROUTES_N_STATIC : Z := 5.
(** [routes_buf] is what the buffer on the stack holds. *)
Definition IPv4RouteListDataCreate (routes_buf : list IPv4Route) (dict : option CFDict)
    (rank_assertion : option Z) : C Z (option (RouteList IPv4Addrs)) :=
  let* r := IPv4RouteListCreateWithDictionary (Some (MkBlock IPv4Addrs IPV4_ROUTES_N_STATIC 0 0 routes_buf))
              dict rank_assertion in
  match r with
  | Some r => let* routes_data := deref (list_data r) in ret (Some routes_data)
  | None => ret None
  end.

(** ** IPv6 *)

Definition zero6 : IPv6Route :=
  MkRoute IPv6Addrs 0 0 0 0 0 0 (IPv6 (any AF_INET6) (any AF_INET6) (any AF_INET6)).

Definition AddIPv6Route (ctx : AddRouteContext) (value : CFType) : C (build IPv6Addrs) unit :=
  match value with
  | CFDictionary dict =>
      let '(ok, dest) := dict_get_ip AF_INET6 dict "DestinationAddress" in
      store (λ r, let a := r_addrs r in with_addrs (IPv6 dest (v6_gateway a) (v6_ifa a)) r);;
      if negb ok then skip else
      let* r := load in
      let '(ok, prefix_length) := dict_get_int dict "PrefixLength" (r_prefix_length r) in
      store (with_prefix prefix_length);;
      if negb ok then skip else
      if negb (ipv6_prefix_length_is_valid prefix_length) then skip else
      store (λ r, with_if (r_ifindex r) (ctx_exclude_ifindex ctx) (with_rank (ctx_rank ctx) r));;
      if negb (ctx_ifindex ctx =? 0) then
        let* addr := deref (ctx_addr ctx) in
        store (λ r, let a := r_addrs r in
          with_addrs (IPv6 (v6_dest a) (v6_gateway a) addr)
            (with_if (ctx_ifindex ctx) (r_exclude_ifindex r) r));;
        when (ctx_exclude_ifindex ctx =? 0)
          (let '(ok, gateway) := dict_get_ip AF_INET6 dict "GatewayAddress" in
           store (λ r, with_addrs (IPv6RouteSetGateway gateway (r_addrs r)) r);;
           when ok
             (store (λ r, with_flags (Z.lor (r_flags r) kRouteFlagsHasGateway) r);;
              store (λ r, if r_prefix_length r =? IPV6_ROUTE_ALL_BITS_SET
                          then with_flags (Z.lor (r_flags r) kRouteFlagsIsHost) r else r)));;
        advance
      else
        match plist_get_string dict "InterfaceName" IFNAMSIZ with
        | Some (_, ifname) =>
            let ifindex := my_if_nametoindex S_if_nameindex_cache ifname in
            if ifindex =? 0 then skip
            else if ifindex =? ctx_ifindex ctx then skip
            else store (λ r, with_if ifindex (r_exclude_ifindex r) r);; advance
        | None => advance
        end
  | _ => skip
  end.

(** [addr] is not initialised before it is read: [garbage]. *)
Definition IPv6RouteListReadDictionary (garbage : address) (dict : CFDict) (rank_assertion : option Z)
    : option route_locals :=
  match plist_get_string dict "InterfaceName" IFNAMSIZ with
  | None => None
  | Some (ifname_cf, ifname) =>
      let ifindex := my_if_nametoindex S_if_nameindex_cache ifname in
      if ifindex =? 0 then None else
      let allow_additional_routes := confirm_interface_name dict ifname_cf in
      let '(ok, router) := dict_get_ip AF_INET6 dict "Router" in
      let router := if ok then router else (dict_get_first_ip AF_INET6 dict "DestAddresses" router).2 in
      let '(ok, addr) := dict_get_first_ip AF_INET6 dict "Addresses" garbage in
      if negb ok then None else
      if bool_decide (addr = any AF_INET6) then None else
      let '(ok, prefix_length) := dict_get_first_int dict "PrefixLength" 0 in
      let add_prefix := ok && negb (IN6_IS_ADDR_LINKLOCAL addr) && ipv6_prefix_length_is_valid prefix_length in
      let prefix_length := if add_prefix then prefix_length else 0 in
      let primary_rank := default kRankAssertionDefault rank_assertion in
      let '(primary_rank, flags) :=
        if bool_decide (router = any AF_INET6) then (primary_rank, 0)
        else
          (if (if rank_assertion then false else true) && get_override_primary dict
           then kRankAssertionFirst else primary_rank,
           if bool_decide (router = addr) && negb (prefix_length =? IPV6_ROUTE_ALL_BITS_SET)
           then 0 else kRouteFlagsHasGateway) in
      let exclude_from_nwi := S_dict_get_boolean dict "IsNULL" false in
      let flags := if exclude_from_nwi then Z.lor flags kRouteFlagsIsNULL else flags in
      let '(primary_rank, rank, flags, scoped_only) := scope_ranks primary_rank flags in
      Some (MkLocals ifindex allow_additional_routes addr [] prefix_length add_prefix router
              flags exclude_from_nwi primary_rank rank scoped_only)
  end.

Definition IPv6RouteListFill (l : route_locals) (add_default : bool)
    (additional_routes excluded_routes : option (list CFType)) : C (build IPv6Addrs) unit :=
  let ifindex := lc_ifindex l in
  let addr := lc_addr l in
  let flags := lc_flags l in
  when add_default
    (set_list_flags kRouteListFlagsHasDefault;;
     store (λ r, MkRoute IPv6Addrs (r_prefix_length r) ifindex (r_exclude_ifindex r) (lc_primary_rank l)
                   (Z.lor flags kRouteFlagsKernelManaged) (r_control_flags r)
                   (IPv6 (v6_dest (r_addrs r))
                      (if has flags kRouteFlagsHasGateway then lc_router l else addr) addr));; advance);;
  store (λ r, MkRoute IPv6Addrs 64 ifindex (r_exclude_ifindex r) (lc_rank l)
                (Z.lor (r_flags r) kRouteFlagsKernelManaged) (r_control_flags r)
                (IPv6 (<[1%nat := x80]> (<[0%nat := xfe]> (v6_dest (r_addrs r))))
                   (v6_gateway (r_addrs r)) (v6_ifa (r_addrs r))));; advance;;
  when (lc_add_subnet l)
    (store (λ r, MkRoute IPv6Addrs (lc_prefix_length l) ifindex (r_exclude_ifindex r) (lc_rank l)
                   (null_flags flags (Z.lor (r_flags r) kRouteFlagsKernelManaged)) (r_control_flags r)
                   (IPv6 (in6_netaddr addr (lc_prefix_length l)) addr addr));; advance);;
  for_each (default [] additional_routes)
    (AddIPv6Route (MkContext (Some addr) ifindex 0 (lc_rank l)));;
  for_each (default [] excluded_routes)
    (AddIPv6Route (MkContext None 0 ifindex (lc_rank l))).

Definition IPv6RouteListCreateWithDictionary (garbage : address) (routes : option (block IPv6Addrs))
    (dict : option CFDict) (rank_assertion : option Z) : C Z (option (block IPv6Addrs)) :=
  match dict with
  | None => ret None
  | Some dict =>
      match IPv6RouteListReadDictionary garbage dict rank_assertion with
      | None => ret None
      | Some l =>
          let has_router := bool_decide (lc_router l ≠ any AF_INET6) in
          let* lo0 := if has_router then lo0_ifindex S_if_nameindex_cache else ret 0 in
          let add_default := has_router && negb (lc_ifindex l =? lo0) in
          let additional_routes := if lc_allow_additional_routes l then get_array dict "AdditionalRoutes" else None in
          let excluded_routes := if lc_allow_additional_routes l then get_array dict "ExcludedRoutes" else None in
          let n := bool_Z (lc_add_subnet l) + bool_Z add_default in
          let n := add_count (add_count n additional_routes) excluded_routes in
          if n =? 0 then ret None else
          let n := i32 (n + 1) in
          let* routes := deref (create_list zero6 routes l n
                                  (IPv6RouteListFill l add_default additional_routes excluded_routes)) in
          ret (Some routes)
      end
  end.

Definition IPV6_ROUTES_N_STATIC : Z := 3.
Definition IPv6RouteListDataCreate (garbage : address) (routes_buf : list IPv6Route) (dict : option CFDict)
    (rank_assertion : option Z) : C Z (option (RouteList IPv6Addrs)) :=
  let* r := IPv6RouteListCreateWithDictionary garbage (Some (MkBlock IPv6Addrs IPV6_ROUTES_N_STATIC 0 0 routes_buf))
              dict rank_assertion in
  match r with
  | Some r => let* routes_data := deref (list_data r) in ret (Some routes_data)
  | None => ret None
  end.

(** ** Setup over State *)

(** A router that is an address and additional routes. *)
Definition merge_setup (af : family) (dict setup_dict : CFDict) : CFDict :=
  let router := match setup_dict !! "Router" with
                | Some router => if (cfstring_to_ipvx af (Some router)).1 then Some router else None
                | None => None
                end in
  let with_router := match router with Some r => <["Router" := r]> dict | None => dict end in
  match get_array setup_dict "AdditionalRoutes" with
  | Some additional_routes =>
      let combined := match get_array dict "AdditionalRoutes" with
                      | Some state_routes => additional_routes ++ state_routes
                      | None => additional_routes
                      end in
      <["AdditionalRoutes" := CFArray combined]> with_router
  | None => with_router
  end.

(** The dictionary of a service, and its routes; [route_list_data_create] is the
    function for [af]. *)
Definition merged_dict (af : family) (state_dict setup_dict : option CFDict) : option CFDict :=
  match state_dict, setup_dict with
  | Some state, Some setup => Some (merge_setup af state setup)
  | _, _ => state_dict
  end.

Definition IPDictCreate {A} (af : family)
    (route_list_data_create : option CFDict → option Z → C Z (option (RouteList A)))
    (state_dict setup_dict : option CFDict) (rank_assertion : option Z)
    : C Z (option (CFDict * RouteList A)) :=
  let dict := merged_dict af state_dict setup_dict in
  let* routes_data := route_list_data_create dict rank_assertion in
  ret (match routes_data, dict with
       | Some routes_data, Some dict => Some (dict, routes_data)
       | _, _ => None
       end).

(** [get_ipv4_changes] and [get_ipv6_changes]: what is kept for the service. *)
Definition get_ip_changes {A} (af : family)
    (route_list_data_create : option CFDict → option Z → C Z (option (RouteList A)))
    (state_dict setup_dict : option CFDict) (options : option service_options)
    : C Z (option (CFDict * RouteList A)) :=
  match state_dict with
  | None => ret None
  | Some _ => IPDictCreate af route_list_data_create state_dict setup_dict (options ≫= so_rank_assertion)
  end.
End create.
