(* ===== verification/RouteFill.v ===== *)
(** * IPMonitor: subnet masks, and filling the block of a route list

    [mask_get_prefix_length] finds the prefix length of exactly the masks that are
    some one bits followed by zero bits. The stores of RouteMake into a zeroed block
    come to a list of routes that is given as a reference. *)

From S2P Require Import Prelude RouteTypes RouteList RouteInv RouteDict RouteMake.

Local Open Scope Z_scope.

(** The bit [i] of an address, the most significant bit of its first byte being 0. *)
Definition mask_bit (m : address) (i : nat) : bool :=
  match m !! (i / 8)%nat with
  | Some b => Z.testbit (Z_of_byte b) (7 - Z.of_nat (i mod 8)%nat)
  | None => false
  end.
Definition prefix_mask (m : address) (n : Z) : Prop :=
  ∀ i, (i < 32)%nat → mask_bit m i = (Z.of_nat i <? n).

Lemma count_prefix_bits_range fuel n count :
  count_prefix_bits fuel n count = -1 ∨
  count ≤ count_prefix_bits fuel n count ≤ count + 4 * Z.of_nat fuel.
Proof.
  revert n count. induction fuel as [|fuel IH]; intros n count; cbn [count_prefix_bits];
    (destruct (n =? 0); [right; lia|]); [right; lia|].
  set (b := nth _ prefix_bits (-1)).
  assert (-1 ≤ b ≤ 4) as Hb.
  { unfold b. generalize (Z.to_nat (Z.land n 15)). intros k.
    do 17 (destruct k as [|k]; [cbn; lia|]). cbn. destruct k; lia. }
  destruct (Z.ltb_spec b 0); [by left|]. destruct (IH (Z.shiftr n 4) (count + b)); [by left|right; lia].
Qed.

(** The mask of a prefix length. *)
Definition netmask (n : Z) : address := reverse (le_encode 4 (prefix_to_mask32 n)).

Lemma ntohl_netmask m v : length m = 4%nat → ntohl m = v → m = reverse (le_encode 4 v).
Proof.
  intros Hm <-. unfold ntohl. rewrite <-Hm, <-(length_reverse m), le_encode_decode. by rewrite reverse_involutive.
Qed.

Lemma forall_upto (f : Z → bool) k :
  forallb (λ n : nat, f (Z.of_nat n)) (seq 0 k) = true → ∀ n, 0 ≤ n < Z.of_nat k → f n = true.
Proof.
  intros H n Hn. rewrite forallb_forall in H. specialize (H (Z.to_nat n)). cbn in H.
  rewrite Z2Nat.id in H by lia. apply H. apply in_seq. lia.
Qed.

Definition netmask_ok (n : Z) : bool :=
  (mask_get_prefix_length (netmask n) =? n) &&
  forallb (λ i, Bool.eqb (mask_bit (netmask n) i) (Z.of_nat i <? n)) (seq 0 32).

Lemma netmask_spec n : 0 ≤ n ≤ 32 → mask_get_prefix_length (netmask n) = n ∧ prefix_mask (netmask n) n.
Proof.
  intros Hn. assert (netmask_ok n = true) as H.
  { apply (forall_upto netmask_ok 33); [by vm_compute|lia]. }
  apply andb_prop in H as [?%Z.eqb_eq H]. split; [done|]. intros i Hi. rewrite forallb_forall in H.
  apply Bool.eqb_prop, H, in_seq. lia.
Qed.

Lemma byte_bits_eq x y :
  (∀ k, (k < 8)%nat → Z.testbit (Z_of_byte x) (7 - Z.of_nat k) = Z.testbit (Z_of_byte y) (7 - Z.of_nat k)) → x = y.
Proof.
  intros H. apply Z_of_byte_inj, Z.bits_inj'. intros i Hi.
  destruct (Z.le_gt_cases 8 i) as [Hl|Hl].
  - rewrite !Z.bits_above_log2; [done| | | |];
      pose proof (Z_of_byte_range x); pose proof (Z_of_byte_range y); try lia.
    + destruct (Z.eq_dec (Z_of_byte y) 0) as [->|]; [cbn; lia|]. apply (Z.lt_le_trans _ 8); [|lia].
      apply Z.log2_lt_pow2; lia.
    + destruct (Z.eq_dec (Z_of_byte x) 0) as [->|]; [cbn; lia|]. apply (Z.lt_le_trans _ 8); [|lia].
      apply Z.log2_lt_pow2; lia.
  - specialize (H (Z.to_nat (7 - i)) ltac:(lia)). by replace (7 - Z.of_nat (Z.to_nat (7 - i))) with i in H by lia.
Qed.

Lemma mask_bits_eq m m' : length m = 4%nat → length m' = 4%nat →
  (∀ i, (i < 32)%nat → mask_bit m i = mask_bit m' i) → m = m'.
Proof.
  intros Hm Hm' H. apply list_eq_same_length with 4%nat; [done|lia|]. intros j x y Hj Ex Ey.
  apply byte_bits_eq. intros k Hk. specialize (H (8 * j + k)%nat ltac:(lia)). unfold mask_bit in H.
  replace ((8 * j + k) / 8)%nat with j in H by (rewrite Nat.mul_comm, Nat.div_add_l, Nat.div_small; lia).
  replace ((8 * j + k) mod 8)%nat with k in H
    by (rewrite Nat.add_comm, Nat.mul_comm, Nat.Div0.mod_add, Nat.mod_small; lia).
  unfold address in H. by rewrite Ex, Ey in H.
Qed.

(** The prefix length found for a subnet mask is the number of one bits it starts
    with, and -1 is found exactly for a mask with a one bit behind a zero bit. *)
Theorem mask_get_prefix_length_exact m : length m = 4%nat →
  let n := mask_get_prefix_length m in
  0 ≤ n ≤ 32 ∧ prefix_mask m n ∨ n = -1 ∧ ∀ k, 0 ≤ k ≤ 32 → ¬ prefix_mask m k.
Proof.
  intros Hm n.
  assert (n = -1 ∨ 0 ≤ n ≤ 32 ∧ m = netmask n) as [En|[Hn En]].
  { unfold n, mask_get_prefix_length. pose proof (count_prefix_bits_range 8 (le_decode m) 0) as Hc.
    fold (count_prefix_bits_set (le_decode m)) in Hc.
    destruct (Z.leb_spec 0 (count_prefix_bits_set (le_decode m))); [|left; lia].
    case_match eqn:E; [|by left]. right. split; [lia|]. apply ntohl_netmask; [done|by apply Z.eqb_eq]. }
  - right. split; [done|]. intros k Hk Hm2.
    assert (m = netmask k) as ->.
    { apply mask_bits_eq; [done|unfold netmask; by rewrite length_reverse, length_le_encode|].
      intros i Hi. rewrite Hm2 by done. symmetry. by apply netmask_spec. }
    unfold n in En. rewrite (proj1 (netmask_spec k Hk)) in En. lia.
  - left. split; [done|]. rewrite En. by apply netmask_spec.
Qed.

Lemma mask_get_prefix_length_range m : -1 ≤ mask_get_prefix_length m ≤ 32.
Proof.
  unfold mask_get_prefix_length. pose proof (count_prefix_bits_range 8 (le_decode m) 0) as Hc.
  fold (count_prefix_bits_set (le_decode m)) in Hc. repeat case_match; lia.
Qed.

(** ** IPMonitor: filling the block of a route list

    A store through the cursor stays in the block as long as there is room, the
    routes of the dictionary that make no sense leave no trace in those behind
    them, and the count ends at what is stored. *)

Local Open Scope c_scope.

(** ** The cursor *)

Section cursor.
Context {A : Type}.
Implicit Types (done rest : list (Route A)) (r : Route A).

Lemma bind_bind {S X Y Z} (m : C S X) (k : X → C S Y) (h : Y → C S Z) s :
  bind (bind m k) h s = bind m (λ x, bind (k x) h) s.
Proof. unfold bind. by destruct (m s) as [[]|]. Qed.

(** The block with [done] in front of the cursor and [rest] behind it. *)
Definition at_ (size count flags : Z) done rest : build A :=
  MkBuild A (MkBlock A size count flags (done ++ rest)) (length done).

Lemma load_at size count flags done r rest :
  load (at_ size count flags done (r :: rest)) = Some (r, at_ size count flags done (r :: rest)).
Proof. unfold load, at_. cbn. by rewrite list_lookup_middle. Qed.

Lemma store_at f size count flags done r rest :
  store f (at_ size count flags done (r :: rest)) = Some (tt, at_ size count flags done (f r :: rest)).
Proof.
  unfold store, at_. cbn. rewrite list_lookup_middle by done. unfold with_routes. cbn.
  rewrite <-(Nat.add_0_r (length done)) at 1. by rewrite insert_app_r.
Qed.

Lemma advance_at size count flags done r rest :
  advance (at_ size count flags done (r :: rest)) = Some (tt, at_ size count flags (done ++ [r]) rest).
Proof. unfold advance, at_. cbn. by rewrite <-app_assoc, length_app, Nat.add_1_r. Qed.

Lemma skip_at size count flags done rest :
  skip (at_ size count flags done rest) = Some (tt, at_ size (i32 (count - 1)) flags done rest).
Proof. done. Qed.

(** Routes that are stored if [b]. *)
Definition if_list (b : bool) (l : list (Route A)) : list (Route A) := if b then l else [].

(** ** Routes of the dictionary *)

(** A route is added from the value, or the slot stays clean. *)
Definition adds (clean : Route A → Prop) (add : CFType → C (build A) unit) (parse : CFType → option (Route A)) : Prop :=
  ∀ v size count flags done r rest, clean r →
  ∃ r', clean r' ∧
    add v (at_ size count flags done (r :: rest)) =
    Some (tt, match parse v with
              | Some x => at_ size count flags (done ++ [x]) rest
              | None => at_ size (i32 (count - 1)) flags done (r' :: rest)
              end).

Lemma for_each_adds clean add parse l size flags done rest tail count :
  adds clean add parse → Forall clean rest → (length l ≤ length rest)%nat →
  Z.of_nat (length l) ≤ count < 2 ^ 31 →
  ∃ rest', Forall clean rest' ∧ length rest' = (length rest - length (omap parse l))%nat ∧
    for_each l add (at_ size count flags done (rest ++ tail)) =
    Some (tt, at_ size (count - Z.of_nat (length l) + Z.of_nat (length (omap parse l))) flags
                (done ++ omap parse l) (rest' ++ tail)).
Proof.
  intros Ha. revert done rest count. induction l as [|v l IH]; intros done rest count Hc Hl Hn.
  { exists rest. cbn. rewrite app_nil_r, Nat.sub_0_r. split_and!; [done..|].
    by replace (count - Z.of_nat 0 + Z.of_nat 0) with count by lia. }
  destruct rest as [|r rest]; [cbn in Hl; lia|]. apply Forall_cons in Hc as [Hr Hc].
  cbn [length] in Hl, Hn. cbn [app].
  destruct (Ha v size count flags done r (rest ++ tail) Hr) as (r' & Hr' & E).
  cbn [for_each]. rewrite (bind_eq _ _ _ _ _ E). cbn [omap list_omap]. destruct (parse v) as [x|].
  - destruct (IH (done ++ [x]) rest count) as (rest' & Hc' & Hl' & ->); [done|lia|lia|].
    exists rest'. split_and!; [done|cbn in *; lia|]. rewrite <-app_assoc. cbn [length app]. do 2 f_equal. f_equal. lia.
  - destruct (IH done (r' :: rest) (i32 (count - 1))) as (rest' & Hc' & Hl' & E');
      [by constructor|cbn; lia|rewrite i32_small by lia; lia|].
    exists rest'. cbn [app] in E'. rewrite E'. split_and!; [done|done|].
    cbn [length]. rewrite i32_small by lia. do 2 f_equal. f_equal. lia.
Qed.

Lemma set_flags_at fl size count flags done rest :
  set_list_flags fl (at_ size count flags done rest) = Some (tt, at_ size count (Z.lor flags fl) done rest).
Proof. done. Qed.

Lemma omap_length {X Y} (f : X → option Y) l : (length (omap f l) ≤ length l)%nat.
Proof. induction l as [|x l IH]; cbn; [done|]. destruct (f x); cbn; lia. Qed.

End cursor.

#[global] Opaque at_.
#[global] Arguments skip : simpl never.
#[global] Arguments store : simpl never.
#[global] Arguments advance : simpl never.
#[global] Arguments load : simpl never.
#[global] Arguments set_list_flags : simpl never.
#[local] Arguments bind : simpl never.

(** ** What an entry of the arrays gives *)

Section entries.
Context `{!Network}.
Variable cache : option (list (string * Z)).

Notation AddIPv4Route := (AddIPv4Route cache).
Notation AddIPv6Route := (AddIPv6Route cache).

(** Destination, mask and prefix length. *)
Definition entry4 (v : CFType) : option (CFDict * address * address * Z) :=
  match v with
  | CFDictionary dict =>
      let '(ok1, dest) := dict_get_ip AF_INET dict "DestinationAddress" in
      let '(ok2, mask) := dict_get_ip AF_INET dict "SubnetMask" in
      let n := mask_get_prefix_length mask in
      if ok1 && ok2 && (0 <=? n) then Some (dict, dest, mask, n) else None
  | _ => None
  end.
Definition entry6 (v : CFType) : option (CFDict * address * Z) :=
  match v with
  | CFDictionary dict =>
      let '(ok1, dest) := dict_get_ip AF_INET6 dict "DestinationAddress" in
      let '(ok2, n) := dict_get_int dict "PrefixLength" 0 in
      if ok1 && ok2 && (0 <=? n) && (n <=? 128) then Some (dict, dest, n) else None
  | _ => None
  end.

(** A gateway makes it a route through it, a full mask one to a host. *)
Definition gateway_flags (ok : bool) (n all : Z) : Z :=
  if ok then Z.lor kRouteFlagsHasGateway (if n =? all then kRouteFlagsIsHost else 0) else 0.

Definition additional4 (ifindex rank : Z) (addr : address) (v : CFType) : option IPv4Route :=
  '(dict, dest, mask, n) ← entry4 v;
  let '(ok, gateway) := dict_get_ip AF_INET dict "GatewayAddress" in
  Some (MkRoute IPv4Addrs n ifindex 0 rank (gateway_flags ok n 32) 0 (IPv4 dest mask gateway addr)).
Definition additional6 (ifindex rank : Z) (addr : address) (v : CFType) : option IPv6Route :=
  '(dict, dest, n) ← entry6 v;
  let '(ok, gateway) := dict_get_ip AF_INET6 dict "GatewayAddress" in
  Some (MkRoute IPv6Addrs n ifindex 0 rank (gateway_flags ok n 128) 0 (IPv6 dest gateway addr)).

(** The interface an excluded route names, 0 for none; [None] if it does not exist. *)
Definition named_interface (dict : CFDict) : option Z :=
  match plist_get_string dict "InterfaceName" IFNAMSIZ with
  | Some (_, ifname) =>
      let i := my_if_nametoindex cache ifname in if i =? 0 then None else Some i
  | None => Some 0
  end.
Definition excluded4 (ifindex rank : Z) (v : CFType) : option IPv4Route :=
  '(dict, dest, mask, n) ← entry4 v;
  i ← named_interface dict;
  Some (MkRoute IPv4Addrs n i ifindex rank 0 0 (IPv4 dest mask (any AF_INET) (any AF_INET))).
Definition excluded6 (ifindex rank : Z) (v : CFType) : option IPv6Route :=
  '(dict, dest, n) ← entry6 v;
  i ← named_interface dict;
  Some (MkRoute IPv6Addrs n i ifindex rank 0 0 (IPv6 dest (any AF_INET6) (any AF_INET6))).

(** What a skipped entry may leave behind is written again by the next. *)
Definition clean4 (r : IPv4Route) : Prop :=
  r_ifindex r = 0 ∧ r_flags r = 0 ∧ r_control_flags r = 0 ∧
  v4_gateway (r_addrs r) = any AF_INET ∧ v4_ifa (r_addrs r) = any AF_INET.
Definition clean6 (r : IPv6Route) : Prop :=
  r_ifindex r = 0 ∧ r_flags r = 0 ∧ r_control_flags r = 0 ∧
  v6_gateway (r_addrs r) = any AF_INET6 ∧ v6_ifa (r_addrs r) = any AF_INET6.

Ltac step := first
  [ rewrite (bind_eq _ _ _ _ _ (store_at _ _ _ _ _ _ _))
  | rewrite (bind_eq _ _ _ _ _ (load_at _ _ _ _ _ _))
  | rewrite (bind_eq _ _ _ _ _ (advance_at _ _ _ _ _ _))
  | rewrite bind_bind | rewrite store_at | rewrite advance_at | rewrite skip_at | rewrite bind_ret ].
Ltac same_route r :=
  exists r; split; [assumption|]; destruct r as [n0 i0 x0 k0 f0 c0 []]; cbn in *; by subst.
Ltac left_clean :=
  rewrite skip_at; eexists; split; [|reflexivity]; unfold clean4, clean6; cbn; auto.

(** The number, if there is one. *)
Definition number (v : option CFType) : option (Z * bool) :=
  match v with Some (CFNumber value exact) => Some (value, exact) | _ => None end.
Lemma dict_get_int_number dict prop old :
  dict_get_int dict prop old =
  match number (dict !! prop) with Some (value, exact) => (exact, value) | None => (false, old) end.
Proof. unfold dict_get_int, cfnumber_to_int, number. by repeat case_match; simplify_eq. Qed.

Lemma AddIPv4Route_additional ifindex rank addr : ifindex ≠ 0 →
  adds clean4 (AddIPv4Route (MkContext (Some addr) ifindex 0 rank)) (additional4 ifindex rank addr).
Proof.
  intros Hif v size count flags done r rest Hr. pose proof Hr as (Ei & Ef & Ec & Eg & Ea).
  destruct v as [| | | |dict|]; try (exists r; split; [done|]; apply skip_at).
  cbn. unfold additional4, entry4.
  destruct (dict_get_ip AF_INET dict "DestinationAddress") as [ok1 dest].
  destruct (dict_get_ip AF_INET dict "SubnetMask") as [ok2 mask].
  step. destruct ok1; cbn; [|left_clean]. step. destruct ok2; cbn; [|left_clean].
  step. cbn. destruct (Z.ltb_spec (mask_get_prefix_length mask) 0) as [Hn|Hn].
  { rewrite (proj2 (Z.leb_gt 0 _)) by done. cbn. left_clean. }
  rewrite (proj2 (Z.leb_le 0 _)) by done. cbn. rewrite (proj2 (Z.eqb_neq ifindex 0)) by done. cbn.
  repeat step. destruct (dict_get_ip AF_INET dict "GatewayAddress") as [ok gateway].   unfold IPV4_ROUTE_ALL_BITS_SET.
  destruct ok; cbn; repeat step; cbn; try case_match; same_route r.
Qed.

Lemma AddIPv6Route_additional ifindex rank addr : ifindex ≠ 0 →
  adds clean6 (AddIPv6Route (MkContext (Some addr) ifindex 0 rank)) (additional6 ifindex rank addr).
Proof.
  intros Hif v size count flags done r rest Hr. pose proof Hr as (Ei & Ef & Ec & Eg & Ea).
  destruct v as [| | | |dict|]; try (exists r; split; [done|]; apply skip_at).
  cbn. unfold additional6, entry6, ipv6_prefix_length_is_valid.
  destruct (dict_get_ip AF_INET6 dict "DestinationAddress") as [ok1 dest].
  rewrite dict_get_int_number. step. destruct ok1; cbn.
  2:{ destruct (number _) as [[]|]; left_clean. }
  step. rewrite dict_get_int_number. destruct (number _) as [[n ok2]|]; cbn; [|step; left_clean].
  step. destruct ok2; cbn; [|left_clean].
  unfold IPV6_ROUTE_ALL_BITS_SET. rewrite negb_orb, <-!Z.leb_antisym.
  destruct ((0 <=? n) && (n <=? 128)); cbn; [|left_clean].
  rewrite (proj2 (Z.eqb_neq ifindex 0)) by done. cbn.
  repeat step. destruct (dict_get_ip AF_INET6 dict "GatewayAddress") as [ok gateway].   destruct ok; cbn; repeat step; cbn; try case_match; same_route r.
Qed.

Lemma AddIPv4Route_excluded ifindex rank addr :
  adds clean4 (AddIPv4Route (MkContext (Some addr) 0 ifindex rank)) (excluded4 ifindex rank).
Proof.
  intros v size count flags done r rest Hr. pose proof Hr as (Ei & Ef & Ec & Eg & Ea).
  destruct v as [| | | |dict|]; try (exists r; split; [done|]; apply skip_at).
  cbn. unfold excluded4, entry4, named_interface.
  destruct (dict_get_ip AF_INET dict "DestinationAddress") as [ok1 dest].
  destruct (dict_get_ip AF_INET dict "SubnetMask") as [ok2 mask].
  step. destruct ok1; cbn; [|left_clean]. step. destruct ok2; cbn; [|left_clean].
  step. cbn. destruct (Z.ltb_spec (mask_get_prefix_length mask) 0) as [Hn|Hn].
  { rewrite (proj2 (Z.leb_gt 0 _)) by done. cbn. left_clean. }
  rewrite (proj2 (Z.leb_le 0 _)) by done. cbn. repeat step.
  destruct (plist_get_string dict "InterfaceName" IFNAMSIZ) as [[? ifname]|]; cbn.
  - destruct (my_if_nametoindex cache ifname =? 0) eqn:E0; cbn; [left_clean|]. repeat step.
    same_route r.
  - step. same_route r.
Qed.

Lemma AddIPv6Route_excluded ifindex rank :
  adds clean6 (AddIPv6Route (MkContext None 0 ifindex rank)) (excluded6 ifindex rank).
Proof.
  intros v size count flags done r rest Hr. pose proof Hr as (Ei & Ef & Ec & Eg & Ea).
  destruct v as [| | | |dict|]; try (exists r; split; [done|]; apply skip_at).
  cbn. unfold excluded6, entry6, named_interface, ipv6_prefix_length_is_valid.
  destruct (dict_get_ip AF_INET6 dict "DestinationAddress") as [ok1 dest].
  rewrite dict_get_int_number. step. destruct ok1; cbn.
  2:{ destruct (number _) as [[]|]; left_clean. }
  step. rewrite dict_get_int_number. destruct (number _) as [[n ok2]|]; cbn; [|step; left_clean].
  step. destruct ok2; cbn; [|left_clean].
  unfold IPV6_ROUTE_ALL_BITS_SET. rewrite negb_orb, <-!Z.leb_antisym.
  destruct ((0 <=? n) && (n <=? 128)); cbn; [|left_clean]. repeat step.
  destruct (plist_get_string dict "InterfaceName" IFNAMSIZ) as [[? ifname]|]; cbn.
  - destruct (my_if_nametoindex cache ifname =? 0) eqn:E0; cbn; [left_clean|]. repeat step.
    same_route r.
  - step. same_route r.
Qed.
(** ** The lists *)

Context `{Hheap : !Heap}.

Definition default4 (l : route_locals) : IPv4Route :=
  MkRoute IPv4Addrs 0 (lc_ifindex l) 0 (lc_primary_rank l) (lc_flags l) 0
    (IPv4 (any AF_INET) (any AF_INET)
       (if has (lc_flags l) kRouteFlagsHasGateway then lc_router l else lc_addr l) (lc_addr l)).
Definition fixed4 (l : route_locals) (n : Z) (dest mask gateway : address) : IPv4Route :=
  MkRoute IPv4Addrs n (lc_ifindex l) 0 (lc_rank l) (null_flags (lc_flags l) 0) 0
    (IPv4 dest mask gateway (lc_addr l)).
Definition has_default4 (l : route_locals) (not_lo0 : bool) : bool :=
  not_lo0 && bool_decide (lc_router l ≠ any AF_INET).
(** The routes of a service in their order: default, broadcast, multicast, subnet,
    router, and those of the dictionary. *)
Definition fixed_routes4 (l : route_locals) (not_lo0 : bool) : list IPv4Route :=
  if_list (has_default4 l not_lo0) [default4 l] ++
  if_list not_lo0 [fixed4 l 32 INADDR_BROADCAST INADDR_BROADCAST (any AF_INET);
                   fixed4 l 4 INADDR_UNSPEC_GROUP IN_CLASSD_NET (any AF_INET)] ++
  if_list (lc_add_subnet l)
    [fixed4 l (lc_prefix_length l) (subnet_addr (lc_addr l) (lc_mask l)) (lc_mask l) (lc_addr l)] ++
  if_list (has (lc_flags l) kRouteFlagsHasGateway) [fixed4 l 32 (lc_router l) INADDR_BROADCAST (lc_addr l)].
Definition routes4 (l : route_locals) (not_lo0 : bool) (additional excluded : list CFType) : list IPv4Route :=
  fixed_routes4 l not_lo0 ++ omap (additional4 (lc_ifindex l) (lc_rank l) (lc_addr l)) additional ++
  omap (excluded4 (lc_ifindex l) (lc_rank l)) excluded.

Definition default_flag (b : bool) : Z := if b then kRouteListFlagsHasDefault else 0.

Lemma fixed4_slots l not_lo0 R (z : IPv4Route) :
  replicate (length (fixed_routes4 l not_lo0)) z ++ R =
  if_list (has_default4 l not_lo0) [z] ++ if_list not_lo0 [z; z] ++ if_list (lc_add_subnet l) [z] ++
  if_list (has (lc_flags l) kRouteFlagsHasGateway) [z] ++ R.
Proof.
  unfold fixed_routes4. destruct (has_default4 l not_lo0), not_lo0, (lc_add_subnet l), (has _ _); reflexivity.
Qed.

Ltac stores :=
  repeat first
    [ rewrite (bind_eq _ _ _ _ _ (store_at _ _ _ _ _ _ _))
    | rewrite (bind_eq _ _ _ _ _ (advance_at _ _ _ _ _ _))
    | rewrite (bind_eq _ _ _ _ _ (set_flags_at _ _ _ _ _ _))
    | rewrite bind_bind | rewrite bind_ret ].

Lemma fill4_fixed l not_lo0 additional excluded size count flags R :
  IPv4RouteListFill cache l not_lo0 additional excluded
    (at_ size count flags [] (replicate (length (fixed_routes4 l not_lo0)) zero4 ++ R)) =
  (for_each (default [] additional) (AddIPv4Route (MkContext (Some (lc_addr l)) (lc_ifindex l) 0 (lc_rank l)));;
   for_each (default [] excluded) (AddIPv4Route (MkContext (Some (lc_addr l)) 0 (lc_ifindex l) (lc_rank l))))
    (at_ size count (Z.lor flags (default_flag (has_default4 l not_lo0))) (fixed_routes4 l not_lo0) R).
Proof.
  rewrite fixed4_slots. unfold IPv4RouteListFill. fold (has_default4 l not_lo0).
  unfold fixed_routes4. generalize (has_default4 l not_lo0). intros b.
  destruct b, not_lo0, (lc_add_subnet l), (has (lc_flags l) kRouteFlagsHasGateway) eqn:Eg; cbn; stores; cbn;
    unfold default4; by rewrite ?Eg, ?Z.lor_0_r.
Qed.

(** Both arrays behind the fixed routes. *)
Lemma fill_arrays {A} clean (add1 add2 : CFType → C (build A) unit) parse1 parse2 l1 l2 size flags done rest tail :
  adds clean add1 parse1 → adds clean add2 parse2 → Forall clean rest →
  length rest = (length l1 + length l2)%nat →
  let all := done ++ omap parse1 l1 ++ omap parse2 l2 in
  Z.of_nat (length done + length rest) < 2 ^ 31 →
  ∃ rest', (for_each l1 add1;; for_each l2 add2)
      (at_ size (Z.of_nat (length done + length rest)) flags done (rest ++ tail)) =
    Some (tt, at_ size (Z.of_nat (length all)) flags all rest').
Proof.
  intros H1 H2 Hc Hl all Hn.
  assert (length (omap parse1 l1) ≤ length l1)%nat as Ho by apply omap_length.
  destruct (for_each_adds clean add1 parse1 l1 size flags done rest tail (Z.of_nat (length done + length rest)))
    as (rest1 & Hc1 & Hl1 & E1); [done|done|lia|lia|].
  rewrite (bind_eq _ _ _ _ _ E1).
  destruct (for_each_adds clean add2 parse2 l2 size flags (done ++ omap parse1 l1) rest1 tail
    (Z.of_nat (length done + length rest) - Z.of_nat (length l1) + Z.of_nat (length (omap parse1 l1))))
    as (rest2 & _ & _ & E2); [done|done|lia|lia|].
  rewrite E2. exists (rest2 ++ tail). unfold all. rewrite <-app_assoc, !length_app. do 2 f_equal. f_equal. lia.
Qed.

Lemma zero4_clean : clean4 zero4.
Proof. done. Qed.
Lemma zero6_clean : clean6 zero6.
Proof. done. Qed.

Lemma fill4 l not_lo0 additional excluded size flags tail : lc_ifindex l ≠ 0 →
  let l1 := default [] additional in let l2 := default [] excluded in
  let n := (length (fixed_routes4 l not_lo0) + (length l1 + length l2))%nat in
  let all := routes4 l not_lo0 l1 l2 in
  Z.of_nat n < 2 ^ 31 →
  ∃ rest', IPv4RouteListFill cache l not_lo0 additional excluded
      (at_ size (Z.of_nat n) flags [] (replicate n zero4 ++ tail)) =
    Some (tt, at_ size (Z.of_nat (length all)) (Z.lor flags (default_flag (has_default4 l not_lo0))) all rest').
Proof.
  intros Hif l1 l2 n all Hn. unfold n at 2. rewrite replicate_add, <-app_assoc, fill4_fixed.
  destruct (fill_arrays clean4 _ _ _ _ l1 l2 size (Z.lor flags (default_flag (has_default4 l not_lo0)))
    (fixed_routes4 l not_lo0) (replicate (length l1 + length l2) zero4) tail
    (AddIPv4Route_additional (lc_ifindex l) (lc_rank l) (lc_addr l) Hif)
    (AddIPv4Route_excluded (lc_ifindex l) (lc_rank l) (lc_addr l))) as [rest' E];
    [apply Forall_replicate, zero4_clean|apply length_replicate|by rewrite length_replicate|].
  rewrite length_replicate in E. exists rest'. exact E.
Qed.

(** *** IPv6 *)

Definition default6 (l : route_locals) : IPv6Route :=
  MkRoute IPv6Addrs 0 (lc_ifindex l) 0 (lc_primary_rank l) (Z.lor (lc_flags l) kRouteFlagsKernelManaged) 0
    (IPv6 (any AF_INET6)
       (if has (lc_flags l) kRouteFlagsHasGateway then lc_router l else lc_addr l) (lc_addr l)).
Definition linklocal6 (l : route_locals) : IPv6Route :=
  MkRoute IPv6Addrs 64 (lc_ifindex l) 0 (lc_rank l) kRouteFlagsKernelManaged 0
    (IPv6 (xfe :: x80 :: replicate 14 x00) (any AF_INET6) (any AF_INET6)).
Definition prefix6 (l : route_locals) : IPv6Route :=
  MkRoute IPv6Addrs (lc_prefix_length l) (lc_ifindex l) 0 (lc_rank l)
    (null_flags (lc_flags l) kRouteFlagsKernelManaged) 0
    (IPv6 (in6_netaddr (lc_addr l) (lc_prefix_length l)) (lc_addr l) (lc_addr l)).
Definition fixed_routes6 (l : route_locals) (add_default : bool) : list IPv6Route :=
  if_list add_default [default6 l] ++ [linklocal6 l] ++ if_list (lc_add_subnet l) [prefix6 l].
Definition routes6 (l : route_locals) (add_default : bool) (additional excluded : list CFType) : list IPv6Route :=
  fixed_routes6 l add_default ++ omap (additional6 (lc_ifindex l) (lc_rank l) (lc_addr l)) additional ++
  omap (excluded6 (lc_ifindex l) (lc_rank l)) excluded.

Lemma fixed6_slots l add_default R (z : IPv6Route) :
  replicate (length (fixed_routes6 l add_default)) z ++ R =
  if_list add_default [z] ++ z :: if_list (lc_add_subnet l) [z] ++ R.
Proof. unfold fixed_routes6. by destruct add_default, (lc_add_subnet l). Qed.

Lemma fill6_fixed l add_default additional excluded size count flags R :
  IPv6RouteListFill cache l add_default additional excluded
    (at_ size count flags [] (replicate (length (fixed_routes6 l add_default)) zero6 ++ R)) =
  (for_each (default [] additional) (AddIPv6Route (MkContext (Some (lc_addr l)) (lc_ifindex l) 0 (lc_rank l)));;
   for_each (default [] excluded) (AddIPv6Route (MkContext None 0 (lc_ifindex l) (lc_rank l))))
    (at_ size count (Z.lor flags (default_flag add_default)) (fixed_routes6 l add_default) R).
Proof.
  rewrite fixed6_slots. unfold IPv6RouteListFill, fixed_routes6.
  destruct add_default, (lc_add_subnet l); cbn; stores; cbn; by rewrite ?Z.lor_0_r.
Qed.

Lemma fill6 l add_default additional excluded size flags tail : lc_ifindex l ≠ 0 →
  let l1 := default [] additional in let l2 := default [] excluded in
  let n := (length (fixed_routes6 l add_default) + (length l1 + length l2))%nat in
  let all := routes6 l add_default l1 l2 in
  Z.of_nat n < 2 ^ 31 →
  ∃ rest', IPv6RouteListFill cache l add_default additional excluded
      (at_ size (Z.of_nat n) flags [] (replicate n zero6 ++ tail)) =
    Some (tt, at_ size (Z.of_nat (length all)) (Z.lor flags (default_flag add_default)) all rest').
Proof.
  intros Hif l1 l2 n all Hn. unfold n at 2. rewrite replicate_add, <-app_assoc, fill6_fixed.
  destruct (fill_arrays clean6 _ _ _ _ l1 l2 size (Z.lor flags (default_flag add_default))
    (fixed_routes6 l add_default) (replicate (length l1 + length l2) zero6) tail
    (AddIPv6Route_additional (lc_ifindex l) (lc_rank l) (lc_addr l) Hif)
    (AddIPv6Route_excluded (lc_ifindex l) (lc_rank l))) as [rest' E];
    [apply Forall_replicate, zero6_clean|apply length_replicate|by rewrite length_replicate|].
  rewrite length_replicate in E. exists rest'. exact E.
Qed.
End entries.

(** ** IPMonitor: what the route list of a service is

    [IPv4RouteListDataCreate] and [IPv6RouteListDataCreate] give the list of a
    reference definition, whatever their buffer on the stack holds. *)

(** ** The block *)

Section block.
Context {A : Type} `{Hheap : !Heap}.

Lemma list_data_at size flags (done rest : list (Route A)) :
  list_data (bd_routes (at_ size (Z.of_nat (length done)) flags done rest)) =
  Some (MkRouteList A size flags done).
Proof.
  Transparent at_. unfold list_data, at_. Opaque at_. cbn. rewrite length_app.
  rewrite (proj2 (Z.leb_le 0 _)), (proj2 (Z.leb_le _ _)) by lia. cbn.
  by rewrite Nat2Z.id, take_app_length.
Qed.

Definition list_flags (l : route_locals) (has_default : bool) : Z :=
  Z.lor (if lc_exclude_from_nwi l then kRouteListFlagsExcludeNWI
         else if lc_scoped_only l then kRouteListFlagsScopedOnly else 0) (default_flag has_default).

(** The block on the stack, with room for [size] routes, or one of the heap. *)
Lemma create_list_spec (zero : Route A) size routes_buf l n fill has_default all :
  (∀ n, can_alloc n = true) → Z.of_nat (length routes_buf) = size →
  (∀ size flags tail, ∃ rest,
     fill (at_ size (Z.of_nat n) flags [] (replicate n zero ++ tail)) =
     Some (tt, at_ size (Z.of_nat (length all)) (Z.lor flags (default_flag has_default)) all rest)) →
  ∃ routes, create_list zero (Some (MkBlock A size 0 0 routes_buf)) l (Z.of_nat n) fill = Some routes ∧
    list_data routes = Some (MkRouteList A (Z.max size (Z.of_nat n)) (list_flags l has_default) all).
Proof.
  intros Hal Hbuf Hfill.
  assert (∃ tail, block_for _ zero (Some (MkBlock A size 0 0 routes_buf)) (Z.of_nat n) =
    Some (MkBlock A (Z.max size (Z.of_nat n)) (Z.of_nat n) 0 (replicate n zero ++ tail))) as [tail E].
  { unfold block_for. cbn. rewrite Hal, Nat2Z.id. destruct (Z.ltb_spec size (Z.of_nat n)).
    - exists []. rewrite app_nil_r, Z.max_r; [done|lia].
    - exists (drop n routes_buf). rewrite Z.max_l; [done|lia]. }
  unfold create_list. rewrite E.
  set (fl := if lc_exclude_from_nwi l then kRouteListFlagsExcludeNWI
             else if lc_scoped_only l then kRouteListFlagsScopedOnly else 0).
  match goal with |- context [MkBuild A ?b 0] =>
    assert (MkBuild A b 0 = at_ (Z.max size (Z.of_nat n)) (Z.of_nat n) fl [] (replicate n zero ++ tail)) as ->
  end.
  { unfold fl. by destruct (lc_exclude_from_nwi l), (lc_scoped_only l). }
  destruct (Hfill (Z.max size (Z.of_nat n)) fl tail) as [rest ->]. eexists. split; [done|]. apply list_data_at.
Qed.
End block.

(** ** The reference *)

Section reference.
Context `{!Network} `{Hheap : !Heap}.
Variable cache : option (list (string * Z)).

(** The entries of an array, none if the interface is not the confirmed one. *)
Definition entries (l : route_locals) (dict : CFDict) (key : string) : list CFType :=
  if lc_allow_additional_routes l then default [] (get_array dict key) else [].
(** How many routes are made room for. *)
Definition claimed4 (l : route_locals) (not_lo0 : bool) (dict : CFDict) : nat :=
  length (fixed_routes4 l not_lo0) +
  (length (entries l dict "AdditionalRoutes") + length (entries l dict "ExcludedRoutes")).
Definition claimed6 (l : route_locals) (add_default : bool) (dict : CFDict) : nat :=
  length (fixed_routes6 l add_default) +
  (length (entries l dict "AdditionalRoutes") + length (entries l dict "ExcludedRoutes")).

Definition created4 (dict : CFDict) (rank_assertion : option Z) (lo0 : Z) : option (RouteList IPv4Addrs) :=
  l ← IPv4RouteListReadDictionary cache dict rank_assertion;
  let not_lo0 := negb (lc_ifindex l =? lo0) in
  Some (MkRouteList IPv4Addrs (Z.max IPV4_ROUTES_N_STATIC (Z.of_nat (claimed4 l not_lo0 dict)))
          (list_flags l (has_default4 l not_lo0))
          (routes4 cache l not_lo0 (entries l dict "AdditionalRoutes") (entries l dict "ExcludedRoutes"))).

(** [None] if it is only the link-local route there is to make. *)
Definition created6 (dict : CFDict) (rank_assertion : option Z) (lo0 : Z) : option (RouteList IPv6Addrs) :=
  l ← IPv6RouteListReadDictionary cache [] dict rank_assertion;
  let add_default := bool_decide (lc_router l ≠ any AF_INET6) && negb (lc_ifindex l =? lo0) in
  if (claimed6 l add_default dict =? 1)%nat then None else
  Some (MkRouteList IPv6Addrs (Z.max IPV6_ROUTES_N_STATIC (Z.of_nat (claimed6 l add_default dict)))
          (list_flags l add_default)
          (routes6 cache l add_default (entries l dict "AdditionalRoutes") (entries l dict "ExcludedRoutes"))).

(** The number of routes the dictionary names fits an [int]. *)
Definition few_routes (dict : CFDict) : Prop :=
  Z.of_nat (length (default [] (get_array dict "AdditionalRoutes")) +
            length (default [] (get_array dict "ExcludedRoutes"))) < 2 ^ 30.

Lemma add_count_arrays l dict (n : nat) : few_routes dict → (n < 10)%nat →
  add_count (add_count (Z.of_nat n)
    (if lc_allow_additional_routes l then get_array dict "AdditionalRoutes" else None))
    (if lc_allow_additional_routes l then get_array dict "ExcludedRoutes" else None) =
  Z.of_nat (n + (length (entries l dict "AdditionalRoutes") + length (entries l dict "ExcludedRoutes"))).
Proof.
  unfold few_routes, entries, add_count. intros Hf Hn.
  destruct (lc_allow_additional_routes l), (get_array dict "AdditionalRoutes"), (get_array dict "ExcludedRoutes");
    cbn [default length] in *; unfold default in *; cbn in *; rewrite ?(i32_small (Z.of_nat n + _)) by lia; rewrite ?i32_small by lia; lia.
Qed.

Lemma lc_ifindex_read4 dict ra l : IPv4RouteListReadDictionary cache dict ra = Some l → lc_ifindex l ≠ 0.
Proof.
  unfold IPv4RouteListReadDictionary. intros E. repeat case_match; simplify_eq; cbn; by apply Z.eqb_neq.
Qed.

Lemma fixed4_count l (not_lo0 : bool) :
  bool_Z (lc_add_subnet l) + bool_Z (has (lc_flags l) kRouteFlagsHasGateway) +
    (if not_lo0 then bool_Z (bool_decide (lc_router l ≠ any AF_INET)) + 2 else 0) =
  Z.of_nat (length (fixed_routes4 l not_lo0)) ∧ (length (fixed_routes4 l not_lo0) < 10)%nat.
Proof.
  unfold fixed_routes4, has_default4.
  destruct not_lo0, (lc_add_subnet l), (has _ _), (bool_decide _); cbn; lia.
Qed.

Definition lo0_index (idx : Z) : Z := if idx =? 0 then my_if_nametoindex cache "lo0" else idx.

Lemma entries_default l dict key :
  default [] (if lc_allow_additional_routes l then get_array dict key else None) = entries l dict key.
Proof. unfold entries. by destruct (lc_allow_additional_routes l). Qed.

Lemma IPv4RouteListDataCreate_spec buf dict ra idx :
  (∀ n, can_alloc n = true) → length buf = 5%nat → few_routes dict →
  ∃ idx', IPv4RouteListDataCreate cache buf (Some dict) ra idx = Some (created4 dict ra (lo0_index idx), idx') ∧
    (idx' = idx ∨ idx' = lo0_index idx).
Proof.
  intros Hal Hbuf Hfew. unfold IPv4RouteListDataCreate, IPv4RouteListCreateWithDictionary, created4.
  destruct (IPv4RouteListReadDictionary cache dict ra) as [l|] eqn:El; [|by exists idx; auto].
  cbn [mbind option_bind]. set (not_lo0 := negb (lc_ifindex l =? lo0_index idx)).
  destruct (fixed4_count l not_lo0) as [Hn Hlt].
  assert (Z.of_nat (claimed4 l not_lo0 dict) < 2 ^ 31) as Hc.
  { unfold claimed4, entries, few_routes in *. destruct (lc_allow_additional_routes l); cbn [length]; lia. }
  destruct (create_list_spec zero4 5 buf l (claimed4 l not_lo0 dict)
    (IPv4RouteListFill cache l not_lo0
       (if lc_allow_additional_routes l then get_array dict "AdditionalRoutes" else None)
       (if lc_allow_additional_routes l then get_array dict "ExcludedRoutes" else None))
    (has_default4 l not_lo0)
    (routes4 cache l not_lo0 (entries l dict "AdditionalRoutes") (entries l dict "ExcludedRoutes")))
    as (routes & E & Ed); [done|exact (f_equal Z.of_nat Hbuf)| |].
  { intros size flags tail. unfold claimed4. rewrite <-!entries_default. eapply fill4.
    - by eapply lc_ifindex_read4.
    - rewrite !entries_default. exact Hc. }
  exists (lo0_index idx). split; [|by right]. unfold bind, lo0_ifindex. fold (lo0_index idx). fold not_lo0.
  cbn beta iota zeta. rewrite Hn, add_count_arrays by done. fold (claimed4 l not_lo0 dict). unfold IPV4_ROUTES_N_STATIC.
  rewrite E. cbn. by rewrite Ed.
Qed.
(** The address is read before it is used. *)
Lemma read6_garbage garbage dict ra :
  IPv6RouteListReadDictionary cache garbage dict ra = IPv6RouteListReadDictionary cache [] dict ra.
Proof.
  unfold IPv6RouteListReadDictionary, dict_get_first_ip.
  destruct (plist_get_string _ _ _) as [[??]|]; [|done]. case_match; [done|].
  destruct (dict_get_ip _ _ _) as [??]. destruct (dict !! "Addresses") as [[| | |[]| |]|]; done.
Qed.

Lemma lc_ifindex_read6 garbage dict ra l :
  IPv6RouteListReadDictionary cache garbage dict ra = Some l → lc_ifindex l ≠ 0.
Proof.
  unfold IPv6RouteListReadDictionary. intros E. repeat case_match; simplify_eq; cbn; by apply Z.eqb_neq.
Qed.

Lemma fixed6_count l (add_default : bool) :
  bool_Z (lc_add_subnet l) + bool_Z add_default = Z.of_nat (length (fixed_routes6 l add_default) - 1) ∧
  (1 ≤ length (fixed_routes6 l add_default) < 10)%nat.
Proof. unfold fixed_routes6. destruct add_default, (lc_add_subnet l); cbn; lia. Qed.

Lemma IPv6RouteListDataCreate_spec garbage buf dict ra idx :
  (∀ n, can_alloc n = true) → length buf = 3%nat → few_routes dict →
  ∃ idx', IPv6RouteListDataCreate cache garbage buf (Some dict) ra idx =
      Some (created6 dict ra (lo0_index idx), idx') ∧
    (idx' = idx ∨ idx' = lo0_index idx).
Proof.
  intros Hal Hbuf Hfew. unfold IPv6RouteListDataCreate, IPv6RouteListCreateWithDictionary, created6.
  rewrite read6_garbage. destruct (IPv6RouteListReadDictionary cache [] dict ra) as [l|] eqn:El; [|by exists idx; auto].
  cbn [mbind option_bind]. set (add_default := bool_decide _ && negb (lc_ifindex l =? lo0_index idx)).
  destruct (fixed6_count l add_default) as [Hn Hlt].
  set (n := claimed6 l add_default dict).
  assert ((1 ≤ n)%nat ∧ Z.of_nat n < 2 ^ 30 + 10) as [Hn1 Hc].
  { unfold n, claimed6, entries, few_routes in *. destruct (lc_allow_additional_routes l); cbn [length]; lia. }
  destruct (create_list_spec zero6 3 buf l n
    (IPv6RouteListFill cache l add_default
       (if lc_allow_additional_routes l then get_array dict "AdditionalRoutes" else None)
       (if lc_allow_additional_routes l then get_array dict "ExcludedRoutes" else None))
    add_default
    (routes6 cache l add_default (entries l dict "AdditionalRoutes") (entries l dict "ExcludedRoutes")))
    as (routes & E & Ed); [done|exact (f_equal Z.of_nat Hbuf)| |].
  { intros size flags tail. unfold n, claimed6. rewrite <-!entries_default. eapply fill6.
    - by eapply lc_ifindex_read6.
    - rewrite !entries_default. fold (claimed6 l add_default dict). fold n. lia. }
  assert (∃ idx', (if bool_decide (lc_router l ≠ any AF_INET6) then lo0_ifindex cache else ret 0) idx =
    Some (if bool_decide (lc_router l ≠ any AF_INET6) then lo0_index idx else 0, idx') ∧
    (idx' = idx ∨ idx' = lo0_index idx)) as (idx' & Eidx & Hidx).
  { destruct (bool_decide _); [exists (lo0_index idx)|exists idx]; split; auto. }
  exists idx'. split; [|done]. unfold bind. rewrite Eidx.
  assert (bool_decide (lc_router l ≠ any AF_INET6) &&
    negb (lc_ifindex l =? (if bool_decide (lc_router l ≠ any AF_INET6) then lo0_index idx else 0)) = add_default) as ->.
  { unfold add_default. by destruct (bool_decide _). }
  rewrite Hn, add_count_arrays by (done || lia).
  fold (claimed6 l add_default dict). unfold IPV6_ROUTES_N_STATIC.
  set (k := (_ + (_ + _))%nat). assert (n = S k) as En by (unfold n, k, claimed6; lia).
  rewrite i32_small by lia. replace (Z.of_nat k + 1) with (Z.of_nat n) by lia.
  change (length _ + _)%nat with n. replace (Z.of_nat k =? 0) with (n =? 1)%nat.
  2:{ rewrite En. by destruct k. }
  destruct (n =? 1)%nat; [done|]. rewrite E. cbn. by rewrite Ed.
Qed.
End reference.
