(* ===== verification/RouteService.v ===== *)
(** * IPMonitor: from the dictionaries of the services to the routing table

    The lists [IPv4RouteListDataCreate] and [IPv6RouteListDataCreate] make are what
    the election is proved for. *)

From stdpp Require Import sorting.
From S2P Require Import Prelude RouteTypes RouteList RouteInv RouteElect RouteTable RouteElection RouteSpec RouteDict RouteMake RouteFill.

Local Open Scope Z_scope.
Local Open Scope c_scope.

(** ** Interfaces *)

Section network.
Context `{!Network} `{!NetworkLaws}.
Variable cache : option (list (string * Z)).

(** The list of interfaces is one [if_nameindex(3)] may return. *)
Definition cache_ok : Prop :=
  match cache with
  | Some l => Forall (λ e, 0 < e.2 < 2 ^ 31) l ∧ NoDup (snd <$> l)
  | None => ∀ s t, if_nametoindex s = if_nametoindex t → if_nametoindex s ≠ 0 → s = t
  end.

Lemma my_if_nametoindex_range s : cache_ok → 0 ≤ my_if_nametoindex cache s < 2 ^ 31.
Proof.
  unfold cache_ok, my_if_nametoindex. destruct cache as [l|]; [|intros _; apply if_nametoindex_range].
  intros [Hl _]. destruct (List.find _ l) as [e|] eqn:E; [|lia].
  apply List.find_some in E as [Hin%list_elem_of_In _]. rewrite Forall_forall in Hl. specialize (Hl e Hin). lia.
Qed.

Lemma my_if_nametoindex_inj s t : cache_ok →
  my_if_nametoindex cache s = my_if_nametoindex cache t → my_if_nametoindex cache s ≠ 0 → s = t.
Proof.
  unfold cache_ok, my_if_nametoindex. destruct cache as [l|]; [|eauto].
  intros [Hl Hnd] E N.
  destruct (List.find (λ e, String.eqb e.1 s) l) as [e|] eqn:Es; [|done].
  apply List.find_some in Es as [Hin%list_elem_of_In Ee%String.eqb_eq].
  rewrite Forall_forall in Hl. pose proof (Hl e Hin) as He.
  destruct (List.find (λ e, String.eqb e.1 t) l) as [e'|] eqn:Et; [|lia].
  apply List.find_some in Et as [Hin'%list_elem_of_In Ee'%String.eqb_eq].
  apply list_elem_of_lookup in Hin as [i Hi]. apply list_elem_of_lookup in Hin' as [j Hj].
  assert (i = j) as <- by (eapply (NoDup_lookup (snd <$> l)); [done|by rewrite list_lookup_fmap, Hi|
    by rewrite list_lookup_fmap, Hj; cbn; rewrite E]).
  congruence.
Qed.

(** ** What is read *)

Lemma cfstring_to_ipvx_size af v : length (cfstring_to_ipvx af v).2 = addr_size af.
Proof.
  unfold cfstring_to_ipvx. destruct v as [[s| | | | |]|]; cbn; try apply length_replicate.
  destruct (inet_pton af _) as [a|] eqn:E; [by eapply inet_pton_size|apply length_replicate].
Qed.
Lemma dict_get_first_ip_size af dict prop old :
  length old = addr_size af → length (dict_get_first_ip af dict prop old).2 = addr_size af.
Proof. intros Hold. unfold dict_get_first_ip. repeat case_match; try done. apply cfstring_to_ipvx_size. Qed.

Lemma dict_get_first_ip_true af dict prop old a :
  dict_get_first_ip af dict prop old = (true, a) → length a = addr_size af.
Proof.
  unfold dict_get_first_ip. destruct (dict !! prop) as [[| | |[|v ?]| |]|]; try done. intros E.
  pose proof (cfstring_to_ipvx_size af (Some v)) as Hsz. by rewrite E in Hsz.
Qed.

(** The rank assertion of a service is a word. *)
Definition rank_ok (rank_assertion : option Z) : Prop := ∀ z, rank_assertion = Some z → 0 ≤ z < 2 ^ 32.

Record read_ok (af : family) (dict : CFDict) (l : route_locals) : Prop := {
  read_ifindex : 0 < lc_ifindex l < 2 ^ 31;
  read_name : ∃ name, get_string dict "InterfaceName" = Some name ∧
    lc_ifindex l = my_if_nametoindex cache (c_trunc name);
  read_addr : length (lc_addr l) = addr_size af;
  read_router : length (lc_router l) = addr_size af;
  read_prefix : lc_add_subnet l = true → 0 ≤ lc_prefix_length l ≤ 8 * Z.of_nat (addr_size af);
  read_rank : 0 ≤ lc_rank l < 2 ^ 32;
  read_primary : 0 ≤ lc_primary_rank l < 2 ^ 32;
}.

Lemma scope_ranks_range p fl : 0 ≤ p < 2 ^ 32 →
  let '(primary_rank, rank, flags, scoped_only) := scope_ranks p fl in
  0 ≤ primary_rank < 2 ^ 32 ∧ 0 ≤ rank < 2 ^ 32.
Proof. intros Hp. unfold scope_ranks. repeat case_match; simplify_eq; split; done || (split; [done|]; done). Qed.

Lemma plist_name dict name buf : plist_get_string dict "InterfaceName" IFNAMSIZ = Some (name, buf) →
  get_string dict "InterfaceName" = Some name ∧ buf = c_trunc name.
Proof. unfold plist_get_string, get_string. intros E. by repeat case_match; simplify_eq. Qed.

Lemma read4_ok dict ra l : cache_ok → rank_ok ra →
  IPv4RouteListReadDictionary cache dict ra = Some l →
  read_ok AF_INET dict l ∧ length (lc_mask l) = 4%nat ∧
  (lc_add_subnet l = true → lc_prefix_length l = mask_get_prefix_length (lc_mask l)).
Proof.
  intros Hc Hra. unfold IPv4RouteListReadDictionary.
  destruct (plist_get_string _ _ _) as [[name buf]|] eqn:En; [|done].
  apply plist_name in En as [En ->].
  destruct (Z.eqb_spec (my_if_nametoindex cache (c_trunc name)) 0) as [|Hif]; [done|].
  pose proof (my_if_nametoindex_range (c_trunc name) Hc) as Hr.
  pose proof (cfstring_to_ipvx_size AF_INET (dict !! "Router")) as Hro.
  unfold dict_get_ip at 1. destruct (cfstring_to_ipvx AF_INET (dict !! "Router")) as [okr r0].
  set (router := if okr then r0 else _).
  assert (length router = addr_size AF_INET) as Hrouter.
  { unfold router. destruct okr; [done|]. by apply dict_get_first_ip_size. }
  clearbody router. pose proof (dict_get_first_ip_size AF_INET dict "Addresses" (any AF_INET) eq_refl) as Ha.
  destruct (dict_get_first_ip AF_INET dict "Addresses" (any AF_INET)) as [oka addr].
  pose proof (dict_get_first_ip_size AF_INET dict "SubnetMasks" (any AF_INET) eq_refl) as Hm.
  set (mk := if oka then _ else _).
  assert (length mk.2 = 4%nat) as Hmk by (unfold mk; by destruct oka).
  clearbody mk. destruct mk as [okm mask]. cbn in Hmk.
  case_bool_decide as Hany; [done|].
  set (pf := if bool_decide (router = _) then _ else _).
  assert (0 ≤ pf.1 < 2 ^ 32) as Hpf.
  { assert (0 ≤ default kRankAssertionDefault ra < 2 ^ 32) by (destruct ra; [by apply Hra|done]).
    unfold pf. case_match; cbn [fst]; case_match; done. }
  clearbody pf. destruct pf as [p fl]. cbn [fst] in Hpf.
  pose proof (scope_ranks_range p (if S_dict_get_boolean dict "IsNULL" false then Z.lor fl kRouteFlagsIsNULL else fl) Hpf) as Hs.
  destruct (scope_ranks p _) as [[[pr rk] fl'] so]. intros [= <-]. destruct Hs as [Hs1 Hs2].
  split_and!; [split; cbn|done|]; try done.
  - lia.
  - by exists name.
  - cbn. intros [-> Hn%negb_true_iff%Z.ltb_ge]%andb_prop. pose proof (mask_get_prefix_length_range mask). lia.
  - cbn. by intros [-> _]%andb_prop.
Qed.

Lemma read6_ok dict ra l : cache_ok → rank_ok ra →
  IPv6RouteListReadDictionary cache [] dict ra = Some l → read_ok AF_INET6 dict l.
Proof.
  intros Hc Hra. unfold IPv6RouteListReadDictionary.
  destruct (plist_get_string _ _ _) as [[name buf]|] eqn:En; [|done].
  apply plist_name in En as [En ->].
  destruct (Z.eqb_spec (my_if_nametoindex cache (c_trunc name)) 0) as [|Hif]; [done|].
  pose proof (my_if_nametoindex_range (c_trunc name) Hc) as Hr.
  pose proof (cfstring_to_ipvx_size AF_INET6 (dict !! "Router")) as Hro.
  unfold dict_get_ip at 1. destruct (cfstring_to_ipvx AF_INET6 (dict !! "Router")) as [okr r0].
  set (router := if okr then r0 else _).
  assert (length router = addr_size AF_INET6) as Hrouter.
  { unfold router. destruct okr; [done|]. by apply dict_get_first_ip_size. }
  clearbody router.
  pose proof (dict_get_first_ip_true AF_INET6 dict "Addresses" []) as Ha.
  destruct (dict_get_first_ip AF_INET6 dict "Addresses" []) as [[] addr]; [|done]. cbn [negb].
  specialize (Ha addr eq_refl). case_bool_decide as Hany; [done|].
  destruct (dict_get_first_int dict "PrefixLength" 0) as [okp n].
  set (ap := okp && _ && _).
  set (pf := if bool_decide (router = _) then _ else _).
  assert (0 ≤ pf.1 < 2 ^ 32) as Hpf.
  { assert (0 ≤ default kRankAssertionDefault ra < 2 ^ 32) by (destruct ra; [by apply Hra|done]).
    unfold pf. case_match; cbn [fst]; [done|]. case_match; done. }
  clearbody pf. destruct pf as [p fl]. cbn [fst] in Hpf.
  pose proof (scope_ranks_range p (if S_dict_get_boolean dict "IsNULL" false then Z.lor fl kRouteFlagsIsNULL else fl) Hpf) as Hs.
  destruct (scope_ranks p _) as [[[pr rk] fl'] so]. intros [= <-]. destruct Hs as [Hs1 Hs2].
  split; cbn; try done; [lia|by exists name|]. intros Hap. rewrite Hap. unfold ap, ipv6_prefix_length_is_valid in Hap.
  apply andb_prop in Hap as [_ [H1%Z.ltb_ge H2%Z.ltb_ge]%negb_true_iff%orb_false_iff]. unfold IPV6_ROUTE_ALL_BITS_SET in H2. lia.
Qed.

(** ** The routes *)

Lemma if_list_Forall {A} (P : Route A → Prop) b l : Forall P l → Forall P (if_list b l).
Proof. by destruct b. Qed.

Lemma entry4_spec v dict dest mask n : entry4 v = Some (dict, dest, mask, n) →
  length dest = 4%nat ∧ 0 ≤ n ≤ 32.
Proof.
  unfold entry4. destruct v; try done.
  destruct (dict_get_ip AF_INET dict0 "DestinationAddress") as [ok1 d] eqn:E1.
  destruct (dict_get_ip AF_INET dict0 "SubnetMask") as [ok2 m].
  destruct (ok1 && ok2); cbn; [|done]. destruct (Z.leb_spec 0 (mask_get_prefix_length m)); [|done].
  intros [= -> -> -> <-]. pose proof (mask_get_prefix_length_range mask). split; [|lia].
  pose proof (cfstring_to_ipvx_size AF_INET (dict !! "DestinationAddress")) as Hs.
  unfold dict_get_ip in E1. by rewrite E1 in Hs.
Qed.

Lemma entry6_spec v dict dest n : entry6 v = Some (dict, dest, n) → length dest = 16%nat ∧ 0 ≤ n ≤ 128.
Proof.
  unfold entry6. destruct v; try done.
  destruct (dict_get_ip AF_INET6 dict0 "DestinationAddress") as [ok1 d] eqn:E1.
  destruct (dict_get_int dict0 "PrefixLength" 0) as [ok2 m].
  destruct (ok1 && ok2); cbn; [|done].
  destruct (Z.leb_spec 0 m), (Z.leb_spec m 128); cbn; try done. intros [= -> -> ->]. split; [|lia].
  pose proof (cfstring_to_ipvx_size AF_INET6 (dict !! "DestinationAddress")) as Hs.
  unfold dict_get_ip in E1. by rewrite E1 in Hs.
Qed.

Lemma named_interface_range dict i : cache_ok → named_interface cache dict = Some i → 0 ≤ i < 2 ^ 31.
Proof.
  intros Hc. unfold named_interface. destruct (plist_get_string _ _ _) as [[? name]|]; [|by intros [= <-]].
  pose proof (my_if_nametoindex_range name Hc). case_match; intros [= <-]. done.
Qed.

Lemma omap_Forall {X Y} (P : Y → Prop) (f : X → option Y) l :
  (∀ x y, f x = Some y → P y) → Forall P (omap f l).
Proof. intros Hf. apply Forall_forall. intros y (x & _ & E)%list_elem_of_omap. by eapply Hf. Qed.

Lemma entries4_ok dict l : cache_ok → read_ok AF_INET dict l → ∀ l1 l2,
  Forall route_ok (omap (additional4 (lc_ifindex l) (lc_rank l) (lc_addr l)) l1 ++
                   omap (excluded4 cache (lc_ifindex l) (lc_rank l)) l2).
Proof.
  intros Hc [Hi _ _ _ _ Hr _] l1 l2. apply Forall_app. split; apply omap_Forall; intros v r.
  - unfold additional4. destruct (entry4 v) as [[[[d dest] mask] n]|] eqn:E; [|done]. cbn.
    destruct (dict_get_ip _ _ _). intros [= <-]. apply entry4_spec in E as [Hd Hn].
    split; cbn; [exact Hd|lia|lia|lia].
  - unfold excluded4. destruct (entry4 v) as [[[[d dest] mask] n]|] eqn:E; [|done]. cbn.
    destruct (named_interface cache d) as [i|] eqn:Ei; [|done]. intros [= <-].
    apply entry4_spec in E as [Hd Hn]. apply named_interface_range in Ei; [|done].
    split; cbn; [exact Hd|lia|lia|lia].
Qed.

Lemma routes4_ok dict l not_lo0 l1 l2 : cache_ok → read_ok AF_INET dict l → length (lc_mask l) = 4%nat →
  Forall route_ok (routes4 cache l not_lo0 l1 l2).
Proof.
  intros Hc Hok Hm. unfold routes4. apply Forall_app. split; [|by eapply entries4_ok].
  destruct Hok as [Hi _ Ha Hro Hp Hr Hpr]. cbn [addr_size] in *. unfold fixed_routes4.
  rewrite !Forall_app. split_and!; [apply if_list_Forall|apply if_list_Forall| |apply if_list_Forall].
  - constructor; [|constructor]. split; cbn; try lia; done.
  - repeat apply Forall_cons_2; [..|constructor]; (split; cbn; try lia; done).
  - destruct (lc_add_subnet l); [|constructor]. specialize (Hp eq_refl).
    constructor; [|constructor]. split; cbn; try lia. unfold subnet_addr, dest. cbn.
    rewrite length_zip_with. unfold address in *. lia.
  - constructor; [|constructor]. split; cbn; lia || exact Hro.
Qed.

Lemma entries6_ok dict l : cache_ok → read_ok AF_INET6 dict l → ∀ l1 l2,
  Forall route_ok (omap (additional6 (lc_ifindex l) (lc_rank l) (lc_addr l)) l1 ++
                   omap (excluded6 cache (lc_ifindex l) (lc_rank l)) l2).
Proof.
  intros Hc [Hi _ _ _ _ Hr _] l1 l2. apply Forall_app. split; apply omap_Forall; intros v r.
  - unfold additional6. destruct (entry6 v) as [[[d dest] n]|] eqn:E; [|done]. cbn.
    destruct (dict_get_ip _ _ _). intros [= <-]. apply entry6_spec in E as [Hd Hn].
    split; cbn; [exact Hd|lia|lia|lia].
  - unfold excluded6. destruct (entry6 v) as [[[d dest] n]|] eqn:E; [|done]. cbn.
    destruct (named_interface cache d) as [i|] eqn:Ei; [|done]. intros [= <-].
    apply entry6_spec in E as [Hd Hn]. apply named_interface_range in Ei; [|done].
    split; cbn; [exact Hd|lia|lia|lia].
Qed.

Lemma routes6_ok dict l add_default l1 l2 : cache_ok → read_ok AF_INET6 dict l →
  Forall route_ok (routes6 cache l add_default l1 l2).
Proof.
  intros Hc Hok. unfold routes6. apply Forall_app. split; [|by eapply entries6_ok].
  destruct Hok as [Hi _ Ha Hro Hp Hr Hpr]. cbn [addr_size] in *. unfold fixed_routes6.
  rewrite !Forall_app. split_and!; [apply if_list_Forall| |].
  - constructor; [|constructor]. split; cbn; try lia; done.
  - constructor; [|constructor]. split; cbn; try lia; done.
  - destruct (lc_add_subnet l); [|constructor]. specialize (Hp eq_refl).
    constructor; [|constructor]. split; cbn; try lia. unfold in6_netaddr, in6_maskaddr, in6_len2mask, dest. cbn -[seq].
    rewrite length_zip_with, length_fmap, length_seq. unfold address in *. lia.
Qed.

(** ** What the election asks of a list *)

(** The lists are of routes as their C types have them; a service without routes is on
    the loopback interface. *)
Definition list_suits {A} `{!RouteListInfo A} (dict : CFDict) (R : RouteList A) : Prop :=
  Forall route_ok (rl_list R) ∧
  (rl_list R = [] → ∃ name, get_string dict "InterfaceName" = Some name ∧ c_trunc name = "lo0"%string).

Definition idx_ok (idx : Z) : Prop := idx = 0 ∨ idx = my_if_nametoindex cache "lo0".

Lemma lo0_index_ok idx : idx_ok idx → lo0_index cache idx = my_if_nametoindex cache "lo0".
Proof. unfold lo0_index. intros [->| ->]; cbn; [done|]. by case_match. Qed.

Lemma created4_suits dict ra lo0 R : cache_ok → rank_ok ra → lo0 = my_if_nametoindex cache "lo0" →
  created4 cache dict ra lo0 = Some R → list_suits dict R.
Proof.
  intros Hc Hra Hlo. unfold created4. destruct (IPv4RouteListReadDictionary cache dict ra) as [l|] eqn:E; [|done].
  intros [= <-]. destruct (read4_ok dict ra l Hc Hra E) as (Hok & Hm & _). split; cbn [rl_list].
  - by eapply routes4_ok.
  - unfold routes4, fixed_routes4. intros Hnil. apply app_nil in Hnil as [Hnil _].
    destruct Hok as [Hi (name & Hname & Hif) _ _ _ _ _]. exists name. split; [done|].
    destruct (negb (lc_ifindex l =? lo0)) eqn:Elo; [by apply app_nil in Hnil as [_ ?]|].
    apply negb_false_iff, Z.eqb_eq in Elo. apply my_if_nametoindex_inj; [done|congruence|lia].
Qed.

Lemma created6_suits dict ra lo0 R : cache_ok → rank_ok ra →
  created6 cache dict ra lo0 = Some R → list_suits dict R.
Proof.
  intros Hc Hra. unfold created6. destruct (IPv6RouteListReadDictionary cache [] dict ra) as [l|] eqn:E; [|done].
  cbn. case_match; [done|]. intros [= <-]. split; cbn [rl_list]; [eapply routes6_ok; eauto using read6_ok|].
  unfold routes6, fixed_routes6. intros Hnil. apply app_nil in Hnil as [Hnil _]. by destruct (_ && _).
Qed.
End network.
