(* ===== verification/RouteSafe.v ===== *)
(** * IPMonitor: the election of services made from their dictionaries

    A service as [service_changed] keeps it, and what [get_ipv4_changes] and
    [get_ipv6_changes] make of arbitrary dictionaries: lists an election is safe
    with. *)

From stdpp Require Import sorting.
From S2P Require Import Prelude RouteTypes RouteList RouteInv RouteElect RouteTable RouteElection RouteSpec RouteDict RouteMake RouteFill RouteService.

Local Open Scope Z_scope.
Local Open Scope c_scope.

(** The dictionaries of a service in the store, the options of the service and the
    entity of a family, and what [services_info_get_interface] and
    [service_is_expensive] answer for it. *)
Record service_input := MkInput {
  in_serviceID : string;
  in_state_options : option CFDict;
  in_setup_options : option CFDict;
  in_interface : option string;
  in_is_expensive : bool;
  in_state_dict : option CFDict;
  in_setup_dict : option CFDict;
}.

Lemma interface_rank_ok v : rank_ok (InterfaceRankGetRankAssertion v).
Proof.
  unfold InterfaceRankGetRankAssertion, rank_ok. intros z. repeat case_match; try done.
  - by intros [= <-].
  - intros [= <-]. unfold RANK_ASSERTION_MAKE, u32. apply Z.mod_pos_bound. done.
Qed.
Lemma primary_rank_ok v : rank_ok (PrimaryRankGetRankAssertion v).
Proof. unfold PrimaryRankGetRankAssertion, rank_ok. intros z. repeat case_match; try done; by intros [= <-]. Qed.

(** The options a service is given hold a rank that is a word. *)
Lemma get_rank_changes_rank ranks expensive interface state setup :
  rank_ok (get_rank_changes ranks expensive interface state setup ≫= so_rank_assertion).
Proof.
  unfold get_rank_changes.
  pose proof (primary_rank_ok (setup ≫= λ d, get_string d "PrimaryRank")) as H1.
  pose proof (primary_rank_ok (state ≫= λ d, get_string d "PrimaryRank")) as H2.
  set (asserted := match PrimaryRankGetRankAssertion _ with Some _ => _ | None => _ end).
  assert (rank_ok asserted) as Ha.
  { unfold asserted, rank_ok in *. intros z.
    destruct (PrimaryRankGetRankAssertion _) as [x|], (PrimaryRankGetRankAssertion _) as [y|]; auto.
    case_match; intros [= <-]; auto. }
  set (ra := match interface with Some _ => _ | None => _ end).
  assert (rank_ok ra) as Hra.
  { unfold ra. destruct interface, asserted; try done. apply interface_rank_ok. }
  by destruct (match setup ≫= _ with Some _ => _ | None => _ end), ra, (_ || _).
Qed.

(** What one address family promises to the election: its function makes suitable
    lists, for every dictionary. *)
Class RouteSource (A : Type) `{!Network} `{!RouteListInfo A} (cache : option (list (string * Z))) := {
  rs_family : family;
  rs_n_static : Z;
  rs_create : option CFDict → option Z → C Z (option (RouteList A));
  rs_n_static_range : 0 < rs_n_static ≤ 5;
  rs_suits dict rank_assertion idx :
    few_routes dict → rank_ok rank_assertion → idx_ok cache idx →
    ∃ res idx', rs_create (Some dict) rank_assertion idx = Some (res, idx') ∧ idx_ok cache idx' ∧
      ∀ R, res = Some R → list_suits dict R;
}.

Section source.
Context `{!Network} `{!NetworkLaws} `{Hheap : !Heap}.
Variable cache : option (list (string * Z)).
Context (Hcache : cache_ok cache) (Hal : ∀ n, can_alloc n = true).

Lemma lo0_kept idx idx' : idx_ok cache idx → idx' = idx ∨ idx' = lo0_index cache idx → idx_ok cache idx'.
Proof. intros Hi [->| ->]; [done|]. right. by apply lo0_index_ok. Qed.

#[refine] Definition source4 (buf : list IPv4Route) (Hbuf : length buf = 5%nat) : RouteSource IPv4Addrs cache := {|
  rs_family := AF_INET;
  rs_n_static := IPV4_ROUTES_N_STATIC;
  rs_create := IPv4RouteListDataCreate cache buf;
|}.
Proof.
  - done.
  - intros dict ra idx Hfew Hra Hidx.
    destruct (IPv4RouteListDataCreate_spec cache buf dict ra idx Hal Hbuf Hfew) as (idx' & E & Hi).
    exists (created4 cache dict ra (lo0_index cache idx)), idx'. split_and!; [done|by eapply lo0_kept|].
    intros R ER. by eapply (created4_suits cache dict ra (lo0_index cache idx)); [..|apply lo0_index_ok|].
Defined.

#[refine] Definition source6 (garbage : address) (buf : list IPv6Route) (Hbuf : length buf = 3%nat)
    : RouteSource IPv6Addrs cache := {|
  rs_family := AF_INET6;
  rs_n_static := IPV6_ROUTES_N_STATIC;
  rs_create := IPv6RouteListDataCreate cache garbage buf;
|}.
Proof.
  - done.
  - intros dict ra idx Hfew Hra Hidx.
    destruct (IPv6RouteListDataCreate_spec cache garbage buf dict ra idx Hal Hbuf Hfew) as (idx' & E & Hi).
    exists (created6 cache dict ra (lo0_index cache idx)), idx'. split_and!; [done|by eapply lo0_kept|].
    intros R ER. by eapply created6_suits.
Defined.
End source.

(** ** The services *)

Section services.
Context {A : Type} `{!RouteListInfo A} `{!Network} (cache : option (list (string * Z))).
Context `{!RouteSource A cache} `{Hheap : !Heap}.
Variables (S_if_rank_dict : gmap string (Z * bool)) (S_ppp_override_primary : bool) (order : option (list (option string))) (unset : Z).
Variable other_candidate : option Candidate.

Definition options_of (i : service_input) : option service_options :=
  get_rank_changes S_if_rank_dict (in_is_expensive i) (in_interface i) (in_state_options i) (in_setup_options i).
(** What [elect_ip] finds of a service that changed: the options, made first, and the
    entity of its family. *)
Definition service_changed (i : service_input) : C Z (Service A) :=
  let options := options_of i in
  let* ip := get_ip_changes rs_family rs_create (in_state_dict i) (in_setup_dict i) options in
  ret (MkService (in_serviceID i) (snd <$> ip) (ip ≫= λ p, get_string p.1 "InterfaceName")
         (options ≫= so_service_index) (default false (so_ip_is_coupled <$> options))).
Fixpoint services_changed (l : list service_input) : C Z (list (Service A)) :=
  match l with
  | [] => ret []
  | i :: l => let* s := service_changed i in let* rest := services_changed l in ret (s :: rest)
  end.

(** [service_dict_get] and [ipdict_get_routelist]. *)
Definition routelist_of (services : list (Service A)) (serviceID : string) : option (RouteList A) :=
  match List.find (λ s, String.eqb (sv_serviceID s) serviceID) services with
  | Some s => sv_routelist s
  | None => None
  end.

(** The name of the interface holds no NUL, and the routes are few enough. *)
Definition input_ok (i : service_input) : Prop :=
  ∀ dict, merged_dict rs_family (in_state_dict i) (in_setup_dict i) = Some dict →
    few_routes dict ∧ ∀ name, get_string dict "InterfaceName" = Some name → c_trunc name = name.

(** What the theorems of RouteSpec ask of a service. *)
Definition service_ok (s : Service A) : Prop :=
  has_routes s ∧ match sv_routelist s with Some R => Forall route_ok (rl_list R) | None => True end.

Lemma service_changed_ok i idx : input_ok i → idx_ok cache idx →
  ∃ s idx', service_changed i idx = Some (s, idx') ∧ idx_ok cache idx' ∧ service_ok s.
Proof.
  intros Hd Hidx. unfold service_changed, get_ip_changes. cbn zeta.
  pose proof (get_rank_changes_rank S_if_rank_dict (in_is_expensive i) (in_interface i)
    (in_state_options i) (in_setup_options i)) as Hra. fold (options_of i) in Hra.
  destruct (in_state_dict i) as [state|] eqn:Es; [|by eexists _, idx].
  unfold IPDictCreate. rewrite <-Es in *.
  destruct (merged_dict _ (in_state_dict i) (in_setup_dict i)) as [dict|] eqn:Em.
  2:{ rewrite Es in Em. by destruct (in_setup_dict i). }
  destruct (Hd dict Em) as [Hfew Hname].
  destruct (rs_suits dict (options_of i ≫= so_rank_assertion) idx Hfew Hra Hidx) as (res & idx' & E & Hi & HR).
  unfold bind. rewrite E. eexists _, idx'. split; [done|]. split; [done|].
  destruct res as [R|]; [|done]. destruct (HR R eq_refl) as [Hok Hne]. split; [|done].
  unfold has_routes. cbn. destruct (get_string dict "InterfaceName") as [name|] eqn:En; [|done].
  intros Hlo Hnil. destruct (Hne Hnil) as (name' & E' & Et). injection E' as <-.
  by rewrite (Hname name eq_refl) in Et.
Qed.

Lemma services_changed_ok l idx : Forall input_ok l → idx_ok cache idx →
  ∃ services idx', services_changed l idx = Some (services, idx') ∧
    length services = length l ∧ Forall service_ok services.
Proof.
  intros Hl. revert idx. induction Hl as [|i l Hi Hl IH]; intros idx Hidx; [by eexists [], idx|].
  destruct (service_changed_ok i idx Hi Hidx) as (s & idx1 & E1 & Hidx1 & Hs).
  destruct (IH idx1 Hidx1) as (services & idx2 & E2 & Hlen & Hss).
  exists (s :: services), idx2. cbn [services_changed length]. rewrite (bind_eq _ _ _ _ _ E1), (bind_eq _ _ _ _ _ E2).
  split_and!; [done|by rewrite Hlen|by constructor].
Qed.

Lemma routelist_of_ok services id : Forall service_ok services →
  match routelist_of services id with Some R => Forall route_ok (rl_list R) | None => True end.
Proof.
  intros Hs. unfold routelist_of. destruct (List.find _ services) as [s|] eqn:E; [|done].
  apply List.find_some in E as [Hin%list_elem_of_In _]. rewrite Forall_forall in Hs. by apply Hs.
Qed.

Lemma candidates_sound services results dict dict' : Forall service_ok services →
  ElectionResultsCopy S_ppp_override_primary order unset services dict = Some (Some results, dict') →
  Forall (sound (routelist_of services)) (er_candidates results) ∧
  (0 < length (er_candidates results) ≤ length services)%nat.
Proof.
  intros Hs E. destruct (ElectionResultsCopy_candidates S_ppp_override_primary order unset services dict)
    as (res & d & E' & Hc); [eapply Forall_impl; [exact Hs|by intros s [? _]]|].
  rewrite E in E'. injection E' as <- <-. destruct Hc as (Hp & Hne & _). split.
  - rewrite Hp. apply Forall_forall. intros c (s & Hin & Hc)%list_elem_of_omap. split; [|by apply routelist_of_ok].
    unfold candidate_of in Hc. destruct (sv_routelist s) as [R|], (sv_if_name s) as [name|]; try done.
    destruct (String.eqb name "lo0"); [done|]. destruct (rl_list R); [done|].
    injection Hc as <-. apply mix_range.
  - split; [destruct (er_candidates results); [done|cbn; lia]|]. rewrite Hp. apply omap_length.
Qed.

(** C18: from the dictionaries of the services to the routing table nothing is stored out
    of bounds and no list without routes is read, whatever the types and values of the
    entries of the dictionaries are, if no interface is named with a NUL inside (else an
    empty list is read, see [nul_in_name_reads_empty] in RouteDemo), no service names 2^30
    routes, there are less than 2^27 services and less than 2^29 routes in all: every
    service gets its list of routes or none, and the election ends with the first
    candidate that is eligible, not ranked Never and not to be demoted, or none if it has
    no routes or is kept out of the nwi state. The table is sorted by destination and
    mask, and of the routes to one destination only the first may be unscoped. *)
Theorem services_elect_safe inputs idx rank_dict nwi :
  (∀ n, can_alloc n = true) → Forall input_ok inputs → idx_ok cache idx →
  Z.of_nat (length inputs) < 2 ^ 27 →
  ∃ services idx', services_changed inputs idx = Some (services, idx') ∧
  ∃ results rank_dict',
    ElectionResultsCopy S_ppp_override_primary order unset services rank_dict = Some (results, rank_dict') ∧
    ∀ r, results = Some r →
    Z.of_nat (length (offered (routelist_of services) other_candidate false (er_candidates r))) < 2 ^ 29 →
    ∃ routes nwi',
      ElectionResultsGetPrimary (routelist_of services) rs_n_static other_candidate (Some r) nwi =
        Some (elected (routelist_of services) other_candidate (er_candidates r), routes, nwi') ∧
      ∀ rl, routes = Some rl → grouped (rl_list rl) ∧ rl_count rl ≤ rl_size rl.
Proof.
  intros Hal Hin Hidx Hfew. destruct (services_changed_ok inputs idx Hin Hidx) as (services & idx' & E & Hlen & Hs).
  exists services, idx'. split; [done|].
  destruct (ElectionResultsCopy_candidates S_ppp_override_primary order unset services rank_dict)
    as (results & rank_dict' & Ec & _); [eapply Forall_impl; [exact Hs|by intros s [? _]]|].
  exists results, rank_dict'. split; [done|]. intros r -> Hoff.
  destruct (candidates_sound _ _ _ _ Hs Ec) as [Hsound Hcount].
  apply ElectionResultsGetPrimary_safe; [apply Hal| |done|done].
  pose proof rs_n_static_range as Hn. unfold room, er_count. rewrite i32_small; nia.
Qed.
End services.

(** ** IPMonitor: the list of routes a service is kept with

    Which routes [IPv4RouteListDataCreate] and [IPv6RouteListDataCreate] make, and
    that they have the shape [primary_default_route] asks for. *)

Local Open Scope Z_scope.

Section entity.
Context `{!Network} `{Hheap : !Heap}.
Variable cache : option (list (string * Z)).

(** C19: The list of routes of a service is, for every dictionary and whatever the
    buffer on the stack held: the default route, the broadcast and multicast routes,
    the subnet, the router (for IPv6 the default route, the link-local network and the
    prefix), each if the service has it, and then one route for every additional and
    every excluded entry that makes sense, in their order; its count is the number of
    these. Entries that make no sense leave nothing behind and nothing is stored out
    of the block. *)
Theorem RouteListDataCreate_reference buf4 buf6 garbage dict rank_assertion idx :
  (∀ n, can_alloc n = true) → length buf4 = 5%nat → length buf6 = 3%nat → few_routes dict →
  (∃ idx', IPv4RouteListDataCreate cache buf4 (Some dict) rank_assertion idx =
     Some (created4 cache dict rank_assertion (lo0_index cache idx), idx')) ∧
  (∃ idx', IPv6RouteListDataCreate cache garbage buf6 (Some dict) rank_assertion idx =
     Some (created6 cache dict rank_assertion (lo0_index cache idx), idx')).
Proof.
  intros Hal H4 H6 Hfew.
  destruct (IPv4RouteListDataCreate_spec cache buf4 dict rank_assertion idx Hal H4 Hfew) as (i & E & _).
  destruct (IPv6RouteListDataCreate_spec cache garbage buf6 dict rank_assertion idx Hal H6 Hfew) as (j & F & _).
  eauto.
Qed.

(** ** The default route *)

Lemma default_first_of {A} `{!RouteListInfo A} (R : RouteList A) b d others :
  rl_list R = if_list b [d] ++ others → has (rl_flags R) kRouteListFlagsHasDefault = b →
  is_default d → Forall (λ r, ¬ is_default r) others → default_first R.
Proof.
  intros El Ef Hd Ho i r Hi. rewrite El in Hi. rewrite Ef. rewrite Forall_forall in Ho. destruct b; cbn in Hi.
  - destruct i as [|i]; cbn in Hi; [by injection Hi as <-|].
    split; [|by intros []]. intros Hr. by destruct (Ho r ltac:(by eapply list_elem_of_lookup_2)).
  - split; [|by intros []]. intros Hr. by destruct (Ho r ltac:(by eapply list_elem_of_lookup_2)).
Qed.

Lemma list_flags_default l b : has (list_flags l b) kRouteListFlagsHasDefault = b.
Proof. unfold list_flags. by destruct (lc_exclude_from_nwi l), (lc_scoped_only l), b. Qed.

(** No subnet mask and no route of the dictionary is 0/0. *)
Record no_zero_mask (dict : CFDict) : Prop := {
  nz_mask m : dict_get_first_ip AF_INET dict "SubnetMasks" (any AF_INET) = (true, m) →
    mask_get_prefix_length m ≠ 0;
  nz_entries4 key v d dest mask n : key = "AdditionalRoutes"%string ∨ key = "ExcludedRoutes"%string →
    v ∈ default [] (get_array dict key) → entry4 v = Some (d, dest, mask, n) → n ≠ 0;
}.
Record no_zero_prefix (dict : CFDict) : Prop := {
  nz_prefix n : dict_get_first_int dict "PrefixLength" 0 = (true, n) → n ≠ 0;
  nz_entries6 key v d dest n : key = "AdditionalRoutes"%string ∨ key = "ExcludedRoutes"%string →
    v ∈ default [] (get_array dict key) → entry6 v = Some (d, dest, n) → n ≠ 0;
}.

Lemma entries_in l dict key v : v ∈ entries l dict key → v ∈ default [] (get_array dict key).
Proof. unfold entries. destruct (lc_allow_additional_routes l); [done|]. by intros ?%elem_of_nil. Qed.

Lemma not_default {A} `{!RouteListInfo A} (r : Route A) : r_prefix_length r ≠ 0 → ¬ is_default r.
Proof. by intros Hn [_ ?]. Qed.

Lemma entries4_plain l dict : no_zero_mask dict →
  Forall (λ r, r_prefix_length r ≠ 0)
    (omap (additional4 (lc_ifindex l) (lc_rank l) (lc_addr l)) (entries l dict "AdditionalRoutes") ++
     omap (excluded4 cache (lc_ifindex l) (lc_rank l)) (entries l dict "ExcludedRoutes")).
Proof.
  intros Hz. apply Forall_app. split; apply Forall_forall; intros r (v & Hv%entries_in & E)%list_elem_of_omap.
  - unfold additional4 in E. destruct (entry4 v) as [[[[d dest] mask] n]|] eqn:Ee; [|done]. cbn in E.
    destruct (dict_get_ip _ _ _). injection E as <-.
    apply (nz_entries4 dict Hz "AdditionalRoutes" v d dest mask n); auto.
  - unfold excluded4 in E. destruct (entry4 v) as [[[[d dest] mask] n]|] eqn:Ee; [|done]. cbn in E.
    destruct (named_interface cache d); [|done]. injection E as <-.
    apply (nz_entries4 dict Hz "ExcludedRoutes" v d dest mask n); auto.
Qed.
Lemma entries6_plain l dict : no_zero_prefix dict →
  Forall (λ r, r_prefix_length r ≠ 0)
    (omap (additional6 (lc_ifindex l) (lc_rank l) (lc_addr l)) (entries l dict "AdditionalRoutes") ++
     omap (excluded6 cache (lc_ifindex l) (lc_rank l)) (entries l dict "ExcludedRoutes")).
Proof.
  intros Hz. apply Forall_app. split; apply Forall_forall; intros r (v & Hv%entries_in & E)%list_elem_of_omap.
  - unfold additional6 in E. destruct (entry6 v) as [[[d dest] n]|] eqn:Ee; [|done]. cbn in E.
    destruct (dict_get_ip _ _ _). injection E as <-.
    apply (nz_entries6 dict Hz "AdditionalRoutes" v d dest n); auto.
  - unfold excluded6 in E. destruct (entry6 v) as [[[d dest] n]|] eqn:Ee; [|done]. cbn in E.
    destruct (named_interface cache d); [|done]. injection E as <-.
    apply (nz_entries6 dict Hz "ExcludedRoutes" v d dest n); auto.
Qed.

Lemma read4_mask dict ra l : IPv4RouteListReadDictionary cache dict ra = Some l → lc_add_subnet l = true →
  dict_get_first_ip AF_INET dict "SubnetMasks" (any AF_INET) = (true, lc_mask l) ∧
  lc_prefix_length l = mask_get_prefix_length (lc_mask l).
Proof.
  unfold IPv4RouteListReadDictionary.
  destruct (plist_get_string _ _ _) as [[name buf]|]; [|done]. case_match; [done|].
  destruct (dict_get_ip _ _ _) as [okr r0]. destruct (dict_get_first_ip AF_INET dict "Addresses" _) as [oka addr].
  destruct (dict_get_first_ip AF_INET dict "SubnetMasks" _) as [okm mask].
  destruct (bool_decide (addr = _)), oka; try done; case_match; destruct (scope_ranks _ _) as [[[??]?]?];
    intros [= <-]; cbn; [|done]. by intros [-> _]%andb_prop.
Qed.

Lemma read6_prefix dict ra l : IPv6RouteListReadDictionary cache [] dict ra = Some l → lc_add_subnet l = true →
  dict_get_first_int dict "PrefixLength" 0 = (true, lc_prefix_length l).
Proof.
  unfold IPv6RouteListReadDictionary.
  destruct (plist_get_string _ _ _) as [[name buf]|]; [|done]. case_match; [done|].
  destruct (dict_get_ip _ _ _) as [okr r0]. destruct (dict_get_first_ip AF_INET6 dict "Addresses" _) as [[] addr]; [|done].
  cbn [negb]. case_match; [done|]. destruct (dict_get_first_int _ _ _) as [ok n].
  set (b := ok && _ && _). case_match. destruct (scope_ranks _ _) as [[[??]?]?]. intros [= <-]. cbn.
  intros Hb. rewrite Hb. unfold b in Hb. by apply andb_prop in Hb as [[-> _]%andb_prop _].
Qed.

Lemma created4_default_first dict ra lo0 R :
  no_zero_mask dict → created4 cache dict ra lo0 = Some R → default_first R.
Proof.
  intros Hz. unfold created4. destruct (IPv4RouteListReadDictionary cache dict ra) as [l|] eqn:E; [|done].
  intros [= <-]. set (nl := negb _).
  eapply (default_first_of _ (has_default4 l nl) (default4 l)); cbn [rl_list rl_flags].
  - unfold routes4, fixed_routes4. by rewrite <-!app_assoc.
  - apply list_flags_default.
  - done.
  - apply (Forall_impl (λ r : IPv4Route, r_prefix_length r ≠ 0)); [|intros r Hr; by apply not_default].
    rewrite !Forall_app. split_and!.
    + apply if_list_Forall. repeat (apply Forall_cons_2; [done|]). apply Forall_nil_2.
    + destruct (lc_add_subnet l) eqn:Ea; [|constructor]. constructor; [|constructor]. cbn.
      destruct (read4_mask _ _ _ E Ea) as [Hm ->]. by apply (nz_mask dict Hz).
    + apply if_list_Forall. repeat (apply Forall_cons_2; [done|]). apply Forall_nil_2.
    + exact (proj1 (proj1 (Forall_app _ _ _) (entries4_plain l dict Hz))).
    + exact (proj2 (proj1 (Forall_app _ _ _) (entries4_plain l dict Hz))).
Qed.

Lemma created6_default_first dict ra lo0 R :
  no_zero_prefix dict → created6 cache dict ra lo0 = Some R → default_first R.
Proof.
  intros Hz. unfold created6. destruct (IPv6RouteListReadDictionary cache [] dict ra) as [l|] eqn:E; [|done].
  cbn [mbind option_bind]. set (b := bool_decide _ && _). case_match; [done|]. intros [= <-].
  eapply (default_first_of _ b (default6 l)); cbn [rl_list rl_flags].
  - unfold routes6, fixed_routes6. by rewrite <-!app_assoc.
  - apply list_flags_default.
  - done.
  - apply (Forall_impl (λ r : IPv6Route, r_prefix_length r ≠ 0)); [|intros r Hr; by apply not_default].
    rewrite !Forall_app. split_and!.
    + apply Forall_cons_2; [done|apply Forall_nil_2].
    + destruct (lc_add_subnet l) eqn:Ea; [|constructor]. constructor; [|constructor]. cbn.
      apply (nz_prefix dict Hz). by eapply read6_prefix.
    + exact (proj1 (proj1 (Forall_app _ _ _) (entries6_plain l dict Hz))).
    + exact (proj2 (proj1 (Forall_app _ _ _) (entries6_plain l dict Hz))).
Qed.

(** Of the routes a service is kept with the first is the default route, and no
    other is, exactly if the list is flagged to have one, provided no mask or prefix in
    the dictionary is zero. This is what the election takes for granted. *)
Theorem RouteListDataCreate_default_first buf4 buf6 garbage dict rank_assertion idx :
  (∀ n, can_alloc n = true) → length buf4 = 5%nat → length buf6 = 3%nat → few_routes dict →
  (no_zero_mask dict → ∀ R idx',
     IPv4RouteListDataCreate cache buf4 (Some dict) rank_assertion idx = Some (Some R, idx') → default_first R) ∧
  (no_zero_prefix dict → ∀ R idx',
     IPv6RouteListDataCreate cache garbage buf6 (Some dict) rank_assertion idx = Some (Some R, idx') →
     default_first R).
Proof.
  intros Hal H4 H6 Hfew. split; intros Hz R idx' E.
  - destruct (IPv4RouteListDataCreate_spec cache buf4 dict rank_assertion idx Hal H4 Hfew) as (i & E' & _).
    rewrite E in E'. injection E' as E' _. by eapply created4_default_first.
  - destruct (IPv6RouteListDataCreate_spec cache garbage buf6 dict rank_assertion idx Hal H6 Hfew) as (i & E' & _).
    rewrite E in E'. injection E' as E' _. by eapply created6_default_first.
Qed.
End entity.
