(* ===== verification/RouteDemo.v ===== *)
(** * A concrete network

    Two services over Ethernet and Wi-Fi, on which the theorems about IPMonitor are
    evaluated, and the cases where the code does not do what it means to. *)

From stdpp Require Import sorting.
From S2P Require Import Prelude RouteTypes RouteList RouteInv RouteElect RouteTable RouteElection RouteSpec RouteApply RouteDict RouteMake RouteFill RouteService RouteSafe.

Local Open Scope Z_scope.

#[local] Instance demo_heap : Heap := λ _, true.

Definition ip (a b c d : Z) : address := byte_of_Z <$> [a; b; c; d].
Definition demo_default (ifx : Z) (gw ifa : address) : IPv4Route :=
  MkRoute IPv4Addrs 0 ifx 0 kRankAssertionDefault kRouteFlagsHasGateway 0
    (IPv4 (ip 0 0 0 0) (ip 0 0 0 0) gw ifa).
Definition demo_subnet (ifx : Z) (net ifa : address) : IPv4Route :=
  MkRoute IPv4Addrs 24 ifx 0 kRankAssertionDefault 0 0 (IPv4 net (ip 255 255 255 0) ifa ifa).
Definition demo_list (ifx : Z) (gw net ifa : address) : RouteList IPv4Addrs :=
  MkRouteList IPv4Addrs 5 kRouteListFlagsHasDefault [demo_default ifx gw ifa; demo_subnet ifx net ifa].
Definition demo_wifi : RouteList IPv4Addrs := demo_list 4 (ip 10 0 0 1) (ip 10 0 0 0) (ip 10 0 0 7).
Definition demo_eth : RouteList IPv4Addrs := demo_list 5 (ip 192 168 1 1) (ip 192 168 1 0) (ip 192 168 1 9).

Definition demo_services : list (Service IPv4Addrs) :=
  [MkService "wifi" (Some demo_wifi) (Some "en0"%string) None false;
   MkService "eth" (Some demo_eth) (Some "en1"%string) None false].
Definition demo_routelist_of (id : string) : option (RouteList IPv4Addrs) :=
  if String.eqb id "wifi" then Some demo_wifi
  else if String.eqb id "eth" then Some demo_eth else None.
Definition demo_order : option (list (option string)) := Some [Some "eth"%string; Some "wifi"%string].

Definition eth : Candidate := MkCandidate "eth" "en1" 0x01000001 false false.
Definition wifi : Candidate := MkCandidate "wifi" "en0" 0x01000002 false false.
Definition demo_results : ElectionResults := MkResults 2 [eth; wifi].
Definition demo_offered : list (IPv4Route * Z) := offered demo_routelist_of None false [eth; wifi].

Definition demo_dict : gmap string Z := <["eth"%string := 0x01000001]> (<["wifi"%string := 0x01000002]> ∅).

Lemma demo_copy :
  ElectionResultsCopy false demo_order 0 demo_services ∅ =
  Some (Some demo_results, demo_dict).
Proof. vm_compute. reflexivity. Qed.

Definition eth_default : IPv4Route := demo_default 5 (ip 192 168 1 1) (ip 192 168 1 9).
Definition eth_subnet : IPv4Route := demo_subnet 5 (ip 192 168 1 0) (ip 192 168 1 9).
Definition wifi_default : IPv4Route := demo_default 4 (ip 10 0 0 1) (ip 10 0 0 7).
Definition wifi_subnet : IPv4Route := demo_subnet 4 (ip 10 0 0 0) (ip 10 0 0 7).

Lemma demo_offered_eq :
  demo_offered = [(eth_default, 0x01000001); (eth_subnet, 0x01000001);
                  (wifi_default, 0x01000002); (wifi_subnet, 0x01000002)].
Proof. reflexivity. Qed.

Lemma demo_entries :
  entry_of <$> demo_offered =
  [with_rank 0x01000001 eth_default; with_rank 0x01000001 eth_subnet;
   with_rank 0x01000002 wifi_default; with_rank 0x01000002 wifi_subnet].
Proof. reflexivity. Qed.

Ltac by_numbers := vm_compute; first [reflexivity | congruence].
Ltac route_ok_tac := constructor; first [reflexivity | split; by_numbers].

Lemma demo_regular : regular demo_offered.
Proof.
  split.
  - rewrite demo_offered_eq.
    repeat first [apply Forall_nil_2 | apply Forall_cons_2; [route_ok_tac|]].
  - rewrite demo_entries. 
    repeat first [apply Forall_nil_2 | apply Forall_cons_2;
      [constructor; [route_ok_tac|done|done|by_numbers|by intros []]|]].
  - rewrite demo_entries. intros x y Hx _ _. revert Hx.
    rewrite !elem_of_cons. by intros [->|[->|[->|[->|?%elem_of_nil]]]].
Qed.

Lemma demo_sound : Forall (sound demo_routelist_of) [eth; wifi].
Proof.
  apply Forall_cons_2; [|apply Forall_cons_2; [|apply Forall_nil_2]]; (split; [split; by_numbers|]).
  - change (Forall route_ok [eth_default; eth_subnet]).
    repeat first [apply Forall_nil_2 | apply Forall_cons_2; [route_ok_tac|]].
  - change (Forall route_ok [wifi_default; wifi_subnet]).
    repeat first [apply Forall_nil_2 | apply Forall_cons_2; [route_ok_tac|]].
Qed.

Lemma ElectionResultsGetPrimary_safe_witness :
  ∃ routes nwi', ElectionResultsGetPrimary demo_routelist_of 5 None (Some demo_results) [] = Some (Some eth, routes, nwi') ∧
    ∀ rl, routes = Some rl → grouped (rl_list rl) ∧ rl_count rl ≤ rl_size rl.
Proof.
  apply (ElectionResultsGetPrimary_safe demo_routelist_of 5 None demo_results []).
  - reflexivity.
  - vm_compute. split; [reflexivity|reflexivity].
  - exact demo_sound.
  - vm_compute. reflexivity.
Defined.

Lemma ElectionResultsGetPrimary_table_witness :
  ∃ rl s nwi', ElectionResultsGetPrimary demo_routelist_of 5 None (Some demo_results) [] = Some (Some eth, Some rl, nwi') ∧
    rl_list rl = mark None s ∧ best_of (entry_of <$> demo_offered) s.
Proof.
  destruct (ElectionResultsGetPrimary_table demo_routelist_of 5 None demo_results []) as (rl & s & nwi' & E & Hm & Hb & _).
  - reflexivity.
  - vm_compute. split; [reflexivity|reflexivity].
  - vm_compute. reflexivity.
  - exact demo_regular.
  - discriminate.
  - exists rl, s, nwi'. split; [exact E|]. split; [exact Hm|exact Hb].
Defined.

Definition demo_primary : option Candidate * option (RouteList IPv4Addrs) * list nwi_entry :=
  default (None, None, []) (ElectionResultsGetPrimary demo_routelist_of 5 None (Some demo_results) []).
Definition demo_table : RouteList IPv4Addrs := default (MkRouteList IPv4Addrs 0 0 []) demo_primary.1.2.

Lemma demo_primary_eq :
  ElectionResultsGetPrimary demo_routelist_of 5 None (Some demo_results) [] = Some (Some eth, Some demo_table, demo_primary.2).
Proof. vm_compute. reflexivity. Qed.

Lemma demo_default_first R : R = demo_wifi ∨ R = demo_eth → default_first R.
Proof.
  intros [-> | ->] i r; (destruct i as [|[|i]]; cbn; [intros [= <-]|intros [= <-]|done]); unfold is_default; cbn.
  1, 3: by split.
  all: split; [by intros [? ?]|by intros [? ?]].
Qed.

Lemma primary_default_route_witness :
  stored eth_default 0x01000001 ∈ rl_list demo_table ∧
  ∀ r, r ∈ rl_list demo_table → is_default r → is_scoped r = false →
    r = stored eth_default 0x01000001.
Proof.
  destruct (primary_default_route demo_routelist_of 5 None false demo_order 0 demo_services ∅ demo_results
    demo_dict [] eth demo_table demo_primary.2) as (R & d & ER & Ed & Hd & H).
  - repeat constructor; intros _; discriminate.
  - exact demo_copy.
  - intros service [->|[->|Hs]%elem_of_cons]%elem_of_cons; [reflexivity|reflexivity|by apply elem_of_nil in Hs].
  - intros service R [->|[->|Hs]%elem_of_cons]%elem_of_cons E; [| |by apply elem_of_nil in Hs];
      injection E as <-; apply demo_default_first; [by left|by right].
  - apply NoDup_cons. split; [by intros ?%list_elem_of_singleton|apply NoDup_singleton].
  - reflexivity.
  - vm_compute. split; [reflexivity|reflexivity].
  - vm_compute. reflexivity.
  - exact demo_regular.
  - exact demo_primary_eq.
  - injection ER as <-. injection Ed as <-. destruct H as (H1 & _ & H2); [reflexivity|]. split; [exact H1|exact H2].
Defined.

(** ** Applying a table *)

Definition wifi_table : list IPv4Route := [wifi_default; wifi_subnet].
(** A kernel that takes everything. *)
Definition accepts (_ : list rt_msg) (_ : rt_msg) : Z := 0.
(** A kernel that refuses the routes of /24 networks. *)
Definition ENOBUFS : Z := 55.
Definition refuses_subnets (_ : list rt_msg) (m : rt_msg) : Z :=
  if existsb (λ p, match p with
                   | (RTA_NETMASK, SockIn a) => memcmp a (ip 255 255 255 0) 4 =? 0
                   | _ => false
                   end) (rt_addrs m) then ENOBUFS else 0.

(** The Ethernet was up before, the Wi-Fi after. *)
Definition demo_old : list IPv4Route := with_control 3 <$> [eth_default; eth_subnet].

Lemma RouteListApply_calls_witness :
  ∃ dels att,
    ap_calls (RouteListApply accepts false 3 (Some demo_old) (Some wifi_table)) = dels ++ concat att.*2 ∧
    c_route <$> dels = demo_old ∧ NoDup att.*1 ∧ 1%nat ∈ att.*1.
Proof.
  destruct (RouteListApply_calls accepts false 3 (Some demo_old) (Some wifi_table))
    as (dels & att & Hc & Hd & _ & Hn & _ & _ & Hi).
  - intros r [->|[->|Hr]%elem_of_cons]%elem_of_cons; [reflexivity|reflexivity|by apply elem_of_nil in Hr].
  - intros r [->|[->|Hr]%elem_of_cons]%elem_of_cons; [reflexivity|reflexivity|by apply elem_of_nil in Hr].
  - exists dels, att. split; [exact Hc|]. split; [exact Hd|]. split; [exact Hn|].
    destruct (Hi 1%nat wifi_subnet eq_refl) as (r & _ & _ & _ & H). apply H; [by intros [=]|reflexivity].
Defined.

(** [RouteProcess] returns TRUE for a route the kernel refuses: the routes behind it
    are added all the same, although RouteProcess means to give them up (the message
    failed to add). *)
Theorem RouteProcess_ignores_failure :
  let s := RouteListApply refuses_subnets false 3 None (Some wifi_table) in
  gateway_index wifi_table wifi_default = Some 1%nat ∧
  (λ c, (r_prefix_length (c_route c), c_cmd c, c_result c)) <$> ap_calls s =
    [(24, RTM_ADD, ENOBUFS); (0, RTM_ADD, 0)] ∧
  has (default 0 (r_control_flags <$> ap_routes s !! 0%nat)) kControlFlagsAdded = true ∧
  has (default 0 (r_control_flags <$> ap_routes s !! 1%nat)) kControlFlagsAdded = false.
Proof. by vm_compute. Qed.

(** Candidates of one rank are sorted by the order of the dictionary, their routes by
    interface: the primary service is one, the unscoped default route another's. *)
Theorem primary_tie :
  let services := [MkService "eth" (Some demo_eth) (Some "en1"%string) None false;
                   MkService "wifi" (Some demo_wifi) (Some "en0"%string) None false] in
  match ElectionResultsCopy false None 0 services ∅ with
  | Some (Some results, _) =>
      match ElectionResultsGetPrimary demo_routelist_of 5 None (Some results) [] with
      | Some (Some primary, Some tab, _) =>
          cd_serviceID primary = "eth"%string ∧
          (λ r, (r_ifindex r, is_scoped r)) <$> take 2 (rl_list tab) = [(4, false); (5, true)]
      | _ => False
      end
  | _ => False
  end.
Proof. vm_compute. split; reflexivity. Qed.

(** ** Concrete services

    A machine with Ethernet, on which the theorems about the lists of routes of a
    service are evaluated. *)


Definition quad (a b c d : Z) : address := byte_of_Z <$> [a; b; c; d].
Definition demo_hosts : list (string * address) :=
  [("192.168.1.9", quad 192 168 1 9); ("192.168.1.1", quad 192 168 1 1); ("255.255.255.0", quad 255 255 255 0);
   ("255.0.255.0", quad 255 0 255 0); ("10.0.0.0", quad 10 0 0 0); ("255.0.0.0", quad 255 0 0 0)]%string.
Definition demo_hosts6 : list (string * address) :=
  [("fd00::9", xfd :: replicate 14 x00 ++ [x09]); ("fe80::1", xfe :: x80 :: replicate 13 x00 ++ [x01])]%string.
Definition demo_lookup {X} (l : list (string * X)) (s : string) : option X :=
  snd <$> List.find (λ e, String.eqb e.1 s) l.
#[local] Instance demo_network : Network := {|
  inet_pton af s := demo_lookup (match af with AF_INET => demo_hosts | AF_INET6 => demo_hosts6 end) s;
  if_nametoindex s := if String.eqb s "lo0" then 1 else if String.eqb s "en1" then 5 else 0;
|}.

Lemma demo_lookup_in {X} (l : list (string * X)) s x : demo_lookup l s = Some x → (s, x) ∈ l.
Proof.
  unfold demo_lookup. intros ([s' x'] & E & ->)%fmap_Some. apply List.find_some in E as [Hin Es%String.eqb_eq].
  cbn in *. subst. by apply list_elem_of_In.
Qed.

Ltac by_entries H :=
  repeat (apply elem_of_cons in H as [H|H]; [injection H as -> ->; reflexivity|]); by apply elem_of_nil in H.

#[local] Instance demo_network_laws : NetworkLaws.
Proof.
  split.
  - intros af s a E%demo_lookup_in. destruct af; by_entries E.
  - intros s. cbn. destruct (String.eqb s "lo0"), (String.eqb s "en1"); lia.
Qed.

Lemma demo_cache_ok : cache_ok None.
Proof.
  intros s t. cbn.
  destruct (String.eqb_spec s "lo0"), (String.eqb_spec t "lo0"), (String.eqb_spec s "en1"),
    (String.eqb_spec t "en1"); intros; congruence.
Qed.

Definition demo_entry (dest mask : string) (more : CFDict) : CFType :=
  CFDictionary (<["DestinationAddress"%string := CFString dest]> (<["SubnetMask"%string := CFString mask]> more)).
(** An Ethernet with an additional route, one whose mask is none, and an excluded one. *)
Definition demo_dict4 : CFDict :=
  <["InterfaceName"%string := CFString "en1"]>
  (<["Addresses"%string := CFArray [CFString "192.168.1.9"]]>
  (<["SubnetMasks"%string := CFArray [CFString "255.255.255.0"]]>
  (<["Router"%string := CFString "192.168.1.1"]>
  (<["AdditionalRoutes"%string := CFArray [demo_entry "10.0.0.0" "255.0.255.0" ∅; demo_entry "10.0.0.0" "255.0.0.0" ∅]]>
  (<["ExcludedRoutes"%string := CFArray [demo_entry "10.0.0.0" "255.255.255.0" (<["InterfaceName"%string := CFString "en1"]> ∅)]]> ∅))))).
Definition demo_buf4 : list IPv4Route := replicate 5 (MkRoute IPv4Addrs 7 7 7 7 7 7 (IPv4 [] [] [] [])).
Definition demo_buf6 : list IPv6Route := replicate 3 (MkRoute IPv6Addrs 7 7 7 7 7 7 (IPv6 [] [] [])).

Definition demo_made : option (RouteList IPv4Addrs) :=
  match IPv4RouteListDataCreate None demo_buf4 (Some demo_dict4) None 0 with Some (r, _) => r | None => None end.
Example demo_made_shape :
  (λ r, (r_prefix_length r, r_ifindex r, r_exclude_ifindex r, r_flags r)) <$> default [] (rl_list <$> demo_made) =
  [(0, 5, 0, 2); (32, 5, 0, 0); (4, 5, 0, 0); (24, 5, 0, 0); (32, 5, 0, 0); (8, 5, 0, 0); (24, 5, 5, 0)].
Proof. vm_compute. reflexivity. Qed.

(** *** The witnesses *)

Lemma demo_few : few_routes demo_dict4.
Proof. vm_compute. reflexivity. Qed.

Lemma mask_get_prefix_length_exact_witness :
  length (quad 255 255 252 0) = 4%nat ∧
  (let n := mask_get_prefix_length (quad 255 255 252 0) in
   0 ≤ n ≤ 32 ∧ prefix_mask (quad 255 255 252 0) n ∨
   n = -1 ∧ ∀ k, 0 ≤ k ≤ 32 → ¬ prefix_mask (quad 255 255 252 0) k).
Proof. split; [reflexivity|]. apply (mask_get_prefix_length_exact (quad 255 255 252 0)). reflexivity. Defined.

Lemma RouteListDataCreate_reference_witness :
  ∃ idx', IPv4RouteListDataCreate None demo_buf4 (Some demo_dict4) None 0 =
    Some (created4 None demo_dict4 None (lo0_index None 0), idx').
Proof.
  destruct (RouteListDataCreate_reference None demo_buf4 demo_buf6 [] demo_dict4 None 0) as [H _].
  - reflexivity.
  - reflexivity.
  - reflexivity.
  - exact demo_few.
  - exact H.
Defined.

Lemma demo_no_zero : no_zero_mask demo_dict4.
Proof.
  split.
  - intros m E. vm_compute in E. injection E as <-. vm_compute. congruence.
  - intros key v d dest mask n Hkey Hv E ->.
    assert (forallb (λ v, negb (bool_decide ((snd <$> entry4 v) = Some 0)))
      (default [] (get_array demo_dict4 key)) = true) as Hall by (by destruct Hkey as [->| ->]; vm_compute).
    rewrite forallb_forall in Hall. apply list_elem_of_In in Hv. specialize (Hall v Hv).
    apply negb_true_iff, bool_decide_eq_false in Hall. by rewrite E in Hall.
Qed.
Definition demo_made_list : RouteList IPv4Addrs := default (MkRouteList IPv4Addrs 0 0 []) demo_made.

Lemma RouteListDataCreate_default_first_witness : default_first demo_made_list.
Proof.
  destruct (RouteListDataCreate_default_first None demo_buf4 demo_buf6 [] demo_dict4 None 0) as [H _].
  - reflexivity.
  - reflexivity.
  - reflexivity.
  - exact demo_few.
  - apply (H demo_no_zero demo_made_list 1). vm_compute. reflexivity.
Defined.

#[local] Instance demo_source : RouteSource IPv4Addrs None :=
  source4 None demo_cache_ok (λ _, eq_refl) demo_buf4 eq_refl.

Definition demo_input : service_input :=
  MkInput "eth" (Some (<["PrimaryRank"%string := CFString "First"]> ∅)) None (Some "en1"%string) false
    (Some demo_dict4) None.
Lemma demo_input_ok : input_ok None demo_input.
Proof.
  intros dict [= <-]. split; [exact demo_few|]. intros name E. vm_compute in E. injection E as <-. reflexivity.
Qed.

Definition demo_services4 : list (Service IPv4Addrs) :=
  match services_changed None ∅ [demo_input] 0 with Some (s, _) => s | None => [] end.

Lemma services_elect_safe_witness :
  ∃ results rank_dict',
    ElectionResultsCopy false None 0 demo_services4 ∅ = Some (results, rank_dict') ∧
    ∀ r, results = Some r →
    Z.of_nat (length (offered (routelist_of demo_services4) None false (er_candidates r))) < 2 ^ 29 →
    ∃ routes nwi',
      ElectionResultsGetPrimary (routelist_of demo_services4) rs_n_static None (Some r) [] =
        Some (elected (routelist_of demo_services4) None (er_candidates r), routes, nwi') ∧
      ∀ rl, routes = Some rl → grouped (rl_list rl) ∧ rl_count rl ≤ rl_size rl.
Proof.
  destruct (services_elect_safe None ∅ false None 0 None [demo_input] 0 ∅ []) as (services & idx' & E & H).
  - reflexivity.
  - constructor; [exact demo_input_ok|constructor].
  - left. reflexivity.
  - reflexivity.
  - unfold demo_services4. rewrite E. exact H.
Defined.

(** A name is compared with that of the loopback interface as a C string when the list of
    routes is made, which stays empty for it, and as a string by the election, which then
    reads the first route of the empty list: the two differ on a name with a NUL in it. *)
Definition nul_name : string := String.append "lo0" (String (Ascii.ascii_of_nat 0) EmptyString).
Definition nul_input : service_input :=
  MkInput "eth" None None (Some "lo0"%string) false
    (Some (<["InterfaceName"%string := CFString nul_name]>
           (<["Addresses"%string := CFArray [CFString "10.0.0.0"]]> ∅))) None.
Theorem nul_in_name_reads_empty :
  match services_changed None ∅ [nul_input] 0 with
  | Some ([s], _) => (rl_list <$> sv_routelist s) = Some [] ∧ ElectionResultsCopy false None 0 [s] ∅ = None
  | _ => False
  end.
Proof. vm_compute. split; reflexivity. Qed.

(** An excluded route that names the interface it is to keep away from is put on that
    interface: the code compares its index with [ctx->ifindex], which is 0 for the
    excluded routes, where it means [ctx->exclude_ifindex]. *)
Theorem excluded_own_interface :
  ∃ r, r ∈ default [] (rl_list <$> demo_made) ∧ r_exclude_ifindex r = 5 ∧ r_ifindex r = 5.
Proof.
  eexists. split; [|split].
  - apply list_elem_of_lookup. exists 6%nat. vm_compute. reflexivity.
  - reflexivity.
  - reflexivity.
Qed.
