(* ===== verification/NwiState.v ===== *)
(** * The network information state: its memory and operations

    nwi/network_state_information_priv.c and its header. A state is one block: room
    for [max_if_count] interfaces of each address family, IPv4's first, and the list
    of interfaces in the order of their ranks, as indices into them. A pointer to an
    ifstate is an index too; the same interface of the other family is found by an
    offset between them.

    An access outside the arrays is a crash. Counts and indices are natural numbers;
    an offset is an [int32_t], which it fits as long as [max_if_count] is below 2^30.
    [malloc] is taken to succeed. *)

From S2P Require Import Prelude RouteTypes RouteDict.

Local Open Scope Z_scope.
Local Open Scope c_scope.

Definition NWI_IFSTATE_FLAGS_HAS_IPV4 : Z := 0x1.
Definition NWI_IFSTATE_FLAGS_HAS_IPV6 : Z := 0x2.
Definition NWI_IFSTATE_FLAGS_HAS_DNS : Z := 0x4.
Definition NWI_IFSTATE_FLAGS_NOT_IN_LIST : Z := 0x8.
Definition NWI_IFSTATE_FLAGS_HAS_SIGNATURE : Z := 0x10.
Definition NWI_IFSTATE_FLAGS_NOT_IN_IFLIST : Z := 0x20.
Definition NWI_IFSTATE_FLAGS_HAS_CLAT46 : Z := 0x40.
Definition NWI_IFSTATE_FLAGS_MASK : Z := 0xff.
Definition NWI_IFSTATE_FLAGS_DIFF_MASK : Z := 0xf00.
Definition NWI_IFSTATE_FLAGS_LAST_ITEM : Z := 0x1000.

Definition NWI_IFSTATE_FLAGS (flags : Z) : Z := Z.land flags NWI_IFSTATE_FLAGS_MASK.
Definition NWI_IFSTATE_FLAGS_GET_DIFF (flags : Z) : Z :=
  Z.shiftr (Z.land flags NWI_IFSTATE_FLAGS_DIFF_MASK) 8.
Definition NWI_IFSTATE_FLAGS_FROM_DIFF (diff : Z) : Z :=
  Z.land (Z.shiftl diff 8) NWI_IFSTATE_FLAGS_DIFF_MASK.

Definition NWI_IFSTATE_DIFF_UNCHANGED : Z := 0.
Definition NWI_IFSTATE_DIFF_ADDED : Z := 1.
Definition NWI_IFSTATE_DIFF_REMOVED : Z := 2.
Definition NWI_IFSTATE_DIFF_CHANGED : Z := 3.
Definition NWI_IFSTATE_DIFF_RANK_UP : Z := 4.
Definition NWI_IFSTATE_DIFF_RANK_DOWN : Z := 5.

#[export] Instance family_eq_dec : EqDecision family.
Proof. solve_decision. Defined.

(** ** Data *)

(** [ifs_af] is [None] for the 0 of a zeroed ifstate. The union of addresses and
    the one of server addresses are their bytes, 16 and 28 of them; the signature
    has 20. *)
Record nwi_ifstate := MkIfstate {
  ifs_ifname : string;
  ifs_flags : Z;
  ifs_af_alias_offset : Z;
  ifs_rank : Z;
  ifs_af : option family;
  ifs_iaddr : list byte;
  ifs_generation : Z;
  ifs_reach_flags : Z;
  ifs_vpn_server : list byte;
  ifs_signature : list byte;
}.

(** [max_if_count] ifstates of IPv4, then as many of IPv6. *)
Record nwi_state := MkState {
  nwi_max_if_count : nat;
  nwi_ipv4_count : nat;
  nwi_ipv6_count : nat;
  nwi_if_list_count : nat;
  nwi_reach_flags_v4 : Z;
  nwi_reach_flags_v6 : Z;
  nwi_generation_count : Z;
  nwi_ifstate_list : list nwi_ifstate;
  nwi_if_list : list nat;
}.

Definition sizeof_vpn_server : nat := 28.
Definition CC_SHA1_DIGEST_LENGTH : nat := 20.
Definition zero_ifstate : nwi_ifstate :=
  MkIfstate "" 0 0 0 None (replicate 16 x00) 0 0 (replicate sizeof_vpn_server x00)
    (replicate CC_SHA1_DIGEST_LENGTH x00).
Definition zero_state (max_if_count : nat) : nwi_state :=
  MkState max_if_count 0 0 0 0 0 0 (replicate (2 * max_if_count) zero_ifstate)
    (replicate max_if_count 0%nat).

Definition with_alias (offset : Z) (x : nwi_ifstate) : nwi_ifstate :=
  MkIfstate (ifs_ifname x) (ifs_flags x) offset (ifs_rank x) (ifs_af x) (ifs_iaddr x)
    (ifs_generation x) (ifs_reach_flags x) (ifs_vpn_server x) (ifs_signature x).
Definition with_ifs_flags (flags : Z) (x : nwi_ifstate) : nwi_ifstate :=
  MkIfstate (ifs_ifname x) flags (ifs_af_alias_offset x) (ifs_rank x) (ifs_af x) (ifs_iaddr x)
    (ifs_generation x) (ifs_reach_flags x) (ifs_vpn_server x) (ifs_signature x).
Definition with_generation (g : Z) (x : nwi_ifstate) : nwi_ifstate :=
  MkIfstate (ifs_ifname x) (ifs_flags x) (ifs_af_alias_offset x) (ifs_rank x) (ifs_af x)
    (ifs_iaddr x) g (ifs_reach_flags x) (ifs_vpn_server x) (ifs_signature x).
Definition with_signature (sig : list byte) (x : nwi_ifstate) : nwi_ifstate :=
  MkIfstate (ifs_ifname x) (ifs_flags x) (ifs_af_alias_offset x) (ifs_rank x) (ifs_af x)
    (ifs_iaddr x) (ifs_generation x) (ifs_reach_flags x) (ifs_vpn_server x) sig.

Definition with_ifstates (l : list nwi_ifstate) (s : nwi_state) : nwi_state :=
  MkState (nwi_max_if_count s) (nwi_ipv4_count s) (nwi_ipv6_count s) (nwi_if_list_count s)
    (nwi_reach_flags_v4 s) (nwi_reach_flags_v6 s) (nwi_generation_count s) l (nwi_if_list s).
Definition with_if_list (n : nat) (l : list nat) (s : nwi_state) : nwi_state :=
  MkState (nwi_max_if_count s) (nwi_ipv4_count s) (nwi_ipv6_count s) n
    (nwi_reach_flags_v4 s) (nwi_reach_flags_v6 s) (nwi_generation_count s) (nwi_ifstate_list s) l.
Definition with_count (af : family) (n : nat) (s : nwi_state) : nwi_state :=
  MkState (nwi_max_if_count s) (match af with AF_INET => n | AF_INET6 => nwi_ipv4_count s end)
    (match af with AF_INET => nwi_ipv6_count s | AF_INET6 => n end) (nwi_if_list_count s)
    (nwi_reach_flags_v4 s) (nwi_reach_flags_v6 s) (nwi_generation_count s) (nwi_ifstate_list s)
    (nwi_if_list s).
Definition with_generation_count (g : Z) (s : nwi_state) : nwi_state :=
  MkState (nwi_max_if_count s) (nwi_ipv4_count s) (nwi_ipv6_count s) (nwi_if_list_count s)
    (nwi_reach_flags_v4 s) (nwi_reach_flags_v6 s) g (nwi_ifstate_list s) (nwi_if_list s).
Definition _nwi_state_set_reachability_flags (v4 v6 : Z) (s : nwi_state) : nwi_state :=
  MkState (nwi_max_if_count s) (nwi_ipv4_count s) (nwi_ipv6_count s) (nwi_if_list_count s)
    v4 v6 (nwi_generation_count s) (nwi_ifstate_list s) (nwi_if_list s).

(** ** Access *)

Definition nwi_other_af (af : family) : family :=
  match af with AF_INET => AF_INET6 | AF_INET6 => AF_INET end.
(** Where the ifstates of a family begin. *)
Definition nwi_state_ifstate_list (s : nwi_state) (af : family) : nat :=
  match af with AF_INET => 0 | AF_INET6 => nwi_max_if_count s end.
Definition nwi_state_get_ifstate_count (s : nwi_state) (af : family) : nat :=
  match af with AF_INET => nwi_ipv4_count s | AF_INET6 => nwi_ipv6_count s end.
Definition nwi_state_get_ifstate_with_index (s : nwi_state) (af : family) (idx : nat) : option nat :=
  if (nwi_state_get_ifstate_count s af <=? idx)%nat then None
  else Some (match af with AF_INET6 => idx + nwi_max_if_count s | AF_INET => idx end)%nat.

(** The loop of [nwi_state_get_ifstate_with_name], at [idx] with [n] to go; [None] is
    a crash, [Some None] NULL. *)
Fixpoint find_name (s : nwi_state) (af : family) (name : string) (n idx : nat) : option (option nat) :=
  match n with
  | O => Some None
  | S n =>
      match nwi_state_get_ifstate_with_index s af idx with
      | None => Some None
      | Some ifstate =>
          match nwi_ifstate_list s !! ifstate with
          | None => None
          | Some x => if String.eqb name (ifs_ifname x) then Some (Some ifstate)
                      else find_name s af name n (S idx)
          end
      end
  end.
Definition nwi_state_get_ifstate_with_name (state : option nwi_state) (af : family) (name : string)
    : option (option nat) :=
  match state with
  | None => Some None
  | Some s => find_name s af name (nwi_state_get_ifstate_count s af) 0
  end.

(** [*ifstate], and an assignment to parts of it. *)
Definition ifstate_at (p : nat) : C nwi_state nwi_ifstate :=
  let* s := get in deref (nwi_ifstate_list s !! p).
Definition on_ifstate (p : nat) (f : nwi_ifstate → nwi_ifstate) : C nwi_state unit :=
  let* x := ifstate_at p in
  modify (λ s, with_ifstates (<[p := f x]> (nwi_ifstate_list s)) s).
(** [for (i = 0, scan = p; i < n; i++, scan++)]. *)
Fixpoint for_ifstates (n p : nat) (f : nwi_ifstate → nwi_ifstate) : C nwi_state unit :=
  match n with
  | O => ret tt
  | S n => on_ifstate p f;; for_ifstates n (S p) f
  end.

(** ** The list of interfaces *)

Fixpoint in_if_list (s : nwi_state) (name : string) (n i : nat) : option bool :=
  match n with
  | O => Some false
  | S n =>
      match nwi_if_list s !! i with
      | None => None
      | Some scan =>
          match nwi_ifstate_list s !! scan with
          | None => None
          | Some this_ifstate => if String.eqb (ifs_ifname this_ifstate) name then Some true
                                 else in_if_list s name n (S i)
          end
      end
  end.

Definition nwi_state_add_to_if_list (ifstate : nat) : C nwi_state unit :=
  let* x := ifstate_at ifstate in
  if has (ifs_flags x) NWI_IFSTATE_FLAGS_NOT_IN_IFLIST then ret tt else
  let* s := get in
  let n := nwi_if_list_count s in
  if (nwi_max_if_count s <=? n)%nat then ret tt else
  let* found := deref (in_if_list s (ifs_ifname x) n 0) in
  if found : bool then ret tt else
  deref (nwi_if_list s !! n);;
  modify (with_if_list (S n) (<[n := ifstate]> (nwi_if_list s))).

(** The [while] loop of [nwi_state_set_if_list]; running out of fuel is a crash. *)
Fixpoint set_if_list_from (fuel v4 v6 : nat) : C nwi_state unit :=
  let* s := get in
  let scan_v4 := nwi_state_get_ifstate_with_index s AF_INET v4 in
  let scan_v6 := nwi_state_get_ifstate_with_index s AF_INET6 v6 in
  if negb (bool_decide (is_Some scan_v4)) && negb (bool_decide (is_Some scan_v6)) then ret tt else
  match fuel with
  | O => crash
  | S fuel =>
      let* add_v4 :=
        match scan_v4, scan_v6 with
        | Some p4, Some p6 =>
            let* x4 := ifstate_at p4 in let* x6 := ifstate_at p6 in
            ret (ifs_rank x4 <=? ifs_rank x6)
        | Some _, None => ret true
        | None, _ => ret false
        end in
      if add_v4 : bool then
        let* p4 := deref scan_v4 in
        nwi_state_add_to_if_list p4;; set_if_list_from fuel (S v4) v6
      else
        let* p6 := deref scan_v6 in
        nwi_state_add_to_if_list p6;; set_if_list_from fuel v4 (S v6)
  end.
Definition nwi_state_set_if_list : C nwi_state unit :=
  modify (λ s, with_if_list 0 (nwi_if_list s) s);;
  let* s := get in set_if_list_from (nwi_ipv4_count s + nwi_ipv6_count s) 0 0.

(** [state] may be NULL. *)
Definition nwi_state_finalize (state : option nwi_state) : option (option nwi_state) :=
  match state with
  | None => Some None
  | Some s => match nwi_state_set_if_list s with Some (_, s) => Some (Some s) | None => None end
  end.

(** ** Making and growing *)

(** [int] minus [uint32_t] is an unsigned word, so it is never negative. *)
Definition nwi_state_fix_af_aliases (old_max_if_count : nat) : C nwi_state unit :=
  let* s := get in
  let offset := u32 (Z.of_nat (nwi_max_if_count s) - Z.of_nat old_max_if_count) in
  let shift (d : Z) (x : nwi_ifstate) :=
    if ifs_af_alias_offset x =? 0 then x else with_alias (i32 (ifs_af_alias_offset x + d)) x in
  for_ifstates (nwi_ipv4_count s) (nwi_state_ifstate_list s AF_INET) (shift offset);;
  for_ifstates (nwi_ipv6_count s) (nwi_state_ifstate_list s AF_INET6) (shift (- offset)).

(** [bcopy] of [n] elements from [src] at [i] to [dst] at [j]. *)
Definition bcopy {A} (src : list A) (i : nat) (dst : list A) (j n : nat) : option (list A) :=
  if decide (i + n ≤ length src ∧ j + n ≤ length dst)%nat
  then Some (take j dst ++ take n (drop i src) ++ drop (j + n) dst) else None.

Definition nwi_state_make_copy (src : option nwi_state) : option nwi_state := src.

(** The C function answers NULL for [Some None]. *)
Definition nwi_state_new (old_state : option nwi_state) (max_if_count : nat) : option (option nwi_state) :=
  match old_state with
  | None => Some (if (max_if_count =? 0)%nat then None else Some (zero_state max_if_count))
  | Some old =>
      if (max_if_count <=? nwi_max_if_count old)%nat then Some (Some old) else
      let state := zero_state max_if_count in
      let copy (n i j : nat) l :=
        if (0 <? n)%nat then bcopy (nwi_ifstate_list old) i l j n else Some l in
      match copy (nwi_ipv6_count old) (nwi_max_if_count old) max_if_count (nwi_ifstate_list state) with
      | None => None
      | Some l =>
          match copy (nwi_ipv4_count old) 0%nat 0%nat l with
          | None => None
          | Some l =>
              let state := with_count AF_INET (nwi_ipv4_count old)
                             (with_count AF_INET6 (nwi_ipv6_count old) (with_ifstates l state)) in
              (* we grew the arrays so re-compute the offsets *)
              match (nwi_state_fix_af_aliases (nwi_max_if_count old);; nwi_state_set_if_list) state with
              | Some (_, state) => Some (Some state)
              | None => None
              end
          end
      end
  end.

Definition nwi_state_clear (s : nwi_state) (af : family) : nwi_state := with_count af 0 s.

(** ** Adding an interface *)

(** The ifstate behind the last one of a family. *)
Definition nwi_state_get_last_ifstate (s : nwi_state) (af : family) : nat :=
  match af with AF_INET => nwi_ipv4_count s | AF_INET6 => nwi_max_if_count s + nwi_ipv6_count s end.

Definition nwi_ifstate_set_signature (ifstate : nat) (signature : list byte) : C nwi_state unit :=
  on_ifstate ifstate (λ x, with_ifs_flags (Z.lor (ifs_flags x) NWI_IFSTATE_FLAGS_HAS_SIGNATURE)
                             (with_signature (take CC_SHA1_DIGEST_LENGTH signature) x)).

Definition nwi_state_add_ifstate_alias (ifstate : nat) : C nwi_state unit :=
  let* x := ifstate_at ifstate in
  let* af := deref (ifs_af x) in
  let* s := get in
  let* alias := deref (nwi_state_get_ifstate_with_name (Some s) (nwi_other_af af) (ifs_ifname x)) in
  match alias with
  | None => ret tt
  | Some alias =>
      on_ifstate ifstate (with_alias (i32 (Z.of_nat alias - Z.of_nat ifstate)));;
      on_ifstate alias (with_alias (i32 (Z.of_nat ifstate - Z.of_nat alias)))
  end.

(** [sa_len] and [sa_family] are the first bytes of a socket address. *)
Definition sa_len (addr : list byte) : nat := match addr with b :: _ => N.to_nat (Byte.to_N b) | [] => 0 end.
Definition sa_family (addr : list byte) : nat := match addr with _ :: b :: _ => N.to_nat (Byte.to_N b) | _ => 0 end.

Definition _nwi_ifstate_set_vpn_server (serv_addr : option (list byte)) (old : list byte) : list byte :=
  match serv_addr with
  | None => replicate sizeof_vpn_server x00
  | Some addr =>
      let len := sa_len addr in
      if (len =? 0)%nat || (sizeof_vpn_server <? len)%nat then old
      else take len addr ++ drop len old
  end.

(** The fields that are set for a new and an existing element alike. *)
Definition update_ifstate (af : family) (flags rank : Z) (ifa : option address)
    (vpn_server_addr : option (list byte)) (reach_flags : Z) (x : nwi_ifstate) : nwi_ifstate :=
  MkIfstate (ifs_ifname x)
    (Z.lor (Z.ldiff (ifs_flags x) NWI_IFSTATE_FLAGS_MASK) (NWI_IFSTATE_FLAGS flags))
    (ifs_af_alias_offset x) rank (ifs_af x)
    (match ifa with
     | Some a => take (addr_size af) a ++ drop (addr_size af) (ifs_iaddr x)
     | None => ifs_iaddr x
     end)
    (ifs_generation x) reach_flags
    (_nwi_ifstate_set_vpn_server
       (match vpn_server_addr with
        | Some addr => if (sa_family addr =? 0)%nat then None else Some addr
        | None => None
        end) (ifs_vpn_server x))
    (ifs_signature x).

Definition new_ifstate (ifname : string) (af : family) : nwi_ifstate :=
  let x := zero_ifstate in
  MkIfstate (str_take (IFNAMSIZ - 1) ifname) (Z.lor (ifs_flags x) NWI_IFSTATE_FLAGS_LAST_ITEM)
    (ifs_af_alias_offset x) (ifs_rank x) (Some af) (ifs_iaddr x) (ifs_generation x)
    (ifs_reach_flags x) (ifs_vpn_server x) (ifs_signature x).

(** "add to the end"; NULL if there is no room. *)
Definition add_to_end (ifname : string) (af : family) : C nwi_state (option nat) :=
  let* s := get in
  let ifstate := nwi_state_get_last_ifstate s af in
  let count := nwi_state_get_ifstate_count s af in
  if (count =? nwi_max_if_count s)%nat then ret None else
  when (0 <? count)%nat
    (* previous ifstate is no longer last *)
    (on_ifstate (ifstate - 1) (λ prev,
       with_ifs_flags (Z.ldiff (ifs_flags prev) NWI_IFSTATE_FLAGS_LAST_ITEM) prev));;
  (* this is the new last ifstate *)
  on_ifstate ifstate (λ _, new_ifstate ifname af);;
  modify (with_count af (S count));;
  nwi_state_add_ifstate_alias ifstate;;
  ret (Some ifstate).

Definition nwi_state_add_ifstate (ifname : string) (af : family) (flags rank : Z)
    (ifa : option address) (vpn_server_addr : option (list byte)) (reach_flags : Z)
    : C nwi_state (option nat) :=
  let* s := get in
  let* found := deref (nwi_state_get_ifstate_with_name (Some s) af ifname) in
  let* target :=
    match found with
    | Some ifstate =>
        let* x := ifstate_at ifstate in ret (if ifs_rank x <? rank then None else Some ifstate)
    | None => add_to_end ifname af
    end in
  match target with
  | None => ret None
  | Some ifstate =>
      on_ifstate ifstate (update_ifstate af flags rank ifa vpn_server_addr reach_flags);;
      ret (Some ifstate)
  end.

(** ** The network information state: what changed

    nwi/network_state_information_priv.c: the differences between two states, as a
    state of its own whose ifstates carry a mark, and the generation of each
    interface. *)


(** ** Marks *)

Definition nwi_ifstate_get_diff (x : nwi_ifstate) : Z := NWI_IFSTATE_FLAGS_GET_DIFF (ifs_flags x).

Definition nwi_ifstate_get_diff_str (x : nwi_ifstate) : string :=
  match nwi_ifstate_get_diff x with
  | 0 => "" | 1 => "+" | 2 => "-" | 3 => "!" | 4 => "/" | 5 => "\" | _ => "?"
  end.

Inductive nwi_ifstate_difference :=
| knwi_ifstate_difference_none
| knwi_ifstate_difference_changed
| knwi_ifstate_difference_removed.

Definition nwi_ifstate_get_difference (diff_ifstate : nwi_ifstate) : nwi_ifstate_difference :=
  let diff := nwi_ifstate_get_diff diff_ifstate in
  if (diff =? NWI_IFSTATE_DIFF_ADDED) || (diff =? NWI_IFSTATE_DIFF_CHANGED)
  then knwi_ifstate_difference_changed
  else if diff =? NWI_IFSTATE_DIFF_REMOVED then knwi_ifstate_difference_removed
  else knwi_ifstate_difference_none.

Definition nwi_ifstate_has_changed (ifstate1 ifstate2 : nwi_ifstate) : bool :=
  let size := match ifs_af ifstate1 with Some AF_INET => 4%nat | _ => 16%nat end in
  negb (NWI_IFSTATE_FLAGS (ifs_flags ifstate1) =? NWI_IFSTATE_FLAGS (ifs_flags ifstate2)) ||
  bool_decide (take size (ifs_iaddr ifstate1) ≠ take size (ifs_iaddr ifstate2)).

Definition nwi_ifstate_set_diff (diff : Z) (x : nwi_ifstate) : nwi_ifstate :=
  let flags := Z.ldiff (ifs_flags x) NWI_IFSTATE_FLAGS_DIFF_MASK in
  with_ifs_flags (if diff =? NWI_IFSTATE_DIFF_UNCHANGED then flags
                  else Z.lor flags (NWI_IFSTATE_FLAGS_FROM_DIFF diff)) x.

(** ** The difference of two states *)

(** [existing] is the ifstate of the old state. *)
Definition diff_of (existing : option nwi_ifstate) (new_ifstate : nwi_ifstate) : Z :=
  match existing with
  | Some existing =>
      if nwi_ifstate_has_changed existing new_ifstate then NWI_IFSTATE_DIFF_CHANGED
      else if ifs_rank existing <? ifs_rank new_ifstate then NWI_IFSTATE_DIFF_RANK_DOWN
      else if ifs_rank new_ifstate <? ifs_rank existing then NWI_IFSTATE_DIFF_RANK_UP
      else NWI_IFSTATE_DIFF_UNCHANGED
  | None => NWI_IFSTATE_DIFF_ADDED
  end.

(** The ifstate of the name in another state; [None] is a crash. *)
Definition ifstate_with_name (state : option nwi_state) (af : family) (name : string)
    : option (option nwi_ifstate) :=
  match nwi_state_get_ifstate_with_name state af name with
  | None => None
  | Some None => Some None
  | Some (Some p) => match state ≫= (λ s, nwi_ifstate_list s !! p) with
                     | Some x => Some (Some x)
                     | None => None
                     end
  end.

(** These run on the state [diff]. *)
Definition nwi_state_diff_append (scan : nwi_ifstate) : C nwi_state nat :=
  let* af := deref (ifs_af scan) in
  let* s := get in
  let p := nwi_state_get_last_ifstate s af in
  on_ifstate p (λ _, scan);;
  modify (with_count af (S (nwi_state_get_ifstate_count s af)));;
  ret p.

Definition nwi_state_diff_add_change (old_state : option nwi_state) (ifstate : nwi_ifstate)
    : C nwi_state unit :=
  let* af := deref (ifs_af ifstate) in
  let* existing := deref (ifstate_with_name old_state af (ifs_ifname ifstate)) in
  let* new_ifstate := nwi_state_diff_append ifstate in
  on_ifstate new_ifstate (λ x, nwi_ifstate_set_diff (diff_of existing x) x).

Definition nwi_state_diff_remove (ifstate : nwi_ifstate) : C nwi_state unit :=
  let* af := deref (ifs_af ifstate) in
  let* s := get in
  let* found := deref (nwi_state_get_ifstate_with_name (Some s) af (ifs_ifname ifstate)) in
  if bool_decide (is_Some found) then (* there's still an ifstate *) ret tt else
  let* removed_ifstate := nwi_state_diff_append ifstate in
  on_ifstate removed_ifstate (nwi_ifstate_set_diff NWI_IFSTATE_DIFF_REMOVED).

(** [body] for each ifstate of a family of another state. *)
Definition for_ifstates_of (state : nwi_state) (af : family) (body : nwi_ifstate → C nwi_state unit)
    : C nwi_state unit :=
  for_each (seq (nwi_state_ifstate_list state af) (nwi_state_get_ifstate_count state af))
    (λ p, let* scan := deref (nwi_ifstate_list state !! p) in body scan).

Definition nwi_state_diff_populate (old_state new_state : option nwi_state) : C nwi_state unit :=
  (match new_state with
   | Some new_state =>
       (* check for adds/changes *)
       for_ifstates_of new_state AF_INET (nwi_state_diff_add_change old_state);;
       for_ifstates_of new_state AF_INET6 (nwi_state_diff_add_change old_state)
   | None => ret tt
   end);;
  match old_state with
  | Some old_state =>
      (* check for removes *)
      for_ifstates_of old_state AF_INET nwi_state_diff_remove;;
      for_ifstates_of old_state AF_INET6 nwi_state_diff_remove
  | None => ret tt
  end.

Definition nwi_state_max_af_count (s : nwi_state) : nat :=
  if (nwi_ipv6_count s <=? nwi_ipv4_count s)%nat then nwi_ipv4_count s else nwi_ipv6_count s.

Definition nwi_state_diff (old_state new_state : option nwi_state) : option (option nwi_state) :=
  let count (o : option nwi_state) := match o with Some s => nwi_state_max_af_count s | None => 0%nat end in
  let total_count := (count old_state + count new_state)%nat in
  if (total_count =? 0)%nat then Some None else
  match nwi_state_new None total_count with
  | Some (Some diff) =>
      match nwi_state_diff_populate old_state new_state diff with
      | Some (_, diff) => Some (Some diff)
      | None => None
      end
  | _ => None
  end.

(** ** Generations *)

Definition _nwi_ifstate_has_changed (changes : nwi_state) (ifname : string) : option bool :=
  let differs (o : option nwi_ifstate) :=
    match o with
    | Some x => negb (nwi_ifstate_get_diff x =? NWI_IFSTATE_DIFF_UNCHANGED)
    | None => false
    end in
  match ifstate_with_name (Some changes) AF_INET ifname with
  | None => None
  | Some x4 =>
      if differs x4 then Some true else
      match ifstate_with_name (Some changes) AF_INET6 ifname with
      | None => None
      | Some x6 => Some (differs x6)
      end
  end.

(** [_nwi_ifstate_set_generation] for one ifstate of [state]. *)
Definition update_generation (old_state : option nwi_state) (changes : nwi_state) (af : family)
    (generation_count : Z) (p : nat) : C nwi_state unit :=
  let* scan := ifstate_at p in
  let* changed := deref (_nwi_ifstate_has_changed changes (ifs_ifname scan)) in
  if changed : bool then on_ifstate p (with_generation generation_count) else
  let* old_ifstate := deref (ifstate_with_name old_state af (ifs_ifname scan)) in
  (* assert (old_ifstate != NULL) *)
  let* old_ifstate := deref old_ifstate in
  on_ifstate p (with_generation (ifs_generation old_ifstate)).

Definition _nwi_state_update_interface_generations (old_state : option nwi_state)
    (changes : option nwi_state) : C nwi_state unit :=
  match changes with
  | None => ret tt
  | Some changes =>
      let* s := get in
      let generation_count := nwi_generation_count s in
      for_each (seq (nwi_state_ifstate_list s AF_INET) (nwi_ipv4_count s))
        (update_generation old_state changes AF_INET generation_count);;
      for_each (seq (nwi_state_ifstate_list s AF_INET6) (nwi_ipv6_count s))
        (λ p, let* scan := ifstate_at p in
              if ifs_generation scan =? generation_count then ret tt
              else update_generation old_state changes AF_INET6 generation_count p)
  end.
