(* ===== verification/NwiInfo.v ===== *)
(** * The network information state: what its readers see

    The accessors of nwi/network_information.c. They read a state through pointers
    into it and change nothing; [None] is an access outside the arrays, NULL is
    [Some None]. *)

From S2P Require Import Prelude RouteTypes RouteDict NwiState.

Local Open Scope Z_scope.

Section access.
Variable s : nwi_state.

(** [ifstate + offset], a crash in front of the array. *)
Definition ptr_add (p : nat) (offset : Z) : option nat :=
  if 0 <=? Z.of_nat p + offset then Some (Z.to_nat (Z.of_nat p + offset)) else None.

Definition nwi_ifstate_get_alias (ifstate : nat) (af : family) : option (option nat) :=
  x ← nwi_ifstate_list s !! ifstate;
  if bool_decide (ifs_af x = Some af) then Some (Some ifstate)
  else if ifs_af_alias_offset x =? 0 then Some None
  else Some <$> ptr_add ifstate (ifs_af_alias_offset x).

Definition flags_from_af (af : option family) : Z :=
  match af with
  | Some AF_INET => NWI_IFSTATE_FLAGS_HAS_IPV4
  | _ => NWI_IFSTATE_FLAGS_HAS_IPV6
  end.

(** What one ifstate contributes to the flags. *)
Definition contributed_flags (x : nwi_ifstate) : Z :=
  Z.lor (flags_from_af (ifs_af x))
    (Z.lor (if has (ifs_flags x) NWI_IFSTATE_FLAGS_HAS_DNS then NWI_IFSTATE_FLAGS_HAS_DNS else 0)
       (if has (ifs_flags x) NWI_IFSTATE_FLAGS_HAS_CLAT46 then NWI_IFSTATE_FLAGS_HAS_CLAT46 else 0)).
Definition nwi_ifstate_get_flags (ifstate : nat) : option Z :=
  x ← nwi_ifstate_list s !! ifstate;
  if ifs_af_alias_offset x =? 0 then Some (contributed_flags x)
  else
    p ← ptr_add ifstate (ifs_af_alias_offset x);
    alias ← nwi_ifstate_list s !! p;
    Some (Z.lor (contributed_flags x) (contributed_flags alias)).

Definition nwi_state_get_first_ifstate (af : family) : option (option nat) :=
  match nwi_state_get_ifstate_with_index s af 0 with
  | None => Some None
  | Some ifstate =>
      x ← nwi_ifstate_list s !! ifstate;
      Some (if has (ifs_flags x) NWI_IFSTATE_FLAGS_NOT_IN_LIST then None else Some ifstate)
  end.

Definition nwi_state_get_ifstate (ifname : string) : option (option nat) :=
  ifstate ← nwi_state_get_ifstate_with_name (Some s) AF_INET ifname;
  match ifstate with
  | Some ifstate => Some (Some ifstate)
  | None => nwi_state_get_ifstate_with_name (Some s) AF_INET6 ifname
  end.

Definition nwi_ifstate_get_next (ifstate : nat) (af : family) : option (option nat) :=
  alias ← nwi_ifstate_get_alias ifstate af;
  match alias with
  | None => Some None
  | Some ifstate =>
      x ← nwi_ifstate_list s !! ifstate;
      if has (ifs_flags x) (Z.lor NWI_IFSTATE_FLAGS_NOT_IN_LIST NWI_IFSTATE_FLAGS_LAST_ITEM)
      then Some None
      else
        x ← nwi_ifstate_list s !! S ifstate;
        Some (if has (ifs_flags x) NWI_IFSTATE_FLAGS_NOT_IN_LIST then None else Some (S ifstate))
  end.

Definition nwi_ifstate_compare_rank (ifstate1 ifstate2 : nwi_ifstate) : Z :=
  RankCompare (ifs_rank ifstate1) (ifs_rank ifstate2).

(** The first ifstate of a family itself. *)
Definition first_ifstate (af : family) : option (option nwi_ifstate) :=
  p ← nwi_state_get_first_ifstate af;
  match p with None => Some None | Some p => Some <$> nwi_ifstate_list s !! p end.

(** [af] is [None] for neither of the families. *)
Definition nwi_state_get_reachability_flags (af : option family) : option Z :=
  match af with
  | Some af =>
      ifstate ← first_ifstate af;
      Some (match ifstate with
            | Some x => ifs_reach_flags x
            | None => match af with AF_INET => nwi_reach_flags_v4 s | AF_INET6 => nwi_reach_flags_v6 s end
            end)
  | None =>
      ifstate_v4 ← first_ifstate AF_INET;
      ifstate_v6 ← first_ifstate AF_INET6;
      Some (match ifstate_v4, ifstate_v6 with
            | Some x4, Some x6 => if 0 <? nwi_ifstate_compare_rank x4 x6 then ifs_reach_flags x6
                                  else ifs_reach_flags x4
            | Some x4, None => ifs_reach_flags x4
            | None, Some x6 => ifs_reach_flags x6
            | None, None => if nwi_reach_flags_v4 s =? 0 then nwi_reach_flags_v6 s
                            else nwi_reach_flags_v4 s
            end)
  end.

Definition nwi_ifstate_get_vpn_server (x : nwi_ifstate) : option (list byte) :=
  if (sa_family (ifs_vpn_server x) =? 0)%nat then None else Some (ifs_vpn_server x).

(** The signature and its length; [af] is [None] for AF_UNSPEC. *)
Definition nwi_ifstate_get_signature (ifstate : nat) (af : option family)
    : option (option (list byte) * nat) :=
  i_state ← match af with None => Some (Some ifstate) | Some af => nwi_ifstate_get_alias ifstate af end;
  match i_state with
  | None => Some (None, 0%nat)
  | Some i_state =>
      x ← nwi_ifstate_list s !! i_state;
      Some (if has (ifs_flags x) NWI_IFSTATE_FLAGS_HAS_SIGNATURE
            then (Some (ifs_signature x), CC_SHA1_DIGEST_LENGTH) else (None, 0%nat))
  end.

Definition _nwi_ifstate_is_in_list (ifstate : nat) (af : family) : option bool :=
  i_state ← nwi_ifstate_get_alias ifstate af;
  match i_state with
  | None => Some false
  | Some i_state =>
      flags ← nwi_ifstate_get_flags i_state;
      Some (negb (has flags NWI_IFSTATE_FLAGS_NOT_IN_LIST))
  end.

Definition nwi_ifstate_get_dns_signature (ifstate : nat) : option (option (list byte) * nat) :=
  flags ← nwi_ifstate_get_flags ifstate;
  if negb (has flags NWI_IFSTATE_FLAGS_HAS_DNS) then Some (None, 0%nat) else
  v4 ← nwi_ifstate_get_signature ifstate (Some AF_INET);
  v6 ← nwi_ifstate_get_signature ifstate (Some AF_INET6);
  if negb (bool_decide (is_Some v4.1)) && negb (bool_decide (is_Some v6.1)) then Some (None, 0%nat) else
  in_list_v4 ← _nwi_ifstate_is_in_list ifstate AF_INET;
  if in_list_v4 : bool then Some v4 else
  in_list_v6 ← _nwi_ifstate_is_in_list ifstate AF_INET6;
  if negb in_list_v6 && (0 <? v4.2)%nat then Some v4 else Some v6.

(** The loop that fills [names], from [i] with [n] to go. *)
Fixpoint fill_names (n i : nat) (names : list string) : option (list string) :=
  match n with
  | O => Some names
  | S n =>
      scan ← nwi_if_list s !! i;
      x ← nwi_ifstate_list s !! scan;
      if decide (i < length names)%nat then fill_names n (S i) (<[i := ifs_ifname x]> names) else None
  end.

(** [names] is the caller's array, [None] for NULL; the count and what the array
    holds then. *)
Definition nwi_state_get_interface_names (names : option (list string)) (names_count : nat)
    : option (nat * option (list string)) :=
  match names with
  | Some l =>
      if (names_count =? 0)%nat then Some (nwi_if_list_count s, Some l) else
      l ← fill_names (nwi_if_list_count s) 0 l;
      Some (nwi_if_list_count s, Some l)
  | None => Some (nwi_if_list_count s, None)
  end.

(** The walk of a reader from the first ifstate to NULL, no longer than [fuel]. *)
Fixpoint walk_from (fuel p : nat) (af : family) : option (list nat) :=
  match fuel with
  | O => None
  | S fuel =>
      next ← nwi_ifstate_get_next p af;
      match next with
      | None => Some [p]
      | Some q => cons p <$> walk_from fuel q af
      end
  end.
Definition walk (fuel : nat) (af : family) : option (list nat) :=
  first ← nwi_state_get_first_ifstate af;
  match first with None => Some [] | Some p => walk_from fuel p af end.
End access.
