(* ===== verification/NwiRound.v ===== *)
(** * IPMonitor: the network information state from one change to the next

    What [IPMonitorProcessChanges] of ip_plugin.c does with the network information
    state: it makes room for the services, adds the candidates of both elections,
    compares with the state before, and sets the generations; then
    [process_nwi_changes] tells the kernel the order and the signatures of the
    interfaces. Which of its parts run is in [nwi_change]; the candidates are the
    entries [ElectionResultsGetPrimary] makes. *)

From S2P Require Import Prelude RouteTypes RouteList RouteElection RouteDict NwiState.

Local Open Scope Z_scope.
Local Open Scope c_scope.

(** ** Adding the candidates *)

(** What else [add_candidate_to_nwi_state] asks of a candidate: whether its service
    has DNS or a CLAT46 address, its address, the address of its VPN server, its
    reachability flags, and the SHA1 of its signature. *)
Record candidate_info := MkInfo {
  ci_has_dns : bool;
  ci_has_clat46 : bool;
  ci_addr : address;
  ci_vpn_server_addr : list byte;
  ci_reachability_flags : Z;
  ci_signature : option (list byte);
}.

Section round.
Variable info : family → Candidate → candidate_info.

Definition nwi_flags (af : family) (e : nwi_entry) : Z :=
  let i := info af (ni_candidate e) in
  let flag (b : bool) (f : Z) := if b then f else 0 in
  Z.lor (flag (ni_not_in_list e) NWI_IFSTATE_FLAGS_NOT_IN_LIST)
    (Z.lor (flag (ni_not_in_iflist e) NWI_IFSTATE_FLAGS_NOT_IN_IFLIST)
      (Z.lor (flag (ci_has_dns i) NWI_IFSTATE_FLAGS_HAS_DNS)
        (flag (bool_decide (af = AF_INET) && ci_has_clat46 i) NWI_IFSTATE_FLAGS_HAS_CLAT46))).

(** [add_candidate_to_nwi_state] on the state itself. *)
Definition add_to_nwi_state (af : family) (e : nwi_entry) : C nwi_state unit :=
  let candidate := ni_candidate e in
  let i := info af candidate in
  let* ifstate := nwi_state_add_ifstate (cd_if_name candidate) af (nwi_flags af e) (cd_rank candidate)
                    (Some (ci_addr i)) (Some (ci_vpn_server_addr i)) (ci_reachability_flags i) in
  match ifstate, ci_signature i with
  | Some p, Some hash => nwi_ifstate_set_signature p hash
  | _, _ => ret tt
  end.

(** ** IPMonitorProcessChanges *)

Record nwi_change := MkChange {
  ch_n_services : nat;
  ch_global_changed : bool;          (* global_ipv4_changed || global_ipv6_changed *)
  ch_dnsinfo_changed : bool;
  ch_reachability_changed : bool;
  ch_other_changed : bool;           (* DNS, proxies, SMB or NAT64 *)
  ch_entries : family → list nwi_entry;
  ch_reach_flags : Z * Z;            (* GetReachabilityFlagsFromTransientServices *)
  ch_now : Z;                        (* mach_absolute_time *)
}.

(** Both elections and [nwi_state_finalize]; nothing is added to no state. *)
Definition elect_into (S_nwi_state : option nwi_state) (entries : family → list nwi_entry)
    : option (option nwi_state) :=
  match S_nwi_state with
  | None => nwi_state_finalize None
  | Some s =>
      let s := nwi_state_clear (nwi_state_clear s AF_INET) AF_INET6 in
      match (for_each (entries AF_INET) (add_to_nwi_state AF_INET);;
             for_each (entries AF_INET6) (add_to_nwi_state AF_INET6)) s with
      | Some (_, s) => nwi_state_finalize (Some s)
      | None => None
      end
  end.

(** The generation, the reachability flags, the generations of the interfaces. *)
Definition stamp (c : nwi_change) (old_nwi_state changes_state S_nwi_state : option nwi_state)
    : option (option nwi_state) :=
  match S_nwi_state with
  | None => Some None
  | Some s =>
      let s := with_generation_count (ch_now c) s in
      let s := if ch_global_changed c || ch_reachability_changed c
               then _nwi_state_set_reachability_flags (ch_reach_flags c).1 (ch_reach_flags c).2 s else s in
      match _nwi_state_update_interface_generations old_nwi_state changes_state s with
      | Some (_, s) => Some (Some s)
      | None => None
      end
  end.

(** The state before and after, and what changed. *)
Definition process_nwi (S_nwi_state : option nwi_state) (c : nwi_change)
    : option (option nwi_state * option nwi_state * option nwi_state) :=
  let old_nwi_state := nwi_state_make_copy S_nwi_state in
  match nwi_state_new S_nwi_state (ch_n_services c) with
  | None => None
  | Some state =>
      match (if ch_global_changed c || ch_dnsinfo_changed c then elect_into state (ch_entries c)
             else Some state) with
      | None => None
      | Some state =>
          match nwi_state_diff old_nwi_state state with
          | None => None
          | Some changes_state =>
              match (if ch_global_changed c || ch_dnsinfo_changed c || ch_reachability_changed c
                     then stamp c old_nwi_state changes_state state else Some state) with
              | None => None
              | Some state => Some (old_nwi_state, state, changes_state)
              end
          end
      end
  end.

(** ** Publishing *)

(** The digest of the memory of a state. *)
Variable sha1 : nwi_state → list byte.

Definition _nwi_state_compute_sha1_hash (state : option nwi_state) : list byte :=
  match state with
  | None => replicate CC_SHA1_DIGEST_LENGTH x00
  | Some s => (* zero out the generation count before computing hash *)
      sha1 (with_generation_count 0 s)
  end.

(** Whether the state is published, and the signature of the last one that was. *)
Definition update_nwi (signature_last : list byte) (state : option nwi_state) : bool * list byte :=
  let signature := _nwi_state_compute_sha1_hash state in
  if bool_decide (signature = signature_last) then (false, signature_last) else (true, signature).

(** ** process_nwi_changes *)

Context `{!Network}.
Variable S_if_nameindex_cache : option (list (string * Z)).

(** The ioctls: the indices of the interfaces in order, and the signature of an
    interface, empty to clear it. *)
Inductive nwi_ioctl :=
| SIOCSIFORDER (interface_order : list Z)
| SIOCSIFNETSIGNATURE (ifname : string) (af : family) (signature : list byte).

(** The name of the interface at [i] of the list. *)
Definition if_list_name (s : nwi_state) (i : nat) : option string :=
  match nwi_if_list s !! i with
  | Some scan => ifs_ifname <$> nwi_ifstate_list s !! scan
  | None => None
  end.

Fixpoint order_differs (old_state new_state : nwi_state) (n i : nat) : option bool :=
  match n with
  | O => Some false
  | S n =>
      match if_list_name old_state i, if_list_name new_state i with
      | Some old_name, Some new_name =>
          if String.eqb old_name new_name then order_differs old_state new_state n (S i) else Some true
      | _, _ => None
      end
  end.
Definition interface_order_changed (old_state new_state : option nwi_state) : option bool :=
  match old_state, new_state with
  | None, None => Some false
  | Some old_state, Some new_state =>
      if negb (nwi_if_list_count old_state =? nwi_if_list_count new_state)%nat then Some true
      else order_differs old_state new_state (nwi_if_list_count new_state) 0
  | _, _ => Some true
  end.

Fixpoint interface_order (s : nwi_state) (n i : nat) : option (list Z) :=
  match n with
  | O => Some []
  | S n =>
      match if_list_name s i, interface_order s n (S i) with
      | Some ifname, Some l => Some (my_if_nametoindex S_if_nameindex_cache ifname :: l)
      | _, _ => None
      end
  end.
(** [state] is not checked for NULL. *)
Definition update_interface_order (state : option nwi_state) : option (list nwi_ioctl) :=
  match state with
  | None => None
  | Some s => (λ l, [SIOCSIFORDER l]) <$> interface_order s (nwi_if_list_count s) 0
  end.

Definition process_ifstate_difference (af : family) (ifstate : nwi_ifstate) : list nwi_ioctl :=
  match nwi_ifstate_get_difference ifstate with
  | knwi_ifstate_difference_changed =>
      (* set signature for this interface *)
      [SIOCSIFNETSIGNATURE (ifs_ifname ifstate) af
         (if has (ifs_flags ifstate) NWI_IFSTATE_FLAGS_HAS_SIGNATURE then ifs_signature ifstate else [])]
  | knwi_ifstate_difference_removed =>
      (* remove signature for this interface *)
      [SIOCSIFNETSIGNATURE (ifs_ifname ifstate) af []]
  | knwi_ifstate_difference_none => []
  end.
Fixpoint state_differences (s : nwi_state) (af : family) (n p : nat) : option (list nwi_ioctl) :=
  match n with
  | O => Some []
  | S n =>
      match nwi_ifstate_list s !! p, state_differences s af n (S p) with
      | Some scan, Some l => Some (process_ifstate_difference af scan ++ l)
      | _, _ => None
      end
  end.
Definition process_state_differences (s : nwi_state) (af : family) : option (list nwi_ioctl) :=
  state_differences s af (nwi_state_get_ifstate_count s af) (nwi_state_ifstate_list s af).

Definition process_nwi_changes (changes_state new_state old_state : option nwi_state)
    : option (list nwi_ioctl) :=
  match changes_state with
  | None => Some []
  | Some changes =>
      match interface_order_changed new_state old_state with
      | None => None
      | Some changed =>
          match (if changed then update_interface_order new_state else Some []),
                process_state_differences changes AF_INET, process_state_differences changes AF_INET6 with
          | Some order, Some l4, Some l6 => Some (order ++ l4 ++ l6)
          | _, _, _ => None
          end
      end
  end.

(** What of a pass concerns the network information: the state, the signature of the
    state that was published last, and the calls to the kernel. *)
Definition monitor_step (st : option nwi_state * list byte) (c : nwi_change)
    : option ((option nwi_state * list byte) * list nwi_ioctl) :=
  match process_nwi st.1 c with
  | None => None
  | Some (old_nwi_state, state, changes_state) =>
      let '(net_changed, signature_last) :=
        if ch_global_changed c || ch_dnsinfo_changed c || ch_reachability_changed c
        then update_nwi st.2 state else (false, st.2) in
      match (if net_changed || ch_other_changed c
             then process_nwi_changes changes_state state old_nwi_state else Some []) with
      | Some calls => Some ((state, signature_last), calls)
      | None => None
      end
  end.
Fixpoint monitor (st : option nwi_state * list byte) (cs : list nwi_change)
    : option ((option nwi_state * list byte) * list (list nwi_ioctl)) :=
  match cs with
  | [] => Some (st, [])
  | c :: cs =>
      match monitor_step st c with
      | None => None
      | Some (st, calls) =>
          match monitor st cs with
          | Some (st, l) => Some (st, calls :: l)
          | None => None
          end
      end
  end.
End round.
