(* ===== verification/NwiRep.v ===== *)
(** * The network information state: what its memory represents

    Two lists of ifstates, one for each address family, lie in the array of a state
    ([rep]). The accesses through pointers are the operations on these lists. *)

From stdpp Require Import functions.
From S2P Require Import Prelude RouteTypes RouteDict NwiState.

Local Open Scope nat_scope.

(** ** Names *)

(** The first place of a name. *)
Fixpoint pos (name : string) (ns : list string) : option nat :=
  match ns with
  | [] => None
  | n :: ns => if String.eqb name n then Some 0 else S <$> pos name ns
  end.

Lemma pos_Some name ns i : pos name ns = Some i → ns !! i = Some name.
Proof.
  revert i. induction ns as [|n ns IH]; intros i; cbn; [done|].
  destruct (String.eqb_spec name n) as [->|]; [by intros [= <-]|].
  destruct (pos name ns) as [j|]; [|done]. cbn. intros [= <-]. by apply IH.
Qed.

Lemma pos_lt name ns i : pos name ns = Some i → i < length ns.
Proof. intros ?%pos_Some. by eapply lookup_lt_Some. Qed.

Lemma pos_None name ns : pos name ns = None ↔ name ∉ ns.
Proof.
  induction ns as [|n ns IH]; cbn; [set_solver|]. rewrite not_elem_of_cons, <-IH.
  destruct (String.eqb_spec name n) as [->|]; [naive_solver|].
  destruct (pos name ns); naive_solver.
Qed.

Lemma pos_unique name ns i : NoDup ns → ns !! i = Some name → pos name ns = Some i.
Proof.
  intros Hn Hi. destruct (pos name ns) as [j|] eqn:E.
  - apply pos_Some in E. f_equal. by eapply NoDup_lookup.
  - apply pos_None in E. destruct E. by eapply list_elem_of_lookup_2.
Qed.

Lemma pos_app_r name ns ns' : name ∉ ns → pos name (ns ++ ns') = (Nat.add (length ns)) <$> pos name ns'.
Proof.
  induction ns as [|n ns IH]; cbn; [by destruct (pos name ns')|].
  intros [Hn Hns]%not_elem_of_cons. rewrite (proj2 (String.eqb_neq name n)), IH by done.
  by destruct (pos name ns').
Qed.

Lemma pos_app_l name ns ns' i : pos name ns = Some i → pos name (ns ++ ns') = Some i.
Proof.
  revert i. induction ns as [|n ns IH]; intros i; cbn; [done|].
  destruct (String.eqb name n); [done|].
  destruct (pos name ns) as [j|]; [|done]. rewrite (IH j) by done. done.
Qed.

Definition names (l : list nwi_ifstate) : list string := ifs_ifname <$> l.
Definition with_name (name : string) (l : list nwi_ifstate) : option nwi_ifstate :=
  pos name (names l) ≫= (l !!.).

Lemma with_name_pos name l i : pos name (names l) = Some i →
  ∃ x, l !! i = Some x ∧ with_name name l = Some x ∧ ifs_ifname x = name.
Proof.
  intros E. pose proof (pos_Some _ _ _ E) as (x & Hx & Hi)%list_lookup_fmap_Some_1.
  exists x. unfold with_name. rewrite E. by cbn.
Qed.

Lemma with_name_Some name l x : with_name name l = Some x → x ∈ l ∧ ifs_ifname x = name.
Proof.
  unfold with_name. destruct (pos name (names l)) as [i|] eqn:E; cbn; [|done].
  intros Hx. apply pos_Some in E as (y & Hy & Hi)%list_lookup_fmap_Some_1. simplify_eq.
  split; [by eapply list_elem_of_lookup_2|done].
Qed.

Lemma with_name_None name l : with_name name l = None ↔ name ∉ names l.
Proof.
  rewrite <-pos_None. unfold with_name. destruct (pos name (names l)) as [i|] eqn:E; cbn; [|done].
  apply pos_lt in E. unfold names in E. rewrite length_fmap in E.
  split; [|done]. rewrite lookup_ge_None. lia.
Qed.

Lemma with_name_unique l x : NoDup (names l) → x ∈ l → with_name (ifs_ifname x) l = Some x.
Proof.
  intros Hn [i Hi]%list_elem_of_lookup_1. unfold with_name.
  rewrite (pos_unique _ _ i Hn); [done|]. unfold names. by rewrite list_lookup_fmap, Hi.
Qed.

Lemma with_name_app_l name l l' x : with_name name l = Some x → with_name name (l ++ l') = Some x.
Proof.
  unfold with_name, names. rewrite fmap_app. destruct (pos name _) as [i|] eqn:E; cbn; [|done].
  intros Hx. rewrite (pos_app_l _ _ _ _ E). cbn. by apply lookup_app_l_Some.
Qed.

Lemma with_name_app_r name l l' : name ∉ names l → with_name name (l ++ l') = with_name name l'.
Proof.
  intros Hn. unfold with_name, names in *. rewrite fmap_app, pos_app_r, length_fmap by done.
  destruct (pos name (ifs_ifname <$> l')) as [i|]; cbn; [|done].
  by rewrite lookup_app_r, Nat.add_comm, Nat.add_sub by lia.
Qed.

(** ** Representation *)

Notation view := (family → list nwi_ifstate).
Implicit Types (v : view) (s : nwi_state) (af : family).

(** Where a family begins when there is room for [m]. *)
Definition start (m : nat) af : nat := match af with AF_INET => 0 | AF_INET6 => m end.

Record rep s v : Prop := {
  rep_slots : length (nwi_ifstate_list s) = 2 * nwi_max_if_count s;
  rep_if_list : length (nwi_if_list s) = nwi_max_if_count s;
  rep_count af : nwi_state_get_ifstate_count s af = length (v af);
  rep_room af : length (v af) ≤ nwi_max_if_count s;
  rep_at af i x : v af !! i = Some x →
    nwi_ifstate_list s !! (start (nwi_max_if_count s) af + i) = Some x;
}.

Lemma start_list s af : nwi_state_ifstate_list s af = start (nwi_max_if_count s) af.
Proof. by destruct af. Qed.

Lemma start_le m af : start m af ≤ m.
Proof. destruct af; cbn; lia. Qed.

Lemma start_disjoint m af i af' i' : i < m → i' < m →
  start m af + i = start m af' + i' → af = af' ∧ i = i'.
Proof. destruct af, af'; cbn; intros; split; try done; lia. Qed.

Section rep.
Context {s : nwi_state} {v : view} (R : rep s v).

Lemma rep_lt af i x : v af !! i = Some x → i < nwi_max_if_count s.
Proof. intros ?%lookup_lt_Some. pose proof (rep_room _ _ R af). lia. Qed.

Lemma rep_with_index af i :
  nwi_state_get_ifstate_with_index s af i =
  if decide (i < length (v af)) then Some (start (nwi_max_if_count s) af + i) else None.
Proof.
  unfold nwi_state_get_ifstate_with_index. rewrite (rep_count _ _ R af).
  destruct (Nat.leb_spec (length (v af)) i); case_decide; try lia; [done|].
  destruct af; cbn; f_equal; lia.
Qed.

Lemma rep_find_name af name n i : i + n = length (v af) →
  find_name s af name n i =
  Some ((λ j, start (nwi_max_if_count s) af + (i + j)) <$> pos name (names (drop i (v af)))).
Proof.
  revert i. induction n as [|n IH]; intros i Hi; cbn.
  { by rewrite drop_ge by lia. }
  rewrite rep_with_index, decide_True by lia.
  destruct (lookup_lt_is_Some_2 (v af) i) as [x Hx]; [lia|].
  rewrite (rep_at _ _ R _ _ _ Hx), (drop_S _ _ _ Hx). cbn.
  destruct (String.eqb name (ifs_ifname x)); [cbn; do 2 f_equal; lia|].
  rewrite IH by lia. fold (names (drop (S i) (v af))).
  destruct (pos name _) as [j|]; [|done]. cbn. do 2 f_equal. lia.
Qed.

Lemma rep_get_with_name af name :
  nwi_state_get_ifstate_with_name (Some s) af name =
  Some (Nat.add (start (nwi_max_if_count s) af) <$> pos name (names (v af))).
Proof. cbn. by rewrite rep_find_name by (by rewrite (rep_count _ _ R)). Qed.

Lemma rep_ifstate_with_name af name :
  ifstate_with_name (Some s) af name = Some (with_name name (v af)).
Proof.
  unfold ifstate_with_name. rewrite rep_get_with_name. unfold with_name.
  destruct (pos name (names (v af))) as [i|] eqn:E; [|done]. cbn [fmap option_fmap option_map].
  destruct (with_name_pos _ _ _ E) as (x & Hx & _ & _).
  cbn [mbind option_bind]. by rewrite (rep_at _ _ R _ _ _ Hx), Hx.
Qed.

Lemma rep_ifstate_at af i x : v af !! i = Some x →
  ifstate_at (start (nwi_max_if_count s) af + i) s = Some (x, s).
Proof. intros Hx. unfold ifstate_at, bind, get. by rewrite (rep_at _ _ R _ _ _ Hx). Qed.

Lemma rep_on_ifstate af i x f : v af !! i = Some x →
  let s' := with_ifstates (<[start (nwi_max_if_count s) af + i := f x]> (nwi_ifstate_list s)) s in
  on_ifstate (start (nwi_max_if_count s) af + i) f s = Some (tt, s') ∧
  rep s' (alter (alter f i) af v).
Proof.
  intros Hx s'. split.
  { unfold on_ifstate. by rewrite (bind_eq _ _ _ _ _ (rep_ifstate_at _ _ _ Hx)). }
  destruct R as [Hs Hl Hc Hr Ha]. pose proof (rep_lt _ _ _ Hx).
  assert (∀ af', length (alter (alter f i) af v af') = length (v af')) as Hlen.
  { intros af'. destruct (decide (af = af')) as [<-|].
    - by rewrite fn_lookup_alter, length_alter.
    - by rewrite fn_lookup_alter_ne. }
  split; cbn; try done.
  - by rewrite length_insert.
  - intros af'. rewrite Hlen, <-Hc. by destruct af'.
  - intros af'. by rewrite Hlen.
  - intros af' i' y Hy. destruct (decide (af = af')) as [<-|].
    + rewrite fn_lookup_alter in Hy. destruct (decide (i = i')) as [<-|].
      * rewrite list_lookup_alter_eq, Hx in Hy. injection Hy as <-.
        apply list_lookup_insert_eq. eapply lookup_lt_Some, Ha, Hx.
      * rewrite list_lookup_alter_ne in Hy by done. rewrite list_lookup_insert_ne by lia. by apply Ha.
    + rewrite fn_lookup_alter_ne in Hy by done. rewrite list_lookup_insert_ne; [by apply Ha|].
      intros E. destruct (start_disjoint _ _ _ _ _ (rep_lt _ _ _ Hx) (rep_lt _ _ _ Hy) E). done.
Qed.

Lemma rep_last af : nwi_state_get_last_ifstate s af = start (nwi_max_if_count s) af + length (v af).
Proof. rewrite <-(rep_count _ _ R af). by destruct af. Qed.

(** Writing behind the last ifstate and counting it. *)
Lemma rep_append af x : length (v af) < nwi_max_if_count s →
  let s' := with_ifstates
              (<[start (nwi_max_if_count s) af + length (v af) := x]> (nwi_ifstate_list s)) s in
  on_ifstate (start (nwi_max_if_count s) af + length (v af)) (λ _, x) s = Some (tt, s') ∧
  rep (with_count af (S (length (v af))) s') (alter (λ l, l ++ [x]) af v).
Proof.
  intros Hroom s'. destruct R as [Hs Hl Hc Hr Ha]. pose proof (start_le (nwi_max_if_count s) af).
  split.
  { unfold on_ifstate, ifstate_at, bind, get, deref.
    destruct (lookup_lt_is_Some_2 (nwi_ifstate_list s) (start (nwi_max_if_count s) af + length (v af)))
      as [y ->]; [lia|done]. }
  split; cbn; try done.
  - by rewrite length_insert.
  - intros af'. destruct (decide (af = af')) as [<-|].
    + rewrite fn_lookup_alter, length_app, Nat.add_comm. by destruct af.
    + rewrite fn_lookup_alter_ne by done. rewrite <-(Hc af'). destruct af, af'; cbn; try congruence.
  - intros af'. destruct (decide (af = af')) as [<-|].
    + rewrite fn_lookup_alter, length_app. cbn. lia.
    + by rewrite fn_lookup_alter_ne.
  - intros af' i' y Hy. destruct (decide (af = af')) as [<-|].
    + rewrite fn_lookup_alter in Hy. apply lookup_app_Some in Hy as [Hy|[Hi Hy]].
      * rewrite list_lookup_insert_ne; [by apply Ha|]. apply lookup_lt_Some in Hy. lia.
      * apply list_lookup_singleton_Some in Hy as [Hz <-]. replace i' with (length (v af)) by lia.
        rewrite list_lookup_insert_eq; [done|lia].
    + rewrite fn_lookup_alter_ne in Hy by done. rewrite list_lookup_insert_ne; [by apply Ha|].
      intros E. pose proof (Hr af'). apply lookup_lt_Some in Hy as Hlt.
      destruct (start_disjoint (nwi_max_if_count s) af (length (v af)) af' i'); [lia..|done].
Qed.

Lemma rep_clear af : rep (nwi_state_clear s af) (<[af := []]> v).
Proof.
  destruct R as [Hs Hl Hc Hr Ha]. split; cbn; try done.
  - intros af'. destruct (decide (af = af')) as [<-|].
    + rewrite fn_lookup_insert. by destruct af.
    + rewrite fn_lookup_insert_ne by done. rewrite <-Hc. by destruct af, af'.
  - intros af'. destruct (decide (af = af')) as [<-|].
    + rewrite fn_lookup_insert. cbn. lia.
    + by rewrite fn_lookup_insert_ne.
  - intros af' i y. destruct (decide (af = af')) as [<-|].
    + by rewrite fn_lookup_insert.
    + rewrite fn_lookup_insert_ne by done. apply Ha.
Qed.
End rep.

Lemma rep_ext s v v' : (∀ af, v' af = v af) → rep s v → rep s v'.
Proof.
  intros E [Hs Hl Hc Hr Ha]. split; try done.
  - intros. by rewrite E.
  - intros. by rewrite E.
  - intros af i x. rewrite E. apply Ha.
Qed.

(** The represented lists are determined by the state. *)
Lemma rep_unique s v v' af : rep s v → rep s v' → v' af = v af.
Proof.
  intros R R'. apply list_eq_same_length with (length (v af)); [done| |].
  - by rewrite <-(rep_count _ _ R), <-(rep_count _ _ R').
  - intros i x y Hi Hx Hy. apply (rep_at _ _ R') in Hx. apply (rep_at _ _ R) in Hy. congruence.
Qed.

Lemma rep_zero m : rep (zero_state m) (λ _, []).
Proof.
  split; cbn; try done.
  - by rewrite length_replicate.
  - by rewrite length_replicate.
  - by destruct af.
  - lia.
Qed.
