(* ===== verification/NwiInv.v ===== *)
(** * The network information state: its invariant

    What holds of a state between the operations ([nwi_ok]), and what adding an
    interface, growing and clearing do to the two lists. Of an ifstate [core] is what
    does not depend on its neighbours. *)

From stdpp Require Import functions.
From S2P Require Import Prelude RouteTypes RouteDict NwiState NwiRep.

Local Open Scope nat_scope.
Implicit Types (v : view) (s : nwi_state) (af : family) (x : nwi_ifstate).

(** ** Flags *)

(** The bit of NWI_IFSTATE_FLAGS_LAST_ITEM. *)
Definition is_last x : bool := Z.testbit (ifs_flags x) 12.
Definition clear_last x : nwi_ifstate :=
  with_ifs_flags (Z.ldiff (ifs_flags x) NWI_IFSTATE_FLAGS_LAST_ITEM) x.
Definition core x : nwi_ifstate := with_alias 0 (clear_last x).

Lemma is_last_clear x : is_last (clear_last x) = false.
Proof. unfold is_last, clear_last, with_ifs_flags. cbn [ifs_flags]. by rewrite Z.ldiff_spec, andb_false_r. Qed.

Lemma ldiff_lor a b : Z.ldiff (Z.lor a b) b = Z.ldiff a b.
Proof. apply Z.bits_inj'. intros n _. rewrite !Z.ldiff_spec, Z.lor_spec. by do 2 destruct (Z.testbit _ n). Qed.

Lemma ldiff_comm a b c : Z.ldiff (Z.ldiff a b) c = Z.ldiff (Z.ldiff a c) b.
Proof.
  apply Z.bits_inj'. intros n _. rewrite !Z.ldiff_spec.
  by destruct (Z.testbit a n), (Z.testbit b n), (Z.testbit c n).
Qed.

Lemma ldiff_lor_disjoint a b c : Z.land b c = 0%Z → Z.ldiff (Z.lor a b) c = Z.lor (Z.ldiff a c) b.
Proof.
  intros D. apply Z.bits_inj'. intros n _.
  assert (Z.testbit b n && Z.testbit c n = false) as Hn by by rewrite <-Z.land_spec, D, Z.bits_0.
  rewrite Z.ldiff_spec, !Z.lor_spec, Z.ldiff_spec.
  by destruct (Z.testbit a n), (Z.testbit b n), (Z.testbit c n).
Qed.

Lemma names_fmap f l : (∀ x, ifs_ifname (f x) = ifs_ifname x) → names (f <$> l) = names l.
Proof. intros E. unfold names. rewrite <-list_fmap_compose. apply list_fmap_ext. intros; apply E. Qed.

(** ** The invariant *)

(** The offset to the ifstate of the same interface in the other family. *)
Definition alias_offset (m : nat) v af (i : nat) (name : string) : Z :=
  match pos name (names (v (nwi_other_af af))) with
  | Some j => Z.of_nat (start m (nwi_other_af af) + j) - Z.of_nat (start m af + i)
  | None => 0
  end%Z.

Record item_ok (m : nat) v af (i : nat) x : Prop := {
  item_af : ifs_af x = Some af;
  item_alias : ifs_af_alias_offset x = alias_offset m v af i (ifs_ifname x);
  item_last : is_last x = bool_decide (S i = length (v af));
}.

Record nwi_ok s v : Prop := {
  ok_rep : rep s v;
  ok_max : (Z.of_nat (nwi_max_if_count s) < 2 ^ 30)%Z;
  ok_names af : NoDup (names (v af));
  ok_item af i x : v af !! i = Some x → item_ok (nwi_max_if_count s) v af i x;
}.

(** What the operations on the lists leave alone. *)
Definition rest s := (nwi_max_if_count s, nwi_if_list_count s, nwi_if_list s,
                      nwi_generation_count s, nwi_reach_flags_v4 s, nwi_reach_flags_v6 s).

Lemma rest_max s s' : rest s' = rest s → nwi_max_if_count s' = nwi_max_if_count s.
Proof. by intros [=]. Qed.

Lemma family_cases (P : family → Prop) af : P af → P (nwi_other_af af) → ∀ af', P af'.
Proof. by destruct af; intros ?? []. Qed.
Lemma other_ne af : af ≠ nwi_other_af af.
Proof. by destruct af. Qed.
Lemma other_other af : nwi_other_af (nwi_other_af af) = af.
Proof. by destruct af. Qed.

(** The invariant depends on the lists through names and what the items say. *)
Lemma ok_change s v s' v' :
  nwi_ok s v → rep s' v' → rest s' = rest s → (∀ af, names (v' af) = names (v af)) →
  (∀ af i x', v' af !! i = Some x' → ∃ x, v af !! i = Some x ∧ ifs_af x' = ifs_af x ∧
     ifs_af_alias_offset x' = ifs_af_alias_offset x ∧ is_last x' = is_last x) →
  nwi_ok s' v'.
Proof.
  intros [R Hm Hn Hi] R' Hrest Hnames Hitems. split; [done|by rewrite (rest_max _ _ Hrest)|..].
  - intros af. by rewrite Hnames.
  - intros af i x' Hx'. destruct (Hitems af i x' Hx') as (x & Hx & Haf & Hal & Hla).
    destruct (Hi af i x Hx) as [Iaf Ial Ila]. rewrite (rest_max _ _ Hrest).
    assert (∀ af, length (v' af) = length (v af)) as Hlen.
    { intros af'. specialize (Hnames af'). apply (f_equal length) in Hnames.
      unfold names in Hnames. by rewrite !length_fmap in Hnames. }
    assert (ifs_ifname x' = ifs_ifname x) as Hname.
    { pose proof (f_equal (.!! i) (Hnames af)) as E. unfold names in E.
      rewrite !list_lookup_fmap, Hx, Hx' in E. cbn in E. congruence. }
    split; [congruence| |].
    + rewrite Hal, Ial, Hname. unfold alias_offset. by rewrite Hnames.
    + by rewrite Hla, Ila, Hlen.
Qed.

Section ok.
Context {s : nwi_state} {v : view} (Hok : nwi_ok s v).
Local Notation m := (nwi_max_if_count s).
Local Notation R := (ok_rep _ _ Hok).

Lemma ok_pos af i x : v af !! i = Some x → pos (ifs_ifname x) (names (v af)) = Some i.
Proof.
  intros Hx. apply pos_unique; [apply (ok_names _ _ Hok)|]. unfold names. by rewrite list_lookup_fmap, Hx.
Qed.

(** An assignment to an ifstate that keeps its name, its place and its marks. *)
Lemma ok_on_ifstate af i x f : v af !! i = Some x →
  ifs_ifname (f x) = ifs_ifname x → ifs_af (f x) = ifs_af x →
  ifs_af_alias_offset (f x) = ifs_af_alias_offset x → is_last (f x) = is_last x →
  ∃ s', on_ifstate (start m af + i) f s = Some (tt, s') ∧ rest s' = rest s ∧
        nwi_ok s' (alter (alter f i) af v).
Proof.
  intros Hx Hname Haf Hal Hla. destruct (rep_on_ifstate R af i x f Hx) as [E R'].
  eexists. split; [exact E|]. split; [done|]. eapply ok_change; [done|done|done|..].
  - intros af'. destruct (decide (af = af')) as [<-|]; [|by rewrite fn_lookup_alter_ne].
    rewrite fn_lookup_alter. unfold names. apply list_eq. intros k. rewrite !list_lookup_fmap.
    rewrite list_lookup_alter. case_decide; [subst; rewrite Hx; cbn; congruence|done].
  - intros af' k x'. destruct (decide (af = af')) as [<-|]; [|rewrite fn_lookup_alter_ne by done; eauto].
    rewrite fn_lookup_alter, list_lookup_alter. case_decide as D; [|eauto]. subst k.
    rewrite Hx. intros [= <-]. eauto.
Qed.

End ok.

(** ** Adding *)

Lemma alias_fits s v af i j : rep s v → (Z.of_nat (nwi_max_if_count s) < 2 ^ 30)%Z →
  i < length (v af) → j < length (v (nwi_other_af af)) →
  (- 2 ^ 31 < Z.of_nat (start (nwi_max_if_count s) (nwi_other_af af) + j) -
              Z.of_nat (start (nwi_max_if_count s) af + i) < 2 ^ 31)%Z.
Proof.
  intros R Hm Hi Hj. pose proof (rep_room _ _ R af). pose proof (rep_room _ _ R (nwi_other_af af)).
  pose proof (start_le (nwi_max_if_count s) af).
  pose proof (start_le (nwi_max_if_count s) (nwi_other_af af)). lia.
Qed.

(** The ifstate at [i] and the one of its interface in the other family are linked. *)
Definition linked (m : nat) v af (i : nat) (name : string) (v' : view) : Prop :=
  let d := alias_offset m v af i name in
  match pos name (names (v (nwi_other_af af))) with
  | Some j => v' af = alter (with_alias d) i (v af) ∧
              v' (nwi_other_af af) = alter (with_alias (- d)) j (v (nwi_other_af af))
  | None => v' af = v af ∧ v' (nwi_other_af af) = v (nwi_other_af af)
  end.

Lemma rep_add_alias s v af i x : rep s v → (Z.of_nat (nwi_max_if_count s) < 2 ^ 30)%Z → v af !! i = Some x → ifs_af x = Some af →
  ∃ s' v', nwi_state_add_ifstate_alias (start (nwi_max_if_count s) af + i) s = Some (tt, s') ∧
    rep s' v' ∧ rest s' = rest s ∧ linked (nwi_max_if_count s) v af i (ifs_ifname x) v'.
Proof.
  intros R Hm Hx Haf. unfold nwi_state_add_ifstate_alias, linked, alias_offset.
  rewrite (bind_eq _ _ _ _ _ (rep_ifstate_at R _ _ _ Hx)), Haf. cbn [deref].
  rewrite bind_ret, bind_get. rewrite (rep_get_with_name R).
  set (af' := nwi_other_af af) in *.
  destruct (pos (ifs_ifname x) (names (v af'))) as [j|] eqn:E; cbn [fmap option_fmap option_map deref];
    rewrite bind_ret.
  2:{ exists s, v. done. }
  destruct (with_name_pos _ _ _ E) as (y & Hy & _ & _).
  pose proof (alias_fits _ _ _ _ _ R Hm (lookup_lt_Some _ _ _ Hx) (lookup_lt_Some _ _ _ Hy)) as Hfit.
  fold af' in Hfit. set (d := (Z.of_nat (start (nwi_max_if_count s) af' + j) - _)%Z) in *.
  assert (Z.of_nat (start (nwi_max_if_count s) af + i) - Z.of_nat (start (nwi_max_if_count s) af' + j)
          = - d)%Z as -> by lia.
  rewrite !i32_small by lia.
  destruct (rep_on_ifstate R af i x (with_alias d) Hx) as [E1 R1].
  rewrite (bind_eq _ _ _ _ _ E1).
  assert (alter (alter (with_alias d) i) af v af' !! j = Some y) as Hy1
    by (by rewrite fn_lookup_alter_ne by apply other_ne).
  destruct (rep_on_ifstate R1 af' j y (with_alias (- d)) Hy1) as [E2 R2].
  eexists _, _. split; [exact E2|]. split; [exact R2|]. split; [done|]. split.
  - rewrite fn_lookup_alter_ne by (apply not_eq_sym, other_ne). by rewrite fn_lookup_alter.
  - rewrite fn_lookup_alter. by rewrite fn_lookup_alter_ne by apply other_ne.
Qed.

(** "previous ifstate is no longer last" *)
Lemma rep_clear_prev s v af : rep s v →
  ∃ s' v', when (0 <? length (v af))
             (on_ifstate (start (nwi_max_if_count s) af + length (v af) - 1) clear_last) s =
           Some (tt, s') ∧
    rep s' v' ∧ rest s' = rest s ∧ v' af = alter clear_last (length (v af) - 1) (v af) ∧
    v' (nwi_other_af af) = v (nwi_other_af af).
Proof.
  intros R. destruct (Nat.ltb_spec 0 (length (v af))) as [Hpos|Hz]; cbn [when].
  - destruct (lookup_lt_is_Some_2 (v af) (length (v af) - 1)) as [x Hx]; [lia|].
    rewrite <-Nat.add_sub_assoc by lia.
    destruct (rep_on_ifstate R af _ x clear_last Hx) as [E R'].
    eexists _, _. split; [exact E|]. split; [exact R'|]. split; [done|].
    rewrite fn_lookup_alter, fn_lookup_alter_ne by apply other_ne. done.
  - exists s, v. destruct (v af); cbn in *; [done|lia].
Qed.

Lemma core_with_alias d x : core (with_alias d x) = core x.
Proof. done. Qed.
Lemma core_clear_last x : core (clear_last x) = core x.
Proof.
  unfold core, clear_last, with_ifs_flags, with_alias. cbn [ifs_flags ifs_ifname ifs_rank ifs_af ifs_iaddr
    ifs_generation ifs_reach_flags ifs_vpn_server ifs_signature]. f_equal.
  apply Z.bits_inj'. intros n _. rewrite !Z.ldiff_spec. by do 2 destruct (Z.testbit _ n).
Qed.

Lemma core_idem x : core (core x) = core x.
Proof. unfold core at 2. rewrite core_with_alias. apply core_clear_last. Qed.

Lemma str_take_short n name : String.length name ≤ n → str_take n name = name.
Proof.
  unfold str_take. revert n. induction name as [|a name IH]; intros n; cbn; [by destruct n|].
  intros Hn. destruct n as [|n]; [lia|]. by rewrite IH by lia.
Qed.

(** The lists after a new ifstate was appended and linked. *)
Section appended.
Context {s s' : nwi_state} {v v2 v' : view} {af : family} {name : string}.
Local Notation m := (nwi_max_if_count s).
Local Notation af' := (nwi_other_af af).
Local Notation n := (length (v af)).
Context (Hok : nwi_ok s v) (Hnew : name ∉ names (v af)) (Hshort : String.length name ≤ 15).
Context (R' : rep s' v') (Hrest : rest s' = rest s).
Context (E2 : v2 af = alter clear_last (n - 1) (v af) ++ [new_ifstate name af])
        (E2' : v2 af' = v af') (Hlink : linked m v2 af n name v').

Lemma new_ifstate_name : ifs_ifname (new_ifstate name af) = name.
Proof. by apply str_take_short. Qed.

Lemma appended_af :
  v' af = alter clear_last (n - 1) (v af) ++ [with_alias (alias_offset m v af n name) (new_ifstate name af)].
Proof.
  unfold linked in Hlink. unfold alias_offset in *. rewrite E2' in Hlink.
  destruct (pos name (names (v af'))) as [j|].
  - destruct Hlink as [-> _]. rewrite E2.
    by rewrite alter_last by by rewrite length_alter.
  - destruct Hlink as [-> _]. by rewrite E2.
Qed.

Lemma appended_other :
  v' af' = match pos name (names (v af')) with
           | Some j => alter (with_alias (- alias_offset m v af n name)) j (v af')
           | None => v af'
           end.
Proof.
  unfold linked in Hlink. unfold alias_offset in *. rewrite E2' in Hlink.
  destruct (pos name (names (v af'))) as [j|]; by destruct Hlink as [_ ->].
Qed.

Lemma appended_names : names (v' af) = names (v af) ++ [name].
Proof.
  rewrite appended_af. unfold names. rewrite fmap_app, fmap_alter_id by done.
  cbn [fmap list_fmap with_alias ifs_ifname]. f_equal. f_equal. apply new_ifstate_name.
Qed.

Lemma appended_names_other : names (v' af') = names (v af').
Proof.
  rewrite appended_other. destruct (pos _ _); [|done]. unfold names. by apply fmap_alter_id.
Qed.

Lemma appended_item i x : v' af !! i = Some x → item_ok m v' af i x.
Proof.
  assert (∀ k nm, alias_offset m v' af k nm = alias_offset m v af k nm) as Hal
    by (intros; unfold alias_offset; by rewrite appended_names_other).
  assert (length (v' af) = S n) as Hlen
    by (rewrite appended_af, length_app, length_alter; cbn; lia).
  rewrite appended_af at 1. intros [Hx|[Hi Hx]]%lookup_app_Some.
  - assert (i < n) as Hin by (apply lookup_lt_Some in Hx; by rewrite length_alter in Hx).
    rewrite list_lookup_alter in Hx.
    assert (∃ y, v af !! i = Some y ∧ ifs_ifname x = ifs_ifname y ∧ ifs_af x = ifs_af y ∧
              ifs_af_alias_offset x = ifs_af_alias_offset y ∧ is_last x = false)
      as (y & Hy & En & Ea & Eo & El).
    { case_decide as D.
      - subst i. destruct (v af !! (n - 1)) as [y|]; [|done]. injection Hx as <-. exists y.
        by rewrite is_last_clear.
      - exists x. destruct (ok_item _ _ Hok _ _ _ Hx) as [_ _ L]. rewrite L.
        split_and!; try done. apply bool_decide_eq_false. lia. }
    destruct (ok_item _ _ Hok _ _ _ Hy) as [Ia Io _]. split.
    + by rewrite Ea.
    + by rewrite Hal, Eo, Io, En.
    + rewrite El, Hlen. symmetry. apply bool_decide_eq_false. lia.
  - rewrite length_alter in Hi, Hx. apply list_lookup_singleton_Some in Hx as [Hz <-].
    replace i with n by lia. split; [done| |].
    + rewrite Hal. cbn. change (str_take _ name) with (ifs_ifname (new_ifstate name af)).
      by rewrite new_ifstate_name.
    + rewrite Hlen. symmetry. by apply bool_decide_eq_true.
Qed.

Lemma appended_item_other i x : v' af' !! i = Some x → item_ok m v' af' i x.
Proof.
  assert (length (v' af') = length (v af')) as Hlen
    by (pose proof (f_equal length appended_names_other) as E; unfold names in E; by rewrite !length_fmap in E).
  assert (∀ y, v af' !! i = Some y → ifs_ifname y ≠ name →
            alias_offset m v' af' i (ifs_ifname y) = alias_offset m v af' i (ifs_ifname y)) as Hal.
  { intros y _ Hy. unfold alias_offset. rewrite other_other, appended_names.
    destruct (pos (ifs_ifname y) (names (v af))) as [k|] eqn:E.
    - by rewrite (pos_app_l _ _ _ _ E).
    - rewrite pos_app_r by by apply pos_None. cbn. by rewrite (proj2 (String.eqb_neq _ _)). }
  rewrite appended_other at 1. destruct (pos name (names (v af'))) as [j|] eqn:E.
  - rewrite list_lookup_alter. case_decide as D.
    + subst j. destruct (with_name_pos _ _ _ E) as (y & Hy & _ & Hyn).
      rewrite Hy. intros [= <-]. destruct (ok_item _ _ Hok _ _ _ Hy) as [Ia Io Il]. split; [done| |].
      * cbn. rewrite Hyn. unfold alias_offset. rewrite other_other, appended_names, E.
        rewrite pos_app_r by done. cbn. rewrite String.eqb_refl. cbn. rewrite Nat.add_0_r.
        unfold names. rewrite length_fmap. lia.
      * by rewrite Hlen.
    + intros Hx. destruct (ok_item _ _ Hok _ _ _ Hx) as [Ia Io Il].
      assert (ifs_ifname x ≠ name) as Hne.
      { intros Hxn. destruct D. pose proof (ok_pos Hok _ _ _ Hx) as E'. rewrite Hxn, E in E'.
        congruence. }
      split; [done| |by rewrite Hlen]. rewrite Io. symmetry. by apply Hal.
  - intros Hx. destruct (ok_item _ _ Hok _ _ _ Hx) as [Ia Io Il].
    assert (ifs_ifname x ≠ name) as Hne.
    { intros Hxn. pose proof (ok_pos Hok _ _ _ Hx) as E'. by rewrite Hxn, E in E'. }
    split; [done| |by rewrite Hlen]. rewrite Io. symmetry. by apply Hal.
Qed.

Lemma appended_ok : nwi_ok s' v'.
Proof.
  split; [done|rewrite (rest_max _ _ Hrest); apply (ok_max _ _ Hok)|..].
  - apply (family_cases _ af).
    + rewrite appended_names. apply NoDup_app. split; [apply (ok_names _ _ Hok)|].
      split; [|apply NoDup_singleton]. intros nm Hnm. rewrite list_elem_of_singleton. by intros ->.
    + rewrite appended_names_other. apply (ok_names _ _ Hok).
  - rewrite (rest_max _ _ Hrest).
    refine (family_cases (λ af0, ∀ i x, v' af0 !! i = Some x → item_ok m v' af0 i x) af _ _);
      [apply appended_item|apply appended_item_other].
Qed.

Lemma appended_core :
  core <$> v' af = (core <$> v af) ++ [core (new_ifstate name af)] ∧
  core <$> v' af' = core <$> v af'.
Proof.
  rewrite appended_af, appended_other. split.
  - rewrite fmap_app. f_equal. apply fmap_alter_id, core_clear_last.
  - destruct (pos _ _); [|done]. by apply fmap_alter_id.
Qed.
End appended.

(** ** The network information state: what its operations do

    Adding an interface, clearing and growing, each against its effect on the two
    lists of ifstates. *)


(** ** Adding *)

(** The arguments of [nwi_state_add_ifstate]. *)
Record add_args := MkArgs {
  aa_name : string; aa_flags : Z; aa_rank : Z; aa_ifa : option address;
  aa_vpn : option (list byte); aa_reach : Z;
}.
Definition add af (a : add_args) : C nwi_state (option nat) :=
  nwi_state_add_ifstate (aa_name a) af (aa_flags a) (aa_rank a) (aa_ifa a) (aa_vpn a) (aa_reach a).
Definition update af (a : add_args) : nwi_ifstate → nwi_ifstate :=
  update_ifstate af (aa_flags a) (aa_rank a) (aa_ifa a) (aa_vpn a) (aa_reach a).

(** What adding does to a list with room for [m], and where the ifstate is: a better
    or equally ranked entry takes the place of the one that is there. *)
Definition ref_add (m : nat) af (a : add_args) (l : list nwi_ifstate) : option nat * list nwi_ifstate :=
  match pos (aa_name a) (names l) with
  | Some i =>
      match l !! i with
      | Some x => if (ifs_rank x <? aa_rank a)%Z then (None, l) else (Some i, alter (update af a) i l)
      | None => (None, l)
      end
  | None =>
      if length l =? m then (None, l)
      else (Some (length l), l ++ [update af a (core (new_ifstate (aa_name a) af))])
  end.

Lemma update_core af a x : core (update af a x) = update af a (core x).
Proof.
  unfold core, clear_last, update, update_ifstate, with_ifs_flags, with_alias.
  cbn [ifs_flags ifs_ifname ifs_rank ifs_af ifs_iaddr ifs_generation ifs_reach_flags
    ifs_vpn_server ifs_signature ifs_af_alias_offset]. f_equal.
  rewrite ldiff_lor_disjoint; [by rewrite ldiff_comm|].
  unfold NWI_IFSTATE_FLAGS. by rewrite <-Z.land_assoc, Z.land_0_r.
Qed.

Lemma update_last af a x : is_last (update af a x) = is_last x.
Proof.
  unfold is_last, update, update_ifstate, NWI_IFSTATE_FLAGS. cbn [ifs_flags].
  rewrite Z.lor_spec, Z.ldiff_spec, Z.land_spec.
  change (Z.testbit NWI_IFSTATE_FLAGS_MASK 12) with false.
  by rewrite andb_false_r, andb_true_r, orb_false_r.
Qed.

Lemma core_names l : names (core <$> l) = names l.
Proof. by apply names_fmap. Qed.

Lemma fmap_core_alter (f : nwi_ifstate → nwi_ifstate) i (l : list nwi_ifstate) : (∀ x, core (f x) = f (core x)) → core <$> alter f i l = alter f i (core <$> l).
Proof. intros E. apply list_fmap_alter. by apply Forall_forall. Qed.

Lemma add_to_end_ok s v af name :
  nwi_ok s v → name ∉ names (v af) → String.length name ≤ 15 → length (v af) < nwi_max_if_count s →
  ∃ s' v', add_to_end name af s = Some (Some (start (nwi_max_if_count s) af + length (v af)), s') ∧
    nwi_ok s' v' ∧ rest s' = rest s ∧
    core <$> v' af = (core <$> v af) ++ [core (new_ifstate name af)] ∧
    core <$> v' (nwi_other_af af) = core <$> v (nwi_other_af af).
Proof.
  intros Hok Hnew Hshort Hroom. pose proof (ok_rep _ _ Hok) as R.
  unfold add_to_end. rewrite bind_get.
  rewrite (rep_count _ _ R), (rep_last R), (proj2 (Nat.eqb_neq _ _)) by lia.
  destruct (rep_clear_prev s v af R) as (s1 & v1 & E1 & R1 & Hr1 & Hv1 & Hv1').
  fold clear_last. rewrite (bind_eq _ _ _ _ _ E1).
  assert (length (v1 af) = length (v af)) as Hlen by by rewrite Hv1, length_alter.
  rewrite <-(rest_max _ _ Hr1), <-Hlen in *.
  destruct (rep_append R1 af (new_ifstate name af)) as [E2 R2]; [done|].
  rewrite (bind_eq _ _ _ _ _ E2), bind_modify.
  set (s2 := with_count _ _ _) in *. set (v2 := alter _ af v1) in *.
  assert (v2 af = v1 af ++ [new_ifstate name af]) as Hv2
    by (unfold v2; by rewrite fn_lookup_alter).
  destruct (rep_add_alias s2 v2 af (length (v1 af)) (new_ifstate name af) R2) as (s' & v' & E3 & R' & Hr' & L).
  { change (Z.of_nat (nwi_max_if_count s1) < 2 ^ 30)%Z. rewrite (rest_max _ _ Hr1). apply (ok_max _ _ Hok). }
  { rewrite Hv2, lookup_app_r, Nat.sub_diag by lia. done. }
  { done. }
  change (nwi_max_if_count s2) with (nwi_max_if_count s1) in *.
  rewrite (bind_eq _ _ _ _ _ E3). exists s', v'. split; [done|].
  assert (rest s' = rest s) as Hrest by (rewrite Hr', <-Hr1; done).
  assert (ifs_ifname (new_ifstate name af) = name) as Hname by by apply new_ifstate_name.
  assert (v2 (nwi_other_af af) = v (nwi_other_af af)) as Hv2'
    by (rewrite <-Hv1'; unfold v2; by rewrite fn_lookup_alter_ne by apply other_ne).
  rewrite Hname, (rest_max _ _ Hr1), Hlen in L. rewrite Hv1, Hlen in Hv2.
  split; [eapply (appended_ok (v2 := v2)); eauto|]. split; [done|].
  eapply (appended_core (v2 := v2)); eauto.
Qed.

Lemma add_ok s v af a : nwi_ok s v → String.length (aa_name a) ≤ 15 →
  let r := ref_add (nwi_max_if_count s) af a (core <$> v af) in
  ∃ s' v', add af a s = Some (Nat.add (start (nwi_max_if_count s) af) <$> r.1, s') ∧
    nwi_ok s' v' ∧ rest s' = rest s ∧ core <$> v' af = r.2 ∧
    core <$> v' (nwi_other_af af) = core <$> v (nwi_other_af af).
Proof.
  intros Hok Hshort r. pose proof (ok_rep _ _ Hok) as R. subst r.
  unfold add, nwi_state_add_ifstate, ref_add.
  rewrite bind_get, (rep_get_with_name R), core_names. cbn [deref].
  rewrite bind_ret, length_fmap. fold (update af a).
  destruct (pos (aa_name a) (names (v af))) as [i|] eqn:E.
  - destruct (with_name_pos _ _ _ E) as (x & Hx & _ & _).
    rewrite list_lookup_fmap, Hx. cbn [fmap option_fmap option_map core with_alias clear_last
      with_ifs_flags ifs_rank].
    rewrite (bind_eq _ _ s (if (ifs_rank x <? aa_rank a)%Z then None
               else Some (start (nwi_max_if_count s) af + i)) s)
      by (by rewrite (bind_eq _ _ _ _ _ (rep_ifstate_at R _ _ _ Hx))).
    destruct (ifs_rank x <? aa_rank a)%Z; [by exists s, v|].
    destruct (ok_on_ifstate Hok af i x (update af a) Hx) as (s' & E' & Hr' & Hok');
      [done..|apply update_last|].
    rewrite (bind_eq _ _ _ _ _ E'). eexists _, _. split; [done|]. split; [done|]. split; [done|].
    rewrite fn_lookup_alter, fn_lookup_alter_ne by apply other_ne. split; [|done].
    apply fmap_core_alter, update_core.
  - apply pos_None in E. cbn [fmap option_fmap option_map].
    destruct (Nat.eqb_spec (length (v af)) (nwi_max_if_count s)) as [Hfull|Hroom].
    { exists s, v. split; [|done]. rewrite (bind_eq _ _ s None s); [done|].
      unfold add_to_end. rewrite bind_get, (rep_count _ _ R).
      by rewrite (proj2 (Nat.eqb_eq _ _)). }
    pose proof (rep_room _ _ R af).
    destruct (add_to_end_ok s v af (aa_name a) Hok E Hshort) as (s1 & v1 & E1 & Hok1 & Hr1 & Ha1 & Ho1); [lia|].
    rewrite (bind_eq _ _ _ _ _ E1). rewrite <-(rest_max _ _ Hr1).
    assert (∃ x, v1 af !! length (v af) = Some x) as [x Hx].
    { apply lookup_lt_is_Some_2. apply (f_equal length) in Ha1.
      rewrite length_app, !length_fmap in Ha1. cbn in Ha1. lia. }
    destruct (ok_on_ifstate Hok1 af _ x (update af a) Hx) as (s' & E' & Hr' & Hok');
      [done..|apply update_last|].
    rewrite (bind_eq _ _ _ _ _ E'). eexists _, _. split; [done|]. split; [done|].
    split; [by rewrite Hr'|].
    rewrite fn_lookup_alter, fn_lookup_alter_ne by apply other_ne. split; [|done].
    rewrite fmap_core_alter, Ha1 by apply update_core. apply alter_last. by rewrite length_fmap.
Qed.
