(* ===== verification/NwiList.v ===== *)
(** * The network information state: the list of interfaces

    [nwi_state_set_if_list] merges the ifstates of both families by rank and keeps
    the first of each interface, as long as there is room. *)

From stdpp Require Import sorting functions.
From stdpp Require Import sorting.
From S2P Require Import Prelude RouteTypes RouteDict NwiState NwiRep.

Local Open Scope nat_scope.
Implicit Types (v : view) (s : nwi_state) (af : family) (x : nwi_ifstate) (ns : list string).

(** ** The reference definition *)

Definition rank_le x y : Prop := (ifs_rank x ≤ ifs_rank y)%Z.
#[export] Instance rank_le_dec x y : Decision (rank_le x y).
Proof. unfold rank_le. apply _. Defined.
#[export] Instance rank_le_total : Total rank_le.
Proof. intros x y. unfold rank_le. lia. Qed.
#[export] Instance rank_le_trans : Transitive rank_le.
Proof. intros x y z. unfold rank_le. lia. Qed.

Definition in_iflist x : bool := negb (has (ifs_flags x) NWI_IFSTATE_FLAGS_NOT_IN_IFLIST).
Definition add_name (m : nat) ns x : list string :=
  if in_iflist x && (length ns <? m) && negb (bool_decide (ifs_ifname x ∈ ns))
  then ns ++ [ifs_ifname x] else ns.
Definition merged v : list nwi_ifstate := list_merge rank_le (v AF_INET) (v AF_INET6).
Definition ref_if_list (m : nat) v : list string := foldl (add_name m) [] (merged v).

(** The names of the interfaces in the list. *)
Record listed s v ns : Prop := {
  listed_count : nwi_if_list_count s = length ns;
  listed_room : length ns ≤ nwi_max_if_count s;
  listed_at i n : ns !! i = Some n →
    ∃ af j x, nwi_if_list s !! i = Some (start (nwi_max_if_count s) af + j) ∧ v af !! j = Some x ∧
              ifs_ifname x = n;
}.

Lemma listed_lookup s v ns i n : rep s v → listed s v ns → ns !! i = Some n →
  ∃ k x, nwi_if_list s !! i = Some k ∧ nwi_ifstate_list s !! k = Some x ∧ ifs_ifname x = n.
Proof.
  intros R L Hn. destruct (listed_at _ _ _ L _ _ Hn) as (af & j & x & Hk & Hx & <-).
  eexists _, x. by rewrite (rep_at _ _ R _ _ _ Hx).
Qed.

Lemma rep_with_if_list s v n l : rep s v → length l = nwi_max_if_count s → rep (with_if_list n l s) v.
Proof. intros [Hs Hl Hc Hr Ha] Hlen. by split. Qed.

Lemma listed_in s v ns name n i : rep s v → listed s v ns → i + n = length ns →
  in_if_list s name n i = Some (bool_decide (name ∈ drop i ns)).
Proof.
  intros R L. revert i. induction n as [|n IH]; intros i Hi; cbn.
  { rewrite drop_ge by lia. by rewrite bool_decide_eq_false_2 by apply not_elem_of_nil. }
  destruct (lookup_lt_is_Some_2 ns i) as [nm Hnm]; [lia|].
  destruct (listed_lookup _ _ _ _ _ R L Hnm) as (k & x & -> & -> & ->).
  rewrite (drop_S _ _ _ Hnm). destruct (String.eqb_spec nm name) as [->|Hne].
  { by rewrite bool_decide_eq_true_2 by left. }
  rewrite IH by lia. f_equal. apply bool_decide_ext. rewrite elem_of_cons. naive_solver.
Qed.

Lemma add_to_if_list_ok s v ns af i x : rep s v → listed s v ns → v af !! i = Some x →
  ∃ n l, length l = nwi_max_if_count s ∧
    nwi_state_add_to_if_list (start (nwi_max_if_count s) af + i) s = Some (tt, with_if_list n l s) ∧
    listed (with_if_list n l s) v (add_name (nwi_max_if_count s) ns x).
Proof.
  intros R L Hx. unfold nwi_state_add_to_if_list, add_name, in_iflist.
  assert (s = with_if_list (nwi_if_list_count s) (nwi_if_list s) s) as Hsame by by destruct s.
  assert (∀ b : bool, b = false → ∃ n l, length l = nwi_max_if_count s ∧
    ret tt s = Some (tt, with_if_list n l s) ∧
    listed (with_if_list n l s) v (if b then ns ++ [ifs_ifname x] else ns)) as Hskip.
  { intros b ->. exists (nwi_if_list_count s), (nwi_if_list s). rewrite <-Hsame.
    split; [apply (rep_if_list _ _ R)|done]. }
  rewrite (bind_eq _ _ _ _ _ (rep_ifstate_at R _ _ _ Hx)).
  destruct (has _ _); [by apply Hskip|]. rewrite bind_get, (listed_count _ _ _ L). cbn [negb andb].
  destruct (Nat.leb_spec (nwi_max_if_count s) (length ns)) as [Hfull|Hroom].
  { apply Hskip. by rewrite (proj2 (Nat.ltb_ge _ _)). }
  rewrite (listed_in _ _ _ _ _ 0 R L) by done. cbn [deref]. rewrite bind_ret, drop_0.
  case_bool_decide as Hin; [apply Hskip; by rewrite andb_false_r|].
  rewrite (proj2 (Nat.ltb_lt _ _)) by done. cbn [negb andb].
  destruct (lookup_lt_is_Some_2 (nwi_if_list s) (length ns)) as [k Hk]; [by rewrite (rep_if_list _ _ R)|].
  rewrite Hk. cbn [deref]. rewrite bind_ret.
  eexists _, _. split; [|split; [done|]]; [by rewrite length_insert, (rep_if_list _ _ R)|].
  split; cbn.
  - rewrite length_app. cbn. lia.
  - rewrite length_app. cbn. lia.
  - intros j n [Hj|[Hj Hn]]%lookup_app_Some.
    + rewrite list_lookup_insert_ne by (apply lookup_lt_Some in Hj; lia).
      by apply (listed_at _ _ _ L).
    + apply list_lookup_singleton_Some in Hn as [Hz <-]. replace j with (length ns) by lia.
      rewrite list_lookup_insert_eq by (by eapply lookup_lt_Some).
      by exists af, i, x.
Qed.

Lemma with_index_lookup s v af i : rep s v →
  nwi_state_get_ifstate_with_index s af i =
  (λ _, start (nwi_max_if_count s) af + i) <$> (v af !! i).
Proof.
  intros R. rewrite (rep_with_index R). case_decide as D.
  - by apply lookup_lt_is_Some_2 in D as [x ->].
  - by rewrite lookup_ge_None_2 by lia.
Qed.

(** One ifstate, then [k] for those in [M]. *)
Lemma add_then s v ns af i x (k : C nwi_state unit) M : rep s v → listed s v ns → v af !! i = Some x →
  (∀ s' ns', rep s' v → listed s' v ns' → nwi_max_if_count s' = nwi_max_if_count s →
     ∃ n l, length l = nwi_max_if_count s' ∧ k s' = Some (tt, with_if_list n l s') ∧
       listed (with_if_list n l s') v (foldl (add_name (nwi_max_if_count s')) ns' M)) →
  ∃ n l, length l = nwi_max_if_count s ∧
    (nwi_state_add_to_if_list (start (nwi_max_if_count s) af + i);; k)%c s = Some (tt, with_if_list n l s) ∧
    listed (with_if_list n l s) v (foldl (add_name (nwi_max_if_count s)) ns (x :: M)).
Proof.
  intros R L Hx Hk. destruct (add_to_if_list_ok s v ns af i x R L Hx) as (n & l & Hl & E & L').
  rewrite (bind_eq _ _ _ _ _ E). cbn [foldl].
  destruct (Hk _ _ (rep_with_if_list _ _ n l R Hl) L' eq_refl) as (n' & l' & Hl' & E' & L'').
  exists n', l'. done.
Qed.

Lemma set_if_list_from_ok fuel s v ns i4 i6 : rep s v → listed s v ns →
  (length (v AF_INET) - i4) + (length (v AF_INET6) - i6) ≤ fuel →
  ∃ n l, length l = nwi_max_if_count s ∧
    set_if_list_from fuel i4 i6 s = Some (tt, with_if_list n l s) ∧
    listed (with_if_list n l s) v
      (foldl (add_name (nwi_max_if_count s)) ns
         (list_merge rank_le (drop i4 (v AF_INET)) (drop i6 (v AF_INET6)))).
Proof.
  revert s ns i4 i6. induction fuel as [|fuel IH]; intros s ns i4 i6 R L Hfuel; cbn [set_if_list_from];
    rewrite bind_get, !(with_index_lookup _ _ _ _ R).
  { rewrite !lookup_ge_None_2, !drop_ge by lia. cbn. exists (nwi_if_list_count s), (nwi_if_list s).
    split; [apply (rep_if_list _ _ R)|]. by destruct s. }
  pose proof (λ af i x k M, add_then s v ns af i x k M R L) as Hstep.
  destruct (v AF_INET !! i4) as [x4|] eqn:E4, (v AF_INET6 !! i6) as [x6|] eqn:E6;
    cbn [fmap option_fmap option_map].
  - rewrite !bool_decide_eq_true_2 by done. cbn [negb andb].
    rewrite (bind_eq _ _ s (ifs_rank x4 <=? ifs_rank x6)%Z s).
    2:{ rewrite (bind_eq _ _ _ _ _ (rep_ifstate_at R _ _ _ E4)).
        by rewrite (bind_eq _ _ _ _ _ (rep_ifstate_at R _ _ _ E6)). }
    rewrite (drop_S _ _ _ E4), (drop_S _ _ _ E6), list_merge_cons. unfold rank_le at 1.
    apply lookup_lt_Some in E4 as Hlt4. apply lookup_lt_Some in E6 as Hlt6.
    destruct (Z.leb_spec (ifs_rank x4) (ifs_rank x6)); case_decide; try lia; cbn [deref]; rewrite bind_ret.
    + apply Hstep; [done|]. intros s' ns' R' L' _. rewrite <-(drop_S _ _ _ E6). apply IH; [done..|lia].
    + apply Hstep; [done|]. intros s' ns' R' L' _. rewrite <-(drop_S _ _ _ E4). apply IH; [done..|lia].
  - rewrite (bool_decide_eq_true_2 (is_Some (Some _))), bool_decide_eq_false_2 by (done || by intros []).
    cbn [negb andb deref]. rewrite !bind_ret. rewrite (drop_S _ _ _ E4).
    rewrite (drop_ge (v AF_INET6)), list_merge_nil_r by by apply lookup_ge_None_1.
    apply Hstep; [done|]. intros s' ns' R' L' _. apply lookup_lt_Some in E4 as Hlt4.
    rewrite <-(list_merge_nil_r rank_le (drop (S i4) _)), <-(drop_ge (v AF_INET6) i6) by by apply lookup_ge_None_1.
    apply IH; [done..|lia].
  - rewrite (bool_decide_eq_true_2 (is_Some (Some _))), bool_decide_eq_false_2 by (done || by intros []).
    cbn [negb andb deref]. rewrite !bind_ret. rewrite (drop_S _ _ _ E6).
    rewrite (drop_ge (v AF_INET)), list_merge_nil_l by by apply lookup_ge_None_1.
    apply Hstep; [done|]. intros s' ns' R' L' _. apply lookup_lt_Some in E6 as Hlt6.
    rewrite <-(list_merge_nil_l rank_le (drop (S i6) _)), <-(drop_ge (v AF_INET) i4) by by apply lookup_ge_None_1.
    apply IH; [done..|lia].
  - rewrite !bool_decide_eq_false_2 by by intros []. cbn [negb andb].
    rewrite !drop_ge by by apply lookup_ge_None_1. cbn.
    exists (nwi_if_list_count s), (nwi_if_list s). split; [apply (rep_if_list _ _ R)|]. by destruct s.
Qed.

Lemma set_if_list_ok s v : rep s v →
  ∃ n l, length l = nwi_max_if_count s ∧ nwi_state_set_if_list s = Some (tt, with_if_list n l s) ∧
    listed (with_if_list n l s) v (ref_if_list (nwi_max_if_count s) v).
Proof.
  intros R. unfold nwi_state_set_if_list. rewrite bind_modify, bind_get.
  set (s0 := with_if_list 0 (nwi_if_list s) s).
  assert (rep s0 v) as R0 by (apply rep_with_if_list; [done|apply (rep_if_list _ _ R)]).
  destruct (set_if_list_from_ok (nwi_ipv4_count s0 + nwi_ipv6_count s0) s0 v [] 0 0)
    as (n & l & Hl & E & L); [done|by split; cbn; [..|lia|done]| |].
  { pose proof (rep_count _ _ R AF_INET). pose proof (rep_count _ _ R AF_INET6). cbn in *. lia. }
  exists n, l. split; [done|]. split; [exact E|]. rewrite !drop_0 in L. exact L.
Qed.

(** ** The network information state: the order of the interfaces

    Of lists sorted by rank the list of interfaces names each interface once, in the
    order of the better of its ranks. *)


Lemma add_name_spec m ns x :
  add_name m ns x = ns ∨
  (add_name m ns x = ns ++ [ifs_ifname x] ∧ in_iflist x = true ∧ ifs_ifname x ∉ ns ∧ length ns < m).
Proof.
  unfold add_name. destruct (in_iflist x); [|by left].
  destruct (Nat.ltb_spec (length ns) m); [|by left]. case_bool_decide; [by left|by right].
Qed.

(** What holds of the names collected from a list of ifstates: they are listed in the
    order in which the first ifstates of their interfaces come. *)
Record collected (m : nat) (front : list nwi_ifstate) (ns : list string) : Prop := {
  co_nodup : NoDup ns;
  co_room : length ns ≤ m;
  co_from n : n ∈ ns → ∃ x, x ∈ front ∧ in_iflist x = true ∧ ifs_ifname x = n;
  co_all : length ns < m → ∀ x, x ∈ front → in_iflist x = true → ifs_ifname x ∈ ns;
  co_order i j a b : i < j → ns !! i = Some a → ns !! j = Some b →
    ∃ p x, front !! p = Some x ∧ in_iflist x = true ∧ ifs_ifname x = a ∧
      ∀ q y, front !! q = Some y → in_iflist y = true → ifs_ifname y = b → p < q;
}.

Lemma collected_step m front ns x : collected m front ns → collected m (front ++ [x]) (add_name m ns x).
Proof.
  intros [Cn Cr Cf Ca Co].
  assert (∀ i j a b, i < j → ns !! i = Some a → ns !! j = Some b →
    ∃ p y, (front ++ [x]) !! p = Some y ∧ in_iflist y = true ∧ ifs_ifname y = a ∧
      ∀ q z, (front ++ [x]) !! q = Some z → in_iflist z = true → ifs_ifname z = b → p < q) as Co'.
  { intros i j a b Hij Ha Hb. destruct (Co i j a b Hij Ha Hb) as (p & y & Hy & Hyin & Hyn & Hmin).
    exists p, y. pose proof (lookup_lt_Some _ _ _ Hy). split; [by apply lookup_app_l_Some|]. split; [done|].
    split; [done|]. intros q z [Hz|[Hq _]]%lookup_app_Some Hzin Hzn; [by eapply Hmin|lia]. }
  destruct (add_name_spec m ns x) as [E|(E & Hin & Hnew & Hroom)]; rewrite E; split; try done.
  - intros n Hn. destruct (Cf n Hn) as (y & ? & ?). exists y. rewrite elem_of_app. by auto.
  - intros Hlt y [Hy| ->%list_elem_of_singleton]%elem_of_app Hyin; [by apply Ca|].
    destruct (decide (ifs_ifname x ∈ ns)) as [|Hn]; [done|].
    unfold add_name in E. rewrite Hyin, (proj2 (Nat.ltb_lt _ _) Hlt), bool_decide_eq_false_2 in E by done.
    cbn [andb negb] in E. apply (f_equal length) in E. rewrite length_app in E. cbn in E. lia.
  - apply NoDup_app. split; [done|]. split; [|apply NoDup_singleton].
    intros n Hn. rewrite list_elem_of_singleton. by intros ->.
  - rewrite length_app. cbn. lia.
  - intros n [Hn| ->%list_elem_of_singleton]%elem_of_app.
    + destruct (Cf n Hn) as (y & ? & ?). exists y. rewrite elem_of_app. by auto.
    + exists x. rewrite elem_of_app, list_elem_of_singleton. by auto.
  - intros _ y [Hy| ->%list_elem_of_singleton]%elem_of_app Hyin; rewrite elem_of_app, list_elem_of_singleton;
      [left; by apply Ca|by right].
  - intros i j a b Hij Ha [Hb|[Hj [Hj0 Hb]%list_lookup_singleton_Some]]%lookup_app_Some.
    + apply (Co' i j a b Hij); [|done]. apply lookup_lt_Some in Hb. by rewrite lookup_app_l in Ha by lia.
    + rewrite lookup_app_l in Ha by lia. apply list_elem_of_lookup_2 in Ha as Hain.
      destruct (Cf a Hain) as (y & [p Hp]%list_elem_of_lookup & Hyin & Hyn). exists p, y.
      pose proof (lookup_lt_Some _ _ _ Hp). split; [by apply lookup_app_l_Some|]. split; [done|]. split; [done|].
      intros q z [Hz|[Hq _]]%lookup_app_Some Hzin Hzn; [|lia].
      destruct Hnew. rewrite Hb, <-Hzn. apply Ca; [done|by eapply list_elem_of_lookup_2|done].
Qed.

Lemma collected_all m front l ns : collected m front ns → collected m (front ++ l) (foldl (add_name m) ns l).
Proof.
  revert front ns. induction l as [|x l IH]; intros front ns Hc; [by rewrite app_nil_r|].
  cbn [foldl]. replace (front ++ x :: l) with ((front ++ [x]) ++ l) by (by rewrite <-app_assoc).
  by apply IH, collected_step.
Qed.

Lemma ref_if_list_collected m v : collected m (merged v) (ref_if_list m v).
Proof.
  apply (collected_all m [] (merged v)).
  split; [apply NoDup_nil_2|cbn; lia|by intros ? ?%elem_of_nil|by intros _ ? ?%elem_of_nil|done].
Qed.

(** ** The order of the merged families *)

Lemma merge_keeps_order (l k : list nwi_ifstate) :
  l `sublist_of` list_merge rank_le l k ∧ k `sublist_of` list_merge rank_le l k.
Proof.
  revert k. induction l as [|x l IH]; intros k; [rewrite list_merge_nil_l; auto using sublist_nil_l|].
  induction k as [|y k IHk]; [rewrite list_merge_nil_r; auto using sublist_nil_l|].
  rewrite list_merge_cons. case_decide.
  - destruct (IH (y :: k)) as [H1 H2]. auto using sublist_skip, sublist_cons.
  - destruct IHk as [H1 H2]. auto using sublist_skip, sublist_cons.
Qed.

(** The families merged by rank: every ifstate of either, those of a family in the order
    they have there, all by rank if both families are. *)
Lemma merged_spec v :
  merged v ≡ₚ v AF_INET ++ v AF_INET6 ∧ (∀ af, v af `sublist_of` merged v) ∧
  ((∀ af, Sorted rank_le (v af)) → Sorted rank_le (merged v)).
Proof.
  split; [apply merge_Permutation|]. split.
  - intros []; apply merge_keeps_order.
  - intros Hs. by apply Sorted_list_merge; [apply _|..].
Qed.
