(* ===== verification/NwiGrow.v ===== *)
(** * The network information state: growing, differences and generations

    [nwi_state_new] copies both families to a larger block, where the second begins
    further back, and corrects the offsets between them. Then what [nwi_state_diff]
    finds, and which interfaces get the new generation. *)

From stdpp Require Import functions.
From S2P Require Import Prelude RouteTypes RouteDict NwiState NwiRep NwiInv NwiList.

Local Open Scope nat_scope.
Implicit Types (v : view) (s : nwi_state) (af : family) (x : nwi_ifstate).

(** ** Copying *)

Lemma bcopy_lookup {A} (src dst : list A) i j n : i + n ≤ length src → j + n ≤ length dst →
  ∃ l, bcopy src i dst j n = Some l ∧ length l = length dst ∧
    (∀ k, k < n → l !! (j + k) = src !! (i + k)) ∧
    (∀ p, p < j ∨ j + n ≤ p → l !! p = dst !! p).
Proof.
  intros Hi Hj. unfold bcopy. rewrite decide_True by done. eexists. split; [done|].
  assert (length (take j dst) = j) as Ht by (rewrite length_take; lia).
  assert (length (take n (drop i src)) = n) as Hm by (rewrite length_take, length_drop; lia).
  split; [rewrite !length_app, length_drop; lia|]. split.
  - intros k Hk. rewrite lookup_app_r by lia. rewrite Ht, lookup_app_l by lia.
    rewrite lookup_take, decide_True, lookup_drop by lia. f_equal. lia.
  - intros p [Hp|Hp].
    + rewrite lookup_app_l by lia. by rewrite lookup_take, decide_True by lia.
    + rewrite !lookup_app_r by lia. rewrite Ht, Hm, lookup_drop. f_equal. lia.
Qed.

(** The copy of a family is skipped when it is empty. *)
Lemma copy_family src dst i j n : i + n ≤ length src → j + n ≤ length dst →
  ∃ l, (if 0 <? n then bcopy src i dst j n else Some dst) = Some l ∧ length l = length dst ∧
    (∀ k, k < n → l !! (j + k) = src !! (i + k)) ∧
    (∀ p, p < j ∨ j + n ≤ p → l !! p = (dst : list nwi_ifstate) !! p).
Proof.
  intros Hi Hj. destruct (Nat.ltb_spec 0 n); [by apply bcopy_lookup|].
  exists dst. split; [done|]. split; [done|]. split; [lia|done].
Qed.

(** A block with more room that holds what [s] holds. *)
Lemma copied_rep s v m l : rep s v → nwi_max_if_count s < m → length l = 2 * m →
  (∀ k, k < nwi_ipv6_count s → l !! (m + k) = nwi_ifstate_list s !! (nwi_max_if_count s + k)) →
  (∀ k, k < nwi_ipv4_count s → l !! k = nwi_ifstate_list s !! k) →
  rep (with_count AF_INET (nwi_ipv4_count s)
         (with_count AF_INET6 (nwi_ipv6_count s) (with_ifstates l (zero_state m)))) v.
Proof.
  intros R Hm Hlen H6 H4. split; cbn; try done.
  - by rewrite length_replicate.
  - intros af. rewrite <-(rep_count _ _ R af). by destruct af.
  - intros af. pose proof (rep_room _ _ R af). lia.
  - intros af i x Hx. rewrite <-(rep_at _ _ R af i x Hx).
    apply lookup_lt_Some in Hx. rewrite <-(rep_count _ _ R af) in Hx.
    destruct af; [by apply H4|by apply H6].
Qed.

(** ** The loop over a family *)

Lemma rep_for_ifstates s v af f n i : rep s v → i + n = length (v af) →
  ∃ s' v', for_ifstates n (start (nwi_max_if_count s) af + i) f s = Some (tt, s') ∧ rep s' v' ∧
    rest s' = rest s ∧ v' af = take i (v af) ++ (f <$> drop i (v af)) ∧
    v' (nwi_other_af af) = v (nwi_other_af af).
Proof.
  revert s v i. induction n as [|n IH]; intros s v i R Hi; cbn [for_ifstates].
  { exists s, v. rewrite drop_ge, take_ge by lia. by rewrite app_nil_r. }
  destruct (lookup_lt_is_Some_2 (v af) i) as [x Hx]; [lia|].
  destruct (rep_on_ifstate R af i x f Hx) as [E R1]. rewrite (bind_eq _ _ _ _ _ E).
  rewrite <-Nat.add_succ_r.
  destruct (IH _ _ (S i) R1) as (s' & v' & E' & R' & Hr & Ha & Ho).
  { rewrite fn_lookup_alter, length_alter. lia. }
  exists s', v'. split; [exact E'|]. split; [done|]. split; [done|].
  rewrite Ha, Ho, fn_lookup_alter, fn_lookup_alter_ne by apply other_ne. split; [|done].
  rewrite (drop_S _ _ _ Hx). rewrite (take_S_r _ _ (f x)) by (by rewrite list_lookup_alter_eq, Hx).
  rewrite <-app_assoc, take_alter, drop_alter. by rewrite !decide_False by lia.
Qed.

(** ** The offsets *)

Definition shift_alias (d : Z) x : nwi_ifstate :=
  if (ifs_af_alias_offset x =? 0)%Z then x else with_alias (i32 (ifs_af_alias_offset x + d)) x.

Lemma shift_core d x : core (shift_alias d x) = core x.
Proof. unfold shift_alias. by case_match. Qed.

(** How far the second family moves, seen from a family. *)
Definition shift_of (d : Z) af : Z := match af with AF_INET => d | AF_INET6 => - d end.

Lemma shift_item s v s' v' af i x :
  nwi_ok s v → rep s' v' → (Z.of_nat (nwi_max_if_count s') < 2 ^ 30)%Z → nwi_max_if_count s < nwi_max_if_count s' →
  (∀ af, v' af = shift_alias (shift_of (Z.of_nat (nwi_max_if_count s' - nwi_max_if_count s)) af) <$> v af) →
  v' af !! i = Some x → item_ok (nwi_max_if_count s') v' af i x.
Proof.
  intros Hok R' Hm' Hlt Hv.
  set (d := shift_of (Z.of_nat (nwi_max_if_count s' - nwi_max_if_count s)) af).
  assert (∀ af, names (v' af) = names (v af)) as Hn.
  { intros af'. rewrite Hv. apply names_fmap. intros y. unfold shift_alias. by case_match. }
  rewrite Hv, list_lookup_fmap. fold d. destruct (v af !! i) as [y|] eqn:Hy; [|done].
  cbn [fmap option_fmap option_map]. intros [= <-].
  destruct (ok_item _ _ Hok _ _ _ Hy) as [Ia Io Il].
  assert (ifs_ifname (shift_alias d y) = ifs_ifname y) as Hname by (unfold shift_alias; by case_match).
  split.
  - unfold shift_alias. by case_match.
  - rewrite Hname. unfold alias_offset in *. rewrite Hn.
    destruct (pos (ifs_ifname y) (names (v (nwi_other_af af)))) as [j|] eqn:E.
    2:{ unfold shift_alias. by rewrite Io. }
    destruct (with_name_pos _ _ _ E) as (z & Hz & _).
    pose proof (rep_lt (ok_rep _ _ Hok) _ _ _ Hy). pose proof (rep_lt (ok_rep _ _ Hok) _ _ _ Hz).
    unfold shift_alias. rewrite (proj2 (Z.eqb_neq _ _)) by (rewrite Io; destruct af; cbn in *; lia).
    cbn [with_alias ifs_af_alias_offset]. rewrite Io.
    assert (Z.of_nat (start (nwi_max_if_count s) (nwi_other_af af) + j) -
            Z.of_nat (start (nwi_max_if_count s) af + i) + d =
            Z.of_nat (start (nwi_max_if_count s') (nwi_other_af af) + j) -
            Z.of_nat (start (nwi_max_if_count s') af + i))%Z as ->
      by (unfold d; destruct af; cbn in *; lia).
    apply i32_small. pose proof (alias_fits s' v' af i j R' Hm') as Hfit.
    rewrite !Hv, !length_fmap in Hfit.
    specialize (Hfit (lookup_lt_Some _ _ _ Hy) (lookup_lt_Some _ _ _ Hz)). lia.
  - assert (is_last (shift_alias d y) = is_last y) as -> by (unfold shift_alias; by case_match).
    by rewrite Il, Hv, length_fmap.
Qed.

Lemma fix_af_aliases_ok s v s0 : nwi_ok s v → rep s0 v → (Z.of_nat (nwi_max_if_count s0) < 2 ^ 30)%Z → nwi_max_if_count s < nwi_max_if_count s0 →
  ∃ s' v', nwi_state_fix_af_aliases (nwi_max_if_count s) s0 = Some (tt, s') ∧ nwi_ok s' v' ∧
    rest s' = rest s0 ∧ ∀ af, core <$> v' af = core <$> v af.
Proof.
  intros Hok R0 Hm0 Hlt. unfold nwi_state_fix_af_aliases. rewrite bind_get.
  set (d := Z.of_nat (nwi_max_if_count s0 - nwi_max_if_count s)).
  assert (u32 (Z.of_nat (nwi_max_if_count s0) - Z.of_nat (nwi_max_if_count s)) = d) as ->
    by (unfold u32, d; rewrite Z.mod_small; lia).
  rewrite !start_list. fold (shift_alias d) (shift_alias (- d)).
  destruct (rep_for_ifstates s0 v AF_INET (shift_alias d) (nwi_ipv4_count s0) 0 R0)
    as (s1 & v1 & E1 & R1 & Hr1 & Ha1 & Ho1); [apply (rep_count _ _ R0 AF_INET)|].
  rewrite Nat.add_0_r in E1. rewrite (bind_eq _ _ _ _ _ E1). rewrite <-(rest_max _ _ Hr1).
  destruct (rep_for_ifstates s1 v1 AF_INET6 (shift_alias (- d)) (nwi_ipv6_count s0) 0 R1)
    as (s2 & v2 & E2 & R2 & Hr2 & Ha2 & Ho2).
  { cbn [nwi_other_af] in Ho1. rewrite Ho1. apply (rep_count _ _ R0 AF_INET6). }
  rewrite Nat.add_0_r in E2. cbn [nwi_other_af] in *.
  assert (rest s2 = rest s0) as Hr by by rewrite Hr2.
  assert (∀ af, v2 af = shift_alias (shift_of d af) <$> v af) as Hv.
  { intros []; cbn [shift_of]; [by rewrite Ho2, Ha1, drop_0|by rewrite Ha2, drop_0, Ho1]. }
  exists s2, v2. split; [done|]. split; [|split; [done|]].
  - assert (nwi_max_if_count s0 = nwi_max_if_count s2) as Hm by by rewrite (rest_max _ _ Hr).
    split; [done|by rewrite <-Hm|..].
    + intros af. rewrite Hv, names_fmap by (intros y; unfold shift_alias; by case_match).
      apply (ok_names _ _ Hok).
    + intros af i x. apply (shift_item s v); [done|done|by rewrite <-Hm|lia|]. by rewrite <-Hm.
  - intros af. rewrite Hv, <-list_fmap_compose. apply list_fmap_ext. intros ? y _. apply shift_core.
Qed.

(** ** Making and growing *)

Lemma ok_with_if_list s v n l : nwi_ok s v → length l = nwi_max_if_count s → nwi_ok (with_if_list n l s) v.
Proof. intros [R Hm Hn Hi] Hl. by split; [apply rep_with_if_list|..]. Qed.

Lemma nwi_zero_ok m : (Z.of_nat m < 2 ^ 30)%Z → nwi_ok (zero_state m) (λ _, []).
Proof. intros Hm. split; [apply rep_zero|done|intros; apply NoDup_nil_2|done]. Qed.

Lemma nwi_grow_ok s v m : nwi_ok s v → nwi_max_if_count s < m → (Z.of_nat m < 2 ^ 30)%Z →
  ∃ s' v', nwi_state_new (Some s) m = Some (Some s') ∧ nwi_ok s' v' ∧ nwi_max_if_count s' = m ∧
    nwi_reach_flags_v4 s' = 0%Z ∧ nwi_reach_flags_v6 s' = 0%Z ∧ nwi_generation_count s' = 0%Z ∧
    listed s' v' (ref_if_list m v') ∧ ∀ af, core <$> v' af = core <$> v af.
Proof.
  intros Hok Hlt Hm. pose proof (ok_rep _ _ Hok) as R.
  pose proof (rep_room _ _ R AF_INET) as H4. pose proof (rep_room _ _ R AF_INET6) as H6.
  rewrite <-(rep_count _ _ R) in H4, H6. cbn in H4, H6. pose proof (rep_slots _ _ R) as Hs.
  unfold nwi_state_new. rewrite (proj2 (Nat.leb_gt _ _)) by done.
  destruct (copy_family (nwi_ifstate_list s) (nwi_ifstate_list (zero_state m)) (nwi_max_if_count s) m
              (nwi_ipv6_count s)) as (l6 & -> & Hl6 & Hin6 & _).
  { lia. } { cbn. rewrite length_replicate. lia. }
  cbn [zero_state nwi_ifstate_list] in Hl6. rewrite length_replicate in Hl6.
  destruct (copy_family (nwi_ifstate_list s) l6 0 0 (nwi_ipv4_count s)) as (l & -> & Hl & Hin4 & Hout4).
  { lia. } { lia. }
  match goal with |- context [bind _ _ ?s1] => set (s0 := s1) end.
  assert (rep s0 v) as R0.
  { apply copied_rep; [done|done|lia| |done]. intros k Hk. rewrite Hout4 by lia. by apply Hin6. }
  destruct (fix_af_aliases_ok s v s0 Hok R0 Hm Hlt) as (s1 & v1 & E1 & Hok1 & Hr1 & Hcore).
  rewrite (bind_eq _ _ _ _ _ E1).
  destruct (set_if_list_ok s1 v1 (ok_rep _ _ Hok1)) as (n & k & Hk & -> & L).
  assert (nwi_max_if_count s1 = m) as Hm1 by by rewrite (rest_max _ _ Hr1).
  exists (with_if_list n k s1), v1. split; [done|]. split; [by apply ok_with_if_list|].
  rewrite <-Hm1. injection Hr1 as _ _ _ Hg Hf4 Hf6. cbn. by rewrite Hg, Hf4, Hf6.
Qed.

(** ** The network information state: what the differences say

    [nwi_state_diff] against the differences of two pairs of lists, and the
    generation each interface has afterwards. *)

Implicit Types (l : list nwi_ifstate).

(** A state that may be NULL. *)
Definition opt_ok (o : option nwi_state) v : Prop :=
  match o with Some s => nwi_ok s v | None => ∀ af, v af = [] end.
Definition opt_count (o : option nwi_state) : nat :=
  match o with Some s => nwi_state_max_af_count s | None => 0 end.

Lemma opt_names o v af : opt_ok o v → NoDup (names (v af)).
Proof. destruct o; cbn; [intros Hok; apply (ok_names _ _ Hok)|intros ->; apply NoDup_nil_2]. Qed.

Lemma opt_item_af o v af x : opt_ok o v → x ∈ v af → ifs_af x = Some af.
Proof.
  destruct o as [s|]; cbn; [|by intros ->; intros ?%elem_of_nil].
  intros Hok [i Hi]%list_elem_of_lookup_1. apply (ok_item _ _ Hok _ _ _ Hi).
Qed.

Lemma opt_with_name o v af name : opt_ok o v → ifstate_with_name o af name = Some (with_name name (v af)).
Proof.
  destruct o as [s|]; cbn [opt_ok]; [intros Hok; apply (rep_ifstate_with_name (ok_rep _ _ Hok))|].
  by intros ->.
Qed.

Lemma opt_count_le o v af : opt_ok o v → length (v af) ≤ opt_count o.
Proof.
  destruct o as [s|]; cbn; [|by intros ->]. intros Hok. rewrite <-(rep_count _ _ (ok_rep _ _ Hok)).
  unfold nwi_state_max_af_count. destruct (Nat.leb_spec (nwi_ipv6_count s) (nwi_ipv4_count s)), af; cbn; lia.
Qed.

Lemma opt_count_max o v : opt_ok o v → ∃ af, opt_count o = length (v af).
Proof.
  destruct o as [s|]; cbn; [|intros Hv; exists AF_INET; by rewrite Hv].
  intros Hok. unfold nwi_state_max_af_count.
  destruct (Nat.leb_spec (nwi_ipv6_count s) (nwi_ipv4_count s));
    [exists AF_INET|exists AF_INET6]; by rewrite <-(rep_count _ _ (ok_rep _ _ Hok)).
Qed.

(** ** The reference definition *)

Definition marked vo af x : nwi_ifstate :=
  nwi_ifstate_set_diff (diff_of (with_name (ifs_ifname x) (vo af)) x) x.
Definition removed x : nwi_ifstate := nwi_ifstate_set_diff NWI_IFSTATE_DIFF_REMOVED x.
(** Every ifstate of the new state with its mark, then the old ones that are gone. *)
Definition ref_diff vo v af : list nwi_ifstate :=
  (marked vo af <$> v af) ++ (removed <$> filter (λ x, ifs_ifname x ∉ names (v af)) (vo af)).

Lemma ref_diff_nil vo v af : ref_diff vo v af = [] → v af = [] ∧ vo af = [].
Proof.
  unfold ref_diff. intros [Hv Ho]%app_nil. apply fmap_nil_inv in Hv, Ho. rewrite Hv in *. split; [done|].
  apply nil_length_inv. destruct (vo af) as [|x l]; [done|]. rewrite filter_cons_True in Ho; [done|].
  apply not_elem_of_nil.
Qed.

(** ** The loops *)

Lemma for_ifstates_of_at s v af (body : nwi_ifstate → C nwi_state unit) n i (t : nwi_state) : rep s v → i + n = length (v af) →
  for_each (seq (start (nwi_max_if_count s) af + i) n)
    (λ p, let* scan := deref (nwi_ifstate_list s !! p) in body scan)%c t =
  for_each (drop i (v af)) body t.
Proof.
  intros R. revert i t. induction n as [|n IH]; intros i t Hi; cbn [seq for_each].
  { by rewrite drop_ge by lia. }
  destruct (lookup_lt_is_Some_2 (v af) i) as [x Hx]; [lia|].
  rewrite (rep_at _ _ R _ _ _ Hx), (drop_S _ _ _ Hx). cbn [deref for_each]. rewrite bind_ret.
  unfold bind. destruct (body x t) as [[[] t']|]; [|done]. rewrite <-Nat.add_succ_r. apply IH. lia.
Qed.

Lemma for_ifstates_of_rep s v af (body : nwi_ifstate → C nwi_state unit) (t : nwi_state) : rep s v →
  for_ifstates_of s af body t = for_each (v af) body t.
Proof.
  intros R. unfold for_ifstates_of. rewrite start_list, (rep_count _ _ R).
  rewrite <-(Nat.add_0_r (start _ _)). by rewrite (for_ifstates_of_at s v) by done.
Qed.

(** The state that is built: room for [m], and what the caller of [C] sets later. *)
Lemma diff_append_rep d vd af x f : rep d vd → ifs_af x = Some af → length (vd af) < nwi_max_if_count d →
  ∃ d' vd', (let* p := nwi_state_diff_append x in on_ifstate p f)%c d = Some (tt, d') ∧ rep d' vd' ∧
    rest d' = rest d ∧ vd' af = vd af ++ [f x] ∧ vd' (nwi_other_af af) = vd (nwi_other_af af).
Proof.
  intros R Haf Hroom. unfold nwi_state_diff_append. rewrite Haf. cbn [deref].
  destruct (rep_append R af x Hroom) as [E R1].
  set (d1 := with_count _ _ _) in *. set (vd1 := alter _ _ _) in *.
  rewrite (bind_eq _ _ d (start (nwi_max_if_count d) af + length (vd af)) d1).
  2:{ rewrite bind_ret, bind_get, (rep_last R), (bind_eq _ _ _ _ _ E), bind_modify.
      by rewrite (rep_count _ _ R). }
  assert (vd1 af = vd af ++ [x]) as Hvd1 by (unfold vd1; by rewrite fn_lookup_alter).
  destruct (rep_on_ifstate R1 af (length (vd af)) x f) as [E2 R2].
  { rewrite Hvd1, lookup_app_r, Nat.sub_diag by lia. done. }
  eexists _, _. split; [exact E2|]. split; [exact R2|]. split; [done|].
  rewrite fn_lookup_alter, fn_lookup_alter_ne, Hvd1 by apply other_ne.
  split; [by apply alter_last|]. unfold vd1. by rewrite fn_lookup_alter_ne by apply other_ne.
Qed.

Lemma add_changes_rep o vo af l d vd : opt_ok o vo → rep d vd → Forall (λ x, ifs_af x = Some af) l →
  length (vd af) + length l ≤ nwi_max_if_count d →
  ∃ d' vd', for_each l (nwi_state_diff_add_change o) d = Some (tt, d') ∧ rep d' vd' ∧
    rest d' = rest d ∧ vd' af = vd af ++ (marked vo af <$> l) ∧
    vd' (nwi_other_af af) = vd (nwi_other_af af).
Proof.
  intros Ho R Hl. revert d vd R. induction Hl as [|x l Haf Hl IH]; intros d vd R Hroom; cbn [for_each].
  { exists d, vd. by rewrite app_nil_r. }
  cbn in Hroom. unfold nwi_state_diff_add_change at 1. rewrite Haf. cbn [deref]. rewrite bind_ret.
  rewrite (opt_with_name _ _ _ _ Ho). cbn [deref]. rewrite bind_ret.
  destruct (diff_append_rep d vd af x
    (λ y, nwi_ifstate_set_diff (diff_of (with_name (ifs_ifname x) (vo af)) y) y)) as (d1 & vd1 & E1 & R1 & Hr1 & Ha1 & Ho1);
    [done..|lia|].
  rewrite (bind_eq _ _ _ _ _ E1). rewrite <-(rest_max _ _ Hr1) in Hroom.
  destruct (IH d1 vd1 R1) as (d' & vd' & E & R' & Hr & Ha & Hoth).
  { rewrite Ha1, length_app. cbn. lia. }
  exists d', vd'. split; [done|]. split; [done|]. split; [by rewrite Hr|].
  rewrite Ha, Ha1, <-app_assoc, Hoth, Ho1. done.
Qed.

Lemma removes_rep af l d vd : rep d vd → Forall (λ x, ifs_af x = Some af) l → NoDup (names l) →
  length (vd af) + length l ≤ nwi_max_if_count d →
  ∃ d' vd', for_each l nwi_state_diff_remove d = Some (tt, d') ∧ rep d' vd' ∧ rest d' = rest d ∧
    vd' af = vd af ++ (removed <$> filter (λ x, ifs_ifname x ∉ names (vd af)) l) ∧
    vd' (nwi_other_af af) = vd (nwi_other_af af).
Proof.
  intros R Hl. revert d vd R. induction Hl as [|x l Haf Hl IH]; intros d vd R Hnd Hroom; cbn [for_each].
  { exists d, vd. by rewrite app_nil_r. }
  cbn in Hroom. apply NoDup_cons in Hnd as [Hx Hnd].
  unfold nwi_state_diff_remove at 1. rewrite Haf. cbn [deref]. rewrite bind_ret, filter_cons.
  destruct (pos (ifs_ifname x) (names (vd af))) as [i|] eqn:E.
  - assert (ifs_ifname x ∈ names (vd af)) as Hin by (apply pos_Some in E; by eapply list_elem_of_lookup_2).
    rewrite decide_False by tauto. rewrite (bind_eq _ _ d tt d).
    { apply IH; [done..|lia]. }
    by rewrite bind_get, (rep_get_with_name R), E.
  - apply pos_None in E as Hnin. rewrite decide_True by done.
    destruct (diff_append_rep d vd af x removed) as (d1 & vd1 & E1 & R1 & Hr1 & Ha1 & Ho1); [done..|lia|].
    rewrite (bind_eq _ _ d tt d1).
    2:{ by rewrite bind_get, (rep_get_with_name R), E. }
    rewrite <-(rest_max _ _ Hr1) in Hroom.
    destruct (IH d1 vd1 R1 Hnd) as (d' & vd' & E' & R' & Hr & Ha & Hoth).
    { rewrite Ha1, length_app. cbn. lia. }
    exists d', vd'. split; [done|]. split; [done|]. split; [by rewrite Hr|].
    split; [|by rewrite Hoth]. rewrite Ha, Ha1, <-app_assoc. f_equal. rewrite fmap_cons. cbn [app]. f_equal.
    f_equal. apply filter_eq_on. intros y Hy. unfold names. rewrite fmap_app, elem_of_app.
    cbn. rewrite list_elem_of_singleton. assert (ifs_ifname y ≠ ifs_ifname x); [|tauto].
    intros Hyx. apply Hx. rewrite <-Hyx. by apply list_elem_of_fmap_2.
Qed.

(** ** The differences *)

Lemma populate_rep o vo o' v d : opt_ok o vo → opt_ok o' v → rep d (λ _, []) →
  opt_count o + opt_count o' ≤ nwi_max_if_count d →
  ∃ d' vd, nwi_state_diff_populate o o' d = Some (tt, d') ∧ rep d' vd ∧ rest d' = rest d ∧
    ∀ af, vd af = ref_diff vo v af.
Proof.
  intros Ho Hn R Hroom.
  pose proof (opt_count_le o vo AF_INET Ho). pose proof (opt_count_le o vo AF_INET6 Ho).
  pose proof (opt_count_le o' v AF_INET Hn). pose proof (opt_count_le o' v AF_INET6 Hn).
  assert (∀ (o : option nwi_state) v af, opt_ok o v → Forall (λ x, ifs_af x = Some af) (v af)) as Haf.
  { intros o0 v0 af Hok. apply Forall_forall. intros x. by apply (opt_item_af o0 v0). }
  (* additions and changes *)
  destruct (add_changes_rep o vo AF_INET (v AF_INET) d _ Ho R) as (d1 & vd1 & E1 & R1 & Hr1 & A1 & B1);
    [by eapply Haf|cbn; lia|]. rewrite <-(rest_max _ _ Hr1) in Hroom. cbn [nwi_other_af app] in *.
  destruct (add_changes_rep o vo AF_INET6 (v AF_INET6) d1 vd1 Ho R1) as (d2 & vd2 & E2 & R2 & Hr2 & A2 & B2);
    [by eapply Haf|rewrite B1; cbn; lia|]. rewrite <-(rest_max _ _ Hr2) in Hroom. cbn [nwi_other_af] in *.
  rewrite B1 in A2. rewrite A1 in B2. cbn [app] in A2.
  (* removals *)
  destruct (removes_rep AF_INET (vo AF_INET) d2 vd2 R2) as (d3 & vd3 & E3 & R3 & Hr3 & A3 & B3);
    [by eapply Haf|by eapply opt_names|rewrite B2, length_fmap; lia|].
  rewrite <-(rest_max _ _ Hr3) in Hroom. cbn [nwi_other_af] in *.
  destruct (removes_rep AF_INET6 (vo AF_INET6) d3 vd3 R3) as (d4 & vd4 & E4 & R4 & Hr4 & A4 & B4);
    [by eapply Haf|by eapply opt_names|rewrite B3, A2, length_fmap; lia|]. cbn [nwi_other_af] in *.
  assert (∀ af, names (marked vo af <$> v af) = names (v af)) as Hmn by (intros; by apply names_fmap).
  exists d4, vd4. split; [|split; [done|]]; [|split; [by rewrite Hr4, Hr3, Hr2|]].
  - unfold nwi_state_diff_populate. rewrite (bind_eq _ _ d tt d2).
    + destruct o as [s|].
      * unfold bind. rewrite !(for_ifstates_of_rep s vo) by apply (ok_rep _ _ Ho).
        by rewrite E3, (for_ifstates_of_rep s vo), E4 by apply (ok_rep _ _ Ho).
      * cbn in Ho. rewrite Ho in E3, E4. injection E3 as <-. injection E4 as <-. done.
    + destruct o' as [s|].
      * unfold bind. rewrite !(for_ifstates_of_rep s v) by apply (ok_rep _ _ Hn).
        by rewrite E1, (for_ifstates_of_rep s v), E2 by apply (ok_rep _ _ Hn).
      * cbn in Hn. rewrite Hn in E1, E2. injection E1 as <-. injection E2 as <-. done.
  - intros []; unfold ref_diff.
    + by rewrite B4, A3, B2, Hmn.
    + by rewrite A4, B3, A2, Hmn.
Qed.

Lemma nwi_state_diff_ok o vo o' v : opt_ok o vo → opt_ok o' v →
  if opt_count o + opt_count o' =? 0 then nwi_state_diff o o' = Some None ∧ ∀ af, vo af = [] ∧ v af = []
  else ∃ d vd, nwi_state_diff o o' = Some (Some d) ∧ rep d vd ∧ (∀ af, vd af = ref_diff vo v af) ∧
         nwi_max_if_count d = opt_count o + opt_count o'.
Proof.
  intros Ho Hn. unfold nwi_state_diff. fold (opt_count o) (opt_count o').
  destruct (Nat.eqb_spec (opt_count o + opt_count o') 0) as [Hz|Hnz].
  - split; [done|]. intros af. pose proof (opt_count_le o vo af Ho). pose proof (opt_count_le o' v af Hn).
    split; apply nil_length_inv; lia.
  - cbn [nwi_state_new]. rewrite (proj2 (Nat.eqb_neq _ _)) by done.
    destruct (populate_rep o vo o' v (zero_state (opt_count o + opt_count o')) Ho Hn)
      as (d & vd & -> & R & Hr & Hvd); [apply rep_zero|done|].
    exists d, vd. split; [done|]. split; [done|]. split; [done|]. by rewrite (rest_max _ _ Hr).
Qed.

(** ** The network information state: generations

    After [_nwi_state_update_interface_generations] an interface carries the new
    generation if either family changed, and the one it had otherwise. *)

Implicit Types (vo : view).

(** ** Marks *)

Lemma get_set_diff d x : (0 ≤ d < 16)%Z → nwi_ifstate_get_diff (nwi_ifstate_set_diff d x) = d.
Proof.
  intros Hd. unfold nwi_ifstate_get_diff, nwi_ifstate_set_diff, NWI_IFSTATE_FLAGS_GET_DIFF,
    NWI_IFSTATE_FLAGS_FROM_DIFF, with_ifs_flags. cbn [ifs_flags].
  assert (∀ a, Z.land (Z.ldiff a NWI_IFSTATE_FLAGS_DIFF_MASK) NWI_IFSTATE_FLAGS_DIFF_MASK = 0%Z) as H0.
  { intros a. apply Z.bits_inj'. intros n _. rewrite Z.land_spec, Z.ldiff_spec, Z.bits_0.
    by destruct (Z.testbit a n), (Z.testbit NWI_IFSTATE_FLAGS_DIFF_MASK n). }
  unfold NWI_IFSTATE_DIFF_UNCHANGED. destruct (Z.eqb_spec d 0) as [->|Hnz]; [by rewrite H0|].
  rewrite Z.land_lor_distr_l, H0, Z.lor_0_l, <-Z.land_assoc, Z.land_diag, Z.shiftr_land, Z.shiftr_shiftl_l by lia.
  rewrite Z.sub_diag, Z.shiftl_0_r. change (Z.shiftr NWI_IFSTATE_FLAGS_DIFF_MASK 8) with (Z.ones 4).
  rewrite Z.land_ones by lia. by apply Z.mod_small.
Qed.

Lemma diff_of_range o x : (0 ≤ diff_of o x < 16)%Z.
Proof. unfold diff_of. repeat case_match; done. Qed.

Lemma with_name_fmap f name l : (∀ x, ifs_ifname (f x) = ifs_ifname x) →
  with_name name (f <$> l) = f <$> with_name name l.
Proof.
  intros E. unfold with_name. rewrite names_fmap by done. destruct (pos name (names l)) as [i|]; [|done].
  cbn [mbind option_bind]. by rewrite list_lookup_fmap.
Qed.

(** ** What changed *)

Definition differs (o : option nwi_ifstate) : bool :=
  match o with
  | Some x => negb (nwi_ifstate_get_diff x =? NWI_IFSTATE_DIFF_UNCHANGED)%Z
  | None => false
  end.

(** The ifstate of a name is new, gone, or not what it was. *)
Definition family_changed vo v (name : string) af : bool :=
  match with_name name (v af) with
  | Some x => negb (diff_of (with_name name (vo af)) x =? NWI_IFSTATE_DIFF_UNCHANGED)%Z
  | None => bool_decide (is_Some (with_name name (vo af)))
  end.
Definition interface_changed vo v (name : string) : bool :=
  family_changed vo v name AF_INET || family_changed vo v name AF_INET6.

Lemma differs_ref_diff vo v af name :
  differs (with_name name (ref_diff vo v af)) = family_changed vo v name af.
Proof.
  unfold ref_diff, family_changed. destruct (with_name name (v af)) as [x|] eqn:E.
  - rewrite (with_name_app_l _ _ _ (marked vo af x)) by (by rewrite with_name_fmap, E).
    cbn [differs]. unfold marked. rewrite get_set_diff by apply diff_of_range.
    apply with_name_Some in E as [_ ->]. done.
  - apply with_name_None in E as Hn.
    rewrite with_name_app_r by (by rewrite names_fmap). rewrite with_name_fmap by done.
    destruct (with_name name (filter _ (vo af))) as [y|] eqn:Ey; cbn [fmap option_fmap option_map differs].
    + unfold removed. rewrite get_set_diff by done. symmetry. apply bool_decide_eq_true.
      apply with_name_Some in Ey as [[_ Hy]%list_elem_of_filter <-].
      apply not_eq_None_Some. rewrite with_name_None. intros []. by apply list_elem_of_fmap_2.
    + symmetry. apply bool_decide_eq_false. apply eq_None_not_Some, with_name_None. intros Hin.
      apply with_name_None in Ey as []. apply list_elem_of_fmap in Hin as (y & -> & Hy).
      apply list_elem_of_fmap_2, list_elem_of_filter. done.
Qed.

Lemma has_changed_ref o vo v d vd name : rep d vd → (∀ af, vd af = ref_diff vo v af) → opt_ok o vo →
  _nwi_ifstate_has_changed d name = Some (interface_changed vo v name).
Proof.
  intros R Hvd Ho. unfold _nwi_ifstate_has_changed, interface_changed.
  rewrite (rep_ifstate_with_name R). fold (differs (with_name name (vd AF_INET))).
  rewrite Hvd, differs_ref_diff. destruct (family_changed vo v name AF_INET); [done|].
  rewrite (rep_ifstate_with_name R). fold (differs (with_name name (vd AF_INET6))).
  by rewrite Hvd, differs_ref_diff.
Qed.

(** ** The generations *)

Definition generation_of vo v (now : Z) af x : Z :=
  if interface_changed vo v (ifs_ifname x) then now
  else match with_name (ifs_ifname x) (vo af) with
       | Some y => ifs_generation y
       | None => now
       end.
Definition set_generation vo v (now : Z) af x : nwi_ifstate :=
  with_generation (generation_of vo v now af x) x.

(** What did not change was there. *)
Lemma unchanged_there vo v af x : NoDup (names (v af)) → x ∈ v af →
  interface_changed vo v (ifs_ifname x) = false → is_Some (with_name (ifs_ifname x) (vo af)).
Proof.
  intros Hn Hx Hc. assert (family_changed vo v (ifs_ifname x) af = false) as Hf
    by (apply orb_false_iff in Hc as [? ?]; by destruct af).
  unfold family_changed in Hf. rewrite (with_name_unique _ _ Hn Hx) in Hf.
  by destruct (with_name _ _) as [y|].
Qed.

(** A loop over the ifstates of a family that assigns to each. *)
Lemma for_each_ifstates s v af f (body : nat → C nwi_state unit) n i : rep s v → i + n = length (v af) →
  (∀ s' v' j x, rep s' v' → rest s' = rest s → i ≤ j → v' af !! j = Some x → v af !! j = Some x →
     body (start (nwi_max_if_count s) af + j) s' = on_ifstate (start (nwi_max_if_count s) af + j) f s') →
  for_each (seq (start (nwi_max_if_count s) af + i) n) body s =
  for_ifstates n (start (nwi_max_if_count s) af + i) f s.
Proof.
  revert s v i. induction n as [|n IH]; intros s v i R Hi Hb; cbn [seq for_each for_ifstates]; [done|].
  destruct (lookup_lt_is_Some_2 (v af) i) as [x Hx]; [lia|].
  unfold bind at 1. rewrite (Hb s v i x) by done.
  destruct (rep_on_ifstate R af i x f Hx) as [E R1]. rewrite E, (bind_eq _ _ _ _ _ E).
  rewrite <-Nat.add_succ_r. apply (IH _ (alter (alter f i) af v) (S i) R1).
  - rewrite fn_lookup_alter, length_alter. lia.
  - intros s' v' j y R' Hr' Hj Hy'. rewrite fn_lookup_alter, list_lookup_alter_ne by lia. intros Hy.
    apply (Hb s' v' j y); [done..|lia|done|done].
Qed.

Lemma update_generation_ok o vo v d vd af now s' v' j x : NoDup (names (v af)) → opt_ok o vo →
  rep d vd → (∀ af, vd af = ref_diff vo v af) → rep s' v' → v' af !! j = Some x → v af !! j = Some x →
  update_generation o d af now (start (nwi_max_if_count s') af + j) s' =
  on_ifstate (start (nwi_max_if_count s') af + j) (set_generation vo v now af) s'.
Proof.
  intros Hn Ho Rd Hvd R' Hx' Hx. apply list_elem_of_lookup_2 in Hx.
  unfold update_generation. rewrite (bind_eq _ _ _ _ _ (rep_ifstate_at R' _ _ _ Hx')).
  rewrite (has_changed_ref o vo v d vd) by done. cbn [deref]. rewrite bind_ret.
  assert (∀ g, generation_of vo v now af x = g →
    on_ifstate (start (nwi_max_if_count s') af + j) (with_generation g) s' =
    on_ifstate (start (nwi_max_if_count s') af + j) (set_generation vo v now af) s') as Hset.
  { intros g <-. destruct (rep_on_ifstate R' af j x (with_generation (generation_of vo v now af x)) Hx') as [-> _].
    by destruct (rep_on_ifstate R' af j x (set_generation vo v now af) Hx') as [-> _]. }
  unfold generation_of in Hset. destruct (interface_changed vo v (ifs_ifname x)) eqn:Hc; [by apply Hset|].
  rewrite (opt_with_name o vo) by done. cbn [deref]. rewrite bind_ret.
  destruct (unchanged_there vo v af x Hn Hx Hc) as [y Hy]. rewrite Hy in *. cbn [deref]. rewrite bind_ret.
  by apply Hset.
Qed.

Lemma update_generations_ok o vo s v d vd : nwi_ok s v → opt_ok o vo →
  rep d vd → (∀ af, vd af = ref_diff vo v af) →
  Forall (λ x, ifs_generation x ≠ nwi_generation_count s) (v AF_INET6) →
  ∃ s' v', _nwi_state_update_interface_generations o (Some d) s = Some (tt, s') ∧ nwi_ok s' v' ∧
    rest s' = rest s ∧ ∀ af, v' af = set_generation vo v (nwi_generation_count s) af <$> v af.
Proof.
  intros Hok Ho Rd Hvd Hg. pose proof (ok_rep _ _ Hok) as R. set (now := nwi_generation_count s) in *.
  unfold _nwi_state_update_interface_generations. rewrite bind_get, !start_list. fold now.
  (* IPv4 *)
  destruct (rep_for_ifstates s v AF_INET (set_generation vo v now AF_INET) (nwi_ipv4_count s) 0 R)
    as (s1 & v1 & E1 & R1 & Hr1 & Ha1 & Ho1); [apply (rep_count _ _ R AF_INET)|].
  rewrite (bind_eq _ _ s tt s1).
  2:{ rewrite <-E1, <-(Nat.add_0_r (start _ AF_INET)) at 1.
      apply (for_each_ifstates s v); [done|apply (rep_count _ _ R AF_INET)|].
      intros s' v' j x R' Hr' _ Hx' Hx. rewrite <-(rest_max _ _ Hr').
      by apply (update_generation_ok o vo v d vd _ _ s' v' j x (ok_names _ _ Hok _)). }
  (* IPv6 *)
  cbn [nwi_other_af] in *. rewrite <-(rest_max _ _ Hr1).
  assert (nwi_ipv6_count s = length (v1 AF_INET6)) as Hc6 by (rewrite Ho1; apply (rep_count _ _ R AF_INET6)).
  destruct (rep_for_ifstates s1 v1 AF_INET6 (set_generation vo v now AF_INET6) (nwi_ipv6_count s) 0 R1)
    as (s2 & v2 & E2 & R2 & Hr2 & Ha2 & Ho2); [done|].
  cbn [nwi_other_af] in *. rewrite drop_0 in Ha1, Ha2. cbn [take app] in Ha1, Ha2.
  assert (rest s2 = rest s) as Hr by by rewrite Hr2.
  assert (∀ af, v2 af = set_generation vo v now af <$> v af) as Hv.
  { intros []; [by rewrite Ho2, Ha1|by rewrite Ha2, Ho1]. }
  exists s2, v2. split; [|split; [|done]].
  - rewrite <-E2, <-(Nat.add_0_r (start _ AF_INET6)) at 1.
    apply (for_each_ifstates s1 v1); [done|done|].
    intros s' v' j x R' Hr' _ Hx' Hx. rewrite Ho1 in Hx. rewrite <-(rest_max _ _ Hr').
    rewrite (bind_eq _ _ _ _ _ (rep_ifstate_at R' _ _ _ Hx')).
    rewrite Forall_lookup in Hg. rewrite (proj2 (Z.eqb_neq _ _)) by by eapply Hg.
    by apply (update_generation_ok o vo v d vd _ _ s' v' j x (ok_names _ _ Hok _)).
  - eapply ok_change; [done|done|done|..].
    + intros af. rewrite Hv. by apply names_fmap.
    + intros af i x'. rewrite Hv, list_lookup_fmap. destruct (v af !! i) as [x|]; [|done].
      cbn [fmap option_fmap option_map]. intros [= <-]. eauto.
Qed.
