(* ===== verification/NwiRead.v ===== *)
(** * The network information state: what its readers see of it

    The accessors of NwiInfo on a state that satisfies the invariant: the walk over
    the interfaces of a family, the ifstate of the other family, flags, signatures
    and names. *)

From S2P Require Import Prelude RouteTypes RouteDict NwiState NwiInfo NwiRep NwiInv NwiList.

Local Open Scope nat_scope.
Implicit Types (v : view) (s : nwi_state) (af : family) (x : nwi_ifstate) (l : list nwi_ifstate).

(** ** Reference definitions *)

Definition in_list x : bool := negb (has (ifs_flags x) NWI_IFSTATE_FLAGS_NOT_IN_LIST).
(** The ifstates in front of the first that is not in the list. *)
Fixpoint general l : list nwi_ifstate :=
  match l with
  | [] => []
  | x :: l => if in_list x then x :: general l else []
  end.

(** What the ifstates of an interface contribute, over both families. *)
Definition flags_of v (name : string) : Z :=
  let f af := match with_name name (v af) with Some x => contributed_flags x | None => 0%Z end in
  Z.lor (f AF_INET) (f AF_INET6).

Definition signature_of (o : option nwi_ifstate) : option (list byte) * nat :=
  match o with
  | Some x => if has (ifs_flags x) NWI_IFSTATE_FLAGS_HAS_SIGNATURE
              then (Some (ifs_signature x), CC_SHA1_DIGEST_LENGTH) else (None, 0)
  | None => (None, 0)
  end.

Lemma has_lor_r a f g : has a (Z.lor f g) = has a f || has a g.
Proof.
  unfold has. rewrite Z.land_lor_distr_r, <-negb_andb. f_equal.
  apply eq_true_iff_eq. rewrite andb_true_iff, !Z.eqb_eq. apply Z.lor_eq_0_iff.
Qed.

Lemma has_bit fl n : (0 ≤ n)%Z → has fl (2 ^ n) = Z.testbit fl n.
Proof.
  intros Hn. unfold has. destruct (Z.testbit fl n) eqn:E.
  - apply negb_true_iff, Z.eqb_neq. intros Hz. apply (f_equal (λ z, Z.testbit z n)) in Hz.
    by rewrite Z.land_spec, E, Z.pow2_bits_true, Z.bits_0 in Hz by done.
  - apply negb_false_iff, Z.eqb_eq, Z.bits_inj'. intros k Hk. rewrite Z.land_spec, Z.bits_0.
    destruct (Z.eq_dec n k) as [<-|]; [by rewrite E|]. rewrite Z.pow2_bits_false by done.
    apply andb_false_r.
Qed.

Lemma has_last x : has (ifs_flags x) NWI_IFSTATE_FLAGS_LAST_ITEM = is_last x.
Proof. unfold is_last. by rewrite <-(has_bit _ 12). Qed.

Section read.
Context {s : nwi_state} {v : view} (Hok : nwi_ok s v).
Local Notation m := (nwi_max_if_count s).
Local Notation R := (ok_rep _ _ Hok).

Lemma read_at af i x : v af !! i = Some x → nwi_ifstate_list s !! (start m af + i) = Some x.
Proof. apply (rep_at _ _ R). Qed.

(** ** The other family *)

Lemma ptr_add_to p q : ptr_add p (Z.of_nat q - Z.of_nat p) = Some q.
Proof. unfold ptr_add. rewrite (proj2 (Z.leb_le _ _)) by lia. f_equal. lia. Qed.

Lemma alias_zero af i x : v af !! i = Some x →
  match pos (ifs_ifname x) (names (v (nwi_other_af af))) with
  | Some j => ifs_af_alias_offset x ≠ 0%Z ∧
      ptr_add (start m af + i) (ifs_af_alias_offset x) = Some (start m (nwi_other_af af) + j)
  | None => ifs_af_alias_offset x = 0%Z
  end.
Proof.
  intros Hx. destruct (ok_item _ _ Hok _ _ _ Hx) as [_ -> _]. unfold alias_offset.
  destruct (pos _ _) as [j|] eqn:E; [|done]. split; [|apply ptr_add_to].
  apply pos_lt in E. unfold names in E. rewrite length_fmap in E.
  pose proof (rep_lt R _ _ _ Hx). pose proof (rep_room _ _ R (nwi_other_af af)).
  destruct af; cbn in *; lia.
Qed.

Lemma get_alias_ok af i x af' : v af !! i = Some x →
  nwi_ifstate_get_alias s (start m af + i) af' =
  Some (Nat.add (start m af') <$> pos (ifs_ifname x) (names (v af'))).
Proof.
  intros Hx. unfold nwi_ifstate_get_alias. rewrite (read_at _ _ _ Hx). cbn [mbind option_bind].
  rewrite (item_af _ _ _ _ _ (ok_item _ _ Hok _ _ _ Hx)).
  case_bool_decide as E; [injection E as <-; by rewrite (ok_pos Hok _ _ _ Hx)|].
  assert (af' = nwi_other_af af) as -> by by destruct af, af'.
  pose proof (alias_zero _ _ _ Hx) as A. destruct (pos _ _) as [j|].
  - destruct A as [Hnz ->]. by rewrite (proj2 (Z.eqb_neq _ _)).
  - by rewrite A.
Qed.

Lemma get_flags_ok af i x : v af !! i = Some x →
  nwi_ifstate_get_flags s (start m af + i) = Some (flags_of v (ifs_ifname x)).
Proof.
  intros Hx. unfold nwi_ifstate_get_flags, flags_of. rewrite (read_at _ _ _ Hx). cbn [mbind option_bind].
  assert (with_name (ifs_ifname x) (v af) = Some x) as Hself.
  { apply with_name_unique; [apply (ok_names _ _ Hok)|]. by eapply list_elem_of_lookup_2. }
  assert (∀ f : family → Z, Z.lor (f AF_INET) (f AF_INET6) = Z.lor (f af) (f (nwi_other_af af))) as Hlor
    by (intros f; destruct af; [done|apply Z.lor_comm]).
  rewrite (Hlor (λ af, match with_name (ifs_ifname x) (v af) with Some x => _ | None => _ end)), Hself.
  pose proof (alias_zero _ _ _ Hx) as A. destruct (pos _ _) as [j|] eqn:E.
  - destruct A as [Hnz ->]. rewrite (proj2 (Z.eqb_neq _ _)) by done. cbn [mbind option_bind].
    destruct (with_name_pos _ _ _ E) as (y & Hy & -> & _). by rewrite (read_at _ _ _ Hy).
  - rewrite A. apply pos_None, with_name_None in E. by rewrite E, Z.lor_0_r.
Qed.

(** ** The walk *)

Lemma get_first_ok af :
  nwi_state_get_first_ifstate s af = Some (match general (v af) with [] => None | _ => Some (start m af) end).
Proof.
  unfold nwi_state_get_first_ifstate. rewrite (with_index_lookup s v af 0 R).
  destruct (v af) as [|x l] eqn:E; [done|]. cbn [lookup list_lookup fmap option_fmap option_map general].
  rewrite (read_at af 0 x) by (by rewrite E). cbn [mbind option_bind]. unfold in_list.
  rewrite Nat.add_0_r. by destruct (has _ _).
Qed.

Lemma get_next_ok af i x : v af !! i = Some x → in_list x = true →
  nwi_ifstate_get_next s (start m af + i) af =
  Some (match general (drop (S i) (v af)) with [] => None | _ => Some (start m af + S i) end).
Proof.
  intros Hx Hin. unfold nwi_ifstate_get_next. rewrite (get_alias_ok _ _ _ _ Hx), (ok_pos Hok _ _ _ Hx).
  cbn [mbind option_bind fmap option_fmap option_map]. rewrite (read_at _ _ _ Hx). cbn [mbind option_bind].
  unfold in_list in Hin. apply negb_true_iff in Hin.
  rewrite has_lor_r, Hin, has_last, (item_last _ _ _ _ _ (ok_item _ _ Hok _ _ _ Hx)). cbn [orb].
  case_bool_decide as Hl; [by rewrite drop_ge by lia|].
  destruct (lookup_lt_is_Some_2 (v af) (S i)) as [y Hy]; [apply lookup_lt_Some in Hx; lia|].
  rewrite <-Nat.add_succ_r, (read_at _ _ _ Hy), (drop_S _ _ _ Hy). cbn [mbind option_bind general].
  unfold in_list. by destruct (has (ifs_flags y) _).
Qed.

Lemma walk_from_ok fuel af i x l : general (drop i (v af)) = x :: l → length (v af) - i < fuel →
  walk_from s fuel (start m af + i) af = Some (seq (start m af + i) (S (length l))).
Proof.
  revert i x l. induction fuel as [|fuel IH]; intros i x l Hg Hfuel; [lia|]. cbn [walk_from].
  destruct (v af !! i) as [y|] eqn:Hy.
  2:{ by rewrite drop_ge in Hg by by apply lookup_ge_None. }
  rewrite (drop_S _ _ _ Hy) in Hg. cbn [general] in Hg. destruct (in_list y) eqn:Hin; [|done].
  injection Hg as <- Hg. rewrite (get_next_ok _ _ _ Hy Hin), Hg. cbn [mbind option_bind].
  destruct l as [|z l]; [done|]. apply lookup_lt_Some in Hy.
  rewrite (IH (S i) z l Hg) by lia. cbn [fmap option_fmap option_map]. by rewrite Nat.add_succ_r.
Qed.

Lemma walk_ok af fuel : length (v af) < fuel → walk s fuel af = Some (seq (start m af) (length (general (v af)))).
Proof.
  intros Hfuel. unfold walk. rewrite get_first_ok. cbn [mbind option_bind].
  destruct (general (v af)) as [|x l] eqn:E; [done|].
  pose proof (walk_from_ok fuel af 0 x l) as W. rewrite Nat.add_0_r in W.
  apply W; [by rewrite drop_0|lia].
Qed.

Lemma first_ifstate_ok af : first_ifstate s af = Some (head (general (v af))).
Proof.
  unfold first_ifstate. rewrite get_first_ok. cbn [mbind option_bind].
  destruct (v af) as [|x l] eqn:E; [done|]. cbn [general]. destruct (in_list x); [|done].
  pose proof (read_at af 0 x) as Hx. rewrite Nat.add_0_r in Hx. by rewrite Hx by by rewrite E.
Qed.

(** ** Signatures *)

Lemma get_signature_ok af i x af' : v af !! i = Some x →
  nwi_ifstate_get_signature s (start m af + i) (Some af') =
  Some (signature_of (with_name (ifs_ifname x) (v af'))).
Proof.
  intros Hx. unfold nwi_ifstate_get_signature. rewrite (get_alias_ok _ _ _ _ Hx). cbn [mbind option_bind].
  destruct (pos _ _) as [j|] eqn:E; cbn [fmap option_fmap option_map].
  - destruct (with_name_pos _ _ _ E) as (y & Hy & -> & _). by rewrite (read_at _ _ _ Hy).
  - apply pos_None, with_name_None in E. by rewrite E.
Qed.

(** The public flags do not have the bit that is tested. *)
Lemma flags_of_not_in_list name : has (flags_of v name) NWI_IFSTATE_FLAGS_NOT_IN_LIST = false.
Proof.
  assert (∀ x, Z.testbit (contributed_flags x) 3 = false) as Hc.
  { intros x. unfold contributed_flags, flags_from_af.
    destruct (ifs_af x) as [[]|], (has (ifs_flags x) NWI_IFSTATE_FLAGS_HAS_DNS),
      (has (ifs_flags x) NWI_IFSTATE_FLAGS_HAS_CLAT46); done. }
  change NWI_IFSTATE_FLAGS_NOT_IN_LIST with (2 ^ 3)%Z. rewrite has_bit by done. unfold flags_of.
  rewrite Z.lor_spec. destruct (with_name name (v AF_INET)), (with_name name (v AF_INET6));
    rewrite ?Hc, ?Z.bits_0; done.
Qed.

Lemma is_in_list_ok af i x af' : v af !! i = Some x →
  _nwi_ifstate_is_in_list s (start m af + i) af' = Some (bool_decide (ifs_ifname x ∈ names (v af'))).
Proof.
  intros Hx. unfold _nwi_ifstate_is_in_list. rewrite (get_alias_ok _ _ _ _ Hx). cbn [mbind option_bind].
  destruct (pos _ _) as [j|] eqn:E; cbn [fmap option_fmap option_map].
  - destruct (with_name_pos _ _ _ E) as (y & Hy & _ & _). rewrite (get_flags_ok _ _ _ Hy).
    cbn [mbind option_bind]. rewrite flags_of_not_in_list. f_equal. symmetry. apply bool_decide_eq_true.
    apply pos_Some in E. by eapply list_elem_of_lookup_2.
  - apply pos_None in E. by rewrite bool_decide_eq_false_2.
Qed.

Lemma get_dns_signature_ok af i x : v af !! i = Some x →
  nwi_ifstate_get_dns_signature s (start m af + i) =
  Some (if has (flags_of v (ifs_ifname x)) NWI_IFSTATE_FLAGS_HAS_DNS
        then match with_name (ifs_ifname x) (v AF_INET) with
             | Some x4 => signature_of (Some x4)
             | None => signature_of (with_name (ifs_ifname x) (v AF_INET6))
             end
        else (None, 0)).
Proof.
  intros Hx. unfold nwi_ifstate_get_dns_signature. rewrite (get_flags_ok _ _ _ Hx). cbn [mbind option_bind].
  destruct (has _ _); [|done]. cbn [negb]. rewrite !(get_signature_ok _ _ _ _ Hx). cbn [mbind option_bind].
  rewrite !(is_in_list_ok _ _ _ _ Hx). cbn [mbind option_bind].
  destruct (with_name (ifs_ifname x) (v AF_INET)) as [x4|] eqn:E4.
  - rewrite (bool_decide_eq_true_2 (_ ∈ names (v AF_INET))).
    2:{ apply with_name_Some in E4 as [? <-]. by apply list_elem_of_fmap_2. }
    case_match eqn:Hc; [|done]. apply andb_true_iff in Hc as [Hc _].
    cbn [signature_of] in *. by destruct (has (ifs_flags x4) _).
  - apply with_name_None in E4. rewrite (bool_decide_eq_false_2 (_ ∈ names (v AF_INET))) by done.
    cbn [signature_of snd fst]. rewrite andb_false_r.
    destruct (with_name _ _) as [x6|]; cbn [signature_of]; [|done]. by destruct (has (ifs_flags x6) _).
Qed.
End read.

(** ** Names *)

Lemma fill_names_ok s v ns buf n i : rep s v → listed s v ns → i + n = length ns → length ns ≤ length buf →
  take i buf = take i ns → ∃ buf', fill_names s n i buf = Some buf' ∧
    take (length ns) buf' = ns ∧ drop (length ns) buf' = drop (length ns) buf.
Proof.
  intros R L. revert i buf. induction n as [|n IH]; intros i buf Hi Hlen Htake; cbn [fill_names].
  { exists buf. split; [done|]. replace i with (length ns) in Htake by lia.
    by rewrite Htake, firstn_all. }
  destruct (lookup_lt_is_Some_2 ns i) as [nm Hnm]; [lia|].
  destruct (listed_lookup _ _ _ _ _ R L Hnm) as (k & x & -> & Hx & <-). cbn [mbind option_bind].
  rewrite Hx. cbn [mbind option_bind]. rewrite decide_True by lia.
  destruct (IH (S i) (<[i:=ifs_ifname x]> buf)) as (buf' & E & Ht & Hd).
  - lia.
  - by rewrite length_insert.
  - rewrite (take_S_r _ _ _ Hnm), (take_S_r _ _ (ifs_ifname x)) by (apply list_lookup_insert_eq; lia).
    f_equal. rewrite take_insert_ge by lia. done.
  - exists buf'. split; [done|]. split; [done|]. rewrite Hd. by rewrite drop_insert_lt by lia.
Qed.

Lemma fill_names_overflow s v ns buf n i : rep s v → listed s v ns → i + n = length ns → i ≤ length buf → length buf < length ns →
  fill_names s n i buf = None.
Proof.
  intros R L. revert i buf. induction n as [|n IH]; intros i buf Hi Hle Hlt; [lia|]. cbn [fill_names].
  destruct (lookup_lt_is_Some_2 ns i) as [nm Hnm]; [lia|].
  destruct (listed_lookup _ _ _ _ _ R L Hnm) as (k & x & -> & Hx & _). cbn [mbind option_bind].
  rewrite Hx. cbn [mbind option_bind]. case_decide; [|done].
  apply IH; rewrite ?length_insert; lia.
Qed.
