(* ===== verification/NwiPass.v ===== *)
(** * IPMonitor: the network information state after a change

    One pass of [process_nwi] on a state that satisfies the invariant: the candidates
    that are added, what the state holds then, and its generations. *)

From stdpp Require Import sorting functions.
From S2P Require Import Prelude RouteTypes RouteList RouteElection RouteDict NwiState NwiRound NwiRep NwiInv NwiList NwiGrow NwiRead.

Local Open Scope nat_scope.
Implicit Types (v vo : view) (s : nwi_state) (o : option nwi_state) (af : family) (x : nwi_ifstate).

Section change.
Variable info : family → Candidate → candidate_info.

(** ** Reference definitions *)

Definition entry_args af (e : nwi_entry) : add_args :=
  let i := info af (ni_candidate e) in
  MkArgs (cd_if_name (ni_candidate e)) (nwi_flags info af e) (cd_rank (ni_candidate e)) (Some (ci_addr i))
    (Some (ci_vpn_server_addr i)) (ci_reachability_flags i).
Definition sign (hash : list byte) x : nwi_ifstate :=
  with_ifs_flags (Z.lor (ifs_flags x) NWI_IFSTATE_FLAGS_HAS_SIGNATURE)
    (with_signature (take CC_SHA1_DIGEST_LENGTH hash) x).
(** What a candidate does to a list with room for [m]. *)
Definition ref_entry (m : nat) af (l : list nwi_ifstate) (e : nwi_entry) : list nwi_ifstate :=
  let r := ref_add m af (entry_args af e) l in
  match r.1, ci_signature (info af (ni_candidate e)) with
  | Some i, Some hash => alter (sign hash) i r.2
  | _, _ => r.2
  end.
Definition ref_entries (m : nat) af (entries : list nwi_entry) : list nwi_ifstate :=
  foldl (ref_entry m af) [] entries.

(** Interface names fit, as the kernel's do. *)
Definition short (e : nwi_entry) : Prop := String.length (cd_if_name (ni_candidate e)) < IFNAMSIZ.

(** ** Adding *)

Lemma ref_add_lt m af a l i : (ref_add m af a l).1 = Some i → i < length (ref_add m af a l).2.
Proof.
  unfold ref_add. destruct (pos _ _) as [j|].
  - destruct (l !! j) as [x|] eqn:Hx; [|done]. destruct (_ <? _)%Z; [done|]. intros [= <-].
    cbn. rewrite length_alter. by eapply lookup_lt_Some.
  - destruct (_ =? _); [done|]. intros [= <-]. cbn. rewrite length_app. cbn. lia.
Qed.

Lemma core_sign hash x : core (sign hash x) = sign hash (core x).
Proof.
  unfold core, clear_last, sign, with_signature, with_ifs_flags, with_alias.
  cbn [ifs_flags ifs_ifname ifs_rank ifs_af ifs_iaddr ifs_generation ifs_reach_flags
    ifs_vpn_server ifs_signature ifs_af_alias_offset]. f_equal. by apply ldiff_lor_disjoint.
Qed.

Lemma sign_last hash x : is_last (sign hash x) = is_last x.
Proof.
  unfold is_last, sign, with_signature, with_ifs_flags. cbn [ifs_flags]. rewrite Z.lor_spec.
  change (Z.testbit NWI_IFSTATE_FLAGS_HAS_SIGNATURE 12) with false. apply orb_false_r.
Qed.

(** The two lists of [v'] when one of [v] was replaced. *)
Definition replaced v af (l : list nwi_ifstate) v' : Prop :=
  core <$> v' af = l ∧ core <$> v' (nwi_other_af af) = core <$> v (nwi_other_af af).

Lemma add_entry_ok s v af e : nwi_ok s v → short e →
  ∃ s' v', add_to_nwi_state info af e s = Some (tt, s') ∧ nwi_ok s' v' ∧ rest s' = rest s ∧
    replaced v af (ref_entry (nwi_max_if_count s) af (core <$> v af) e) v'.
Proof.
  intros Hok Hs. unfold add_to_nwi_state, ref_entry, replaced.
  destruct (add_ok s v af (entry_args af e) Hok) as (s1 & v1 & E1 & Hok1 & Hr1 & Ha1 & Ho1).
  { unfold short, IFNAMSIZ in Hs. cbn. lia. }
  unfold add in E1. cbn [aa_name aa_flags aa_rank aa_ifa aa_vpn aa_reach entry_args] in E1.
  rewrite (bind_eq _ _ _ _ _ E1).
  destruct (ref_add _ af _ (core <$> v af)).1 as [i|] eqn:Ei; cbn [fmap option_fmap option_map];
    [|by exists s1, v1].
  destruct (ci_signature _) as [hash|]; [|by exists s1, v1].
  apply ref_add_lt in Ei. rewrite <-Ha1, length_fmap in Ei.
  apply lookup_lt_is_Some_2 in Ei as [x Hx]. rewrite <-(rest_max _ _ Hr1).
  destruct (ok_on_ifstate Hok1 af i x (sign hash) Hx) as (s2 & E2 & Hr2 & Hok2); [done..|apply sign_last|].
  exists s2, (alter (alter (sign hash) i) af v1). split; [exact E2|]. split; [done|].
  split; [by rewrite Hr2|]. rewrite fn_lookup_alter, fn_lookup_alter_ne by apply other_ne.
  split; [|done]. rewrite fmap_core_alter by apply core_sign. by rewrite Ha1, (rest_max _ _ Hr1).
Qed.

Lemma add_entries_ok s v af l : nwi_ok s v → Forall short l →
  ∃ s' v', for_each l (add_to_nwi_state info af) s = Some (tt, s') ∧ nwi_ok s' v' ∧ rest s' = rest s ∧
    replaced v af (foldl (ref_entry (nwi_max_if_count s) af) (core <$> v af) l) v'.
Proof.
  intros Hok Hl. revert s v Hok. induction Hl as [|e l He Hl IH]; intros s v Hok; cbn [for_each foldl].
  { by exists s, v. }
  destruct (add_entry_ok s v af e Hok He) as (s1 & v1 & E1 & Hok1 & Hr1 & Ha1 & Ho1).
  rewrite (bind_eq _ _ _ _ _ E1). destruct (IH s1 v1 Hok1) as (s' & v' & E & Hok' & Hr & Ha & Ho).
  exists s', v'. split; [done|]. split; [done|]. split; [by rewrite Hr|]. split; [|by rewrite Ho].
  by rewrite Ha, Ha1, (rest_max _ _ Hr1).
Qed.

(** ** The invariant of the published state *)

Definition nwi_inv o v : Prop :=
  opt_ok o v ∧
  match o with Some s => listed s v (ref_if_list (nwi_max_if_count s) v) | None => True end.

Lemma clear_ok s v : nwi_ok s v →
  nwi_ok (nwi_state_clear (nwi_state_clear s AF_INET) AF_INET6) (λ _, []).
Proof.
  intros Hok. split.
  - eapply rep_ext, (rep_clear (rep_clear (ok_rep _ _ Hok) AF_INET) AF_INET6). by intros [].
  - apply (ok_max _ _ Hok).
  - intros. apply NoDup_nil_2.
  - done.
Qed.

Lemma finalize_ok s v : nwi_ok s v → ∃ s', nwi_state_finalize (Some s) = Some (Some s') ∧ nwi_inv (Some s') v ∧
  nwi_max_if_count s' = nwi_max_if_count s ∧ nwi_generation_count s' = nwi_generation_count s.
Proof.
  intros Hok. destruct (set_if_list_ok s v (ok_rep _ _ Hok)) as (n & l & Hl & E & L).
  exists (with_if_list n l s). unfold nwi_state_finalize. rewrite E. split; [done|].
  split; [|done]. split; [by apply ok_with_if_list|done].
Qed.

Lemma elect_into_ok s v entries : nwi_ok s v → (∀ af, Forall short (entries af)) →
  ∃ s' v', elect_into info (Some s) entries = Some (Some s') ∧ nwi_inv (Some s') v' ∧
    nwi_max_if_count s' = nwi_max_if_count s ∧
    ∀ af, core <$> v' af = ref_entries (nwi_max_if_count s) af (entries af).
Proof.
  intros Hok He. unfold elect_into. pose proof (clear_ok s v Hok) as Hok0.
  set (s0 := nwi_state_clear _ _) in *.
  destruct (add_entries_ok s0 _ AF_INET (entries AF_INET) Hok0 (He _))
    as (s1 & v1 & E1 & Hok1 & Hr1 & Ha1 & Ho1). rewrite (bind_eq _ _ _ _ _ E1).
  destruct (add_entries_ok s1 _ AF_INET6 (entries AF_INET6) Hok1 (He _))
    as (s2 & v2 & E2 & Hok2 & Hr2 & Ha2 & Ho2). rewrite E2.
  destruct (finalize_ok s2 v2 Hok2) as (s' & E & Hinv & Hm & _).
  exists s', v2. split; [done|]. split; [done|]. cbn [nwi_other_af] in *.
  split; [by rewrite Hm, (rest_max _ _ Hr2), (rest_max _ _ Hr1)|].
  intros []; unfold ref_entries.
  - by rewrite Ho2, Ha1.
  - by rewrite Ha2, Ho1, (rest_max _ _ Hr1).
Qed.

Lemma new_ok o v n : nwi_inv o v → (Z.of_nat n < 2 ^ 30)%Z →
  ∃ o' v', nwi_state_new o n = Some o' ∧ nwi_inv o' v' ∧ (∀ af, core <$> v' af = core <$> v af).
Proof.
  intros [Hok L] Hn. destruct o as [s|]; cbn [nwi_state_new].
  - destruct (Nat.leb_spec n (nwi_max_if_count s)).
    { exists (Some s), v. done. }
    destruct (nwi_grow_ok s v n Hok) as (s' & v' & E & Hok' & Hm & _ & _ & _ & L' & Hc); [done..|].
    exists (Some s'), v'. cbn [nwi_state_new] in E. rewrite (proj2 (Nat.leb_gt _ _)) in E by done.
    rewrite E. split; [done|]. split; [|done]. split; [done|]. by rewrite Hm.
  - destruct (Nat.eqb_spec n 0) as [->|]; [by exists None, v|].
    exists (Some (zero_state n)), (λ _, []). split; [done|]. split; [|intros; by rewrite (Hok af)].
    split; [by apply nwi_zero_ok|]. split; cbn; [done|lia|done].
Qed.
End change.

(** ** IPMonitor: one pass and many

    [process_nwi] as a whole: it never crashes, keeps the invariant, and what it
    leaves behind is what the candidates say, stamped with the generations. *)


(** ** What the list of interfaces depends on *)

Definition looks_like x y : Prop :=
  ifs_ifname x = ifs_ifname y ∧ ifs_rank x = ifs_rank y ∧ ifs_flags x = ifs_flags y.

Lemma merge_looks_like l1 l2 k1 k2 : Forall2 looks_like l1 k1 → Forall2 looks_like l2 k2 →
  Forall2 looks_like (list_merge rank_le l1 l2) (list_merge rank_le k1 k2).
Proof.
  intros H1. revert l2 k2. induction H1 as [|x y l1 k1 Hxy H1 IH1]; intros l2 k2 H2.
  { by rewrite !list_merge_nil_l. }
  induction H2 as [|x' y' l2 k2 Hxy' H2 IH2]; [rewrite !list_merge_nil_r; by constructor|].
  assert (rank_le x x' ↔ rank_le y y') as Hr.
  { unfold rank_le. destruct Hxy as (_ & -> & _), Hxy' as (_ & -> & _). done. }
  rewrite !list_merge_cons. do 2 case_decide; try tauto; constructor; try done.
  apply IH1. by constructor.
Qed.

Lemma foldl_looks_like m l k ns : Forall2 looks_like l k → foldl (add_name m) ns l = foldl (add_name m) ns k.
Proof.
  intros Hl. revert ns. induction Hl as [|x y l k (En & _ & Ef) Hl IH]; intros ns; [done|]. cbn.
  rewrite IH. f_equal. unfold add_name, in_iflist. by rewrite En, Ef.
Qed.

Lemma ref_if_list_ext m v v' : (∀ af, Forall2 looks_like (v af) (v' af)) → ref_if_list m v = ref_if_list m v'.
Proof. intros Hv. apply foldl_looks_like. by apply merge_looks_like. Qed.

Lemma listed_ext s v s' v' ns : (∀ af, Forall2 looks_like (v af) (v' af)) →
  nwi_max_if_count s' = nwi_max_if_count s → nwi_if_list_count s' = nwi_if_list_count s →
  nwi_if_list s' = nwi_if_list s → listed s v ns → listed s' v' ns.
Proof.
  intros Hv Hm Hc Hl [Lc Lr La]. split; [congruence|lia|]. intros i n Hn.
  destruct (La i n Hn) as (af & j & x & Hk & Hx & <-).
  destruct (Forall2_lookup_l _ _ _ _ _ (Hv af) Hx) as (y & Hy & En & _).
  exists af, j, y. by rewrite Hl, Hm.
Qed.

(** ** Stamping *)

Section pass.
Variable info : family → Candidate → candidate_info.

Definition room o : nat := match o with Some s => nwi_max_if_count s | None => 0 end.
Definition elects (c : nwi_change) : bool := ch_global_changed c || ch_dnsinfo_changed c.
Definition stamps (c : nwi_change) : bool := elects c || ch_reachability_changed c.

(** What the differences say about the lists before and after. *)
Definition changes_ok vo v (changes : option nwi_state) : Prop :=
  match changes with
  | Some d => ∃ vd, rep d vd ∧ ∀ af, vd af = ref_diff vo v af
  | None => ∀ af, vo af = [] ∧ v af = []
  end.

Lemma diff_changes_ok o vo o' v : opt_ok o vo → opt_ok o' v →
  ∃ changes, nwi_state_diff o o' = Some changes ∧ changes_ok vo v changes.
Proof.
  intros Ho Ho'. pose proof (nwi_state_diff_ok o vo o' v Ho Ho') as H. case_match.
  - destruct H as [-> H]. by exists None.
  - destruct H as (d & vd & -> & R & Hvd & _). exists (Some d). split; [done|]. by exists vd.
Qed.

Lemma ok_with_fields s v s' : nwi_ok s v → nwi_max_if_count s' = nwi_max_if_count s →
  nwi_ipv4_count s' = nwi_ipv4_count s → nwi_ipv6_count s' = nwi_ipv6_count s →
  nwi_ifstate_list s' = nwi_ifstate_list s → nwi_if_list s' = nwi_if_list s → nwi_ok s' v.
Proof.
  intros [R Hm Hn Hi] Em E4 E6 El Ei. destruct R as [Rs Rl Rc Rr Ra]. split; [|by rewrite Em|done|by rewrite Em].
  split; rewrite ?El, ?Ei, ?Em; try done. intros af. rewrite <-Rc. by destruct af.
Qed.

Definition stamped vo v (now : Z) : view := λ af, set_generation vo v now af <$> v af.

Lemma stamped_looks_like vo v now af : Forall2 looks_like (v af) (stamped vo v now af).
Proof. unfold stamped. apply Forall2_fmap_r, Forall_Forall2_diag, Forall_forall. done. Qed.

Lemma stamp_ok c o vo s v changes : opt_ok o vo → nwi_inv (Some s) v → changes_ok vo v changes →
  Forall (λ x, ifs_generation x ≠ ch_now c) (v AF_INET6) →
  ∃ s' v', stamp c o changes (Some s) = Some (Some s') ∧ nwi_inv (Some s') v' ∧
    nwi_max_if_count s' = nwi_max_if_count s ∧ nwi_generation_count s' = ch_now c ∧
    ∀ af, v' af = stamped vo v (ch_now c) af.
Proof.
  intros Ho [Hok L] Hch Hg. unfold stamp.
  set (s1 := if _ : bool then _ else _).
  assert (rest s1 = (nwi_max_if_count s, nwi_if_list_count s, nwi_if_list s, ch_now c,
                     nwi_reach_flags_v4 s1, nwi_reach_flags_v6 s1) ∧ nwi_ok s1 v) as [Hr1 Hok1]
    by (subst s1; case_match; (split; [done|by eapply ok_with_fields])).
  injection Hr1 as Em1 Ec1 El1 Eg1.
  assert (listed s1 v (ref_if_list (nwi_max_if_count s1) v)) as L1.
  { rewrite Em1. eapply listed_ext; [|done..|exact L]. intros af.
    by apply Forall_Forall2_diag, Forall_forall. }
  destruct changes as [d|].
  - destruct Hch as (vd & Rd & Hvd).
    destruct (update_generations_ok o vo s1 v d vd Hok1 Ho Rd Hvd) as (s' & v' & E & Hok' & Hr & Hv').
    { by rewrite Eg1. }
    rewrite E. exists s', v'. rewrite Eg1 in Hv'. split; [done|].
    injection Hr as Em Ec El Eg _ _.
    assert (∀ af, Forall2 looks_like (v af) (v' af)) as Hlk
      by (intros af; rewrite Hv'; apply (stamped_looks_like vo v (ch_now c) af)).
    split; [|split; [congruence|split; [congruence|done]]]. split; [done|].
    rewrite Em, <-(ref_if_list_ext _ v v') by done. by eapply listed_ext.
  - exists s1, v. split; [done|]. split; [done|]. split; [done|]. split; [done|].
    intros af. unfold stamped. by rewrite (proj2 (Hch af)).
Qed.

(** ** A pass *)

Lemma ref_entries_0 af l : ref_entries info 0 af l = [].
Proof.
  unfold ref_entries. induction l as [|e l IH]; [done|]. cbn [foldl].
  assert (ref_entry info 0 af [] e = []) as -> by (unfold ref_entry; cbn; done). done.
Qed.

Lemma ref_entries_generation m af l : Forall (λ x, ifs_generation x = 0%Z) (ref_entries info m af l).
Proof.
  unfold ref_entries. generalize (Forall_nil_2 (λ x, ifs_generation x = 0%Z)).
  generalize (@nil nwi_ifstate) as k. induction l as [|e l IH]; intros k Hk; [done|]. cbn [foldl]. apply IH.
  assert (∀ (f : nwi_ifstate → nwi_ifstate) i k, (∀ x, ifs_generation (f x) = ifs_generation x) →
    Forall (λ x, ifs_generation x = 0%Z) k → Forall (λ x, ifs_generation x = 0%Z) (alter f i k)) as Halter.
  { intros f i k' Hf Hk'. apply Forall_lookup. intros j x. rewrite list_lookup_alter.
    rewrite Forall_lookup in Hk'. case_decide; [|by apply Hk'].
    destruct (k' !! i) as [y|] eqn:Hy; [|done]. intros [= <-]. rewrite Hf. by eapply Hk'. }
  assert (Forall (λ x, ifs_generation x = 0%Z) (ref_add m af (entry_args info af e) k).2) as Hadd.
  { unfold ref_add. destruct (pos _ _) as [i|].
    - destruct (k !! i); [|done]. destruct (_ <? _)%Z; [done|]. by apply Halter.
    - destruct (_ =? _); [done|]. apply Forall_app. split; [done|]. by apply Forall_singleton. }
  unfold ref_entry. destruct (ref_add _ _ _ _).1; [|done]. destruct (ci_signature _); [|done].
  by apply Halter.
Qed.

Lemma core_generation l k : core <$> l = k → Forall (λ x, ifs_generation x = 0%Z) k →
  Forall (λ x, ifs_generation x = 0%Z) l.
Proof.
  intros <- Hk. rewrite Forall_fmap in Hk. exact Hk.
Qed.

(** What the candidates leave in the state. *)
Lemma elected_ok o v c : nwi_inv o v → (∀ af, Forall short (ch_entries c af)) →
  ∃ o' v', (if elects c then elect_into info o (ch_entries c) else Some o) = Some o' ∧
    nwi_inv o' v' ∧ room o' = room o ∧
    ∀ af, core <$> v' af = if elects c then ref_entries info (room o') af (ch_entries c af) else core <$> v af.
Proof.
  intros Hinv Hs. destruct (elects c); [|by exists o, v].
  destruct o as [s|].
  - destruct (elect_into_ok info s v (ch_entries c)) as (s' & v' & E & Hinv' & Hm & Hc); [apply Hinv|done|].
    exists (Some s'), v'. split; [done|]. split; [done|]. split; [done|]. cbn. by rewrite Hm.
  - exists None, v. split; [done|]. split; [done|]. split; [done|]. intros af. cbn.
    rewrite ref_entries_0. destruct Hinv as [Hok _]. by rewrite (Hok af).
Qed.

(** A state stays. *)
Lemma new_some s m o : nwi_state_new (Some s) m = Some o → is_Some o.
Proof. cbn. destruct (_ <=? _); [by intros [= <-]|]. repeat case_match; naive_solver. Qed.
Lemma elect_into_some s entries o : elect_into info (Some s) entries = Some o → is_Some o.
Proof. unfold elect_into, nwi_state_finalize. repeat case_match; naive_solver. Qed.
Lemma stamp_some c old changes s o : stamp c old changes (Some s) = Some o → is_Some o.
Proof. unfold stamp. repeat case_match; naive_solver. Qed.

Lemma process_nwi_some s c old o changes : process_nwi info (Some s) c = Some (old, o, changes) → is_Some o.
Proof.
  unfold process_nwi. destruct (nwi_state_new _ _) as [o0|] eqn:E0; [|done].
  apply new_some in E0 as [s0 ->].
  destruct (if _ : bool then elect_into _ _ _ else _) as [o1|] eqn:E1; [|done].
  assert (is_Some o1) as [s1 ->] by (case_match; [by eapply elect_into_some|by simplify_eq]).
  destruct (nwi_state_diff _ _) as [ch|]; [|done].
  destruct (if _ : bool then stamp _ _ _ _ else _) as [o2|] eqn:E2; [|done]. intros [= <- <- <-].
  case_match; [by eapply stamp_some|by simplify_eq].
Qed.

Record pass_ok o v (c : nwi_change) (r : option nwi_state * option nwi_state * option nwi_state)
    (v1 v' : view) : Prop := {
  pass_old : r.1.1 = o;
  pass_inv : nwi_inv r.1.2 v';
  pass_room : room r.1.2 = Nat.max (room o) (ch_n_services c);
  pass_content af : core <$> v1 af =
    if elects c then ref_entries info (room r.1.2) af (ch_entries c af) else core <$> v af;
  pass_stamped af : v' af = if stamps c then stamped v v1 (ch_now c) af else v1 af;
  pass_changes : changes_ok v v1 r.2;
}.

(** The clock has advanced since the state was stamped. *)
Definition older v (now : Z) : Prop := ∀ af, Forall (λ x, (0 ≤ ifs_generation x < now)%Z) (v af).

Lemma stamped_older v v1 now now' af : older v now → (0 < now < now')%Z →
  Forall (λ x, (0 ≤ ifs_generation x < now')%Z) (stamped v v1 now af).
Proof.
  intros Hold Hnow. unfold stamped. apply Forall_fmap, Forall_forall. intros x _. cbn. unfold generation_of.
  destruct (interface_changed _ _ _); [lia|].
  destruct (with_name _ _) as [y|] eqn:E; [|lia]. apply with_name_Some in E as [Hy _].
  pose proof (Hold af) as Ha. rewrite Forall_forall in Ha. specialize (Ha y Hy). lia.
Qed.

Lemma elected_older v v0 v1 c m : (∀ af, core <$> v0 af = core <$> v af) →
  (∀ af, core <$> v1 af = if elects c then ref_entries info m af (ch_entries c af) else core <$> v0 af) →
  (0 < ch_now c)%Z → older v (ch_now c) → older v1 (ch_now c).
Proof.
  intros Hc0 Hc1 Hnow Hold af. specialize (Hc1 af). destruct (elects c).
  - eapply Forall_impl; [by eapply core_generation, ref_entries_generation|]. intros x. cbn. lia.
  - pose proof (Hold af) as Ha. rewrite Hc0 in Hc1.
    apply (f_equal (fmap (M := list) ifs_generation)) in Hc1. rewrite <-!list_fmap_compose in Hc1.
    rewrite Forall_lookup in Ha |- *. intros i x Hx.
    pose proof (f_equal (.!! i) Hc1) as Ei. rewrite !list_lookup_fmap, Hx in Ei.
    destruct (v af !! i) as [y|] eqn:Hy; [|done]. injection Ei as Ei. rewrite Ei. by apply (Ha i).
Qed.

Lemma new_room o v n o' : nwi_inv o v → (Z.of_nat n < 2 ^ 30)%Z → nwi_state_new o n = Some o' →
  room o' = Nat.max (room o) n.
Proof.
  intros Hinv Hn E0. destruct o as [s|]; cbn [nwi_state_new] in E0; [|by destruct n; simplify_eq].
  destruct (Nat.leb_spec n (nwi_max_if_count s)); [simplify_eq; cbn; lia|].
  destruct (nwi_grow_ok s v n) as (s' & v' & E & _ & Hm & _); [apply Hinv|done..|].
  cbn [nwi_state_new] in E. rewrite (proj2 (Nat.leb_gt _ _)) in E by done.
  rewrite E in E0. simplify_eq. cbn. lia.
Qed.

Lemma process_nwi_ok o v c : nwi_inv o v → (∀ af, Forall short (ch_entries c af)) →
  (Z.of_nat (ch_n_services c) < 2 ^ 30)%Z → (0 < ch_now c)%Z → older v (ch_now c) →
  ∃ r v1 v', process_nwi info o c = Some r ∧ pass_ok o v c r v1 v' ∧
    older v1 (ch_now c) ∧ ∀ now, (ch_now c < now)%Z → older v' now.
Proof.
  intros Hinv Hs Hn Hnow Hold. unfold process_nwi, nwi_state_make_copy.
  destruct (new_ok o v (ch_n_services c) Hinv Hn) as (o0 & v0 & E0 & Hinv0 & Hc0). rewrite E0.
  pose proof (new_room o v _ o0 Hinv Hn E0) as Hroom.
  destruct (elected_ok o0 v0 c Hinv0 Hs) as (o1 & v1 & E1 & Hinv1 & Hroom1 & Hc1).
  fold (elects c). fold (stamps c). rewrite E1.
  destruct (diff_changes_ok o v o1 v1) as (changes & -> & Hch); [apply Hinv|apply Hinv1|].
  pose proof (elected_older v v0 v1 c _ Hc0 Hc1 Hnow Hold) as Hold1.
  destruct (stamps c) eqn:Est.
  - assert (∃ o' v', stamp c o changes o1 = Some o' ∧ nwi_inv o' v' ∧ room o' = room o1 ∧
              ∀ af, v' af = stamped v v1 (ch_now c) af) as (o' & v' & -> & Hinv' & Hroom' & Hv').
    { destruct o1 as [s1|].
      - destruct (stamp_ok c o v s1 v1 changes) as (s' & v' & E & Hinv' & Hm & _ & Hv'); [apply Hinv|done..| |].
        { eapply Forall_impl; [apply Hold1|]. intros x. cbn. lia. }
        exists (Some s'), v'. split; [done|]. split; [done|]. split; [done|done].
      - exists None, v1. split; [done|]. split; [done|]. split; [done|]. intros af. unfold stamped.
        destruct Hinv1 as [Hok1 _]. by rewrite (Hok1 af). }
    eexists (_, _, _), v1, v'. split; [done|]. split; [|split; [done|]].
    + split; cbn [fst snd]; try done; [by rewrite Hroom', Hroom1|intros af; by rewrite Hroom', <-Hc0|by rewrite Est].
    + intros now Hlt af. rewrite Hv'. by apply stamped_older.
  - eexists (_, _, _), v1, v1. split; [done|]. split; [|split; [done|]].
    + split; cbn [fst snd]; try done; [by rewrite Hroom1|intros af; by rewrite <-Hc0|by rewrite Est].
    + intros now Hlt af. eapply Forall_impl; [apply Hold1|]. intros x. cbn. lia.
Qed.
End pass.

(** ** IPMonitor: what the kernel is told, and any number of passes

    [process_nwi_changes] on the states of a pass: the order of the interfaces when
    it is another, and the signature of each interface that is new, changed or gone.
    Then passes in a row, from the start of IPMonitor. *)


Section publish.
Context `{!Network}.
Variable cache : option (list (string * Z)).
Notation index := (my_if_nametoindex cache).

(** ** The order of the interfaces *)

Lemma if_list_name_ok s v ns i : rep s v → listed s v ns → i < length ns → if_list_name s i = ns !! i.
Proof.
  intros R L Hi. destruct (lookup_lt_is_Some_2 ns i Hi) as [n Hn]. rewrite Hn.
  destruct (listed_lookup _ _ _ _ _ R L Hn) as (k & x & Hk & Hx & <-).
  unfold if_list_name. by rewrite Hk, Hx.
Qed.

Lemma order_differs_ok s v ns s' v' ns' n i : rep s v → listed s v ns → rep s' v' → listed s' v' ns' →
  i + n = length ns → i + n = length ns' →
  order_differs s s' n i = Some (negb (bool_decide (drop i ns = drop i ns'))).
Proof.
  intros R L R' L'. revert i. induction n as [|n IH]; intros i Hi Hi'; cbn [order_differs].
  { by rewrite !drop_ge by lia. }
  rewrite (if_list_name_ok _ _ _ _ R L), (if_list_name_ok _ _ _ _ R' L') by lia.
  destruct (lookup_lt_is_Some_2 ns i) as [a Ha]; [lia|].
  destruct (lookup_lt_is_Some_2 ns' i) as [b Hb]; [lia|].
  rewrite Ha, Hb, (drop_S _ _ _ Ha), (drop_S _ _ _ Hb).
  destruct (String.eqb_spec a b) as [->|Hne].
  - rewrite IH by lia. do 2 f_equal. apply bool_decide_ext. split; [by intros ->|by intros [=]].
  - by rewrite bool_decide_eq_false_2 by (by intros [=]).
Qed.

(** The names an optional state lists. *)
Definition names_of o v : list string := match o with Some s => ref_if_list (nwi_max_if_count s) v | None => [] end.

Lemma interface_order_changed_ok o v o' v' : nwi_inv o v → nwi_inv o' v' →
  interface_order_changed o o' =
  Some (if decide (is_Some o ↔ is_Some o') then negb (bool_decide (names_of o v = names_of o' v')) else true).
Proof.
  intros [Hok L] [Hok' L']. unfold interface_order_changed.
  destruct o as [s|], o' as [s'|]; cbn [names_of].
  - rewrite decide_True by done. pose proof (ok_rep _ _ Hok) as R. pose proof (ok_rep _ _ Hok') as R'.
    rewrite (listed_count _ _ _ L), (listed_count _ _ _ L').
    destruct (Nat.eqb_spec (length (ref_if_list (nwi_max_if_count s) v))
                (length (ref_if_list (nwi_max_if_count s') v'))) as [E|E]; cbn [negb].
    + rewrite (order_differs_ok _ _ _ _ _ _ _ 0 R L R' L') by done. by rewrite !drop_0.
    + rewrite bool_decide_eq_false_2; [done|congruence].
  - rewrite decide_False; [done|]. intros [Hs _]. by destruct Hs.
  - rewrite decide_False; [done|]. intros [_ Hs]. by destruct Hs.
  - rewrite decide_True by done. done.
Qed.

Lemma interface_order_ok s v ns n i : rep s v → listed s v ns → i + n = length ns →
  interface_order cache s n i = Some (index <$> drop i ns).
Proof.
  intros R L. revert i. induction n as [|n IH]; intros i Hi; cbn [interface_order].
  { by rewrite drop_ge by lia. }
  rewrite (if_list_name_ok _ _ _ _ R L) by lia.
  destruct (lookup_lt_is_Some_2 ns i) as [a Ha]; [lia|].
  rewrite Ha, IH, (drop_S _ _ _ Ha) by lia. done.
Qed.

(** ** The signatures *)

Definition signature_data x : list byte :=
  if has (ifs_flags x) NWI_IFSTATE_FLAGS_HAS_SIGNATURE then ifs_signature x else [].
(** A new or changed interface is given its signature, a removed one loses it. *)
Definition ref_signatures vo v af : list nwi_ioctl :=
  (v af ≫= λ x, let d := diff_of (with_name (ifs_ifname x) (vo af)) x in
     if ((d =? NWI_IFSTATE_DIFF_ADDED) || (d =? NWI_IFSTATE_DIFF_CHANGED))%Z
     then [SIOCSIFNETSIGNATURE (ifs_ifname x) af (signature_data x)] else []) ++
  ((λ x, SIOCSIFNETSIGNATURE (ifs_ifname x) af []) <$>
     filter (λ x, ifs_ifname x ∉ names (v af)) (vo af)).

Lemma set_diff_signature d x : signature_data (nwi_ifstate_set_diff d x) = signature_data x.
Proof.
  unfold signature_data. change NWI_IFSTATE_FLAGS_HAS_SIGNATURE with (2 ^ 4)%Z. rewrite !has_bit by done.
  unfold nwi_ifstate_set_diff, NWI_IFSTATE_FLAGS_FROM_DIFF, with_ifs_flags. cbn [ifs_flags ifs_signature].
  assert (∀ a, Z.testbit (Z.ldiff a NWI_IFSTATE_FLAGS_DIFF_MASK) 4 = Z.testbit a 4) as Hb
    by (intros a; rewrite Z.ldiff_spec; apply andb_true_r).
  destruct (_ =? _)%Z; [by rewrite Hb|]. rewrite Z.lor_spec, Hb, Z.land_spec.
  change (Z.testbit NWI_IFSTATE_FLAGS_DIFF_MASK 4) with false. by rewrite andb_false_r, orb_false_r.
Qed.

Lemma process_ifstate_difference_ok af d x : (0 ≤ d < 16)%Z →
  process_ifstate_difference af (nwi_ifstate_set_diff d x) =
  if ((d =? NWI_IFSTATE_DIFF_ADDED) || (d =? NWI_IFSTATE_DIFF_CHANGED))%Z
  then [SIOCSIFNETSIGNATURE (ifs_ifname x) af (signature_data x)]
  else if (d =? NWI_IFSTATE_DIFF_REMOVED)%Z then [SIOCSIFNETSIGNATURE (ifs_ifname x) af []] else [].
Proof.
  intros Hd. unfold process_ifstate_difference, nwi_ifstate_get_difference. rewrite get_set_diff by done.
  fold (signature_data (nwi_ifstate_set_diff d x)). rewrite set_diff_signature.
  destruct (_ || _); [done|]. by destruct (_ =? _)%Z.
Qed.

Lemma diff_of_not_removed existing x : (diff_of existing x =? NWI_IFSTATE_DIFF_REMOVED)%Z = false.
Proof. unfold diff_of. by repeat case_match. Qed.

Lemma ref_diff_signatures vo v af :
  ref_diff vo v af ≫= process_ifstate_difference af = ref_signatures vo v af.
Proof.
  unfold ref_diff, ref_signatures. rewrite bind_app. f_equal.
  - induction (v af) as [|x l IH]; [done|]. cbn [fmap list_fmap mbind list_bind]. f_equal; [|exact IH].
    unfold marked. rewrite process_ifstate_difference_ok by apply diff_of_range.
    by rewrite diff_of_not_removed.
  - induction (filter _ _) as [|x l IH]; [done|]. cbn [fmap list_fmap mbind list_bind].
    unfold removed at 1. rewrite process_ifstate_difference_ok by done. cbn. f_equal. exact IH.
Qed.

Lemma state_differences_ok d vd af n i : rep d vd → i + n = length (vd af) →
  state_differences d af n (start (nwi_max_if_count d) af + i) =
  Some (drop i (vd af) ≫= process_ifstate_difference af).
Proof.
  intros R. revert i. induction n as [|n IH]; intros i Hi; cbn [state_differences].
  { by rewrite drop_ge by lia. }
  destruct (lookup_lt_is_Some_2 (vd af) i) as [x Hx]; [lia|].
  rewrite (rep_at _ _ R _ _ _ Hx), (drop_S _ _ _ Hx), <-Nat.add_succ_r, IH by lia. done.
Qed.

Lemma process_state_differences_ok d vd vo v af : rep d vd → vd af = ref_diff vo v af →
  process_state_differences d af = Some (ref_signatures vo v af).
Proof.
  intros R E. unfold process_state_differences. rewrite start_list, (rep_count _ _ R).
  rewrite <-(Nat.add_0_r (start _ _)), (state_differences_ok _ _ _ _ _ R), drop_0, E by done.
  by rewrite ref_diff_signatures.
Qed.

(** The generations do not matter. *)
Lemma ref_signatures_stamped vo v now af : ref_signatures vo (stamped vo v now) af = ref_signatures vo v af.
Proof.
  unfold ref_signatures, stamped. rewrite names_fmap by done. f_equal.
  induction (v af) as [|x l IH]; [done|]. cbn [fmap list_fmap mbind list_bind]. by rewrite IH.
Qed.

(** ** Both *)

(** What the kernel is told of the change from [vo] to [v]. *)
Definition ref_calls (reorder : bool) (ns : list string) vo v : list nwi_ioctl :=
  (if reorder then [SIOCSIFORDER (index <$> ns)] else []) ++
  ref_signatures vo v AF_INET ++ ref_signatures vo v AF_INET6.

Lemma process_nwi_changes_ok o v o' v' v1 changes : nwi_inv o v → nwi_inv o' v' →
  (is_Some o → is_Some o') → changes_ok v v1 changes →
  process_nwi_changes cache changes o' o =
  Some (match changes with
        | Some _ => ref_calls (if decide (is_Some o ↔ is_Some o')
                               then negb (bool_decide (names_of o' v' = names_of o v)) else true)
                      (names_of o' v') v v1
        | None => []
        end).
Proof.
  intros Hinv Hinv' Hsome Hch. unfold process_nwi_changes. destruct changes as [d|]; [|done].
  destruct Hch as (vd & Rd & Hvd). rewrite (interface_order_changed_ok o' v' o v) by done.
  rewrite !(process_state_differences_ok d vd v v1) by done. unfold ref_calls.
  assert (∀ b : bool, (b = true → is_Some o') →
    (if b then update_interface_order cache o' else Some []) =
    Some (if b then [SIOCSIFORDER (index <$> names_of o' v')] else [])) as Hupd.
  { intros [] Hb; [|done]. destruct (Hb eq_refl) as [s' ->]. cbn [update_interface_order names_of].
    destruct Hinv' as [Hok' L']. rewrite (listed_count _ _ _ L').
    by rewrite (interface_order_ok _ _ _ _ _ (ok_rep _ _ Hok') L'), drop_0. }
  assert ((if decide (is_Some o' ↔ is_Some o) then negb (bool_decide (names_of o' v' = names_of o v)) else true) =
          (if decide (is_Some o ↔ is_Some o') then negb (bool_decide (names_of o' v' = names_of o v)) else true))
    as -> by (destruct (decide (is_Some o' ↔ is_Some o)), (decide (is_Some o ↔ is_Some o')); tauto).
  rewrite Hupd; [done|]. intros Hb. destruct o' as [s'|]; [done|]. destruct o as [s|]; [by apply Hsome|].
  rewrite decide_True in Hb by done. cbn in Hb. by rewrite bool_decide_eq_true_2 in Hb.
Qed.
End publish.
