(* ===== verification/NwiSpec.v ===== *)
(** * The network information state: the theorems

    Each operation against its reference definition, the state a pass of IPMonitor
    leaves, and what its readers see. *)

From stdpp Require Import sorting functions.
From S2P Require Import Prelude RouteTypes RouteList RouteElection RouteDict NwiState NwiInfo NwiRound.
From S2P Require Import NwiRep NwiInv NwiList NwiGrow NwiRead NwiPass.

Local Open Scope nat_scope.
Implicit Types (v vo : view) (s : nwi_state) (o : option nwi_state) (af : family) (x : nwi_ifstate).

(** ** The operations *)

(** C21: Adding an interface to a family replaces the entry of that name unless that
    is better ranked, or appends one while there is room; the other interfaces keep
    their places, both families stay linked and the last of each is marked. *)
Theorem nwi_state_add_ifstate_refines s v af a : nwi_ok s v → String.length (aa_name a) < IFNAMSIZ →
  let r := ref_add (nwi_max_if_count s) af a (core <$> v af) in
  ∃ s' v', add af a s = Some (Nat.add (start (nwi_max_if_count s) af) <$> r.1, s') ∧ nwi_ok s' v' ∧
    core <$> v' af = r.2 ∧ core <$> v' (nwi_other_af af) = core <$> v (nwi_other_af af) ∧
    nwi_max_if_count s' = nwi_max_if_count s ∧ nwi_if_list s' = nwi_if_list s.
Proof.
  intros Hok Hs r. destruct (add_ok s v af a Hok) as (s' & v' & E & Hok' & Hr & Ha & Ho).
  { unfold IFNAMSIZ in Hs. lia. }
  exists s', v'. by injection Hr as -> _ -> _ _ _.
Qed.

(** C22: The list of interfaces names every interface once, in the order in which the
    first ifstates of the interfaces come when the two families are merged by comparing
    the ranks of those in front; that keeps the order of each family, and is the order of
    the ranks if both families have it. An interface that is not to be listed is left out;
    the list is complete while there is room. A reader gets the names back, but an array
    that is too small for them is written beyond its end. *)
Theorem nwi_state_finalize_names s v : nwi_ok s v →
  ∃ s' ns, nwi_state_finalize (Some s) = Some (Some s') ∧ nwi_ok s' v ∧
    collected (nwi_max_if_count s) (merged v) ns ∧
    (merged v ≡ₚ v AF_INET ++ v AF_INET6 ∧ (∀ af, v af `sublist_of` merged v) ∧
     ((∀ af, Sorted rank_le (v af)) → Sorted rank_le (merged v))) ∧
    ∀ buf, buf ≠ [] → nwi_state_get_interface_names s' (Some buf) (length buf) =
      if length ns <=? length buf then Some (length ns, Some (ns ++ drop (length ns) buf)) else None.
Proof.
  intros Hok. destruct (set_if_list_ok s v (ok_rep _ _ Hok)) as (n & l & Hl & E & L).
  set (ns := ref_if_list (nwi_max_if_count s) v) in *. pose proof (ok_with_if_list s v n l Hok Hl) as Hok'.
  exists (with_if_list n l s), ns. unfold nwi_state_finalize. rewrite E. split; [done|]. split; [done|].
  split; [by apply ref_if_list_collected|]. split; [apply merged_spec|].
  intros buf Hbuf. unfold nwi_state_get_interface_names.
  rewrite (proj2 (Nat.eqb_neq _ _)) by (by destruct buf). rewrite (listed_count _ _ _ L).
  destruct (Nat.leb_spec (length ns) (length buf)) as [Hle|Hgt].
  - destruct (fill_names_ok _ _ _ buf (length ns) 0 (ok_rep _ _ Hok') L) as (buf' & -> & Ht & Hd); [done..|].
    cbn [mbind option_bind]. by rewrite <-(take_drop (length ns) buf'), Ht, Hd.
  - by rewrite (fill_names_overflow _ _ _ buf (length ns) 0 (ok_rep _ _ Hok') L) by lia.
Qed.

(** C23: The differences of two states list every interface of the new one with how it
    changed, then the interfaces that are gone; the block made for them is large
    enough. There are none exactly if both states are empty. *)
Theorem nwi_state_diff_exact o vo o' v : opt_ok o vo → opt_ok o' v →
  ∃ changes, nwi_state_diff o o' = Some changes ∧
    match changes with
    | Some d => ∃ vd, rep d vd ∧ (∀ af, vd af = ref_diff vo v af) ∧ ∃ af, vd af ≠ []
    | None => ∀ af, vo af = [] ∧ v af = []
    end.
Proof.
  intros Ho Ho'. pose proof (nwi_state_diff_ok o vo o' v Ho Ho') as H.
  destruct (Nat.eqb_spec (opt_count o + opt_count o') 0) as [Hz|Hnz].
  - destruct H as [-> H]. by exists None.
  - destruct H as (d & vd & -> & R & Hvd & _). exists (Some d). split; [done|]. exists vd.
    split; [done|]. split; [done|]. destruct (opt_count_max o vo Ho) as [af E]. 
    destruct (opt_count_max o' v Ho') as [af' E'].
    destruct (vd af) eqn:Ea; [|exists af; by rewrite Ea]. exists af'. intros Ea'. destruct Hnz.
    rewrite Hvd in Ea, Ea'. apply ref_diff_nil in Ea as [_ Ea], Ea' as [Ea' _]. by rewrite E, E', Ea, Ea'.
Qed.

(** ** The readers *)

(** C24: Walking the interfaces of a family visits those in front of the first that is
    not for general use, and ends; every ifstate finds the one of the same interface
    in the other family, the flags and the signatures of both; reading stays inside
    the state. *)
Theorem nwi_readers s v : nwi_ok s v → ∀ af,
  walk s (S (nwi_max_if_count s)) af =
    Some (seq (nwi_state_ifstate_list s af) (length (general (v af)))) ∧
  nwi_state_get_reachability_flags s (Some af) =
    Some (match general (v af) with
          | x :: _ => ifs_reach_flags x
          | [] => match af with AF_INET => nwi_reach_flags_v4 s | AF_INET6 => nwi_reach_flags_v6 s end
          end) ∧
  ∀ i x, v af !! i = Some x →
    let p := nwi_state_ifstate_list s af + i in
    nwi_ifstate_list s !! p = Some x ∧
    nwi_ifstate_get_flags s p = Some (flags_of v (ifs_ifname x)) ∧
    (∀ af', match with_name (ifs_ifname x) (v af') with
            | Some y => ∃ q, nwi_ifstate_get_alias s p af' = Some (Some q) ∧ nwi_ifstate_list s !! q = Some y
            | None => nwi_ifstate_get_alias s p af' = Some None
            end) ∧
    (∀ af', nwi_ifstate_get_signature s p (Some af') = Some (signature_of (with_name (ifs_ifname x) (v af')))).
Proof.
  intros Hok af. pose proof (ok_rep _ _ Hok) as R. rewrite start_list.
  split; [apply (walk_ok Hok); pose proof (rep_room _ _ R af); lia|]. split.
  { unfold nwi_state_get_reachability_flags. rewrite (first_ifstate_ok Hok). cbn [mbind option_bind].
    by destruct (general (v af)). }
  intros i x Hx p. subst p. split; [by apply (rep_at _ _ R)|]. split; [by apply (get_flags_ok Hok)|].
  split; [|intros af'; by apply (get_signature_ok Hok)].
  intros af'. rewrite (get_alias_ok Hok _ _ _ _ Hx). unfold with_name at 1.
  destruct (pos _ _) as [j|] eqn:E; [|done]. destruct (with_name_pos _ _ _ E) as (y & Hy & _ & _).
  cbn [mbind option_bind fmap option_fmap option_map]. rewrite Hy. eexists. split; [done|].
  by apply (rep_at _ _ R).
Qed.

(** ** A pass of IPMonitor *)

(** The ifstate of a candidate. *)
Definition entry_ifstate (info : family → Candidate → candidate_info) af (e : nwi_entry) : nwi_ifstate :=
  let x := update af (entry_args info af e) (core (new_ifstate (cd_if_name (ni_candidate e)) af)) in
  match ci_signature (info af (ni_candidate e)) with Some hash => sign hash x | None => x end.

Section pass.
Variable info : family → Candidate → candidate_info.

Lemma entry_ifstate_name af e : short e → ifs_ifname (entry_ifstate info af e) = cd_if_name (ni_candidate e).
Proof.
  intros Hs. unfold short, IFNAMSIZ in Hs. unfold entry_ifstate.
  destruct (ci_signature _); cbn; apply str_take_short; lia.
Qed.

Lemma ref_entries_from m af l k : Forall short (k ++ l) → NoDup ((λ e, cd_if_name (ni_candidate e)) <$> (k ++ l)) →
  length (k ++ l) ≤ m →
  foldl (ref_entry info m af) (entry_ifstate info af <$> k) l = entry_ifstate info af <$> (k ++ l).
Proof.
  revert k. induction l as [|e l IH]; intros k Hs Hn Hm; [by rewrite app_nil_r|]. cbn [foldl].
  replace (k ++ e :: l) with ((k ++ [e]) ++ l) in * by (by rewrite <-app_assoc).
  rewrite <-IH by done. f_equal. unfold ref_entry, ref_add.
  assert (names (entry_ifstate info af <$> k) = (λ e, cd_if_name (ni_candidate e)) <$> k) as Hnames.
  { unfold names. rewrite <-list_fmap_compose. apply list_fmap_ext. intros i e' He'. apply entry_ifstate_name.
    rewrite <-app_assoc in Hs. apply Forall_app in Hs as [Hs _]. by eapply Forall_lookup_1. }
  assert (pos (aa_name (entry_args info af e)) (names (entry_ifstate info af <$> k)) = None) as ->.
  { apply pos_None. rewrite Hnames. rewrite <-app_assoc, fmap_app in Hn. apply NoDup_app in Hn as (_ & Hn & _).
    intros Hin. apply (Hn _ Hin). by left. }
  rewrite !length_app in Hm. cbn in Hm.
  rewrite length_fmap, (proj2 (Nat.eqb_neq _ _)) by lia. cbn [fst snd].
  rewrite fmap_app. cbn [fmap list_fmap].
  set (done := entry_ifstate info af <$> k). unfold entry_ifstate. subst done.
  destruct (ci_signature _) as [hash|]; [|done]. apply alter_last. by rewrite length_fmap.
Qed.

(** Without the generation. *)
Definition content x : nwi_ifstate := with_generation 0 (core x).

Lemma content_entry af e : content (entry_ifstate info af e) = entry_ifstate info af e.
Proof.
  assert (core (entry_ifstate info af e) = entry_ifstate info af e) as E.
  { unfold entry_ifstate. destruct (ci_signature _);
      rewrite ?core_sign, update_core, core_idem; done. }
  unfold content. rewrite E. unfold entry_ifstate. by destruct (ci_signature _).
Qed.

Lemma content_stamped vo v now af : content <$> stamped vo v now af = content <$> v af.
Proof. unfold stamped. rewrite <-list_fmap_compose. by apply list_fmap_ext. Qed.

Lemma content_core (l : list nwi_ifstate) : content <$> (core <$> l) = content <$> l.
Proof.
  rewrite <-list_fmap_compose. apply list_fmap_ext. intros i x _. cbn. unfold content. f_equal.
  apply core_idem.
Qed.

Lemma pass_content' o v c r v1 v' af : pass_ok info o v c r v1 v' →
  content <$> v' af = content <$>
    (if elects c then ref_entries info (room r.1.2) af (ch_entries c af) else v af).
Proof.
  intros P. assert (content <$> v' af = content <$> v1 af) as ->.
  { rewrite (pass_stamped _ _ _ _ _ _ _ P). destruct (stamps c); [apply content_stamped|done]. }
  rewrite <-(content_core (v1 af)), (pass_content _ _ _ _ _ _ _ P).
  destruct (elects c); [done|]. apply content_core.
Qed.

(** What the theorems ask of a change: names and counts in range, a running clock. *)
Record change_ok v (c : nwi_change) : Prop := {
  co_short af : Forall short (ch_entries c af);
  co_services : (Z.of_nat (ch_n_services c) < 2 ^ 30)%Z;
  co_now : (0 < ch_now c)%Z;
  co_clock : older v (ch_now c);
}.

(** C25: After a pass that elects, the state holds for each family exactly the
    candidates, in their order, if each has an interface of its own and there are no
    more than services; without an election it holds what it did. *)
Theorem process_nwi_elected o v c : nwi_inv o v → change_ok v c →
  (∀ af, NoDup ((λ e, cd_if_name (ni_candidate e)) <$> ch_entries c af) ∧
         length (ch_entries c af) ≤ ch_n_services c) →
  ∃ o' v' changes, process_nwi info o c = Some (o, o', changes) ∧ nwi_inv o' v' ∧
    ∀ af, content <$> v' af =
      if elects c then entry_ifstate info af <$> ch_entries c af else content <$> v af.
Proof.
  intros Hinv [Hs Hn Hnow Hold] Hd.
  destruct (process_nwi_ok info o v c Hinv Hs Hn Hnow Hold) as ([[o0 o'] ch] & v1 & v' & E & P & _).
  pose proof (pass_old _ _ _ _ _ _ _ P) as Ho. cbn in Ho. subst o0.
  exists o', v', ch. split; [done|]. split; [apply (pass_inv _ _ _ _ _ _ _ P)|]. intros af.
  rewrite (pass_content' _ _ _ _ _ _ _ P). destruct (elects c); [|done]. destruct (Hd af) as [Hnd Hlen].
  unfold ref_entries. rewrite (ref_entries_from _ _ _ []); [|apply Hs|done|].
  - rewrite <-list_fmap_compose. apply list_fmap_ext. intros i e _. apply content_entry.
  - cbn. pose proof (pass_room _ _ _ _ _ _ _ P). cbn in *. lia.
Qed.

(** C26: After a pass an interface carries the new generation if its ifstate of either
    family is new, gone or not what it was, and the generation it had otherwise; the
    assertion that it had one holds. *)
Theorem process_nwi_generations o v c : nwi_inv o v → change_ok v c → stamps c = true →
  ∃ o' v' changes, process_nwi info o c = Some (o, o', changes) ∧ nwi_inv o' v' ∧
    ∀ af x, x ∈ v' af →
      if interface_changed v v' (ifs_ifname x) then ifs_generation x = ch_now c
      else ∃ y, with_name (ifs_ifname x) (v af) = Some y ∧ ifs_generation x = ifs_generation y.
Proof.
  intros Hinv [Hs Hn Hnow Hold] Hst.
  destruct (process_nwi_ok info o v c Hinv Hs Hn Hnow Hold) as ([[o0 o'] ch] & v1 & v' & E & P & _).
  pose proof (pass_old _ _ _ _ _ _ _ P) as Ho. cbn in Ho. subst o0.
  exists o', v', ch. split; [done|]. pose proof (pass_inv _ _ _ _ _ _ _ P) as Hinv'. split; [done|].
  assert (∀ af, v' af = stamped v v1 (ch_now c) af) as Hv'
    by (intros af; by rewrite (pass_stamped _ _ _ _ _ _ _ P), Hst).
  assert (∀ name, interface_changed v v' name = interface_changed v v1 name) as Hic.
  { intros name. unfold interface_changed. f_equal; unfold family_changed; rewrite Hv'; unfold stamped;
      rewrite with_name_fmap by done; by destruct (with_name name (v1 _)). }
  intros af x Hx. pose proof (opt_names o' v' af (proj1 Hinv')) as Hnd. rewrite Hic.
  rewrite Hv' in Hx, Hnd. unfold stamped in Hx, Hnd. rewrite names_fmap in Hnd by done.
  apply list_elem_of_fmap in Hx as (z & -> & Hz). cbn [set_generation with_generation ifs_ifname ifs_generation].
  unfold generation_of. destruct (interface_changed v v1 (ifs_ifname z)) eqn:Ec; [done|].
  destruct (unchanged_there v v1 af z Hnd Hz Ec) as [y Hy]. exists y. by rewrite Hy.
Qed.

Section kernel.
Context `{!Network}.
Variable cache : option (list (string * Z)).

(** C27: After a pass the kernel is given the order of the interfaces if it is another
    or the state is new, the signature of each interface that is new or whose flags or
    address changed, and told to forget the signatures of those that are gone: nothing
    else, and nothing at all while there are no interfaces. *)
Theorem process_nwi_changes_exact o v c : nwi_inv o v → change_ok v c →
  ∃ o' v' changes, process_nwi info o c = Some (o, o', changes) ∧ nwi_inv o' v' ∧
    process_nwi_changes cache changes o' o =
    Some (match changes with
          | Some _ => ref_calls cache (if decide (is_Some o ↔ is_Some o')
                                       then negb (bool_decide (names_of o' v' = names_of o v)) else true)
                        (names_of o' v') v v'
          | None => []
          end) ∧
    (changes = None → ∀ af, v af = [] ∧ v' af = []).
Proof.
  intros Hinv [Hs Hn Hnow Hold].
  destruct (process_nwi_ok info o v c Hinv Hs Hn Hnow Hold) as ([[o0 o'] ch] & v1 & v' & E & P & _).
  pose proof (pass_old _ _ _ _ _ _ _ P) as Ho. cbn in Ho. subst o0.
  pose proof (pass_inv _ _ _ _ _ _ _ P) as Hinv'. pose proof (pass_changes _ _ _ _ _ _ _ P) as Hch.
  cbn [fst snd] in *. exists o', v', ch. split; [done|]. split; [done|]. split.
  - rewrite (process_nwi_changes_ok cache o v o' v' v1); [|done..| |done].
    2:{ intros [s ->]. by eapply process_nwi_some. }
    destruct ch; [|done]. unfold ref_calls.
    assert (∀ af, ref_signatures v v' af = ref_signatures v v1 af) as Hsig; [|by rewrite !Hsig].
    intros af. rewrite <-(ref_signatures_stamped v v1 (ch_now c)). unfold ref_signatures.
    rewrite (pass_stamped _ _ _ _ _ _ _ P).
    destruct (stamps c); [done|]. symmetry. apply ref_signatures_stamped.
  - intros ->. cbn in Hch. intros af. destruct (Hch af) as [-> Hv1]. split; [done|].
    rewrite (pass_stamped _ _ _ _ _ _ _ P). unfold stamped. destruct (stamps c); by rewrite Hv1.
Qed.

(** What of [change_ok] is not about the state. *)
Definition change_valid (c : nwi_change) : Prop :=
  (∀ af, Forall short (ch_entries c af)) ∧ (Z.of_nat (ch_n_services c) < 2 ^ 30)%Z.

Lemma monitor_step_ok sha1 o v sig c : nwi_inv o v → change_valid c → (0 < ch_now c)%Z → older v (ch_now c) →
  ∃ o' v' sig' calls, monitor_step info sha1 cache (o, sig) c = Some ((o', sig'), calls) ∧
    nwi_inv o' v' ∧ ∀ now, (ch_now c < now)%Z → older v' now.
Proof.
  intros Hinv [Hs Hn] Hnow Hold.
  destruct (process_nwi_ok info o v c Hinv Hs Hn Hnow Hold) as ([[o0 o'] ch] & v1 & v' & E & P & _ & Hnext).
  pose proof (pass_old _ _ _ _ _ _ _ P) as Ho. cbn in Ho. subst o0.
  pose proof (pass_inv _ _ _ _ _ _ _ P) as Hinv'. pose proof (pass_changes _ _ _ _ _ _ _ P) as Hch.
  cbn [fst snd] in *. unfold monitor_step. cbn [fst snd]. rewrite E.
  rewrite (process_nwi_changes_ok cache o v o' v' v1); [|done..| |done].
  2:{ intros [s ->]. by eapply process_nwi_some. }
  destruct (if _ : bool then _ else _) as [net sig'].
  destruct (net || ch_other_changed c); eexists o', v', sig', _; done.
Qed.

(** C20: From the start of IPMonitor, over any sequence of changes with a running clock,
    whatever the candidates: no pass stores outside a state or fails an assertion, and
    the state in the end satisfies the invariant. *)
Theorem nwi_monitor_safe sha1 sig cs : Forall change_valid cs → StronglySorted Z.lt (0%Z :: (ch_now <$> cs)) →
  ∃ o' v' sig' calls, monitor info sha1 cache (None, sig) cs = Some ((o', sig'), calls) ∧ nwi_inv o' v'.
Proof.
  assert (∀ o v now, nwi_inv o v → (0 ≤ now)%Z → (∀ now', (now < now')%Z → older v now') →
    Forall change_valid cs → StronglySorted Z.lt (now :: (ch_now <$> cs)) →
    ∃ o' v' sig' calls, monitor info sha1 cache (o, sig) cs = Some ((o', sig'), calls) ∧ nwi_inv o' v') as Hgen.
  { revert sig. induction cs as [|c cs IH]; intros sig o v now Hinv Hnow Hold Hcs Hs; cbn [monitor].
    { by exists o, v, sig, []. }
    apply Forall_cons in Hcs as [Hc Hcs]. apply StronglySorted_inv in Hs as [Hs Hhd].
    cbn [fmap list_fmap] in Hs, Hhd. apply Forall_cons in Hhd as [Hlt _].
    destruct (monitor_step_ok sha1 o v sig c Hinv Hc) as (o1 & v1 & sig1 & calls & E & Hinv1 & Hold1);
      [lia|by apply Hold|]. rewrite E.
    destruct (IH sig1 o1 v1 (ch_now c) Hinv1) as (o' & v' & sig' & l & E' & Hinv'); [lia|done..|].
    rewrite E'. by exists o', v', sig', (calls :: l). }
  intros Hcs Hs. apply (Hgen None (λ _, []) 0%Z); [|done| |done|done].
  - by split.
  - intros now' _ af. apply Forall_nil_2.
Qed.
End kernel.
End pass.
