(* ===== verification/NwiDemo.v ===== *)
(** * The network information state: concrete states

    The program at the end of network_information.c (TEST_NWI) against its expected
    output, nwi/test_nwi_reference.txt; the theorems of NwiSpec on concrete states; and
    the cases in which the code does not do what it means to. *)

From stdpp Require Import sorting.
From S2P Require Import Prelude RouteTypes RouteList RouteElection RouteDict RouteDemo NwiState NwiInfo NwiRound.
From S2P Require Import NwiRep NwiInv NwiList NwiGrow NwiRead NwiPass NwiSpec.

Local Open Scope Z_scope.

(** ** test_nwi_reference.txt *)

Definition of_state {A} (m : C nwi_state A) (o : option nwi_state) : option nwi_state :=
  match o with Some s => snd <$> m s | None => None end.
Definition joined (o : option (option nwi_state)) : option nwi_state := match o with Some s => s | None => None end.

Definition en (i : nat) : string := "en" ++ pretty i.
Definition word (i : Z) : list byte := rev (le_encode 4 i).
Definition test_add (af : family) (flags rank addr : Z) (i : nat) : C nwi_state unit :=
  bind (nwi_state_add_ifstate (en i) af flags rank
          (Some (match af with AF_INET => word addr | AF_INET6 => word addr ++ replicate 12 x00 end)) None 0)
    (λ _, ret tt).

Definition test_old : option nwi_state :=
  joined (nwi_state_finalize (of_state
    (for_each (seq 0 5) (λ i, let z := Z.of_nat i in
       bind (test_add AF_INET 0 (if Nat.odd i then z - 1 else z + 1) (if Nat.odd i then z else z + 1) i)
         (λ _, test_add AF_INET6 0 (if Nat.odd i then 10 - z else z) z i)))
    (joined (nwi_state_new None 5)))).
Definition test_grown : option nwi_state := joined (nwi_state_new test_old 10).
Definition test_new : option nwi_state :=
  joined (nwi_state_finalize (of_state
    (bind (for_each (seq 0 10) (λ i,
        test_add AF_INET6 (if (6 <? i)%nat then NWI_IFSTATE_FLAGS_NOT_IN_LIST else 0) (Z.of_nat i) (Z.of_nat i) i))
      (λ _, for_each (filter (λ i, i ≠ 3%nat) (rev (seq 0 10)))
              (λ i, test_add AF_INET 0 (Z.of_nat i) (Z.of_nat i) i)))
    test_grown)).

(** The name with the mark, the rank and the first word of the address. *)
Definition rows (o : option nwi_state) (af : family) : option (list (string * Z * Z)) :=
  s ← o; l ← mapM (λ i, nwi_ifstate_list s !! (nwi_state_ifstate_list s af + i)%nat)
                (seq 0 (nwi_state_get_ifstate_count s af));
  Some ((λ x, (ifs_ifname x ++ nwi_ifstate_get_diff_str x, ifs_rank x, le_decode (rev (take 4 (ifs_iaddr x)))))%string <$> l).
(** The traversal of a family. *)
Definition traversed (o : option nwi_state) (af : family) : option (list string) :=
  s ← o; ps ← walk s 20 af; l ← mapM (λ p, nwi_ifstate_list s !! p) ps; Some (ifs_ifname <$> l).
Definition listed_names (o : option nwi_state) : option (list string) :=
  s ← o; r ← nwi_state_get_interface_names s (Some (replicate 20 EmptyString)) 20; take r.1 <$> r.2.

Example test_nwi_old :
  rows test_old AF_INET = Some [("en0", 1, 1); ("en1", 0, 1); ("en2", 3, 3); ("en3", 2, 3); ("en4", 5, 5)]%string ∧
  rows test_old AF_INET6 = Some [("en0", 0, 0); ("en1", 9, 1); ("en2", 2, 2); ("en3", 7, 3); ("en4", 4, 4)]%string ∧
  listed_names test_old = Some (en <$> seq 0 5) ∧
  traversed test_old AF_INET = Some (en <$> seq 0 5) ∧ traversed test_old AF_INET6 = Some (en <$> seq 0 5).
Proof. by vm_compute. Qed.

Example test_nwi_grown : ∀ af, rows test_grown af = rows test_old af ∧ traversed test_grown af = traversed test_old af.
Proof. by intros []; vm_compute. Qed.

Example test_nwi_new :
  rows test_new AF_INET =
    Some [("en0", 0, 0); ("en1", 0, 1); ("en2", 2, 2); ("en3", 2, 3); ("en4", 4, 4);
          ("en9", 9, 9); ("en8", 8, 8); ("en7", 7, 7); ("en6", 6, 6); ("en5", 5, 5)]%string ∧
  listed_names test_new = Some (en <$> seq 0 10) ∧
  traversed test_new AF_INET = Some (en <$> [0; 1; 2; 3; 4; 9; 8; 7; 6; 5]%nat) ∧
  traversed test_new AF_INET6 = Some (en <$> seq 0 7).
Proof. by vm_compute. Qed.

Example test_nwi_diff :
  rows (joined (nwi_state_diff test_old test_new)) AF_INET =
    Some [("en0!", 0, 0); ("en1", 0, 1); ("en2!", 2, 2); ("en3", 2, 3); ("en4!", 4, 4);
          ("en9+", 9, 9); ("en8+", 8, 8); ("en7+", 7, 7); ("en6+", 6, 6); ("en5+", 5, 5)]%string ∧
  rows (joined (nwi_state_diff test_old test_new)) AF_INET6 =
    Some [("en0", 0, 0); ("en1/", 1, 1); ("en2", 2, 2); ("en3/", 3, 3); ("en4", 4, 4);
          ("en5+", 5, 5); ("en6+", 6, 6); ("en7+", 7, 7); ("en8+", 8, 8); ("en9+", 9, 9)]%string ∧
  rows (joined (nwi_state_diff test_new test_old)) AF_INET6 =
    Some [("en0", 0, 0); ("en1\", 9, 1); ("en2", 2, 2); ("en3\", 7, 3); ("en4", 4, 4);
          ("en5-", 5, 5); ("en6-", 6, 6); ("en7-", 7, 7); ("en8-", 8, 8); ("en9-", 9, 9)]%string.
Proof. by vm_compute. Qed.

(** ** The theorems on concrete states *)

Definition cand (id ifname : string) (rank : Z) : Candidate := MkCandidate id ifname rank false false.
Definition entry (c : Candidate) : nwi_entry := MkNwi c false false.
Definition hash (b : byte) : list byte := replicate 20 b.
(** Everything has DNS; the signature is made of one byte. *)
Definition demo_info (b : byte) (af : family) (c : Candidate) : candidate_info :=
  MkInfo true false (replicate (addr_size af) x01) (replicate 28 x00) 2 (Some (hash b)).
Definition wifi4 : nwi_entry := entry (cand "wifi" "en0" 0x01000001).
Definition eth4 : nwi_entry := entry (cand "eth" "en1" 0x01000002).
Definition both (af : family) : list nwi_entry := match af with AF_INET => [wifi4; eth4] | AF_INET6 => [wifi4] end.
Definition only (af : family) : list nwi_entry := match af with AF_INET => [wifi4] | AF_INET6 => [] end.
Definition change1 : nwi_change := MkChange 2 true false true false both (2, 2) 100.
Definition change2 : nwi_change := MkChange 3 true false false false only (0, 0) 200.

Definition result_state (r : option (option nwi_state * option nwi_state * option nwi_state)) : nwi_state :=
  match r with Some (_, Some s, _) => s | _ => zero_state 0 end.
Definition demo_state : nwi_state := Eval vm_compute in result_state (process_nwi (demo_info x07) None change1).
Definition demo_view (af : family) : list nwi_ifstate := Eval vm_compute in
  match af with AF_INET => take 2 (nwi_ifstate_list demo_state) | AF_INET6 => take 1 (drop 2 (nwi_ifstate_list demo_state)) end.
Ltac by_cases_on i := destruct i as [|[|[|i]]]; [..|done]; cbn; (done || (intros [= <-]; done)).

Lemma demo_ok : nwi_ok demo_state demo_view.
Proof.
  split; [split| | |].
  - done.
  - done.
  - by intros [].
  - intros []; cbn; lia.
  - intros [] i x; by_cases_on i.
  - done.
  - intros []; apply (bool_decide_unpack _); by vm_compute.
  - intros [] i x; destruct i as [|[|[|i]]]; cbn; try done; intros [= <-]; by split; vm_compute.
Qed.

Lemma demo_inv : nwi_inv (Some demo_state) demo_view.
Proof.
  split; [apply demo_ok|]. split; [done|by vm_compute; lia|].
  intros i n. change (ref_if_list (nwi_max_if_count demo_state) demo_view) with ["en0"; "en1"]%string.
  destruct i as [|[|i]]; cbn; [intros [= <-]..|done].
  - by eexists AF_INET, 0%nat, _.
  - by eexists AF_INET, 1%nat, _.
Qed.

Lemma demo_older now : 100 < now → older demo_view now.
Proof. intros Hn []; repeat constructor; cbn; lia. Qed.

Lemma demo_short b af : Forall short (ch_entries (match b with true => change1 | false => change2 end) af).
Proof. destruct b, af; repeat constructor; vm_compute; lia. Qed.

Lemma change2_ok : change_ok demo_view change2.
Proof. split; [apply (demo_short false)|done|done|by apply demo_older]. Qed.

Lemma nwi_state_add_ifstate_refines_witness :
  let a := MkArgs "en1" 4 0x01000003 None None 2 in
  ∃ s' v', add AF_INET6 a demo_state = Some (Some 3%nat, s') ∧ nwi_ok s' v' ∧ length (v' AF_INET6) = 2%nat.
Proof.
  intros a. destruct (nwi_state_add_ifstate_refines demo_state demo_view AF_INET6 a demo_ok) as (s' & v' & E & Hok & Hc & _).
  { vm_compute. lia. }
  exists s', v'. split; [exact E|]. split; [exact Hok|].
  apply (f_equal length) in Hc. rewrite length_fmap in Hc. exact Hc.
Defined.

Lemma nwi_state_finalize_names_witness :
  ∃ s' ns, nwi_state_finalize (Some demo_state) = Some (Some s') ∧ collected 2 (merged demo_view) ns ∧
    nwi_state_get_interface_names s' (Some [""; ""; "x"]%string) 3 =
    (if (length ns <=? 3)%nat then Some (length ns, Some (ns ++ drop (length ns) [""; ""; "x"]%string)) else None).
Proof.
  destruct (nwi_state_finalize_names demo_state demo_view demo_ok) as (s' & ns & E & _ & Hc & _ & Hr).
  exists s', ns. split; [exact E|]. split; [exact Hc|]. by apply (Hr [""; ""; "x"]%string).
Defined.

Lemma nwi_state_diff_exact_witness :
  ∃ changes, nwi_state_diff None (Some demo_state) = Some changes ∧ is_Some changes.
Proof.
  destruct (nwi_state_diff_exact None (λ _, []) (Some demo_state) demo_view (λ _, eq_refl) demo_ok)
    as (changes & E & H).
  exists changes. split; [exact E|]. destruct changes; [done|]. by destruct (H AF_INET).
Defined.

Lemma nwi_readers_witness :
  walk demo_state 3 AF_INET = Some [0; 1]%nat ∧ nwi_ifstate_get_flags demo_state 0 = Some 7 ∧
  nwi_state_get_reachability_flags demo_state (Some AF_INET6) = Some 2.
Proof.
  destruct (nwi_readers demo_state demo_view demo_ok AF_INET) as (W & _ & H).
  destruct (nwi_readers demo_state demo_view demo_ok AF_INET6) as (_ & Hr & _).
  destruct (H 0%nat _ eq_refl) as (_ & Hf & _). split; [exact W|]. split; [exact Hf|exact Hr].
Defined.

Lemma process_nwi_elected_witness :
  ∃ o' v' changes, process_nwi (demo_info x07) (Some demo_state) change2 = Some (Some demo_state, o', changes) ∧
    content <$> v' AF_INET = [entry_ifstate (demo_info x07) AF_INET wifi4] ∧ content <$> v' AF_INET6 = [].
Proof.
  destruct (process_nwi_elected (demo_info x07) (Some demo_state) demo_view change2 demo_inv change2_ok)
    as (o' & v' & changes & E & _ & H).
  { intros []; split; [apply (bool_decide_unpack _); by vm_compute|vm_compute; lia
                      |apply (bool_decide_unpack _); by vm_compute|vm_compute; lia]. }
  exists o', v', changes. split; [exact E|]. split; [apply (H AF_INET)|apply (H AF_INET6)].
Defined.

Lemma process_nwi_generations_witness :
  ∃ o' v' changes, process_nwi (demo_info x07) (Some demo_state) change2 = Some (Some demo_state, o', changes) ∧
    nwi_inv o' v' ∧ ∀ af x, x ∈ v' af →
      if interface_changed demo_view v' (ifs_ifname x) then ifs_generation x = 200
      else ∃ y, with_name (ifs_ifname x) (demo_view af) = Some y ∧ ifs_generation x = ifs_generation y.
Proof.
  exact (process_nwi_generations (demo_info x07) (Some demo_state) demo_view change2 demo_inv change2_ok eq_refl).
Defined.

#[local] Instance nwi_network : Network := {|
  inet_pton _ _ := None;
  if_nametoindex s := if String.eqb s "en0" then 4 else if String.eqb s "en1" then 5 else 0;
|}.

Lemma process_nwi_changes_exact_witness :
  ∃ o' changes, process_nwi (demo_info x07) (Some demo_state) change2 = Some (Some demo_state, o', changes) ∧
    is_Some (process_nwi_changes None changes o' (Some demo_state)).
Proof.
  destruct (process_nwi_changes_exact (demo_info x07) None (Some demo_state) demo_view change2 demo_inv change2_ok)
    as (o' & v' & changes & E & _ & Hc & _).
  exists o', changes. split; [exact E|]. by rewrite Hc.
Defined.

Lemma nwi_monitor_safe_witness :
  ∃ o' v' sig' calls, monitor (demo_info x07) (λ _, hash x00) None (None, []) [change1; change2] = Some ((o', sig'), calls) ∧
    nwi_inv o' v'.
Proof.
  apply (nwi_monitor_safe (demo_info x07) None (λ _, hash x00) [] [change1; change2]).
  - constructor; [|constructor; [|constructor]]; (split; [|done]); [apply (demo_short true)|apply (demo_short false)].
  - repeat constructor.
Defined.

(** The kernel is told the new order and what happened to each interface. *)
Example calls_demo :
  (λ r, r.2) <$> monitor (demo_info x07) (λ s, [byte_of_Z (Z.of_nat (nwi_max_if_count s))]) None (None, [])
    [change1; change2] =
  Some [ [SIOCSIFORDER [4; 5]; SIOCSIFNETSIGNATURE "en0" AF_INET (hash x07);
          SIOCSIFNETSIGNATURE "en1" AF_INET (hash x07); SIOCSIFNETSIGNATURE "en0" AF_INET6 (hash x07)];
         [SIOCSIFORDER [4]; SIOCSIFNETSIGNATURE "en1" AF_INET []; SIOCSIFNETSIGNATURE "en0" AF_INET6 []] ].
Proof. by vm_compute. Qed.

(** ** Where the code does not do what it means to *)

(** [_nwi_ifstate_is_in_list] tests a bit [nwi_ifstate_get_flags] never has: an IPv4
    ifstate that is not in the list and has no signature hides the signature of IPv6. *)
Theorem dns_signature_of_unlisted_hides :
  let unlisted := MkNwi (cand "wifi" "en0" 0x01000001) true false in
  let info af c := let i := demo_info x07 af c in
    match af with AF_INET => MkInfo true false (ci_addr i) (ci_vpn_server_addr i) 2 None | AF_INET6 => i end in
  let s := result_state (process_nwi info None
             (MkChange 1 true false true false (λ af, match af with AF_INET => [unlisted] | AF_INET6 => [wifi4] end) (2, 2) 100)) in
  nwi_ifstate_get_signature s 1 (Some AF_INET6) = Some (Some (hash x07), 20%nat) ∧
  nwi_ifstate_get_dns_signature s 1 = Some (None, 0%nat).
Proof. by vm_compute. Qed.

(** [nwi_state_new] does not copy the reachability flags; when a service with nothing
    but DNS appears they are not computed again, and the state is published with 0. *)
Theorem growth_loses_reachability :
  nwi_reach_flags_v4 demo_state = 2 ∧
  nwi_reach_flags_v4 (result_state (process_nwi (demo_info x07) (Some demo_state)
    (MkChange 3 false true false false both (2, 2) 200))) = 0.
Proof. by vm_compute. Qed.

(** A new signature for the same address and flags is no change: the kernel keeps the
    old one. *)
Theorem signature_change_unnoticed :
  let r := process_nwi (demo_info x08) (Some demo_state) (MkChange 2 true false false false both (2, 2) 200) in
  nwi_ifstate_get_signature (result_state r) 0 None = Some (Some (hash x08), 20%nat) ∧
  (match r with Some (old, new, changes) => process_nwi_changes None changes new old | None => None end) = Some [].
Proof. by vm_compute. Qed.

(** The differences keep the mark of the last item, so the walk that logs them ends in
    front of the interfaces that are gone. *)
Theorem differences_walk_stops :
  match process_nwi (demo_info x07) (Some demo_state) change2 with
  | Some (_, _, changes) => traversed changes AF_INET = Some ["en0"%string] ∧
                            rows changes AF_INET = Some [("en0", 0x01000001, 0x01010101); ("en1-", 0x01000002, 0x01010101)]%string
  | None => False
  end.
Proof. by vm_compute. Qed.

(** Candidates are not added in the order of their ranks: the demoted ones come last.
    Here the better ranked service is demoted, the other service of its interface
    becomes primary, and is then replaced by the demoted one: IPv4 has a primary
    service, but no interface. *)
#[local] Instance nwi_heap : Heap := λ _, true.
Theorem demoted_replaces_primary :
  let vpn6 := MkCandidate "vpn" "en5" 0x01000000 false false in
  let home := MkCandidate "home" "en0" 0x01000001 true false in
  let guest := MkCandidate "guest" "en0" 0x01000002 false false in
  match ElectionResultsGetPrimary (λ _, Some demo_wifi) 5 (Some vpn6) (Some (MkResults 2 [home; guest])) [] with
  | Some (primary, _, entries) =>
      primary = Some guest ∧
      let s := result_state (process_nwi (demo_info x07) None
        (MkChange 2 true false true false (λ af, match af with AF_INET => entries | AF_INET6 => [] end) (2, 2) 100)) in
      nwi_state_get_ifstate s "en0" = Some (Some 0%nat) ∧ nwi_state_get_first_ifstate s AF_INET = Some None
  | None => False
  end.
Proof. vm_compute. repeat split. Qed.
