(* ===== verification/DnsCreate.v ===== *)
(** * The DNS configuration: building it

    dnsinfo/dnsinfo_create.c, with the structures of dnsinfo.h and dnsinfo_private.h.
    A resolver and the configuration are one block of memory each: a header with the
    numbers in network byte order, and attributes behind it. A block starts with room
    for what is usual and is reallocated beyond that.

    Memory is bytes, an access outside the block is a crash, and lengths are words of
    32 bits. *)

From S2P Require Import Prelude.

Local Open Scope Z_scope.
Local Open Scope c_scope.

(** ** The structures

    All are packed to 4 bytes; a pointer takes 8. *)

Definition sizeof_ptr : Z := 8.

(** [dns_resolver_t] *)
Definition r_domain : Z := 0.
Definition r_n_nameserver : Z := 8.
Definition r_nameserver : Z := 12.
Definition r_port : Z := 20.
Definition r_n_search : Z := 24.
Definition r_search : Z := 28.
Definition r_n_sortaddr : Z := 36.
Definition r_sortaddr : Z := 40.
Definition r_options : Z := 48.
Definition r_timeout : Z := 56.
Definition r_search_order : Z := 60.
Definition r_if_index : Z := 64.
Definition r_flags : Z := 68.
Definition r_reach_flags : Z := 72.
Definition r_service_identifier : Z := 76.
Definition r_cid : Z := 80.
Definition r_if_name : Z := 88.
(** [_dns_resolver_buf_t] *)
Definition r_n_attribute : Z := 96.
Definition sizeof_resolver_buf : Z := 100.

(** [dns_config_t] *)
Definition c_n_resolver : Z := 0.
Definition c_resolver : Z := 4.
Definition c_n_scoped_resolver : Z := 12.
Definition c_scoped_resolver : Z := 16.
Definition c_generation : Z := 24.
Definition c_n_service_specific_resolver : Z := 32.
Definition c_service_specific_resolver : Z := 36.
Definition c_version : Z := 44.
(** [_dns_config_buf_t] *)
Definition c_n_attribute : Z := 48.
Definition c_n_padding : Z := 52.
Definition sizeof_config_buf : Z := 56.

(** [dns_attribute_t] *)
Definition sizeof_attribute : Z := 8.

Definition CONFIG_ATTRIBUTE_RESOLVER : Z := 1.
Definition CONFIG_ATTRIBUTE_SCOPED_RESOLVER : Z := 2.
Definition CONFIG_ATTRIBUTE_SERVICE_SPECIFIC_RESOLVER : Z := 3.

Definition RESOLVER_ATTRIBUTE_DOMAIN : Z := 10.
Definition RESOLVER_ATTRIBUTE_ADDRESS : Z := 11.
Definition RESOLVER_ATTRIBUTE_SEARCH : Z := 12.
Definition RESOLVER_ATTRIBUTE_SORTADDR : Z := 13.
Definition RESOLVER_ATTRIBUTE_OPTIONS : Z := 14.
Definition RESOLVER_ATTRIBUTE_CONFIGURATION_ID : Z := 15.
Definition RESOLVER_ATTRIBUTE_INTERFACE_NAME : Z := 16.

Definition DNS_RESOLVER_FLAGS_REQUEST_A_RECORDS : Z := 0x2.
Definition DNS_RESOLVER_FLAGS_REQUEST_AAAA_RECORDS : Z := 0x4.
Definition DNS_RESOLVER_FLAGS_REQUEST_ALL_RECORDS : Z :=
  Z.lor DNS_RESOLVER_FLAGS_REQUEST_A_RECORDS DNS_RESOLVER_FLAGS_REQUEST_AAAA_RECORDS.
Definition DNS_RESOLVER_FLAGS_SCOPED : Z := 0x1000.
Definition DNS_RESOLVER_FLAGS_SERVICE_SPECIFIC : Z := 0x2000.
Definition DNS_RESOLVER_FLAGS_SUPPLEMENTAL : Z := 0x4000.

Definition DNSINFO_VERSION : Z := 20170629.
Definition INITIAL_CONFIGURATION_BUF_SIZE : Z := 8192.
Definition INITIAL_RESOLVER_BUF_SIZE : Z := 1024.

(** [size] is a [size_t], so that the result has 64 bits. *)
Definition ROUNDUP (a size : Z) : Z :=
  if Z.land a (size - 1) =? 0 then a else 1 + Z.lor a (size - 1).

(** ** Memory *)

Definition block : Type := list byte.

Definition load (off n : Z) : C block (list byte) := λ s,
  match mem_load s off n with Some bs => Some (bs, s) | None => None end.
Definition store (off : Z) (bs : list byte) : C block unit := λ s,
  match mem_store s off bs with Some s => Some (tt, s) | None => None end.

(** Words in network byte order: [ntohl] of a word in memory, and [htonl] of the word
    that is stored. *)
Definition be_encode (n : nat) (z : Z) : list byte := rev (le_encode n z).
Definition be_decode (bs : list byte) : Z := le_decode (rev bs).
Definition ntohl (off : Z) : C block Z := let* bs := load off 4 in ret (be_decode bs).
Definition htonl (off z : Z) : C block unit := store off (be_encode 4 z).
Definition htons (off z : Z) : C block unit := store off (be_encode 2 z).

(** A C string in memory, with its NUL. *)
Definition c_bytes (s : string) : list byte := String.list_byte_of_string s ++ [x00].

Section create.
(** What memory added by [realloc] holds. *)
Variable garbage : nat → byte.

Definition realloc (size : Z) : C block unit :=
  modify (λ s, take (Z.to_nat size) s ++ map garbage (seq (length s) (Z.to_nat size - length s))).

(** ** Attributes *)

(** The body of [config_add_attribute] and [_dns_resolver_add_attribute]: the block has
    the count of attribute bytes at [n_attribute], its attributes from [attribute] on,
    and is reallocated beyond [initial]. [count] changes another count. *)
Definition add_attribute (n_attribute attribute initial : Z) (count : C block unit)
    (attribute_type attribute_length : Z) (data : list byte) : C block unit :=
  (* add space *)
  let* oldLen := ntohl n_attribute in
  let rounded_length := u32 (ROUNDUP attribute_length 4) in
  let newLen := u32 (sizeof_attribute + rounded_length) in
  let newSize := u32 (attribute + oldLen + newLen) in
  when (initial <? newSize) (realloc newSize);;
  (let* n := ntohl n_attribute in htonl n_attribute (u32 (n + newLen)));;
  count;;
  (* add attribute [header] *)
  let header := attribute + oldLen in
  htonl header attribute_type;;
  htonl (header + 4) newLen;;
  (* add attribute [data] *)
  let* bs := deref (mem_load data 0 attribute_length) in
  store (header + sizeof_attribute) bs;;
  store (header + sizeof_attribute + attribute_length)
    (replicate (Z.to_nat (rounded_length - attribute_length)) x00).

Definition _dns_resolver_add_attribute : Z → Z → list byte → C block unit :=
  add_attribute r_n_attribute sizeof_resolver_buf INITIAL_RESOLVER_BUF_SIZE (ret tt).

Definition config_add_attribute (attribute_type attribute_length : Z) (attribute : list byte)
    (extra_padding : Z) : C block unit :=
  add_attribute c_n_attribute sizeof_config_buf INITIAL_CONFIGURATION_BUF_SIZE
    (* increment additional padding that will be needed (later) *)
    (let* n := ntohl c_n_padding in htonl c_n_padding (u32 (n + extra_padding)))
    attribute_type attribute_length attribute.

(** ** Resolvers *)

Definition _dns_resolver_create : block := replicate (Z.to_nat INITIAL_RESOLVER_BUF_SIZE) x00.

Definition _dns_resolver_set_flags (flags : Z) : C block unit := htonl r_flags flags.

(** [sa_len], [sa_family] and the address of a [struct sockaddr]. *)
Definition sockaddr_len (sa : list byte) : option Z := Z_of_byte <$> sa !! 0%nat.
Definition sockaddr_family (sa : list byte) : option Z := Z_of_byte <$> sa !! 1%nat.
Definition AF_INET : Z := 2.
Definition AF_INET6 : Z := 28.
Definition INADDR_LOOPBACK : Z := 0x7f000001.
Definition in6addr_loopback : list byte := replicate 15 x00 ++ [x01].
Definition is_loopback (nameserver : list byte) : option bool :=
  f ← sockaddr_family nameserver;
  if f =? AF_INET then
    a ← mem_load nameserver 4 4; Some (be_decode a =? INADDR_LOOPBACK)
  else if f =? AF_INET6 then
    a ← mem_load nameserver 8 16; Some (bool_decide (a = in6addr_loopback))
  else Some false.

Definition _dns_resolver_add_nameserver (nameserver : list byte) : C block unit :=
  let* old_flags := ntohl r_flags in
  let* loopback := deref (is_loopback nameserver) in
  let new_flags := if loopback : bool then DNS_RESOLVER_FLAGS_REQUEST_ALL_RECORDS else 0 in
  (let* n := ntohl r_n_nameserver in htonl r_n_nameserver (u32 (n + 1)));;
  let* len := deref (sockaddr_len nameserver) in
  _dns_resolver_add_attribute RESOLVER_ATTRIBUTE_ADDRESS len nameserver;;
  when (negb (new_flags =? 0)) (_dns_resolver_set_flags (Z.lor old_flags new_flags)).

Definition add_string (attribute_type : Z) (s : string) : C block unit :=
  _dns_resolver_add_attribute attribute_type (u32 (u32 (Z.of_nat (String.length s)) + 1)) (c_bytes s).

Definition _dns_resolver_add_search (search : string) : C block unit :=
  (let* n := ntohl r_n_search in htonl r_n_search (u32 (n + 1)));;
  add_string RESOLVER_ATTRIBUTE_SEARCH search.

(** A [dns_sortaddr_t] is 8 bytes. *)
Definition sizeof_sortaddr : Z := 8.
Definition _dns_resolver_add_sortaddr (sortaddr : list byte) : C block unit :=
  (let* n := ntohl r_n_sortaddr in htonl r_n_sortaddr (u32 (n + 1)));;
  _dns_resolver_add_attribute RESOLVER_ATTRIBUTE_SORTADDR sizeof_sortaddr sortaddr.

Definition _dns_resolver_set_configuration_identifier (cid : string) : C block unit :=
  add_string RESOLVER_ATTRIBUTE_CONFIGURATION_ID cid.
Definition _dns_resolver_set_domain (domain : string) : C block unit :=
  add_string RESOLVER_ATTRIBUTE_DOMAIN domain.
Definition _dns_resolver_set_options (options : string) : C block unit :=
  add_string RESOLVER_ATTRIBUTE_OPTIONS options.

(** The name goes without its NUL. *)
Definition _dns_resolver_set_if_index (if_index : Z) (if_name : option string) : C block unit :=
  htonl r_if_index if_index;;
  match if_name with
  | Some if_name =>
      _dns_resolver_add_attribute RESOLVER_ATTRIBUTE_INTERFACE_NAME
        (u32 (Z.of_nat (String.length if_name))) (c_bytes if_name)
  | None => ret tt
  end.

Definition _dns_resolver_set_order (order : Z) : C block unit := htonl r_search_order order.
Definition _dns_resolver_set_port (port : Z) : C block unit := htons r_port port.
Definition _dns_resolver_set_timeout (timeout : Z) : C block unit := htonl r_timeout timeout.
Definition _dns_resolver_set_service_identifier (service_identifier : Z) : C block unit :=
  htonl r_service_identifier service_identifier.
End create.

(** ** The reachability of a resolver *)

Definition kSCNetworkReachabilityFlagsReachable : Z := 0x2.
Definition kSCNetworkReachabilityFlagsConnectionRequired : Z := 0x4.

Definition ReachabilityRankNone : Z := 0.
Definition ReachabilityRankConnectionRequired : Z := 1.
Definition ReachabilityRankReachable : Z := 2.
Definition __SCNetworkReachabilityRank (flags : Z) : Z :=
  if negb (Z.land flags kSCNetworkReachabilityFlagsReachable =? 0) then
    if negb (Z.land flags kSCNetworkReachabilityFlagsConnectionRequired =? 0)
    then ReachabilityRankConnectionRequired else ReachabilityRankReachable
  else ReachabilityRankNone.

(** [if_indextoname(3)], and SCNetworkReachability for an address, through an interface
    or any: [None] if no target can be made, [Some None] if its flags are not known. *)
Class Reachability := {
  if_indextoname : Z → option string;
  reachability : option string → list byte → option (option Z);
}.

Section reach.
Context `{!Reachability}.

(** The loop over the attributes at [attribute], with [n_attribute] bytes to go; it
    returns [flags]. Running out of fuel is a crash. *)
Fixpoint reach_loop (fuel : nat) (targetInterface : option string)
    (attribute n_attribute n_nameserver flags : Z) : C block Z :=
  match fuel with
  | O => crash
  | S fuel =>
      if n_attribute <? sizeof_attribute then ret flags else
      let* attribute_length := ntohl (attribute + 4) in
      let* attribute_type := ntohl attribute in
      let next := reach_loop fuel targetInterface (attribute + attribute_length)
                    (u32 (n_attribute - attribute_length)) in
      if attribute_type =? RESOLVER_ATTRIBUTE_ADDRESS then
        let* sa := load (attribute + sizeof_attribute) 1 in
        let* len := deref (sockaddr_len sa) in
        let* addr := load (attribute + sizeof_attribute) len in
        match reachability targetInterface addr with
        | None =>
            match reachability None addr with
            | Some _ => (* interface name not (no longer) valid *) ret 0
            | None => (* address not valid? *) ret flags
            end
        | Some None => ret flags
        | Some (Some ns_flags) =>
            if (n_nameserver =? 0) || (__SCNetworkReachabilityRank flags <? __SCNetworkReachabilityRank ns_flags)
            then (* the first (and later, best case) result *)
              if __SCNetworkReachabilityRank ns_flags =? ReachabilityRankReachable then ret ns_flags
              else next (n_nameserver + 1) ns_flags
            else next (n_nameserver + 1) flags
        end
      else next n_nameserver flags
  end.

Definition _dns_resolver_set_reach_flags : C block unit :=
  let* n := load r_n_nameserver 4 in
  if bool_decide (n = replicate 4 x00) then ret tt else
  let* raw := load r_if_index 4 in
  let* if_index := ntohl r_if_index in
  let targetInterface := if bool_decide (raw = replicate 4 x00) then None else if_indextoname if_index in
  let* n_attribute := ntohl r_n_attribute in
  let* flags := reach_loop (S (Z.to_nat n_attribute)) targetInterface sizeof_resolver_buf n_attribute 0
                  kSCNetworkReachabilityFlagsReachable in
  htonl r_reach_flags flags.

(** ** The configuration *)

Variable garbage : nat → byte.

(** [now] is [mach_absolute_time()]; version and generation are in host byte order. *)
Definition _dns_configuration_create (now : Z) : C block unit :=
  modify (λ _, replicate (Z.to_nat INITIAL_CONFIGURATION_BUF_SIZE) x00);;
  store c_version (le_encode 4 DNSINFO_VERSION);;
  store c_generation (le_encode 8 now).

(** What [_dns_configuration_add_resolver] reads of the resolver, whose reachability
    flags it has set: the padding that is needed and the flags. *)
Definition resolver_padding : C block Z :=
  let* n_nameserver := ntohl r_n_nameserver in
  let* n_search := ntohl r_n_search in
  let* n_sortaddr := ntohl r_n_sortaddr in
  ret (u32 (sizeof_ptr + n_nameserver * sizeof_ptr + n_search * sizeof_ptr + n_sortaddr * sizeof_ptr)).

(** The state is the configuration; the block of the resolver afterwards. *)
Definition _dns_configuration_add_resolver (resolver : block) : C block block :=
  let* '(_, resolver) := deref (_dns_resolver_set_reach_flags resolver) in
  let* '(padding, _) := deref (resolver_padding resolver) in
  let* '(flags, _) := deref (ntohl r_flags resolver) in
  let* '(n_attribute, _) := deref (ntohl r_n_attribute resolver) in
  let add (count attribute_type : Z) : C block unit :=
    (let* n := ntohl count in htonl count (u32 (n + 1)));;
    config_add_attribute garbage attribute_type (u32 (sizeof_resolver_buf + n_attribute)) resolver padding in
  (if negb (Z.land flags DNS_RESOLVER_FLAGS_SCOPED =? 0)
   then add c_n_scoped_resolver CONFIG_ATTRIBUTE_SCOPED_RESOLVER
   else if negb (Z.land flags DNS_RESOLVER_FLAGS_SERVICE_SPECIFIC =? 0)
   then add c_n_service_specific_resolver CONFIG_ATTRIBUTE_SERVICE_SPECIFIC_RESOLVER
   else add c_n_resolver CONFIG_ATTRIBUTE_RESOLVER);;
  ret resolver.

(** The digest of the configuration without its generation. *)
Variable sha1 : list byte → list byte.
Definition _dns_configuration_signature (config : option block) (signature_len : nat) : option (list byte) :=
  match config with
  | None => Some (replicate signature_len x00)
  | Some config =>
      match (let* n_attribute := ntohl c_n_attribute in
             store c_generation (replicate 8 x00);;
             load 0 (sizeof_config_buf + n_attribute)) config with
      | Some (bs, _) =>
          let digest := sha1 bs in
          Some (take signature_len digest ++ replicate (signature_len - length digest) x00)
      | None => None
      end
  end.
End reach.
