(* ===== verification/DnsExpand.v ===== *)
(** * The DNS configuration: expanding it

    dnsinfo/dnsinfo_internal.h: a client copies the flat configuration into a buffer
    with padding behind it, and expands it in place: numbers are brought to host byte
    order, and pointers to the attributes are filled in, the lists of pointers in the
    padding. [base] is the address of the buffer; a pointer is an address, an access
    outside the buffer a crash. *)

From S2P Require Import Prelude DnsCreate.

Local Open Scope Z_scope.
Local Open Scope c_scope.

Definition DNS_CONFIG_BUF_MAX : Z := 1024 * 1024.

(** [goto error]: the function returns NULL, here [None]. *)
Definition error {A} : C block (option A) := ret None.
Definition try {A B} (m : C block (option A)) (k : A → C block (option B)) : C block (option B) :=
  let* r := m in match r with Some a => k a | None => error end.
Notation "'let?' ' p := m 'in' k" := (try m (λ v, match v with p => k end))
  (at level 10, p strict pattern, m at level 100, k at level 200) : c_scope.

(** Fields in host byte order. *)
Definition store32 (off z : Z) : C block unit := store off (le_encode 4 z).
Definition load32 (off : Z) : C block Z := let* bs := load off 4 in ret (le_decode bs).
Definition store_ptr (off p : Z) : C block unit := store off (le_encode 8 p).
Definition load_ptr (off : Z) : C block Z := let* bs := load off 8 in ret (le_decode bs).
(** [field = ntohl(field)]; its value. *)
Definition ntohl_field (off : Z) : C block Z := let* v := ntohl off in store32 off v;; ret v.

Section expand.
Variable base : Z.

(** The list, NULL if it is empty, and what is left of the padding. *)
Definition __dns_configuration_expand_add_list (padding n_padding count size : Z) : option (Z * (Z * Z)) :=
  let need := u32 (count * size) in
  if n_padding <? need then None
  else Some (if need =? 0 then 0 else padding, (padding + need, u32 (n_padding - need))).

(** A count and the list it asks for, stored in [field]. *)
Definition expand_list (n_field field : Z) (pad : Z * Z) : C block (option (Z * (Z * Z))) :=
  let* count := ntohl_field n_field in
  match __dns_configuration_expand_add_list pad.1 pad.2 count sizeof_ptr with
  | None => error
  | Some (list, pad) => store_ptr field list;; ret (Some (count, pad))
  end.

(** [list[n] = p], an error if the list in [field] is NULL. *)
Definition fill_list (field n p : Z) : C block (option ()) :=
  let* list := load_ptr field in
  if list =? 0 then error
  else store_ptr (list + sizeof_ptr * n - base) p;; ret (Some ()).

(** ** A resolver *)

(** The lists filled so far: name servers, search domains, sort addresses. *)
Record filled := MkFilled { n_nameserver : Z; n_search : Z; n_sortaddr : Z }.

(** The [switch] for one attribute. *)
Definition expand_attribute (resolver attribute attribute_type : Z) (n : filled) : C block (option filled) :=
  let p := base + attribute + sizeof_attribute in
  if attribute_type =? RESOLVER_ATTRIBUTE_DOMAIN then
    store_ptr (resolver + r_domain) p;; ret (Some n)
  else if attribute_type =? RESOLVER_ATTRIBUTE_ADDRESS then
    let? '_ := fill_list (resolver + r_nameserver) (n_nameserver n) p in
    ret (Some (MkFilled (n_nameserver n + 1) (n_search n) (n_sortaddr n)))
  else if attribute_type =? RESOLVER_ATTRIBUTE_SEARCH then
    let? '_ := fill_list (resolver + r_search) (n_search n) p in
    ret (Some (MkFilled (n_nameserver n) (n_search n + 1) (n_sortaddr n)))
  else if attribute_type =? RESOLVER_ATTRIBUTE_SORTADDR then
    let? '_ := fill_list (resolver + r_sortaddr) (n_sortaddr n) p in
    ret (Some (MkFilled (n_nameserver n) (n_search n) (n_sortaddr n + 1)))
  else if attribute_type =? RESOLVER_ATTRIBUTE_OPTIONS then
    store_ptr (resolver + r_options) p;; ret (Some n)
  else if attribute_type =? RESOLVER_ATTRIBUTE_CONFIGURATION_ID then
    store_ptr (resolver + r_cid) p;; ret (Some n)
  else if attribute_type =? RESOLVER_ATTRIBUTE_INTERFACE_NAME then
    store_ptr (resolver + r_if_name) p;; ret (Some n)
  else ret (Some n).

(** The [while] loop; running out of fuel is a crash. *)
Fixpoint expand_attributes (fuel : nat) (resolver attribute n_attribute : Z) (n : filled)
    : C block (option filled) :=
  match fuel with
  | O => crash
  | S fuel =>
      if n_attribute <? sizeof_attribute then ret (Some n) else
      let* attribute_length := ntohl (attribute + 4) in
      let* attribute_type := ntohl attribute in
      let? 'n := expand_attribute resolver attribute attribute_type n in
      expand_attributes fuel resolver (attribute + attribute_length)
        (u32 (n_attribute - attribute_length)) n
  end.

(** [buf] is the offset of the resolver in the buffer, [pad] the address and the size
    of what is left of the padding. *)
Definition _dns_configuration_expand_resolver (buf n_buf : Z) (pad : Z * Z) : C block (option (Z * Z)) :=
  if n_buf <? sizeof_resolver_buf then error else
  store_ptr (buf + r_domain) 0;;
  let? '(nameservers, pad) := expand_list (buf + r_n_nameserver) (buf + r_nameserver) pad in
  (let* port := load (buf + r_port) 2 in store (buf + r_port) (le_encode 2 (be_decode port)));;
  let? '(searches, pad) := expand_list (buf + r_n_search) (buf + r_search) pad in
  let? '(sortaddrs, pad) := expand_list (buf + r_n_sortaddr) (buf + r_sortaddr) pad in
  store_ptr (buf + r_options) 0;;
  ntohl_field (buf + r_timeout);;
  ntohl_field (buf + r_search_order);;
  ntohl_field (buf + r_if_index);;
  ntohl_field (buf + r_service_identifier);;
  ntohl_field (buf + r_flags);;
  ntohl_field (buf + r_reach_flags);;
  (* process resolver buffer "attribute" data *)
  let n_attribute := u32 (n_buf - sizeof_resolver_buf) in
  let* declared := ntohl (buf + r_n_attribute) in
  if negb (n_attribute =? declared) then error else
  let? 'n := expand_attributes (S (Z.to_nat n_attribute)) buf (buf + sizeof_resolver_buf) n_attribute
               (MkFilled 0 0 0) in
  if negb (n_nameserver n =? i32 nameservers) || negb (n_search n =? i32 searches) ||
     negb (n_sortaddr n =? i32 sortaddrs) then error
  else ret (Some pad).

(** ** The configuration *)

(** [None] is NULL: a size that does not fit. *)
Definition _dns_configuration_buffer_create (dataRef : block) (dataLen : Z) : C block (option ()) := λ _,
  match ntohl c_n_attribute dataRef, ntohl c_n_padding dataRef, mem_load dataRef 0 dataLen with
  | Some (n_attribute, _), Some (n_padding, _), Some data =>
      let configLen := sizeof_config_buf + n_attribute in
      if negb (configLen =? dataLen) then Some (None, [])
      else if u64 (DNS_CONFIG_BUF_MAX - dataLen) <? n_padding then Some (None, [])
      else if DNS_CONFIG_BUF_MAX <? dataLen + n_padding then Some (None, [])
      else Some (Some (), data ++ replicate (Z.to_nat n_padding) x00)
  | _, _, _ => None
  end.

(** How many resolvers of each list there are so far. *)
Record listed := MkListed { n_resolver : Z; n_scoped_resolver : Z; n_service_specific_resolver : Z }.

(** One attribute of the configuration. *)
Definition expand_config_attribute (attribute attribute_length attribute_type : Z) (n : listed) (pad : Z * Z)
    : C block (option (listed * (Z * Z))) :=
  if (attribute_type =? CONFIG_ATTRIBUTE_RESOLVER) || (attribute_type =? CONFIG_ATTRIBUTE_SCOPED_RESOLVER) ||
     (attribute_type =? CONFIG_ATTRIBUTE_SERVICE_SPECIFIC_RESOLVER)
  then
    let resolver := attribute + sizeof_attribute in
    let? 'pad := _dns_configuration_expand_resolver resolver (u32 (attribute_length - sizeof_attribute)) pad in
    (* add resolver to config list *)
    if attribute_type =? CONFIG_ATTRIBUTE_RESOLVER then
      let? '_ := fill_list c_resolver (n_resolver n) (base + resolver) in
      ret (Some (MkListed (n_resolver n + 1) (n_scoped_resolver n) (n_service_specific_resolver n), pad))
    else if attribute_type =? CONFIG_ATTRIBUTE_SCOPED_RESOLVER then
      let? '_ := fill_list c_scoped_resolver (n_scoped_resolver n) (base + resolver) in
      ret (Some (MkListed (n_resolver n) (n_scoped_resolver n + 1) (n_service_specific_resolver n), pad))
    else
      let? '_ := fill_list c_service_specific_resolver (n_service_specific_resolver n) (base + resolver) in
      ret (Some (MkListed (n_resolver n) (n_scoped_resolver n) (n_service_specific_resolver n + 1), pad))
  else ret (Some (n, pad)).

Fixpoint expand_config_attributes (fuel : nat) (attribute n_attribute : Z) (n : listed) (pad : Z * Z)
    : C block (option listed) :=
  match fuel with
  | O => crash
  | S fuel =>
      if n_attribute <? sizeof_attribute then ret (Some n) else
      let* attribute_length := ntohl (attribute + 4) in
      let* attribute_type := ntohl attribute in
      let? '(n, pad) := expand_config_attribute attribute attribute_length attribute_type n pad in
      expand_config_attributes fuel (attribute + attribute_length)
        (u32 (n_attribute - attribute_length)) n pad
  end.

(** [Some] if the configuration was expanded, in place. *)
Definition _dns_configuration_buffer_expand : C block (option ()) :=
  let* n_attribute := ntohl c_n_attribute in
  let* n_padding := ntohl c_n_padding in
  (* establish the start of padding to be after the last attribute *)
  let pad := (base + sizeof_config_buf + n_attribute, n_padding) in
  let? '(resolvers, pad) := expand_list c_n_resolver c_resolver pad in
  let? '(scoped, pad) := expand_list c_n_scoped_resolver c_scoped_resolver pad in
  let? '(specific, pad) := expand_list c_n_service_specific_resolver c_service_specific_resolver pad in
  let? 'n := expand_config_attributes (S (Z.to_nat n_attribute)) sizeof_config_buf n_attribute
               (MkListed 0 0 0) pad in
  if negb (n_resolver n =? i32 resolvers) then error
  else if negb (n_scoped_resolver n =? i32 scoped) then error
  else if negb (n_service_specific_resolver n =? i32 specific) then error
  else ret (Some ()).

(** ** What a client reads

    The structures of dnsinfo.h, found through the pointers of an expanded buffer;
    [None] is a read outside of it. *)

Record dns_resolver := MkResolver {
  dr_domain : option string;
  dr_nameserver : list (list byte);
  dr_port : Z;
  dr_search : list string;
  dr_sortaddr : list (list byte);
  dr_options : option string;
  dr_timeout : Z;
  dr_search_order : Z;
  dr_if_index : Z;
  dr_flags : Z;
  dr_reach_flags : Z;
  dr_service_identifier : Z;
  dr_cid : option string;
  dr_if_name : option string;
}.
Record dns_config := MkConfig {
  dc_resolver : list dns_resolver;
  dc_scoped_resolver : list dns_resolver;
  dc_service_specific_resolver : list dns_resolver;
  dc_generation : Z;
  dc_version : Z;
}.

Section client.
Variable mem : block.

Definition read_n (off : Z) (n : Z) : option Z := le_decode <$> mem_load mem off n.

(** A C string must end inside the buffer. *)
Definition read_string (p : Z) : option string :=
  let off := p - base in
  if (off <? 0) || (Z.of_nat (length mem) <=? off) then None else
  let bs := drop (Z.to_nat off) mem in
  if existsb (λ b, bool_decide (b = x00)) bs then Some (c_string bs) else None.
(** NULL is no string. *)
Definition read_opt_string (off : Z) : option (option string) :=
  p ← read_n off 8; if p =? 0 then Some None else Some <$> read_string p.
Definition read_sockaddr (p : Z) : option (list byte) :=
  sa ← mem_load mem (p - base) 1; len ← sockaddr_len sa; mem_load mem (p - base) len.
Definition read_sortaddr (p : Z) : option (list byte) := mem_load mem (p - base) sizeof_sortaddr.

(** The elements of a list of pointers. *)
Definition read_list {A} (read : Z → option A) (n_off list_off : Z) : option (list A) :=
  n ← read_n n_off 4;
  list ← read_n list_off 8;
  mapM (λ i, p ← read_n (list + sizeof_ptr * Z.of_nat i - base) 8; read p) (seq 0 (Z.to_nat (i32 n))).

Definition read_resolver (p : Z) : option dns_resolver :=
  let off := p - base in
  domain ← read_opt_string (off + r_domain);
  nameserver ← read_list read_sockaddr (off + r_n_nameserver) (off + r_nameserver);
  port ← read_n (off + r_port) 2;
  search ← read_list read_string (off + r_n_search) (off + r_search);
  sortaddr ← read_list read_sortaddr (off + r_n_sortaddr) (off + r_sortaddr);
  options ← read_opt_string (off + r_options);
  timeout ← read_n (off + r_timeout) 4;
  search_order ← read_n (off + r_search_order) 4;
  if_index ← read_n (off + r_if_index) 4;
  flags ← read_n (off + r_flags) 4;
  reach_flags ← read_n (off + r_reach_flags) 4;
  service_identifier ← read_n (off + r_service_identifier) 4;
  cid ← read_opt_string (off + r_cid);
  if_name ← read_opt_string (off + r_if_name);
  Some (MkResolver domain nameserver port search sortaddr options timeout search_order if_index flags
          reach_flags service_identifier cid if_name).

Definition read_config : option dns_config :=
  resolver ← read_list read_resolver c_n_resolver c_resolver;
  scoped ← read_list read_resolver c_n_scoped_resolver c_scoped_resolver;
  specific ← read_list read_resolver c_n_service_specific_resolver c_service_specific_resolver;
  generation ← read_n c_generation 8;
  version ← read_n c_version 4;
  Some (MkConfig resolver scoped specific generation version).
End client.

(** A client's copy of a configuration: what it reads, [Some None] if there is none. *)
Definition copy_config (config : block) (dataLen : Z) : option (option dns_config) :=
  match _dns_configuration_buffer_create config dataLen [] with
  | Some (Some _, buf) =>
      match _dns_configuration_buffer_expand buf with
      | Some (Some _, buf) => Some <$> read_config buf
      | Some (None, _) => Some None
      | None => None
      end
  | Some (None, _) => Some None
  | None => None
  end.
End expand.
