(* ===== verification/DnsBuild.v ===== *)
(** * The DNS configuration: blocks made of fields

    A structure in memory is a list of fields of known sizes ([layout]); an attribute
    is a type, a length and padded data. Loads and stores of one field of a block, and
    what adding an attribute does to it. *)

From S2P Require Import Prelude DnsCreate DnsExpand.

Local Open Scope Z_scope.
Local Open Scope c_scope.

(** ** Words in network byte order *)

Lemma length_be_encode n z : length (be_encode n z) = n.
Proof. unfold be_encode. by rewrite length_rev, length_le_encode. Qed.

Lemma be_decode_encode n z : be_decode (be_encode n z) = z mod 256 ^ Z.of_nat n.
Proof. unfold be_decode, be_encode. by rewrite rev_involutive, le_decode_encode. Qed.

Lemma be_decode_u32 z : be_decode (be_encode 4 z) = u32 z.
Proof. apply be_decode_encode. Qed.

Lemma le_encode_mod n z : le_encode n (z mod 256 ^ Z.of_nat n) = le_encode n z.
Proof.
  revert z. induction n as [|n IH]; intros z; [done|]. cbn [le_encode].
  rewrite pow256_succ, Z.rem_mul_r, (Z.mul_comm 256) by lia. f_equal.
  - by rewrite <-byte_of_Z_mod, Z.mod_add, Z.mod_mod, byte_of_Z_mod by lia.
  - rewrite Z.div_add, Z.div_small by (lia || by apply Z.mod_pos_bound). apply IH.
Qed.

Lemma be_encode_u32 z : be_encode 4 (u32 z) = be_encode 4 z.
Proof. unfold be_encode, u32. f_equal. apply (le_encode_mod 4). Qed.

Lemma u32_add_l a b : u32 (u32 a + b) = u32 (a + b).
Proof. unfold u32. by rewrite Zplus_mod_idemp_l. Qed.

Lemma u32_add_r a b : u32 (a + u32 b) = u32 (a + b).
Proof. unfold u32. by rewrite Zplus_mod_idemp_r. Qed.

Lemma u32_fits z : 0 <= z < 2 ^ 32 → u32 z = z.
Proof. apply Z.mod_small. Qed.

(** ** Loads and stores *)

Lemma load_bytes_at pre bs post off n : off = Z.of_nat (length pre) → n = Z.of_nat (length bs) →
  load off n (pre ++ bs ++ post) = Some (bs, pre ++ bs ++ post).
Proof. intros Ho Hn. unfold load. by rewrite load_mid. Qed.

Lemma store_bytes_at pre old new post off : off = Z.of_nat (length pre) → length old = length new →
  store off new (pre ++ old ++ post) = Some (tt, pre ++ new ++ post).
Proof. intros Ho Hl. unfold store. by rewrite store_mid. Qed.

(** The same in front of other commands. *)
Lemma load_then {A} (k : list byte → C block A) pre bs post off n :
  off = Z.of_nat (length pre) → n = Z.of_nat (length bs) →
  bind (load off n) k (pre ++ bs ++ post) = k bs (pre ++ bs ++ post).
Proof. intros Ho Hn. apply bind_eq. by apply load_bytes_at. Qed.

Lemma store_then {A} (k : unit → C block A) pre old new post off :
  off = Z.of_nat (length pre) → length old = length new →
  bind (store off new) k (pre ++ old ++ post) = k tt (pre ++ new ++ post).
Proof. intros Ho Hl. apply bind_eq. by apply store_bytes_at. Qed.

Lemma ntohl_at pre z post off : off = Z.of_nat (length pre) →
  ntohl off (pre ++ be_encode 4 z ++ post) = Some (u32 z, pre ++ be_encode 4 z ++ post).
Proof.
  intros Ho. unfold ntohl. rewrite load_then by (done || by rewrite length_be_encode).
  unfold ret. by rewrite be_decode_u32.
Qed.

(** The structure [h] with fields of the sizes [L] lies behind [pre]. *)
Section field.
Variables (L : list nat) (h : list (list byte)) (i : nat) (pre rest : list byte) (off : Z).
Hypothesis HL : length <$> h = L.
Hypothesis Hoff : off = Z.of_nat (length pre) + Z.of_nat (sum_list (take i L)).

Lemma field_split c : h !! i = Some c →
  pre ++ concat h ++ rest = (pre ++ concat (take i h)) ++ c ++ concat (drop (S i) h) ++ rest ∧
  off = Z.of_nat (length (pre ++ concat (take i h))).
Proof using HL Hoff.
  intros Hc. split.
  - rewrite <-(take_drop_middle h i c Hc) at 1. rewrite concat_app. cbn [concat]. by rewrite <-!app_assoc.
  - rewrite Hoff, length_app, Nat2Z.inj_add. do 2 f_equal. rewrite <-HL, <-fmap_take.
    generalize (take i h). intros l. induction l as [|x l IH]; [done|]. cbn. rewrite length_app. lia.
Qed.

Lemma load_field c n : h !! i = Some c → n = Z.of_nat (length c) →
  load off n (pre ++ concat h ++ rest) = Some (c, pre ++ concat h ++ rest).
Proof using HL Hoff. intros Hc Hn. destruct (field_split c Hc) as [-> E]. by apply load_bytes_at. Qed.

Lemma ntohl_field_at z : h !! i = Some (be_encode 4 z) →
  ntohl off (pre ++ concat h ++ rest) = Some (u32 z, pre ++ concat h ++ rest).
Proof using HL Hoff.
  intros Hc. unfold ntohl. rewrite (bind_eq _ _ _ _ _ (load_field _ 4 Hc ltac:(by rewrite length_be_encode))).
  unfold ret. by rewrite be_decode_u32.
Qed.

Lemma store_field v : L !! i = Some (length v) →
  store off v (pre ++ concat h ++ rest) = Some (tt, pre ++ concat (<[i:=v]> h) ++ rest).
Proof using HL Hoff.
  intros Hv. rewrite <-HL in Hv. apply list_lookup_fmap_Some in Hv as (c & Hl & Hc).
  destruct (field_split c Hc) as [-> E]. rewrite (store_bytes_at _ c v) by done.
  rewrite <-!app_assoc. rewrite insert_take_drop by (by eapply lookup_lt_Some).
  rewrite concat_app. cbn [concat]. by rewrite <-!app_assoc.
Qed.
End field.

(** The same at the front of a block. *)
Lemma store_front L h i rest off v : length <$> h = L → off = Z.of_nat (sum_list (take i L)) →
  L !! i = Some (length v) → store off v (concat h ++ rest) = Some (tt, concat (<[i := v]> h) ++ rest).
Proof. intros HL Ho. by apply (store_field L h i []). Qed.

Lemma ntohl_front L h i rest off z : length <$> h = L → off = Z.of_nat (sum_list (take i L)) →
  h !! i = Some (be_encode 4 z) → ntohl off (concat h ++ rest) = Some (u32 z, concat h ++ rest).
Proof. intros HL Ho. by apply (ntohl_field_at L h i []). Qed.

(** ** Attributes *)

Definition pad4 (n : nat) : nat := (3 - (n + 3) mod 4)%nat.

Lemma pad4_spec n : ∃ k, (n + pad4 n = 4 * k)%nat ∧ (4 * k < n + 4)%nat.
Proof.
  unfold pad4. exists ((n + 3) / 4)%nat.
  pose proof (Nat.div_mod_eq (n + 3) 4). pose proof (Nat.mod_upper_bound (n + 3) 4 ltac:(done)). lia.
Qed.

Lemma pad4_multiple n k : (n = 4 * k)%nat → pad4 n = 0%nat.
Proof. intros E. destruct (pad4_spec n) as (j & ? & ?). lia. Qed.

Lemma ROUNDUP_pad4 n : ROUNDUP (Z.of_nat n) 4 = Z.of_nat (n + pad4 n).
Proof.
  unfold ROUNDUP. change (4 - 1) with (Z.ones 2).
  rewrite Z.land_ones by lia. change (2 ^ 2) with 4.
  destruct (pad4_spec n) as (k & Hk & Hlt).
  pose proof (Z.div_mod (Z.of_nat n) 4 ltac:(done)). pose proof (Z.mod_pos_bound (Z.of_nat n) 4 eq_refl).
  case_match eqn:E; [apply Z.eqb_eq in E; lia|apply Z.eqb_neq in E].
  pose proof (Z.add_lor_land (Z.of_nat n) (Z.ones 2)) as Hor.
  rewrite Z.land_ones in Hor by lia. change (2 ^ 2) with 4 in Hor. change (Z.ones 2) with 3 in *. lia.
Qed.

(** ** The DNS configuration: what building a resolver leaves in memory

    A block that holds a resolver is its header, the attributes added so far, and
    room. Each function of dnsinfo_create.c changes the header and appends an
    attribute; seen by a client this is the operation [spec_op] on the resolver. *)

(** ** One attribute *)

Definition attr : Type := Z * list byte.
Definition attr_size (a : attr) : nat := (8 + (length a.2 + pad4 (length a.2)))%nat.
Definition enc_attr (a : attr) : list byte :=
  be_encode 4 a.1 ++ be_encode 4 (Z.of_nat (attr_size a)) ++ a.2 ++ replicate (pad4 (length a.2)) x00.
Definition enc_attrs (l : list attr) : list byte := concat (enc_attr <$> l).

Lemma length_enc_attr a : length (enc_attr a) = attr_size a.
Proof. unfold enc_attr, attr_size. rewrite !length_app, !length_be_encode, length_replicate. lia. Qed.

Lemma enc_attrs_app l l' : enc_attrs (l ++ l') = enc_attrs l ++ enc_attrs l'.
Proof. unfold enc_attrs. by rewrite fmap_app, concat_app. Qed.

Lemma enc_attrs_one a : enc_attrs [a] = enc_attr a.
Proof. apply app_nil_r. Qed.

Section add.
Variable garbage : nat → byte.

Lemma realloc_room used slack n : (length used ≤ n)%nat → ∃ slack',
  realloc garbage (Z.of_nat n) (used ++ slack) = Some (tt, used ++ slack') ∧
  length (used ++ slack') = n.
Proof.
  intros Hn. unfold realloc, modify. rewrite Nat2Z.id, take_app_ge by done.
  eexists. rewrite <-app_assoc. split; [done|].
  rewrite !length_app, length_take, length_map, length_seq. lia.
Qed.

(** The four stores of [add_attribute], behind [used]. *)
Lemma write_attr used slack t d (header : Z) : header = Z.of_nat (length used) →
  (length (enc_attr (t, d)) ≤ length slack)%nat →
  (htonl header t;;
   htonl (header + 4) (Z.of_nat (attr_size (t, d)));;
   store (header + 8) d;;
   store (header + 8 + Z.of_nat (length d)) (replicate (pad4 (length d)) x00)) (used ++ slack) =
  Some (tt, used ++ enc_attr (t, d) ++ drop (length (enc_attr (t, d))) slack).
Proof.
  intros -> Hl. rewrite length_enc_attr in *. pose proof Hl as Hl0. unfold attr_size in Hl0. cbn [snd] in Hl0.
  set (x1 := take 4 slack). set (x2 := take 4 (drop 4 slack)). set (x3 := take (length d) (drop 8 slack)).
  set (x4 := take (pad4 (length d)) (drop (8 + length d) slack)).
  assert (E : slack = x1 ++ x2 ++ x3 ++ x4 ++ drop (attr_size (t, d)) slack).
  { unfold x1, x2, x3, x4, attr_size. cbn [snd].
    rewrite <-(take_drop 4 slack) at 1. f_equal. rewrite <-(take_drop 4 (drop 4 slack)) at 1.
    f_equal. rewrite drop_drop. rewrite <-(take_drop (length d) (drop (4 + 4) slack)) at 1. f_equal.
    rewrite drop_drop. rewrite <-(take_drop (pad4 (length d)) (drop (4 + 4 + length d) slack)) at 1. f_equal.
    rewrite drop_drop. do 2 f_equal; lia. }
  assert (L1 : length x1 = 4%nat) by (unfold x1; rewrite length_take; lia).
  assert (L2 : length x2 = 4%nat) by (unfold x2; rewrite length_take, length_drop; lia).
  assert (L3 : length x3 = length d) by (unfold x3; rewrite length_take, length_drop; lia).
  assert (L4 : length x4 = pad4 (length d)) by (unfold x4; rewrite length_take, length_drop; lia).
  rewrite E at 1. clearbody x1 x2 x3 x4. set (rest := drop (attr_size (t, d)) slack). clearbody rest.
  unfold htonl. rewrite (store_then _ used x1) by (done || by rewrite length_be_encode).
  rewrite app_assoc, (store_then _ _ x2) by (rewrite ?length_app, ?length_be_encode; lia).
  rewrite (app_assoc (used ++ _)), (store_then _ _ x3) by (rewrite ?length_app, ?length_be_encode; lia).
  rewrite (app_assoc ((used ++ _) ++ _)), (store_bytes_at _ x4)
    by (rewrite ?length_app, ?length_be_encode, ?length_replicate; lia).
  unfold enc_attr. cbn [fst snd]. by rewrite <-!app_assoc.
Qed.

(** Adding [d], the first [length d] bytes of [data], as an attribute: [mid] lies
    between the count of attribute bytes and the attributes [A]. *)
Lemma add_attribute_at pre mid mid' A slack t d extra n_attribute attribute initial count :
  n_attribute = Z.of_nat (length pre) → attribute = Z.of_nat (length pre + 4 + length mid) →
  0 <= initial <= Z.of_nat (length (pre ++ be_encode 4 0 ++ mid ++ A ++ slack)) →
  attribute + Z.of_nat (length A + attr_size (t, d)) < 2 ^ 32 →
  (∀ n X, count (pre ++ be_encode 4 n ++ mid ++ X) = Some (tt, pre ++ be_encode 4 n ++ mid' ++ X)) →
  length mid' = length mid →
  ∃ slack',
    add_attribute garbage n_attribute attribute initial count t (Z.of_nat (length d)) (d ++ extra)
      (pre ++ be_encode 4 (Z.of_nat (length A)) ++ mid ++ A ++ slack) =
    Some (tt, pre ++ be_encode 4 (Z.of_nat (length A + attr_size (t, d))) ++ mid' ++
              (A ++ enc_attr (t, d)) ++ slack') ∧
    initial <= Z.of_nat (length (pre ++ be_encode 4 0 ++ mid ++ (A ++ enc_attr (t, d)) ++ slack')).
Proof.
  intros -> -> Hini Hfit Hcount Hmid. unfold add_attribute.
  unfold attr_size in Hfit. cbn [snd] in Hfit.
  rewrite (bind_eq _ _ _ _ _ (ntohl_at _ _ _ _ eq_refl)), (u32_fits (Z.of_nat (length A))) by lia.
  rewrite ROUNDUP_pad4, (u32_fits (Z.of_nat (length d + _))) by lia.
  assert (Hsz : u32 (sizeof_attribute + Z.of_nat (length d + pad4 (length d))) = Z.of_nat (attr_size (t, d))).
  { rewrite u32_fits; unfold sizeof_attribute, attr_size; cbn [snd]; lia. }
  rewrite Hsz. set (size := (length pre + 4 + length mid + length A + attr_size (t, d))%nat).
  assert (Hns : u32 (Z.of_nat (length pre + 4 + length mid) + Z.of_nat (length A) + Z.of_nat (attr_size (t, d))) =
                Z.of_nat size).
  { rewrite u32_fits; unfold size, attr_size; cbn [snd]; lia. }
  rewrite Hns. cbv zeta.
  assert (Hroom : ∃ slack1, when (initial <? Z.of_nat size) (realloc garbage (Z.of_nat size))
    (pre ++ be_encode 4 (Z.of_nat (length A)) ++ mid ++ A ++ slack) =
    Some (tt, pre ++ be_encode 4 (Z.of_nat (length A)) ++ mid ++ A ++ slack1) ∧
    (attr_size (t, d) ≤ length slack1)%nat ∧
    initial <= Z.of_nat (length pre + 4 + length mid + length A + length slack1)).
  { unfold when. case_match eqn:E.
    - apply Z.ltb_lt in E.
      destruct (realloc_room (pre ++ be_encode 4 (Z.of_nat (length A)) ++ mid ++ A) slack size) as (s1 & Hs1 & Hl1).
      { rewrite !length_app, length_be_encode. unfold size. lia. }
      exists s1. rewrite <-!app_assoc in Hs1. rewrite Hs1. split; [done|].
      rewrite !length_app, length_be_encode in Hl1. unfold size in *. lia.
    - apply Z.ltb_ge in E. exists slack. split; [done|].
      rewrite !length_app, length_be_encode in Hini. unfold size in *. lia. }
  destruct Hroom as (slack1 & Hw & Hl1 & Hi1). rewrite (bind_eq _ _ _ _ _ Hw). clear Hw Hini slack.
  assert (Hstep : (let* n := ntohl (Z.of_nat (length pre)) in
                   htonl (Z.of_nat (length pre)) (u32 (n + Z.of_nat (attr_size (t, d)))))
      (pre ++ be_encode 4 (Z.of_nat (length A)) ++ mid ++ A ++ slack1) =
    Some (tt, pre ++ be_encode 4 (Z.of_nat (length A + attr_size (t, d))) ++ mid ++ A ++ slack1)).
  { rewrite (bind_eq _ _ _ _ _ (ntohl_at _ _ _ _ eq_refl)), (u32_fits (Z.of_nat (length A))) by lia. unfold htonl.
    rewrite be_encode_u32, <-Nat2Z.inj_add. by apply store_bytes_at; rewrite ?length_be_encode. }
  rewrite (bind_eq _ _ _ _ _ Hstep). rewrite (bind_eq _ _ _ _ _ (Hcount _ _)).
  pose proof (write_attr (pre ++ be_encode 4 (Z.of_nat (length A + attr_size (t, d))) ++ mid' ++ A) slack1 t d
    (Z.of_nat (length pre + 4 + length mid) + Z.of_nat (length A))) as Hwr.
  rewrite !length_app, length_be_encode, Hmid, length_enc_attr in Hwr.
  specialize (Hwr ltac:(lia) Hl1). exists (drop (attr_size (t, d)) slack1). rewrite <-!app_assoc in Hwr. rewrite <-!app_assoc.
  split.
  - rewrite <-Hwr, (load_mid [] d extra) by done. cbn [deref]. rewrite bind_ret.
    by replace (Z.to_nat _) with (pad4 (length d)) by lia.
  - rewrite !length_app, length_drop, length_be_encode, length_enc_attr. lia.
Qed.
End add.

(** ** The header of a resolver *)

Definition zeros (n : nat) : list byte := replicate n x00.

Record header := MkH {
  h_n_nameserver : Z; h_port : Z; h_n_search : Z; h_n_sortaddr : Z; h_timeout : Z;
  h_search_order : Z; h_if_index : Z; h_flags : Z; h_reach_flags : Z; h_service_identifier : Z;
}.
Definition zero_header : header := MkH 0 0 0 0 0 0 0 0 0 0.

(** The fields of a [dns_resolver_t] while it is built. *)
Definition resolver_layout : list nat := [8; 4; 8; 2; 2; 4; 8; 4; 8; 8; 4; 4; 4; 4; 4; 4; 8; 8]%nat.
Definition header_fields (h : header) : list (list byte) :=
  [zeros 8; be_encode 4 (h_n_nameserver h); zeros 8; be_encode 2 (h_port h); zeros 2;
   be_encode 4 (h_n_search h); zeros 8; be_encode 4 (h_n_sortaddr h); zeros 8; zeros 8;
   be_encode 4 (h_timeout h); be_encode 4 (h_search_order h); be_encode 4 (h_if_index h);
   be_encode 4 (h_flags h); be_encode 4 (h_reach_flags h); be_encode 4 (h_service_identifier h);
   zeros 8; zeros 8].

Lemma header_layout h : length <$> header_fields h = resolver_layout.
Proof. done. Qed.

Lemma length_header_fields h : length (concat (header_fields h)) = 96%nat.
Proof. done. Qed.

(** What a block holds: a header and attributes. *)
Definition raw : Type := header * list attr.

Definition image (x : raw) : list byte :=
  concat (header_fields x.1) ++ be_encode 4 (Z.of_nat (length (enc_attrs x.2))) ++ enc_attrs x.2.
Definition raw_fits (x : raw) : Prop := 100 + Z.of_nat (length (enc_attrs x.2)) < 2 ^ 32.

Definition holds (blk : block) (x : raw) : Prop :=
  ∃ slack, blk = image x ++ slack ∧ INITIAL_RESOLVER_BUF_SIZE <= Z.of_nat (length blk).

Lemma image_app x slack : image x ++ slack =
  concat (header_fields x.1) ++ be_encode 4 (Z.of_nat (length (enc_attrs x.2))) ++ enc_attrs x.2 ++ slack.
Proof. unfold image. by rewrite <-!app_assoc. Qed.

Lemma created_holds : holds _dns_resolver_create (zero_header, []).
Proof. by exists (replicate 924 x00). Qed.

Section field.
Variables (h : header) (rest : list byte).
Local Notation at_header m h' := (m (concat (header_fields h) ++ rest) = Some (tt, concat (header_fields h') ++ rest)).

(** Setting a field, by its position in the header. *)
Lemma set_field i off v h' :
  resolver_layout !! i = Some (length v) → off = Z.of_nat (sum_list (take i resolver_layout)) →
  header_fields h' = <[i := v]> (header_fields h) → at_header (store off v) h'.
Proof.
  intros Hi Ho E. rewrite E. by apply (store_front resolver_layout).
Qed.

Lemma get_field i off z :
  header_fields h !! i = Some (be_encode 4 z) → off = Z.of_nat (sum_list (take i resolver_layout)) →
  ntohl off (concat (header_fields h) ++ rest) = Some (u32 z, concat (header_fields h) ++ rest).
Proof. intros Hi Ho. by apply (ntohl_front resolver_layout (header_fields h) i). Qed.

(** [field = htonl(ntohl(field) + 1)] *)
Lemma count_field i off z h' :
  header_fields h !! i = Some (be_encode 4 z) → resolver_layout !! i = Some 4%nat →
  off = Z.of_nat (sum_list (take i resolver_layout)) →
  header_fields h' = <[i := be_encode 4 (z + 1)]> (header_fields h) →
  at_header (let* n := ntohl off in htonl off (u32 (n + 1))) h'.
Proof.
  intros Hi Hl Ho E. rewrite (bind_eq _ _ _ _ _ (get_field i off z Hi Ho)).
  unfold htonl. rewrite u32_add_l, be_encode_u32. by apply (set_field i).
Qed.
End field.

Section build.
Variable garbage : nat → byte.

Lemma resolver_add_attribute h l t d extra blk :
  holds blk (h, l) → raw_fits (h, l ++ [(t, d)]) →
  ∃ blk', _dns_resolver_add_attribute garbage t (Z.of_nat (length d)) (d ++ extra) blk = Some (tt, blk') ∧
    holds blk' (h, l ++ [(t, d)]).
Proof.
  intros (slack & -> & Hl) Hf. rewrite image_app in *. unfold raw_fits in Hf. cbn [fst snd] in *.
  rewrite enc_attrs_app, enc_attrs_one, length_app, length_enc_attr in Hf.
  destruct (add_attribute_at garbage (concat (header_fields h)) [] [] (enc_attrs l) slack t d extra
    r_n_attribute sizeof_resolver_buf INITIAL_RESOLVER_BUF_SIZE (ret tt)) as (slack' & E & Hl'); try done.
  - eexists. split; [exact E|]. exists slack'. rewrite image_app. cbn [fst snd].
    by rewrite enc_attrs_app, enc_attrs_one, length_app, length_enc_attr.
Qed.

(** A header field set in front of the attributes. *)
Lemma holds_header (m : C block unit) h h' l blk :
  (∀ rest, m (concat (header_fields h) ++ rest) = Some (tt, concat (header_fields h') ++ rest)) →
  holds blk (h, l) → ∃ blk', m blk = Some (tt, blk') ∧ holds blk' (h', l).
Proof.
  intros Hm (slack & -> & Hl). rewrite image_app in *. cbn [fst snd] in *.
  eexists. split; [apply Hm|]. exists slack. by rewrite image_app.
Qed.
End build.
