(* ===== verification/DnsResolver.v ===== *)
(** * The DNS configuration: the functions that build a resolver

    [resolver_op] is a call of one of them, [spec_op] what it does to the resolver a
    client will see. Any sequence of calls leaves a block that holds the resolver,
    however far it had to be reallocated. *)

From S2P Require Import Prelude DnsCreate DnsExpand DnsBuild.

Local Open Scope Z_scope.
Local Open Scope c_scope.

Inductive resolver_op :=
| Add_nameserver (nameserver : list byte)
| Add_search (search : string)
| Add_sortaddr (sortaddr : list byte)
| Set_configuration_identifier (cid : string)
| Set_domain (domain : string)
| Set_flags (flags : Z)
| Set_if_index (if_index : Z) (if_name : option string)
| Set_options (options : string)
| Set_order (order : Z)
| Set_port (port : Z)
| Set_timeout (timeout : Z)
| Set_service_identifier (service_identifier : Z).

Section run.
Variable garbage : nat → byte.

Definition run_op (op : resolver_op) : C block unit :=
  match op with
  | Add_nameserver nameserver => _dns_resolver_add_nameserver garbage nameserver
  | Add_search search => _dns_resolver_add_search garbage search
  | Add_sortaddr sortaddr => _dns_resolver_add_sortaddr garbage sortaddr
  | Set_configuration_identifier cid => _dns_resolver_set_configuration_identifier garbage cid
  | Set_domain domain => _dns_resolver_set_domain garbage domain
  | Set_flags flags => _dns_resolver_set_flags flags
  | Set_if_index if_index if_name => _dns_resolver_set_if_index garbage if_index if_name
  | Set_options options => _dns_resolver_set_options garbage options
  | Set_order order => _dns_resolver_set_order order
  | Set_port port => _dns_resolver_set_port port
  | Set_timeout timeout => _dns_resolver_set_timeout timeout
  | Set_service_identifier service_identifier => _dns_resolver_set_service_identifier service_identifier
  end.

Definition build_resolver (ops : list resolver_op) : option block :=
  snd <$> for_each ops run_op _dns_resolver_create.
End run.

(** ** What the calls mean *)

Definition empty_resolver : dns_resolver := MkResolver None [] 0 [] [] None 0 0 0 0 0 0 None None.

Definition spec_op (r : dns_resolver) (op : resolver_op) : dns_resolver :=
  let '(MkResolver domain nameserver port search sortaddr options timeout order if_index flags reach sid cid
          if_name) := r in
  match op with
  | Add_nameserver sa =>
      let flags := if default false (is_loopback sa)
                   then Z.lor flags DNS_RESOLVER_FLAGS_REQUEST_ALL_RECORDS else flags in
      MkResolver domain (nameserver ++ [sa]) port search sortaddr options timeout order if_index flags reach sid cid if_name
  | Add_search s => MkResolver domain nameserver port (search ++ [s]) sortaddr options timeout order if_index flags reach sid cid if_name
  | Add_sortaddr a => MkResolver domain nameserver port search (sortaddr ++ [a]) options timeout order if_index flags reach sid cid if_name
  | Set_configuration_identifier s => MkResolver domain nameserver port search sortaddr options timeout order if_index flags reach sid (Some s) if_name
  | Set_domain s => MkResolver (Some s) nameserver port search sortaddr options timeout order if_index flags reach sid cid if_name
  | Set_flags v => MkResolver domain nameserver port search sortaddr options timeout order if_index (u32 v) reach sid cid if_name
  | Set_if_index v name =>
      MkResolver domain nameserver port search sortaddr options timeout order (u32 v) flags reach sid cid
        (match name with Some s => Some s | None => if_name end)
  | Set_options s => MkResolver domain nameserver port search sortaddr (Some s) timeout order if_index flags reach sid cid if_name
  | Set_order v => MkResolver domain nameserver port search sortaddr options timeout (u32 v) if_index flags reach sid cid if_name
  | Set_port v => MkResolver domain nameserver (v mod 2 ^ 16) search sortaddr options timeout order if_index flags reach sid cid if_name
  | Set_timeout v => MkResolver domain nameserver port search sortaddr options (u32 v) order if_index flags reach sid cid if_name
  | Set_service_identifier v => MkResolver domain nameserver port search sortaddr options timeout order if_index flags reach (u32 v) cid if_name
  end.

(** C strings hold no NUL; a [struct sockaddr] has the length it says. *)
Definition op_ok (op : resolver_op) : Prop :=
  match op with
  | Add_nameserver sa => sockaddr_len sa = Some (Z.of_nat (length sa)) ∧ is_Some (is_loopback sa)
  | Add_sortaddr a => length a = 8%nat
  | Add_search s | Set_configuration_identifier s | Set_domain s | Set_options s => no_nul s
  | Set_if_index _ (Some s) => no_nul s
  | _ => True
  end.

(** ** What they do to a block *)

Definition raw_op (x : raw) (op : resolver_op) : raw :=
  let '(MkH n_ns port n_search n_sortaddr timeout order if_index flags reach sid, l) := x in
  match op with
  | Add_nameserver sa =>
      let flags := if default false (is_loopback sa)
                   then Z.lor (u32 flags) DNS_RESOLVER_FLAGS_REQUEST_ALL_RECORDS else flags in
      (MkH (n_ns + 1) port n_search n_sortaddr timeout order if_index flags reach sid,
       l ++ [(RESOLVER_ATTRIBUTE_ADDRESS, sa)])
  | Add_search s => (MkH n_ns port (n_search + 1) n_sortaddr timeout order if_index flags reach sid,
                     l ++ [(RESOLVER_ATTRIBUTE_SEARCH, c_bytes s)])
  | Add_sortaddr a => (MkH n_ns port n_search (n_sortaddr + 1) timeout order if_index flags reach sid,
                       l ++ [(RESOLVER_ATTRIBUTE_SORTADDR, a)])
  | Set_configuration_identifier s => (x.1, l ++ [(RESOLVER_ATTRIBUTE_CONFIGURATION_ID, c_bytes s)])
  | Set_domain s => (x.1, l ++ [(RESOLVER_ATTRIBUTE_DOMAIN, c_bytes s)])
  | Set_flags v => (MkH n_ns port n_search n_sortaddr timeout order if_index v reach sid, l)
  | Set_if_index v name =>
      (MkH n_ns port n_search n_sortaddr timeout order v flags reach sid,
       l ++ match name with
            | Some s => [(RESOLVER_ATTRIBUTE_INTERFACE_NAME, String.list_byte_of_string s)]
            | None => []
            end)
  | Set_options s => (x.1, l ++ [(RESOLVER_ATTRIBUTE_OPTIONS, c_bytes s)])
  | Set_order v => (MkH n_ns port n_search n_sortaddr timeout v if_index flags reach sid, l)
  | Set_port v => (MkH n_ns v n_search n_sortaddr timeout order if_index flags reach sid, l)
  | Set_timeout v => (MkH n_ns port n_search n_sortaddr v order if_index flags reach sid, l)
  | Set_service_identifier v => (MkH n_ns port n_search n_sortaddr timeout order if_index flags reach v, l)
  end.

Section ops.
Variable garbage : nat → byte.

Lemma length_c_bytes s : length (c_bytes s) = S (String.length s).
Proof. unfold c_bytes. rewrite length_app, length_bytes. cbn. lia. Qed.

Lemma add_string_ok h l t s blk :
  holds blk (h, l) → raw_fits (h, l ++ [(t, c_bytes s)]) →
  ∃ blk', add_string garbage t s blk = Some (tt, blk') ∧ holds blk' (h, l ++ [(t, c_bytes s)]).
Proof.
  intros H Hf. unfold add_string. unfold raw_fits in Hf. cbn [snd] in Hf.
  rewrite enc_attrs_app, enc_attrs_one, length_app, length_enc_attr in Hf.
  assert (Hb : 8 + Z.of_nat (S (String.length s)) < 2 ^ 32).
  { unfold attr_size in Hf. cbn [snd] in Hf. rewrite length_c_bytes in Hf. lia. }
  rewrite u32_add_l, u32_fits by lia.
  replace (Z.of_nat (String.length s) + 1) with (Z.of_nat (length (c_bytes s))) by (rewrite length_c_bytes; lia).
  pose proof (resolver_add_attribute garbage h l t (c_bytes s) [] blk H) as Hadd. rewrite app_nil_r in Hadd.
  apply Hadd. unfold raw_fits. cbn [snd]. by rewrite enc_attrs_app, enc_attrs_one, length_app, length_enc_attr.
Qed.

(** A command that changes the header, then one that adds an attribute. *)
Lemma header_then (m m' : C block unit) h h' l x' blk :
  (∀ rest, m (concat (header_fields h) ++ rest) = Some (tt, concat (header_fields h') ++ rest)) →
  (∀ blk, holds blk (h', l) → ∃ blk', m' blk = Some (tt, blk') ∧ holds blk' x') →
  holds blk (h, l) → ∃ blk', (m;; m') blk = Some (tt, blk') ∧ holds blk' x'.
Proof.
  intros Hm Hm' H. destruct (holds_header m h h' l blk Hm H) as (blk1 & E & H1).
  rewrite (bind_eq _ _ _ _ _ E). by apply Hm'.
Qed.

Lemma holds_get x i off z blk :
  holds blk x → header_fields x.1 !! i = Some (be_encode 4 z) →
  off = Z.of_nat (sum_list (take i resolver_layout)) → ntohl off blk = Some (u32 z, blk).
Proof. intros (slack & -> & _) Hi Ho. rewrite image_app. by apply (get_field _ _ i). Qed.

Lemma add_nameserver_ok x sa blk :
  op_ok (Add_nameserver sa) → holds blk x → raw_fits (raw_op x (Add_nameserver sa)) →
  ∃ blk', _dns_resolver_add_nameserver garbage sa blk = Some (tt, blk') ∧
    holds blk' (raw_op x (Add_nameserver sa)).
Proof.
  destruct x as [h l]. intros [Hlen [lo Hlo]] H Hf. unfold _dns_resolver_add_nameserver.
  rewrite (bind_eq _ _ _ _ _ (holds_get _ 13 _ (h_flags h) _ H eq_refl eq_refl)), Hlo.
  cbn [deref]. rewrite bind_ret. destruct h as [n_ns port n_s n_so tm o ii fl rf sid].
  unfold raw_op in *. rewrite Hlo in *. cbn [default h_flags] in *.
  apply (header_then _ _ (MkH n_ns port n_s n_so tm o ii fl rf sid)
           (MkH (n_ns + 1) port n_s n_so tm o ii fl rf sid) l);
    [intros; by apply (count_field _ _ 1 _ n_ns)| |done].
  clear H blk. intros blk H. rewrite Hlen. cbn [deref]. rewrite bind_ret.
  destruct (resolver_add_attribute garbage _ l RESOLVER_ATTRIBUTE_ADDRESS sa [] blk H Hf) as (blk1 & E & H1).
  rewrite app_nil_r in E. rewrite (bind_eq _ _ _ _ _ E).
  destruct lo; [|by exists blk1]. cbn [Z.eqb negb when].
  eapply holds_header, H1. intros. by apply (set_field _ _ 13).
Qed.

Lemma run_op_ok x op blk :
  op_ok op → holds blk x → raw_fits (raw_op x op) →
  ∃ blk', run_op garbage op blk = Some (tt, blk') ∧ holds blk' (raw_op x op).
Proof.
  destruct op; [by apply add_nameserver_ok|..]; destruct x as [h l];
    destruct h as [n_ns pt n_s n_so tm o ii fl rf sid]; cbn [run_op raw_op fst]; intros Hop H Hf;
    unfold _dns_resolver_add_search, _dns_resolver_add_sortaddr, _dns_resolver_set_if_index.
  - eapply (header_then _ _ _ (MkH n_ns pt (n_s + 1) n_so tm o ii fl rf sid)), H;
      [intros; by apply (count_field _ _ 5 _ n_s)|]. intros blk' H'. by apply add_string_ok.
  - eapply (header_then _ _ _ (MkH n_ns pt n_s (n_so + 1) tm o ii fl rf sid)), H;
      [intros; by apply (count_field _ _ 7 _ n_so)|]. intros blk' H'.
    pose proof (resolver_add_attribute garbage _ l RESOLVER_ATTRIBUTE_SORTADDR sortaddr [] blk' H' Hf) as X.
    cbn in Hop. by rewrite app_nil_r, Hop in X.
  - by apply add_string_ok.
  - by apply add_string_ok.
  - eapply holds_header, H. intros. by apply (set_field _ _ 13).
  - eapply (header_then _ _ _ (MkH n_ns pt n_s n_so tm o if_index fl rf sid)), H;
      [intros; by apply (set_field _ _ 12)|]. intros blk' H'.
    destruct if_name as [s|]; [|rewrite app_nil_r; by exists blk'].
    pose proof (resolver_add_attribute garbage _ l RESOLVER_ATTRIBUTE_INTERFACE_NAME
      (String.list_byte_of_string s) [x00] blk' H' Hf) as X.
    rewrite length_bytes in X. rewrite u32_fits; [done|]. unfold raw_fits in Hf. cbn [snd] in Hf.
    rewrite enc_attrs_app, enc_attrs_one, length_app, length_enc_attr in Hf. unfold attr_size in Hf.
    cbn [snd] in Hf. rewrite length_bytes in Hf. lia.
  - by apply add_string_ok.
  - eapply holds_header, H. intros. by apply (set_field _ _ 11).
  - eapply holds_header, H. intros. by apply (set_field _ _ 3).
  - eapply holds_header, H. intros. by apply (set_field _ _ 10).
  - eapply holds_header, H. intros. by apply (set_field _ _ 15).
Qed.

(** ** The resolver in a block *)

Lemma raw_op_attrs x op : ∃ l, (raw_op x op).2 = x.2 ++ l.
Proof.
  destruct x as [[] l], op; cbn; try (by exists []; rewrite app_nil_r); by eexists.
Qed.

Lemma raw_ops_attrs x ops : ∃ l, (foldl raw_op x ops).2 = x.2 ++ l.
Proof.
  revert x. induction ops as [|op ops IH]; intros x; cbn; [exists []; by rewrite app_nil_r|].
  destruct (IH (raw_op x op)) as [l ->], (raw_op_attrs x op) as [l' ->].
  exists (l' ++ l). by rewrite app_assoc.
Qed.

Lemma raw_fits_app x ops : raw_fits (foldl raw_op x ops) → raw_fits x.
Proof.
  unfold raw_fits. destruct (raw_ops_attrs x ops) as [l ->]. rewrite enc_attrs_app, length_app. lia.
Qed.

Lemma run_ops_ok x ops blk : Forall op_ok ops → holds blk x → raw_fits (foldl raw_op x ops) →
  ∃ blk', for_each ops (run_op garbage) blk = Some (tt, blk') ∧ holds blk' (foldl raw_op x ops).
Proof.
  intros Hops. revert x blk. induction Hops as [|op ops Hop Hops IH]; intros x blk H Hf; [by exists blk|].
  cbn [foldl for_each] in *.
  destruct (run_op_ok x op blk Hop H (raw_fits_app _ _ Hf)) as (blk1 & E & H1).
  rewrite (bind_eq _ _ _ _ _ E). by apply IH.
Qed.
End ops.

Lemma build_resolver_ok garbage ops :
  Forall op_ok ops → raw_fits (foldl raw_op (zero_header, []) ops) →
  ∃ blk, build_resolver garbage ops = Some blk ∧ holds blk (foldl raw_op (zero_header, []) ops).
Proof.
  intros Hops Hf. destruct (run_ops_ok garbage _ ops _ Hops created_holds Hf) as (blk & E & H).
  exists blk. unfold build_resolver. by rewrite E.
Qed.

(** The data of the attributes of a type. *)
Definition datas (t : Z) (l : list attr) : list (list byte) := snd <$> filter (λ a, a.1 = t) l.
Definition last_string (t : Z) (l : list attr) : option string := c_string <$> last (datas t l).

Lemma datas_app t l l' : datas t (l ++ l') = datas t l ++ datas t l'.
Proof. unfold datas. by rewrite filter_app, fmap_app. Qed.

Lemma datas_same t d : datas t [(t, d)] = [d].
Proof. unfold datas. by rewrite filter_cons_True. Qed.

Lemma datas_other t t' d : t' ≠ t → datas t [(t', d)] = [].
Proof. intros H. unfold datas. by rewrite filter_cons_False. Qed.

Lemma datas_add t l d : datas t (l ++ [(t, d)]) = datas t l ++ [d].
Proof. by rewrite datas_app, datas_same. Qed.

Lemma datas_add_other t t' l d : t' ≠ t → datas t (l ++ [(t', d)]) = datas t l.
Proof. intros H. by rewrite datas_app, datas_other, app_nil_r. Qed.

(** The resolver a client will see. *)
Definition view (x : raw) : dns_resolver :=
  let '(MkH _ port _ _ timeout order if_index flags reach sid, l) := x in
  MkResolver (last_string RESOLVER_ATTRIBUTE_DOMAIN l) (datas RESOLVER_ATTRIBUTE_ADDRESS l) (port mod 2 ^ 16)
    (c_string <$> datas RESOLVER_ATTRIBUTE_SEARCH l) (datas RESOLVER_ATTRIBUTE_SORTADDR l)
    (last_string RESOLVER_ATTRIBUTE_OPTIONS l) (u32 timeout) (u32 order) (u32 if_index) (u32 flags) (u32 reach)
    (u32 sid) (last_string RESOLVER_ATTRIBUTE_CONFIGURATION_ID l) (last_string RESOLVER_ATTRIBUTE_INTERFACE_NAME l).

Lemma c_string_c_bytes s : no_nul s → c_string (c_bytes s) = s.
Proof. apply c_string_of_bytes. Qed.

Lemma c_string_bytes s : no_nul s → c_string (String.list_byte_of_string s) = s.
Proof.
  induction s as [|a s IH]; [done|]. cbn [no_nul]. intros [Ha Hs]%andb_prop_elim.
  unfold String.list_byte_of_string in *. cbn [String.list_ascii_of_string map].
  pose proof (ascii_of_byte_of_ascii a) as Hab. cbn [c_string].
  destruct (byte_of_ascii a) eqn:Ea; cbn [c_string]; try (by rewrite IH, Hab).
  by subst a.
Qed.

Lemma u32_lor a b : 0 <= b < 2 ^ 32 → u32 (Z.lor (u32 a) b) = Z.lor (u32 a) b.
Proof.
  intros Hb. apply u32_fits. pose proof (Z.mod_pos_bound a (2 ^ 32) eq_refl) as Ha. fold (u32 a) in Ha.
  assert (Hlog : ∀ x, 0 <= x < 2 ^ 32 → Z.log2 x < 32).
  { intros x Hx. destruct (Z.eq_dec x 0) as [->|]; [done|]. apply Z.log2_lt_pow2; lia. }
  pose proof (proj2 (Z.lor_nonneg (u32 a) b) ltac:(lia)) as Hn. split; [done|].
  destruct (Z.eq_dec (Z.lor (u32 a) b) 0) as [->|]; [done|].
  apply Z.log2_lt_pow2; [lia|]. rewrite Z.log2_lor by lia. by apply Z.max_lub_lt; apply Hlog.
Qed.

Lemma view_op x op : op_ok op → view (raw_op x op) = spec_op (view x) op.
Proof.
  destruct x as [[n_ns pt n_s n_so tm o ii fl rf sid] l]. unfold view, last_string.
  destruct op; cbn [raw_op spec_op fst]; intros Hop;
    rewrite ?datas_add, ?datas_add_other, ?last_snoc by done; cbn [fmap option_fmap option_map];
    rewrite ?fmap_app, ?c_string_c_bytes by done; try done.
  - (* add_nameserver *) f_equal. destruct (default false _); [|done]. by apply u32_lor.
  - f_equal. cbn. by rewrite c_string_c_bytes.
  - destruct if_name as [s|]; rewrite ?app_nil_r; [|done].
    rewrite ?datas_add, ?datas_add_other, ?last_snoc by done. cbn. by rewrite c_string_bytes.
Qed.

Lemma view_ops x ops : Forall op_ok ops → view (foldl raw_op x ops) = foldl spec_op (view x) ops.
Proof.
  intros Hops. revert x. induction Hops as [|op ops Hop Hops IH]; intros x; [done|].
  cbn [foldl]. by rewrite IH, view_op.
Qed.

(** ** What holds of every block that was built *)

Definition attr_ok (a : attr) : Prop :=
  let '(t, d) := a in
  (t = RESOLVER_ATTRIBUTE_ADDRESS ∧ sockaddr_len d = Some (Z.of_nat (length d))) ∨
  (t = RESOLVER_ATTRIBUTE_SORTADDR ∧ length d = 8%nat) ∨
  (t ∈ [RESOLVER_ATTRIBUTE_DOMAIN; RESOLVER_ATTRIBUTE_SEARCH; RESOLVER_ATTRIBUTE_OPTIONS;
        RESOLVER_ATTRIBUTE_CONFIGURATION_ID] ∧ ∃ s, no_nul s ∧ d = c_bytes s) ∨
  (t = RESOLVER_ATTRIBUTE_INTERFACE_NAME ∧ ∃ s, no_nul s ∧ d = String.list_byte_of_string s).

Record raw_ok (x : raw) : Prop := {
  ok_n_nameserver : h_n_nameserver x.1 = Z.of_nat (length (datas RESOLVER_ATTRIBUTE_ADDRESS x.2));
  ok_n_search : h_n_search x.1 = Z.of_nat (length (datas RESOLVER_ATTRIBUTE_SEARCH x.2));
  ok_n_sortaddr : h_n_sortaddr x.1 = Z.of_nat (length (datas RESOLVER_ATTRIBUTE_SORTADDR x.2));
  ok_attrs : Forall attr_ok x.2;
}.

Lemma raw_ok_created : raw_ok (zero_header, []).
Proof. by split. Qed.

Lemma raw_ok_op x op : op_ok op → raw_ok x → raw_ok (raw_op x op).
Proof.
  destruct x as [[n_ns pt n_s n_so tm o ii fl rf sid] l]. intros Hop [H1 H2 H3 H4]. cbn [fst snd h_n_nameserver h_n_search h_n_sortaddr] in *.
  destruct op; cbn [raw_op fst]; try by split.
  all: try (split; cbn [fst snd h_n_nameserver h_n_search h_n_sortaddr];
    rewrite ?datas_add, ?datas_add_other, ?length_app by done; cbn [length]; [lia..|];
    apply Forall_app; split; [done|]; apply Forall_singleton).
  - left. split; [done|]. apply Hop.
  - right. right. left. split; [set_solver|by exists search].
  - right. left. done.
  - right. right. left. split; [set_solver|by exists cid].
  - right. right. left. split; [set_solver|by exists domain].
  - destruct if_name as [s|]; [|rewrite app_nil_r; by split]. split; cbn [fst snd h_n_nameserver h_n_search h_n_sortaddr];
      rewrite ?datas_add_other by done; try done.
    apply Forall_app; split; [done|]. apply Forall_singleton. right. right. right. split; [done|by exists s].
  - right. right. left. split; [set_solver|by exists options].
Qed.

Lemma raw_ok_ops x ops : Forall op_ok ops → raw_ok x → raw_ok (foldl raw_op x ops).
Proof.
  intros Hops. revert x. induction Hops as [|op ops Hop Hops IH]; intros x H; [done|].
  cbn [foldl]. apply IH, raw_ok_op; done.
Qed.
