(* ===== verification/DnsConfig.v ===== *)
(** * The DNS configuration: what building it leaves in memory

    The reachability flags of a resolver, and adding resolvers to the configuration. *)

From S2P Require Import Prelude DnsCreate DnsExpand DnsBuild DnsResolver.

Local Open Scope Z_scope.
Local Open Scope c_scope.

Lemma enc_attrs_cons a l : enc_attrs (a :: l) = enc_attr a ++ enc_attrs l.
Proof. done. Qed.

Lemma length_enc_attrs_cons a l : length (enc_attrs (a :: l)) = (attr_size a + length (enc_attrs l))%nat.
Proof. by rewrite enc_attrs_cons, length_app, length_enc_attr. Qed.

(** Reading the header and the data of the first of some attributes. *)
Section first.
Variables (pre rest : list byte) (a : attr) (l : list attr).
Local Notation mem := (pre ++ enc_attrs (a :: l) ++ rest).

Lemma attr_split : mem = pre ++ be_encode 4 a.1 ++ be_encode 4 (Z.of_nat (attr_size a)) ++ a.2 ++
  replicate (pad4 (length a.2)) x00 ++ enc_attrs l ++ rest.
Proof. rewrite enc_attrs_cons. unfold enc_attr. by rewrite <-!app_assoc. Qed.

Lemma attr_type off : off = Z.of_nat (length pre) → ntohl off mem = Some (u32 a.1, mem).
Proof. intros Ho. rewrite attr_split. by apply ntohl_at. Qed.

Lemma attr_length off : off = Z.of_nat (length pre) →
  ntohl (off + 4) mem = Some (u32 (Z.of_nat (attr_size a)), mem).
Proof.
  intros Ho. rewrite attr_split, app_assoc. apply ntohl_at. rewrite length_app, length_be_encode. lia.
Qed.

Lemma attr_data off n d : off = Z.of_nat (length pre) + 8 → d = take n a.2 → (n ≤ length a.2)%nat →
  load off (Z.of_nat n) mem = Some (d, mem).
Proof.
  intros -> -> Hn. rewrite attr_split. set (R := replicate _ _ ++ _ ++ _).
  assert (E : ∀ x y, pre ++ x ++ y ++ a.2 ++ R = (pre ++ x ++ y) ++ take n a.2 ++ drop n a.2 ++ R).
  { intros x y. rewrite (app_assoc (take n a.2)), take_drop. by rewrite <-!app_assoc. }
  rewrite E. apply load_bytes_at; rewrite ?length_app, ?length_be_encode, ?length_take; lia.
Qed.
End first.

(** ** Reachability *)

Section reach.
Context {R : Reachability}.

(** The flags of the first server, then of each that is better, up to the first that
    cannot be had or cannot be better. *)
Fixpoint best_reach (interface : option string) (servers : list (list byte)) (first : bool) (flags : Z) : Z :=
  match servers with
  | [] => flags
  | addr :: servers =>
      match reachability interface addr with
      | None => if reachability None addr then 0 else flags
      | Some None => flags
      | Some (Some ns_flags) =>
          if first || (__SCNetworkReachabilityRank flags <? __SCNetworkReachabilityRank ns_flags)
          then if __SCNetworkReachabilityRank ns_flags =? ReachabilityRankReachable then ns_flags
               else best_reach interface servers false ns_flags
          else best_reach interface servers false flags
      end
  end.

Definition spec_reach (r : dns_resolver) : dns_resolver :=
  let '(MkResolver domain nameserver port search sortaddr options timeout order if_index flags reach sid cid
          if_name) := r in
  let reach :=
    match nameserver with
    | [] => reach
    | _ => u32 (best_reach (if if_index =? 0 then None else if_indextoname if_index) nameserver true
                  kSCNetworkReachabilityFlagsReachable)
    end in
  MkResolver domain nameserver port search sortaddr options timeout order if_index flags reach sid cid if_name.

Lemma reach_loop_ok interface l : ∀ pre rest fuel n flags off size,
  Forall attr_ok l → off = Z.of_nat (length pre) → size = Z.of_nat (length (enc_attrs l)) → size < 2 ^ 32 →
  (length l < fuel)%nat → 0 <= n →
  reach_loop fuel interface off size n flags (pre ++ enc_attrs l ++ rest) =
  Some (best_reach interface (datas RESOLVER_ATTRIBUTE_ADDRESS l) (n =? 0) flags, pre ++ enc_attrs l ++ rest).
Proof.
  induction l as [|[t d] l IH]; intros pre rest fuel n flags off size Hok -> -> Hsz Hfuel Hn;
    (destruct fuel as [|fuel]; [cbn in Hfuel; lia|]); cbn [reach_loop].
  { done. }
  apply Forall_cons in Hok as [Ha Hok]. rewrite length_enc_attrs_cons in *.
  assert (Hs : (8 ≤ attr_size (t, d))%nat) by (unfold attr_size; lia).
  rewrite (proj2 (Z.ltb_ge _ _)) by (unfold sizeof_attribute; lia).
  rewrite (bind_eq _ _ _ _ _ (attr_length pre rest (t, d) l _ eq_refl)), u32_fits by lia.
  rewrite (bind_eq _ _ _ _ _ (attr_type pre rest (t, d) l _ eq_refl)). cbn [fst].
  assert (Hnext : ∀ n flags, 0 <= n →
    reach_loop fuel interface (Z.of_nat (length pre) + Z.of_nat (attr_size (t, d)))
      (u32 (Z.of_nat (attr_size (t, d) + length (enc_attrs l)) - Z.of_nat (attr_size (t, d)))) n flags
      (pre ++ enc_attrs ((t, d) :: l) ++ rest) =
    Some (best_reach interface (datas RESOLVER_ATTRIBUTE_ADDRESS l) (n =? 0) flags,
          pre ++ enc_attrs ((t, d) :: l) ++ rest)).
  { intros n' f' Hn'. rewrite enc_attrs_cons, <-app_assoc, app_assoc.
    rewrite u32_fits by lia. apply IH; [done| |lia..|cbn in Hfuel; lia|done].
    rewrite length_app, length_enc_attr. lia. }
  assert (Ht : u32 t = t) by (destruct Ha as [[-> _]|[[-> _]|[[Ht _]|[-> _]]]]; try done; set_unfold in Ht; naive_solver).
  rewrite Ht. destruct (Z.eqb_spec t RESOLVER_ATTRIBUTE_ADDRESS) as [->|Hne].
  2:{ rewrite Hnext by done. unfold datas. by rewrite filter_cons_False. }
  assert (Hlen : sockaddr_len d = Some (Z.of_nat (length d))).
  { destruct Ha as [[_ Hs']|[[Hs' _]|[[Hs' _]|[Hs' _]]]]; [done|done|set_unfold in Hs'; naive_solver|done]. }
  unfold datas. rewrite filter_cons_True by done. cbn [fmap list_fmap snd best_reach].
  destruct d as [|b d']; [done|].
  rewrite (bind_eq _ _ _ _ _ (attr_data pre rest (_, b :: d') l _ 1 [b] eq_refl eq_refl ltac:(cbn; lia))).
  assert (E : sockaddr_len [b] = Some (Z.of_nat (length (b :: d')))) by done.
  rewrite E. cbn [deref]. rewrite bind_ret.
  rewrite (bind_eq _ _ _ _ _ (attr_data pre rest (_, b :: d') l _ (length (b :: d')) (b :: d') eq_refl
    ltac:(by rewrite take_ge) ltac:(done))).
  destruct (reachability interface (b :: d')) as [[f|]|]; [|done|by destruct (reachability None _)].
  destruct (_ || _); [destruct (_ =? ReachabilityRankReachable); [done|]|]; rewrite Hnext by lia;
    by rewrite (proj2 (Z.eqb_neq (n + 1) 0)) by lia.
Qed.

Lemma be4_zero z : bool_decide (be_encode 4 z = replicate 4 x00) = (u32 z =? 0).
Proof.
  case_bool_decide as Hz; symmetry.
  - apply Z.eqb_eq. by rewrite <-be_decode_u32, Hz.
  - apply Z.eqb_neq. intros E. apply Hz. by rewrite <-be_encode_u32, E.
Qed.

Definition raw_reach (x : raw) : raw :=
  let '(MkH n_ns port n_search n_sortaddr timeout order if_index flags reach sid, l) := x in
  let reach := if n_ns =? 0 then reach else
    best_reach (if u32 if_index =? 0 then None else if_indextoname (u32 if_index))
      (datas RESOLVER_ATTRIBUTE_ADDRESS l) true kSCNetworkReachabilityFlagsReachable in
  (MkH n_ns port n_search n_sortaddr timeout order if_index flags reach sid, l).

Lemma enc_attrs_long l : (8 * length l ≤ length (enc_attrs l))%nat.
Proof.
  induction l as [|a l IH]; [done|]. rewrite length_enc_attrs_cons. cbn [length]. unfold attr_size. lia.
Qed.

Lemma filter_datas_length t l : (length (datas t l) ≤ length l)%nat.
Proof. unfold datas. rewrite length_fmap. apply length_filter. Qed.

Lemma set_reach_flags_ok x blk : raw_ok x → raw_fits x → holds blk x →
  ∃ blk', _dns_resolver_set_reach_flags blk = Some (tt, blk') ∧ holds blk' (raw_reach x).
Proof.
  destruct x as [h l]. intros [Hns _ _ Hok] Hf H. pose proof H as (slack & Eb & Hl).
  unfold raw_fits in Hf. cbn [fst snd] in *. rewrite image_app in Eb. cbn [fst snd] in Eb.
  assert (Hload : ∀ i off c, header_fields h !! i = Some c → off = Z.of_nat (sum_list (take i resolver_layout)) →
    ∀ n, n = Z.of_nat (length c) → load off n blk = Some (c, blk)).
  { intros i off c Hc Ho n Hn. rewrite Eb. by apply (load_field resolver_layout (header_fields h) i []). }
  unfold _dns_resolver_set_reach_flags.
  rewrite (bind_eq _ _ _ _ _ (Hload 1%nat r_n_nameserver _ eq_refl eq_refl 4 eq_refl)).
  rewrite be4_zero. pose proof (filter_datas_length RESOLVER_ATTRIBUTE_ADDRESS l).
  pose proof (enc_attrs_long l). rewrite u32_fits by lia. unfold raw_reach.
  destruct h as [n_ns port n_s n_so tm o ii fl rf sid]. cbn [h_n_nameserver h_if_index] in *.
  destruct (n_ns =? 0); [by exists blk|].
  rewrite (bind_eq _ _ _ _ _ (Hload 12%nat r_if_index _ eq_refl eq_refl 4 eq_refl)).
  rewrite (bind_eq _ _ _ _ _ (holds_get _ 12 _ ii _ H eq_refl eq_refl)). cbn [h_if_index].
  rewrite be4_zero. set (interface := if u32 ii =? 0 then _ else _).
  assert (Hn : ntohl r_n_attribute blk = Some (Z.of_nat (length (enc_attrs l)), blk)).
  { rewrite Eb. rewrite ntohl_at by done. by rewrite u32_fits by lia. }
  rewrite (bind_eq _ _ _ _ _ Hn).
  assert (Hr : reach_loop (S (Z.to_nat (Z.of_nat (length (enc_attrs l))))) interface sizeof_resolver_buf
    (Z.of_nat (length (enc_attrs l))) 0 kSCNetworkReachabilityFlagsReachable blk =
    Some (best_reach interface (datas RESOLVER_ATTRIBUTE_ADDRESS l) true kSCNetworkReachabilityFlagsReachable, blk)).
  { rewrite Eb, (app_assoc (concat _)). apply (reach_loop_ok interface l); [done|done|done|lia|lia|done]. }
  rewrite (bind_eq _ _ _ _ _ Hr). eapply holds_header, H. intros. by apply (set_field _ _ 14).
Qed.

Lemma view_reach x : raw_ok x → view (raw_reach x) = spec_reach (view x).
Proof.
  destruct x as [[n_ns port n_s n_so tm o ii fl rf sid] l]. intros [Hns _ _ _].
  cbn [fst snd h_n_nameserver] in Hns. unfold raw_reach, view, spec_reach. f_equal.
  destruct (datas RESOLVER_ATTRIBUTE_ADDRESS l) as [|d ds] eqn:E.
  - by rewrite Hns.
  - rewrite (proj2 (Z.eqb_neq _ _)) by (rewrite Hns; cbn; lia). done.
Qed.

Lemma raw_ok_reach x : raw_ok x → raw_ok (raw_reach x).
Proof. destruct x as [[] l]. by intros [? ? ? ?]. Qed.
End reach.

(** ** The configuration *)

Record cheader := MkCH {
  ch_n_resolver : Z; ch_n_scoped : Z; ch_n_specific : Z; ch_generation : Z; ch_padding : Z;
}.

Definition config_layout : list nat := [4; 8; 4; 8; 8; 4; 8; 4]%nat.
Definition config_fields (c : cheader) : list (list byte) :=
  [be_encode 4 (ch_n_resolver c); zeros 8; be_encode 4 (ch_n_scoped c); zeros 8;
   le_encode 8 (ch_generation c); be_encode 4 (ch_n_specific c); zeros 8; le_encode 4 DNSINFO_VERSION].

(** The resolvers of a configuration, each with the type of its attribute. *)
Definition craw : Type := cheader * list (Z * raw).
Definition entry_attr (e : Z * raw) : attr := (e.1, image e.2).
Definition entries (c : craw) : list byte := enc_attrs (entry_attr <$> c.2).

Definition config_image (c : craw) : list byte :=
  concat (config_fields c.1) ++ be_encode 4 (Z.of_nat (length (entries c))) ++
  be_encode 4 (ch_padding c.1) ++ entries c.
Definition config_fits (c : craw) : Prop := 56 + Z.of_nat (length (entries c)) < 2 ^ 32.

Definition holds_config (blk : block) (c : craw) : Prop :=
  ∃ slack, blk = config_image c ++ slack ∧ INITIAL_CONFIGURATION_BUF_SIZE <= Z.of_nat (length blk).

Lemma config_image_app c slack : config_image c ++ slack =
  concat (config_fields c.1) ++ be_encode 4 (Z.of_nat (length (entries c))) ++
  be_encode 4 (ch_padding c.1) ++ entries c ++ slack.
Proof. unfold config_image. by rewrite <-!app_assoc. Qed.

Lemma length_image x : length (image x) = (100 + length (enc_attrs x.2))%nat.
Proof. unfold image. rewrite !length_app, length_header_fields, length_be_encode. lia. Qed.

Lemma enc_attrs_multiple l : ∃ k, length (enc_attrs l) = (4 * k)%nat.
Proof.
  induction l as [|a l [k IH]]; [by exists 0%nat|]. rewrite length_enc_attrs_cons, IH. unfold attr_size.
  destruct (pad4_spec (length a.2)) as (j & ? & _). exists (2 + j + k)%nat. lia.
Qed.

Lemma image_pad x : pad4 (length (image x)) = 0%nat.
Proof.
  destruct (enc_attrs_multiple x.2) as [k Hk]. apply (pad4_multiple _ (25 + k)). rewrite length_image. lia.
Qed.

(** The list a resolver is for, and the pointers it needs. *)
Definition class_of (flags : Z) : Z :=
  if negb (Z.land flags DNS_RESOLVER_FLAGS_SCOPED =? 0) then CONFIG_ATTRIBUTE_SCOPED_RESOLVER
  else if negb (Z.land flags DNS_RESOLVER_FLAGS_SERVICE_SPECIFIC =? 0)
  then CONFIG_ATTRIBUTE_SERVICE_SPECIFIC_RESOLVER
  else CONFIG_ATTRIBUTE_RESOLVER.
Definition raw_class (x : raw) : Z := class_of (u32 (h_flags x.1)).
Definition raw_slots (x : raw) : Z := 1 + h_n_nameserver x.1 + h_n_search x.1 + h_n_sortaddr x.1.

Definition config_add (c : craw) (x : raw) : craw :=
  let '(MkCH n_res n_sc n_sp gen pad, l) := c in
  let t := raw_class x in
  let one (t' : Z) := if t =? t' then 1 else 0 in
  (MkCH (n_res + one CONFIG_ATTRIBUTE_RESOLVER) (n_sc + one CONFIG_ATTRIBUTE_SCOPED_RESOLVER)
     (n_sp + one CONFIG_ATTRIBUTE_SERVICE_SPECIFIC_RESOLVER) gen (pad + 8 * raw_slots x),
   l ++ [(t, x)]).

Lemma config_created now :
  ∃ blk, _dns_configuration_create now [] = Some (tt, blk) ∧ holds_config blk (MkCH 0 0 0 now 0, []).
Proof.
  unfold _dns_configuration_create. rewrite bind_modify.
  change (Z.to_nat INITIAL_CONFIGURATION_BUF_SIZE) with (48 + 8144)%nat. rewrite replicate_add.
  change (replicate 48 x00) with (concat [zeros 4; zeros 8; zeros 4; zeros 8; zeros 8; zeros 4; zeros 8; zeros 4]).
  erewrite bind_eq by (by apply (store_front config_layout _ 7)).
  rewrite (store_front config_layout _ 4) by done.
  eexists. split; [done|]. exists (replicate 8136 x00).
  split; [|rewrite length_app, length_replicate; by change (length (concat _)) with 48%nat].
  rewrite config_image_app. change (replicate 8144 x00) with (be_encode 4 0 ++ be_encode 4 0 ++ replicate 8136 x00).
  done.
Qed.

Section add_resolver.
Context {R : Reachability}.
Variable garbage : nat → byte.

Lemma config_add_attribute_ok c t x extra slots blk :
  holds_config blk c → let c' := (MkCH (ch_n_resolver c.1) (ch_n_scoped c.1) (ch_n_specific c.1)
    (ch_generation c.1) (ch_padding c.1 + slots), c.2 ++ [(t, x)]) in config_fits c' →
  ∃ blk', config_add_attribute garbage t (Z.of_nat (length (image x))) (image x ++ extra) (u32 slots) blk =
    Some (tt, blk') ∧ holds_config blk' c'.
Proof.
  destruct c as [h l]. intros (slack & -> & Hl) c' Hf. subst c'. cbn [fst snd] in *.
  rewrite config_image_app in *. unfold config_fits, entries in *. cbn [fst snd] in *.
  rewrite fmap_app in *. cbn [fmap list_fmap] in *. rewrite enc_attrs_app, enc_attrs_one, length_app, length_enc_attr in Hf.
  destruct (add_attribute_at garbage (concat (config_fields h)) (be_encode 4 (ch_padding h))
    (be_encode 4 (ch_padding h + slots)) (enc_attrs (entry_attr <$> l)) slack t (image x) extra
    c_n_attribute sizeof_config_buf INITIAL_CONFIGURATION_BUF_SIZE
    (let* n := ntohl c_n_padding in htonl c_n_padding (u32 (n + u32 slots)))) as (slack' & E & Hl'); try done.
  - intros n X. rewrite (app_assoc (concat _)), (app_assoc (concat _)).
    erewrite bind_eq by (by apply ntohl_at). unfold htonl.
    rewrite u32_add_l, u32_add_r, be_encode_u32. by apply store_bytes_at.
  - unfold config_add_attribute. eexists. split; [exact E|]. exists slack'.
    rewrite config_image_app. unfold entries. cbn [fst snd].
    rewrite fmap_app. cbn [fmap list_fmap]. rewrite enc_attrs_app, enc_attrs_one, length_app, length_enc_attr.
    rewrite <-!app_assoc in *. split; [done|]. done.
Qed.

Lemma config_count i off z h h' l blk :
  config_fields h !! i = Some (be_encode 4 z) → config_layout !! i = Some 4%nat →
  off = Z.of_nat (sum_list (take i config_layout)) →
  config_fields h' = <[i := be_encode 4 (z + 1)]> (config_fields h) → ch_padding h' = ch_padding h →
  holds_config blk (h, l) → ∃ blk',
    (let* n := ntohl off in htonl off (u32 (n + 1))) blk = Some (tt, blk') ∧ holds_config blk' (h', l).
Proof.
  intros Hi Hs Ho E Ep (slack & -> & Hl). rewrite config_image_app in *. cbn [fst snd] in *.
  erewrite bind_eq by (by apply (ntohl_front config_layout _ i)).
  unfold htonl. rewrite u32_add_l, be_encode_u32, (store_front config_layout _ i) by done. rewrite <-E.
  eexists. split; [done|]. exists slack. rewrite config_image_app. cbn [fst snd]. rewrite Ep. split; [done|].
  rewrite length_app in *. by change (length (concat (config_fields h'))) with (length (concat (config_fields h))).
Qed.

Lemma raw_counts x : raw_ok x → raw_fits x →
  0 <= h_n_nameserver x.1 < 2 ^ 29 ∧ 0 <= h_n_search x.1 < 2 ^ 29 ∧ 0 <= h_n_sortaddr x.1 < 2 ^ 29.
Proof.
  intros [-> -> -> _] Hf. unfold raw_fits in Hf. pose proof (enc_attrs_long x.2).
  pose proof (filter_datas_length RESOLVER_ATTRIBUTE_ADDRESS x.2).
  pose proof (filter_datas_length RESOLVER_ATTRIBUTE_SEARCH x.2).
  pose proof (filter_datas_length RESOLVER_ATTRIBUTE_SORTADDR x.2). lia.
Qed.

Lemma resolver_padding_ok x blk : raw_ok x → raw_fits x → holds blk x →
  resolver_padding blk = Some (u32 (8 * raw_slots x), blk).
Proof.
  intros Hok Hf H. destruct (raw_counts x Hok Hf) as (? & ? & ?). unfold resolver_padding.
  rewrite (bind_eq _ _ _ _ _ (holds_get _ 1 _ _ _ H eq_refl eq_refl)).
  rewrite (bind_eq _ _ _ _ _ (holds_get _ 5 _ _ _ H eq_refl eq_refl)).
  rewrite (bind_eq _ _ _ _ _ (holds_get _ 7 _ _ _ H eq_refl eq_refl)).
  rewrite !(u32_fits (_ x.1)) by lia. unfold ret. do 2 f_equal. unfold raw_slots, sizeof_ptr. f_equal. lia.
Qed.

Lemma then_ret (m : C block unit) (r blk : block) (Q P : block → Prop) :
  Q r → (∃ blk', m blk = Some (tt, blk') ∧ P blk') →
  ∃ r' blk', (m;; ret r) blk = Some (r', blk') ∧ Q r' ∧ P blk'.
Proof. intros Hr (blk' & E & HP). exists r, blk'. by rewrite (bind_eq _ _ _ _ _ E). Qed.

(** A resolver is counted and added. *)
Lemma add_counted i off z h h2 l t x slack blk :
  config_fields h !! i = Some (be_encode 4 z) → config_layout !! i = Some 4%nat →
  off = Z.of_nat (sum_list (take i config_layout)) →
  config_fields h2 = <[i := be_encode 4 (z + 1)]> (config_fields h) → ch_padding h2 = ch_padding h →
  holds_config blk (h, l) →
  let c' := (MkCH (ch_n_resolver h2) (ch_n_scoped h2) (ch_n_specific h2) (ch_generation h2)
               (ch_padding h2 + 8 * raw_slots x), l ++ [(t, x)]) in
  config_fits c' → ∃ blk',
    ((let* n := ntohl off in htonl off (u32 (n + 1)));;
     config_add_attribute garbage t (Z.of_nat (length (image x))) (image x ++ slack) (u32 (8 * raw_slots x)))
      blk = Some (tt, blk') ∧ holds_config blk' c'.
Proof.
  intros Hi Hs Ho E Ep Hc c' Hf. destruct (config_count i off z h h2 l blk Hi Hs Ho E Ep Hc) as (blk1 & E1 & H1).
  destruct (config_add_attribute_ok (h2, l) t x slack _ blk1 H1 Hf) as (blk2 & E2 & H2).
  exists blk2. by rewrite (bind_eq _ _ _ _ _ E1).
Qed.

Lemma add_resolver_ok x rblk c blk : raw_ok x → raw_fits x → holds rblk x → holds_config blk c →
  config_fits (config_add c (raw_reach x)) →
  ∃ rblk' blk', _dns_configuration_add_resolver garbage rblk blk = Some (rblk', blk') ∧
    holds rblk' (raw_reach x) ∧ holds_config blk' (config_add c (raw_reach x)).
Proof.
  intros Hok Hf H Hc Hcf. destruct (set_reach_flags_ok x rblk Hok Hf H) as (rblk' & E & H').
  pose proof (raw_ok_reach x Hok) as Hok'. assert (Hf' : raw_fits (raw_reach x)) by by destruct x as [[] ?].
  set (x' := raw_reach x) in *. clearbody x'. clear Hok Hf H x.
  unfold _dns_configuration_add_resolver. rewrite E. cbn [deref]. rewrite bind_ret.
  rewrite (resolver_padding_ok x' rblk' Hok' Hf' H'). cbn [deref]. rewrite bind_ret.
  rewrite (holds_get _ 13 r_flags _ _ H' eq_refl eq_refl). cbn [deref]. rewrite bind_ret.
  pose proof H' as (slack & Er & _).
  assert (Hn : ntohl r_n_attribute rblk' = Some (Z.of_nat (length (enc_attrs x'.2)), rblk')).
  { rewrite Er, image_app. rewrite ntohl_at by done. unfold raw_fits in Hf'. by rewrite u32_fits by lia. }
  rewrite Hn. cbn [deref]. rewrite bind_ret.
  assert (Hlen : u32 (sizeof_resolver_buf + Z.of_nat (length (enc_attrs x'.2))) = Z.of_nat (length (image x'))).
  { unfold raw_fits in Hf'. rewrite length_image, u32_fits; unfold sizeof_resolver_buf; lia. }
  rewrite Hlen. clear Hlen Hn E.
  destruct c as [[n_res n_sc n_sp gen pad] l]. unfold config_add, raw_class, class_of in *.
  set (fl := u32 (h_flags x'.1)) in *.
  apply (then_ret _ rblk' blk); [done|].
  rewrite Er. destruct (negb (Z.land fl DNS_RESOLVER_FLAGS_SCOPED =? 0));
    [|destruct (negb (Z.land fl DNS_RESOLVER_FLAGS_SERVICE_SPECIFIC =? 0))]; cbn [Z.eqb Pos.eqb] in *;
    rewrite ?Z.add_0_r in *.
  - by apply (add_counted 2 c_n_scoped_resolver n_sc (MkCH n_res n_sc n_sp gen pad)
                (MkCH n_res (n_sc + 1) n_sp gen pad) l _ _ _ _
                eq_refl eq_refl eq_refl eq_refl eq_refl Hc).
  - by apply (add_counted 5 c_n_service_specific_resolver n_sp (MkCH n_res n_sc n_sp gen pad)
                (MkCH n_res n_sc (n_sp + 1) gen pad) l _ _ _ _
                eq_refl eq_refl eq_refl eq_refl eq_refl Hc).
  - by apply (add_counted 0 c_n_resolver n_res (MkCH n_res n_sc n_sp gen pad)
                (MkCH (n_res + 1) n_sc n_sp gen pad) l _ _ _ _
                eq_refl eq_refl eq_refl eq_refl eq_refl Hc).
Qed.
End add_resolver.

(** ** Building a whole configuration *)

Section create.
Context {R : Reachability}.
Variable garbage : nat → byte.

(** The loop of [dns_configuration_set]: each resolver is built by some calls, added,
    and freed. *)
Definition create_config (now : Z) (resolvers : list (list resolver_op)) : option block :=
  snd <$> (_dns_configuration_create now;;
           for_each resolvers (λ ops,
             let* resolver := deref (build_resolver garbage ops) in
             _dns_configuration_add_resolver garbage resolver;; ret tt)) [].

Definition raw_of (ops : list resolver_op) : raw := raw_reach (foldl raw_op (zero_header, []) ops).
Definition config_of (now : Z) (resolvers : list (list resolver_op)) : craw :=
  foldl (λ c ops, config_add c (raw_of ops)) (MkCH 0 0 0 now 0, []) resolvers.

Lemma raw_of_ok ops : Forall op_ok ops → raw_ok (raw_of ops).
Proof. intros Hops. apply raw_ok_reach, raw_ok_ops; [done|]. apply raw_ok_created. Qed.

Lemma raw_of_attrs ops : (raw_of ops).2 = (foldl raw_op (zero_header, []) ops).2.
Proof. unfold raw_of. by destruct (foldl raw_op _ ops) as [[] l]. Qed.

Lemma config_add_entries c x : (config_add c x).2 = c.2 ++ [(raw_class x, x)].
Proof. by destruct c as [[] l]. Qed.

Lemma config_adds_entries c xs :
  (foldl config_add c xs).2 = c.2 ++ ((λ x, (raw_class x, x)) <$> xs).
Proof.
  revert c. induction xs as [|x xs IH]; intros c; cbn; [by rewrite app_nil_r|].
  by rewrite IH, config_add_entries, <-app_assoc.
Qed.

Lemma config_of_raws now resolvers :
  config_of now resolvers = foldl config_add (MkCH 0 0 0 now 0, []) (raw_of <$> resolvers).
Proof.
  unfold config_of. generalize (MkCH 0 0 0 now 0, @nil (Z * raw)). induction resolvers as [|ops l IH]; intros c; [done|].
  cbn. apply IH.
Qed.

(** A configuration that fits holds resolvers that fit. *)
Lemma config_fits_app c xs : config_fits (foldl config_add c xs) → config_fits c.
Proof.
  unfold config_fits, entries. rewrite config_adds_entries, fmap_app, enc_attrs_app, length_app. lia.
Qed.

Lemma config_fits_raw c x : config_fits (config_add c x) → raw_fits x.
Proof.
  unfold config_fits, entries, raw_fits. rewrite config_add_entries, fmap_app, enc_attrs_app, length_app.
  cbn [fmap list_fmap]. rewrite enc_attrs_one, length_enc_attr. unfold attr_size, entry_attr. cbn [snd].
  rewrite length_image. lia.
Qed.

Lemma config_fits_all now resolvers : config_fits (config_of now resolvers) →
  Forall (λ ops, raw_fits (foldl raw_op (zero_header, []) ops)) resolvers.
Proof.
  rewrite config_of_raws. intros Hf. rewrite Forall_forall. intros ops Hin.
  apply list_elem_of_split in Hin as (l1 & l2 & ->). rewrite fmap_app, foldl_app in Hf. cbn [fmap list_fmap foldl] in Hf.
  apply config_fits_app, config_fits_raw in Hf. unfold raw_fits in *. by rewrite raw_of_attrs in Hf.
Qed.

Lemma create_config_ok now resolvers :
  Forall (Forall op_ok) resolvers → config_fits (config_of now resolvers) →
  ∃ blk, create_config now resolvers = Some blk ∧ holds_config blk (config_of now resolvers).
Proof.
  intros Hops Hf. unfold create_config. destruct (config_created now) as (blk & E & Hc).
  rewrite (bind_eq _ _ _ _ _ E). clear E. unfold config_of in *. revert blk Hc Hf.
  generalize (MkCH 0 0 0 now 0, @nil (Z * raw)). induction Hops as [|ops l Hop Hops IH]; intros c blk Hc Hf; [by exists blk|].
  cbn [foldl for_each] in *.
  assert (Hfits : config_fits (config_add c (raw_of ops))).
  { apply (config_fits_app _ (raw_of <$> l)). revert Hf. generalize (config_add c (raw_of ops)).
    clear. induction l as [|x l IH]; intros c; [done|]. apply IH. }
  pose proof (config_fits_raw _ _ Hfits) as Hraw. unfold raw_fits in Hraw. rewrite raw_of_attrs in Hraw.
  destruct (build_resolver_ok garbage ops Hop Hraw) as (rblk & E & H).
  assert (Hrok : raw_ok (foldl raw_op (zero_header, []) ops)) by (apply raw_ok_ops; [done|apply raw_ok_created]).
  destruct (add_resolver_ok garbage _ rblk c blk Hrok Hraw H Hc Hfits) as (rblk' & blk' & E' & _ & Hc').
  destruct (IH _ blk' Hc' Hf) as (blk2 & E2 & H2). exists blk2. split; [|done].
  rewrite (bind_eq _ _ blk tt blk'); [done|]. rewrite E. cbn [deref].
  by rewrite bind_ret, (bind_eq _ _ _ _ _ E').
Qed.
End create.
