(* ===== verification/DnsOpen.v ===== *)
(** * The DNS configuration: lists in the padding

    A client's buffer is a structure, attributes, and slots for pointers in the
    padding. Fields brought to host byte order, lists that are laid out in the slots
    and filled. *)

From S2P Require Import Prelude DnsCreate DnsExpand DnsBuild DnsResolver DnsConfig.

Local Open Scope Z_scope.
Local Open Scope c_scope.

(** Comparisons of constants. *)
Ltac eqb_consts := repeat match goal with
  | |- context [(?a =? ?b)%Z] =>
      let v := eval vm_compute in (a =? b)%Z in
      first [constr_eq v true | constr_eq v false]; change (a =? b)%Z with v; cbv iota
  | H : context [(?a =? ?b)%Z] |- _ =>
      let v := eval vm_compute in (a =? b)%Z in
      first [constr_eq v true | constr_eq v false]; change (a =? b)%Z with v in H; cbv iota in H
  end.

(** ** Slots *)

Definition slots_bytes (l : list Z) : list byte := concat (le_encode 8 <$> l).

Lemma length_slots l : length (slots_bytes l) = (8 * length l)%nat.
Proof.
  unfold slots_bytes. induction l as [|p l IH]; [done|]. cbn [fmap list_fmap concat length].
  rewrite length_app, length_le_encode. lia.
Qed.

Lemma slots_app l l' : slots_bytes (l ++ l') = slots_bytes l ++ slots_bytes l'.
Proof. unfold slots_bytes. by rewrite fmap_app, concat_app. Qed.

Lemma slots_cons p l : slots_bytes (p :: l) = le_encode 8 p ++ slots_bytes l.
Proof. done. Qed.

Lemma slots_zeros n : replicate (8 * n) x00 = slots_bytes (replicate n 0).
Proof.
  induction n as [|n IH]; [done|]. replace (8 * S n)%nat with (8 + 8 * n)%nat by lia.
  rewrite replicate_add, IH. done.
Qed.

(** ** The attributes of a type *)

(** The addresses of the data of the attributes of type [t], that of the first at [a]. *)
Fixpoint addrs (t a : Z) (l : list attr) : list Z :=
  match l with
  | [] => []
  | b :: l => (if b.1 =? t then [a] else []) ++ addrs t (a + Z.of_nat (attr_size b)) l
  end.

Lemma datas_cons t t' d l : datas t ((t', d) :: l) = (if t' =? t then [d] else []) ++ datas t l.
Proof.
  unfold datas. destruct (Z.eqb_spec t' t); [rewrite filter_cons_True by done|rewrite filter_cons_False by done]; done.
Qed.

Lemma length_addrs t a l : length (addrs t a l) = length (datas t l).
Proof.
  revert a. induction l as [|[t' d] l IH]; intros a; [done|]. rewrite datas_cons. cbn [addrs fst].
  rewrite !length_app, IH. by destruct (t' =? t).
Qed.

(** The slots of three lists, for attributes of the types [t1], [t2] and [t3], filled
    with [d1], [d2] and [d3] so far, [l] to go. *)
Section partial.
Variables t1 t2 t3 : Z.
Hypotheses (H12 : t1 ≠ t2) (H13 : t1 ≠ t3) (H23 : t2 ≠ t3).

Definition partial (s0 d1 d2 d3 s1 : list Z) (l : list attr) : list Z :=
  let room t := replicate (length (datas t l)) 0 in
  s0 ++ d1 ++ room t1 ++ d2 ++ room t2 ++ d3 ++ room t3 ++ s1.

Lemma partial_nil s0 d1 d2 d3 s1 : partial s0 d1 d2 d3 s1 [] = s0 ++ d1 ++ d2 ++ d3 ++ s1.
Proof. done. Qed.

Lemma length_partial s0 d1 d2 d3 s1 l : length (partial s0 d1 d2 d3 s1 l) =
  (length s0 + (length d1 + length (datas t1 l)) + (length d2 + length (datas t2 l)) +
   (length d3 + length (datas t3 l)) + length s1)%nat.
Proof. unfold partial. rewrite !length_app, !length_replicate. lia. Qed.

Lemma partial_tail s0 d1 d2 d3 s1 s2 l : partial s0 d1 d2 d3 (s1 ++ s2) l = partial s0 d1 d2 d3 s1 l ++ s2.
Proof. unfold partial. by rewrite <-!app_assoc. Qed.

Lemma partial_skip t d l s0 d1 d2 d3 s1 : t ≠ t1 → t ≠ t2 → t ≠ t3 →
  partial s0 d1 d2 d3 s1 ((t, d) :: l) = partial s0 d1 d2 d3 s1 l.
Proof. intros ???. unfold partial. by rewrite !datas_cons, !(proj2 (Z.eqb_neq t _)) by done. Qed.

(** The slot that an attribute of each list fills. *)
Lemma partial_first d l s0 d1 d2 d3 s1 : ∃ A B,
  partial s0 d1 d2 d3 s1 ((t1, d) :: l) = A ++ 0 :: B ∧
  (∀ p, partial s0 (d1 ++ [p]) d2 d3 s1 l = A ++ p :: B) ∧ length A = (length s0 + length d1)%nat.
Proof.
  exists (s0 ++ d1). eexists. unfold partial.
  rewrite !datas_cons, Z.eqb_refl, !(proj2 (Z.eqb_neq t1 _)) by done.
  split; [by rewrite <-!app_assoc|]. split; [intros p; by rewrite <-!app_assoc|apply length_app].
Qed.

Lemma partial_second d l s0 d1 d2 d3 s1 : ∃ A B,
  partial s0 d1 d2 d3 s1 ((t2, d) :: l) = A ++ 0 :: B ∧
  (∀ p, partial s0 d1 (d2 ++ [p]) d3 s1 l = A ++ p :: B) ∧
  length A = (length s0 + (length d1 + length (datas t1 l)) + length d2)%nat.
Proof.
  exists (s0 ++ d1 ++ replicate (length (datas t1 l)) 0 ++ d2).
  eexists. unfold partial. rewrite !datas_cons, Z.eqb_refl, !(proj2 (Z.eqb_neq t2 _)) by done.
  split; [by rewrite <-!app_assoc|].
  split; [intros p; by rewrite <-!app_assoc|]. rewrite !length_app, length_replicate. lia.
Qed.

Lemma partial_third d l s0 d1 d2 d3 s1 : ∃ A B,
  partial s0 d1 d2 d3 s1 ((t3, d) :: l) = A ++ 0 :: B ∧
  (∀ p, partial s0 d1 d2 (d3 ++ [p]) s1 l = A ++ p :: B) ∧
  length A = (length s0 + (length d1 + length (datas t1 l)) +
              (length d2 + length (datas t2 l)) + length d3)%nat.
Proof.
  exists (s0 ++ d1 ++ replicate (length (datas t1 l)) 0 ++ d2 ++ replicate (length (datas t2 l)) 0 ++ d3).
  eexists. unfold partial. rewrite !datas_cons, Z.eqb_refl, !(proj2 (Z.eqb_neq t3 _)) by done.
  split; [by rewrite <-!app_assoc|].
  split; [intros p; by rewrite <-!app_assoc|]. rewrite !length_app, !length_replicate. lia.
Qed.
End partial.

(** The pointer to a list of [n] at slot [k], the slots at [P]. *)
Definition list_ptr (P : Z) (n k : nat) : Z := if (n =? 0)%nat then 0 else P + 8 * Z.of_nat k.

Lemma list_ptr_some P n k : n ≠ 0%nat → list_ptr P n k = P + 8 * Z.of_nat k.
Proof. intros Hn. unfold list_ptr. by rewrite (proj2 (Nat.eqb_neq n 0)). Qed.

(** ** A structure in front of the slots *)

Section buffer.
Variables (base : Z) (L : list nat) (pre X : list byte).
Implicit Types h : list (list byte).

(** The address of the slots. *)
Definition slots_at : Z := base + Z.of_nat (length pre + sum_list L + length X).
Definition smem h (slots : list Z) : block := pre ++ concat h ++ X ++ slots_bytes slots.

Lemma length_fields h : length <$> h = L → length (concat h) = sum_list L.
Proof. intros <-. induction h as [|c h IH]; [done|]. cbn. by rewrite length_app, IH. Qed.

Lemma fields_insert i v h : length <$> h = L → L !! i = Some (length v) → length <$> <[i := v]> h = L.
Proof. intros HL Hi. rewrite list_fmap_insert, HL. by apply list_insert_id. Qed.

Lemma sload i off p h slots :
  length <$> h = L → h !! i = Some (le_encode 8 p) → 0 <= p < 2 ^ 64 →
  off = Z.of_nat (length pre) + Z.of_nat (sum_list (take i L)) →
  load_ptr off (smem h slots) = Some (p, smem h slots).
Proof.
  intros HL Hi Hp Ho. unfold load_ptr, smem.
  rewrite (bind_eq _ _ _ (le_encode 8 p) (smem h slots)); [|by apply (load_field L h i pre)].
  unfold ret. rewrite le_decode_encode. change (256 ^ Z.of_nat 8) with (2 ^ 64). by rewrite Z.mod_small.
Qed.

Lemma sstore i off v h slots :
  length <$> h = L → L !! i = Some (length v) →
  off = Z.of_nat (length pre) + Z.of_nat (sum_list (take i L)) →
  store off v (smem h slots) = Some (tt, smem (<[i := v]> h) slots).
Proof. intros HL Hi Ho. by apply (store_field L). Qed.

(** The list in field [i] is at slot [k]; its element [n] is slot [length s1]. *)
Lemma fill_list_ok i off h s1 v s2 k n p :
  length <$> h = L → h !! i = Some (le_encode 8 (slots_at + 8 * k)) →
  off = Z.of_nat (length pre) + Z.of_nat (sum_list (take i L)) →
  0 < base → slots_at + 8 * k < 2 ^ 64 → 0 <= k → Z.of_nat (length s1) = k + n →
  fill_list base off n p (smem h (s1 ++ v :: s2)) = Some (Some (), smem h (s1 ++ p :: s2)).
Proof.
  intros HL Hi Ho Hb Hlt Hk Hn. unfold fill_list.
  rewrite (bind_eq _ _ _ _ _ (sload i off _ h _ HL Hi ltac:(unfold slots_at in *; lia) Ho)).
  rewrite (proj2 (Z.eqb_neq _ _)) by (unfold slots_at in *; lia).
  assert (E : store_ptr (slots_at + 8 * k + sizeof_ptr * n - base) p (smem h (s1 ++ v :: s2)) =
    Some (tt, smem h (s1 ++ p :: s2))).
  { unfold store_ptr, smem. rewrite !slots_app, !slots_cons, !(app_assoc pre), !(app_assoc (pre ++ _) X),
      !(app_assoc ((pre ++ _) ++ X)).
    apply store_bytes_at; [|by rewrite !length_le_encode].
    rewrite !length_app, length_slots, length_fields by done. unfold slots_at, sizeof_ptr. lia. }
  by rewrite (bind_eq _ _ _ _ _ E).
Qed.

(** A field brought to host byte order. *)
Lemma ntohl_field_ok i off z h slots :
  length <$> h = L → h !! i = Some (be_encode 4 z) →
  off = Z.of_nat (length pre) + Z.of_nat (sum_list (take i L)) →
  ntohl_field off (smem h slots) = Some (u32 z, smem (<[i := le_encode 4 (u32 z)]> h) slots).
Proof.
  intros HL Hi Ho. unfold ntohl_field.
  erewrite bind_eq by (by apply (ntohl_field_at L h i pre)).
  unfold store32. erewrite bind_eq; [done|]. apply sstore; [done| |done].
  by rewrite <-HL, list_lookup_fmap, Hi.
Qed.

(** A list of [n] laid out at slot [k], with [q] bytes of padding left. *)
Lemma expand_list_ok i off off' (n k : nat) q h slots :
  length <$> h = L → h !! i = Some (be_encode 4 (Z.of_nat n)) → L !! S i = Some 8%nat →
  off = Z.of_nat (length pre) + Z.of_nat (sum_list (take i L)) →
  off' = Z.of_nat (length pre) + Z.of_nat (sum_list (take (S i) L)) →
  8 * Z.of_nat n <= q < 2 ^ 32 →
  expand_list off off' (slots_at + 8 * Z.of_nat k, q) (smem h slots) =
  Some (Some (Z.of_nat n, (slots_at + 8 * Z.of_nat (k + n), q - 8 * Z.of_nat n)),
        smem (<[S i := le_encode 8 (list_ptr slots_at n k)]> (<[i := le_encode 4 (Z.of_nat n)]> h)) slots).
Proof.
  intros HL Hi Hl Ho Ho' Hq. unfold expand_list.
  rewrite (bind_eq _ _ _ _ _ (ntohl_field_ok i off _ h slots HL Hi Ho)), !(u32_fits (Z.of_nat n)) by lia.
  unfold __dns_configuration_expand_add_list, sizeof_ptr. cbn [fst snd].
  rewrite (u32_fits (Z.of_nat n * 8)), (proj2 (Z.ltb_ge _ _)), u32_fits by lia.
  assert (Hi' : L !! i = Some 4%nat) by by rewrite <-HL, list_lookup_fmap, Hi.
  assert (Ep : (if Z.of_nat n * 8 =? 0 then 0 else slots_at + 8 * Z.of_nat k) = list_ptr slots_at n k).
  { unfold list_ptr. destruct (Nat.eqb_spec n 0); [subst; done|]. by rewrite (proj2 (Z.eqb_neq _ _)) by lia. }
  rewrite Ep. unfold store_ptr. erewrite bind_eq.
  2:{ apply (sstore (S i)); [by apply fields_insert|done|done]. }
  unfold ret. rewrite (Z.mul_comm (Z.of_nat n)), <-Z.add_assoc, <-Z.mul_add_distr_l, <-Nat2Z.inj_add. done.
Qed.
End buffer.

(** ** The DNS configuration: expanding a resolver

    An expanded header, the addresses of attributes, and the slots for pointers behind
    the attributes: what [_dns_configuration_expand_resolver] makes of the image of a
    resolver. *)

(** ** An expanded header *)

Record xheader := MkX {
  x_domain : Z; x_n_nameserver : Z; x_nameserver : Z; x_port : Z; x_n_search : Z; x_search : Z;
  x_n_sortaddr : Z; x_sortaddr : Z; x_options : Z; x_timeout : Z; x_search_order : Z; x_if_index : Z;
  x_flags : Z; x_reach_flags : Z; x_service_identifier : Z; x_cid : Z; x_if_name : Z;
}.
Definition xfields (x : xheader) : list (list byte) :=
  [le_encode 8 (x_domain x); le_encode 4 (x_n_nameserver x); le_encode 8 (x_nameserver x);
   le_encode 2 (x_port x); zeros 2; le_encode 4 (x_n_search x); le_encode 8 (x_search x);
   le_encode 4 (x_n_sortaddr x); le_encode 8 (x_sortaddr x); le_encode 8 (x_options x);
   le_encode 4 (x_timeout x); le_encode 4 (x_search_order x); le_encode 4 (x_if_index x);
   le_encode 4 (x_flags x); le_encode 4 (x_reach_flags x); le_encode 4 (x_service_identifier x);
   le_encode 8 (x_cid x); le_encode 8 (x_if_name x)].

(** The pointers set for the attributes [l], the data of the first at [a]. *)
Definition set_ptr (t a : Z) (x : xheader) : xheader :=
  let '(MkX dom n1 p1 port n2 p2 n3 p3 opt tm so ii fl rf sid cid name) := x in
  if t =? RESOLVER_ATTRIBUTE_DOMAIN then MkX a n1 p1 port n2 p2 n3 p3 opt tm so ii fl rf sid cid name
  else if t =? RESOLVER_ATTRIBUTE_OPTIONS then MkX dom n1 p1 port n2 p2 n3 p3 a tm so ii fl rf sid cid name
  else if t =? RESOLVER_ATTRIBUTE_CONFIGURATION_ID then MkX dom n1 p1 port n2 p2 n3 p3 opt tm so ii fl rf sid a name
  else if t =? RESOLVER_ATTRIBUTE_INTERFACE_NAME then MkX dom n1 p1 port n2 p2 n3 p3 opt tm so ii fl rf sid cid a
  else x.
Fixpoint set_ptrs (a : Z) (l : list attr) (x : xheader) : xheader :=
  match l with
  | [] => x
  | b :: l => set_ptrs (a + Z.of_nat (attr_size b)) l (set_ptr b.1 a x)
  end.

(** ** The attributes of a resolver *)

Section resolver.
Variables (base : Z) (pre X : list byte).

Local Notation slots_at := (slots_at base resolver_layout pre X).
Local Notation xmem x := (smem pre X (xfields x)).
Local Notation partial := (partial RESOLVER_ATTRIBUTE_ADDRESS RESOLVER_ATTRIBUTE_SEARCH RESOLVER_ATTRIBUTE_SORTADDR).

Lemma xstore i off v x x' slots :
  resolver_layout !! i = Some (length v) → xfields x' = <[i := v]> (xfields x) →
  off = Z.of_nat (length pre) + Z.of_nat (sum_list (take i resolver_layout)) →
  store off v (xmem x slots) = Some (tt, xmem x' slots).
Proof. intros Hi E Ho. rewrite E. by apply (sstore resolver_layout). Qed.

(** The lists are where the header says. *)
Definition lists_at (x : xheader) (k n1 n2 n3 : nat) : Prop :=
  (n1 ≠ 0%nat → x_nameserver x = slots_at + 8 * Z.of_nat k) ∧
  (n2 ≠ 0%nat → x_search x = slots_at + 8 * Z.of_nat (k + n1)) ∧
  (n3 ≠ 0%nat → x_sortaddr x = slots_at + 8 * Z.of_nat (k + n1 + n2)).

Lemma lists_at_set_ptr t a x k n1 n2 n3 : lists_at x k n1 n2 n3 → lists_at (set_ptr t a x) k n1 n2 n3.
Proof. destruct x. unfold lists_at, set_ptr. by repeat case_match. Qed.

(** What is left to know of the state while attributes are expanded. *)
Definition expanding (x : xheader) (s0 d1 d2 d3 s1 : list Z) (l : list attr) : Prop :=
  slots_at + 8 * Z.of_nat (length (partial s0 d1 d2 d3 s1 l)) < 2 ^ 64 ∧
  lists_at x (length s0) (length d1 + length (datas RESOLVER_ATTRIBUTE_ADDRESS l))
    (length d2 + length (datas RESOLVER_ATTRIBUTE_SEARCH l))
    (length d3 + length (datas RESOLVER_ATTRIBUTE_SORTADDR l)).

(** One attribute, in front of [l]: its pointer goes into the header or a list. *)
Section one.
Variables (t : Z) (d : list byte) (l : list attr) (x : xheader) (s0 d1 d2 d3 s1 : list Z) (a : Z).
Local Notation p := (base + a + 8).
Local Notation e t' := (if t =? t' then [p] else []).

Lemma expanding_next :
  expanding x s0 d1 d2 d3 s1 ((t, d) :: l) →
  expanding (set_ptr t p x) s0 (d1 ++ e RESOLVER_ATTRIBUTE_ADDRESS) (d2 ++ e RESOLVER_ATTRIBUTE_SEARCH)
    (d3 ++ e RESOLVER_ATTRIBUTE_SORTADDR) s1 l.
Proof.
  unfold expanding. rewrite !length_partial, !datas_cons, !length_app.
  intros [Hs Hl]. split.
  - revert Hs. repeat destruct (t =? _); cbn [length]; lia.
  - apply lists_at_set_ptr. revert Hl. repeat destruct (t =? _); cbn [length];
      rewrite ?Nat.add_0_r, <-?Nat.add_assoc; done.
Qed.

(** A slot of the list in field [i], [k] slots on. *)
Lemma fill_slot {D} (c : option () → C block D) i (q k : Z) n A B off :
  0 < base → xfields x !! i = Some (le_encode 8 q) → q = slots_at + 8 * k → 0 <= k →
  Z.of_nat (length A) = k + Z.of_nat n → slots_at + 8 * Z.of_nat (length (A ++ 0 :: B)) < 2 ^ 64 →
  off = Z.of_nat (length pre) + Z.of_nat (sum_list (take i resolver_layout)) →
  bind (fill_list base off (Z.of_nat n) p) c (xmem x (A ++ 0 :: B)) = c (Some ()) (xmem x (A ++ p :: B)).
Proof.
  intros Hb Hi -> Hk HA Hlt Ho. rewrite length_app in Hlt. cbn [length] in Hlt.
  apply bind_eq, (fill_list_ok base resolver_layout pre X i off (xfields x) A 0 B k (Z.of_nat n) p); try done. lia.
Qed.

(** A pointer in the header. *)
Lemma set_slot i off x' s {B} (k : unit → C block B) :
  resolver_layout !! i = Some 8%nat → xfields x' = <[i := le_encode 8 p]> (xfields x) →
  off = Z.of_nat (length pre) + Z.of_nat (sum_list (take i resolver_layout)) →
  bind (store_ptr off p) k (xmem x s) = k tt (xmem x' s).
Proof. intros Hi E Ho. apply bind_eq. by apply (xstore i). Qed.

Lemma expand_attribute_ok :
  attr_ok (t, d) → 0 < base → expanding x s0 d1 d2 d3 s1 ((t, d) :: l) →
  expand_attribute base (Z.of_nat (length pre)) a t
    (MkFilled (Z.of_nat (length d1)) (Z.of_nat (length d2)) (Z.of_nat (length d3)))
    (xmem x (partial s0 d1 d2 d3 s1 ((t, d) :: l))) =
  let d1' := d1 ++ e RESOLVER_ATTRIBUTE_ADDRESS in
  let d2' := d2 ++ e RESOLVER_ATTRIBUTE_SEARCH in
  let d3' := d3 ++ e RESOLVER_ATTRIBUTE_SORTADDR in
  Some (Some (MkFilled (Z.of_nat (length d1')) (Z.of_nat (length d2')) (Z.of_nat (length d3'))),
        xmem (set_ptr t p x) (partial s0 d1' d2' d3' s1 l)).
Proof.
  intros Hok Hb [Hlt (L1 & L2 & L3)]. rewrite !datas_cons in *.
  unfold expand_attribute, try. change (base + a + sizeof_attribute) with p.
  assert (Hone : ∀ n : nat, Z.of_nat n + 1 = Z.of_nat (n + 1)) by lia.
  destruct Hok as [[-> _]|[[-> _]|[[Ht _]|[-> _]]]].
  3: set_unfold in Ht; destruct Ht as [->|[->|[->|[->|[]]]]].
  all: eqb_consts; rewrite ?app_nil_r; rewrite ?partial_skip by done; cbn [n_nameserver n_search n_sortaddr].
  - destruct (partial_first RESOLVER_ATTRIBUTE_ADDRESS RESOLVER_ATTRIBUTE_SEARCH RESOLVER_ATTRIBUTE_SORTADDR
      ltac:(done) ltac:(done) d l s0 d1 d2 d3 s1) as (A & B & E1 & E2 & E3). rewrite E2, E1 in *.
    rewrite (fill_slot _ 2 (x_nameserver x) (Z.of_nat (length s0))) by (done || lia || (apply L1; cbn; lia)).
    rewrite length_app, <-Hone. by destruct x.
  - destruct (partial_third RESOLVER_ATTRIBUTE_ADDRESS RESOLVER_ATTRIBUTE_SEARCH RESOLVER_ATTRIBUTE_SORTADDR
      ltac:(done) ltac:(done) d l s0 d1 d2 d3 s1) as (A & B & E1 & E2 & E3). rewrite E2, E1 in *.
    rewrite (fill_slot _ 8 (x_sortaddr x) (Z.of_nat (length A - length d3))) by
      (done || lia || (rewrite L3 by (cbn; lia); cbn; lia)).
    rewrite length_app, <-Hone. by destruct x.
  - rewrite (set_slot 0 _ (set_ptr RESOLVER_ATTRIBUTE_DOMAIN p x)) by (done || by destruct x). done.
  - destruct (partial_second RESOLVER_ATTRIBUTE_ADDRESS RESOLVER_ATTRIBUTE_SEARCH RESOLVER_ATTRIBUTE_SORTADDR
      ltac:(done) ltac:(done) d l s0 d1 d2 d3 s1) as (A & B & E1 & E2 & E3). rewrite E2, E1 in *.
    rewrite (fill_slot _ 6 (x_search x) (Z.of_nat (length A - length d2))) by
      (done || lia || (rewrite L2 by (cbn; lia); cbn; lia)).
    rewrite length_app, <-Hone. by destruct x.
  - rewrite (set_slot 9 _ (set_ptr RESOLVER_ATTRIBUTE_OPTIONS p x)) by (done || by destruct x). done.
  - rewrite (set_slot 16 _ (set_ptr RESOLVER_ATTRIBUTE_CONFIGURATION_ID p x)) by (done || by destruct x). done.
  - rewrite (set_slot 17 _ (set_ptr RESOLVER_ATTRIBUTE_INTERFACE_NAME p x)) by (done || by destruct x). done.
Qed.
End one.

(** The loop: [l] lies between [Xa] and [Xb]. *)
Lemma expand_attributes_ok l : ∀ Xa Xb fuel x s0 d1 d2 d3 s1,
  X = Xa ++ enc_attrs l ++ Xb → Forall attr_ok l → Z.of_nat (length (enc_attrs l)) < 2 ^ 32 →
  (length l < fuel)%nat → 0 < base → expanding x s0 d1 d2 d3 s1 l →
  let off := Z.of_nat (length pre + 96 + length Xa) in
  let a t := addrs t (base + off + 8) l in
  expand_attributes base fuel (Z.of_nat (length pre)) off (Z.of_nat (length (enc_attrs l)))
    (MkFilled (Z.of_nat (length d1)) (Z.of_nat (length d2)) (Z.of_nat (length d3)))
    (xmem x (partial s0 d1 d2 d3 s1 l)) =
  Some (Some (MkFilled (Z.of_nat (length (d1 ++ a RESOLVER_ATTRIBUTE_ADDRESS)))
                (Z.of_nat (length (d2 ++ a RESOLVER_ATTRIBUTE_SEARCH)))
                (Z.of_nat (length (d3 ++ a RESOLVER_ATTRIBUTE_SORTADDR)))),
        xmem (set_ptrs (base + off + 8) l x)
          (s0 ++ (d1 ++ a RESOLVER_ATTRIBUTE_ADDRESS) ++ (d2 ++ a RESOLVER_ATTRIBUTE_SEARCH) ++
           (d3 ++ a RESOLVER_ATTRIBUTE_SORTADDR) ++ s1)).
Proof.
  induction l as [|[t d] l IH]; intros Xa Xb fuel x s0 d1 d2 d3 s1 HX Hok Hsz Hfuel Hb Hex;
    (destruct fuel as [|fuel]; [cbn in Hfuel; lia|]); cbn [expand_attributes].
  { cbn. by rewrite !app_nil_r, partial_nil. }
  apply Forall_cons in Hok as [Ha Hok]. rewrite length_enc_attrs_cons in *.
  assert (Hs : (8 ≤ attr_size (t, d))%nat) by (unfold attr_size; lia).
  rewrite (proj2 (Z.ltb_ge _ _)) by (unfold sizeof_attribute; lia).
  assert (HM : ∀ s, xmem x s = (pre ++ concat (xfields x) ++ Xa) ++ enc_attrs ((t, d) :: l) ++ Xb ++ slots_bytes s).
  { intros s. unfold smem. by rewrite HX, <-!app_assoc. }
  assert (Hoff : Z.of_nat (length pre + 96 + length Xa) = Z.of_nat (length (pre ++ concat (xfields x) ++ Xa))).
  { rewrite !length_app. change (length (concat (xfields x))) with 96%nat. lia. }
  erewrite bind_eq by (rewrite HM, Hoff; by apply attr_length).
  erewrite bind_eq by (rewrite Hoff; by apply attr_type).
  rewrite <-HM, (u32_fits (Z.of_nat (attr_size _))) by lia. cbn [fst].
  assert (Ht : u32 t = t) by (destruct Ha as [[-> _]|[[-> _]|[[Ht _]|[-> _]]]]; try done; set_unfold in Ht; naive_solver).
  rewrite Ht. unfold try at 1. pose proof (expand_attribute_ok t d l x s0 d1 d2 d3 s1
    (Z.of_nat (length pre + 96 + length Xa)) Ha Hb Hex) as E. rewrite (bind_eq _ _ _ _ _ E). clear E.
  pose proof (expanding_next t d l x s0 d1 d2 d3 s1 (Z.of_nat (length pre + 96 + length Xa)) Hex) as Hex'.
  rewrite (u32_fits (_ - _)) by lia.
  replace (Z.of_nat (attr_size (t, d) + length (enc_attrs l)) - Z.of_nat (attr_size (t, d)))
    with (Z.of_nat (length (enc_attrs l))) by lia.
  replace (Z.of_nat (length pre + 96 + length Xa) + Z.of_nat (attr_size (t, d)))
    with (Z.of_nat (length pre + 96 + length (Xa ++ enc_attr (t, d)))) by (rewrite length_app, length_enc_attr; lia).
  rewrite (IH (Xa ++ enc_attr (t, d)) Xb fuel) by
    (done || lia || (by rewrite HX, enc_attrs_cons, <-!app_assoc) || (cbn in Hfuel; lia)).
  cbn [set_ptrs addrs fst]. rewrite <-!app_assoc, !length_app, length_enc_attr.
  replace (base + Z.of_nat (length pre + 96 + (length Xa + attr_size (t, d))) + 8)
    with (base + Z.of_nat (length pre + 96 + length Xa) + 8 + Z.of_nat (attr_size (t, d))) by lia.
  done.
Qed.

(** ** The whole resolver *)

Lemma header_step i v h s {B} (k : unit → C block B) off :
  length <$> h = resolver_layout → resolver_layout !! i = Some (length v) →
  off = Z.of_nat (length pre) + Z.of_nat (sum_list (take i resolver_layout)) →
  bind (store off v) k (smem pre X h s) = k tt (smem pre X (<[i := v]> h) s).
Proof. intros HL Hi Ho. apply bind_eq. by apply (sstore resolver_layout). Qed.

Lemma ntohl_step i z h s {B} (k : Z → C block B) off :
  length <$> h = resolver_layout → h !! i = Some (be_encode 4 z) →
  off = Z.of_nat (length pre) + Z.of_nat (sum_list (take i resolver_layout)) →
  bind (ntohl_field off) k (smem pre X h s) = k (u32 z) (smem pre X (<[i := le_encode 4 (u32 z)]> h) s).
Proof. intros HL Hi Ho. apply bind_eq. by apply (ntohl_field_ok resolver_layout). Qed.

Lemma list_step i (n k : nat) q h s {B} (c : option (Z * (Z * Z)) → C block B) off off' :
  length <$> h = resolver_layout → h !! i = Some (be_encode 4 (Z.of_nat n)) →
  resolver_layout !! S i = Some 8%nat →
  off = Z.of_nat (length pre) + Z.of_nat (sum_list (take i resolver_layout)) →
  off' = Z.of_nat (length pre) + Z.of_nat (sum_list (take (S i) resolver_layout)) →
  8 * Z.of_nat n <= q < 2 ^ 32 →
  bind (expand_list off off' (slots_at + 8 * Z.of_nat k, q)) c (smem pre X h s) =
  c (Some (Z.of_nat n, (slots_at + 8 * Z.of_nat (k + n), q - 8 * Z.of_nat n)))
    (smem pre X (<[S i := le_encode 8 (list_ptr slots_at n k)]> (<[i := le_encode 4 (Z.of_nat n)]> h)) s).
Proof. intros HL Hi Hl Ho Ho' Hq. apply bind_eq. by apply (expand_list_ok base resolver_layout). Qed.

(** The header once the lists are laid out from slot [k] on, the slots at [P]. *)
Definition laid_header (P : Z) (k : nat) (x : raw) : xheader :=
  let '(MkH _ port _ _ timeout order if_index flags reach sid, l) := x in
  let n1 := length (datas RESOLVER_ATTRIBUTE_ADDRESS l) in
  let n2 := length (datas RESOLVER_ATTRIBUTE_SEARCH l) in
  let n3 := length (datas RESOLVER_ATTRIBUTE_SORTADDR l) in
  MkX 0 (Z.of_nat n1) (list_ptr P n1 k) (port mod 2 ^ 16) (Z.of_nat n2) (list_ptr P n2 (k + n1))
    (Z.of_nat n3) (list_ptr P n3 (k + n1 + n2)) 0 (u32 timeout) (u32 order) (u32 if_index) (u32 flags)
    (u32 reach) (u32 sid) 0 0.

(** The expanded header, the data of the first attribute at [a]. *)
Definition open_header (P : Z) (k : nat) (a : Z) (x : raw) : xheader := set_ptrs a x.2 (laid_header P k x).

(** The slots a resolver fills. *)
Definition open_slots (a : Z) (l : list attr) : list Z :=
  addrs RESOLVER_ATTRIBUTE_ADDRESS a l ++ addrs RESOLVER_ATTRIBUTE_SEARCH a l ++ addrs RESOLVER_ATTRIBUTE_SORTADDR a l.

Definition n_lists (l : list attr) : nat :=
  length (datas RESOLVER_ATTRIBUTE_ADDRESS l) + length (datas RESOLVER_ATTRIBUTE_SEARCH l) +
  length (datas RESOLVER_ATTRIBUTE_SORTADDR l).

Lemma length_open_slots a l : length (open_slots a l) = n_lists l.
Proof. unfold open_slots, n_lists. rewrite !length_app, !length_addrs. lia. Qed.

Section whole.
Variables (h : header) (l : list attr) (rest : list byte) (s0 s1 : list Z) (q : Z).
Hypothesis Hok : raw_ok (h, l).
Hypothesis Hf : raw_fits (h, l).
Hypothesis HX : X = be_encode 4 (Z.of_nat (length (enc_attrs l))) ++ enc_attrs l ++ rest.
Hypothesis Hb : 0 < base.
Hypothesis Hlt : slots_at + 8 * Z.of_nat (length s0 + n_lists l + length s1) < 2 ^ 64.
Hypothesis Hq : 8 * Z.of_nat (n_lists l) <= q < 2 ^ 32.
Local Notation a := (base + Z.of_nat (length pre) + 100 + 8).
Local Notation laid := (laid_header slots_at (length s0) (h, l)).

(** What [_dns_configuration_expand_resolver] does once the header is laid out. *)
Definition expand_rest (buf n_buf nameservers searches sortaddrs : Z) (pad : Z * Z) : C block (option (Z * Z)) :=
  let n_attribute := u32 (n_buf - sizeof_resolver_buf) in
  let* declared := ntohl (buf + r_n_attribute) in
  if negb (n_attribute =? declared) then error else
  let? 'n := expand_attributes base (S (Z.to_nat n_attribute)) buf (buf + sizeof_resolver_buf) n_attribute
               (MkFilled 0 0 0) in
  if negb (n_nameserver n =? i32 nameservers) || negb (n_search n =? i32 searches) ||
     negb (n_sortaddr n =? i32 sortaddrs) then error
  else ret (Some pad).

Lemma expand_header_ok n_buf s : n_buf = Z.of_nat (length (image (h, l))) →
  _dns_configuration_expand_resolver base (Z.of_nat (length pre)) n_buf (slots_at + 8 * Z.of_nat (length s0), q)
    (smem pre X (header_fields h) s) =
  expand_rest (Z.of_nat (length pre)) n_buf (Z.of_nat (length (datas RESOLVER_ATTRIBUTE_ADDRESS l)))
    (Z.of_nat (length (datas RESOLVER_ATTRIBUTE_SEARCH l))) (Z.of_nat (length (datas RESOLVER_ATTRIBUTE_SORTADDR l)))
    (slots_at + 8 * Z.of_nat (length s0 + n_lists l), q - 8 * Z.of_nat (n_lists l)) (xmem laid s).
Proof using Hok Hf Hlt Hq.
  intros ->. destruct Hok as [H1 H2 H3 _]. unfold raw_fits in Hf. unfold n_lists in Hq. cbn [fst snd] in *.
  unfold _dns_configuration_expand_resolver. rewrite length_image. cbn [snd].
  rewrite (proj2 (Z.ltb_ge _ _)) by (unfold sizeof_resolver_buf; lia).
  destruct h as [n_ns port n_s n_so tm o ii fl rf sid]. cbn in H1, H2, H3. subst n_ns n_s n_so.
  unfold store_ptr at 1. rewrite (header_step 0) by done. cbv beta.
  unfold try at 1. rewrite (list_step 1 (length (datas RESOLVER_ATTRIBUTE_ADDRESS l))) by (done || lia).
  cbv beta iota.
  erewrite bind_eq.
  2:{ erewrite bind_eq by (apply (load_field resolver_layout _ 3 pre); done). apply (sstore resolver_layout pre X 3); done. }
  unfold try at 1. rewrite (list_step 5 (length (datas RESOLVER_ATTRIBUTE_SEARCH l))) by (done || lia). cbv beta iota.
  unfold try at 1. rewrite (list_step 7 (length (datas RESOLVER_ATTRIBUTE_SORTADDR l))) by (done || lia). cbv beta iota.
  unfold store_ptr at 1. rewrite (header_step 9) by done. cbv beta.
  rewrite (ntohl_step 10 tm), (ntohl_step 11 o), (ntohl_step 12 ii), (ntohl_step 15 sid), (ntohl_step 13 fl),
    (ntohl_step 14 rf) by done.
  set (h' := <[14%nat := _]> _).
  assert (Eh : h' = xfields (laid_header slots_at (length s0)
    (MkH (Z.of_nat (length (datas RESOLVER_ATTRIBUTE_ADDRESS l))) port (Z.of_nat (length (datas RESOLVER_ATTRIBUTE_SEARCH l)))
       (Z.of_nat (length (datas RESOLVER_ATTRIBUTE_SORTADDR l))) tm o ii fl rf sid, l))).
  { subst h'. unfold be_decode, be_encode. rewrite rev_involutive, le_decode_encode. done. }
  rewrite Eh. clear Eh h'. unfold n_lists.
  replace (q - 8 * Z.of_nat (_ + _)) with (q - 8 * Z.of_nat (length (datas RESOLVER_ATTRIBUTE_ADDRESS l)) -
    8 * Z.of_nat (length (datas RESOLVER_ATTRIBUTE_SEARCH l)) - 8 * Z.of_nat (length (datas RESOLVER_ATTRIBUTE_SORTADDR l)))
    by lia.
  rewrite !Nat.add_assoc. done.
Qed.

Lemma expand_rest_ok n_buf pad : n_buf = Z.of_nat (length (image (h, l))) →
  expand_rest (Z.of_nat (length pre)) n_buf (Z.of_nat (length (datas RESOLVER_ATTRIBUTE_ADDRESS l)))
    (Z.of_nat (length (datas RESOLVER_ATTRIBUTE_SEARCH l))) (Z.of_nat (length (datas RESOLVER_ATTRIBUTE_SORTADDR l)))
    pad (xmem laid (s0 ++ replicate (n_lists l) 0 ++ s1)) =
  Some (Some pad, xmem (open_header slots_at (length s0) a (h, l)) (s0 ++ open_slots a l ++ s1)).
Proof using Hok Hf HX Hb Hlt.
  intros ->. destruct Hok as [_ _ _ Hattrs]. unfold raw_fits in Hf. cbn [snd] in *.
  unfold expand_rest. rewrite length_image. cbn [snd].
  replace (u32 _) with (Z.of_nat (length (enc_attrs l))) by (unfold sizeof_resolver_buf; rewrite u32_fits; lia).
  assert (Hd : ∀ s, ntohl (Z.of_nat (length pre) + r_n_attribute) (xmem laid s) =
    Some (u32 (Z.of_nat (length (enc_attrs l))), xmem laid s)).
  { intros s. unfold smem. rewrite HX, <-!app_assoc, (app_assoc pre). apply ntohl_at.
    by rewrite length_app, Nat2Z.inj_add. }
  rewrite (bind_eq _ _ _ _ _ (Hd _)).
  rewrite u32_fits, Z.eqb_refl by lia. cbn [negb].
  assert (Hp : s0 ++ replicate (n_lists l) 0 ++ s1 = partial s0 [] [] [] s1 l).
  { unfold partial, n_lists. by rewrite !replicate_add, <-!app_assoc. }
  assert (Hex : expanding laid s0 [] [] [] s1 l).
  { split; [rewrite length_partial; cbn [length]; unfold n_lists in Hlt; lia|].
    destruct h. unfold lists_at, laid_header, list_ptr. cbn.
    repeat split; intros Hne; by rewrite (proj2 (Nat.eqb_neq _ _) Hne). }
  pose proof (enc_attrs_long l).
  pose proof (expand_attributes_ok l (be_encode 4 (Z.of_nat (length (enc_attrs l)))) rest
    (S (Z.to_nat (Z.of_nat (length (enc_attrs l))))) laid s0 [] [] [] s1 HX Hattrs ltac:(lia) ltac:(lia) Hb Hex) as E.
  cbn [length app] in E. rewrite length_be_encode, <-Hp in E. change (Z.of_nat 0) with 0 in E.
  replace (base + Z.of_nat (length pre + 96 + 4) + 8) with a in E by lia.
  replace (Z.of_nat (length pre + 96 + 4)) with (Z.of_nat (length pre) + sizeof_resolver_buf) in E
    by (unfold sizeof_resolver_buf; lia).
  unfold try. rewrite (bind_eq _ _ _ _ _ E). cbn [n_nameserver n_search n_sortaddr].
  rewrite !length_addrs, !i32_small, !Z.eqb_refl by
    (pose proof (filter_datas_length RESOLVER_ATTRIBUTE_ADDRESS l);
     pose proof (filter_datas_length RESOLVER_ATTRIBUTE_SEARCH l);
     pose proof (filter_datas_length RESOLVER_ATTRIBUTE_SORTADDR l); lia).
  unfold open_slots. by rewrite <-!app_assoc.
Qed.

Lemma expand_resolver_ok :
  _dns_configuration_expand_resolver base (Z.of_nat (length pre)) (Z.of_nat (length (image (h, l))))
    (slots_at + 8 * Z.of_nat (length s0), q)
    (smem pre X (header_fields h) (s0 ++ replicate (n_lists l) 0 ++ s1)) =
  Some (Some (slots_at + 8 * Z.of_nat (length s0 + n_lists l), q - 8 * Z.of_nat (n_lists l)),
        xmem (open_header slots_at (length s0) a (h, l)) (s0 ++ open_slots a l ++ s1)).
Proof using Hok Hf HX Hb Hlt Hq. rewrite expand_header_ok by done. by apply expand_rest_ok. Qed.
End whole.
End resolver.
