(* ===== verification/DnsOpenConfig.v ===== *)
(** * The DNS configuration: expanding all of it

    The loop over the resolvers of a configuration, and the buffer that
    [_dns_configuration_buffer_expand] leaves. *)

From S2P Require Import Prelude DnsCreate DnsExpand DnsBuild DnsResolver DnsConfig DnsOpen.

Local Open Scope Z_scope.
Local Open Scope c_scope.

(** ** The expanded buffer *)

Local Abbreviation entry := (Z * raw)%type.
Definition entry_size (e : entry) : nat := attr_size (entry_attr e).

Definition entry_ok (e : entry) : Prop :=
  raw_ok e.2 ∧ e.1 ∈ [CONFIG_ATTRIBUTE_RESOLVER; CONFIG_ATTRIBUTE_SCOPED_RESOLVER;
                      CONFIG_ATTRIBUTE_SERVICE_SPECIFIC_RESOLVER].

Lemma entry_type e : entry_ok e → u32 (entry_attr e).1 = e.1.
Proof. destruct e as [t r]. intros [_ He]. cbn in *. set_unfold in He. by destruct He as [->|[->|[->|[]]]]. Qed.

(** The slots of the resolvers. *)
Definition n_slots (es : list entry) : nat := sum_list ((λ e, n_lists e.2.2) <$> es).

(** The header, with lists of [n1], [n2] and [n3] resolvers. *)
Definition config_open (P : Z) (n1 n2 n3 : nat) (generation : Z) : list (list byte) :=
  [le_encode 4 (Z.of_nat n1); le_encode 8 (list_ptr P n1 0);
   le_encode 4 (Z.of_nat n2); le_encode 8 (list_ptr P n2 n1); le_encode 8 generation;
   le_encode 4 (Z.of_nat n3); le_encode 8 (list_ptr P n3 (n1 + n2)); le_encode 4 DNSINFO_VERSION].

Lemma config_open_layout P n1 n2 n3 g : length <$> config_open P n1 n2 n3 g = config_layout.
Proof. done. Qed.

Section open.
Variables base P : Z.

(** A resolver at the offset [o], with its lists from slot [k] on. *)
Definition open_entry (k o : nat) (e : entry) : list byte :=
  be_encode 4 e.1 ++ be_encode 4 (Z.of_nat (entry_size e)) ++
  concat (xfields (open_header P k (base + Z.of_nat (o + 8) + 100 + 8) e.2)) ++
  be_encode 4 (Z.of_nat (length (enc_attrs e.2.2))) ++ enc_attrs e.2.2.

Fixpoint open_entries (k o : nat) (es : list entry) : list byte :=
  match es with
  | [] => []
  | e :: es => open_entry k o e ++ open_entries (k + n_lists e.2.2) (o + entry_size e) es
  end.

Fixpoint open_entry_slots (o : nat) (es : list entry) : list Z :=
  match es with
  | [] => []
  | e :: es => open_slots (base + Z.of_nat (o + 8) + 100 + 8) e.2.2 ++ open_entry_slots (o + entry_size e) es
  end.

Lemma entry_size_image e : entry_size e = (8 + length (image e.2))%nat.
Proof. unfold entry_size, attr_size, entry_attr. cbn [snd]. rewrite image_pad. lia. Qed.

Lemma length_open_entry k o e : length (open_entry k o e) = entry_size e.
Proof.
  unfold open_entry. rewrite !length_app, !length_be_encode, entry_size_image, length_image.
  change (length (concat (xfields _))) with 96%nat. lia.
Qed.

(** ** One resolver *)

Section loop.
Variable c0 : list byte.
Hypothesis Hc0 : length c0 = 8%nat.
Local Notation RES := CONFIG_ATTRIBUTE_RESOLVER.
Local Notation SCO := CONFIG_ATTRIBUTE_SCOPED_RESOLVER.
Local Notation SPE := CONFIG_ATTRIBUTE_SERVICE_SPECIFIC_RESOLVER.
Local Notation partial := (partial RES SCO SPE []).
Local Notation cmem cf bs := (smem [] (c0 ++ bs) cf).

(** The buffer with the resolver [e] behind [D], and [rest] behind it. *)
Lemma entry_split cf D e rest slots :
  cmem cf (D ++ enc_attr (entry_attr e) ++ rest) slots =
  smem (concat cf ++ c0 ++ D ++ be_encode 4 e.1 ++ be_encode 4 (Z.of_nat (entry_size e)))
    (be_encode 4 (Z.of_nat (length (enc_attrs e.2.2))) ++ enc_attrs e.2.2 ++ rest) (header_fields e.2.1) slots.
Proof.
  unfold smem, enc_attr, entry_size, entry_attr. cbn [fst snd]. rewrite image_pad. cbn [replicate].
  unfold image. cbn [app]. by rewrite <-!app_assoc.
Qed.

Lemma open_entry_split cf D e rest slots k o :
  smem (concat cf ++ c0 ++ D ++ be_encode 4 e.1 ++ be_encode 4 (Z.of_nat (entry_size e)))
    (be_encode 4 (Z.of_nat (length (enc_attrs e.2.2))) ++ enc_attrs e.2.2 ++ rest)
    (xfields (open_header P k (base + Z.of_nat (o + 8) + 100 + 8) e.2)) slots =
  cmem cf (D ++ open_entry k o e ++ rest) slots.
Proof. unfold smem, open_entry. cbn [app]. by rewrite <-!app_assoc. Qed.

Lemma expand_entry_ok cf D e rest s0 s1 q :
  length <$> cf = config_layout → raw_ok e.2 → raw_fits e.2 → 0 < base →
  P = base + Z.of_nat (56 + length D + entry_size e + length rest) →
  P + 8 * Z.of_nat (length s0 + n_lists e.2.2 + length s1) < 2 ^ 64 →
  8 * Z.of_nat (n_lists e.2.2) <= q < 2 ^ 32 →
  let o := (56 + length D)%nat in
  _dns_configuration_expand_resolver base (Z.of_nat (o + 8)) (Z.of_nat (length (image e.2)))
    (P + 8 * Z.of_nat (length s0), q)
    (cmem cf (D ++ enc_attr (entry_attr e) ++ rest) (s0 ++ replicate (n_lists e.2.2) 0 ++ s1)) =
  Some (Some (P + 8 * Z.of_nat (length s0 + n_lists e.2.2), q - 8 * Z.of_nat (n_lists e.2.2)),
        cmem cf (D ++ open_entry (length s0) o e ++ rest)
          (s0 ++ open_slots (base + Z.of_nat (o + 8) + 100 + 8) e.2.2 ++ s1)).
Proof using Hc0.
  intros Hcf Hok Hf Hb HP Hlt Hq o. rewrite entry_split.
  set (pre := concat cf ++ _). set (X := be_encode 4 (Z.of_nat (length (enc_attrs e.2.2))) ++ _).
  assert (Hpre : length pre = (o + 8)%nat).
  { unfold pre, o. rewrite !length_app, (length_fields config_layout), Hc0, !length_be_encode by done. cbn. lia. }
  assert (HS : slots_at base resolver_layout pre X = P).
  { unfold slots_at. rewrite Hpre, HP. unfold X, o. rewrite !length_app, length_be_encode, entry_size_image, length_image.
    change (sum_list resolver_layout) with 96%nat. lia. }
  destruct e as [t [h l]]. cbn [fst snd] in *.
  pose proof (expand_resolver_ok base pre X h l rest s0 s1 q Hok Hf eq_refl Hb ltac:(by rewrite HS) Hq) as E.
  rewrite Hpre, HS in E. rewrite E. unfold pre, X. by rewrite (open_entry_split cf D (t, (h, l)) rest).
Qed.

(** A slot of the list in field [i] of the header, [k] slots on. *)
Lemma config_fill {D} (c : option () → C block D) cf i k n A B T bs off p :
  length <$> cf = config_layout → 0 < base → P = base + Z.of_nat (56 + length bs) →
  cf !! i = Some (le_encode 8 (P + 8 * Z.of_nat k)) → length A = (k + n)%nat →
  P + 8 * Z.of_nat (length (A ++ 0 :: B)) < 2 ^ 64 →
  off = Z.of_nat (sum_list (take i config_layout)) →
  bind (fill_list base off (Z.of_nat n) p) c (cmem cf bs ((A ++ 0 :: B) ++ T)) =
  c (Some ()) (cmem cf bs ((A ++ p :: B) ++ T)).
Proof using Hc0.
  intros Hcf Hb HP Hi HA Hlt Ho. rewrite length_app in Hlt. cbn [length] in Hlt. rewrite <-!app_assoc.
  cbn [app]. apply bind_eq.
  assert (HS : slots_at base config_layout [] (c0 ++ bs) = P).
  { unfold slots_at. rewrite HP, length_app, Hc0. change (sum_list config_layout) with 48%nat. cbn [length]. lia. }
  apply (fill_list_ok base config_layout [] (c0 ++ bs) i off cf A 0 (B ++ T) (Z.of_nat k)); rewrite ?HS; done || lia.
Qed.

(** The counts so far and to come, in the header. *)
Definition counted (cf : list (list byte)) (d1 d2 d3 : list Z) (g : Z) (es : list entry) : Prop :=
  cf = config_open P (length d1 + length (datas RES (entry_attr <$> es)))
         (length d2 + length (datas SCO (entry_attr <$> es)))
         (length d3 + length (datas SPE (entry_attr <$> es))) g.

Section one.
Variables (cf : list (list byte)) (D rest : list byte) (e : entry) (es : list entry) (d1 d2 d3 F : list Z) (g q : Z).
Local Notation o := (56 + length D)%nat.
Local Notation p := (base + Z.of_nat o + 8).
Local Notation at_type t' := (if e.1 =? t' then [p] else []).
Local Notation k := (length d1 + length (datas RES (entry_attr <$> e :: es)) +
  (length d2 + length (datas SCO (entry_attr <$> e :: es))) +
  (length d3 + length (datas SPE (entry_attr <$> e :: es))) + length F)%nat.

Lemma counted_next : counted cf d1 d2 d3 g (e :: es) →
  counted cf (d1 ++ at_type RES) (d2 ++ at_type SCO) (d3 ++ at_type SPE) g es.
Proof.
  unfold counted. intros ->. cbn [fmap list_fmap]. destruct e as [t r]. unfold entry_attr at 1 3 5. cbn [fst snd].
  rewrite !datas_cons, !length_app. rewrite !Nat.add_assoc.
  by repeat destruct (t =? _).
Qed.

Hypothesis Hok : entry_ok e.
Hypothesis Hf : raw_fits e.2.
Hypothesis Hcf : counted cf d1 d2 d3 g (e :: es).
Hypothesis Hb : 0 < base.
Hypothesis HP : P = base + Z.of_nat (56 + length D + entry_size e + length rest).
Hypothesis Hlt : P + 8 * Z.of_nat (k + n_slots (e :: es)) < 2 ^ 64.
Hypothesis Hq : 8 * Z.of_nat (n_slots (e :: es)) <= q < 2 ^ 32.

Lemma expand_config_attribute_ok :
  expand_config_attribute base (Z.of_nat o) (Z.of_nat (entry_size e)) e.1
    (MkListed (Z.of_nat (length d1)) (Z.of_nat (length d2)) (Z.of_nat (length d3)))
    (P + 8 * Z.of_nat k, q)
    (cmem cf (D ++ enc_attr (entry_attr e) ++ rest)
       (partial d1 d2 d3 (F ++ replicate (n_slots (e :: es)) 0) (entry_attr <$> e :: es))) =
  let d1' := d1 ++ at_type RES in
  let d2' := d2 ++ at_type SCO in
  let d3' := d3 ++ at_type SPE in
  Some (Some (MkListed (Z.of_nat (length d1')) (Z.of_nat (length d2')) (Z.of_nat (length d3')),
              (P + 8 * Z.of_nat (k + n_lists e.2.2), q - 8 * Z.of_nat (n_lists e.2.2))),
        cmem cf (D ++ open_entry k o e ++ rest)
          (partial d1' d2' d3' (F ++ open_slots (p + 108) e.2.2 ++ replicate (n_slots es) 0) (entry_attr <$> es))).
Proof using Hc0 Hok Hf Hcf Hb HP Hlt Hq.
  unfold expand_config_attribute. rewrite entry_size_image.
  replace (u32 _) with (Z.of_nat (length (image e.2)))
    by (unfold sizeof_attribute; pose proof Hf as Hf'; unfold raw_fits in Hf'; rewrite u32_fits;
        rewrite ?length_image; lia).
  set (S0 := partial d1 d2 d3 F (entry_attr <$> e :: es)).
  assert (HS0 : length S0 = k) by (unfold S0; rewrite length_partial; cbn [length]; lia).
  assert (Hz : n_slots (e :: es) = (n_lists e.2.2 + n_slots es)%nat) by done.
  rewrite Hz, replicate_add, !partial_tail. fold S0. rewrite <-HS0. rewrite <-HS0, Hz in Hlt. rewrite Hz in Hq.
  destruct Hok as [Hrok Ht].
  pose proof (expand_entry_ok cf D e rest S0 (replicate (n_slots es) 0) q ltac:(by rewrite Hcf) Hrok Hf Hb HP
    ltac:(rewrite length_replicate; lia) ltac:(lia)) as E. cbv zeta in E.
  replace (Z.of_nat (o + 8)) with (Z.of_nat o + sizeof_attribute) in E by (unfold sizeof_attribute; lia).
  destruct e as [t r]. cbn [fst snd] in *. set_unfold in Ht. destruct Ht as [->|[->|[->|[]]]];
    eqb_consts; cbn [orb]; unfold try at 1; rewrite (bind_eq _ _ _ _ _ E); clear E;
    replace (base + (Z.of_nat o + sizeof_attribute)) with p by (unfold sizeof_attribute; lia);
    rewrite <-(Z.add_assoc p 100 8); change (100 + 8) with 108; unfold try; cbn [n_resolver n_scoped_resolver n_service_specific_resolver];
    rewrite ?app_nil_r; unfold S0 in *; clear S0; unfold counted in Hcf;
    match goal with |- context [entry_attr <$> (?t, r) :: es] =>
      change (entry_attr <$> (t, r) :: es) with ((t, image r) :: (entry_attr <$> es)) in * end.
  all: match goal with |- context [open_entry ?k ?o ?e] =>
    assert (HP' : P = base + Z.of_nat (56 + length (D ++ open_entry k o e ++ rest)))
      by (rewrite HP, !length_app, length_open_entry; lia) end.
  - destruct (partial_first RES SCO SPE ltac:(done) ltac:(done) (image r) (entry_attr <$> es) [] d1 d2 d3 F)
      as (A & B & E1 & E2 & E3). cbn [length] in E3. rewrite E2, E1 in *.
    rewrite (config_fill _ cf 1 0); [by rewrite (length_app d1), (Nat2Z.inj_add (length d1))|by rewrite Hcf|done|exact HP'| |lia|lia|done].
    rewrite Hcf. cbn [config_open lookup list_lookup]. do 2 f_equal. apply list_ptr_some.
    rewrite datas_cons, Z.eqb_refl, length_app. cbn. lia.
  - destruct (partial_second RES SCO SPE ltac:(done) ltac:(done) (image r) (entry_attr <$> es) [] d1 d2 d3 F)
      as (A & B & E1 & E2 & E3). cbn [length] in E3. rewrite E2, E1 in *.
    rewrite (config_fill _ cf 3 (length d1 + length (datas RES (entry_attr <$> es)))); [by rewrite (length_app d2), (Nat2Z.inj_add (length d2))|by rewrite Hcf|done|exact HP'| |lia|lia|done].
    rewrite Hcf. cbn [config_open lookup list_lookup]. do 2 f_equal. apply list_ptr_some.
    rewrite datas_cons, Z.eqb_refl, length_app. cbn. lia.
  - destruct (partial_third RES SCO SPE ltac:(done) ltac:(done) (image r) (entry_attr <$> es) [] d1 d2 d3 F)
      as (A & B & E1 & E2 & E3). cbn [length] in E3. rewrite E2, E1 in *.
    rewrite (config_fill _ cf 6 (length d1 + length (datas RES (entry_attr <$> es)) + (length d2 + length (datas SCO (entry_attr <$> es))))); [by rewrite (length_app d3), (Nat2Z.inj_add (length d3))|by rewrite Hcf|done|exact HP'| |lia|lia|done].
    rewrite Hcf. cbn [config_open lookup list_lookup]. do 2 f_equal. apply list_ptr_some.
    rewrite datas_cons, Z.eqb_refl, length_app. cbn. lia.
Qed.
End one.

(** ** The loop *)

(** The slots in use. *)
Definition in_use (d1 d2 d3 F : list Z) (es : list entry) : nat :=
  length d1 + length (datas RES (entry_attr <$> es)) + (length d2 + length (datas SCO (entry_attr <$> es))) +
  (length d3 + length (datas SPE (entry_attr <$> es))) + length F.

Lemma in_use_next d1 d2 d3 F F' e es (p : Z) :
  in_use (d1 ++ (if e.1 =? RES then [p] else [])) (d2 ++ (if e.1 =? SCO then [p] else []))
    (d3 ++ (if e.1 =? SPE then [p] else [])) (F ++ F') es = (in_use d1 d2 d3 F (e :: es) + length F')%nat.
Proof.
  unfold in_use. destruct e as [t r]. change (entry_attr <$> (t, r) :: es) with ((t, image r) :: (entry_attr <$> es)).
  rewrite !datas_cons, !length_app. cbn [fst]. repeat destruct (t =? _); cbn [length]; lia.
Qed.

Lemma expand_config_attributes_ok g es : ∀ D d1 d2 d3 F fuel q cf,
  Forall entry_ok es → Forall (λ e, raw_fits e.2) es → counted cf d1 d2 d3 g es → 0 < base →
  let k := in_use d1 d2 d3 F es in
  let o := (56 + length D)%nat in
  let size := length (enc_attrs (entry_attr <$> es)) in
  P = base + Z.of_nat (o + size) → Z.of_nat size < 2 ^ 32 → P + 8 * Z.of_nat (k + n_slots es) < 2 ^ 64 →
  8 * Z.of_nat (n_slots es) <= q < 2 ^ 32 → (length es < fuel)%nat →
  let a t := addrs t (base + Z.of_nat o + 8) (entry_attr <$> es) in
  expand_config_attributes base fuel (Z.of_nat o) (Z.of_nat size)
    (MkListed (Z.of_nat (length d1)) (Z.of_nat (length d2)) (Z.of_nat (length d3))) (P + 8 * Z.of_nat k, q)
    (cmem cf (D ++ enc_attrs (entry_attr <$> es))
       (partial d1 d2 d3 (F ++ replicate (n_slots es) 0) (entry_attr <$> es))) =
  Some (Some (MkListed (Z.of_nat (length (d1 ++ a RES))) (Z.of_nat (length (d2 ++ a SCO)))
                (Z.of_nat (length (d3 ++ a SPE)))),
        cmem cf (D ++ open_entries k o es)
          ((d1 ++ a RES) ++ (d2 ++ a SCO) ++ (d3 ++ a SPE) ++ F ++ open_entry_slots o es)).
Proof using Hc0.
  induction es as [|e es IH]; intros D d1 d2 d3 F fuel q cf Hok Hf Hcf Hb k o size HP Hsz Hlt Hq Hfuel a;
    (destruct fuel as [|fuel]; [cbn in Hfuel; lia|]); cbn [expand_config_attributes].
  { unfold a, size. cbn [fmap list_fmap addrs open_entries open_entry_slots]. rewrite partial_nil.
    by rewrite !app_nil_r. }
  apply Forall_cons in Hok as [He Hok], Hf as [Hfe Hf].
  assert (Esz : size = (entry_size e + length (enc_attrs (entry_attr <$> es)))%nat)
    by (unfold size; cbn [fmap list_fmap]; by rewrite length_enc_attrs_cons).
  assert (Hs : (8 ≤ entry_size e)%nat) by (rewrite entry_size_image; lia).
  rewrite (proj2 (Z.ltb_ge _ _)) by (unfold sizeof_attribute; lia).
  assert (Ho : Z.of_nat o = Z.of_nat (length (concat cf ++ c0 ++ D))).
  { unfold o. rewrite !length_app, (length_fields config_layout), Hc0 by (by rewrite Hcf).
    change (sum_list config_layout) with 48%nat. lia. }
  assert (HM : ∀ s, cmem cf (D ++ enc_attrs (entry_attr <$> e :: es)) s =
    (concat cf ++ c0 ++ D) ++ enc_attrs (entry_attr e :: (entry_attr <$> es)) ++ slots_bytes s).
  { intros s. unfold smem. cbn [fmap list_fmap app]. by rewrite <-!app_assoc. }
  erewrite bind_eq by (rewrite HM; by apply attr_length).
  erewrite bind_eq by (by apply attr_type).
  rewrite <-HM. fold (entry_size e).
  assert (Ht : u32 (entry_attr e).1 = e.1) by by apply entry_type.
  rewrite Ht, (u32_fits (Z.of_nat (entry_size e))) by lia.
  assert (Hz : n_slots (e :: es) = (n_lists e.2.2 + n_slots es)%nat) by done.
  pose proof (expand_config_attribute_ok cf D (enc_attrs (entry_attr <$> es)) e es d1 d2 d3 F g q He Hfe Hcf Hb
    ltac:(unfold o in HP; lia) ltac:(unfold k, in_use in Hlt; lia) Hq) as E.
  fold (in_use d1 d2 d3 F (e :: es)) in E. fold k o in E.
  unfold try. rewrite (bind_eq _ _ _ _ _ E). clear E HM Ht.
  pose proof (counted_next cf D e es d1 d2 d3 g Hcf) as Hcf'.
  pose proof (in_use_next d1 d2 d3 F (open_slots (base + Z.of_nat o + 8 + 108) e.2.2) e es (base + Z.of_nat o + 8)) as Hk.
  rewrite length_open_slots in Hk. fold o in Hcf'.
  set (p := base + Z.of_nat o + 8) in *. set (D' := D ++ open_entry k o e).
  assert (Ho' : (56 + length D')%nat = (o + entry_size e)%nat) by (unfold D', o; rewrite length_app, length_open_entry; lia).
  set (d1' := d1 ++ (if e.1 =? RES then _ else _)) in *. set (d2' := d2 ++ (if e.1 =? SCO then _ else _)) in *.
  set (d3' := d3 ++ (if e.1 =? SPE then _ else _)) in *. cbv zeta.
  replace (u32 (Z.of_nat size - _)) with (Z.of_nat (length (enc_attrs (entry_attr <$> es)))) by (rewrite u32_fits; lia).
  specialize (IH D' d1' d2' d3' (F ++ open_slots (p + 108) e.2.2) fuel (q - 8 * Z.of_nat (n_lists e.2.2)) cf Hok Hf Hcf' Hb).
  cbv zeta in IH. rewrite Ho', Hk in IH. change (in_use d1 d2 d3 F (e :: es)) with k in IH. rewrite Hz in Hlt, Hq. clearbody k.
  specialize (IH ltac:(lia) ltac:(lia) ltac:(lia) ltac:(lia) ltac:(cbn in Hfuel; lia)).
  replace (base + Z.of_nat (o + entry_size e) + 8) with (p + Z.of_nat (entry_size e)) in IH by (unfold p; lia).
  assert (Ha : ∀ d t, d ++ a t = (d ++ if e.1 =? t then [p] else []) ++ addrs t (p + Z.of_nat (entry_size e)) (entry_attr <$> es)).
  { intros d t. by rewrite <-app_assoc. }
  rewrite !Ha. fold d1' d2' d3'. cbn [open_entries open_entry_slots].
  replace (base + Z.of_nat (o + 8) + 100 + 8) with (p + 108) by (unfold p; lia).
  rewrite <-Nat2Z.inj_add. unfold D' in IH. rewrite <-!(app_assoc D), <-!(app_assoc F) in IH. exact IH.
Qed.
End loop.
End open.

(** ** The whole configuration *)

Record config_ok (c : craw) : Prop := {
  ok_entries : Forall entry_ok c.2;
  ok_resolver : ch_n_resolver c.1 = Z.of_nat (length (datas CONFIG_ATTRIBUTE_RESOLVER (entry_attr <$> c.2)));
  ok_scoped : ch_n_scoped c.1 = Z.of_nat (length (datas CONFIG_ATTRIBUTE_SCOPED_RESOLVER (entry_attr <$> c.2)));
  ok_specific : ch_n_specific c.1 =
    Z.of_nat (length (datas CONFIG_ATTRIBUTE_SERVICE_SPECIFIC_RESOLVER (entry_attr <$> c.2)));
  ok_padding : ch_padding c.1 = 8 * Z.of_nat (length c.2 + n_slots c.2);
}.

Lemma class_of_type flags : class_of flags ∈
  [CONFIG_ATTRIBUTE_RESOLVER; CONFIG_ATTRIBUTE_SCOPED_RESOLVER; CONFIG_ATTRIBUTE_SERVICE_SPECIFIC_RESOLVER].
Proof. unfold class_of. repeat case_match; set_solver. Qed.

Lemma raw_slots_lists x : raw_ok x → raw_slots x = Z.of_nat (S (n_lists x.2)).
Proof. intros [H1 H2 H3 _]. unfold raw_slots, n_lists. rewrite H1, H2, H3. lia. Qed.

Lemma config_ok_add c x : config_ok c → raw_ok x → config_ok (config_add c x).
Proof.
  destruct c as [[n_res n_sc n_sp gen pad] es]. intros [He H1 H2 H3 H4] Hx.
  cbn [fst snd ch_n_resolver ch_n_scoped ch_n_specific ch_padding] in *. unfold config_add.
  assert (Hd : ∀ t, length (datas t (entry_attr <$> (es ++ [(raw_class x, x)]))) =
    (length (datas t (entry_attr <$> es)) + length (if (raw_class x =? t)%Z then [image x] else []))%nat).
  { intros t. rewrite fmap_app, datas_app, length_app. cbn [fmap list_fmap]. unfold entry_attr at 2. cbn [fst snd].
    rewrite datas_cons. by rewrite app_nil_r. }
  split; cbn [fst snd ch_n_resolver ch_n_scoped ch_n_specific ch_padding]; rewrite ?Hd.
  - apply Forall_app. split; [done|]. apply Forall_singleton. split; [done|]. apply class_of_type.
  - rewrite H1. destruct (_ =? _); cbn; lia.
  - rewrite H2. destruct (_ =? _); cbn; lia.
  - rewrite H3. destruct (_ =? _); cbn; lia.
  - rewrite raw_slots_lists, H4 by done. unfold n_slots. rewrite fmap_app, sum_list_with_app, length_app. cbn. lia.
Qed.

Lemma config_ok_created now : config_ok (MkCH 0 0 0 now 0, []).
Proof. by split. Qed.

(** Each resolver is in one list. *)
Lemma length_classes es : Forall entry_ok es →
  (length (datas CONFIG_ATTRIBUTE_RESOLVER (entry_attr <$> es)) +
   length (datas CONFIG_ATTRIBUTE_SCOPED_RESOLVER (entry_attr <$> es)) +
   length (datas CONFIG_ATTRIBUTE_SERVICE_SPECIFIC_RESOLVER (entry_attr <$> es)))%nat = length es.
Proof.
  induction 1 as [|[t r] es [_ Ht] Hes IH]; [done|]. cbn [fmap list_fmap]. unfold entry_attr at 1 3 5. cbn [fst snd].
  rewrite !datas_cons, !length_app. cbn [fst] in Ht. set_unfold in Ht. destruct Ht as [->|[->|[->|[]]]]; eqb_consts; cbn [length]; lia.
Qed.

Lemma zeros_slots n : replicate (Z.to_nat (8 * Z.of_nat n)) x00 = slots_bytes (replicate n 0).
Proof. replace (Z.to_nat (8 * Z.of_nat n)) with (8 * n)%nat by lia. apply slots_zeros. Qed.

Section buffer.
Variables (base : Z) (h : cheader) (es : list entry).
Local Notation c := (h, es).
Local Notation RES := CONFIG_ATTRIBUTE_RESOLVER.
Local Notation SCO := CONFIG_ATTRIBUTE_SCOPED_RESOLVER.
Local Notation SPE := CONFIG_ATTRIBUTE_SERVICE_SPECIFIC_RESOLVER.
Hypothesis Hok : config_ok c.
Hypothesis Hmax : Z.of_nat (length (config_image c)) + ch_padding h <= DNS_CONFIG_BUF_MAX.

Definition counts_bytes : list byte :=
  be_encode 4 (Z.of_nat (length (entries c))) ++ be_encode 4 (ch_padding h).
Local Notation n := (length es + n_slots es)%nat.
Definition flat_buffer : block :=
  smem [] (counts_bytes ++ entries c) (config_fields h) (replicate n 0).

Lemma length_config_image : length (config_image c) = (56 + length (entries c))%nat.
Proof.
  unfold config_image. rewrite !length_app, !length_be_encode, (length_fields config_layout) by done.
  change (sum_list config_layout) with 48%nat. lia.
Qed.

Lemma buffer_bounds :
  56 + Z.of_nat (length (entries c)) + 8 * Z.of_nat n <= 2 ^ 20.
Proof using Hok Hmax.
  rewrite length_config_image in Hmax. destruct Hok as [_ _ _ _ Hp]. cbn [fst snd] in Hp. rewrite Hp in Hmax.
  unfold DNS_CONFIG_BUF_MAX in Hmax. lia.
Qed.

Lemma entries_fit : Forall (λ e, raw_fits e.2) es.
Proof using Hok Hmax.
  apply Forall_forall. intros e He. pose proof buffer_bounds as Hb. unfold entries in Hb. cbn [snd] in Hb.
  unfold raw_fits. apply list_elem_of_split in He as (l1 & l2 & ->).
  rewrite fmap_app, enc_attrs_app, length_app in Hb. cbn [fmap list_fmap] in Hb.
  rewrite length_enc_attrs_cons in Hb. change (attr_size (entry_attr e)) with (entry_size e) in Hb.
  rewrite entry_size_image, length_image in Hb. lia.
Qed.

Lemma buffer_create_ok slack dataLen buf :
  dataLen = Z.of_nat (length (config_image c)) →
  _dns_configuration_buffer_create (config_image c ++ slack) dataLen buf = Some (Some (), flat_buffer).
Proof using Hok Hmax.
  intros ->. pose proof buffer_bounds as Hb. pose proof Hok as [_ _ _ _ Hp]. cbn [fst snd] in Hp.
  unfold _dns_configuration_buffer_create.
  rewrite (load_mid [] (config_image c) slack) by done. rewrite config_image_app. cbn [fst snd].
  rewrite ntohl_at by done. rewrite (app_assoc (concat _)), ntohl_at by done.
  rewrite !u32_fits by lia. unfold sizeof_config_buf. rewrite length_config_image.
  rewrite (proj2 (Z.eqb_eq _ _)) by lia. cbn [negb].
  rewrite (proj2 (Z.ltb_ge _ _)); [rewrite (proj2 (Z.ltb_ge _ _))|].
  - do 2 f_equal. unfold flat_buffer, smem. rewrite Hp, zeros_slots. unfold config_image, counts_bytes. cbn [fst snd app].
    by rewrite <-!app_assoc.
  - unfold DNS_CONFIG_BUF_MAX. lia.
  - unfold u64, DNS_CONFIG_BUF_MAX. rewrite Z.mod_small by lia. lia.
Qed.

Hypothesis Hb : 0 < base.
Hypothesis Hend : base + DNS_CONFIG_BUF_MAX < 2 ^ 64.
(** Where the slots are. *)
Definition buffer_slots : Z := base + Z.of_nat (56 + length (entries c)).
Local Notation P := buffer_slots.
Local Notation a t := (addrs t (base + 64) (entry_attr <$> es)).
Local Notation n1 := (length (datas RES (entry_attr <$> es))).
Local Notation n2 := (length (datas SCO (entry_attr <$> es))).
Local Notation n3 := (length (datas SPE (entry_attr <$> es))).

Definition open_fields : list (list byte) := config_open P n1 n2 n3 (ch_generation h).
Definition all_slots : list Z := a RES ++ a SCO ++ a SPE ++ open_entry_slots base 56 es.
Definition open_buffer : block :=
  smem [] (counts_bytes ++ open_entries base P (length es) 56 es) open_fields all_slots.

Lemma config_list_step X i n k q f slots off off' {B} (c : option (Z * (Z * Z)) → C block B) :
  slots_at base config_layout [] X = P → length <$> f = config_layout →
  f !! i = Some (be_encode 4 (Z.of_nat n)) → config_layout !! S i = Some 8%nat →
  off = Z.of_nat (sum_list (take i config_layout)) → off' = Z.of_nat (sum_list (take (S i) config_layout)) →
  8 * Z.of_nat n <= q < 2 ^ 32 →
  bind (expand_list off off' (P + 8 * Z.of_nat k, q)) c (smem [] X f slots) =
  c (Some (Z.of_nat n, (P + 8 * Z.of_nat (k + n), q - 8 * Z.of_nat n)))
    (smem [] X (<[S i := le_encode 8 (list_ptr P n k)]> (<[i := le_encode 4 (Z.of_nat n)]> f)) slots).
Proof using. intros HP Hf Hi Hl Ho Ho' Hq. apply bind_eq. rewrite <-HP. by apply (expand_list_ok base config_layout). Qed.

Lemma open_lists_ok X q slots {B} (k : Z → Z → Z → Z * Z → C block (option B)) :
  slots_at base config_layout [] X = P → 8 * Z.of_nat (length es) <= q < 2 ^ 32 →
  (let? '(resolvers, pad) := expand_list c_n_resolver c_resolver (P, q) in
   let? '(scoped, pad) := expand_list c_n_scoped_resolver c_scoped_resolver pad in
   let? '(specific, pad) := expand_list c_n_service_specific_resolver c_service_specific_resolver pad in
   k resolvers scoped specific pad) (smem [] X (config_fields h) slots) =
  k (Z.of_nat n1) (Z.of_nat n2) (Z.of_nat n3) (P + 8 * Z.of_nat (length es), q - 8 * Z.of_nat (length es))
    (smem [] X open_fields slots).
Proof using Hok.
  intros HP Hq. destruct Hok as [He H1 H2 H3 _]. cbn [fst snd] in *.
  pose proof (length_classes es He) as Hn.
  unfold config_fields. rewrite H1, H2, H3.
  rewrite <-Hn in Hq. replace P with (P + 8 * Z.of_nat 0) at 1 by lia. unfold try at 1.
  rewrite (config_list_step X 0 n1 0) by (done || lia). cbv beta iota. unfold try at 1.
  rewrite (config_list_step X 2 n2 (0 + n1)) by (done || lia). cbv beta iota. unfold try at 1.
  rewrite (config_list_step X 5 n3 (0 + n1 + n2)) by (done || lia). cbv beta iota.
  rewrite <-Hn. replace (q - 8 * Z.of_nat n1 - _ - _) with (q - 8 * Z.of_nat (n1 + n2 + n3)) by lia. done.
Qed.

Lemma buffer_expand_ok :
  _dns_configuration_buffer_expand base flat_buffer = Some (Some (), open_buffer).
Proof using Hok Hmax Hb Hend.
  pose proof buffer_bounds as Hbd. pose proof Hok as [He _ _ _ Hp]. cbn [fst snd] in He, Hp.
  pose proof (length_classes es He) as Hn.
  assert (HS : slots_at base config_layout [] (counts_bytes ++ entries c) = P).
  { unfold slots_at, buffer_slots, counts_bytes. rewrite !length_app, !length_be_encode. 
    change (sum_list config_layout) with 48%nat. cbn [length]. lia. }
  unfold _dns_configuration_buffer_expand.
  assert (Ha : ∀ f s, length <$> f = config_layout → ntohl c_n_attribute (smem [] (counts_bytes ++ entries c) f s) =
    Some (Z.of_nat (length (entries c)), smem [] (counts_bytes ++ entries c) f s)).
  { intros f s Hf. unfold smem, counts_bytes. cbn [app]. rewrite <-!app_assoc, ntohl_at, u32_fits by
      (rewrite ?(length_fields config_layout) by done; done || lia). done. }
  assert (Hd : ∀ f s, length <$> f = config_layout → ntohl c_n_padding (smem [] (counts_bytes ++ entries c) f s) =
    Some (ch_padding h, smem [] (counts_bytes ++ entries c) f s)).
  { intros f s Hf. unfold smem, counts_bytes. cbn [app]. rewrite <-!app_assoc, (app_assoc (concat _)), ntohl_at, u32_fits by
      (rewrite ?length_app, ?(length_fields config_layout) by done; done || lia). done. }
  unfold flat_buffer. rewrite (bind_eq _ _ _ _ _ (Ha (config_fields h) _ eq_refl)), (bind_eq _ _ _ _ _ (Hd (config_fields h) _ eq_refl)).
  replace (base + sizeof_config_buf + Z.of_nat (length (entries c))) with P
    by (unfold buffer_slots, sizeof_config_buf; lia). cbv zeta.
  erewrite (open_lists_ok (counts_bytes ++ entries c) (ch_padding h) _ _ HS ltac:(lia)).
  assert (Hlong : (8 * length es ≤ length (entries c))%nat).
  { unfold entries. cbn [snd]. pose proof (enc_attrs_long (entry_attr <$> es)) as Hl. by rewrite length_fmap in Hl. }
  pose proof (expand_config_attributes_ok base P counts_bytes eq_refl (ch_generation h) es [] [] [] [] []
    (S (Z.to_nat (Z.of_nat (length (entries c))))) (ch_padding h - 8 * Z.of_nat (length es)) open_fields
    He entries_fit eq_refl Hb eq_refl) as E.
  assert (Hu : in_use [] [] [] [] es = length es) by (unfold in_use; cbn [length]; lia).
  rewrite Hu in E. cbv zeta in E. change (enc_attrs (entry_attr <$> es)) with (entries c) in E.
  specialize (E ltac:(lia) ltac:(unfold buffer_slots, DNS_CONFIG_BUF_MAX in *; lia) ltac:(lia) ltac:(lia)).
  cbn [length app] in E.
  replace (base + Z.of_nat (56 + 0) + 8) with (base + 64) in E by lia.
  assert (Hz : replicate n 0 = partial RES SCO SPE [] [] [] [] (replicate (n_slots es) 0) (entry_attr <$> es)).
  { unfold partial. by rewrite <-Hn, !replicate_add, <-!app_assoc. }
  rewrite Hz. unfold try. change (Z.of_nat (56 + 0)) with sizeof_config_buf in E. rewrite (bind_eq _ _ _ _ _ E).
  cbn [n_resolver n_scoped_resolver n_service_specific_resolver].
  rewrite !length_addrs, !i32_small, !Z.eqb_refl by lia. done.
Qed.
End buffer.
