(* ===== verification/DnsRead.v ===== *)
(** * The DNS configuration: what a client reads

    The pointers of an expanded buffer lead to the data of attributes, and a client that
    follows them finds the resolvers. *)

From S2P Require Import Prelude DnsCreate DnsExpand DnsBuild DnsResolver DnsConfig DnsOpen DnsOpenConfig.

Local Open Scope Z_scope.
Local Open Scope c_scope.

(** ** Strings *)

(** Text that ends with a NUL, in [d] or behind it. *)
Definition text (d R : list byte) : Prop :=
  ∃ s C, no_nul s ∧ d ++ R = String.list_byte_of_string s ++ x00 :: C ∧ c_string d = s.

Lemma text_c_bytes s R : no_nul s → text (c_bytes s) R.
Proof. intros Hs. exists s, R. unfold c_bytes. rewrite <-app_assoc. by rewrite c_string_of_bytes. Qed.

Lemma text_bytes s R : no_nul s → text (String.list_byte_of_string s) (x00 :: R).
Proof. intros Hs. exists s, R. by rewrite c_string_bytes. Qed.

Lemma read_string_ok base A d R : text d R →
  read_string base (A ++ d ++ R) (base + Z.of_nat (length A)) = Some (c_string d).
Proof.
  intros (s & C & Hs & E & ->). rewrite E. unfold read_string.
  replace (base + Z.of_nat (length A) - base) with (Z.of_nat (length A)) by lia.
  rewrite (proj2 (Z.ltb_ge _ _)), (proj2 (Z.leb_gt _ _)) by (rewrite ?length_app; cbn [length]; lia). cbn [orb].
  rewrite Nat2Z.id, drop_app_length, c_string_of_bytes by done.
  by rewrite existsb_app, orb_true_r.
Qed.

(** ** Attributes *)

(** The last attribute is a name without a NUL behind it. *)
Definition ends_bad (l : list attr) : bool :=
  match last l with
  | Some (t, d) => (t =? RESOLVER_ATTRIBUTE_INTERFACE_NAME) && (pad4 (length d) =? 0)%nat
  | None => false
  end.
(** What is behind the attributes [l] ends a name. *)
Definition closed (l : list attr) (R : list byte) : Prop := ends_bad l = false ∨ ∃ R', R = x00 :: R'.

(** The data of an attribute, of type [t], with [R] behind it. *)
Definition data_ok (t : Z) (d R : list byte) : Prop :=
  (t = RESOLVER_ATTRIBUTE_ADDRESS → sockaddr_len d = Some (Z.of_nat (length d))) ∧
  (t = RESOLVER_ATTRIBUTE_SORTADDR → length d = 8%nat) ∧
  (t ∈ [RESOLVER_ATTRIBUTE_DOMAIN; RESOLVER_ATTRIBUTE_SEARCH; RESOLVER_ATTRIBUTE_OPTIONS;
        RESOLVER_ATTRIBUTE_CONFIGURATION_ID; RESOLVER_ATTRIBUTE_INTERFACE_NAME] → text d R).

Lemma attr_data_ok t d R : attr_ok (t, d) → closed [(t, d)] R →
  data_ok t d (replicate (pad4 (length d)) x00 ++ R).
Proof.
  intros Ha Hc. destruct Ha as [[-> H]|[[-> H]|[[Ht (s & Hs & ->)]|[-> (s & Hs & ->)]]]]; split_and!; try done;
    try (intros ->; set_solver); try (intros Hin; set_unfold in Hin; by naive_solver).
  - intros _. by apply text_c_bytes.
  - intros _. unfold closed, ends_bad in Hc. cbn [last] in Hc. rewrite Z.eqb_refl in Hc. cbn [andb] in Hc.
    destruct (pad4 (length (String.list_byte_of_string s))) as [|n]; cbn [replicate app Nat.eqb] in *.
    + destruct Hc as [Hc|[R' ->]]; [done|]. by apply text_bytes.
    + by apply text_bytes.
Qed.

Lemma attr_head a : attr_ok a → ∃ R, enc_attr a = x00 :: R.
Proof.
  destruct a as [t d]. intros Ha. unfold enc_attr. cbn [fst].
  assert (Ht : t ∈ [RESOLVER_ATTRIBUTE_ADDRESS; RESOLVER_ATTRIBUTE_SORTADDR; RESOLVER_ATTRIBUTE_DOMAIN;
    RESOLVER_ATTRIBUTE_SEARCH; RESOLVER_ATTRIBUTE_OPTIONS; RESOLVER_ATTRIBUTE_CONFIGURATION_ID;
    RESOLVER_ATTRIBUTE_INTERFACE_NAME]).
  { destruct Ha as [[-> _]|[[-> _]|[[Ht _]|[-> _]]]]; set_solver. }
  clear Ha. set_unfold in Ht. destruct_or! Ht; subst; by eexists.
Qed.

Lemma closed_head a l R : Forall attr_ok l → closed (a :: l) R → closed [a] (enc_attrs l ++ R).
Proof.
  intros Hok Hc. destruct l as [|b l]; [done|]. right. apply Forall_cons in Hok as [Hb _].
  destruct (attr_head b Hb) as [R' E]. rewrite enc_attrs_cons, E. by eexists.
Qed.

Lemma closed_tail a l R : closed (a :: l) R → closed l R.
Proof. intros [H|H]; [left|by right]. destruct l as [|b l]; [done|]. done. Qed.

Section attrs.
Variables (base : Z) (M : block).

(** The data [d] of an attribute of type [t] at [p]. *)
Definition data_at (t p : Z) (d : list byte) : Prop :=
  ∃ A R, M = A ++ d ++ R ∧ p = base + Z.of_nat (length A) ∧ data_ok t d R.

Lemma addrs_data t l : ∀ A R, M = A ++ enc_attrs l ++ R → Forall attr_ok l → closed l R →
  Forall2 (data_at t) (addrs t (base + Z.of_nat (length A) + 8) l) (datas t l).
Proof.
  induction l as [|[t' d] l IH]; intros A R HM Hok Hc; [constructor|].
  apply Forall_cons in Hok as [Ha Hok]. rewrite datas_cons. cbn [addrs fst]. apply Forall2_app.
  - destruct (Z.eqb_spec t' t) as [->|]; [|constructor]. constructor; [|constructor].
    rewrite enc_attrs_cons in HM. unfold enc_attr in HM. cbn [fst snd] in HM.
    exists (A ++ be_encode 4 t ++ be_encode 4 (Z.of_nat (attr_size (t, d)))),
      (replicate (pad4 (length d)) x00 ++ enc_attrs l ++ R). split_and!.
    + by rewrite HM, <-!app_assoc.
    + rewrite !length_app, !length_be_encode. lia.
    + apply attr_data_ok; [done|]. by apply closed_head.
  - specialize (IH (A ++ enc_attr (t', d)) R).
    rewrite length_app, length_enc_attr in IH.
    replace (base + Z.of_nat (length A) + 8 + Z.of_nat (attr_size (t', d)))
      with (base + Z.of_nat (length A + attr_size (t', d)) + 8) by lia.
    apply IH; [by rewrite HM, enc_attrs_cons, <-!app_assoc|done|by eapply closed_tail].
Qed.

Lemma read_string_at t p d : t ∈ [RESOLVER_ATTRIBUTE_DOMAIN; RESOLVER_ATTRIBUTE_SEARCH; RESOLVER_ATTRIBUTE_OPTIONS;
    RESOLVER_ATTRIBUTE_CONFIGURATION_ID; RESOLVER_ATTRIBUTE_INTERFACE_NAME] →
  data_at t p d → read_string base M p = Some (c_string d).
Proof. intros Ht (A & R & -> & -> & _ & _ & H). by apply read_string_ok, H. Qed.

Lemma read_sockaddr_at p d : data_at RESOLVER_ATTRIBUTE_ADDRESS p d → read_sockaddr base M p = Some d.
Proof.
  intros (A & R & -> & -> & H & _). specialize (H eq_refl). unfold read_sockaddr.
  replace (base + Z.of_nat (length A) - base) with (Z.of_nat (length A)) by lia.
  destruct d as [|b d]; [done|]. cbn [app]. change (b :: d ++ R) with ([b] ++ (d ++ R)).
  rewrite load_mid by done. cbn [mbind option_bind]. change (sockaddr_len [b]) with (sockaddr_len (b :: d)).
  rewrite H. cbn [mbind option_bind]. change ([b] ++ d ++ R) with ((b :: d) ++ R). by apply load_mid.
Qed.

Lemma read_sortaddr_at p d : data_at RESOLVER_ATTRIBUTE_SORTADDR p d → read_sortaddr base M p = Some d.
Proof.
  intros (A & R & -> & -> & _ & H & _). specialize (H eq_refl). unfold read_sortaddr. apply load_mid; [lia|].
  by rewrite H.
Qed.

(** The last of some pointers, or NULL. *)
Lemma last_related {X Y} (Q : X → Y → Prop) k l : Forall2 Q k l →
  match last k, last l with Some x, Some y => Q x y | None, None => True | _, _ => False end.
Proof.
  induction 1 as [|x y k l Hxy Hkl IH]; [done|]. destruct Hkl as [|x' y' k l H' Hkl]; [done|].
  by rewrite !last_cons_cons in *.
Qed.

Lemma mapM_related {X Y} (Q : X → Y → Prop) (f : X → option Y) k l :
  (∀ x y, Q x y → f x = Some y) → Forall2 Q k l → mapM f k = Some l.
Proof. intros Hf H. apply mapM_Some. by eapply Forall2_impl. Qed.
End attrs.

(** ** Fields and lists *)

Lemma read_field L h i pre rest off n c : length <$> h = L → h !! i = Some c → n = Z.of_nat (length c) →
  off = Z.of_nat (length pre) + Z.of_nat (sum_list (take i L)) →
  read_n (pre ++ concat h ++ rest) off n = Some (le_decode c).
Proof.
  intros HL Hc Hn Ho. destruct (field_split L h i pre rest off HL Ho c Hc) as [-> E].
  unfold read_n. by rewrite load_mid.
Qed.

(** The elements of a list in the slots, from the [j]th on. *)
Lemma read_slots {A} base (read : Z → option A) H ps : ∀ s0 s1 j list,
  Forall (λ p, 0 <= p < 2 ^ 64) ps → list + 8 * Z.of_nat j = base + Z.of_nat (length H) + 8 * Z.of_nat (length s0) →
  mapM (λ i, p ← read_n (H ++ slots_bytes (s0 ++ ps ++ s1)) (list + sizeof_ptr * Z.of_nat i - base) 8; read p)
    (seq j (length ps)) = mapM read ps.
Proof.
  induction ps as [|p ps IH]; intros s0 s1 j list Hps Hlist; [done|]. apply Forall_cons in Hps as [Hp Hps].
  cbn [length seq mapM].
  assert (E : read_n (H ++ slots_bytes (s0 ++ (p :: ps) ++ s1)) (list + sizeof_ptr * Z.of_nat j - base) 8 = Some p).
  { unfold read_n. rewrite slots_app. cbn [app]. rewrite slots_cons, (app_assoc H), load_mid.
    - cbn [fmap option_fmap option_map]. rewrite le_decode_encode, Z.mod_small by done. done.
    - rewrite length_app, length_slots. unfold sizeof_ptr. lia.
    - by rewrite length_le_encode. }
  rewrite E. cbn [mbind option_bind]. specialize (IH (s0 ++ [p]) s1 (S j) list Hps).
  rewrite <-app_assoc in IH. cbn [app] in *. rewrite IH; [done|]. rewrite length_app. cbn [length]. lia.
Qed.

(** A list whose count and pointer are fields [i] and [S i] of a structure. *)
Section list.
Variables (base : Z) (L : list nat) (pre X : list byte) (h : list (list byte)).
Local Notation P := (slots_at base L pre X).

Lemma read_list_ok {A} (read : Z → option A) i ps s0 s1 off off' l :
  length <$> h = L → h !! i = Some (le_encode 4 (Z.of_nat (length ps))) →
  h !! S i = Some (le_encode 8 (list_ptr P (length ps) (length s0))) →
  off = Z.of_nat (length pre) + Z.of_nat (sum_list (take i L)) →
  off' = Z.of_nat (length pre) + Z.of_nat (sum_list (take (S i) L)) →
  0 < base → P + 8 * Z.of_nat (length s0 + length ps) < 2 ^ 64 → Z.of_nat (length ps) < 2 ^ 31 →
  Forall (λ p, 0 <= p < 2 ^ 64) ps → mapM read ps = Some l →
  read_list base (smem pre X h (s0 ++ ps ++ s1)) read off off' = Some l.
Proof.
  intros HL Hi Hi' Ho Ho' Hb Hlt Hn Hps Hl. unfold read_list.
  assert (HP : 0 < P) by (unfold slots_at; lia).
  assert (Hlp : 0 <= list_ptr P (length ps) (length s0) < 2 ^ 64).
  { unfold list_ptr. destruct (_ =? 0)%nat; lia. }
  set (M := smem pre X h _).
  assert (E1 : read_n M off 4 = _) by exact (read_field L h i pre _ _ 4 _ HL Hi eq_refl Ho).
  assert (E2 : read_n M off' 8 = _) by exact (read_field L h (S i) pre _ _ 8 _ HL Hi' eq_refl Ho').
  rewrite E1, E2. cbn [mbind option_bind]. clear E1 E2. subst M.
  rewrite !le_decode_encode. change (256 ^ Z.of_nat 8) with (2 ^ 64). change (256 ^ Z.of_nat 4) with (2 ^ 32).
  rewrite !Z.mod_small, i32_small, Nat2Z.id by lia.
  destruct ps as [|p ps]; [done|]. rewrite list_ptr_some by done.
  assert (E : smem pre X h (s0 ++ (p :: ps) ++ s1) = (pre ++ concat h ++ X) ++ slots_bytes (s0 ++ (p :: ps) ++ s1)).
  { unfold smem. by rewrite <-!app_assoc. }
  rewrite E. rewrite (read_slots base read _ (p :: ps) s0 s1 0); [done|done|].
  rewrite !length_app, (length_fields L) by done. unfold slots_at. lia.
Qed.
End list.

(** ** A resolver *)

Lemma set_ptrs_fields l : ∀ a x, set_ptrs a l x =
  let ptr t p := default p (last (addrs t a l)) in
  let '(MkX dom n1 p1 port n2 p2 n3 p3 opt tm so ii fl rf sid cid name) := x in
  MkX (ptr RESOLVER_ATTRIBUTE_DOMAIN dom) n1 p1 port n2 p2 n3 p3 (ptr RESOLVER_ATTRIBUTE_OPTIONS opt) tm so ii fl rf
    sid (ptr RESOLVER_ATTRIBUTE_CONFIGURATION_ID cid) (ptr RESOLVER_ATTRIBUTE_INTERFACE_NAME name).
Proof.
  induction l as [|[t d] l IH]; intros a x; [by destruct x|]. cbn [set_ptrs addrs fst].
  rewrite IH. destruct x as [dom n1 p1 port n2 p2 n3 p3 opt tm so ii fl rf sid cid name].
  rewrite !last_app. unfold set_ptr.
  destruct (Z.eqb_spec t RESOLVER_ATTRIBUTE_DOMAIN) as [->|]; [eqb_consts; by repeat case_match|].
  destruct (Z.eqb_spec t RESOLVER_ATTRIBUTE_OPTIONS) as [->|]; [eqb_consts; by repeat case_match|].
  destruct (Z.eqb_spec t RESOLVER_ATTRIBUTE_CONFIGURATION_ID) as [->|]; [eqb_consts; by repeat case_match|].
  destruct (Z.eqb_spec t RESOLVER_ATTRIBUTE_INTERFACE_NAME) as [->|]; [eqb_consts; by repeat case_match|].
  cbn [last]. by repeat case_match.
Qed.

Lemma data_bounds base M t ps ds : 0 < base → base + Z.of_nat (length M) < 2 ^ 64 →
  Forall2 (data_at base M t) ps ds → Forall (λ p, 0 < p < 2 ^ 64) ps.
Proof.
  intros Hb Hend. induction 1 as [|p d ps ds (A & R & HM & -> & _) _ IH]; [done|]. constructor; [|done].
  rewrite HM, length_app in Hend. lia.
Qed.

Lemma opt_string_ok base M t p ps ds off :
  t ∈ [RESOLVER_ATTRIBUTE_DOMAIN; RESOLVER_ATTRIBUTE_SEARCH; RESOLVER_ATTRIBUTE_OPTIONS;
       RESOLVER_ATTRIBUTE_CONFIGURATION_ID; RESOLVER_ATTRIBUTE_INTERFACE_NAME] →
  0 < base → base + Z.of_nat (length M) < 2 ^ 64 → Forall2 (data_at base M t) ps ds →
  p = default 0 (last ps) → read_n M off 8 = Some (le_decode (le_encode 8 p)) →
  read_opt_string base M off = Some (c_string <$> last ds).
Proof.
  intros Ht Hb Hend H -> E. unfold read_opt_string. rewrite E. cbn [mbind option_bind].
  rewrite le_decode_encode. change (256 ^ Z.of_nat 8) with (2 ^ 64).
  pose proof (last_related _ _ _ H) as Hl. pose proof (data_bounds _ _ _ _ _ Hb Hend H) as Hp.
  destruct (last ps) as [q|] eqn:Eq, (last ds) as [d|]; try done. cbn [default id].
  assert (Hq : 0 < q < 2 ^ 64).
  { rewrite Forall_forall in Hp. apply Hp. apply last_Some in Eq as [l ->]. set_solver. }
  rewrite Z.mod_small, (proj2 (Z.eqb_neq _ _)) by lia. by rewrite (read_string_at base M t q d).
Qed.

Section resolver.
Variables (base : Z) (pre : list byte) (hd : header) (l : list attr) (rest : list byte) (s0 s1 : list Z).
Local Notation X := (be_encode 4 (Z.of_nat (length (enc_attrs l))) ++ enc_attrs l ++ rest).
Local Notation P := (slots_at base resolver_layout pre X).
Local Notation a := (base + Z.of_nat (length pre) + 100 + 8).
Local Notation x := (open_header P (length s0) a (hd, l)).
Local Notation M := (smem pre X (xfields x) (s0 ++ open_slots a l ++ s1)).
Hypothesis Hok : raw_ok (hd, l).
Hypothesis Hc : closed l (rest ++ slots_bytes (s0 ++ open_slots a l ++ s1)).
Hypothesis Hb : 0 < base.
Hypothesis Hend : base + Z.of_nat (length M) < 2 ^ 64.
Hypothesis Hsmall : Z.of_nat (length (enc_attrs l)) < 2 ^ 31.

Lemma resolver_data t : Forall2 (data_at base M t) (addrs t a l) (datas t l).
Proof using Hok Hc.
  destruct Hok as [_ _ _ Ha]. cbn [snd] in Ha.
  set (A := pre ++ concat (xfields x) ++ be_encode 4 (Z.of_nat (length (enc_attrs l)))).
  assert (E : base + Z.of_nat (length A) + 8 = a).
  { unfold A. rewrite !length_app, length_be_encode. change (length (concat (xfields _))) with 96%nat. lia. }
  rewrite <-E at 3. apply addrs_data with (R := rest ++ slots_bytes (s0 ++ open_slots a l ++ s1)); [|done|done].
  unfold smem, A. by rewrite <-!app_assoc.
Qed.

Lemma resolver_field i off n c : xfields x !! i = Some c → n = Z.of_nat (length c) →
  off = Z.of_nat (length pre) + Z.of_nat (sum_list (take i resolver_layout)) →
  read_n M off n = Some (le_decode c).
Proof using. intros Hi Hn Ho. exact (read_field resolver_layout (xfields x) i pre _ off n c eq_refl Hi Hn Ho). Qed.

Lemma resolver_string t i off :
  t ∈ [RESOLVER_ATTRIBUTE_DOMAIN; RESOLVER_ATTRIBUTE_SEARCH; RESOLVER_ATTRIBUTE_OPTIONS;
       RESOLVER_ATTRIBUTE_CONFIGURATION_ID; RESOLVER_ATTRIBUTE_INTERFACE_NAME] →
  xfields x !! i = Some (le_encode 8 (default 0 (last (addrs t a l)))) →
  off = Z.of_nat (length pre) + Z.of_nat (sum_list (take i resolver_layout)) →
  read_opt_string base M off = Some (last_string t l).
Proof using Hok Hc Hb Hend.
  intros Ht Hi Ho. apply (opt_string_ok base M t _ _ _ off Ht Hb Hend (resolver_data t) eq_refl).
  by apply (resolver_field i).
Qed.

Lemma resolver_list {A} (read : Z → option A) t i f off off' s0' s1' k :
  open_slots a l = s0' ++ addrs t a l ++ s1' → (k = length s0 + length s0')%nat →
  xfields x !! i = Some (le_encode 4 (Z.of_nat (length (datas t l)))) →
  xfields x !! S i = Some (le_encode 8 (list_ptr P (length (datas t l)) k)) →
  off = Z.of_nat (length pre) + Z.of_nat (sum_list (take i resolver_layout)) →
  off' = Z.of_nat (length pre) + Z.of_nat (sum_list (take (S i) resolver_layout)) →
  (∀ p d, data_at base M t p d → read p = Some (f d)) →
  read_list base M read off off' = Some (f <$> datas t l).
Proof using Hok Hc Hb Hend Hsmall.
  intros Hs -> Hi Hi' Ho Ho' Hread. pose proof (resolver_data t) as Hd.
  pose proof (data_bounds _ _ _ _ _ Hb Hend Hd) as Hp.
  assert (HP : base + Z.of_nat (length M) = P + 8 * Z.of_nat (length (s0 ++ open_slots a l ++ s1))).
  { unfold smem, slots_at. rewrite !length_app, length_slots, !length_app.
    change (length (concat (xfields _))) with 96%nat. change (sum_list resolver_layout) with 96%nat. lia. }
  pose proof (enc_attrs_long l). pose proof (filter_datas_length t l).
  rewrite <-(length_addrs t a l) in Hi, Hi'. rewrite <-length_app in Hi'.
  assert (E : s0 ++ open_slots a l ++ s1 = (s0 ++ s0') ++ addrs t a l ++ s1' ++ s1).
  { by rewrite Hs, <-!app_assoc. }
  rewrite HP, E in Hend. rewrite !length_app in Hend.
  set (m := M) in *. assert (Em : m = smem pre X (xfields x) ((s0 ++ s0') ++ addrs t a l ++ s1' ++ s1)) by (unfold m; by rewrite E).
  clearbody m. rewrite Em.
  apply (read_list_ok base resolver_layout pre X (xfields x) read i (addrs t a l) (s0 ++ s0') (s1' ++ s1));
    try done.
  - rewrite length_app. lia.
  - rewrite length_addrs. lia.
  - eapply Forall_impl; [exact Hp|]. cbv beta. lia.
  - apply (mapM_related (λ p y, read p = Some y)); [done|]. apply Forall2_fmap_r.
    eapply Forall2_impl; [exact Hd|]. done.
Qed.

Lemma open_header_eq Q k b : open_header Q k b (hd, l) =
  let d t := length (datas t l) in
  let ptr t := default 0 (last (addrs t b l)) in
  MkX (ptr RESOLVER_ATTRIBUTE_DOMAIN)
    (Z.of_nat (d RESOLVER_ATTRIBUTE_ADDRESS)) (list_ptr Q (d RESOLVER_ATTRIBUTE_ADDRESS) k) (h_port hd mod 2 ^ 16)
    (Z.of_nat (d RESOLVER_ATTRIBUTE_SEARCH))
    (list_ptr Q (d RESOLVER_ATTRIBUTE_SEARCH) (k + d RESOLVER_ATTRIBUTE_ADDRESS))
    (Z.of_nat (d RESOLVER_ATTRIBUTE_SORTADDR))
    (list_ptr Q (d RESOLVER_ATTRIBUTE_SORTADDR) (k + d RESOLVER_ATTRIBUTE_ADDRESS + d RESOLVER_ATTRIBUTE_SEARCH))
    (ptr RESOLVER_ATTRIBUTE_OPTIONS) (u32 (h_timeout hd)) (u32 (h_search_order hd))
    (u32 (h_if_index hd)) (u32 (h_flags hd)) (u32 (h_reach_flags hd)) (u32 (h_service_identifier hd))
    (ptr RESOLVER_ATTRIBUTE_CONFIGURATION_ID) (ptr RESOLVER_ATTRIBUTE_INTERFACE_NAME).
Proof. unfold open_header. rewrite set_ptrs_fields. by destruct hd. Qed.

Lemma resolver_word i z off : xfields x !! i = Some (le_encode 4 (u32 z)) →
  off = Z.of_nat (length pre) + Z.of_nat (sum_list (take i resolver_layout)) → read_n M off 4 = Some (u32 z).
Proof using.
  intros Hi Ho. rewrite (resolver_field i off 4 _ Hi eq_refl Ho), le_decode_encode. f_equal.
  apply Z.mod_small. apply Z.mod_pos_bound. done.
Qed.

Local Ltac field := first [done | by rewrite open_header_eq | set_solver].

Lemma resolver_nameserver : read_list base M (read_sockaddr base M) (Z.of_nat (length pre) + r_n_nameserver)
  (Z.of_nat (length pre) + r_nameserver) = Some (datas RESOLVER_ATTRIBUTE_ADDRESS l).
Proof using Hok Hc Hb Hend Hsmall.
  rewrite <-(list_fmap_id (datas RESOLVER_ATTRIBUTE_ADDRESS l)).
  apply (resolver_list _ RESOLVER_ATTRIBUTE_ADDRESS 1 id _ _ [] (addrs RESOLVER_ATTRIBUTE_SEARCH a l ++ addrs RESOLVER_ATTRIBUTE_SORTADDR a l) (length s0)); try field.
  apply read_sockaddr_at.
Qed.

Lemma resolver_search : read_list base M (read_string base M) (Z.of_nat (length pre) + r_n_search)
  (Z.of_nat (length pre) + r_search) = Some (c_string <$> datas RESOLVER_ATTRIBUTE_SEARCH l).
Proof using Hok Hc Hb Hend Hsmall.
  apply (resolver_list _ RESOLVER_ATTRIBUTE_SEARCH 5 c_string _ _ (addrs RESOLVER_ATTRIBUTE_ADDRESS a l) (addrs RESOLVER_ATTRIBUTE_SORTADDR a l)
    (length s0 + length (datas RESOLVER_ATTRIBUTE_ADDRESS l))); try field.
  - by rewrite length_addrs.
  - intros p d. apply read_string_at. set_solver.
Qed.

Lemma resolver_sortaddr : read_list base M (read_sortaddr base M) (Z.of_nat (length pre) + r_n_sortaddr)
  (Z.of_nat (length pre) + r_sortaddr) = Some (datas RESOLVER_ATTRIBUTE_SORTADDR l).
Proof using Hok Hc Hb Hend Hsmall.
  rewrite <-(list_fmap_id (datas RESOLVER_ATTRIBUTE_SORTADDR l)).
  apply (resolver_list _ RESOLVER_ATTRIBUTE_SORTADDR 7 id _ _ (addrs RESOLVER_ATTRIBUTE_ADDRESS a l ++ addrs RESOLVER_ATTRIBUTE_SEARCH a l) []
    (length s0 + length (datas RESOLVER_ATTRIBUTE_ADDRESS l) + length (datas RESOLVER_ATTRIBUTE_SEARCH l))); try field.
  - unfold open_slots. by rewrite app_nil_r, <-app_assoc.
  - rewrite length_app, !length_addrs. lia.
  - apply read_sortaddr_at.
Qed.

Lemma read_resolver_ok : read_resolver base M (base + Z.of_nat (length pre)) = Some (view (hd, l)).
Proof using Hok Hc Hb Hend Hsmall.
  unfold read_resolver. replace (base + Z.of_nat (length pre) - base) with (Z.of_nat (length pre)) by lia.
  rewrite (resolver_string RESOLVER_ATTRIBUTE_DOMAIN 0 (Z.of_nat (length pre) + r_domain)) by field. cbn [mbind option_bind].
  rewrite resolver_nameserver. cbn [mbind option_bind].
  rewrite (resolver_field 3 (Z.of_nat (length pre) + r_port) 2 (le_encode 2 (h_port hd mod 2 ^ 16))) by field.
  cbn [mbind option_bind]. rewrite resolver_search. cbn [mbind option_bind].
  rewrite resolver_sortaddr. cbn [mbind option_bind].
  rewrite (resolver_string RESOLVER_ATTRIBUTE_OPTIONS 9 (Z.of_nat (length pre) + r_options)) by field. cbn [mbind option_bind].
  rewrite (resolver_word 10 (h_timeout hd) (Z.of_nat (length pre) + r_timeout)) by field. cbn [mbind option_bind].
  rewrite (resolver_word 11 (h_search_order hd) (Z.of_nat (length pre) + r_search_order)) by field. cbn [mbind option_bind].
  rewrite (resolver_word 12 (h_if_index hd) (Z.of_nat (length pre) + r_if_index)) by field. cbn [mbind option_bind].
  rewrite (resolver_word 13 (h_flags hd) (Z.of_nat (length pre) + r_flags)) by field. cbn [mbind option_bind].
  rewrite (resolver_word 14 (h_reach_flags hd) (Z.of_nat (length pre) + r_reach_flags)) by field. cbn [mbind option_bind].
  rewrite (resolver_word 15 (h_service_identifier hd) (Z.of_nat (length pre) + r_service_identifier)) by field. cbn [mbind option_bind].
  rewrite (resolver_string RESOLVER_ATTRIBUTE_CONFIGURATION_ID 16 (Z.of_nat (length pre) + r_cid)) by field. cbn [mbind option_bind].
  rewrite (resolver_string RESOLVER_ATTRIBUTE_INTERFACE_NAME 17 (Z.of_nat (length pre) + r_if_name)) by field. cbn [mbind option_bind].
  rewrite le_decode_encode. change (256 ^ Z.of_nat 2) with (2 ^ 16). rewrite Z.mod_mod by done. by destruct hd.
Qed.
End resolver.

(** ** The DNS configuration: what a client reads of all of it *)

Local Abbreviation entry := (Z * raw)%type.

(** The resolvers of a type. *)
Definition of_type (t : Z) (es : list entry) : list raw := snd <$> filter (λ e, e.1 = t) es.

Lemma of_type_cons t e es : of_type t (e :: es) = (if e.1 =? t then [e.2] else []) ++ of_type t es.
Proof.
  unfold of_type. destruct (Z.eqb_spec e.1 t); [rewrite filter_cons_True by done|rewrite filter_cons_False by done]; done.
Qed.

Lemma length_of_type t es : length (of_type t es) = length (datas t (entry_attr <$> es)).
Proof.
  induction es as [|[t' r] es IH]; [done|]. rewrite of_type_cons, length_app, IH. cbn [fst snd].
  change (entry_attr <$> (t', r) :: es) with ((t', image r) :: (entry_attr <$> es)). rewrite datas_cons, length_app. by destruct (t' =? t).
Qed.

(** The last attribute of the last resolver has an end. *)
Definition last_closed (es : list entry) : Prop :=
  match last es with Some e => ends_bad e.2.2 = false | None => True end.

Lemma last_closed_tail e es : last_closed (e :: es) → last_closed es.
Proof. unfold last_closed. destruct es as [|e' es]; [done|]. by rewrite last_cons_cons. Qed.

Section entries.
Variables (base P : Z) (cf : list (list byte)) (c0 : list byte).
Hypothesis Hc0 : length c0 = 8%nat.
Hypothesis Hcf : length <$> cf = config_layout.
Hypothesis Hb : 0 < base.

Lemma entry_closed k o e es R : Forall entry_ok es → last_closed (e :: es) →
  closed e.2.2 (open_entries base P k o es ++ R).
Proof.
  intros Hok Hl. destruct es as [|e' es]; [by left|]. right.
  apply Forall_cons in Hok as [[_ Ht] _]. cbn [open_entries]. unfold open_entry. destruct e' as [t r]. cbn [fst] in *.
  set_unfold in Ht. destruct_or! Ht; subst; by eexists.
Qed.

Lemma entries_read t es : ∀ D S0 k o M,
  M = smem [] (c0 ++ D ++ open_entries base P k o es) cf (S0 ++ open_entry_slots base o es) →
  length S0 = k → o = (56 + length D)%nat → Forall entry_ok es → Forall (λ e, raw_fits e.2) es → last_closed es →
  P = base + Z.of_nat (56 + length D + length (open_entries base P k o es)) →
  base + Z.of_nat (length M) < 2 ^ 64 → Z.of_nat (length M) < 2 ^ 31 →
  Forall2 (λ p x, read_resolver base M p = Some (view x))
    (addrs t (base + Z.of_nat o + 8) (entry_attr <$> es)) (of_type t es).
Proof using Hc0 Hcf Hb.
  induction es as [|e es IH]; intros D S0 k o M HM Hk Ho Hok Hf Hl HP Hend Hsmall; [constructor|].
  apply Forall_cons in Hok as [He Hok], Hf as [Hfe Hf].
  rewrite of_type_cons. cbn [fmap list_fmap addrs open_entries open_entry_slots] in *.
  apply Forall2_app.
  - change (entry_attr e).1 with e.1. destruct (e.1 =? t); [|constructor]. constructor; [|constructor].
    set (pre := concat cf ++ c0 ++ D ++ be_encode 4 e.1 ++ be_encode 4 (Z.of_nat (entry_size e))).
    assert (Hpre : length pre = (o + 8)%nat).
    { unfold pre. rewrite !length_app, (length_fields config_layout), Hc0, !length_be_encode by done.
      change (sum_list config_layout) with 48%nat. lia. }
    set (rest := open_entries base P (k + n_lists e.2.2) (o + entry_size e) es) in *.
    set (S1 := open_entry_slots base (o + entry_size e) es) in *.
    pose proof (read_resolver_ok base pre e.2.1 e.2.2 rest S0 S1) as H. rewrite <-!surjective_pairing in H.
    set (X := be_encode 4 (Z.of_nat (length (enc_attrs e.2.2))) ++ enc_attrs e.2.2 ++ rest) in *.
    assert (HS : slots_at base resolver_layout pre X = P).
    { unfold slots_at, X. rewrite Hpre, HP at 1. rewrite !length_app, length_be_encode, length_open_entry.
      pose proof (entry_size_image e) as Ez. rewrite length_image in Ez.
      change (sum_list resolver_layout) with 96%nat. lia. }
    rewrite HS, Hpre, Hk in H.
    assert (EM : M = smem pre X (xfields (open_header P k (base + Z.of_nat (o + 8) + 100 + 8) e.2))
      (S0 ++ open_slots (base + Z.of_nat (o + 8) + 100 + 8) e.2.2 ++ S1)).
    { rewrite HM. unfold smem, open_entry, pre, X. cbn [app]. by rewrite <-!app_assoc. }
    rewrite <-EM in H. replace (base + Z.of_nat o + 8) with (base + Z.of_nat (o + 8)) by lia.
    apply H; [apply He|by apply entry_closed|done|done|].
    rewrite EM in Hsmall. unfold smem, X in Hsmall. rewrite !length_app in Hsmall. lia.
  - replace (base + Z.of_nat o + 8 + Z.of_nat (attr_size (entry_attr e)))
      with (base + Z.of_nat (o + entry_size e) + 8) by (unfold entry_size; lia).
    apply (IH (D ++ open_entry base P k o e) (S0 ++ open_slots (base + Z.of_nat (o + 8) + 100 + 8) e.2.2)
             (k + n_lists e.2.2)%nat); try done.
    + rewrite HM. by rewrite <-!app_assoc.
    + by rewrite length_app, length_open_slots, Hk.
    + rewrite length_app, length_open_entry. lia.
    + by eapply last_closed_tail.
    + rewrite HP at 1. rewrite !length_app. lia.
Qed.
End entries.

Section config.
Variables (base : Z) (h : cheader) (es : list entry).
Hypothesis Hok : config_ok (h, es).
Hypothesis Hmax : Z.of_nat (length (config_image (h, es))) + ch_padding h <= DNS_CONFIG_BUF_MAX.
Hypothesis Hb : 0 < base.
Hypothesis Hend : base + DNS_CONFIG_BUF_MAX < 2 ^ 64.
Hypothesis Hl : last_closed es.
Local Notation M := (open_buffer base h es).
Local Notation P := (buffer_slots base h es).
Local Notation X := (counts_bytes h es ++ open_entries base P (length es) 56 es).
Local Notation a t := (addrs t (base + 64) (entry_attr <$> es)).

Lemma length_open_entries B Q k o l : length (open_entries B Q k o l) = length (enc_attrs (entry_attr <$> l)).
Proof.
  revert k o. induction l as [|e l IH]; intros k o; [done|]. cbn [open_entries fmap list_fmap].
  by rewrite length_app, length_open_entry, length_enc_attrs_cons, IH.
Qed.

Lemma length_all_slots : length (all_slots base es) = (length es + n_slots es)%nat.
Proof using Hok.
  destruct Hok as [He _ _ _ _]. cbn [snd] in He. unfold all_slots. rewrite !length_app, !length_addrs.
  rewrite <-(length_classes es He). enough (length (open_entry_slots base 56 es) = n_slots es) by lia.
  generalize 56%nat. clear. induction es as [|e l IH]; intros o; [done|]. cbn [open_entry_slots].
  rewrite length_app, length_open_slots, IH. done.
Qed.

Lemma slots_buffer : slots_at base config_layout [] X = P.
Proof using.
  unfold slots_at, buffer_slots. rewrite length_app, length_open_entries. unfold counts_bytes, entries.
  rewrite length_app, !length_be_encode. cbn [length snd]. change (sum_list config_layout) with 48%nat. lia.
Qed.

Lemma open_buffer_end : base + Z.of_nat (length M) = P + 8 * Z.of_nat (length es + n_slots es).
Proof using Hok.
  rewrite <-slots_buffer, <-length_all_slots. unfold open_buffer, smem, slots_at.
  rewrite !length_app, length_slots, (length_fields config_layout) by done. lia.
Qed.

Lemma open_buffer_small : Z.of_nat (length M) <= 2 ^ 20.
Proof using Hok Hmax.
  pose proof open_buffer_end as He. pose proof (buffer_bounds h es Hok Hmax) as Hbd. unfold buffer_slots in He. lia.
Qed.

Lemma config_resolvers t : Forall2 (λ p x, read_resolver base M p = Some (view x)) (a t) (of_type t es).
Proof using All.
  pose proof open_buffer_small as Hs. unfold DNS_CONFIG_BUF_MAX in Hend.
  pose proof Hok as [He _ _ _ _]. cbn [snd] in He.
  replace (base + 64) with (base + Z.of_nat 56 + 8) by lia.
  apply (entries_read base P (open_fields base h es) (counts_bytes h es) eq_refl eq_refl Hb t es []
           (a CONFIG_ATTRIBUTE_RESOLVER ++ a CONFIG_ATTRIBUTE_SCOPED_RESOLVER ++ a CONFIG_ATTRIBUTE_SERVICE_SPECIFIC_RESOLVER)
           (length es)); try done.
  - unfold open_buffer, all_slots. by rewrite <-!app_assoc.
  - rewrite !length_app, !length_addrs, <-(length_classes es He). lia.
  - by eapply entries_fit.
  - unfold buffer_slots. rewrite length_open_entries. unfold entries. cbn [snd length]. lia.
  - lia.
  - lia.
Qed.

Lemma addrs_bounds t l : ∀ b, 0 <= b → b + Z.of_nat (length (enc_attrs l)) < 2 ^ 64 + 8 →
  Forall (λ p, 0 <= p < 2 ^ 64) (addrs t b l).
Proof.
  induction l as [|e l IH]; intros b H0 H1; [constructor|]. rewrite length_enc_attrs_cons in H1. unfold attr_size in H1 at 1. cbn [addrs].
  apply Forall_app. split; [|apply IH; unfold attr_size; lia]. destruct (_ =? t); [|constructor]. constructor; [lia|constructor].
Qed.

Lemma config_list t i off off' s0 s1 k :
  all_slots base es = s0 ++ a t ++ s1 → k = length s0 →
  open_fields base h es !! i = Some (le_encode 4 (Z.of_nat (length (datas t (entry_attr <$> es))))) →
  open_fields base h es !! S i = Some (le_encode 8 (list_ptr P (length (datas t (entry_attr <$> es))) k)) →
  off = Z.of_nat (sum_list (take i config_layout)) → off' = Z.of_nat (sum_list (take (S i) config_layout)) →
  read_list base M (read_resolver base M) off off' = Some (view <$> of_type t es).
Proof using All.
  intros Hs -> Hi Hi' Ho Ho'. pose proof open_buffer_end as Hend'. pose proof open_buffer_small as Hsm.
  unfold DNS_CONFIG_BUF_MAX in Hend. rewrite <-length_all_slots, Hs, !length_app in Hend'.
  pose proof (config_resolvers t) as Hr.
  assert (EM : M = smem [] X (open_fields base h es) (s0 ++ a t ++ s1)) by (unfold open_buffer; by rewrite Hs).
  set (m := M) in *. clearbody m. set (rd := read_resolver base m) in *. clearbody rd. rewrite EM.
  rewrite <-(length_addrs t (base + 64)), <-slots_buffer in Hi'. rewrite <-(length_addrs t (base + 64)) in Hi.
  apply (read_list_ok base config_layout [] X (open_fields base h es) rd i (a t)); try done.
  - rewrite slots_buffer. lia.
  - unfold buffer_slots in Hend'. lia.
  - apply addrs_bounds; [lia|]. pose proof (buffer_bounds h es Hok Hmax) as Hbd. unfold entries in Hbd.
    cbn [snd] in Hbd. lia.
  - apply (mapM_related (λ p y, rd p = Some y)); [done|]. by apply Forall2_fmap_r.
Qed.

Lemma read_config_ok : read_config base M = Some (MkConfig
  (view <$> of_type CONFIG_ATTRIBUTE_RESOLVER es) (view <$> of_type CONFIG_ATTRIBUTE_SCOPED_RESOLVER es)
  (view <$> of_type CONFIG_ATTRIBUTE_SERVICE_SPECIFIC_RESOLVER es) (u64 (ch_generation h)) DNSINFO_VERSION).
Proof using All.
  unfold read_config.
  rewrite (config_list CONFIG_ATTRIBUTE_RESOLVER 0 c_n_resolver c_resolver []
    (a CONFIG_ATTRIBUTE_SCOPED_RESOLVER ++ a CONFIG_ATTRIBUTE_SERVICE_SPECIFIC_RESOLVER ++ open_entry_slots base 56 es) 0)
    by done.
  cbn [mbind option_bind].
  rewrite (config_list CONFIG_ATTRIBUTE_SCOPED_RESOLVER 2 c_n_scoped_resolver c_scoped_resolver (a CONFIG_ATTRIBUTE_RESOLVER)
    (a CONFIG_ATTRIBUTE_SERVICE_SPECIFIC_RESOLVER ++ open_entry_slots base 56 es)
    (length (datas CONFIG_ATTRIBUTE_RESOLVER (entry_attr <$> es)))) by (done || by rewrite length_addrs).
  cbn [mbind option_bind].
  rewrite (config_list CONFIG_ATTRIBUTE_SERVICE_SPECIFIC_RESOLVER 5 c_n_service_specific_resolver c_service_specific_resolver
    (a CONFIG_ATTRIBUTE_RESOLVER ++ a CONFIG_ATTRIBUTE_SCOPED_RESOLVER) (open_entry_slots base 56 es)
    (length (datas CONFIG_ATTRIBUTE_RESOLVER (entry_attr <$> es)) +
     length (datas CONFIG_ATTRIBUTE_SCOPED_RESOLVER (entry_attr <$> es))))
    by (done || (by rewrite length_app, !length_addrs) || (unfold all_slots; by rewrite <-!app_assoc)).
  cbn [mbind option_bind].
  assert (Hin : ∀ i c n, open_fields base h es !! i = Some c → n = Z.of_nat (length c) →
    read_n M (Z.of_nat (sum_list (take i config_layout))) n = Some (le_decode c)).
  { intros i c n Hi Hn. by apply (read_field config_layout (open_fields base h es) i []). }
  rewrite (Hin 4%nat (le_encode 8 (ch_generation h)) 8 eq_refl eq_refl : read_n M c_generation 8 = _).
  cbn [mbind option_bind].
  rewrite (Hin 7%nat (le_encode 4 DNSINFO_VERSION) 4 eq_refl eq_refl : read_n M c_version 4 = _).
  cbn [mbind option_bind]. by rewrite !le_decode_encode.
Qed.
End config.
