(* ===== verification/DnsSpec.v ===== *)
(** * The DNS configuration: theorems

    What is built is what a client reads, whatever the resolvers; what a client refuses;
    and when two configurations have one signature. *)

From S2P Require Import Prelude DnsCreate DnsExpand DnsBuild DnsResolver DnsConfig DnsOpen DnsOpenConfig DnsRead.

Local Open Scope Z_scope.
Local Open Scope c_scope.

(** ** What a client should read *)

Section spec.
Context {R : Reachability}.

(** The resolver after some calls, with the reachability of its servers. *)
Definition spec_resolver (ops : list resolver_op) : dns_resolver := spec_reach (foldl spec_op empty_resolver ops).

(** The resolvers, in the order they were added, in three lists by their flags. *)
Definition spec_config (now : Z) (resolvers : list (list resolver_op)) : dns_config :=
  let listed t := filter (λ r, class_of (dr_flags r) = t) (spec_resolver <$> resolvers) in
  MkConfig (listed CONFIG_ATTRIBUTE_RESOLVER) (listed CONFIG_ATTRIBUTE_SCOPED_RESOLVER)
    (listed CONFIG_ATTRIBUTE_SERVICE_SPECIFIC_RESOLVER) (u64 now) DNSINFO_VERSION.

(** The last attribute added is a name of an interface that fills its words. *)
Definition ends_unterminated (ops : list resolver_op) : bool :=
  foldl (λ b op,
    match op with
    | Set_if_index _ (Some s) => String.length s mod 4 =? 0
    | Set_flags _ | Set_if_index _ None | Set_order _ | Set_port _ | Set_timeout _ | Set_service_identifier _ => b
    | _ => false
    end)%nat false ops.

(** The bytes of the configuration, and of the pointers its readers need. *)
Definition config_size (now : Z) (resolvers : list (list resolver_op)) : Z :=
  Z.of_nat (length (config_image (config_of now resolvers))) + ch_padding (config_of now resolvers).1.

(** ** The calls and the image agree *)

Lemma view_raw_of ops : Forall op_ok ops → view (raw_of ops) = spec_resolver ops.
Proof.
  intros Hops. unfold raw_of, spec_resolver. rewrite view_reach, view_ops; [done|done|].
  apply raw_ok_ops; [done|]. apply raw_ok_created.
Qed.

Lemma raw_class_view x : raw_class x = class_of (dr_flags (view x)).
Proof. by destruct x as [[] l]. Qed.

Lemma of_type_views t (xs : list raw) : view <$> of_type t ((λ x, (raw_class x, x)) <$> xs) =
  filter (λ r, class_of (dr_flags r) = t) (view <$> xs).
Proof.
  induction xs as [|x xs IH]; [done|]. cbn [fmap list_fmap]. rewrite of_type_cons. cbn [fst snd].
  rewrite fmap_app, IH, raw_class_view.
  destruct (Z.eqb_spec (class_of (dr_flags (view x))) t); [by rewrite filter_cons_True|by rewrite filter_cons_False].
Qed.

Lemma pad4_zero n : (pad4 n =? 0)%nat = (n mod 4 =? 0)%nat.
Proof.
  destruct (pad4_spec n) as (k & Hk & Hlt). pose proof (Nat.div_mod_eq n 4). pose proof (Nat.mod_upper_bound n 4 ltac:(done)).
  apply eq_true_iff_eq. rewrite !Nat.eqb_eq. lia.
Qed.

Lemma ends_bad_op x op : ends_bad (raw_op x op).2 =
  match op with
  | Set_if_index _ (Some s) => (String.length s mod 4 =? 0)%nat
  | Set_flags _ | Set_if_index _ None | Set_order _ | Set_port _ | Set_timeout _ | Set_service_identifier _ => ends_bad x.2
  | _ => false
  end.
Proof.
  destruct x as [[] l]. unfold ends_bad. destruct op; cbn [raw_op snd]; rewrite ?last_snoc; try done.
  destruct if_name; [|by rewrite app_nil_r]. rewrite last_snoc. cbn [andb].
  by rewrite Z.eqb_refl, pad4_zero, length_bytes.
Qed.

Lemma ends_bad_ops x ops : ends_bad (foldl raw_op x ops).2 =
  foldl (λ b op,
    match op with
    | Set_if_index _ (Some s) => String.length s mod 4 =? 0
    | Set_flags _ | Set_if_index _ None | Set_order _ | Set_port _ | Set_timeout _ | Set_service_identifier _ => b
    | _ => false
    end)%nat (ends_bad x.2) ops.
Proof.
  revert x. induction ops as [|op ops IH]; intros x; [done|]. cbn [foldl]. rewrite IH, ends_bad_op. done.
Qed.

Lemma ends_bad_raw_of ops : ends_bad (raw_of ops).2 = ends_unterminated ops.
Proof. by rewrite raw_of_attrs, ends_bad_ops. Qed.

Lemma config_of_entries now resolvers :
  (config_of now resolvers).2 = (λ x, (raw_class x, x)) <$> (raw_of <$> resolvers).
Proof. by rewrite config_of_raws, config_adds_entries. Qed.

Lemma config_of_ok now resolvers : Forall (Forall op_ok) resolvers → config_ok (config_of now resolvers).
Proof.
  intros Hops. unfold config_of. generalize (config_ok_created now).
  generalize (MkCH 0 0 0 now 0, @nil (Z * raw)).
  induction Hops as [|ops l Hop Hops IH]; intros c Hc; [done|]. cbn [foldl].
  apply IH, config_ok_add; [done|]. by apply raw_of_ok.
Qed.

Lemma config_add_generation c x : ch_generation (config_add c x).1 = ch_generation c.1.
Proof. by destruct c as [[] l]. Qed.

Lemma config_of_generation now resolvers : ch_generation (config_of now resolvers).1 = now.
Proof.
  unfold config_of. trans (ch_generation (MkCH 0 0 0 now 0, @nil (Z * raw)).1); [|done].
  generalize (MkCH 0 0 0 now 0, @nil (Z * raw)). induction resolvers as [|ops l IH]; intros c; [done|].
  cbn [foldl]. by rewrite IH, config_add_generation.
Qed.

Lemma config_size_fits now resolvers : Forall (Forall op_ok) resolvers →
  config_size now resolvers <= DNS_CONFIG_BUF_MAX → config_fits (config_of now resolvers).
Proof.
  intros Hops Hs. pose proof (config_of_ok now resolvers Hops) as Hok.
  unfold config_size in Hs. destruct (config_of now resolvers) as [h es].
  pose proof (buffer_bounds h es Hok Hs). unfold config_fits. lia.
Qed.

(** ** The theorems *)

Section theorems.
Variables (garbage : nat → byte) (now : Z) (resolvers : list (list resolver_op)).
Hypothesis Hops : Forall (Forall op_ok) resolvers.
Hypothesis Hsize : config_size now resolvers <= DNS_CONFIG_BUF_MAX.

Lemma created_image : ∃ blk slack, create_config garbage now resolvers = Some blk ∧
  blk = config_image (config_of now resolvers) ++ slack.
Proof using Hops Hsize.
  destruct (create_config_ok garbage now resolvers Hops (config_size_fits _ _ Hops Hsize)) as (blk & E & slack & Eb & _).
  by exists blk, slack.
Qed.

Lemma image_n_attribute c slack : config_fits c →
  ntohl c_n_attribute (config_image c ++ slack) = Some (Z.of_nat (length (entries c)), config_image c ++ slack).
Proof using.
  intros Hf. unfold config_fits in Hf. rewrite config_image_app, ntohl_at, u32_fits by (done || lia). done.
Qed.
(** A client reads the image of a configuration, whatever is behind it. *)
Lemma config_client_reads base slack :
  match last resolvers with Some ops => ends_unterminated ops = false | None => True end →
  0 < base → base + DNS_CONFIG_BUF_MAX < 2 ^ 64 →
  copy_config base (config_image (config_of now resolvers) ++ slack)
    (sizeof_config_buf + Z.of_nat (length (entries (config_of now resolvers)))) =
  Some (Some (spec_config now resolvers)).
Proof using Hops Hsize.
  intros Hlast Hb Hend. pose proof (config_of_ok now resolvers Hops) as Hok. unfold config_size in Hsize.
  pose proof (config_of_entries now resolvers) as Hes. pose proof (config_of_generation now resolvers) as Hg.
  destruct (config_of now resolvers) as [h es]. cbn [fst snd] in *.
  unfold copy_config.
  rewrite (buffer_create_ok h es Hok Hsize slack) by (rewrite length_config_image; unfold sizeof_config_buf; lia).
  rewrite (buffer_expand_ok base h es Hok Hsize Hb Hend), (read_config_ok base h es Hok Hsize Hb Hend).
  - cbn [fmap option_fmap option_map]. do 2 f_equal. unfold spec_config. rewrite Hes, Hg, !of_type_views.
    assert (Ev : view <$> (raw_of <$> resolvers) = spec_resolver <$> resolvers).
    { rewrite <-list_fmap_compose. apply list_fmap_ext. intros i ops Hi. apply view_raw_of.
      rewrite Forall_lookup in Hops. by eapply Hops. }
    by rewrite Ev.
  - unfold last_closed. rewrite Hes, !fmap_last. destruct (last resolvers) as [ops|]; [|done]. cbn.
    by rewrite ends_bad_raw_of.
Qed.
End theorems.

(** C8: the DNS configuration that dnsinfo_create.c builds from calls of its functions on
    any number of resolvers, copied and expanded in place by a client, reads as exactly
    these resolvers: every string, address, number and flag, in the order they were added,
    each resolver in the list its flags say and with the reachability of the best of its
    servers. No step crashes and every loop ends, whatever reallocated memory holds and
    wherever the client's buffer is. This is so under three conditions: the arguments are
    what C can pass (strings end at their NUL, addresses have their length); the
    configuration fits into the maximal size with its pointers; and the last resolver does
    not end in the name of an interface whose length leaves no room for a NUL, which is a
    bug of the code (see [if_name_runs_on] in DnsDemo). *)
Theorem dns_config_roundtrip garbage now resolvers base :
  Forall (Forall op_ok) resolvers → config_size now resolvers <= DNS_CONFIG_BUF_MAX →
  match last resolvers with Some ops => ends_unterminated ops = false | None => True end →
  0 < base → base + DNS_CONFIG_BUF_MAX < 2 ^ 64 →
  ∃ config n_attribute,
    create_config garbage now resolvers = Some config ∧
    ntohl c_n_attribute config = Some (n_attribute, config) ∧
    copy_config base config (sizeof_config_buf + n_attribute) = Some (Some (spec_config now resolvers)).
Proof.
  intros Hops Hsize Hlast Hb Hend.
  destruct (created_image garbage now resolvers Hops Hsize) as (blk & slack & E & Eb).
  exists blk, (Z.of_nat (length (entries (config_of now resolvers)))). split; [done|]. rewrite Eb.
  split; [by apply image_n_attribute, config_size_fits|by apply config_client_reads].
Qed.
End spec.

(** ** Signatures *)

Section signature.
Context {R : Reachability}.
Variable sha1 : list byte → list byte.

(** The image that is hashed: the generation is 0. *)
Definition without_generation (c : craw) : craw :=
  (MkCH (ch_n_resolver c.1) (ch_n_scoped c.1) (ch_n_specific c.1) 0 (ch_padding c.1), c.2).

Lemma signature_ok c slack len : config_fits c →
  _dns_configuration_signature sha1 (Some (config_image c ++ slack)) len =
  let digest := sha1 (config_image (without_generation c)) in
  Some (take len digest ++ replicate (len - length digest) x00).
Proof.
  intros Hf. unfold _dns_configuration_signature.
  rewrite (bind_eq _ _ _ _ _ (image_n_attribute c slack Hf)).
  assert (Es : store c_generation (replicate 8 x00) (config_image c ++ slack) =
    Some (tt, config_image (without_generation c) ++ slack)).
  { rewrite !config_image_app. apply (store_front config_layout (config_fields c.1) 4); done. }
  rewrite (bind_eq _ _ _ _ _ Es). unfold load.
  rewrite (load_mid [] (config_image (without_generation c)) slack); [done|done|].
  unfold without_generation. rewrite length_config_image. unfold sizeof_config_buf, entries. cbn [fst snd]. lia.
Qed.

Lemma without_generation_add c c' x : without_generation c = without_generation c' →
  without_generation (config_add c x) = without_generation (config_add c' x).
Proof. destruct c as [[] l], c' as [[] l']. unfold without_generation. cbn. congruence. Qed.

Lemma without_generation_of now now' resolvers :
  without_generation (config_of now resolvers) = without_generation (config_of now' resolvers).
Proof.
  unfold config_of.
  assert (H : without_generation (MkCH 0 0 0 now 0, []) = without_generation (MkCH 0 0 0 now' 0, [])) by done.
  revert H. generalize (MkCH 0 0 0 now 0, @nil (Z * raw)) (MkCH 0 0 0 now' 0, @nil (Z * raw)).
  induction resolvers as [|ops l IH]; intros c c' H; [done|]. cbn [foldl]. apply IH. by apply without_generation_add.
Qed.

Lemma config_of_size now now' resolvers : config_size now resolvers = config_size now' resolvers.
Proof.
  assert (Hs : ∀ c, Z.of_nat (length (config_image c)) + ch_padding c.1 =
    Z.of_nat (length (config_image (without_generation c))) + ch_padding (without_generation c).1) by (by intros [[] l]).
  unfold config_size. by rewrite Hs, (without_generation_of now now'), <-Hs.
Qed.

End signature.

(** The signature by which IPMonitor recognizes a configuration depends on the
    resolvers only: configurations built at other times, in memory that held something
    else, have one signature, of the length that is asked for. *)
Theorem signature_of_resolvers {R : Reachability} sha1 garbage garbage' now now' resolvers len :
  Forall (Forall op_ok) resolvers → config_size now resolvers <= DNS_CONFIG_BUF_MAX →
  ∃ config config' signature,
    create_config garbage now resolvers = Some config ∧
    create_config garbage' now' resolvers = Some config' ∧
    _dns_configuration_signature sha1 (Some config) len = Some signature ∧
    _dns_configuration_signature sha1 (Some config') len = Some signature ∧
    length signature = len.
Proof.
  intros Hops Hsize. pose proof Hsize as Hsize'. rewrite (config_of_size now now') in Hsize'.
  destruct (created_image garbage now resolvers Hops Hsize) as (blk & slack & E & Eb).
  destruct (created_image garbage' now' resolvers Hops Hsize') as (blk' & slack' & E' & Eb').
  exists blk, blk'. rewrite Eb, Eb', !signature_ok by (by apply config_size_fits).
  rewrite (without_generation_of now' now). eexists. split; [by rewrite <-Eb|]. split; [by rewrite <-Eb'|].
  split; [done|]. split; [done|]. rewrite length_app, length_take, length_replicate. lia.
Qed.

(** ** Refused configurations *)

(** C39: a client refuses a configuration whose length is not that of its attributes, and
    one that with its padding exceeds the maximal size, however large the padding or the
    length; any other it copies into a buffer of exactly that size, the padding zeroed. *)
Theorem buffer_create_checks dataRef dataLen n_attribute n_padding buf :
  ntohl c_n_attribute dataRef = Some (n_attribute, dataRef) →
  ntohl c_n_padding dataRef = Some (n_padding, dataRef) →
  0 <= dataLen <= Z.of_nat (length dataRef) → dataLen < 2 ^ 63 →
  _dns_configuration_buffer_create dataRef dataLen buf =
  if (sizeof_config_buf + n_attribute =? dataLen) && (dataLen + n_padding <=? DNS_CONFIG_BUF_MAX)
  then Some (Some (), take (Z.to_nat dataLen) dataRef ++ replicate (Z.to_nat n_padding) x00)
  else Some (None, []).
Proof.
  intros Ha Hp Hlen Hlt. unfold _dns_configuration_buffer_create. rewrite Ha, Hp.
  assert (El : mem_load dataRef 0 dataLen = Some (take (Z.to_nat dataLen) dataRef)).
  { unfold mem_load. by rewrite !(proj2 (Z.leb_le _ _)) by lia. }
  rewrite El. destruct (_ =? dataLen); cbn [negb andb]; [|done].
  assert (Hn : 0 <= n_padding < 2 ^ 32).
  { unfold ntohl, bind in Hp. destruct (load c_n_padding 4 dataRef) as [[bs s]|] eqn:E; [|done].
    unfold ret in Hp. simplify_eq. unfold load, mem_load in E. repeat case_match; simplify_eq.
    unfold be_decode. pose proof (le_decode_range (rev (take (Z.to_nat 4) (drop (Z.to_nat c_n_padding) dataRef)))) as Hr.
    rewrite length_rev, length_take in Hr. split; [lia|]. eapply Z.lt_le_trans; [apply Hr|].
    change (2 ^ 32) with (256 ^ Z.of_nat 4). apply Z.pow_le_mono_r; lia. }
  destruct (Z.leb_spec (dataLen + n_padding) DNS_CONFIG_BUF_MAX) as [H|H].
  - unfold DNS_CONFIG_BUF_MAX in *. unfold u64. rewrite Z.mod_small by lia.
    by rewrite !(proj2 (Z.ltb_ge _ _)) by lia.
  - case_match; [done|]. by rewrite (proj2 (Z.ltb_lt _ _)) by lia.
Qed.
