(* ===== verification/DnsDemo.v ===== *)
(** * The DNS configuration: concrete configurations

    The theorems at a concrete input, and what the code does where it fails. *)

From S2P Require Import Prelude DnsCreate DnsExpand DnsBuild DnsResolver DnsConfig DnsOpenConfig DnsSpec.

Local Open Scope Z_scope.
Local Open Scope c_scope.

(** An address through an interface is reachable on demand, through any reachable; en0 is
    interface 5. *)
#[local] Instance demo_reachability : Reachability := {|
  if_indextoname := λ i, if i =? 5 then Some "en0"%string else None;
  reachability := λ interface _, match interface with Some _ => Some (Some 6) | None => Some (Some 2) end;
|}.

(** 127.0.0.1 and 8.8.8.8, port 53. *)
Definition loopback_sa : list byte := [x10; x02; x00; x35; x7f; x00; x00; x01] ++ replicate 8 x00.
Definition google_sa : list byte := [x10; x02; x00; x35; x08; x08; x08; x08] ++ replicate 8 x00.

Definition demo_resolvers : list (list resolver_op) :=
  [[Set_domain "apple.com"; Add_search "corp.apple.com"; Add_search "apple.com"; Add_nameserver google_sa;
    Add_sortaddr [x0a; x00; x00; x00; xff; x00; x00; x00]; Set_order 200000; Set_port 53];
   [Set_if_index 5 (Some "en0"%string); Set_flags (DNS_RESOLVER_FLAGS_SCOPED + 2); Add_nameserver loopback_sa;
    Add_nameserver google_sa; Set_timeout 30; Set_configuration_identifier "Scoped: 0"];
   [Set_options "mdns"; Set_service_identifier 77; Set_flags DNS_RESOLVER_FLAGS_SERVICE_SPECIFIC]].

Lemma demo_ops : Forall (Forall op_ok) demo_resolvers.
Proof. repeat constructor; vm_compute; by eexists. Qed.

Lemma dns_config_roundtrip_witness : ∃ config n_attribute,
  create_config (λ _, xaa) 1234 demo_resolvers = Some config ∧
  ntohl c_n_attribute config = Some (n_attribute, config) ∧
  copy_config 4096 config (sizeof_config_buf + n_attribute) = Some (Some (spec_config 1234 demo_resolvers)).
Proof.
  apply (dns_config_roundtrip (λ _, xaa) 1234 demo_resolvers 4096 demo_ops); by vm_compute.
Defined.

(** What the client reads, in full. *)
Example demo_read : spec_config 1234 demo_resolvers =
  MkConfig
    [MkResolver (Some "apple.com"%string) [google_sa] 53 ["corp.apple.com"; "apple.com"]%string
       [[x0a; x00; x00; x00; xff; x00; x00; x00]] None 0 200000 0 0 2 0 None None]
    [MkResolver None [loopback_sa; google_sa] 0 [] [] None 30 0 5 0x1006 6 0 (Some "Scoped: 0"%string) (Some "en0"%string)]
    [MkResolver None [] 0 [] [] (Some "mdns"%string) 0 0 0 0x2000 0 77 None None]
    1234 DNSINFO_VERSION.
Proof. by vm_compute. Qed.

Lemma signature_of_resolvers_witness : ∃ config config' signature,
  create_config (λ _, xaa) 1 demo_resolvers = Some config ∧
  create_config (λ _, x00) 2 demo_resolvers = Some config' ∧
  _dns_configuration_signature id (Some config) 20 = Some signature ∧
  _dns_configuration_signature id (Some config') 20 = Some signature ∧
  length signature = 20%nat.
Proof.
  apply (signature_of_resolvers id (λ _, xaa) (λ _, x00) 1 2 demo_resolvers 20 demo_ops). by vm_compute.
Defined.

(** A configuration without resolvers that asks for as much padding as there is at most. *)
Definition greedy_config : block := replicate 52 x00 ++ be_encode 4 (2 ^ 20).

Lemma buffer_create_checks_witness :
  _dns_configuration_buffer_create greedy_config 56 [] = Some (None, []).
Proof.
  rewrite (buffer_create_checks greedy_config 56 0 (2 ^ 20) []); [by vm_compute|by vm_compute|by vm_compute|by vm_compute|done].
Defined.

(** ** Where the code fails *)

(** The name of an interface is added without its NUL: the last attribute of a
    configuration, it runs on into the pointers that a client fills in behind it. *)
Definition bge0_config : block :=
  default [] (create_config (λ _, xaa) 0 [[Set_if_index 7 (Some "bge0"%string)]]).

Theorem if_name_runs_on :
  create_config (λ _, xaa) 0 [[Set_if_index 7 (Some "bge0"%string)]] = Some bge0_config ∧
  copy_config 65536 bge0_config (sizeof_config_buf + 120) = Some (Some (MkConfig
    [MkResolver None [] 0 [] [] None 0 0 7 0 0 0 None (Some "bge0@"%string)] [] [] 0 DNSINFO_VERSION)).
Proof. split; vm_compute; reflexivity. Qed.

(** A comment says that request flags are added for a loopback server if none are set;
    they are added to any. *)
Example loopback_overrides_flags :
  dr_flags (spec_resolver [Set_flags DNS_RESOLVER_FLAGS_REQUEST_A_RECORDS; Add_nameserver loopback_sa]) =
  DNS_RESOLVER_FLAGS_REQUEST_ALL_RECORDS.
Proof. by vm_compute. Qed.
