(* ===== verification/DnsFlat.v ===== *)
(** * The DNS configuration: the files in /etc/resolver

    [dnsinfo_flatfile.c]: each file of the directory is read line by line, a keyword and
    its options calling functions of [dnsinfo_create.c], into a resolver that is added to
    the configuration. *)

From S2P Require Import Prelude RouteTypes RouteDict DnsCreate DnsExpand DnsResolver.

Local Open Scope Z_scope.
Local Open Scope c_scope.

(** [getaddrinfo(3)] of a numeric address (AI_NUMERICHOST): the [sockaddr], if it is one
    of IPv4 or IPv6. *)
Class AddressInfo := { getaddrinfo : string → option (list byte) }.
Class AddressInfoLaws `{!AddressInfo} : Prop := {
  getaddrinfo_shape s sa : getaddrinfo s = Some sa →
    (length sa = 16%nat ∧ take 2 sa = [x10; x02]) ∨ (length sa = 28%nat ∧ take 2 sa = [x1c; x1c]);
}.

(** [/etc/resolver]: what [readdir] lists, if the directory can be opened, and what is in
    a file, if it can be. *)
Record files := MkFiles { listing : option (list string); contents : string → option string }.

(** ** Lines and words *)

(** [fgetln]: a line without its newline, and the length with it. *)
Fixpoint file_lines (line : string) (s : string) : list (string * nat) :=
  match s with
  | EmptyString => if (String.length line =? 0)%nat then [] else [(line, String.length line)]
  | String a s =>
      if Ascii.eqb a "010"%char then (line, S (String.length line)) :: file_lines EmptyString s
      else file_lines (line +:+ String a EmptyString) s
  end.

(** [strsep(&lineptr, " \t")] until it returns NULL. *)
Definition is_sep (a : ascii) : bool := Ascii.eqb a " "%char || Ascii.eqb a "009"%char.
Definition line_words (line : string) : list string := split_from is_sep EmptyString (c_trunc line).

Inductive token :=
| TOKEN_DOMAIN | TOKEN_FLAGS | TOKEN_INTERFACE | TOKEN_NAMESERVER | TOKEN_OPTIONS | TOKEN_PORT | TOKEN_SEARCH
| TOKEN_SEARCH_ORDER | TOKEN_SORTLIST | TOKEN_TIMEOUT.
#[export] Instance token_eq_dec : EqDecision token.
Proof. solve_decision. Defined.

(** Limits of [resolv.h] *)
Definition MAXNS : nat := 3.
Definition MAXDNSRCH : nat := 6.
Definition MAXRESOLVSORT : nat := 10.

Definition tokens : list (string * token * nat) :=
  [("domain", TOKEN_DOMAIN, 1); ("flags", TOKEN_FLAGS, 1); ("interface", TOKEN_INTERFACE, 1);
   ("nameserver", TOKEN_NAMESERVER, MAXNS); ("options", TOKEN_OPTIONS, 1); ("port", TOKEN_PORT, 1);
   ("search", TOKEN_SEARCH, 1); ("search_order", TOKEN_SEARCH_ORDER, 1); ("sortlist", TOKEN_SORTLIST, 1);
   ("timeout", TOKEN_TIMEOUT, 1)]%nat%string.

Definition strcasecmp_equal (s1 s2 : string) : bool := String.eqb (lowercaseString s1) (lowercaseString s2).
Definition find_token (word : string) : option (token * nat) :=
  (λ t, (t.1.2, t.2)) <$> List.find (λ t, strcasecmp_equal word t.1.1) tokens.
Definition is_comment (word : string) : bool :=
  match word with String a _ => Ascii.eqb a ";"%char || Ascii.eqb a "#"%char | EmptyString => false end.

(** ** Numbers *)

(** [strtol(s, NULL, 0)] *)
Fixpoint read_base (base : Z) (s : string) (acc : Z) : Z :=
  match s with
  | String a s' =>
      match hex_digit a with Some d => if d <? base then read_base base s' (base * acc + d) else acc | None => acc end
  | EmptyString => acc
  end.
Definition strtol0 (s : string) : Z :=
  let s := skip_space s in
  let '(neg, s) := match s with
                   | String "-" s' => (true, s')
                   | String "+" s' => (false, s')
                   | _ => (false, s)
                   end in
  let v := match s with
           | String "0" (String x (String d s')) =>
               if Ascii.eqb (lowercase x) "x"%char && bool_decide (is_Some (hex_digit d))
               then read_base 16 (String d s') 0 else read_base 8 s 0
           | String "0" _ => read_base 8 s 0
           | _ => read_base 10 s 0
           end in
  Z.max LONG_MIN (Z.min LONG_MAX (if neg : bool then - v else v)).

Definition UINT16_MAX : Z := 2 ^ 16 - 1.
Definition UINT32_MAX : Z := 2 ^ 32 - 1.
Definition number_upto (max : Z) (word : string) : option Z :=
  let number := strtol0 word in if (number <? 0) || (max <? number) then None else Some number.

(** ** Addresses *)

(** The mask of the class of an address, of which there is none for D and E. *)
Definition class_mask (a : Z) : option Z :=
  if Z.land a 0x80000000 =? 0 then Some 0xff000000
  else if Z.land a 0xc0000000 =? 0x80000000 then Some 0xffff0000
  else if Z.land a 0xe0000000 =? 0xc0000000 then Some 0xffffff00
  else None.

Section parse.
Context `{!Network, !AddressInfo}.

(** [htons(number)] at [sin_port] or [sin6_port] *)
Definition with_port (number : Z) (sa : list byte) : list byte := take 2 sa ++ be_encode 2 number ++ drop 4 sa.

Definition _dnsinfo_parse_nameserver (token : string) : option (list byte) :=
  match getaddrinfo token with
  | Some sa => Some sa
  | None =>
      match split_last "."%char token with
      | None => None
      | Some (front, behind) =>
          let number := (strtol10 behind).1 in
          if (number <? 0) || (UINT16_MAX <? number) then None else with_port number <$> getaddrinfo front
      end
  end.

Definition parse_inet (s : string) : option (list byte) :=
  sa ← getaddrinfo s;
  if bool_decide (sockaddr_family sa = Some DnsCreate.AF_INET) then Some (take 4 (drop 4 sa)) else None.

Definition _dnsinfo_parse_sortaddr (token : string) : option (list byte) :=
  let '(token, slash) := split_at "/"%char token in
  addr ← parse_inet token;
  mask ← match slash with
         | Some slash => parse_inet slash
         | None => be_encode 4 <$> class_mask (be_decode addr)
         end;
  Some (addr ++ mask).

(** ** The options of a keyword *)

Definition calls_of {A} (f : A → resolver_op) (o : option A) : list resolver_op :=
  match o with Some a => [f a] | None => [] end.
Definition unless_empty (s : string) : option string := if (0 <? String.length s)%nat then Some s else None.

Definition flag_of (word : string) : Z :=
  if strcasecmp_equal word "scoped" then DNS_RESOLVER_FLAGS_SCOPED
  else if strcasecmp_equal word "a" then DNS_RESOLVER_FLAGS_REQUEST_A_RECORDS
  else if strcasecmp_equal word "aaaa" then DNS_RESOLVER_FLAGS_REQUEST_AAAA_RECORDS else 0.

(** The words, joined in a buffer of [len + 1] bytes. *)
Definition join_options (len : nat) (words : list string) : option string :=
  foldl (λ options word,
    if (String.length word =? 0)%nat then options
    else Some (match options with
               | None => str_take len word
               | Some options => str_take len (str_take len (options +:+ " ") +:+ word)
               end)) None words.

Fixpoint sort_addresses (words : list string) : list (list byte) :=
  match words with
  | [] => []
  | word :: words =>
      match _dnsinfo_parse_sortaddr word with Some sortaddr => sortaddr :: sort_addresses words | None => [] end
  end.

(** The calls for a keyword with the word behind it and those that follow, and the flags
    that are set. *)
Definition keyword_calls (token : token) (word : string) (more : list string) (len : nat)
    : list resolver_op * Z :=
  match token with
  | TOKEN_DOMAIN => (calls_of Set_domain (unless_empty (trim_trailing word)), 0)
  | TOKEN_FLAGS => ([], foldl (λ flags word, Z.lor flags (flag_of word)) 0 (word :: more))
  | TOKEN_INTERFACE =>
      let if_index := u32 (if_nametoindex word) in
      ((if 0 <? if_index then [Set_if_index if_index (Some word)] else []), 0)
  | TOKEN_NAMESERVER => (calls_of Add_nameserver (_dnsinfo_parse_nameserver word), 0)
  | TOKEN_OPTIONS => (calls_of Set_options (join_options len (word :: more)), 0)
  | TOKEN_PORT => (calls_of Set_port (number_upto UINT16_MAX word), 0)
  | TOKEN_SEARCH =>
      (Add_search <$> omap (unless_empty ∘ trim_trailing) (take MAXDNSRCH (word :: more)), 0)
  | TOKEN_SEARCH_ORDER => (calls_of Set_order (number_upto UINT32_MAX word), 0)
  | TOKEN_SORTLIST => (Add_sortaddr <$> sort_addresses (take MAXRESOLVSORT (word :: more)), 0)
  | TOKEN_TIMEOUT => (calls_of Set_timeout (number_upto UINT32_MAX word), 0)
  end.

(** ** A file *)

(** [res], [token_count] and [config_flags] *)
Record flat_state := MkFlat {
  fl_res : option block;
  fl_count : token → nat;
  fl_flags : Z;
}.

Variable garbage : nat → byte.

Definition flat_line (st : flat_state) (line : string * nat) : option flat_state :=
  match line_words line.1 with
  | keyword :: words =>
      if is_comment keyword then Some st
      else
        match find_token keyword, words with
        | Some (token, max_count), word :: more =>
            let count := S (fl_count st token) in
            let token_count t := if decide (t = token) then count else fl_count st t in
            if (max_count <? count)%nat then Some (MkFlat (fl_res st) token_count (fl_flags st))
            else
              let res := default _dns_resolver_create (fl_res st) in
              let '(calls, flags) := keyword_calls token word more line.2 in
              called ← for_each calls (run_op garbage) res;
              Some (MkFlat (Some called.2) token_count (Z.lor (fl_flags st) flags))
        | _, _ => Some st
        end
  | [] => Some st
  end.

Definition flat_lines (lines : list (string * nat)) (st : flat_state) : option flat_state :=
  foldl (λ st line, st ← st; flat_line st line) (Some st) lines.

(** What is set when the file was read: the domain, and the flags, where [default_flags]
    is [_dnsinfo_flatfile_flags]. *)
Definition base_name (path : string) : string :=
  match split_last "/"%char path with Some (_, base) => base | None => path end.
Definition flat_finish (default_flags : Z) (path : string) (token_count : token → nat) (config_flags : Z)
    : C block unit :=
  when (token_count TOKEN_DOMAIN =? 0)%nat (_dns_resolver_set_domain garbage (base_name path));;
  if negb (config_flags =? 0) then _dns_resolver_set_flags config_flags
  else let* old_flags := ntohl r_flags in _dns_resolver_set_flags (Z.lor old_flags default_flags).

(** The resolver of a file in a directory: [None] is a crash, [Some None] is NULL. *)
Definition FILENAME_MAX : nat := 1024.
Definition _dnsinfo_flatfile_create_resolver (fs : files) (default_flags : Z) (dir path : string)
    : option (option block) :=
  match contents fs (str_take (FILENAME_MAX - 1) (dir +:+ "/" +:+ path)) with
  | None => Some None
  | Some text =>
      st ← flat_lines (file_lines EmptyString text) (MkFlat None (λ _, 0%nat) 0);
      match fl_res st with
      | None => Some None
      | Some res =>
          finished ← flat_finish default_flags path (fl_count st) (fl_flags st) res;
          Some (Some finished.2)
      end
  end.

(** ** The directory *)

Context `{!Reachability}.

Definition add_resolver_block (resolver : option block) : C block unit :=
  let* _resolver := deref resolver in _dns_configuration_add_resolver garbage _resolver;; ret tt.

Definition _PATH_RESOLVER_DIR : string := "/etc/resolver".
Definition resolver_files (fs : files) : list string :=
  filter (λ name, name ≠ "." ∧ name ≠ "..")%string (default [] (listing fs)).
Definition _dnsinfo_flatfile_add_resolvers (fs : files) (default_flags : Z) : C block unit :=
  for_each (resolver_files fs) (λ name,
    let* res := deref (_dnsinfo_flatfile_create_resolver fs default_flags _PATH_RESOLVER_DIR name) in
    match res with Some res => add_resolver_block (Some res) | None => ret tt end).
End parse.
