(* ===== verification/DnsFlatSpec.v ===== *)
(** * The DNS configuration: what a file of /etc/resolver says

    The calls that reading a file makes; and the resolver that comes out, as a record
    whose fields each depend on the lines with one keyword only, in whatever order the
    lines are. *)

From S2P Require Import Prelude RouteTypes RouteDict DnsCreate DnsExpand DnsBuild DnsResolver DnsConfig DnsFlat.

Local Open Scope Z_scope.
Local Open Scope c_scope.

Section flat.
Context {N : Network} {AI : AddressInfo} {R : Reachability}.

(** ** The calls *)

(** The keyword lines of a file: the keyword, its limit, the word behind it, those that
    follow and the length of the line. *)
Definition flat_entry : Type := token * nat * string * list string * nat.
Definition line_entry (line : string * nat) : option flat_entry :=
  match line_words line.1 with
  | keyword :: words =>
      if is_comment keyword then None
      else
        match find_token keyword, words with
        | Some (token, max_count), word :: more => Some (token, max_count, word, more, line.2)
        | _, _ => None
        end
  | [] => None
  end.
Definition file_entries (text : string) : list flat_entry := omap line_entry (file_lines EmptyString text).

(** What has been done so far, in terms of calls. *)
Record calls_state := MkCalls {
  cs_calls : option (list resolver_op);
  cs_count : token → nat;
  cs_flags : Z;
}.
Definition calls_entry (st : calls_state) (e : flat_entry) : calls_state :=
  let '(token, max_count, word, more, len) := e in
  let count := S (cs_count st token) in
  let token_count t := if decide (t = token) then count else cs_count st t in
  if (max_count <? count)%nat then MkCalls (cs_calls st) token_count (cs_flags st)
  else
    let '(calls, flags) := keyword_calls token word more len in
    MkCalls (Some (default [] (cs_calls st) ++ calls)) token_count (Z.lor (cs_flags st) flags).
Definition calls_entries (l : list flat_entry) : calls_state := foldl calls_entry (MkCalls None (λ _, 0%nat) 0) l.

(** All calls for a file, the last ones included; [None] if there is no keyword. *)
Definition file_calls (default_flags : Z) (path : string) (l : list flat_entry) : option (list resolver_op) :=
  let st := calls_entries l in
  calls ← cs_calls st;
  let calls := calls ++ (if (cs_count st TOKEN_DOMAIN =? 0)%nat then [Set_domain (base_name path)] else []) in
  Some (calls ++ [Set_flags (if negb (cs_flags st =? 0) then cs_flags st
                             else Z.lor (dr_flags (foldl spec_op empty_resolver calls)) default_flags)]).

Variable garbage : nat → byte.

(** A state of the loop whose resolver is the block that the calls make. *)
Definition same_state (st : flat_state) (cs : calls_state) : Prop :=
  (∀ t, fl_count st t = cs_count cs t) ∧ fl_flags st = cs_flags cs ∧
  match fl_res st, cs_calls cs with
  | Some blk, Some calls => for_each calls (run_op garbage) _dns_resolver_create = Some (tt, blk)
  | None, None => True
  | _, _ => False
  end.

Definition runs_all (l : list flat_entry) : Prop :=
  match cs_calls (calls_entries l) with
  | Some calls => is_Some (for_each calls (run_op garbage) _dns_resolver_create)
  | None => True
  end.

Lemma for_each_prefix {S A} (l k : list A) (body : A → C S unit) s :
  is_Some (for_each (l ++ k) body s) → is_Some (for_each l body s).
Proof. rewrite for_each_app. unfold bind. destruct (for_each l body s) as [[[] s']|]; [by eexists|by intros []]. Qed.

Lemma runs_snoc l e : runs_all (l ++ [e]) → runs_all l.
Proof.
  unfold runs_all, calls_entries. rewrite foldl_app. cbn [foldl].
  set (cs := foldl calls_entry _ l). destruct e as [[[[token max] word] more] len]. cbn [calls_entry].
  destruct (max <? _)%nat; cbn [cs_calls]; [done|].
  destruct (keyword_calls _ _ _ _) as [calls flags]. cbn [cs_calls].
  destruct (cs_calls cs); [|done]. cbn [default from_option id]. apply for_each_prefix.
Qed.

(** The loop over the lines makes the calls of their entries. *)
Lemma flat_lines_entries lines : runs_all (omap line_entry lines) →
  ∃ st, flat_lines garbage lines (MkFlat None (λ _, 0%nat) 0) = Some st ∧
    same_state st (calls_entries (omap line_entry lines)).
Proof.
  unfold flat_lines. induction lines as [|line lines IH] using rev_ind; [by eexists|].
  rewrite omap_app, foldl_app. cbn [omap list_omap foldl]. unfold flat_line at 1. unfold line_entry at 2 4.
  destruct (line_words line.1) as [|keyword words]; [rewrite app_nil_r; intros H; destruct (IH H) as (st & -> & Hs); by exists st|].
  destruct (is_comment keyword); [rewrite app_nil_r; intros H; destruct (IH H) as (st & -> & Hs); by exists st|].
  destruct (find_token keyword) as [[token max]|], words as [|word more];
    try (rewrite app_nil_r; intros H; destruct (IH H) as (st & -> & Hs); by exists st).
  intros H. destruct (IH (runs_snoc _ _ H)) as (st & -> & Hc & Hf & Hr). cbn [mbind option_bind].
  unfold runs_all in H. unfold calls_entries in *. rewrite foldl_app in *. cbn [foldl calls_entry] in *.
  set (cs := foldl calls_entry _ (omap line_entry lines)) in *. rewrite <-Hc in *.
  destruct (max <? S (fl_count st token))%nat.
  { eexists. split; [done|]. split; [|done]. intros t. cbn. by destruct (decide _). }
  destruct (keyword_calls token word more line.2) as [calls flags]. cbn [cs_calls] in H.
  assert (Hr' : for_each (default [] (cs_calls cs)) (run_op garbage) _dns_resolver_create =
    Some (tt, default _dns_resolver_create (fl_res st))).
  { destruct (fl_res st), (cs_calls cs); try done. }
  rewrite for_each_app in H. rewrite (bind_eq _ _ _ _ _ Hr') in H. destruct H as ([[] blk] & E). rewrite E.
  eexists. split; [done|]. split; [|split].
  - intros t. cbn. by destruct (decide _).
  - cbn. by rewrite Hf.
  - cbn. by rewrite for_each_app, (bind_eq _ _ _ _ _ Hr').
Qed.

(** The flags that are read back are those of the calls. *)
Lemma flags_read calls blk : Forall op_ok calls → raw_fits (foldl raw_op (zero_header, []) calls) →
  for_each calls (run_op garbage) _dns_resolver_create = Some (tt, blk) →
  ntohl r_flags blk = Some (dr_flags (foldl spec_op empty_resolver calls), blk).
Proof.
  intros Hops Hf E. destruct (run_ops_ok garbage _ calls _ Hops created_holds Hf) as (blk' & E' & H).
  rewrite E in E'. injection E' as <-. rewrite (holds_get _ 13 r_flags _ _ H eq_refl eq_refl).
  change empty_resolver with (view (zero_header, [])). rewrite <-view_ops by done.
  by destruct (foldl raw_op _ calls) as [[] ?].
Qed.

Lemma calls_fit calls more : raw_fits (foldl raw_op (zero_header, []) (calls ++ more)) →
  raw_fits (foldl raw_op (zero_header, []) calls).
Proof. rewrite foldl_app. apply raw_fits_app. Qed.

Lemma flat_finish_ok default_flags path count flags calls blk :
  let calls' := calls ++ (if (count TOKEN_DOMAIN =? 0)%nat then [Set_domain (base_name path)] else []) in
  let last := Set_flags (if negb (flags =? 0) then flags
                         else Z.lor (dr_flags (foldl spec_op empty_resolver calls')) default_flags) in
  Forall op_ok (calls' ++ [last]) → raw_fits (foldl raw_op (zero_header, []) (calls' ++ [last])) →
  for_each calls (run_op garbage) _dns_resolver_create = Some (tt, blk) →
  ∃ blk', flat_finish garbage default_flags path count flags blk = Some (tt, blk') ∧
    build_resolver garbage (calls' ++ [last]) = Some blk'.
Proof.
  cbn zeta. set (dom := if (count TOKEN_DOMAIN =? 0)%nat then _ else _). intros Hops Hf E.
  pose proof (calls_fit _ _ Hf) as Hf'. apply Forall_app in Hops as [Hops Hlast].
  destruct (run_ops_ok garbage _ (calls ++ dom) _ Hops created_holds Hf') as (blk1 & E1 & _).
  pose proof E1 as E2. rewrite for_each_app, (bind_eq _ _ _ _ _ E) in E2.
  assert (Ed : when (count TOKEN_DOMAIN =? 0)%nat (_dns_resolver_set_domain garbage (base_name path)) blk = Some (tt, blk1)).
  { unfold dom in E2. destruct (count TOKEN_DOMAIN =? 0)%nat; [|done]. cbn [for_each run_op when] in E2 |- *. unfold bind in E2.
    by destruct (_dns_resolver_set_domain _ _ _) as [[[] ?]|]. }
  unfold flat_finish. rewrite (bind_eq _ _ _ _ _ Ed). pose proof (flags_read _ _ Hops Hf' E1) as Er.
  destruct (run_ops_ok garbage _ _ _ (proj2 (Forall_app _ _ _) (conj Hops Hlast)) created_holds Hf) as (blk2 & E3 & _).
  exists blk2. unfold build_resolver. rewrite E3. split; [|done].
  rewrite for_each_app, (bind_eq _ _ _ _ _ E1) in E3. cbn [for_each run_op] in E3.
  destruct (negb (flags =? 0)); [|rewrite (bind_eq _ _ _ _ _ Er)];
    unfold bind in E3; by destruct (_dns_resolver_set_flags _ _) as [[[] ?]|].
Qed.

Definition file_name (dir path : string) : string := str_take (FILENAME_MAX - 1) (dir +:+ "/" +:+ path).
(** The calls for a file of the directory, if it can be read and has a keyword. *)
Definition path_calls (fs : files) (default_flags : Z) (dir path : string) : option (list resolver_op) :=
  contents fs (file_name dir path) ≫= (λ text, file_calls default_flags path (file_entries text)).

Lemma create_resolver_calls fs default_flags dir path :
  match path_calls fs default_flags dir path with
  | Some calls =>
      Forall op_ok calls → raw_fits (foldl raw_op (zero_header, []) calls) →
      ∃ blk, build_resolver garbage calls = Some blk ∧
        _dnsinfo_flatfile_create_resolver garbage fs default_flags dir path = Some (Some blk)
  | None => _dnsinfo_flatfile_create_resolver garbage fs default_flags dir path = Some None
  end.
Proof.
  unfold path_calls, _dnsinfo_flatfile_create_resolver. fold (file_name dir path).
  destruct (contents fs (file_name dir path)) as [text|]; [|done]. cbn [mbind option_bind]. unfold file_calls.
  pose proof (flat_lines_entries (file_lines EmptyString text)) as Hl. unfold file_entries. unfold runs_all in Hl.
  destruct (cs_calls (calls_entries (omap line_entry (file_lines "" text)))) as [calls|] eqn:Ec; cbn [mbind option_bind].
  - intros Hops Hf.
    assert (Hp : Forall op_ok calls ∧ raw_fits (foldl raw_op (zero_header, []) calls)).
    { rewrite <-app_assoc in Hops, Hf. apply Forall_app in Hops as [Hops _]. split; [done|by eapply calls_fit]. }
    destruct (run_ops_ok garbage _ calls _ (proj1 Hp) created_holds (proj2 Hp)) as (blk & E & _).
    destruct (Hl ltac:(by eexists)) as (st & Es & Hc & Hfl & Hr). rewrite Es. cbn [mbind option_bind]. rewrite Ec in Hr.
    destruct (fl_res st) as [blk'|]; [|done]. rewrite E in Hr. injection Hr as <-.
    rewrite <-Hc, <-Hfl in *.
    destruct (flat_finish_ok default_flags path (fl_count st) (fl_flags st) calls blk Hops Hf E) as (blk' & E1 & E2).
    exists blk'. split; [exact E2|]. by rewrite E1.
  - destruct (Hl I) as (st & Es & _ & _ & Hr). rewrite Es. cbn [mbind option_bind]. rewrite Ec in Hr.
    by destruct (fl_res st).
Qed.
End flat.

(** ** Their arguments *)

Definition sockaddr_shape (sa : list byte) : Prop :=
  (length sa = 16%nat ∧ take 2 sa = [x10; x02]) ∨ (length sa = 28%nat ∧ take 2 sa = [x1c; x1c]).

(** An address has the length it says, and one that can be looked at. *)
Lemma sockaddr_shape_ok sa : sockaddr_shape sa → op_ok (Add_nameserver sa).
Proof.
  intros H.
  assert (Hload : ∀ off n, 0 <= off → 0 <= n → off + n <= Z.of_nat (length sa) → ∃ bs, mem_load sa off n = Some bs).
  { intros off n H1 H2 H3. unfold mem_load. rewrite !(proj2 (Z.leb_le _ _)) by done. by eexists. }
  destruct H as [[Hl Ht]|[Hl Ht]]; destruct sa as [|b0 [|b1 sa]]; try done; injection Ht as -> ->.
  - destruct (Hload 4 4) as (bs & Eb); [done|done|rewrite Hl; done|]. unfold op_ok, is_loopback.
    rewrite Eb, Hl. split; [done|]. by eexists.
  - destruct (Hload 8 16) as (bs & Eb); [done|done|rewrite Hl; done|]. unfold op_ok, is_loopback.
    rewrite Eb, Hl. split; [done|]. by eexists.
Qed.

Section arguments.
Context {N : Network} {AI : AddressInfo} {AL : AddressInfoLaws}.

Lemma split_no_nul sep word s : no_nul word → no_nul s → Forall no_nul (split_from sep word s).
Proof using.
  revert word. induction s as [|a s IH]; intros word Hw Hs; [by repeat constructor|].
  cbn [no_nul] in Hs. apply andb_prop_elim in Hs as [Ha Hs]. cbn [split_from]. destruct (sep a).
  - constructor; [done|]. by apply IH.
  - apply IH; [|done]. rewrite no_nul_app. apply andb_prop_intro. split; [done|]. cbn. by rewrite andb_true_r.
Qed.

Lemma trim_trailing_no_nul s : no_nul s → no_nul (trim_trailing s).
Proof using.
  induction s as [|a s IH]; [done|]. cbn [no_nul trim_trailing]. intros [Ha Hs]%andb_prop_elim. specialize (IH Hs).
  destruct (trim_trailing s) as [|b t]; [|by apply andb_prop_intro].
  destruct (Ascii.eqb a "."); [done|]. cbn. by rewrite andb_true_r.
Qed.
Lemma unless_empty_no_nul s t : no_nul s → unless_empty s = Some t → no_nul t.
Proof using. unfold unless_empty. destruct (_ <? _)%nat; [|done]. by intros ? [= <-]. Qed.

Lemma join_no_nul len words s : Forall no_nul words → join_options len words = Some s → no_nul s.
Proof using.
  unfold join_options. revert s. induction words as [|w words IH] using rev_ind; intros s Hw; [done|].
  apply Forall_app in Hw as [Hw Hx]. rewrite Forall_singleton in Hx. rewrite foldl_app. cbn [foldl].
  destruct (String.length w =? 0)%nat; [by apply IH|]. destruct (foldl _ None words) as [o|]; intros [= <-].
  - apply no_nul_take. rewrite no_nul_app. apply andb_prop_intro. split; [|done].
    apply no_nul_take. rewrite no_nul_app. apply andb_prop_intro. split; [by apply IH|done].
  - by apply no_nul_take.
Qed.

Lemma parse_nameserver_ok word sa : _dnsinfo_parse_nameserver word = Some sa → sockaddr_shape sa.
Proof using AL.
  unfold _dnsinfo_parse_nameserver. destruct (getaddrinfo word) as [a|] eqn:E.
  - intros [= <-]. by apply (getaddrinfo_shape word).
  - destruct (split_last "." word) as [[front behind]|]; [|done]. destruct (_ || _); [done|].
    destruct (getaddrinfo front) as [a|] eqn:Ef; [|done]. intros [= <-].
    pose proof (getaddrinfo_shape _ _ Ef) as H. unfold with_port, sockaddr_shape.
    assert (Hl : (4 ≤ length a)%nat) by (destruct H as [[-> _]|[-> _]]; lia).
    rewrite !length_app, length_take, length_drop, length_be_encode.
    rewrite take_app_le, take_take by (rewrite length_take; lia).
    destruct H as [[Ha Ht]|[Ha Ht]]; [left|right]; (split; [lia|exact Ht]).
Qed.

Lemma parse_inet_ok s a : parse_inet s = Some a → length a = 4%nat.
Proof using AL.
  unfold parse_inet. destruct (getaddrinfo s) as [sa|] eqn:E; [|done]. cbn [mbind option_bind].
  destruct (bool_decide _); [|done]. intros [= <-]. rewrite length_take, length_drop.
  destruct (getaddrinfo_shape _ _ E) as [[-> _]|[-> _]]; done.
Qed.

Lemma parse_sortaddr_ok word a : _dnsinfo_parse_sortaddr word = Some a → length a = 8%nat.
Proof using AL.
  unfold _dnsinfo_parse_sortaddr. destruct (split_at "/" word) as [front slash].
  destruct (parse_inet front) as [b|] eqn:Eb; [|done]. cbn [mbind option_bind]. apply parse_inet_ok in Eb.
  assert (H : ∀ m, match slash with Some s => parse_inet s | None => be_encode 4 <$> class_mask (be_decode b) end = Some m →
    length m = 4%nat).
  { intros m. destruct slash; [apply parse_inet_ok|]. destruct (class_mask _); [|done]. intros [= <-].
    apply length_be_encode. }
  destruct (match slash with Some _ => _ | None => _ end) as [m|]; [|done]. cbn [mbind option_bind].
  intros [= <-]. rewrite length_app, Eb. by rewrite (H m).
Qed.

Lemma calls_of_ok {A} (f : A → resolver_op) o : (∀ a, o = Some a → op_ok (f a)) → Forall op_ok (calls_of f o).
Proof using. intros H. destruct o; [|done]. constructor; [by apply H|done]. Qed.

Lemma keyword_calls_ok token word more len : Forall no_nul (word :: more) →
  Forall op_ok (keyword_calls token word more len).1.
Proof using AL.
  intros Hw. pose proof Hw as Hw'. apply Forall_cons in Hw as [Hword _].
  destruct token; cbn [keyword_calls fst]; try apply calls_of_ok; try (by intros).
  - intros s. by apply unless_empty_no_nul, trim_trailing_no_nul.
  - destruct (0 <? _); [|done]. by constructor.
  - intros sa E. by eapply sockaddr_shape_ok, parse_nameserver_ok.
  - intros s E. by eapply join_no_nul.
  - rewrite Forall_forall. intros op (s & -> & (w & Hx & E)%list_elem_of_omap)%list_elem_of_fmap.
    cbn [compose] in E. apply (unless_empty_no_nul (trim_trailing w)); [|done]. apply trim_trailing_no_nul.
    rewrite Forall_forall in Hw'. apply Hw'. apply elem_of_take in Hx as (i & Hi & _). by apply list_elem_of_lookup_2 in Hi.
  - rewrite Forall_forall. intros op (a & -> & Ha)%list_elem_of_fmap.
    induction (take MAXRESOLVSORT (word :: more)) as [|w l IH]; [by apply elem_of_nil in Ha|].
    cbn [sort_addresses] in Ha. destruct (_dnsinfo_parse_sortaddr w) as [b|] eqn:E; [|by apply elem_of_nil in Ha].
    apply elem_of_cons in Ha as [->|Ha]; [by eapply parse_sortaddr_ok|by apply IH].
Qed.

Lemma entry_words line token max word more len : line_entry line = Some (token, max, word, more, len) →
  Forall no_nul (word :: more).
Proof using.
  unfold line_entry. pose proof (split_no_nul is_sep "" (c_trunc line.1) I (c_trunc_no_nul _)) as H.
  fold (line_words line.1) in H. destruct (line_words line.1) as [|keyword words]; [done|].
  destruct (is_comment keyword); [done|]. destruct (find_token keyword) as [[t m]|]; [|done].
  destruct words as [|w ws]; [done|]. intros [= _ _ <- <- _]. by inversion H.
Qed.

Lemma calls_entries_ok text calls : cs_calls (calls_entries (file_entries text)) = Some calls → Forall op_ok calls.
Proof using AL.
  unfold file_entries, calls_entries.
  assert (H : ∀ lines, match cs_calls (foldl calls_entry (MkCalls None (λ _, 0%nat) 0) (omap line_entry lines)) with
                       | Some calls => Forall op_ok calls | None => True end).
  { induction lines as [|line lines IH] using rev_ind; [done|]. rewrite omap_app, foldl_app. cbn [omap list_omap].
    destruct (line_entry line) as [[[[[token max] word] more] len]|] eqn:E; [|exact IH]. cbn [foldl calls_entry].
    set (cs := foldl calls_entry _ _) in *. pose proof (keyword_calls_ok token word more len (entry_words _ _ _ _ _ _ E)) as Hk.
    destruct (max <? _)%nat; [exact IH|]. destruct (keyword_calls token word more len) as [calls' flags].
    cbn [cs_calls fst] in Hk |- *. apply Forall_app. split; [|done]. by destruct (cs_calls cs). }
  intros E. specialize (H (file_lines "" text)). by rewrite E in H.
Qed.

Lemma base_name_no_nul path : no_nul path → no_nul (base_name path).
Proof using.
  intros H. unfold base_name.
  assert (Hs : ∀ c s f b, no_nul s → split_last c s = Some (f, b) → no_nul b).
  { intros c s. induction s as [|a s IH]; intros f b Hn E; [done|]. cbn [no_nul split_last] in *.
    apply andb_prop_elim in Hn as [_ Hn]. destruct (split_last c s) as [[f' b']|]; [injection E as <- <-; by eapply IH|].
    destruct (Ascii.eqb a c); [by injection E as <- <-|done]. }
  destruct (split_last "/" path) as [[f b]|] eqn:E; [by eapply Hs|done].
Qed.

Lemma file_calls_ok default_flags path text calls : no_nul path →
  file_calls default_flags path (file_entries text) = Some calls → Forall op_ok calls.
Proof using AL.
  intros Hp. unfold file_calls. pose proof (calls_entries_ok text) as H.
  destruct (cs_calls (calls_entries (file_entries text))) as [c|]; [|done]. cbn [mbind option_bind]. intros [= <-].
  specialize (H c eq_refl). repeat (apply Forall_app; split); [done| |by constructor].
  destruct (_ =? 0)%nat; [|done]. constructor; [by apply base_name_no_nul|done].
Qed.
End arguments.

(** ** The resolver as a record *)

Section resolver.
Context {N : Network} {AI : AddressInfo}.

Definition max_count (t : token) : nat := match t with TOKEN_NAMESERVER => MAXNS | _ => 1%nat end.
(** What is behind a keyword: a word, the words that follow, the length of the line. *)
Definition option_words : Type := string * list string * nat.
Definition entries_of (l : list flat_entry) (t : token) : list option_words :=
  omap (λ '(t', _, word, more, len), if decide (t' = t) then Some (word, more, len) else None) l.
(** The lines with a keyword that count. *)
Definition counted (l : list flat_entry) (t : token) : list option_words := take (max_count t) (entries_of l t).

(** The fields, from the lines that count. *)
Definition one_word {A} (f : string → option A) (o : list option_words) : option A :=
  match o with (word, _, _) :: _ => f word | [] => None end.
Definition all_words {A} (f : nat → list string → A) (none : A) (o : list option_words) : A :=
  match o with (word, more, len) :: _ => f len (word :: more) | [] => none end.
Definition said_domain : list option_words → option string := one_word (unless_empty ∘ trim_trailing).
Definition said_servers (o : list option_words) : list (list byte) :=
  omap (λ '(word, _, _), _dnsinfo_parse_nameserver word) o.
Definition said_search : list option_words → list string :=
  all_words (λ _ words, omap (unless_empty ∘ trim_trailing) (take MAXDNSRCH words)) [].
Definition said_sortlist : list option_words → list (list byte) :=
  all_words (λ _ words, sort_addresses (take MAXRESOLVSORT words)) [].
Definition said_options : list option_words → option string := all_words join_options None.
Definition said_flags : list option_words → Z := all_words (λ _ words, foldl (λ flags word, Z.lor flags (flag_of word)) 0 words) 0.
Definition said_interface (o : list option_words) : option (Z * string) :=
  one_word (λ word, let i := u32 (if_nametoindex word) in if 0 <? i then Some (i, word) else None) o.
Definition loopback_flags (servers : list (list byte)) : Z :=
  if existsb (λ sa, default false (is_loopback sa)) servers then DNS_RESOLVER_FLAGS_REQUEST_ALL_RECORDS else 0.

Definition resolver_said (counted : token → list option_words) (domain : option string) (flags : Z) : dns_resolver := {|
  dr_domain := domain;
  dr_nameserver := said_servers (counted TOKEN_NAMESERVER);
  dr_port := default 0 ((λ p, p mod 2 ^ 16) <$> one_word (number_upto UINT16_MAX) (counted TOKEN_PORT));
  dr_search := said_search (counted TOKEN_SEARCH);
  dr_sortaddr := said_sortlist (counted TOKEN_SORTLIST);
  dr_options := said_options (counted TOKEN_OPTIONS);
  dr_timeout := default 0 (u32 <$> one_word (number_upto UINT32_MAX) (counted TOKEN_TIMEOUT));
  dr_search_order := default 0 (u32 <$> one_word (number_upto UINT32_MAX) (counted TOKEN_SEARCH_ORDER));
  dr_if_index := default 0 (u32 ∘ fst <$> said_interface (counted TOKEN_INTERFACE));
  dr_flags := flags;
  dr_reach_flags := 0;
  dr_service_identifier := 0;
  dr_cid := None;
  dr_if_name := snd <$> said_interface (counted TOKEN_INTERFACE);
|}.
(** While lines are read: no other domain, and the flags of servers on this host. *)
Definition resolver_so_far (counted : token → list option_words) : dns_resolver :=
  resolver_said counted (said_domain (counted TOKEN_DOMAIN)) (loopback_flags (said_servers (counted TOKEN_NAMESERVER))).

(** The resolver that a file says: without a domain line it is for the domain the file is
    named after, and without flags it has the default ones. *)
Definition file_resolver (default_flags : Z) (path : string) (l : list flat_entry) : dns_resolver :=
  let counted := counted l in
  resolver_said counted
    (match counted TOKEN_DOMAIN with [] => Some (base_name path) | o => said_domain o end)
    (let flags := said_flags (counted TOKEN_FLAGS) in
     u32 (if negb (flags =? 0) then flags
          else Z.lor (loopback_flags (said_servers (counted TOKEN_NAMESERVER))) default_flags)).

Lemma foldl_search_calls d n p s so o t or i f r si c nm l :
  foldl spec_op (MkResolver d n p s so o t or i f r si c nm) (Add_search <$> l) =
  MkResolver d n p (s ++ l) so o t or i f r si c nm.
Proof using.
  revert s. induction l as [|x l IH]; intros s; [by rewrite app_nil_r|]. cbn [fmap list_fmap foldl spec_op].
  by rewrite IH, <-app_assoc.
Qed.
Lemma foldl_sortaddr_calls d n p s so o t or i f r si c nm l :
  foldl spec_op (MkResolver d n p s so o t or i f r si c nm) (Add_sortaddr <$> l) =
  MkResolver d n p s (so ++ l) o t or i f r si c nm.
Proof using.
  revert so. induction l as [|x l IH]; intros so; [by rewrite app_nil_r|]. cbn [fmap list_fmap foldl spec_op].
  by rewrite IH, <-app_assoc.
Qed.

(** A line that counts sets its field. *)
Lemma so_far_step (f g : token → list option_words) t word more len :
  g t = f t ++ [(word, more, len)] → (∀ t', t' ≠ t → g t' = f t') →
  (t ≠ TOKEN_NAMESERVER → f t = []) →
  foldl spec_op (resolver_so_far f) (keyword_calls t word more len).1 = resolver_so_far g ∧
  Z.lor (said_flags (f TOKEN_FLAGS)) (keyword_calls t word more len).2 = said_flags (g TOKEN_FLAGS).
Proof using.
  intros Hg Ho Hf. unfold resolver_so_far, resolver_said.
  destruct t; cbn [keyword_calls fst snd]; repeat match goal with |- context [g ?x] => rewrite (Ho x) by done end; rewrite ?Hg; try (rewrite Hf by done);
    cbn [app]; rewrite ?Z.lor_0_r; (split; [|done]);
    unfold said_interface, said_domain, said_options, said_search, said_sortlist, said_servers; cbn [one_word all_words]; unfold compose.
  - by destruct (unless_empty _).
  - done.
  - destruct (0 <? _); done.
  - rewrite omap_app. cbn [omap list_omap]. destruct (_dnsinfo_parse_nameserver word) as [sa|]; [|by rewrite app_nil_r].
    cbn [calls_of foldl spec_op]. f_equal. unfold loopback_flags. rewrite existsb_app. cbn [existsb]. rewrite orb_false_r.
    by destruct (existsb _ _), (default false (is_loopback sa)).
  - by destruct (join_options _ _).
  - by destruct (number_upto _ _).
  - by rewrite foldl_search_calls.
  - by destruct (number_upto _ _).
  - by rewrite foldl_sortaddr_calls.
  - by destruct (number_upto _ _).
Qed.

(** The limits are those of the table. *)
Lemma entry_limit line t max word more len : line_entry line = Some (t, max, word, more, len) → max = max_count t.
Proof using.
  unfold line_entry. destruct (line_words line.1) as [|keyword words]; [done|]. destruct (is_comment keyword); [done|].
  destruct (find_token keyword) as [[t' m]|] eqn:E; [|done]. destruct words; [done|]. intros [= <- <- _ _ _].
  unfold find_token in E. apply fmap_Some in E as (x & E & [= -> ->]). apply List.find_some in E as [Hx _].
  repeat (destruct Hx as [<-|Hx]; [done|]). done.
Qed.
Definition limited (l : list flat_entry) : Prop := Forall (λ '(t, max, _, _, _), max = max_count t) l.
Lemma file_entries_limited text : limited (file_entries text).
Proof using.
  unfold limited, file_entries. rewrite Forall_forall. intros e (line & _ & E)%list_elem_of_omap.
  destruct e as [[[[t max] word] more] len]. by eapply entry_limit.
Qed.

Lemma entries_snoc l t max word more len t' :
  entries_of (l ++ [(t, max, word, more, len)]) t' =
  entries_of l t' ++ (if decide (t = t') then [(word, more, len)] else []).
Proof using. unfold entries_of. rewrite omap_app. cbn [omap list_omap]. by destruct (decide (t = t')). Qed.

(** What has been called while the lines [l] were read. *)
Record so_far (cs : calls_state) (l : list flat_entry) : Prop := {
  far_count t : cs_count cs t = length (entries_of l t);
  far_flags : cs_flags cs = said_flags (counted l TOKEN_FLAGS);
  far_some : is_Some (cs_calls cs) ↔ l ≠ [];
  far_calls : foldl spec_op empty_resolver (default [] (cs_calls cs)) = resolver_so_far (counted l);
}.

Lemma counted_over l t max word more len t' : (max_count t <= length (entries_of l t))%nat →
  counted (l ++ [(t, max, word, more, len)]) t' = counted l t'.
Proof using.
  intros H. unfold counted. rewrite entries_snoc. destruct (decide (t = t')) as [->|]; [|by rewrite app_nil_r].
  by apply take_app_le.
Qed.
Lemma counted_within l t max word more len : (length (entries_of l t) < max_count t)%nat →
  let l' := l ++ [(t, max, word, more, len)] in
  counted l' t = counted l t ++ [(word, more, len)] ∧ (∀ t', t' ≠ t → counted l' t' = counted l t') ∧
  (t ≠ TOKEN_NAMESERVER → counted l t = []).
Proof using.
  intros H. cbn zeta. unfold counted. split; [|split].
  - rewrite entries_snoc, decide_True by done.
    rewrite !take_ge; [done|lia|rewrite length_app; cbn; lia].
  - intros t' Hn. rewrite entries_snoc, decide_False by done. by rewrite app_nil_r.
  - intros Hn. assert (Hm : max_count t = 1%nat) by (by destruct t). rewrite Hm in H.
    by destruct (entries_of l t); [rewrite take_nil|cbn in H; lia].
Qed.

Lemma so_far_ok l : limited l → so_far (calls_entries l) l.
Proof using.
  unfold calls_entries. induction l as [|e l IH] using rev_ind; intros Hl.
  { split; [done|done|split; [by intros []|done]|done]. }
  apply Forall_app in Hl as [Hl He]. rewrite Forall_singleton in He. specialize (IH Hl). clear Hl.
  rewrite foldl_app. cbn [foldl]. set (cs := foldl calls_entry _ l) in *. clearbody cs. destruct IH as [Hc Hf Hs Hr].
  destruct e as [[[[t max] word] more] len]. subst max. cbn [calls_entry]. rewrite Hc.
  assert (Hcount : ∀ t', (if decide (t' = t) then S (length (entries_of l t)) else cs_count cs t') =
    length (entries_of (l ++ [(t, max_count t, word, more, len)]) t')).
  { intros t'. rewrite entries_snoc, length_app. destruct (decide (t' = t)) as [->|Hn].
    - rewrite decide_True by done. cbn. lia.
    - rewrite decide_False by (by intros ->). rewrite Hc. cbn. lia. }
  destruct (Nat.ltb_spec (max_count t) (S (length (entries_of l t)))) as [H|H].
  - assert (Hle : (max_count t <= length (entries_of l t))%nat) by lia.
    assert (Hne : l ≠ []) by (intros ->; destruct t; vm_compute in H; lia).
    split; cbn [cs_count cs_flags cs_calls]; [done|by rewrite counted_over| |].
    + split; [by intros _ ?%app_eq_nil; naive_solver|by intros _; apply Hs].
    + rewrite Hr. unfold resolver_so_far, resolver_said. by rewrite !counted_over.
  - destruct (counted_within l t (max_count t) word more len ltac:(lia)) as (H1 & H2 & H3).
    destruct (so_far_step (counted l) _ t word more len H1 H2 H3) as [E1 E2].
    destruct (keyword_calls t word more len) as [calls flags]. cbn [fst snd] in E1, E2.
    split; cbn [cs_count cs_flags cs_calls default from_option id]; [done|by rewrite Hf| |].
    + split; [by intros _ ?%app_eq_nil; naive_solver|by eexists].
    + by rewrite foldl_app, Hr.
Qed.

(** Reading a file comes to its resolver. *)
Lemma file_calls_resolver default_flags path l : limited l →
  match file_calls default_flags path l with
  | Some calls => l ≠ [] ∧ foldl spec_op empty_resolver calls = file_resolver default_flags path l
  | None => l = []
  end.
Proof using.
  intros Hl. destruct (so_far_ok l Hl) as [Hc Hf Hs Hr]. unfold file_calls.
  destruct (cs_calls (calls_entries l)) as [calls|]; cbn [mbind option_bind].
  2: { destruct l; [done|]. destruct (proj2 Hs) as [? ?]; done. }
  split; [by apply Hs|]. cbn [default from_option id] in Hr. rewrite !foldl_app, Hr, Hf, Hc.
  assert (Hz : (length (entries_of l TOKEN_DOMAIN) =? 0)%nat = match counted l TOKEN_DOMAIN with [] => true | _ => false end).
  { unfold counted. by destruct (entries_of l TOKEN_DOMAIN). }
  rewrite Hz. unfold file_resolver, resolver_so_far, resolver_said. cbn zeta.
  by destruct (counted l TOKEN_DOMAIN); cbn [foldl spec_op dr_flags].
Qed.
End resolver.

(** ** The directory *)

Section directory.
Context {N : Network} {AI : AddressInfo} {R : Reachability}.

(** The calls for the resolvers that are added, given the default flags. *)
Definition flatfile_calls (fs : files) (default_flags : Z) : list (list resolver_op) :=
  omap (path_calls fs default_flags _PATH_RESOLVER_DIR) (resolver_files fs).
(** The names of files are C strings. *)
Definition files_ok (fs : files) : Prop := Forall no_nul (default [] (listing fs)).

Lemma flatfile_calls_ok {AL : AddressInfoLaws} fs default_flags : files_ok fs →
  Forall (Forall op_ok) (flatfile_calls fs default_flags).
Proof.
  intros H. unfold flatfile_calls. pose proof (proj1 (Forall_forall _ _) H) as Hn. apply Forall_forall.
  intros calls (name & [_ Hin]%list_elem_of_filter & E)%list_elem_of_omap. unfold path_calls in E.
  destruct (contents fs _) as [text|]; [|done]. cbn [mbind option_bind] in E.
  eapply file_calls_ok; [by apply Hn|done].
Qed.

Lemma add_files_ok garbage fs default_flags s :
  Forall (Forall op_ok) (flatfile_calls fs default_flags) →
  Forall (λ calls, raw_fits (foldl raw_op (zero_header, []) calls)) (flatfile_calls fs default_flags) →
  _dnsinfo_flatfile_add_resolvers garbage fs default_flags s =
  for_each (flatfile_calls fs default_flags) (λ calls, add_resolver_block garbage (build_resolver garbage calls)) s.
Proof.
  unfold _dnsinfo_flatfile_add_resolvers, flatfile_calls. revert s.
  induction (resolver_files fs) as [|name names IH]; intros s Hops Hf; [done|]. cbn [omap list_omap] in Hops, Hf |- *.
  cbn [for_each]. pose proof (create_resolver_calls garbage fs default_flags _PATH_RESOLVER_DIR name) as H.
  destruct (path_calls fs default_flags _PATH_RESOLVER_DIR name) as [calls|].
  - inversion Hops as [|? ? Ho Hops']; subst. inversion Hf as [|? ? Hc Hf']; subst.
    destruct (H Ho Hc) as (blk & E & Ec). rewrite Ec. cbn [deref for_each]. rewrite bind_ret, E.
    unfold bind. destruct (add_resolver_block _ _ _) as [[[] s']|]; [|done]. by apply IH.
  - rewrite H. cbn [deref]. rewrite bind_ret. by apply IH.
Qed.

(** C31: reading a file of /etc/resolver comes to the resolver that the file says, each of
    its fields given by the lines with one keyword, in whatever order the lines are: the
    first such line, of the servers the first three; words that make no sense are passed
    over, a file without a domain line is for the domain it is named after, and one
    without flags gets the default ones. All calls are made with proper arguments, so that
    nothing crashes as long as the resolver fits into 32 bits; a file that cannot be read
    or has no keyword with an option gives no resolver. *)
Theorem flatfile_create_resolver_reads {AL : AddressInfoLaws} garbage fs default_flags dir path : no_nul path →
  let l := default [] (file_entries <$> contents fs (file_name dir path)) in
  if bool_decide (l = []) then
    _dnsinfo_flatfile_create_resolver garbage fs default_flags dir path = Some None
  else ∃ calls,
    Forall op_ok calls ∧
    foldl spec_op empty_resolver calls = file_resolver default_flags path l ∧
    (raw_fits (foldl raw_op (zero_header, []) calls) →
     ∃ blk, build_resolver garbage calls = Some blk ∧
       _dnsinfo_flatfile_create_resolver garbage fs default_flags dir path = Some (Some blk)).
Proof.
  intros Hp. cbn zeta. pose proof (create_resolver_calls garbage fs default_flags dir path) as H. unfold path_calls in H.
  destruct (contents fs (file_name dir path)) as [text|] eqn:Et; cbn [mbind option_bind fmap option_fmap option_map default from_option id] in H |- *; [|done].
  pose proof (file_calls_resolver default_flags path (file_entries text) (file_entries_limited text)) as Hr.
  destruct (file_calls default_flags path (file_entries text)) as [calls|] eqn:E.
  - destruct Hr as [Hne Hr]. rewrite bool_decide_false by done. exists calls.
    pose proof (file_calls_ok default_flags path text calls Hp E) as Hops. split; [done|]. split; [done|]. by apply H.
  - by rewrite bool_decide_true.
Qed.
End directory.
