(* ===== verification/DnsMerge.v ===== *)
(** * IPMonitor: the DNS dictionary of a service

    The part of [ip_plugin.c] that merges what the dynamic store holds of a service's
    DNS, under [Setup:] and under [State:], into the dictionary kept for the service
    ([get_dns_changes]), and what the dictionaries of its addresses say
    ([service_contains_protocol], [service_is_scoped_only]). *)

From stdpp Require Import sorting.
From S2P Require Import Prelude RouteTypes RouteList DnsCreate RouteDict RouteMake NwiState NwiInfo.

Local Open Scope Z_scope.

(** ** What is called of CoreFoundation, libc and the resolver library

    [CFArraySortValues] is given a comparison that may crash ([None]); [inet_aton]
    answers the four bytes of an address, [sa_dst_compare_no_dependencies] is positive
    or zero if the IPv4 address is preferred to the IPv6 address, and [CFCopyDescription]
    is what [%@] puts into a format for anything but a string. *)
Class CoreFoundation := {
  CFEqual : CFType → CFType → bool;
  CFCopyDescription : CFType → string;
  CFStringTrimWhitespace : string → string;
  CFStringCompare : string → string → comparison;
  CFArraySortValues : (CFDict → CFDict → option comparison) → list CFDict → option (list CFDict);
  inet_aton : string → option (list byte);
  sa_dst_compare_no_dependencies : address → address → Z;
}.

(** A comparison that sorts a list: the elements are different, it answers for every two
    of them, the opposite for the other order, and transitively. *)
Definition consistent {A} (cmp : A → A → option comparison) (l : list A) : Prop :=
  NoDup l ∧
  (∀ x y, x ∈ l → y ∈ l → x ≠ y → ∃ c, cmp x y = Some c ∧ cmp y x = Some (CompOpp c)) ∧
  (∀ x y z, x ∈ l → y ∈ l → z ∈ l → x ≠ y → y ≠ z → x ≠ z →
    cmp x y ≠ Some Gt → cmp y z ≠ Some Gt → cmp x z ≠ Some Gt).

(** What their documentation says. An array is sorted in place: its values are only
    reordered, and they are in order if the comparison is one. *)
Class CoreFoundationLaws `{!CoreFoundation} : Prop := {
  CFEqual_refl v : CFEqual v v = true;
  CFEqual_sym v w : CFEqual v w = CFEqual w v;
  CFEqual_string v s : CFEqual v (CFString s) = match v with CFString s' => String.eqb s' s | _ => false end;
  CFEqual_keys d1 d2 : CFEqual (CFDictionary d1) (CFDictionary d2) = true → dom d1 = dom d2;
  CFStringCompare_opp s1 s2 : CFStringCompare s2 s1 = CompOpp (CFStringCompare s1 s2);
  CFStringCompare_trans s1 s2 s3 :
    CFStringCompare s1 s2 ≠ Gt → CFStringCompare s2 s3 ≠ Gt → CFStringCompare s1 s3 ≠ Gt;
  CFArraySortValues_some cmp l :
    (∀ x y, x ∈ l → y ∈ l → is_Some (cmp x y)) → is_Some (CFArraySortValues cmp l);
  CFArraySortValues_perm cmp l l' : CFArraySortValues cmp l = Some l' → l' ≡ₚ l;
  CFArraySortValues_sorted cmp l l' :
    consistent cmp l → CFArraySortValues cmp l = Some l' → StronglySorted (λ x y, cmp x y ≠ Some Gt) l';
  inet_aton_size s a : inet_aton s = Some a → length a = 4%nat;
}.

Section equal.
Context `{!CoreFoundation}.

(** [_SC_CFEqual]: NULL equals NULL only. *)
Definition _SC_CFEqual (val1 val2 : option CFType) : bool :=
  match val1, val2 with
  | Some val1, Some val2 => CFEqual val1 val2
  | None, None => true
  | _, _ => false
  end.

(** [CFArrayContainsValue], over the whole of an array, and [CFSetContainsValue]. *)
Definition CFArrayContainsValue (l : list CFType) (value : CFType) : bool := existsb (CFEqual value) l.

(** [%@] *)
Definition format_object (value : CFType) : string :=
  match value with CFString s => s | value => CFCopyDescription value end.

(** ** Merging two dictionaries *)

Definition ALLOW_EMPTY_STRING : Z := 0x1.

Definition sanitize_prop (val : option CFType) (flags : Z) : option CFType :=
  match val with
  | Some (CFString val) =>
      let str := CFStringTrimWhitespace val in
      if (Z.land flags ALLOW_EMPTY_STRING =? 0) && (String.length str =? 0)%nat then None
      else Some (CFString str)
  | val => val
  end.

(** [S_append_state] is set from the plug-in's property list. *)
Variable S_append_state : bool.

Definition merge_array_prop (dict : CFDict) (key : string) (state_dict setup_dict : option CFDict)
    (flags : Z) (append : bool) : CFDict :=
  let setup_prop := setup_dict ≫= (λ d, get_array d key) in
  let state_prop := state_dict ≫= (λ d, get_array d key) in
  match setup_prop, state_prop with
  | None, None => dict
  | _, _ =>
      let from_setup := omap (λ val, sanitize_prop (Some val) flags) (default [] setup_prop) in
      let from_state :=
        match state_prop with
        | Some state_prop =>
            if match setup_prop with None => true | Some _ => S_append_state end
            then omap (λ val,
                   val ← sanitize_prop (Some val) flags;
                   if append || negb (CFArrayContainsValue from_setup val) then Some val else None) state_prop
            else []
        | None => []
        end in
      let merge_prop := from_setup ++ from_state in
      if (0 <? length merge_prop)%nat then <[key := CFArray merge_prop]> dict else dict
  end.

Definition pick_prop (dict : CFDict) (key : string) (state_dict setup_dict : option CFDict) (flags : Z)
    : CFDict :=
  let val := setup_dict ≫= (λ d, sanitize_prop (d !! key) flags) in
  let val := match val with Some val => Some val | None => state_dict ≫= (λ d, sanitize_prop (d !! key) flags) end in
  match val with Some val => <[key := val]> dict | None => dict end.
End equal.

(** ** Servers *)

(** [ProtocolFlags] *)
Definition kProtocolFlagsNone : Z := 0x0.
Definition kProtocolFlagsIPv4 : Z := 0x1.
Definition kProtocolFlagsIPv6 : Z := 0x2.

Definition IN6_IS_ADDR_MC_LINKLOCAL (a : address) : bool :=
  match a with
  | b0 :: b1 :: _ => bool_decide (b0 = xff) && (Z.land (Z_of_byte b1) 0x0f =? 0x02)
  | _ => false
  end.
Definition IN6_IS_ADDR_LOOPBACK (a : address) : bool := bool_decide (a = in6addr_loopback).

(** [CFStringFind(addr, CFSTR("%"), 0).location == kCFNotFound] *)
Definition no_percent (s : string) : bool :=
  forallb (λ a, negb (Ascii.eqb a "%"%char)) (String.list_ascii_of_string s).

Section servers.
Context `{!Network, !CoreFoundation}.

(** What becomes of one address: [None] if it is ignored. *)
Definition accumulate_dns_server (active_protos : Z) (interface : option CFType) (addr : CFType)
    : option CFType :=
  match cfstring_to_ipvx AF_INET (Some addr), cfstring_to_ipvx AF_INET6 (Some addr) with
  | (true, ip_addr), _ =>
      if negb (has active_protos kProtocolFlagsIPv4) && negb (be_decode ip_addr =? INADDR_LOOPBACK)
      then None else Some addr
  | _, (true, ipv6_addr) =>
      if negb (has active_protos kProtocolFlagsIPv6) && negb (IN6_IS_ADDR_LOOPBACK ipv6_addr)
      then None
      else
        match addr, interface with
        | CFString s, Some interface =>
            if (IN6_IS_ADDR_LINKLOCAL ipv6_addr || IN6_IS_ADDR_MC_LINKLOCAL ipv6_addr) && no_percent s
            then Some (CFString (s +:+ "%" +:+ format_object interface)) else Some addr
        | _, _ => Some addr
        end
  | _, _ => None
  end.

Definition accumulate_dns_servers (in_servers : list CFType) (active_protos : Z)
    (out_servers : list CFType) (interface : option CFType) : list CFType :=
  out_servers ++ omap (accumulate_dns_server active_protos interface) in_servers.

(** The loop of [order_dns_servers]: [i] servers are done. [None] is an early return
    of the servers as they are. *)
Record order_state := MkOrder {
  favor_v4 : bool;
  ordered_servers : list CFType;
  proto_last : family;
  v4_dns1 : address;
  v4_n : nat;
  v6_dns1 : address;
  v6_n : nat;
}.

(** [CFArrayInsertValueAtIndex] *)
Definition insert_at {A} (i : nat) (x : A) (l : list A) : list A := take i l ++ x :: drop i l.

Definition order_dns_server (i : nat) (st : order_state) (server : CFType) : option order_state :=
  let '(MkOrder favor_v4 ordered proto_last v4_dns1 v4_n v6_dns1 v6_n) := st in
  counted ← match cfstring_to_ipvx AF_INET (Some server), cfstring_to_ipvx AF_INET6 (Some server) with
            | (true, ia), _ => Some (AF_INET, if (v4_n =? 0)%nat then ia else v4_dns1, S v4_n, v6_dns1, v6_n)
            | _, (true, ia6) => Some (AF_INET6, v4_dns1, v4_n, if (v6_n =? 0)%nat then ia6 else v6_dns1, S v6_n)
            | _, _ => None
            end;
  let '(proto, v4_dns1, v4_n, v6_dns1, v6_n) := counted in
  favor_v4 ← if (0 <? i)%nat && negb (bool_decide (proto = proto_last)) then
               if match proto with AF_INET => (v4_n =? 1)%nat | AF_INET6 => (v6_n =? 1)%nat end
               then Some (0 <=? sa_dst_compare_no_dependencies v4_dns1 v6_dns1)
               else None
             else Some favor_v4;
  let ordered :=
    match proto, favor_v4 with
    | AF_INET, true => insert_at (v4_n - 1) server ordered
    | AF_INET6, false => insert_at (v6_n - 1) server ordered
    | _, _ => ordered ++ [server]
    end in
  Some (MkOrder favor_v4 ordered proto v4_dns1 v4_n v6_dns1 v6_n).

Fixpoint order_loop (i : nat) (st : order_state) (servers : list CFType) : option order_state :=
  match servers with
  | [] => Some st
  | server :: servers => st ← order_dns_server i st server; order_loop (S i) st servers
  end.

Definition order_dns_servers (servers : list CFType) (active_protos : Z) : list CFType :=
  if negb (has active_protos kProtocolFlagsIPv4) || negb (has active_protos kProtocolFlagsIPv6) then servers
  else
    match order_loop 0 (MkOrder false [] AF_INET (any AF_INET) 0 (any AF_INET6) 0) servers with
    | Some st => ordered_servers st
    | None => servers
    end.

Variable S_append_state : bool.

Definition DNS_CONFIGURATION_SCOPED_QUERY_KEY : string := "__SCOPED_QUERY__".

Definition merge_dns_servers (new_dict : CFDict) (state_servers setup_servers : option (list CFType))
    (have_setup trust_state : bool) (active_protos : Z) (interface : option CFType) : CFDict :=
  match state_servers, setup_servers with
  | None, None => new_dict
  | _, _ =>
      let dns_servers := match setup_servers with
                         | Some setup_servers => accumulate_dns_servers setup_servers active_protos [] interface
                         | None => []
                         end in
      let have_dns_setup := (0 <? length dns_servers)%nat in
      let dns_servers :=
        match state_servers with
        | Some state_servers =>
            if (length dns_servers =? 0)%nat || S_append_state
            then accumulate_dns_servers (order_dns_servers state_servers active_protos) active_protos dns_servers None
            else dns_servers
        | None => dns_servers
        end in
      if (length dns_servers =? 0)%nat then new_dict
      else
        let new_dict := <["ServerAddresses" := CFArray dns_servers]> new_dict in
        if (have_setup && negb have_dns_setup) || (negb have_setup && trust_state)
        then <[DNS_CONFIGURATION_SCOPED_QUERY_KEY := CFBoolean true]> new_dict else new_dict
  end.
End servers.

(** ** The dictionary of a service *)

(** An entry of [S_service_state_dict]: for IPv4 and IPv6 the entity of the service and
    its route list ([ipdict_create]), its DNS, and the other entities. *)
Record service_dict := MkServiceDict {
  sd_ipv4 : option (CFDict * RouteList IPv4Addrs);
  sd_ipv6 : option (CFDict * RouteList IPv6Addrs);
  sd_dns : option CFDict;
  sd_others : gmap string CFType;
}.
Definition no_service : service_dict := MkServiceDict None None None ∅.

Definition ipdict_get_ifname {A} (dict : option (CFDict * RouteList A)) : option CFType :=
  dict ≫= (λ d, d.1 !! "InterfaceName").

Definition entity_routes_protocol {A} (entity_dict : option (CFDict * RouteList A)) : bool :=
  match entity_dict with
  | None => false
  | Some (_, routes) =>
      has (rl_flags routes) kRouteListFlagsHasDefault && negb (has (rl_flags routes) kRouteListFlagsExcludeNWI)
  end.

Definition service_contains_protocol (service : service_dict) (af : family) : bool :=
  match af with
  | AF_INET => entity_routes_protocol (sd_ipv4 service)
  | AF_INET6 => entity_routes_protocol (sd_ipv6 service)
  end.

(** [None] is a crash: the name is not a string, or an ifstate is outside the arrays of
    the state. *)
Definition service_is_scoped_only (S_nwi_state : option nwi_state) (service : service_dict) : option bool :=
  let interface := match sd_ipv4 service with
                   | Some _ => ipdict_get_ifname (sd_ipv4 service)
                   | None => ipdict_get_ifname (sd_ipv6 service)
                   end in
  match interface, S_nwi_state with
  | None, _ => Some false
  | Some (CFString interface), None => Some false
  | Some (CFString interface), Some s =>
      if (IFNAMSIZ <=? String.length interface)%nat then Some false
      else
        ifstate ← nwi_state_get_ifstate s (c_trunc interface);
        match ifstate with
        | None => Some false
        | Some ifstate =>
            x ← nwi_ifstate_list s !! ifstate;
            if has (ifs_flags x) NWI_IFSTATE_FLAGS_NOT_IN_LIST then Some true
            else
              alias ← nwi_ifstate_get_alias s ifstate
                        (if bool_decide (ifs_af x = Some AF_INET) then AF_INET6 else AF_INET);
              match alias with
              | None => Some false
              | Some alias =>
                  y ← nwi_ifstate_list s !! alias;
                  Some (has (ifs_flags y) NWI_IFSTATE_FLAGS_NOT_IN_LIST)
              end
        end
  | Some _, _ => None
  end.

Section changes.
Context `{!Network, !CoreFoundation}.
Variable S_append_state : bool.

(** [service_dict_set(serviceID, kSCEntNetDNS, new_val)]: whether it changed, and the
    dictionaries of the services; a service with nothing left is removed. *)
Definition service_dict_set_dns (S_service_state_dict : gmap string service_dict) (serviceID : string)
    (new_val : option CFDict) : bool * gmap string service_dict :=
  let service := default no_service (S_service_state_dict !! serviceID) in
  let changed := match new_val, sd_dns service with
                 | None, None => false
                 | None, Some _ => true
                 | Some _, None => true
                 | Some new_val, Some old_val => negb (CFEqual (CFDictionary new_val) (CFDictionary old_val))
                 end in
  let service := if changed then MkServiceDict (sd_ipv4 service) (sd_ipv6 service) new_val (sd_others service)
                 else service in
  (changed,
   if bool_decide (sd_ipv4 service = None) && bool_decide (sd_ipv6 service = None)
      && bool_decide (sd_dns service = None) && bool_decide (sd_others service = ∅)
   then delete serviceID S_service_state_dict
   else <[serviceID := service]> S_service_state_dict).

(** [get_service_setup_entity(info, serviceID, entity) != NULL] *)
Definition setup_service_key (serviceID entity : string) : string :=
  "Setup:/Network/Service/" +:+ serviceID +:+ "/" +:+ entity.
Definition has_setup_entity (services_info : CFDict) (serviceID entity : string) : bool :=
  match services_info !! setup_service_key serviceID entity with Some (CFDictionary _) => true | _ => false end.

Definition merge_list : list (string * Z * bool) :=
  [("SearchDomains", 0, false); ("SortList", 0, false);
   ("SupplementalMatchDomains", ALLOW_EMPTY_STRING, true); ("SupplementalMatchOrders", 0, true)].
Definition pick_list : list string :=
  ["DomainName"; "Options"; "SearchOrder"; "ServerPort"; "ServerTimeout"; "ServiceIdentifier";
   "SupplementalMatchDomainsNoSearch"].

(** The merged dictionary before the keys are removed that a service without addresses
    may not set. *)
Definition merge_dns (state_dict setup_dict : option CFDict) (have_setup trust_state : bool)
    (active_protos : Z) (interface : option CFType) : CFDict :=
  let servers (dict : option CFDict) := dict ≫= (λ d, get_array d "ServerAddresses") in
  let new_dict :=
    if active_protos =? kProtocolFlagsNone
    then merge_dns_servers S_append_state ∅ (servers state_dict) None false trust_state
           (Z.lor kProtocolFlagsIPv4 kProtocolFlagsIPv6) None
    else merge_dns_servers S_append_state ∅ (servers state_dict) (servers setup_dict) have_setup trust_state
           active_protos interface in
  let new_dict := foldl (λ dict '(key, flags, append),
    merge_array_prop S_append_state dict key state_dict setup_dict flags append) new_dict merge_list in
  foldl (λ dict key, pick_prop dict key state_dict setup_dict 0) new_dict pick_list.

(** [None] is [goto done] with the dictionary, the interface that is added to it. *)
Definition dns_without_service (new_dict : CFDict) (interface : option CFType)
    (state_dict setup_dict : option CFDict) : CFDict * option (option CFType) :=
  if bool_decide (is_Some (new_dict !! "SupplementalMatchDomains")) then
    let new_dict := delete "SortList" (delete "SearchOrder" (delete "SearchDomains" (delete "DomainName" new_dict))) in
    (new_dict,
     Some (match interface, setup_dict, state_dict with
           | None, None, Some state_dict => state_dict !! "InterfaceName"
           | _, _, _ => interface
           end))
  else if bool_decide (is_Some (new_dict !! "ServiceIdentifier")) then
    match interface, state_dict with
    | None, Some state_dict => (new_dict, Some (state_dict !! "InterfaceName"))
    | _, _ => (new_dict, None)
    end
  else (new_dict, None).

(** With [S_append_state], the domain is in the search list. *)
Definition append_domain (new_dict : CFDict) : CFDict :=
  match new_dict !! "DomainName", new_dict !! "SearchDomains" with
  | Some (CFString domain), Some (CFArray search) =>
      if CFArrayContainsValue search (CFString domain) then new_dict
      else <["SearchDomains" := CFArray (search ++ [CFString domain])]> new_dict
  | _, _ => new_dict
  end.

(** The dictionary that is kept and the interface that NAT64 is poked for if it is new. *)
Definition new_dns_dict (service : service_dict) (serviceID : string)
    (state_dict setup_dict : option CFDict) (info : CFDict) : option CFDict * option CFType :=
  match state_dict, setup_dict with
  | None, None => (None, None)
  | _, _ =>
      let v4 := entity_routes_protocol (sd_ipv4 service) in
      let v6 := entity_routes_protocol (sd_ipv6 service) in
      let have_setup := (v4 && has_setup_entity info serviceID "IPv4") ||
                        (v6 && has_setup_entity info serviceID "IPv6") in
      let active_protos := Z.lor (if v4 then kProtocolFlagsIPv4 else 0) (if v6 then kProtocolFlagsIPv6 else 0) in
      let interface := if v4 then ipdict_get_ifname (sd_ipv4 service) else None in
      let interface := match interface with
                       | None => if v6 then ipdict_get_ifname (sd_ipv6 service) else None
                       | Some _ => interface
                       end in
      let none := active_protos =? kProtocolFlagsNone in
      if none && bool_decide (state_dict = None) then (None, interface)
      else
        let setup_dict := if none then None else setup_dict in
        let trust_state :=
          match state_dict ≫= (λ d, get_string d "ConfirmedServiceID") with
          | Some state_serviceID => String.eqb serviceID state_serviceID
          | None => false
          end in
        let new_dict := merge_dns state_dict setup_dict have_setup trust_state active_protos interface in
        let '(new_dict, added) := if none then dns_without_service new_dict interface state_dict setup_dict
                                  else (new_dict, Some interface) in
        match added with
        | None => (Some new_dict, interface)
        | Some interface =>
            if bool_decide (new_dict = ∅) then (None, interface)
            else
              let new_dict := match interface with
                              | Some interface => <["InterfaceName" := interface]> new_dict
                              | None => new_dict
                              end in
              (Some (if S_append_state then append_domain new_dict else new_dict), interface)
        end
  end.

(** Whether the service changed, the dictionaries of the services, and the interface
    NAT64 is poked for. *)
Definition get_dns_changes (S_service_state_dict : gmap string service_dict) (serviceID : string)
    (state_dict setup_dict : option CFDict) (info : CFDict)
    : bool * gmap string service_dict * option CFType :=
  let '(new_dict, interface) :=
    new_dns_dict (default no_service (S_service_state_dict !! serviceID)) serviceID state_dict setup_dict info in
  let '(changed, services) := service_dict_set_dns S_service_state_dict serviceID new_dict in
  (changed, services, if changed then interface else None).
End changes.
