(* ===== verification/DnsList.v ===== *)
(** * The DNS configuration: the list of resolvers

    The part of [dns-configuration.c] that makes the resolvers, as dictionaries, from
    those of the services: supplemental, private, default, multicast, scoped and
    service-specific ones. [None] is a crash: a function of CoreFoundation is given an
    object of another type. *)

From S2P Require Import Prelude RouteTypes RouteList DnsCreate RouteDict NwiState DnsMerge.

Local Open Scope Z_scope.

(** ** Strings *)

(** [_SC_cfstring_to_cstring_ext]: the string in the buffer, of [bufLen] bytes or
    allocated to fit, or NULL. UTF-8 converts every string. *)
Inductive CFStringEncoding := kCFStringEncodingASCII | kCFStringEncodingUTF8.
Definition _SC_cfstring_to_cstring_ext (cfstr : string) (bufLen : option nat) (encoding : CFStringEncoding)
    : option string :=
  let converted := match encoding with kCFStringEncodingASCII => is_ascii cfstr | kCFStringEncodingUTF8 => true end in
  let fits := match bufLen with Some bufLen => (String.length cfstr + 1 <=? bufLen)%nat | None => true end in
  if converted && fits then Some (c_trunc cfstr) else None.

Fixpoint trim_leading (s : string) : string :=
  match s with
  | String a s' => if Ascii.eqb a "."%char then trim_leading s' else s
  | EmptyString => EmptyString
  end.
(** [CFStringFind] of an ASCII string is [contains]. *)
Definition CFStringHasSuffix (s suffix : string) : bool :=
  (String.length suffix <=? String.length s)%nat &&
  String.eqb (String.substring (String.length s - String.length suffix) (String.length suffix) s) suffix.
Fixpoint contains (s sub : string) : bool :=
  String.prefix sub s || match s with String _ s => contains s sub | EmptyString => false end.

Definition _SC_trimDomain (domain : option CFType) : option string :=
  match domain with
  | Some (CFString domain) =>
      let dots := String.prefix "." domain || CFStringHasSuffix domain "." in
      let domain := if dots then trim_trailing (trim_leading domain) else domain in
      if (String.length domain =? 0)%nat then None else Some domain
  | _ => None
  end.

(** ** Numbers *)

(** [isA_CFNumber(num) && CFNumberGetValue(num, kCFNumberSInt32Type, &value)] for a
    [uint32_t], and [CFNumberCreate] of one. *)
Definition number_u32 (num : option CFType) : option Z :=
  match num with Some (CFNumber value true) => Some (u32 value) | _ => None end.
Definition CFNumber_u32 (value : Z) : CFType := CFNumber (i32 value) true.

Definition is_true (val : option CFType) : bool :=
  match val with Some (CFBoolean b) => b | _ => false end.

(** [CFDictionaryContainsKey] *)
Definition has_key (dict : CFDict) (key : string) : bool := bool_decide (is_Some (dict !! key)).

(** ** Keys *)

Definition DNS_CONFIGURATION_FLAGS_KEY : string := "__FLAGS__".
Definition DNS_CONFIGURATION_IF_INDEX_KEY : string := "__IF_INDEX__".
Definition DNS_CONFIGURATION_ORDER_KEY : string := "__ORDER__".
Definition DNS_CONFIGURATION_CONFIGURATION_ID : string := "__CONFIGURATION_ID__".
Definition DEFAULT_SEARCH_ORDER : Z := 200000.

(** ** Flags *)

Definition dns_resolver_flags_all_queries (query_flags : Z) : bool :=
  Z.land query_flags DNS_RESOLVER_FLAGS_REQUEST_ALL_RECORDS =? DNS_RESOLVER_FLAGS_REQUEST_ALL_RECORDS.

Definition dns_resolver_flags_service (service : service_dict) (resolver_flags : Z) : Z :=
  let resolver_flags :=
    if negb (has resolver_flags DNS_RESOLVER_FLAGS_REQUEST_A_RECORDS) && service_contains_protocol service AF_INET
    then Z.lor resolver_flags DNS_RESOLVER_FLAGS_REQUEST_A_RECORDS else resolver_flags in
  if negb (has resolver_flags DNS_RESOLVER_FLAGS_REQUEST_AAAA_RECORDS) && service_contains_protocol service AF_INET6
  then Z.lor resolver_flags DNS_RESOLVER_FLAGS_REQUEST_AAAA_RECORDS else resolver_flags.

Definition add_dns_resolver_flags (S_nwi_state : option nwi_state) (resolver_flags : Z) (service : service_dict)
    : option Z :=
  scoped_only ← service_is_scoped_only S_nwi_state service;
  Some (if (scoped_only : bool) then resolver_flags else dns_resolver_flags_service service resolver_flags).

Definition merge_configuration_flags (newDNS : CFDict) (mergeFlags : Z) : CFDict :=
  let flags := default 0 (number_u32 (newDNS !! DNS_CONFIGURATION_FLAGS_KEY)) in
  <[DNS_CONFIGURATION_FLAGS_KEY := CFNumber_u32 (Z.lor flags mergeFlags)]> newDNS.

(** ** Adding a resolver *)

Section list.
Context `{!Network, !CoreFoundation}.
Variable S_if_nameindex_cache : option (list (string * Z)).

(** The index of the resolver's interface, if it is scoped to one. *)
Definition scoped_if_index (resolver : CFDict) : option (option Z) :=
  match resolver !! "InterfaceName" with
  | None => Some None
  | Some interface =>
      if CFEqual interface (CFString "*") then Some None
      else
        match interface with
        | CFString interface =>
            let if_index := match _SC_cfstring_to_cstring_ext interface (Some IFNAMSIZ) kCFStringEncodingASCII with
                            | Some if_name => my_if_nametoindex S_if_nameindex_cache if_name
                            | None => 0
                            end in
            let scoped := match number_u32 (resolver !! DNS_CONFIGURATION_FLAGS_KEY) with
                          | Some flags => has flags DNS_RESOLVER_FLAGS_SCOPED
                          | None => false
                          end in
            Some (if negb (if_index =? 0) && (scoped || is_true (resolver !! DNS_CONFIGURATION_SCOPED_QUERY_KEY))
                  then Some if_index else None)
        | _ => None
        end
  end.

(** The loop over the resolvers there are: [Some l] is an early return with the list [l]. *)
Fixpoint add_resolver_dup (done rest : list CFDict) (resolver : CFDict) (order : option (CFType * Z))
    : option (list CFDict) :=
  match rest with
  | [] => None
  | match_resolver :: rest =>
      if CFEqual (CFDictionary resolver) (CFDictionary match_resolver) then Some (done ++ match_resolver :: rest)
      else
        match order with
        | Some (order, order_val) =>
            if CFEqual (CFDictionary resolver) (CFDictionary (<["SearchOrder" := order]> match_resolver)) then
              let match_order_val := default 0 (number_u32 (match_resolver !! "SearchOrder")) in
              Some (done ++ (if order_val <? match_order_val then resolver else match_resolver) :: rest)
            else add_resolver_dup (done ++ [match_resolver]) rest resolver (Some (order, order_val))
        | None => add_resolver_dup (done ++ [match_resolver]) rest resolver None
        end
  end.

Definition add_resolver (resolvers : list CFDict) (resolver : CFDict) : option (list CFDict) :=
  let order := order ← resolver !! "SearchOrder"; order_val ← number_u32 (Some order); Some (order, order_val) in
  match add_resolver_dup [] resolvers resolver order with
  | Some resolvers => Some resolvers
  | None =>
      let n_resolvers := Z.of_nat (length resolvers) in
      let resolver :=
        <[DNS_CONFIGURATION_ORDER_KEY := CFNumber (i32 n_resolvers) (i32 n_resolvers =? n_resolvers)]> resolver in
      if_index ← scoped_if_index resolver;
      Some (resolvers ++ [match if_index with
                          | Some if_index => <[DNS_CONFIGURATION_IF_INDEX_KEY := CFNumber_u32 if_index]> resolver
                          | None => resolver
                          end])
  end.

Definition add_resolver_signature (resolver : CFDict) (rType : string) (cID : option string) (rIndex : Z)
    : CFDict :=
  <[DNS_CONFIGURATION_CONFIGURATION_ID :=
      CFString (rType +:+ ":" +:+ match cID with Some cID => " " +:+ cID | None => "" end +:+ " " +:+ fmt_d rIndex)]>
    resolver.

(** ** Supplemental resolvers *)

(** One domain of [add_supplemental], the [i]th: the resolver, and the next default
    order. *)
Definition supplemental_resolver (serviceID : string) (dns : CFDict) (orders : option (list CFType))
    (scoped : bool) (i : nat) (match_domain : string) (defaultOrder : Z) : CFDict * Z :=
  let match_resolver := if (0 <? String.length match_domain)%nat
                        then <["DomainName" := CFString match_domain]> dns else delete "DomainName" dns in
  let '(match_resolver, defaultOrder) :=
    match orders ≫= (λ orders, orders !! i) with
    | Some (CFNumber value exact) => (<["SearchOrder" := CFNumber value exact]> match_resolver, defaultOrder)
    | _ =>
        if has_key match_resolver "SearchOrder" then (match_resolver, defaultOrder)
        else (<["SearchOrder" := CFNumber_u32 defaultOrder]> match_resolver, u32 (defaultOrder + 1))
    end in
  let match_resolver :=
    delete "SortList" (delete "SearchDomains" (delete "SupplementalMatchOrders"
      (delete "SupplementalMatchDomains" match_resolver))) in
  (add_resolver_signature match_resolver (if scoped then "Supplemental/Scoped" else "Supplemental")
     (Some serviceID) (Z.of_nat i), defaultOrder).

Fixpoint supplemental_loop (resolvers : list CFDict) (serviceID : string) (dns : CFDict)
    (orders : option (list CFType)) (scoped : bool) (i : nat) (domains : list CFType) (defaultOrder : Z)
    : option (list CFDict) :=
  match domains with
  | [] => Some resolvers
  | CFString match_domain :: domains =>
      let '(match_resolver, defaultOrder) :=
        supplemental_resolver serviceID dns orders scoped i match_domain defaultOrder in
      resolvers ← add_resolver resolvers match_resolver;
      supplemental_loop resolvers serviceID dns orders scoped (S i) domains defaultOrder
  | _ :: domains => supplemental_loop resolvers serviceID dns orders scoped (S i) domains defaultOrder
  end.

Definition add_supplemental (resolvers : list CFDict) (serviceID : string) (dns : CFDict) (defaultOrder : Z)
    (scoped : bool) : option (list CFDict) :=
  match get_array dns "SupplementalMatchDomains", get_array dns "ServerAddresses" with
  | Some ((_ :: _) as domains), Some (_ :: _) =>
      match dns !! "SupplementalMatchOrders" with
      | None => supplemental_loop resolvers serviceID dns None scoped 0 domains defaultOrder
      | Some (CFArray orders) =>
          if (length domains =? length orders)%nat
          then supplemental_loop resolvers serviceID dns (Some orders) scoped 0 domains defaultOrder
          else Some resolvers
      | Some _ => Some resolvers
      end
  | _, _ => Some resolvers
  end.

(** The services, in the order [CFDictionaryGetKeysAndValues] lists them, and the order
    the user has set, if there is one. *)
Variables (services : list (string * service_dict)) (service_order : option (list CFType)).

(** Whether [add_supplemental_resolvers] passes over a service: only split
    configurations without addresses are scoped to another interface. *)
Definition not_for_interface (service : service_dict) (interface : option CFType)
    (scoped : option (CFType * service_dict)) : bool :=
  match scoped with
  | None => false
  | Some (scoped_interface, scoped_service) =>
      bool_decide (is_Some (sd_ipv4 service)) || bool_decide (is_Some (sd_ipv6 service)) ||
      (negb (_SC_CFEqual interface (Some (CFString "*"))) && negb (_SC_CFEqual interface (Some scoped_interface))) ||
      (dns_resolver_flags_service scoped_service 0 =? 0)
  end.

(** The configuration of a service with the interface it is for, and whether that is one
    the service is trusted with. *)
Definition supplemental_interface (dns : CFDict) (scoped_interface : option CFType) : CFDict * bool :=
  match scoped_interface, dns !! "InterfaceName" with
  | None, None => (dns, false)
  | Some scoped_interface, _ => (<["InterfaceName" := scoped_interface]> dns, false)
  | None, Some _ =>
      if is_true (dns !! DNS_CONFIGURATION_SCOPED_QUERY_KEY) then (dns, true)
      else (delete "InterfaceName" dns, false)
  end.

Definition supplemental_flags (service : service_dict) (scoped : option (CFType * service_dict)) (trusted : bool)
    : Z :=
  let newFlags := DNS_RESOLVER_FLAGS_SUPPLEMENTAL in
  match scoped with
  | Some (_, scoped_service) =>
      Z.lor (Z.lor newFlags DNS_RESOLVER_FLAGS_SCOPED) (dns_resolver_flags_service scoped_service 0)
  | None => if trusted then Z.lor newFlags (dns_resolver_flags_service service 0) else newFlags
  end.

Definition default_order (i : nat) (serviceID : string) : Z :=
  let defaultOrder :=
    u32 (DEFAULT_SEARCH_ORDER - DEFAULT_SEARCH_ORDER / 2 + DEFAULT_SEARCH_ORDER / 1000 * Z.of_nat i) in
  match service_order with
  | Some ((_ :: _) as order) =>
      if CFArrayContainsValue order (CFString serviceID) then defaultOrder
      else u32 (defaultOrder + DEFAULT_SEARCH_ORDER / 1000 * Z.of_nat (length services))
  | _ => defaultOrder
  end.

Fixpoint add_supplemental_resolvers_from (resolvers : list CFDict) (i : nat)
    (rest : list (string * service_dict)) (scoped : option (CFType * service_dict)) : option (list CFDict) :=
  match rest with
  | [] => Some resolvers
  | (serviceID, service) :: rest =>
      resolvers ←
        match sd_dns service with
        | None => Some resolvers
        | Some dns =>
            if not_for_interface service (dns !! "InterfaceName") scoped then Some resolvers
            else
              let '(newDNS, trusted) := supplemental_interface dns (fst <$> scoped) in
              add_supplemental resolvers serviceID
                (merge_configuration_flags newDNS (supplemental_flags service scoped trusted))
                (default_order i serviceID) (bool_decide (is_Some scoped))
        end;
      add_supplemental_resolvers_from resolvers (S i) rest scoped
  end.

(** [scoped] is the scoped interface and its service, if not NULL. *)
Definition add_supplemental_resolvers (resolvers : list CFDict) (scoped : option (CFType * service_dict))
    : option (list CFDict) :=
  add_supplemental_resolvers_from resolvers 0 services scoped.

(** ** Multicast and private resolvers *)

(** What the property list of the plug-in sets. *)
Variables S_mdns_timeout S_pdns_timeout : option CFType.

Definition domain_resolver (domain options : string) (order : Z) (timeout : option CFType) : CFDict :=
  let resolver : CFDict :=
    <["SearchOrder" := CFNumber_u32 order]> (<["Options" := CFString options]>
      (<["DomainName" := CFString domain]> ∅)) in
  match timeout with Some timeout => <["ServerTimeout" := timeout]> resolver | None => resolver end.

Fixpoint add_multicast_resolvers (resolvers : list CFDict) (i : nat) (multicastResolvers : list CFType)
    : option (list CFDict) :=
  match multicastResolvers with
  | [] => Some resolvers
  | domain :: multicastResolvers =>
      resolvers ←
        match _SC_trimDomain (Some domain) with
        | None => Some resolvers
        | Some domain =>
            let defaultOrder :=
              u32 (DEFAULT_SEARCH_ORDER + DEFAULT_SEARCH_ORDER / 2 + DEFAULT_SEARCH_ORDER / 1000 * Z.of_nat i) in
            add_resolver resolvers
              (add_resolver_signature (domain_resolver domain "mdns" defaultOrder S_mdns_timeout)
                 "Multicast DNS" None (Z.of_nat i))
        end;
      add_multicast_resolvers resolvers (S i) multicastResolvers
  end.

Fixpoint add_private_resolvers (resolvers : list CFDict) (i : nat) (privateResolvers : list CFType)
    : option (list CFDict) :=
  match privateResolvers with
  | [] => Some resolvers
  | domain :: privateResolvers =>
      resolvers ←
        match _SC_trimDomain (Some domain) with
        | None => Some resolvers
        | Some domain =>
            let defaultOrder :=
              u32 (DEFAULT_SEARCH_ORDER - DEFAULT_SEARCH_ORDER / 4 + DEFAULT_SEARCH_ORDER / 1000 * Z.of_nat i) in
            add_resolver resolvers
              (add_resolver_signature (domain_resolver domain "pdns" defaultOrder S_pdns_timeout)
                 "Private DNS" None (Z.of_nat i))
        end;
      add_private_resolvers resolvers (S i) privateResolvers
  end.

(** ** The search list *)

Definition compareBySearchOrder (dns1 dns2 : CFDict) : comparison :=
  let order1 := default DEFAULT_SEARCH_ORDER (number_u32 (dns1 !! "SearchOrder")) in
  let order2 := default DEFAULT_SEARCH_ORDER (number_u32 (dns2 !! "SearchOrder")) in
  if order1 =? order2 then
    match number_u32 (dns1 !! DNS_CONFIGURATION_ORDER_KEY), number_u32 (dns2 !! DNS_CONFIGURATION_ORDER_KEY) with
    | Some order1, Some order2 => if order1 =? order2 then Eq else if order1 <? order2 then Lt else Gt
    | _, _ => Eq
    end
  else if order1 <? order2 then Lt else Gt.

(** The domain a supplemental resolver has for the search list, if any. *)
Definition search_domain (dns : CFDict) : option string :=
  let excluded := match dns !! "Options" with
                  | Some (CFString options) => String.eqb options "pdns" || contains options "interface="
                  | _ => false
                  end in
  if excluded then None
  else
    supplementalDomain ← _SC_trimDomain (dns !! "DomainName");
    let noSearch := match dns !! "SupplementalMatchDomainsNoSearch" with
                    | Some (CFNumber noSearch true) => negb (noSearch =? 0)
                    | _ => false
                    end in
    if noSearch || CFStringHasSuffix supplementalDomain ".in-addr.arpa" || CFStringHasSuffix supplementalDomain ".ip6.arpa"
    then None else Some supplementalDomain.

(** One round of the loop; [None] is an insertion beyond the end. *)
Definition search_step (defaultOrder : Z) (st : list string * nat) (dns : CFDict)
    : option (list string * nat) :=
  let '(mySearchDomains, defaultSearchIndex) := st in
  match search_domain dns with
  | None => Some st
  | Some supplementalDomain =>
      let domainIndex := fst <$> list_find (λ d, d = supplementalDomain) mySearchDomains in
      let supplementalOrder := default DEFAULT_SEARCH_ORDER (number_u32 (dns !! "SearchOrder")) in
      if supplementalOrder <? defaultOrder then
        let '(mySearchDomains, defaultSearchIndex) :=
          match domainIndex with
          | Some domainIndex =>
              (delete domainIndex mySearchDomains,
               if (domainIndex <? defaultSearchIndex)%nat then (defaultSearchIndex - 1)%nat else defaultSearchIndex)
          | None => (mySearchDomains, defaultSearchIndex)
          end in
        if (defaultSearchIndex <=? length mySearchDomains)%nat
        then Some (insert_at defaultSearchIndex supplementalDomain mySearchDomains, S defaultSearchIndex)
        else None
      else
        match domainIndex with
        | None => Some (mySearchDomains ++ [supplementalDomain], defaultSearchIndex)
        | Some _ => Some st
        end
  end.

(** The domains of the default configuration itself. *)
Definition default_search_domains (defaultDomain : CFDict) : list string :=
  match get_array defaultDomain "SearchDomains" with
  | Some defaultSearchDomains => omap (λ search, _SC_trimDomain (Some search)) defaultSearchDomains
  | None => match _SC_trimDomain (defaultDomain !! "DomainName") with Some d => [d] | None => [] end
  end.

(** The search list, NULL if it is empty, and the configuration without it. *)
Definition extract_search_domains (defaultDomain : CFDict) (supplemental : option (list CFDict))
    : option (option (list string) * CFDict) :=
  let defaultOrder := default DEFAULT_SEARCH_ORDER (number_u32 (defaultDomain !! "SearchOrder")) in
  let mySearchDomains := default_search_domains defaultDomain in
  mySupplemental ← match supplemental with
                   | None => Some []
                   | Some supplemental =>
                       if (1 <? length supplemental)%nat
                       then CFArraySortValues (λ dns1 dns2, Some (compareBySearchOrder dns1 dns2)) supplemental
                       else Some supplemental
                   end;
  st ← foldl (λ st dns, st ← st; search_step defaultOrder st dns) (Some (mySearchDomains, 0%nat)) mySupplemental;
  Some (if (length st.1 =? 0)%nat then None else Some st.1,
        delete "SearchDomains" (delete "DomainName" defaultDomain)).

(** [CFDictionarySetValue(newDNS, kSCPropNetDNSSearchDomains, searchDomains)], if not NULL *)
Definition set_search_domains (newDNS : CFDict) (searchDomains : option (list string)) : CFDict :=
  match searchDomains with
  | Some searchDomains => <["SearchDomains" := CFArray (CFString <$> searchDomains)]> newDNS
  | None => newDNS
  end.

(** ** Scoped resolvers *)

(** The order in which the services are processed: the user's, then the other services. *)
Definition all_services_order : list CFType :=
  foldl (λ order '(serviceID, _),
    if CFArrayContainsValue order (CFString serviceID) then order else order ++ [CFString serviceID])
    (default [] service_order) services.

(** [CFDictionaryGetValue(services, serviceID)] *)
Definition find_service (serviceID : CFType) : option (string * service_dict) :=
  match serviceID with
  | CFString serviceID => List.find (λ s, String.eqb s.1 serviceID) services
  | _ => None
  end.

(** One service: the resolvers and the interfaces seen so far. *)
Definition add_scoped_resolver (resolvers : list CFDict) (seen : list CFType) (serviceID : CFType)
    : option (list CFDict * list CFType) :=
  match find_service serviceID with
  | None => Some (resolvers, seen)
  | Some (serviceID, service) =>
      match sd_dns service with
      | None => Some (resolvers, seen)
      | Some dns =>
          match get_array dns "ServerAddresses", dns !! "InterfaceName" with
          | Some (_ :: _), Some interface =>
              if CFEqual interface (CFString "*") then Some (resolvers, seen)
              else if has_key dns "ServiceIdentifier" then Some (resolvers, seen)
              else if CFArrayContainsValue seen interface then Some (resolvers, seen)
              else
                let seen := seen ++ [interface] in
                match interface with
                | CFString if_name =>
                    let if_index :=
                      match _SC_cfstring_to_cstring_ext if_name (Some IFNAMSIZ) kCFStringEncodingASCII with
                      | Some if_name => my_if_nametoindex S_if_nameindex_cache if_name
                      | None => 0
                      end in
                    if if_index =? 0 then Some (resolvers, seen)
                    else
                      extracted ← extract_search_domains dns None;
                      let newDNS := set_search_domains extracted.2 extracted.1 in
                      let dns_resolver_flags := dns_resolver_flags_service service 0 in
                      if dns_resolver_flags =? 0 then Some (resolvers, seen)
                      else
                        let newDNS := merge_configuration_flags newDNS
                                        (Z.lor DNS_RESOLVER_FLAGS_SCOPED dns_resolver_flags) in
                        let newDNS := delete "SupplementalMatchOrders" (delete "SupplementalMatchDomains" newDNS) in
                        resolvers ← add_resolver resolvers (add_resolver_signature newDNS "Scoped" (Some serviceID) 0);
                        resolvers ← add_supplemental_resolvers resolvers (Some (interface, service));
                        Some (resolvers, seen)
                | _ => None
                end
          | _, _ => Some (resolvers, seen)
          end
      end
  end.

Fixpoint scoped_loop (resolvers : list CFDict) (seen : list CFType) (order : list CFType)
    : option (list CFDict) :=
  match order with
  | [] => Some resolvers
  | serviceID :: order =>
      added ← add_scoped_resolver resolvers seen serviceID;
      scoped_loop added.1 added.2 order
  end.

Definition add_scoped_resolvers (scoped : list CFDict) : option (list CFDict) :=
  match services with
  | [] => Some scoped
  | _ => scoped_loop scoped [] all_services_order
  end.

(** ** Service-specific resolvers *)

Fixpoint add_service_specific_resolvers (resolvers : list CFDict) (seen : list CFType)
    (rest : list (string * service_dict)) : option (list CFDict) :=
  match rest with
  | [] => Some resolvers
  | (serviceID, service) :: rest =>
      match sd_dns service with
      | None => add_service_specific_resolvers resolvers seen rest
      | Some dns =>
          match dns !! "ServiceIdentifier" with
          | Some (CFNumber _ _ as dns_service_identifier) =>
              if CFArrayContainsValue seen dns_service_identifier
              then add_service_specific_resolvers resolvers seen rest
              else
                let newFlags := DNS_RESOLVER_FLAGS_REQUEST_ALL_RECORDS in
                extracted ← extract_search_domains dns None;
                let newDNS := set_search_domains extracted.2 extracted.1 in
                let newDNS := delete "SupplementalMatchOrders" (delete "SupplementalMatchDomains" newDNS) in
                let has_interface := has_key newDNS "InterfaceName" in
                let newDNS := if has_interface then <[DNS_CONFIGURATION_SCOPED_QUERY_KEY := CFBoolean true]> newDNS
                              else newDNS in
                resolvers ←
                  if has_interface then
                    let interfaceScopedDNS :=
                      merge_configuration_flags newDNS (Z.lor newFlags DNS_RESOLVER_FLAGS_SCOPED) in
                    add_resolver resolvers
                      (add_resolver_signature (delete "ServiceIdentifier" interfaceScopedDNS) "Service"
                         (Some serviceID) 0)
                  else Some resolvers;
                let newDNS :=
                  merge_configuration_flags newDNS (Z.lor newFlags DNS_RESOLVER_FLAGS_SERVICE_SPECIFIC) in
                resolvers ← add_resolver resolvers (add_resolver_signature newDNS "Service" (Some serviceID) 0);
                add_service_specific_resolvers resolvers (seen ++ [dns_service_identifier]) rest
          | _ => add_service_specific_resolvers resolvers seen rest
          end
      end
  end.

(** ** The default resolver *)

(** The resolvers, [orderAdded] and [searchDomains]. *)
Definition add_default_resolver (resolvers : list CFDict) (defaultResolver : option CFDict)
    : option (list CFDict * bool * option (list string)) :=
  let myDefault := default ∅ defaultResolver in
  let orderAdded := match number_u32 (myDefault !! "SearchOrder") with Some _ => false | None => true end in
  let myDefault := if orderAdded then <["SearchOrder" := CFNumber_u32 DEFAULT_SEARCH_ORDER]> myDefault
                   else myDefault in
  extracted ← extract_search_domains myDefault (Some resolvers);
  resolvers ← add_resolver resolvers (add_resolver_signature extracted.2 "Default" None 0);
  Some (resolvers, orderAdded, extracted.1).
End list.

(** [dns_configuration_init]: the timeouts for multicast and private DNS. *)
Definition dns_configuration_init (dict : option CFDict) : option CFType * option CFType :=
  let number key := match dict ≫= (λ d, d !! key) with
                    | Some (CFNumber value exact) => Some (CFNumber value exact)
                    | _ => None
                    end in
  (number "mdns_timeout"%string, number "pdns_timeout"%string).
