(* ===== verification/DnsSet.v ===== *)
(** * The DNS configuration: from the list of resolvers to what is published

    The part of [dns-configuration.c] that sorts the resolvers, builds the blocks of
    [dnsinfo_create.c] of them ([create_resolver]) and stores the configuration if it
    changed ([dns_configuration_set]). *)

From S2P Require Import Prelude RouteTypes RouteList DnsCreate DnsExpand DnsResolver RouteDict NwiState DnsFlat DnsMerge DnsList.

Local Open Scope Z_scope.
Local Open Scope c_scope.

(** ** The order of resolvers *)

(** [CFStringCreateArrayBySeparatingStrings(NULL, domain, CFSTR("."))] *)
Definition CFStringCreateArrayBySeparatingStrings (domain : string) : list string :=
  split_from (λ a, Ascii.eqb a "."%char) EmptyString domain.

Definition isScopedConfiguration (dns : CFDict) : option bool :=
  match dns !! DNS_CONFIGURATION_FLAGS_KEY with
  | None => Some false
  | Some (CFNumber flags true) => Some (has (u32 flags) DNS_RESOLVER_FLAGS_SCOPED)
  | Some (CFNumber _ false) => Some false
  | Some _ => None
  end.

Section order.
Context `{!CoreFoundation}.

(** The loop over the labels, from the last to the first; [Eq] if all are equal that both
    domains have, and then how many are left of each. *)
Fixpoint compare_labels (labels1 labels2 : list string) : comparison * (nat * nat) :=
  match labels1, labels2 with
  | label1 :: labels1, label2 :: labels2 =>
      match CFStringCompare label1 label2 with
      | Eq => compare_labels labels1 labels2
      | result => (result, (length labels1, length labels2))
      end
  | _, _ => (Eq, (length labels1, length labels2))
  end.

Definition compareDomain (dns1 dns2 : CFDict) : option comparison :=
  match dns1 !! "DomainName", dns2 !! "DomainName" with
  | None, _ => Some Lt
  | Some _, None => Some Gt
  | Some domain1, Some domain2 =>
      scoped1 ← isScopedConfiguration dns1;
      scoped2 ← isScopedConfiguration dns2;
      if negb (Bool.eqb scoped1 scoped2) then Some (if scoped1 : bool then Gt else Lt)
      else
        match domain1, domain2 with
        | CFString domain1, CFString domain2 =>
            let rev1 := CFStringHasSuffix domain1 ".arpa" in
            let rev2 := CFStringHasSuffix domain2 ".arpa" in
            if negb (Bool.eqb rev1 rev2) then Some (if rev1 then Gt else Lt)
            else
              let '(result, (n1, n2)) :=
                compare_labels (rev (CFStringCreateArrayBySeparatingStrings domain1))
                  (rev (CFStringCreateArrayBySeparatingStrings domain2)) in
              match result with
              | Eq => if (n2 <? n1)%nat then Some Lt else if (n1 <? n2)%nat then Some Gt
                      else Some (compareBySearchOrder dns1 dns2)
              | _ => Some result
              end
        | _, _ => None
        end
  end.
End order.

(** ** Building a resolver *)

Definition NS_MAXDNAME : nat := 1025.

Section create.
Context `{!Network, !CoreFoundation, !Reachability}.
Variable S_if_nameindex_cache : option (list (string * Z)).
Variable garbage : nat → byte.

Definition my_if_indextoname (idx : Z) : option string :=
  match S_if_nameindex_cache with
  | None => if_indextoname idx
  | Some cache => (λ scan, str_take 15 (c_trunc scan.1)) <$> List.find (λ scan, scan.2 =? idx) cache
  end.

(** [_SC_string_to_sockaddr(str, AF_UNSPEC, buf, sizeof(struct sockaddr_in6))]: the 28
    bytes at [buf]. *)
Definition _SC_string_to_sockaddr (str : string) : option (list byte) :=
  match inet_aton str with
  | Some sin_addr => Some ([x10; x02; x00; x00] ++ sin_addr ++ replicate 20 x00)
  | None =>
      match inet_pton AF_INET6 str with
      | Some sin6_addr =>
          let scope_id := match (split_at "%"%char str).2 with Some name => u32 (if_nametoindex name) | None => 0 end in
          let '(sin6_addr, scope_id) :=
            if IN6_IS_ADDR_LINKLOCAL sin6_addr || IN6_IS_ADDR_MC_LINKLOCAL sin6_addr then
              (take 2 sin6_addr ++ [x00; x00] ++ drop 4 sin6_addr,
               if scope_id =? 0 then be_decode (take 2 (drop 2 sin6_addr)) else scope_id)
            else (sin6_addr, scope_id) in
          Some ([x1c; x1c] ++ replicate 6 x00 ++ sin6_addr ++ le_encode 4 scope_id)
      | None => None
      end
  end.

(** A link-local address without a scope gets that of the resolver's interface. *)
Definition set_scope (targetInterfaceIndex : Z) (addr : list byte) : list byte :=
  if bool_decide (sockaddr_family addr = Some DnsCreate.AF_INET6) &&
     IN6_IS_ADDR_LINKLOCAL (take 16 (drop 8 addr)) &&
     (le_decode (drop 24 addr) =? 0) && negb (targetInterfaceIndex =? 0)
  then take 24 addr ++ le_encode 4 targetInterfaceIndex else addr.

(** The [sa_len] bytes of the server in a string. *)
Definition nameserver_of (targetInterfaceIndex : Z) (str : CFType) : option (list byte) :=
  match str with
  | CFString str =>
      buf ← _SC_cfstring_to_cstring_ext str (Some 64%nat) kCFStringEncodingASCII;
      addr ← _SC_string_to_sockaddr buf;
      let addr := set_scope targetInterfaceIndex addr in
      len ← sockaddr_len addr;
      Some (take (Z.to_nat len) addr)
  | _ => None
  end.

Definition sortaddr_of (str : CFType) : option (list byte) :=
  match str with
  | CFString str =>
      buf ← _SC_cfstring_to_cstring_ext str (Some 128%nat) kCFStringEncodingASCII;
      let '(buf, slash) := split_at "/"%char buf in
      address ← inet_aton buf;
      mask ← match slash with
             | Some mask => inet_aton mask
             | None => be_encode 4 <$> class_mask (be_decode address)
             end;
      Some (address ++ mask)
  | _ => None
  end.

(** A string for one of the functions of [dnsinfo_create.c]. *)
Definition domain_of (str : CFType) : option string :=
  match str with
  | CFString str =>
      if (0 <? String.length str)%nat
      then _SC_cfstring_to_cstring_ext str (Some NS_MAXDNAME) kCFStringEncodingUTF8 else None
  | _ => None
  end.

Definition with_string (val : option string) (m : string → C block unit) : C block unit :=
  match val with Some s => m s | None => ret tt end.
Definition with_number (val : option CFType) (m : Z → C block unit) : C block unit :=
  match val with Some (CFNumber value true) => m value | _ => ret tt end.
Definition with_array (val : option CFType) (m : CFType → C block unit) : C block unit :=
  match val with Some (CFArray list) => for_each list m | _ => ret tt end.

Definition create_resolver_interface (num : option CFType) : C block Z :=
  match num with
  | Some (CFNumber if_index true) =>
      let if_name := if if_index =? 0 then None else my_if_indextoname (u32 if_index) in
      _dns_resolver_set_if_index garbage (u32 if_index) if_name;;
      ret (match if_name with Some _ => u32 if_index | None => 0 end)
  | _ => ret 0
  end.

Definition create_resolver (dns : CFDict) : option block :=
  snd <$>
    (with_string (dns !! "DomainName" ≫= domain_of) (_dns_resolver_set_domain garbage);;
     with_array (dns !! "SearchDomains") (λ str, with_string (domain_of str) (_dns_resolver_add_search garbage));;
     let* targetInterfaceIndex := create_resolver_interface (dns !! DNS_CONFIGURATION_IF_INDEX_KEY) in
     with_number (dns !! DNS_CONFIGURATION_FLAGS_KEY) (λ flags, _dns_resolver_set_flags (u32 flags));;
     with_array (dns !! "ServerAddresses") (λ str,
       match nameserver_of targetInterfaceIndex str with
       | Some addr => _dns_resolver_add_nameserver garbage addr
       | None => ret tt
       end);;
     with_number (dns !! "SearchOrder") (λ order, _dns_resolver_set_order (u32 order));;
     with_array (dns !! "SortList") (λ str,
       match sortaddr_of str with
       | Some sortaddr => _dns_resolver_add_sortaddr garbage sortaddr
       | None => ret tt
       end);;
     with_number (dns !! "ServerPort") (λ port, _dns_resolver_set_port (port mod 2 ^ 16));;
     with_number (dns !! "ServerTimeout") (λ timeout, _dns_resolver_set_timeout (u32 timeout));;
     with_string
       (match dns !! "Options" with
        | Some (CFString str) => _SC_cfstring_to_cstring_ext str None kCFStringEncodingUTF8
        | _ => None
        end) (_dns_resolver_set_options garbage);;
     with_number (dns !! "ServiceIdentifier") (λ id, _dns_resolver_set_service_identifier (u32 id));;
     with_string
       (match dns !! DNS_CONFIGURATION_CONFIGURATION_ID with
        | Some (CFString str) =>
            if (0 <? String.length str)%nat then _SC_cfstring_to_cstring_ext str None kCFStringEncodingUTF8 else None
        | _ => None
        end) (_dns_resolver_set_configuration_identifier garbage)) _dns_resolver_create.
End create.

(** ** Flags of the default configuration *)

Definition needsMergeWithDefaultConfiguration (dns : CFDict) : option bool :=
  match dns !! DNS_CONFIGURATION_FLAGS_KEY with
  | None => Some true
  | Some (CFNumber flags true) =>
      let flags := u32 flags in
      Some (negb (dns_resolver_flags_all_queries flags) &&
            negb (has flags DNS_RESOLVER_FLAGS_SCOPED || has flags DNS_RESOLVER_FLAGS_SERVICE_SPECIFIC))
  | Some (CFNumber _ false) => Some true
  | Some _ => None
  end.

(** [CFDictionaryApplyFunction(services, add_dns_resolver_flags, &default_resolver_flags)] *)
Definition default_flags (S_nwi_state : option nwi_state) (services : list (string * service_dict)) : option Z :=
  foldl (λ flags s, flags ← flags; add_dns_resolver_flags S_nwi_state flags s.2) (Some 0) services.

(** ** Publishing *)

(** [signature_last], and what [_dns_configuration_store] keeps for the clients. *)
Record dns_state := MkDnsState {
  signature_last : list byte;
  S_dns_info : option (list byte);
}.

Section set.
Context `{!Network, !CoreFoundation, !Reachability, !AddressInfo}.
Variable S_if_nameindex_cache : option (list (string * Z)).
Variables S_mdns_timeout S_pdns_timeout : option CFType.
Variable S_nwi_state : option nwi_state.
(** What memory holds that is allocated, where the copy that is logged is, the digest,
    the clock, and the files in /etc/resolver. *)
Variables (garbage : nat → byte) (base : Z) (sha1 : list byte → list byte) (now : Z).
Variable resolver_dir : files.

(** The removal of empty resolvers, from index [i] down to 1. *)
Definition is_empty_resolver (resolver : CFDict) : bool :=
  negb (has_key resolver "DomainName") && negb (has_key resolver "SearchDomains") &&
  negb (has_key resolver "ServerAddresses").
Fixpoint cleanup (i : nat) (resolvers : list CFDict) : option (list CFDict) :=
  match i with
  | O => Some resolvers
  | S i' =>
      resolver ← resolvers !! i;
      cleanup i' (if is_empty_resolver resolver then delete i resolvers else resolvers)
  end.

(** The default resolver with its search list, without an order nobody set if only
    resolvers with a domain or an interface follow. *)
Definition update_default (resolvers : list CFDict) (orderAdded : bool) (searchDomains : option (list string))
    : option (list CFDict) :=
  first ← resolvers !! 0%nat;
  let myDefault := set_search_domains first searchDomains in
  myDefault ←
    match resolvers !! 1%nat with
    | Some resolver =>
        if orderAdded then
          if has_key resolver "DomainName" then Some (delete "SearchOrder" myDefault)
          else
            scoped ← isScopedConfiguration resolver;
            Some (if (scoped : bool) then delete "SearchOrder" myDefault else myDefault)
        else Some myDefault
    | None => Some myDefault
    end;
  Some (<[0%nat := myDefault]> resolvers).

(** The resolvers of the configuration. *)
Definition list_resolvers (defaultResolver : option CFDict) (services : list (string * service_dict))
    (serviceOrder : option (list CFType)) (multicastResolvers privateResolvers : list CFType)
    : option (list CFDict) :=
  let add_resolvers := add_supplemental_resolvers S_if_nameindex_cache services serviceOrder in
  resolvers ← add_resolvers [] None;
  resolvers ← add_private_resolvers S_if_nameindex_cache S_pdns_timeout resolvers 0 privateResolvers;
  added ← add_default_resolver S_if_nameindex_cache resolvers defaultResolver;
  let '(resolvers, myOrderAdded, mySearchDomains) := added in
  resolvers ← add_multicast_resolvers S_if_nameindex_cache S_mdns_timeout resolvers 0 multicastResolvers;
  resolvers ← add_scoped_resolvers S_if_nameindex_cache services serviceOrder resolvers;
  resolvers ← add_service_specific_resolvers S_if_nameindex_cache resolvers [] services;
  resolvers ← if (1 <? length resolvers)%nat then CFArraySortValues compareDomain resolvers else Some resolvers;
  resolvers ← cleanup (length resolvers - 1) resolvers;
  update_default resolvers myOrderAdded mySearchDomains.

(** The resolver with the flags of the default configuration, if it needs them; [flags]
    are these flags once they were computed. *)
Definition merge_default_flags (services : option (list (string * service_dict))) (flags : option Z)
    (resolver : CFDict) : option (CFDict * option Z) :=
  merge ← needsMergeWithDefaultConfiguration resolver;
  if (merge : bool) then
    flags ← match flags with
            | Some flags => Some flags
            | None => services ← services; default_flags S_nwi_state services
            end;
    Some (merge_configuration_flags resolver flags, Some flags)
  else Some (resolver, flags).

Fixpoint add_all_resolvers (services : option (list (string * service_dict))) (flags : option Z)
    (resolvers : list CFDict) : C block (option Z) :=
  match resolvers with
  | [] => ret flags
  | resolver :: resolvers =>
      let* '(resolver, flags) := deref (merge_default_flags services flags resolver) in
      add_resolver_block garbage (create_resolver S_if_nameindex_cache garbage resolver);;
      add_all_resolvers services flags resolvers
  end.

Definition build_config (services : option (list (string * service_dict))) (resolvers : list CFDict)
    : option block :=
  snd <$>
    (_dns_configuration_create now;;
     let* default_resolver_flags := add_all_resolvers services None resolvers in
     _dnsinfo_flatfile_add_resolvers garbage resolver_dir (default 0 default_resolver_flags)) [].

(** Whether the configuration changed, and what is kept. *)
Definition dns_configuration_set (defaultResolver : option CFDict)
    (services : option (list (string * service_dict))) (serviceOrder : option (list CFType))
    (multicastResolvers privateResolvers : option (list CFType)) (st : dns_state) : option (bool * dns_state) :=
  let defaultResolver :=
    match defaultResolver with
    | Some dns => match get_array dns "ServerAddresses" with Some (_ :: _) => Some dns | _ => None end
    | None => None
    end in
  resolvers ← list_resolvers defaultResolver (default [] services) serviceOrder
                (default [] multicastResolvers) (default [] privateResolvers);
  config ← if bool_decide (defaultResolver = None) && (length resolvers <=? 1)%nat then Some None
           else Some <$> build_config services resolvers;
  signature ← _dns_configuration_signature sha1 config CC_SHA1_DIGEST_LENGTH;
  if bool_decide (signature = signature_last st) then Some (false, st)
  else
    match config with
    | None => Some (true, MkDnsState signature None)
    | Some config =>
        n_attribute ← fst <$> ntohl c_n_attribute config;
        let len := sizeof_config_buf + n_attribute in
        _logged ← copy_config base config len;
        data ← mem_load config 0 len;
        Some (true, MkDnsState signature (Some data))
    end.
End set.
