(* ===== verification/DnsSort.v ===== *)
(** * The DNS configuration: the order of its resolvers, and the search list

    [compareDomain] as a lexicographic order: on resolvers of which at most one has no
    domain it is a total one, and sorting by it sorts. [extract_search_domains] keeps an
    index into the search list: in front of it are the domains of the supplemental
    resolvers that are preferred to the default one. The loop on two lists, and what the
    search list holds in the end. *)

From stdpp Require Import sorting.
From S2P Require Import Prelude RouteTypes RouteList DnsCreate DnsExpand DnsResolver RouteDict NwiState DnsFlat DnsMerge DnsList DnsSet.

Local Open Scope Z_scope.

(** ** Comparisons *)

Class TotalPreorder {A} (cmp : A → A → comparison) : Prop := {
  cmp_opp x y : cmp y x = CompOpp (cmp x y);
  cmp_trans x y z : cmp x y ≠ Gt → cmp y z ≠ Gt → cmp x z ≠ Gt;
}.

Definition order_on {A B} (f : A → B) (cmp : B → B → comparison) : A → A → comparison := λ x y, cmp (f x) (f y).
Definition lex {A} (cmp1 cmp2 : A → A → comparison) : A → A → comparison :=
  λ x y, match cmp1 x y with Eq => cmp2 x y | c => c end.
(** [false] in front of [true]. *)
Definition bool_order (b1 b2 : bool) : comparison :=
  match b1, b2 with false, true => Lt | true, false => Gt | _, _ => Eq end.
(** A list in front of its prefixes. *)
Fixpoint list_order {A} (cmp : A → A → comparison) (l1 l2 : list A) : comparison :=
  match l1, l2 with
  | [], [] => Eq
  | [], _ => Gt
  | _, [] => Lt
  | x :: l1, y :: l2 => match cmp x y with Eq => list_order cmp l1 l2 | c => c end
  end.

Section preorder.
Context {A : Type} (cmp : A → A → comparison) {T : TotalPreorder cmp}.

Lemma cmp_refl x : cmp x x = Eq.
Proof using T. pose proof (cmp_opp (cmp := cmp) x x). by destruct (cmp x x). Qed.

(** A preorder decides as it must: [le] and [lt] compose to [lt]. *)
Lemma cmp_le_lt x y z : cmp x y ≠ Gt → cmp y z = Lt → cmp x z = Lt.
Proof using T.
  intros Hxy Hyz. pose proof (cmp_trans (cmp := cmp) z x y) as H. pose proof (cmp_opp (cmp := cmp) x z) as Hz.
  pose proof (cmp_opp (cmp := cmp) y z) as Hy. rewrite Hyz in Hy. rewrite Hy in H.
  destruct (cmp x z); [..|]; try done; rewrite Hz in H; exfalso; by apply H.
Qed.
Lemma cmp_lt_le x y z : cmp x y = Lt → cmp y z ≠ Gt → cmp x z = Lt.
Proof using T.
  intros Hxy Hyz. pose proof (cmp_trans (cmp := cmp) y z x) as H. pose proof (cmp_opp (cmp := cmp) x z) as Hz.
  pose proof (cmp_opp (cmp := cmp) x y) as Hy. rewrite Hxy in Hy. rewrite Hy in H.
  destruct (cmp x z); [..|]; try done; rewrite Hz in H; exfalso; by apply H.
Qed.

Lemma cmp_eq_l x y z : cmp x y = Eq → cmp x z = cmp y z.
Proof using T.
  intros E. pose proof (cmp_opp (cmp := cmp) x y) as E'. rewrite E in E'. cbn in E'.
  destruct (cmp y z) eqn:Eyz.
  - pose proof (cmp_trans (cmp := cmp) x y z) as H1. pose proof (cmp_trans (cmp := cmp) z y x) as H2.
    rewrite (cmp_opp (cmp := cmp) y z), Eyz, E' in H2. rewrite (cmp_opp (cmp := cmp) x z) in H2.
    rewrite E, Eyz in H1. destruct (cmp x z); [done|exfalso..]; [by apply H2|by apply H1].
  - apply (cmp_le_lt x y z); [by rewrite E|done].
  - assert (H : cmp z x = Lt).
    { apply (cmp_lt_le z y x); [by rewrite (cmp_opp (cmp := cmp) y z), Eyz|by rewrite E']. }
    by rewrite (cmp_opp (cmp := cmp) z x), H.
Qed.
Lemma cmp_eq_r x y z : cmp y z = Eq → cmp x z = cmp x y.
Proof using T.
  intros E. rewrite (cmp_opp (cmp := cmp) z x), (cmp_opp (cmp := cmp) y x). f_equal.
  symmetry. by apply cmp_eq_l.
Qed.
End preorder.

#[export] Instance Z_compare_order : TotalPreorder Z.compare.
Proof.
  split; [by intros x y; rewrite Z.compare_antisym|].
  intros x y z. rewrite !Z.compare_le_iff. lia.
Qed.
#[export] Instance bool_total : TotalPreorder bool_order.
Proof. split; [by intros [] []|by intros [] [] []]. Qed.
#[export] Instance order_on_total {A B} (f : A → B) cmp : TotalPreorder cmp → TotalPreorder (order_on f cmp).
Proof. intros T. split; unfold order_on; [intros; apply cmp_opp|intros x y z; apply cmp_trans]. Qed.

#[export] Instance lex_total {A} (cmp1 cmp2 : A → A → comparison) :
  TotalPreorder cmp1 → TotalPreorder cmp2 → TotalPreorder (lex cmp1 cmp2).
Proof.
  intros T1 T2. split; unfold lex.
  - intros x y. rewrite (cmp_opp (cmp := cmp1) x y). destruct (cmp1 x y); cbn; [apply cmp_opp|done..].
  - intros x y z Hxy Hyz. destruct (cmp1 x y) eqn:E; [|rewrite (cmp_lt_le cmp1 x y z); [done..|]|done].
    + rewrite (cmp_eq_l cmp1 x y z E). destruct (cmp1 y z); [by eapply cmp_trans|done..].
    + by destruct (cmp1 y z).
Qed.

#[export] Instance list_order_total {A} (cmp : A → A → comparison) :
  TotalPreorder cmp → TotalPreorder (list_order cmp).
Proof.
  intros T. split.
  - intros l1. induction l1 as [|x l1 IH]; intros [|y l2]; try done. cbn [list_order].
    rewrite (cmp_opp (cmp := cmp) x y). destruct (cmp x y); cbn; [apply IH|done..].
  - intros l1. induction l1 as [|x l1 IH]; intros [|y l2] [|z l3] Hxy Hyz; try done. cbn [list_order] in *.
    destruct (cmp x y) eqn:E; [|rewrite (cmp_lt_le cmp x y z); [done..|]|done].
    + rewrite (cmp_eq_l cmp x y z E). destruct (cmp y z); [by eapply IH|done..].
    + by destruct (cmp y z).
Qed.

(** ** Resolvers *)

(** What every resolver of the list is, whatever the services hold. *)
Record resolver_typed (r : CFDict) : Prop := {
  typed_domain : match r !! "DomainName" with None | Some (CFString _) => True | _ => False end;
  typed_flags : match r !! DNS_CONFIGURATION_FLAGS_KEY with None | Some (CFNumber _ true) => True | _ => False end;
  typed_order : ∃ n, r !! DNS_CONFIGURATION_ORDER_KEY = Some (CFNumber n true);
  typed_id : ∃ s, r !! DNS_CONFIGURATION_CONFIGURATION_ID = Some (CFString s) ∧ (0 < String.length s)%nat;
}.

Definition resolver_domain (r : CFDict) : string := default "" (get_string r "DomainName").
Definition resolver_scoped (r : CFDict) : bool :=
  match r !! DNS_CONFIGURATION_FLAGS_KEY with
  | Some (CFNumber flags true) => has (u32 flags) DNS_RESOLVER_FLAGS_SCOPED
  | _ => false
  end.
Definition resolver_search_order (r : CFDict) : Z := default DEFAULT_SEARCH_ORDER (number_u32 (r !! "SearchOrder")).
Definition resolver_position (r : CFDict) : Z := default 0 (number_u32 (r !! DNS_CONFIGURATION_ORDER_KEY)).

Section resolvers.
Context {CF : CoreFoundation} {Laws : CoreFoundationLaws}.

#[export] Instance label_total : TotalPreorder CFStringCompare.
Proof. split; intros; [apply CFStringCompare_opp|by eapply CFStringCompare_trans]. Qed.

Definition search_order : CFDict → CFDict → comparison :=
  lex (order_on resolver_search_order Z.compare) (order_on resolver_position Z.compare).
(** The order that is meant: no domain first, then unscoped resolvers, then forward
    domains, then by the labels of the domain, a subdomain in front of its domain, then
    by the search order, then as they were added. *)
Definition domain_order : CFDict → CFDict → comparison :=
  lex (order_on (λ r, has_key r "DomainName") bool_order)
    (lex (order_on resolver_scoped bool_order)
      (lex (order_on (λ r, CFStringHasSuffix (resolver_domain r) ".arpa") bool_order)
        (lex (order_on (λ r, rev (CFStringCreateArrayBySeparatingStrings (resolver_domain r)))
                (list_order CFStringCompare)) search_order))).

#[export] Instance search_order_total : TotalPreorder search_order.
Proof. apply _. Qed.
#[export] Instance domain_order_total : TotalPreorder domain_order.
Proof. apply _. Qed.

Lemma compare_labels_order l1 l2 : list_order CFStringCompare l1 l2 =
  let '(result, (n1, n2)) := compare_labels l1 l2 in
  match result with
  | Eq => if (n2 <? n1)%nat then Lt else if (n1 <? n2)%nat then Gt else Eq
  | c => c
  end.
Proof.
  revert l2. induction l1 as [|x l1 IH]; intros [|y l2]; try done. cbn [list_order compare_labels].
  destruct (CFStringCompare x y); [apply IH|done..].
Qed.

Lemma compare_number (a b : Z) : (if a =? b then Eq else if a <? b then Lt else Gt) = (a ?= b).
Proof.
  destruct (Z.compare_spec a b) as [->|H|H].
  - by rewrite Z.eqb_refl.
  - rewrite (proj2 (Z.eqb_neq _ _)), (proj2 (Z.ltb_lt _ _)) by lia. done.
  - rewrite (proj2 (Z.eqb_neq _ _)), (proj2 (Z.ltb_ge _ _)) by lia. done.
Qed.

Lemma compareBySearchOrder_order r1 r2 :
  (∃ n, r1 !! DNS_CONFIGURATION_ORDER_KEY = Some (CFNumber n true)) →
  (∃ n, r2 !! DNS_CONFIGURATION_ORDER_KEY = Some (CFNumber n true)) →
  compareBySearchOrder r1 r2 = search_order r1 r2.
Proof.
  intros (n1 & E1) (n2 & E2). unfold compareBySearchOrder, search_order, lex, order_on, resolver_position.
  rewrite E1, E2. cbn [number_u32 default from_option id]. rewrite !compare_number, <-!compare_number.
  unfold resolver_search_order. destruct (_ =? _); [done|]. by destruct (_ <? _).
Qed.

Lemma scoped_typed r : resolver_typed r → isScopedConfiguration r = Some (resolver_scoped r).
Proof.
  intros H. pose proof (typed_flags _ H) as Hf. unfold isScopedConfiguration, resolver_scoped.
  by repeat case_match.
Qed.

(** Only for two resolvers without a domain does [compareDomain] not follow the order. *)
Lemma compareDomain_order r1 r2 : resolver_typed r1 → resolver_typed r2 →
  has_key r1 "DomainName" || has_key r2 "DomainName" = true →
  compareDomain r1 r2 = Some (domain_order r1 r2).
Proof.
  intros H1 H2 Hd. unfold compareDomain, domain_order, lex. unfold order_on at 1.
  pose proof (typed_domain _ H1) as D1. pose proof (typed_domain _ H2) as D2.
  assert (K : ∀ r, has_key r "DomainName" = bool_decide (is_Some (r !! "DomainName"))) by done.
  rewrite !K in *. clear K. unfold order_on, resolver_domain, get_string.
  destruct (r1 !! "DomainName") as [[d1| | | | |]|]; try done;
    destruct (r2 !! "DomainName") as [[d2| | | | |]|]; try done.
  cbn [bool_order bool_decide default from_option id].
  rewrite !bool_decide_true by eauto. cbn [bool_order].
  rewrite !scoped_typed by done. cbn [mbind option_bind].
  destruct (resolver_scoped r1), (resolver_scoped r2); cbn [Bool.eqb negb bool_order]; try done;
    destruct (CFStringHasSuffix d1 ".arpa"), (CFStringHasSuffix d2 ".arpa"); cbn [Bool.eqb negb bool_order]; try done;
    rewrite compare_labels_order;
    destruct (compare_labels _ _) as [[] [n1 n2]]; try done;
    destruct (n2 <? n1)%nat; try done; destruct (n1 <? n2)%nat; try done;
    by rewrite compareBySearchOrder_order by by apply typed_order.
Qed.

Lemma compareDomain_some r1 r2 : resolver_typed r1 → resolver_typed r2 → is_Some (compareDomain r1 r2).
Proof.
  intros H1 H2. destruct (has_key r1 "DomainName" || has_key r2 "DomainName") eqn:E.
  - by rewrite compareDomain_order.
  - apply orb_false_elim in E as [E _]. unfold has_key in E. apply bool_decide_eq_false_1 in E.
    unfold compareDomain. destruct (r1 !! "DomainName"); [by destruct E|done].
Qed.

(** At most one resolver of a list is without a domain. *)
Definition one_default (l : list CFDict) : Prop :=
  NoDup l ∧ ∀ x y, x ∈ l → y ∈ l → has_key x "DomainName" = false → has_key y "DomainName" = false → x = y.

Lemma one_default_pair l x y : one_default l → x ∈ l → y ∈ l → x ≠ y →
  has_key x "DomainName" || has_key y "DomainName" = true.
Proof.
  intros [_ H] Hx Hy Hn. destruct (has_key x "DomainName") eqn:Ex; [done|].
  destruct (has_key y "DomainName") eqn:Ey; [done|]. destruct Hn. by apply H.
Qed.

Lemma compareDomain_consistent l : Forall resolver_typed l → one_default l → consistent compareDomain l.
Proof.
  intros Ht H. rewrite Forall_forall in Ht.
  assert (E : ∀ x y, x ∈ l → y ∈ l → x ≠ y → compareDomain x y = Some (domain_order x y)).
  { intros x y Hx Hy Hn. apply compareDomain_order; [by apply Ht..|by eapply one_default_pair]. }
  split; [apply H|split].
  - intros x y Hx Hy Hn. exists (domain_order x y). rewrite !E by done. by rewrite (cmp_opp x y).
  - intros x y z Hx Hy Hz Hxy Hyz Hxz. rewrite !E by done. intros H1 H2 [= H3].
    eapply (cmp_trans (cmp := domain_order) x y z); congruence.
Qed.

Lemma sort_resolvers l : Forall resolver_typed l →
  ∃ l', CFArraySortValues compareDomain l = Some l' ∧ l' ≡ₚ l ∧
    (one_default l → StronglySorted (λ r1 r2, domain_order r1 r2 ≠ Gt) l').
Proof.
  intros Ht. rewrite Forall_forall in Ht.
  destruct (CFArraySortValues_some compareDomain l) as (l' & E).
  { intros x y Hx Hy. by apply compareDomain_some; apply Ht. }
  exists l'. pose proof (CFArraySortValues_perm _ _ _ E) as Hp. split; [done|]. split; [done|]. intros H.
  pose proof (CFArraySortValues_sorted _ _ _ (compareDomain_consistent l (proj2 (Forall_forall _ _) Ht) H) E) as Hs.
  assert (Hn : NoDup l') by (rewrite Hp; apply H).
  assert (Hi : ∀ x, x ∈ l' → x ∈ l) by (intros x; by rewrite Hp).
  clear E Hp. induction Hs as [|x l' Hs IH Hx]; constructor.
  - apply IH; [by inversion Hn|]. intros y Hy. apply Hi. by right.
  - rewrite Forall_forall in Hx |- *. intros y Hy E. apply (Hx y Hy).
    assert (x ≠ y) by (intros ->; by inversion Hn).
    rewrite compareDomain_order; [by f_equal|apply Ht, Hi; by left|apply Ht, Hi; by right|].
    eapply one_default_pair; [done|apply Hi; by left|apply Hi; by right|done].
Qed.

Lemma sort_supplemental l : Forall resolver_typed l →
  ∃ l', CFArraySortValues (λ dns1 dns2, Some (compareBySearchOrder dns1 dns2)) l = Some l' ∧ l' ≡ₚ l ∧
    (NoDup l → StronglySorted (λ r1 r2, search_order r1 r2 ≠ Gt) l').
Proof.
  intros Ht. rewrite Forall_forall in Ht.
  destruct (CFArraySortValues_some (λ dns1 dns2, Some (compareBySearchOrder dns1 dns2)) l) as (l' & E); [done|].
  exists l'. pose proof (CFArraySortValues_perm _ _ _ E) as Hp. split; [done|]. split; [done|]. intros Hn.
  assert (Eq' : ∀ x y, x ∈ l → y ∈ l → compareBySearchOrder x y = search_order x y).
  { intros x y Hx Hy. by apply compareBySearchOrder_order; apply typed_order, Ht. }
  assert (Hs : StronglySorted (λ x y, Some (compareBySearchOrder x y) ≠ Some Gt) l').
  { refine (CFArraySortValues_sorted _ _ _ _ E). split; [done|split].
    - intros x y Hx Hy _. exists (compareBySearchOrder x y). split; [done|]. by rewrite !Eq', (cmp_opp x y).
    - intros x y z Hx Hy Hz _ _ _ H1 H2 [= H3]. rewrite Eq' in * by done.
      eapply (cmp_trans (cmp := search_order) x y z); congruence. }
  assert (Hi : ∀ x, x ∈ l' → x ∈ l) by (intros x; by rewrite Hp).
  clear E Hp. induction Hs as [|x l' Hs IH Hx]; constructor.
  - apply IH. intros y Hy. apply Hi. by right.
  - rewrite Forall_forall in Hx |- *. intros y Hy E. apply (Hx y Hy). f_equal.
    rewrite Eq'; [done|apply Hi; by left|apply Hi; by right].
Qed.
End resolvers.

(** ** Two lists *)

Lemma insert_at_length {A} (l k : list A) x : insert_at (length l) x (l ++ k) = l ++ x :: k.
Proof. unfold insert_at. by rewrite take_app_length, drop_app_length. Qed.

Lemma find_app_l (front rest : list string) d i x : list_find (λ e, e = d) front = Some (i, x) →
  list_find (λ e, e = d) (front ++ rest) = Some (i, x).
Proof. apply list_find_app_l. Qed.

(** The place of a domain in two lists. *)
Lemma index_split front rest (d : string) :
  match list_find (λ e, e = d) (front ++ rest) with
  | Some (i, _) =>
      (∃ f1 f2, front = f1 ++ d :: f2 ∧ d ∉ f1 ∧ i = length f1) ∨
      (d ∉ front ∧ ∃ r1 r2, rest = r1 ++ d :: r2 ∧ d ∉ r1 ∧ i = (length front + length r1)%nat)
  | None => d ∉ front ++ rest
  end.
Proof.
  destruct (list_find _ _) as [[i x]|] eqn:E.
  - apply list_find_Some in E as (Ei & -> & Hb).
    assert (Hn : ∀ j y, (front ++ rest) !! j = Some y → (j < i)%nat → y ≠ d) by naive_solver.
    destruct (decide (i < length front)%nat) as [Hi|Hi].
    + left. rewrite lookup_app_l in Ei by done. exists (take i front), (drop (S i) front).
      split; [by rewrite take_drop_middle|]. split; [|rewrite length_take; lia].
      intros (j & Hj)%list_elem_of_lookup. apply lookup_take_Some in Hj as [Hj Hlt].
      eapply (Hn j d); [by apply lookup_app_l_Some|done|done].
    + right. rewrite lookup_app_r in Ei by lia. split.
      { intros (j & Hj)%list_elem_of_lookup. pose proof (lookup_lt_Some _ _ _ Hj).
        eapply (Hn j d); [by apply lookup_app_l_Some|lia|done]. }
      exists (take (i - length front) rest), (drop (S (i - length front)) rest).
      split; [by rewrite take_drop_middle|]. pose proof (lookup_lt_Some _ _ _ Ei).
      split; [|rewrite length_take; lia].
      intros (j & Hj)%list_elem_of_lookup. apply lookup_take_Some in Hj as [Hj Hlt].
      eapply (Hn (length front + j)%nat d); [|lia|done].
      rewrite lookup_app_r by lia. by replace (length front + j - length front)%nat with j by lia.
  - apply list_find_None in E. intros Hd. rewrite Forall_forall in E. by apply (E d Hd).
Qed.

(** ** A round on two lists *)

(** Without the first [d]. *)
Fixpoint remove_first (d : string) (l : list string) : list string :=
  match l with
  | [] => []
  | e :: l => if decide (e = d) then l else e :: remove_first d l
  end.

Lemma remove_first_split d l1 l2 : d ∉ l1 → remove_first d (l1 ++ d :: l2) = l1 ++ l2.
Proof.
  induction l1 as [|e l1 IH]; intros Hn; cbn [app remove_first].
  - by rewrite decide_True.
  - rewrite not_elem_of_cons in Hn. rewrite decide_False by naive_solver. f_equal. apply IH, Hn.
Qed.
Lemma remove_first_notin d l : d ∉ l → remove_first d l = l.
Proof.
  induction l as [|e l IH]; intros Hn; [done|]. rewrite not_elem_of_cons in Hn. cbn [remove_first].
  rewrite decide_False by naive_solver. f_equal. apply IH, Hn.
Qed.
Lemma remove_first_app d l k : d ∉ k → remove_first d (l ++ k) = remove_first d l ++ k.
Proof.
  intros Hk. induction l as [|e l IH]; [by apply remove_first_notin|]. cbn [app remove_first].
  case_decide; [done|]. by rewrite IH.
Qed.
Lemma elem_of_remove_first d l e : e ≠ d → e ∈ remove_first d l ↔ e ∈ l.
Proof.
  intros Hn. induction l as [|x l IH]; [done|]. cbn [remove_first].
  case_decide; rewrite !elem_of_cons; naive_solver.
Qed.
Lemma remove_first_sub d l e : e ∈ remove_first d l → e ∈ l.
Proof.
  induction l as [|x l IH]; [done|]. cbn [remove_first]. case_decide; rewrite ?elem_of_cons; naive_solver.
Qed.
Lemma remove_first_NoDup d l : NoDup l → NoDup (remove_first d l) ∧ d ∉ remove_first d l.
Proof.
  induction 1 as [|x l Hx Hl IH]; cbn [remove_first]; [split; [constructor|by apply not_elem_of_nil]|].
  case_decide as E; [by subst|]. destruct IH as [IH1 IH2]. split.
  - constructor; [|done]. contradict Hx. by eapply remove_first_sub.
  - rewrite not_elem_of_cons. split; [by apply not_eq_sym|done].
Qed.

Definition search_round (defaultOrder : Z) (st : list string * list string) (dns : CFDict)
    : list string * list string :=
  let '(front, rest) := st in
  match search_domain dns with
  | None => st
  | Some d =>
      if resolver_search_order dns <? defaultOrder
      then (remove_first d front ++ [d], if decide (d ∈ front) then rest else remove_first d rest)
      else if decide (d ∈ front ++ rest) then st else (front, rest ++ [d])
  end.

Lemma search_step_round o front rest dns :
  let r := search_round o (front, rest) dns in
  search_step o (front ++ rest, length front) dns = Some (r.1 ++ r.2, length r.1).
Proof.
  cbn zeta. unfold search_step, search_round. destruct (search_domain dns) as [d|]; [|done].
  fold (resolver_search_order dns). pose proof (index_split front rest d) as Hf.
  destruct (list_find _ _) as [[i x]|]; cbn [fmap option_fmap option_map fst];
    destruct (_ <? o); cbn [fst snd].
  - destruct Hf as [(f1 & f2 & -> & Hn & ->)|(Hd & r1 & r2 & -> & Hn & ->)].
    + rewrite decide_True by set_solver. rewrite remove_first_split by done.
      rewrite <-app_assoc. cbn [app]. rewrite delete_middle, length_app. cbn [length].
      rewrite (proj2 (Nat.ltb_lt _ _)) by lia.
      replace (length f1 + S (length f2) - 1)%nat with (length (f1 ++ f2)) by (rewrite length_app; lia).
      rewrite (proj2 (Nat.leb_le _ _)) by (rewrite !length_app; lia).
      rewrite app_assoc, insert_at_length, !length_app, <-!app_assoc. cbn [length]. do 2 f_equal. lia.
    + rewrite decide_False by done. rewrite (remove_first_notin d front), remove_first_split by done.
      rewrite app_assoc. replace (length front + length r1)%nat with (length (front ++ r1)) by (by rewrite length_app).
      rewrite delete_middle, (proj2 (Nat.ltb_ge _ _)) by (rewrite length_app; lia).
      rewrite <-app_assoc, (proj2 (Nat.leb_le _ _)) by (rewrite !length_app; lia).
      rewrite insert_at_length, length_app, <-!app_assoc. cbn [length app]. do 2 f_equal. lia.
  - rewrite decide_True; [done|].
    destruct Hf as [(f1 & f2 & -> & _)|(_ & r1 & r2 & -> & _)]; set_solver.
  - rewrite not_elem_of_app in Hf. rewrite decide_False by apply Hf.
    rewrite !remove_first_notin by apply Hf.
    rewrite (proj2 (Nat.leb_le _ _)) by (rewrite !length_app; lia).
    rewrite insert_at_length, length_app, <-!app_assoc. cbn [length app]. do 2 f_equal. lia.
  - rewrite decide_False by done. by rewrite <-app_assoc.
Qed.

Definition search_rounds (o : Z) (own : list string) (l : list CFDict) : list string * list string :=
  foldl (search_round o) ([], own) l.

Lemma search_loop o l front rest :
  let r := foldl (search_round o) (front, rest) l in
  foldl (λ st dns, st ← st; search_step o st dns) (Some (front ++ rest, length front)) l =
  Some (r.1 ++ r.2, length r.1).
Proof.
  cbn zeta. revert front rest. induction l as [|dns l IH]; intros front rest; [done|].
  cbn [foldl mbind option_bind]. rewrite search_step_round. rewrite IH. by destruct (search_round _ _ _).
Qed.

(** ** The whole loop *)

Section rounds.
Variables (o : Z) (own : list string).

Definition preferred (l : list CFDict) : list string :=
  omap (λ r, if resolver_search_order r <? o then search_domain r else None) l.
Definition others (l : list CFDict) : list string :=
  omap (λ r, if resolver_search_order r <? o then None else search_domain r) l.

Lemma elem_of_preferred l d :
  d ∈ preferred l ↔ ∃ r, r ∈ l ∧ search_domain r = Some d ∧ resolver_search_order r < o.
Proof.
  unfold preferred. rewrite list_elem_of_omap. split; intros (r & Hr & E); exists r.
  - destruct (Z.ltb_spec (resolver_search_order r) o); naive_solver.
  - destruct E as [E Hlt]. by rewrite (proj2 (Z.ltb_lt _ _) Hlt).
Qed.
Lemma elem_of_others l d :
  d ∈ others l ↔ ∃ r, r ∈ l ∧ search_domain r = Some d ∧ o <= resolver_search_order r.
Proof.
  unfold others. rewrite list_elem_of_omap. split; intros (r & Hr & E); exists r.
  - destruct (Z.ltb_spec (resolver_search_order r) o); naive_solver.
  - destruct E as [E Hlt]. by rewrite (proj2 (Z.ltb_ge _ _) Hlt).
Qed.

(** Whatever the resolvers, the list holds the domains of the default configuration and
    of every supplemental resolver, those of the preferred ones in front. *)
Lemma search_rounds_elem l :
  let '(front, rest) := search_rounds o own l in
  (∀ d, d ∈ front ↔ d ∈ preferred l) ∧
  (∀ d, d ∈ front ++ rest ↔ d ∈ own ∨ d ∈ preferred l ∨ d ∈ others l) ∧
  (NoDup own → NoDup (front ++ rest)).
Proof.
  unfold search_rounds. induction l as [|r l IH] using rev_ind.
  { cbn. split; [done|]. split; [|done]. intros d. rewrite !elem_of_nil. naive_solver. }
  rewrite foldl_app. cbn [foldl]. destruct (foldl _ _ l) as [front rest]. destruct IH as (I1 & I2 & I3).
  unfold search_round, preferred, others. rewrite !omap_app. fold (preferred l) (others l). cbn [omap list_omap].
  destruct (search_domain r) as [d|] eqn:Ed.
  2: { destruct (_ <? o); rewrite ?app_nil_r; by split_and!. }
  setoid_rewrite elem_of_app in I2.
  destruct (_ <? o); rewrite ?app_nil_r.
  - assert (Hm : ∀ e, e ∈ remove_first d front ++ [d] ↔ e ∈ front ∨ e = d).
    { intros e. rewrite elem_of_app, list_elem_of_singleton. destruct (decide (e = d)) as [->|Hn]; [naive_solver|].
      rewrite elem_of_remove_first by done. naive_solver. }
    split; [|split].
    + intros e. rewrite Hm, elem_of_app, list_elem_of_singleton, I1. done.
    + intros e. rewrite elem_of_app, Hm. setoid_rewrite elem_of_app. rewrite list_elem_of_singleton.
      destruct (decide (e = d)) as [->|Hn]; [naive_solver|].
      case_decide; rewrite ?elem_of_remove_first by done; specialize (I2 e); naive_solver.
    + intros Ho. specialize (I3 Ho). apply NoDup_app in I3 as (N1 & N12 & N2).
      pose proof (remove_first_NoDup d front N1) as [M1 M2]. apply NoDup_app. split; [|split].
      * apply NoDup_app. split; [done|]. split; [set_solver|by apply NoDup_singleton].
      * intros e [He|He]%Hm He'; [|subst e]; case_decide as Hf.
        -- by apply (N12 e).
        -- apply (N12 e); [done|by eapply remove_first_sub].
        -- by apply (N12 d).
        -- by apply (remove_first_NoDup d rest N2).
      * case_decide; [done|]. by apply remove_first_NoDup.
  - case_decide as Hd; rewrite elem_of_app in Hd.
    + split; [done|]. split; [|done]. intros e. rewrite !elem_of_app, list_elem_of_singleton.
      specialize (I2 e). naive_solver.
    + split; [done|]. split.
      * intros e. rewrite !elem_of_app, list_elem_of_singleton. specialize (I2 e). naive_solver.
      * intros Ho. specialize (I3 Ho). rewrite app_assoc. apply NoDup_app. split; [done|].
        split; [set_solver|by apply NoDup_singleton].
Qed.

Lemma remove_first_filter d P `{!∀ e : string, Decision (P e)} l : NoDup l →
  remove_first d (filter P l) = filter (λ e, P e ∧ e ≠ d) l.
Proof.
  induction 1 as [|x l Hx Hl IH]; [done|]. rewrite !filter_cons.
  destruct (decide (P x)) as [HP|HP]; cbn [remove_first].
  - destruct (decide (x = d)) as [->|Hn].
    + rewrite decide_False by naive_solver. apply filter_eq_on. intros e He. split; [|naive_solver].
      intros HPe. split; [done|]. by intros ->.
    + rewrite decide_True by done. by rewrite IH.
  - rewrite decide_False by naive_solver. done.
Qed.

Lemma search_rounds_exact l : NoDup own → NoDup (omap search_domain l) →
  search_rounds o own l =
  (preferred l, filter (λ d, d ∉ preferred l) own ++ filter (λ d, d ∉ own) (others l)).
Proof.
  intros Ho. unfold search_rounds. induction l as [|r l IH] using rev_ind; intros Hl.
  { cbn. rewrite app_nil_r. f_equal. induction own as [|e k IHk]; [done|].
    rewrite filter_cons_True by apply not_elem_of_nil. f_equal. apply IHk. by inversion Ho. }
  rewrite omap_app in Hl. apply NoDup_app in Hl as (Hl & Hr & _). rewrite foldl_app, IH by done. cbn [foldl].
  unfold search_round, preferred, others. rewrite !omap_app. fold (preferred l) (others l). cbn [omap list_omap] in *.
  destruct (search_domain r) as [d|] eqn:Ed; [|by destruct (_ <? o); rewrite !app_nil_r].
  assert (Hd : d ∉ omap search_domain l) by (intros He; by apply (Hr d He), list_elem_of_singleton).
  assert (Hp : d ∉ preferred l).
  { rewrite elem_of_preferred. intros (x & Hx & E & _). apply Hd. rewrite list_elem_of_omap. naive_solver. }
  assert (Hq : d ∉ others l).
  { rewrite elem_of_others. intros (x & Hx & E & _). apply Hd. rewrite list_elem_of_omap. naive_solver. }
  destruct (_ <? o); rewrite app_nil_r.
  - rewrite decide_False, remove_first_notin by done. f_equal.
    assert (Hn : d ∉ filter (λ d, d ∉ own) (others l)) by (rewrite list_elem_of_filter; naive_solver).
    rewrite remove_first_app, remove_first_filter by done. f_equal. apply filter_eq_on. intros e _.
    rewrite not_elem_of_app, list_elem_of_singleton. done.
  - rewrite filter_app. case_decide as H; rewrite !elem_of_app, !list_elem_of_filter in H.
    + rewrite filter_cons_False by naive_solver. by rewrite filter_nil, app_nil_r.
    + rewrite filter_cons_True by naive_solver. rewrite filter_nil. by rewrite <-app_assoc.
Qed.
End rounds.

(** ** What is extracted *)

Definition without_search (dns : CFDict) : CFDict := delete "SearchDomains" (delete "DomainName" dns).
Definition found_domains (l : list string) : option (list string) := if (length l =? 0)%nat then None else Some l.

Lemma extract_own dns `{!CoreFoundation} :
  extract_search_domains dns None = Some (found_domains (default_search_domains dns), without_search dns).
Proof. done. Qed.

Lemma extract_supplemental {CF : CoreFoundation} {Laws : CoreFoundationLaws} dns supplemental :
  Forall resolver_typed supplemental → NoDup supplemental →
  ∃ l, l ≡ₚ supplemental ∧ StronglySorted (λ r1 r2, search_order r1 r2 ≠ Gt) l ∧
    let r := search_rounds (resolver_search_order dns) (default_search_domains dns) l in
    extract_search_domains dns (Some supplemental) = Some (found_domains (r.1 ++ r.2), without_search dns).
Proof.
  intros Ht Hn.
  assert (∃ l, (if (1 <? length supplemental)%nat
                then CFArraySortValues (λ dns1 dns2, Some (compareBySearchOrder dns1 dns2)) supplemental
                else Some supplemental) = Some l ∧
               l ≡ₚ supplemental ∧ StronglySorted (λ r1 r2, search_order r1 r2 ≠ Gt) l) as (l & E & Hp & Hs).
  { destruct (Nat.ltb_spec 1 (length supplemental)) as [_|Hlen].
    - destruct (sort_supplemental supplemental Ht) as (l & E & Hp & Hs). exists l. by split_and!; [..|apply Hs].
    - exists supplemental. split_and!; [done|done|]. destruct supplemental as [|x [|]]; [..|cbn in Hlen; lia]; repeat constructor. }
  exists l. split; [done|]. split; [done|]. cbn zeta. unfold extract_search_domains. rewrite E.
  cbn [mbind option_bind]. fold (resolver_search_order dns).
  pose proof (search_loop (resolver_search_order dns) l [] (default_search_domains dns)) as Hl.
  cbn zeta in Hl. cbn [app length] in Hl. rewrite Hl. cbn [mbind option_bind fst]. done.
Qed.

(** C29: of supplemental resolvers that are typed as [add_resolver] makes them and all
    different, the search list that is extracted for the default configuration holds its
    own domains and those of all the resolvers that may be searched, and nothing else; in
    front are the domains of the resolvers with a smaller search order than its own. No
    domain is there twice if the configuration's own list repeats none; what it repeats is
    kept. If in addition no two resolvers have one domain, the list is: the domains in
    front in the order of the resolvers, its own that are not among them, and the others
    that are not its own. *)
Theorem extract_search_domains_list {CF : CoreFoundation} {Laws : CoreFoundationLaws} dns supplemental :
  Forall resolver_typed supplemental → NoDup supplemental →
  let own := default_search_domains dns in
  let o := resolver_search_order dns in
  ∃ front rest,
    extract_search_domains dns (Some supplemental) =
      Some (if (length (front ++ rest) =? 0)%nat then None else Some (front ++ rest),
            delete "SearchDomains" (delete "DomainName" dns)) ∧
    (∀ d, d ∈ front ↔ ∃ r, r ∈ supplemental ∧ search_domain r = Some d ∧ resolver_search_order r < o) ∧
    (∀ d, d ∈ front ++ rest ↔ d ∈ own ∨ ∃ r, r ∈ supplemental ∧ search_domain r = Some d) ∧
    (NoDup own → NoDup (front ++ rest)) ∧
    (NoDup own → NoDup (omap search_domain supplemental) →
     ∃ sorted, sorted ≡ₚ supplemental ∧ StronglySorted (λ r1 r2, search_order r1 r2 ≠ Gt) sorted ∧
       front = preferred o sorted ∧
       rest = filter (λ d, d ∉ front) own ++ filter (λ d, d ∉ own) (others o sorted)).
Proof.
  intros Ht Hn. cbn zeta. destruct (extract_supplemental dns supplemental Ht Hn) as (l & Hp & Hs & E). cbn zeta in E.
  pose proof (search_rounds_elem (resolver_search_order dns) (default_search_domains dns) l) as H.
  pose proof (search_rounds_exact (resolver_search_order dns) (default_search_domains dns) l) as Hx.
  destruct (search_rounds _ _ l) as [front rest]. cbn [fst snd] in E. destruct H as (H1 & H2 & H3).
  exists front, rest. split; [exact E|]. split; [|split; [|split; [done|]]].
  - intros d. rewrite H1, elem_of_preferred. by setoid_rewrite Hp.
  - intros d. rewrite H2, elem_of_preferred, elem_of_others. setoid_rewrite Hp. split; [naive_solver|].
    intros [?|(r & Hr & Hd)]; [by left|right].
    destruct (Z.lt_ge_cases (resolver_search_order r) (resolver_search_order dns)); [left|right]; eauto.
  - intros Ho Hd. exists l. split; [done|]. split; [done|]. rewrite <-Hp in Hd. by injection (Hx Ho Hd) as -> ->.
Qed.
