(* ===== verification/DnsEntries.v ===== *)
(** * The DNS configuration: what the list of resolvers holds

    The resolvers that each of the functions of DnsList adds, as a list of dictionaries
    that does not depend on the ones there are. A resolver is given its position in the
    list, so no two are equal and [add_resolver] drops none. *)

From stdpp Require Import sorting.
From S2P Require Import Prelude RouteTypes RouteList DnsCreate DnsExpand DnsResolver RouteDict NwiState DnsFlat DnsMerge DnsList DnsSet DnsSort.

Local Open Scope Z_scope.

(** Lookups in dictionaries that are written out. *)
Ltac lookup_dict := repeat first
  [ rewrite lookup_insert_eq | rewrite lookup_insert_ne by done
  | rewrite lookup_delete_eq | rewrite lookup_delete_ne by done
  | rewrite lookup_empty ].

(** The keys that only this code sets are not in the dictionary of a service, and the
    name of its interface is a string. *)
Record dns_typed (dns : CFDict) : Prop := {
  dns_interface : match dns !! "InterfaceName" with None | Some (CFString _) => True | _ => False end;
  dns_no_flags : dns !! DNS_CONFIGURATION_FLAGS_KEY = None;
  dns_no_order : dns !! DNS_CONFIGURATION_ORDER_KEY = None;
}.

(** What is passed to [add_resolver]. *)
Record entry_typed (r : CFDict) : Prop := {
  entry_interface : match r !! "InterfaceName" with None | Some (CFString _) => True | _ => False end;
  entry_domain : match r !! "DomainName" with None | Some (CFString _) => True | _ => False end;
  entry_flags : match r !! DNS_CONFIGURATION_FLAGS_KEY with None | Some (CFNumber _ true) => True | _ => False end;
  entry_order : r !! DNS_CONFIGURATION_ORDER_KEY = None;
  entry_id : ∃ s, r !! DNS_CONFIGURATION_CONFIGURATION_ID = Some (CFString s) ∧ (0 < String.length s)%nat;
}.

Section entries.
Context {N : Network} {CF : CoreFoundation} {Laws : CoreFoundationLaws}.
Variable S_if_nameindex_cache : option (list (string * Z)).

(** ** Adding one *)

(** The resolver in its place, with the index of the interface it is scoped to. *)
Definition placed (n : nat) (r : CFDict) : CFDict :=
  let r := <[DNS_CONFIGURATION_ORDER_KEY := CFNumber (Z.of_nat n) true]> r in
  match scoped_if_index S_if_nameindex_cache r with
  | Some (Some if_index) => <[DNS_CONFIGURATION_IF_INDEX_KEY := CFNumber_u32 if_index]> r
  | _ => r
  end.

Definition has_position (r : CFDict) : Prop := is_Some (r !! DNS_CONFIGURATION_ORDER_KEY).

Lemma placed_lookup n r key : key ≠ DNS_CONFIGURATION_ORDER_KEY → key ≠ DNS_CONFIGURATION_IF_INDEX_KEY →
  placed n r !! key = r !! key.
Proof. intros H1 H2. unfold placed. repeat case_match; by rewrite ?lookup_insert_ne by done. Qed.

Lemma placed_order n r : placed n r !! DNS_CONFIGURATION_ORDER_KEY = Some (CFNumber (Z.of_nat n) true).
Proof. unfold placed. repeat case_match; by lookup_dict. Qed.

Lemma placed_typed n r : entry_typed r → resolver_typed (placed n r).
Proof.
  intros [Hi Hd Hf Ho Hid]. split; rewrite ?placed_lookup by done; [done|done| |done].
  rewrite placed_order. by eexists.
Qed.

Lemma scoped_if_index_some r : entry_typed r →
  ∃ i, scoped_if_index S_if_nameindex_cache r = Some i.
Proof.
  intros [Hi _ _ _ _]. unfold scoped_if_index. destruct (r !! "InterfaceName") as [v|]; [|by eexists].
  destruct (CFEqual _ _); [by eexists|]. destruct v; try done. by eexists.
Qed.

(** A resolver that has no position equals none that has one. *)
Lemma no_dup done' rest r order : r !! DNS_CONFIGURATION_ORDER_KEY = None → Forall has_position rest →
  add_resolver_dup done' rest r order = None.
Proof using Laws.
  intros Hr Hrest. revert done'. induction Hrest as [|m rest Hm Hrest IH]; intros done'; [done|].
  assert (Hne : ∀ m', dom m ⊆ dom m' → CFEqual (CFDictionary r) (CFDictionary m') = false).
  { intros m' Hs. apply not_true_is_false. intros E%CFEqual_keys. apply not_elem_of_dom in Hr.
    apply Hr. rewrite E. apply Hs. by apply elem_of_dom. }
  cbn [add_resolver_dup]. rewrite Hne by done. destruct order as [[order v]|]; [|apply IH].
  rewrite Hne; [apply IH|]. rewrite dom_insert. set_solver.
Qed.

Lemma add_resolver_appends resolvers r : entry_typed r → Forall has_position resolvers →
  Z.of_nat (length resolvers) < 2 ^ 31 →
  add_resolver S_if_nameindex_cache resolvers r = Some (resolvers ++ [placed (length resolvers) r]).
Proof using Laws.
  intros Hr Hl Hlen. unfold add_resolver. rewrite no_dup by (by apply Hr || done).
  unfold placed. rewrite i32_small by lia. rewrite Z.eqb_refl.
  set (r' := <[DNS_CONFIGURATION_ORDER_KEY := _]> r).
  assert (∃ i, scoped_if_index S_if_nameindex_cache r' = Some i) as (i & ->); [|by destruct i].
  unfold r', scoped_if_index. lookup_dict. apply scoped_if_index_some in Hr as (i & Hi).
  exists i. exact Hi.
Qed.

(** ** Adding several *)

Definition numbered (n : nat) (l : list CFDict) : list CFDict := imap (λ i, placed (n + i)) l.

Lemma numbered_cons n r l : numbered n (r :: l) = placed n r :: numbered (S n) l.
Proof.
  unfold numbered. cbn [imap]. rewrite Nat.add_0_r. f_equal. apply imap_ext. intros i x _. cbn. f_equal. lia.
Qed.
Lemma numbered_app n l1 l2 : numbered n (l1 ++ l2) = numbered n l1 ++ numbered (n + length l1) l2.
Proof.
  revert n. induction l1 as [|r l1 IH]; intros n; cbn [app length]; [by rewrite Nat.add_0_r|].
  rewrite !numbered_cons, IH. cbn [app]. do 3 f_equal. lia.
Qed.
Lemma numbered_snoc n l r : numbered n (l ++ [r]) = numbered n l ++ [placed (n + length l) r].
Proof. by rewrite numbered_app, numbered_cons. Qed.
Lemma length_numbered n l : length (numbered n l) = length l.
Proof. apply length_imap. Qed.
Lemma numbered_has_position n l : Forall has_position (numbered n l).
Proof.
  rewrite Forall_forall. intros x (i & y & -> & _)%elem_of_lookup_imap. unfold has_position. by rewrite placed_order.
Qed.
Lemma numbered_typed n l : Forall entry_typed l → Forall resolver_typed (numbered n l).
Proof.
  rewrite !Forall_forall. intros H x (i & y & -> & Hy)%elem_of_lookup_imap. apply placed_typed, H.
  by eapply list_elem_of_lookup_2.
Qed.
Lemma numbered_NoDup n l : NoDup (numbered n l).
Proof.
  apply NoDup_alt. intros i j x Hi Hj. unfold numbered in *.
  apply list_lookup_imap_Some in Hi as (y & _ & ->). apply list_lookup_imap_Some in Hj as (z & _ & E).
  pose proof (placed_order (n + i) y) as H. rewrite E, placed_order in H. injection H as H. lia.
Qed.

(** [f] adds the resolvers [l], wherever they go. *)
Definition adds (f : list CFDict → option (list CFDict)) (l : list CFDict) : Prop :=
  Forall entry_typed l ∧
  ∀ l0, Z.of_nat (length l0 + length l) < 2 ^ 31 → f (numbered 0 l0) = Some (numbered 0 (l0 ++ l)).

Lemma adds_nil : adds Some [].
Proof using. split; [done|]. intros l0 _. by rewrite app_nil_r. Qed.

Lemma adds_one r : entry_typed r → adds (λ l, add_resolver S_if_nameindex_cache l r) [r].
Proof using Laws.
  intros Hr. split; [by constructor|]. intros l0 Hl. cbn [length] in Hl.
  rewrite add_resolver_appends by (try done; try apply numbered_has_position; rewrite length_numbered; lia).
  by rewrite length_numbered, numbered_snoc.
Qed.

Lemma adds_app f g l k : adds f l → adds g k → adds (λ rs, rs ← f rs; g rs) (l ++ k).
Proof using.
  intros [Hl Hf] [Hk Hg]. split; [by apply Forall_app|]. intros l0 H. rewrite length_app in H.
  rewrite Hf by lia. cbn [mbind option_bind]. rewrite Hg by (rewrite length_app; lia). by rewrite app_assoc.
Qed.
Lemma adds_ext f g l : (∀ rs, f rs = g rs) → adds f l → adds g l.
Proof using. intros E [Hl Hf]. split; [done|]. intros l0 H. rewrite <-E. by apply Hf. Qed.

(** ** Supplemental resolvers *)

(** What is left of a service's dictionary in every resolver made from it. *)
Record base_typed (r : CFDict) : Prop := {
  base_interface : match r !! "InterfaceName" with None | Some (CFString _) => True | _ => False end;
  base_flags : match r !! DNS_CONFIGURATION_FLAGS_KEY with None | Some (CFNumber _ true) => True | _ => False end;
  base_order : r !! DNS_CONFIGURATION_ORDER_KEY = None;
}.

Lemma dns_base dns : dns_typed dns → base_typed dns.
Proof using. intros [H1 H2 H3]. split; [done|by rewrite H2|done]. Qed.

Lemma merge_flags_base r f : base_typed r → base_typed (merge_configuration_flags r f).
Proof using. intros [H1 H2 H3]. unfold merge_configuration_flags. by split; lookup_dict. Qed.

Lemma signature_typed r rType cID i : base_typed r →
  match r !! "DomainName" with None | Some (CFString _) => True | _ => False end →
  entry_typed (add_resolver_signature r rType cID i).
Proof using.
  intros [H1 H2 H3] Hd. unfold add_resolver_signature. split; lookup_dict; [done..|].
  eexists. split; [done|]. rewrite str_length_app. cbn. lia.
Qed.

Lemma supplemental_typed serviceID dns orders scoped i d o : base_typed dns →
  entry_typed (supplemental_resolver serviceID dns orders scoped i d o).1.
Proof using.
  intros [H1 H2 H3]. unfold supplemental_resolver.
  set (dns' := if (0 <? String.length d)%nat then _ else _).
  assert (Hd : match dns' !! "DomainName" with None | Some (CFString _) => True | _ => False end).
  { unfold dns'. destruct (0 <? String.length d)%nat; by lookup_dict. }
  assert (Hk : ∀ key, key ≠ "DomainName" → dns' !! key = dns !! key).
  { intros key Hk. unfold dns'. destruct (0 <? String.length d)%nat; by lookup_dict. }
  assert (H : ∀ r, (∀ key, key ≠ "SearchOrder" → r !! key = dns' !! key) →
    entry_typed (add_resolver_signature (delete "SortList" (delete "SearchDomains"
      (delete "SupplementalMatchOrders" (delete "SupplementalMatchDomains" r))))
      (if scoped then "Supplemental/Scoped" else "Supplemental") (Some serviceID) (Z.of_nat i))).
  { intros r Hr. apply signature_typed; [split|]; lookup_dict; rewrite Hr by done; rewrite ?Hk by done; done. }
  destruct (orders ≫= _) as [[]|]; try (destruct (has_key dns' "SearchOrder")); cbn [fst];
    apply H; intros key Hne; by rewrite ?lookup_insert_ne by done.
Qed.

Fixpoint supplemental_entries (serviceID : string) (dns : CFDict) (orders : option (list CFType))
    (scoped : bool) (i : nat) (domains : list CFType) (defaultOrder : Z) : list CFDict :=
  match domains with
  | [] => []
  | CFString d :: domains =>
      let '(r, defaultOrder) := supplemental_resolver serviceID dns orders scoped i d defaultOrder in
      r :: supplemental_entries serviceID dns orders scoped (S i) domains defaultOrder
  | _ :: domains => supplemental_entries serviceID dns orders scoped (S i) domains defaultOrder
  end.

(** [None] and an array of another length do not allow an order for each domain. *)
Definition supplementals (serviceID : string) (dns : CFDict) (defaultOrder : Z) (scoped : bool) : list CFDict :=
  match get_array dns "SupplementalMatchDomains", get_array dns "ServerAddresses" with
  | Some domains, Some (_ :: _) =>
      match dns !! "SupplementalMatchOrders" with
      | None => supplemental_entries serviceID dns None scoped 0 domains defaultOrder
      | Some (CFArray orders) =>
          if (length domains =? length orders)%nat
          then supplemental_entries serviceID dns (Some orders) scoped 0 domains defaultOrder else []
      | Some _ => []
      end
  | _, _ => []
  end.

Lemma supplemental_loop_adds serviceID dns orders scoped i domains o : base_typed dns →
  adds (λ rs, supplemental_loop S_if_nameindex_cache rs serviceID dns orders scoped i domains o)
    (supplemental_entries serviceID dns orders scoped i domains o).
Proof using Laws.
  intros Hdns. revert i o. induction domains as [|v domains IH]; intros i o; [apply adds_nil|].
  cbn [supplemental_loop supplemental_entries].
  destruct v; [|apply IH..].
  pose proof (supplemental_typed serviceID dns orders scoped i s o Hdns) as Ht.
  destruct (supplemental_resolver _ _ _ _ _ _ _) as [r o']. cbn [fst] in Ht.
  apply (adds_app _ _ [r] _ (adds_one r Ht) (IH (S i) o')).
Qed.

Lemma add_supplemental_adds serviceID dns o scoped : base_typed dns →
  adds (λ rs, add_supplemental S_if_nameindex_cache rs serviceID dns o scoped) (supplementals serviceID dns o scoped).
Proof using Laws.
  intros Hdns. unfold add_supplemental, supplementals.
  destruct (get_array dns "SupplementalMatchDomains") as [[|d domains]|]; [|..|apply adds_nil].
  - destruct (get_array dns "ServerAddresses") as [[|a servers]|]; [apply adds_nil| |apply adds_nil].
    repeat case_match; apply adds_nil.
  - destruct (get_array dns "ServerAddresses") as [[|a servers]|]; [apply adds_nil| |apply adds_nil].
    destruct (dns !! "SupplementalMatchOrders") as [[]|]; try apply adds_nil; [|by apply (supplemental_loop_adds _ _ _ _ _ (d :: domains))].
    destruct (_ =? _)%nat; [by apply (supplemental_loop_adds _ _ _ _ _ (d :: domains))|apply adds_nil].
Qed.

Variables (services : list (string * service_dict)) (service_order : option (list CFType)).
(** The dictionaries of the services hold what [get_dns_changes] puts there. *)
Hypothesis Hservices : ∀ serviceID service dns,
  (serviceID, service) ∈ services → sd_dns service = Some dns → dns_typed dns.

(** The resolvers that the [i]th service has for the domains it supplements. *)
Definition service_supplementals (scoped : option (string * service_dict)) (i : nat)
    (s : string * service_dict) : list CFDict :=
  let scoped := prod_map CFString id <$> scoped in
  match sd_dns s.2 with
  | Some dns =>
      if not_for_interface s.2 (dns !! "InterfaceName") scoped then []
      else
        let '(newDNS, trusted) := supplemental_interface dns (fst <$> scoped) in
        supplementals s.1 (merge_configuration_flags newDNS (supplemental_flags s.2 scoped trusted))
          (default_order services service_order i s.1) (bool_decide (is_Some scoped))
  | None => []
  end.

Definition all_supplementals (scoped : option (string * service_dict)) : list CFDict :=
  concat (imap (service_supplementals scoped) services).

Lemma supplemental_interface_base dns (scoped : option string) : dns_typed dns →
  base_typed (supplemental_interface dns (CFString <$> scoped)).1.
Proof using.
  intros H. pose proof (dns_base _ H) as [H1 H2 H3]. unfold supplemental_interface.
  destruct scoped as [i|]; cbn [fmap option_fmap option_map].
  - cbn [fst]. split; by lookup_dict.
  - destruct (dns !! "InterfaceName") eqn:E; [|by apply dns_base].
    destruct (is_true _); cbn [fst]; [by apply dns_base|]. split; by lookup_dict.
Qed.

Lemma add_supplemental_resolvers_adds scoped :
  adds (λ rs, add_supplemental_resolvers S_if_nameindex_cache services service_order rs (prod_map CFString id <$> scoped))
    (all_supplementals scoped).
Proof using Laws Hservices.
  unfold add_supplemental_resolvers, all_supplementals.
  assert (H : ∀ i rest, (∀ s, s ∈ rest → s ∈ services) →
    adds (λ rs, add_supplemental_resolvers_from S_if_nameindex_cache services service_order rs i rest
                  (prod_map CFString id <$> scoped))
      (concat (imap (λ k, service_supplementals scoped (i + k)) rest))); [|by apply (H 0%nat)].
  intros i rest Hrest. revert i. induction rest as [|[serviceID service] rest IH]; intros i; [apply adds_nil|].
  cbn [add_supplemental_resolvers_from imap concat]. rewrite Nat.add_0_r.
  rewrite (imap_ext _ (λ k, service_supplementals scoped (S i + k)))
    by (intros k x _; cbn; by rewrite Nat.add_succ_r).
  eapply (adds_app _ _ _ _ _ (IH ltac:(intros; apply Hrest; by right) (S i))). Unshelve.
  unfold service_supplementals. cbn [fst snd]. destruct (sd_dns service) as [dns|] eqn:E; [|apply adds_nil].
  destruct (not_for_interface _ _ _); [apply adds_nil|].
  assert (Hdns : dns_typed dns) by (eapply Hservices; [apply Hrest; by left|done]).
  pose proof (supplemental_interface_base dns (fst <$> scoped) Hdns) as Hb.
  replace (fst <$> (prod_map CFString id <$> scoped)) with (CFString <$> (fst <$> scoped)) by (by destruct scoped).
  destruct (supplemental_interface _ _) as [newDNS trusted]. by apply add_supplemental_adds, merge_flags_base.
Qed.

(** ** Multicast and private resolvers *)

Definition domain_entries (rType options : string) (timeout : option CFType) (first : Z) (domains : list CFType)
    : list CFDict :=
  concat (imap (λ i domain,
    match _SC_trimDomain (Some domain) with
    | Some domain =>
        [add_resolver_signature
           (domain_resolver domain options (u32 (first + DEFAULT_SEARCH_ORDER / 1000 * Z.of_nat i)) timeout)
           rType None (Z.of_nat i)]
    | None => []
    end) domains).
Definition multicast_entries (timeout : option CFType) : list CFType → list CFDict :=
  domain_entries "Multicast DNS" "mdns" timeout (DEFAULT_SEARCH_ORDER + DEFAULT_SEARCH_ORDER / 2).
Definition private_entries (timeout : option CFType) : list CFType → list CFDict :=
  domain_entries "Private DNS" "pdns" timeout (DEFAULT_SEARCH_ORDER - DEFAULT_SEARCH_ORDER / 4).

Lemma domain_entry_typed rType domain options order timeout i :
  entry_typed (add_resolver_signature (domain_resolver domain options order timeout) rType None i).
Proof using. apply signature_typed; [split|]; unfold domain_resolver; destruct timeout; by lookup_dict. Qed.

(** Both loops, as they differ in constants only. *)
Lemma domain_loop_adds rType options timeout first (f : list CFDict → nat → list CFType → option (list CFDict)) :
  (∀ rs i, f rs i [] = Some rs) →
  (∀ rs i domain domains, f rs i (domain :: domains) =
     rs ← match _SC_trimDomain (Some domain) with
          | None => Some rs
          | Some domain =>
              add_resolver S_if_nameindex_cache rs
                (add_resolver_signature
                   (domain_resolver domain options (u32 (first + DEFAULT_SEARCH_ORDER / 1000 * Z.of_nat i)) timeout)
                   rType None (Z.of_nat i))
          end; f rs (S i) domains) →
  ∀ domains, adds (λ rs, f rs 0%nat domains) (domain_entries rType options timeout first domains).
Proof using Laws.
  intros Hnil Hcons domains. unfold domain_entries.
  set (entry := λ (i : nat) (domain : CFType), match _SC_trimDomain (Some domain) with
    | Some domain => [add_resolver_signature
        (domain_resolver domain options (u32 (first + DEFAULT_SEARCH_ORDER / 1000 * Z.of_nat i)) timeout)
        rType None (Z.of_nat i)]
    | None => []
    end).
  assert (H : ∀ i, adds (λ rs, f rs i domains) (concat (imap (λ k, entry (i + k)%nat) domains))); [|by apply (H 0%nat)].
  induction domains as [|domain domains IH]; intros i.
  { eapply adds_ext; [|apply adds_nil]. intros rs. by rewrite Hnil. }
  cbn [imap concat]. rewrite Nat.add_0_r, (imap_ext _ (λ k, entry (S i + k)%nat))
    by (intros k x _; cbn; by rewrite Nat.add_succ_r).
  eapply adds_ext; [intros rs; symmetry; apply Hcons|]. refine (adds_app _ _ _ _ _ (IH (S i))).
  unfold entry. destruct (_SC_trimDomain _); [apply adds_one, domain_entry_typed|apply adds_nil].
Qed.

Lemma add_multicast_resolvers_adds timeout domains :
  adds (λ rs, add_multicast_resolvers S_if_nameindex_cache timeout rs 0 domains) (multicast_entries timeout domains).
Proof using Laws. by apply domain_loop_adds. Qed.
Lemma add_private_resolvers_adds timeout domains :
  adds (λ rs, add_private_resolvers S_if_nameindex_cache timeout rs 0 domains) (private_entries timeout domains).
Proof using Laws. by apply domain_loop_adds. Qed.

(** ** Scoped resolvers *)

(** The interface a service has a scoped resolver for: it has servers, and is not
    service-specific. *)
Definition scoped_interface (dns : CFDict) : option string :=
  match get_array dns "ServerAddresses", dns !! "InterfaceName" with
  | Some (_ :: _), Some (CFString interface) =>
      if String.eqb interface "*" || has_key dns "ServiceIdentifier" then None else Some interface
  | _, _ => None
  end.

Definition available (interface : string) : bool :=
  match _SC_cfstring_to_cstring_ext interface (Some IFNAMSIZ) kCFStringEncodingASCII with
  | Some if_name => negb (my_if_nametoindex S_if_nameindex_cache if_name =? 0)
  | None => false
  end.

(** The configuration of a service with its own search list and no domain. *)
Definition with_own_search (dns : CFDict) : CFDict :=
  delete "SupplementalMatchOrders" (delete "SupplementalMatchDomains"
    (set_search_domains (without_search dns) (found_domains (default_search_domains dns)))).

Definition scoped_entry (serviceID : string) (service : service_dict) (dns : CFDict) : CFDict :=
  add_resolver_signature
    (merge_configuration_flags (with_own_search dns)
       (Z.lor DNS_RESOLVER_FLAGS_SCOPED (dns_resolver_flags_service service 0)))
    "Scoped" (Some serviceID) 0.

(** The first service of each interface, in the order of the services: its scoped
    resolver and the domains that are supplemented on its interface. *)
Fixpoint scoped_entries (seen : list string) (order : list CFType) : list CFDict :=
  match order with
  | [] => []
  | serviceID :: order =>
      match (s ← find_service services serviceID; dns ← sd_dns s.2; interface ← scoped_interface dns;
             Some (s, dns, interface)) with
      | Some ((serviceID, service), dns, interface) =>
          if decide (interface ∈ seen) then scoped_entries seen order
          else
            (if available interface && negb (dns_resolver_flags_service service 0 =? 0)
             then scoped_entry serviceID service dns :: all_supplementals (Some (interface, service)) else [])
            ++ scoped_entries (seen ++ [interface]) order
      | None => scoped_entries seen order
      end
  end.

Lemma with_own_search_base dns : dns_typed dns → base_typed (with_own_search dns) ∧
  with_own_search dns !! "DomainName" = None.
Proof using.
  intros H%dns_base. destruct H as [H1 H2 H3]. unfold with_own_search, set_search_domains, without_search.
  destruct (found_domains _); (split; [split|]); by lookup_dict.
Qed.

Lemma merge_flags_domain r f : merge_configuration_flags r f !! "DomainName" = r !! "DomainName".
Proof using. unfold merge_configuration_flags. by lookup_dict. Qed.

Lemma merge_flags_delete r f key : key ≠ DNS_CONFIGURATION_FLAGS_KEY →
  delete key (merge_configuration_flags r f) = merge_configuration_flags (delete key r) f.
Proof using.
  intros Hk. unfold merge_configuration_flags. rewrite delete_insert_ne by done. by rewrite lookup_delete_ne.
Qed.

Lemma seen_contains (seen : list string) interface :
  CFArrayContainsValue (CFString <$> seen) (CFString interface) = bool_decide (interface ∈ seen).
Proof using Laws.
  unfold CFArrayContainsValue. induction seen as [|s seen IH]; [done|].
  cbn [fmap list_fmap existsb]. rewrite IH, CFEqual_string.
  apply eq_true_iff_eq. rewrite orb_true_iff, !bool_decide_eq_true, elem_of_cons, String.eqb_eq. done.
Qed.

Lemma scoped_skip seen serviceID rs :
  (s ← find_service services serviceID; dns ← sd_dns s.2; interface ← scoped_interface dns;
   Some (s, dns, interface)) = None →
  (∀ id service dns, find_service services serviceID = Some (id, service) → sd_dns service = Some dns → dns_typed dns) →
  add_scoped_resolver S_if_nameindex_cache services service_order rs seen serviceID = Some (rs, seen).
Proof using Laws.
  intros H Ht. unfold add_scoped_resolver. destruct (find_service services serviceID) as [[id service]|]; [|done].
  cbn [mbind option_bind snd] in H. destruct (sd_dns service) as [dns|] eqn:Ed; [|done]. cbn [mbind option_bind] in H.
  specialize (Ht id service dns eq_refl Ed) as [Hi _ _]. unfold scoped_interface in H.
  destruct (get_array dns "ServerAddresses") as [[|]|]; [done| |done].
  destruct (dns !! "InterfaceName") as [v|]; [|done]. destruct v; try done.
  rewrite CFEqual_string. destruct (String.eqb s "*"); [done|]. cbn [orb] in H. by destruct (has_key _ _).
Qed.

Lemma find_service_typed serviceID id service dns :
  find_service services serviceID = Some (id, service) → sd_dns service = Some dns → dns_typed dns.
Proof using Hservices.
  intros E. unfold find_service in E. destruct serviceID; try done.
  apply List.find_some in E as [Hin _]. apply Hservices with (serviceID := id). by apply list_elem_of_In.
Qed.

Lemma scoped_resolver_adds serviceID id service dns interface seen :
  find_service services serviceID = Some (id, service) → sd_dns service = Some dns →
  scoped_interface dns = Some interface → interface ∉ seen →
  ∃ f, adds f (if available interface && negb (dns_resolver_flags_service service 0 =? 0)
               then scoped_entry id service dns :: all_supplementals (Some (interface, service)) else []) ∧
    ∀ rs, add_scoped_resolver S_if_nameindex_cache services service_order rs (CFString <$> seen) serviceID =
      rs ← f rs; Some (rs, CFString <$> (seen ++ [interface])).
Proof using Laws Hservices.
  intros Ef Ed Ei Hn. pose proof (find_service_typed _ _ _ _ Ef Ed) as Ht.
  unfold add_scoped_resolver. rewrite Ef, Ed. clear Ef.
  unfold scoped_interface in Ei. destruct (get_array dns "ServerAddresses") as [[|]|]; [done| |done].
  destruct (dns !! "InterfaceName") as [v|] eqn:Eint; [|done]. destruct v as [s| | | | |]; try done.
  rewrite CFEqual_string. destruct (String.eqb s "*"); [done|]. cbn [orb] in Ei.
  destruct (has_key dns "ServiceIdentifier"); [done|]. injection Ei as ->.
  rewrite seen_contains, bool_decide_false, fmap_app by done. cbn [fmap list_fmap]. rewrite extract_own.
  cbn [mbind option_bind fst snd]. unfold available.
  set (if_index := match _SC_cfstring_to_cstring_ext interface _ _ with Some _ => _ | None => 0 end).
  assert (Ea : match _SC_cfstring_to_cstring_ext interface (Some IFNAMSIZ) kCFStringEncodingASCII with
               | Some if_name => negb (my_if_nametoindex S_if_nameindex_cache if_name =? 0)
               | None => false end = negb (if_index =? 0)) by (unfold if_index; by case_match).
  rewrite Ea. clear Ea.
  destruct (if_index =? 0); cbn [negb andb]; [by exists Some; split; [apply adds_nil|]|].
  destruct (dns_resolver_flags_service service 0 =? 0); cbn [negb]; [by exists Some; split; [apply adds_nil|]|].
  rewrite !merge_flags_delete by done. fold (with_own_search dns). fold (scoped_entry id service dns).
  eexists. split.
  - refine (adds_app _ _ [scoped_entry id service dns] _ (adds_one _ _)
              (add_supplemental_resolvers_adds (Some (interface, service)))).
    destruct (with_own_search_base dns Ht) as [Hb Hd]. unfold scoped_entry. apply signature_typed; [by apply merge_flags_base|].
    by rewrite merge_flags_domain, Hd.
  - intros rs. cbn beta. by destruct (add_resolver _ _ _).
Qed.

Lemma scoped_loop_adds seen order :
  adds (λ rs, scoped_loop S_if_nameindex_cache services service_order rs (CFString <$> seen) order)
    (scoped_entries seen order).
Proof using Laws Hservices.
  revert seen. induction order as [|serviceID order IH]; intros seen; [apply adds_nil|].
  cbn [scoped_loop scoped_entries].
  destruct (s ← _; _) as [[[[id service] dns] interface]|] eqn:E.
  - destruct (find_service services serviceID) as [[id' service']|] eqn:Ef; [|done].
    cbn [mbind option_bind snd] in E. destruct (sd_dns service') as [dns'|] eqn:Ed; [|done].
    cbn [mbind option_bind] in E. destruct (scoped_interface dns') as [i|] eqn:Ei; [|done].
    cbn [mbind option_bind] in E. injection E as -> -> -> ->. destruct (decide (interface ∈ seen)) as [Hs|Hs].
    + eapply adds_ext; [|apply (IH seen)]. intros rs. cbn beta.
      unfold add_scoped_resolver. rewrite Ef, Ed. unfold scoped_interface in Ei.
      destruct (get_array dns "ServerAddresses") as [[|]|]; [done| |done].
      destruct (dns !! "InterfaceName") as [v|] eqn:Eint; [|done]. destruct v as [s| | | | |]; try done.
      rewrite CFEqual_string. destruct (String.eqb s "*"); [done|]. cbn [orb] in Ei.
      destruct (has_key dns "ServiceIdentifier"); [done|]. injection Ei as ->.
      by rewrite seen_contains, bool_decide_true.
    + destruct (scoped_resolver_adds serviceID id service dns interface seen Ef Ed Ei Hs) as (f & Hf & E').
      eapply adds_ext; [|apply (adds_app _ _ _ _ Hf (IH (seen ++ [interface])))]. intros rs. cbn beta.
      rewrite E'. by destruct (f rs).
  - eapply adds_ext; [|apply (IH seen)]. intros rs. cbn beta. rewrite scoped_skip; [done|done|].
    intros. by eapply find_service_typed.
Qed.

Definition all_scoped : list CFDict :=
  match services with [] => [] | _ => scoped_entries [] (all_services_order services service_order) end.
Lemma add_scoped_resolvers_adds :
  adds (add_scoped_resolvers S_if_nameindex_cache services service_order) all_scoped.
Proof using Laws Hservices.
  pose proof (scoped_loop_adds [] (all_services_order services service_order)) as H.
  unfold add_scoped_resolvers, all_scoped. destruct services; [apply adds_nil|exact H].
Qed.

(** ** Service-specific resolvers *)

Definition service_specific (serviceID : string) (dns : CFDict) : list CFDict :=
  let all := DNS_RESOLVER_FLAGS_REQUEST_ALL_RECORDS in
  let dns := with_own_search dns in
  let dns := if has_key dns "InterfaceName" then <[DNS_CONFIGURATION_SCOPED_QUERY_KEY := CFBoolean true]> dns else dns in
  (if has_key dns "InterfaceName"
   then [add_resolver_signature
           (delete "ServiceIdentifier" (merge_configuration_flags dns (Z.lor all DNS_RESOLVER_FLAGS_SCOPED)))
           "Service" (Some serviceID) 0]
   else []) ++
  [add_resolver_signature (merge_configuration_flags dns (Z.lor all DNS_RESOLVER_FLAGS_SERVICE_SPECIFIC))
     "Service" (Some serviceID) 0].

Fixpoint service_specific_entries (seen : list CFType) (rest : list (string * service_dict)) : list CFDict :=
  match rest with
  | [] => []
  | (serviceID, service) :: rest =>
      match (dns ← sd_dns service; id ← dns !! "ServiceIdentifier"; Some (dns, id)) with
      | Some (dns, CFNumber value exact) =>
          if CFArrayContainsValue seen (CFNumber value exact) then service_specific_entries seen rest
          else service_specific serviceID dns ++ service_specific_entries (seen ++ [CFNumber value exact]) rest
      | _ => service_specific_entries seen rest
      end
  end.

Lemma service_specific_typed serviceID dns : dns_typed dns → Forall entry_typed (service_specific serviceID dns).
Proof using.
  intros H. destruct (with_own_search_base dns H) as [Hb Hd]. unfold service_specific.
  set (d := if has_key (with_own_search dns) "InterfaceName" then _ else _).
  assert (base_typed d ∧ d !! "DomainName" = None) as [Hbd Hdd].
  { unfold d. destruct (has_key _ _); [|done]. destruct Hb as [B1 B2 B3]. split; [split|]; by lookup_dict. }
  apply Forall_app. split.
  - destruct (has_key d "InterfaceName"); [|done]. constructor; [|done].
    rewrite merge_flags_delete by done. apply signature_typed.
    + apply merge_flags_base. destruct Hbd as [B1 B2 B3]. split; by lookup_dict.
    + rewrite merge_flags_domain. lookup_dict. by rewrite Hdd.
  - constructor; [|done]. apply signature_typed; [by apply merge_flags_base|]. by rewrite merge_flags_domain, Hdd.
Qed.

Lemma service_specific_adds serviceID service dns value exact seen rest :
  sd_dns service = Some dns → dns_typed dns → dns !! "ServiceIdentifier" = Some (CFNumber value exact) →
  CFArrayContainsValue seen (CFNumber value exact) = false →
  ∃ f, adds f (service_specific serviceID dns) ∧
    ∀ rs, add_service_specific_resolvers S_if_nameindex_cache rs seen ((serviceID, service) :: rest) =
      rs ← f rs; add_service_specific_resolvers S_if_nameindex_cache rs (seen ++ [CFNumber value exact]) rest.
Proof using Laws.
  intros Ed Ht Ei Hs. pose proof (service_specific_typed serviceID dns Ht) as Hall.
  unfold service_specific in *. cbn zeta in *. unfold with_own_search in *.
  set (d0 := delete "SupplementalMatchOrders" _) in *.
  assert (Hk : has_key (<[DNS_CONFIGURATION_SCOPED_QUERY_KEY := CFBoolean true]> d0) "InterfaceName" =
               has_key d0 "InterfaceName") by (unfold has_key; by lookup_dict).
  destruct (has_key d0 "InterfaceName") eqn:E0.
  - rewrite Hk in *. cbn [app] in *. inversion Hall as [|r1 l1 H1 Hl1]; subst. inversion Hl1 as [|r2 l2 H2 _]; subst.
    eexists. split; [exact (adds_app _ _ [_] [_] (adds_one _ H1) (adds_one _ H2))|].
    intros rs. cbn [add_service_specific_resolvers]. rewrite Ed, Ei, Hs, extract_own.
    cbn [mbind option_bind fst snd]. fold d0. rewrite E0. by destruct (add_resolver _ _ _).
  - rewrite E0 in *. cbn [app] in *. inversion Hall as [|r2 l2 H2 _]; subst.
    eexists. split; [exact (adds_one _ H2)|].
    intros rs. cbn [add_service_specific_resolvers]. rewrite Ed, Ei, Hs, extract_own.
    cbn [mbind option_bind fst snd]. fold d0. by rewrite E0.
Qed.

Lemma add_service_specific_resolvers_adds :
  adds (λ rs, add_service_specific_resolvers S_if_nameindex_cache rs [] services) (service_specific_entries [] services).
Proof using Laws Hservices.
  assert (H : ∀ seen rest, (∀ s, s ∈ rest → s ∈ services) →
    adds (λ rs, add_service_specific_resolvers S_if_nameindex_cache rs seen rest) (service_specific_entries seen rest));
    [|by apply H].
  intros seen rest. revert seen. induction rest as [|[serviceID service] rest IH]; intros seen Hrest; [apply adds_nil|].
  assert (IH' : ∀ seen, adds (λ rs, add_service_specific_resolvers S_if_nameindex_cache rs seen rest)
                          (service_specific_entries seen rest)) by (intros; apply IH; intros; apply Hrest; by right).
  cbn [add_service_specific_resolvers service_specific_entries].
  destruct (sd_dns service) as [dns|] eqn:Ed; [|apply IH'].
  assert (Ht : dns_typed dns) by (eapply Hservices; [apply Hrest; by left|done]).
  cbn [mbind option_bind]. destruct (dns !! "ServiceIdentifier") as [v|] eqn:Ei; [|apply IH'].
  cbn [mbind option_bind]. destruct v as [|value exact| | | |]; try apply IH'.
  destruct (CFArrayContainsValue seen _) eqn:Es; [apply IH'|].
  destruct (service_specific_adds serviceID service dns value exact seen rest Ed Ht Ei Es) as (f & Hf & E).
  eapply adds_ext; [|exact (adds_app _ _ _ _ Hf (IH' (seen ++ [CFNumber value exact])))].
  intros rs. cbn beta. rewrite <-E. cbn [add_service_specific_resolvers]. by rewrite Ed, Ei, Es.
Qed.
End entries.
