(* ===== verification/DnsOps.v ===== *)
(** * The DNS configuration: the block made of a resolver's dictionary

    [create_resolver] is a sequence of calls of the functions of [dnsinfo_create.c], all
    with proper arguments and ending with the identifier of the configuration; what a
    client will see of the resolver is [resolver_of]. *)

From S2P Require Import Prelude RouteTypes RouteList DnsCreate DnsExpand DnsResolver RouteDict NwiState DnsFlat DnsMerge DnsList DnsSet.

Local Open Scope Z_scope.
Local Open Scope c_scope.

(** [if_indextoname(3)] answers a C string. *)
Class ReachabilityLaws `{!Reachability} : Prop := {
  if_indextoname_string i s : if_indextoname i = Some s → no_nul s;
}.

Section ops.
Context {N : Network} {CF : CoreFoundation} {R : Reachability}.
Variable S_if_nameindex_cache : option (list (string * Z)).
Variable garbage : nat → byte.

Definition op_list {A} (f : A → resolver_op) (o : option A) : list resolver_op :=
  match o with Some a => [f a] | None => [] end.
Definition number_of (val : option CFType) : option Z :=
  match val with Some (CFNumber value true) => Some value | _ => None end.
Definition array_of (val : option CFType) : list CFType :=
  match val with Some (CFArray l) => l | _ => [] end.
Definition options_of (dns : CFDict) : option string :=
  match dns !! "Options" with Some (CFString s) => Some (c_trunc s) | _ => None end.
Definition cid_of (dns : CFDict) : option string :=
  match dns !! DNS_CONFIGURATION_CONFIGURATION_ID with
  | Some (CFString s) => if (0 <? String.length s)%nat then Some (c_trunc s) else None
  | _ => None
  end.

(** The interface index, and its name if there is such an interface. *)
Definition interface_of (dns : CFDict) : option (Z * option string) :=
  if_index ← number_of (dns !! DNS_CONFIGURATION_IF_INDEX_KEY);
  Some (u32 if_index, if if_index =? 0 then None else my_if_indextoname S_if_nameindex_cache (u32 if_index)).
Definition target_index (dns : CFDict) : Z :=
  match interface_of dns with Some (i, Some _) => i | _ => 0 end.

Definition resolver_ops (dns : CFDict) : list resolver_op :=
  op_list Set_domain (dns !! "DomainName" ≫= domain_of) ++
  (Add_search <$> omap domain_of (array_of (dns !! "SearchDomains"))) ++
  op_list (λ p, Set_if_index p.1 p.2) (interface_of dns) ++
  op_list (λ f, Set_flags (u32 f)) (number_of (dns !! DNS_CONFIGURATION_FLAGS_KEY)) ++
  (Add_nameserver <$> omap (nameserver_of (target_index dns)) (array_of (dns !! "ServerAddresses"))) ++
  op_list (λ o, Set_order (u32 o)) (number_of (dns !! "SearchOrder")) ++
  (Add_sortaddr <$> omap sortaddr_of (array_of (dns !! "SortList"))) ++
  op_list (λ p, Set_port (p mod 2 ^ 16)) (number_of (dns !! "ServerPort")) ++
  op_list (λ t, Set_timeout (u32 t)) (number_of (dns !! "ServerTimeout")) ++
  op_list Set_options (options_of dns) ++
  op_list (λ i, Set_service_identifier (u32 i)) (number_of (dns !! "ServiceIdentifier")) ++
  op_list Set_configuration_identifier (cid_of dns).

(** ** The program is the sequence *)

(** Two programs that do the same from every state. *)
Definition same {A} (m m' : C block A) : Prop := ∀ s, m s = m' s.

Notation runs ops := (for_each ops (run_op garbage)).

Lemma same_then m m' ops1 ops2 : same m (runs ops1) → same m' (runs ops2) →
  same (m;; m') (runs (ops1 ++ ops2)).
Proof.
  intros H1 H2 s. rewrite for_each_app. unfold bind. rewrite H1.
  destruct (for_each _ _ s) as [[[] s']|]; [apply H2|done].
Qed.

Lemma same_one op : same (run_op garbage op) (runs [op]).
Proof. intros s. cbn [for_each]. unfold bind. by destruct (run_op garbage op s) as [[[] s']|]. Qed.

Lemma same_string (f : string → resolver_op) o :
  same (with_string o (λ s, run_op garbage (f s))) (runs (op_list f o)).
Proof. destruct o; [apply same_one|done]. Qed.
Lemma same_number (f : Z → resolver_op) v :
  same (with_number v (λ n, run_op garbage (f n))) (runs (op_list f (number_of v))).
Proof. destruct v as [[|? []| | | |]|]; try done. apply same_one. Qed.

Lemma same_array {A} (f : A → resolver_op) (g : CFType → option A) v :
  same (with_array v (λ x, match g x with Some a => run_op garbage (f a) | None => ret tt end))
    (runs (f <$> omap g (array_of v))).
Proof.
  destruct v as [v|]; [|done]. destruct v as [| | |l| |]; try done.
  cbn [with_array array_of]. induction l as [|x l IH]; [done|]. cbn [for_each omap list_omap].
  destruct (g x); [|exact IH]. cbn [fmap list_fmap]. exact (same_then _ _ [_] _ (same_one _) IH).
Qed.

(** The index of the interface that [create_resolver] goes on with. *)
Lemma same_interface dns m ops : same m (runs ops) →
  same (let* _ := create_resolver_interface S_if_nameindex_cache garbage
          (dns !! DNS_CONFIGURATION_IF_INDEX_KEY) in m)
    (runs (op_list (λ p, Set_if_index p.1 p.2) (interface_of dns) ++ ops)).
Proof.
  intros H s. unfold create_resolver_interface, interface_of.
  destruct (dns !! DNS_CONFIGURATION_IF_INDEX_KEY) as [[|v []| | | |]|]; try apply H.
  cbn [number_of mbind option_bind op_list app for_each fst snd run_op]. unfold bind.
  destruct (_dns_resolver_set_if_index _ _ _ _) as [[[] s']|]; [|done]. apply H.
Qed.

Lemma interface_result dns s i s' :
  create_resolver_interface S_if_nameindex_cache garbage (dns !! DNS_CONFIGURATION_IF_INDEX_KEY) s = Some (i, s') →
  i = target_index dns.
Proof.
  unfold create_resolver_interface, target_index, interface_of.
  destruct (dns !! DNS_CONFIGURATION_IF_INDEX_KEY) as [[|v []| | | |]|]; cbn [number_of mbind option_bind];
    try (intros [= <- _]; done).
  intros (a & s1 & _ & E)%bind_inv. unfold ret in E. simplify_eq. by destruct (if v =? 0 then None else _).
Qed.

Lemma same_target dns (k : Z → C block unit) ops : same (k (target_index dns)) (runs ops) →
  same (let* i := create_resolver_interface S_if_nameindex_cache garbage
          (dns !! DNS_CONFIGURATION_IF_INDEX_KEY) in k i)
    (runs (op_list (λ p, Set_if_index p.1 p.2) (interface_of dns) ++ ops)).
Proof.
  intros H s. rewrite <-(same_interface dns _ _ H). unfold bind.
  destruct (create_resolver_interface _ _ _ s) as [[i s']|] eqn:E; [|done].
  by rewrite (interface_result _ _ _ _ E).
Qed.

Lemma create_resolver_ops dns :
  create_resolver S_if_nameindex_cache garbage dns = build_resolver garbage (resolver_ops dns).
Proof.
  unfold create_resolver, build_resolver. f_equal. unfold resolver_ops.
  refine (same_then _ _ _ _ (same_string Set_domain _) _ _).
  refine (same_then _ _ _ _ (same_array Add_search domain_of _) _).
  refine (same_target dns _ _ _).
  refine (same_then _ _ _ _ (same_number (λ f, Set_flags (u32 f)) _) _).
  refine (same_then _ _ _ _ (same_array Add_nameserver _ _) _).
  refine (same_then _ _ _ _ (same_number (λ o, Set_order (u32 o)) _) _).
  refine (same_then _ _ _ _ (same_array Add_sortaddr sortaddr_of _) _).
  refine (same_then _ _ _ _ (same_number (λ p, Set_port (p mod 2 ^ 16)) _) _).
  refine (same_then _ _ _ _ (same_number (λ t, Set_timeout (u32 t)) _) _).
  refine (same_then _ _ _ _ _ _); [|refine (same_then _ _ _ _ (same_number (λ i, Set_service_identifier (u32 i)) _) _)].
  - unfold options_of. destruct (dns !! "Options") as [[]|]; try done. apply (same_string Set_options (Some _)).
  - unfold cid_of. destruct (dns !! DNS_CONFIGURATION_CONFIGURATION_ID) as [[]|]; try done.
    destruct (0 <? _)%nat; [|done]. apply (same_string Set_configuration_identifier (Some _)).
Qed.

(** ** Its arguments *)

Context {NL : NetworkLaws} {Laws : CoreFoundationLaws} {RL : ReachabilityLaws}.

Lemma cstring_no_nul s n e t : _SC_cfstring_to_cstring_ext s n e = Some t → no_nul t.
Proof using. unfold _SC_cfstring_to_cstring_ext. destruct (_ && _); [|done]. intros [= <-]. apply c_trunc_no_nul. Qed.

Lemma domain_of_no_nul v s : domain_of v = Some s → no_nul s.
Proof using. destruct v; try done. cbn [domain_of]. destruct (_ <? _)%nat; [|done]. apply cstring_no_nul. Qed.

Lemma my_if_indextoname_no_nul i s : my_if_indextoname S_if_nameindex_cache i = Some s → no_nul s.
Proof using RL.
  unfold my_if_indextoname. destruct S_if_nameindex_cache; [|apply if_indextoname_string].
  destruct (List.find _ _); [|done]. intros [= <-]. apply no_nul_take, c_trunc_no_nul.
Qed.

Lemma sockaddr_shape str addr : _SC_string_to_sockaddr str = Some addr →
  (length addr = 28%nat ∧ take 2 addr = [x10; x02]) ∨ (length addr = 28%nat ∧ take 2 addr = [x1c; x1c]).
Proof using NL Laws.
  unfold _SC_string_to_sockaddr. destruct (inet_aton str) as [a|] eqn:Ea.
  - intros [= <-]. left. split; [|done]. cbn [app length]. by rewrite length_app, (inet_aton_size _ _ Ea).
  - destruct (inet_pton AF_INET6 str) as [b|] eqn:Eb; [|done]. pose proof (inet_pton_size _ _ _ Eb) as Hb.
    cbn [addr_size] in Hb. intros E. right.
    destruct (IN6_IS_ADDR_LINKLOCAL b || IN6_IS_ADDR_MC_LINKLOCAL b); apply (inj Some) in E; subst addr;
      (split; [|done]); rewrite !length_app, length_le_encode; [|by rewrite Hb].
    cbn [length]. rewrite length_take, length_drop, Hb. by cbn.
Qed.

(** A server's address has the length it says, and one that can be looked at. *)
Lemma nameserver_ok i v addr : nameserver_of i v = Some addr → op_ok (Add_nameserver addr).
Proof using NL Laws.
  destruct v as [s| | | | |]; try done. unfold nameserver_of.
  destruct (_SC_cfstring_to_cstring_ext _ _ _) as [buf|]; [|done]. cbn [mbind option_bind].
  destruct (_SC_string_to_sockaddr buf) as [a|] eqn:Ea; [|done]. cbn [mbind option_bind].
  set (a' := set_scope i a). intros E.
  assert (Ha : (length a' = 28%nat ∧ take 2 a' = [x10; x02]) ∨ (length a' = 28%nat ∧ take 2 a' = [x1c; x1c])).
  { pose proof (sockaddr_shape _ _ Ea) as H. unfold a', set_scope. destruct (_ && negb (i =? 0)); [|done].
    assert (Hl : length a = 28%nat) by naive_solver.
    rewrite length_app, length_take, length_le_encode, Hl, take_app_le, take_take by (rewrite length_take; lia).
    change (2 `min` 24)%nat with 2%nat. destruct H as [[_ ->]|[_ ->]]; [by left|by right]. }
  clearbody a'. clear Ea.
  assert (Hload : ∀ off n, 0 <= off → 0 <= n → off + n <= Z.of_nat (length addr) → ∃ bs, mem_load addr off n = Some bs).
  { intros off n H1 H2 H3. unfold mem_load. rewrite !(proj2 (Z.leb_le _ _)) by done. by eexists. }
  destruct Ha as [[Hl Ht]|[Hl Ht]]; destruct a' as [|b0 [|b1 a']]; try done; injection Ht as -> ->;
    apply (inj Some) in E.
  - change (take 16 (x10 :: x02 :: a') = addr) in E.
    assert (La : length addr = 16%nat) by (rewrite <-E, length_take; lia).
    destruct (Hload 4 4) as (bs & Eb); [done|done|rewrite La; done|]. unfold op_ok, is_loopback.
    rewrite Eb, La. split; rewrite <-E; [done|]. by eexists.
  - change (take 28 (x1c :: x1c :: a') = addr) in E.
    assert (La : length addr = 28%nat) by (rewrite <-E, length_take; lia).
    destruct (Hload 8 16) as (bs & Eb); [done|done|rewrite La; done|]. unfold op_ok, is_loopback.
    rewrite Eb, La. split; rewrite <-E; [done|]. by eexists.
Qed.

Lemma sortaddr_ok v a : sortaddr_of v = Some a → length a = 8%nat.
Proof using Laws.
  destruct v as [s| | | | |]; try done. unfold sortaddr_of.
  destruct (_SC_cfstring_to_cstring_ext _ _ _) as [buf|]; [|done]. cbn [mbind option_bind].
  destruct (split_at "/" buf) as [front slash]. destruct (inet_aton front) as [b|] eqn:Eb; [|done].
  cbn [mbind option_bind]. apply inet_aton_size in Eb.
  assert (H : ∀ m, match slash with Some m => inet_aton m | None => be_encode 4 <$> class_mask (be_decode b) end = Some m →
    length m = 4%nat).
  { intros m. destruct slash; [apply inet_aton_size|]. destruct (class_mask _); [|done]. intros [= <-].
    unfold be_encode. by rewrite length_rev, length_le_encode. }
  destruct (match slash with Some m => inet_aton m | None => _ end) as [m|]; [|done]. cbn [mbind option_bind].
  intros [= <-]. rewrite length_app, Eb. by rewrite (H m).
Qed.

Lemma op_list_ok {A} (f : A → resolver_op) o : (∀ a, o = Some a → op_ok (f a)) → Forall op_ok (op_list f o).
Proof using. intros H. destruct o; [|done]. constructor; [by apply H|done]. Qed.
Lemma omap_ok {A} (f : A → resolver_op) g (l : list CFType) :
  (∀ v a, g v = Some a → op_ok (f a)) → Forall op_ok (f <$> omap g l).
Proof using.
  intros H. rewrite Forall_forall. intros op (a & -> & (v & _ & E)%list_elem_of_omap)%list_elem_of_fmap. by eapply H.
Qed.

Lemma resolver_ops_ok dns : Forall op_ok (resolver_ops dns).
Proof using NL Laws RL.
  unfold resolver_ops. repeat (apply Forall_app; split);
    try (apply op_list_ok; by intros).
  - apply op_list_ok. intros s E. destruct (dns !! "DomainName"); [|done]. by eapply domain_of_no_nul.
  - apply omap_ok. intros v s. apply domain_of_no_nul.
  - apply op_list_ok. intros [i [s|]] E; [|done]. cbn. unfold interface_of in E.
    destruct (number_of _) as [n|]; [|done]. cbn [mbind option_bind] in E. destruct (n =? 0); [done|].
    injection E as _ E. by eapply my_if_indextoname_no_nul.
  - apply omap_ok. intros v a. apply nameserver_ok.
  - apply omap_ok. intros v a. apply sortaddr_ok.
  - apply op_list_ok. intros s. unfold options_of. destruct (dns !! "Options") as [[]|]; try done.
    intros [= <-]. apply c_trunc_no_nul.
  - apply op_list_ok. intros s. unfold cid_of. destruct (dns !! DNS_CONFIGURATION_CONFIGURATION_ID) as [[]|]; try done.
    destruct (_ <? _)%nat; [|done]. intros [= <-]. apply c_trunc_no_nul.
Qed.

(** ** What a client sees *)

Definition servers_of (dns : CFDict) : list (list byte) :=
  omap (nameserver_of (target_index dns)) (array_of (dns !! "ServerAddresses")).

(** Queries for both kinds of addresses are allowed if a server is this host. *)
Definition flags_of (dns : CFDict) : Z :=
  let flags := default 0 (u32 <$> number_of (dns !! DNS_CONFIGURATION_FLAGS_KEY)) in
  if existsb (λ sa, default false (is_loopback sa)) (servers_of dns)
  then Z.lor flags DNS_RESOLVER_FLAGS_REQUEST_ALL_RECORDS else flags.

Definition resolver_of (dns : CFDict) : dns_resolver := {|
  dr_domain := dns !! "DomainName" ≫= domain_of;
  dr_nameserver := servers_of dns;
  dr_port := default 0 ((λ p, p mod 2 ^ 16) <$> number_of (dns !! "ServerPort"));
  dr_search := omap domain_of (array_of (dns !! "SearchDomains"));
  dr_sortaddr := omap sortaddr_of (array_of (dns !! "SortList"));
  dr_options := options_of dns;
  dr_timeout := default 0 (u32 <$> number_of (dns !! "ServerTimeout"));
  dr_search_order := default 0 (u32 <$> number_of (dns !! "SearchOrder"));
  dr_if_index := default 0 (fst <$> interface_of dns);
  dr_flags := flags_of dns;
  dr_reach_flags := 0;
  dr_service_identifier := default 0 (u32 <$> number_of (dns !! "ServiceIdentifier"));
  dr_cid := cid_of dns;
  dr_if_name := interface_of dns ≫= snd;
|}.

Lemma u32_u32 z : u32 (u32 z) = u32 z.
Proof using. unfold u32. by rewrite Z.mod_mod. Qed.

Lemma foldl_search d n p s so o t or i f r si c nm l :
  foldl spec_op (MkResolver d n p s so o t or i f r si c nm) (Add_search <$> l) =
  MkResolver d n p (s ++ l) so o t or i f r si c nm.
Proof using.
  revert s. induction l as [|x l IH]; intros s; [by rewrite app_nil_r|]. cbn [fmap list_fmap foldl spec_op].
  by rewrite IH, <-app_assoc.
Qed.
Lemma foldl_sortaddr d n p s so o t or i f r si c nm l :
  foldl spec_op (MkResolver d n p s so o t or i f r si c nm) (Add_sortaddr <$> l) =
  MkResolver d n p s (so ++ l) o t or i f r si c nm.
Proof using.
  revert so. induction l as [|x l IH]; intros so; [by rewrite app_nil_r|]. cbn [fmap list_fmap foldl spec_op].
  by rewrite IH, <-app_assoc.
Qed.
Lemma foldl_nameserver d n p s so o t or i f r si c nm l :
  foldl spec_op (MkResolver d n p s so o t or i f r si c nm) (Add_nameserver <$> l) =
  MkResolver d (n ++ l) p s so o t or i
    (if existsb (λ sa, default false (is_loopback sa)) l then Z.lor f DNS_RESOLVER_FLAGS_REQUEST_ALL_RECORDS else f)
    r si c nm.
Proof using.
  revert n f. induction l as [|x l IH]; intros n f; [by rewrite app_nil_r|].
  cbn [fmap list_fmap foldl spec_op existsb]. rewrite IH, <-app_assoc. cbn [app]. f_equal.
  destruct (default false (is_loopback x)); cbn [orb]; [|done].
  destruct (existsb _ l); [|done]. by rewrite <-Z.lor_assoc, Z.lor_diag.
Qed.

(** One call at most, of a field that is not set yet. *)
Ltac one_op x := destruct x; cbn [op_list foldl spec_op fmap option_fmap option_map default from_option id]; by rewrite ?u32_u32.

Section one.
Variables (d o c nm : option string) (n so : list (list byte)) (s : list string) (p t or i f r si : Z).
Lemma fold_domain x : foldl spec_op (MkResolver None n p s so o t or i f r si c nm) (op_list Set_domain x) =
  MkResolver x n p s so o t or i f r si c nm.
Proof using. one_op x. Qed.
Lemma fold_interface x :
  foldl spec_op (MkResolver d n p s so o t or 0 f r si c None)
    (op_list (λ p, Set_if_index p.1 p.2) (interface_of x)) =
  MkResolver d n p s so o t or (default 0 (fst <$> interface_of x)) f r si c (interface_of x ≫= snd).
Proof using.
  unfold interface_of. destruct (number_of _) as [v|]; [|done]. cbn. rewrite u32_u32.
  by destruct (if v =? 0 then None else _).
Qed.
Lemma fold_flags x :
  foldl spec_op (MkResolver d n p s so o t or i 0 r si c nm) (op_list (λ f, Set_flags (u32 f)) x) =
  MkResolver d n p s so o t or i (default 0 (u32 <$> x)) r si c nm.
Proof using. one_op x. Qed.
Lemma fold_order x :
  foldl spec_op (MkResolver d n p s so o t 0 i f r si c nm) (op_list (λ f, Set_order (u32 f)) x) =
  MkResolver d n p s so o t (default 0 (u32 <$> x)) i f r si c nm.
Proof using. one_op x. Qed.
Lemma fold_port x :
  foldl spec_op (MkResolver d n 0 s so o t or i f r si c nm) (op_list (λ p, Set_port (p mod 2 ^ 16)) x) =
  MkResolver d n (default 0 ((λ p, p mod 2 ^ 16) <$> x)) s so o t or i f r si c nm.
Proof using.
  destruct x as [v|]; [|done]. cbn [op_list foldl spec_op fmap option_fmap option_map default from_option id].
  by rewrite Z.mod_mod.
Qed.
Lemma fold_timeout x :
  foldl spec_op (MkResolver d n p s so o 0 or i f r si c nm) (op_list (λ f, Set_timeout (u32 f)) x) =
  MkResolver d n p s so o (default 0 (u32 <$> x)) or i f r si c nm.
Proof using. one_op x. Qed.
Lemma fold_options x : foldl spec_op (MkResolver d n p s so None t or i f r si c nm) (op_list Set_options x) =
  MkResolver d n p s so x t or i f r si c nm.
Proof using. one_op x. Qed.
Lemma fold_service x :
  foldl spec_op (MkResolver d n p s so o t or i f r 0 c nm) (op_list (λ f, Set_service_identifier (u32 f)) x) =
  MkResolver d n p s so o t or i f r (default 0 (u32 <$> x)) c nm.
Proof using. one_op x. Qed.
Lemma fold_cid x :
  foldl spec_op (MkResolver d n p s so o t or i f r si None nm) (op_list Set_configuration_identifier x) =
  MkResolver d n p s so o t or i f r si x nm.
Proof using. one_op x. Qed.
End one.

Lemma resolver_of_ops dns : foldl spec_op empty_resolver (resolver_ops dns) = resolver_of dns.
Proof using.
  unfold resolver_ops, empty_resolver. rewrite !foldl_app.
  by rewrite fold_domain, foldl_search, fold_interface, fold_flags, foldl_nameserver, fold_order, foldl_sortaddr,
    fold_port, fold_timeout, fold_options, fold_service, fold_cid.
Qed.
End ops.
