(* ===== verification/DnsMergeSpec.v ===== *)
(** * IPMonitor: theorems on the DNS dictionaries of services

    The order of servers ([order_dns_servers]), which servers are kept, what the merged
    dictionary holds, and what [get_dns_changes] does to the dictionaries of services. *)

From S2P Require Import Prelude RouteTypes RouteList DnsCreate DnsExpand DnsResolver RouteDict NwiState DnsFlat DnsMerge DnsList DnsSet DnsSort DnsEntries.

Local Open Scope Z_scope.

(** ** The order of servers *)

Section order.
Context {N : Network} {CF : CoreFoundation}.

(** The family of the address that a server is, and the address. *)
Definition server_address (server : CFType) : option (family * address) :=
  match cfstring_to_ipvx AF_INET (Some server), cfstring_to_ipvx AF_INET6 (Some server) with
  | (true, ia), _ => Some (AF_INET, ia)
  | _, (true, ia6) => Some (AF_INET6, ia6)
  | _, _ => None
  end.

Definition is_family (af : family) (server : CFType) : bool :=
  match server_address server with Some (af', _) => bool_decide (af' = af) | None => false end.

(** The longest prefix that satisfies [p], and the rest. *)
Fixpoint span {A} (p : A → bool) (l : list A) : list A * list A :=
  match l with
  | [] => ([], [])
  | x :: l' => if p x then let '(front, rest) := span p l' in (x :: front, rest) else ([], l)
  end.

(** Whether the servers of [af], whose first is [a], go in front of the others, whose
    first is [b]. *)
Definition prefers (af : family) (a b : address) : bool :=
  match af with
  | AF_INET => 0 <=? sa_dst_compare_no_dependencies a b
  | AF_INET6 => negb (0 <=? sa_dst_compare_no_dependencies b a)
  end.

(** What is meant: servers of one family and then of the other are swapped if those of
    the other are preferred, any other list is left alone. *)
Definition swap_families (servers : list CFType) : list CFType :=
  match servers with
  | [] => servers
  | first :: _ =>
      match server_address first with
      | None => servers
      | Some (af, a) =>
          let '(front, rest) := span (is_family af) servers in
          match rest with
          | [] => servers
          | second :: _ =>
              match server_address second with
              | None => servers
              | Some (af', b) =>
                  if forallb (is_family af') rest then if prefers af a b then front ++ rest else rest ++ front
                  else servers
              end
          end
      end
  end.

Lemma span_app {A} (p : A → bool) l : (span p l).1 ++ (span p l).2 = l.
Proof.
  induction l as [|x l IH]; [done|]. cbn [span]. destruct (p x); [|done].
  destruct (span p l). cbn in *. by rewrite IH.
Qed.
Lemma span_front {A} (p : A → bool) l : forallb p (span p l).1.
Proof. induction l as [|x l IH]; [done|]. cbn [span]. destruct (p x) eqn:E; [|done]. destruct (span p l). cbn. by rewrite E. Qed.
Lemma span_rest {A} (p : A → bool) l x k : (span p l).2 = x :: k → p x = false.
Proof.
  induction l as [|y l IH]; [done|]. cbn [span]. destruct (p y) eqn:E; [destruct (span p l); apply IH|].
  cbn. intros [= -> ->]. done.
Qed.

Lemma insert_at_app {A} (q p : list A) x n : n = length q → insert_at n x (q ++ p) = q ++ x :: p.
Proof. intros ->. unfold insert_at. by rewrite take_app_length, drop_app_length. Qed.

(** While all servers are of one family. *)
Definition phase1 (af : family) (a : address) (p : list CFType) : order_state :=
  match af with
  | AF_INET => MkOrder false p AF_INET a (length p) (any AF_INET6) 0
  | AF_INET6 => MkOrder false p AF_INET6 (any AF_INET) 0 a (length p)
  end.
(** Once there are servers of the other. *)
Definition phase2 (af : family) (a b : address) (p q : list CFType) : order_state :=
  match af with
  | AF_INET => MkOrder (0 <=? sa_dst_compare_no_dependencies a b) (if prefers af a b then p ++ q else q ++ p)
                 AF_INET6 a (length p) b (length q)
  | AF_INET6 => MkOrder (0 <=? sa_dst_compare_no_dependencies b a) (if prefers af a b then p ++ q else q ++ p)
                 AF_INET b (length q) a (length p)
  end.

Lemma order_first s af a : server_address s = Some (af, a) →
  order_dns_server 0 (MkOrder false [] AF_INET (any AF_INET) 0 (any AF_INET6) 0) s = Some (phase1 af a [s]).
Proof.
  unfold server_address, order_dns_server.
  destruct (cfstring_to_ipvx AF_INET (Some s)) as [[] ?], (cfstring_to_ipvx AF_INET6 (Some s)) as [[] ?];
    intros E; simplify_eq; done.
Qed.

Lemma order_same s af a p b : p ≠ [] → server_address s = Some (af, b) →
  order_dns_server (length p) (phase1 af a p) s = Some (phase1 af a (p ++ [s])).
Proof.
  intros Hp. assert (Hn : (length p =? 0)%nat = false) by (by destruct p).
  assert (Hi : insert_at (S (length p) - 1) s p = p ++ [s]).
  { rewrite <-(app_nil_r p) at 2. rewrite insert_at_app by lia. done. }
  unfold server_address, order_dns_server, phase1.
  destruct (cfstring_to_ipvx AF_INET (Some s)) as [[] ?], (cfstring_to_ipvx AF_INET6 (Some s)) as [[] ?];
    intros E; simplify_eq; rewrite ?length_app; cbn [length mbind option_bind];
    rewrite Hn, bool_decide_true, andb_false_r by done; cbn [mbind option_bind]; rewrite ?Hi, Nat.add_1_r; done.
Qed.

Lemma order_switch s af a p b : p ≠ [] → server_address s = Some (nwi_other_af af, b) →
  order_dns_server (length p) (phase1 af a p) s = Some (phase2 af a b p [s]).
Proof.
  intros Hp. assert (Hn : (0 <? length p)%nat = true) by (by destruct p).
  unfold server_address, order_dns_server, phase1, phase2, prefers.
  destruct af; cbn [nwi_other_af];
    destruct (cfstring_to_ipvx AF_INET (Some s)) as [[] ?], (cfstring_to_ipvx AF_INET6 (Some s)) as [[] ?];
    intros E; simplify_eq; cbn [mbind option_bind]; rewrite Hn, bool_decide_false by done;
    cbn [andb negb Nat.eqb mbind option_bind]; by destruct (0 <=? _).
Qed.

Lemma order_other s af a b c p q : q ≠ [] → server_address s = Some (nwi_other_af af, c) →
  order_dns_server (length p + length q) (phase2 af a b p q) s = Some (phase2 af a b p (q ++ [s])).
Proof.
  intros Hq. assert (Hn : (length q =? 0)%nat = false) by (by destruct q).
  assert (Hi : insert_at (S (length q) - 1) s (q ++ p) = (q ++ [s]) ++ p).
  { rewrite insert_at_app by lia. by rewrite <-app_assoc. }
  unfold server_address, order_dns_server, phase2, prefers.
  destruct af; cbn [nwi_other_af];
    destruct (cfstring_to_ipvx AF_INET (Some s)) as [[] ?], (cfstring_to_ipvx AF_INET6 (Some s)) as [[] ?];
    intros E; simplify_eq; cbn [mbind option_bind]; rewrite Hn, bool_decide_true, andb_false_r by done;
    cbn [mbind option_bind]; destruct (0 <=? _); cbn [negb]; rewrite ?Hi, length_app, Nat.add_1_r, ?app_assoc; done.
Qed.

Lemma order_back s af a b c p q : p ≠ [] → q ≠ [] → server_address s = Some (af, c) →
  order_dns_server (length p + length q) (phase2 af a b p q) s = None.
Proof.
  intros Hp Hq. assert (Hn : (0 <? length p + length q)%nat = true) by (destruct p; [done|]; cbn; done).
  assert (H1 : (S (length p) =? 1)%nat = false) by (by destruct p).
  unfold server_address, order_dns_server, phase2.
  destruct (cfstring_to_ipvx AF_INET (Some s)) as [[] ?], (cfstring_to_ipvx AF_INET6 (Some s)) as [[] ?];
    intros E; simplify_eq; cbn [mbind option_bind]; by rewrite Hn, bool_decide_false, H1 by done.
Qed.

Lemma order_bad i st s : server_address s = None → order_dns_server i st s = None.
Proof.
  unfold server_address, order_dns_server. destruct st.
  by destruct (cfstring_to_ipvx AF_INET (Some s)) as [[] ?], (cfstring_to_ipvx AF_INET6 (Some s)) as [[] ?].
Qed.

Lemma is_family_some af s : is_family af s = true → ∃ a, server_address s = Some (af, a).
Proof.
  unfold is_family. destruct (server_address s) as [[af' a]|]; [|done]. intros ->%bool_decide_eq_true. by eexists.
Qed.
Lemma other_family af af' : af' ≠ af → af' = nwi_other_af af.
Proof. by destruct af, af'. Qed.

Lemma order_loop1 af a l k p : p ≠ [] → forallb (is_family af) l →
  order_loop (length p) (phase1 af a p) (l ++ k) = order_loop (length (p ++ l)) (phase1 af a (p ++ l)) k.
Proof.
  revert p. induction l as [|s l IH]; intros p Hp Hl; [by rewrite app_nil_r|].
  apply andb_prop_elim in Hl as [Hs Hl]. apply Is_true_true in Hs. destruct (is_family_some _ _ Hs) as (b & E).
  cbn [app order_loop]. rewrite (order_same s af a p b Hp E). cbn [mbind option_bind].
  replace (S (length p)) with (length (p ++ [s])) by (rewrite length_app; cbn; lia).
  rewrite IH by (done || by destruct p). by rewrite <-app_assoc.
Qed.

Lemma order_loop2 af a b p q k : p ≠ [] → q ≠ [] →
  order_loop (length p + length q) (phase2 af a b p q) k =
  if forallb (is_family (nwi_other_af af)) k then Some (phase2 af a b p (q ++ k)) else None.
Proof.
  intros Hp. revert q. induction k as [|s k IH]; intros q Hq; [by rewrite app_nil_r|]. cbn [order_loop forallb].
  destruct (is_family (nwi_other_af af) s) eqn:Es; cbn [andb].
  - destruct (is_family_some _ _ Es) as (c & E). rewrite (order_other s af a b c p q Hq E). cbn [mbind option_bind].
    replace (S (length p + length q)) with (length p + length (q ++ [s]))%nat by (rewrite length_app; cbn; lia).
    rewrite IH by (by destruct q). by rewrite <-app_assoc.
  - destruct (server_address s) as [[af' c]|] eqn:E; [|by rewrite order_bad].
    unfold is_family in Es. rewrite E in Es. apply bool_decide_eq_false_1 in Es.
    assert (af' = af) as -> by (by destruct af, af'). by rewrite (order_back s af a b c p q Hp Hq E).
Qed.

Lemma phase2_ordered af a b p q : ordered_servers (phase2 af a b p q) = if prefers af a b then p ++ q else q ++ p.
Proof. by destruct af. Qed.
Lemma phase1_ordered af a p : ordered_servers (phase1 af a p) = p.
Proof. by destruct af. Qed.

Lemma order_loop_swap servers :
  match order_loop 0 (MkOrder false [] AF_INET (any AF_INET) 0 (any AF_INET6) 0) servers with
  | Some st => ordered_servers st
  | None => servers
  end = swap_families servers.
Proof.
  destruct servers as [|first servers]; [done|]. cbn [order_loop swap_families].
  destruct (server_address first) as [[af a]|] eqn:E1; [|by rewrite order_bad].
  rewrite (order_first first af a E1). cbn [mbind option_bind].
  assert (Ef : is_family af first = true) by (unfold is_family; rewrite E1; by apply bool_decide_true).
  cbn [span]. rewrite Ef. pose proof (span_app (is_family af) servers) as Happ.
  pose proof (span_front (is_family af) servers) as Hfront. pose proof (span_rest (is_family af) servers) as Hrest.
  destruct (span (is_family af) servers) as [front rest]. cbn [fst snd] in *. subst servers.
  change 1%nat with (length [first]). rewrite order_loop1 by done. cbn [app].
  destruct rest as [|second rest]; [cbn [order_loop]; by rewrite phase1_ordered, app_nil_r|].
  cbn [order_loop]. destruct (server_address second) as [[af' b]|] eqn:E2; [|by rewrite order_bad].
  specialize (Hrest _ _ eq_refl). unfold is_family in Hrest. rewrite E2 in Hrest. apply bool_decide_eq_false_1 in Hrest.
  apply other_family in Hrest as ->. rewrite (order_switch second af a (first :: front) b) by done.
  cbn [mbind option_bind].
  replace (S (length (first :: front))) with (length (first :: front) + length [second])%nat by (cbn; lia).
  rewrite order_loop2 by done. cbn [forallb].
  assert (Es : is_family (nwi_other_af af) second = true) by (unfold is_family; rewrite E2; by apply bool_decide_true).
  rewrite Es. cbn [andb]. destruct (forallb _ rest); [|done]. by rewrite phase2_ordered.
Qed.
End order.

(** ** Which servers are kept *)

Section merge.
Context {N : Network} {CF : CoreFoundation}.

Lemma swap_families_perm servers : swap_families servers ≡ₚ servers.
Proof.
  destruct servers as [|first l]; [done|]. cbn [swap_families].
  destruct (server_address first) as [[af a]|]; [|done]. pose proof (span_app (is_family af) (first :: l)) as H.
  destruct (span (is_family af) (first :: l)) as [front [|second rest]]; cbn [fst snd] in H; [done|].
  destruct (server_address second) as [[af' b]|]; [|done]. destruct (forallb _ _); [|done].
  destruct (prefers af a b); rewrite <-H; [done|]. by rewrite Permutation_app_comm.
Qed.

(** An address that can be reached with the families that are routed, or this host. *)
Definition reachable (active_protos : Z) (v : CFType) : Prop :=
  ∃ af a, server_address v = Some (af, a) ∧
    match af with
    | AF_INET => has active_protos kProtocolFlagsIPv4 = true ∨ be_decode a = INADDR_LOOPBACK
    | AF_INET6 => has active_protos kProtocolFlagsIPv6 = true ∨ a = in6addr_loopback
    end.

(** A server is kept exactly if it is reachable; its text changes only by the name of the
    interface behind a link-local address. *)
Lemma accumulate_reachable active_protos interface v :
  (is_Some (accumulate_dns_server active_protos interface v) ↔ reachable active_protos v) ∧
  ∀ v', accumulate_dns_server active_protos interface v = Some v' →
    v' = v ∨ ∃ s i, v = CFString s ∧ interface = Some i ∧ v' = CFString (s +:+ "%" +:+ format_object i).
Proof.
  unfold accumulate_dns_server, reachable, server_address.
  destruct (cfstring_to_ipvx AF_INET (Some v)) as [[] ia] eqn:E4, (cfstring_to_ipvx AF_INET6 (Some v)) as [[] ia6] eqn:E6.
  1, 2: split; [|intros v'; destruct (_ && _); [done|]; intros [= <-]; by left];
    destruct (has active_protos kProtocolFlagsIPv4), (Z.eqb_spec (be_decode ia) INADDR_LOOPBACK); cbn [negb andb];
    (split; [intros []; exists AF_INET, ia; naive_solver|intros (af & a & [= <- <-] & H); naive_solver]).
  - assert (Hv : ∃ s, v = CFString s) by (destruct v; try discriminate; by eexists).
    unfold IN6_IS_ADDR_LOOPBACK. split.
    + destruct (has active_protos kProtocolFlagsIPv6), (bool_decide_reflect (ia6 = in6addr_loopback)); cbn [negb andb];
        (split; [intros H; exists AF_INET6, ia6; destruct H; naive_solver|intros (af & a & [= <- <-] & H)]);
        first [destruct Hv as (s & ->); destruct interface; [destruct (_ && no_percent s)|]; by eexists|naive_solver].
    + intros v'. destruct (negb _ && negb _); [done|]. destruct Hv as (s & ->).
      destruct interface as [i|]; [|intros [= <-]; by left].
      destruct (_ && no_percent s); intros [= <-]; [right|by left]. by exists s, i.
  - split; [|done]. split; [by intros []|]. intros (af & a & [=] & _).
Qed.
End merge.

(** ** The merged dictionary *)

Section dict.
Context {N : Network} {CF : CoreFoundation}.
Variable S_append_state : bool.
Variables (state_dict setup_dict : option CFDict).

(** The user's setting, or else what the network says. *)
Definition picked (key : string) : option CFType :=
  match setup_dict ≫= (λ d, sanitize_prop (d !! key) 0) with
  | Some val => Some val
  | None => state_dict ≫= (λ d, sanitize_prop (d !! key) 0)
  end.

Lemma pick_prop_lookup dict key k :
  pick_prop dict key state_dict setup_dict 0 !! k =
  if String.eqb k key then match picked key with Some v => Some v | None => dict !! k end else dict !! k.
Proof.
  unfold pick_prop. fold (picked key). destruct (String.eqb_spec k key) as [->|Hn];
    destruct (picked key); by lookup_dict || by rewrite ?lookup_insert_ne by done.
Qed.

(** What [merge_array_prop] sets. *)
Definition merged_array (key : string) (flags : Z) (append : bool) : option CFType :=
  merge_array_prop S_append_state ∅ key state_dict setup_dict flags append !! key.

Lemma merge_array_lookup dict key flags append k :
  merge_array_prop S_append_state dict key state_dict setup_dict flags append !! k =
  if String.eqb k key then match merged_array key flags append with Some v => Some v | None => dict !! k end
  else dict !! k.
Proof.
  unfold merged_array, merge_array_prop.
  destruct (setup_dict ≫= _), (state_dict ≫= _); try (destruct (String.eqb k key); by rewrite ?lookup_empty);
    (destruct (0 <? _)%nat; destruct (String.eqb_spec k key) as [->|Hn];
      rewrite ?lookup_insert_eq, ?lookup_empty; by rewrite ?lookup_insert_ne by done).
Qed.

Lemma merge_dns_servers_lookup dict st se have trust active interface k :
  k ≠ "ServerAddresses" → k ≠ DNS_CONFIGURATION_SCOPED_QUERY_KEY →
  merge_dns_servers S_append_state dict st se have trust active interface !! k = dict !! k.
Proof.
  intros H1 H2. unfold merge_dns_servers. destruct st, se; try done;
    (destruct (length _ =? 0)%nat; [done|]); destruct (_ || _); by rewrite ?lookup_insert_ne by done.
Qed.

Definition service_keys : list string :=
  ["ServerAddresses"; DNS_CONFIGURATION_SCOPED_QUERY_KEY] ++ (fst ∘ fst <$> merge_list) ++ pick_list.

Lemma pick_list_lookup l dict k :
  foldl (λ dict key, pick_prop dict key state_dict setup_dict 0) dict l !! k =
  if bool_decide (k ∈ l) then match picked k with Some v => Some v | None => dict !! k end else dict !! k.
Proof.
  revert dict. induction l as [|key l IH]; intros dict; [done|]. cbn [foldl]. rewrite IH, pick_prop_lookup.
  destruct (String.eqb_spec k key) as [->|Hn].
  - rewrite (bool_decide_true (key ∈ key :: l)) by (by left). by destruct (bool_decide _), (picked key).
  - by rewrite (bool_decide_ext (k ∈ key :: l) (k ∈ l)) by (rewrite elem_of_cons; naive_solver).
Qed.

Notation merge_arrays := (foldl (λ dict '(key, flags, append),
  merge_array_prop S_append_state dict key state_dict setup_dict flags append)).

Lemma merge_list_other l dict k : k ∉ (fst ∘ fst <$> l) → merge_arrays dict l !! k = dict !! k.
Proof.
  revert dict. induction l as [|[[key flags] append] l IH]; intros dict Hk; [done|].
  cbn [fmap list_fmap compose fst] in Hk. apply not_elem_of_cons in Hk as [Hk Hl].
  cbn [foldl]. rewrite IH, merge_array_lookup by done. by rewrite (proj2 (String.eqb_neq _ _)).
Qed.
Lemma merge_list_lookup l dict key flags append : NoDup (fst ∘ fst <$> l) → (key, flags, append) ∈ l →
  dict !! key = None → merge_arrays dict l !! key = merged_array key flags append.
Proof.
  revert dict. induction l as [|[[key' flags'] append'] l IH]; intros dict Hn Hk Hd; [by apply elem_of_nil in Hk|].
  cbn [fmap list_fmap compose fst] in Hn. apply NoDup_cons in Hn as [Hk' Hn]. cbn [foldl].
  apply elem_of_cons in Hk as [[= <- <- <-]|Hk].
  - rewrite merge_list_other, merge_array_lookup, String.eqb_refl, Hd by done. by destruct (merged_array _ _ _).
  - apply IH; [done|done|]. rewrite merge_array_lookup, (proj2 (String.eqb_neq _ _)); [done|].
    intros ->. apply Hk', list_elem_of_fmap. by exists (key', flags, append).
Qed.

Lemma merge_keys_distinct : NoDup (fst ∘ fst <$> merge_list) ∧ NoDup pick_list ∧
  (∀ k, k ∈ pick_list → k ∉ (fst ∘ fst <$> merge_list)) ∧
  ∀ k, k = "ServerAddresses" ∨ k = DNS_CONFIGURATION_SCOPED_QUERY_KEY →
    k ∉ pick_list ∧ k ∉ (fst ∘ fst <$> merge_list).
Proof.
  split; [by apply (bool_decide_unpack _)|]. split; [by apply (bool_decide_unpack _)|]. split.
  - apply Forall_forall. by apply (bool_decide_unpack _).
  - intros k [->| ->]; split; by apply (bool_decide_unpack _).
Qed.

(** Only the keys that are merged are in the dictionary, each from its own source. *)
Lemma merge_dns_lookup have trust active interface k :
  let dict := merge_dns S_append_state state_dict setup_dict have trust active interface in
  (k ∉ service_keys → dict !! k = None) ∧
  (k ∈ pick_list → dict !! k = picked k) ∧
  (∀ flags append, (k, flags, append) ∈ merge_list → dict !! k = merged_array k flags append).
Proof.
  cbn zeta. unfold merge_dns. destruct merge_keys_distinct as (Hm & Hp & Hd & Hs).
  set (servers := if active =? kProtocolFlagsNone then _ else _).
  assert (Hsl : k ∈ pick_list ∨ k ∈ (fst ∘ fst <$> merge_list) ∨ k ∉ service_keys → servers !! k = None).
  { intros H. assert (k ≠ "ServerAddresses" ∧ k ≠ DNS_CONFIGURATION_SCOPED_QUERY_KEY) as [H1 H2].
    { split; intros ->; (destruct H as [H|[H|H]]; [revert H; apply Hs; auto..|]; apply H; unfold service_keys;
        rewrite elem_of_app; left; by apply (bool_decide_unpack _)). }
    unfold servers. destruct (active =? _); by rewrite merge_dns_servers_lookup. }
  clearbody servers. rewrite pick_list_lookup. split; [|split].
  - intros Hk. pose proof Hk as Hk'. unfold service_keys in Hk'. rewrite !not_elem_of_app in Hk'. destruct_and!.
    rewrite bool_decide_false, merge_list_other by done. auto.
  - intros Hk. rewrite bool_decide_true, merge_list_other, Hsl by auto. by destruct (picked k).
  - intros flags append Hk.
    assert (Hk' : k ∈ (fst ∘ fst <$> merge_list)) by (apply list_elem_of_fmap; by exists (k, flags, append)).
    rewrite bool_decide_false by (intros H; by apply (Hd k)).
    apply merge_list_lookup; auto.
Qed.
End dict.

(** ** The servers *)

Section servers.
Context {N : Network} {CF : CoreFoundation}.
Variable S_append_state : bool.
Variables (state_dict setup_dict : option CFDict).

Definition addresses_of (dict : option CFDict) : list CFType :=
  default [] (dict ≫= (λ d, get_array d "ServerAddresses")).
(** The user's servers that can be reached, and if there is none or S_append_state is set
    those of the network, the ones of the preferred family first if both families can be. *)
Definition user_servers (active : Z) (interface : option CFType) : list CFType :=
  omap (accumulate_dns_server active interface) (addresses_of setup_dict).
Definition network_servers (active : Z) : list CFType :=
  omap (accumulate_dns_server active None)
    (if has active kProtocolFlagsIPv4 && has active kProtocolFlagsIPv6
     then swap_families (addresses_of state_dict) else addresses_of state_dict).
Definition chosen_servers (active : Z) (interface : option CFType) : list CFType :=
  let own := user_servers active interface in
  if bool_decide (own = []) || S_append_state then own ++ network_servers active else own.
(** An array is only there if it holds something. *)
Definition array_unless_empty (l : list CFType) : option CFType :=
  match l with [] => None | _ => Some (CFArray l) end.

Lemma order_dns_servers_swap servers active :
  order_dns_servers servers active =
  if has active kProtocolFlagsIPv4 && has active kProtocolFlagsIPv6 then swap_families servers else servers.
Proof.
  unfold order_dns_servers. rewrite order_loop_swap.
  by destruct (has active kProtocolFlagsIPv4), (has active kProtocolFlagsIPv6).
Qed.

Lemma state_servers_ordered active (f : CFType → option CFType) :
  omap f (if has active kProtocolFlagsIPv4 && has active kProtocolFlagsIPv6
          then swap_families (addresses_of state_dict) else addresses_of state_dict) =
  match state_dict ≫= (λ d, get_array d "ServerAddresses") with
  | Some l => omap f (order_dns_servers l active)
  | None => []
  end.
Proof.
  unfold addresses_of. destruct (state_dict ≫= _) as [l|]; cbn [default from_option id]; [by rewrite order_dns_servers_swap|].
  by case_match.
Qed.

Lemma merge_dns_servers_chosen have trust active interface :
  let dict := merge_dns_servers S_append_state ∅ (state_dict ≫= (λ d, get_array d "ServerAddresses"))
                (setup_dict ≫= (λ d, get_array d "ServerAddresses")) have trust active interface in
  let own := bool_decide (user_servers active interface ≠ []) in
  dict !! "ServerAddresses" = array_unless_empty (chosen_servers active interface) ∧
  dict !! DNS_CONFIGURATION_SCOPED_QUERY_KEY =
    if bool_decide (chosen_servers active interface ≠ []) && ((have && negb own) || (negb have && trust))
    then Some (CFBoolean true) else None.
Proof.
  cbn zeta. set (dict := merge_dns_servers _ _ _ _ _ _ _ _).
  set (own := user_servers active interface). set (all := chosen_servers active interface).
  assert (E : dict = if (length all =? 0)%nat then ∅
    else if (have && negb (0 <? length own)%nat) || (negb have && trust)
         then <[DNS_CONFIGURATION_SCOPED_QUERY_KEY := CFBoolean true]> (<["ServerAddresses" := CFArray all]> ∅)
         else <["ServerAddresses" := CFArray all]> ∅).
  { unfold dict, merge_dns_servers, all, chosen_servers. fold own. unfold network_servers, accumulate_dns_servers.
    rewrite state_servers_ordered.
    replace (bool_decide (own = [])) with (length own =? 0)%nat by (by destruct own).
    destruct (setup_dict ≫= _) as [k|] eqn:Ek.
    - assert (Eo : [] ++ omap (accumulate_dns_server active interface) k = own).
      { unfold own, user_servers, addresses_of. by rewrite Ek. }
      rewrite Eo. destruct (state_dict ≫= _) as [l|]; [done|]. rewrite app_nil_r. by destruct ((length own =? 0)%nat || S_append_state).
    - assert (Eo : own = []) by (unfold own, user_servers, addresses_of; by rewrite Ek).
      rewrite Eo. by destruct (state_dict ≫= _). }
  rewrite E. clearbody own all. clear E dict.
  destruct all as [|x all]; cbn [length Nat.eqb array_unless_empty]; [by rewrite bool_decide_false by (intros H; by apply H)|].
  rewrite bool_decide_true by done. destruct own; cbn [length Nat.ltb Nat.leb negb];
    [rewrite bool_decide_false by (intros H; by apply H)|rewrite bool_decide_true by done];
    destruct have, trust; cbn [negb andb orb]; by lookup_dict.
Qed.
End servers.

(** ** What is kept for a service *)

Section kept.
Context {N : Network} {CF : CoreFoundation}.
Variable S_append_state : bool.

Definition sanitized (dict : option CFDict) (key : string) (flags : Z) : option (list CFType) :=
  match dict ≫= (λ d, get_array d key) with
  | Some l => Some (omap (λ val, sanitize_prop (Some val) flags) l)
  | None => None
  end.

(** The values of an array that the user has set, or else of the one of the network; with
    S_append_state those of the network follow the user's, but where the key is not one of
    those that only append, without what the user has too. *)
Definition chosen_array (state_dict setup_dict : option CFDict) (key : string) (flags : Z) (append : bool)
    : list CFType :=
  let network := default [] (sanitized state_dict key flags) in
  match sanitized setup_dict key flags with
  | None => network
  | Some own =>
      if S_append_state
      then own ++ filter (λ v, append = true ∨ CFArrayContainsValue own v = false) network
      else own
  end.

(** The domain of the service is at the end of the search list if it has one without it. *)
Definition with_domain (domain : option CFType) (search : list CFType) : list CFType :=
  match domain, search with
  | Some (CFString d), _ :: _ => if CFArrayContainsValue search (CFString d) then search else search ++ [CFString d]
  | _, _ => search
  end.

Lemma omap_sanitized (own l : list CFType) flags (append : bool) :
  omap (λ val, val ← sanitize_prop (Some val) flags;
               if append || negb (CFArrayContainsValue own val) then Some val else None) l =
  filter (λ v, append = true ∨ CFArrayContainsValue own v = false) (omap (λ val, sanitize_prop (Some val) flags) l).
Proof.
  induction l as [|v l IH]; [done|]. cbn [omap list_omap]. rewrite IH.
  destruct (sanitize_prop (Some v) flags) as [w|]; [|done]. cbn [mbind option_bind]. rewrite filter_cons.
  destruct append; cbn [orb]; [by rewrite decide_True by auto|].
  destruct (CFArrayContainsValue own w); cbn [negb]; [by rewrite decide_False by naive_solver|by rewrite decide_True by auto].
Qed.

Lemma filter_contains_nil (append : bool) (l : list CFType) :
  filter (λ v, append = true ∨ CFArrayContainsValue [] v = false) l = l.
Proof. induction l as [|v l IH]; [done|]. by rewrite filter_cons, IH, decide_True by (by right). Qed.

Lemma merged_array_chosen state_dict setup_dict key flags append :
  merged_array S_append_state state_dict setup_dict key flags append =
  array_unless_empty (chosen_array state_dict setup_dict key flags append).
Proof.
  unfold merged_array, merge_array_prop, chosen_array, sanitized.
  destruct (setup_dict ≫= _) as [k|], (state_dict ≫= _) as [l|]; cbn [default from_option id fmap option_fmap option_map];
    [..|done]; rewrite ?omap_sanitized; try destruct S_append_state;
    cbn [omap list_omap app]; rewrite ?filter_contains_nil, ?app_nil_r;
    match goal with |- context [array_unless_empty ?l] => destruct l end;
    cbn [length Nat.ltb Nat.leb array_unless_empty]; by lookup_dict.
Qed.

(** The lookups of [append_domain]. *)
Lemma append_domain_other dict k : k ≠ "SearchDomains" → append_domain dict !! k = dict !! k.
Proof. intros Hk. unfold append_domain. repeat case_match; by rewrite ?lookup_insert_ne by done. Qed.
Lemma append_domain_search dict search : dict !! "SearchDomains" = array_unless_empty search →
  append_domain dict !! "SearchDomains" = array_unless_empty (with_domain (dict !! "DomainName") search).
Proof.
  intros H. unfold append_domain, with_domain. rewrite H.
  destruct (dict !! "DomainName") as [[]|], search as [|x search]; cbn [array_unless_empty]; try by rewrite H.
  destruct (CFArrayContainsValue _ _); [by rewrite H|by rewrite lookup_insert_eq].
Qed.

(** The addresses a service has, as flags, and its interface. *)
Definition active_of (service : service_dict) : Z :=
  Z.lor (if entity_routes_protocol (sd_ipv4 service) then kProtocolFlagsIPv4 else 0)
    (if entity_routes_protocol (sd_ipv6 service) then kProtocolFlagsIPv6 else 0).
Definition routed_interface (service : service_dict) : option CFType :=
  let interface := if entity_routes_protocol (sd_ipv4 service) then ipdict_get_ifname (sd_ipv4 service) else None in
  match interface with
  | None => if entity_routes_protocol (sd_ipv6 service) then ipdict_get_ifname (sd_ipv6 service) else None
  | Some _ => interface
  end.
Definition user_configured (service : service_dict) (serviceID : string) (info : CFDict) : bool :=
  (entity_routes_protocol (sd_ipv4 service) && has_setup_entity info serviceID "IPv4") ||
  (entity_routes_protocol (sd_ipv6 service) && has_setup_entity info serviceID "IPv6").
Definition confirmed (serviceID : string) (state_dict : option CFDict) : bool :=
  match state_dict ≫= (λ d, get_string d "ConfirmedServiceID") with
  | Some state_serviceID => String.eqb serviceID state_serviceID
  | None => false
  end.
Definition kept (service : service_dict) (serviceID : string) (state_dict setup_dict : option CFDict)
    (info : CFDict) (key : string) : option CFType :=
  (new_dns_dict S_append_state service serviceID state_dict setup_dict info).1 ≫= (.!! key).

Lemma merge_servers_lookup state_dict setup_dict have trust active interface k :
  k = "ServerAddresses" ∨ k = DNS_CONFIGURATION_SCOPED_QUERY_KEY → active ≠ kProtocolFlagsNone →
  merge_dns S_append_state state_dict setup_dict have trust active interface !! k =
  merge_dns_servers S_append_state ∅ (state_dict ≫= (λ d, get_array d "ServerAddresses"))
    (setup_dict ≫= (λ d, get_array d "ServerAddresses")) have trust active interface !! k.
Proof.
  intros Hk Ha. unfold merge_dns. rewrite (proj2 (Z.eqb_neq _ _)) by done.
  destruct merge_keys_distinct as (_ & _ & _ & Hs). destruct (Hs k Hk).
  by rewrite pick_list_lookup, bool_decide_false, merge_list_other.
Qed.

Lemma kept_merged service serviceID state_dict setup_dict info :
  entity_routes_protocol (sd_ipv4 service) || entity_routes_protocol (sd_ipv6 service) = true →
  is_Some state_dict ∨ is_Some setup_dict →
  let dict := merge_dns S_append_state state_dict setup_dict (user_configured service serviceID info)
                (confirmed serviceID state_dict) (active_of service) (routed_interface service) in
  active_of service ≠ kProtocolFlagsNone ∧
  (new_dns_dict S_append_state service serviceID state_dict setup_dict info).1 =
    if bool_decide (dict = ∅) then None
    else
      let dict := match routed_interface service with
                  | Some interface => <["InterfaceName" := interface]> dict
                  | None => dict
                  end in
      Some (if S_append_state then append_domain dict else dict).
Proof.
  intros Hv H. cbn zeta.
  assert (Ha : active_of service =? kProtocolFlagsNone = false).
  { unfold active_of. by destruct (entity_routes_protocol (sd_ipv4 service)), (entity_routes_protocol (sd_ipv6 service)). }
  split; [by apply Z.eqb_neq|]. unfold new_dns_dict.
  destruct state_dict as [state|], setup_dict as [setup|]; [..|by destruct H as [[]|[]]].
  all: fold (active_of service) (routed_interface service) (user_configured service serviceID info); rewrite Ha; cbn [andb].
  all: unfold confirmed; case_bool_decide; done.
Qed.

Lemma kept_lookup service serviceID state_dict setup_dict info k :
  entity_routes_protocol (sd_ipv4 service) || entity_routes_protocol (sd_ipv6 service) = true →
  is_Some state_dict ∨ is_Some setup_dict → k ≠ "InterfaceName" →
  let dict := merge_dns S_append_state state_dict setup_dict (user_configured service serviceID info)
                (confirmed serviceID state_dict) (active_of service) (routed_interface service) in
  kept service serviceID state_dict setup_dict info k = (if S_append_state then append_domain dict else dict) !! k.
Proof.
  intros Hv H Hk. cbn zeta. destruct (kept_merged service serviceID state_dict setup_dict info Hv H) as [_ E].
  unfold kept. rewrite E. clear E. set (dict := merge_dns _ _ _ _ _ _ _).
  destruct (bool_decide_reflect (dict = ∅)) as [->|_]; cbn [mbind option_bind].
  { destruct S_append_state; [|by rewrite lookup_empty]. unfold append_domain. by rewrite lookup_empty. }
  destruct (routed_interface service) as [name|]; [|done]. destruct S_append_state; [|by rewrite lookup_insert_ne].
  unfold append_domain. rewrite !lookup_insert_ne by done. repeat case_match; rewrite ?lookup_insert_ne by done; try done.
  destruct (decide (k = "SearchDomains")) as [->|]; [by rewrite !lookup_insert_eq|by rewrite !lookup_insert_ne by done].
Qed.

End kept.

(** ** The dictionaries of the services *)

(** The name of an interface is a string, if there is one. *)
Definition name_typed (name : option CFType) : Prop :=
  match name with None | Some (CFString _) => True | _ => False end.
Record service_typed (service : service_dict) : Prop := {
  typed_ipv4 : name_typed (ipdict_get_ifname (sd_ipv4 service));
  typed_ipv6 : name_typed (ipdict_get_ifname (sd_ipv6 service));
  typed_dns : ∀ dns, sd_dns service = Some dns → dns_typed dns;
}.

Section changes.
Context {N : Network} {CF : CoreFoundation}.
Variable S_append_state : bool.

(** A dictionary of merged keys, with or without some of them. *)
Definition merged_keys (d : CFDict) : Prop := ∀ k, k ∉ service_keys → d !! k = None.

Lemma merge_dns_keys state_dict setup_dict have trust active interface :
  merged_keys (merge_dns S_append_state state_dict setup_dict have trust active interface).
Proof. intros k Hk. by apply merge_dns_lookup. Qed.
Lemma delete_keys d k : merged_keys d → merged_keys (delete k d).
Proof. intros H k' Hk. rewrite lookup_delete_None. right. by apply H. Qed.

Lemma with_interface_typed d interface : merged_keys d → name_typed interface →
  dns_typed (match interface with Some interface => <["InterfaceName" := interface]> d | None => d end).
Proof.
  intros H Hi.
  assert (Hn : ∀ k, k ∈ ["InterfaceName"; DNS_CONFIGURATION_FLAGS_KEY; DNS_CONFIGURATION_ORDER_KEY] → d !! k = None).
  { intros k Hk. apply H. rewrite !elem_of_cons, elem_of_nil in Hk.
    destruct_or? Hk; try done; subst k; by apply (bool_decide_unpack (_ ∉ service_keys)). }
  destruct interface as [i|]; split; lookup_dict; try (rewrite Hn by set_solver); done.
Qed.

Lemma append_domain_typed d : dns_typed d → dns_typed (append_domain d).
Proof.
  intros [H1 H2 H3]. unfold append_domain.
  destruct (d !! "DomainName") as [[]|]; try done; destruct (d !! "SearchDomains") as [[]|]; try done.
  destruct (CFArrayContainsValue _ _); [done|]. split; by lookup_dict.
Qed.

Lemma routed_interface_typed service : service_typed service → name_typed (routed_interface service).
Proof.
  intros [H4 H6 _]. unfold routed_interface. destruct (entity_routes_protocol (sd_ipv4 service)); [|by destruct (entity_routes_protocol _)].
  destruct (ipdict_get_ifname (sd_ipv4 service)); [done|]. by destruct (entity_routes_protocol _).
Qed.

(** Without addresses, the interface is the one that the network names. *)
Lemma without_service_typed d interface state_dict setup_dict : merged_keys d → name_typed interface →
  name_typed (state_dict ≫= (.!! "InterfaceName")) →
  let r := dns_without_service d interface state_dict setup_dict in
  merged_keys r.1 ∧ name_typed (default None r.2).
Proof.
  intros Hd Hi Hs. cbn zeta. unfold dns_without_service.
  destruct (bool_decide _); [|destruct (bool_decide _)]; cbn [fst snd default from_option id].
  - split; [by repeat apply delete_keys|]. by destruct interface, setup_dict, state_dict.
  - by destruct interface, state_dict.
  - done.
Qed.

Lemma merged_keys_typed d : merged_keys d → dns_typed d.
Proof. intros H. exact (with_interface_typed d None H I). Qed.

Lemma kept_typed d interface dns : merged_keys d → name_typed interface →
  (if bool_decide (d = ∅) then (None, interface)
   else
     let new_dict := match interface with
                     | Some interface => <["InterfaceName" := interface]> d
                     | None => d
                     end in
     (Some (if S_append_state then append_domain new_dict else new_dict), interface)).1 = Some dns →
  dns_typed dns.
Proof.
  intros Hd Hi. destruct (bool_decide _); [done|]. cbn zeta. intros [= <-].
  destruct S_append_state; [apply append_domain_typed|]; by apply with_interface_typed.
Qed.

Lemma new_dns_dict_typed service serviceID state_dict setup_dict info dns :
  service_typed service → name_typed (state_dict ≫= (.!! "InterfaceName")) →
  (new_dns_dict S_append_state service serviceID state_dict setup_dict info).1 = Some dns → dns_typed dns.
Proof.
  intros Hs Hst. pose proof (routed_interface_typed service Hs) as Hi. unfold new_dns_dict.
  destruct state_dict as [state|], setup_dict as [setup|]; [..|done].
  all: fold (active_of service) (routed_interface service) (user_configured service serviceID info).
  all: set (active := active_of service); set (merged := merge_dns _ _ _ _ _ _ _).
  all: pose proof (merge_dns_keys _ _ _ _ _ _ : merged_keys merged) as Hm; clearbody merged.
  all: destruct (active =? kProtocolFlagsNone); cbn [andb]; [|by apply kept_typed].
  all: rewrite ?bool_decide_true, ?bool_decide_false by done; try done.
  all: pose proof (without_service_typed merged (routed_interface service) (Some state) None Hm Hi Hst) as [Hd Ha].
  all: destruct (dns_without_service _ _ _ _) as [d [interface|]]; cbn [fst snd default from_option id] in Hd, Ha.
  all: first [by apply kept_typed|intros [= <-]; by apply merged_keys_typed].
Qed.

Definition services_ok (services : gmap string service_dict) : Prop := map_Forall (λ _, service_typed) services.

Lemma lookup_service_typed services id : services_ok services → service_typed (default no_service (services !! id)).
Proof.
  intros H. destruct (services !! id) as [service|] eqn:E; [by apply (H id)|]. by split.
Qed.

Lemma service_set_typed services id new : services_ok services → (∀ dns, new = Some dns → dns_typed dns) →
  services_ok (service_dict_set_dns services id new).2.
Proof.
  intros H Hnew. pose proof (lookup_service_typed services id H) as [H4 H6 Hd]. unfold service_dict_set_dns.
  set (service := default no_service (services !! id)) in *. cbn zeta. cbn [snd].
  destruct (bool_decide _ && _ && _ && _); [by apply map_Forall_delete|].
  apply map_Forall_insert_2; [|done]. destruct (match new with None => _ | Some _ => _ end); by split.
Qed.

Lemma service_set_others services id new id' : id' ≠ id →
  (service_dict_set_dns services id new).2 !! id' = services !! id'.
Proof.
  intros Hn. unfold service_dict_set_dns. cbn zeta. cbn [snd].
  destruct (bool_decide _ && _ && _ && _); [by rewrite lookup_delete_ne|by rewrite lookup_insert_ne].
Qed.

Definition same_dns (new old : option CFDict) : bool :=
  match new, old with
  | Some new, Some old => CFEqual (CFDictionary new) (CFDictionary old)
  | None, None => true
  | _, _ => false
  end.

(** What is looked up for the service afterwards; its other entities stay. *)
Lemma service_set_lookup services id new :
  let service := default no_service (services !! id) in
  default no_service ((service_dict_set_dns services id new).2 !! id) =
    MkServiceDict (sd_ipv4 service) (sd_ipv6 service)
      (if same_dns new (sd_dns service) then sd_dns service else new) (sd_others service) ∧
  (service_dict_set_dns services id new).1 = negb (same_dns new (sd_dns service)).
Proof.
  cbn zeta. unfold service_dict_set_dns. set (service := default no_service (services !! id)). cbn zeta. cbn [fst snd].
  assert (E : match new with Some new_val => match sd_dns service with
                | Some old_val => negb (CFEqual (CFDictionary new_val) (CFDictionary old_val)) | None => true end
              | None => match sd_dns service with Some _ => true | None => false end end =
              negb (same_dns new (sd_dns service))) by (by destruct new, (sd_dns service)).
  rewrite E. split; [|done].
  assert (Es : (if negb (same_dns new (sd_dns service))
    then MkServiceDict (sd_ipv4 service) (sd_ipv6 service) new (sd_others service) else service) =
    MkServiceDict (sd_ipv4 service) (sd_ipv6 service) (if same_dns new (sd_dns service) then sd_dns service else new)
      (sd_others service)) by (destruct service; cbn; by destruct (same_dns _ _)).
  rewrite Es. cbn [sd_ipv4 sd_ipv6 sd_dns sd_others].
  destruct (bool_decide_reflect (sd_ipv4 service = None)) as [->|], (bool_decide_reflect (sd_ipv6 service = None)) as [->|],
    (bool_decide_reflect ((if same_dns new (sd_dns service) then sd_dns service else new) = None)) as [->|],
    (bool_decide_reflect (sd_others service = ∅)) as [->|]; cbn [andb]; by rewrite ?lookup_delete_eq, ?lookup_insert_eq.
Qed.
End changes.

Section theorems.
Context {N : Network} {CF : CoreFoundation}.

(** [order_dns_servers] only changes the order of the servers, and so: a list that
    is all of one family, or mixed, or holds something that is no address is left alone;
    of a list with the servers of one family in front of those of the other, the two
    parts are swapped if the first server of the second is preferred to that of the
    first; and nothing is changed if only one family is routed. *)
Theorem order_dns_servers_swaps servers active :
  order_dns_servers servers active =
    (if has active kProtocolFlagsIPv4 && has active kProtocolFlagsIPv6 then swap_families servers else servers) ∧
  order_dns_servers servers active ≡ₚ servers.
Proof.
  rewrite order_dns_servers_swap. split; [done|]. destruct (_ && _); [apply swap_families_perm|done].
Qed.

(** Whatever else the store and the user have set, if the network's dictionary names the
    interface, if at all, by a string, [get_dns_changes] keeps the type of the
    dictionaries of the services (the interface is named by a string, and no key is set
    that the list of resolvers uses for itself). Only the DNS of the one service changes: it becomes the merged
    dictionary, reported as a change if and only if it is not equal to the old one, and
    NAT64 is poked in that case only. *)
Theorem get_dns_changes_typed S_append_state services serviceID state_dict setup_dict info :
  services_ok services → name_typed (state_dict ≫= (.!! "InterfaceName")) →
  let service := default no_service (services !! serviceID) in
  let new := (new_dns_dict S_append_state service serviceID state_dict setup_dict info).1 in
  let '(changed, services', nat64) :=
    get_dns_changes S_append_state services serviceID state_dict setup_dict info in
  services_ok services' ∧
  (∀ id, id ≠ serviceID → services' !! id = services !! id) ∧
  changed = negb (same_dns new (sd_dns service)) ∧
  default no_service (services' !! serviceID) =
    MkServiceDict (sd_ipv4 service) (sd_ipv6 service) (if changed then new else sd_dns service) (sd_others service) ∧
  (changed = false → nat64 = None).
Proof.
  intros H Hst. cbn zeta. unfold get_dns_changes. set (service := default no_service _).
  pose proof (new_dns_dict_typed S_append_state service serviceID state_dict setup_dict info) as Ht.
  destruct (new_dns_dict _ _ _ _ _ _) as [new interface]. cbn [fst] in Ht |- *.
  pose proof (service_set_typed services serviceID new H
    (λ dns, Ht dns (lookup_service_typed services serviceID H) Hst)) as H1.
  pose proof (service_set_others services serviceID new) as H2.
  pose proof (service_set_lookup services serviceID new) as [H3 H4]. fold service in H3, H4.
  destruct (service_dict_set_dns services serviceID new) as [changed services']. cbn [fst snd] in *.
  rewrite H3, H4. split_and!; [done|exact H2|done| |by intros ->]. by destruct (same_dns _ _).
Qed.
End theorems.
