(* ===== verification/DnsPublish.v ===== *)
(** * The DNS configuration: theorems on what IPMonitor publishes

    The list of resolvers of a configuration and their order; the flags of the default
    configuration, as the network information state has the services' interfaces; the
    configuration that is built of a list of resolvers, and what a client reads after
    [dns_configuration_set]. *)

From stdpp Require Import sorting.
From S2P Require Import Prelude RouteTypes RouteList DnsCreate DnsExpand DnsBuild DnsResolver DnsConfig DnsOpenConfig DnsSpec RouteDict NwiState NwiInfo NwiRep NwiInv NwiRead DnsFlat DnsFlatSpec DnsMerge DnsList DnsSet DnsSort DnsEntries DnsOps DnsMergeSpec.

Local Open Scope Z_scope.
Local Open Scope c_scope.

(** ** The default resolver *)

Section default.
Context {N : Network} {CF : CoreFoundation} {Laws : CoreFoundationLaws}.
Variable S_if_nameindex_cache : option (list (string * Z)).

Definition order_added (dns : CFDict) : bool :=
  match number_u32 (dns !! "SearchOrder") with Some _ => false | None => true end.
Definition with_order (dns : CFDict) : CFDict :=
  if order_added dns then <["SearchOrder" := CFNumber_u32 DEFAULT_SEARCH_ORDER]> dns else dns.
Definition default_entry (dns : CFDict) : CFDict :=
  add_resolver_signature (without_search (with_order dns)) "Default" None 0.

Lemma default_entry_typed dns : dns_typed dns → entry_typed (default_entry dns).
Proof.
  intros H%dns_base. destruct H as [H1 H2 H3]. unfold default_entry, with_order, without_search.
  destruct (order_added dns); apply signature_typed; [split|..|split|]; by lookup_dict.
Qed.

(** The search list that the default resolver is given: its own domains among those of
    the resolvers [l]. *)
Definition default_search (dns : CFDict) (l : list CFDict) : list string :=
  let r := search_rounds (resolver_search_order (with_order dns)) (default_search_domains dns) l in r.1 ++ r.2.

Lemma add_default_resolver_ok dns l0 : dns_typed dns → Forall entry_typed l0 →
  Z.of_nat (length l0 + 1) < 2 ^ 31 →
  ∃ l, l ≡ₚ numbered S_if_nameindex_cache 0 l0 ∧ StronglySorted (λ r1 r2, search_order r1 r2 ≠ Gt) l ∧
    add_default_resolver S_if_nameindex_cache (numbered S_if_nameindex_cache 0 l0) (Some dns) =
    Some (numbered S_if_nameindex_cache 0 (l0 ++ [default_entry dns]), order_added dns,
          found_domains (default_search dns l)).
Proof.
  intros Hd Hl Hlen. unfold add_default_resolver. cbn [default from_option id].
  fold (order_added dns). fold (with_order dns).
  destruct (extract_supplemental (with_order dns) (numbered S_if_nameindex_cache 0 l0)) as (l & Hp & Hs & E).
  { by apply numbered_typed. }
  { apply numbered_NoDup. }
  exists l. split; [done|]. split; [done|]. cbn zeta in E. rewrite E. cbn [mbind option_bind fst snd].
  assert (Ho : default_search_domains (with_order dns) = default_search_domains dns).
  { unfold with_order, default_search_domains, get_array. destruct (order_added dns); [|done]. by lookup_dict. }
  rewrite Ho. destruct (adds_one S_if_nameindex_cache _ (default_entry_typed dns Hd)) as [_ Ha].
  unfold default_entry in Ha. rewrite Ha by done. done.
Qed.

Lemma add_default_resolver_none l : add_default_resolver S_if_nameindex_cache l None =
  add_default_resolver S_if_nameindex_cache l (Some ∅).
Proof. done. Qed.

(** ** Removing empty resolvers, and the default resolver's final form *)

Lemma cleanup_filter x rest : ∀ i, (i ≤ length rest)%nat →
  cleanup i (x :: rest) = Some (x :: filter (λ r, is_empty_resolver r = false) (take i rest) ++ drop i rest).
Proof.
  intros i. revert rest. induction i as [|i IH]; intros rest Hi; [done|].
  cbn [cleanup]. destruct (lookup_lt_is_Some_2 rest i ltac:(lia)) as (y & Ey).
  change ((x :: rest) !! S i) with (rest !! i). rewrite Ey. cbn [mbind option_bind].
  rewrite (take_S_r _ _ _ Ey), filter_app, filter_cons, filter_nil.
  destruct (is_empty_resolver y) eqn:E.
  - rewrite decide_False by done. change (delete (S i) (x :: rest)) with (x :: delete i rest). rewrite app_nil_r.
    assert (Hl : length (take i rest) = i) by (rewrite length_take; lia).
    rewrite delete_take_drop, IH by (rewrite length_app, Hl; lia).
    by rewrite take_app_length', drop_app_length' by done.
  - rewrite decide_True by done. rewrite IH by lia. rewrite (drop_S _ _ _ Ey), <-app_assoc. done.
Qed.

Definition nonempty (rest : list CFDict) : list CFDict := filter (λ r, is_empty_resolver r = false) rest.

Lemma cleanup_all x rest : cleanup (length (x :: rest) - 1) (x :: rest) = Some (x :: nonempty rest).
Proof.
  cbn [length]. rewrite Nat.sub_1_r. cbn [Nat.pred]. rewrite cleanup_filter by done. by rewrite firstn_all, drop_all, app_nil_r.
Qed.

(** The first resolver when it is published: a search order nobody asked for goes, unless
    the next one is for all domains too. *)
Definition final_default (orderAdded : bool) (searchDomains : option (list string)) (first : CFDict)
    (rest : list CFDict) : CFDict :=
  let myDefault := set_search_domains first searchDomains in
  match rest with
  | second :: _ =>
      if orderAdded && (has_key second "DomainName" || resolver_scoped second)
      then delete "SearchOrder" myDefault else myDefault
  | [] => myDefault
  end.

Lemma update_default_ok orderAdded searchDomains first rest : Forall resolver_typed rest →
  update_default (first :: rest) orderAdded searchDomains =
  Some (final_default orderAdded searchDomains first rest :: rest).
Proof.
  intros Ht. unfold update_default, final_default.
  change ((first :: rest) !! 0%nat) with (Some first). cbn [mbind option_bind].
  destruct rest as [|second rest]; [done|]. change ((first :: second :: rest) !! 1%nat) with (Some second).
  inversion Ht as [|? ? Hs _]; subst. cbn beta iota. destruct orderAdded; [|done]. cbn [andb].
  destruct (has_key second "DomainName"); [done|]. rewrite (scoped_typed _ Hs). cbn [mbind option_bind orb].
  by destruct (resolver_scoped second).
Qed.
End default.

(** ** The list *)

Section list.
Context {N : Network} {CF : CoreFoundation} {Laws : CoreFoundationLaws}.
Variables (S_if_nameindex_cache : option (list (string * Z))) (S_mdns_timeout S_pdns_timeout : option CFType).
Variables (services : list (string * service_dict)) (service_order : option (list CFType)).
Variables (defaultResolver : option CFDict) (multicastResolvers privateResolvers : list CFType).

(** What is in the list in front of the default resolver, and behind it. *)
Definition entries_before : list CFDict :=
  all_supplementals services service_order None ++ private_entries S_pdns_timeout privateResolvers.
Definition entries_behind : list CFDict :=
  multicast_entries S_mdns_timeout multicastResolvers ++
  all_scoped S_if_nameindex_cache services service_order ++ service_specific_entries [] services.
Definition all_entries : list CFDict :=
  entries_before ++ default_entry (default ∅ defaultResolver) :: entries_behind.

Definition services_typed : Prop :=
  ∀ serviceID service dns, (serviceID, service) ∈ services → sd_dns service = Some dns → dns_typed dns.

Hypothesis Hservices : services_typed.
Hypothesis Hdefault : dns_typed (default ∅ defaultResolver).
Hypothesis Hlen : Z.of_nat (length all_entries) < 2 ^ 31.

Lemma before_adds :
  adds S_if_nameindex_cache (λ rs,
    rs ← add_supplemental_resolvers S_if_nameindex_cache services service_order rs None;
    add_private_resolvers S_if_nameindex_cache S_pdns_timeout rs 0 privateResolvers) entries_before.
Proof using Laws Hservices.
  apply (adds_app S_if_nameindex_cache).
  - exact (add_supplemental_resolvers_adds S_if_nameindex_cache services service_order Hservices None).
  - apply add_private_resolvers_adds.
Qed.

Lemma behind_adds :
  adds S_if_nameindex_cache (λ rs,
    rs ← add_multicast_resolvers S_if_nameindex_cache S_mdns_timeout rs 0 multicastResolvers;
    rs ← add_scoped_resolvers S_if_nameindex_cache services service_order rs;
    add_service_specific_resolvers S_if_nameindex_cache rs [] services) entries_behind.
Proof using Laws Hservices.
  apply (adds_app S_if_nameindex_cache); [apply add_multicast_resolvers_adds|].
  apply (adds_app S_if_nameindex_cache); [by apply add_scoped_resolvers_adds|by apply add_service_specific_resolvers_adds].
Qed.

Lemma all_entries_typed : Forall entry_typed all_entries.
Proof using Laws Hservices Hdefault.
  unfold all_entries. apply Forall_app. split; [apply before_adds|].
  constructor; [by apply default_entry_typed|apply behind_adds].
Qed.

Notation listed := (numbered S_if_nameindex_cache 0 all_entries).
Definition default_resolver : CFDict :=
  placed S_if_nameindex_cache (length entries_before) (default_entry (default ∅ defaultResolver)).

Lemma default_listed : default_resolver ∈ listed ∧ has_key default_resolver "DomainName" = false.
Proof using.
  split.
  - unfold all_entries. rewrite numbered_app, numbered_cons. apply elem_of_app. right. by left.
  - unfold default_resolver, has_key. rewrite placed_lookup by done.
    unfold default_entry, add_resolver_signature, without_search. by lookup_dict.
Qed.

(** In order, the default resolver is the first. *)
Lemma default_first first rest : one_default listed → first :: rest ≡ₚ listed →
  StronglySorted (λ r1 r2, domain_order r1 r2 ≠ Gt) (first :: rest) → first = default_resolver.
Proof using.
  intros [Hn Hone] Hp Hs. destruct default_listed as [Hin Hd]. rewrite <-Hp in Hin.
  apply elem_of_cons in Hin as [->|Hin]; [done|]. inversion Hs as [|? ? _ Hf]; subst.
  rewrite Forall_forall in Hf. destruct (has_key first "DomainName") eqn:E.
  - exfalso. apply (Hf _ Hin). unfold domain_order, lex. unfold order_on at 1. by rewrite E, Hd.
  - apply Hone; [|by apply default_listed|done|done]. rewrite <-Hp. by left.
Qed.

Lemma list_resolvers_ok :
  ∃ sorted first rest,
    sorted ≡ₚ numbered S_if_nameindex_cache 0 entries_before ∧
    StronglySorted (λ r1 r2, search_order r1 r2 ≠ Gt) sorted ∧
    first :: rest ≡ₚ listed ∧
    (one_default listed → first = default_resolver ∧ StronglySorted (λ r1 r2, domain_order r1 r2 ≠ Gt) (first :: rest)) ∧
    list_resolvers S_if_nameindex_cache S_mdns_timeout S_pdns_timeout defaultResolver services service_order
      multicastResolvers privateResolvers =
    Some (final_default (order_added (default ∅ defaultResolver))
            (found_domains (default_search (default ∅ defaultResolver) sorted)) first (nonempty rest) :: nonempty rest).
Proof using Laws Hservices Hdefault Hlen.
  destruct before_adds as [Tb Ab]. destruct behind_adds as [Ta Aa]. pose proof all_entries_typed as Tall.
  unfold all_entries in Hlen. rewrite length_app in Hlen. cbn [length] in Hlen.
  destruct (add_default_resolver_ok S_if_nameindex_cache _ entries_before Hdefault Tb ltac:(lia))
    as (sorted & Hp & Hs & Ed).
  specialize (Ab [] ltac:(cbn; lia)). cbn [app] in Ab.
  specialize (Aa (entries_before ++ [default_entry (default ∅ defaultResolver)])
    ltac:(rewrite length_app; cbn [length]; lia)).
  rewrite <-app_assoc in Aa. cbn [app] in Aa. fold all_entries in Aa.
  destruct (sort_resolvers listed) as (l & El & Hpl & Hsl); [by apply numbered_typed|].
  assert (Hl : (0 < length l)%nat).
  { rewrite Hpl, length_numbered. unfold all_entries. rewrite length_app. cbn. lia. }
  destruct l as [|first rest]; [cbn in Hl; lia|].
  assert (Es : (if (1 <? length listed)%nat then CFArraySortValues compareDomain listed else Some listed) =
               Some (first :: rest) ∨ ∃ r, listed = [r]).
  { destruct (Nat.ltb_spec 1 (length listed)); [by left|right].
    destruct listed as [|r [|]]; [|by eexists|cbn in *; lia]. by apply Permutation_nil_r in Hpl. }
  assert (Hr : Forall resolver_typed rest).
  { assert (H : Forall resolver_typed (first :: rest)) by (rewrite Hpl; by apply numbered_typed). by inversion H. }
  exists sorted, first, rest. split; [done|]. split; [done|]. split; [done|]. split.
  { intros H. specialize (Hsl H). split; [by eapply default_first|done]. }
  unfold list_resolvers. change (@nil CFDict) with (numbered S_if_nameindex_cache 0 []) at 1.
  destruct (add_supplemental_resolvers _ _ _ _ None) as [rs1|]; [|done]. cbn [mbind option_bind] in Ab |- *.
  rewrite Ab. cbn [mbind option_bind].
  assert (Edd : add_default_resolver S_if_nameindex_cache (numbered S_if_nameindex_cache 0 entries_before) defaultResolver =
    add_default_resolver S_if_nameindex_cache (numbered S_if_nameindex_cache 0 entries_before)
      (Some (default ∅ defaultResolver))) by (by destruct defaultResolver).
  rewrite Edd, Ed. cbn [mbind option_bind].
  destruct (add_multicast_resolvers _ _ _ _ _) as [rs2|]; [|done]. cbn [mbind option_bind] in Aa |- *.
  destruct (add_scoped_resolvers _ _ _ _) as [rs3|]; [|done]. cbn [mbind option_bind] in Aa |- *.
  rewrite Aa. cbn [mbind option_bind].
  destruct Es as [Es|(r & Er)].
  - rewrite Es. cbn [mbind option_bind]. rewrite cleanup_all. cbn [mbind option_bind].
    apply update_default_ok. rewrite Forall_forall in Hr |- *. intros x [_ Hx]%list_elem_of_filter. by apply Hr.
  - rewrite Er in *. cbn [length Nat.ltb Nat.leb mbind option_bind].
    apply Permutation_singleton_r in Hpl. injection Hpl as -> ->. done.
Qed.
End list.

(** ** Services whose interface is not in the list *)

Definition ifname_of (service : service_dict) : option CFType :=
  match sd_ipv4 service with
  | Some _ => ipdict_get_ifname (sd_ipv4 service)
  | None => ipdict_get_ifname (sd_ipv6 service)
  end.

Definition not_listed (v : view) (name : string) (af : family) : bool :=
  match with_name name (v af) with Some x => negb (in_list x) | None => false end.

(** An interface that the state has for some family, but not for general use. *)
Definition scoped_only (state : option (nwi_state * view)) (service : service_dict) : bool :=
  match ifname_of service, state with
  | Some (CFString name), Some (_, v) =>
      (String.length name <? IFNAMSIZ)%nat &&
      (not_listed v (c_trunc name) AF_INET || not_listed v (c_trunc name) AF_INET6)
  | _, _ => false
  end.

Definition state_ok (state : option (nwi_state * view)) : Prop :=
  match state with Some (s, v) => nwi_ok s v | None => True end.
(** The names of interfaces in the entities of a service are strings. *)
Definition ifname_typed (service : service_dict) : Prop :=
  match ifname_of service with None | Some (CFString _) => True | _ => False end.

Lemma scoped_only_found s v name af i : nwi_ok s v →
  pos name (names (v af)) = Some i →
  (x ← nwi_ifstate_list s !! (start (nwi_max_if_count s) af + i)%nat;
   if has (ifs_flags x) NWI_IFSTATE_FLAGS_NOT_IN_LIST then Some true
   else
     alias ← nwi_ifstate_get_alias s (start (nwi_max_if_count s) af + i)
               (if bool_decide (ifs_af x = Some AF_INET) then AF_INET6 else AF_INET);
     match alias with
     | None => Some false
     | Some alias => y ← nwi_ifstate_list s !! alias; Some (has (ifs_flags y) NWI_IFSTATE_FLAGS_NOT_IN_LIST)
     end) = Some (not_listed v name af || not_listed v name (nwi_other_af af)).
Proof.
  intros Hok Hp. destruct (with_name_pos _ _ _ Hp) as (x & Hx & Hw & Hn).
  rewrite (read_at Hok _ _ _ Hx). cbn [mbind option_bind].
  unfold not_listed at 1. rewrite Hw. unfold in_list at 1. rewrite negb_involutive.
  destruct (has (ifs_flags x) NWI_IFSTATE_FLAGS_NOT_IN_LIST); [done|].
  rewrite (item_af _ _ _ _ _ (ok_item _ _ Hok _ _ _ Hx)).
  assert (Eo : (if bool_decide (Some af = Some AF_INET) then AF_INET6 else AF_INET) = nwi_other_af af) by (by destruct af).
  rewrite Eo, (get_alias_ok Hok _ _ _ _ Hx), Hn. cbn [mbind option_bind orb].
  unfold not_listed. destruct (pos name (names (v (nwi_other_af af)))) as [j|] eqn:Ej; cbn [fmap option_fmap option_map].
  - destruct (with_name_pos _ _ _ Ej) as (y & Hy & Hwy & _). rewrite (read_at Hok _ _ _ Hy), Hwy.
    cbn [mbind option_bind]. unfold in_list. by rewrite negb_involutive.
  - unfold with_name. by rewrite Ej.
Qed.

Lemma service_is_scoped_only_ok state service : state_ok state → ifname_typed service →
  service_is_scoped_only (fst <$> state) service = Some (scoped_only state service).
Proof.
  intros Hok Ht. unfold service_is_scoped_only, scoped_only. fold (ifname_of service).
  unfold ifname_typed in Ht. destruct (ifname_of service) as [f|]; [|done]. destruct f as [name| | | | |]; try done.
  destruct state as [[s v]|]; [|done]. cbn [fmap option_fmap option_map fst]. cbn in Hok.
  rewrite Nat.leb_antisym. destruct (String.length name <? IFNAMSIZ)%nat; [|done]. cbn [negb andb].
  unfold nwi_state_get_ifstate. rewrite !(rep_get_with_name (ok_rep _ _ Hok)).
  destruct (pos (c_trunc name) (names (v AF_INET))) as [i|] eqn:E4; cbn [fmap option_fmap option_map mbind option_bind].
  { by rewrite (scoped_only_found s v _ AF_INET i Hok E4). }
  destruct (pos (c_trunc name) (names (v AF_INET6))) as [i|] eqn:E6; cbn [fmap option_fmap option_map mbind option_bind].
  - by rewrite (scoped_only_found s v _ AF_INET6 i Hok E6), orb_comm.
  - unfold not_listed, with_name. by rewrite E4, E6.
Qed.

(** The families that services have which are not for scoped use only. *)
Definition spec_default_flags (state : option (nwi_state * view)) (services : list (string * service_dict)) : Z :=
  let any af := existsb (λ s, negb (scoped_only state s.2) && service_contains_protocol s.2 af) services in
  Z.lor (if any AF_INET then DNS_RESOLVER_FLAGS_REQUEST_A_RECORDS else 0)
    (if any AF_INET6 then DNS_RESOLVER_FLAGS_REQUEST_AAAA_RECORDS else 0).

Definition family_flags (v4 v6 : bool) : Z :=
  Z.lor (if v4 then DNS_RESOLVER_FLAGS_REQUEST_A_RECORDS else 0)
    (if v6 then DNS_RESOLVER_FLAGS_REQUEST_AAAA_RECORDS else 0).

Lemma flags_service_families service v4 v6 : dns_resolver_flags_service service (family_flags v4 v6) =
  family_flags (v4 || service_contains_protocol service AF_INET) (v6 || service_contains_protocol service AF_INET6).
Proof.
  unfold dns_resolver_flags_service. destruct v4, v6, (service_contains_protocol service AF_INET),
    (service_contains_protocol service AF_INET6); done.
Qed.

Lemma add_dns_resolver_flags_ok state flags service : state_ok state → ifname_typed service →
  add_dns_resolver_flags (fst <$> state) flags service =
  Some (if scoped_only state service then flags else dns_resolver_flags_service service flags).
Proof. intros Hok Ht. unfold add_dns_resolver_flags. by rewrite service_is_scoped_only_ok. Qed.

Lemma default_flags_ok state services : state_ok state → (∀ s, s ∈ services → ifname_typed s.2) →
  default_flags (fst <$> state) services = Some (spec_default_flags state services).
Proof.
  intros Hok Ht. unfold default_flags, spec_default_flags.
  set (any := λ l af, existsb (λ s : string * service_dict, negb (scoped_only state s.2) && service_contains_protocol s.2 af) l).
  change (foldl (λ flags (s : string * service_dict), flags ← flags; add_dns_resolver_flags (fst <$> state) flags s.2)
    (Some (family_flags false false)) services = Some (family_flags (any services AF_INET) (any services AF_INET6))).
  assert (H : ∀ v4 v6, foldl (λ flags (s : string * service_dict), flags ← flags;
      add_dns_resolver_flags (fst <$> state) flags s.2) (Some (family_flags v4 v6)) services =
    Some (family_flags (v4 || any services AF_INET) (v6 || any services AF_INET6))); [|apply H].
  induction services as [|s services IH]; intros v4 v6; [cbn; by rewrite !orb_false_r|].
  cbn [foldl mbind option_bind]. 
  rewrite add_dns_resolver_flags_ok by (done || apply Ht; by left).
  unfold any. cbn [existsb]. fold (any services AF_INET) (any services AF_INET6).
  destruct (scoped_only state s.2); cbn [negb andb orb].
  - apply IH. intros; apply Ht; by right.
  - rewrite flags_service_families, IH by (intros; apply Ht; by right). by rewrite !orb_assoc.
Qed.

(** ** The configuration *)

Section publish.
Context {N : Network} {CF : CoreFoundation} {R : Reachability}.
Context {NL : NetworkLaws} {Laws : CoreFoundationLaws} {RL : ReachabilityLaws}.
Variable S_if_nameindex_cache : option (list (string * Z)).
Variable state : option (nwi_state * view).
Context {AI : AddressInfo} {AL : AddressInfoLaws}.
Variables (garbage : nat → byte) (now : Z) (resolver_dir : files).
Notation flatfile_resolvers := (flatfile_calls resolver_dir).
Variable services : list (string * service_dict).
Hypothesis Hstate : state_ok state.
Hypothesis Hnames : ∀ s, s ∈ services → ifname_typed s.2.

Definition needs_merge (r : CFDict) : bool :=
  match number_u32 (r !! DNS_CONFIGURATION_FLAGS_KEY) with
  | Some flags =>
      negb (dns_resolver_flags_all_queries flags) &&
      negb (has flags DNS_RESOLVER_FLAGS_SCOPED || has flags DNS_RESOLVER_FLAGS_SERVICE_SPECIFIC)
  | None => true
  end.

(** A resolver as it is published. *)
Definition merged (r : CFDict) : CFDict :=
  if needs_merge r then merge_configuration_flags r (spec_default_flags state services) else r.

(** The calls for the resolvers, and for those read from files. *)
Definition published_ops (rs : list CFDict) : list (list resolver_op) :=
  (resolver_ops S_if_nameindex_cache ∘ merged <$> rs) ++
  flatfile_resolvers (if existsb needs_merge rs then spec_default_flags state services else 0).

Record published_typed (r : CFDict) : Prop := {
  published_flags : match r !! DNS_CONFIGURATION_FLAGS_KEY with None | Some (CFNumber _ true) => True | _ => False end;
  published_id : ∃ s, r !! DNS_CONFIGURATION_CONFIGURATION_ID = Some (CFString s) ∧ (0 < String.length s)%nat;
}.

Lemma needs_merge_ok r : published_typed r → needsMergeWithDefaultConfiguration r = Some (needs_merge r).
Proof using.
  intros [Hf _]. unfold needsMergeWithDefaultConfiguration, needs_merge.
  destruct (r !! DNS_CONFIGURATION_FLAGS_KEY) as [[|? []| | | |]|]; done.
Qed.

Lemma add_all_resolvers_ok rs fl s : Forall published_typed rs →
  (fl = None ∨ fl = Some (spec_default_flags state services)) →
  add_all_resolvers S_if_nameindex_cache (fst <$> state) garbage (Some services) fl rs s =
  (for_each (resolver_ops S_if_nameindex_cache ∘ merged <$> rs) (λ ops, add_resolver_block garbage (build_resolver garbage ops));;
   ret (if existsb needs_merge rs then Some (spec_default_flags state services) else fl)) s.
Proof using Hstate Hnames.
  intros Ht. revert fl s. induction Ht as [|r rs Hr Ht IH]; intros fl s Hfl; [done|].
  cbn [add_all_resolvers fmap list_fmap for_each existsb]. unfold merge_default_flags.
  rewrite (needs_merge_ok r Hr). cbn [mbind option_bind].
  assert (E : (if needs_merge r
     then flags ← match fl with Some flags => Some flags
                  | None => default_flags (fst <$> state) services end;
          Some (merge_configuration_flags r flags, Some flags)
     else Some (r, fl)) = Some (merged r, if needs_merge r then Some (spec_default_flags state services) else fl)).
  { unfold merged. destruct (needs_merge r); [|done].
    destruct Hfl as [->| ->]; [|done]. by rewrite default_flags_ok. }
  rewrite E. cbn [deref]. rewrite bind_ret. unfold bind at 1 2 3. rewrite create_resolver_ops. cbn [compose].
  destruct (add_resolver_block _ _ s) as [[[] s']|]; [|done].
  rewrite IH by (destruct (needs_merge r); auto). unfold bind.
  destruct (for_each _ _ s') as [[[] s'']|]; [|done]. unfold ret.
  destruct (needs_merge r); cbn [orb]; [by destruct (existsb _ _)|done].
Qed.

Lemma build_config_ok rs : Forall published_typed rs → Forall (Forall op_ok) (published_ops rs) →
  config_fits (config_of now (published_ops rs)) →
  build_config S_if_nameindex_cache (fst <$> state) garbage now resolver_dir (Some services) rs =
  create_config garbage now (published_ops rs).
Proof using Hstate Hnames.
  intros Ht Hops Hfits%config_fits_all. unfold build_config, create_config. f_equal.
  destruct (_dns_configuration_create now []) as [[[] s]|] eqn:Ec; [|unfold bind; by rewrite Ec].
  rewrite !(bind_eq _ _ _ _ _ Ec). unfold published_ops in *.
  apply Forall_app in Hops as [_ Hops]. apply Forall_app in Hfits as [_ Hfits].
  set (flags := if existsb needs_merge rs then _ else 0) in *.
  change (λ ops, let* resolver := deref (build_resolver garbage ops) in _dns_configuration_add_resolver garbage resolver;; ret ())
    with (λ ops, add_resolver_block garbage (build_resolver garbage ops)).
  rewrite for_each_app. unfold bind at 1. rewrite add_all_resolvers_ok by auto. unfold bind.
  destruct (for_each _ _ s) as [[[] s']|]; [|done]. unfold ret.
  assert (Ef : default 0 (if existsb needs_merge rs then Some (spec_default_flags state services) else None) = flags)
    by (unfold flags; by destruct (existsb _ _)).
  rewrite Ef. by apply add_files_ok.
Qed.

Lemma merged_typed r : published_typed r → published_typed (merged r).
Proof using.
  intros [Hf Hid]. unfold merged. destruct (needs_merge r); [|done]. unfold merge_configuration_flags. split; by lookup_dict.
Qed.

Lemma published_ops_ok rs : (∀ flags, Forall (Forall op_ok) (flatfile_resolvers flags)) →
  Forall (Forall op_ok) (published_ops rs).
Proof using NL Laws RL.
  intros Hflat. apply Forall_app. split; [|apply Hflat]. rewrite Forall_forall.
  intros ops (r & -> & _)%list_elem_of_fmap. exact (resolver_ops_ok S_if_nameindex_cache (merged r)).
Qed.

(** The identifier is the last that is added to a resolver. *)
Lemma ops_terminated r : published_typed r → ends_unterminated (resolver_ops S_if_nameindex_cache r) = false.
Proof using.
  intros [_ (s & E & Hs)]. unfold resolver_ops, cid_of. rewrite E, (proj2 (Nat.ltb_lt _ _) Hs).
  unfold ends_unterminated, op_list at 8. rewrite !foldl_app. done.
Qed.

Lemma published_terminated rs :
  (∀ flags, match last (flatfile_resolvers flags) with Some ops => ends_unterminated ops = false | None => True end) →
  Forall published_typed rs →
  match last (published_ops rs) with Some ops => ends_unterminated ops = false | None => True end.
Proof using.
  intros Hflat Ht. unfold published_ops. rewrite last_app.
  specialize (Hflat (if existsb needs_merge rs then spec_default_flags state services else 0)).
  destruct (last (flatfile_resolvers _)); [done|]. rewrite fmap_last.
  destruct (last rs) as [r|] eqn:E; [|done]. cbn. apply ops_terminated, merged_typed.
  apply last_Some_elem_of in E. rewrite Forall_forall in Ht. by apply Ht.
Qed.

Lemma listed_published r : resolver_typed r → published_typed r.
Proof using. by intros [_ H1 _ H2]. Qed.

Lemma final_default_published orderAdded search first rest :
  published_typed first → published_typed (final_default orderAdded search first rest).
Proof using.
  intros [Hf Hid]. unfold final_default, set_search_domains.
  destruct rest; [|destruct (orderAdded && _)]; destruct search; split; by lookup_dict.
Qed.
End publish.

(** The services as they are handed over, in any order. *)
Lemma listed_services kept services : services_ok kept → services ≡ₚ map_to_list kept →
  services_typed services ∧ ∀ s, s ∈ services → ifname_typed s.2.
Proof.
  intros Hk Hp.
  assert (H : ∀ s, s ∈ services → service_typed s.2).
  { intros [id s] Hs. rewrite Hp in Hs. apply elem_of_map_to_list in Hs. exact (Hk id s Hs). }
  split.
  - intros id s dns Hs. by apply (typed_dns _ (H _ Hs)).
  - intros s Hs. destruct (H s Hs) as [H4 H6 _]. unfold ifname_typed, ifname_of. by destruct (sd_ipv4 s.2).
Qed.

(** The default resolver that is used: one with servers. *)
Definition usable_default (defaultResolver : option CFDict) : option CFDict :=
  match defaultResolver with
  | Some dns => match get_array dns "ServerAddresses" with Some (_ :: _) => Some dns | _ => None end
  | None => None
  end.

Section set.
Context {N : Network} {CF : CoreFoundation} {R : Reachability}.
Context {NL : NetworkLaws} {Laws : CoreFoundationLaws} {RL : ReachabilityLaws}.
Variables (S_if_nameindex_cache : option (list (string * Z))) (S_mdns_timeout S_pdns_timeout : option CFType).
Variable state : option (nwi_state * view).
Variables (garbage : nat → byte) (base : Z) (sha1 : list byte → list byte) (now : Z).
Context {AI : AddressInfo} {AL : AddressInfoLaws}.
Variable resolver_dir : files.
Notation flatfile_resolvers := (flatfile_calls resolver_dir).
Variables (defaultResolver : option CFDict) (services : list (string * service_dict)).
Variables (service_order multicastResolvers privateResolvers : option (list CFType)) (st : dns_state).

Notation listed := (list_resolvers S_if_nameindex_cache S_mdns_timeout S_pdns_timeout (usable_default defaultResolver)
  services service_order (default [] multicastResolvers) (default [] privateResolvers)).
Notation ops := (published_ops S_if_nameindex_cache state resolver_dir services).
Notation set_configuration := (dns_configuration_set S_if_nameindex_cache S_mdns_timeout S_pdns_timeout (fst <$> state)
  garbage base sha1 now resolver_dir defaultResolver (Some services) service_order multicastResolvers
  privateResolvers st).

(** What the services and the files have to be like. *)
Record inputs_ok : Prop := {
  in_state : state_ok state;
  in_services : ∃ kept, services_ok kept ∧ services ≡ₚ map_to_list kept;
  in_default : dns_typed (default ∅ (usable_default defaultResolver));
  in_length : Z.of_nat (length (all_entries S_if_nameindex_cache S_mdns_timeout S_pdns_timeout services service_order
                (usable_default defaultResolver) (default [] multicastResolvers) (default [] privateResolvers))) < 2 ^ 31;
  in_files : files_ok resolver_dir;
  in_flat_end : ∀ flags,
    match last (flatfile_resolvers flags) with Some ops => ends_unterminated ops = false | None => True end;
  in_base : 0 < base ∧ base + DNS_CONFIG_BUF_MAX < 2 ^ 64;
}.

Lemma in_typed : inputs_ok → services_typed services.
Proof using. intros H. destruct (in_services H) as (kept & Hk & Hp). by apply (listed_services kept). Qed.
Lemma in_names : inputs_ok → ∀ s, s ∈ services → ifname_typed s.2.
Proof using. intros H. destruct (in_services H) as (kept & Hk & Hp). by apply (listed_services kept). Qed.

Lemma listed_typed : inputs_ok → ∃ rs, listed = Some rs ∧ Forall published_typed rs ∧ rs ≠ [].
Proof using Laws.
  intros H.
  destruct (list_resolvers_ok S_if_nameindex_cache S_mdns_timeout S_pdns_timeout services service_order
    (usable_default defaultResolver) (default [] multicastResolvers) (default [] privateResolvers)
    (in_typed H) (in_default H) (in_length H)) as (sorted & first & rest & _ & _ & Hp & _ & E).
  eexists. split; [exact E|]. split; [|done].
  assert (Ht : Forall published_typed (first :: rest)).
  { rewrite Hp. eapply Forall_impl; [|apply listed_published]. apply numbered_typed, all_entries_typed; [by apply in_typed|apply H]. }
  inversion Ht as [|? ? Hf Hr]; subst. constructor; [by apply final_default_published|].
  rewrite Forall_forall in Hr |- *. intros x [_ Hx]%list_elem_of_filter. by apply Hr.
Qed.

(** The block that is built of resolvers that fit, its signature, and what is stored. *)
Lemma built_config rs : inputs_ok → Forall published_typed rs → config_size now (ops rs) <= DNS_CONFIG_BUF_MAX →
  ∃ config signature,
    build_config S_if_nameindex_cache (fst <$> state) garbage now resolver_dir (Some services) rs = Some config ∧
    _dns_configuration_signature sha1 (Some config) CC_SHA1_DIGEST_LENGTH = Some signature ∧
    let data := config_image (config_of now (ops rs)) in
    (fst <$> ntohl c_n_attribute config) = Some (Z.of_nat (length data) - sizeof_config_buf) ∧
    mem_load config 0 (Z.of_nat (length data)) = Some data ∧
    (∃ logged, copy_config base config (Z.of_nat (length data)) = Some logged) ∧
    ∀ base', 0 < base' → base' + DNS_CONFIG_BUF_MAX < 2 ^ 64 →
      copy_config base' data (Z.of_nat (length data)) = Some (Some (spec_config now (ops rs))).
Proof using NL Laws RL AL.
  intros H Ht Hsize. cbn zeta. pose proof (published_ops_ok S_if_nameindex_cache state resolver_dir services rs
    (λ flags, flatfile_calls_ok resolver_dir flags (in_files H))) as Hops.
  pose proof (published_terminated S_if_nameindex_cache state resolver_dir services rs (in_flat_end H) Ht) as Hend.
  destruct (created_image garbage now (ops rs) Hops Hsize) as (blk & slack & E & Eb).
  pose proof (config_size_fits _ _ Hops Hsize) as Hfits.
  rewrite (build_config_ok S_if_nameindex_cache state garbage now resolver_dir services (in_state H) (in_names H) rs
    Ht Hops Hfits).
  assert (Hl : Z.of_nat (length (config_image (config_of now (ops rs)))) =
    sizeof_config_buf + Z.of_nat (length (entries (config_of now (ops rs))))).
  { destruct (config_of now (ops rs)). rewrite length_config_image. unfold sizeof_config_buf. lia. }
  exists blk. rewrite Eb, signature_ok by done. eexists. split; [by rewrite <-Eb|]. split; [done|].
  split; [by rewrite image_n_attribute, Hl, Z.add_simpl_l|].
  split; [by apply (load_mid [])|]. rewrite Hl. destruct (in_base H) as [Hb Hb']. split.
  - eexists. by apply config_client_reads.
  - intros base' H1 H2. rewrite <-(app_nil_r (config_image _)) at 1. by apply config_client_reads.
Qed.

Lemma set_configuration_ok : inputs_ok →
  (∀ rs, listed = Some rs → config_size now (ops rs) <= DNS_CONFIG_BUF_MAX) →
  ∃ rs signature info,
    listed = Some rs ∧
    set_configuration =
      Some (negb (bool_decide (signature = signature_last st)),
            if bool_decide (signature = signature_last st) then st else MkDnsState signature info) ∧
    if bool_decide (usable_default defaultResolver = None) && (length rs <=? 1)%nat
    then info = None
    else ∃ data, info = Some data ∧ ∀ base', 0 < base' → base' + DNS_CONFIG_BUF_MAX < 2 ^ 64 →
      copy_config base' data (Z.of_nat (length data)) = Some (Some (spec_config now (ops rs))).
Proof using NL Laws RL AL.
  intros H Hsize. destruct (listed_typed H) as (rs & E & Ht & _). exists rs.
  unfold dns_configuration_set. fold (usable_default defaultResolver).
  change (default [] (Some services)) with services. rewrite E. cbn [mbind option_bind].
  destruct (bool_decide (usable_default defaultResolver = None) && (length rs <=? 1)%nat).
  - exists (replicate CC_SHA1_DIGEST_LENGTH x00), None. split; [done|]. split; [|done].
    cbn [mbind option_bind _dns_configuration_signature]. by destruct (bool_decide _).
  - destruct (built_config rs H Ht (Hsize rs E)) as (config & signature & Eb & Es & Ea & El & (logged & Ec) & Hr).
    exists signature, (Some (config_image (config_of now (ops rs)))). split; [done|].
    rewrite Eb. cbn [fmap option_fmap option_map mbind option_bind]. split; [|by eexists].
    replace (_dns_configuration_signature _ _ _) with (Some signature) by (symmetry; exact Es). cbn [mbind option_bind]. destruct (bool_decide _); [done|]. cbn [fmap option_fmap option_map] in Ea. rewrite Ea.
    cbn [mbind option_bind]. rewrite Zplus_minus, Ec. cbn [mbind option_bind]. by rewrite El.
Qed.
End set.

(** ** The theorems *)

Section theorems.
Context {N : Network} {CF : CoreFoundation} {R : Reachability}.
Context {NL : NetworkLaws} {Laws : CoreFoundationLaws} {RL : ReachabilityLaws}.
Variables (S_if_nameindex_cache : option (list (string * Z))) (S_mdns_timeout S_pdns_timeout : option CFType).

(** C28: the list of resolvers is made of the entries for the supplemental domains of the
    services, the private domains, the default resolver, the multicast domains, the
    interfaces of the services and the service-specific ones, each numbered by its
    position and none changed by another. The result is: the first of them in the order
    found, with the search list extracted from the default configuration and the resolvers
    listed before it, and behind it the others but those that have neither domain nor
    servers, which are dropped. If at most one of them is without a domain and all differ,
    the order found is that of the domains and the first is the default resolver
    (otherwise the comparison is no order, see [default_not_first] in DnsSetDemo). Nothing
    crashes, whatever else the dictionaries of the services hold, if they name interfaces
    by strings and hold none of the keys that the list uses for itself, and there are less
    than 2^31 entries. *)
Theorem list_resolvers_refines services service_order defaultResolver multicastResolvers privateResolvers :
  services_typed services → dns_typed (default ∅ defaultResolver) →
  let before := entries_before S_pdns_timeout services service_order privateResolvers in
  let all := all_entries S_if_nameindex_cache S_mdns_timeout S_pdns_timeout services service_order defaultResolver
               multicastResolvers privateResolvers in
  let listed := numbered S_if_nameindex_cache 0 all in
  Z.of_nat (length all) < 2 ^ 31 →
  ∃ sorted first rest,
    sorted ≡ₚ numbered S_if_nameindex_cache 0 before ∧
    StronglySorted (λ r1 r2, search_order r1 r2 ≠ Gt) sorted ∧
    first :: rest ≡ₚ listed ∧
    (one_default listed →
     first = default_resolver S_if_nameindex_cache S_pdns_timeout services service_order defaultResolver privateResolvers ∧
     StronglySorted (λ r1 r2, domain_order r1 r2 ≠ Gt) (first :: rest)) ∧
    list_resolvers S_if_nameindex_cache S_mdns_timeout S_pdns_timeout defaultResolver services service_order
      multicastResolvers privateResolvers =
    Some (final_default (order_added (default ∅ defaultResolver))
            (found_domains (default_search (default ∅ defaultResolver) sorted)) first (nonempty rest) :: nonempty rest).
Proof using Laws. intros Hs Hd. cbn zeta. intros Hl. by apply list_resolvers_ok. Qed.

Variable state : option (nwi_state * view).
Variables (garbage : nat → byte) (base : Z) (sha1 : list byte → list byte) (now : Z).
Context {AI : AddressInfo} {AL : AddressInfoLaws}.
Variable resolver_dir : files.

(** The resolvers as a client should see them: each with the flags of the default
    configuration if it needs them, and those that the files say, all with the
    reachability of their servers. *)
Definition file_seen (default_flags : Z) (name : string) : option dns_resolver :=
  text ← contents resolver_dir (file_name _PATH_RESOLVER_DIR name);
  match file_entries text with [] => None | l => Some (spec_reach (file_resolver default_flags name l)) end.
Definition seen_resolvers (services : list (string * service_dict)) (rs : list CFDict) : list dns_resolver :=
  (spec_reach ∘ resolver_of S_if_nameindex_cache ∘ merged state services <$> rs) ++
  omap (file_seen (if existsb needs_merge rs then spec_default_flags state services else 0)) (resolver_files resolver_dir).
Definition seen_config (services : list (string * service_dict)) (rs : list CFDict) : dns_config :=
  let listed t := filter (λ r, class_of (dr_flags r) = t) (seen_resolvers services rs) in
  MkConfig (listed CONFIG_ATTRIBUTE_RESOLVER) (listed CONFIG_ATTRIBUTE_SCOPED_RESOLVER)
    (listed CONFIG_ATTRIBUTE_SERVICE_SPECIFIC_RESOLVER) (u64 now) DNSINFO_VERSION.

Lemma seen_config_spec services rs :
  spec_config now (published_ops S_if_nameindex_cache state resolver_dir services rs) = seen_config services rs.
Proof using.
  assert (E : spec_resolver <$> published_ops S_if_nameindex_cache state resolver_dir services rs =
    seen_resolvers services rs).
  { unfold published_ops, seen_resolvers. rewrite fmap_app, <-list_fmap_compose. f_equal.
    - apply list_fmap_ext. intros i r _. cbn [compose]. unfold spec_resolver. by rewrite resolver_of_ops.
    - unfold flatfile_calls. set (flags := if existsb needs_merge rs then _ else 0). 
      induction (resolver_files resolver_dir) as [|name names IH]; [done|]. cbn [omap list_omap].
      unfold path_calls at 1, file_seen at 1. destruct (contents _ _) as [text|]; [|exact IH]. cbn [mbind option_bind].
      pose proof (file_calls_resolver flags name (file_entries text) (file_entries_limited text)) as H.
      destruct (file_calls flags name (file_entries text)) as [calls|]; [|by rewrite H].
      destruct H as [Hne Hr]. destruct (file_entries text); [done|]. cbn [fmap list_fmap]. rewrite IH. f_equal.
      unfold spec_resolver. by rewrite Hr. }
  unfold spec_config, seen_config. by rewrite E.
Qed.

(** C9: from the dictionaries of the services to the client: [dns_configuration_set] comes
    to an end without a crash, and if the configuration changed, that is if its signature
    did, what it stores is read by a client, wherever its memory is, as exactly the
    resolvers of the list, in the three lists their flags say; nothing is stored if there
    is neither a default resolver with servers nor another resolver. This is so under the
    following conditions. The services, in any order, have the type that [get_dns_changes]
    keeps them in, in which interfaces are named by strings (not so: [bad_name_crashes] in
    DnsSetDemo); the last file of /etc/resolver does not end in the name of an interface
    without room for a NUL ([file_name_runs_on]), and the names of the files hold no NUL;
    the list has less than 2^31 entries, and the configuration fits into the maximal size.
    *)
Theorem dns_configuration_set_publishes services defaultResolver service_order multicastResolvers privateResolvers st :
  inputs_ok S_if_nameindex_cache S_mdns_timeout S_pdns_timeout state base resolver_dir defaultResolver services
    service_order multicastResolvers privateResolvers →
  let listed := list_resolvers S_if_nameindex_cache S_mdns_timeout S_pdns_timeout (usable_default defaultResolver)
    services service_order (default [] multicastResolvers) (default [] privateResolvers) in
  (∀ rs, listed = Some rs →
   config_size now (published_ops S_if_nameindex_cache state resolver_dir services rs) <= DNS_CONFIG_BUF_MAX) →
  ∃ rs changed st',
    listed = Some rs ∧
    dns_configuration_set S_if_nameindex_cache S_mdns_timeout S_pdns_timeout (fst <$> state) garbage base sha1 now
      resolver_dir defaultResolver (Some services) service_order multicastResolvers privateResolvers st =
      Some (changed, st') ∧
    (changed = false ↔ signature_last st' = signature_last st) ∧
    if changed then
      if bool_decide (usable_default defaultResolver = None) && (length rs <=? 1)%nat then S_dns_info st' = None
      else ∃ data, S_dns_info st' = Some data ∧ ∀ base', 0 < base' → base' + DNS_CONFIG_BUF_MAX < 2 ^ 64 →
        copy_config base' data (Z.of_nat (length data)) = Some (Some (seen_config services rs))
    else st' = st.
Proof using NL Laws RL AL.
  intros H. cbn zeta. intros Hsize.
  destruct (set_configuration_ok S_if_nameindex_cache S_mdns_timeout S_pdns_timeout state garbage base sha1 now
    resolver_dir defaultResolver services service_order multicastResolvers privateResolvers st H Hsize)
    as (rs & signature & info & E & Es & Hi).
  exists rs. eexists _, _. split; [exact E|]. split; [exact Es|].
  destruct (bool_decide_reflect (signature = signature_last st)) as [Hsig|Hsig]; cbn [negb]; [done|].
  split; [done|]. destruct (bool_decide _ && _); [done|]. destruct Hi as (data & -> & Hd). exists data. split; [done|].
  intros base' H1 H2. by rewrite Hd, seen_config_spec.
Qed.
End theorems.
