(* ===== verification/DnsGlobal.v ===== *)
(** * IPMonitor: the DNS of the primary service, from one change to the next

    The part of [IPMonitorProcessChanges] (ip_plugin.c) that concerns DNS: the services
    that changed, the service that is primary for DNS, the file resolv.conf and the global
    DNS dictionary ([update_dns]), the configuration ([update_dnsinfo]), and the list of
    keys that are written to the dynamic store at once ([keyChangeList]). The invariant
    that every pass keeps. *)

From stdpp Require Import sorting.
From S2P Require Import Prelude RouteTypes RouteList DnsCreate DnsExpand DnsBuild DnsResolver DnsConfig DnsOpenConfig DnsSpec RouteDict RouteElection NwiState NwiInfo NwiRep NwiInv NwiRead DnsFlat DnsFlatSpec DnsMerge DnsList DnsSet DnsSort DnsEntries DnsOps DnsMergeSpec DnsPublish.

Local Open Scope Z_scope.

(** ** Keys to change *)

Record keyChangeList := MkKeys {
  kc_notify : list string;
  kc_remove : list string;
  kc_set : gmap string CFType;
}.
Definition keyChangeListInit : keyChangeList := MkKeys [] [] ∅.

Definition my_CFArrayAppendUniqueValue (arr : list string) (new : string) : list string :=
  if decide (new ∈ arr) then arr else arr ++ [new].
Fixpoint my_CFArrayRemoveValue (arr : list string) (key : string) : list string :=
  match arr with
  | [] => []
  | k :: arr => if String.eqb k key then arr else k :: my_CFArrayRemoveValue arr key
  end.

Definition keyChangeListNotifyKey (keys : keyChangeList) (key : string) : keyChangeList :=
  MkKeys (my_CFArrayAppendUniqueValue (kc_notify keys) key) (kc_remove keys) (kc_set keys).
Definition keyChangeListRemoveValue (keys : keyChangeList) (key : string) : keyChangeList :=
  MkKeys (kc_notify keys) (my_CFArrayAppendUniqueValue (kc_remove keys) key) (delete key (kc_set keys)).
Definition keyChangeListSetValue (keys : keyChangeList) (key : string) (value : CFType) : keyChangeList :=
  MkKeys (kc_notify keys) (my_CFArrayRemoveValue (kc_remove keys) key) (<[key := value]> (kc_set keys)).
Definition keyChangeListActive (keys : keyChangeList) : bool :=
  negb (bool_decide (kc_set keys = ∅)) || (0 <? length (kc_remove keys))%nat || (0 <? length (kc_notify keys))%nat.

(** The call of [SCDynamicStoreSetMultiple], if there is one, and what configd's
    [__SCDynamicStoreSetMultiple] does to the values: it sets, then removes. *)
Definition keyChangeListApplyToStore (keys : keyChangeList) : option keyChangeList :=
  if keyChangeListActive keys then Some keys else None.
Definition SCDynamicStoreSetMultiple (request : option keyChangeList) (store : gmap string CFType)
    : gmap string CFType :=
  match request with
  | Some keys => foldl (λ store key, delete key store) (kc_set keys ∪ store) (kc_remove keys)
  | None => store
  end.

(** ** resolv.conf *)

Definition eol : string := String "010" EmptyString.
Definition notice : string :=
  foldr (λ line text, line +:+ eol +:+ text) EmptyString
    ["#"; "# macOS Notice"; "#";
     "# This file is not consulted for DNS hostname resolution, address";
     "# resolution, or the DNS query routing mechanism used by most";
     "# processes on this system."; "#";
     "# To view the DNS configuration used by this system, use:";
     "#   scutil --dns"; "#"; "# SEE ALSO"; "#   dns-sd(1), scutil(8)"; "#";
     "# This file is automatically generated."; "#"]%string.

(** The strings of an array, each between [before] and [behind]. *)
Definition print_strings (before behind : string) (val : list CFType) : string :=
  foldr (λ v text, match v with CFString s => before +:+ s +:+ behind +:+ text | _ => text end) EmptyString val.

Definition set_dns (val_search_domains val_domain_name val_servers val_sortlist : option CFType) : string :=
  notice +:+
  match val_search_domains, val_domain_name with
  | Some (CFArray domains), _ => "search" +:+ print_strings " " EmptyString domains +:+ eol
  | _, Some (CFString domain) => "domain " +:+ domain +:+ eol
  | _, _ => EmptyString
  end +:+
  match val_servers with
  | Some (CFArray servers) => print_strings "nameserver " eol servers
  | _ => EmptyString
  end +:+
  match val_sortlist with
  | Some (CFArray addresses) => "sortlist" +:+ print_strings " " EmptyString addresses +:+ eol
  | _ => EmptyString
  end.
Definition resolv_conf (dict : CFDict) : string :=
  set_dns (dict !! "SearchDomains") (dict !! "DomainName") (dict !! "ServerAddresses") (dict !! "SortList").

(** ** The primary service *)

Definition set_new_primary (primary new_primary : option string) : bool * option string :=
  match new_primary, primary with
  | Some new_primary, Some old => if String.eqb new_primary old then (false, Some old) else (true, Some new_primary)
  | Some new_primary, None => (true, Some new_primary)
  | None, Some _ => (true, None)
  | None, None => (false, None)
  end.

Definition rank_dict_get_service_rank (rank_dict : gmap string (Z * bool)) (serviceID : string) : Z :=
  match rank_dict !! serviceID with
  | Some (rank, true) => u32 rank
  | Some (_, false) => kRankAssertionDefault
  | None => RankMake kRankIndexMask kRankAssertionDefault
  end.

(** [dict] is the entity of the service, if it has one. *)
Definition rank_service_entity {A} (rank_dict : gmap string (Z * bool)) (serviceID : string) (dict : option A) : Z :=
  match dict with
  | None => RankMake kRankIndexMask kRankAssertionDefault
  | Some _ => rank_dict_get_service_rank rank_dict serviceID
  end.

Definition service_dns (services : gmap string service_dict) (primary : option string) : option CFDict :=
  serviceID ← primary; service ← services !! serviceID; sd_dns service.

(** Between the primary services for IPv4 and IPv6. *)
Definition new_primary_dns (services : gmap string service_dict) (ipv4_ranks ipv6_ranks : gmap string (Z * bool))
    (S_primary_ipv4 S_primary_ipv6 : option string) : option string :=
  match S_primary_ipv4, S_primary_ipv6 with
  | Some ipv4, Some ipv6 =>
      if rank_service_entity ipv4_ranks ipv4 (service_dns services (Some ipv4))
         <=? rank_service_entity ipv6_ranks ipv6 (service_dns services (Some ipv6))
      then Some ipv4 else Some ipv6
  | None, Some ipv6 => Some ipv6
  | ipv4, None => ipv4
  end.

(** ** What is published *)

Definition S_state_global_dns : string := "State:/Network/Global/DNS".

Section update.
Context `{!Network, !CoreFoundation, !Reachability, !AddressInfo}.

(** The dictionary that is set, without the keys that are not for everyone. *)
Definition global_dict (dict : CFDict) : CFDict :=
  delete DNS_CONFIGURATION_SCOPED_QUERY_KEY (delete "SupplementalMatchOrders"
    (delete "SupplementalMatchDomains" (delete "InterfaceName" dict))).

(** [S_dns_dict] and the file; [writable]: it can be written. *)
Definition update_dns (writable : bool) (dict : option CFDict) (keys : keyChangeList) (S_dns_dict : option CFDict)
    (file : option string) : bool * keyChangeList * option CFDict * option string :=
  if _SC_CFEqual (CFDictionary <$> S_dns_dict) (CFDictionary <$> dict) then (false, keys, dict, file)
  else
    match dict with
    | None => (true, keyChangeListRemoveValue keys S_state_global_dns, None, if writable then None else file)
    | Some d =>
        (true, keyChangeListSetValue keys S_state_global_dns (CFDictionary (global_dict d)), Some d,
         if writable then Some (resolv_conf d) else file)
    end.

(** ** Services that changed *)

(** For a service, what the functions for its other entities leave it with, and what the
    store says of its DNS. *)
Record service_change := MkChange {
  sc_serviceID : string;
  sc_ipv4 : option (CFDict * RouteList IPv4Addrs);
  sc_ipv6 : option (CFDict * RouteList IPv6Addrs);
  sc_others : gmap string CFType;
  sc_state_dict : option CFDict;
  sc_setup_dict : option CFDict;
}.

(** [service_dict_set] for entities other than DNS. *)
Definition keep_service (services : gmap string service_dict) (serviceID : string) (service : service_dict)
    : gmap string service_dict :=
  if bool_decide (sd_ipv4 service = None) && bool_decide (sd_ipv6 service = None)
     && bool_decide (sd_dns service = None) && bool_decide (sd_others service = ∅)
  then delete serviceID services else <[serviceID := service]> services.

Variable S_append_state : bool.

(** Whether the DNS of the service changed. *)
Definition service_dns_changed (info : CFDict) (services : gmap string service_dict) (c : service_change)
    : bool * gmap string service_dict :=
  let id := sc_serviceID c in
  let s := default no_service (services !! id) in
  let services := keep_service services id (MkServiceDict (sc_ipv4 c) (sc_ipv6 c) (sd_dns s) (sd_others s)) in
  let '(changed, services, _) := get_dns_changes S_append_state services id (sc_state_dict c) (sc_setup_dict c) info in
  let s := default no_service (services !! id) in
  (changed, keep_service services id (MkServiceDict (sd_ipv4 s) (sd_ipv6 s) (sd_dns s) (sc_others c))).

(** The services whose DNS changed. *)
Definition services_dns_changed (info : CFDict) (changes : list service_change) (services : gmap string service_dict)
    : list string * gmap string service_dict :=
  foldl (λ st c,
    let '(changed, services) := service_dns_changed info st.2 c in
    (if changed : bool then st.1 ++ [sc_serviceID c] else st.1, services)) ([], services) changes.

(** ** A pass *)

Record dns_change := MkDnsChange {
  ch_services : list service_change;
  ch_info : CFDict;
  (** The primary services for IPv4 and IPv6 that would be elected, the ranks, and whether
      one of these changed. *)
  ch_elected : option string * option string;
  ch_ranks : gmap string (Z * bool) * gmap string (Z * bool);
  ch_global : bool;
  (** Another reason to look at the configuration. *)
  ch_dnsinfo : bool;
  (** The state of the interfaces, and whether it is published anew. *)
  ch_nwi : option nwi_state;
  ch_nwi_updated : bool;
  ch_cache : option (list (string * Z));
  ch_order : option (list CFType);
  ch_files : files;
  ch_now : Z;
  ch_writable : bool;
}.

Record dns_global := MkGlobal {
  gl_services : gmap string service_dict;
  gl_primary : option string;
  gl_dict : option CFDict;
  gl_file : option string;
  gl_config : dns_state;
  gl_store : gmap string CFType;
}.

Variables (S_mdns_timeout S_pdns_timeout : option CFType).
Variables (garbage : nat → byte) (base : Z) (sha1 : list byte → list byte).
(** The order CoreFoundation enumerates a dictionary in, and two keys of the store. *)
Variable enumerate : gmap string service_dict → list (string * service_dict).
Variables S_multicast_resolvers S_private_resolvers : string.

Definition update_dnsinfo (c : dns_change) (services : gmap string service_dict) (dict : option CFDict)
    (keys : keyChangeList) (config : dns_state) : option (bool * keyChangeList * dns_state) :=
  set ← dns_configuration_set (ch_cache c) S_mdns_timeout S_pdns_timeout (ch_nwi c) garbage base sha1 (ch_now c)
          (ch_files c) dict (Some (enumerate services)) (ch_order c)
          (get_array (ch_info c) S_multicast_resolvers) (get_array (ch_info c) S_private_resolvers) config;
  let '(changed, config) := set : bool * dns_state in
  Some (changed, if changed then keyChangeListNotifyKey keys S_state_global_dns else keys, config).

(** The services and the primary one, and whether the DNS of the primary service and the
    configuration have to be looked at. *)
Definition dns_elect (c : dns_change) (g : dns_global) : gmap string service_dict * option string * bool * bool :=
  let '(ids, services) := services_dns_changed (ch_info c) (ch_services c) (gl_services g) in
  let dns_changed := existsb (λ id, bool_decide (gl_primary g = Some id)) ids in
  let dnsinfo_changed := ch_dnsinfo c || negb (bool_decide (ids = [])) in
  let '(new, primary) :=
    if ch_global c || dnsinfo_changed
    then set_new_primary (gl_primary g)
           (new_primary_dns services (ch_ranks c).1 (ch_ranks c).2 (ch_elected c).1 (ch_elected c).2)
    else (false, gl_primary g) in
  (services, primary, dns_changed || new, dnsinfo_changed || new || ch_nwi_updated c).

(** The request to the dynamic store. [None] is a crash. *)
Definition dns_pass (c : dns_change) (g : dns_global) : option (option keyChangeList * dns_global) :=
  let '(services, primary, dns_changed, dnsinfo_changed) := dns_elect c g in
  let dict := service_dns services primary in
  let '(updated, keys, S_dns_dict, file) :=
    if dns_changed then update_dns (ch_writable c) dict keyChangeListInit (gl_dict g) (gl_file g)
    else (false, keyChangeListInit, gl_dict g, gl_file g) in
  done ← if dnsinfo_changed || updated then update_dnsinfo c services dict keys (gl_config g)
         else Some (false, keys, gl_config g);
  let '(_, keys, config) := done : bool * keyChangeList * dns_state in
  let request := keyChangeListApplyToStore keys in
  Some (request, MkGlobal services primary S_dns_dict file config (SCDynamicStoreSetMultiple request (gl_store g))).

Fixpoint dns_passes (changes : list dns_change) (g : dns_global) : option (list (option keyChangeList) * dns_global) :=
  match changes with
  | [] => Some ([], g)
  | c :: changes =>
      passed ← dns_pass c g;
      rest ← dns_passes changes passed.2;
      Some (passed.1 :: rest.1, rest.2)
  end.

(** At the end of [ip_plugin_init]; nothing is known of the interfaces yet. *)
Definition dns_init (now : Z) (resolver_dir : files) (store : gmap string CFType) : option dns_global :=
  set ← dns_configuration_set None S_mdns_timeout S_pdns_timeout None garbage base sha1 now resolver_dir None None None
          None None (MkDnsState (replicate CC_SHA1_DIGEST_LENGTH x00) None);
  let '(_, config) := set : bool * dns_state in
  Some (MkGlobal ∅ None None None config (delete S_state_global_dns store)).
End update.

(** ** Services that changed *)

Section services.
Context {N : Network} {CF : CoreFoundation}.
Variable S_append_state : bool.

Lemma service_dns_default services id :
  service_dns services (Some id) = sd_dns (default no_service (services !! id)).
Proof. unfold service_dns. cbn. by destruct (services !! id). Qed.

Lemma keep_service_lookup services id service :
  default no_service (keep_service services id service !! id) = service ∧
  ∀ id', id' ≠ id → keep_service services id service !! id' = services !! id'.
Proof.
  unfold keep_service. destruct service as [ipv4 ipv6 dns others]. cbn [sd_ipv4 sd_ipv6 sd_dns sd_others].
  destruct (bool_decide_reflect (ipv4 = None)) as [->|], (bool_decide_reflect (ipv6 = None)) as [->|],
    (bool_decide_reflect (dns = None)) as [->|], (bool_decide_reflect (others = ∅)) as [->|]; cbn [andb].
  all: split; [by rewrite ?lookup_delete_eq, ?lookup_insert_eq|].
  all: intros id' Hn; by rewrite ?lookup_delete_ne, ?lookup_insert_ne by done.
Qed.

Lemma keep_service_typed services id service :
  services_ok services → service_typed service → services_ok (keep_service services id service).
Proof.
  intros H Hs. unfold keep_service. destruct (_ && _); [by apply map_Forall_delete|by apply map_Forall_insert_2].
Qed.

(** Interfaces are named by strings. *)
Record change_typed (c : service_change) : Prop := {
  change_ipv4 : name_typed (ipdict_get_ifname (sc_ipv4 c));
  change_ipv6 : name_typed (ipdict_get_ifname (sc_ipv6 c));
  change_state : name_typed (sc_state_dict c ≫= (.!! "InterfaceName"));
}.

Lemma service_dns_changed_ok info services c : services_ok services → change_typed c →
  let r := service_dns_changed S_append_state info services c in
  services_ok r.2 ∧
  (∀ id, id ≠ sc_serviceID c → service_dns r.2 (Some id) = service_dns services (Some id)) ∧
  (r.1 = false → service_dns r.2 (Some (sc_serviceID c)) = service_dns services (Some (sc_serviceID c))).
Proof.
  intros H [H4 H6 Hst]. cbn zeta. unfold service_dns_changed. set (id := sc_serviceID c).
  pose proof (lookup_service_typed services id H) as [_ _ Hd].
  set (first := MkServiceDict (sc_ipv4 c) (sc_ipv6 c) _ _).
  pose proof (keep_service_lookup services id first) as [E1 O1].
  assert (T1 : services_ok (keep_service services id first)) by (apply keep_service_typed; [done|by split]).
  set (services1 := keep_service services id first) in *. clearbody services1.
  unfold get_dns_changes. rewrite E1.
  pose proof (new_dns_dict_typed S_append_state first id (sc_state_dict c) (sc_setup_dict c) info) as Ht.
  destruct (new_dns_dict _ _ _ _ _ _) as [new interface]. cbn [fst] in Ht.
  pose proof (service_set_typed services1 id new T1 (λ dns E, Ht dns ltac:(by split) Hst E)) as T2.
  pose proof (service_set_others services1 id new) as O2.
  pose proof (service_set_lookup services1 id new) as [E2 C2]. rewrite E1 in E2, C2.
  destruct (service_dict_set_dns services1 id new) as [changed services2]. cbn [fst snd] in T2, O2, E2, C2 |- *.
  pose proof (lookup_service_typed services2 id T2) as [S4 S6 Sd].
  set (last := MkServiceDict _ _ (sd_dns (default no_service (services2 !! id))) (sc_others c)).
  pose proof (keep_service_lookup services2 id last) as [E3 O3]. split_and!.
  - apply keep_service_typed; [done|by split].
  - intros id' Hn. unfold service_dns. cbn. by rewrite O3, O2, O1.
  - intros ->. rewrite !service_dns_default, E3. unfold last. rewrite E2. cbn [sd_dns].
    destruct (same_dns new (sd_dns first)); [done|discriminate C2].
Qed.

Lemma services_dns_changed_ok info changes services : services_ok services → Forall change_typed changes →
  let r := services_dns_changed S_append_state info changes services in
  services_ok r.2 ∧ ∀ id, id ∉ r.1 → service_dns r.2 (Some id) = service_dns services (Some id).
Proof.
  intros H Hc. cbn zeta. unfold services_dns_changed.
  assert (G : ∀ st : list string * gmap string service_dict, services_ok st.2 →
    let r := foldl (λ st c, let '(changed, services) := service_dns_changed S_append_state info st.2 c in
      (if changed : bool then st.1 ++ [sc_serviceID c] else st.1, services)) st changes in
    services_ok r.2 ∧ ∀ id, id ∉ r.1 → id ∉ st.1 ∧ service_dns r.2 (Some id) = service_dns st.2 (Some id)).
  - induction Hc as [|c changes Hc _ IH]; intros st Hst; [done|]. cbn zeta in *. cbn [foldl].
    pose proof (service_dns_changed_ok info st.2 c Hst Hc) as (T & O & E).
    destruct (service_dns_changed _ _ _ _) as [changed services']. cbn [fst snd] in T, O, E.
    destruct (IH (if changed then st.1 ++ [sc_serviceID c] else st.1, services') T) as [T' E']. split; [done|].
    intros id Hid. apply E' in Hid as [Hid ->]. cbn [fst snd] in Hid |- *.
    destruct changed; [apply not_elem_of_app in Hid as [Hid Hn]; rewrite list_elem_of_singleton in Hn; by rewrite O|].
    split; [done|]. destruct (decide (id = sc_serviceID c)) as [->|Hn]; [by apply E|by apply O].
  - destruct (G ([], services) H) as [T E]. split; [done|]. intros id Hid. by apply E.
Qed.
End services.

(** ** What is in the store *)

(** What [keyChangeListApplyToStore] leaves of a key: it is removed, set, or as it was. *)
Lemma apply_lookup keys store key :
  SCDynamicStoreSetMultiple (keyChangeListApplyToStore keys) store !! key =
  if decide (key ∈ kc_remove keys) then None
  else match kc_set keys !! key with Some v => Some v | None => store !! key end.
Proof.
  assert (H : ∀ l m, foldl (λ store key, delete key store) m l !! key =
    if decide (key ∈ l) then None else (m : gmap string CFType) !! key).
  { intros l. induction l as [|k l IH]; intros m; [done|]. cbn [foldl]. rewrite IH.
    destruct (decide (key ∈ l)) as [Hl|Hl]; [by rewrite decide_True by (by right)|].
    destruct (decide (key = k)) as [->|Hk]; [rewrite decide_True by left; apply lookup_delete_eq|].
    by rewrite decide_False, lookup_delete_ne by (by rewrite ?not_elem_of_cons). }
  unfold keyChangeListApplyToStore, keyChangeListActive. destruct keys as [notify remove new]. cbn [kc_notify kc_remove kc_set].
  destruct (bool_decide_reflect (new = ∅)) as [->|Hn]; [|cbn [negb orb]].
  - destruct remove as [|k remove].
    + rewrite decide_False by (apply not_elem_of_nil). rewrite lookup_empty. destruct notify; [done|]. 
      cbn. by rewrite (left_id_L ∅ union).
    + cbn [negb orb]. replace (0 <? length (k :: remove))%nat with true by done.
      cbn [orb SCDynamicStoreSetMultiple kc_set kc_remove]. rewrite H. by rewrite (left_id_L ∅ union), lookup_empty.
  - cbn [SCDynamicStoreSetMultiple kc_set kc_remove]. rewrite H, lookup_union. destruct (decide _); [done|].
    by destruct (new !! key), (store !! key).
Qed.

Lemma in_append_unique arr new x : x ∈ my_CFArrayAppendUniqueValue arr new ↔ x ∈ arr ∨ x = new.
Proof. unfold my_CFArrayAppendUniqueValue. destruct (decide _); set_solver. Qed.

Section published.
Context {N : Network} {CF : CoreFoundation} {Laws : CoreFoundationLaws}.

(** Dictionaries that are the same to [CFEqual]. *)
Definition same_dict (d e : option CFDict) : Prop := _SC_CFEqual (CFDictionary <$> d) (CFDictionary <$> e) = true.

(** The key of the store and the file are of the same dictionary, and that is [dict] or
    one that was equal to it. *)
Definition published (dict : option CFDict) (value : option CFType) (file : option string) : Prop :=
  ∃ d, rtc same_dict d dict ∧ value = (λ d, CFDictionary (global_dict d)) <$> d ∧ file = resolv_conf <$> d.

(** A list of keys that changes only that of the global DNS. *)
Definition only_dns (keys : keyChangeList) : Prop :=
  (∀ key, key ≠ S_state_global_dns → key ∉ kc_remove keys ∧ kc_set keys !! key = None) ∧
  ∀ key, key ∈ kc_notify keys → key = S_state_global_dns.

Lemma notify_only_dns keys : only_dns keys → only_dns (keyChangeListNotifyKey keys S_state_global_dns).
Proof. intros [H1 H2]. split; [done|]. intros key. cbn. rewrite in_append_unique. intros [?| ->]; [by apply H2|done]. Qed.
Lemma update_dns_ok dict S_dns_dict file store :
  published S_dns_dict (store !! S_state_global_dns) file →
  let '(updated, keys, S_dns_dict, file) := update_dns true dict keyChangeListInit S_dns_dict file in
  S_dns_dict = dict ∧ only_dns keys ∧
  published dict (SCDynamicStoreSetMultiple (keyChangeListApplyToStore keys) store !! S_state_global_dns) file.
Proof.
  intros (d & Hd & Hv & Hf). unfold update_dns. destruct (_SC_CFEqual _ _) eqn:E.
  - split; [done|]. split; [by split; [split; [apply not_elem_of_nil|]|intros key ?%elem_of_nil]|].
    exists d. split; [by eapply rtc_r|done].
  - destruct dict as [dict|]; (split; [done|]; split; [split|]).
    + intros key Hk. split; [apply not_elem_of_nil|]. cbn. by rewrite lookup_insert_ne.
    + by intros key ?%elem_of_nil.
    + exists (Some dict). rewrite apply_lookup.
      cbn [keyChangeListSetValue keyChangeListInit kc_remove kc_set my_CFArrayRemoveValue]. rewrite decide_False by apply not_elem_of_nil. by rewrite lookup_insert_eq.
    + intros key Hk. cbn [keyChangeListRemoveValue keyChangeListInit kc_remove kc_set]. rewrite in_append_unique.
      split; [by intros [?%elem_of_nil|]|by rewrite lookup_delete_ne].
    + by intros key ?%elem_of_nil.
    + exists None. rewrite apply_lookup, decide_True by (apply in_append_unique; by right). done.
Qed.
End published.

(** ** A pass *)

Section passes.
Context {N : Network} {CF : CoreFoundation} {R : Reachability}.
Context {NL : NetworkLaws} {Laws : CoreFoundationLaws} {RL : ReachabilityLaws}.
Context {AI : AddressInfo} {AL : AddressInfoLaws}.
Variable S_append_state : bool.
Variables (S_mdns_timeout S_pdns_timeout : option CFType).
Variables (garbage : nat → byte) (base : Z) (sha1 : list byte → list byte).
Variable enumerate : gmap string service_dict → list (string * service_dict).
Variables S_multicast_resolvers S_private_resolvers : string.

Notation pass := (dns_pass S_append_state S_mdns_timeout S_pdns_timeout garbage base sha1 enumerate
  S_multicast_resolvers S_private_resolvers).
Notation passes := (dns_passes S_append_state S_mdns_timeout S_pdns_timeout garbage base sha1 enumerate
  S_multicast_resolvers S_private_resolvers).
Notation init := (dns_init S_mdns_timeout S_pdns_timeout garbage base sha1).

(** The store says what it has to of the services, and the configuration can be built:
    [services] and [dict] are those after the changes. *)
Record config_possible (c : dns_change) (services : list (string * service_dict)) (dict : option CFDict)
    (state : option (nwi_state * view)) : Prop := {
  possible_nwi : ch_nwi c = fst <$> state;
  possible_state : state_ok state;
  possible_files : files_ok (ch_files c);
  possible_flat_end : ∀ flags,
    match last (flatfile_calls (ch_files c) flags) with Some ops => ends_unterminated ops = false | None => True end;
  possible_length :
    Z.of_nat (length (all_entries (ch_cache c) S_mdns_timeout S_pdns_timeout services (ch_order c) (usable_default dict)
      (default [] (get_array (ch_info c) S_multicast_resolvers))
      (default [] (get_array (ch_info c) S_private_resolvers)))) < 2 ^ 31;
  possible_size : ∀ rs,
    list_resolvers (ch_cache c) S_mdns_timeout S_pdns_timeout (usable_default dict) services (ch_order c)
      (default [] (get_array (ch_info c) S_multicast_resolvers))
      (default [] (get_array (ch_info c) S_private_resolvers)) = Some rs →
    config_size (ch_now c) (published_ops (ch_cache c) state (ch_files c) services rs) <= DNS_CONFIG_BUF_MAX;
}.
Record dns_change_ok (c : dns_change) (g : dns_global) : Prop := {
  change_services : Forall change_typed (ch_services c);
  change_writable : ch_writable c = true;
  change_possible :
    let '(services, primary, _, _) := dns_elect S_append_state c g in
    ∃ state, config_possible c (enumerate services) (service_dns services primary) state;
}.

(** A client reads the configuration wherever its memory is. *)
Definition config_readable (config : dns_state) : Prop :=
  ∀ data, S_dns_info config = Some data → ∃ seen, ∀ base', 0 < base' → base' + DNS_CONFIG_BUF_MAX < 2 ^ 64 →
    copy_config base' data (Z.of_nat (length data)) = Some (Some seen).

Record global_ok (g : dns_global) : Prop := {
  ok_services : services_ok (gl_services g);
  ok_dict : gl_dict g = service_dns (gl_services g) (gl_primary g);
  ok_published : published (gl_dict g) (gl_store g !! S_state_global_dns) (gl_file g);
  ok_config : config_readable (gl_config g);
}.

Definition dns_notified (request : option keyChangeList) : Prop :=
  match request with Some keys => S_state_global_dns ∈ kc_notify keys | None => False end.

Hypothesis Henumerate : ∀ services, enumerate services ≡ₚ map_to_list services.
Hypothesis Hbase : 0 < base ∧ base + DNS_CONFIG_BUF_MAX < 2 ^ 64.

Lemma set_new_primary_same primary new : (set_new_primary primary new).1 = false → (set_new_primary primary new).2 = primary.
Proof using. destruct new as [new|], primary as [old|]; cbn; try done. by destruct (String.eqb new old). Qed.

Lemma dns_elect_ok c g services primary dns_changed dnsinfo_changed :
  services_ok (gl_services g) → Forall change_typed (ch_services c) →
  dns_elect S_append_state c g = (services, primary, dns_changed, dnsinfo_changed) →
  services_ok services ∧
  (dns_changed = false → service_dns services primary = service_dns (gl_services g) (gl_primary g)).
Proof using.
  intros Hg Hc. unfold dns_elect.
  pose proof (services_dns_changed_ok S_append_state (ch_info c) (ch_services c) (gl_services g) Hg Hc) as [T E].
  destruct (services_dns_changed _ _ _ _) as [ids services']. cbn [fst snd] in T, E.
  set (election := if ch_global c || _ then _ else (false, gl_primary g)).
  assert (H : election.1 = false → election.2 = gl_primary g).
  { unfold election. destruct (_ || _); [apply set_new_primary_same|done]. }
  destruct election as [new primary']. cbn [fst snd] in H. intros [= <- <- <- <-]. split; [done|].
  intros [Hids ->]%orb_false_iff. rewrite (H eq_refl). destruct (gl_primary g) as [id|]; [|done]. apply E. intros Hin.
  assert (Hx : existsb (λ id', bool_decide (Some id = Some id')) ids = true).
  { apply existsb_exists. exists id. split; [by apply list_elem_of_In|by apply bool_decide_true]. }
  by rewrite Hx in Hids.
Qed.

Lemma usable_typed dict : (∀ d, dict = Some d → dns_typed d) → dns_typed (default ∅ (usable_default dict)).
Proof using.
  intros H. destruct dict as [d|]; [|by split]. cbn. destruct (get_array d _) as [[]|]; [by split|by apply H|by split].
Qed.

Lemma service_dns_typed services primary dns : services_ok services → service_dns services primary = Some dns → dns_typed dns.
Proof using.
  intros H E. destruct primary as [id|]; [|done]. rewrite service_dns_default in E.
  exact (typed_dns _ (lookup_service_typed services id H) dns E).
Qed.

Lemma update_dnsinfo_ok c services primary keys config state :
  services_ok services → only_dns keys → config_readable config →
  config_possible c (enumerate services) (service_dns services primary) state →
  ∃ changed keys' config',
    update_dnsinfo S_mdns_timeout S_pdns_timeout garbage base sha1 enumerate S_multicast_resolvers S_private_resolvers
      c services (service_dns services primary) keys config = Some (changed, keys', config') ∧
    kc_remove keys' = kc_remove keys ∧ kc_set keys' = kc_set keys ∧ only_dns keys' ∧ config_readable config' ∧
    (config' ≠ config → S_state_global_dns ∈ kc_notify keys').
Proof using NL Laws RL AL Henumerate Hbase.
  intros Hs Hk Hc [Hn H1 H2 H3 H4 H5]. unfold update_dnsinfo. rewrite Hn.
  destruct (set_configuration_ok (ch_cache c) S_mdns_timeout S_pdns_timeout state garbage base sha1 (ch_now c) (ch_files c)
    (service_dns services primary) (enumerate services) (ch_order c) (get_array (ch_info c) S_multicast_resolvers)
    (get_array (ch_info c) S_private_resolvers) config) as (rs & signature & info & E & Es & Hi); [|exact H5|].
  { split; try done; [by exists services|]. apply usable_typed. intros d. by apply service_dns_typed. }
  rewrite Es. cbn [mbind option_bind]. destruct (bool_decide_reflect (signature = signature_last config)); cbn [negb].
  - eexists _, _, _. split; [reflexivity|]. done.
  - eexists _, _, _. split; [reflexivity|]. split_and!; [done..|by apply notify_only_dns| |].
    + intros data. cbn [S_dns_info]. destruct (bool_decide _ && _); [by rewrite Hi|].
      destruct Hi as (data' & -> & Hd). intros [= <-]. by eexists.
    + intros _. apply in_append_unique. by right.
Qed.

Lemma dns_pass_ok c g : global_ok g → dns_change_ok c g →
  ∃ request g', pass c g = Some (request, g') ∧ global_ok g' ∧
    (∀ key, key ≠ S_state_global_dns → gl_store g' !! key = gl_store g !! key) ∧
    (gl_config g' ≠ gl_config g → dns_notified request).
Proof using NL Laws RL AL Henumerate Hbase.
  intros [Hs Hd Hp Hc] [Ht Hw Hpos]. unfold dns_pass.
  destruct (dns_elect S_append_state c g) as [[[services primary] dns_changed] dnsinfo_changed] eqn:Ee.
  destruct Hpos as (state & Hpos). apply dns_elect_ok in Ee as [T Esame]; [|done..]. rewrite Hw.
  set (upd := if dns_changed then _ else _).
  assert (U : let '(updated, keys, dict, file) := upd in
    dict = service_dns services primary ∧ only_dns keys ∧
    published dict (SCDynamicStoreSetMultiple (keyChangeListApplyToStore keys) (gl_store g) !! S_state_global_dns) file).
  { unfold upd. destruct dns_changed.
    - pose proof (update_dns_ok (service_dns services primary) _ _ _ Hp) as H.
      destruct (update_dns _ _ _ _ _) as [[[updated keys] dict] file]. destruct H as (-> & H1 & H2). done.
    - split; [by rewrite Hd, Esame|]. split; [|exact Hp].
      by split; [split; [apply not_elem_of_nil|]|intros key ?%elem_of_nil]. }
  clearbody upd. destruct upd as [[[updated keys] dict] file]. destruct U as (-> & Hk & Hpub).
  assert (I : ∃ changed keys' config',
    (if dnsinfo_changed || updated
     then update_dnsinfo S_mdns_timeout S_pdns_timeout garbage base sha1 enumerate S_multicast_resolvers
            S_private_resolvers c services (service_dns services primary) keys (gl_config g)
     else Some (false, keys, gl_config g)) = Some (changed, keys', config') ∧
    kc_remove keys' = kc_remove keys ∧ kc_set keys' = kc_set keys ∧ only_dns keys' ∧ config_readable config' ∧
    (config' ≠ gl_config g → S_state_global_dns ∈ kc_notify keys')).
  { destruct (_ || _); [by eapply update_dnsinfo_ok|]. by eexists _, _, _. }
  destruct I as (changed & keys' & config' & -> & Er & Eset & Hk' & Hc' & Hn). cbn [mbind option_bind].
  eexists _, _. split; [reflexivity|]. rewrite apply_lookup in Hpub. split_and!.
  - split; cbn [gl_services gl_dict gl_primary gl_store gl_file gl_config]; [done..| |done].
    by rewrite apply_lookup, Er, Eset.
  - intros key Hkey. cbn [gl_store]. rewrite apply_lookup. destruct Hk' as [Hk' _]. destruct (Hk' key Hkey) as [H1 ->].
    by rewrite decide_False.
  - cbn [gl_config]. intros Hne%Hn. unfold keyChangeListApplyToStore, keyChangeListActive.
    destruct (kc_notify keys') as [|k l] eqn:E; [by apply elem_of_nil in Hne|]. cbn [length].
    replace (0 <? S (length l))%nat with true by done. rewrite orb_true_r. cbn [dns_notified]. by rewrite E.
Qed.

#[local] Instance dns_state_eq_dec : EqDecision dns_state.
Proof. solve_decision. Defined.

(** Every change is possible when it is its turn. *)
Fixpoint dns_changes_ok (changes : list dns_change) (g : dns_global) : Prop :=
  match changes with
  | [] => True
  | c :: changes => dns_change_ok c g ∧ ∀ request g', pass c g = Some (request, g') → dns_changes_ok changes g'
  end.

Lemma dns_passes_ok changes g : global_ok g → dns_changes_ok changes g →
  ∃ requests g', passes changes g = Some (requests, g') ∧ global_ok g' ∧
    (∀ key, key ≠ S_state_global_dns → gl_store g' !! key = gl_store g !! key) ∧
    (gl_config g' ≠ gl_config g → Exists dns_notified requests).
Proof using NL Laws RL AL Henumerate Hbase.
  revert g. induction changes as [|c changes IH]; intros g Hg; cbn [dns_changes_ok]; [by eexists _, _|].
  intros [Hc Hcs]. destruct (dns_pass_ok c g Hg Hc) as (request & g1 & E & Hg1 & Hkeys & Hn).
  destruct (IH g1 Hg1 (Hcs _ _ E)) as (requests & g2 & E2 & Hg2 & Hkeys2 & Hn2).
  exists (request :: requests), g2. cbn [dns_passes]. rewrite E. cbn [mbind option_bind fst snd]. rewrite E2.
  split_and!; [done|done|by intros key Hk; rewrite Hkeys2, Hkeys|]. intros Hne.
  destruct (decide (gl_config g1 = gl_config g)) as [Heq|Heq]; [right; apply Hn2; by rewrite Heq|by left; apply Hn].
Qed.

Definition no_config : dns_state := MkDnsState (replicate CC_SHA1_DIGEST_LENGTH x00) None.

Lemma dns_init_ok now resolver_dir store :
  init now resolver_dir store = Some (MkGlobal ∅ None None None no_config (delete S_state_global_dns store)).
Proof using Laws.
  unfold dns_init, dns_configuration_set. cbn [default].
  destruct (list_resolvers_ok None S_mdns_timeout S_pdns_timeout [] None None [] [])
    as (sorted & first & rest & _ & _ & Hp & _ & E); [by intros ? ? ? ?%elem_of_nil|by split|done|].
  change (from_option id [] (@None (list (string * service_dict)))) with (@nil (string * service_dict)).
  change (from_option id [] (@None (list CFType))) with (@nil CFType).
  rewrite E. cbn [mbind option_bind].
  apply Permutation_length in Hp. assert (Hr : rest = []) by (by destruct rest). by subst rest.
Qed.

End passes.
