(* ===== verification/DnsSetDemo.v ===== *)
(** * The DNS configuration that IPMonitor publishes: concrete services

    A concrete CoreFoundation and network, two services over Wi-Fi and a tunnel on which
    the theorems are evaluated, and the cases where the code does not do what it means
    to. *)

From stdpp Require Import sorting.
From S2P Require Import Prelude RouteTypes RouteList DnsCreate DnsExpand DnsBuild DnsResolver DnsConfig DnsOpenConfig DnsSpec RouteDict NwiState NwiInfo NwiRep NwiInv NwiDemo DnsFlat DnsFlatSpec DnsMerge DnsList DnsSet DnsSort DnsEntries DnsOps DnsMergeSpec DnsPublish DnsGlobal.

Local Open Scope Z_scope.

(** ** A CoreFoundation *)

(** Equality of values, to a depth that no dictionary of a service reaches. *)
Fixpoint cf_equal (depth : nat) (v w : CFType) : bool :=
  match depth with
  | O => true
  | S depth =>
      match v, w with
      | CFString s, CFString t => String.eqb s t
      | CFNumber a x, CFNumber b y => (a =? b) && Bool.eqb x y
      | CFBoolean a, CFBoolean b => Bool.eqb a b
      | CFArray l, CFArray k =>
          (length l =? length k)%nat && forallb (λ p, cf_equal depth p.1 p.2) (zip l k)
      | CFDictionary d, CFDictionary e =>
          bool_decide (dom d = dom e) &&
          forallb (λ p, match e !! p.1 with Some y => cf_equal depth p.2 y | None => false end) (map_to_list d)
      | CFOther, CFOther => true
      | _, _ => false
      end
  end.

Lemma zip_refl (f : CFType → CFType → bool) l : (∀ x, f x x = true) → forallb (λ p, f p.1 p.2) (zip l l) = true.
Proof. intros H. induction l as [|x l IH]; [done|]. cbn. by rewrite H. Qed.
Lemma zip_sym (f : CFType → CFType → bool) l k : (∀ x y, f x y = f y x) →
  forallb (λ p, f p.1 p.2) (zip l k) = forallb (λ p, f p.1 p.2) (zip k l).
Proof. intros H. revert k. induction l as [|x l IH]; intros [|y k]; [done..|]. cbn. by rewrite (H x y), IH. Qed.

Lemma cf_equal_refl n v : cf_equal n v v = true.
Proof.
  revert v. induction n as [|n IH]; [done|]. intros [s|a x|b|l|d|]; cbn [cf_equal].
  - apply String.eqb_refl.
  - by rewrite Z.eqb_refl, Bool.eqb_reflx.
  - apply Bool.eqb_reflx.
  - by rewrite Nat.eqb_refl, zip_refl.
  - rewrite bool_decide_true by done. cbn [andb]. apply Is_true_true, forallb_True, Forall_forall.
    intros [k x] Hk%elem_of_map_to_list. cbn. by rewrite Hk, IH.
  - done.
Qed.

Definition dict_within (f : CFType → CFType → bool) (d e : gmap string CFType) : bool :=
  forallb (λ p, match e !! p.1 with Some y => f p.2 y | None => false end) (map_to_list d).
Lemma dict_within_sym f d e : (∀ x y, f x y = f y x) → dom d = dom e → dict_within f d e = true →
  dict_within f e d = true.
Proof.
  intros Hf Hd H. unfold dict_within in *. apply Is_true_true, forallb_True, Forall_forall.
  apply Is_true_true, forallb_True in H. rewrite Forall_forall in H.
  intros [k y] Hk%elem_of_map_to_list. cbn.
  assert (Hx : is_Some (d !! k)) by (apply elem_of_dom; rewrite Hd; apply elem_of_dom; by eexists).
  destruct Hx as (x & Hx). rewrite Hx, Hf. specialize (H (k, x)). cbn in H. rewrite Hk in H.
  by apply H, elem_of_map_to_list.
Qed.

Lemma cf_equal_sym n v w : cf_equal n v w = cf_equal n w v.
Proof.
  revert v w. induction n as [|n IH]; [done|].
  intros [s|a x|b|l|d|] [t|c y|e|k|d'|]; cbn [cf_equal]; try done.
  - apply String.eqb_sym.
  - rewrite Z.eqb_sym. by destruct x, y.
  - by destruct b, e.
  - by rewrite Nat.eqb_sym, zip_sym.
  - fold (dict_within (cf_equal n) d d') (dict_within (cf_equal n) d' d).
    destruct (bool_decide_reflect (dom d = dom d')) as [E|E].
    + rewrite (bool_decide_true _ (eq_sym E)). cbn [andb]. apply eq_true_iff_eq. 
      split; by apply dict_within_sym.
    + rewrite bool_decide_false by (intros E'; by apply E). done.
Qed.

(** Insertion sort; a comparison that crashes does so for the sort. *)
Section sort.
Context {A : Type} (cmp : A → A → option comparison).

Fixpoint insert_by (x : A) (l : list A) : option (list A) :=
  match l with
  | [] => Some [x]
  | y :: l' =>
      c ← cmp x y;
      match c with
      | Gt => l' ← insert_by x l'; Some (y :: l')
      | _ => Some (x :: l)
      end
  end.
Fixpoint sort_by (l : list A) : option (list A) :=
  match l with [] => Some [] | x :: l => l ← sort_by l; insert_by x l end.

Lemma insert_by_perm x l l' : insert_by x l = Some l' → l' ≡ₚ x :: l.
Proof.
  revert l'. induction l as [|y l IH]; intros l' E; cbn [insert_by] in E; [by injection E as <-|].
  destruct (cmp x y) as [[]|]; cbn [mbind option_bind] in E; [by injection E as <-..| |done].
  destruct (insert_by x l) as [k|] eqn:Ek; [|done]. cbn [mbind option_bind] in E. injection E as <-.
  rewrite (IH _ eq_refl). constructor.
Qed.
Lemma sort_by_perm l l' : sort_by l = Some l' → l' ≡ₚ l.
Proof.
  revert l'. induction l as [|x l IH]; intros l' E; cbn [sort_by] in E; [by injection E as <-|].
  destruct (sort_by l) as [k|] eqn:Ek; [|done]. cbn [mbind option_bind] in E.
  rewrite (insert_by_perm _ _ _ E). by rewrite (IH _ eq_refl).
Qed.

Lemma insert_by_some x l : (∀ y, y ∈ l → is_Some (cmp x y)) → is_Some (insert_by x l).
Proof.
  induction l as [|y l IH]; intros H; [by eexists|]. cbn [insert_by].
  destruct (H y ltac:(by left)) as (c & ->). cbn [mbind option_bind]. destruct c; [by eexists..|].
  destruct IH as (k & ->); [intros z Hz; apply H; by right|]. by eexists.
Qed.
Lemma sort_by_some l : (∀ x y, x ∈ l → y ∈ l → is_Some (cmp x y)) → is_Some (sort_by l).
Proof.
  induction l as [|x l IH]; intros H; [by eexists|]. cbn [sort_by].
  destruct IH as (k & Ek); [intros y z Hy Hz; apply H; by right|]. rewrite Ek. cbn [mbind option_bind].
  apply insert_by_some. intros y Hy. rewrite (sort_by_perm _ _ Ek) in Hy. apply H; [by left|by right].
Qed.

Lemma insert_by_sorted x l l' : consistent cmp (x :: l) → StronglySorted (λ x y, cmp x y ≠ Some Gt) l →
  insert_by x l = Some l' → StronglySorted (λ x y, cmp x y ≠ Some Gt) l'.
Proof.
  intros Hc Hs. revert l'. induction l as [|y l IH]; intros l' E; cbn [insert_by] in E.
  { injection E as <-. by repeat constructor. }
  destruct Hc as (Hn & Ht & Htr). inversion Hs as [|? ? Hs' Hy]; subst.
  apply NoDup_cons in Hn as [Hnx Hn]. rewrite not_elem_of_cons in Hnx. destruct Hnx as [Hxy Hxl].
  destruct (cmp x y) as [c|] eqn:Ec; [|done]. cbn [mbind option_bind] in E.
  rewrite Forall_forall in Hy.
  assert (Hle : c ≠ Gt → StronglySorted (λ x y, cmp x y ≠ Some Gt) (x :: y :: l)).
  { intros Hg. constructor; [done|]. constructor; [by rewrite Ec; intros [= ->]|]. apply Forall_forall. intros z Hz.
    apply NoDup_cons in Hn as [Hny Hn].
    apply (Htr x y z); [by left|by right; left|by right; right|done|by intros ->|by intros ->|by rewrite Ec; intros [= ->]|by apply Hy]. }
  destruct c; [injection E as <-; by apply Hle..|].
  destruct (insert_by x l) as [k|] eqn:Ek; [|done]. cbn [mbind option_bind] in E. injection E as <-.
  constructor.
  - apply IH; [|done|done]. split; [by constructor; [|apply NoDup_cons in Hn as []]|split].
    + intros a b Ha Hb. apply Ht; set_solver.
    + intros a b d Ha Hb Hd. apply Htr; set_solver.
  - rewrite (insert_by_perm _ _ _ Ek). constructor; [|by apply Forall_forall].
    destruct (Ht x y) as (c & Ec1 & Ec2); [by left|by right; left|done|]. rewrite Ec in Ec1. injection Ec1 as <-.
    by rewrite Ec2.
Qed.

Lemma sort_by_sorted l l' : consistent cmp l → sort_by l = Some l' → StronglySorted (λ x y, cmp x y ≠ Some Gt) l'.
Proof.
  revert l'. induction l as [|x l IH]; intros l' Hc E; cbn [sort_by] in E; [injection E as <-; constructor|].
  destruct (sort_by l) as [k|] eqn:Ek; [|done]. cbn [mbind option_bind] in E.
  pose proof (sort_by_perm _ _ Ek) as Hp. destruct Hc as (Hn & Ht & Htr).
  eapply insert_by_sorted; [|apply IH; [|done]|done].
  - split; [by rewrite Hp|split].
    + intros a b. rewrite Hp. apply Ht.
    + intros a b d. rewrite Hp. apply Htr.
  - apply NoDup_cons in Hn as [_ Hn]. split; [done|split].
    + intros a b Ha Hb. apply Ht; by right.
    + intros a b d Ha Hb Hd. apply Htr; by right.
Qed.
End sort.

(** Strings are compared without regard to the case of ASCII letters. *)
Definition folded (s : string) : list Z :=
  (λ a, let z := Z.of_N (N_of_ascii a) in if (65 <=? z) && (z <=? 90) then z + 32 else z) <$> String.list_ascii_of_string s.
Definition descending (a b : Z) : comparison := Z.compare b a.
#[local] Instance descending_total : TotalPreorder descending.
Proof. split; unfold descending; [intros; apply cmp_opp|intros x y z H1 H2; by eapply cmp_trans]. Qed.

Definition names4 : list (string * list byte) :=
  [("8.8.8.8", [x08; x08; x08; x08]); ("10.0.0.53", [x0a; x00; x00; x35])]%string.
Definition names6 : list (string * address) :=
  [("fe80::1"%string, [xfe; x80] ++ replicate 13 x00 ++ [x01]);
   ("2001:4860::8888"%string, [x20; x01; x48; x60] ++ replicate 10 x00 ++ [x88; x88])].
Definition named {A} (l : list (string * A)) (s : string) : option A :=
  snd <$> List.find (λ p, String.eqb p.1 s) l.

Lemma named_size (l : list (string * list byte)) n s a : Forall (λ p, length p.2 = n) l → named l s = Some a → length a = n.
Proof.
  intros H E. unfold named in E. apply fmap_Some in E as ([s' x] & E & ->).
  apply List.find_some in E as [Hin _]. rewrite Forall_forall in H. apply (H (s', x)). by apply list_elem_of_In.
Qed.

#[local] Instance set_network : Network := {|
  inet_pton af s := named (match af with AF_INET => names4 | AF_INET6 => names6 end) s;
  if_nametoindex s := if String.eqb s "en0" then 4 else if String.eqb s "utun0" then 9 else if String.eqb s "tap0" then 11 else 0;
|}.
#[local] Instance set_network_laws : NetworkLaws.
Proof.
  split.
  - intros [] s a; apply named_size; by repeat constructor.
  - intros s. cbn. destruct (String.eqb s "en0"), (String.eqb s "utun0"), (String.eqb s "tap0"); lia.
Qed.

(** IPv6 is preferred. *)
#[local] Instance set_foundation : CoreFoundation := {|
  CFEqual := cf_equal 8;
  CFCopyDescription _ := "";
  CFStringTrimWhitespace s := s;
  CFStringCompare s1 s2 := list_order descending (folded s2) (folded s1);
  CFArraySortValues := sort_by;
  inet_aton := named names4;
  sa_dst_compare_no_dependencies _ _ := -1;
|}.
#[local] Instance set_foundation_laws : CoreFoundationLaws.
Proof.
  split.
  - apply cf_equal_refl.
  - apply cf_equal_sym.
  - by intros [].
  - intros d1 d2. cbn. intros [H _]%andb_true_iff. by apply bool_decide_eq_true in H.
  - intros s1 s2. cbn. apply cmp_opp.
  - intros s1 s2 s3. cbn. intros H1 H2. by eapply cmp_trans.
  - apply sort_by_some.
  - apply sort_by_perm.
  - apply sort_by_sorted.
  - intros s a. apply named_size. by repeat constructor.
Qed.

#[local] Instance set_reachability : Reachability := {|
  if_indextoname i := if i =? 4 then Some "en0"%string else if i =? 9 then Some "utun0"%string else None;
  reachability _ _ := Some (Some 2);
|}.
#[local] Instance set_reachability_laws : ReachabilityLaws.
Proof. split. intros i s. cbn. destruct (i =? 4), (i =? 9); by intros [= <-]. Qed.

(** ** Files *)

(** The [sockaddr] of a numeric address; an address may be short of its last numbers, as
    [inet_aton(3)] has it. *)
Definition sockaddr4 (a : list byte) : list byte := [x10; x02; x00; x00] ++ a ++ replicate 8 x00.
Definition sockaddr6 (a : list byte) : list byte := [x1c; x1c] ++ replicate 6 x00 ++ a ++ replicate 4 x00.
Definition numeric_hosts : list (string * list byte) :=
  [("8.8.8.8"%string, sockaddr4 [x08; x08; x08; x08]); ("10.0.0.53"%string, sockaddr4 [x0a; x00; x00; x35]);
   ("10.0.0"%string, sockaddr4 [x0a; x00; x00; x00]);
   ("fe80::1"%string, sockaddr6 ([xfe; x80] ++ replicate 13 x00 ++ [x01]))].
#[local] Instance set_address_info : AddressInfo := {| getaddrinfo := named numeric_hosts |}.
#[local] Instance set_address_info_laws : AddressInfoLaws.
Proof.
  split. intros s sa E. change (named numeric_hosts s = Some sa) in E.
  unfold named in E. apply fmap_Some in E as ([s' x] & E & ->). apply List.find_some in E as [Hin _].
  repeat (destruct Hin as [[= <- <-]|Hin]; [cbn; auto|]). destruct Hin.
Qed.

Definition text (lines : list string) : string := foldr (λ line rest, line +:+ eol +:+ rest) EmptyString lines.
Definition test_file : string :=
  text ["# the resolver of a test network"; "options timeout:3 debug"; "nameserver 10.0.0.53"; "Nameserver fe80::1.5353";
        "nameserver nonsense"; "nameserver 8.8.8.8"; "search lab.test. test"; "port 0x14e9"; "flags A"]%string.
Definition demo_files : files :=
  MkFiles (Some ["."; ".."; "test"; "empty"]%string)
    (λ path, named [("/etc/resolver/test"%string, test_file); ("/etc/resolver/empty"%string, ""%string)] path).

(** The fourth server is one too many, and the domain is the name of the file. *)
Example test_file_said :
  file_resolver DNS_RESOLVER_FLAGS_REQUEST_ALL_RECORDS "test" (file_entries test_file) =
  MkResolver (Some "test"%string)
    [sockaddr4 [x0a; x00; x00; x35]; with_port 5353 (sockaddr6 ([xfe; x80] ++ replicate 13 x00 ++ [x01]))]
    5353 ["lab.test"; "test"]%string [] (Some "timeout:3 debug"%string) 0 0 0 DNS_RESOLVER_FLAGS_REQUEST_A_RECORDS 0 0
    None None.
Proof. by vm_compute. Qed.

Lemma flatfile_create_resolver_reads_witness :
  ∃ calls, Forall op_ok calls ∧
    foldl spec_op empty_resolver calls = file_resolver 6 "test" (file_entries test_file) ∧
    (raw_fits (foldl raw_op (zero_header, []) calls) →
     ∃ blk, build_resolver (λ _, xaa) calls = Some blk ∧
       _dnsinfo_flatfile_create_resolver (λ _, xaa) demo_files 6 _PATH_RESOLVER_DIR "test" = Some (Some blk)).
Proof. exact (flatfile_create_resolver_reads (λ _, xaa) demo_files 6 _PATH_RESOLVER_DIR "test" I). Defined.

(** Two blanks behind a keyword make the word behind it empty: the file is no longer for
    the domain it is named after, nor for the one it names. *)
Example two_blanks :
  dr_domain (file_resolver 6 "corp.com" (file_entries (text ["domain  corp.com"; "nameserver 10.0.0.53"]%string))) = None.
Proof. by vm_compute. Qed.
(** What follows the last dot of a server need not be a port. *)
Example port_that_is_none :
  dr_nameserver (file_resolver 6 "corp.com" (file_entries (text ["nameserver 8.8.8.8.foo"; "nameserver 10.0.0.x"]%string))) =
    [sockaddr4 [x08; x08; x08; x08]; sockaddr4 [x0a; x00; x00; x00]].
Proof. by vm_compute. Qed.
(** A file can end in the name of an interface that runs on into what is behind it. *)
Example file_name_runs_on :
  ends_unterminated <$> file_calls 6 "x" (file_entries (text ["nameserver 10.0.0.53"; "domain corp.com"; "interface en0 "; "timeout 3"]%string)) =
    Some false ∧
  ends_unterminated <$> file_calls 6 "x" (file_entries (text ["domain corp.com"; "interface tap0"]%string)) = Some true.
Proof. by vm_compute. Qed.

(** ** Two services *)

Definition dict_of (l : list (string * CFType)) : CFDict := list_to_map l.
Definition strings (l : list string) : CFType := CFArray (CFString <$> l).
Definition on_interface (name : string) (A : Type) : option (CFDict * RouteList A) :=
  Some (dict_of [("InterfaceName"%string, CFString name)], MkRouteList A 1 kRouteListFlagsHasDefault []).

(** Wi-Fi as the primary service with the servers of the network, and a tunnel with
    a server for the domain of a company. *)
Definition before_changes : gmap string service_dict := list_to_map
  [("wifi"%string, MkServiceDict (on_interface "en0" IPv4Addrs) (on_interface "en0" IPv6Addrs) None ∅);
   ("vpn"%string, MkServiceDict (on_interface "utun0" IPv4Addrs) None None ∅)].
Definition wifi_state : CFDict := dict_of
  [("ServerAddresses", strings ["8.8.8.8"; "2001:4860::8888"]); ("DomainName", CFString "home.org");
   ("SearchDomains", strings ["home.org"])]%string.
Definition vpn_state : CFDict := dict_of
  [("ServerAddresses", strings ["10.0.0.53"]); ("SupplementalMatchDomains", strings ["corp.com"; "lab.corp.com"]);
   ("ConfirmedServiceID", CFString "vpn"); ("InterfaceName", CFString "utun0")]%string.
Definition setup_info : CFDict := dict_of [("Setup:/Network/Service/wifi/IPv4", CFDictionary ∅)]%string.

Definition wifi_changes := get_dns_changes false before_changes "wifi" (Some wifi_state) None setup_info.
Definition set_services : gmap string service_dict :=
  (get_dns_changes false wifi_changes.1.2 "vpn" (Some vpn_state) None setup_info).1.2.

Definition services_list : list (string * service_dict) := map_to_list set_services.
Definition wifi_dns : option CFDict := set_services !! "wifi"%string ≫= sd_dns.
Definition user_order : option (list CFType) := Some [CFString "wifi"; CFString "vpn"].
Definition demo_listed : option (list CFDict) :=
  list_resolvers None None None wifi_dns services_list user_order [CFString "local"] [].

Lemma before_ok : services_ok before_changes.
Proof.
  intros id service. unfold before_changes. rewrite <-elem_of_list_to_map by (by apply (bool_decide_unpack _)).
  rewrite !elem_of_cons, elem_of_nil. intros [[= -> ->]|[[= -> ->]|[]]]; by split.
Qed.

Lemma get_dns_changes_typed_witness :
  services_ok wifi_changes.1.2 ∧ wifi_changes.1.1 = true ∧
  wifi_changes.1.2 !! "vpn"%string = before_changes !! "vpn"%string.
Proof.
  pose proof (get_dns_changes_typed false before_changes "wifi" (Some wifi_state) None setup_info before_ok I) as H.
  cbn zeta in H. unfold wifi_changes. destruct (get_dns_changes _ _ _ _ _ _) as [[changed services'] nat64].
  destruct H as (H1 & H2 & H3 & _). split; [exact H1|]. split; [by rewrite H3; vm_compute|by apply H2].
Defined.

Lemma set_services_ok : services_ok set_services.
Proof.
  assert (H : services_ok wifi_changes.1.2) by apply get_dns_changes_typed_witness.
  pose proof (new_dns_dict_typed false) as Ht. unfold set_services, get_dns_changes.
  destruct (new_dns_dict _ _ _ _ _ _) as [new interface] eqn:E.
  pose proof (service_set_typed wifi_changes.1.2 "vpn" new H) as Hs.
  destruct (service_dict_set_dns _ _ _) as [changed services']. apply Hs. intros dns ->.
  eapply Ht; [| |by erewrite E]; [by apply lookup_service_typed|done].
Qed.


(** ** Resolvers *)

Definition wifi_default : CFDict := default ∅ wifi_dns.
Definition demo_before : list CFDict := entries_before None services_list user_order [].

Lemma demo_services_typed : services_typed services_list.
Proof. by apply (listed_services set_services services_list set_services_ok). Qed.
Lemma wifi_default_typed : dns_typed wifi_default.
Proof. split; by vm_compute. Qed.
Lemma demo_before_typed : Forall resolver_typed (numbered None 0 demo_before).
Proof.
  apply numbered_typed. pose proof (all_entries_typed None None None services_list user_order None [] []
    demo_services_typed ltac:(by split)) as H.
  unfold all_entries in H. by apply Forall_app in H as [H _].
Qed.

Lemma extract_search_domains_list_witness :
  ∃ front rest,
    extract_search_domains wifi_default (Some (numbered None 0 demo_before)) =
      Some (Some (front ++ rest), delete "SearchDomains"%string (delete "DomainName"%string wifi_default)) ∧
    "corp.com"%string ∈ front ∧ "home.org"%string ∈ front ++ rest ∧ NoDup (front ++ rest).
Proof.
  destruct (extract_search_domains_list wifi_default (numbered None 0 demo_before) demo_before_typed
    (numbered_NoDup None 0 demo_before)) as (front & rest & E & Hf & Ha & Hn & _).
  assert (Hh : "home.org"%string ∈ front ++ rest) by (apply Ha; left; by vm_compute; left).
  exists front, rest. split; [|split; [|split; [exact Hh|apply Hn, (bool_decide_unpack _); by vm_compute]]].
  - rewrite E. clear E Hf Ha Hn. destruct (front ++ rest) as [|x l]; [by apply not_elem_of_nil in Hh|]. cbn [length Nat.eqb]. reflexivity.
  - apply Hf.
    assert (H : match numbered None 0 demo_before with
                | r :: _ => search_domain r = Some "corp.com"%string ∧
                            resolver_search_order r < resolver_search_order wifi_default
                | [] => False
                end) by (vm_compute; split; reflexivity).
    destruct (numbered None 0 demo_before) as [|r l]; [destruct H|]. exists r. split; [by left|exact H].
Defined.

Lemma list_resolvers_refines_witness :
  ∃ first rest, demo_listed = Some (first :: rest) ∧ length rest = 5%nat.
Proof.
  assert (Hl : Z.of_nat (length (all_entries None None None services_list user_order wifi_dns [CFString "local"] [])) < 2 ^ 31)
    by (vm_compute; reflexivity).
  pose proof (list_resolvers_refines None None None services_list user_order wifi_dns [CFString "local"] []
    demo_services_typed wifi_default_typed Hl) as H.
  destruct H as (sorted & first & rest & _ & _ & _ & _ & E).
  assert (El : length <$> demo_listed = Some 6%nat) by (vm_compute; reflexivity).
  eexists _, _. split; [exact E|]. unfold demo_listed in El. rewrite E in El. cbn [fmap option_fmap option_map length] in El.
  by injection El.
Defined.

(** ** What is published *)

Definition demo_resolvers : list CFDict := default [] demo_listed.
Definition demo_published (st : dns_state) : option (bool * dns_state) :=
  dns_configuration_set None None None (Some demo_state) (λ _, xaa) 4096 id 77 demo_files wifi_dns (Some services_list)
    user_order (Some [CFString "local"]) None st.

Lemma demo_inputs_ok :
  inputs_ok None None None (Some (demo_state, demo_view)) 4096 demo_files wifi_dns services_list user_order
    (Some [CFString "local"]) None.
Proof.
  split; [exact demo_ok|by exists set_services; split; [apply set_services_ok|]|..].
  - split; by vm_compute.
  - vm_compute. reflexivity.
  - repeat constructor.
  - intros flags. vm_compute. reflexivity.
  - split; vm_compute; reflexivity.
Qed.

Lemma demo_resolvers_listed rs :
  list_resolvers None None None (usable_default wifi_dns) services_list user_order
    (default [] (Some [CFString "local"])) (default [] None) = Some rs → rs = demo_resolvers.
Proof.
  assert (Hu : usable_default wifi_dns = wifi_dns) by (vm_compute; reflexivity).
  rewrite Hu. intros E. unfold demo_resolvers, demo_listed. cbn [default from_option id] in E. by rewrite E.
Qed.

Lemma dns_configuration_set_publishes_witness :
  ∃ st' data, demo_published (MkDnsState [] None) = Some (true, st') ∧ S_dns_info st' = Some data ∧
    copy_config 65536 data (Z.of_nat (length data)) =
    Some (Some (seen_config None (Some (demo_state, demo_view)) 77 demo_files services_list demo_resolvers)).
Proof.
  destruct (dns_configuration_set_publishes None None None (Some (demo_state, demo_view)) (λ _, xaa) 4096 id 77 demo_files
    services_list wifi_dns user_order (Some [CFString "local"]) None (MkDnsState [] None) demo_inputs_ok)
    as (rs & changed & st' & El & Es & Hc & H).
  { intros rs E. apply demo_resolvers_listed in E as ->. vm_compute. discriminate. }
  apply demo_resolvers_listed in El as ->.
  change (demo_published (MkDnsState [] None) = Some (changed, st')) in Es.
  assert (Hs : signature_last st' ≠ []).
  { assert (E : (λ r, length (signature_last r.2)) <$> demo_published (MkDnsState [] None) = Some 20%nat)
      by (vm_compute; reflexivity).
    rewrite Es in E. cbn [fmap option_fmap option_map snd] in E.
    intros Hs. rewrite Hs in E. discriminate. }
  destruct changed; [|by destruct Hs; apply Hc].
  destruct (bool_decide (usable_default wifi_dns = None) && (length demo_resolvers <=? 1)%nat) eqn:Eb; [by vm_compute in Eb|].
  destruct H as (data & Hd & Hr). exists st', data. split; [exact Es|]. split; [exact Hd|].
  apply Hr; vm_compute; reflexivity.
Defined.

(** ** Where the code does not do what it means to *)

(** Of two resolvers without a domain, each is less than the other, and most lists hold
    several: the default one and the scoped ones, whose domains were made search lists. *)
Theorem compareDomain_both_less dns1 dns2 :
  has_key dns1 "DomainName" = false → has_key dns2 "DomainName" = false →
  compareDomain dns1 dns2 = Some Lt ∧ compareDomain dns2 dns1 = Some Lt.
Proof.
  unfold has_key. intros H1%bool_decide_eq_false_1 H2%bool_decide_eq_false_1. unfold compareDomain.
  destruct (dns1 !! "DomainName"%string); [by destruct H1|]. destruct (dns2 !! "DomainName"%string); [by destruct H2|done].
Qed.

(** With another function that sorts, a scoped resolver comes out first, and is given the
    search list of the default configuration. *)
Definition other_foundation : CoreFoundation := {|
  CFEqual := CFEqual;
  CFCopyDescription := CFCopyDescription;
  CFStringTrimWhitespace := CFStringTrimWhitespace;
  CFStringCompare := CFStringCompare;
  CFArraySortValues cmp l := sort_by cmp (rev l);
  inet_aton := inet_aton;
  sa_dst_compare_no_dependencies := sa_dst_compare_no_dependencies;
|}.
Lemma other_foundation_laws : @CoreFoundationLaws other_foundation.
Proof.
  assert (Hr : ∀ (l : list CFDict) x, x ∈ rev l ↔ x ∈ l) by (intros l x; by rewrite <-Permutation_rev).
  destruct set_foundation_laws as [H1 H2 H3 H4 H5 H6 _ _ _ H7]. split; try assumption.
  - intros cmp l H. cbn. apply sort_by_some. intros x y Hx Hy. apply H; by apply Hr.
  - intros cmp l l' E. cbn in E. rewrite (sort_by_perm _ _ _ E). symmetry. apply Permutation_rev.
  - intros cmp l l' (Hn & Ht & Htr) E. cbn in E. eapply sort_by_sorted; [|exact E].
    split; [by rewrite <-Permutation_rev|split].
    + intros x y. rewrite !Hr. apply Ht.
    + intros x y z. rewrite !Hr. apply Htr.
Qed.

Theorem default_not_first :
  (λ l, (λ r, (get_string r DNS_CONFIGURATION_CONFIGURATION_ID, r !! "SearchDomains"%string)) <$> head l) <$>
    @list_resolvers set_network other_foundation None None None wifi_dns services_list user_order [CFString "local"] [] =
  Some (Some (Some "Scoped: vpn 0"%string, Some (strings ["corp.com"; "lab.corp.com"; "home.org"]%string))).
Proof. by vm_compute. Qed.

(** A resolver that is in the list already is added again: it has no position yet, those
    in the list have one. *)
Example added_twice :
  (l ← add_resolver None [] vpn_state; length <$> add_resolver None l vpn_state) = Some 2%nat.
Proof. by vm_compute. Qed.

(** A service without addresses keeps its servers, and a dictionary with nothing in it,
    though only supplemental and service-specific settings are meant to be kept. *)
Example kept_without_addresses :
  (new_dns_dict false no_service "lan" (Some (dict_of [("ServerAddresses", strings ["8.8.8.8"])]%string)) None ∅).1 =
    Some (dict_of [("ServerAddresses", strings ["8.8.8.8"])]%string) ∧
  (new_dns_dict false no_service "lan" (Some ∅) None ∅).1 = Some ∅.
Proof. by vm_compute. Qed.

(** The name of an interface in the store that is no string is kept, and crashes the
    next pass. *)
Definition bad_name : CFDict := <["InterfaceName"%string := CFNumber 9 true]> vpn_state.
Definition bad_services : gmap string service_dict :=
  (get_dns_changes false ∅ "vpn" (Some bad_name) None ∅).1.2.
Example bad_name_crashes :
  list_resolvers None None None None (map_to_list bad_services) None [] [] = None.
Proof. by vm_compute. Qed.

(** ** Passes *)

(** Both services appear; then Wi-Fi goes, and the tunnel is primary. *)
Definition change_info : CFDict :=
  <["State:/Network/MulticastDNS"%string := CFArray [CFString "local"]]> setup_info.
Definition both_appear : dns_change := {|
  ch_services := [MkChange "wifi" (on_interface "en0" IPv4Addrs) (on_interface "en0" IPv6Addrs) ∅ (Some wifi_state) None;
                  MkChange "vpn" (on_interface "utun0" IPv4Addrs) None ∅ (Some vpn_state) None];
  ch_info := change_info; ch_elected := (Some "wifi"%string, Some "wifi"%string); ch_ranks := (∅, ∅); ch_global := true;
  ch_dnsinfo := false; ch_nwi := Some demo_state; ch_nwi_updated := true; ch_cache := None; ch_order := user_order;
  ch_files := demo_files; ch_now := 77; ch_writable := true;
|}.
Definition wifi_goes : dns_change := {|
  ch_services := [MkChange "wifi" None None ∅ None None];
  ch_info := change_info; ch_elected := (Some "vpn"%string, None); ch_ranks := (∅, ∅); ch_global := true;
  ch_dnsinfo := false; ch_nwi := Some demo_state; ch_nwi_updated := true; ch_cache := None; ch_order := user_order;
  ch_files := demo_files; ch_now := 78; ch_writable := true;
|}.

Notation demo_pass := (dns_pass false None None (λ _, xaa) 4096 id map_to_list "State:/Network/MulticastDNS"
  "State:/Network/PrivateDNS").
Notation demo_passes := (dns_passes false None None (λ _, xaa) 4096 id map_to_list "State:/Network/MulticastDNS"
  "State:/Network/PrivateDNS").
Definition started : dns_global := MkGlobal ∅ None None None no_config ∅.

(** A change whose configuration can be computed is possible. *)
Lemma change_possible_demo c g services primary dns_changed dnsinfo_changed :
  Forall change_typed (ch_services c) → ch_writable c = true → ch_nwi c = Some demo_state → ch_files c = demo_files →
  dns_elect false c g = (services, primary, dns_changed, dnsinfo_changed) →
  let usable := usable_default (service_dns services primary) in
  let multicast := default [] (get_array (ch_info c) "State:/Network/MulticastDNS") in
  let private := default [] (get_array (ch_info c) "State:/Network/PrivateDNS") in
  let listed := list_resolvers (ch_cache c) None None usable (map_to_list services) (ch_order c) multicast private in
  (Z.of_nat (length (all_entries (ch_cache c) None None (map_to_list services) (ch_order c) usable multicast private))
   <? 2 ^ 31) = true →
  match listed with
  | Some rs =>
      config_size (ch_now c) (published_ops (ch_cache c) (Some (demo_state, demo_view)) demo_files (map_to_list services) rs)
      <=? DNS_CONFIG_BUF_MAX
  | None => true
  end = true →
  dns_change_ok false None None map_to_list "State:/Network/MulticastDNS" "State:/Network/PrivateDNS" c g.
Proof.
  intros Ht Hw Hn Hf Ee. cbn zeta. intros Hl%Z.ltb_lt Hs. split; [done..|]. rewrite Ee.
  exists (Some (demo_state, demo_view)). split; [done|exact demo_ok|by rewrite Hf; repeat constructor| |exact Hl|].
  - intros flags. rewrite Hf. vm_compute. reflexivity.
  - intros rs E. rewrite Hf. rewrite E in Hs. by apply Z.leb_le.
Qed.

Lemma both_appear_ok :
  dns_change_ok false None None map_to_list "State:/Network/MulticastDNS" "State:/Network/PrivateDNS" both_appear started.
Proof.
  eapply (change_possible_demo _ _ set_services (Some "wifi"%string) true true); [|done..| | |].
  - repeat constructor.
  - vm_compute. reflexivity.
  - vm_compute. reflexivity.
  - vm_compute. reflexivity.
Qed.

Lemma wifi_goes_ok request g : demo_pass both_appear started = Some (request, g) →
  dns_change_ok false None None map_to_list "State:/Network/MulticastDNS" "State:/Network/PrivateDNS" wifi_goes g.
Proof.
  intros E.
  assert (Hs : match demo_pass both_appear started with Some (_, g) => gl_services g | None => ∅ end = set_services)
    by (vm_compute; reflexivity).
  assert (Hp : match demo_pass both_appear started with Some (_, g) => gl_primary g | None => None end =
    Some "wifi"%string) by (vm_compute; reflexivity).
  rewrite E in Hs, Hp.
  eapply (change_possible_demo _ _ (delete "wifi"%string set_services) (Some "vpn"%string) true true); [|done..| | |].
  - repeat constructor.
  - unfold dns_elect. rewrite Hs, Hp. vm_compute. reflexivity.
  - vm_compute. reflexivity.
  - vm_compute. reflexivity.
Qed.

